(* ===== verification/_CoqProject ===== *)
-Q . S2P
Prelude.v
Phase.v
Task.v
Ordered.v
CycleDetect.v
PlanState.v
StateMachine.v
Bytes.v
AuditChain.v
EventLog.v
Snapshot.v
SnapshotDelta.v
Recovery.v
Executor.v
Ceiling.v
Budget.v
MergeQueue.v
Permit.v
LoopGuard.v
Taint.v
KeyedMix.v
Capability.v
Pipeline.v
TaskScheduler.v
CircuitBreaker.v
Gates.v
Combinators.v
Dag.v
DagSchedule.v
DagMutate.v
DagFuse.v
Graph.v
GraphEngine.v
WorkflowToml.v
Collusion.v
ChainTypes.v
AgentRegistry.v
X402.v
Dispatch.v
Marketplace.v
Reputation.v
KoraiToken.v
Floats.v
Retry.v
Progress.v
Sandbox.v
Repair.v
PostMerge.v
Text.v
Body.v
Scoring.v
Engram.v
Signals.v
Job.v
Immune.v
Namespace.v
Arbitration.v
Watchers.v
Patterns.v
Conductor.v
Stuck.v
Diagnosis.v
Healing.v
Federation.v
Tool.v
GitGuard.v
BashGuard.v
RateLimit.v
Temporal.v
Network.v
PathGuard.v
Warrant.v
Risk.v
Contract.v
SafetyLayer.v
SafetySession.v
Authz.v
Dispatcher.v
Translate.v
ToolLoop.v
