(* ===== verification/Prelude.v ===== *)
(** * A verification development of Roko

    Roko runs plans of coding tasks with agents.  A plan goes through a lifecycle
    of phases (enrichment, implementation, gates, verification, review,
    documentation, merge); the tasks of all plans form a dependency graph that
    says what may run when; finished plans queue for merging; an event log, an
    audit chain and snapshots let a crashed orchestrator resume; a single workflow
    run is driven by a pipeline state machine; gates decide whether work is
    accepted; budgets, permits, capabilities, taint and circuit breakers limit what
    agents may do; a second engine runs plans as graphs of cells; and the chain crate
    keeps the agents' passports, jobs, payments and reputation.  This library models
    that core, which the sources keep free of I/O, and proves it correct.

    ** The parts and their files (sources under src/crates/)

    - Prelude: results and the [?] operator, machine integers, binary64 floats,
      strings, stable sorting, ordered and unordered maps, vectors, tactics.
    - Phase, Task, PlanState: the data of roko-core/src/phase.rs, task.rs,
      agent.rs, verdict.rs and of roko-orchestrator/src/executor/plan_state.rs and
      action.rs.
    - StateMachine: executor/state_machine.rs, [transition] and [next_action].
    - Bytes, AuditChain, EventLog: canonical encodings and content hashes
      (roko-core/src/hash.rs), safety/audit_chain.rs, event_log.rs.
    - Snapshot, SnapshotDelta, Recovery: executor/snapshot.rs (envelope, verified
      load, legacy migration; deltas and canonical hashes) and executor/recovery.rs.
    - Executor: executor/reorder.rs and executor/mod.rs, the parallel executor that
      owns the plans, their queue and their audit chain.
    - Ceiling, Budget: executor/priority_ceiling.rs and executor/resource_budget.rs.
    - MergeQueue: merge_queue.rs.
    - Pipeline, WorkflowToml: roko-runtime/src/pipeline_state.rs, the state machine
      and the reader of its configuration files.
    - TaskScheduler: roko-runtime/src/task_scheduler.rs.
    - Permit, LoopGuard, Taint, KeyedMix, Capability: safety/permit.rs,
      loop_guard.rs, taint_propagation.rs and capability_tokens.rs (KeyedMix is the
      keyed mixing function of its signatures), with roko-core/src/provenance.rs.
    - Text, Body, Scoring, Engram: roko-core/src/kind.rs, body.rs, score.rs, decay.rs,
      engram.rs and pulse.rs, the signals all parts exchange, with their content hash
      (Text is the part of the standard library's text handling they use).
    - Signals: roko-runtime/src/event_bus.rs, the bus of numbered events with its replay ring,
      roko-runtime/src/pulse_bus.rs and roko-core/src/bus_backends.rs, the buses of pulses, and
      roko-runtime/src/cancel.rs, the tree of cancellation tokens.
    - Job, Immune, Namespace, Arbitration: roko-core/src/job.rs (job records and their
      store), immune.rs (quarantine), namespace.rs (access lists and channels) and
      arbitration.rs (which subsystem's guidance wins).
    - CircuitBreaker: roko-conductor/src/circuit_breaker.rs and the phase timeouts
      of state_machine.rs.
    - Watchers, Patterns, Conductor: the ten watchers of roko-conductor/src/watchers;
      interventions.rs, pattern_detector.rs, threshold_learner.rs and
      roko-core/src/conductor.rs; and conductor.rs, which runs the watchers over the
      stream of signals, decides and feeds the circuit breaker.
    - Stuck, Diagnosis, Healing, Federation: the rest of roko-conductor/src:
      stuck_detection.rs (heuristics over a history of activity, and the reflection on
      them), diagnosis.rs (known errors in an output), health.rs, self_healing.rs
      (oscillating watchers, restarts), federation.rs and yerkes_dodson.rs (the conductors
      of a turn, a plan and the fleet; pressure).
    - Gates, Combinators: roko-gate/src/gate_pipeline.rs, rung_selector.rs and ratchet.rs;
      composition.rs.
    - Ordered, CycleDetect, Dag, DagSchedule, DagMutate, DagFuse: dag.rs.  Ordered
      states what a key type promises to ordered collections (class [Ord]);
      CycleDetect is [detect_cycle_nodes]; Dag is construction and topological
      sort; DagSchedule is waves, critical path and execution snapshots; DagMutate
      is mutations, culling and the incremental wrapper; DagFuse is chain fusion.
    - Graph, GraphEngine: roko-graph/src/types.rs, topo.rs, loader.rs and convert.rs;
      engine.rs, registry.rs and budget.rs.
    - Floats, Retry: roko-core/src/error: the retry policies and the call breaker
      of retry.rs, the error taxonomy of mod.rs and the codes of rpc.rs (Floats is the
      fused multiplication that jitter uses, with bounds on its rounding).
    - Progress, Repair, PostMerge: progress.rs, the tracker that lets plans only move
      forward; replan.rs and repair.rs, requests to revise a plan and the repair of a
      failed task; post_merge.rs, regressions after a merge.
    - Sandbox: safety/sandboxing.rs, what a subprocess may touch.
    - ChainTypes, AgentRegistry, X402, Dispatch, Marketplace, Collusion, Reputation,
      KoraiToken: the contracts of roko-chain/src: the shared types of phase2.rs,
      agent_registry.rs (passports and tiers), x402.rs (payment channels), the hiring part
      of identity_economy_markets.rs, marketplace.rs (jobs, escrow and disputes),
      collusion.rs (rings of agents that assign each other jobs), reputation_registry.rs
      (scores, slashes, bans and recovery) and korai_token.rs (balances with demurrage, and
      the emission schedule).
    - Tool, GitGuard, BashGuard, RateLimit, Temporal, Network, PathGuard, Warrant, Risk,
      Contract: the guards of roko-agent/src/safety over the calls of
      roko-core/src/tool: git.rs (protected branches), bash.rs and allowlist.rs, rate_limit.rs,
      temporal.rs (Never, Always and Eventually), network.rs, path.rs (the worktree),
      capabilities.rs (warrants), risk.rs (the safety budget) and contract.rs (contracts of
      roles).
    - SafetyLayer, SafetySession: scrub.rs (secrets in outputs) and safety/mod.rs, which runs
      the guards in order over one state, with the roles of roko-core/src/config/agent.rs;
      and what holds of a session of calls.
    - Authz, Dispatcher: safety/authz.rs and provenance.rs (decisions, confirmation and
      custody) with the checks around a dispatch; roko-agent/src/dispatcher (mod.rs,
      validate.rs, tool_selector.rs, hook_chain.rs, truncate.rs, parallel.rs) with the hooks of
      safety/hooks.rs, hallucination.rs and result_filter.rs, and the tools of
      roko-core/src/tool/def.rs and registry.rs.
    - Translate, ToolLoop: the responses of roko-agent/src/translate (mod.rs and the OpenAI
      translator openai.rs) with usage (roko-core/src/chat_types.rs and usage.rs); and the
      conversation with a model, roko-agent/src/tool_loop (mod.rs, prune.rs, compaction.rs,
      checkpoint.rs, result_msg.rs, max_iter.rs) with retry.rs, the errors of provider/mod.rs,
      the monitor of introspection.rs and the budget of lifecycle.rs.

    The executor calls the state machine for every event and appends to the audit
    chain; recovery folds the event log into plan states from which the executor is
    rebuilt; snapshots carry the executor's plans and queue.  The DAG, the merge
    queue, the scheduler and the pipeline are used side by side by the runtime.
    Gates give the verdicts that plan states and pipelines consume; a plan is
    converted to a cell graph that the graph engine runs.  The progress tracker accepts
    every transition of the state machine; the repair engine decides what follows a
    failure.  The marketplace hires agents through the dispatch functions; the contracts
    are otherwise independent.  Signals are engrams; the conductor reads a stream of them
    and its watchers answer with new ones.  Every tool call and subprocess of an agent passes
    the safety layer, a composition of guards that each read and change it; the first refusal
    ends the check, and the state changed before it stays changed.  The dispatcher asks the
    layer between its own permissions and the hooks, runs the handler, and cuts and scrubs what
    comes back.  [dispatch] is the way of one call, with hooks and handlers as functions on the
    world; in [dispatch_batch] they are futures, state machines that are polled from wait to
    wait, in any order, may be dropped by the timeout or the token (handlers only) and need not
    end; where they do not wait the steps of a call come to [dispatch]
    ([Dispatcher.dispatch_is_a_run]).  The tool loop sends the
    conversation to the model through the retries, reads the calls of its response with the
    translator, gives them to the dispatcher as one batch, adds the results to the conversation
    and prunes it, until an answer without calls or a limit ends it.

    ** How the code is modelled

    A struct is a [Record], an enum an [Inductive] with the same constructors, each
    in a [Module] named after it with its operations.  A method that mutates its
    receiver returns the new state with its result; state behind a mutex is the
    value the lock protects, since every method holds the lock for its whole body.
    [usize] is [nat]; [u32] and [u64] are [N] with wrap-around or saturation written
    out where the code has it; [i64] is [Z]; [f64] is the Standard Library's
    executable binary64.  Clock readings are arguments.  A [BTreeMap] or [BTreeSet]
    is a finite map or set iterated in key order; a [HashMap] or [HashSet] is
    iterated in the order of a [HashIter], and the theorems hold for every order.

    Third-party code is a parameter: [Blake3] (only the digest length is assumed;
    tampering theorems exhibit a collision otherwise), [Json] and [PhaseSerde]
    (serde_json accessors), [SnapshotText] and [SnapshotSerde] (rendering of
    snapshots), [DeltaSerde] (JSON values of snapshots), [TaskJson], [InvalidText]
    (debug text in error messages), [DiGraphLib] (petgraph, with its documented laws
    in [DiGraphLaws]), [TomlValue], [RevisionText] (the JSON text of a revision request),
    [JsonObject], [Libm] (the natural logarithm), [PowLib] (the power function), [ExpLib]
    (the exponential), [EngramParts] (values an engram only carries), [BodySerde], [JsonText],
    [WatcherSerde] and [ConductorSerde] (JSON forms of bodies, events and decisions),
    [DebugText] (debug text of a list), [Lowercase] (Unicode's lower case, which on ASCII is
    the ASCII one), [ExpFloat] (the exponential of f64, which is one at zero), [RegexLib] and
    [ScrubRegex] (regular expressions, with the order of their spans), [UrlLib] (the parser of
    URLs), [FileSystem] with [FileSystemLaws] (what paths exist, and that canonical paths are
    absolute and free of dots), [JsonNumber] (numbers of JSON), [ContractAssets] (the text of
    contracts), [DebugCapability] and [DebugTaint], [ParamsHash] (the standard library's hasher),
    [JsonInt], and [JsonBuild] with [JsonBuildLaws] (building and parsing JSON; a JSON pointer is
    written out over the accessors, as RFC 6901 says), and [Mpsc] with [MpscLaws] (the bounded
    channel of tokio).  Each parameter a property depends on has a concrete instance in its
    witness.  A gate, a cell, and for one call a hook or the handler of a tool, is a function on
    an abstract world that also holds the clock, and the [Runtime] of the tool loop is the model,
    the dispatcher, the random draws, the clock and the file of the checkpoint as functions on
    such a world, so that theorems speak of which of them run, and in which order.

    Loops without a structural measure take fuel: the depth-first search, Kahn's
    loop, the backward search of [cull] and the propagation of dirtiness get the
    number of nodes or edges, the fusion loop the number of tasks, the draining of
    the merge queue the retries left, the cascade of skipped tasks a bound on the
    dependents it can visit, the clique search the number of agents, the emission of a range
    of blocks the number of epochs it meets, the search for an ancestor that exists the number
    of components of the path, the prefixes of a git command its length, the tool loop one
    round more than its cap leaves. In each case a
    lemma shows that the fuel is enough: the loop ends because its condition fails, not
    because the fuel does.

    ** What the theorems show

    - Executor and state machine: [transition] refines an abstract lifecycle
      relation; a plan that reaches Complete has passed every quality phase; [tick]
      dispatches exactly the first eligible plans within the limit; [apply_event]
      changes one plan along the lifecycle and nothing on errors; reachable
      executors are well formed; restoring is faithful.
    - Logs: a verified chain or log with a known tip has the known history unless
      BLAKE3 collides; encoding, restoring and loading round-trip.
    - Recovery: the recovered plans are the folds of their own events; the resume
      plan classifies every plan once.
    - Merge queue: plans being merged never share a file; reservations take the best
      mergeable request; a draining worker terminates with every request decided.
    - Pipeline: every run terminates within a bound, spawns boundedly many agents,
      and commits only after the gates; reading a configuration document gives what
      it says, through quoting, escapes and comments.
    - Scheduler: tasks are released, skipped and batched as their dependencies,
      files and slots allow, and something can always be started until all ended.
    - Priorities and budgets: effective priorities are those of the immediate ceiling
      protocol; the slots in use are the reservations in flight.
    - Safety: a capability is accepted at most once and its signature binds its
      fields; taint reaches exactly the descendants of the data that was tainted before anything
      was derived from it; the loop guard
      and the circuit breaker decide what their documentation says about the history.
    - Gates: which gates each composition runs, in which order, and what it decides.
    - Cell graphs: graphs stay well formed; conversion of a plan succeeds exactly on
      acyclic plans; a run is a topological execution that propagates failures.
    - Snapshot deltas: applying a delta to its base gives the later snapshot back.
    - DAG: the graph holds exactly the declared dependencies and stays acyclic under
      mutations and culling; the topological order is the unique smallest
      dependency-first order; waves, critical path, culling, incremental
      recomputation and fusion are correct with respect to that graph.

    - Chain: passports stay with their owners and their prompts change only behind the
      timelock; channels have what was agreed on last and settle once; the accounts of jobs
      stay consistent and escrow is paid out once unless a dispute is decided; the
      collusion detector finds exactly the rings; bans and restorations hold, and
      scores stay in range; tokens are conserved by every transfer.
    - Sandbox, progress and retries: a policy admits exactly what lies under its allowed
      and no denied roots, however the path is written; tracked phases only move along the
      transition table; retries are bounded and their delays between half of the
      capped doubling and the whole; the call breaker follows its failures.

    - Buses and cancellation: every number is taken by one event, the ring holds the last of
      the events put there, and a late joiner misses only what had left the ring; cancelling
      reaches exactly the descendants, for good.
    - Engrams: byte bodies survive their JSON form; the content hash tells signals apart
      up to the ambiguity of its separators; scores and decay stay in range; the vault
      of quarantined signals keeps its limit; namespaces are isolated; the heaviest
      guidance wins.
    - Conductor: what makes each watcher fire; the decision is that of the worst finding;
      with the defaults a plan fails exactly when its iterations loop; the watchers fail
      a plan at most as often as the breaker allows.
    - Stuck detection and the rest of the conductor: when each heuristic fires and what the
      reflection decides; a diagnosis reports exactly the patterns that occur, most confident
      first, whatever the order of the patterns, and never panics on ASCII; the overall
      health is that of its causes; a watcher that oscillates is reset at most once per so
      many observations and then left alone for exactly its cooldown; every so many failures
      in a row restart; a plan fails exactly when its failed tasks reach the limit.

    - Agent safety: which command lines, addresses and paths pass their guards; delegation only
      takes capabilities away; the budget and the limiter admit exactly what still fits; a
      contract refuses exactly what breaks it; and a session under the safety layer, on a clock
      that does not go back: the calls that pass all guards are within every static policy and
      within the rate, those that are charged are together within every limit of the budget, and
      none that passes breaks a temporal property of exactly the calls that came to the monitor.
    - Tool dispatcher: exactly when the handler of a call runs, and what is recorded and
      returned; a batch that ends, however it interleaves, answers every call once, records one
      completion for it, starts no handler twice or without leave, lets the guards see the
      calls in a fixed order and stays within their bounds.  A batch whose hook waits for ever
      does not end ([Dispatcher.hook_hangs_batch]).

    - Tool loop: a run returns whatever the model answers, counts its rounds within the cap and
      reports exactly the calls it gave to the dispatcher, as a loop over a logging runtime
      shows; resuming from the checkpoint of a run that hit its cap is as if it had
      not been interrupted, since pruning a pruned conversation changes nothing; every call in
      the response of a round gets exactly one answer under the identifier it has there;
      compaction is its reference; the
      attempts of a turn and the delays between them are bounded.

    Lemmas at the end of the files record where the code departs from what it
    means to do (for instance bounded waves, task splitting, fusion across plans).

    ** What is not modelled

    The DAG partitioner and the floating-point report of the critical path; the
    evaluation of edge conditions; coherence scores of provenance; fingerprints of engrams;
    the oracles, yield curves, futures and compliance policies of the chain crate; the witness log
    and data/LLM separation of the agents' safety directory, and the caches, metrics and alerts
    beside the dispatcher; everything
    that performs I/O (clients of models and their streams, agents, external gates and cells,
    git, servers, terminal UI, saving files) and the learning crates. *)

From stdpp Require Export base list gmap sets strings sorting pretty.
From Stdlib Require Import SpecFloat.
From Stdlib Require Export Ascii.
From Stdlib Require Export ZArith NArith Lia ZifyBool ZifyN ZifyNat.

#[global] Set Default Goal Selector "!".

(** ** Results

    Rust's [Result<T, E>].  The binder [let? x := e in k] is the [?] operator:
    it returns the error of [e] early. *)

Declare Scope roko_scope.
Delimit Scope roko_scope with roko.

Inductive result (T E : Type) : Type :=
  | Ok (x : T)
  | Err (e : E).
Arguments Ok {T E} _.
Arguments Err {T E} _.

Notation "'let?' x ':=' e 'in' k" :=
  (match e with Ok x => k | Err err => Err err end)
  (at level 10, x pattern, e at level 200, k at level 200) : roko_scope.
#[global] Open Scope roko_scope.

Definition is_ok {T E} (r : result T E) : bool :=
  match r with Ok _ => true | Err _ => false end.

(** [r.ok()] of the standard library. *)
Definition result_ok {T E} (r : result T E) : option T :=
  match r with Ok x => Some x | Err _ => None end.

(** [r.map_err(f)] of the standard library. *)
Definition map_err {T E F} (f : E → F) (r : result T E) : result T F :=
  match r with Ok x => Ok x | Err e => Err (f e) end.

(** ** Machine integers

    [u32], [u64] and [u128] values are [N] with the width written out; lengths
    and positions ([usize]) are [nat].  A plain [+] wraps, as it does in the
    release profile of the workspace (it leaves overflow checks off). *)

Definition u32_MAX : N := 4294967295.
Definition u64_MAX : N := 18446744073709551615.

Definition add32 (a b : N) : N := (a + b) mod (u32_MAX + 1).
Definition sat_add32 (a b : N) : N := N.min (a + b) u32_MAX.
Definition sat_add64 (a b : N) : N := N.min (a + b) u64_MAX.
Definition sat_mul64 (a b : N) : N := N.min (a * b) u64_MAX.
Definition sat_sub (a b : N) : N := a - b.

(** [u32::try_from(n).unwrap_or(u32::MAX)] *)
Definition u32_try_or_max (n : N) : N := N.min n u32_MAX.

(** [i64]: [saturating_add] and [saturating_sub] clamp to the range. *)
Definition i64_MIN : Z := -9223372036854775808.
Definition i64_MAX : Z := 9223372036854775807.
Definition sat_i64 (z : Z) : Z := Z.max i64_MIN (Z.min z i64_MAX).
Definition is_i64 (z : Z) : Prop := (i64_MIN ≤ z ≤ i64_MAX)%Z.
Definition is_u64 (n : N) : Prop := (n ≤ u64_MAX)%N.

Lemma add32_small a b : (a + b ≤ u32_MAX)%N → add32 a b = (a + b)%N.
Proof. intros H. apply N.mod_small. lia. Qed.

Lemma add32_bound a b : (add32 a b ≤ u32_MAX)%N.
Proof. unfold add32. pose proof (N.mod_lt (a + b) (u32_MAX + 1)). lia. Qed.

Lemma sat_add32_bound a b : (sat_add32 a b ≤ u32_MAX)%N.
Proof. unfold sat_add32. lia. Qed.

(** ** Binary64 floating point

    [f64] is the executable model of IEEE-754 binary64 of the Standard Library
    ([SpecFloat], precision 53, maximal exponent 1024, round to nearest even),
    so the comparisons the code makes on floats evaluate. *)

Module F64.
Definition t : Set := spec_float.
Definition of_Z (z : Z) : t := binary_normalize 53 1024 z 0 false.
(** [f64::from(x)] for an unsigned [x]. *)
Definition of_N (n : N) : t := of_Z (Z.of_N n).
Definition zero : t := S754_zero false.
Definition add : t → t → t := SFadd 53 1024.
Definition sub : t → t → t := SFsub 53 1024.
Definition mul : t → t → t := SFmul 53 1024.
Definition div : t → t → t := SFdiv 53 1024.
Definition lt : t → t → bool := SFltb.
Definition le : t → t → bool := SFleb.
Definition gt (a b : t) : bool := SFltb b a.
Definition ge (a b : t) : bool := SFleb b a.
Definition is_nan (a : t) : bool :=
  match a with S754_nan => true | _ => false end.
(** [f64::max]: a [NaN] operand is ignored. *)
Definition max (a b : t) : t :=
  if is_nan a then b else if is_nan b then a else if lt a b then b else a.
(** The literal [num / den], correctly rounded (both are exact integers). *)
Definition lit (num den : Z) : t := div (of_Z num) (of_Z den).
(** [f64::min]: a [NaN] operand is ignored. *)
Definition min (a b : t) : t :=
  if is_nan a then b else if is_nan b then a else if lt b a then b else a.
(** [f64::clamp] with bounds that are numbers: a [NaN] stays. *)
Definition clamp (lo hi a : t) : t :=
  if lt a lo then lo else if gt a hi then hi else a.
(** A cast of [a] to an unsigned type of greatest value [limit]: truncated, saturating,
    0 for a [NaN]. *)
Definition to_uint (limit : N) (a : t) : N :=
  match a with
  | S754_nan | S754_zero _ | S754_infinity true | S754_finite true _ _ => 0
  | S754_infinity false => limit
  | S754_finite false m e =>
      N.min (match e with
             | Zneg e' => N.shiftr (Npos m) (Npos e')
             | e => N.shiftl (Npos m) (Z.to_N e)
             end) limit
  end.
Definition to_u64 : t → N := to_uint u64_MAX.
End F64.

(** Binary32, for the scores the code keeps as [f32]. *)
Module F32.
Definition t : Set := spec_float.
Definition of_Z (z : Z) : t := binary_normalize 24 128 z 0 false.
Definition zero : t := S754_zero false.
Definition infinity : t := S754_infinity false.
Definition add : t → t → t := SFadd 24 128.
Definition sub : t → t → t := SFsub 24 128.
Definition mul : t → t → t := SFmul 24 128.
Definition div : t → t → t := SFdiv 24 128.
Definition lt : t → t → bool := SFltb.
Definition ge (a b : t) : bool := SFleb b a.
Definition is_nan : t → bool := F64.is_nan.
Definition min : t → t → t := F64.min.
Definition clamp : t → t → t → t := F64.clamp.
Definition lit (num den : Z) : t := div (of_Z num) (of_Z den).
End F32.

(** The order of floats of either width.  [SFcompare] compares signs, exponents and mantissas
    in that order: a total order on the numbers, the two zeros being equal. *)

Definition sf_le (a b : spec_float) : Prop := SFltb b a = false.

(** The place of a number in the order. *)
Definition sf_key (f : spec_float) : Z * Z * Z :=
  match f with
  | S754_infinity true => (-2, 0, 0)%Z
  | S754_finite true m e => (-1, - e, Zneg m)%Z
  | S754_zero _ | S754_nan => (0, 0, 0)%Z
  | S754_finite false m e => (1, e, Zpos m)%Z
  | S754_infinity false => (2, 0, 0)%Z
  end.

Definition key_lt (a b : Z * Z * Z) : Prop :=
  (a.1.1 < b.1.1 ∨ a.1.1 = b.1.1 ∧ (a.1.2 < b.1.2 ∨ a.1.2 = b.1.2 ∧ a.2 < b.2))%Z.

Lemma lt_key a b :
  F64.is_nan a = false → F64.is_nan b = false →
  SFltb a b = true ↔ key_lt (sf_key a) (sf_key b).
Proof.
  unfold SFltb, key_lt.
  destruct a as [[]|[]| |[] m e], b as [[]|[]| |[] m' e']; intros Ha Hb; try discriminate;
    simpl; try (split; [try discriminate; intros; lia|intros; try reflexivity; lia]);
    destruct (Z.compare_spec e e'); simpl;
    try (change (Pos.compare_cont Eq m m') with (Pos.compare m m');
         destruct (Pos.compare_spec m m'); simpl);
    (split; [try discriminate; intros; lia|intros; try reflexivity; lia]).
Qed.

Lemma lt_nan_l a b : F64.is_nan a = true → SFltb a b = false.
Proof. by destruct a. Qed.

Lemma lt_nan_r a b : F64.is_nan b = true → SFltb a b = false.
Proof. destruct b; try discriminate. by destruct a as [[]|[]| |[] m e]. Qed.

Lemma not_lt_key a b :
  F64.is_nan a = false → F64.is_nan b = false → sf_le a b ↔ ¬ key_lt (sf_key b) (sf_key a).
Proof. intros Ha Hb. unfold sf_le. rewrite <-lt_key by done. by destruct (SFltb b a). Qed.

Lemma sf_le_trans a b c : F64.is_nan b = false → sf_le a b → sf_le b c → sf_le a c.
Proof.
  intros Hb Hab Hbc.
  destruct (F64.is_nan a) eqn:Ha; [by apply lt_nan_r|].
  destruct (F64.is_nan c) eqn:Hc; [by apply lt_nan_l|].
  rewrite not_lt_key in * by done. unfold key_lt in *. lia.
Qed.

Lemma sf_lt_le a b : SFltb a b = true → sf_le a b.
Proof.
  intros H. destruct (F64.is_nan a) eqn:Ha; [by apply lt_nan_r|].
  destruct (F64.is_nan b) eqn:Hb; [by apply lt_nan_l|].
  apply not_lt_key; [done|done|]. apply lt_key in H; [|done|done]. unfold key_lt in *. lia.
Qed.

Lemma sf_le_refl a : sf_le a a.
Proof.
  destruct (F64.is_nan a) eqn:Ha; [by apply lt_nan_l|].
  apply not_lt_key; [done|done|]. unfold key_lt. lia.
Qed.

Lemma leb_le a b : SFleb a b = true → sf_le a b.
Proof.
  unfold sf_le, SFleb, SFltb.
  destruct a as [[]|[]| |[] m e], b as [[]|[]| |[] m' e']; simpl; try done;
    rewrite (Z.compare_antisym e e'); destruct (Z.compare e e'); simpl; try done;
    change (Pos.compare_cont Eq m m') with (Pos.compare m m');
    change (Pos.compare_cont Eq m' m) with (Pos.compare m' m);
    rewrite (Pos.compare_antisym m m'); by destruct (Pos.compare m m').
Qed.

Lemma sf_compare_antisym a b : SFcompare b a = CompOpp <$> SFcompare a b.
Proof.
  destruct a as [[]|[]| |[] m e], b as [[]|[]| |[] m' e']; simpl; try done;
    rewrite (Z.compare_antisym e e'); destruct (Z.compare e e'); simpl; try done;
    change (Pos.compare_cont Eq m m') with (Pos.compare m m');
    change (Pos.compare_cont Eq m' m) with (Pos.compare m' m);
    rewrite (Pos.compare_antisym m m'); by destruct (Pos.compare m m').
Qed.

Lemma not_leb_lt a b : SFleb a b = false → SFltb a b = false.
Proof. unfold SFleb, SFltb. by destruct (SFcompare a b) as [[]|]. Qed.

(** ** Strings *)

Definition string_eqb (a b : string) : bool := bool_decide (a = b).

(** [s.contains(pat)] and [s.starts_with(pat)] of [str]. *)
Fixpoint str_starts_with (pat s : string) : bool :=
  match pat, s with
  | EmptyString, _ => true
  | String a pat', String b s' => Ascii.eqb a b && str_starts_with pat' s'
  | String _ _, EmptyString => false
  end.

Fixpoint str_contains (pat s : string) : bool :=
  str_starts_with pat s ||
  match s with
  | EmptyString => false
  | String _ s' => str_contains pat s'
  end.

(** [s.split_once(c)]: the parts before and after the first [c]. *)
Fixpoint str_split_once (c : Ascii.ascii) (s : string) : option (string * string) :=
  match s with
  | EmptyString => None
  | String a s' =>
      if Ascii.eqb a c then Some (EmptyString, s')
      else match str_split_once c s' with
           | Some (l, r) => Some (String a l, r)
           | None => None
           end
  end.

Definition str_is_empty (s : string) : bool :=
  match s with EmptyString => true | _ => false end.

Fixpoint str_join (sep : string) (l : list string) : string :=
  match l with
  | [] => EmptyString
  | [s] => s
  | s :: l' => s +:+ sep +:+ str_join sep l'
  end.

(** [format!("{n}")] of an unsigned integer. *)
Definition fmt_N (n : N) : string := pretty n.
Definition fmt_nat (n : nat) : string := pretty n.

(** [format!("{:.d$}")] of a float: the exact value rounded to [d] decimals, ties to
    even. *)
Definition pad_digits (d : nat) (s : string) : string :=
  String.string_of_list_ascii (replicate (d - String.length s) "0"%char) +:+ s.

Definition round_scaled (d : nat) (m : positive) (e : Z) : N :=
  let scaled := (Npos m * 10 ^ N.of_nat d)%N in
  match e with
  | Zneg e' =>
      let unit := (2 ^ Npos e')%N in
      let q := (scaled / unit)%N in
      let r := (2 * (scaled mod unit))%N in
      if (unit <? r)%N || ((unit =? r)%N && N.odd q) then (q + 1)%N else q
  | _ => N.shiftl scaled (Z.to_N e)
  end.

Definition fmt_fixed (d : nat) (f : spec_float) : string :=
  let render (negative : bool) (q : N) :=
    let unit := (10 ^ N.of_nat d)%N in
    (if negative then "-" else "") +:+ fmt_N (q / unit) +:+
    match d with O => "" | _ => "." +:+ pad_digits d (fmt_N (q mod unit)) end in
  match f with
  | S754_nan => "NaN"
  | S754_infinity s => if s then "-inf" else "inf"
  | S754_zero s => render s 0%N
  | S754_finite s m e => render s (round_scaled d m e)
  end.

Example fmt_fixed_examples :
  fmt_fixed 2 (F32.lit 1 3) = "0.33" ∧ fmt_fixed 0 (F64.lit 125 10) = "12" ∧
  fmt_fixed 2 (F32.of_Z 1) = "1.00" ∧ fmt_fixed 0 (F64.lit 200 3) = "67".
Proof. vm_compute. done. Qed.

(** [s.to_ascii_lowercase()] *)
Definition ascii_lower (a : Ascii.ascii) : Ascii.ascii :=
  let n := Ascii.N_of_ascii a in
  if (65 <=? n)%N && (n <=? 90)%N then Ascii.ascii_of_N (n + 32) else a.

Fixpoint str_to_ascii_lowercase (s : string) : string :=
  match s with
  | EmptyString => EmptyString
  | String a s' => String (ascii_lower a) (str_to_ascii_lowercase s')
  end.

Lemma str_split_once_Some c s l r :
  str_split_once c s = Some (l, r) → s = l +:+ String c r.
Proof.
  revert l. induction s as [|a s IH]; intros l; simpl; [done|].
  destruct (Ascii.eqb_spec a c) as [->|Hne].
  - intros [= <- <-]. done.
  - destruct (str_split_once c s) as [[l' r']|]; [|done].
    intros [= <- <-]. simpl. by rewrite (IH l').
Qed.

Fixpoint str_has (c : Ascii.ascii) (s : string) : bool :=
  match s with
  | EmptyString => false
  | String a s' => Ascii.eqb a c || str_has c s'
  end.

Lemma str_app_cons a (s t : string) : String a s +:+ t = String a (s +:+ t).
Proof. done. Qed.

Lemma str_app_assoc (s t u : string) : (s +:+ t) +:+ u = s +:+ (t +:+ u).
Proof. induction s as [|c s IH]; [done|]. by rewrite !str_app_cons, IH. Qed.

Lemma str_app_nil (s : string) : s +:+ "" = s.
Proof. induction s as [|c s IH]; [done|]. by rewrite str_app_cons, IH. Qed.

Lemma str_has_app c s t : str_has c (s +:+ t) = str_has c s || str_has c t.
Proof. induction s as [|x s IH]; [done|]. rewrite str_app_cons. simpl. rewrite IH. apply orb_assoc. Qed.

Lemma str_split_once_app c l r :
  str_has c l = false → str_split_once c (l +:+ String c r) = Some (l, r).
Proof.
  induction l as [|a l IH]; simpl.
  - intros _. destruct (Ascii.eqb_spec c c); congruence.
  - destruct (Ascii.eqb a c); [done|]. intros H. by rewrite (IH H).
Qed.

Lemma StronglySorted_impl {A} (R1 R2 : A → A → Prop) l :
  (∀ a b, R1 a b → R2 a b) → StronglySorted R1 l → StronglySorted R2 l.
Proof.
  intros HR. induction 1 as [|x l _ IH Hx]; constructor; [done|].
  eapply Forall_impl; [exact Hx|]. auto.
Qed.

(** ** Stable sorting

    [sort_by le l] is Rust's stable [slice::sort_by] for the order whose
    [cmp(a, b) != Greater] is [le a b]: equal elements keep their order. *)

Section SortBy.
Context {A : Type} (le : A → A → bool).

Fixpoint insert_sorted (x : A) (l : list A) : list A :=
  match l with
  | [] => [x]
  | y :: l' => if le x y then x :: l else y :: insert_sorted x l'
  end.

Definition sort_by (l : list A) : list A := foldr insert_sorted [] l.

Lemma sort_by_cons x l : sort_by (x :: l) = insert_sorted x (sort_by l).
Proof. done. Qed.

Lemma insert_sorted_perm x l : insert_sorted x l ≡ₚ x :: l.
Proof.
  induction l as [|y l IH]; simpl; [done|].
  destruct (le x y); [done|]. rewrite IH. apply Permutation_swap.
Qed.

Lemma sort_by_perm l : sort_by l ≡ₚ l.
Proof.
  induction l as [|x l IH]; simpl; [done|].
  by rewrite insert_sorted_perm, IH.
Qed.

Lemma elem_of_sort_by x l : x ∈ sort_by l ↔ x ∈ l.
Proof. by rewrite sort_by_perm. Qed.

Lemma length_sort_by l : length (sort_by l) = length l.
Proof. apply Permutation_length, sort_by_perm. Qed.

Lemma NoDup_sort_by l : NoDup (sort_by l) ↔ NoDup l.
Proof. by rewrite sort_by_perm. Qed.

(** Stability: elements that compare as equal keep their order. *)
Lemma sort_by_filter (f : A → bool) l :
  (∀ y z, f y = true → f z = true → le y z = true) →
  List.filter f (sort_by l) = List.filter f l.
Proof.
  intros Hf. induction l as [|x l IH]; [done|]. rewrite sort_by_cons. cbn [List.filter].
  rewrite <-IH. clear IH. induction (sort_by l) as [|y k IHk]; [done|].
  cbn [insert_sorted]. destruct (le x y) eqn:E; [done|].
  cbn [List.filter]. rewrite IHk. destruct (f x) eqn:Ex, (f y) eqn:Ey; try done.
  rewrite (Hf x y) in E; done.
Qed.

Context (le_total : ∀ x y, le x y = true ∨ le y x = true).
Context (le_trans : ∀ x y z, le x y = true → le y z = true → le x z = true).

Lemma insert_sorted_sorted x l :
  StronglySorted (λ a b, le a b = true) l →
  StronglySorted (λ a b, le a b = true) (insert_sorted x l).
Proof.
  induction 1 as [|y l Hl IH Hy]; simpl; [repeat constructor|].
  destruct (le x y) eqn:Exy.
  - constructor; [by constructor|]. constructor; [done|].
    eapply Forall_impl; [exact Hy|]. eauto.
  - constructor; [done|]. rewrite insert_sorted_perm. constructor; [|done].
    destruct (le_total x y) as [H|H]; congruence.
Qed.

Lemma sort_by_sorted l : StronglySorted (λ a b, le a b = true) (sort_by l).
Proof.
  induction l as [|x l IH]; simpl; [constructor|]. by apply insert_sorted_sorted.
Qed.
End SortBy.

(** The first of a sorted list, when the order is one on its elements only. *)
Section SortByOn.
Context {A : Type} (le : A → A → bool) (P : A → Prop).
Context (le_total : ∀ x y, le x y = true ∨ le y x = true).
Context (le_trans : ∀ x y z, P x → P y → P z →
  le x y = true → le y z = true → le x z = true).

Lemma sort_by_sorted_on l :
  Forall P l → StronglySorted (λ a b, le a b = true) (sort_by le l).
Proof.
  induction 1 as [|x l Hx Hl IH]; [constructor|]. rewrite sort_by_cons.
  assert (Forall P (sort_by le l)) as HP by (by rewrite sort_by_perm).
  revert HP. induction IH as [|y k Hk IHk Hy]; intros HP; simpl; [repeat constructor|].
  apply Forall_cons in HP as [Hpy HP]. destruct (le x y) eqn:Exy.
  - constructor; [by constructor|]. constructor; [done|].
    rewrite Forall_forall in Hy, HP |- *. intros z Hz. apply (le_trans x y z); auto.
  - constructor; [by apply IHk|]. rewrite insert_sorted_perm. constructor; [|done].
    destruct (le_total x y) as [H|H]; congruence.
Qed.
End SortByOn.

(** ** Filters by a boolean *)

Lemma elem_of_list_filter_bool {A} (f : A → bool) l x :
  x ∈ List.filter f l ↔ x ∈ l ∧ f x = true.
Proof. by rewrite !list_elem_of_In, filter_In. Qed.

Lemma NoDup_filter_bool {A} (f : A → bool) l : NoDup l → NoDup (List.filter f l).
Proof. intros H. by apply NoDup_ListNoDup, List.NoDup_filter, NoDup_ListNoDup. Qed.

(** ** Ordered and unordered maps

    A [BTreeMap<String, V>] is a [gmap string V] iterated in key order; a
    [HashMap<K, V>] is a [gmap K V] and a [HashSet<K>] a [gset K] whose iteration
    order is unspecified: every definition that iterates one takes the order from a
    [HashIter], and the theorems hold for all of them. *)

Lemma string_leb_trans (a b c : string) :
  String.leb a b = true → String.leb b c = true → String.leb a c = true.
Proof.
  intros H1 H2. apply Is_true_true.
  apply (transitivity (R := String.le) (y := b)); by apply Is_true_true.
Qed.

Lemma string_leb_total (a b : string) :
  String.leb a b = true ∨ String.leb b a = true.
Proof. destruct (String.leb_total a b); auto. Qed.

Lemma string_leb_antisym (a b : string) :
  String.leb a b = true → String.leb b a = true → a = b.
Proof. apply String.leb_antisym. Qed.

(** [Vec<String>::sort()] *)
Definition sort_strings : list string → list string := sort_by String.leb.

Lemma sort_strings_sorted l :
  StronglySorted (λ a b, String.leb a b = true) (sort_strings l).
Proof. apply sort_by_sorted; [apply string_leb_total | apply string_leb_trans]. Qed.

Lemma sort_strings_unique l1 l2 : l1 ≡ₚ l2 → sort_strings l1 = sort_strings l2.
Proof.
  intros Hp. apply (StronglySorted_unique_strong (λ a b, String.leb a b = true)).
  - intros x y _ _. apply string_leb_antisym.
  - apply sort_strings_sorted.
  - apply sort_strings_sorted.
  - unfold sort_strings. by rewrite !sort_by_perm.
Qed.

(** Iteration of a [BTreeMap<String, V>]: entries by increasing key. *)
Definition btree_keys {V} (m : gmap string V) : list string :=
  sort_strings (map_to_list m).*1.

Definition btree_iter {V} (m : gmap string V) : list (string * V) :=
  omap (λ k, (k,.) <$> m !! k) (btree_keys m).

Definition btree_values {V} (m : gmap string V) : list V := (btree_iter m).*2.

Lemma elem_of_btree_keys {V} (m : gmap string V) k :
  k ∈ btree_keys m ↔ is_Some (m !! k).
Proof.
  unfold btree_keys, sort_strings. rewrite elem_of_sort_by, list_elem_of_fmap. split.
  - intros ([k' v] & -> & H%elem_of_map_to_list). eauto.
  - intros [v Hv]. exists (k, v). split; [done|]. by apply elem_of_map_to_list.
Qed.

Lemma NoDup_btree_keys {V} (m : gmap string V) : NoDup (btree_keys m).
Proof. apply NoDup_sort_by, NoDup_fst_map_to_list. Qed.

Lemma elem_of_btree_iter {V} (m : gmap string V) k v :
  (k, v) ∈ btree_iter m ↔ m !! k = Some v.
Proof.
  unfold btree_iter. rewrite list_elem_of_omap. split.
  - intros (k' & _ & H). destruct (m !! k') eqn:E; simplify_eq/=. done.
  - intros H. exists k. rewrite H. split; [|done]. apply elem_of_btree_keys. eauto.
Qed.

Lemma btree_iter_fst {V} (m : gmap string V) : (btree_iter m).*1 = btree_keys m.
Proof.
  unfold btree_iter. assert (∀ k, k ∈ btree_keys m → is_Some (m !! k)) as H
    by (intros k; apply elem_of_btree_keys).
  induction (btree_keys m) as [|k l IH]; [done|]. cbn [omap list_omap].
  destruct (H k (list_elem_of_here _ _)) as [v Hv]. rewrite Hv.
  exact (f_equal (cons k) (IH (λ x Hx, H x (list_elem_of_further _ _ _ Hx)))).
Qed.

Lemma NoDup_btree_filter {V} (f : string * V → bool) (m : gmap string V) :
  NoDup (List.filter f (btree_iter m)).*1.
Proof.
  pose proof (NoDup_btree_keys m) as H. rewrite <-btree_iter_fst in H. revert H.
  induction (btree_iter m) as [|[k v] l IH]; [done|]. cbn [List.filter].
  rewrite fmap_cons, NoDup_cons. intros [Hk Hnd]. destruct (f (k, v)); [|by apply IH].
  rewrite fmap_cons, NoDup_cons. split; [|by apply IH].
  intros ([k' v'] & Heq & [Hin _]%elem_of_list_filter_bool)%list_elem_of_fmap.
  apply Hk, list_elem_of_fmap. eauto.
Qed.

Lemma btree_keys_dom {V W} (m1 : gmap string V) (m2 : gmap string W) :
  (∀ k, is_Some (m1 !! k) ↔ is_Some (m2 !! k)) → btree_keys m1 = btree_keys m2.
Proof.
  intros H. apply sort_strings_unique, NoDup_Permutation.
  - apply NoDup_fst_map_to_list.
  - apply NoDup_fst_map_to_list.
  - intros k. rewrite <-(elem_of_sort_by String.leb k (map_to_list m1).*1),
      <-(elem_of_sort_by String.leb k (map_to_list m2).*1).
    change (k ∈ btree_keys m1 ↔ k ∈ btree_keys m2). by rewrite !elem_of_btree_keys.
Qed.

(** Iteration of a [HashMap<K, V>] and of a [HashSet<K>]. *)
Class HashIter := {
  hash_iter : ∀ {K} `{Countable K} {V}, gmap K V → list (K * V);
  hash_iter_perm : ∀ {K} `{Countable K} {V} (m : gmap K V), hash_iter m ≡ₚ map_to_list m;
  hash_set_iter : ∀ {K} `{Countable K}, gset K → list K;
  hash_set_iter_perm : ∀ {K} `{Countable K} (X : gset K), hash_set_iter X ≡ₚ elements X;
}.

#[export] Instance hash_iter_canonical : HashIter :=
  {| hash_iter _ _ _ _ m := map_to_list m; hash_iter_perm _ _ _ _ m := Permutation_refl _;
     hash_set_iter _ _ _ X := elements X; hash_set_iter_perm _ _ _ X := Permutation_refl _ |}.

Section HashIterFacts.
Context {HI : HashIter} `{HK : Countable K} {V : Type}.
Implicit Types m : gmap K V.

Definition hash_keys m : list K := (hash_iter m).*1.
Definition hash_values m : list V := (hash_iter m).*2.

Lemma elem_of_hash_set_iter (X : gset K) k : k ∈ hash_set_iter X ↔ k ∈ X.
Proof. by rewrite hash_set_iter_perm, elem_of_elements. Qed.

Lemma elem_of_hash_iter m k v : (k, v) ∈ hash_iter m ↔ m !! k = Some v.
Proof. by rewrite hash_iter_perm, elem_of_map_to_list. Qed.

Lemma elem_of_hash_keys m k : k ∈ hash_keys m ↔ is_Some (m !! k).
Proof.
  unfold hash_keys. rewrite list_elem_of_fmap. split.
  - intros ([k' v] & -> & H%elem_of_hash_iter). eauto.
  - intros [v Hv]. exists (k, v). split; [done|]. by apply elem_of_hash_iter.
Qed.

Lemma elem_of_hash_values m v : v ∈ hash_values m ↔ ∃ k, m !! k = Some v.
Proof.
  unfold hash_values. rewrite list_elem_of_fmap. split.
  - intros ([k v'] & -> & H%elem_of_hash_iter). eauto.
  - intros [k Hk]. exists (k, v). split; [done|]. by apply elem_of_hash_iter.
Qed.

Lemma NoDup_hash_keys m : NoDup (hash_keys m).
Proof. unfold hash_keys. rewrite hash_iter_perm. apply NoDup_fst_map_to_list. Qed.

End HashIterFacts.

(** Sorting the keys of a [HashMap] removes the dependence on its order. *)
Lemma sort_hash_keys `{!HashIter} {V} (m : gmap string V) :
  sort_strings (hash_keys m) = btree_keys m.
Proof. apply sort_strings_unique. unfold hash_keys. by rewrite hash_iter_perm. Qed.

(** ** Vectors *)

(** [v.last()] *)
Definition vec_last {A} (l : list A) : option A := last l.

(** [v.iter().position(|x| x == k)] on strings. *)
Fixpoint str_position (k : string) (l : list string) : option nat :=
  match l with
  | [] => None
  | x :: l' => if decide (x = k) then Some 0%nat else S <$> str_position k l'
  end.

(** [v.remove(i)] for [i] in range, as the pair of the element and the rest. *)
Definition vec_remove {A} (i : nat) (l : list A) : list A := take i l ++ drop (S i) l.

(** [v.insert(i, x)] for [i <= v.len()]. *)
Definition vec_insert {A} (i : nat) (x : A) (l : list A) : list A :=
  take i l ++ x :: drop i l.

(** [v.retain(|x| seen.insert(x))] with a fresh set: keep first occurrences. *)
Fixpoint dedup_first_aux (seen : gset string) (l : list string) : list string :=
  match l with
  | [] => []
  | x :: l' =>
      if decide (x ∈ seen) then dedup_first_aux seen l'
      else x :: dedup_first_aux ({[x]} ∪ seen) l'
  end.
Definition dedup_first : list string → list string := dedup_first_aux ∅.

(** [if !target.contains(x) { target.push(x) }] *)
Definition push_unique (target : list string) (x : string) : list string :=
  if decide (x ∈ target) then target else target ++ [x].

Lemma length_omap_le {A B} (f : A → option B) l : (length (omap f l) ≤ length l)%nat.
Proof.
  induction l as [|x l IH]; [done|]. cbn [omap list_omap].
  destruct (f x); cbn [length]; lia.
Qed.

Lemma elem_of_take_weaken {A} (x : A) n l : x ∈ take n l → x ∈ l.
Proof. intros (i & Hi & _)%elem_of_take. by eapply list_elem_of_lookup_2. Qed.

Lemma str_position_Some k l i :
  str_position k l = Some i → l !! i = Some k.
Proof.
  revert i. induction l as [|x l IH]; intros i; simpl; [done|].
  case_decide as E; [by intros [= <-]; simplify_eq/=|].
  destruct (str_position k l) as [j|]; [|done]. intros [= <-]. by apply IH.
Qed.

Lemma str_position_None k l : str_position k l = None ↔ k ∉ l.
Proof.
  induction l as [|x l IH]; simpl; [split; [intros _; apply not_elem_of_nil|done]|].
  rewrite not_elem_of_cons. case_decide as E; [naive_solver|].
  destruct (str_position k l) as [j|] eqn:Ej; simpl; naive_solver.
Qed.

Lemma vec_remove_perm {A} i (x : A) l :
  l !! i = Some x → l ≡ₚ x :: vec_remove i l.
Proof.
  intros Hi. unfold vec_remove. rewrite <-(take_drop_middle l i x Hi) at 1.
  by rewrite Permutation_middle.
Qed.

Lemma vec_insert_perm {A} i (x : A) l : vec_insert i x l ≡ₚ x :: l.
Proof.
  unfold vec_insert. rewrite <-Permutation_middle, take_drop. done.
Qed.

Lemma elem_of_dedup_first_aux x seen l :
  x ∈ dedup_first_aux seen l ↔ x ∈ l ∧ x ∉ seen.
Proof.
  revert seen. induction l as [|y l IH]; intros seen; simpl; [set_solver|].
  case_decide; [|rewrite elem_of_cons]; rewrite IH; [set_solver|].
  destruct (decide (x = y)); set_solver.
Qed.

Lemma NoDup_dedup_first_aux seen l : NoDup (dedup_first_aux seen l).
Proof.
  revert seen. induction l as [|y l IH]; intros seen; simpl; [constructor|].
  case_decide; [done|]. constructor; [|done].
  rewrite elem_of_dedup_first_aux. set_solver.
Qed.

Lemma dedup_first_aux_snoc seen l x :
  dedup_first_aux seen (l ++ [x]) =
  dedup_first_aux seen l ++ (if decide (x ∈ seen ∨ x ∈ l) then [] else [x]).
Proof.
  revert seen. induction l as [|y l IH]; intros seen; simpl.
  - destruct (decide (x ∈ seen)); [rewrite decide_True by auto|rewrite decide_False by set_solver];
      done.
  - destruct (decide (y ∈ seen)); rewrite IH; simpl; repeat case_decide; set_solver.
Qed.

Lemma dedup_first_snoc l x :
  dedup_first (l ++ [x]) = push_unique (dedup_first l) x.
Proof.
  unfold dedup_first, push_unique. rewrite dedup_first_aux_snoc.
  pose proof (elem_of_dedup_first_aux x ∅ l).
  repeat case_decide; try done; [by rewrite app_nil_r|set_solver..].
Qed.

Lemma elem_of_dedup_first x l : x ∈ dedup_first l ↔ x ∈ l.
Proof. unfold dedup_first. rewrite elem_of_dedup_first_aux. set_solver. Qed.

Lemma dedup_first_aux_id seen l :
  NoDup l → (∀ x, x ∈ l → x ∉ seen) → dedup_first_aux seen l = l.
Proof.
  revert seen. induction l as [|y l IH]; intros seen Hnd Hl; simpl; [done|].
  apply NoDup_cons in Hnd as [Hy Hnd]. rewrite decide_False by (apply Hl; by left).
  f_equal. apply IH; [done|]. intros x Hx.
  assert (x ≠ y) by (by intros ->). specialize (Hl x). set_solver.
Qed.

Lemma dedup_first_id l : NoDup l → dedup_first l = l.
Proof. intros H. apply dedup_first_aux_id; set_solver. Qed.

Lemma NoDup_dedup_first l : NoDup (dedup_first l).
Proof. apply NoDup_dedup_first_aux. Qed.

Lemma elem_of_push_unique x y l : x ∈ push_unique l y ↔ x ∈ l ∨ x = y.
Proof. unfold push_unique. case_decide; set_solver. Qed.

Lemma NoDup_push_unique y l : NoDup l → NoDup (push_unique l y).
Proof.
  intros Hl. unfold push_unique. case_decide; [done|].
  apply NoDup_app. split_and!; [done|set_solver|apply NoDup_singleton].
Qed.

(** ** Sets *)

Lemma size_remove `{Countable A} (X : gset A) z : z ∈ X → size X = S (size (X ∖ {[z]})).
Proof.
  intros Hz. assert ({[z]} ⊆ X) as Hs by by apply singleton_subseteq_l.
  pose proof (subseteq_size _ _ Hs) as Hle. rewrite size_difference by done.
  rewrite size_singleton in *. lia.
Qed.

(** ** Automation *)

Create HintDb roko discriminated.
Create Rewrite HintDb roko_elem.
#[export] Hint Resolve sat_add32_bound add32_bound : roko.
#[export] Hint Resolve NoDup_btree_keys NoDup_hash_keys NoDup_dedup_first : roko.
#[export] Hint Resolve NoDup_push_unique : roko.
#[export] Hint Rewrite @elem_of_btree_iter @elem_of_btree_keys
  @elem_of_hash_iter @elem_of_hash_keys @elem_of_hash_values @elem_of_hash_set_iter
  elem_of_dedup_first elem_of_push_unique : roko_elem.

(** Case analysis on the innermost [match] of a goal or a hypothesis. *)
Ltac case_innermost t :=
  lazymatch t with
  | context [match ?x with _ => _ end] => case_innermost x
  | _ => let E := fresh "E" in destruct t eqn:E
  end.

Ltac case_match_goal :=
  match goal with
  | |- context [match ?x with _ => _ end] => case_innermost x
  end.

Ltac case_match_hyp H :=
  match type of H with
  | context [match ?x with _ => _ end] => case_innermost x
  end.

(** Split every [match] of [H], dropping the impossible branches. *)
Ltac invert_matches H := repeat (case_match_hyp H; simplify_eq/=).
