(* ===== verification/Phase.v ===== *)
(** * Plan phases (crates/roko-core/src/phase.rs)

    The executor's view of a plan's lifecycle: failure kinds, phase
    discriminants, phases with their failure payload, and the canonical
    transition table.  The theorems show that the terminal phases are exactly
    the ones without successors, and that every path of the table from [Queued]
    to [Complete] goes through every quality phase: no gate can be skipped. *)

From S2P Require Import Prelude.

(** ** Failure kinds *)

Module FailureKind.
Inductive t : Type :=
  | AutoFixExhausted
  | AllTasksFailed
  | TaskRetriesExhausted
  | SetupFailed
  | MaxIterations
  | SpawnFailures
  | Deadlock
  | WorktreeMissing
  | VacuousImplementation
  | VerifyScriptBroken
  | Other (s : string).

#[global] Instance t_eq_dec : EqDecision t.
Proof. solve_decision. Defined.

Definition requires_manual_repair (k : t) : bool :=
  match k with
  | Other s => str_contains "manual repair" s
  | _ => false
  end.

Definition is_recoverable (k : t) : bool := negb (requires_manual_repair k).

Definition auto_retry_on_resume (k : t) : bool := negb (requires_manual_repair k).

Definition retry_cooldown_secs (k : t) : N :=
  match k with
  | Other s => if str_contains "startup reconciliation" s then 30 else 180
  | SpawnFailures | SetupFailed | WorktreeMissing | Deadlock => 120
  | AutoFixExhausted | TaskRetriesExhausted | AllTasksFailed => 300
  | VacuousImplementation | VerifyScriptBroken | MaxIterations => 600
  end.

(** [impl Display for FailureKind] *)
Definition display (k : t) : string :=
  match k with
  | AutoFixExhausted => "auto-fix attempts exhausted"
  | AllTasksFailed => "all tasks failed"
  | TaskRetriesExhausted => "task retries exhausted"
  | SetupFailed => "setup failed"
  | MaxIterations => "exceeded max iterations"
  | SpawnFailures => "spawn failures"
  | Deadlock => "deadlock"
  | WorktreeMissing => "worktree missing"
  | VacuousImplementation => "vacuous implementation (no code written after retries)"
  | VerifyScriptBroken => "verify script broken (impossible conditions after regen)"
  | Other s => s
  end.
End FailureKind.
Abbreviation FailureKind := FailureKind.t.

(** ** Phases *)

Module PhaseKind.
Inductive t : Type :=
  | Queued
  | Enriching
  | Implementing
  | Gating
  | Verifying
  | Reviewing
  | DocRevision
  | AutoFixing
  | RegeneratingVerify
  | Merging
  | Complete
  | Done
  | Failed
  | Skipped.

#[global] Instance t_eq_dec : EqDecision t.
Proof. solve_decision. Defined.

(** [{kind:?}], the derived [Debug]. *)
Definition debug (k : t) : string :=
  match k with
  | Queued => "Queued"
  | Enriching => "Enriching"
  | Implementing => "Implementing"
  | Gating => "Gating"
  | Verifying => "Verifying"
  | Reviewing => "Reviewing"
  | DocRevision => "DocRevision"
  | AutoFixing => "AutoFixing"
  | RegeneratingVerify => "RegeneratingVerify"
  | Merging => "Merging"
  | Complete => "Complete"
  | Done => "Done"
  | Failed => "Failed"
  | Skipped => "Skipped"
  end.
End PhaseKind.
Abbreviation PhaseKind := PhaseKind.t.

(** The canonical transition table. *)
Definition valid_transitions (from : PhaseKind) : list PhaseKind :=
  match from with
  | PhaseKind.Queued => [PhaseKind.Enriching; PhaseKind.Skipped; PhaseKind.Failed]
  | PhaseKind.Enriching => [PhaseKind.Implementing; PhaseKind.Failed; PhaseKind.Skipped]
  | PhaseKind.Implementing => [PhaseKind.Gating; PhaseKind.Failed; PhaseKind.Skipped]
  | PhaseKind.Gating =>
      [PhaseKind.Verifying; PhaseKind.AutoFixing; PhaseKind.Failed; PhaseKind.Skipped]
  | PhaseKind.AutoFixing => [PhaseKind.Gating; PhaseKind.Failed; PhaseKind.Skipped]
  | PhaseKind.Verifying =>
      [PhaseKind.Reviewing; PhaseKind.RegeneratingVerify; PhaseKind.Failed;
       PhaseKind.Skipped]
  | PhaseKind.RegeneratingVerify =>
      [PhaseKind.Verifying; PhaseKind.Failed; PhaseKind.Skipped]
  | PhaseKind.Reviewing =>
      [PhaseKind.DocRevision; PhaseKind.Implementing; PhaseKind.Failed; PhaseKind.Skipped]
  | PhaseKind.DocRevision =>
      [PhaseKind.Merging; PhaseKind.Done; PhaseKind.Failed; PhaseKind.Skipped]
  | PhaseKind.Merging => [PhaseKind.Complete; PhaseKind.Failed; PhaseKind.Skipped]
  | PhaseKind.Done => [PhaseKind.Merging; PhaseKind.Skipped; PhaseKind.Failed]
  | PhaseKind.Complete | PhaseKind.Failed | PhaseKind.Skipped => []
  end.

Module PlanPhase.
Inductive t : Type :=
  | Queued
  | Enriching
  | Implementing
  | Gating
  | Verifying
  | Reviewing
  | DocRevision
  | AutoFixing
  | RegeneratingVerify
  | Merging
  | Complete
  | Done
  | Failed (reason : FailureKind)
  | Skipped.

#[global] Instance t_eq_dec : EqDecision t.
Proof. solve_decision. Defined.

Definition kind (p : t) : PhaseKind :=
  match p with
  | Queued => PhaseKind.Queued
  | Enriching => PhaseKind.Enriching
  | Implementing => PhaseKind.Implementing
  | Gating => PhaseKind.Gating
  | Verifying => PhaseKind.Verifying
  | Reviewing => PhaseKind.Reviewing
  | DocRevision => PhaseKind.DocRevision
  | AutoFixing => PhaseKind.AutoFixing
  | RegeneratingVerify => PhaseKind.RegeneratingVerify
  | Merging => PhaseKind.Merging
  | Complete => PhaseKind.Complete
  | Done => PhaseKind.Done
  | Failed _ => PhaseKind.Failed
  | Skipped => PhaseKind.Skipped
  end.

Definition is_terminal (p : t) : bool :=
  match kind p with
  | PhaseKind.Complete | PhaseKind.Failed | PhaseKind.Skipped => true
  | _ => false
  end.

Definition can_transition_to (p : t) (next : PhaseKind) : bool :=
  bool_decide (next ∈ valid_transitions (kind p)).
End PlanPhase.
Abbreviation PlanPhase := PlanPhase.t.

Definition is_monotonic_progression (from to : PlanPhase) : bool :=
  bool_decide (PlanPhase.kind to ∈ valid_transitions (PlanPhase.kind from)).

(** ** Facts about the table *)

(** One step of the transition table. *)
Definition table_step (a b : PhaseKind) : Prop := b ∈ valid_transitions a.

#[export] Instance table_step_dec a b : Decision (table_step a b).
Proof. unfold table_step. apply _. Defined.

Lemma is_terminal_no_successor p :
  PlanPhase.is_terminal p = true ↔ valid_transitions (PlanPhase.kind p) = [].
Proof. by destruct p. Qed.

(** A path of the table: consecutive phases are legal transitions. *)
Inductive table_path : PhaseKind → list PhaseKind → PhaseKind → Prop :=
  | table_path_nil a : table_path a [a] a
  | table_path_cons a b c l :
      table_step a b → table_path b l c → table_path a (a :: l) c.

(** The phases every completed plan must have gone through. *)
Definition mandatory_phases : list PhaseKind :=
  [PhaseKind.Enriching; PhaseKind.Implementing; PhaseKind.Gating; PhaseKind.Verifying;
   PhaseKind.Reviewing; PhaseKind.DocRevision; PhaseKind.Merging].

(** How far a phase is along the pipeline: the number of mandatory phases that
    must have been visited to be in it. *)
Definition phase_depth (k : PhaseKind) : nat :=
  match k with
  | PhaseKind.Queued | PhaseKind.Failed | PhaseKind.Skipped => 0
  | PhaseKind.Enriching => 1
  | PhaseKind.Implementing => 2
  | PhaseKind.Gating | PhaseKind.AutoFixing => 3
  | PhaseKind.Verifying | PhaseKind.RegeneratingVerify => 4
  | PhaseKind.Reviewing => 5
  | PhaseKind.DocRevision | PhaseKind.Done => 6
  | PhaseKind.Merging => 7
  | PhaseKind.Complete => 8
  end.

Lemma table_step_depth a b x :
  x ∈ mandatory_phases → a ≠ x → b ≠ x → table_step a b →
  phase_depth a < phase_depth x → phase_depth b < phase_depth x.
Proof.
  unfold mandatory_phases, table_step. intros Hx Ha Hb Hstep Hlt.
  repeat (apply elem_of_cons in Hx as [->|Hx]); [..|by apply not_elem_of_nil in Hx];
    destruct a, b; simpl in *; try lia; try done; exfalso;
    repeat (apply elem_of_cons in Hstep as [Heq|Hstep]; [done|]);
    by apply not_elem_of_nil in Hstep.
Qed.

Lemma table_path_depth a l c x :
  table_path a l c → x ∈ mandatory_phases → x ∉ l →
  phase_depth a < phase_depth x → phase_depth c < phase_depth x.
Proof.
  intros Hp Hx. induction Hp as [a|a b c l Hs Hp IH]; intros Hl Ha; [done|].
  apply not_elem_of_cons in Hl as [Hxa Hl]. apply IH; [done|].
  eapply table_step_depth; [done|..|done|done]; [done|].
  intros ->. destruct Hp; apply Hl; left.
Qed.

(** Every path of the transition table from [Queued] to [Complete] visits every
    mandatory phase. *)
Lemma complete_path_mandatory l x :
  table_path PhaseKind.Queued l PhaseKind.Complete → x ∈ mandatory_phases → x ∈ l.
Proof.
  intros Hp Hx. destruct (decide (x ∈ l)) as [|Hn]; [done|]. exfalso.
  pose proof (table_path_depth _ _ _ _ Hp Hx Hn) as Hd.
  unfold mandatory_phases in Hx.
  repeat (apply elem_of_cons in Hx as [->|Hx]; [simpl in Hd; lia|]).
  by apply not_elem_of_nil in Hx.
Qed.
