(* ===== verification/Task.v ===== *)
(** * Tasks, roles and task identifiers

    The data of crates/roko-core/src/task.rs and the roles of
    crates/roko-core/src/agent.rs that the orchestrator passes around: task
    specifications, [GlobalTaskId] with its [plan:task] text form, and the DAG
    mutations of crates/roko-orchestrator/src/dag.rs that an executor action can
    carry; and the actions themselves (executor/action.rs). *)

From S2P Require Import Prelude.

(** ** Agent roles *)

Module AgentRole.
Inductive t : Type :=
  | Conductor
  | Strategist
  | Implementer
  | Architect
  | Researcher
  | Auditor
  | QuickReviewer
  | Scribe
  | Critic
  | AutoFixer
  | Refactorer
  | PrePlanner
  | DocVerifier
  | IntegrationTester
  | MergeResolver
  | TerminalValidator
  | GolemLifecycleTester
  | SpecDriftDetector
  | RegressionDetector
  | PerformanceSentinel
  | CoverageTracker
  | PlanLifecycleManager
  | CrossSystemTester
  | ErrorDiagnoser
  | DependencyValidator
  | PatternExtractor
  | SnapshotComparator
  | FullLoopValidator.

#[global] Instance t_eq_dec : EqDecision t.
Proof. solve_decision. Defined.

Definition ALL_AGENTS : list t :=
  [Strategist; Implementer; Architect; Researcher; Auditor; QuickReviewer; Scribe;
   Critic; AutoFixer; Refactorer; PrePlanner; DocVerifier; IntegrationTester;
   MergeResolver; TerminalValidator; GolemLifecycleTester; SpecDriftDetector;
   RegressionDetector; PerformanceSentinel; CoverageTracker; PlanLifecycleManager;
   CrossSystemTester; ErrorDiagnoser; DependencyValidator; PatternExtractor;
   SnapshotComparator; FullLoopValidator].

Definition label (r : t) : string :=
  match r with
  | Conductor => "conductor"
  | Strategist => "strategist"
  | Implementer => "implementer"
  | Architect => "architect"
  | Researcher => "researcher"
  | Auditor => "auditor"
  | QuickReviewer => "quick-reviewer"
  | Scribe => "scribe"
  | Critic => "critic"
  | AutoFixer => "auto-fixer"
  | Refactorer => "refactorer"
  | PrePlanner => "pre-planner"
  | DocVerifier => "doc-verifier"
  | IntegrationTester => "integration-tester"
  | MergeResolver => "merge-resolver"
  | TerminalValidator => "terminal-validator"
  | GolemLifecycleTester => "golem-lifecycle-tester"
  | SpecDriftDetector => "spec-drift-detector"
  | RegressionDetector => "regression-detector"
  | PerformanceSentinel => "performance-sentinel"
  | CoverageTracker => "coverage-tracker"
  | PlanLifecycleManager => "plan-lifecycle-mgr"
  | CrossSystemTester => "cross-system-tester"
  | ErrorDiagnoser => "error-diagnoser"
  | DependencyValidator => "dep-validator"
  | PatternExtractor => "pattern-extractor"
  | SnapshotComparator => "snapshot-comparator"
  | FullLoopValidator => "full-loop-validator"
  end.
End AgentRole.
Abbreviation AgentRole := AgentRole.t.

Lemma ALL_AGENTS_complete r : r ∈ AgentRole.ALL_AGENTS ↔ r ≠ AgentRole.Conductor.
Proof.
  split.
  - intros Hr ->. revert Hr. apply (bool_decide_unpack _). by vm_compute.
  - intros Hr. apply (bool_decide_unpack _). by destruct r.
Qed.

(** ** Task specifications *)

Module TaskStatus.
Inductive t : Type := Pending | Active | Done | Blocked.
#[global] Instance t_eq_dec : EqDecision t.
Proof. solve_decision. Defined.
End TaskStatus.

Module TaskComplexityBand.
Inductive t : Type := Fast | Standard | Complex.
#[global] Instance t_eq_dec : EqDecision t.
Proof. solve_decision. Defined.

Definition label (b : t) : string :=
  match b with Fast => "fast" | Standard => "standard" | Complex => "complex" end.

Definition escalate (b : t) : t :=
  match b with Fast => Standard | Standard | Complex => Complex end.
End TaskComplexityBand.

Module TaskCategory.
Inductive t : Type :=
  | Scaffolding | Implementation | Integration | Verification
  | Research | Refactor | Infra | Docs.
#[global] Instance t_eq_dec : EqDecision t.
Proof. solve_decision. Defined.
End TaskCategory.

Module TaskReasoningLevel.
Inductive t : Type := Low | Medium | High.
#[global] Instance t_eq_dec : EqDecision t.
Proof. solve_decision. Defined.
End TaskReasoningLevel.

Module TaskSpeedPriority.
Inductive t : Type := Latency | Balanced | Accuracy.
#[global] Instance t_eq_dec : EqDecision t.
Proof. solve_decision. Defined.
End TaskSpeedPriority.

Module TaskQualityProfile.
Inductive t : Type := Pragmatic | Balanced | Hardened.
#[global] Instance t_eq_dec : EqDecision t.
Proof. solve_decision. Defined.
End TaskQualityProfile.

Module TaskContextWeight.
Inductive t : Type := Slim | Standard | Deep.
#[global] Instance t_eq_dec : EqDecision t.
Proof. solve_decision. Defined.
End TaskContextWeight.

Module TaskDomain.
Inductive t : Type := Code | Chain | Research | Docs | Custom (s : string).
#[global] Instance t_eq_dec : EqDecision t.
Proof. solve_decision. Defined.

Definition label (d : t) : string :=
  match d with
  | Code => "code"
  | Chain => "chain"
  | Research => "research"
  | Docs => "docs"
  | Custom s => s
  end.

Definition default_gates (d : t) : list string :=
  match d with
  | Code => ["compile"; "test"; "clippy"; "diff"]
  | Chain => ["compile"; "test"; "clippy"; "diff"; "invariant-check"]
  | Research => ["citation-check"; "quality"]
  | Docs => ["lint"; "spell"; "link-check"]
  | Custom _ => ["compile"; "test"]
  end.
End TaskDomain.

Module Task.
Record t : Type := mk {
  id : string;
  title : string;
  status : TaskStatus.t;
  files : list string;
  role : option string;
  acceptance : list string;
  depends_on : list string;
  parallel_group : option string;
  exclusive_files : bool;
  estimated_minutes : option N;
  types_to_define : option (list string);
  formulas : option (list string);
  test_invariants : option (list string);
  imports : option (list string);
  example_pattern : option string;
  context_files : option (list string);
  plan_section : option string;
  skills : option (list string);
  category : option TaskCategory.t;
  reasoning_level : option TaskReasoningLevel.t;
  speed_priority : option TaskSpeedPriority.t;
  quality_profile : option TaskQualityProfile.t;
  context_weight : option TaskContextWeight.t;
  research_before_edit : option bool;
  tags : option (list string);
  dependency_tags : option (list string);
  fixture_keys : option (list string);
  sidecar_requirements : option (list string);
  integration_surfaces : option (list string);
  complexity_band : option TaskComplexityBand.t;
  preferred_model : option string;
  preferred_provider : option string;
  escalate_on_retry : option bool;
  domain : option TaskDomain.t;
}.

#[global] Instance t_eq_dec : EqDecision t.
Proof. solve_decision. Defined.

(** [Task::new]: a pending task with every optional field at its default. *)
Definition new (id title : string) : t :=
  {| id := id; title := title; status := TaskStatus.Pending; files := [];
     role := None; acceptance := []; depends_on := []; parallel_group := None;
     exclusive_files := true; estimated_minutes := None; types_to_define := None;
     formulas := None; test_invariants := None; imports := None;
     example_pattern := None; context_files := None; plan_section := None;
     skills := None; category := None; reasoning_level := None;
     speed_priority := None; quality_profile := None; context_weight := None;
     research_before_edit := None; tags := None; dependency_tags := None;
     fixture_keys := None; sidecar_requirements := None;
     integration_surfaces := None; complexity_band := None;
     preferred_model := None; preferred_provider := None;
     escalate_on_retry := None; domain := None |}.

(** [task.depends_on = d] *)
Definition set_depends_on (d : list string) (k : t) : t :=
  {| id := id k; title := title k; status := status k; files := files k;
     role := role k; acceptance := acceptance k; depends_on := d;
     parallel_group := parallel_group k; exclusive_files := exclusive_files k;
     estimated_minutes := estimated_minutes k; types_to_define := types_to_define k;
     formulas := formulas k; test_invariants := test_invariants k;
     imports := imports k; example_pattern := example_pattern k;
     context_files := context_files k; plan_section := plan_section k;
     skills := skills k; category := category k; reasoning_level := reasoning_level k;
     speed_priority := speed_priority k; quality_profile := quality_profile k;
     context_weight := context_weight k;
     research_before_edit := research_before_edit k; tags := tags k;
     dependency_tags := dependency_tags k; fixture_keys := fixture_keys k;
     sidecar_requirements := sidecar_requirements k;
     integration_surfaces := integration_surfaces k;
     complexity_band := complexity_band k; preferred_model := preferred_model k;
     preferred_provider := preferred_provider k;
     escalate_on_retry := escalate_on_retry k; domain := domain k |}.

(** [task.status = s] and [task.files = fs], [task.estimated_minutes = m]. *)
Definition set_status (s : TaskStatus.t) (k : t) : t :=
  {| id := id k; title := title k; status := s; files := files k;
     role := role k; acceptance := acceptance k; depends_on := depends_on k;
     parallel_group := parallel_group k; exclusive_files := exclusive_files k;
     estimated_minutes := estimated_minutes k; types_to_define := types_to_define k;
     formulas := formulas k; test_invariants := test_invariants k;
     imports := imports k; example_pattern := example_pattern k;
     context_files := context_files k; plan_section := plan_section k;
     skills := skills k; category := category k; reasoning_level := reasoning_level k;
     speed_priority := speed_priority k; quality_profile := quality_profile k;
     context_weight := context_weight k;
     research_before_edit := research_before_edit k; tags := tags k;
     dependency_tags := dependency_tags k; fixture_keys := fixture_keys k;
     sidecar_requirements := sidecar_requirements k;
     integration_surfaces := integration_surfaces k;
     complexity_band := complexity_band k; preferred_model := preferred_model k;
     preferred_provider := preferred_provider k;
     escalate_on_retry := escalate_on_retry k; domain := domain k |}.
End Task.
Abbreviation Task := Task.t.

(** ** Global task identifiers *)

Module GlobalTaskId.
Record t : Type := mk { plan : string; task : string }.

#[global] Instance t_eq_dec : EqDecision t.
Proof. solve_decision. Defined.

#[global] Instance t_countable : Countable t.
Proof.
  refine (inj_countable' (λ x, (plan x, task x)) (λ p, mk p.1 p.2) _).
  by intros [].
Defined.

Definition new (plan task : string) : t := mk plan task.

(** [GlobalTaskId::parse] splits at the first colon and refuses empty sides. *)
Definition parse (s : string) : option t :=
  match str_split_once ":"%char s with
  | None => None
  | Some (p, k) =>
      if str_is_empty p || str_is_empty k then None else Some (mk p k)
  end.

(** [impl Display for GlobalTaskId] *)
Definition to_string (x : t) : string := plan x +:+ ":" +:+ task x.

(** The derived [Ord]: lexicographic on plan, then task. *)
Definition leb (a b : t) : bool :=
  match String.compare (plan a) (plan b) with
  | Lt => true
  | Gt => false
  | Eq => String.leb (task a) (task b)
  end.
End GlobalTaskId.
Abbreviation GlobalTaskId := GlobalTaskId.t.

(** Identifiers that survive the trip through text: both parts non-empty and no
    colon in the plan name. *)
Definition well_formed_id (x : GlobalTaskId) : bool :=
  negb (str_is_empty (GlobalTaskId.plan x)) &&
  negb (str_is_empty (GlobalTaskId.task x)) &&
  negb (str_has ":"%char (GlobalTaskId.plan x)).

Lemma str_split_once_no_sep c s l r :
  str_split_once c s = Some (l, r) → str_has c l = false.
Proof.
  revert l. induction s as [|a s IH]; intros l; simpl; [done|].
  destruct (Ascii.eqb a c) eqn:E; [by intros [= <- <-]|].
  destruct (str_split_once c s) as [[l' r']|]; [|done].
  intros [= <- <-]. simpl. rewrite E. by apply IH.
Qed.

Lemma parse_to_string x :
  well_formed_id x = true → GlobalTaskId.parse (GlobalTaskId.to_string x) = Some x.
Proof.
  unfold GlobalTaskId.parse, GlobalTaskId.to_string, well_formed_id.
  destruct x as [p k]. simpl. intros Hw.
  apply andb_prop in Hw as [[Hp Hk]%andb_prop Hc]. apply negb_true_iff in Hp, Hk, Hc.
  change (p +:+ ":" +:+ k) with (p +:+ String ":"%char k).
  rewrite (str_split_once_app _ _ _ Hc), Hp, Hk. done.
Qed.

(** [GlobalTaskId::parse] and [to_string] are inverse on well-formed
    identifiers: parsing a text yields [x] exactly when the text is the display
    form of [x] and [x] has non-empty parts and no colon in its plan name. *)
Theorem parse_to_string_iff s x :
  GlobalTaskId.parse s = Some x ↔
    s = GlobalTaskId.to_string x ∧ well_formed_id x = true.
Proof.
  split.
  - unfold GlobalTaskId.parse, GlobalTaskId.to_string, well_formed_id.
    destruct (str_split_once ":"%char s) as [[p k]|] eqn:E; [|done].
    destruct (str_is_empty p) eqn:Ep, (str_is_empty k) eqn:Ek; simpl; try done.
    intros [= <-]. simpl. rewrite Ep, Ek, (str_split_once_no_sep _ _ _ _ E).
    split; [|done]. by apply str_split_once_Some in E.
  - intros [-> Hw]. by apply parse_to_string.
Qed.

(** ** Order on identifiers *)

Lemma string_compare_lt_trans a b c :
  String.compare a b = Lt → String.compare b c = Lt → String.compare a c = Lt.
Proof.
  intros H1 H2.
  assert (String.leb a b = true) as L1 by (unfold String.leb; by rewrite H1).
  assert (String.leb b c = true) as L2 by (unfold String.leb; by rewrite H2).
  pose proof (string_leb_trans _ _ _ L1 L2) as L3. unfold String.leb in L3.
  destruct (String.compare a c) eqn:E; [|done|done].
  apply String.compare_eq_iff in E as ->.
  rewrite String.compare_antisym, H2 in H1. done.
Qed.

Lemma id_leb_total a b : GlobalTaskId.leb a b = true ∨ GlobalTaskId.leb b a = true.
Proof.
  unfold GlobalTaskId.leb.
  rewrite (String.compare_antisym (GlobalTaskId.plan b) (GlobalTaskId.plan a)).
  destruct (String.compare (GlobalTaskId.plan a) (GlobalTaskId.plan b)); simpl; auto.
  apply string_leb_total.
Qed.

Lemma id_leb_trans a b c :
  GlobalTaskId.leb a b = true → GlobalTaskId.leb b c = true → GlobalTaskId.leb a c = true.
Proof.
  unfold GlobalTaskId.leb. destruct a as [pa ta], b as [pb tb], c as [pc tc]; simpl.
  destruct (String.compare pa pb) eqn:E1, (String.compare pb pc) eqn:E2; try done.
  - apply String.compare_eq_iff in E1 as ->. rewrite E2. apply string_leb_trans.
  - apply String.compare_eq_iff in E1 as ->. by rewrite E2.
  - apply String.compare_eq_iff in E2 as ->. by rewrite E1.
  - by rewrite (string_compare_lt_trans _ _ _ E1 E2).
Qed.

Lemma id_leb_antisym a b :
  GlobalTaskId.leb a b = true → GlobalTaskId.leb b a = true → a = b.
Proof.
  unfold GlobalTaskId.leb. destruct a as [pa ta], b as [pb tb]; simpl.
  rewrite (String.compare_antisym pb pa).
  destruct (String.compare pa pb) eqn:E; simpl; [|done|done].
  apply String.compare_eq_iff in E as ->.
  intros H1 H2. by rewrite (string_leb_antisym _ _ H1 H2).
Qed.

(** A sorted list of identifiers, as [BTreeSet<GlobalTaskId>] iterates. *)
Definition sort_ids : list GlobalTaskId → list GlobalTaskId := sort_by GlobalTaskId.leb.

Lemma sort_ids_sorted l :
  StronglySorted (λ a b, GlobalTaskId.leb a b = true) (sort_ids l).
Proof. apply sort_by_sorted; [apply id_leb_total|apply id_leb_trans]. Qed.

Lemma elem_of_sort_ids x l : x ∈ sort_ids l ↔ x ∈ l.
Proof. apply elem_of_sort_by. Qed.

(** ** DAG mutations *)

Module DagMutation.
Inductive t : Type :=
  | AddTask (task_id : GlobalTaskId) (task : Task) (depends_on : list GlobalTaskId)
  | RemoveTask (task_id : GlobalTaskId)
  | SplitTask (task_id : GlobalTaskId) (into : list Task)
  | AddDependency (from to : GlobalTaskId)
  | UpdateTaskMetadata (task_id : GlobalTaskId) (task : Task).

#[global] Instance t_eq_dec : EqDecision t.
Proof. solve_decision. Defined.
End DagMutation.

(** ** Executor actions (crates/roko-orchestrator/src/executor/action.rs)

    The vocabulary of side effects the executor requests from its runtime. *)

Module ExecutorAction.
Inductive t : Type :=
  | DispatchPlan (plan_id : string)
  | SpawnAgent (plan_id : string) (role : AgentRole) (task : string)
  | RunGate (plan_id : string) (rung : N)
  | RunVerify (plan_id : string)
  | ApplyDagMutation (mutation : DagMutation.t)
  | StartSpeculativeExecution (plan_id task : string) (backup_role : AgentRole)
      (expected_minutes elapsed_minutes : N)
  | CancelSpeculativeExecution (plan_id task : string)
  | MergeBranch (plan_id : string)
  | FailPlan (plan_id reason : string)
  | CompletePlan (plan_id : string)
  | Reorder (plan_id : string) (new_position : nat)
  | PausePlan (plan_id : string)
  | ResumePlan (plan_id : string).

#[global] Instance t_eq_dec : EqDecision t.
Proof. solve_decision. Defined.

(** The plan an action is about, when it names one. *)
Definition plan_of (a : t) : option string :=
  match a with
  | DispatchPlan p | SpawnAgent p _ _ | RunGate p _ | RunVerify p
  | StartSpeculativeExecution p _ _ _ _ | CancelSpeculativeExecution p _
  | MergeBranch p | FailPlan p _ | CompletePlan p | Reorder p _ | PausePlan p
  | ResumePlan p => Some p
  | ApplyDagMutation _ => None
  end.
End ExecutorAction.
Abbreviation ExecutorAction := ExecutorAction.t.
