(* ===== verification/Ordered.v ===== *)
(** * Ordered collections

    The interface a key type offers to [BTreeSet] and [BTreeMap]: a total order
    ([Ord]).  Collections are stdpp's finite sets and maps; what the order adds is
    the sequence in which they are iterated.  Strings and task identifiers
    implement the interface. *)

From stdpp Require Import relations.
From S2P Require Import Prelude Task.

Class Ord (K : Type) := {
  ord_leb : K → K → bool;
  ord_leb_total : ∀ a b, ord_leb a b = true ∨ ord_leb b a = true;
  ord_leb_trans : ∀ a b c, ord_leb a b = true → ord_leb b c = true → ord_leb a c = true;
  ord_leb_antisym : ∀ a b, ord_leb a b = true → ord_leb b a = true → a = b;
}.

#[export] Instance string_ord : Ord string :=
  {| ord_leb := String.leb; ord_leb_total := string_leb_total;
     ord_leb_trans := string_leb_trans; ord_leb_antisym := string_leb_antisym |}.

#[export] Instance GlobalTaskId_ord : Ord GlobalTaskId :=
  {| ord_leb := GlobalTaskId.leb; ord_leb_total := id_leb_total;
     ord_leb_trans := id_leb_trans; ord_leb_antisym := id_leb_antisym |}.

#[export] Instance nat_ord : Ord nat.
Proof.
  refine {| ord_leb := Nat.leb |}; intros *; rewrite ?Nat.leb_le; lia.
Defined.

Section Iteration.
Context `{HK : Countable K} {OK : Ord K}.
Implicit Types X : gset K.

(** [v.sort()] on keys without duplicates. *)
Definition sort_keys : list K → list K := sort_by ord_leb.

(** Iteration of a [BTreeSet<K>]. *)
Definition set_iter X : list K := sort_keys (elements X).

(** [set.iter().next()] *)
Definition set_first X : option K := head (set_iter X).

(** Keys of a [BTreeMap<K, V>] in order. *)
Definition map_keys {V} (m : gmap K V) : list K := sort_keys (map_to_list m).*1.

Lemma sort_keys_unique l1 l2 : l1 ≡ₚ l2 → sort_keys l1 = sort_keys l2.
Proof.
  intros Hp. apply (StronglySorted_unique_strong (λ a b, ord_leb a b = true)).
  - intros x y _ _. apply ord_leb_antisym.
  - apply sort_by_sorted; [apply ord_leb_total|apply ord_leb_trans].
  - apply sort_by_sorted; [apply ord_leb_total|apply ord_leb_trans].
  - unfold sort_keys. by rewrite !sort_by_perm.
Qed.

Lemma elem_of_sort_keys x l : x ∈ sort_keys l ↔ x ∈ l.
Proof. apply elem_of_sort_by. Qed.

Lemma elem_of_set_iter x X : x ∈ set_iter X ↔ x ∈ X.
Proof. unfold set_iter. by rewrite elem_of_sort_keys, elem_of_elements. Qed.

Lemma NoDup_set_iter X : NoDup (set_iter X).
Proof. apply NoDup_sort_by, NoDup_elements. Qed.

Lemma length_set_iter X : length (set_iter X) = size X.
Proof. apply length_sort_by. Qed.

Lemma elem_of_map_keys {V} (m : gmap K V) k : k ∈ map_keys m ↔ is_Some (m !! k).
Proof.
  unfold map_keys. rewrite elem_of_sort_keys, list_elem_of_fmap. split.
  - intros ([k' v] & -> & H%elem_of_map_to_list). eauto.
  - intros [v Hv]. exists (k, v). split; [done|]. by apply elem_of_map_to_list.
Qed.

Lemma NoDup_map_keys {V} (m : gmap K V) : NoDup (map_keys m).
Proof. apply NoDup_sort_by, NoDup_fst_map_to_list. Qed.

Lemma length_map_keys {V} (m : gmap K V) : length (map_keys m) = size m.
Proof.
  unfold map_keys, sort_keys. rewrite length_sort_by, length_fmap. apply length_map_to_list.
Qed.

Lemma set_first_None X : set_first X = None → X = ∅.
Proof.
  unfold set_first. destruct (set_iter X) as [|x l] eqn:E; [|done]. intros _.
  apply elem_of_equiv_empty_L. intros x Hx%elem_of_set_iter. rewrite E in Hx. set_solver.
Qed.

Lemma set_first_Some X x :
  set_first X = Some x → x ∈ X ∧ ∀ y, y ∈ X → ord_leb x y = true.
Proof.
  unfold set_first. destruct (set_iter X) as [|z l] eqn:E; [done|]. intros [= ->].
  assert (StronglySorted (λ a b, ord_leb a b = true) (set_iter X)) as Hs
    by (apply sort_by_sorted; [apply ord_leb_total|apply ord_leb_trans]).
  split; [apply elem_of_set_iter; rewrite E; by left|].
  intros y Hy%elem_of_set_iter. rewrite E in Hy, Hs.
  apply StronglySorted_inv in Hs as [_ Hall].
  apply elem_of_cons in Hy as [->|Hy]; [by destruct (ord_leb_total x x)|].
  rewrite Forall_forall in Hall. by apply Hall.
Qed.
End Iteration.

(** ** Dependency graphs

    [edge deps a b]: [a] has [b] among its direct dependencies. *)

Section Graph.
Context `{HK : Countable K}.
Implicit Types deps : gmap K (gset K).

Definition edge deps (a b : K) : Prop := ∃ ds, deps !! a = Some ds ∧ b ∈ ds.

(** A node lies on a cycle when it depends on itself through at least one edge. *)
Definition on_cycle deps (a : K) : Prop := tc (edge deps) a a.
Definition acyclic deps : Prop := ∀ a, ¬ on_cycle deps a.

Lemma tc_first {A} (R : relation A) x y : tc R x y → ∃ b, R x b ∧ rtc R b y.
Proof. intros []; eauto using rtc_refl, tc_rtc. Qed.

Lemma Acc_not_on_cycle deps a : Acc (flip (edge deps)) a → ¬ on_cycle deps a.
Proof.
  induction 1 as [a _ IH]. intros Hc.
  apply tc_first in Hc as (b & Hab & Hba).
  apply (IH b Hab). eapply tc_rtc_l; [exact Hba|by apply tc_once].
Qed.

(** A path in a finite acyclic graph ends. *)
Lemma acyclic_sn deps a : acyclic deps → sn (edge deps) a.
Proof.
  intros Hac. apply tc_finite_sn; [intros b; apply Hac|].
  exists (concat (elements <$> (map_to_list deps).*2)). intros b Hb.
  assert (∃ c, edge deps c b) as (c & ds & Hds & Hin)
    by (revert b Hb; apply (tc_ind_r (λ b, ∃ c, edge deps c b) a); eauto).
  rewrite list_elem_of_In. apply in_concat. exists (elements ds). rewrite <-!list_elem_of_In.
  split; [|by apply elem_of_elements]. apply list_elem_of_fmap_2, list_elem_of_fmap.
  exists (c, ds). split; [done|]. by apply elem_of_map_to_list.
Qed.
End Graph.
