(* ===== verification/CycleDetect.v ===== *)
(** * Cycle detection (crates/roko-orchestrator/src/dag.rs, [detect_cycle_nodes])

    The recursive depth-first search with its colours, its stack and its table of
    stack positions, on a graph given as [node -> direct dependencies].  The
    theorems show that it terminates, that every node it reports lies on a cycle,
    and that it reports something as soon as there is a cycle. *)

From stdpp Require Import relations.
From S2P Require Import Prelude Task Ordered.

Module DfsState.
(** The mutable arguments of [dfs]: colours (0 new, 1 on the stack, 2 done),
    stack, stack positions, and the nodes found on a cycle. *)
Record t (K : Type) `{Countable K} : Type := mk {
  state : gmap K N;
  stack : list K;
  positions : gmap K nat;
  cycle_nodes : gset K;
}.
Arguments mk {K _ _} _ _ _ _.
Arguments state {K _ _} _.
Arguments stack {K _ _} _.
Arguments positions {K _ _} _.
Arguments cycle_nodes {K _ _} _.
End DfsState.
Abbreviation DfsState := DfsState.t.

Section Detect.
Context `{HK : Countable K} {OK : Ord K}.
Implicit Types (deps : gmap K (gset K)) (s : DfsState K) (x y node child : K).

(** [state.get(child).copied().unwrap_or(0)] *)
Definition mark s x : N := default 0%N (DfsState.state s !! x).

Definition enter node s : DfsState K :=
  DfsState.mk (<[node := 1%N]> (DfsState.state s)) (DfsState.stack s ++ [node])
    (<[node := length (DfsState.stack s)]> (DfsState.positions s)) (DfsState.cycle_nodes s).

Definition leave node s : DfsState K :=
  DfsState.mk (<[node := 2%N]> (DfsState.state s)) (removelast (DfsState.stack s))
    (delete node (DfsState.positions s)) (DfsState.cycle_nodes s).

(** A child on the stack closes a cycle: everything from its position on is on it. *)
Definition report child s : DfsState K :=
  match DfsState.positions s !! child with
  | Some start =>
      DfsState.mk (DfsState.state s) (DfsState.stack s) (DfsState.positions s)
        (DfsState.cycle_nodes s ∪ list_to_set (drop start (DfsState.stack s)))
  | None => s
  end.

Definition children deps node : list K :=
  match deps !! node with Some cs => set_iter cs | None => [] end.

Definition visit_child (rec : K → DfsState K → DfsState K) s child : DfsState K :=
  match mark s child with
  | 0%N => rec child s
  | 1%N => report child s
  | _ => s
  end.

(** The recursion descends only into new nodes, and colours them: the number of
    nodes bounds its depth. *)
Fixpoint dfs deps (fuel : nat) node s : DfsState K :=
  match fuel with
  | O => s
  | S fuel' =>
      leave node (foldl (visit_child (dfs deps fuel')) (enter node s) (children deps node))
  end.

(** Every node the search can meet. *)
Definition universe deps : gset K :=
  dom deps ∪ ⋃ (map_to_list deps).*2.

Definition initial : DfsState K := DfsState.mk ∅ [] ∅ ∅.

Definition detect_loop deps s node : DfsState K :=
  match mark s node with
  | 0%N => dfs deps (size (universe deps)) node s
  | _ => s
  end.

Definition detect_cycle_nodes deps : list K :=
  set_iter (DfsState.cycle_nodes (foldl (detect_loop deps) initial (map_keys deps))).
End Detect.

(** ** Invariant of the search *)

Section DetectFacts.
Context `{HK : Countable K} {OK : Ord K}.
Context (deps : gmap K (gset K)).
Implicit Types (s : DfsState K) (x y node child : K).

Record inv s : Prop := {
  inv_colour : ∀ x, mark s x = 0%N ∨ mark s x = 1%N ∨ mark s x = 2%N;
  inv_positions : ∀ x i, DfsState.positions s !! x = Some i ↔ DfsState.stack s !! i = Some x;
  inv_stack : ∀ x, mark s x = 1%N ↔ x ∈ DfsState.stack s;
  inv_path : ∀ i x y, DfsState.stack s !! i = Some x → DfsState.stack s !! S i = Some y →
    edge deps x y;
  inv_sound : ∀ x, x ∈ DfsState.cycle_nodes s → on_cycle deps x;
  inv_done : DfsState.cycle_nodes s = ∅ → ∀ x, mark s x = 2%N → Acc (flip (edge deps)) x;
}.

(** What a completed call leaves as it was. *)
Record extends s s' : Prop := {
  ext_stack : DfsState.stack s' = DfsState.stack s;
  ext_mark : ∀ x, mark s x ≠ 0%N → mark s' x = mark s x;
  ext_cycle : DfsState.cycle_nodes s ⊆ DfsState.cycle_nodes s';
}.

#[local] Instance extends_preorder : PreOrder extends.
Proof.
  split; [by intros s; split|].
  intros s1 s2 s3 [E1 M1 C1] [E2 M2 C2]. split; [congruence| |set_solver].
  intros x Hx. pose proof (M1 x Hx) as Hm. rewrite <-Hm in Hx |- *. by apply M2.
Qed.

Definition unvisited s : gset K := filter (λ x, mark s x = 0%N) (universe deps).

Lemma mark_insert s x y n st po cy :
  mark (DfsState.mk (<[x := n]> (DfsState.state s)) st po cy) y =
  if decide (x = y) then n else mark s y.
Proof. unfold mark. simpl. case_decide; simplify_map_eq; done. Qed.

Lemma edge_universe x y : edge deps x y → y ∈ universe deps.
Proof.
  intros (ds & Hx & Hy). unfold universe. apply elem_of_union_r, elem_of_union_list.
  exists ds. split; [|done]. apply list_elem_of_fmap.
  exists (x, ds). split; [done|]. by apply elem_of_map_to_list.
Qed.

Lemma elem_of_children x y : y ∈ children deps x ↔ edge deps x y.
Proof.
  unfold children, edge. destruct (deps !! x) as [cs|]; [rewrite elem_of_set_iter|]; split.
  - eauto.
  - by intros (ds & [= <-] & Hy).
  - intros H. set_solver.
  - by intros (ds & ? & _).
Qed.

Lemma inv_initial : inv initial.
Proof.
  split; unfold mark, initial; cbn [DfsState.state DfsState.stack DfsState.positions
    DfsState.cycle_nodes]; intros; rewrite ?lookup_empty in *; simpl; set_solver.
Qed.

Lemma stack_path s i j x y :
  inv s → DfsState.stack s !! i = Some x → DfsState.stack s !! j = Some y → i ≤ j →
  rtc (edge deps) x y.
Proof.
  intros Hs Hi Hj Hle. revert y Hj. induction Hle as [|j Hle IH]; intros y Hj.
  - replace y with x by congruence. apply rtc_refl.
  - destruct (lookup_lt_is_Some_2 (DfsState.stack s) j) as [z Hz].
    { apply lookup_lt_Some in Hj. lia. }
    eapply rtc_r; [by apply IH|]. by eapply inv_path.
Qed.

Lemma inv_enter s node :
  inv s → mark s node = 0%N →
  (∀ p, last (DfsState.stack s) = Some p → edge deps p node) → inv (enter node s).
Proof.
  intros Hs H0 Hlast. assert (node ∉ DfsState.stack s) as Hn.
  { intros H. apply (inv_stack s Hs) in H. congruence. }
  split; unfold enter; simpl.
  - intros x. rewrite mark_insert. case_decide; [auto|]. apply (inv_colour s Hs).
  - intros x i. destruct (decide (x = node)) as [->|Hx].
    + rewrite lookup_insert_eq. split.
      * intros [= <-]. by apply list_lookup_middle.
      * intros [H|[? H]]%lookup_app_Some; [by apply list_elem_of_lookup_2 in H|].
        apply list_lookup_singleton_Some in H as [? _]. f_equal. lia.
    + rewrite lookup_insert_ne, (inv_positions s Hs), lookup_app_Some by done.
      rewrite list_lookup_singleton_Some. naive_solver.
  - intros x. rewrite mark_insert, elem_of_app, list_elem_of_singleton.
    case_decide; [naive_solver|]. rewrite (inv_stack s Hs). naive_solver.
  - intros i x y Hx Hy. apply lookup_app_Some in Hy as [Hy|[? Hy]].
    + apply lookup_app_Some in Hx as [Hx|[? _]]; [by eapply (inv_path s Hs)|].
      apply lookup_lt_Some in Hy. lia.
    + apply list_lookup_singleton_Some in Hy as [? <-]. apply Hlast. rewrite last_lookup.
      rewrite lookup_app_l in Hx by lia. rewrite <-Hx. f_equal. lia.
  - apply (inv_sound s Hs).
  - intros Hc x. rewrite mark_insert. case_decide; [done|]. by apply (inv_done s Hs).
Qed.

Lemma inv_leave s stk node :
  inv s → DfsState.stack s = stk ++ [node] →
  (DfsState.cycle_nodes s = ∅ → ∀ y, edge deps node y → mark s y = 2%N) →
  inv (leave node s).
Proof.
  intros Hs Hstk Hdone. assert (node ∉ stk) as Hn.
  { intros [i Hi]%list_elem_of_lookup_1.
    assert (i < length stk)%nat by by eapply lookup_lt_Some.
    assert (DfsState.positions s !! node = Some i) as H1.
    { apply (inv_positions s Hs). rewrite Hstk. by apply lookup_app_l_Some. }
    assert (DfsState.positions s !! node = Some (length stk)) as H2.
    { apply (inv_positions s Hs). rewrite Hstk. by apply list_lookup_middle. }
    rewrite H1 in H2. simplify_eq. lia. }
  assert (DfsState.stack (leave node s) = stk) as Hst.
  { unfold leave. simpl. rewrite Hstk. apply removelast_last. }
  split; rewrite ?Hst.
  - intros x. unfold leave. rewrite mark_insert. case_decide; [auto|]. apply (inv_colour s Hs).
  - intros x i. unfold leave. simpl. rewrite lookup_delete_Some, (inv_positions s Hs), Hstk.
    rewrite lookup_app_Some, list_lookup_singleton_Some. split; [naive_solver|].
    intros Hi. split; [|by left]. intros ->. by apply list_elem_of_lookup_2 in Hi.
  - intros x. unfold leave. rewrite mark_insert. case_decide as E.
    + subst. split; [done|]. intros H. done.
    + rewrite (inv_stack s Hs), Hstk. set_solver.
  - intros i x y Hx Hy. apply (inv_path s Hs i); rewrite Hstk; by apply lookup_app_l_Some.
  - apply (inv_sound s Hs).
  - intros Hc x. unfold leave. rewrite mark_insert. case_decide as E.
    + subst. intros _. constructor. intros y Hy. apply (inv_done s Hs Hc), Hdone; done.
    + by apply (inv_done s Hs).
Qed.

Lemma inv_report s node child :
  inv s → last (DfsState.stack s) = Some node → edge deps node child → mark s child = 1%N →
  inv (report child s) ∧ extends s (report child s) ∧
  mark (report child s) child = 1%N ∧ DfsState.cycle_nodes (report child s) ≠ ∅.
Proof.
  intros Hs Hlast Hedge Hm. pose proof Hm as Hin.
  apply (inv_stack s Hs), list_elem_of_lookup_1 in Hin as [i Hi].
  unfold report. pose proof Hi as Hp. apply (inv_positions s Hs) in Hp. rewrite Hp.
  rewrite last_lookup in Hlast.
  assert (∀ x, x ∈ drop i (DfsState.stack s) → on_cycle deps x) as Hcyc.
  { intros x [j Hj]%list_elem_of_lookup_1. rewrite lookup_drop in Hj.
    assert (i + j < length (DfsState.stack s))%nat by by eapply lookup_lt_Some.
    eapply tc_rtc_l; [eapply (stack_path s (i + j) _ x node); [done..|lia]|].
    eapply tc_rtc_r; [by apply tc_once|]. eapply (stack_path s i _ child x); [done..|lia]. }
  split_and!; [|split; [done|done|simpl; set_solver]|done|].
  - destruct Hs as [H1 H2 H3 H4 H5 H6]. split; simpl; [done..| |].
    + intros x [Hx|Hx%elem_of_list_to_set]%elem_of_union; auto.
    + intros Hc. apply H6. set_solver.
  - simpl. assert (child ∈ drop i (DfsState.stack s)); [|set_solver].
    apply (list_elem_of_lookup_2 _ 0). by rewrite lookup_drop, Nat.add_0_r.
Qed.

Lemma unvisited_extends s s' : extends s s' → unvisited s' ⊆ unvisited s.
Proof.
  intros [_ Hm _] x. unfold unvisited. rewrite !elem_of_filter. intros [H0 Hu].
  split; [|done]. destruct (decide (mark s x = 0%N)) as [|Hx]; [done|].
  by rewrite <-(Hm x Hx).
Qed.

Lemma unvisited_enter s node :
  node ∈ universe deps → mark s node = 0%N → size (unvisited (enter node s)) < size (unvisited s).
Proof.
  intros Hu H0. apply subset_size. split.
  - intros x. unfold unvisited, enter. rewrite !elem_of_filter, mark_insert.
    case_decide; naive_solver.
  - intros Hsub. specialize (Hsub node). unfold unvisited, enter in Hsub.
    rewrite !elem_of_filter, mark_insert in Hsub. rewrite decide_True in Hsub by done.
    naive_solver.
Qed.

(** The specification of a recursive call with enough fuel. *)
Definition dfs_ok (fuel : nat) : Prop := ∀ node s,
  inv s → mark s node = 0%N → node ∈ universe deps →
  (∀ p, last (DfsState.stack s) = Some p → edge deps p node) →
  size (unvisited s) ≤ fuel →
  inv (dfs deps fuel node s) ∧ extends s (dfs deps fuel node s) ∧
  mark (dfs deps fuel node s) node = 2%N.

(** One child: afterwards it is done, or it is on the stack and a cycle is known. *)
Lemma visit_child_ok fuel node s child :
  dfs_ok fuel → inv s → last (DfsState.stack s) = Some node → edge deps node child →
  size (unvisited s) ≤ fuel →
  let s' := visit_child (dfs deps fuel) s child in
  inv s' ∧ extends s s' ∧ mark s' child ≠ 0%N ∧
  (DfsState.cycle_nodes s' = ∅ → mark s' child = 2%N).
Proof.
  intros IH Hs Hlast Hedge Hf. unfold visit_child.
  destruct (inv_colour s Hs child) as [H|[H|H]]; rewrite H; cbv zeta.
  - destruct (IH child s) as (H1 & H2 & H3); try done.
    + by eapply edge_universe.
    + intros p Hp. by simplify_eq.
    + rewrite H3. done.
  - destruct (inv_report s node child) as (H1 & H2 & H3 & H4); try done.
    rewrite H3. done.
  - rewrite H. done.
Qed.

Lemma visit_children_ok fuel node l s :
  dfs_ok fuel → inv s → last (DfsState.stack s) = Some node →
  (∀ c, c ∈ l → edge deps node c) → size (unvisited s) ≤ fuel →
  let s' := foldl (visit_child (dfs deps fuel)) s l in
  inv s' ∧ extends s s' ∧
  (DfsState.cycle_nodes s' = ∅ → ∀ c, c ∈ l → mark s' c = 2%N).
Proof.
  intros IH. revert s. induction l as [|c l IHl]; intros s Hs Hlast Hl Hf; simpl.
  { split_and!; [done|done|set_solver]. }
  destruct (visit_child_ok fuel node s c) as (H1 & H2 & H3 & H4); [done..|apply Hl; by left|done|].
  set (s1 := visit_child (dfs deps fuel) s c) in *.
  destruct (IHl s1) as (K1 & K2 & K3); [done|..].
  - by rewrite (ext_stack _ _ H2).
  - intros; apply Hl; by right.
  - pose proof (subseteq_size _ _ (unvisited_extends _ _ H2)). lia.
  - split_and!; [done|by etrans|]. intros Hc c' [->|Hc']%elem_of_cons; [|auto].
    rewrite (ext_mark _ _ K2) by done. apply H4. pose proof (ext_cycle _ _ K2). set_solver.
Qed.

Lemma dfs_correct fuel : dfs_ok fuel.
Proof.
  induction fuel as [|fuel IH]; intros node s Hs H0 Hu Hlast Hf.
  { pose proof (unvisited_enter s node Hu H0). lia. }
  pose proof (unvisited_enter s node Hu H0). cbn [dfs].
  pose proof (inv_enter s node Hs H0 Hlast) as Hs1.
  destruct (visit_children_ok fuel node (children deps node) (enter node s)) as (K1 & K2 & K3);
    [done|done|apply last_snoc|apply elem_of_children|lia|].
  set (s2 := foldl _ _ _) in *.
  assert (DfsState.stack s2 = DfsState.stack s ++ [node]) as Hstk by apply (ext_stack _ _ K2).
  split_and!.
  - apply (inv_leave s2 (DfsState.stack s)); [done|done|].
    intros Hc y Hy. apply K3; [done|]. by apply elem_of_children.
  - split; unfold leave; simpl.
    + rewrite Hstk. apply removelast_last.
    + intros x Hx. rewrite mark_insert. case_decide; [congruence|].
      assert (mark (enter node s) x = mark s x) as E.
      { unfold enter. rewrite mark_insert. by rewrite decide_False. }
      rewrite <-E in Hx |- *. by apply (ext_mark _ _ K2).
    + apply (ext_cycle _ _ K2).
  - unfold leave. rewrite mark_insert. by rewrite decide_True.
Qed.

(** The outer loop over the keys, from an empty stack. *)
Lemma detect_loop_ok s node :
  inv s → DfsState.stack s = [] → node ∈ universe deps →
  let s' := detect_loop deps s node in
  inv s' ∧ extends s s' ∧ mark s' node = 2%N.
Proof.
  intros Hs Hstk Hu. unfold detect_loop.
  destruct (inv_colour s Hs node) as [H|[H|H]]; rewrite H; cbv zeta.
  - apply dfs_correct; try done.
    + by rewrite Hstk.
    + apply subseteq_size. unfold unvisited. intros x. rewrite elem_of_filter. naive_solver.
  - apply (inv_stack s Hs) in H. rewrite Hstk in H. set_solver.
  - done.
Qed.

Lemma detect_loops_ok l s :
  inv s → DfsState.stack s = [] → (∀ x, x ∈ l → x ∈ universe deps) →
  let s' := foldl (detect_loop deps) s l in
  inv s' ∧ extends s s' ∧ ∀ x, x ∈ l → mark s' x = 2%N.
Proof.
  revert s. induction l as [|x l IH]; intros s Hs Hstk Hl; simpl; [split_and!; [done..|set_solver]|].
  destruct (detect_loop_ok s x) as (H1 & H2 & H3); [done|done|apply Hl; by left|].
  destruct (IH (detect_loop deps s x)) as (K1 & K2 & K3); [done|..].
  - by rewrite (ext_stack _ _ H2).
  - intros; apply Hl; by right.
  - split_and!; [done|by etrans|]. intros y [->|Hy]%elem_of_cons; [|auto].
    rewrite (ext_mark _ _ K2), H3; [done|]. by rewrite H3.
Qed.

Lemma detect_sound x : x ∈ detect_cycle_nodes deps → on_cycle deps x.
Proof.
  unfold detect_cycle_nodes. rewrite elem_of_set_iter.
  destruct (detect_loops_ok (map_keys deps) initial) as (H & _ & _); [apply inv_initial|done| |].
  - intros y [v Hv]%elem_of_map_keys. apply elem_of_union_l. by eapply elem_of_dom_2.
  - apply (inv_sound _ H).
Qed.

Lemma detect_none_acyclic : detect_cycle_nodes deps = [] → ∀ x, Acc (flip (edge deps)) x.
Proof.
  intros Hnil x. constructor. intros y (ds & Hx & Hy). unfold detect_cycle_nodes in Hnil.
  destruct (detect_loops_ok (map_keys deps) initial) as (H & _ & Hall); [apply inv_initial|done| |].
  { intros z [v Hv]%elem_of_map_keys. apply elem_of_union_l. by eapply elem_of_dom_2. }
  assert (DfsState.cycle_nodes (foldl (detect_loop deps) initial (map_keys deps)) = ∅) as Hc.
  { apply elem_of_equiv_empty_L. intros z Hz%elem_of_set_iter. rewrite Hnil in Hz. set_solver. }
  pose proof (inv_done _ H Hc x (Hall x (proj2 (elem_of_map_keys deps x) (mk_is_Some _ _ Hx)))).
  apply Acc_inv with x; [done|]. by exists ds.
Qed.
End DetectFacts.

(** [detect_cycle_nodes] reports only nodes that lie on a cycle, in
    increasing order and without repetition, and it reports none exactly when the
    graph is acyclic. *)
Theorem detect_cycle_nodes_spec `{HK : Countable K} {OK : Ord K} (deps : gmap K (gset K)) :
  (∀ x, x ∈ detect_cycle_nodes deps → on_cycle deps x) ∧
  StronglySorted (λ a b, ord_leb a b = true) (detect_cycle_nodes deps) ∧
  NoDup (detect_cycle_nodes deps) ∧
  (detect_cycle_nodes deps = [] ↔ acyclic deps).
Proof.
  split_and!; [apply detect_sound| |apply NoDup_set_iter|].
  - apply sort_by_sorted; [apply ord_leb_total|apply ord_leb_trans].
  - split.
    + intros Hnil x. by apply Acc_not_on_cycle, detect_none_acyclic.
    + intros Hac. destruct (detect_cycle_nodes deps) as [|x l] eqn:E; [done|].
      exfalso. apply (Hac x), detect_sound. rewrite E. by left.
Qed.

(** It does not report every node that lies on a cycle: here [c] lies on
    a -> c -> b -> a, but [b] is already done when the search reaches it from [c]. *)
Definition missed_graph : gmap string (gset string) :=
  {["a" := {["b"; "c"]}; "b" := {["a"]}; "c" := {["b"]}]}.

Lemma detect_misses_cycle_node :
  on_cycle missed_graph "c" ∧ detect_cycle_nodes missed_graph = ["a"; "b"].
Proof.
  split; [|vm_compute; reflexivity].
  apply (tc_l _ _ "b"); [|apply (tc_l _ _ "a"); [|apply tc_once]].
  - exists {["b"]}. split; [reflexivity|set_solver].
  - exists {["a"]}. split; [reflexivity|set_solver].
  - exists {["b"; "c"]}. split; [reflexivity|set_solver].
Qed.
