(* ===== verification/PlanState.v ===== *)
(** * Per-plan state (crates/roko-orchestrator/src/executor/plan_state.rs)

    Test counts and verdicts (crates/roko-core/src/verdict.rs), gate results,
    the mutable state of one plan, and the directive that says what a runner
    does with a plan when it resumes. *)

From S2P Require Import Prelude Phase.

(** ** Verdicts *)

Module TestCount.
Record t : Type := mk { passed : N; failed : N; ignored : N }.

#[global] Instance t_eq_dec : EqDecision t.
Proof. solve_decision. Defined.

(** [TestCount::total]: a plain [u32] sum. *)
Definition total (c : t) : N := add32 (add32 (passed c) (failed c)) (ignored c).
End TestCount.
Abbreviation TestCount := TestCount.t.

Module Verdict.
Record t : Type := mk {
  passed : bool;
  reason : string;
  gate : string;
  score : F32.t;
  detail : option string;
  test_count : option TestCount;
  error_digest : option string;
  duration_ms : N;
}.

Definition pass (gate : string) : t :=
  {| passed := true; reason := EmptyString; gate := gate; score := F32.of_Z 1;
     detail := None; test_count := None; error_digest := None; duration_ms := 0 |}.

Definition fail (gate reason : string) : t :=
  {| passed := false; reason := reason; gate := gate; score := F32.zero;
     detail := None; test_count := None; error_digest := None; duration_ms := 0 |}.

Definition with_score (score : F32.t) (v : t) : t :=
  mk (passed v) (reason v) (gate v) (F32.clamp F32.zero (F32.of_Z 1) score) (detail v)
    (test_count v) (error_digest v) (duration_ms v).
Definition with_detail (detail : string) (v : t) : t :=
  mk (passed v) (reason v) (gate v) (score v) (Some detail) (test_count v) (error_digest v)
    (duration_ms v).
Definition with_duration (ms : N) (v : t) : t :=
  mk (passed v) (reason v) (gate v) (score v) (detail v) (test_count v) (error_digest v) ms.
Definition with_test_count (tc : TestCount) (v : t) : t :=
  mk (passed v) (reason v) (gate v) (score v) (detail v) (Some tc) (error_digest v)
    (duration_ms v).
Definition with_error_digest (digest : string) (v : t) : t :=
  mk (passed v) (reason v) (gate v) (score v) (detail v) (test_count v) (Some digest)
    (duration_ms v).

(** [passed / total > 0.9] on [f64]. *)
Definition rate_above_90 (passed total : N) : bool :=
  F64.gt (F64.div (F64.of_N passed) (F64.of_N total)) (F64.lit 9 10).

Definition is_mostly_passing (v : t) : bool :=
  if passed v then false
  else match test_count v with
       | None => false
       | Some tc =>
           let total := TestCount.total tc in
           (20 <? total)%N && (0 <? TestCount.failed tc)%N &&
           rate_above_90 (TestCount.passed tc) total
       end.
End Verdict.
Abbreviation Verdict := Verdict.t.

(** ** Gate results *)

Module GateResult.
Record t : Type := mk {
  gate_name : string;
  rung : N;
  passed : bool;
  summary : string;
  duration_ms : N;
  test_count : option TestCount;
}.

#[global] Instance t_eq_dec : EqDecision t.
Proof. solve_decision. Defined.

Definition from_verdict (v : Verdict) (rung : N) : t :=
  {| gate_name := Verdict.gate v; rung := rung; passed := Verdict.passed v;
     summary := Verdict.reason v; duration_ms := Verdict.duration_ms v;
     test_count := Verdict.test_count v |}.

(** The accumulator of the loop of [is_mostly_passing]: counts of passed,
    failed and ignored tests, and whether a test gate failed. *)
Definition tally_step (acc : N * N * N * bool) (r : t) : N * N * N * bool :=
  let '(p, f, i, saw) := acc in
  match test_count r with
  | None => acc
  | Some c =>
      (sat_add32 p (TestCount.passed c), sat_add32 f (TestCount.failed c),
       sat_add32 i (TestCount.ignored c), if passed r then saw else true)
  end.

Definition tally (results : list t) : N * N * N * bool :=
  foldl tally_step (0%N, 0%N, 0%N, false) results.

Definition is_mostly_passing (results : list t) : bool :=
  let '(p, f, i, saw) := tally results in
  let total := sat_add32 (sat_add32 p f) i in
  saw && (20 <? total)%N && (0 <? f)%N && Verdict.rate_above_90 p total.
End GateResult.
Abbreviation GateResult := GateResult.t.

(** ** Resume directives *)

Module PlanResumeDirective.
Inductive t : Type :=
  | ContinueActive
  | TerminalComplete
  | TerminalSkipped
  | RetryTerminalFailure (failure : FailureKind) (cooldown_secs : N)
  | AwaitManualRepair (failure : FailureKind).

#[global] Instance t_eq_dec : EqDecision t.
Proof. solve_decision. Defined.

Definition is_retryable_terminal (d : t) : bool :=
  match d with RetryTerminalFailure _ _ => true | _ => false end.

Definition should_requeue (d : t) : bool :=
  match d with ContinueActive | RetryTerminalFailure _ _ => true | _ => false end.

Definition cooldown_secs (d : t) : option N :=
  match d with RetryTerminalFailure _ c => Some c | _ => None end.

Definition failure (d : t) : option FailureKind :=
  match d with
  | RetryTerminalFailure f _ | AwaitManualRepair f => Some f
  | _ => None
  end.

(** The classification shared by [PlanState::resume_directive] and
    [PlanPhaseInfo::resume_directive], which match on the phase alone. *)
Definition of_phase (phase : PlanPhase) : t :=
  match phase with
  | PlanPhase.Failed reason =>
      if FailureKind.requires_manual_repair reason then AwaitManualRepair reason
      else if FailureKind.auto_retry_on_resume reason then
        RetryTerminalFailure reason (FailureKind.retry_cooldown_secs reason)
      else ContinueActive
  | PlanPhase.Complete => TerminalComplete
  | PlanPhase.Skipped => TerminalSkipped
  | _ => ContinueActive
  end.
End PlanResumeDirective.
Abbreviation PlanResumeDirective := PlanResumeDirective.t.

(** ** Plan state *)

Module PlanState.
Record t : Type := mk {
  plan_id : string;
  current_phase : PlanPhase;
  assigned_agents : list string;
  gate_results : list GateResult;
  iteration : N;
  started_at_ms : N;
  files_changed : list string;
  merge_attempts : N;
  last_error : option string;
  paused : bool;
  priority : N;
}.

#[global] Instance t_eq_dec : EqDecision t.
Proof. solve_decision. Defined.

Definition default_current_phase : PlanPhase := PlanPhase.Queued.

Definition new (plan_id : string) : t :=
  {| plan_id := plan_id; current_phase := default_current_phase;
     assigned_agents := []; gate_results := []; iteration := 1; started_at_ms := 0;
     files_changed := []; merge_attempts := 0; last_error := None; paused := false;
     priority := 0 |}.

(** Field assignments. *)
Definition set_current_phase (p : PlanPhase) (s : t) : t :=
  mk (plan_id s) p (assigned_agents s) (gate_results s) (iteration s)
    (started_at_ms s) (files_changed s) (merge_attempts s) (last_error s) (paused s)
    (priority s).
Definition set_last_error (e : option string) (s : t) : t :=
  mk (plan_id s) (current_phase s) (assigned_agents s) (gate_results s) (iteration s)
    (started_at_ms s) (files_changed s) (merge_attempts s) e (paused s) (priority s).
Definition set_paused (b : bool) (s : t) : t :=
  mk (plan_id s) (current_phase s) (assigned_agents s) (gate_results s) (iteration s)
    (started_at_ms s) (files_changed s) (merge_attempts s) (last_error s) b
    (priority s).

Definition with_priority (s : t) (p : N) : t :=
  mk (plan_id s) (current_phase s) (assigned_agents s) (gate_results s) (iteration s)
    (started_at_ms s) (files_changed s) (merge_attempts s) (last_error s) (paused s) p.

Definition is_terminal (s : t) : bool := PlanPhase.is_terminal (current_phase s).

Definition resume_directive (s : t) : PlanResumeDirective :=
  PlanResumeDirective.of_phase (current_phase s).

Definition is_retryable_terminal (s : t) : bool :=
  PlanResumeDirective.is_retryable_terminal (resume_directive s).

Definition all_gates_passed (s : t) : bool :=
  match gate_results s with
  | [] => false
  | _ => forallb GateResult.passed (gate_results s)
  end.

Definition has_gate_failure (s : t) : bool :=
  existsb (λ g, negb (GateResult.passed g)) (gate_results s).

Definition reset_for_retry (s : t) : t :=
  mk (plan_id s) (current_phase s) (assigned_agents s) [] (add32 (iteration s) 1)
    (started_at_ms s) (files_changed s) (merge_attempts s) None (paused s) (priority s).

(** [now_ms] is the value [current_timestamp_ms] reads from the system clock. *)
Definition restart_for_replan (now_ms : N) (s : t) : t :=
  let s := reset_for_retry s in
  mk (plan_id s) PlanPhase.Queued [] (gate_results s) (iteration s) now_ms
    (files_changed s) 0 (last_error s) false (priority s).

(** The new state and the directive that authorised the requeue. *)
Definition requeue_retryable_terminal (now_ms : N) (s : t) :
    t * option PlanResumeDirective :=
  let directive := resume_directive s in
  if PlanResumeDirective.is_retryable_terminal directive then
    (restart_for_replan now_ms s, Some directive)
  else (s, None).
End PlanState.
Abbreviation PlanState := PlanState.t.

(** ** Facts *)

(** The directive never classifies a terminal phase as active, nor an active
    phase as terminal; failures always get a failure directive. *)
Lemma resume_directive_continue_iff p :
  PlanResumeDirective.of_phase p = PlanResumeDirective.ContinueActive ↔
    PlanPhase.is_terminal p = false.
Proof.
  destruct p; try done. simpl. unfold FailureKind.auto_retry_on_resume.
  by destruct (FailureKind.requires_manual_repair reason).
Qed.

Lemma resume_directive_retry_iff p f c :
  PlanResumeDirective.of_phase p = PlanResumeDirective.RetryTerminalFailure f c ↔
    p = PlanPhase.Failed f ∧ FailureKind.requires_manual_repair f = false ∧
    c = FailureKind.retry_cooldown_secs f.
Proof.
  destruct p; simpl; try naive_solver.
  unfold FailureKind.auto_retry_on_resume.
  destruct (FailureKind.requires_manual_repair reason) eqn:E; simpl; split.
  - done.
  - intros ([= ->] & E' & _). congruence.
  - by intros [= <- <-].
  - by intros ([= ->] & _ & ->).
Qed.

(** The saturating tally of test counts: without overflow it is the exact sum. *)
Definition count_sum (f : TestCount → N) (results : list GateResult) : N :=
  foldr (λ r n, match GateResult.test_count r with Some c => f c + n | None => n end)%N
    0%N results.

Lemma sat_add32_min a b : sat_add32 (N.min a u32_MAX) b = N.min (a + b) u32_MAX.
Proof. unfold sat_add32. lia. Qed.

Lemma tally_spec_aux results p f i saw :
  foldl GateResult.tally_step
    (N.min p u32_MAX, N.min f u32_MAX, N.min i u32_MAX, saw) results =
  (N.min (p + count_sum TestCount.passed results) u32_MAX,
   N.min (f + count_sum TestCount.failed results) u32_MAX,
   N.min (i + count_sum TestCount.ignored results) u32_MAX,
   saw || existsb (λ r, match GateResult.test_count r with
                        | Some _ => negb (GateResult.passed r)
                        | None => false end) results).
Proof.
  revert p f i saw. induction results as [|r rs IH]; intros p f i saw; simpl.
  - by rewrite !N.add_0_r, orb_false_r.
  - destruct (GateResult.test_count r) as [c|]; simpl; [|apply IH].
    rewrite !sat_add32_min, IH, !N.add_assoc. f_equal.
    by destruct (GateResult.passed r), saw.
Qed.

Lemma tally_spec results :
  GateResult.tally results =
  (N.min (count_sum TestCount.passed results) u32_MAX,
   N.min (count_sum TestCount.failed results) u32_MAX,
   N.min (count_sum TestCount.ignored results) u32_MAX,
   existsb (λ r, match GateResult.test_count r with
                 | Some _ => negb (GateResult.passed r)
                 | None => false end) results).
Proof. unfold GateResult.tally. apply (tally_spec_aux results 0 0 0 false). Qed.
