(* ===== verification/StateMachine.v ===== *)
(** * The plan state machine (crates/roko-orchestrator/src/executor/state_machine.rs)

    [transition] and [next_action] as the code writes them, an abstract
    specification of the lifecycle as a step relation, and the refinement
    between the two. *)

From S2P Require Import Prelude Phase Task PlanState.

(** [roko_core::defaults::DEFAULT_MAX_AUTO_FIX_ITERATIONS] *)
Definition MAX_AUTO_FIX_ITERATIONS : N := 5.
Definition MAX_MERGE_ATTEMPTS : N := 3.

Module TransitionError.
Record t : Type := mk { from : PhaseKind; to : PhaseKind; reason : string }.

#[global] Instance t_eq_dec : EqDecision t.
Proof. solve_decision. Defined.

(** [impl Display for TransitionError] *)
Definition display (e : t) : string :=
  "cannot transition " +:+ PhaseKind.debug (from e) +:+ " -> " +:+
  PhaseKind.debug (to e) +:+ ": " +:+ reason e.
End TransitionError.
Abbreviation TransitionError := TransitionError.t.

Module ExecutorEvent.
Inductive t : Type :=
  | Start
  | EnrichmentDone
  | ImplementationDone
  | GatePassed
  | GateFailed
  | AutoFixDone
  | VerifyPassed
  | VerifyFailed
  | VerifyRegenDone
  | ReviewApproved
  | ReviewRejected
  | DocRevisionDone
  | MergeSucceeded
  | MergeFailed
  | OperatorMerge
  | Skip
  | Fatal (reason : string).

#[global] Instance t_eq_dec : EqDecision t.
Proof. solve_decision. Defined.

(** [{evt:?}].  The catch-all arm that formats an event is never reached with
    [Fatal], which has an arm of its own, so its payload is not rendered. *)
Definition debug (e : t) : string :=
  match e with
  | Start => "Start"
  | EnrichmentDone => "EnrichmentDone"
  | ImplementationDone => "ImplementationDone"
  | GatePassed => "GatePassed"
  | GateFailed => "GateFailed"
  | AutoFixDone => "AutoFixDone"
  | VerifyPassed => "VerifyPassed"
  | VerifyFailed => "VerifyFailed"
  | VerifyRegenDone => "VerifyRegenDone"
  | ReviewApproved => "ReviewApproved"
  | ReviewRejected => "ReviewRejected"
  | DocRevisionDone => "DocRevisionDone"
  | MergeSucceeded => "MergeSucceeded"
  | MergeFailed => "MergeFailed"
  | OperatorMerge => "OperatorMerge"
  | Skip => "Skip"
  | Fatal _ => "Fatal"
  end.
End ExecutorEvent.
Abbreviation ExecutorEvent := ExecutorEvent.t.

Definition event_target_kind (event : ExecutorEvent) : PhaseKind :=
  match event with
  | ExecutorEvent.Start => PhaseKind.Enriching
  | ExecutorEvent.EnrichmentDone | ExecutorEvent.ReviewRejected => PhaseKind.Implementing
  | ExecutorEvent.ImplementationDone | ExecutorEvent.AutoFixDone => PhaseKind.Gating
  | ExecutorEvent.GatePassed | ExecutorEvent.VerifyRegenDone => PhaseKind.Verifying
  | ExecutorEvent.GateFailed => PhaseKind.AutoFixing
  | ExecutorEvent.VerifyPassed => PhaseKind.Reviewing
  | ExecutorEvent.VerifyFailed => PhaseKind.RegeneratingVerify
  | ExecutorEvent.ReviewApproved => PhaseKind.DocRevision
  | ExecutorEvent.DocRevisionDone | ExecutorEvent.OperatorMerge => PhaseKind.Merging
  | ExecutorEvent.MergeSucceeded => PhaseKind.Complete
  | ExecutorEvent.MergeFailed | ExecutorEvent.Fatal _ => PhaseKind.Failed
  | ExecutorEvent.Skip => PhaseKind.Skipped
  end.

Module PlanStateMachine.
(** The big [match] of [transition]: the candidate next phase. *)
Definition next_phase (plan_state : PlanState) (event : ExecutorEvent) :
    result PlanPhase TransitionError :=
  let current_kind := PlanPhase.kind (PlanState.current_phase plan_state) in
  match current_kind, event with
  | PhaseKind.Queued, ExecutorEvent.Start => Ok PlanPhase.Enriching
  | PhaseKind.Queued, ExecutorEvent.Skip => Ok PlanPhase.Skipped
  | PhaseKind.Enriching, ExecutorEvent.EnrichmentDone => Ok PlanPhase.Implementing
  | PhaseKind.Enriching, ExecutorEvent.Skip => Ok PlanPhase.Skipped
  | PhaseKind.Implementing, ExecutorEvent.ImplementationDone => Ok PlanPhase.Gating
  | PhaseKind.Implementing, ExecutorEvent.Skip => Ok PlanPhase.Skipped
  | PhaseKind.Gating, ExecutorEvent.GatePassed => Ok PlanPhase.Verifying
  | PhaseKind.Gating, ExecutorEvent.GateFailed =>
      if (MAX_AUTO_FIX_ITERATIONS <=? PlanState.iteration plan_state)%N
      then Ok (PlanPhase.Failed FailureKind.AutoFixExhausted)
      else Ok PlanPhase.AutoFixing
  | PhaseKind.Gating, ExecutorEvent.Skip => Ok PlanPhase.Skipped
  | PhaseKind.AutoFixing, ExecutorEvent.AutoFixDone => Ok PlanPhase.Gating
  | PhaseKind.AutoFixing, ExecutorEvent.Skip => Ok PlanPhase.Skipped
  | PhaseKind.Verifying, ExecutorEvent.VerifyPassed => Ok PlanPhase.Reviewing
  | PhaseKind.Verifying, ExecutorEvent.VerifyFailed => Ok PlanPhase.RegeneratingVerify
  | PhaseKind.Verifying, ExecutorEvent.Skip => Ok PlanPhase.Skipped
  | PhaseKind.RegeneratingVerify, ExecutorEvent.VerifyRegenDone => Ok PlanPhase.Verifying
  | PhaseKind.RegeneratingVerify, ExecutorEvent.Skip => Ok PlanPhase.Skipped
  | PhaseKind.Reviewing, ExecutorEvent.ReviewApproved => Ok PlanPhase.DocRevision
  | PhaseKind.Reviewing, ExecutorEvent.ReviewRejected => Ok PlanPhase.Implementing
  | PhaseKind.Reviewing, ExecutorEvent.Skip => Ok PlanPhase.Skipped
  | PhaseKind.DocRevision, ExecutorEvent.DocRevisionDone => Ok PlanPhase.Merging
  | PhaseKind.DocRevision, ExecutorEvent.Skip => Ok PlanPhase.Skipped
  | PhaseKind.Merging, ExecutorEvent.MergeSucceeded => Ok PlanPhase.Complete
  | PhaseKind.Merging, ExecutorEvent.MergeFailed =>
      if (MAX_MERGE_ATTEMPTS <=? PlanState.merge_attempts plan_state)%N
      then Ok (PlanPhase.Failed FailureKind.Deadlock)
      else Ok (PlanPhase.Failed (FailureKind.Other "merge conflict — retry"))
  | PhaseKind.Merging, ExecutorEvent.Skip => Ok PlanPhase.Skipped
  | PhaseKind.Done, ExecutorEvent.OperatorMerge => Ok PlanPhase.Merging
  | PhaseKind.Done, ExecutorEvent.Skip => Ok PlanPhase.Skipped
  | kind, ExecutorEvent.Fatal reason =>
      let target := PhaseKind.Failed in
      if decide (target ∈ valid_transitions kind)
      then Ok (PlanPhase.Failed (FailureKind.Other reason))
      else Err (TransitionError.mk kind target
                  ("cannot fail from " +:+ PhaseKind.debug kind))
  | from, evt =>
      let to := event_target_kind evt in
      Err (TransitionError.mk from to
             ("no transition for event " +:+ ExecutorEvent.debug evt +:+
              " in phase " +:+ PhaseKind.debug from))
  end.

Definition transition (plan_state : PlanState) (event : ExecutorEvent) :
    result PlanPhase TransitionError :=
  let current_kind := PlanPhase.kind (PlanState.current_phase plan_state) in
  let? next := next_phase plan_state event in
  let next_kind := PlanPhase.kind next in
  if decide (next_kind ∈ valid_transitions current_kind) then Ok next
  else Err (TransitionError.mk current_kind next_kind
              ("transition " +:+ PhaseKind.debug current_kind +:+ " -> " +:+
               PhaseKind.debug next_kind +:+ " not in valid_transitions table")).

Definition next_action (plan_state : PlanState) : option ExecutorAction :=
  if PlanState.paused plan_state || PlanState.is_terminal plan_state then None
  else
    let plan_id := PlanState.plan_id plan_state in
    match PlanPhase.kind (PlanState.current_phase plan_state) with
    | PhaseKind.Queued => Some (ExecutorAction.DispatchPlan plan_id)
    | PhaseKind.Implementing =>
        Some (ExecutorAction.SpawnAgent plan_id AgentRole.Implementer "next")
    | PhaseKind.Gating =>
        Some (ExecutorAction.RunGate plan_id
                (u32_try_or_max (N.of_nat (length (PlanState.gate_results plan_state)))))
    | PhaseKind.AutoFixing =>
        Some (ExecutorAction.SpawnAgent plan_id AgentRole.AutoFixer "fix")
    | PhaseKind.Verifying => Some (ExecutorAction.RunVerify plan_id)
    | PhaseKind.Reviewing =>
        Some (ExecutorAction.SpawnAgent plan_id AgentRole.Auditor "review")
    | PhaseKind.DocRevision =>
        Some (ExecutorAction.SpawnAgent plan_id AgentRole.Scribe "docs")
    | PhaseKind.Merging => Some (ExecutorAction.MergeBranch plan_id)
    | PhaseKind.Enriching =>
        Some (ExecutorAction.SpawnAgent plan_id AgentRole.Strategist "enrich")
    | PhaseKind.RegeneratingVerify =>
        Some (ExecutorAction.SpawnAgent plan_id AgentRole.AutoFixer "regen-verify")
    | _ => None
    end.
End PlanStateMachine.

(** ** Abstract specification: the lifecycle as a step relation

    [lifecycle it ma p e q]: with auto-fix iteration [it] and [ma] merge
    attempts, event [e] takes a plan from phase [p] to phase [q]. *)
Inductive lifecycle (it ma : N) : PlanPhase → ExecutorEvent → PlanPhase → Prop :=
  | lc_start : lifecycle it ma PlanPhase.Queued ExecutorEvent.Start PlanPhase.Enriching
  | lc_enriched :
      lifecycle it ma PlanPhase.Enriching ExecutorEvent.EnrichmentDone
        PlanPhase.Implementing
  | lc_implemented :
      lifecycle it ma PlanPhase.Implementing ExecutorEvent.ImplementationDone
        PlanPhase.Gating
  | lc_gate_passed :
      lifecycle it ma PlanPhase.Gating ExecutorEvent.GatePassed PlanPhase.Verifying
  | lc_gate_failed : (it < MAX_AUTO_FIX_ITERATIONS)%N →
      lifecycle it ma PlanPhase.Gating ExecutorEvent.GateFailed PlanPhase.AutoFixing
  | lc_gate_exhausted : (MAX_AUTO_FIX_ITERATIONS ≤ it)%N →
      lifecycle it ma PlanPhase.Gating ExecutorEvent.GateFailed
        (PlanPhase.Failed FailureKind.AutoFixExhausted)
  | lc_fixed :
      lifecycle it ma PlanPhase.AutoFixing ExecutorEvent.AutoFixDone PlanPhase.Gating
  | lc_verified :
      lifecycle it ma PlanPhase.Verifying ExecutorEvent.VerifyPassed PlanPhase.Reviewing
  | lc_verify_failed :
      lifecycle it ma PlanPhase.Verifying ExecutorEvent.VerifyFailed
        PlanPhase.RegeneratingVerify
  | lc_regenerated :
      lifecycle it ma PlanPhase.RegeneratingVerify ExecutorEvent.VerifyRegenDone
        PlanPhase.Verifying
  | lc_approved :
      lifecycle it ma PlanPhase.Reviewing ExecutorEvent.ReviewApproved
        PlanPhase.DocRevision
  | lc_rejected :
      lifecycle it ma PlanPhase.Reviewing ExecutorEvent.ReviewRejected
        PlanPhase.Implementing
  | lc_documented :
      lifecycle it ma PlanPhase.DocRevision ExecutorEvent.DocRevisionDone
        PlanPhase.Merging
  | lc_merged :
      lifecycle it ma PlanPhase.Merging ExecutorEvent.MergeSucceeded PlanPhase.Complete
  | lc_merge_failed : (ma < MAX_MERGE_ATTEMPTS)%N →
      lifecycle it ma PlanPhase.Merging ExecutorEvent.MergeFailed
        (PlanPhase.Failed (FailureKind.Other "merge conflict — retry"))
  | lc_merge_deadlock : (MAX_MERGE_ATTEMPTS ≤ ma)%N →
      lifecycle it ma PlanPhase.Merging ExecutorEvent.MergeFailed
        (PlanPhase.Failed FailureKind.Deadlock)
  | lc_operator_merge :
      lifecycle it ma PlanPhase.Done ExecutorEvent.OperatorMerge PlanPhase.Merging
  | lc_skip p : PlanPhase.is_terminal p = false →
      lifecycle it ma p ExecutorEvent.Skip PlanPhase.Skipped
  | lc_fatal p reason : PlanPhase.is_terminal p = false →
      lifecycle it ma p (ExecutorEvent.Fatal reason)
        (PlanPhase.Failed (FailureKind.Other reason)).

#[export] Hint Constructors lifecycle : roko.

Lemma lifecycle_in_table it ma p e q :
  lifecycle it ma p e q → PlanPhase.kind q ∈ valid_transitions (PlanPhase.kind p).
Proof.
  assert (∀ k x, bool_decide (x ∈ valid_transitions k) = true → x ∈ valid_transitions k)
    as Hd by (intros k x; apply bool_decide_eq_true).
  destruct 1 as [| | | | | | | | | | | | | | | | |p|p]; apply Hd; by try destruct p.
Qed.

Lemma next_phase_lifecycle ps e q :
  PlanStateMachine.next_phase ps e = Ok q →
  lifecycle (PlanState.iteration ps) (PlanState.merge_attempts ps)
    (PlanState.current_phase ps) e q.
Proof.
  unfold PlanStateMachine.next_phase.
  destruct (PlanState.current_phase ps), e; simpl; intros H; simplify_eq;
    repeat case_match; simplify_eq; auto with roko;
    constructor; lia.
Qed.

Lemma lifecycle_next_phase ps e q :
  lifecycle (PlanState.iteration ps) (PlanState.merge_attempts ps)
    (PlanState.current_phase ps) e q →
  PlanStateMachine.next_phase ps e = Ok q.
Proof.
  unfold PlanStateMachine.next_phase.
  destruct ps as [pid ph ag gr it st fc ma le pa pr]; simpl.
  destruct 1 as [| | | | | | | | | | | | | | | | |p Hp|p r Hp]; simpl; try done;
    try (repeat case_match; try done; lia); by destruct p.
Qed.

(** C35: [transition] implements the lifecycle specification exactly: it succeeds
    with [q] if and only if the lifecycle relation has that step. *)
Theorem transition_refines_lifecycle ps e q :
  PlanStateMachine.transition ps e = Ok q ↔
    lifecycle (PlanState.iteration ps) (PlanState.merge_attempts ps)
      (PlanState.current_phase ps) e q.
Proof.
  unfold PlanStateMachine.transition. split.
  - destruct (PlanStateMachine.next_phase ps e) eqn:E; [|done].
    case_decide; [|done]. intros [= ->]. by apply next_phase_lifecycle.
  - intros H. rewrite (lifecycle_next_phase _ _ _ H).
    by rewrite decide_True by (by eapply lifecycle_in_table).
Qed.

Lemma transition_next_phase ps e :
  PlanStateMachine.transition ps e = PlanStateMachine.next_phase ps e.
Proof.
  unfold PlanStateMachine.transition.
  destruct (PlanStateMachine.next_phase ps e) as [q|] eqn:E; [|done].
  rewrite decide_True; [done|]. eapply lifecycle_in_table, next_phase_lifecycle, E.
Qed.

Lemma transition_lifecycle ps e q :
  PlanStateMachine.transition ps e = Ok q →
  lifecycle (PlanState.iteration ps) (PlanState.merge_attempts ps)
    (PlanState.current_phase ps) e q.
Proof. rewrite transition_next_phase. apply next_phase_lifecycle. Qed.

Lemma lifecycle_transition ps e q :
  lifecycle (PlanState.iteration ps) (PlanState.merge_attempts ps)
    (PlanState.current_phase ps) e q →
  PlanStateMachine.transition ps e = Ok q.
Proof. rewrite transition_next_phase. apply lifecycle_next_phase. Qed.

(** a rejected event reports the phase the plan is in, a target that is not
    a legal successor of it or an event the phase does not handle, and a terminal
    plan rejects every event. *)
Theorem transition_rejects ps e err :
  PlanStateMachine.transition ps e = Err err →
  TransitionError.from err = PlanPhase.kind (PlanState.current_phase ps) ∧
  TransitionError.to err = event_target_kind e ∧
  ¬ ∃ q, lifecycle (PlanState.iteration ps) (PlanState.merge_attempts ps)
           (PlanState.current_phase ps) e q.
Proof.
  intros H. split_and!; [..|intros [q Hq%lifecycle_transition]; congruence];
    rewrite transition_next_phase in H; unfold PlanStateMachine.next_phase in H;
    destruct (PlanState.current_phase ps), e; simpl in H; simplify_eq; try done;
    repeat case_match; simplify_eq; done.
Qed.

Lemma transition_rejects_witness :
  ¬ ∃ q, lifecycle 1 0 PlanPhase.Complete ExecutorEvent.Skip q.
Proof.
  pose (ps := PlanState.set_current_phase PlanPhase.Complete (PlanState.new "p")).
  apply (transition_rejects ps ExecutorEvent.Skip
    (TransitionError.mk PhaseKind.Complete PhaseKind.Skipped
       "no transition for event Skip in phase Complete")).
  by vm_compute.
Defined.

(** ** Progress *)

(** The event that reports the success of the work of a phase. *)
Definition success_event (k : PhaseKind) : ExecutorEvent :=
  match k with
  | PhaseKind.Queued => ExecutorEvent.Start
  | PhaseKind.Enriching => ExecutorEvent.EnrichmentDone
  | PhaseKind.Implementing => ExecutorEvent.ImplementationDone
  | PhaseKind.Gating => ExecutorEvent.GatePassed
  | PhaseKind.AutoFixing => ExecutorEvent.AutoFixDone
  | PhaseKind.Verifying => ExecutorEvent.VerifyPassed
  | PhaseKind.RegeneratingVerify => ExecutorEvent.VerifyRegenDone
  | PhaseKind.Reviewing => ExecutorEvent.ReviewApproved
  | PhaseKind.DocRevision => ExecutorEvent.DocRevisionDone
  | PhaseKind.Merging => ExecutorEvent.MergeSucceeded
  | _ => ExecutorEvent.OperatorMerge
  end.

(** the machine proposes an action exactly for the plans that are neither
    paused, terminal nor waiting for the operator, always about the plan itself,
    and the success of that action is an event the phase accepts. *)
Theorem next_action_progress ps :
  match PlanStateMachine.next_action ps with
  | Some a =>
      ExecutorAction.plan_of a = Some (PlanState.plan_id ps) ∧
      ∃ q, PlanStateMachine.transition ps
             (success_event (PlanPhase.kind (PlanState.current_phase ps))) = Ok q
  | None =>
      PlanState.paused ps = true ∨ PlanState.is_terminal ps = true ∨
      PlanState.current_phase ps = PlanPhase.Done
  end.
Proof.
  unfold PlanStateMachine.next_action, PlanState.is_terminal.
  destruct (PlanState.paused ps); [by left|].
  pose proof (transition_next_phase ps) as Ht.
  unfold PlanStateMachine.next_phase in Ht.
  destruct (PlanState.current_phase ps); simpl in *; eauto;
    (split; [done|]; eexists; by rewrite Ht).
Qed.
