(* ===== verification/Bytes.v ===== *)
(** * Bytes, canonical encodings and content hashes

    Fixed-width integers in big and little endian, length-prefixed fields as the
    event log and the audit chain write them, and [ContentHash]
    (crates/roko-core/src/hash.rs).  BLAKE3 is third-party code: a parameter of
    the development, of which only the digest length is assumed. *)

From Stdlib Require Import Strings.Byte.
From S2P Require Import Prelude.

Abbreviation bytes := (list byte).

#[export] Instance byte_eq_dec : EqDecision byte := Byte.byte_eq_dec.
#[export] Instance byte_countable : Countable byte.
Proof.
  refine (inj_countable Byte.to_N Byte.of_N _). intros b. apply Byte.of_to_N.
Defined.

Definition byte_of_N (n : N) : byte :=
  match Byte.of_N (n mod 256) with Some b => b | None => Byte.x00 end.

Lemma to_N_byte_of_N n : Byte.to_N (byte_of_N n) = (n mod 256)%N.
Proof.
  unfold byte_of_N. destruct (Byte.of_N (n mod 256)) as [b|] eqn:E.
  - by apply Byte.to_of_N.
  - apply Byte.of_N_None_iff in E. pose proof (N.mod_lt n 256). lia.
Qed.

Lemma to_N_bounded b : (Byte.to_N b < 256)%N.
Proof. pose proof (Byte.to_N_bounded b). lia. Qed.

Lemma byte_of_to_N b : byte_of_N (Byte.to_N b) = b.
Proof.
  unfold byte_of_N. rewrite N.mod_small by apply to_N_bounded.
  by rewrite Byte.of_to_N.
Qed.

(** ** Fixed-width integers *)

(** [n.to_le_bytes()] on [k] bytes and [from_le_bytes]. *)
Fixpoint le_bytes (k : nat) (n : N) : bytes :=
  match k with
  | O => []
  | S k' => byte_of_N n :: le_bytes k' (n / 256)
  end.

Fixpoint le_val (l : bytes) : N :=
  match l with
  | [] => 0
  | b :: l' => Byte.to_N b + 256 * le_val l'
  end.

(** [n.to_be_bytes()] *)
Definition be_bytes (k : nat) (n : N) : bytes := reverse (le_bytes k n).

(** [x.to_be_bytes()] of an [i64], in two's complement. *)
Definition i64_be_bytes (x : Z) : bytes := be_bytes 8 (Z.to_N (x mod 2 ^ 64)).

Definition i64_range (x : Z) : Prop := (- 2 ^ 63 ≤ x < 2 ^ 63)%Z.

Lemma length_le_bytes k n : length (le_bytes k n) = k.
Proof. revert n. induction k as [|k IH]; intros n; simpl; [done|]. by rewrite IH. Qed.

Lemma length_be_bytes k n : length (be_bytes k n) = k.
Proof. unfold be_bytes. by rewrite length_reverse, length_le_bytes. Qed.

Lemma le_val_bytes k n : le_val (le_bytes k n) = (n mod 256 ^ N.of_nat k)%N.
Proof.
  revert n. induction k as [|k IH]; intros n; cbn [le_bytes le_val].
  - by rewrite N.mod_1_r.
  - rewrite IH, to_N_byte_of_N, Nat2N.inj_succ, N.pow_succ_r'.
    assert (256 ^ N.of_nat k ≠ 0)%N by (apply N.pow_nonzero; lia).
    by rewrite N.Div0.mod_mul_r.
Qed.

Lemma le_val_bound l : (le_val l < 256 ^ N.of_nat (length l))%N.
Proof.
  induction l as [|b l IH]; cbn [le_val length]; [lia|].
  rewrite Nat2N.inj_succ, N.pow_succ_r'. pose proof (to_N_bounded b). lia.
Qed.

Lemma le_bytes_val l : le_bytes (length l) (le_val l) = l.
Proof.
  induction l as [|b l IH]; cbn [le_val length le_bytes]; [done|].
  pose proof (to_N_bounded b) as Hb. f_equal.
  - rewrite <-(byte_of_to_N b) at 2. unfold byte_of_N.
    rewrite (N.mul_comm 256), N.Div0.mod_add. done.
  - rewrite (N.mul_comm 256), N.div_add, N.div_small, N.add_0_l by lia. done.
Qed.

Lemma le_bytes_inj k a b :
  (a < 256 ^ N.of_nat k)%N → (b < 256 ^ N.of_nat k)%N →
  le_bytes k a = le_bytes k b → a = b.
Proof.
  intros Ha Hb H%(f_equal le_val). rewrite !le_val_bytes in H.
  by rewrite !N.mod_small in H.
Qed.

Lemma be_bytes_inj k a b :
  (a < 256 ^ N.of_nat k)%N → (b < 256 ^ N.of_nat k)%N →
  be_bytes k a = be_bytes k b → a = b.
Proof. intros Ha Hb H%(inj reverse). by eapply le_bytes_inj. Qed.

Lemma i64_be_bytes_inj a b :
  i64_range a → i64_range b → i64_be_bytes a = i64_be_bytes b → a = b.
Proof.
  unfold i64_range, i64_be_bytes. intros Ha Hb H.
  pose proof (Z.mod_pos_bound a (2 ^ 64)). pose proof (Z.mod_pos_bound b (2 ^ 64)).
  apply be_bytes_inj in H; [|change (256 ^ N.of_nat 8)%N with (2 ^ 64)%N; lia..].
  apply (f_equal Z.of_N) in H. rewrite !Z2N.id in H by lia.
  pose proof (Z.div_mod a (2 ^ 64)). pose proof (Z.div_mod b (2 ^ 64)). lia.
Qed.

(** ** Strings as bytes *)

(** [s.as_bytes()] *)
Definition str_bytes (s : string) : bytes := String.list_byte_of_string s.

Lemma str_bytes_inj a b : str_bytes a = str_bytes b → a = b.
Proof.
  intros H. rewrite <-(String.string_of_list_byte_of_string a),
    <-(String.string_of_list_byte_of_string b).
  unfold str_bytes in H. by rewrite H.
Qed.

(** ** Length-prefixed fields *)

(** [u32::try_from(data.len()).unwrap_or(u32::MAX).to_be_bytes()] *)
Definition len_prefix (data : bytes) : bytes :=
  be_bytes 4 (u32_try_or_max (N.of_nat (length data))).

(** [push_lp(buf, data)] *)
Definition push_lp (buf data : bytes) : bytes := buf ++ len_prefix data ++ data.

Definition fits_u32 (data : bytes) : Prop := (N.of_nat (length data) ≤ u32_MAX)%N.

Lemma length_len_prefix d : length (len_prefix d) = 4.
Proof. apply length_be_bytes. Qed.

Lemma len_prefix_length d1 d2 :
  fits_u32 d1 → fits_u32 d2 → len_prefix d1 = len_prefix d2 → length d1 = length d2.
Proof.
  unfold fits_u32, len_prefix, u32_try_or_max, u32_MAX. intros H1 H2 H.
  apply be_bytes_inj in H; [lia|change (256 ^ N.of_nat 4)%N with 4294967296%N; lia..].
Qed.

(** A length-prefixed field can be split off unambiguously. *)
Lemma lp_app_inj d1 d2 r1 r2 :
  fits_u32 d1 → fits_u32 d2 →
  len_prefix d1 ++ d1 ++ r1 = len_prefix d2 ++ d2 ++ r2 → d1 = d2 ∧ r1 = r2.
Proof.
  intros H1 H2 H. apply app_inj_1 in H as [Hl H]; [|by rewrite !length_len_prefix].
  apply len_prefix_length in Hl; [|done..]. by apply app_inj_1 in H.
Qed.

(** ** Content hashes *)

(** BLAKE3: an arbitrary function from bytes to 32-byte digests. *)
Class Blake3 := {
  blake3 : bytes → bytes;
  blake3_length : ∀ b, length (blake3 b) = 32;
}.

Definition zero_hash : bytes := replicate 32 Byte.x00.

(** What BLAKE3's collision and preimage resistance provides for the inputs at
    hand: no two of the listed inputs have the same digest, and none hashes to
    the all-zero value that starts a chain. *)
Definition collision_free `{!Blake3} (l : list bytes) : Prop :=
  (∀ x y, x ∈ l → y ∈ l → blake3 x = blake3 y → x = y) ∧
  (∀ x, x ∈ l → blake3 x ≠ zero_hash).

Lemma collision_free_sub `{!Blake3} l1 l2 :
  (∀ x, x ∈ l2 → x ∈ l1) → collision_free l1 → collision_free l2.
Proof. intros Hs [Hc Hz]. split; eauto. Qed.

Lemma collision_free_decide `{!Blake3} l :
  bool_decide (Forall (λ x, Forall (λ y, blake3 x = blake3 y → x = y) l) l) = true →
  bool_decide (Forall (λ x, blake3 x ≠ zero_hash) l) = true →
  collision_free l.
Proof.
  rewrite !bool_decide_eq_true, !Forall_forall. setoid_rewrite Forall_forall.
  intros H1 H2. split; [intros x y Hx Hy; by apply H1|done].
Qed.

(** A concrete digest function, for evaluating examples: the polynomial value of
    the input modulo the prime [2^61 - 1]. *)
Definition poly_hash (b : bytes) : bytes :=
  le_bytes 32
    (foldl (λ acc x, (acc * 257 + Byte.to_N x + 1) mod 2305843009213693951)%N 0%N b).

Definition poly_blake3 : Blake3 :=
  {| blake3 := poly_hash; blake3_length b := length_le_bytes 32 _ |}.

Module ContentHash.
(** [ContentHash::of(bytes).0] *)
Definition of_bytes `{!Blake3} (b : bytes) : bytes := blake3 b.

(** One lowercase hexadecimal digit, and [{byte:02x}]. *)
Definition hex_char (n : N) : Ascii.ascii :=
  if (n <? 10)%N then Ascii.ascii_of_N (48 + n) else Ascii.ascii_of_N (87 + n).

Definition hex_byte (b : byte) : string :=
  let n := Byte.to_N b in
  String (hex_char (n / 16)) (String (hex_char (n mod 16)) EmptyString).

Fixpoint to_hex (h : bytes) : string :=
  match h with [] => EmptyString | b :: h' => hex_byte b +:+ to_hex h' end.

(** The first four bytes. *)
Definition short (h : bytes) : string := to_hex (take 4 h).

Definition hex_digit (c : Ascii.ascii) : option N :=
  let n := Ascii.N_of_ascii c in
  if (48 <=? n)%N && (n <=? 57)%N then Some (n - 48)%N
  else if (97 <=? n)%N && (n <=? 102)%N then Some (n - 97 + 10)%N
  else if (65 <=? n)%N && (n <=? 70)%N then Some (n - 65 + 10)%N
  else None.

(** The loop over [chunks_exact(2)], stopping at the first bad digit. *)
Fixpoint from_hex_chunks (s : string) : option bytes :=
  match s with
  | String c1 (String c2 s') =>
      match hex_digit c1 with
      | None => None
      | Some hi =>
          match hex_digit c2 with
          | None => None
          | Some lo =>
              (λ h, byte_of_N (N.lor (N.shiftl hi 4) lo) :: h) <$> from_hex_chunks s'
          end
      end
  | _ => Some []
  end.

Definition from_hex (s : string) : option bytes :=
  if Nat.eqb (String.length s) 64 then from_hex_chunks s else None.
End ContentHash.

Lemma forallb_below (P : N → bool) k :
  forallb P (N.of_nat <$> seq 0 k) = true → ∀ n, (n < N.of_nat k)%N → P n = true.
Proof.
  rewrite forallb_forall. intros H n Hn. apply H. apply list_elem_of_In.
  apply list_elem_of_fmap. exists (N.to_nat n).
  rewrite N2Nat.id. split; [done|]. apply elem_of_seq. lia.
Qed.

Lemma hex_digit_char n :
  (n < 16)%N → ContentHash.hex_digit (ContentHash.hex_char n) = Some n.
Proof.
  intros Hn.
  pose proof (forallb_below (λ n, bool_decide
    (ContentHash.hex_digit (ContentHash.hex_char n) = Some n)) 16) as H.
  apply (bool_decide_eq_true _). apply H; [by vm_compute|lia].
Qed.

Lemma hex_nibbles n : (n < 256)%N → N.lor (N.shiftl (n / 16) 4) (n mod 16) = n.
Proof.
  intros Hn. apply N.eqb_eq.
  apply (forallb_below (λ n, N.lor (N.shiftl (n / 16) 4) (n mod 16) =? n)%N 256);
    [by vm_compute|lia].
Qed.

Lemma from_hex_chunks_to_hex h :
  ContentHash.from_hex_chunks (ContentHash.to_hex h) = Some h.
Proof.
  induction h as [|b h IH]; [done|].
  change (ContentHash.to_hex (b :: h)) with
    (String (ContentHash.hex_char (to_N b / 16)) (String (ContentHash.hex_char (to_N b mod 16))
       (ContentHash.to_hex h))).
  cbn [ContentHash.from_hex_chunks].
  pose proof (to_N_bounded b) as Hb.
  rewrite !hex_digit_char, IH by (apply N.mod_lt || apply N.Div0.div_lt_upper_bound; lia).
  simpl. by rewrite hex_nibbles, byte_of_to_N.
Qed.

Lemma length_to_hex h : String.length (ContentHash.to_hex h) = 2 * length h.
Proof.
  induction h as [|b h IH]; [done|].
  change (String.length (ContentHash.to_hex (b :: h)))
    with (S (S (String.length (ContentHash.to_hex h)))). rewrite IH. simpl. lia.
Qed.

(** [ContentHash::from_hex] inverts [to_hex] on every 32-byte digest, and
    refuses the hexadecimal form of anything that is not 32 bytes long. *)
Theorem from_hex_to_hex h :
  ContentHash.from_hex (ContentHash.to_hex h) = if decide (length h = 32) then Some h else None.
Proof.
  unfold ContentHash.from_hex. rewrite length_to_hex, from_hex_chunks_to_hex.
  case_decide as E; [by rewrite E|].
  destruct (Nat.eqb_spec (2 * length h) 64); [lia|done].
Qed.
