(* ===== verification/AuditChain.v ===== *)
(** * The audit chain (crates/roko-orchestrator/src/safety/audit_chain.rs)

    A hash-linked, append-only log.  [ChainInner] is the state behind the mutex
    of an [AuditChain]; every handle of a chain shares it, so an operation is a
    function on that state.  Timestamps are arguments. *)

From S2P Require Import Prelude Bytes.
From Stdlib Require Import Strings.Byte.

Module AuditEntry.
Record t : Type := mk {
  prev_hash : bytes;
  kind : string;
  actor : string;
  resource : string;
  ts_ms : Z;
  signature : option string;
}.

#[global] Instance t_eq_dec : EqDecision t.
Proof. solve_decision. Defined.

Definition new (now_ms : Z) (prev_hash : bytes) (kind actor resource : string) : t :=
  {| prev_hash := prev_hash; kind := kind; actor := actor; resource := resource;
     ts_ms := now_ms; signature := None |}.

Definition with_signature (e : t) (s : string) : t :=
  mk (prev_hash e) (kind e) (actor e) (resource e) (ts_ms e) (Some s).

(** [entry.prev_hash = h] *)
Definition set_prev_hash (h : bytes) (e : t) : t :=
  mk h (kind e) (actor e) (resource e) (ts_ms e) (signature e).

(** [push_field(buf, tag, body)] *)
Definition push_field (buf : bytes) (tag : string) (body : bytes) : bytes :=
  buf ++ str_bytes "|" ++ str_bytes tag ++ str_bytes "=" ++ len_prefix body ++ body.

(** The buffer that [content_hash] fills. *)
Definition encode (e : t) : bytes :=
  let buf := str_bytes "auditv1|" ++ prev_hash e in
  let buf := push_field buf "kind" (str_bytes (kind e)) in
  let buf := push_field buf "actor" (str_bytes (actor e)) in
  let buf := push_field buf "resource" (str_bytes (resource e)) in
  let buf := push_field buf "ts_ms" (i64_be_bytes (ts_ms e)) in
  match signature e with
  | Some sig => push_field buf "sig+" (str_bytes sig)
  | None => push_field buf "sig-" []
  end.

Definition content_hash `{!Blake3} (e : t) : bytes :=
  ContentHash.of_bytes (encode e).
End AuditEntry.
Abbreviation AuditEntry := AuditEntry.t.

Definition GENESIS_PREV_HASH : bytes := zero_hash.

Module AuditChain.
(** [ChainInner] *)
Record t : Type := mk { entries : list AuditEntry; tip : bytes }.

Definition new : t := {| entries := []; tip := zero_hash |}.
Definition len (c : t) : nat := length (entries c).
Definition is_empty (c : t) : bool := Nat.eqb (len c) 0.

Section Ops.
Context {B3 : Blake3}.

(** The new state and the linked entry returned to the caller. *)
Definition append (c : t) (entry : AuditEntry) : t * AuditEntry :=
  let entry := AuditEntry.set_prev_hash (tip c) entry in
  let hash := AuditEntry.content_hash entry in
  (mk (entries c ++ [entry]) hash, entry).

Definition record (now_ms : Z) (c : t) (kind actor resource : string) :
    t * AuditEntry :=
  let prev := tip c in
  let entry := AuditEntry.new now_ms prev kind actor resource in
  let hash := AuditEntry.content_hash entry in
  (mk (entries c ++ [entry]) hash, entry).

(** The loop of [verify]: the hash expected next, or [None] at a broken link. *)
Fixpoint verify_links (expected_prev : bytes) (l : list AuditEntry) : option bytes :=
  match l with
  | [] => Some expected_prev
  | e :: l' =>
      if decide (AuditEntry.prev_hash e = expected_prev)
      then verify_links (AuditEntry.content_hash e) l'
      else None
  end.

Definition verify (c : t) : bool :=
  match entries c with
  | [] => bool_decide (tip c = GENESIS_PREV_HASH)
  | _ =>
      match verify_links GENESIS_PREV_HASH (entries c) with
      | Some expected_prev => bool_decide (tip c = expected_prev)
      | None => false
      end
  end.
End Ops.

Definition iter (c : t) : list AuditEntry := entries c.

Definition entries_with_kind_prefix (c : t) (prefix : string) : list AuditEntry :=
  List.filter (λ e, str_starts_with prefix (AuditEntry.kind e)) (entries c).
End AuditChain.
Abbreviation AuditChain := AuditChain.t.

(** ** The canonical encoding is injective *)

(** What the types of the source guarantee of an entry, and lengths that fit
    their four-byte prefix. *)
Record entry_wf (e : AuditEntry) : Prop := {
  wf_prev : length (AuditEntry.prev_hash e) = 32;
  wf_kind : fits_u32 (str_bytes (AuditEntry.kind e));
  wf_actor : fits_u32 (str_bytes (AuditEntry.actor e));
  wf_resource : fits_u32 (str_bytes (AuditEntry.resource e));
  wf_ts : i64_range (AuditEntry.ts_ms e);
  wf_sig : match AuditEntry.signature e with
           | Some s => fits_u32 (str_bytes s) | None => True end;
}.

Lemma fits_i64_be x : fits_u32 (i64_be_bytes x).
Proof.
  unfold fits_u32, i64_be_bytes. rewrite length_be_bytes. unfold u32_MAX. lia.
Qed.

(** A tagged field, [|tag=] followed by the length-prefixed body. *)
Definition field (tag : string) (body : bytes) : bytes :=
  str_bytes "|" ++ str_bytes tag ++ str_bytes "=" ++ len_prefix body ++ body.

Definition sig_field (s : option string) : bytes :=
  match s with Some sig => field "sig+" (str_bytes sig) | None => field "sig-" [] end.

Lemma encode_fields e :
  AuditEntry.encode e =
    str_bytes "auditv1|" ++ AuditEntry.prev_hash e ++
    field "kind" (str_bytes (AuditEntry.kind e)) ++
    field "actor" (str_bytes (AuditEntry.actor e)) ++
    field "resource" (str_bytes (AuditEntry.resource e)) ++
    field "ts_ms" (i64_be_bytes (AuditEntry.ts_ms e)) ++
    sig_field (AuditEntry.signature e).
Proof.
  unfold AuditEntry.encode, AuditEntry.push_field, sig_field, field.
  by destruct (AuditEntry.signature e); rewrite <-!app_assoc.
Qed.

Lemma field_app_inj tag b1 b2 r1 r2 :
  fits_u32 b1 → fits_u32 b2 →
  field tag b1 ++ r1 = field tag b2 ++ r2 → b1 = b2 ∧ r1 = r2.
Proof.
  unfold field. intros H1 H2 H. rewrite <-!app_assoc in H.
  do 3 apply app_inv_head in H. by apply lp_app_inj in H.
Qed.

Lemma sig_field_inj s1 s2 :
  match s1 with Some s => fits_u32 (str_bytes s) | None => True end →
  match s2 with Some s => fits_u32 (str_bytes s) | None => True end →
  sig_field s1 = sig_field s2 → s1 = s2.
Proof.
  destruct s1 as [x|], s2 as [y|]; simpl; intros H1 H2 H; try done.
  rewrite <-(app_nil_r (field _ (str_bytes x))), <-(app_nil_r (field _ (str_bytes y))) in H.
  apply field_app_inj in H as [H _]; [|done..]. by rewrite (str_bytes_inj _ _ H).
Qed.

Lemma encode_inj e1 e2 :
  entry_wf e1 → entry_wf e2 → AuditEntry.encode e1 = AuditEntry.encode e2 → e1 = e2.
Proof.
  intros [P1 K1 A1 R1 T1 S1] [P2 K2 A2 R2 T2 S2]. rewrite !encode_fields. intros H.
  apply app_inv_head in H. apply app_inj_1 in H as [HP H]; [|congruence].
  apply field_app_inj in H as [HK%str_bytes_inj H]; [|done..].
  apply field_app_inj in H as [HA%str_bytes_inj H]; [|done..].
  apply field_app_inj in H as [HR%str_bytes_inj H]; [|done..].
  apply field_app_inj in H as [HT%i64_be_bytes_inj H]; [|auto using fits_i64_be..];
    [|done..].
  apply sig_field_inj in H; [|done..].
  destruct e1, e2; simpl in *; congruence.
Qed.

(** ** The chain *)

Section ChainFacts.
Context {B3 : Blake3}.

(** The chain invariant: every entry points at its predecessor's hash and the
    tip is the hash of the last entry. *)
Inductive linked : bytes → list AuditEntry → bytes → Prop :=
  | linked_nil h : linked h [] h
  | linked_cons e l h :
      linked (AuditEntry.content_hash e) l h →
      linked (AuditEntry.prev_hash e) (e :: l) h.

Lemma verify_links_linked p l h :
  AuditChain.verify_links p l = Some h ↔ linked p l h.
Proof.
  revert p. induction l as [|e l IH]; intros p; simpl.
  - split; [by intros [= ->]; constructor|by inversion 1].
  - case_decide as E; [subst; rewrite IH|].
    + split; [by constructor|by inversion 1].
    + split; [done|inversion 1; congruence].
Qed.

Lemma verify_linked c :
  AuditChain.verify c = true ↔
    linked GENESIS_PREV_HASH (AuditChain.entries c) (AuditChain.tip c).
Proof.
  unfold AuditChain.verify. destruct c as [l t]. simpl. destruct l as [|e l].
  - rewrite bool_decide_eq_true.
    split; [intros ->; constructor|by inversion 1].
  - destruct (AuditChain.verify_links GENESIS_PREV_HASH (e :: l)) as [h|] eqn:E.
    + rewrite bool_decide_eq_true. apply verify_links_linked in E. split.
      * by intros ->.
      * intros H%verify_links_linked. apply verify_links_linked in E. congruence.
    + split; [done|]. intros H%verify_links_linked. congruence.
Qed.

Lemma linked_app p l1 l2 h :
  linked p (l1 ++ l2) h ↔ ∃ m, linked p l1 m ∧ linked m l2 h.
Proof.
  revert p. induction l1 as [|e l1 IH]; intros p; simpl.
  - split; [by intros H; exists p; split; [constructor|]|].
    intros (m & Hm & H). by inversion Hm; subst.
  - split.
    + inversion 1 as [|??? Hl]; subst. apply IH in Hl as (m & ? & ?).
      exists m. by split; [constructor|].
    + intros (m & Hm & H). inversion Hm; subst. constructor. apply IH. eauto.
Qed.

Lemma linked_snoc p l e h :
  linked p (l ++ [e]) h ↔
    linked p l (AuditEntry.prev_hash e) ∧ h = AuditEntry.content_hash e.
Proof.
  rewrite linked_app. split.
  - intros (m & Hl & He). inversion He as [|??? Hn]; subst. by inversion Hn; subst.
  - intros [Hl ->]. exists (AuditEntry.prev_hash e). split; [done|]. repeat constructor.
Qed.

Lemma append_linked c e :
  AuditChain.verify c = true → AuditChain.verify (AuditChain.append c e).1 = true.
Proof.
  rewrite !verify_linked. intros H. simpl. by apply linked_snoc.
Qed.

Lemma record_append now c k a r :
  AuditChain.record now c k a r =
  AuditChain.append c (AuditEntry.new now (replicate 32 Byte.x00) k a r).
Proof. done. Qed.

(** A chain built by the public API: from [new] by [append] and [record]. *)
Inductive built : AuditChain → Prop :=
  | built_new : built AuditChain.new
  | built_append c e : built c → built (AuditChain.append c e).1
  | built_record now c k a r : built c → built (AuditChain.record now c k a r).1.

Lemma built_verifies c : built c → AuditChain.verify c = true.
Proof.
  induction 1; [done|by apply append_linked|]. rewrite record_append.
  by apply append_linked.
Qed.

Lemma linked_same_tip l1 l2 h :
  collision_free (AuditEntry.encode <$> l1 ++ l2) → Forall entry_wf (l1 ++ l2) →
  linked GENESIS_PREV_HASH l1 h → linked GENESIS_PREV_HASH l2 h → l1 = l2.
Proof.
  revert l2 h. induction l1 as [|e1 l1 IH] using rev_ind; intros l2 h Hcf Hwf H1 H2;
    pose proof Hcf as [Hc Hz].
  - inversion H1; subst. destruct l2 as [|e2 l2 _] using rev_ind; [done|].
    apply linked_snoc in H2 as [_ H2]. destruct (Hz (AuditEntry.encode e2)); [set_solver|done].
  - apply linked_snoc in H1 as [H1 ->].
    destruct l2 as [|e2 l2 _] using rev_ind.
    + inversion H2 as [h' Hg|]; subst. destruct (Hz (AuditEntry.encode e1)); [set_solver|done].
    + apply linked_snoc in H2 as [H2 Heq]. rewrite Forall_forall in Hwf.
      assert (e1 = e2) as ->.
      { apply encode_inj; [apply Hwf; set_solver..|]. apply Hc; [set_solver..|done]. }
      f_equal. eapply IH; [..|exact H1|exact H2].
      * eapply collision_free_sub; [|exact Hcf]. set_solver.
      * apply Forall_forall. intros x Hx. apply Hwf. set_solver.
Qed.
End ChainFacts.

(** C36: tamper evidence.  Once a chain [c] has been built through [append] and
    [record], a chain with the same tip but a different history (an entry mutated,
    removed, inserted or reordered) is rejected by [verify], unless two of the
    entries involved collide under BLAKE3. *)
Theorem verify_detects_tampering `{!Blake3} c c' :
  built c → AuditChain.tip c' = AuditChain.tip c →
  AuditChain.entries c' ≠ AuditChain.entries c →
  Forall entry_wf (AuditChain.entries c' ++ AuditChain.entries c) →
  collision_free (AuditEntry.encode <$> AuditChain.entries c' ++ AuditChain.entries c) →
  AuditChain.verify c' = false.
Proof.
  intros Hb Ht Hne Hwf Hcf. apply not_true_is_false. intros Hv.
  apply built_verifies in Hb. rewrite verify_linked in Hb, Hv. rewrite Ht in Hv.
  apply Hne. by eapply linked_same_tip.
Qed.

Definition example_chain : AuditChain :=
  let e1 := AuditEntry.new 1 zero_hash "permit.granted" "agent" "worktree-1" in
  let e2 := AuditEntry.new 2 zero_hash "sandbox.violation" "agent" "worktree-1" in
  (@AuditChain.append poly_blake3 (@AuditChain.append poly_blake3 AuditChain.new e1).1 e2).1.

(** The same chain with the actor of the first entry rewritten. *)
Definition tampered_chain : AuditChain :=
  match AuditChain.entries example_chain with
  | e1 :: l =>
      AuditChain.mk
        (AuditEntry.mk (AuditEntry.prev_hash e1) (AuditEntry.kind e1) "operator"
           (AuditEntry.resource e1) (AuditEntry.ts_ms e1) None :: l)
        (AuditChain.tip example_chain)
  | [] => example_chain
  end.

Ltac solve_entry_wf := constructor; vm_compute; first [done | by split | by intros].

Lemma verify_detects_tampering_witness :
  @AuditChain.verify poly_blake3 tampered_chain = false.
Proof.
  apply (@verify_detects_tampering poly_blake3 example_chain).
  - apply built_append, built_append, built_new.
  - done.
  - intros [=].
  - vm_compute. repeat (apply Forall_cons; split; [solve_entry_wf|]). by apply Forall_nil.
  - apply collision_free_decide; by vm_compute.
Defined.
