(* ===== verification/EventLog.v ===== *)
(** * The event log (crates/roko-orchestrator/src/event_log.rs)

    Append-only event sourcing with a hash chain.  [LogInner] is the state behind
    the mutex that every clone of an [EventLog] shares.  JSON values are
    serde_json's: the accessors and the serialisation the code calls are a
    parameter, [Json]. *)

From S2P Require Import Prelude Bytes.
From Stdlib Require Import Strings.Byte.

(** ** serde_json *)

(** [Value], [value.get(key)], [as_str], [as_u64], [as_bool], [as_array] and
    [serde_json::to_vec(v).unwrap_or_default()]. *)
Class Json := {
  json : Type;
  json_get : string → json → option json;
  json_as_str : json → option string;
  json_as_u64 : json → option N;
  json_as_bool : json → option bool;
  json_as_array : json → option (list json);
  json_to_vec : json → bytes;
}.

(** A small concrete JSON, for evaluating examples. *)
Inductive simple_json : Type :=
  | JNull
  | JBool (b : bool)
  | JNum (n : N)
  | JStr (s : string)
  | JArr (l : list simple_json)
  | JObj (l : list (string * simple_json)).

Fixpoint assoc_get (k : string) (l : list (string * simple_json)) : option simple_json :=
  match l with
  | [] => None
  | (k', v) :: l' => if decide (k = k') then Some v else assoc_get k l'
  end.

Fixpoint simple_print (j : simple_json) : string :=
  match j with
  | JNull => "null"
  | JBool b => if b then "true" else "false"
  | JNum n => fmt_N n
  | JStr s => "'" +:+ s +:+ "'"
  | JArr l => "[" +:+ str_join "," (simple_print <$> l) +:+ "]"
  | JObj l => "{" +:+ str_join "," ((λ '(k, v), k +:+ ":" +:+ simple_print v) <$> l) +:+ "}"
  end.

Definition simple_Json : Json := {|
  json := simple_json;
  json_get k j := match j with JObj l => assoc_get k l | _ => None end;
  json_as_str j := match j with JStr s => Some s | _ => None end;
  json_as_u64 j := match j with JNum n => Some n | _ => None end;
  json_as_bool j := match j with JBool b => Some b | _ => None end;
  json_as_array j := match j with JArr l => Some l | _ => None end;
  json_to_vec j := str_bytes (simple_print j);
|}.

(** ** Events *)

Module EventKind.
Inductive t : Type :=
  | PlanStarted
  | TaskAssigned
  | AgentSpawned
  | CognitiveWorkspaceRecorded
  | GateResult
  | MergeAttempted
  | PlanCompleted
  | PlanFailed
  | ErrorOccurred
  | InterventionFired
  | PhaseTransition
  | EnrichmentValidated.

#[global] Instance t_eq_dec : EqDecision t.
Proof. solve_decision. Defined.

(** [impl Display for EventKind] *)
Definition to_string (k : t) : string :=
  match k with
  | PlanStarted => "plan.started"
  | TaskAssigned => "task.assigned"
  | AgentSpawned => "agent.spawned"
  | CognitiveWorkspaceRecorded => "cognitive_workspace.recorded"
  | GateResult => "gate.result"
  | MergeAttempted => "merge.attempted"
  | PlanCompleted => "plan.completed"
  | PlanFailed => "plan.failed"
  | ErrorOccurred => "error.occurred"
  | InterventionFired => "intervention.fired"
  | PhaseTransition => "phase.transition"
  | EnrichmentValidated => "enrichment.validated"
  end.
End EventKind.
Abbreviation EventKind := EventKind.t.

Module EventEntry.
Record t `{!Json} : Type := mk {
  sequence_number : N;
  timestamp_ms : Z;
  event_kind : EventKind;
  payload : json;
  content_hash : bytes;
}.
Arguments mk {_} _ _ _ _ _.

(** The buffer that [compute_hash] fills. *)
Definition encode (seq : N) (ts_ms : Z) (kind : EventKind) (payload_bytes prev_hash : bytes) :
    bytes :=
  let buf := str_bytes "eventv1|" in
  let buf := buf ++ be_bytes 8 seq in
  let buf := buf ++ i64_be_bytes ts_ms in
  let buf := buf ++ prev_hash in
  let buf := push_lp buf (str_bytes (EventKind.to_string kind)) in
  push_lp buf payload_bytes.

Definition compute_hash `{!Json, !Blake3} (seq : N) (ts_ms : Z) (kind : EventKind)
    (payload : json) (prev_hash : bytes) : bytes :=
  ContentHash.of_bytes (encode seq ts_ms kind (json_to_vec payload) prev_hash).
End EventEntry.
Abbreviation EventEntry := EventEntry.t.

Module IntegrityError.
Record t : Type := mk { at_sequence : N; reason : string }.

#[global] Instance t_eq_dec : EqDecision t.
Proof. solve_decision. Defined.

Definition display (e : t) : string :=
  "integrity violation at seq " +:+ fmt_N (at_sequence e) +:+ ": " +:+ reason e.
End IntegrityError.
Abbreviation IntegrityError := IntegrityError.t.

Definition ZERO_HASH : bytes := zero_hash.

Section EventLog.
Context {J : Json} {B3 : Blake3}.

(** [verify_entry_sequences]: [expected] counts the entries from 0. *)
Fixpoint verify_entry_sequences_from (expected : N) (l : list EventEntry) :
    result unit IntegrityError :=
  match l with
  | [] => Ok tt
  | entry :: l' =>
      let seq := EventEntry.sequence_number entry in
      if decide (seq = expected) then verify_entry_sequences_from (expected + 1) l'
      else
        let reason :=
          if (expected =? 0)%N
          then "sequence starts at " +:+ fmt_N seq +:+ " (expected 0)"
          else "sequence " +:+ fmt_N seq +:+ " follows " +:+ fmt_N (expected - 1) +:+
               " (expected " +:+ fmt_N expected +:+ ")" in
        Err (IntegrityError.mk seq reason)
  end.

Definition verify_entry_sequences (l : list EventEntry) : result unit IntegrityError :=
  verify_entry_sequences_from 0 l.

(** [LogInner], and [EventLogSnapshot], which has the same fields. *)
Record LogInner : Type := mk_log { entries : list EventEntry; tip : bytes }.
Record EventLogSnapshot : Type :=
  mk_snapshot { snap_entries : list EventEntry; snap_tip : bytes }.

Definition new_log : LogInner := {| entries := []; tip := zero_hash |}.
Definition log_len (g : LogInner) : nat := length (entries g).
Definition log_is_empty (g : LogInner) : bool := Nat.eqb (log_len g) 0.

(** [EventLog::append]; [ts_ms] is the clock. *)
Definition log_append (ts_ms : Z) (g : LogInner) (event_kind : EventKind) (payload : json) :
    LogInner * EventEntry :=
  let seq := N.of_nat (length (entries g)) in
  let prev_hash := tip g in
  let content_hash := EventEntry.compute_hash seq ts_ms event_kind payload prev_hash in
  let entry := EventEntry.mk seq ts_ms event_kind payload content_hash in
  (mk_log (entries g ++ [entry]) content_hash, entry).

Definition replay (g : LogInner) : list EventEntry := entries g.

Definition replay_from (g : LogInner) (seq : N) : list EventEntry :=
  List.filter (λ e, seq <=? EventEntry.sequence_number e)%N (entries g).

Definition entry_hash (prev_hash : bytes) (e : EventEntry) : bytes :=
  EventEntry.compute_hash (EventEntry.sequence_number e) (EventEntry.timestamp_ms e)
    (EventEntry.event_kind e) (EventEntry.payload e) prev_hash.

(** The loop of [verify_integrity]: the final [prev_hash], or the error. *)
Fixpoint verify_hashes (prev_hash : bytes) (l : list EventEntry) :
    result bytes IntegrityError :=
  match l with
  | [] => Ok prev_hash
  | entry :: l' =>
      let expected := entry_hash prev_hash entry in
      if decide (EventEntry.content_hash entry = expected)
      then verify_hashes (EventEntry.content_hash entry) l'
      else Err (IntegrityError.mk (EventEntry.sequence_number entry)
                  ("hash mismatch: expected " +:+ ContentHash.short expected +:+
                   ", got " +:+ ContentHash.short (EventEntry.content_hash entry)))
  end.

Definition verify_integrity (g : LogInner) : result unit IntegrityError :=
  let? _ := verify_entry_sequences (entries g) in
  let? prev_hash := verify_hashes ZERO_HASH (entries g) in
  if decide (tip g = prev_hash) then Ok tt
  else Err (IntegrityError.mk (N.of_nat (length (entries g)))
              "tip hash does not match final entry").

Definition snapshot (g : LogInner) : EventLogSnapshot :=
  mk_snapshot (entries g) (tip g).

Definition restore (s : EventLogSnapshot) : LogInner :=
  mk_log (snap_entries s) (snap_tip s).

Definition restore_verified (s : EventLogSnapshot) : result LogInner IntegrityError :=
  let log := restore s in
  let? _ := verify_integrity log in
  Ok log.

Definition entries_by_kind (g : LogInner) (kind : EventKind) : list EventEntry :=
  List.filter (λ e, bool_decide (EventEntry.event_kind e = kind)) (entries g).
End EventLog.
Arguments LogInner {_}.
Arguments EventLogSnapshot {_}.

(** ** Facts *)

Lemma event_kind_to_string_inj k1 k2 :
  EventKind.to_string k1 = EventKind.to_string k2 → k1 = k2.
Proof. by destruct k1, k2. Qed.

Lemma event_kind_fits k : fits_u32 (str_bytes (EventKind.to_string k)).
Proof. by destruct k; vm_compute. Qed.

Definition u64_range (n : N) : Prop := (n ≤ u64_MAX)%N.

Lemma event_encode_inj s1 s2 t1 t2 k1 k2 b1 b2 p1 p2 :
  u64_range s1 → u64_range s2 → i64_range t1 → i64_range t2 →
  length p1 = 32 → length p2 = 32 →
  EventEntry.encode s1 t1 k1 b1 p1 = EventEntry.encode s2 t2 k2 b2 p2 →
  s1 = s2 ∧ t1 = t2 ∧ k1 = k2 ∧ b1 = b2 ∧ p1 = p2.
Proof.
  unfold u64_range, u64_MAX, EventEntry.encode, push_lp.
  intros S1 S2 T1 T2 P1 P2 H. rewrite <-!app_assoc in H.
  apply app_inv_head in H.
  apply app_inj_1 in H as [HS H]; [|by rewrite !length_be_bytes].
  apply be_bytes_inj in HS;
    [|change (256 ^ N.of_nat 8)%N with 18446744073709551616%N; lia..].
  apply app_inj_1 in H as [HT%i64_be_bytes_inj H];
    [|done..|by unfold i64_be_bytes; rewrite !length_be_bytes].
  apply app_inj_1 in H as [HP H]; [|congruence].
  apply lp_app_inj in H as [HK%str_bytes_inj%event_kind_to_string_inj H];
    [|apply event_kind_fits..].
  apply app_inj_1 in H as [_ HB]; [|by rewrite !length_len_prefix]. done.
Qed.

Section EventLogFacts.
Context {J : Json} {B3 : Blake3}.

(** The log invariant: contiguous sequence numbers from [n], and a hash chain
    from [p] to [h]. *)
Inductive chained : bytes → list EventEntry → bytes → Prop :=
  | chained_nil h : chained h [] h
  | chained_cons p e l h :
      EventEntry.content_hash e = entry_hash p e →
      chained (EventEntry.content_hash e) l h → chained p (e :: l) h.

Lemma chained_nil_iff p h : chained p [] h ↔ p = h.
Proof. split; [by inversion 1|intros ->; constructor]. Qed.

Lemma verify_hashes_chained p l h : verify_hashes p l = Ok h ↔ chained p l h.
Proof.
  revert p. induction l as [|e l IH]; intros p; simpl.
  - split; [by intros [= ->]; constructor|by inversion 1].
  - case_decide as E.
    + rewrite IH. split; [by constructor|by inversion 1].
    + split; [done|by inversion 1].
Qed.

Definition contiguous (n : N) (l : list EventEntry) : Prop :=
  ∀ i e, l !! i = Some e → EventEntry.sequence_number e = (n + N.of_nat i)%N.

Lemma contiguous_cons n e l :
  contiguous n (e :: l) ↔ EventEntry.sequence_number e = n ∧ contiguous (n + 1) l.
Proof.
  split.
  - intros H. split; [rewrite (H 0%nat e); [lia|done]|].
    intros i x Hx. rewrite (H (S i) x Hx). lia.
  - intros [He H] [|i] x Hx; simplify_eq/=; [lia|]. rewrite (H i x Hx). lia.
Qed.

Lemma verify_entry_sequences_from_ok n l :
  verify_entry_sequences_from n l = Ok tt ↔ contiguous n l.
Proof.
  revert n. induction l as [|e l IH]; intros n.
  - split; [intros _ i e Hi; by rewrite lookup_nil in Hi|done].
  - rewrite contiguous_cons, <-IH. cbn [verify_entry_sequences_from].
    case_decide; naive_solver.
Qed.

Lemma verify_integrity_ok g :
  verify_integrity g = Ok tt ↔
    contiguous 0 (entries g) ∧ chained ZERO_HASH (entries g) (tip g).
Proof.
  unfold verify_integrity.
  pose proof (verify_entry_sequences_from_ok 0 (entries g)) as HS.
  change (verify_entry_sequences_from 0 (entries g)) with
    (verify_entry_sequences (entries g)) in HS.
  destruct (verify_entry_sequences (entries g)) as [[]|] eqn:ES; [|naive_solver].
  destruct (verify_hashes ZERO_HASH (entries g)) as [h|] eqn:EH.
  - apply verify_hashes_chained in EH. case_decide as Et; subst; [naive_solver|].
    split; [done|]. intros [_ Hc%verify_hashes_chained].
    apply verify_hashes_chained in EH. congruence.
  - split; [done|]. intros [_ Hc%verify_hashes_chained]. congruence.
Qed.

Lemma chained_snoc p l e h :
  chained p (l ++ [e]) h ↔
    ∃ m, chained p l m ∧ EventEntry.content_hash e = entry_hash m e ∧
         h = EventEntry.content_hash e.
Proof.
  revert p. induction l as [|x l IH]; intros p; simpl; split.
  - inversion 1 as [|???? He Hn]; subst. inversion Hn; subst.
    exists p. split_and!; [constructor|done..].
  - intros (m & Hm & He & ->). inversion Hm; subst. constructor; [done|constructor].
  - inversion 1 as [|???? Hx Hl]; subst. apply IH in Hl as (m & ? & ? & ->).
    exists m. split_and!; [by constructor|done..].
  - intros (m & Hm & He & ->). inversion Hm; subst. constructor; [done|].
    apply IH. eauto.
Qed.

Lemma contiguous_snoc n l e :
  contiguous n (l ++ [e]) ↔
    contiguous n l ∧ EventEntry.sequence_number e = (n + N.of_nat (length l))%N.
Proof.
  revert n. induction l as [|x l IH]; intros n; simpl.
  - rewrite contiguous_cons. split.
    + intros [-> _]. split; [by intros ???|lia].
    + intros [_ ->]. split; [lia|by intros ???].
  - rewrite !contiguous_cons, IH. split; [|]; intros; split_and!; naive_solver lia.
Qed.

Lemma append_verifies ts g k p :
  verify_integrity g = Ok tt → verify_integrity (log_append ts g k p).1 = Ok tt.
Proof.
  rewrite !verify_integrity_ok. intros [Hs Hc]. split; simpl.
  - apply contiguous_snoc. split; [done|]. simpl. lia.
  - apply chained_snoc. by exists (tip g).
Qed.

(** A log built through the public API. *)
Inductive built_log : LogInner → Prop :=
  | built_new_log : built_log new_log
  | built_log_append ts g k p : built_log g → built_log (log_append ts g k p).1.

Lemma built_log_verifies g : built_log g → verify_integrity g = Ok tt.
Proof. induction 1; [done|by apply append_verifies]. Qed.

(** The inputs hashed along a chain that starts at [p]. *)
Fixpoint chain_inputs (p : bytes) (l : list EventEntry) : list bytes :=
  match l with
  | [] => []
  | e :: l' =>
      EventEntry.encode (EventEntry.sequence_number e) (EventEntry.timestamp_ms e)
        (EventEntry.event_kind e) (json_to_vec (EventEntry.payload e)) p ::
      chain_inputs (EventEntry.content_hash e) l'
  end.

Lemma chain_inputs_snoc p l e m :
  chained p l m →
  chain_inputs p (l ++ [e]) =
  chain_inputs p l ++
    [EventEntry.encode (EventEntry.sequence_number e) (EventEntry.timestamp_ms e)
       (EventEntry.event_kind e) (json_to_vec (EventEntry.payload e)) m].
Proof. induction 1 as [|? ? ? ? ? ? IH]; simpl; [done|]. by rewrite IH. Qed.

(** Equality of events up to the JSON value behind the serialised payload. *)
Definition same_event (e1 e2 : EventEntry) : Prop :=
  EventEntry.sequence_number e1 = EventEntry.sequence_number e2 ∧
  EventEntry.timestamp_ms e1 = EventEntry.timestamp_ms e2 ∧
  EventEntry.event_kind e1 = EventEntry.event_kind e2 ∧
  json_to_vec (EventEntry.payload e1) = json_to_vec (EventEntry.payload e2) ∧
  EventEntry.content_hash e1 = EventEntry.content_hash e2.

Lemma payloads_differ l1 l2 :
  (λ e, json_to_vec (EventEntry.payload e)) <$> l1 ≠
    (λ e, json_to_vec (EventEntry.payload e)) <$> l2 →
  ¬ Forall2 same_event l1 l2.
Proof.
  intros Hne H. apply Hne. clear Hne. induction H as [|e1 e2 l1 l2 He _ IH]; [done|].
  destruct He as (_ & _ & _ & He & _). rewrite !fmap_cons. by f_equal.
Qed.

(** What the field types guarantee. *)
Record event_wf (e : EventEntry) : Prop := {
  wf_seq : u64_range (EventEntry.sequence_number e);
  wf_event_ts : i64_range (EventEntry.timestamp_ms e);
  wf_hash : length (EventEntry.content_hash e) = 32;
}.

Lemma chained_length p l h :
  length p = 32 → Forall event_wf l → chained p l h → length h = 32.
Proof.
  intros Hp Hwf Hc. induction Hc as [|p e l h _ _ IH]; [done|].
  apply Forall_cons in Hwf as [[_ _ He] Hwf]. by apply IH.
Qed.

Lemma chained_same_tip l1 l2 h :
  collision_free (chain_inputs ZERO_HASH l1 ++ chain_inputs ZERO_HASH l2) →
  Forall event_wf l1 → Forall event_wf l2 →
  chained ZERO_HASH l1 h → chained ZERO_HASH l2 h → Forall2 same_event l1 l2.
Proof.
  revert l2 h. induction l1 as [|e1 l1 IH] using rev_ind;
    intros l2 h Hcf W1 W2 H1 H2; pose proof Hcf as [Hc Hz];
    destruct l2 as [|e2 l2 _] using rev_ind; [done|..].
  - apply chained_snoc in H2 as (m & Hm & He & ->). apply chained_nil_iff in H1 as Hg.
    rewrite (chain_inputs_snoc _ _ _ _ Hm) in Hz.
    edestruct Hz; [|rewrite <-Hg in He; symmetry; exact He]. set_solver.
  - apply chained_snoc in H1 as (m & Hm & He & ->). apply chained_nil_iff in H2 as Hg.
    rewrite (chain_inputs_snoc _ _ _ _ Hm) in Hz.
    edestruct Hz; [|rewrite <-Hg in He; symmetry; exact He]. set_solver.
  - apply chained_snoc in H1 as (m1 & Hm1 & He1 & ->).
    apply chained_snoc in H2 as (m2 & Hm2 & He2 & Heq).
    rewrite (chain_inputs_snoc _ _ _ _ Hm1), (chain_inputs_snoc _ _ _ _ Hm2) in Hc, Hcf.
    apply Forall_app in W1 as [W1 [[S1 T1 L1] _]%Forall_cons].
    apply Forall_app in W2 as [W2 [[S2 T2 L2] _]%Forall_cons].
    assert (Henc := Heq). rewrite He1, He2 in Henc.
    apply Hc in Henc; [|set_solver..].
    apply event_encode_inj in Henc as (? & ? & ? & ? & ->); [|done..| |];
      [|by eapply chained_length; [..|exact Hm1]|by eapply chained_length; [..|exact Hm2]].
    apply Forall2_app; [|by repeat constructor].
    eapply IH; [|done..]. eapply collision_free_sub; [|exact Hcf]. set_solver.
Qed.
End EventLogFacts.

(** crash recovery of the event log is lossless: a log built through
    [append] numbers its events from 0 without gaps and [restore_verified] accepts
    its snapshot and gives the same log back. *)
Theorem restore_snapshot_roundtrip {J : Json} {B3 : Blake3} g :
  built_log g →
  restore_verified (snapshot g) = Ok g ∧
  ∀ i e, replay g !! i = Some e → EventEntry.sequence_number e = N.of_nat i.
Proof.
  intros Hb%built_log_verifies. destruct g as [l t]. split.
  - unfold restore_verified, restore, snapshot. simpl. by rewrite Hb.
  - apply verify_integrity_ok in Hb as [Hs _]. intros i e Hi. by rewrite (Hs i e Hi).
Qed.

(** tamper evidence of the event log.  A snapshot with the tip of a log
    built through [append] but with a different event history is rejected by
    [restore_verified], unless BLAKE3 collides on the entries at hand. *)
Theorem restore_verified_detects_tampering {J : Json} {B3 : Blake3} g s :
  built_log g → snap_tip s = tip g →
  ¬ Forall2 same_event (snap_entries s) (entries g) →
  Forall event_wf (snap_entries s) → Forall event_wf (entries g) →
  collision_free (chain_inputs ZERO_HASH (snap_entries s) ++
                  chain_inputs ZERO_HASH (entries g)) →
  is_ok (restore_verified s) = false.
Proof.
  intros Hb%built_log_verifies Ht Hne W1 W2 Hcf. unfold restore_verified.
  destruct (verify_integrity (restore s)) as [[]|] eqn:E; [|done]. exfalso.
  apply Hne. apply verify_integrity_ok in E as [_ E], Hb as [_ Hb].
  eapply chained_same_tip; [done..|exact E|]. unfold restore. simpl. by rewrite Ht.
Qed.

(** ** Examples *)

Definition example_log : @LogInner simple_Json :=
  let J := simple_Json in let B3 := poly_blake3 in
  let g := (log_append 10 new_log EventKind.PlanStarted
              (JObj [("plan_id", JStr "01-a")])).1 in
  (log_append 20 g EventKind.GateResult
     (JObj [("plan_id", JStr "01-a"); ("passed", JBool false)])).1.

(** Its snapshot with the gate result flipped to a pass. *)
Definition forged_snapshot : @EventLogSnapshot simple_Json :=
  match entries example_log with
  | [e1; e2] =>
      mk_snapshot
        [e1; EventEntry.mk (EventEntry.sequence_number e2) (EventEntry.timestamp_ms e2)
               (EventEntry.event_kind e2)
               (JObj [("plan_id", JStr "01-a"); ("passed", JBool true)] : @json simple_Json)
               (EventEntry.content_hash e2)]
        (tip example_log)
  | _ => snapshot example_log
  end.

Lemma example_log_built : @built_log simple_Json poly_blake3 example_log.
Proof. apply built_log_append, built_log_append, built_new_log. Qed.

Lemma restore_snapshot_roundtrip_witness :
  @restore_verified simple_Json poly_blake3 (snapshot example_log) = Ok example_log.
Proof.
  apply (@restore_snapshot_roundtrip simple_Json poly_blake3 example_log).
  apply built_log_append, built_log_append, built_new_log.
Defined.

Ltac solve_event_wf :=
  constructor; vm_compute; first [done | by split | by intros].

Lemma restore_verified_detects_tampering_witness :
  is_ok (@restore_verified simple_Json poly_blake3 forged_snapshot) = false.
Proof.
  apply (@restore_verified_detects_tampering simple_Json poly_blake3 example_log).
  - apply built_log_append, built_log_append, built_new_log.
  - done.
  - apply payloads_differ. vm_compute. intros [=].
  - vm_compute. repeat (apply Forall_cons; split; [solve_event_wf|]). by apply Forall_nil.
  - vm_compute. repeat (apply Forall_cons; split; [solve_event_wf|]). by apply Forall_nil.
  - apply collision_free_decide; by vm_compute.
Defined.
