(* ===== verification/Snapshot.v ===== *)
(** * Executor snapshots (crates/roko-orchestrator/src/executor/snapshot.rs)

    The serialisable state of the executor and the verified binary envelope it
    is stored in.  serde_json's rendering and parsing of a snapshot are a
    parameter, [SnapshotSerde]; so is BLAKE3. *)

From Stdlib Require Import Strings.Byte.
From S2P Require Import Prelude Phase Task PlanState Bytes EventLog.

(** ** Data *)

Module SpeculativeExecution.
Record t : Type := mk {
  plan_id : string;
  task : string;
  expected_minutes : N;
  elapsed_minutes : N;
  backup_role : AgentRole;
  projected_cost_usd : F64.t;
  started_at_ms : N;
}.
End SpeculativeExecution.
Abbreviation SpeculativeExecution := SpeculativeExecution.t.

Module PersistedCircuitBreakerFailureRecord.
Record t : Type := mk {
  count : N;
  last_failure_ms : option Z;
  reasons : list string;
}.

#[global] Instance t_eq_dec : EqDecision t.
Proof. solve_decision. Defined.
End PersistedCircuitBreakerFailureRecord.

Module PersistedCircuitBreakerState.
Record t : Type := mk {
  max_failures : N;
  records : gmap string PersistedCircuitBreakerFailureRecord.t;
}.

#[global] Instance t_eq_dec : EqDecision t.
Proof. solve_decision. Defined.
End PersistedCircuitBreakerState.

Definition CURRENT_SCHEMA_VERSION : N := 1.
Definition current_schema_version : N := CURRENT_SCHEMA_VERSION.

Module ExecutorSnapshot.
Record t : Type := mk {
  schema_version : N;
  plan_states : gmap string PlanState;
  queue_order : list string;
  conductor_circuit_breaker : option PersistedCircuitBreakerState.t;
  speculative_executions : gmap string SpeculativeExecution;
  timestamp_ms : N;
}.

Definition new (timestamp_ms : N) : t :=
  {| schema_version := current_schema_version; plan_states := ∅; queue_order := [];
     conductor_circuit_breaker := None; speculative_executions := ∅;
     timestamp_ms := timestamp_ms |}.

Definition plan_count (s : t) : nat := size (plan_states s).
End ExecutorSnapshot.
Abbreviation ExecutorSnapshot := ExecutorSnapshot.t.

Module SnapshotConfig.
Record t : Type := mk { full_interval : N; delta_interval : N; max_delta_chain : nat }.

Definition default : t :=
  {| full_interval := 100; delta_interval := 10; max_delta_chain := 10 |}.
End SnapshotConfig.

(** ** Integrity errors *)

Module SnapshotIntegrityError.
Inductive t : Type :=
  | BadMagic
  | BadTrailer
  | TooShort
  | LengthMismatch (declared : N) (available : nat)
  | ChecksumMismatch (expected actual : bytes)
  | BaseHashMismatch (expected actual : bytes)
  | ResultHashMismatch (expected actual : bytes)
  | SerializationFailed (msg : string).

#[global] Instance t_eq_dec : EqDecision t.
Proof. solve_decision. Defined.

(** The first 8 bytes in hexadecimal. *)
Definition hex_prefix (hash : bytes) : string :=
  ContentHash.to_hex (take 8 hash) +:+ "...".

Definition display (e : t) : string :=
  match e with
  | BadMagic => "invalid magic bytes (expected ROKO)"
  | BadTrailer => "invalid trailer (expected END!)"
  | TooShort => "data too short for snapshot envelope"
  | LengthMismatch declared available =>
      "payload length mismatch: declared " +:+ fmt_N declared +:+ ", available " +:+
      fmt_nat available
  | ChecksumMismatch expected actual =>
      "BLAKE3 checksum mismatch: expected " +:+ hex_prefix expected +:+ ", got " +:+
      hex_prefix actual
  | BaseHashMismatch expected actual =>
      "base hash mismatch: expected " +:+ hex_prefix expected +:+ ", got " +:+
      hex_prefix actual
  | ResultHashMismatch expected actual =>
      "result hash mismatch: expected " +:+ hex_prefix expected +:+ ", got " +:+
      hex_prefix actual
  | SerializationFailed msg => "serialization failed: " +:+ msg
  end.
End SnapshotIntegrityError.
Abbreviation SnapshotIntegrityError := SnapshotIntegrityError.t.

(** ** The verified envelope *)

(** [serde_json::to_value] followed by [to_vec], and [serde_json::from_slice]. *)
Class SnapshotSerde := {
  snapshot_to_vec : ExecutorSnapshot → result bytes string;
  snapshot_from_slice : bytes → result ExecutorSnapshot string;
}.

Definition MAGIC : bytes := str_bytes "ROKO".
Definition TRAILER : bytes := str_bytes "END!".

Module SnapshotVerifier.
Section Verifier.
Context {B3 : Blake3} {SS : SnapshotSerde}.

Definition compute_hash (data : bytes) : bytes := blake3 data.

Definition verify_checksum (data expected : bytes) : result unit SnapshotIntegrityError :=
  let actual := compute_hash data in
  if decide (actual = expected) then Ok tt
  else Err (SnapshotIntegrityError.ChecksumMismatch expected actual).

(** The buffer that [save_verified] fills around a payload. *)
Definition envelope (payload : bytes) : bytes :=
  let hash := compute_hash payload in
  let len := N.of_nat (length payload) in
  MAGIC ++ le_bytes 8 len ++ payload ++ hash ++ TRAILER.

Definition save_verified (snapshot : ExecutorSnapshot) : result bytes string :=
  let? payload := snapshot_to_vec snapshot in
  Ok (envelope payload).

Definition MIN_SIZE : nat := 4 + 8 + 32 + 4.

(** The slice [&data[a..b]], in range. *)
Definition slice (a b : nat) (data : bytes) : bytes := take (b - a) (drop a data).

Definition load_verified (data : bytes) :
    result ExecutorSnapshot SnapshotIntegrityError :=
  if decide (length data < MIN_SIZE)%nat then Err SnapshotIntegrityError.TooShort
  else if decide (slice 0 4 data ≠ MAGIC) then Err SnapshotIntegrityError.BadMagic
  else if decide (slice (length data - 4) (length data) data ≠ TRAILER) then
    Err SnapshotIntegrityError.BadTrailer
  else
    let payload_len := le_val (slice 4 12 data) in
    let available := (length data - 4 - 8 - 32 - 4)%nat in
    if decide (payload_len ≠ N.of_nat available) then
      Err (SnapshotIntegrityError.LengthMismatch payload_len available)
    else
      let payload := slice 12 (12 + available) data in
      let hash_start := (12 + available)%nat in
      let expected_hash := slice hash_start (hash_start + 32) data in
      let? _ := verify_checksum payload expected_hash in
      map_err SnapshotIntegrityError.SerializationFailed (snapshot_from_slice payload).
End Verifier.
End SnapshotVerifier.

(** ** Facts *)

Lemma slice_drop a b data :
  (a ≤ b)%nat → drop a data = SnapshotVerifier.slice a b data ++ drop b data.
Proof.
  intros Hab. unfold SnapshotVerifier.slice.
  rewrite <-(take_drop (b - a) (drop a data)) at 1. rewrite drop_drop.
  by replace (a + (b - a))%nat with b by lia.
Qed.

Lemma slice_app (pre mid post : bytes) a b :
  a = length pre → b = (length pre + length mid)%nat →
  SnapshotVerifier.slice a b (pre ++ mid ++ post) = mid.
Proof.
  intros -> ->. unfold SnapshotVerifier.slice. rewrite drop_app_length.
  replace (length pre + length mid - length pre)%nat with (length mid) by lia.
  apply take_app_length.
Qed.

Section VerifierFacts.
Context {B3 : Blake3} {SS : SnapshotSerde}.
Import SnapshotVerifier.

Lemma length_envelope payload :
  length (envelope payload) = (48 + length payload)%nat.
Proof.
  unfold envelope, compute_hash. rewrite !length_app, length_le_bytes, blake3_length.
  unfold MAGIC, TRAILER. simpl. lia.
Qed.

(** The five parts of an envelope, where [load_verified] reads them. *)
Lemma envelope_parts payload (n := length payload) :
  slice 0 4 (envelope payload) = MAGIC ∧
  slice 4 12 (envelope payload) = le_bytes 8 (N.of_nat n) ∧
  slice 12 (12 + n) (envelope payload) = payload ∧
  slice (12 + n) (12 + n + 32) (envelope payload) = compute_hash payload ∧
  slice (44 + n) (48 + n) (envelope payload) = TRAILER.
Proof.
  subst n. unfold envelope. pose proof (length_le_bytes 8 (N.of_nat (length payload))) as L8.
  pose proof (blake3_length payload) as L32. set (l8 := le_bytes 8 _) in *.
  unfold compute_hash. set (h := blake3 payload) in *.
  split_and!.
  - by apply (slice_app []).
  - by apply slice_app; rewrite ?L8.
  - rewrite (app_assoc MAGIC). by apply slice_app; rewrite length_app, L8.
  - rewrite (app_assoc MAGIC), (app_assoc (MAGIC ++ l8)).
    apply slice_app; rewrite !length_app, L8, ?L32; simpl; lia.
  - rewrite (app_assoc MAGIC), (app_assoc (MAGIC ++ l8)), (app_assoc (_ ++ payload)).
    rewrite <-(app_nil_r TRAILER) at 1.
    apply slice_app; rewrite !length_app, L8, ?L32; simpl; lia.
Qed.

(** Data is the concatenation of the parts [load_verified] reads. *)
Lemma data_parts data n :
  length data = (48 + n)%nat →
  data = slice 0 4 data ++ slice 4 12 data ++ slice 12 (12 + n) data ++
         slice (12 + n) (12 + n + 32) data ++ slice (44 + n) (48 + n) data.
Proof.
  intros HL. change data with (drop 0 data) at 1.
  rewrite (slice_drop 0 4), (slice_drop 4 12), (slice_drop 12 (12 + n)),
    (slice_drop (12 + n) (12 + n + 32)) by lia.
  replace (12 + n + 32)%nat with (44 + n)%nat by lia.
  rewrite (slice_drop (44 + n) (48 + n)) by lia.
  rewrite (drop_ge data (48 + n)) by lia. by rewrite app_nil_r.
Qed.

Lemma load_verified_envelope payload :
  (N.of_nat (length payload) ≤ u64_MAX)%N →
  load_verified (envelope payload) =
    map_err SnapshotIntegrityError.SerializationFailed (snapshot_from_slice payload).
Proof.
  intros Hn. destruct (envelope_parts payload) as (H1 & H2 & H3 & H4 & H5).
  unfold load_verified. rewrite length_envelope.
  replace (48 + length payload - 4 - 8 - 32 - 4)%nat with (length payload) by lia.
  replace (48 + length payload - 4)%nat with (44 + length payload)%nat by lia.
  rewrite H1, H2, H3, H4, H5, le_val_bytes, N.mod_small
    by (change (256 ^ N.of_nat 8)%N with (u64_MAX + 1)%N; lia).
  rewrite decide_False by (unfold MIN_SIZE; lia).
  rewrite !decide_False by (intros H; by apply H).
  unfold verify_checksum. by rewrite decide_True.
Qed.

Lemma load_verified_ok data s :
  load_verified data = Ok s →
  ∃ payload, data = envelope payload ∧ (N.of_nat (length payload) ≤ u64_MAX)%N ∧
    snapshot_from_slice payload = Ok s.
Proof.
  unfold load_verified. case_decide as HL; [done|]. unfold MIN_SIZE in HL.
  case_decide as H1; [done|]. case_decide as H2; [done|]. case_decide as H3; [done|].
  unfold verify_checksum. case_decide as H4; [|done]. intros H.
  set (n := (length data - 4 - 8 - 32 - 4)%nat) in *.
  assert (length data = 48 + n)%nat as HL' by lia.
  set (payload := slice 12 (12 + n) data) in *. exists payload.
  assert (length payload = n) as Hp.
  { unfold payload, slice. rewrite length_take, length_drop. lia. }
  assert (length (slice 4 12 data) = 8%nat) as H8.
  { unfold slice. rewrite length_take, length_drop. lia. }
  pose proof (le_val_bound (slice 4 12 data)) as Hb. rewrite H8 in Hb.
  change (256 ^ N.of_nat 8)%N with (u64_MAX + 1)%N in Hb.
  split_and!; [|rewrite Hp; lia|by destruct (snapshot_from_slice payload); simplify_eq/=].
  rewrite (data_parts data n HL'). unfold envelope. fold payload.
  pose proof (le_bytes_val (slice 4 12 data)) as Hle. rewrite H8, H3 in Hle.
  rewrite H1, <-H4, Hp, Hle. rewrite HL' in H2. replace (48 + n - 4)%nat with (44 + n)%nat in H2 by lia.
  by rewrite H2.
Qed.
End VerifierFacts.

(** [load_verified] accepts exactly the envelopes that [save_verified] can
    write: magic, the payload's length on 8 little-endian bytes, a payload that
    decodes to the snapshot, its BLAKE3 hash and the trailer, with no byte
    missing, added or changed. *)
Theorem load_verified_accepts_iff {B3 : Blake3} {SS : SnapshotSerde} data s :
  SnapshotVerifier.load_verified data = Ok s ↔
    ∃ payload, data = SnapshotVerifier.envelope payload ∧
      (N.of_nat (length payload) ≤ u64_MAX)%N ∧ snapshot_from_slice payload = Ok s.
Proof.
  split; [apply load_verified_ok|]. intros (payload & -> & Hn & Hs).
  by rewrite load_verified_envelope, Hs.
Qed.

(** ** Loading JSON snapshots, with the legacy [tasks] layout *)

(** [serde_json::from_str] at [Value] and at [ExecutorSnapshot]. *)
Class SnapshotText `{!Json} := {
  value_from_str : string → result json string;
  snapshot_from_str : string → result ExecutorSnapshot string;
}.

Section Legacy.
Context {J : Json} {ST : SnapshotText}.

Definition legacy_plan_id (task : json) : string :=
  let plan := match json_get "plan" task with
              | Some plan => Some plan
              | None => json_get "plan_id" task
              end in
  default EmptyString (plan ≫= json_as_str).

Definition legacy_status (task : json) : string :=
  default EmptyString
    (str_to_ascii_lowercase <$> (json_get "status" task ≫= json_as_str)).

Definition legacy_is_done (status : string) : bool :=
  bool_decide (status ∈ ["done"; "complete"; "completed"]).

(** The state of the loop over the tasks: [seen], [queue_order] and
    [plan_progress] (total, done, has_active). *)
Definition legacy_step (acc : gset string * list string * gmap string (nat * nat * bool))
    (task : json) : gset string * list string * gmap string (nat * nat * bool) :=
  let '(seen, queue_order, plan_progress) := acc in
  let plan_id := legacy_plan_id task in
  if str_is_empty plan_id then acc
  else
    let queue_order :=
      if decide (plan_id ∈ seen) then queue_order else queue_order ++ [plan_id] in
    let seen := {[plan_id]} ∪ seen in
    let '(total, done, has_active) :=
      default (0%nat, 0%nat, false) (plan_progress !! plan_id) in
    let entry :=
      if legacy_is_done (legacy_status task) then (S total, S done, has_active)
      else (S total, done, true) in
    (seen, queue_order, <[plan_id := entry]> plan_progress).

Definition legacy_plan_state (plan_id : string) (progress : nat * nat * bool) : PlanState :=
  let '(total, done, has_active) := progress in
  let plan_state := PlanState.new plan_id in
  if (0 <? total)%nat && (done =? total)%nat then
    PlanState.set_current_phase PlanPhase.Complete plan_state
  else if (0 <? done)%nat || has_active then
    PlanState.set_current_phase PlanPhase.Implementing plan_state
  else plan_state.

Definition from_legacy_value (value : json) : result ExecutorSnapshot string :=
  match json_get "tasks" value ≫= json_as_array with
  | None => Err "missing plan_states or tasks"
  | Some tasks =>
      let timestamp_ms := default 0%N (json_get "timestamp_ms" value ≫= json_as_u64) in
      let '(_, queue_order, plan_progress) := foldl legacy_step (∅, [], ∅) tasks in
      let plan_states := map_imap (λ id p, Some (legacy_plan_state id p)) plan_progress in
      let queue_order :=
        match json_get "queue_order" value ≫= json_as_array with
        | Some order =>
            match omap json_as_str order with
            | [] => queue_order
            | legacy_order => legacy_order
            end
        | None => queue_order
        end in
      Ok {| ExecutorSnapshot.schema_version := current_schema_version;
            ExecutorSnapshot.plan_states := plan_states;
            ExecutorSnapshot.queue_order := queue_order;
            ExecutorSnapshot.conductor_circuit_breaker := None;
            ExecutorSnapshot.speculative_executions := ∅;
            ExecutorSnapshot.timestamp_ms := timestamp_ms |}
  end.

Definition from_legacy_json (text : string) : result ExecutorSnapshot string :=
  let? value := value_from_str text in
  from_legacy_value value.

Definition from_json (text : string) : result ExecutorSnapshot string :=
  let primary :=
    match snapshot_from_str text with
    | Ok snapshot => Ok snapshot
    | Err primary =>
        match from_legacy_json text with
        | Ok snapshot => Ok snapshot
        | Err _ => Err primary
        end
    end in
  match value_from_str text with
  | Ok value =>
      if bool_decide (is_Some (json_get "tasks" value)) &&
         bool_decide (json_get "plan_states" value = None)
      then from_legacy_json text
      else primary
  | Err _ => primary
  end.

(** The tasks of one plan. *)
Definition legacy_tasks_of (id : string) (tasks : list json) : list json :=
  List.filter (λ t, bool_decide (legacy_plan_id t = id)) tasks.
Definition legacy_task_done (t : json) : bool := legacy_is_done (legacy_status t).

(** What the loop has computed for the tasks read so far. *)
Definition legacy_progress (id : string) (tasks : list json) : option (nat * nat * bool) :=
  let ts := legacy_tasks_of id tasks in
  if str_is_empty id then None
  else match ts with
       | [] => None
       | _ => Some (length ts, length (List.filter legacy_task_done ts),
                    existsb (λ t, negb (legacy_task_done t)) ts)
       end.

Lemma legacy_tasks_of_snoc id tasks t :
  legacy_tasks_of id (tasks ++ [t]) =
  legacy_tasks_of id tasks ++ (if decide (legacy_plan_id t = id) then [t] else []).
Proof.
  unfold legacy_tasks_of. rewrite List.filter_app. simpl.
  by case_decide; [rewrite bool_decide_eq_true_2|rewrite bool_decide_eq_false_2].
Qed.

Lemma legacy_progress_snoc id tasks t :
  legacy_progress id (tasks ++ [t]) =
  if decide (legacy_plan_id t = id ∧ id ≠ EmptyString) then
    let '(total, done, has_active) :=
      default (0%nat, 0%nat, false) (legacy_progress id tasks) in
    Some (if legacy_task_done t then (S total, S done, has_active)
          else (S total, done, true))
  else legacy_progress id tasks.
Proof.
  unfold legacy_progress. rewrite legacy_tasks_of_snoc.
  destruct id as [|a id]; [simpl; by rewrite decide_False by naive_solver|]. simpl.
  destruct (decide (legacy_plan_id t = String a id)).
  - rewrite decide_True by done.
    destruct (legacy_tasks_of (String a id) tasks) as [|t' ts]; simpl;
      [by destruct (legacy_task_done t)|].
    rewrite List.filter_app, existsb_app, !length_app. simpl.
    destruct (legacy_task_done t), (legacy_task_done t'); simpl;
      rewrite ?length_app, ?orb_false_r, ?orb_true_r; simpl; repeat f_equal; lia.
  - rewrite decide_False by naive_solver. by rewrite app_nil_r.
Qed.

(** The plan ids of the tasks that have one. *)
Definition legacy_ids (tasks : list json) : list string :=
  List.filter (λ s, negb (str_is_empty s)) (legacy_plan_id <$> tasks).

Lemma legacy_ids_snoc tasks t :
  legacy_ids (tasks ++ [t]) =
  legacy_ids tasks ++ (if str_is_empty (legacy_plan_id t) then [] else [legacy_plan_id t]).
Proof.
  unfold legacy_ids. rewrite fmap_app, List.filter_app. simpl.
  by destruct (str_is_empty (legacy_plan_id t)).
Qed.

Lemma legacy_loop_spec tasks :
  ∃ seen progress,
    foldl legacy_step (∅, [], ∅) tasks = (seen, dedup_first (legacy_ids tasks), progress) ∧
    (∀ id, id ∈ seen ↔ id ∈ legacy_ids tasks) ∧
    (∀ id, progress !! id = legacy_progress id tasks).
Proof.
  induction tasks as [|t tasks (seen & progress & IH & Hs & Hp)] using rev_ind.
  { exists ∅, ∅. split_and!; [done|set_solver|]. intros id. rewrite lookup_empty.
    unfold legacy_progress. by destruct (str_is_empty id). }
  rewrite foldl_app, IH. cbn [foldl legacy_step].
  pose proof (legacy_ids_snoc tasks t) as Hids.
  destruct (str_is_empty (legacy_plan_id t)) eqn:Ee.
  - rewrite Hids, app_nil_r. exists seen, progress. split_and!; [done..|].
    intros id. rewrite legacy_progress_snoc, decide_False; [done|].
    intros [<- Hne]. by destruct (legacy_plan_id t).
  - assert (legacy_plan_id t ≠ EmptyString) as Hne by (by intros E; rewrite E in Ee).
    pose proof (legacy_progress_snoc (legacy_plan_id t) tasks t) as Hsn.
    rewrite decide_True in Hsn by done. rewrite <-Hp in Hsn.
    destruct (default _ (progress !! legacy_plan_id t)) as [[total done] act] eqn:Ed.
    eexists _, _. rewrite Hids. split_and!.
    + rewrite dedup_first_snoc. unfold push_unique.
      assert (legacy_plan_id t ∈ seen ↔ legacy_plan_id t ∈ dedup_first (legacy_ids tasks))
        as Hiff by (by rewrite Hs, elem_of_dedup_first).
      by repeat case_decide; try tauto.
    + set_solver.
    + intros id. destruct (decide (id = legacy_plan_id t)) as [->|Hid].
      * by rewrite lookup_insert_eq, Hsn.
      * rewrite lookup_insert_ne by done. rewrite legacy_progress_snoc, decide_False; [done|].
        by intros [? _].
Qed.

Lemma legacy_progress_some id tasks :
  id ∈ legacy_ids tasks ↔ is_Some (legacy_progress id tasks).
Proof.
  unfold legacy_ids. rewrite list_elem_of_In, filter_In, <-list_elem_of_In,
    list_elem_of_fmap. unfold legacy_progress.
  destruct (str_is_empty id); simpl; [split; [by intros [_ ?]|by intros [? ?]]|].
  transitivity (∃ t, t ∈ legacy_tasks_of id tasks).
  - unfold legacy_tasks_of. setoid_rewrite list_elem_of_In. setoid_rewrite filter_In.
    setoid_rewrite bool_decide_eq_true. setoid_rewrite <-list_elem_of_In. naive_solver.
  - destruct (legacy_tasks_of id tasks) as [|t ts]; split.
    + intros [t Ht]. by apply not_elem_of_nil in Ht.
    + by intros [? ?].
    + eauto.
    + intros _. exists t. apply list_elem_of_here.
Qed.

Lemma legacy_progress_phase id tasks p :
  legacy_progress id tasks = Some p →
  legacy_plan_state id p =
    PlanState.set_current_phase
      (if forallb legacy_task_done (legacy_tasks_of id tasks)
       then PlanPhase.Complete else PlanPhase.Implementing) (PlanState.new id).
Proof.
  unfold legacy_progress. destruct (str_is_empty id); [done|].
  assert (∀ ts, length (List.filter legacy_task_done ts) ≤ length ts)%nat as Hle.
  { induction ts as [|x ts IH]; simpl; [done|].
    destruct (legacy_task_done x); simpl; lia. }
  assert (∀ ts, forallb legacy_task_done ts =
                (length (List.filter legacy_task_done ts) =? length ts)%nat ∧
                existsb (λ t, negb (legacy_task_done t)) ts =
                negb (forallb legacy_task_done ts)) as Hall.
  { induction ts as [|x ts [IH1 IH2]]; [done|]. simpl. rewrite IH2.
    pose proof (Hle ts). destruct (legacy_task_done x); simpl; [split; [lia|done]|].
    split; [|done]. symmetry. apply Nat.eqb_neq. lia. }
  intros H. destruct (Hall (legacy_tasks_of id tasks)) as [H1 H2].
  destruct (legacy_tasks_of id tasks) as [|x ts] eqn:E; [done|]. simplify_eq.
  cbn [legacy_plan_state]. rewrite H2, <-H1.
  change (0 <? length (x :: ts))%nat with true. rewrite andb_true_l.
  destruct (forallb legacy_task_done (x :: ts)); [done|]. by rewrite orb_true_r.
Qed.
End Legacy.

(** migrating a legacy [tasks] snapshot recovers exactly the plans its
    tasks name, each once in the queue in order of first appearance unless the
    file gives an order, complete when all its tasks are done and implementing
    otherwise. *)
Theorem from_legacy_value_spec {J : Json} value tasks s :
  (json_get "tasks" value ≫= json_as_array) = Some tasks →
  from_legacy_value value = Ok s →
  (∀ id, ExecutorSnapshot.plan_states s !! id =
     if decide (id ∈ legacy_ids tasks)
     then Some (PlanState.set_current_phase
                  (if forallb legacy_task_done (legacy_tasks_of id tasks)
                   then PlanPhase.Complete else PlanPhase.Implementing) (PlanState.new id))
     else None) ∧
  (json_get "queue_order" value = None →
   ExecutorSnapshot.queue_order s = dedup_first (legacy_ids tasks)).
Proof.
  intros Ht. unfold from_legacy_value. rewrite Ht.
  destruct (legacy_loop_spec tasks) as (seen & progress & -> & Hseen & Hp).
  intros [= <-]; simpl. split.
  - intros id. rewrite map_lookup_imap, Hp.
    pose proof (legacy_progress_some id tasks) as Hd.
    destruct (legacy_progress id tasks) as [p|] eqn:E; simpl.
    + rewrite decide_True by (apply Hd; eauto). f_equal. by apply legacy_progress_phase.
    + rewrite decide_False; [done|]. rewrite Hd. by intros [? ?].
  - intros ->. done.
Qed.

Lemma from_legacy_value_spec_witness :
  let value := JObj [("tasks", JArr
    [JObj [("plan", JStr "b"); ("status", JStr "Done")];
     JObj [("plan_id", JStr "a"); ("status", JStr "active")];
     JObj [("plan", JStr "b"); ("status", JStr "completed")]])] in
  match @from_legacy_value simple_Json value with
  | Ok s => ExecutorSnapshot.queue_order s = ["b"; "a"] ∧
            PlanState.current_phase <$> (ExecutorSnapshot.plan_states s !! "b") =
              Some PlanPhase.Complete
  | Err _ => False
  end.
Proof.
  intros value. destruct (@from_legacy_value simple_Json value) as [s|] eqn:E; [|done].
  destruct (@from_legacy_value_spec simple_Json value
    [JObj [("plan", JStr "b"); ("status", JStr "Done")];
     JObj [("plan_id", JStr "a"); ("status", JStr "active")];
     JObj [("plan", JStr "b"); ("status", JStr "completed")]] s) as [H1 H2]; [done..|].
  split; [by rewrite H2|]. by rewrite H1.
Defined.
