(* ===== verification/SnapshotDelta.v ===== *)
(** * Snapshot deltas (crates/roko-orchestrator/src/executor/snapshot.rs)

    Incremental snapshots: what changed since a base, with the hashes of both ends, and its
    application to the base; and the canonical form of JSON values the hashes are taken of.

    serde_json is third-party: the code matches on the six constructors of its [Value], which
    are those of the inductive type here; numbers, the conversion of plan states and
    snapshots to values and back, and the printing of a value are parameters. *)

From Stdlib Require Import Strings.Byte Sorting.Sorted.
From S2P Require Import Prelude PlanState Bytes Snapshot.

(** ** JSON values *)

Module Value.
Inductive t (Num : Type) : Type :=
  | Null
  | Bool (b : bool)
  | Number (n : Num)
  | String (s : string)
  | Array (values : list (t Num))
  | Object (map : list (string * t Num)).
Arguments Null {Num}.
Arguments Bool {Num} _.
Arguments Number {Num} _.
Arguments String {Num} _.
Arguments Array {Num} _.
Arguments Object {Num} _.

Section Induction.
Context {Num : Type} (P : t Num → Prop).
Hypothesis H_null : P Null.
Hypothesis H_bool : ∀ b, P (Bool b).
Hypothesis H_number : ∀ n, P (Number n).
Hypothesis H_string : ∀ s, P (String s).
Hypothesis H_array : ∀ l, Forall P l → P (Array l).
Hypothesis H_object : ∀ m, Forall (λ kv, P kv.2) m → P (Object m).

Fixpoint value_ind (v : t Num) : P v :=
  match v with
  | Null => H_null
  | Bool b => H_bool b
  | Number n => H_number n
  | String s => H_string s
  | Array l =>
      H_array l ((fix go l : Forall P l :=
                  match l with
                  | [] => Forall_nil_2 _
                  | x :: l => Forall_cons_2 _ _ _ (value_ind x) (go l)
                  end) l)
  | Object m =>
      H_object m ((fix go m : Forall (λ kv, P kv.2) m :=
                   match m with
                   | [] => Forall_nil_2 _
                   | kv :: m => Forall_cons_2 _ _ _ (value_ind kv.2) (go m)
                   end) m)
  end.
End Induction.

(** Equality of values; objects entry by entry. *)
Fixpoint beq {Num} `{EqDecision Num} (v v' : t Num) : bool :=
  match v, v' with
  | Null, Null => true
  | Bool b, Bool b' => Bool.eqb b b'
  | Number n, Number n' => bool_decide (n = n')
  | String s, String s' => bool_decide (s = s')
  | Array l, Array l' =>
      (fix go l l' := match l, l' with
                      | [], [] => true
                      | x :: l, x' :: l' => beq x x' && go l l'
                      | _, _ => false
                      end) l l'
  | Object m, Object m' =>
      (fix go m m' := match m, m' with
                      | [], [] => true
                      | x :: m, x' :: m' =>
                          bool_decide (x.1 = x'.1) && beq x.2 x'.2 && go m m'
                      | _, _ => false
                      end) m m'
  | _, _ => false
  end.

(** [map.get(key)] of an object's map. *)
Definition map_get {Num} (key : string) (m : list (string * t Num)) : option (t Num) :=
  snd <$> List.find (λ kv, string_eqb kv.1 key) m.

Definition as_object {Num} (v : t Num) : option (list (string * t Num)) :=
  match v with Object m => Some m | _ => None end.
End Value.
Abbreviation Value := Value.t.

(** [collect::<BTreeMap<_, _>>()]: a later entry replaces an earlier one. *)
Definition btree_collect {V} (entries : list (string * V)) : gmap string V :=
  list_to_map (reverse entries).

(** Keys in alphabetical order, at every depth. *)
Fixpoint sort_json_objects {Num} (value : Value Num) : Value Num :=
  match value with
  | Value.Object map =>
      let sorted :=
        btree_collect (List.map (λ kv, (kv.1, sort_json_objects kv.2)) map) in
      Value.Object (btree_iter sorted)
  | Value.Array values => Value.Array (List.map sort_json_objects values)
  | v => v
  end.

(** ** The parameters *)

Class DeltaSerde (Num : Type) := {
  snapshot_to_value : ExecutorSnapshot → result (Value Num) string;
  plan_state_to_value : PlanState → result (Value Num) string;
  plan_state_from_value : Value Num → result PlanState string;
  strings_to_value : list string → result (Value Num) string;
  strings_from_value : Value Num → result (list string) string;
  value_to_vec : Value Num → result bytes string;
  number_of_u64 : N → Num;
  number_as_u64 : Num → option N;
}.

(** [value.as_u64()] *)
Definition value_as_u64 `{DeltaSerde Num} (v : Value Num) : option N :=
  match v with Value.Number n => number_as_u64 n | _ => None end.

(** ** Deltas *)

Module DeltaSnapshot.
Record t (Num : Type) : Type := mk {
  base_hash : bytes;
  expected_hash : bytes;
  changed : Value Num;
  removed_plan_ids : list string;
  added_plan_ids : list string;
  sequence : N;
}.
Arguments mk {Num} _ _ _ _ _ _.
Arguments base_hash {Num} _.
Arguments expected_hash {Num} _.
Arguments changed {Num} _.
Arguments removed_plan_ids {Num} _.
Arguments added_plan_ids {Num} _.
Arguments sequence {Num} _.
End DeltaSnapshot.
Abbreviation DeltaSnapshot := DeltaSnapshot.t.

Section Delta.
Context {Num : Type} `{!EqDecision Num} {HI : HashIter} {B3 : Blake3} {DS : DeltaSerde Num}.
Implicit Types (s base current : ExecutorSnapshot).

Definition canonical s : result bytes string :=
  let? value := snapshot_to_value s in
  value_to_vec (sort_json_objects value).

Definition compute_hash s : result bytes string :=
  let? canonical := canonical s in
  Ok (SnapshotVerifier.compute_hash canonical).

(** [a == b] of values: objects are compared as maps. *)
Definition value_eqb (a b : Value Num) : bool :=
  Value.beq (sort_json_objects a) (sort_json_objects b).

Definition same_as_base base (id : string) (state : PlanState) : bool :=
  match ExecutorSnapshot.plan_states base !! id with
  | Some base_state =>
      match plan_state_to_value base_state, plan_state_to_value state with
      | Ok a, Ok b => value_eqb a b
      | _, _ => false
      end
  | None => false
  end.

(** The loop over the plan states. *)
Fixpoint changed_plans base (states : list (string * PlanState)) :
    result (list (string * Value Num)) string :=
  match states with
  | [] => Ok []
  | (id, state) :: rest =>
      if same_as_base base id state then changed_plans base rest
      else
        match plan_state_to_value state with
        | Err err => Err err
        | Ok value => let? l := changed_plans base rest in Ok ((id, value) :: l)
        end
  end.

Definition build_delta_changed current base : result (Value Num) string :=
  let? changed_plans := changed_plans base (hash_iter (ExecutorSnapshot.plan_states current)) in
  let changed :=
    match changed_plans with
    | [] => []
    | _ => [("plan_states", Value.Object changed_plans)]
    end in
  let? queue :=
    (if decide (ExecutorSnapshot.queue_order current = ExecutorSnapshot.queue_order base)
     then Ok []
     else let? v := strings_to_value (ExecutorSnapshot.queue_order current) in
          Ok [("queue_order", v)]) in
  let timestamp :=
    if (ExecutorSnapshot.timestamp_ms current =? ExecutorSnapshot.timestamp_ms base)%N then []
    else [("timestamp_ms",
           Value.Number (number_of_u64 (ExecutorSnapshot.timestamp_ms current)))] in
  let schema :=
    if (ExecutorSnapshot.schema_version current =? ExecutorSnapshot.schema_version base)%N then []
    else [("schema_version",
           Value.Number (number_of_u64 (ExecutorSnapshot.schema_version current)))] in
  Ok (Value.Object (changed ++ queue ++ timestamp ++ schema)).

(** The keys of [a] that [b] does not have. *)
Definition keys_not_in (a b : gmap string PlanState) : list string :=
  List.filter (λ id, bool_decide (b !! id = None)) (hash_keys a).

Definition delta_from current base : result (DeltaSnapshot Num) string :=
  let? base_hash := compute_hash base in
  let? expected_hash := compute_hash current in
  let states := ExecutorSnapshot.plan_states current in
  let base_states := ExecutorSnapshot.plan_states base in
  let? changed := build_delta_changed current base in
  Ok (DeltaSnapshot.mk base_hash expected_hash changed
        (sort_strings (keys_not_in base_states states))
        (sort_strings (keys_not_in states base_states)) 0).

Definition serialization_failed {T} (r : result T string) : result T SnapshotIntegrityError :=
  map_err SnapshotIntegrityError.SerializationFailed r.

(** The loop over the changed plan states. *)
Fixpoint insert_states (entries : list (string * Value Num)) (m : gmap string PlanState) :
    result (gmap string PlanState) SnapshotIntegrityError :=
  match entries with
  | [] => Ok m
  | (id, value) :: rest =>
      let? state := serialization_failed (plan_state_from_value value) in
      insert_states rest (<[id := state]> m)
  end.

Definition apply_changed_fields (obj : list (string * Value Num)) (s : ExecutorSnapshot) :
    result ExecutorSnapshot SnapshotIntegrityError :=
  let? plan_states :=
    match Value.map_get "plan_states" obj with
    | Some (Value.Object plan_states) =>
        insert_states plan_states (ExecutorSnapshot.plan_states s)
    | _ => Ok (ExecutorSnapshot.plan_states s)
    end in
  let? queue_order :=
    match Value.map_get "queue_order" obj with
    | Some queue_order => serialization_failed (strings_from_value queue_order)
    | None => Ok (ExecutorSnapshot.queue_order s)
    end in
  let timestamp_ms :=
    default (ExecutorSnapshot.timestamp_ms s)
      (Value.map_get "timestamp_ms" obj ≫= value_as_u64) in
  let schema_version :=
    match Value.map_get "schema_version" obj ≫= value_as_u64 with
    | Some sv => (sv mod 4294967296)%N
    | None => ExecutorSnapshot.schema_version s
    end in
  Ok (ExecutorSnapshot.mk schema_version plan_states queue_order
        (ExecutorSnapshot.conductor_circuit_breaker s)
        (ExecutorSnapshot.speculative_executions s) timestamp_ms).

Definition remove_plans (ids : list string) (s : ExecutorSnapshot) : ExecutorSnapshot :=
  ExecutorSnapshot.mk (ExecutorSnapshot.schema_version s)
    (foldl (λ m id, delete id m) (ExecutorSnapshot.plan_states s) ids)
    (ExecutorSnapshot.queue_order s) (ExecutorSnapshot.conductor_circuit_breaker s)
    (ExecutorSnapshot.speculative_executions s) (ExecutorSnapshot.timestamp_ms s).

Definition apply_delta base (delta : DeltaSnapshot Num) :
    result ExecutorSnapshot SnapshotIntegrityError :=
  let? our_hash := serialization_failed (compute_hash base) in
  if decide (our_hash ≠ DeltaSnapshot.base_hash delta) then
    Err (SnapshotIntegrityError.BaseHashMismatch (DeltaSnapshot.base_hash delta) our_hash)
  else
    let s := remove_plans (DeltaSnapshot.removed_plan_ids delta) base in
    let? result :=
      match Value.as_object (DeltaSnapshot.changed delta) with
      | Some obj => apply_changed_fields obj s
      | None => Ok s
      end in
    let? result_hash := serialization_failed (compute_hash result) in
    if decide (result_hash ≠ DeltaSnapshot.expected_hash delta) then
      Err (SnapshotIntegrityError.ResultHashMismatch (DeltaSnapshot.expected_hash delta)
             result_hash)
    else Ok result.
End Delta.

(** ** Canonical values *)

Section Canonical.
Context {Num : Type}.
Implicit Types (v : Value Num).

(** Keys of an object are unique, at every depth. *)
Inductive json_wf : Value Num → Prop :=
  | wf_null : json_wf Value.Null
  | wf_bool b : json_wf (Value.Bool b)
  | wf_number n : json_wf (Value.Number n)
  | wf_string s : json_wf (Value.String s)
  | wf_array l : Forall json_wf l → json_wf (Value.Array l)
  | wf_object m : NoDup m.*1 → Forall (λ kv, json_wf kv.2) m → json_wf (Value.Object m).

(** The same value but for the order of the entries of objects. *)
Inductive json_equiv : Value Num → Value Num → Prop :=
  | je_refl v : json_equiv v v
  | je_array l l' : Forall2 json_equiv l l' → json_equiv (Value.Array l) (Value.Array l')
  | je_object m m' m'' :
      m ≡ₚ m' → Forall2 (λ a b, a.1 = b.1 ∧ json_equiv a.2 b.2) m' m'' →
      json_equiv (Value.Object m) (Value.Object m'').

Lemma btree_collect_perm {V} (l l' : list (string * V)) :
  NoDup l.*1 → l ≡ₚ l' → btree_collect l = btree_collect l'.
Proof.
  intros Hnd Hp. apply list_to_map_proper; [|by rewrite !reverse_Permutation].
  by rewrite reverse_Permutation.
Qed.

(** Sorting gives one form to all orders of the entries. *)
Lemma sort_canonical v v' :
  json_wf v → json_equiv v v' → sort_json_objects v = sort_json_objects v'.
Proof.
  revert v'. induction v as [| | | |l IH|m IH] using Value.value_ind; intros v' Hwf He;
    inversion He as [|? l' Hl|? m' m'' Hp Hm]; subst; try done.
  - simpl. f_equal. inversion Hwf as [| | | |? Hw|]; subst. clear He Hwf.
    revert IH Hw. induction Hl as [|x y l l' Hxy _ IHl]; intros IH Hw; [done|].
    inversion IH; inversion Hw; subst. simpl. f_equal; [auto|by apply IHl].
  - simpl. f_equal. f_equal. inversion Hwf as [| | | | |? Hnd Hw]; subst.
    assert (∀ m, (List.map (λ kv : string * Value Num, (kv.1, sort_json_objects kv.2)) m).*1 = m.*1) as Hk
      by (intros l; induction l as [|x l IHl]; simpl; [done|f_equal; exact IHl]).
    transitivity (btree_collect (List.map (λ kv, (kv.1, sort_json_objects kv.2)) m')).
    { apply btree_collect_perm; [by rewrite Hk|]. by apply (Permutation_map _). }
    f_equal. rewrite Hp in IH, Hw. clear -IH Hw Hm.
    induction Hm as [|x y l l' [Hxy1 Hxy2] _ IHl]; [done|].
    inversion IH; inversion Hw; subst. simpl. f_equal; [|by apply IHl].
    f_equal; [done|]. auto.
Qed.

Lemma btree_iter_perm {V} (m : gmap string V) : btree_iter m ≡ₚ map_to_list m.
Proof.
  apply NoDup_Permutation.
  - apply (NoDup_fmap_1 fst). rewrite btree_iter_fst. apply NoDup_btree_keys.
  - apply NoDup_map_to_list.
  - intros [k v]. by rewrite elem_of_btree_iter, elem_of_map_to_list.
Qed.

(** Sorting changes only the order of entries. *)
Lemma sort_equiv v : json_wf v → json_equiv v (sort_json_objects v).
Proof.
  induction v as [| | | |l IH|m IH] using Value.value_ind; intros Hwf; try apply je_refl.
  - inversion Hwf as [| | | |? Hw|]; subst. simpl. apply je_array. clear Hwf.
    induction l as [|x l IHl]; [constructor|]. inversion IH; inversion Hw; subst.
    simpl. constructor; auto.
  - inversion Hwf as [| | | | |? Hnd Hw]; subst. simpl.
    set (f := λ kv : string * Value Num, (kv.1, sort_json_objects kv.2)).
    assert ((f <$> m).*1 = m.*1) as Hk by (rewrite <-list_fmap_compose; by apply list_fmap_ext).
    assert (btree_iter (btree_collect (f <$> m)) ≡ₚ f <$> m) as Hp.
    { rewrite btree_iter_perm. unfold btree_collect.
      rewrite map_to_list_to_map; [by rewrite reverse_Permutation|].
      by rewrite reverse_Permutation, Hk. }
    assert (Forall2 (λ b a, a.1 = b.1 ∧ json_equiv a.2 b.2) (f <$> m) m) as H2.
    { clear -IH Hw. induction m as [|[k x] m IHm]; [constructor|].
      inversion IH; inversion Hw; subst. simpl. constructor; [split; [done|]; simpl in *; auto|auto]. }
    symmetry in Hp. destruct (Permutation_Forall2 Hp H2) as (m' & Hm' & H3).
    apply (je_object m m'); [done|]. by apply Forall2_flip.
Qed.
End Canonical.

Lemma beq_eq {Num} `{EqDecision Num} (v v' : Value Num) : Value.beq v v' = true → v = v'.
Proof.
  revert v'. induction v as [|b|n|s|l IH|m IH] using Value.value_ind; intros [|b'|n'|s'|l'|m'];
    try discriminate; simpl.
  - done.
  - by intros ->%Bool.eqb_prop.
  - by intros ->%bool_decide_eq_true.
  - by intros ->%bool_decide_eq_true.
  - intros H. f_equal. revert l' H. induction IH as [|x l Hx _ IHl]; intros [|x' l'];
      try discriminate; [done|]. intros [H1 H2]%andb_true_iff. f_equal; auto.
  - intros H. f_equal. revert m' H. induction IH as [|[k x] l Hx _ IHl]; intros [|[k' x'] l'];
      try discriminate; [done|]. simpl in *.
    intros [[H0%bool_decide_eq_true H1]%andb_true_iff H2]%andb_true_iff.
    f_equal; [f_equal; auto|auto].
Qed.

(** ** Deltas reconstruct *)

(** What the code relies on of serde_json: values of plan states and of lists of strings
    convert back, whatever the order of the keys, and numbers of 64 bits are kept. *)
Record serde_laws {Num} (DS : DeltaSerde Num) : Prop := {
  sl_state s v : plan_state_to_value s = Ok v → plan_state_from_value v = Ok s;
  sl_order v v' : sort_json_objects v = sort_json_objects v' →
                  plan_state_from_value v = plan_state_from_value v';
  sl_strings l v : strings_to_value l = Ok v → strings_from_value v = Ok l;
  sl_number n : (n ≤ u64_MAX)%N → number_as_u64 (number_of_u64 n) = Some n;
}.

(** The fields at their width. *)
Definition widths_ok (s : ExecutorSnapshot) : Prop :=
  (ExecutorSnapshot.timestamp_ms s ≤ u64_MAX)%N ∧ (ExecutorSnapshot.schema_version s ≤ u32_MAX)%N.

Section Reconstruct.
Context {Num : Type} `{!EqDecision Num} {HI : HashIter} {B3 : Blake3} {DS : DeltaSerde Num}.
Implicit Types (base current : ExecutorSnapshot).
Abbreviation states := ExecutorSnapshot.plan_states.

Lemma same_as_base_eq (laws : serde_laws DS) base id state :
  same_as_base base id state = true → states base !! id = Some state.
Proof.
  unfold same_as_base. destruct (states base !! id) as [b|]; [|done].
  destruct (plan_state_to_value b) as [v|] eqn:E1, (plan_state_to_value state) as [v'|] eqn:E2;
    try done.
  intros H%beq_eq. apply (sl_order DS laws) in H.
  rewrite (sl_state DS laws _ _ E1), (sl_state DS laws _ _ E2) in H. congruence.
Qed.

(** Inserting the changed states gives every listed plan its state. *)
Lemma insert_changed (laws : serde_laws DS) base l entries (m : gmap string PlanState) :
  NoDup l.*1 → changed_plans base l = Ok entries →
  (∀ id st, (id, st) ∈ l → states base !! id = Some st → m !! id = Some st) →
  ∃ m', insert_states entries m = Ok m' ∧
        (∀ id st, (id, st) ∈ l → m' !! id = Some st) ∧ (∀ id, id ∉ l.*1 → m' !! id = m !! id).
Proof.
  revert entries m. induction l as [|[id st] l IH]; intros entries m Hnd Hch Hm; simpl in *.
  { injection Hch as <-. exists m. split_and!; [done| |done]. by intros ?? ?%not_elem_of_nil. }
  apply NoDup_cons in Hnd as [Hid Hnd].
  destruct (same_as_base base id st) eqn:Hsame.
  - destruct (IH entries m Hnd Hch) as (m' & H1 & H2 & H3); [intros; apply Hm; [by right|done]|].
    exists m'. split_and!; [done| |].
    + intros id' st' [[= -> ->]|Hin]%elem_of_cons; [|by apply H2].
      rewrite H3 by done. apply Hm; [by left|]. by apply same_as_base_eq.
    + intros id' [_ Hn]%not_elem_of_cons. by apply H3.
  - destruct (plan_state_to_value st) as [v|] eqn:Ev; [|done].
    destruct (changed_plans base l) as [entries'|]; [|done]. injection Hch as <-. simpl.
    rewrite (sl_state DS laws _ _ Ev). simpl.
    destruct (IH entries' (<[id := st]> m) Hnd eq_refl) as (m' & H1 & H2 & H3).
    { intros id' st' Hin Hb. rewrite lookup_insert_ne.
      - apply Hm; [by right|done].
      - intros <-. apply Hid. by apply (list_elem_of_fmap_2 fst) in Hin. }
    exists m'. split_and!; [done| |].
    + intros id' st' [[= -> ->]|Hin]%elem_of_cons; [|by apply H2].
      rewrite H3 by done. apply lookup_insert_eq.
    + intros id' [Hne Hn]%not_elem_of_cons. rewrite H3 by done. by apply lookup_insert_ne.
Qed.

Lemma foldl_delete (ids : list string) (m : gmap string PlanState) id :
  foldl (λ m id, delete id m) m ids !! id = if decide (id ∈ ids) then None else m !! id.
Proof.
  revert m. induction ids as [|i ids IH]; intros m; [done|]. simpl. rewrite IH.
  destruct (decide (id ∈ ids)); [by rewrite decide_True by (by right)|].
  destruct (decide (id = i)) as [->|].
  - rewrite decide_True by left. apply lookup_delete_eq.
  - rewrite decide_False by (by rewrite not_elem_of_cons). by apply lookup_delete_ne.
Qed.

(** After the removals, the plans in common are those of the base. *)
Lemma removed_lookup base current id :
  foldl (λ m id, delete id m) (states base)
    (sort_strings (keys_not_in (states base) (states current))) !! id =
  (if decide (states current !! id = None) then None else states base !! id).
Proof.
  rewrite foldl_delete. assert (id ∈ sort_strings (keys_not_in (states base) (states current)) ↔
    is_Some (states base !! id) ∧ states current !! id = None) as Hin.
  { unfold sort_strings. rewrite elem_of_sort_by. unfold keys_not_in.
    by rewrite elem_of_list_filter_bool, bool_decide_eq_true, elem_of_hash_keys. }
  destruct (decide (states current !! id = None)) as [Hn|Hn].
  - case_decide as Hd; [done|]. apply eq_None_not_Some. intros Hs. by apply Hd, Hin.
  - rewrite decide_False; [done|]. intros [_ ?]%Hin. done.
Qed.

Ltac eval_string_eqb :=
  repeat match goal with
  | |- context [string_eqb ?a ?b] =>
      let r := eval vm_compute in (string_eqb a b) in change (string_eqb a b) with r
  end.

(** Applying the changed fields restores all but the two fields that are not in a delta. *)
Lemma changed_fields_spec (laws : serde_laws DS) current base obj :
  widths_ok current → build_delta_changed current base = Ok (Value.Object obj) →
  apply_changed_fields obj
    (remove_plans (sort_strings (keys_not_in (states base) (states current))) base) =
  Ok (ExecutorSnapshot.mk (ExecutorSnapshot.schema_version current) (states current)
        (ExecutorSnapshot.queue_order current) (ExecutorSnapshot.conductor_circuit_breaker base)
        (ExecutorSnapshot.speculative_executions base) (ExecutorSnapshot.timestamp_ms current)).
Proof.
  intros [Hts Hsv]. unfold build_delta_changed.
  destruct (changed_plans base _) as [entries|] eqn:Hch; [|done].
  set (m := foldl (λ m id, delete id m) (states base)
    (sort_strings (keys_not_in (states base) (states current)))).
  assert (∃ m', insert_states entries m = Ok m' ∧ m' = states current) as (m' & Hins & ->).
  { destruct (insert_changed laws base (hash_iter (states current)) entries m) as (m' & H1 & H2 & H3);
      [apply NoDup_hash_keys|done| |].
    - intros id st Hin Hb. apply elem_of_hash_iter in Hin. unfold m. rewrite removed_lookup.
      rewrite decide_False by congruence. done.
    - exists m'. split; [done|]. apply map_eq. intros id.
      destruct (states current !! id) as [st|] eqn:Eid.
      + apply H2. by apply elem_of_hash_iter.
      + rewrite H3; [unfold m; rewrite removed_lookup; by rewrite decide_True|].
        intros Hin. apply (elem_of_hash_keys (states current)) in Hin. rewrite Eid in Hin. by destruct Hin. }
  destruct (decide (_ = ExecutorSnapshot.queue_order base)) as [Hq|Hq].
  2: destruct (strings_to_value (ExecutorSnapshot.queue_order current)) as [qv|] eqn:Eq; [|done];
     pose proof (sl_strings DS laws _ _ Eq) as Hqv.
  all: intros [= <-]; unfold apply_changed_fields, remove_plans; cbn [states].
  all: pose proof (sl_number DS laws _ Hts) as Hn1.
  all: assert (number_as_u64 (number_of_u64 (ExecutorSnapshot.schema_version current)) =
         Some (ExecutorSnapshot.schema_version current)) as Hn2
         by (apply (sl_number DS laws); unfold u64_MAX, u32_MAX in *; lia).
  all: destruct (N.eqb_spec (ExecutorSnapshot.timestamp_ms current) (ExecutorSnapshot.timestamp_ms base)) as [Et|Et],
         (N.eqb_spec (ExecutorSnapshot.schema_version current) (ExecutorSnapshot.schema_version base)) as [Es|Es];
       destruct entries as [|e entries]; cbn -[N.modulo insert_states];
       eval_string_eqb; cbn -[N.modulo insert_states];
       fold m; rewrite ?Hins, ?Hqv, ?Hn1, ?Hn2; cbn -[N.modulo insert_states];
       rewrite ?N.mod_small by (unfold u32_MAX in *; lia);
       try (injection Hins as <-); congruence.
Qed.

(** [current] with the two fields a delta does not carry, taken from [base]. *)
Definition carried current base : ExecutorSnapshot :=
  ExecutorSnapshot.mk (ExecutorSnapshot.schema_version current) (states current)
    (ExecutorSnapshot.queue_order current) (ExecutorSnapshot.conductor_circuit_breaker base)
    (ExecutorSnapshot.speculative_executions base) (ExecutorSnapshot.timestamp_ms current).

Lemma carried_id current base :
  ExecutorSnapshot.conductor_circuit_breaker current = ExecutorSnapshot.conductor_circuit_breaker base →
  ExecutorSnapshot.speculative_executions current = ExecutorSnapshot.speculative_executions base →
  carried current base = current.
Proof. destruct current, base. simpl. unfold carried. simpl. congruence. Qed.

Lemma apply_delta_eq (laws : serde_laws DS) current base delta :
  widths_ok current → delta_from current base = Ok delta →
  ∃ h, compute_hash current = Ok h ∧
  apply_delta base delta =
    (let? result_hash := serialization_failed (compute_hash (carried current base)) in
     if decide (result_hash ≠ h) then
       Err (SnapshotIntegrityError.ResultHashMismatch h result_hash)
     else Ok (carried current base)).
Proof.
  intros Hw. unfold delta_from.
  destruct (compute_hash base) as [bh|] eqn:Eb; [|done].
  destruct (compute_hash current) as [h|] eqn:Ec; [|done].
  destruct (build_delta_changed current base) as [changed|] eqn:Ech; [|done].
  intros [= <-]. exists h. split; [done|]. unfold apply_delta.
  rewrite Eb. cbn [serialization_failed map_err DeltaSnapshot.base_hash].
  rewrite decide_False by (intros []; done).
  assert (∃ obj, changed = Value.Object obj) as (obj & ->).
  { unfold build_delta_changed in Ech. destruct (changed_plans _ _); [|done].
    destruct (decide _); [injection Ech as <-; by eexists|].
    destruct (strings_to_value _); [|done]. injection Ech as <-. by eexists. }
  cbn [DeltaSnapshot.changed Value.as_object DeltaSnapshot.removed_plan_ids
       DeltaSnapshot.expected_hash].
  by rewrite (changed_fields_spec laws current base obj Hw Ech).
Qed.
End Reconstruct.

(** C28: Applying a delta to the snapshot it was taken from gives back the later snapshot, plan
    by plan, provided the circuit breaker and the speculative executions are the same in both;
    to any snapshot with another hash it is refused; and whatever it gives has the hash of the
    later snapshot, whose canonical bytes it therefore has unless BLAKE3 collides. *)
Theorem delta_reconstructs {Num} `{!EqDecision Num} {HI : HashIter} {B3 : Blake3}
    {DS : DeltaSerde Num} (base current : ExecutorSnapshot) (delta : DeltaSnapshot Num) :
  serde_laws DS → widths_ok current → delta_from current base = Ok delta →
  (ExecutorSnapshot.conductor_circuit_breaker current =
     ExecutorSnapshot.conductor_circuit_breaker base →
   ExecutorSnapshot.speculative_executions current = ExecutorSnapshot.speculative_executions base →
   apply_delta base delta = Ok current) ∧
  (∀ other h, compute_hash other = Ok h → h ≠ DeltaSnapshot.base_hash delta →
     apply_delta other delta =
     Err (SnapshotIntegrityError.BaseHashMismatch (DeltaSnapshot.base_hash delta) h)) ∧
  (∀ result, apply_delta base delta = Ok result →
     ∃ d d', canonical result = Ok d ∧ canonical current = Ok d' ∧ blake3 d = blake3 d').
Proof.
  intros laws Hw Hd. destruct (apply_delta_eq laws current base delta Hw Hd) as (h & Hh & Happ).
  split_and!.
  - intros Hb Hs. rewrite Happ, carried_id by done. rewrite Hh. simpl.
    by rewrite decide_False by (intros []; done).
  - intros other h' Hh' Hne. unfold apply_delta. rewrite Hh'. simpl. by rewrite decide_True.
  - intros result. rewrite Happ. destruct (compute_hash (carried current base)) as [h'|] eqn:E; [|done].
    simpl. destruct (decide (h' ≠ h)) as [|Heq%dec_stable]; [done|]. intros [= <-]. subst h'.
    unfold compute_hash in E, Hh. destruct (canonical (carried current base)) as [d|]; [|done].
    destruct (canonical current) as [d'|]; [|done]. exists d, d'. split_and!; [done|done|].
    unfold SnapshotVerifier.compute_hash in *. congruence.
Qed.

(** The canonical form does not depend on the order in which a hash map is iterated: two
    values that differ in the order of the entries of their objects have the same canonical
    form, so a snapshot has one hash. *)
Theorem canonical_form_unique {Num} (v v' : Value Num) :
  json_wf v → json_equiv v v' →
  sort_json_objects v = sort_json_objects v' ∧
  json_equiv v (sort_json_objects v) ∧
  sort_json_objects (sort_json_objects v) = sort_json_objects v.
Proof.
  intros Hwf He. split; [by apply sort_canonical|].
  assert (json_equiv v (sort_json_objects v)) as Hs by (by apply sort_equiv).
  split; [done|]. symmetry. by apply sort_canonical.
Qed.

(** *** What a delta forgets *)

(** When the circuit breaker or the speculative executions changed, the delta cannot be
    applied to its own base, unless BLAKE3 collides. *)
Lemma delta_forgets_speculation {Num} `{!EqDecision Num} {HI : HashIter} {B3 : Blake3}
    {DS : DeltaSerde Num} (base current : ExecutorSnapshot) (delta : DeltaSnapshot Num) result :
  serde_laws DS → widths_ok current → delta_from current base = Ok delta →
  (∀ s s' d, canonical s = Ok d → canonical s' = Ok d → s = s') →
  ExecutorSnapshot.conductor_circuit_breaker current ≠ ExecutorSnapshot.conductor_circuit_breaker base ∨
  ExecutorSnapshot.speculative_executions current ≠ ExecutorSnapshot.speculative_executions base →
  apply_delta base delta = Ok result → ∃ d d', d ≠ d' ∧ blake3 d = blake3 d'.
Proof.
  intros laws Hw Hd Hinj Hdiff Happ.
  destruct (apply_delta_eq laws current base delta Hw Hd) as (h & Hh & Heq). rewrite Heq in Happ.
  destruct (compute_hash (carried current base)) as [h'|] eqn:E; [|done]. simpl in Happ.
  destruct (decide (h' ≠ h)) as [|Hhh%dec_stable]; [done|]. subst h'.
  unfold compute_hash in E, Hh. destruct (canonical (carried current base)) as [d|] eqn:Ed; [|done].
  destruct (canonical current) as [d'|] eqn:Ed'; [|done]. exists d, d'.
  split; [|unfold SnapshotVerifier.compute_hash in *; congruence].
  intros ->. pose proof (Hinj _ _ _ Ed Ed') as Hc.
  pose proof (f_equal ExecutorSnapshot.conductor_circuit_breaker Hc) as H1.
  pose proof (f_equal ExecutorSnapshot.speculative_executions Hc) as H2. simpl in *.
  destruct Hdiff; congruence.
Qed.

(** ** Witnesses *)

Section Witness.
#[local] Existing Instance poly_blake3.

(** A serialisation of the states the sample needs. *)
#[local] Instance sample_serde : DeltaSerde N := {
  snapshot_to_value s := Ok (Value.Number (ExecutorSnapshot.timestamp_ms s));
  plan_state_to_value s :=
    if decide (s = PlanState.new (PlanState.plan_id s)) then Ok (Value.String (PlanState.plan_id s))
    else Err "not a new plan";
  plan_state_from_value v :=
    match v with Value.String id => Ok (PlanState.new id) | _ => Err "not a string" end;
  strings_to_value l := Ok (Value.Array (Value.String <$> l));
  strings_from_value v :=
    match v with
    | Value.Array l => Ok (omap (λ x, match x with Value.String s => Some s | _ => None end) l)
    | _ => Err "not an array"
    end;
  value_to_vec v := match v with Value.Number n => Ok (le_bytes 8 n) | _ => Err "not a number" end;
  number_of_u64 n := n;
  number_as_u64 n := Some n;
}.

Lemma sample_serde_laws : serde_laws sample_serde.
Proof.
  split; simpl.
  - intros s v. case_decide as Hs; [|done]. intros [= <-]. by rewrite <-Hs.
  - by intros [] []; try done; intros [= ->].
  - intros l v [= <-]. f_equal. induction l as [|s l IH]; [done|]. simpl. f_equal. exact IH.
  - done.
Qed.

Definition sample_base : ExecutorSnapshot :=
  ExecutorSnapshot.mk 1 (<["a" := PlanState.new "a"]> (<["b" := PlanState.new "b"]> ∅)) ["a"; "b"] None ∅ 1000.
Definition sample_current : ExecutorSnapshot :=
  ExecutorSnapshot.mk 1 (<["b" := PlanState.new "b"]> (<["c" := PlanState.new "c"]> ∅)) ["c"; "b"] None ∅ 2000.

Lemma delta_reconstructs_witness :
  match delta_from sample_current sample_base with
  | Ok delta => DeltaSnapshot.removed_plan_ids delta = ["a"] ∧
                apply_delta sample_base delta = Ok sample_current
  | Err _ => False
  end.
Proof.
  destruct (delta_from sample_current sample_base) as [delta|e] eqn:E;
    [|vm_compute in E; discriminate E].
  assert (delta = match delta_from sample_current sample_base with
                  | Ok d => d | _ => delta end) as Hd by (by rewrite E).
  split; [rewrite Hd; vm_compute; reflexivity|].
  refine (proj1 (delta_reconstructs sample_base sample_current delta sample_serde_laws _ E) _ _);
    [split; apply (bool_decide_unpack _); vm_compute; exact I|reflexivity|reflexivity].
Defined.

Lemma canonical_form_unique_witness :
  let v := Value.Object [("b", Value.Number 1%N); ("a", Value.Bool true)] in
  let v' := Value.Object [("a", Value.Bool true); ("b", Value.Number 1%N)] in
  sort_json_objects v = v' ∧ sort_json_objects v = sort_json_objects v'.
Proof.
  cbv zeta. split; [vm_compute; reflexivity|]. apply canonical_form_unique.
  - constructor; [apply (bool_decide_unpack _); vm_compute; exact I|].
    repeat constructor.
  - apply (je_object _ [("a", Value.Bool true); ("b", Value.Number 1%N)]); [constructor|].
    repeat (constructor; [split; [reflexivity|apply je_refl]|]). constructor.
Defined.
End Witness.
