(* ===== verification/Recovery.v ===== *)
(** * Crash recovery (crates/roko-orchestrator/src/executor/recovery.rs)

    Reconstruction of the orchestrator's state from a snapshot and from the event
    log, the merge of the two, the consistency checks, and the plan that says
    what to resume. *)

From S2P Require Import Prelude Phase PlanState Bytes EventLog Snapshot.

(** ** Errors and warnings *)

Module RecoveryError.
Inductive t : Type :=
  | CorruptedSnapshot (msg : string)
  | InvalidEventSequence (msg : string)
  | MissingPlanState (msg : string).

#[global] Instance t_eq_dec : EqDecision t.
Proof. solve_decision. Defined.

Definition display (e : t) : string :=
  match e with
  | CorruptedSnapshot msg => "corrupted snapshot: " +:+ msg
  | InvalidEventSequence msg => "invalid event sequence: " +:+ msg
  | MissingPlanState msg => "missing plan state: " +:+ msg
  end.
End RecoveryError.
Abbreviation RecoveryError := RecoveryError.t.

Module WarningSeverity.
Inductive t : Type := Info | Warning | Critical.

#[global] Instance t_eq_dec : EqDecision t.
Proof. solve_decision. Defined.
End WarningSeverity.

Module RecoveryWarning.
Record t : Type := mk {
  plan_id : string;
  message : string;
  severity : WarningSeverity.t;
}.

#[global] Instance t_eq_dec : EqDecision t.
Proof. solve_decision. Defined.
End RecoveryWarning.
Abbreviation RecoveryWarning := RecoveryWarning.t.

(** ** Recovered state *)

Module PlanPhaseInfo.
Record t : Type := mk {
  plan_id : string;
  phase : PlanPhase;
  iteration : N;
  last_gate_result : option string;
  files_changed : list string;
}.

#[global] Instance t_eq_dec : EqDecision t.
Proof. solve_decision. Defined.

Definition set_phase (p : PlanPhase) (i : t) : t :=
  mk (plan_id i) p (iteration i) (last_gate_result i) (files_changed i).
Definition set_iteration (n : N) (i : t) : t :=
  mk (plan_id i) (phase i) n (last_gate_result i) (files_changed i).
Definition set_last_gate_result (g : option string) (i : t) : t :=
  mk (plan_id i) (phase i) (iteration i) g (files_changed i).
Definition set_files_changed (fs : list string) (i : t) : t :=
  mk (plan_id i) (phase i) (iteration i) (last_gate_result i) fs.

Definition resume_directive (i : t) : PlanResumeDirective :=
  PlanResumeDirective.of_phase (phase i).
End PlanPhaseInfo.
Abbreviation PlanPhaseInfo := PlanPhaseInfo.t.

Module RecoveredPlanResume.
Record t : Type := mk {
  plan_id : string;
  phase : PlanPhase;
  iteration : N;
  directive : PlanResumeDirective;
  retry_after_ms : option N;
}.

#[global] Instance t_eq_dec : EqDecision t.
Proof. solve_decision. Defined.
End RecoveredPlanResume.
Abbreviation RecoveredPlanResume := RecoveredPlanResume.t.

Module RecoveryResumePlan.
Record t : Type := mk {
  active : list RecoveredPlanResume;
  retryable_terminal : list RecoveredPlanResume;
  manual_repair : list RecoveredPlanResume;
  completed : list string;
  skipped : list string;
  warnings : list RecoveryWarning;
}.

Definition is_empty {A} (l : list A) : bool :=
  match l with [] => true | _ => false end.

Definition has_runnable_work (p : t) : bool :=
  negb (is_empty (active p)) || negb (is_empty (retryable_terminal p)).

Definition queueable_plan_ids (p : t) : list string :=
  RecoveredPlanResume.plan_id <$> (active p ++ retryable_terminal p).
End RecoveryResumePlan.
Abbreviation RecoveryResumePlan := RecoveryResumePlan.t.

Module RecoveredState.
Record t : Type := mk {
  plan_states : gmap string PlanPhaseInfo;
  queue_order : list string;
  last_sequence : N;
  recovery_timestamp_ms : N;
}.

Definition empty (timestamp_ms : N) : t :=
  {| plan_states := ∅; queue_order := []; last_sequence := 0;
     recovery_timestamp_ms := timestamp_ms |}.
End RecoveredState.
Abbreviation RecoveredState := RecoveredState.t.

(** ** Recovery from a snapshot and from the event log *)

(** [serde_json::from_value::<PlanPhase>(v).ok()] *)
Class PhaseSerde `{!Json} := { phase_from_value : json → option PlanPhase }.

(** [recover_from_executor_snapshot]; [now_ms] is the clock. *)
Definition snapshot_plan_info (id : string) (ps : PlanState) : PlanPhaseInfo :=
  let last_gate :=
    (λ g, GateResult.gate_name g +:+ ": " +:+ GateResult.summary g) <$>
    vec_last (PlanState.gate_results ps) in
  {| PlanPhaseInfo.plan_id := id;
     PlanPhaseInfo.phase := PlanState.current_phase ps;
     PlanPhaseInfo.iteration := PlanState.iteration ps;
     PlanPhaseInfo.last_gate_result := last_gate;
     PlanPhaseInfo.files_changed := PlanState.files_changed ps |}.

Definition recover_from_executor_snapshot (now_ms : N) (snapshot : ExecutorSnapshot) :
    RecoveredState :=
  {| RecoveredState.plan_states :=
       map_imap (λ id ps, Some (snapshot_plan_info id ps))
         (ExecutorSnapshot.plan_states snapshot);
     RecoveredState.queue_order := ExecutorSnapshot.queue_order snapshot;
     RecoveredState.last_sequence := 0;
     RecoveredState.recovery_timestamp_ms := now_ms |}.

Section Recover.
Context {J : Json} {PS : PhaseSerde}.

Definition recover_from_snapshot `{!SnapshotText} (now_ms : N) (snapshot_json : string) :
    result RecoveredState RecoveryError :=
  let? snapshot := map_err (λ e, RecoveryError.CorruptedSnapshot ("JSON parse error: " +:+ e))
                     (from_json snapshot_json) in
  Ok (recover_from_executor_snapshot now_ms snapshot).

Definition extract_plan_id (payload : json) : option string :=
  (match json_get "plan_id" payload with
   | Some v => Some v
   | None => json_get "plan" payload
   end) ≫= json_as_str.

Definition extract_phase (payload : json) : option PlanPhase :=
  json_get "phase" payload ≫= phase_from_value.

Definition apply_gate_result (event : EventEntry) (info : PlanPhaseInfo) : PlanPhaseInfo :=
  let payload := EventEntry.payload event in
  let gate_name := default "unknown" (json_get "gate" payload ≫= json_as_str) in
  let passed := default false (json_get "passed" payload ≫= json_as_bool) in
  let summary := default EmptyString (json_get "summary" payload ≫= json_as_str) in
  let status := if (passed : bool) then "passed" else "failed" in
  let suffix := if str_is_empty summary then EmptyString else " - " +:+ summary in
  PlanPhaseInfo.set_last_gate_result
    (Some (gate_name +:+ ": " +:+ status +:+ suffix)) info.

(** The [match] on the event kind. *)
Definition apply_event_kind (event : EventEntry) (plan_id : string)
    (info : PlanPhaseInfo) (queue_order : list string) : PlanPhaseInfo * list string :=
  let payload := EventEntry.payload event in
  match EventEntry.event_kind event with
  | EventKind.PlanStarted =>
      (PlanPhaseInfo.set_phase PlanPhase.Enriching info, push_unique queue_order plan_id)
  | EventKind.PhaseTransition =>
      (match extract_phase payload with
       | Some phase => PlanPhaseInfo.set_phase phase info
       | None => info
       end, queue_order)
  | EventKind.TaskAssigned | EventKind.AgentSpawned =>
      (match json_get "files" payload ≫= json_as_array with
       | Some arr =>
           PlanPhaseInfo.set_files_changed
             (foldl push_unique (PlanPhaseInfo.files_changed info) (omap json_as_str arr)) info
       | None => info
       end, queue_order)
  | EventKind.GateResult => (apply_gate_result event info, queue_order)
  | EventKind.PlanCompleted => (PlanPhaseInfo.set_phase PlanPhase.Complete info, queue_order)
  | EventKind.PlanFailed =>
      let reason := default "unknown" (json_get "reason" payload ≫= json_as_str) in
      (PlanPhaseInfo.set_phase (PlanPhase.Failed (FailureKind.Other reason)) info, queue_order)
  | EventKind.MergeAttempted =>
      let kind := PlanPhase.kind (PlanPhaseInfo.phase info) in
      (if bool_decide (kind ≠ PhaseKind.Complete) && bool_decide (kind ≠ PhaseKind.Failed)
       then PlanPhaseInfo.set_phase PlanPhase.Merging info else info, queue_order)
  | _ => (info, queue_order)
  end.

(** The iteration bump at the end of [apply_event_to_plan]. *)
Definition track_iteration (payload : json) (info : PlanPhaseInfo) : PlanPhaseInfo :=
  match json_get "iteration" payload ≫= json_as_u64 with
  | Some iter =>
      let iter32 := u32_try_or_max iter in
      if (PlanPhaseInfo.iteration info <? iter32)%N
      then PlanPhaseInfo.set_iteration iter32 info else info
  | None => info
  end.

Definition apply_event_to_plan (event : EventEntry) (plan_id : string)
    (info : PlanPhaseInfo) (queue_order : list string) : PlanPhaseInfo * list string :=
  let '(info, queue_order) := apply_event_kind event plan_id info queue_order in
  (track_iteration (EventEntry.payload event) info, queue_order).

(** [validate_event_sequence]; [expected] counts the entries. *)
Fixpoint validate_event_sequence_from (expected : N) (events : list EventEntry) :
    result unit RecoveryError :=
  match events with
  | [] => Ok tt
  | event :: events' =>
      let seq := EventEntry.sequence_number event in
      if decide (seq ≠ expected) then
        let message :=
          if (expected =? 0)%N
          then "sequence " +:+ fmt_N seq +:+ " starts event log (expected 0)"
          else "sequence " +:+ fmt_N seq +:+ " follows " +:+ fmt_N (expected - 1) +:+
               " (expected " +:+ fmt_N expected +:+ ")" in
        Err (RecoveryError.InvalidEventSequence message)
      else validate_event_sequence_from (expected + 1) events'
  end.

Definition validate_event_sequence (events : list EventEntry) : result unit RecoveryError :=
  validate_event_sequence_from 0 events.

(** [or_insert_with]: the state of a plan that the log had not mentioned. *)
Definition fresh_info (plan_id : string) : PlanPhaseInfo :=
  {| PlanPhaseInfo.plan_id := plan_id; PlanPhaseInfo.phase := PlanPhase.Queued;
     PlanPhaseInfo.iteration := 1; PlanPhaseInfo.last_gate_result := None;
     PlanPhaseInfo.files_changed := [] |}.

(** One iteration of the replay loop over [plan_states], [queue_order] and
    [last_sequence]. *)
Definition replay_step (acc : gmap string PlanPhaseInfo * list string * N)
    (event : EventEntry) : gmap string PlanPhaseInfo * list string * N :=
  let '(plan_states, queue_order, _) := acc in
  let last_sequence := EventEntry.sequence_number event in
  match extract_plan_id (EventEntry.payload event) with
  | Some plan_id =>
      let info := default (fresh_info plan_id) (plan_states !! plan_id) in
      let '(info, queue_order) := apply_event_to_plan event plan_id info queue_order in
      (<[plan_id := info]> plan_states, queue_order, last_sequence)
  | None => (plan_states, queue_order, last_sequence)
  end.

Definition recover_from_event_log (now_ms : N) (events : list EventEntry) :
    result RecoveredState RecoveryError :=
  match events with
  | [] => Ok (RecoveredState.empty now_ms)
  | _ =>
      let? _ := validate_event_sequence events in
      let '(plan_states, queue_order, last_sequence) :=
        foldl replay_step (∅, [], 0%N) events in
      Ok {| RecoveredState.plan_states := plan_states;
            RecoveredState.queue_order := queue_order;
            RecoveredState.last_sequence := last_sequence;
            RecoveredState.recovery_timestamp_ms := now_ms |}
  end.
End Recover.

(** [merge_recovery]: the entries of the log overwrite those of the snapshot. *)
Definition merge_recovery (now_ms : N) (snapshot event_log : option RecoveredState) :
    RecoveredState :=
  match snapshot, event_log with
  | None, None => RecoveredState.empty now_ms
  | Some s, None => s
  | None, Some e => e
  | Some snap, Some log =>
      {| RecoveredState.plan_states :=
           RecoveredState.plan_states log ∪ RecoveredState.plan_states snap;
         RecoveredState.queue_order :=
           match RecoveredState.queue_order log with
           | [] => RecoveredState.queue_order snap
           | q => q
           end;
         RecoveredState.last_sequence :=
           N.max (RecoveredState.last_sequence snap) (RecoveredState.last_sequence log);
         RecoveredState.recovery_timestamp_ms := now_ms |}
  end.

(** ** Validation and the resume plan *)

(** Check 5: the repeated occurrences of [queue_order], with a [seen] set. *)
Fixpoint queue_duplicates (seen : gset string) (l : list string) : list string :=
  match l with
  | [] => []
  | id :: l' =>
      if decide (id ∈ seen) then id :: queue_duplicates seen l'
      else queue_duplicates ({[id]} ∪ seen) l'
  end.

Section Validate.
Context {HI : HashIter}.

Definition validate_recovery (state : RecoveredState) : list RecoveryWarning :=
  let plan_states := RecoveredState.plan_states state in
  let queue_order := RecoveredState.queue_order state in
  let missing :=
    (λ id, RecoveryWarning.mk id "plan in queue_order but missing from plan_states"
             WarningSeverity.Critical) <$>
    List.filter (λ id, bool_decide (plan_states !! id = None)) queue_order in
  let orphans :=
    (λ id, RecoveryWarning.mk id "plan in plan_states but missing from queue_order"
             WarningSeverity.Warning) <$>
    List.filter (λ id, bool_decide (id ∉ queue_order)) (hash_keys plan_states) in
  let iterations :=
    (λ info, RecoveryWarning.mk (PlanPhaseInfo.plan_id info)
               "iteration is 0 (should be >= 1)" WarningSeverity.Warning) <$>
    List.filter (λ info, PlanPhaseInfo.iteration info =? 0)%N (hash_values plan_states) in
  let no_files :=
    (λ info, RecoveryWarning.mk (PlanPhaseInfo.plan_id info)
               "completed plan has no files_changed recorded" WarningSeverity.Info) <$>
    List.filter (λ info,
      bool_decide (PlanPhase.kind (PlanPhaseInfo.phase info) = PhaseKind.Complete) &&
      RecoveryResumePlan.is_empty (PlanPhaseInfo.files_changed info))
      (hash_values plan_states) in
  let duplicates :=
    (λ id, RecoveryWarning.mk id "duplicate entry in queue_order"
             WarningSeverity.Critical) <$> queue_duplicates ∅ queue_order in
  missing ++ orphans ++ iterations ++ no_files ++ duplicates.

(** The order in which [resume_plan] visits the plans. *)
Definition resume_ids (state : RecoveredState) : list string :=
  let plan_states := RecoveredState.plan_states state in
  let ids := dedup_first
    (List.filter (λ id, bool_decide (is_Some (plan_states !! id)))
       (RecoveredState.queue_order state)) in
  let missing := sort_strings
    (List.filter (λ id, bool_decide (id ∉ ids)) (hash_keys plan_states)) in
  ids ++ missing.

Definition resume_entry (now_ms : N) (info : PlanPhaseInfo) : RecoveredPlanResume :=
  let directive := PlanPhaseInfo.resume_directive info in
  {| RecoveredPlanResume.plan_id := PlanPhaseInfo.plan_id info;
     RecoveredPlanResume.phase := PlanPhaseInfo.phase info;
     RecoveredPlanResume.iteration := PlanPhaseInfo.iteration info;
     RecoveredPlanResume.directive := directive;
     RecoveredPlanResume.retry_after_ms :=
       (λ secs, sat_add64 now_ms (sat_mul64 secs 1000)) <$>
       PlanResumeDirective.cooldown_secs directive |}.

(** One iteration of the loop over [ids]; [plan_states[&id]] is in range. *)
Definition resume_step (now_ms : N) (plan_states : gmap string PlanPhaseInfo)
    (p : RecoveryResumePlan) (id : string) : RecoveryResumePlan :=
  match plan_states !! id with
  | None => p
  | Some info =>
      let resume := resume_entry now_ms info in
      let '(RecoveryResumePlan.mk active retryable manual completed skipped warnings) := p in
      match RecoveredPlanResume.directive resume with
      | PlanResumeDirective.ContinueActive =>
          RecoveryResumePlan.mk (active ++ [resume]) retryable manual completed skipped
            warnings
      | PlanResumeDirective.RetryTerminalFailure _ _ =>
          RecoveryResumePlan.mk active (retryable ++ [resume]) manual completed skipped
            warnings
      | PlanResumeDirective.AwaitManualRepair _ =>
          RecoveryResumePlan.mk active retryable (manual ++ [resume]) completed skipped
            warnings
      | PlanResumeDirective.TerminalComplete =>
          RecoveryResumePlan.mk active retryable manual
            (completed ++ [PlanPhaseInfo.plan_id info]) skipped warnings
      | PlanResumeDirective.TerminalSkipped =>
          RecoveryResumePlan.mk active retryable manual completed
            (skipped ++ [PlanPhaseInfo.plan_id info]) warnings
      end
  end.

Definition resume_plan (now_ms : N) (state : RecoveredState) : RecoveryResumePlan :=
  foldl (resume_step now_ms (RecoveredState.plan_states state))
    (RecoveryResumePlan.mk [] [] [] [] [] (validate_recovery state)) (resume_ids state).

Definition build_resume_plan (state : RecoveredState) (now_ms : N) : RecoveryResumePlan :=
  resume_plan now_ms state.
End Validate.

(** ** Facts: replay *)

Section RecoverFacts.
Context {J : Json} {PS : PhaseSerde}.

Lemma validate_event_sequence_from_ok n l :
  is_ok (validate_event_sequence_from n l) = true ↔ contiguous n l.
Proof.
  revert n. induction l as [|e l IH]; intros n.
  - split; [intros _ i e Hi; by rewrite lookup_nil in Hi|done].
  - rewrite contiguous_cons, <-IH. cbn [validate_event_sequence_from].
    case_decide; naive_solver.
Qed.

(** The specification of the replay: the events of one plan, in log order. *)
Definition events_of (id : string) (events : list EventEntry) : list EventEntry :=
  List.filter (λ e, bool_decide (extract_plan_id (EventEntry.payload e) = Some id)) events.

Definition apply_to_info (id : string) (info : PlanPhaseInfo) (e : EventEntry) :
    PlanPhaseInfo := (apply_event_to_plan e id info []).1.

(** The state of one plan is the fold of its own events. *)
Definition plan_history (id : string) (events : list EventEntry) : option PlanPhaseInfo :=
  match events_of id events with
  | [] => None
  | es => Some (foldl (apply_to_info id) (fresh_info id) es)
  end.

(** The queue is the started plans, in order of their first start. *)
Definition started_plans (events : list EventEntry) : list string :=
  dedup_first (omap (λ e,
    match EventEntry.event_kind e with
    | EventKind.PlanStarted => extract_plan_id (EventEntry.payload e)
    | _ => None
    end) events).

Lemma apply_event_queue e id info q :
  apply_event_to_plan e id info q =
    (apply_to_info id info e,
     match EventEntry.event_kind e with
     | EventKind.PlanStarted => push_unique q id
     | _ => q
     end).
Proof.
  unfold apply_to_info, apply_event_to_plan, apply_event_kind.
  by destruct (EventEntry.event_kind e).
Qed.

Lemma plan_history_snoc id events e :
  plan_history id (events ++ [e]) =
  if decide (extract_plan_id (EventEntry.payload e) = Some id)
  then Some (apply_to_info id (default (fresh_info id) (plan_history id events)) e)
  else plan_history id events.
Proof.
  unfold plan_history, events_of. rewrite List.filter_app. simpl.
  case_decide as E; [rewrite bool_decide_eq_true_2 by done
                    |rewrite bool_decide_eq_false_2, app_nil_r by done; done].
  destruct (List.filter _ events) as [|x es]; [done|].
  simpl. by rewrite foldl_app.
Qed.

Lemma replay_spec events n :
  foldl replay_step (∅, [], n) events =
    ((foldl replay_step (∅, [], n) events).1.1, started_plans events,
     match last events with Some e => EventEntry.sequence_number e | None => n end) ∧
  ∀ id, (foldl replay_step (∅, [], n) events).1.1 !! id = plan_history id events.
Proof.
  induction events as [|e events [IH1 IH2]] using rev_ind; [done|].
  rewrite !foldl_app, last_snoc. cbn [foldl]. rewrite IH1.
  set (m := (foldl replay_step (∅, [], n) events).1.1) in *.
  unfold replay_step. unfold started_plans. rewrite omap_app. cbn [omap list_omap].
  destruct (extract_plan_id (EventEntry.payload e)) as [id|] eqn:E; simpl.
  - rewrite apply_event_queue. simpl. split.
    + f_equal. f_equal. unfold started_plans.
      destruct (EventEntry.event_kind e);
        rewrite ?app_nil_r, ?dedup_first_snoc; done.
    + intros id'. rewrite plan_history_snoc, E. case_decide as Hid; simplify_eq.
      * by rewrite lookup_insert_eq, IH2.
      * rewrite lookup_insert_ne by congruence. apply IH2.
  - split.
    + f_equal. f_equal. unfold started_plans.
      by destruct (EventEntry.event_kind e); rewrite ?app_nil_r.
    + intros id. rewrite plan_history_snoc, E, decide_False by done. apply IH2.
Qed.
End RecoverFacts.

(** C13: replaying the event log.  Recovery fails exactly when the sequence
    numbers are not 0, 1, 2, ...; otherwise the state of every plan is the fold
    of its own events alone, no other plan appears, and the queue is the started
    plans in order of their first start. *)
Theorem recover_from_event_log_spec {J : Json} {PS : PhaseSerde} now_ms events :
  match recover_from_event_log now_ms events with
  | Ok st =>
      contiguous 0 events ∧
      (∀ id, RecoveredState.plan_states st !! id = plan_history id events) ∧
      RecoveredState.queue_order st = started_plans events ∧
      RecoveredState.last_sequence st = N.of_nat (length events - 1)
  | Err e => ¬ contiguous 0 events
  end.
Proof.
  destruct events as [|e events]; [by split_and!|]. cbn [recover_from_event_log].
  pose proof (validate_event_sequence_from_ok 0 (e :: events)) as Hv.
  change (validate_event_sequence_from 0 (e :: events)) with
    (validate_event_sequence (e :: events)) in Hv.
  destruct (validate_event_sequence (e :: events)) as [[]|err]; [|by intros H%Hv].
  destruct (replay_spec (e :: events) 0) as [Hq Hs]. rewrite Hq.
  assert (contiguous 0 (e :: events)) as Hc by by apply Hv.
  split_and!; [done..|].
  destruct (last (e :: events)) as [x|] eqn:El; simpl.
  - rewrite last_lookup in El. rewrite (Hc _ _ El). simpl. lia.
  - by apply last_None in El.
Qed.

(** ** Facts: validation and resume plan *)

Lemma queue_duplicates_nil seen l :
  queue_duplicates seen l = [] ↔ NoDup l ∧ ∀ x, x ∈ l → x ∉ seen.
Proof.
  revert seen. induction l as [|x l IH]; intros seen; simpl.
  - split; [intros _; split; [constructor|set_solver]|done].
  - rewrite NoDup_cons. case_decide as Hx.
    + split; [done|]. intros [_ H]. exfalso. apply (H x); [by left|done].
    + rewrite IH. split.
      * intros [Hnd H]. split_and!; [intros Hin; apply (H x Hin); set_solver|done|].
        set_solver.
      * intros [[Hxl Hnd] H]. split; [done|]. intros y Hy.
        assert (y ≠ x) by (by intros ->). set_solver.
Qed.

Lemma filter_nil_iff {A} (f : A → bool) l :
  List.filter f l = [] ↔ ∀ x, x ∈ l → f x = false.
Proof.
  induction l as [|x l IH]; simpl; [split; [set_solver|done]|].
  destruct (f x) eqn:E.
  - split; [done|]. intros H. specialize (H x (list_elem_of_here _ _)). congruence.
  - rewrite IH. split; [|set_solver]. intros H y [->|Hy]%elem_of_cons; auto.
Qed.

(** A consistent recovered state. *)
Record consistent (st : RecoveredState) : Prop := {
  queue_is_dom : ∀ id, id ∈ RecoveredState.queue_order st ↔
                       is_Some (RecoveredState.plan_states st !! id);
  queue_nodup : NoDup (RecoveredState.queue_order st);
  iterations_positive : ∀ id info, RecoveredState.plan_states st !! id = Some info →
    (0 < PlanPhaseInfo.iteration info)%N;
  complete_has_files : ∀ id info, RecoveredState.plan_states st !! id = Some info →
    PlanPhaseInfo.phase info = PlanPhase.Complete → PlanPhaseInfo.files_changed info ≠ [];
}.

Section ResumeFacts.
Context {HI : HashIter}.
Implicit Types st : RecoveredState.

Lemma validate_recovery_nil st : validate_recovery st = [] ↔ consistent st.
Proof.
  unfold validate_recovery. cbv zeta.
  assert (∀ A B (f : A → B) l l', (f <$> l) ++ l' = [] ↔ l = [] ∧ l' = []) as Hsplit.
  { intros A B f [|x l] l'; simpl; naive_solver. }
  rewrite !Hsplit. rewrite !filter_nil_iff.
  assert (∀ A B (f : A → B) l, f <$> l = [] ↔ l = []) as Hmap.
  { by intros A B f [|x l]. }
  rewrite Hmap, queue_duplicates_nil. split.
  - intros (H1 & H2 & H3 & H4 & H5 & _). constructor; [|done|..].
    + intros id. split.
      * intros Hin. apply H1, bool_decide_eq_false in Hin.
        by apply not_eq_None_Some.
      * intros Hs. apply elem_of_hash_keys, H2, bool_decide_eq_false in Hs.
        by apply dec_stable in Hs.
    + intros id info Hi. specialize (H3 info).
      rewrite elem_of_hash_values in H3. specialize (H3 (ex_intro _ _ Hi)). lia.
    + intros id info Hi Hp Hf. specialize (H4 info).
      rewrite elem_of_hash_values in H4. specialize (H4 (ex_intro _ _ Hi)).
      by rewrite Hp, Hf in H4.
  - intros [H1 H2 H3 H4]. split_and!; [| | | |done|set_solver].
    + intros id Hin. apply bool_decide_eq_false, not_eq_None_Some. by apply H1.
    + intros id Hin%elem_of_hash_keys. apply bool_decide_eq_false.
      intros Hn. by apply Hn, H1.
    + intros info [id Hi]%elem_of_hash_values. specialize (H3 id info Hi). lia.
    + intros info [id Hi]%elem_of_hash_values. specialize (H4 id info Hi).
      apply andb_false_iff. destruct (PlanPhaseInfo.phase info) eqn:Ep; try by left.
      right. destruct (PlanPhaseInfo.files_changed info); [by destruct H4|done].
Qed.

Lemma resume_ids_perm st :
  NoDup (resume_ids st) ∧
  ∀ id, id ∈ resume_ids st ↔ is_Some (RecoveredState.plan_states st !! id).
Proof.
  unfold resume_ids. set (ids := dedup_first _).
  assert (∀ id, id ∈ sort_strings (List.filter (λ id, bool_decide (id ∉ ids))
                   (hash_keys (RecoveredState.plan_states st))) ↔
                is_Some (RecoveredState.plan_states st !! id) ∧ id ∉ ids) as Hm.
  { intros id. unfold sort_strings.
    by rewrite elem_of_sort_by, elem_of_list_filter_bool, elem_of_hash_keys, bool_decide_eq_true. }
  split.
  - apply NoDup_app. split_and!; [apply NoDup_dedup_first| |].
    + intros x Hx Hx'. by apply Hm in Hx' as [_ ?].
    + apply NoDup_sort_by, NoDup_filter_bool, NoDup_hash_keys.
  - intros id. rewrite elem_of_app, Hm.
    assert (id ∈ ids → is_Some (RecoveredState.plan_states st !! id)) as Hi.
    { unfold ids. rewrite elem_of_dedup_first, elem_of_list_filter_bool, bool_decide_eq_true. naive_solver. }
    destruct (decide (id ∈ ids)); naive_solver.
Qed.
End ResumeFacts.

(** Every plan is recorded under its own id. *)
Definition ids_match (st : RecoveredState) : Prop :=
  ∀ id info, RecoveredState.plan_states st !! id = Some info → PlanPhaseInfo.plan_id info = id.

Definition is_active_directive (d : PlanResumeDirective) : bool :=
  match d with PlanResumeDirective.ContinueActive => true | _ => false end.
Definition is_manual_directive (d : PlanResumeDirective) : bool :=
  match d with PlanResumeDirective.AwaitManualRepair _ => true | _ => false end.
Definition is_complete_directive (d : PlanResumeDirective) : bool :=
  match d with PlanResumeDirective.TerminalComplete => true | _ => false end.
Definition is_skipped_directive (d : PlanResumeDirective) : bool :=
  match d with PlanResumeDirective.TerminalSkipped => true | _ => false end.

Definition with_directive (f : PlanResumeDirective → bool) :
    list RecoveredPlanResume → list RecoveredPlanResume :=
  List.filter (λ r, f (RecoveredPlanResume.directive r)).

Lemma with_directive_snoc f l r :
  with_directive f (l ++ [r]) =
  with_directive f l ++ (if f (RecoveredPlanResume.directive r) then [r] else []).
Proof. apply List.filter_app. Qed.

Lemma with_directive_split l :
  with_directive is_active_directive l ++
  with_directive PlanResumeDirective.is_retryable_terminal l ++
  with_directive is_manual_directive l ++
  with_directive is_complete_directive l ++
  with_directive is_skipped_directive l ≡ₚ l.
Proof.
  induction l as [|r l IH]; [done|]. unfold with_directive in *. simpl.
  destruct (RecoveredPlanResume.directive r); simpl; rewrite <-IH at 6;
    solve_Permutation.
Qed.

Section ResumePlan.
Context {HI : HashIter}.

Definition resume_entries (now_ms : N) (st : RecoveredState) : list RecoveredPlanResume :=
  omap (λ id, resume_entry now_ms <$> (RecoveredState.plan_states st !! id)) (resume_ids st).

(** The buckets hold the entries with their directive, in visiting order. *)
Lemma resume_plan_buckets now_ms st (es := resume_entries now_ms st) :
  resume_plan now_ms st =
    RecoveryResumePlan.mk
      (with_directive is_active_directive es)
      (with_directive PlanResumeDirective.is_retryable_terminal es)
      (with_directive is_manual_directive es)
      (RecoveredPlanResume.plan_id <$> with_directive is_complete_directive es)
      (RecoveredPlanResume.plan_id <$> with_directive is_skipped_directive es)
      (validate_recovery st).
Proof.
  subst es. unfold resume_plan, resume_entries.
  induction (resume_ids st) as [|id ids IH] using rev_ind; [done|].
  rewrite foldl_app, omap_app. cbn [foldl omap list_omap]. rewrite IH. unfold resume_step.
  destruct (RecoveredState.plan_states st !! id) as [info|]; simpl; [|by rewrite app_nil_r].
  rewrite !with_directive_snoc. cbn [resume_entry RecoveredPlanResume.directive].
  by destruct (PlanPhaseInfo.resume_directive info); simpl;
    rewrite ?app_nil_r, ?fmap_app.
Qed.

Lemma resume_entries_ids now_ms st :
  ids_match st →
  RecoveredPlanResume.plan_id <$> resume_entries now_ms st = resume_ids st.
Proof.
  intros Hids. destruct (resume_ids_perm st) as [_ Hin]. unfold resume_entries.
  assert (∀ id, id ∈ resume_ids st → is_Some (RecoveredState.plan_states st !! id)) as Hs
    by (intros; by apply Hin).
  clear Hin. induction (resume_ids st) as [|id ids IH]; [done|].
  destruct (Hs id (list_elem_of_here _ _)) as [info Hi]. cbn [omap list_omap].
  rewrite Hi. assert (Hs' := λ x Hx, Hs x (list_elem_of_further _ _ _ Hx)).
  exact (f_equal2 cons (Hids _ _ Hi) (IH Hs')).
Qed.

Lemma elem_of_resume_entries now_ms st r :
  r ∈ resume_entries now_ms st ↔
    ∃ id info, RecoveredState.plan_states st !! id = Some info ∧ r = resume_entry now_ms info.
Proof.
  unfold resume_entries. rewrite list_elem_of_omap. split.
  - intros (id & _ & Hr). destruct (RecoveredState.plan_states st !! id) as [info|] eqn:E;
      simplify_eq/=. eauto.
  - intros (id & info & Hi & ->). exists id. rewrite Hi. split; [|done].
    apply resume_ids_perm. eauto.
Qed.

Lemma resume_plan_ids now_ms st (p := resume_plan now_ms st) :
  ids_match st →
  RecoveryResumePlan.queueable_plan_ids p ++
  (RecoveredPlanResume.plan_id <$> RecoveryResumePlan.manual_repair p) ++
  RecoveryResumePlan.completed p ++ RecoveryResumePlan.skipped p ≡ₚ resume_ids st.
Proof.
  intros Hids. subst p. rewrite resume_plan_buckets.
  unfold RecoveryResumePlan.queueable_plan_ids. simpl.
  rewrite <-(resume_entries_ids now_ms st Hids), <-!fmap_app, <-!app_assoc.
  apply fmap_Permutation, with_directive_split.
Qed.

Lemma resume_plan_queueable now_ms st id :
  ids_match st →
  id ∈ RecoveryResumePlan.queueable_plan_ids (resume_plan now_ms st) ↔
    ∃ info, RecoveredState.plan_states st !! id = Some info ∧
      PlanResumeDirective.should_requeue (PlanPhaseInfo.resume_directive info) = true.
Proof.
  intros Hids. rewrite resume_plan_buckets.
  unfold RecoveryResumePlan.queueable_plan_ids. simpl. rewrite list_elem_of_fmap.
  setoid_rewrite elem_of_app. unfold with_directive.
  setoid_rewrite elem_of_list_filter_bool. setoid_rewrite elem_of_resume_entries. split.
  - intros (r & -> & [[(id' & info & Hi & ->) Hd]|[(id' & info & Hi & ->) Hd]]);
      simpl; rewrite (Hids _ _ Hi); exists info; simpl in Hd;
      by destruct (PlanPhaseInfo.resume_directive info).
  - intros (info & Hi & Hd). exists (resume_entry now_ms info).
    split; [by rewrite <-(Hids _ _ Hi)|]. simpl.
    destruct (PlanPhaseInfo.resume_directive info); try done; [left|right]; eauto 6.
Qed.
End ResumePlan.

(** the resume plan classifies every recovered plan exactly once.  Its five
    buckets together list each plan once; the plans to queue again are exactly
    those that are still active or failed with an automatically retryable
    failure; there is runnable work exactly when that list is non-empty; and no
    warning is raised exactly when the recovered state is consistent. *)
Theorem resume_plan_classifies {HI : HashIter} now_ms st :
  ids_match st →
  let p := resume_plan now_ms st in
  RecoveryResumePlan.queueable_plan_ids p ++
  (RecoveredPlanResume.plan_id <$> RecoveryResumePlan.manual_repair p) ++
  RecoveryResumePlan.completed p ++ RecoveryResumePlan.skipped p
    ≡ₚ (map_to_list (RecoveredState.plan_states st)).*1 ∧
  (∀ id, id ∈ RecoveryResumePlan.queueable_plan_ids p ↔
     ∃ info, RecoveredState.plan_states st !! id = Some info ∧
       PlanResumeDirective.should_requeue (PlanPhaseInfo.resume_directive info) = true) ∧
  (RecoveryResumePlan.has_runnable_work p = true ↔
     RecoveryResumePlan.queueable_plan_ids p ≠ []) ∧
  (RecoveryResumePlan.warnings p = [] ↔ consistent st).
Proof.
  intros Hids p. split_and!.
  - unfold p. rewrite (resume_plan_ids now_ms st Hids).
    destruct (resume_ids_perm st) as [Hnd Hin].
    apply NoDup_Permutation; [done|apply NoDup_fst_map_to_list|].
    intros id. rewrite Hin, <-(elem_of_btree_keys (RecoveredState.plan_states st)).
    unfold btree_keys, sort_strings. by rewrite elem_of_sort_by.
  - intros id. by apply resume_plan_queueable.
  - unfold RecoveryResumePlan.has_runnable_work, RecoveryResumePlan.queueable_plan_ids.
    destruct (RecoveryResumePlan.active p); [|done].
    by destruct (RecoveryResumePlan.retryable_terminal p).
  - unfold p. rewrite resume_plan_buckets. apply validate_recovery_nil.
Qed.

Lemma resume_plan_classifies_witness :
  let st := RecoveredState.mk
    (<["a" := PlanPhaseInfo.mk "a" PlanPhase.Gating 2 None []]>
     {["b" := PlanPhaseInfo.mk "b" (PlanPhase.Failed (FailureKind.Other "x")) 1 None []]})
    ["b"; "a"; "b"] 0 0 in
  RecoveryResumePlan.has_runnable_work (resume_plan 5 st) = true.
Proof.
  intros st. destruct (resume_plan_classifies 5 st) as (_ & _ & Hw & _).
  - intros id info Hi. subst st. simpl in Hi.
    apply lookup_insert_Some in Hi as [[<- <-]|[_ Hi]]; [done|].
    by apply lookup_singleton_Some in Hi as [<- <-].
  - apply Hw. by vm_compute.
Defined.

(** The recovery functions produce states that satisfy [ids_match]. *)
Lemma recover_from_executor_snapshot_ids now_ms snap :
  ids_match (recover_from_executor_snapshot now_ms snap).
Proof.
  intros id info. simpl. rewrite map_lookup_imap.
  destruct (ExecutorSnapshot.plan_states snap !! id); simpl; [|done]. by intros [= <-].
Qed.

Lemma merge_recovery_ids now_ms snap log :
  (∀ s, snap = Some s → ids_match s) → (∀ s, log = Some s → ids_match s) →
  ids_match (merge_recovery now_ms snap log).
Proof.
  intros Hs Hl. destruct snap as [s|], log as [l|]; simpl; [|by apply Hs|by apply Hl|].
  - intros id info [Hi|[_ Hi]]%lookup_union_Some_raw; [by eapply Hl|by eapply Hs].
  - intros id info Hi. destruct (lookup_empty_Some id info Hi).
Qed.

(** Merging the two sources prefers the event log for every plan it
    mentions and falls back to the snapshot for the others; the queue is the
    log's unless it started no plan. *)
Lemma merge_recovery_prefers_log now_ms snap log id :
  let m := merge_recovery now_ms (Some snap) (Some log) in
  RecoveredState.plan_states m !! id =
    (match RecoveredState.plan_states log !! id with
     | Some info => Some info
     | None => RecoveredState.plan_states snap !! id
     end) ∧
  (RecoveredState.queue_order m = RecoveredState.queue_order log ∨
   RecoveredState.queue_order log = [] ∧
   RecoveredState.queue_order m = RecoveredState.queue_order snap) ∧
  (RecoveredState.last_sequence log ≤ RecoveredState.last_sequence m)%N.
Proof.
  simpl. split_and!; [|by destruct (RecoveredState.queue_order log); auto|lia].
  rewrite lookup_union.
  by destruct (RecoveredState.plan_states log !! id),
    (RecoveredState.plan_states snap !! id).
Qed.
