(* ===== verification/Executor.v ===== *)
(** * The parallel executor (crates/roko-orchestrator/src/executor/mod.rs and reorder.rs)

    Queue reordering: a failed plan moved to the back of the queue, and the queue sorted by
    priority.  Resource budgets, the executor's configuration, and [ParallelExecutor]: its
    state and every operation of it.  The executor performs no I/O; its clock
    readings are arguments. *)

From S2P Require Import Prelude Phase Task PlanState StateMachine Bytes AuditChain.
From S2P Require Import EventLog Snapshot Recovery.

(** ** Queue reordering *)

Definition reorder_queue (queue : list string) (failed_plan_id : string) : list string :=
  List.filter (λ id, negb (string_eqb id failed_plan_id)) queue ++
  (if decide (failed_plan_id ∈ queue) then [failed_plan_id] else []).

(** The comparator of [priority_reorder] on (index, id) pairs: higher priority
    first, then the original position. *)
Definition prio_of (plan_priorities : gmap string N) (id : string) : N :=
  default 0%N (plan_priorities !! id).

Definition priority_leb (plan_priorities : gmap string N) (a b : nat * string) : bool :=
  let prio_a := prio_of plan_priorities a.2 in
  let prio_b := prio_of plan_priorities b.2 in
  (prio_b <? prio_a)%N || ((prio_b =? prio_a)%N && (a.1 <=? b.1)%nat).

Definition priority_reorder (queue : list string) (plan_priorities : gmap string N) :
    list string :=
  let indexed := imap pair queue in
  (sort_by (priority_leb plan_priorities) indexed).*2.

(** ** Facts *)

Lemma elem_of_reorder_queue queue f id : id ∈ reorder_queue queue f ↔ id ∈ queue.
Proof.
  unfold reorder_queue. rewrite elem_of_app, elem_of_list_filter_bool.
  unfold string_eqb. rewrite negb_true_iff, bool_decide_eq_false.
  destruct (decide (id = f)) as [->|]; case_decide; set_solver.
Qed.

Lemma NoDup_reorder_queue queue f : NoDup queue → NoDup (reorder_queue queue f).
Proof.
  intros Hq. unfold reorder_queue. apply NoDup_app. split_and!.
  - by apply NoDup_filter_bool.
  - intros x [_ Hx]%elem_of_list_filter_bool.
    unfold string_eqb in Hx. rewrite negb_true_iff, bool_decide_eq_false in Hx.
    case_decide; set_solver.
  - case_decide; [apply NoDup_singleton|apply NoDup_nil_2].
Qed.

Section PriorityReorder.
Context (pr : gmap string N).

Lemma priority_leb_total a b : priority_leb pr a b = true ∨ priority_leb pr b a = true.
Proof. unfold priority_leb. lia. Qed.

Lemma priority_leb_trans a b c :
  priority_leb pr a b = true → priority_leb pr b c = true → priority_leb pr a c = true.
Proof. unfold priority_leb. lia. Qed.

Lemma snd_imap_pair (l : list string) : (imap pair l).*2 = l.
Proof.
  rewrite fmap_imap. apply list_eq. intros i. rewrite list_lookup_imap.
  by destruct (l !! i).
Qed.

Lemma priority_reorder_perm queue : priority_reorder queue pr ≡ₚ queue.
Proof.
  unfold priority_reorder. rewrite sort_by_perm. by rewrite snd_imap_pair.
Qed.

Lemma elem_of_priority_reorder queue id : id ∈ priority_reorder queue pr ↔ id ∈ queue.
Proof. by rewrite priority_reorder_perm. Qed.

Lemma NoDup_priority_reorder queue : NoDup (priority_reorder queue pr) ↔ NoDup queue.
Proof. by rewrite priority_reorder_perm. Qed.

(** The reference: Rust's stable sort by decreasing priority alone. *)
Definition prio_geb (a b : string) : bool := (prio_of pr b <=? prio_of pr a)%N.
End PriorityReorder.

Section PriorityReorderSpec.
Context (pr : gmap string N).

Lemma insert_sorted_snd k x (l : list (nat * string)) :
  Forall (λ y, k ≤ y.1)%nat l →
  (insert_sorted (priority_leb pr) (k, x) l).*2 = insert_sorted (prio_geb pr) x l.*2.
Proof.
  induction 1 as [|[j y] l Hy _ IH]; [done|]. cbn [insert_sorted fmap list_fmap snd].
  assert (priority_leb pr (k, x) (j, y) = prio_geb pr x y) as ->.
  { unfold priority_leb, prio_geb. simpl in *. lia. }
  destruct (prio_geb pr x y); [done|]. cbn [fmap list_fmap]. by f_equal.
Qed.

Lemma sort_indexed_snd k queue :
  let indexed := imap (λ i x, (k + i, x)%nat) queue in
  (sort_by (priority_leb pr) indexed).*2 = sort_by (prio_geb pr) queue ∧
  Forall (λ y, k ≤ y.1)%nat (sort_by (priority_leb pr) indexed).
Proof.
  revert k. induction queue as [|x queue IH]; intros k; [done|]. cbn [imap].
  assert (imap ((λ i x, (k + i, x)%nat) ∘ S) queue =
          imap (λ i x, (S k + i, x)%nat) queue) as ->.
  { apply imap_ext. intros i y _. simpl. f_equal. lia. }
  destruct (IH (S k)) as [IH1 IH2]. rewrite Nat.add_0_r.
  rewrite !sort_by_cons.
  assert (Forall (λ y : nat * string, k ≤ y.1)%nat
    (sort_by (priority_leb pr) (imap (λ i x, (S k + i, x)%nat) queue))) as Hk.
  { eapply Forall_impl; [exact IH2|]. intros y. simpl. lia. }
  split.
  - rewrite insert_sorted_snd by done. by rewrite IH1.
  - rewrite insert_sorted_perm. by constructor.
Qed.

Lemma priority_reorder_stable_sort queue :
  priority_reorder queue pr = sort_by (prio_geb pr) queue.
Proof.
  unfold priority_reorder. rewrite <-(proj1 (sort_indexed_snd 0 queue)).
  do 2 f_equal.
Qed.
End PriorityReorderSpec.

(** [priority_reorder] is the stable sort by decreasing priority: the
    result is a permutation of the queue, no plan precedes one of higher
    priority, and plans of equal priority keep their order. *)
Theorem priority_reorder_spec queue pr :
  priority_reorder queue pr ≡ₚ queue ∧
  StronglySorted (λ a b, prio_of pr b ≤ prio_of pr a)%N (priority_reorder queue pr) ∧
  ∀ p, List.filter (λ id, prio_of pr id =? p)%N (priority_reorder queue pr) =
       List.filter (λ id, prio_of pr id =? p)%N queue.
Proof.
  rewrite priority_reorder_stable_sort. split_and!.
  - apply sort_by_perm.
  - eapply (StronglySorted_impl (λ a b, prio_geb pr a b = true)).
    + unfold prio_geb. intros a b. lia.
    + apply sort_by_sorted; unfold prio_geb; intros *; lia.
  - intros p. apply sort_by_filter. unfold prio_geb. intros *. lia.
Qed.

(** ** Budgets and configuration *)

Module ResourceUsage.
Record t : Type := mk { spent_usd : F64.t; active_agents : nat; memory_mb : N }.
End ResourceUsage.

Module ResourceBudget.
Record t : Type := mk {
  budget_usd : option F64.t;
  max_concurrent : nat;
  max_memory_mb : option N;
}.

Definition default : t :=
  {| budget_usd := None; max_concurrent := 8; max_memory_mb := None |}.

Definition can_dispatch (b : t) (current : ResourceUsage.t) : bool :=
  if match budget_usd b with
     | Some budget => F64.ge (ResourceUsage.spent_usd current) budget
     | None => false
     end then false
  else if (max_concurrent b <=? ResourceUsage.active_agents current)%nat then false
  else if match max_memory_mb b with
          | Some max_mem => (max_mem <=? ResourceUsage.memory_mb current)%N
          | None => false
          end then false
  else true.

Definition remaining_usd (b : t) (current : ResourceUsage.t) : option F64.t :=
  (λ budget, F64.max (F64.sub budget (ResourceUsage.spent_usd current)) F64.zero) <$>
  budget_usd b.
End ResourceBudget.
Abbreviation ResourceBudget := ResourceBudget.t.

Module ExecutorConfig.
Record t : Type := mk {
  max_concurrent_plans : nat;
  max_concurrent_tasks : nat;
  max_auto_fix_iterations : N;
  max_merge_attempts : N;
  task_timeout_secs : N;
  budget_usd : option F64.t;
  resource_budget : ResourceBudget;
  speculative_threshold_multiplier : F64.t;
  auto_replan : bool;
  use_worktrees : bool;
}.

Definition default_max_concurrent_tasks : nat := 8.
Definition default_task_timeout_secs : N := 600.
Definition default_speculative_threshold_multiplier : F64.t := F64.of_Z 2.
Definition default_auto_replan : bool := false.
Definition default_use_worktrees : bool := false.

Definition default : t :=
  {| max_concurrent_plans := 4; max_concurrent_tasks := default_max_concurrent_tasks;
     max_auto_fix_iterations := 5; max_merge_attempts := 3;
     task_timeout_secs := default_task_timeout_secs; budget_usd := None;
     resource_budget := ResourceBudget.default;
     speculative_threshold_multiplier := default_speculative_threshold_multiplier;
     auto_replan := default_auto_replan; use_worktrees := default_use_worktrees |}.

Definition effective_budget_usd (c : t) : option F64.t :=
  match ResourceBudget.budget_usd (resource_budget c) with
  | Some b => Some b
  | None => budget_usd c
  end.
End ExecutorConfig.
Abbreviation ExecutorConfig := ExecutorConfig.t.

(** ** The executor *)

Module ParallelExecutor.
Record t : Type := mk {
  config : ExecutorConfig;
  plans : gmap string PlanState;
  queue : list string;
  plan_deps : gmap string (list string);
  speculative_executions : gmap string SpeculativeExecution;
  audit_chain : option AuditChain;
}.

(** Field assignments. *)
Definition set_plans (m : gmap string PlanState) (ex : t) : t :=
  mk (config ex) m (queue ex) (plan_deps ex) (speculative_executions ex) (audit_chain ex).
Definition set_queue (q : list string) (ex : t) : t :=
  mk (config ex) (plans ex) q (plan_deps ex) (speculative_executions ex) (audit_chain ex).
Definition set_speculative (m : gmap string SpeculativeExecution) (ex : t) : t :=
  mk (config ex) (plans ex) (queue ex) (plan_deps ex) m (audit_chain ex).
Definition set_audit_chain (c : option AuditChain) (ex : t) : t :=
  mk (config ex) (plans ex) (queue ex) (plan_deps ex) (speculative_executions ex) c.

Definition new (config : ExecutorConfig) : t :=
  {| config := config; plans := ∅; queue := []; plan_deps := ∅;
     speculative_executions := ∅; audit_chain := None |}.

Definition from_snapshot (config : ExecutorConfig) (snapshot : ExecutorSnapshot) : t :=
  {| config := config; plans := ExecutorSnapshot.plan_states snapshot;
     queue := ExecutorSnapshot.queue_order snapshot; plan_deps := ∅;
     speculative_executions := ExecutorSnapshot.speculative_executions snapshot;
     audit_chain := None |}.

(** The plan state that [from_recovered_state] rebuilds. *)
Definition recovered_plan_state (plan_id : string) (info : PlanPhaseInfo) : PlanState :=
  let state := PlanState.new plan_id in
  PlanState.mk (PlanState.plan_id state) (PlanPhaseInfo.phase info)
    (PlanState.assigned_agents state) (PlanState.gate_results state)
    (N.max (PlanPhaseInfo.iteration info) 1) (PlanState.started_at_ms state)
    (PlanPhaseInfo.files_changed info) (PlanState.merge_attempts state)
    (PlanState.last_error state) (PlanState.paused state) (PlanState.priority state).

(** The body of both loops of [from_recovered_state]. *)
Definition restore_plan (plan_states : gmap string PlanPhaseInfo) (ex : t)
    (plan_id : string) : t :=
  match plan_states !! plan_id with
  | Some info =>
      set_queue (queue ex ++ [plan_id])
        (set_plans (<[plan_id := recovered_plan_state plan_id info]> (plans ex)) ex)
  | None => ex
  end.

Definition from_recovered_state `{!HashIter} (config : ExecutorConfig)
    (recovered : RecoveredState) : t :=
  let plan_states := RecoveredState.plan_states recovered in
  let executor :=
    foldl (restore_plan plan_states) (new config) (RecoveredState.queue_order recovered) in
  let queued := queue executor in
  let missing := sort_strings
    (List.filter (λ id, bool_decide (id ∉ queued)) (hash_keys plan_states)) in
  foldl (restore_plan plan_states) executor missing.

Definition add_plan (ex : t) (plan_state : PlanState) : t * bool :=
  let id := PlanState.plan_id plan_state in
  if decide (is_Some (plans ex !! id)) then (ex, false)
  else (set_queue (queue ex ++ [id]) (set_plans (<[id := plan_state]> (plans ex)) ex), true).

Definition set_plan_dependencies (ex : t) (deps : gmap string (list string)) : t :=
  mk (config ex) (plans ex) (queue ex) deps (speculative_executions ex) (audit_chain ex).

(** [format!("{plan_id}:{task}")] *)
Definition spec_key (plan_id task : string) : string := plan_id +:+ ":" +:+ task.

Definition register_speculative_execution (now_ms : N) (ex : t) (plan_id task : string)
    (expected_minutes elapsed_minutes : N) (backup_role : AgentRole)
    (projected_cost_usd : F64.t) : t * option ExecutorAction :=
  if (expected_minutes =? 0)%N then (ex, None)
  else if match ExecutorConfig.budget_usd (config ex) with
          | Some budget => F64.gt projected_cost_usd budget
          | None => false
          end then (ex, None)
  else
    let key := spec_key plan_id task in
    if decide (is_Some (speculative_executions ex !! key)) then (ex, None)
    else
      let threshold := F64.mul (F64.of_N expected_minutes)
        (ExecutorConfig.speculative_threshold_multiplier (config ex)) in
      if F64.lt (F64.of_N elapsed_minutes) threshold then (ex, None)
      else
        let record := SpeculativeExecution.mk plan_id task expected_minutes
          elapsed_minutes backup_role projected_cost_usd now_ms in
        (set_speculative (<[key := record]> (speculative_executions ex)) ex,
         Some (ExecutorAction.StartSpeculativeExecution plan_id task backup_role
                 expected_minutes elapsed_minutes)).

Definition resolve_speculative_execution (ex : t) (plan_id task : string) :
    t * option ExecutorAction :=
  let key := spec_key plan_id task in
  (set_speculative (delete key (speculative_executions ex)) ex,
   (λ _, ExecutorAction.CancelSpeculativeExecution plan_id task) <$>
   (speculative_executions ex !! key)).

Definition with_audit_chain (ex : t) (chain : AuditChain) : t :=
  set_audit_chain (Some chain) ex.

Definition deps_satisfied (ex : t) (plan_id : string) : bool :=
  match plan_deps ex !! plan_id with
  | None => true
  | Some deps =>
      forallb (λ dep, match plans ex !! dep with
                      | Some s => PlanState.is_terminal s
                      | None => false
                      end) deps
  end.

Definition can_dispatch (ex : t) (plan_id : string) : bool := deps_satisfied ex plan_id.

(** The loop of [tick] over the queue, with the counter of active plans. *)
Fixpoint tick_loop (ex : t) (active_count : nat) (queue : list string) :
    list ExecutorAction :=
  match queue with
  | [] => []
  | plan_id :: queue' =>
      match plans ex !! plan_id with
      | None => tick_loop ex active_count queue'
      | Some state =>
          if PlanState.is_terminal state then tick_loop ex active_count queue'
          else if PlanState.paused state then tick_loop ex active_count queue'
          else if negb (deps_satisfied ex plan_id) then tick_loop ex active_count queue'
          else
            let active_count := S active_count in
            if (ExecutorConfig.max_concurrent_plans (config ex) <? active_count)%nat then []
            else
              match PlanStateMachine.next_action state with
              | Some action => action :: tick_loop ex active_count queue'
              | None => tick_loop ex active_count queue'
              end
      end
  end.

Definition tick (ex : t) : list ExecutorAction := tick_loop ex 0 (queue ex).

Section Audited.
Context {B3 : Blake3}.

(** The executor after the transition and the result returned; [now_ms] is
    the timestamp of the audit entry. *)
Definition apply_event (now_ms : Z) (ex : t) (plan_id : string) (event : ExecutorEvent) :
    t * result PlanPhase TransitionError :=
  match plans ex !! plan_id with
  | None =>
      (ex, Err (TransitionError.mk PhaseKind.Queued PhaseKind.Failed
                  ("plan '" +:+ plan_id +:+ "' not found")))
  | Some state =>
      let from_kind := PlanPhase.kind (PlanState.current_phase state) in
      match PlanStateMachine.transition state event with
      | Err e => (ex, Err e)
      | Ok new_phase =>
          let to_kind := PlanPhase.kind new_phase in
          let state := PlanState.set_current_phase new_phase state in
          let state :=
            match new_phase with
            | PlanPhase.Failed reason =>
                PlanState.set_last_error (Some (FailureKind.display reason)) state
            | _ => state
            end in
          let ex := set_plans (<[plan_id := state]> (plans ex)) ex in
          let ex :=
            match audit_chain ex with
            | Some chain =>
                let kind := "phase." +:+ PhaseKind.debug from_kind +:+ "->" +:+
                            PhaseKind.debug to_kind in
                let entry := AuditEntry.new now_ms zero_hash kind "executor" plan_id in
                set_audit_chain (Some (AuditChain.append chain entry).1) ex
            | None => ex
            end in
          (ex, Ok new_phase)
      end
  end.
End Audited.

Definition pause_plan (ex : t) (plan_id : string) : t * bool :=
  match plans ex !! plan_id with
  | Some state =>
      if PlanState.paused state || PlanState.is_terminal state then (ex, false)
      else (set_plans (<[plan_id := PlanState.set_paused true state]> (plans ex)) ex, true)
  | None => (ex, false)
  end.

Definition resume_plan (ex : t) (plan_id : string) : t * bool :=
  match plans ex !! plan_id with
  | Some state =>
      if negb (PlanState.paused state) then (ex, false)
      else (set_plans (<[plan_id := PlanState.set_paused false state]> (plans ex)) ex, true)
  | None => (ex, false)
  end.

Definition restart_plan (now_ms : N) (ex : t) (plan_id : string) : t * option PlanPhase :=
  match plans ex !! plan_id with
  | None => (ex, None)
  | Some state =>
      (set_plans (<[plan_id := PlanState.restart_for_replan now_ms state]> (plans ex)) ex,
       Some (PlanState.current_phase state))
  end.

Definition requeue_retryable_terminal (now_ms : N) (ex : t) (plan_id : string) :
    t * option PlanResumeDirective :=
  match plans ex !! plan_id with
  | None => (ex, None)
  | Some state =>
      match PlanState.requeue_retryable_terminal now_ms state with
      | (_, None) => (ex, None)
      | (state, Some directive) =>
          let ex := set_plans (<[plan_id := state]> (plans ex)) ex in
          let ex :=
            if decide (plan_id ∈ queue ex) then ex
            else set_queue (queue ex ++ [plan_id]) ex in
          (ex, Some directive)
      end
  end.

Definition retryable_terminal_plans `{!HashIter} (ex : t) (now_ms : N) :
    list RecoveredPlanResume :=
  let out := omap (λ state,
    let directive := PlanState.resume_directive state in
    let retry_after_ms :=
      (λ secs, sat_add64 now_ms (sat_mul64 secs 1000)) <$>
      PlanResumeDirective.cooldown_secs directive in
    if PlanResumeDirective.is_retryable_terminal directive then
      Some {| RecoveredPlanResume.plan_id := PlanState.plan_id state;
              RecoveredPlanResume.phase := PlanState.current_phase state;
              RecoveredPlanResume.iteration := PlanState.iteration state;
              RecoveredPlanResume.directive := directive;
              RecoveredPlanResume.retry_after_ms := retry_after_ms |}
    else None) (hash_values (plans ex)) in
  sort_by (λ a b, String.leb (RecoveredPlanResume.plan_id a) (RecoveredPlanResume.plan_id b))
    out.

Definition demote_failed (ex : t) (plan_id : string) : t :=
  set_queue (reorder_queue (queue ex) plan_id) ex.

Definition reorder_by_priority (ex : t) : t :=
  let priorities := PlanState.priority <$> plans ex in
  set_queue (priority_reorder (queue ex) priorities) ex.

Definition reorder_plan (ex : t) (plan_id : string) (new_position : nat) : t * bool :=
  match str_position plan_id (queue ex) with
  | None => (ex, false)
  | Some current_index =>
      let rest := vec_remove current_index (queue ex) in
      let pos := Nat.min new_position (length rest) in
      (set_queue (vec_insert pos plan_id rest) ex, true)
  end.

(** The loop of [active_plans], with the result so far. *)
Fixpoint active_loop (ex : t) (result : list string) (queue : list string) : list string :=
  match queue with
  | [] => result
  | plan_id :: queue' =>
      match plans ex !! plan_id with
      | Some state =>
          if negb (PlanState.is_terminal state) && negb (PlanState.paused state) then
            let result := result ++ [plan_id] in
            if (ExecutorConfig.max_concurrent_plans (config ex) <=? length result)%nat
            then result else active_loop ex result queue'
          else active_loop ex result queue'
      | None => active_loop ex result queue'
      end
  end.

Definition active_plans (ex : t) : list string := active_loop ex [] (queue ex).

Definition completed_plans `{!HashIter} (ex : t) : list string :=
  (List.filter (λ p, PlanState.is_terminal p.2) (hash_iter (plans ex))).*1.

Definition plan_state (ex : t) (plan_id : string) : option PlanState := plans ex !! plan_id.

(** A caller's write through [plan_state_mut]. *)
Definition plan_state_mut (ex : t) (plan_id : string) (f : PlanState → PlanState) : t :=
  match plans ex !! plan_id with
  | Some state => set_plans (<[plan_id := f state]> (plans ex)) ex
  | None => ex
  end.

Definition plan_count (ex : t) : nat := size (plans ex).

Definition snapshot (ex : t) (timestamp_ms : N) : ExecutorSnapshot :=
  {| ExecutorSnapshot.schema_version := current_schema_version;
     ExecutorSnapshot.plan_states := plans ex;
     ExecutorSnapshot.queue_order := queue ex;
     ExecutorSnapshot.conductor_circuit_breaker := None;
     ExecutorSnapshot.speculative_executions := speculative_executions ex;
     ExecutorSnapshot.timestamp_ms := timestamp_ms |}.
End ParallelExecutor.
Abbreviation ParallelExecutor := ParallelExecutor.t.

(** ** The executor invariant *)

Module Ex := ParallelExecutor.

(** The queue lists every plan exactly once, and every plan is stored under its
    own id. *)
Record executor_wf (ex : ParallelExecutor) : Prop := {
  wf_queue_nodup : NoDup (Ex.queue ex);
  wf_queue_dom : ∀ id, id ∈ Ex.queue ex ↔ is_Some (Ex.plans ex !! id);
  wf_plan_ids : ∀ id s, Ex.plans ex !! id = Some s → PlanState.plan_id s = id;
}.

(** Plans replaced in place: same keys, same ids. *)
Lemma wf_update ex id s s' :
  executor_wf ex → Ex.plans ex !! id = Some s →
  PlanState.plan_id s' = PlanState.plan_id s →
  executor_wf (Ex.set_plans (<[id := s']> (Ex.plans ex)) ex).
Proof.
  intros [Hn Hd Hi] Hs Hid. constructor; simpl; [done|..].
  - intros x. rewrite Hd. destruct (decide (x = id)) as [->|].
    + rewrite lookup_insert_eq, Hs. split; eauto.
    + by rewrite lookup_insert_ne.
  - intros x t [[<- <-]|[_ Hx]]%lookup_insert_Some; [rewrite Hid; by apply Hi|by apply Hi].
Qed.

Lemma wf_insert ex id s :
  executor_wf ex → Ex.plans ex !! id = None → PlanState.plan_id s = id →
  executor_wf (Ex.set_queue (Ex.queue ex ++ [id])
                 (Ex.set_plans (<[id := s]> (Ex.plans ex)) ex)).
Proof.
  intros [Hn Hd Hi] Hs Hid. constructor; simpl.
  - apply NoDup_app. split_and!; [done| |apply NoDup_singleton].
    intros x Hx ->%list_elem_of_singleton. apply Hd in Hx. rewrite Hs in Hx. by destruct Hx.
  - intros x. rewrite elem_of_app, list_elem_of_singleton, Hd.
    destruct (decide (x = id)) as [->|].
    + rewrite lookup_insert_eq, Hs. split; eauto.
    + rewrite lookup_insert_ne by done. split; [by intros [?|?]|by left].
  - intros x t [[<- <-]|[_ Hx]]%lookup_insert_Some; [done|by apply Hi].
Qed.

(** Another order of the same queue. *)
Lemma wf_requeue ex q :
  executor_wf ex → NoDup q → (∀ id, id ∈ q ↔ id ∈ Ex.queue ex) →
  executor_wf (Ex.set_queue q ex).
Proof. intros [Hn Hd Hi] Hq Hin. constructor; simpl; [done|set_solver|done]. Qed.

(** Changes that touch neither the plans nor the queue. *)
Lemma wf_frame ex ex' :
  executor_wf ex → Ex.plans ex' = Ex.plans ex → Ex.queue ex' = Ex.queue ex →
  executor_wf ex'.
Proof. intros [Hn Hd Hi] Hp Hq. constructor; rewrite ?Hp, ?Hq; done. Qed.

#[export] Hint Resolve wf_update wf_insert wf_requeue : roko.

(** One call of the executor's interface that changes its state. *)
Inductive exec_step {B3 : Blake3} : ParallelExecutor → ParallelExecutor → Prop :=
  | step_add_plan ex s : exec_step ex (Ex.add_plan ex s).1
  | step_set_deps ex deps : exec_step ex (Ex.set_plan_dependencies ex deps)
  | step_register now ex p t em el role cost :
      exec_step ex (Ex.register_speculative_execution now ex p t em el role cost).1
  | step_resolve ex p t : exec_step ex (Ex.resolve_speculative_execution ex p t).1
  | step_audit ex c : exec_step ex (Ex.with_audit_chain ex c)
  | step_apply_event now ex p e : exec_step ex (Ex.apply_event now ex p e).1
  | step_pause ex p : exec_step ex (Ex.pause_plan ex p).1
  | step_resume ex p : exec_step ex (Ex.resume_plan ex p).1
  | step_restart now ex p : exec_step ex (Ex.restart_plan now ex p).1
  | step_requeue now ex p : exec_step ex (Ex.requeue_retryable_terminal now ex p).1
  | step_mut ex p f : (∀ s, PlanState.plan_id (f s) = PlanState.plan_id s) →
      exec_step ex (Ex.plan_state_mut ex p f)
  | step_demote ex p : exec_step ex (Ex.demote_failed ex p)
  | step_priority ex : exec_step ex (Ex.reorder_by_priority ex)
  | step_reorder ex p i : exec_step ex (Ex.reorder_plan ex p i).1.

Section Invariant.
Context {B3 : Blake3}.

(** The two shapes of [apply_event]. *)
Lemma apply_event_cases now ex p e :
  (∃ err, Ex.apply_event now ex p e = (ex, Err err)) ∨
  (∃ s q c, Ex.plans ex !! p = Some s ∧
     PlanStateMachine.transition s e = Ok q ∧
     Ex.apply_event now ex p e =
       (Ex.set_audit_chain c (Ex.set_plans
          (<[p := match q with
                  | PlanPhase.Failed reason =>
                      PlanState.set_last_error (Some (FailureKind.display reason))
                        (PlanState.set_current_phase q s)
                  | _ => PlanState.set_current_phase q s
                  end]> (Ex.plans ex)) ex), Ok q) ∧
     c = match Ex.audit_chain ex with
         | Some chain =>
             Some (AuditChain.append chain
               (AuditEntry.new now zero_hash
                  ("phase." +:+ PhaseKind.debug (PlanPhase.kind (PlanState.current_phase s))
                   +:+ "->" +:+ PhaseKind.debug (PlanPhase.kind q)) "executor" p)).1
         | None => None
         end).
Proof.
  unfold Ex.apply_event. destruct (Ex.plans ex !! p) as [s|] eqn:Es; [|by left; eauto].
  destruct (PlanStateMachine.transition s e) as [q|err] eqn:Et; [|by left; eauto].
  right. exists s, q. eexists. split_and!; [done..| |reflexivity]. simpl.
  by destruct (Ex.audit_chain ex) eqn:Ea; destruct ex; simpl in *; subst.
Qed.

Lemma reorder_plan_queue ex p i :
  Ex.queue (Ex.reorder_plan ex p i).1 ≡ₚ Ex.queue ex ∧
  Ex.plans (Ex.reorder_plan ex p i).1 = Ex.plans ex.
Proof.
  unfold Ex.reorder_plan. destruct (str_position p (Ex.queue ex)) as [j|] eqn:E; [|done].
  apply str_position_Some in E. split; [|done]. simpl.
  rewrite vec_insert_perm. symmetry. by apply vec_remove_perm.
Qed.

Lemma exec_step_wf ex ex' : exec_step ex ex' → executor_wf ex → executor_wf ex'.
Proof.
  intros Hst Hwf. pose proof Hwf as [Hn Hd Hi].
  destruct Hst as [ex s|ex deps|now ex p t em el role cost|ex p t|ex c|now ex p e|ex p|ex p
                  |now ex p|now ex p|ex p f Hf|ex p|ex|ex p i].
  - unfold Ex.add_plan. case_decide as Hs; [done|]. apply wf_insert; [done| |done].
    by apply eq_None_not_Some.
  - by eapply wf_frame.
  - unfold Ex.register_speculative_execution. cbv zeta. repeat case_match; try done;
      by eapply wf_frame.
  - by eapply wf_frame.
  - by eapply wf_frame.
  - destruct (apply_event_cases now ex p e) as [[err ->]|(s & q & c & Hs & _ & -> & _)];
      [done|].
    cbn [fst]. match goal with |- executor_wf (Ex.set_audit_chain _ ?x) => apply (wf_frame x) end;
      [|done..]. eapply wf_update; [done..|]. by destruct q.
  - unfold Ex.pause_plan. destruct (Ex.plans ex !! p) eqn:E; [|done].
    case_match; [done|]. by eapply wf_update.
  - unfold Ex.resume_plan. destruct (Ex.plans ex !! p) eqn:E; [|done].
    case_match; [done|]. by eapply wf_update.
  - unfold Ex.restart_plan. destruct (Ex.plans ex !! p) eqn:E; [|done].
    by eapply wf_update.
  - unfold Ex.requeue_retryable_terminal, PlanState.requeue_retryable_terminal.
    destruct (Ex.plans ex !! p) as [s|] eqn:E; [|done].
    destruct (PlanResumeDirective.is_retryable_terminal _); [|done].
    simpl. case_decide as Hq; [by eapply wf_update|].
    destruct Hq. apply Hd. eauto.
  - unfold Ex.plan_state_mut. destruct (Ex.plans ex !! p) eqn:E; [|done].
    by eapply wf_update.
  - apply wf_requeue; [done|by apply NoDup_reorder_queue|].
    intros id. apply elem_of_reorder_queue.
  - apply wf_requeue; [done|by apply NoDup_priority_reorder|].
    intros id. apply elem_of_priority_reorder.
  - destruct (reorder_plan_queue ex p i) as [Hq Hp].
    constructor; rewrite ?Hp; [by rewrite Hq| |done]. intros id. by rewrite Hq.
Qed.

(** An executor that was created and used through its interface. *)
Inductive reachable : ParallelExecutor → Prop :=
  | reach_new cfg : reachable (Ex.new cfg)
  | reach_restored cfg ex now : reachable ex → reachable (Ex.from_snapshot cfg (Ex.snapshot ex now))
  | reach_step ex ex' : reachable ex → exec_step ex ex' → reachable ex'.

Lemma reachable_wf ex : reachable ex → executor_wf ex.
Proof.
  induction 1 as [cfg|cfg ex now _ IH|ex ex' _ IH Hst]; [|by eapply wf_frame|by eapply exec_step_wf].
  constructor; simpl; [apply NoDup_nil_2| |].
  - intros id. rewrite lookup_empty. split; [set_solver|by intros []].
  - intros id s. by rewrite lookup_empty.
Qed.
End Invariant.

(** ** Dispatch *)

(** A plan [tick] considers active: present, neither terminal nor paused, with
    all its dependencies terminal. *)
Definition eligible (ex : ParallelExecutor) (id : string) : option PlanState :=
  match Ex.plans ex !! id with
  | Some s =>
      if negb (PlanState.is_terminal s) && negb (PlanState.paused s) &&
         Ex.deps_satisfied ex id
      then Some s else None
  | None => None
  end.

Lemma tick_loop_spec ex n q :
  (n ≤ ExecutorConfig.max_concurrent_plans (Ex.config ex))%nat →
  Ex.tick_loop ex n q =
    omap PlanStateMachine.next_action
      (take (ExecutorConfig.max_concurrent_plans (Ex.config ex) - n) (omap (eligible ex) q)).
Proof.
  set (m := ExecutorConfig.max_concurrent_plans (Ex.config ex)).
  revert n. induction q as [|id q IH]; intros n Hn; [simpl; by rewrite take_nil|].
  cbn [Ex.tick_loop omap list_omap]. unfold eligible at 1. fold m.
  destruct (Ex.plans ex !! id) as [s|]; [|by apply IH].
  destruct (PlanState.is_terminal s), (PlanState.paused s), (Ex.deps_satisfied ex id); simpl;
    try by apply IH.
  destruct (Nat.ltb_spec m (S n)) as [Hlt|Hge].
  - by replace (m - n)%nat with 0%nat by lia.
  - replace (m - n)%nat with (S (m - S n)) by lia. cbn [take omap list_omap].
    destruct (PlanStateMachine.next_action s); by rewrite IH by lia.
Qed.

Lemma next_action_plan s a :
  PlanStateMachine.next_action s = Some a →
  ExecutorAction.plan_of a = Some (PlanState.plan_id s).
Proof.
  unfold PlanStateMachine.next_action. case_match; [done|].
  destruct (PlanPhase.kind (PlanState.current_phase s)); by intros [= <-].
Qed.

Lemma eligible_Some ex id s :
  eligible ex id = Some s ↔
    Ex.plans ex !! id = Some s ∧ PlanState.is_terminal s = false ∧
    PlanState.paused s = false ∧ Ex.deps_satisfied ex id = true.
Proof.
  unfold eligible. destruct (Ex.plans ex !! id) as [s'|]; [|by split; [|intros [? _]]].
  destruct (negb (PlanState.is_terminal s') && _ && _) eqn:E; split; try done.
  - intros [= <-].
    by apply andb_prop in E as [[?%negb_true_iff ?%negb_true_iff]%andb_prop ?].
  - by intros ([= ->] & _).
  - intros ([= ->] & Ht & Hp & Hd). by rewrite Ht, Hp, Hd in E.
Qed.

Lemma deps_satisfied_spec ex id :
  Ex.deps_satisfied ex id = true ↔
    ∀ deps d, Ex.plan_deps ex !! id = Some deps → d ∈ deps →
      ∃ s, Ex.plans ex !! d = Some s ∧ PlanState.is_terminal s = true.
Proof.
  unfold Ex.deps_satisfied. destruct (Ex.plan_deps ex !! id) as [deps|]; [|by split].
  rewrite forallb_forall. setoid_rewrite <-list_elem_of_In. split.
  - intros H deps' d [= <-] Hd. specialize (H d Hd).
    destruct (Ex.plans ex !! d) as [s|]; [eauto|done].
  - intros H d Hd. by destruct (H deps d eq_refl Hd) as (s & -> & ->).
Qed.

(** The ids of the eligible plans of a queue are a sublist of it. *)
Lemma eligible_ids_sublist ex q :
  (∀ id s, Ex.plans ex !! id = Some s → PlanState.plan_id s = id) →
  PlanState.plan_id <$> omap (eligible ex) q `sublist_of` q.
Proof.
  intros Hi. induction q as [|id q IH]; [done|]. cbn [omap list_omap].
  destruct (eligible ex id) as [s|] eqn:E; [|by apply sublist_cons].
  apply eligible_Some in E as [Hs _]. rewrite fmap_cons, (Hi _ _ Hs). by apply sublist_skip.
Qed.

Lemma action_plans_sublist l :
  omap ExecutorAction.plan_of (omap PlanStateMachine.next_action l) `sublist_of`
  (PlanState.plan_id <$> l).
Proof.
  induction l as [|s l IH]; [done|]. cbn [omap list_omap]. rewrite fmap_cons.
  destruct (PlanStateMachine.next_action s) as [a|] eqn:E; [|by apply sublist_cons].
  cbn [omap list_omap]. rewrite (next_action_plan _ _ E). by apply sublist_skip.
Qed.

(** C2: dispatch.  In a well-formed executor [tick] asks for the next action of
    the first [max_concurrent_plans] eligible plans of the queue, in queue order:
    never more actions than that, at most one per plan, and only for plans that
    are neither terminal nor paused and whose dependencies are all terminal. *)
Theorem tick_dispatch ex :
  executor_wf ex →
  let m := ExecutorConfig.max_concurrent_plans (Ex.config ex) in
  Ex.tick ex =
    omap PlanStateMachine.next_action (take m (omap (eligible ex) (Ex.queue ex))) ∧
  (length (Ex.tick ex) ≤ m)%nat ∧
  NoDup (omap ExecutorAction.plan_of (Ex.tick ex)) ∧
  ∀ a, a ∈ Ex.tick ex → ∃ id s,
    ExecutorAction.plan_of a = Some id ∧ Ex.plans ex !! id = Some s ∧
    PlanState.is_terminal s = false ∧ PlanState.paused s = false ∧
    ∀ deps d, Ex.plan_deps ex !! id = Some deps → d ∈ deps →
      ∃ t, Ex.plans ex !! d = Some t ∧ PlanState.is_terminal t = true.
Proof.
  intros [Hn Hd Hi] m.
  assert (Ex.tick ex =
    omap PlanStateMachine.next_action (take m (omap (eligible ex) (Ex.queue ex)))) as Ht.
  { unfold Ex.tick. rewrite tick_loop_spec by lia. by rewrite Nat.sub_0_r. }
  rewrite Ht. split_and!; [done|..].
  - etrans; [apply length_omap_le|]. rewrite length_take. lia.
  - eapply sublist_NoDup; [exact Hn|]. etrans; [apply action_plans_sublist|].
    etrans; [|by apply (eligible_ids_sublist ex)]. by apply fmap_sublist, sublist_take.
  - intros a (s & Hs & Ha)%list_elem_of_omap.
    apply elem_of_take_weaken, list_elem_of_omap in Hs as (id & _ & Hs).
    apply eligible_Some in Hs as (Hs & ? & ? & Hdep). exists id, s. split_and!; try done.
    + rewrite (next_action_plan _ _ Ha). by rewrite (Hi _ _ Hs).
    + by apply deps_satisfied_spec.
Qed.

(** A two-plan executor: [b] waits for [a]. *)
Definition example_executor : ParallelExecutor :=
  Ex.set_plan_dependencies
    (Ex.add_plan (Ex.add_plan (Ex.new ExecutorConfig.default) (PlanState.new "a")).1
       (PlanState.new "b")).1
    {["b" := ["a"]]}.

Lemma example_executor_reachable : @reachable poly_blake3 example_executor.
Proof.
  eapply reach_step; [|apply step_set_deps].
  eapply reach_step; [|apply step_add_plan]. eapply reach_step; [|apply step_add_plan].
  apply reach_new.
Qed.

Lemma tick_dispatch_witness :
  Ex.tick example_executor = [ExecutorAction.DispatchPlan "a"].
Proof.
  destruct (tick_dispatch example_executor) as [H _].
  - eapply reachable_wf, example_executor_reachable.
  - rewrite H. by vm_compute.
Defined.

(** the executor invariant.  An executor that was created empty, used
    through any of its operations, and restored from its own snapshots lists
    every plan exactly once in its queue and stores each plan under its id. *)
Theorem executor_reachable_wf {B3 : Blake3} ex : reachable ex → executor_wf ex.
Proof. apply reachable_wf. Qed.

Lemma executor_reachable_wf_witness : NoDup (Ex.queue example_executor).
Proof.
  apply (executor_reachable_wf (B3 := poly_blake3)), example_executor_reachable.
Defined.

(** ** Events *)

Definition phase_of (ex : ParallelExecutor) (id : string) : option PlanPhase :=
  PlanState.current_phase <$> (Ex.plans ex !! id).

Section Events.
Context {B3 : Blake3}.

(** What a successful event leaves of the audit chain. *)
Definition audited (p : string) (from to : PhaseKind) (before after : option AuditChain) :
    Prop :=
  match before, after with
  | None, None => True
  | Some c, Some c' =>
      (∃ e, AuditChain.entries c' = AuditChain.entries c ++ [e] ∧
         AuditEntry.kind e =
           "phase." +:+ PhaseKind.debug from +:+ "->" +:+ PhaseKind.debug to ∧
         AuditEntry.actor e = "executor" ∧ AuditEntry.resource e = p) ∧
      (AuditChain.verify c = true → AuditChain.verify c' = true)
  | _, _ => False
  end.
End Events.

(** C11: [apply_event] moves exactly the addressed plan, exactly along the
    lifecycle.  On success only the phase (and, on failure, the last error) of
    that plan changes, every other plan, the queue, the dependencies and the
    configuration are untouched, and an attached audit chain gains one entry for
    the transition and still verifies; on error nothing changes and the lifecycle
    had no such step. *)
Theorem apply_event_spec {B3 : Blake3} now ex p e :
  match Ex.apply_event now ex p e with
  | (ex', Err _) =>
      ex' = ex ∧
      ∀ s, Ex.plans ex !! p = Some s →
        ¬ ∃ q, lifecycle (PlanState.iteration s) (PlanState.merge_attempts s)
                 (PlanState.current_phase s) e q
  | (ex', Ok q) =>
      ∃ s err, Ex.plans ex !! p = Some s ∧
        lifecycle (PlanState.iteration s) (PlanState.merge_attempts s)
          (PlanState.current_phase s) e q ∧
        Ex.plans ex' =
          <[p := PlanState.set_last_error err (PlanState.set_current_phase q s)]> (Ex.plans ex) ∧
        (err = PlanState.last_error s ∨
         ∃ reason, q = PlanPhase.Failed reason ∧ err = Some (FailureKind.display reason)) ∧
        Ex.queue ex' = Ex.queue ex ∧ Ex.plan_deps ex' = Ex.plan_deps ex ∧
        Ex.config ex' = Ex.config ex ∧
        Ex.speculative_executions ex' = Ex.speculative_executions ex ∧
        audited p (PlanPhase.kind (PlanState.current_phase s)) (PlanPhase.kind q)
          (Ex.audit_chain ex) (Ex.audit_chain ex')
  end.
Proof.
  destruct (Ex.apply_event now ex p e) as [ex' [q|err]] eqn:E.
  - destruct (apply_event_cases now ex p e) as [[err' H]|(s & q' & c & Hs & Ht & H & Hc)];
      rewrite H in E; [done|]. injection E as <- <-.
    exists s, (match q' with PlanPhase.Failed r => Some (FailureKind.display r)
                           | _ => PlanState.last_error s end).
    split_and!; try done.
    + by apply transition_lifecycle.
    + simpl. f_equal. by destruct q', s.
    + destruct q'; eauto.
    + rewrite Hc. unfold audited. simpl. destruct (Ex.audit_chain ex) as [chain|]; [|done].
      split; [|apply append_linked]. by eexists.
  - unfold Ex.apply_event in E. destruct (Ex.plans ex !! p) as [s|] eqn:Es.
    + destruct (PlanStateMachine.transition s e) as [q|err'] eqn:Et; [by simplify_eq|].
      injection E as <- <-. split; [done|]. intros s' [= <-] [q Hq%lifecycle_transition].
      congruence.
    + injection E as <- <-. split; [done|]. intros s Hs. congruence.
Qed.

(** ** Runs *)

Section Runs.
Context {B3 : Blake3}.

(** A sequence of events, each with its clock reading and its plan. *)
Fixpoint run (ex : ParallelExecutor) (evs : list (Z * string * ExecutorEvent)) :
    ParallelExecutor :=
  match evs with
  | [] => ex
  | (now, p, e) :: evs' => run (Ex.apply_event now ex p e).1 evs'
  end.

(** The phases a plan goes through along a run. *)
Fixpoint phase_trace (id : string) (ex : ParallelExecutor)
    (evs : list (Z * string * ExecutorEvent)) : list (option PhaseKind) :=
  (PlanPhase.kind <$> phase_of ex id) ::
  match evs with
  | [] => []
  | (now, p, e) :: evs' => phase_trace id (Ex.apply_event now ex p e).1 evs'
  end.

Lemma apply_event_phase now ex p e id :
  phase_of (Ex.apply_event now ex p e).1 id = phase_of ex id ∨
  ∃ s q, Ex.plans ex !! id = Some s ∧
    lifecycle (PlanState.iteration s) (PlanState.merge_attempts s)
      (PlanState.current_phase s) e q ∧
    phase_of (Ex.apply_event now ex p e).1 id = Some q.
Proof.
  destruct (apply_event_cases now ex p e) as [[err ->]|(s & q & c & Hs & Ht & -> & _)];
    [by left|]. unfold phase_of. simpl. destruct (decide (id = p)) as [->|Hne].
  - right. exists s, q. rewrite lookup_insert_eq. split_and!;
      [done|by apply transition_lifecycle|by destruct q].
  - left. by rewrite lookup_insert_ne.
Qed.

Lemma run_table_path ex evs id a c :
  phase_of ex id = Some a → phase_of (run ex evs) id = Some c →
  ∃ l, table_path (PlanPhase.kind a) l (PlanPhase.kind c) ∧
    ∀ x, x ∈ l → Some x ∈ phase_trace id ex evs.
Proof.
  revert ex a. induction evs as [|[[now p] e] evs IH]; intros ex a Ha Hc; cbn [run] in Hc.
  - rewrite Ha in Hc. injection Hc as ->. exists [PlanPhase.kind c].
    split; [constructor|]. simpl. rewrite Ha. set_solver.
  - cbn [phase_trace]. rewrite Ha.
    destruct (apply_event_phase now ex p e id) as [Hp|(s & q & Hs & Hl & Hp)].
    + rewrite Ha in Hp. destruct (IH _ _ Hp Hc) as (l & Hl & Hx).
      exists l. split; [done|]. intros x Hin. right. by apply Hx.
    + destruct (IH _ _ Hp Hc) as (l & Hpath & Hx).
      unfold phase_of in Ha. rewrite Hs in Ha. injection Ha as <-.
      exists (PlanPhase.kind (PlanState.current_phase s) :: l). split.
      * econstructor; [|done]. by eapply lifecycle_in_table.
      * intros x [->|Hin]%elem_of_cons; [left|right; by apply Hx].
Qed.

Lemma lifecycle_terminal it ma p e q : lifecycle it ma p e q → PlanPhase.is_terminal p = false.
Proof. by destruct 1. Qed.

Lemma run_terminal ex evs id a :
  phase_of ex id = Some a → PlanPhase.is_terminal a = true →
  phase_of (run ex evs) id = Some a.
Proof.
  revert ex. induction evs as [|[[now p] e] evs IH]; intros ex Ha Ht; [done|].
  cbn [run]. apply IH; [|done]. rewrite <-Ha.
  destruct (apply_event_phase now ex p e id) as [Hp|(s & q & Hs & Hl & Hp)]; [done|].
  apply lifecycle_terminal in Hl. unfold phase_of in Ha. rewrite Hs in Ha.
  injection Ha as <-. congruence.
Qed.

Lemma lifecycle_not_done it ma p e q : lifecycle it ma p e q → q ≠ PlanPhase.Done.
Proof. by destruct 1. Qed.
End Runs.

(** C1: a plan that the executor takes from [Queued] to [Complete], by any
    sequence of events for any plans, has been through every mandatory phase
    (enrichment, implementation, gating, verification, review, documentation and
    merge), and it stays complete whatever events follow. *)
Theorem complete_plan_was_fully_checked {B3 : Blake3} ex evs id :
  phase_of ex id = Some PlanPhase.Queued →
  phase_of (run ex evs) id = Some PlanPhase.Complete →
  (∀ k, k ∈ mandatory_phases → Some k ∈ phase_trace id ex evs) ∧
  ∀ evs', phase_of (run (run ex evs) evs') id = Some PlanPhase.Complete.
Proof.
  intros Hq Hc. split; [|intros evs'; by apply run_terminal].
  intros k Hk. destruct (run_table_path ex evs id _ _ Hq Hc) as (l & Hl & Hin).
  apply Hin. by eapply complete_path_mandatory.
Qed.

Definition happy_path : list (Z * string * ExecutorEvent) :=
  (λ e, (0%Z, "a", e)) <$>
    [ExecutorEvent.Start; ExecutorEvent.EnrichmentDone; ExecutorEvent.ImplementationDone;
     ExecutorEvent.GateFailed; ExecutorEvent.AutoFixDone; ExecutorEvent.GatePassed;
     ExecutorEvent.VerifyPassed; ExecutorEvent.ReviewApproved;
     ExecutorEvent.DocRevisionDone; ExecutorEvent.MergeSucceeded].

Lemma complete_plan_was_fully_checked_witness :
  Some PhaseKind.Reviewing ∈ @phase_trace poly_blake3 "a" example_executor happy_path.
Proof.
  apply (@complete_plan_was_fully_checked poly_blake3).
  - by vm_compute.
  - by vm_compute.
  - apply (bool_decide_unpack _). by vm_compute.
Defined.

(** The counters an event never touches. *)
Lemma run_counters {B3 : Blake3} ex evs id s :
  Ex.plans ex !! id = Some s →
  ∃ s', Ex.plans (run ex evs) !! id = Some s' ∧
    PlanState.iteration s' = PlanState.iteration s ∧
    PlanState.merge_attempts s' = PlanState.merge_attempts s.
Proof.
  revert ex s. induction evs as [|[[now p] e] evs IH]; intros ex s Hs; [by exists s|].
  cbn [run]. destruct (apply_event_cases now ex p e) as [[err ->]|(t & q & c & Ht & _ & -> & _)];
    [by apply IH|]. cbn [fst].
  destruct (decide (id = p)) as [->|Hne].
  - rewrite Ht in Hs. injection Hs as ->.
    match goal with |- ∃ _, Ex.plans (run ?x _) !! _ = _ ∧ _ =>
      destruct (IH x _ (lookup_insert_eq _ _ _)) as (s' & H1 & H2 & H3) end.
    exists s'. split; [done|]. rewrite H2, H3. by destruct q.
  - apply IH. simpl. by rewrite lookup_insert_ne.
Qed.

(** events alone never exhaust a limit.  Whatever events arrive, a queued
    plan whose counters are below the limits never fails as exhausted or
    deadlocked and never reaches [Done]: no event advances the auto-fix iteration
    or the merge attempts, so the loop between gating and auto-fixing is bounded
    only by what callers write into the plan state. *)
Theorem events_never_exhaust {B3 : Blake3} ex evs id s :
  Ex.plans ex !! id = Some s → PlanState.current_phase s = PlanPhase.Queued →
  (PlanState.iteration s < MAX_AUTO_FIX_ITERATIONS)%N →
  (PlanState.merge_attempts s < MAX_MERGE_ATTEMPTS)%N →
  phase_of (run ex evs) id ≠ Some (PlanPhase.Failed FailureKind.AutoFixExhausted) ∧
  phase_of (run ex evs) id ≠ Some (PlanPhase.Failed FailureKind.Deadlock) ∧
  phase_of (run ex evs) id ≠ Some PlanPhase.Done.
Proof.
  set (bad := λ p, p = PlanPhase.Failed FailureKind.AutoFixExhausted ∨
                   p = PlanPhase.Failed FailureKind.Deadlock ∨ p = PlanPhase.Done).
  intros Hs Hq Hi Hm.
  assert (∀ p, phase_of (run ex evs) id = Some p → ¬ bad p) as Hgood;
    [|by split_and!; intros H%Hgood; apply H; unfold bad; auto].
  assert (∀ p, phase_of ex id = Some p → ¬ bad p) as H0.
  { unfold phase_of. rewrite Hs. simpl. rewrite Hq. intros p [= <-].
    unfold bad. by intros [?|[?|?]]. }
  clear Hq. revert ex s Hs Hi Hm H0.
  induction evs as [|[[now p] e] evs IH]; intros ex s Hs Hi Hm H0; [done|]. cbn [run].
  destruct (run_counters ex [(now, p, e)] id s Hs) as (s' & Hs' & Hi' & Hm').
  cbn [run] in Hs'. apply (IH _ s'); [done|by rewrite Hi'|by rewrite Hm'|].
  intros q Hp'.
  destruct (apply_event_phase now ex p e id) as [Hp|(t & q' & Ht & Hl & Hp)];
    rewrite Hp in Hp'; [by apply H0|]. injection Hp' as ->.
  rewrite Hs in Ht. injection Ht as <-. unfold bad.
  destruct Hl; intros [?|[?|?]]; try done; lia.
Qed.

Lemma events_never_exhaust_witness :
  phase_of (@run poly_blake3 example_executor happy_path) "a" ≠
    Some (PlanPhase.Failed FailureKind.AutoFixExhausted).
Proof.
  apply (@events_never_exhaust poly_blake3 example_executor happy_path "a" (PlanState.new "a"));
    by vm_compute.
Defined.

(** ** Restoring from recovered state *)

Section Restore.
Context {HI : HashIter}.
Implicit Types ps : gmap string PlanPhaseInfo.

Definition known ps (id : string) : bool := bool_decide (is_Some (ps !! id)).

Lemma restore_plans_spec ps ex l (ex' := foldl (Ex.restore_plan ps) ex l) :
  Ex.queue ex' = Ex.queue ex ++ List.filter (known ps) l ∧
  ∀ id, Ex.plans ex' !! id =
    if decide (id ∈ List.filter (known ps) l)
    then Ex.recovered_plan_state id <$> (ps !! id) else Ex.plans ex !! id.
Proof.
  subst ex'. revert ex. induction l as [|x l IH]; intros ex.
  { split; [by rewrite app_nil_r|]. intros id. by rewrite decide_False by set_solver. }
  cbn [foldl]. destruct (IH (Ex.restore_plan ps ex x)) as [IH1 IH2].
  rewrite IH1. split.
  - unfold Ex.restore_plan. cbn [List.filter]. unfold known at 2.
    destruct (ps !! x) eqn:E; [|done]. simpl. by rewrite <-app_assoc.
  - intros id. rewrite IH2. cbn [List.filter].
    destruct (known ps x) eqn:Ek; unfold known in Ek;
      [apply bool_decide_eq_true in Ek as [info E]|apply bool_decide_eq_false in Ek];
      unfold Ex.restore_plan; [rewrite E; simpl|
        by rewrite (proj2 (eq_None_not_Some (ps !! x)) Ek)].
    destruct (decide (id ∈ List.filter (known ps) l)).
    + by rewrite decide_True by (by right).
    + destruct (decide (id = x)) as [->|Hne].
      * rewrite lookup_insert_eq, decide_True, E by (by left). done.
      * rewrite lookup_insert_ne, decide_False by set_solver. done.
Qed.

Lemma from_recovered_state_spec cfg st (ex := Ex.from_recovered_state cfg st) :
  NoDup (RecoveredState.queue_order st) →
  Ex.queue ex = resume_ids st ∧
  ∀ id, Ex.plans ex !! id =
    Ex.recovered_plan_state id <$> (RecoveredState.plan_states st !! id).
Proof.
  intros Hnd. subst ex. unfold Ex.from_recovered_state.
  set (ps := RecoveredState.plan_states st).
  destruct (restore_plans_spec ps (Ex.new cfg) (RecoveredState.queue_order st)) as [Q1 P1].
  set (ex1 := foldl (Ex.restore_plan ps) (Ex.new cfg) (RecoveredState.queue_order st)) in *.
  set (missing := sort_strings _).
  destruct (restore_plans_spec ps ex1 missing) as [Q2 P2].
  assert (∀ id, id ∈ missing ↔ is_Some (ps !! id) ∧ id ∉ Ex.queue ex1) as Hm.
  { intros id. unfold missing, sort_strings.
    by rewrite elem_of_sort_by, elem_of_list_filter_bool, elem_of_hash_keys,
      bool_decide_eq_true. }
  assert (List.filter (known ps) missing = missing) as Hk.
  { clear -Hm. assert (∀ id, id ∈ missing → is_Some (ps !! id)) as H by (intros; by apply Hm).
    clear Hm. induction missing as [|x l IH]; [done|]. cbn [List.filter].
    unfold known at 1. rewrite bool_decide_eq_true_2 by (apply H; by left).
    f_equal. apply IH. intros. apply H. by right. }
  rewrite Hk in Q2, P2. change (Ex.queue (Ex.new cfg)) with (@nil string) in Q1.
  simpl in Q1. split.
  - rewrite Q2. unfold resume_ids. fold ps. unfold missing. rewrite Q1.
    rewrite dedup_first_id by by apply NoDup_filter_bool. done.
  - intros id. rewrite P2, P1. case_decide as H1; [done|]. case_decide as H2; [done|].
    simpl. rewrite lookup_empty. destruct (ps !! id) as [info|] eqn:E; [|done].
    destruct H1. apply Hm. rewrite E. split; [eauto|]. by rewrite Q1.
Qed.
End Restore.

(** restoring from recovered state.  When the recovered queue has no
    duplicate, the restored executor is well-formed, holds exactly the recovered
    plans in the order the resume plan visits them, and every plan keeps its
    phase, its files and its iteration (at least 1). *)
Theorem from_recovered_state_faithful {HI : HashIter} cfg st :
  NoDup (RecoveredState.queue_order st) →
  let ex := Ex.from_recovered_state cfg st in
  executor_wf ex ∧ Ex.queue ex = resume_ids st ∧
  ∀ id, match Ex.plans ex !! id, RecoveredState.plan_states st !! id with
        | Some s, Some info =>
            PlanState.current_phase s = PlanPhaseInfo.phase info ∧
            PlanState.files_changed s = PlanPhaseInfo.files_changed info ∧
            PlanState.iteration s = N.max (PlanPhaseInfo.iteration info) 1
        | None, None => True
        | _, _ => False
        end.
Proof.
  intros Hnd ex. destruct (from_recovered_state_spec cfg st Hnd) as [Hq Hp].
  fold ex in Hq, Hp. destruct (resume_ids_perm st) as [Hnd' Hin]. split_and!; [|done|].
  - constructor; [by rewrite Hq| |].
    + intros id. rewrite Hq, Hin, Hp. by rewrite fmap_is_Some.
    + intros id s. rewrite Hp. destruct (RecoveredState.plan_states st !! id); [|done].
      by intros [= <-].
  - intros id. rewrite Hp. by destruct (RecoveredState.plan_states st !! id).
Qed.

Definition example_recovered : RecoveredState :=
  RecoveredState.mk
    (<["a" := PlanPhaseInfo.mk "a" PlanPhase.Gating 0 None ["src/lib.rs"]]>
     {["b" := PlanPhaseInfo.mk "b" PlanPhase.Queued 1 None []]})
    ["b"] 7 0.

Lemma from_recovered_state_faithful_witness :
  Ex.queue (Ex.from_recovered_state ExecutorConfig.default example_recovered) = ["b"; "a"].
Proof.
  destruct (from_recovered_state_faithful ExecutorConfig.default example_recovered)
    as (_ & H & _).
  - apply NoDup_singleton.
  - rewrite H. by vm_compute.
Defined.

(** With a duplicated queue entry the restored queue keeps the duplicate, and a
    tick dispatches the plan twice. *)
Lemma from_recovered_state_duplicates :
  let st := RecoveredState.mk
    {["a" := PlanPhaseInfo.mk "a" PlanPhase.Queued 1 None []]} ["a"; "a"] 0 0 in
  Ex.tick (Ex.from_recovered_state ExecutorConfig.default st) =
    [ExecutorAction.DispatchPlan "a"; ExecutorAction.DispatchPlan "a"].
Proof. by vm_compute. Qed.

(** A snapshot does not carry the dependencies: until they are set again, the
    restored executor also dispatches the plan that was waiting. *)
Lemma from_snapshot_drops_dependencies :
  Ex.tick (Ex.from_snapshot ExecutorConfig.default (Ex.snapshot example_executor 0)) =
    [ExecutorAction.DispatchPlan "a"; ExecutorAction.DispatchPlan "b"].
Proof. by vm_compute. Qed.

(** With a limit of zero plans [tick] dispatches nothing, while [active_plans]
    still reports one plan. *)
Lemma active_plans_limit_zero :
  let cfg := ExecutorConfig.mk 0 8 5 3 600 None ResourceBudget.default (F64.of_Z 2)
               false false in
  let ex := (Ex.add_plan (Ex.new cfg) (PlanState.new "a")).1 in
  Ex.tick ex = [] ∧ Ex.active_plans ex = ["a"].
Proof. by vm_compute. Qed.
