(* ===== verification/Ceiling.v ===== *)
(** * The priority ceiling protocol (crates/roko-orchestrator/src/executor/priority_ceiling.rs)

    The ceilings of the shared resources, and the tracker that raises the priority of
    a plan while it holds resources. *)

From stdpp Require Import countable.
From S2P Require Import Prelude.

Module ResourceId.
Inductive t : Type :=
  | MergeQueueSlot
  | Worktree (name : string)
  | AgentSlot
  | Custom (name : string).

#[global] Instance t_eq_dec : EqDecision t.
Proof. solve_decision. Defined.

Definition encode (r : t) : nat * string :=
  match r with
  | MergeQueueSlot => (0, "")
  | Worktree name => (1, name)
  | AgentSlot => (2, "")
  | Custom name => (3, name)
  end.

Definition decode (p : nat * string) : t :=
  match p with
  | (0, _) => MergeQueueSlot
  | (1, name) => Worktree name
  | (2, _) => AgentSlot
  | (_, name) => Custom name
  end.

#[global] Instance t_countable : Countable t.
Proof. apply (inj_countable' encode decode). by intros []. Defined.

Definition display (r : t) : string :=
  match r with
  | MergeQueueSlot => "merge_queue_slot"
  | Worktree name => "worktree:" +:+ name
  | AgentSlot => "agent_slot"
  | Custom name => "custom:" +:+ name
  end.
End ResourceId.
Abbreviation ResourceId := ResourceId.t.

Module PlanResourceInfo.
Record t : Type := mk { plan_id : string; priority : N; resources : list ResourceId }.
End PlanResourceInfo.
Abbreviation PlanResourceInfo := PlanResourceInfo.t.

Module PriorityCeiling.
Record t : Type := mk { ceilings : gmap ResourceId N }.

(** [entry(resource).or_insert(0)], then the maximum with the plan's priority. *)
Definition raise (priority : N) (m : gmap ResourceId N) (resource : ResourceId) :
    gmap ResourceId N :=
  <[resource := N.max (default 0%N (m !! resource)) priority]> m.

Definition compute (plans : list PlanResourceInfo) : t :=
  mk (foldl (λ m plan, foldl (raise (PlanResourceInfo.priority plan)) m
                        (PlanResourceInfo.resources plan)) ∅ plans).

Definition ceiling (c : t) (resource : ResourceId) : option N := ceilings c !! resource.

Definition len (c : t) : nat := size (ceilings c).
Definition is_empty (c : t) : bool := bool_decide (ceilings c = ∅).
End PriorityCeiling.
Abbreviation PriorityCeiling := PriorityCeiling.t.

Module EffectivePriorityTracker.
Record t : Type := mk { held : gmap string (list ResourceId); ceilings : PriorityCeiling }.

Definition new (ceilings : PriorityCeiling) : t := mk ∅ ceilings.

Definition acquire (plan_id : string) (resource : ResourceId) (s : t) : t :=
  let held_by := default [] (held s !! plan_id) in
  let held_by :=
    if decide (resource ∈ held_by) then held_by else held_by ++ [resource] in
  mk (<[plan_id := held_by]> (held s)) (ceilings s).

Definition release (plan_id : string) (resource : ResourceId) (s : t) : t :=
  match held s !! plan_id with
  | Some held_by =>
      let held_by := List.filter (λ r, negb (bool_decide (r = resource))) held_by in
      if decide (held_by = []) then mk (delete plan_id (held s)) (ceilings s)
      else mk (<[plan_id := held_by]> (held s)) (ceilings s)
  | None => s
  end.

Definition release_all (plan_id : string) (s : t) : t :=
  mk (delete plan_id (held s)) (ceilings s).

Definition effective_priority (s : t) (plan_id : string) (base_priority : N) : N :=
  match held s !! plan_id with
  | None => base_priority
  | Some held_by =>
      let max_ceiling :=
        foldr N.max 0%N (omap (PriorityCeiling.ceiling (ceilings s)) held_by) in
      N.max base_priority max_ceiling
  end.

Definition is_holding (s : t) (plan_id : string) : bool :=
  match held s !! plan_id with Some (_ :: _) => true | _ => false end.

Definition resources_held (s : t) (plan_id : string) : list ResourceId :=
  default [] (held s !! plan_id).

(** The comparison of the sort: descending effective priority. *)
Definition priority_le (s : t) (base_priorities : gmap string N) (a b : string) : bool :=
  let pa := effective_priority s a (default 0%N (base_priorities !! a)) in
  let pb := effective_priority s b (default 0%N (base_priorities !! b)) in
  (pb <=? pa)%N.

Definition sort_by_effective_priority (s : t) (plan_ids : list string)
    (base_priorities : gmap string N) : list string :=
  sort_by (priority_le s base_priorities) plan_ids.
End EffectivePriorityTracker.
Abbreviation EffectivePriorityTracker := EffectivePriorityTracker.t.
Module EPT := EffectivePriorityTracker.

(** ** The ceilings *)

(** [plan] declares [resource] with priority [p]. *)
Definition declares (plans : list PlanResourceInfo) (resource : ResourceId) (p : N) : Prop :=
  ∃ plan, plan ∈ plans ∧ resource ∈ PlanResourceInfo.resources plan ∧
          p = PlanResourceInfo.priority plan.

(** [c] is the largest of the priorities in [P], if there is one. *)
Definition is_max (P : N → Prop) (c : option N) : Prop :=
  match c with
  | Some c => P c ∧ ∀ p, P p → (p ≤ c)%N
  | None => ∀ p, ¬ P p
  end.

Lemma is_max_ext (P Q : N → Prop) c : (∀ p, P p ↔ Q p) → is_max P c → is_max Q c.
Proof. intros H. destruct c; simpl; setoid_rewrite H; done. Qed.

Lemma raise_max (P : N → Prop) q m resource c :
  is_max P (m !! resource) → c = PriorityCeiling.raise q m resource !! resource →
  is_max (λ p, P p ∨ p = q) c.
Proof.
  unfold PriorityCeiling.raise. rewrite lookup_insert_eq. intros H ->.
  destruct (m !! resource) as [c0|]; simpl in *.
  - destruct H as [Hc0 Hmax]. split.
    + destruct (N.max_spec c0 q) as [[_ ->]|[_ ->]]; auto.
    + intros p [Hp| ->]; [|lia]. specialize (Hmax p Hp). lia.
  - split; [right; lia|]. intros p [Hp| ->]; [by destruct (H p)|lia].
Qed.

Lemma raise_all q l m (P : ResourceId → N → Prop) :
  (∀ r, is_max (P r) (m !! r)) →
  ∀ r, is_max (λ p, P r p ∨ (r ∈ l ∧ p = q)) (foldl (PriorityCeiling.raise q) m l !! r).
Proof.
  revert m P. induction l as [|x l IH]; intros m P Hm r; cbn [foldl].
  - eapply is_max_ext; [|apply Hm]. set_solver.
  - eapply is_max_ext;
      [|apply (IH _ (λ r p, P r p ∨ (r = x ∧ p = q)))].
    + intros p. rewrite elem_of_cons. tauto.
    + intros r'. destruct (decide (r' = x)) as [->|Hne].
      * eapply is_max_ext; [|by eapply raise_max; [apply Hm|]]. tauto.
      * unfold PriorityCeiling.raise. rewrite lookup_insert_ne by done.
        eapply is_max_ext; [|apply Hm]. tauto.
Qed.

(** The ceiling of a resource is the highest priority of a plan that declares it. *)
Lemma ceiling_spec plans r :
  is_max (declares plans r) (PriorityCeiling.ceiling (PriorityCeiling.compute plans) r).
Proof.
  unfold PriorityCeiling.ceiling, PriorityCeiling.compute. simpl.
  assert (∀ ps m (P : ResourceId → N → Prop), (∀ r, is_max (P r) (m !! r)) →
    is_max (λ p, P r p ∨ declares ps r p)
      (foldl (λ m plan, foldl (PriorityCeiling.raise (PlanResourceInfo.priority plan)) m
        (PlanResourceInfo.resources plan)) m ps !! r)) as Hgen.
  { induction ps as [|plan ps IH]; intros m P Hm; cbn [foldl].
    - eapply is_max_ext; [|apply Hm]. unfold declares. set_solver.
    - eapply is_max_ext; [|apply IH, raise_all, Hm]. intros p. simpl. unfold declares.
      setoid_rewrite elem_of_cons. naive_solver. }
  eapply is_max_ext; [|apply (Hgen plans ∅ (λ _ _, False))].
  - intros p. simpl. tauto.
  - intros r'. rewrite lookup_empty. simpl. auto.
Qed.

(** ** The tracker refines the relation of held resources *)

Inductive tracker_op : Type :=
  | Acquire (plan_id : string) (resource : ResourceId)
  | Release (plan_id : string) (resource : ResourceId)
  | ReleaseAll (plan_id : string).

Definition run_op (s : EffectivePriorityTracker) (op : tracker_op) : EffectivePriorityTracker :=
  match op with
  | Acquire p r => EPT.acquire p r s
  | Release p r => EPT.release p r s
  | ReleaseAll p => EPT.release_all p s
  end.

(** The specification: which plan holds which resource. *)
Definition hold_op (X : gset (string * ResourceId)) (op : tracker_op) :
    gset (string * ResourceId) :=
  match op with
  | Acquire p r => {[ (p, r) ]} ∪ X
  | Release p r => X ∖ {[ (p, r) ]}
  | ReleaseAll p => filter (λ x, x.1 ≠ p) X
  end.

Record tracks (s : EffectivePriorityTracker) (X : gset (string * ResourceId)) : Prop := {
  tr_nodup : ∀ p, NoDup (EPT.resources_held s p);
  tr_held : ∀ p r, r ∈ EPT.resources_held s p ↔ (p, r) ∈ X;
  tr_nonempty : ∀ p, EPT.held s !! p ≠ Some [];
}.

(** A tracker whose entry for [p] is replaced by [l], dropped when empty. *)
Lemma tracks_update s s' X X' p l :
  tracks s X → NoDup l →
  (∀ r, r ∈ l ↔ (p, r) ∈ X') →
  (∀ q r, q ≠ p → (q, r) ∈ X' ↔ (q, r) ∈ X) →
  (∀ q, EPT.held s' !! q =
    if decide (q = p) then (if decide (l = []) then None else Some l) else EPT.held s !! q) →
  tracks s' X'.
Proof.
  intros H Hnd Hl Hne Hs.
  assert (∀ q, EPT.resources_held s' q =
    if decide (q = p) then l else EPT.resources_held s q) as Hr.
  { intros q. unfold EPT.resources_held. rewrite Hs.
    destruct (decide (q = p)), (decide (l = [])); by subst. }
  split.
  - intros q. rewrite Hr. destruct (decide (q = p)); [done|apply (tr_nodup _ _ H)].
  - intros q r. rewrite Hr. destruct (decide (q = p)) as [->|Hq]; [apply Hl|].
    by rewrite (tr_held _ _ H), Hne.
  - intros q. rewrite Hs. destruct (decide (q = p)), (decide (l = [])); try done; [congruence|..];
      apply (tr_nonempty _ _ H).
Qed.

Lemma run_op_tracks s X op : tracks s X → tracks (run_op s op) (hold_op X op).
Proof.
  intros H. destruct op as [p r|p r|p]; simpl.
  - apply (tracks_update s _ X _ p
      (if decide (r ∈ EPT.resources_held s p) then EPT.resources_held s p
       else EPT.resources_held s p ++ [r])); [done|..].
    + case_decide; [apply (tr_nodup _ _ H)|]. apply NoDup_app.
      split_and!; [apply (tr_nodup _ _ H)| |apply NoDup_singleton].
      by intros x Hx ->%list_elem_of_singleton.
    + intros x. rewrite elem_of_union, elem_of_singleton, <-(tr_held _ _ H).
      case_decide; [naive_solver|]. rewrite elem_of_app, list_elem_of_singleton. naive_solver.
    + intros q x Hq. set_solver.
    + intros q. unfold EPT.acquire. simpl. fold (EPT.resources_held s p).
      destruct (decide (q = p)) as [->|Hq]; [|by rewrite lookup_insert_ne].
      rewrite lookup_insert_eq. destruct (decide (r ∈ EPT.resources_held s p)) as [Hr|Hr].
      * rewrite decide_False; [done|]. intros E. rewrite E in Hr. by apply elem_of_nil in Hr.
      * rewrite decide_False; [done|]. by destruct (EPT.resources_held s p).
  - destruct (EPT.held s !! p) as [l|] eqn:Hp.
    + assert (EPT.resources_held s p = l) as El by (unfold EPT.resources_held; by rewrite Hp).
      apply (tracks_update s _ X _ p (List.filter (λ x, negb (bool_decide (x = r))) l)); [done|..].
      * apply NoDup_filter_bool. rewrite <-El. apply (tr_nodup _ _ H).
      * intros x. rewrite elem_of_list_filter_bool, <-El, (tr_held _ _ H), negb_true_iff,
          bool_decide_eq_false. set_solver.
      * intros q x Hq. set_solver.
      * intros q. unfold EPT.release. rewrite Hp.
        destruct (decide (q = p)) as [->|Hq]; case_decide; simpl;
          rewrite ?lookup_delete_eq, ?lookup_insert_eq, ?lookup_delete_ne, ?lookup_insert_ne by done; done.
    + assert (EPT.release p r s = s) as -> by (unfold EPT.release; by rewrite Hp).
      apply (tracks_update s _ X _ p []); [done|constructor|..].
      * intros x. split; [by intros ?%elem_of_nil|].
        intros [Hx _]%elem_of_difference. apply (tr_held _ _ H) in Hx.
        unfold EPT.resources_held in Hx. rewrite Hp in Hx. by apply elem_of_nil in Hx.
      * intros q x Hq. set_solver.
      * intros q. case_decide; [by subst|done].
  - apply (tracks_update s _ X _ p []); [done|constructor|..].
    + intros x. rewrite elem_of_filter. simpl. split; [by intros ?%elem_of_nil|tauto].
    + intros q x Hq. rewrite elem_of_filter. simpl. tauto.
    + intros q. unfold EPT.release_all. simpl. destruct (decide (q = p)) as [->|Hq].
      * by rewrite lookup_delete_eq.
      * by apply lookup_delete_ne.
Qed.

Lemma run_tracks c ops :
  tracks (foldl run_op (EPT.new c) ops) (foldl hold_op ∅ ops).
Proof.
  assert (∀ s X, tracks s X → tracks (foldl run_op s ops) (foldl hold_op X ops)) as Hgen.
  { induction ops as [|op ops IH]; intros s X H; cbn [foldl]; [done|]. by apply IH, run_op_tracks. }
  apply Hgen. split.
  - intros p. unfold EPT.resources_held, EPT.new. simpl. rewrite lookup_empty. constructor.
  - intros p r. unfold EPT.resources_held, EPT.new. simpl. rewrite lookup_empty. simpl. set_solver.
  - intros p. unfold EPT.new. simpl. by rewrite lookup_empty.
Qed.

Lemma run_ceilings c ops : EPT.ceilings (foldl run_op (EPT.new c) ops) = c.
Proof.
  assert (∀ s, EPT.ceilings (foldl run_op s ops) = EPT.ceilings s) as Hgen.
  { induction ops as [|op ops IH]; intros s; cbn [foldl]; [done|]. rewrite IH.
    destruct op as [p r|p r|p]; [done| |done]. simpl. unfold EPT.release.
    destruct (EPT.held s !! p); [|done]. by case_decide. }
  apply Hgen.
Qed.

(** The largest element of a list with 0. *)
Lemma foldr_max_spec (l : list N) x :
  (foldr N.max 0 l ≤ x)%N ↔ ∀ y, y ∈ l → (y ≤ x)%N.
Proof.
  induction l as [|z l IH]; simpl.
  - split; [by intros _ y ?%elem_of_nil|lia].
  - rewrite N.max_lub_iff, IH. setoid_rewrite elem_of_cons. naive_solver.
Qed.

Lemma foldr_max_in (l : list N) : foldr N.max 0%N l = 0%N ∨ foldr N.max 0%N l ∈ l.
Proof.
  induction l as [|z l IH]; simpl; [by left|].
  destruct (N.max_spec z (foldr N.max 0%N l)) as [[_ ->]|[_ ->]];
    [destruct IH as [->|?]; [by left|right; by right]|right; by left].
Qed.

Lemma effective_priority_alt s p base :
  EPT.effective_priority s p base =
  N.max base (foldr N.max 0%N (omap (PriorityCeiling.ceiling (EPT.ceilings s))
                                 (EPT.resources_held s p))).
Proof.
  unfold EPT.effective_priority, EPT.resources_held.
  destruct (EPT.held s !! p); simpl; [done|]. lia.
Qed.

(** The priority ceiling protocol: whatever resources plans acquire and release,
    the tracker holds exactly the acquired and not yet released ones, each once; and the
    effective priority of a plan is the largest of its base priority and the priorities
    of all plans that declare a resource it holds, so no plan that may need such a
    resource has a higher priority than its holder. *)
Theorem priority_inheritance plans ops p base :
  let s := foldl run_op (EPT.new (PriorityCeiling.compute plans)) ops in
  let holding := foldl hold_op ∅ ops in
  NoDup (EPT.resources_held s p) ∧
  (∀ r, r ∈ EPT.resources_held s p ↔ (p, r) ∈ holding) ∧
  (EPT.is_holding s p = true ↔ ∃ r, (p, r) ∈ holding) ∧
  is_max (λ q, q = base ∨ ∃ r, (p, r) ∈ holding ∧ declares plans r q)
    (Some (EPT.effective_priority s p base)).
Proof.
  intros s holding.
  pose proof (run_tracks (PriorityCeiling.compute plans) ops) as H. fold s holding in H.
  assert (EPT.ceilings s = PriorityCeiling.compute plans) as Hc by apply run_ceilings.
  split_and!; [apply H|apply H|..].
  - unfold EPT.is_holding. setoid_rewrite <-(tr_held _ _ H). unfold EPT.resources_held.
    destruct (EPT.held s !! p) as [[|r l]|] eqn:E; simpl.
    + split; [done|]. by intros [? ?%elem_of_nil].
    + split; [|done]. intros _. exists r. by left.
    + split; [done|]. by intros [? ?%elem_of_nil].
  - assert (∀ q, q ∈ omap (PriorityCeiling.ceiling (PriorityCeiling.compute plans))
      (EPT.resources_held s p) ↔
      ∃ r, (p, r) ∈ holding ∧ PriorityCeiling.ceiling (PriorityCeiling.compute plans) r = Some q)
      as Hin.
    { intros q. rewrite list_elem_of_omap. by setoid_rewrite (tr_held _ _ H). }
    rewrite effective_priority_alt, Hc. set (l := omap _ _) in *. split.
    + destruct (N.max_spec base (foldr N.max 0%N l)) as [[Hlt ->]|[_ ->]]; [right|by left].
      destruct (foldr_max_in l) as [E|(r & Hr & Hq)%Hin]; [lia|]. exists r. split; [done|].
      pose proof (ceiling_spec plans r) as Hs. rewrite Hq in Hs. apply Hs.
    + intros q [->|(r & Hr & Hq)]; [lia|].
      pose proof (ceiling_spec plans r) as Hs.
      destruct (PriorityCeiling.ceiling _ r) as [c|] eqn:E; [|by destruct (Hs q)].
      destruct Hs as [_ Hmax]. specialize (Hmax q Hq).
      assert (c ≤ foldr N.max 0 l)%N; [|lia].
      apply (foldr_max_spec l); [reflexivity|]. apply Hin. eauto.
Qed.

(** [acquire] does not test whether the resource is taken: two plans can hold a
    resource that only one can use, and the protocol neither blocks nor orders them. *)
Lemma acquire_not_exclusive plans r :
  let s := foldl run_op (EPT.new (PriorityCeiling.compute plans)) [Acquire "a" r; Acquire "b" r] in
  r ∈ EPT.resources_held s "a" ∧ r ∈ EPT.resources_held s "b".
Proof.
  intros s. pose proof (run_tracks (PriorityCeiling.compute plans) [Acquire "a" r; Acquire "b" r]) as H.
  split; apply (tr_held _ _ H); set_solver.
Qed.

(** Sorting keeps the plans, in descending order of effective priority. *)
Lemma sort_by_effective_priority_sorted s l m :
  EPT.sort_by_effective_priority s l m ≡ₚ l ∧
  StronglySorted (λ a b, EPT.priority_le s m a b = true) (EPT.sort_by_effective_priority s l m).
Proof.
  split; [apply sort_by_perm|].
  apply sort_by_sorted; unfold EPT.priority_le; intros *; lia.
Qed.

(** The example of the module's documentation. *)
Example ceiling_example :
  let plans := [PlanResourceInfo.mk "a" 10 [ResourceId.MergeQueueSlot];
                PlanResourceInfo.mk "b" 5 [ResourceId.MergeQueueSlot; ResourceId.Worktree "wt-1"]] in
  let s := EPT.new (PriorityCeiling.compute plans) in
  let s1 := EPT.acquire "b" ResourceId.MergeQueueSlot s in
  PriorityCeiling.ceiling (PriorityCeiling.compute plans) ResourceId.MergeQueueSlot = Some 10%N ∧
  EPT.effective_priority s1 "b" 5 = 10%N ∧
  EPT.effective_priority (EPT.release "b" ResourceId.MergeQueueSlot s1) "b" 5 = 5%N.
Proof. vm_compute. done. Qed.
