(* ===== verification/Budget.v ===== *)
(** * Resource budgets (crates/roko-orchestrator/src/executor/resource_budget.rs)

    The five resources the executor's loop checks before it dispatches a task: agent
    slots, the API rate limit, the token budget, worktree slots and the cost budget.
    Clock readings, in nanoseconds, are arguments. *)

From stdpp Require Import relations.
From S2P Require Import Prelude.

Module ResourcePool.
Record t : Type := mk { capacity : nat; in_use : nat }.

Definition new (capacity : nat) : t := mk capacity 0.
Definition available (p : t) : bool := in_use p <? capacity p.
Definition free (p : t) : nat := capacity p - in_use p.

Definition acquire (p : t) : t * bool :=
  if available p then (mk (capacity p) (in_use p + 1), true) else (p, false).

Definition release (p : t) : t := mk (capacity p) (in_use p - 1).

Definition default : t := new 8.
End ResourcePool.
Abbreviation ResourcePool := ResourcePool.t.

(** [Duration::as_secs_f64] of a duration in nanoseconds. *)
Definition as_secs_f64 (nanos : N) : F64.t :=
  F64.add (F64.of_N (nanos / 1000000000))
    (F64.div (F64.of_N (nanos mod 1000000000)) (F64.of_N 1000000000)).

Module RateLimitResource.
Record t : Type := mk {
  capacity : N;
  refill_rate : F64.t;
  current_tokens : F64.t;
  last_update : N;
}.

Definition new (now capacity : N) (refill_rate : F64.t) : t :=
  mk capacity refill_rate (F64.of_N capacity) now.

Definition refill (now : N) (r : t) : t :=
  let elapsed := as_secs_f64 (now - last_update r) in
  mk (capacity r) (refill_rate r)
    (F64.min (F64.add (current_tokens r) (F64.mul elapsed (refill_rate r)))
       (F64.of_N (capacity r)))
    now.

Definition try_consume (now : N) (r : t) : t * bool :=
  let r := refill now r in
  if F64.ge (current_tokens r) (F64.of_Z 1) then
    (mk (capacity r) (refill_rate r) (F64.sub (current_tokens r) (F64.of_Z 1)) (last_update r), true)
  else (r, false).

Definition available (now : N) (r : t) : t * bool :=
  let r := refill now r in
  (r, F64.ge (current_tokens r) (F64.of_Z 1)).

Definition default (now : N) : t := new now 10 (F64.of_Z 1).
End RateLimitResource.
Abbreviation RateLimitResource := RateLimitResource.t.

Module TokenBudget.
Record t : Type := mk {
  total : N;
  spent : N;
  per_task_default : N;
  per_task_max : N;
  complexity_multiplier : gmap string F64.t;
}.

Definition remaining (b : t) : N := sat_sub (total b) (spent b).

Definition allocation_for (b : t) (complexity : string) : N :=
  let multiplier := default (F64.of_Z 1) (complexity_multiplier b !! complexity) in
  let raw := F64.to_u64 (F64.mul (F64.of_N (per_task_default b)) multiplier) in
  N.min (N.min raw (per_task_max b)) (remaining b).

Definition has_budget (b : t) : bool := (per_task_default b <=? remaining b)%N.

Definition spend (tokens : N) (b : t) : t :=
  mk (total b) (sat_add64 (spent b) tokens) (per_task_default b) (per_task_max b)
    (complexity_multiplier b).

Definition default : t := mk 10000000 0 100000 500000 ∅.
End TokenBudget.
Abbreviation TokenBudget := TokenBudget.t.

Module CostBudget.
Record t : Type := mk {
  total_usd : F64.t;
  spent_usd : F64.t;
  warn_threshold : F64.t;
  stop_threshold : F64.t;
}.

Definition remaining (b : t) : F64.t := F64.max (F64.sub (total_usd b) (spent_usd b)) F64.zero.

Definition is_exhausted (b : t) : bool :=
  F64.ge (spent_usd b) (F64.mul (total_usd b) (stop_threshold b)).

Definition is_warning (b : t) : bool :=
  F64.ge (spent_usd b) (F64.mul (total_usd b) (warn_threshold b)) && negb (is_exhausted b).

Definition spend (usd : F64.t) (b : t) : t :=
  mk (total_usd b) (F64.add (spent_usd b) usd) (warn_threshold b) (stop_threshold b).

Definition default : t := mk (F64.of_Z 100) F64.zero (F64.lit 8 10) (F64.of_Z 1).
End CostBudget.
Abbreviation CostBudget := CostBudget.t.

Module ResourceCheck.
Inductive t : Type :=
  | Available
  | Blocked (resources : list string).

Definition is_available (c : t) : bool := match c with Available => true | _ => false end.
End ResourceCheck.
Abbreviation ResourceCheck := ResourceCheck.t.

Module ResourceReservation.
Record t : Type := mk {
  agent_slot : bool;
  worktree_slot : bool;
  token_allocation : N;
  complexity : string;
}.
End ResourceReservation.
Abbreviation ResourceReservation := ResourceReservation.t.

Module TaskResourceRequest.
Record t : Type := mk {
  complexity : string;
  needs_worktree : bool;
  estimated_cost_usd : F64.t;
}.
End TaskResourceRequest.
Abbreviation TaskResourceRequest := TaskResourceRequest.t.

Module FullResourceBudget.
Record t : Type := mk {
  agent_slots : ResourcePool;
  api_tokens : RateLimitResource;
  token_budget : TokenBudget;
  worktree_slots : ResourcePool;
  cost_budget : CostBudget;
}.

Definition default (now : N) : t :=
  mk (ResourcePool.new 8) (RateLimitResource.default now) TokenBudget.default
    (ResourcePool.new 4) CostBudget.default.

Definition can_schedule (now : N) (b : t) (task : TaskResourceRequest) : ResourceCheck :=
  let blocked :=
    (if negb (ResourcePool.available (agent_slots b)) then ["agent_slots"] else []) ++
    (if negb (RateLimitResource.available now (api_tokens b)).2 then ["api_tokens"] else []) ++
    (if negb (TokenBudget.has_budget (token_budget b)) then ["token_budget"] else []) ++
    (if TaskResourceRequest.needs_worktree task &&
        negb (ResourcePool.available (worktree_slots b)) then ["worktree_slots"] else []) ++
    (if CostBudget.is_exhausted (cost_budget b) then ["cost_budget"] else []) in
  match blocked with
  | [] => ResourceCheck.Available
  | _ => ResourceCheck.Blocked blocked
  end.

(** [now] is read by the check and [now'] by the consumption of the API token. *)
Definition reserve (now now' : N) (b : t) (task : TaskResourceRequest) :
    t * result ResourceReservation (list string) :=
  match can_schedule now b task with
  | ResourceCheck.Blocked reasons => (b, Err reasons)
  | ResourceCheck.Available =>
      let agent_slots' := (ResourcePool.acquire (agent_slots b)).1 in
      let api_tokens' := (RateLimitResource.try_consume now' (api_tokens b)).1 in
      let token_allocation :=
        TokenBudget.allocation_for (token_budget b) (TaskResourceRequest.complexity task) in
      let '(worktree_slots', worktree) :=
        if TaskResourceRequest.needs_worktree task
        then ((ResourcePool.acquire (worktree_slots b)).1, true)
        else (worktree_slots b, false) in
      (mk agent_slots' api_tokens' (token_budget b) worktree_slots' (cost_budget b),
       Ok (ResourceReservation.mk true worktree token_allocation
             (TaskResourceRequest.complexity task)))
  end.

Definition release (b : t) (reservation : ResourceReservation) : t :=
  mk (if ResourceReservation.agent_slot reservation
      then ResourcePool.release (agent_slots b) else agent_slots b)
    (api_tokens b) (token_budget b)
    (if ResourceReservation.worktree_slot reservation
     then ResourcePool.release (worktree_slots b) else worktree_slots b)
    (cost_budget b).

Definition record_usage (tokens_spent : N) (cost_usd : F64.t) (b : t) : t :=
  mk (agent_slots b) (api_tokens b) (TokenBudget.spend tokens_spent (token_budget b))
    (worktree_slots b) (CostBudget.spend cost_usd (cost_budget b)).
End FullResourceBudget.
Abbreviation FullResourceBudget := FullResourceBudget.t.
Module FRB := FullResourceBudget.

(** ** Reserving and releasing *)

(** The executor keeps the reservations of the tasks in flight. *)
Definition in_flight : Type := FullResourceBudget * list ResourceReservation.

Inductive budget_step : relation in_flight :=
  | step_reserve now now' b b' rs task r :
      FRB.reserve now now' b task = (b', Ok r) → budget_step (b, rs) (b', rs ++ [r])
  | step_refused now now' b b' rs task reasons :
      FRB.reserve now now' b task = (b', Err reasons) → budget_step (b, rs) (b', rs)
  | step_release b rs1 r rs2 :
      budget_step (b, rs1 ++ r :: rs2) (FRB.release b r, rs1 ++ rs2)
  | step_usage b rs tokens usd :
      budget_step (b, rs) (FRB.record_usage tokens usd b, rs).

Definition worktrees (rs : list ResourceReservation) : nat :=
  length (List.filter ResourceReservation.worktree_slot rs).

(** What the pools promise: exactly the reservations in flight are in use. *)
Record accounted (c w : nat) (x : in_flight) : Prop := {
  ac_agent : Forall (λ r, ResourceReservation.agent_slot r = true) x.2;
  ac_agents : FRB.agent_slots x.1 = ResourcePool.mk c (length x.2);
  ac_worktrees : FRB.worktree_slots x.1 = ResourcePool.mk w (worktrees x.2);
  ac_agents_le : length x.2 ≤ c;
  ac_worktrees_le : worktrees x.2 ≤ w;
}.

Lemma can_schedule_available now b task :
  FRB.can_schedule now b task = ResourceCheck.Available ↔
  ResourcePool.available (FRB.agent_slots b) = true ∧
  (RateLimitResource.available now (FRB.api_tokens b)).2 = true ∧
  TokenBudget.has_budget (FRB.token_budget b) = true ∧
  (TaskResourceRequest.needs_worktree task = true →
   ResourcePool.available (FRB.worktree_slots b) = true) ∧
  CostBudget.is_exhausted (FRB.cost_budget b) = false.
Proof.
  unfold FRB.can_schedule.
  destruct (ResourcePool.available (FRB.agent_slots b)),
    ((RateLimitResource.available now (FRB.api_tokens b)).2),
    (TokenBudget.has_budget (FRB.token_budget b)),
    (TaskResourceRequest.needs_worktree task), (ResourcePool.available (FRB.worktree_slots b)),
    (CostBudget.is_exhausted (FRB.cost_budget b)); simpl;
    (split; [done|intros (H1 & H2 & H3 & H4 & H5); by try (specialize (H4 eq_refl))]) ||
    (split; [by intros _|done]).
Qed.

Lemma acquire_available p :
  ResourcePool.available p = true →
  (ResourcePool.acquire p).1 = ResourcePool.mk (ResourcePool.capacity p) (ResourcePool.in_use p + 1) ∧
  ResourcePool.in_use p + 1 ≤ ResourcePool.capacity p.
Proof.
  unfold ResourcePool.acquire. intros H. rewrite H. split; [done|].
  unfold ResourcePool.available in H. lia.
Qed.

Lemma reserve_accounted c w now now' b b' rs task r :
  accounted c w (b, rs) → FRB.reserve now now' b task = (b', Ok r) →
  accounted c w (b', rs ++ [r]).
Proof.
  intros H. unfold FRB.reserve.
  destruct (FRB.can_schedule now b task) eqn:Hcan; [|done].
  apply can_schedule_available in Hcan as (Ha & _ & _ & Hw & _).
  destruct H as [H1 H2 H3 H4 H5]. simpl in *.
  destruct (acquire_available _ Ha) as [Ea Hla]. rewrite H2 in Ea, Hla. simpl in *.
  destruct (TaskResourceRequest.needs_worktree task); intros [= <- <-].
  - destruct (acquire_available _ (Hw eq_refl)) as [Ew Hlw]. rewrite H3 in Ew, Hlw. simpl in *.
    split; simpl; rewrite ?H2, ?H3, ?Ea, ?Ew; unfold worktrees;
      rewrite ?List.filter_app, ?length_app; simpl; [|done..|by fold (worktrees rs)].
    apply Forall_app. split; [done|by repeat constructor].
  - split; simpl; rewrite ?H2, ?H3, ?Ea; unfold worktrees;
      rewrite ?List.filter_app, ?length_app; simpl; rewrite ?Nat.add_0_r; try done.
    apply Forall_app. split; [done|by repeat constructor].
Qed.

Lemma release_accounted c w b rs1 r rs2 :
  accounted c w (b, rs1 ++ r :: rs2) → accounted c w (FRB.release b r, rs1 ++ rs2).
Proof.
  intros [H1 H2 H3 H4 H5]. simpl in *. apply Forall_app in H1 as [H1 [Hr H1']%Forall_cons].
  unfold worktrees in *. rewrite !List.filter_app, !length_app in *. simpl in *.
  split; unfold FRB.release, worktrees; simpl; rewrite ?List.filter_app, ?length_app.
  - by apply Forall_app.
  - rewrite Hr, H2. unfold ResourcePool.release. simpl. f_equal. lia.
  - destruct (ResourceReservation.worktree_slot r); rewrite H3; [|done].
    unfold ResourcePool.release. simpl. f_equal. lia.
  - lia.
  - destruct (ResourceReservation.worktree_slot r); simpl in *; lia.
Qed.

Lemma budget_step_accounted c w x y : budget_step x y → accounted c w x → accounted c w y.
Proof.
  intros [now now' b b' rs task r E|now now' b b' rs task reasons E|b rs1 r rs2|b rs tokens usd] H.
  - by eapply reserve_accounted.
  - unfold FRB.reserve in E. destruct (FRB.can_schedule now b task); [|by injection E as <-].
    by destruct (TaskResourceRequest.needs_worktree task).
  - by apply release_accounted.
  - destruct H. by split.
Qed.

(** Reservations are accounted for: starting from unused pools, after any sequence
    of reservations, refusals, releases of reservations in flight and recorded usage, the
    agent slots in use are exactly the tasks in flight and the worktrees in use exactly
    those of the tasks that asked for one, both within their capacities; a reservation is
    granted exactly when all five resources are available; a refused one changes nothing;
    and a granted one is allotted at most the per-task maximum and what remains. *)
Theorem reservations_accounted b x now now' task :
  ResourcePool.in_use (FRB.agent_slots b) = 0 → ResourcePool.in_use (FRB.worktree_slots b) = 0 →
  rtc budget_step (b, []) x →
  accounted (ResourcePool.capacity (FRB.agent_slots b))
    (ResourcePool.capacity (FRB.worktree_slots b)) x ∧
  match FRB.reserve now now' x.1 task with
  | (b', Ok r) =>
      FRB.can_schedule now x.1 task = ResourceCheck.Available ∧
      budget_step x (b', x.2 ++ [r]) ∧
      (ResourceReservation.token_allocation r ≤ TokenBudget.per_task_max (FRB.token_budget x.1))%N ∧
      (ResourceReservation.token_allocation r ≤ TokenBudget.remaining (FRB.token_budget x.1))%N
  | (b', Err reasons) =>
      b' = x.1 ∧ FRB.can_schedule now x.1 task = ResourceCheck.Blocked reasons ∧ reasons ≠ []
  end.
Proof.
  intros Ha Hw Hrun. split.
  - assert (accounted (ResourcePool.capacity (FRB.agent_slots b))
      (ResourcePool.capacity (FRB.worktree_slots b)) (b, [])) as H0.
    { destruct b as [[ca ua] api tok [cw uw] cost]. simpl in *. subst.
      split; simpl; [constructor|done|done|unfold worktrees; simpl; lia..]. }
    revert H0. clear Ha Hw. induction Hrun; eauto using budget_step_accounted.
  - destruct x as [bx rs]. simpl. destruct (FRB.reserve now now' bx task) as [b' [r|reasons]] eqn:E.
    + split_and!; [|by econstructor|..]; unfold FRB.reserve in E;
        destruct (FRB.can_schedule now bx task); try done;
        destruct (TaskResourceRequest.needs_worktree task); injection E as <- <-; simpl;
        unfold TokenBudget.allocation_for; lia.
    + unfold FRB.reserve in E. destruct (FRB.can_schedule now bx task) as [|rs'] eqn:Hc.
      { by destruct (TaskResourceRequest.needs_worktree task). }
      injection E as <- <-. split_and!; [done|done|]. intros ->. revert Hc.
      unfold FRB.can_schedule. by destruct (_ ++ _).
Qed.

Definition sample_request : TaskResourceRequest :=
  TaskResourceRequest.mk "standard" true (F64.of_Z 1).

Definition sample_budget : FullResourceBudget := FRB.default 0.

Definition sample_in_flight : in_flight :=
  match FRB.reserve 0 0 sample_budget sample_request with
  | (b, Ok r) => (b, [r])
  | (b, Err _) => (b, [])
  end.

Lemma reservations_accounted_witness :
  accounted 8 4 sample_in_flight ∧
  FRB.can_schedule 5 sample_in_flight.1 sample_request = ResourceCheck.Available.
Proof.
  assert (rtc budget_step (sample_budget, []) sample_in_flight) as Hrun.
  { apply rtc_once. apply (step_reserve 0 0 _ _ [] sample_request). reflexivity. }
  destruct (reservations_accounted sample_budget sample_in_flight 5 5 sample_request
    eq_refl eq_refl Hrun) as [H1 _]. split; [exact H1|]. vm_compute. reflexivity.
Defined.

(** A granted token allocation is not set aside: two tasks in flight can each be
    allotted all the tokens that remain. *)
Lemma allocations_overlap :
  let b := FRB.mk (ResourcePool.new 2) (RateLimitResource.default 0)
             (TokenBudget.mk 100 0 100 100 ∅) (ResourcePool.new 2) CostBudget.default in
  match FRB.reserve 0 0 b sample_request with
  | (b1, Ok r1) =>
      match FRB.reserve 0 0 b1 sample_request with
      | (_, Ok r2) =>
          ResourceReservation.token_allocation r1 = 100%N ∧
          ResourceReservation.token_allocation r2 = 100%N
      | _ => False
      end
  | _ => False
  end.
Proof. vm_compute. done. Qed.

(** The cost estimate of a task is not consulted: with one dollar left a task of any
    estimated cost is scheduled. *)
Lemma estimated_cost_ignored now b complexity worktree usd usd' :
  FRB.can_schedule now b (TaskResourceRequest.mk complexity worktree usd) =
  FRB.can_schedule now b (TaskResourceRequest.mk complexity worktree usd').
Proof. done. Qed.

(** Releasing a reservation twice frees a slot another task holds. *)
Lemma double_release_frees_other :
  match FRB.reserve 0 0 sample_budget sample_request with
  | (b1, Ok r1) =>
      match FRB.reserve 0 0 b1 sample_request with
      | (b2, Ok _) =>
          ResourcePool.in_use (FRB.agent_slots (FRB.release (FRB.release b2 r1) r1)) = 0
      | _ => False
      end
  | _ => False
  end.
Proof. vm_compute. done. Qed.
