(* ===== verification/MergeQueue.v ===== *)
(** * The merge queue (crates/roko-orchestrator/src/merge_queue.rs)

    A file-conflict-aware queue of merge requests.  [Inner] is the state behind
    the mutex that every clone of a [MergeQueue] shares; each method holds the
    lock for its whole body, so an operation is a function on that state. *)

From S2P Require Import Prelude.

Definition DEFAULT_MAX_MERGE_RETRIES : N := 5.
Definition MAX_RETRIES : N := DEFAULT_MAX_MERGE_RETRIES.

(** ** Data *)

Module MergeRequest.
Record t : Type := mk {
  plan_id : string;
  branch_name : string;
  files_changed : list string;
  priority : N;
  retry_count : N;
}.

#[global] Instance t_eq_dec : EqDecision t.
Proof. solve_decision. Defined.

Definition new (plan_id branch_name : string) (files_changed : list string) (priority : N) : t :=
  mk plan_id branch_name files_changed priority 0.

Definition effective_priority (r : t) : N := sat_sub (priority r) (retry_count r).

(** [request.retry_count += 1] *)
Definition bump_retry (r : t) : t :=
  mk (plan_id r) (branch_name r) (files_changed r) (priority r) (add32 (retry_count r) 1).
End MergeRequest.
Abbreviation MergeRequest := MergeRequest.t.

Module MergeStatus.
Inductive t : Type := Queued | Merging.

#[global] Instance t_eq_dec : EqDecision t.
Proof. solve_decision. Defined.
End MergeStatus.
Abbreviation MergeStatus := MergeStatus.t.

(** [QueueEntry], and [MergeQueueEntrySnapshot], which has the same fields. *)
Module QueueEntry.
Record t : Type := mk { request : MergeRequest; status : MergeStatus }.

#[global] Instance t_eq_dec : EqDecision t.
Proof. solve_decision. Defined.
End QueueEntry.
Abbreviation QueueEntry := QueueEntry.t.

Module MergeQueueSnapshot.
Record t : Type := mk {
  entries : list QueueEntry;
  locked_files : gmap string string;
  failed : gmap string string;
  queued_order : list string;
  max_retries : N;
}.
End MergeQueueSnapshot.
Abbreviation MergeQueueSnapshot := MergeQueueSnapshot.t.

Module MergeQueueMetrics.
Record t : Type := mk {
  queued : nat; merging : nat; failed : nat; locked_files : nat; ready : nat }.
End MergeQueueMetrics.

Module MergeConflict.
Record t : Type := mk {
  waiting_plan_id : string;
  blocking_plan_id : string;
  files : list string;
}.

#[global] Instance t_eq_dec : EqDecision t.
Proof. solve_decision. Defined.
End MergeConflict.
Abbreviation MergeConflict := MergeConflict.t.

(** ** The queue *)

Module MergeQueue.
(** [Inner] *)
Record t : Type := mk {
  entries : gmap string QueueEntry;
  order : list string;
  locked_files : gmap string string;
  failed : gmap string string;
}.

Definition is_queued (e : QueueEntry) : bool :=
  match QueueEntry.status e with MergeStatus.Queued => true | _ => false end.
Definition is_merging (e : QueueEntry) : bool :=
  match QueueEntry.status e with MergeStatus.Merging => true | _ => false end.
Definition files_of (e : QueueEntry) : list string :=
  MergeRequest.files_changed (QueueEntry.request e).

(** [self.entries[id].request.effective_priority()] *)
Definition entry_priority (entries : gmap string QueueEntry) (id : string) : N :=
  match entries !! id with
  | Some e => MergeRequest.effective_priority (QueueEntry.request e)
  | None => 0
  end.

(** The comparator of [rebuild_order]: higher priority first, then the id. *)
Definition order_leb (entries : gmap string QueueEntry) (a b : string) : bool :=
  let ea := entry_priority entries a in
  let eb := entry_priority entries b in
  (eb <? ea)%N || ((eb =? ea)%N && String.leb a b).

Definition sorted_ids (entries : gmap string QueueEntry) : list string :=
  let ids := (List.filter (λ p, is_queued p.2) (btree_iter entries)).*1 in
  sort_by (order_leb entries) ids.

Definition rebuild_order (q : t) : t :=
  mk (entries q) (sorted_ids (entries q)) (locked_files q) (failed q).

Definition locked_conflicts (locked_files : gmap string string) (files_changed : list string) :
    list (string * string) :=
  List.filter (λ p, bool_decide (p.1 ∈ files_changed)) (btree_iter locked_files).

(** [files.dedup()]: drop repeated neighbours. *)
Fixpoint vec_dedup (l : list string) : list string :=
  match l with
  | x :: (y :: _) as l' => if decide (x = y) then vec_dedup l' else x :: vec_dedup l'
  | _ => l
  end.

Definition build_conflicts_for_request (locked_files : gmap string string)
    (request : MergeRequest) : list MergeConflict :=
  let by_owner := foldl (λ m p,
    if decide (p.2 ≠ MergeRequest.plan_id request)
    then <[p.2 := default [] (m !! p.2) ++ [p.1]]> m else m)
    (∅ : gmap string (list string))
    (locked_conflicts locked_files (MergeRequest.files_changed request)) in
  (λ p, MergeConflict.mk (MergeRequest.plan_id request) p.1 (vec_dedup (sort_strings p.2))) <$>
  btree_iter by_owner.

(** [for file in files { locked_files.insert(file, plan_id) }] *)
Definition lock_files (plan_id : string) (files : list string) (m : gmap string string) :
    gmap string string :=
  foldl (λ m file, <[file := plan_id]> m) m files.

(** [for file in files { locked_files.remove(file) }] *)
Definition unlock_files (files : list string) (m : gmap string string) : gmap string string :=
  foldl (λ m file, delete file m) m files.

Definition new : t := mk ∅ [] ∅ ∅.

Definition enqueue (q : t) (request : MergeRequest) : t :=
  let plan_id := MergeRequest.plan_id request in
  rebuild_order
    (mk (<[plan_id := QueueEntry.mk request MergeStatus.Queued]> (entries q)) (order q)
       (locked_files q) (failed q)).

(** The test both scans make on an id of [order].  [entries[id]] would panic on
    an absent id; [queue_wf] below rules that out. *)
Definition mergeable (entries : gmap string QueueEntry) (locked_files : gmap string string)
    (id : string) : bool :=
  match entries !! id with
  | Some entry =>
      is_queued entry &&
      match locked_conflicts locked_files (files_of entry) with [] => true | _ => false end
  | None => false
  end.

Fixpoint next_in (q : t) (order : list string) : option MergeRequest :=
  match order with
  | [] => None
  | plan_id :: order' =>
      match entries q !! plan_id with
      | Some entry =>
          if mergeable (entries q) (locked_files q) plan_id
          then Some (QueueEntry.request entry) else next_in q order'
      | None => next_in q order'
      end
  end.

Definition next_mergeable (q : t) : option MergeRequest := next_in q (order q).

(** The entry is marked [Merging], its files are locked, and the order rebuilt. *)
Definition start_merging (q : t) (plan_id : string) (entry : QueueEntry) : t :=
  rebuild_order
    (mk (<[plan_id := QueueEntry.mk (QueueEntry.request entry) MergeStatus.Merging]> (entries q))
       (order q) (lock_files plan_id (files_of entry) (locked_files q)) (failed q)).

Definition reserve_next_mergeable (q : t) : t * option MergeRequest :=
  match List.find (mergeable (entries q) (locked_files q)) (order q) with
  | None => (q, None)
  | Some plan_id =>
      match entries q !! plan_id with
      | None => (q, None)
      | Some entry => (start_merging q plan_id entry, Some (QueueEntry.request entry))
      end
  end.

(** The loop of [ready_batch] with [virtual_locks] and the batch so far. *)
Fixpoint batch_loop (q : t) (limit : nat) (virtual_locks : gmap string string)
    (out : list MergeRequest) (order : list string) : list MergeRequest :=
  match order with
  | [] => out
  | plan_id :: order' =>
      if (0 <? limit)%nat && (limit <=? length out)%nat then out
      else
        match entries q !! plan_id with
        | None => batch_loop q limit virtual_locks out order'
        | Some entry =>
            if mergeable (entries q) virtual_locks plan_id then
              batch_loop q limit (lock_files plan_id (files_of entry) virtual_locks)
                (out ++ [QueueEntry.request entry]) order'
            else batch_loop q limit virtual_locks out order'
        end
  end.

Definition ready_batch (q : t) (limit : nat) : list MergeRequest :=
  batch_loop q limit (locked_files q) [] (order q).

Definition file_conflicts (a b : MergeRequest) : bool :=
  existsb (λ f, bool_decide (f ∈ MergeRequest.files_changed a)) (MergeRequest.files_changed b).

Definition mark_merging (q : t) (plan_id : string) : t * bool :=
  match entries q !! plan_id with
  | Some entry => if is_queued entry then (start_merging q plan_id entry, true) else (q, false)
  | None => (q, false)
  end.

Definition mark_complete (q : t) (plan_id : string) : t :=
  rebuild_order
    match entries q !! plan_id with
    | Some entry =>
        mk (delete plan_id (entries q)) (order q) (unlock_files (files_of entry) (locked_files q))
          (failed q)
    | None => q
    end.

Definition mark_failed (q : t) (plan_id reason : string) : t * bool :=
  match entries q !! plan_id with
  | None => (q, false)
  | Some entry =>
      let locked := unlock_files (files_of entry) (locked_files q) in
      let request := MergeRequest.bump_retry (QueueEntry.request entry) in
      if (MAX_RETRIES <=? MergeRequest.retry_count request)%N then
        (rebuild_order
           (mk (delete plan_id (entries q)) (order q) locked
              (<[plan_id := reason]> (failed q))), false)
      else
        (rebuild_order
           (mk (<[plan_id := QueueEntry.mk request MergeStatus.Queued]> (entries q)) (order q)
              locked (failed q)), true)
  end.

Definition len (q : t) : nat := size (entries q).
Definition is_empty (q : t) : bool := bool_decide (entries q = ∅).
Definition in_progress_count (q : t) : nat :=
  length (List.filter is_merging (btree_values (entries q))).
Definition failed_plans (q : t) : gmap string string := failed q.
Definition locked_paths (q : t) : list string := btree_keys (locked_files q).

Definition queued_requests (q : t) : list MergeRequest :=
  QueueEntry.request <$> List.filter is_queued (omap (λ id, entries q !! id) (order q)).

Definition in_progress_requests (q : t) : list MergeRequest :=
  QueueEntry.request <$> List.filter is_merging (btree_values (entries q)).

Definition queued_order (q : t) : list string := order q.
Definition get (q : t) (plan_id : string) : option MergeRequest :=
  QueueEntry.request <$> (entries q !! plan_id).
Definition status_of (q : t) (plan_id : string) : option MergeStatus :=
  QueueEntry.status <$> (entries q !! plan_id).

Definition lock_conflicts_for (q : t) (plan_id : string) : list MergeConflict :=
  match entries q !! plan_id with
  | None => []
  | Some entry => build_conflicts_for_request (locked_files q) (QueueEntry.request entry)
  end.

Definition blocked_conflicts (q : t) : list MergeConflict :=
  mjoin ((λ id, match entries q !! id with
                | Some entry =>
                    if is_queued entry
                    then build_conflicts_for_request (locked_files q) (QueueEntry.request entry)
                    else []
                | None => []
                end) <$> order q).

Definition metrics (q : t) : MergeQueueMetrics.t :=
  let values := btree_values (entries q) in
  MergeQueueMetrics.mk (length (List.filter is_queued values))
    (length (List.filter is_merging values)) (size (failed q)) (size (locked_files q))
    (length (List.filter (mergeable (entries q) (locked_files q)) (order q))).

Definition snapshot (q : t) : MergeQueueSnapshot :=
  MergeQueueSnapshot.mk (btree_values (entries q)) (locked_files q) (failed q) (order q)
    MAX_RETRIES.

(** One iteration of the loop of [from_snapshot]. *)
Definition restore_entry (inner : t) (entry : QueueEntry) : t :=
  let plan_id := MergeRequest.plan_id (QueueEntry.request entry) in
  mk (<[plan_id := entry]> (entries inner)) (order inner)
    (if is_merging entry then lock_files plan_id (files_of entry) (locked_files inner)
     else locked_files inner) (failed inner).

Definition from_snapshot (s : MergeQueueSnapshot) : t :=
  rebuild_order
    (foldl restore_entry (mk ∅ [] ∅ (MergeQueueSnapshot.failed s))
       (MergeQueueSnapshot.entries s)).
End MergeQueue.
Abbreviation MergeQueue := MergeQueue.t.

(** ** Facts: locks and order *)

Module MQ := MergeQueue.

Lemma lookup_lock_files p fs m f :
  MQ.lock_files p fs m !! f = if decide (f ∈ fs) then Some p else m !! f.
Proof.
  revert m. induction fs as [|x fs IH]; intros m; [by rewrite decide_False by set_solver|].
  cbn [MQ.lock_files foldl]. fold (MQ.lock_files p fs (<[x:=p]> m)). rewrite IH.
  destruct (decide (f ∈ fs)); [by rewrite decide_True by set_solver|].
  destruct (decide (f = x)) as [->|].
  - by rewrite lookup_insert_eq, decide_True by set_solver.
  - by rewrite lookup_insert_ne, decide_False by set_solver.
Qed.

Lemma lookup_unlock_files fs m f :
  MQ.unlock_files fs m !! f = if decide (f ∈ fs) then None else m !! f.
Proof.
  revert m. induction fs as [|x fs IH]; intros m; [by rewrite decide_False by set_solver|].
  cbn [MQ.unlock_files foldl]. fold (MQ.unlock_files fs (delete x m)). rewrite IH.
  destruct (decide (f ∈ fs)); [by rewrite decide_True by set_solver|].
  destruct (decide (f = x)) as [->|].
  - by rewrite lookup_delete_eq, decide_True by set_solver.
  - by rewrite lookup_delete_ne, decide_False by set_solver.
Qed.

Lemma locked_conflicts_nil m fs :
  MQ.locked_conflicts m fs = [] ↔ ∀ f, f ∈ fs → m !! f = None.
Proof.
  unfold MQ.locked_conflicts. split.
  - intros H f Hf. destruct (m !! f) as [o|] eqn:E; [|done].
    apply elem_of_btree_iter in E.
    assert ((f, o) ∈ List.filter (λ p, bool_decide (p.1 ∈ fs)) (btree_iter m)) as Hin
      by (apply elem_of_list_filter_bool; by rewrite bool_decide_eq_true).
    rewrite H in Hin. by apply not_elem_of_nil in Hin.
  - intros H. destruct (List.filter _ (btree_iter m)) as [|[f o] l] eqn:E; [done|].
    assert ((f, o) ∈ List.filter (λ p, bool_decide (p.1 ∈ fs)) (btree_iter m)) as Hin
      by (rewrite E; left).
    apply elem_of_list_filter_bool in Hin as [Hin Hf%bool_decide_eq_true].
    apply elem_of_btree_iter in Hin. simpl in Hf. by rewrite (H f Hf) in Hin.
Qed.

Lemma mergeable_spec es lf id :
  MQ.mergeable es lf id = true ↔
    ∃ e, es !! id = Some e ∧ MQ.is_queued e = true ∧ ∀ f, f ∈ MQ.files_of e → lf !! f = None.
Proof.
  unfold MQ.mergeable. setoid_rewrite <-locked_conflicts_nil.
  destruct (es !! id) as [e|]; [|by split; [|intros (? & ? & _)]].
  destruct (MQ.locked_conflicts lf (MQ.files_of e)) eqn:E.
  - rewrite andb_true_r. split; [by exists e|]. by intros (? & [= <-] & ? & _).
  - rewrite andb_false_r. split; [done|]. intros (? & [= <-] & _ & H). congruence.
Qed.

Lemma queued_not_merging e : MQ.is_queued e = negb (MQ.is_merging e).
Proof. unfold MQ.is_queued, MQ.is_merging. by destruct (QueueEntry.status e). Qed.

Lemma order_leb_total es a b : MQ.order_leb es a b = true ∨ MQ.order_leb es b a = true.
Proof. unfold MQ.order_leb. destruct (string_leb_total a b); lia. Qed.

Lemma order_leb_trans es a b c :
  MQ.order_leb es a b = true → MQ.order_leb es b c = true → MQ.order_leb es a c = true.
Proof.
  unfold MQ.order_leb. pose proof (string_leb_trans a b c).
  destruct (String.leb a b), (String.leb b c), (String.leb a c);
    try (specialize (H eq_refl eq_refl); done); lia.
Qed.

Lemma elem_of_sorted_ids es id :
  id ∈ MQ.sorted_ids es ↔ ∃ e, es !! id = Some e ∧ MQ.is_queued e = true.
Proof.
  unfold MQ.sorted_ids. rewrite elem_of_sort_by, list_elem_of_fmap. split.
  - intros ([k e] & -> & [Hin Hq]%elem_of_list_filter_bool).
    apply elem_of_btree_iter in Hin. eauto.
  - intros (e & He & Hq). exists (id, e). split; [done|].
    apply elem_of_list_filter_bool. split; [|done]. by apply elem_of_btree_iter.
Qed.

Lemma sorted_ids_sorted es :
  StronglySorted (λ a b, MQ.order_leb es a b = true) (MQ.sorted_ids es).
Proof. apply sort_by_sorted; [apply order_leb_total|apply order_leb_trans]. Qed.

Lemma NoDup_sorted_ids es : NoDup (MQ.sorted_ids es).
Proof. unfold MQ.sorted_ids. apply NoDup_sort_by, NoDup_btree_filter. Qed.

(** ** The queue invariant *)

(** The order is that of the queued entries, every entry is stored under its own
    id, and the locked files are exactly the files of the entries being merged,
    each owned by its entry. *)
Record queue_wf (q : MergeQueue) : Prop := {
  wf_order : MQ.order q = MQ.sorted_ids (MQ.entries q);
  wf_entry_ids : ∀ id e, MQ.entries q !! id = Some e →
    MergeRequest.plan_id (QueueEntry.request e) = id;
  wf_locks : ∀ f p, MQ.locked_files q !! f = Some p ↔
    ∃ e, MQ.entries q !! p = Some e ∧ MQ.is_merging e = true ∧ f ∈ MQ.files_of e;
}.

(** The disciplined use of the queue: requests are reserved before they are
    merged, and only a plan that is merging is completed, failed or not
    replaced. *)
Inductive mq_step : MergeQueue → MergeQueue → Prop :=
  | mq_enqueue q r : MQ.status_of q (MergeRequest.plan_id r) ≠ Some MergeStatus.Merging →
      mq_step q (MQ.enqueue q r)
  | mq_reserve q : mq_step q (MQ.reserve_next_mergeable q).1
  | mq_mark q r : MQ.next_mergeable q = Some r →
      mq_step q (MQ.mark_merging q (MergeRequest.plan_id r)).1
  | mq_complete q id : MQ.status_of q id = Some MergeStatus.Merging →
      mq_step q (MQ.mark_complete q id)
  | mq_fail q id reason : MQ.status_of q id = Some MergeStatus.Merging →
      mq_step q (MQ.mark_failed q id reason).1
  | mq_restore q : mq_step q (MQ.from_snapshot (MQ.snapshot q)).

Inductive mq_reachable : MergeQueue → Prop :=
  | mq_new : mq_reachable MQ.new
  | mq_next q q' : mq_reachable q → mq_step q q' → mq_reachable q'.

Lemma status_merging q id :
  MQ.status_of q id = Some MergeStatus.Merging ↔
    ∃ e, MQ.entries q !! id = Some e ∧ MQ.is_merging e = true.
Proof.
  unfold MQ.status_of, MQ.is_merging. destruct (MQ.entries q !! id) as [[r st]|]; simpl.
  - split; [intros [= ->]; by eexists|]. intros (e & [= <-] & H). by destruct st.
  - by split; [|intros (? & ? & _)].
Qed.

(** Starting to merge a mergeable entry keeps the invariant. *)
Lemma start_merging_wf q id e :
  queue_wf q → MQ.entries q !! id = Some e →
  MQ.mergeable (MQ.entries q) (MQ.locked_files q) id = true →
  queue_wf (MQ.start_merging q id e).
Proof.
  intros [Ho Hi Hl] He (e' & He' & Hq & Hf)%mergeable_spec.
  rewrite He in He'. injection He' as <-. constructor; simpl; [done|..].
  - intros x y [[<- <-]|[_ Hx]]%lookup_insert_Some; [by apply (Hi id e)|by apply Hi].
  - intros f p. rewrite lookup_lock_files. case_decide as Hfe.
    + split.
      * intros [= <-]. eexists. by rewrite lookup_insert_eq.
      * intros (x & [[<- _]|[_ Hx]]%lookup_insert_Some & Hm & Hfx); [done|].
        specialize (Hf f Hfe).
        assert (MQ.locked_files q !! f = Some p) as Hlf by (apply Hl; eauto).
        by rewrite Hf in Hlf.
    + rewrite Hl. split.
      * intros (x & Hx & Hm & Hfx). exists x.
        rewrite lookup_insert_ne; [done|]. intros ->. rewrite He in Hx. injection Hx as <-.
        by rewrite queued_not_merging, Hm in Hq.
      * intros (x & [[<- <-]|[_ Hx]]%lookup_insert_Some & Hm & Hfx); [done|eauto].
Qed.

(** Dropping or requeueing an entry and releasing the files of a merging one. *)
Lemma release_wf q id e es' failed' :
  queue_wf q → MQ.entries q !! id = Some e → MQ.is_merging e = true →
  (∀ x, x ≠ id → es' !! x = MQ.entries q !! x) →
  (∀ e', es' !! id = Some e' →
     MergeRequest.plan_id (QueueEntry.request e') = id ∧ MQ.is_merging e' = false) →
  queue_wf (MQ.rebuild_order
    (MQ.mk es' (MQ.order q) (MQ.unlock_files (MQ.files_of e) (MQ.locked_files q)) failed')).
Proof.
  intros [Ho Hi Hl] He Hm Hne Hid. constructor; simpl; [done|..].
  - intros x y Hx. destruct (decide (x = id)) as [->|Hxid]; [by apply Hid|].
    rewrite Hne in Hx by done. by apply Hi.
  - intros f p. rewrite lookup_unlock_files. case_decide as Hf.
    + split; [done|]. intros (x & Hx & Hmx & Hfx).
      destruct (decide (p = id)) as [->|Hp]; [apply Hid in Hx as [_ Hx]; congruence|].
      rewrite Hne in Hx by done.
      assert (MQ.locked_files q !! f = Some p) as H1 by (apply Hl; eauto).
      assert (MQ.locked_files q !! f = Some id) as H2 by (apply Hl; eauto). congruence.
    + rewrite Hl. destruct (decide (p = id)) as [->|Hp]; [|by rewrite Hne].
      split; intros (x & Hx & Hmx & Hfx).
      * rewrite He in Hx. by injection Hx as <-.
      * apply Hid in Hx as [_ Hx]. congruence.
Qed.

(** ** Crash recovery *)

(** What [from_snapshot] rebuilds from entries with distinct ids whose merging
    files do not overlap. *)
Lemma restore_entries_spec failed l (q := foldl MQ.restore_entry (MQ.mk ∅ [] ∅ failed) l.*2) :
  NoDup l.*1 →
  (∀ k e, (k, e) ∈ l → MergeRequest.plan_id (QueueEntry.request e) = k) →
  (∀ k1 e1 k2 e2 f, (k1, e1) ∈ l → (k2, e2) ∈ l → MQ.is_merging e1 = true →
     MQ.is_merging e2 = true → f ∈ MQ.files_of e1 → f ∈ MQ.files_of e2 → k1 = k2) →
  (∀ k e, MQ.entries q !! k = Some e ↔ (k, e) ∈ l) ∧
  (∀ f p, MQ.locked_files q !! f = Some p ↔
     ∃ e, (p, e) ∈ l ∧ MQ.is_merging e = true ∧ f ∈ MQ.files_of e) ∧
  MQ.failed q = failed.
Proof.
  subst q. induction l as [|[k e] l IH] using rev_ind; intros Hnd Hid Hu.
  { split_and!; [| |done]; intros ??; (split; [intros H; by destruct (lookup_empty_Some _ _ H)|]).
    - by intros ?%not_elem_of_nil.
    - by intros (? & ?%not_elem_of_nil & _). }
  rewrite fmap_app in Hnd. apply NoDup_app in Hnd as (Hnd & Hk & _).
  destruct IH as (IH1 & IH2 & IH3); [done|..].
  { intros ?? H. apply Hid. set_solver. }
  { intros ????? H1 H2. apply Hu; set_solver. }
  rewrite fmap_app, foldl_app. cbn [fmap list_fmap foldl snd].
  set (q := foldl MQ.restore_entry (MQ.mk ∅ [] ∅ failed) l.*2) in *.
  unfold MQ.restore_entry. cbn [MQ.entries MQ.locked_files MQ.failed].
  rewrite (Hid k e) by set_solver.
  assert (∀ e', (k, e') ∈ l → False) as Hfresh.
  { intros e' Hin. apply (Hk k); [|set_solver]. apply list_elem_of_fmap. by exists (k, e'). }
  split_and!; [| |done].
  - intros k' e'. rewrite lookup_insert_Some, IH1, elem_of_app, list_elem_of_singleton.
    split; [intros [[<- <-]|[_ ?]]; auto|]. intros [Hin|[= -> ->]]; [|by left].
    right. split; [|done]. intros <-. by eapply Hfresh.
  - intros f p. setoid_rewrite elem_of_app. setoid_rewrite list_elem_of_singleton.
    destruct (MQ.is_merging e) eqn:Em.
    + rewrite lookup_lock_files. case_decide as Hf.
      * split; [intros [= <-]; exists e; auto|].
        intros (e' & [Hin|[= -> ->]] & Hm & Hf'); [|done]. f_equal.
        eapply (Hu k e p e' f); set_solver.
      * rewrite IH2. split; intros (e' & Hin & Hm & Hf'); exists e'; [auto|].
        destruct Hin as [Hin|[= -> ->]]; done.
    + rewrite IH2. split; intros (e' & Hin & Hm & Hf'); exists e'; [auto|].
      destruct Hin as [Hin|[= -> ->]]; [done|congruence].
Qed.

Lemma from_snapshot_snapshot q : queue_wf q → MQ.from_snapshot (MQ.snapshot q) = q.
Proof.
  intros [Ho Hi Hl]. unfold MQ.from_snapshot, MQ.snapshot, btree_values. simpl.
  destruct (restore_entries_spec (MQ.failed q) (btree_iter (MQ.entries q)))
    as (H1 & H2 & H3).
  - rewrite btree_iter_fst. apply NoDup_btree_keys.
  - intros k e Hin%elem_of_btree_iter. by apply Hi.
  - intros k1 e1 k2 e2 f Hin1%elem_of_btree_iter Hin2%elem_of_btree_iter Hm1 Hm2 Hf1 Hf2.
    assert (MQ.locked_files q !! f = Some k1) as E1 by (apply Hl; eauto).
    assert (MQ.locked_files q !! f = Some k2) as E2 by (apply Hl; eauto). congruence.
  - set (q' := foldl _ _ _) in *. unfold MQ.rebuild_order.
    assert (MQ.entries q' = MQ.entries q) as ->.
    { apply map_eq. intros k. apply option_eq. intros e. by rewrite H1, elem_of_btree_iter. }
    assert (MQ.locked_files q' = MQ.locked_files q) as ->.
    { apply map_eq. intros f. apply option_eq. intros p. rewrite H2, Hl.
      by setoid_rewrite elem_of_btree_iter. }
    rewrite H3, <-Ho. by destruct q.
Qed.

(** ** Preservation *)

Lemma next_in_find q l :
  MQ.next_in q l =
    (List.find (MQ.mergeable (MQ.entries q) (MQ.locked_files q)) l ≫=
     λ id, QueueEntry.request <$> (MQ.entries q !! id)).
Proof.
  induction l as [|id l IH]; [done|]. cbn [MQ.next_in List.find].
  destruct (MQ.entries q !! id) as [e|] eqn:E.
  - destruct (MQ.mergeable _ _ id); [|done]. simpl. by rewrite E.
  - rewrite IH. unfold MQ.mergeable at 2. by rewrite E.
Qed.

Lemma reserve_cases q :
  (MQ.reserve_next_mergeable q = (q, None) ∧ MQ.next_mergeable q = None) ∨
  ∃ id e, List.find (MQ.mergeable (MQ.entries q) (MQ.locked_files q)) (MQ.order q) = Some id ∧
    MQ.entries q !! id = Some e ∧
    MQ.mergeable (MQ.entries q) (MQ.locked_files q) id = true ∧
    MQ.reserve_next_mergeable q = (MQ.start_merging q id e, Some (QueueEntry.request e)) ∧
    MQ.next_mergeable q = Some (QueueEntry.request e).
Proof.
  unfold MQ.reserve_next_mergeable, MQ.next_mergeable. rewrite next_in_find.
  destruct (List.find _ (MQ.order q)) as [id|] eqn:Ef; [right|by left].
  pose proof (List.find_some _ _ Ef) as [_ Hm].
  pose proof Hm as (e & He & _)%mergeable_spec. exists id, e. simpl. by rewrite He.
Qed.

Lemma mark_next q r :
  queue_wf q → MQ.next_mergeable q = Some r →
  MQ.mark_merging q (MergeRequest.plan_id r) = ((MQ.reserve_next_mergeable q).1, true).
Proof.
  intros [Ho Hi Hl] Hr.
  destruct (reserve_cases q) as [[_ H]|(id & e & _ & He & Hm & -> & H)];
    rewrite H in Hr; [done|]. injection Hr as <-.
  unfold MQ.mark_merging. rewrite (Hi id e He), He.
  apply mergeable_spec in Hm as (e' & He' & Hq & _).
  rewrite He in He'. injection He' as <-. by rewrite Hq.
Qed.

Lemma reserve_wf q : queue_wf q → queue_wf (MQ.reserve_next_mergeable q).1.
Proof.
  intros Hwf. destruct (reserve_cases q) as [[-> _]|(id & e & _ & He & Hm & -> & _)]; [done|].
  by apply start_merging_wf.
Qed.

Lemma mq_step_wf q q' : mq_step q q' → queue_wf q → queue_wf q'.
Proof.
  intros Hst Hwf. pose proof Hwf as [Ho Hi Hl].
  destruct Hst as [q r Hr|q|q r Hr|q id Hs|q id reason Hs|q].
  - constructor; simpl; [done|..].
    + intros x y [[<- <-]|[_ Hx]]%lookup_insert_Some; [done|by apply Hi].
    + intros f p. rewrite Hl. destruct (decide (p = MergeRequest.plan_id r)) as [->|Hp].
      * rewrite lookup_insert_eq. split; [|by intros (? & [= <-] & ? & _)].
        intros (e & He & Hm & _). destruct Hr. apply status_merging. eauto.
      * by rewrite lookup_insert_ne.
  - by apply reserve_wf.
  - rewrite mark_next by done. by apply reserve_wf.
  - apply status_merging in Hs as (e & He & Hm). unfold MQ.mark_complete. rewrite He.
    apply (release_wf q id e); [done..| |].
    + intros x Hx. by rewrite lookup_delete_ne.
    + intros e'. by rewrite lookup_delete_eq.
  - apply status_merging in Hs as (e & He & Hm). unfold MQ.mark_failed. rewrite He.
    case_match; simpl; (apply (release_wf q id e); [done..| |]).
    + intros x Hx. by rewrite lookup_delete_ne.
    + intros e'. by rewrite lookup_delete_eq.
    + intros x Hx. by rewrite lookup_insert_ne.
    + intros e'. rewrite lookup_insert_eq. intros [= <-]. split; [|done]. simpl. by apply Hi.
  - by rewrite from_snapshot_snapshot.
Qed.

Lemma mq_reachable_wf q : mq_reachable q → queue_wf q.
Proof.
  induction 1 as [|q q' _ IH Hst]; [|by eapply mq_step_wf].
  constructor; [by vm_compute|by intros ??|]. intros f p. simpl.
  split; [by rewrite lookup_empty|]. intros (e & He & _). by rewrite lookup_empty in He.
Qed.

(** C4: no racing merges.  However the queue is used with discipline (requests
    are reserved before merging; completion, failure and replacement follow the
    request's status; crashes restore a snapshot), two plans that are being
    merged never touch a common file, and the locked files are exactly the files
    of the plans being merged. *)
Theorem no_conflicting_merges q :
  mq_reachable q →
  (∀ p1 e1 p2 e2, MQ.entries q !! p1 = Some e1 → MQ.entries q !! p2 = Some e2 →
     MQ.is_merging e1 = true → MQ.is_merging e2 = true → p1 ≠ p2 →
     MQ.file_conflicts (QueueEntry.request e1) (QueueEntry.request e2) = false) ∧
  ∀ f, f ∈ MQ.locked_paths q ↔
    ∃ r, r ∈ MQ.in_progress_requests q ∧ f ∈ MergeRequest.files_changed r.
Proof.
  intros [Ho Hi Hl]%mq_reachable_wf. split.
  - intros p1 e1 p2 e2 H1 H2 M1 M2 Hne. unfold MQ.file_conflicts.
    apply not_true_is_false. intros (f & F2%list_elem_of_In & F1%bool_decide_eq_true)%existsb_exists.
    assert (MQ.locked_files q !! f = Some p1) as E1 by (apply Hl; eauto).
    assert (MQ.locked_files q !! f = Some p2) as E2 by (apply Hl; eauto). congruence.
  - intros f. unfold MQ.locked_paths, MQ.in_progress_requests, btree_values.
    rewrite elem_of_btree_keys. split.
    + intros [p (e & He & Hm & Hf)%Hl]. exists (QueueEntry.request e). split; [|done].
      apply list_elem_of_fmap. exists e. split; [done|].
      apply elem_of_list_filter_bool. split; [|done].
      apply list_elem_of_fmap. exists (p, e). split; [done|]. by apply elem_of_btree_iter.
    + intros (r & (e & -> & [He Hm]%elem_of_list_filter_bool)%list_elem_of_fmap & Hf).
      apply list_elem_of_fmap in He as ([p e'] & -> & He%elem_of_btree_iter).
      exists p. apply Hl. eauto.
Qed.

Definition example_queue : MergeQueue :=
  let q := MQ.enqueue MQ.new (MergeRequest.new "a" "plan/a" ["lib.rs"] 1) in
  let q := MQ.enqueue q (MergeRequest.new "b" "plan/b" ["lib.rs"; "b.rs"] 5) in
  MQ.enqueue q (MergeRequest.new "c" "plan/c" ["c.rs"] 3).

Definition busy_queue : MergeQueue :=
  (MQ.reserve_next_mergeable (MQ.reserve_next_mergeable example_queue).1).1.

Lemma example_queue_reachable : mq_reachable example_queue.
Proof.
  repeat (eapply mq_next; [|by apply mq_enqueue; vm_compute]). apply mq_new.
Qed.

Lemma no_conflicting_merges_witness :
  "b.rs" ∈ MQ.locked_paths busy_queue.
Proof.
  apply no_conflicting_merges.
  - do 2 (eapply mq_next; [|apply mq_reserve]). apply example_queue_reachable.
  - exists (MergeRequest.new "b" "plan/b" ["lib.rs"; "b.rs"] 5).
    split; apply (bool_decide_unpack _); by vm_compute.
Defined.

(** reservation.  [reserve_next_mergeable] takes, among the queued requests
    that conflict with no merge in progress, the one of highest effective
    priority (ties by plan id), marks exactly it as merging and agrees with
    [next_mergeable]; it returns nothing only when every queued request is
    blocked by a merge in progress. *)
Theorem reserve_takes_best q :
  queue_wf q →
  match MQ.reserve_next_mergeable q with
  | (q', Some r) =>
      let id := MergeRequest.plan_id r in
      MQ.next_mergeable q = Some r ∧
      MQ.mergeable (MQ.entries q) (MQ.locked_files q) id = true ∧
      (∀ id', MQ.mergeable (MQ.entries q) (MQ.locked_files q) id' = true →
         MQ.order_leb (MQ.entries q) id id' = true) ∧
      MQ.entries q' = <[id := QueueEntry.mk r MergeStatus.Merging]> (MQ.entries q) ∧
      queue_wf q'
  | (q', None) =>
      q' = q ∧ MQ.next_mergeable q = None ∧
      ∀ id e, MQ.entries q !! id = Some e → MQ.is_queued e = true →
        ∃ p e' f, p ≠ id ∧ MQ.entries q !! p = Some e' ∧ MQ.is_merging e' = true ∧
          f ∈ MQ.files_of e ∧ f ∈ MQ.files_of e'
  end.
Proof.
  intros Hwf. pose proof Hwf as [Ho Hi Hl].
  destruct (MQ.reserve_next_mergeable q) as [q' [r|]] eqn:E.
  - destruct (reserve_cases q) as [[H _]|(id & e & Hf & He & Hm & H & Hn)]; rewrite H in E;
      [done|]. injection E as <- <-. rewrite (Hi id e He). split_and!; [done..| |done|].
    + intros id' Hm'. rewrite Ho in Hf.
      assert (id' ∈ MQ.sorted_ids (MQ.entries q)) as Hin'.
      { apply elem_of_sorted_ids. apply mergeable_spec in Hm' as (e' & ? & ? & _). eauto. }
      pose proof (sorted_ids_sorted (MQ.entries q)) as Hs. revert Hf Hin' Hs.
      generalize (MQ.sorted_ids (MQ.entries q)). intros l.
      induction l as [|x l IH]; [done|]. cbn [List.find]. intros Hf Hin' Hs.
      inversion Hs as [|?? Hsl Hx]; subst. destruct (MQ.mergeable _ _ x) eqn:Ex.
      * injection Hf as ->. apply elem_of_cons in Hin' as [->|Hin'].
        -- destruct (order_leb_total (MQ.entries q) id id); done.
        -- rewrite Forall_forall in Hx. by apply Hx.
      * apply elem_of_cons in Hin' as [->|Hin']; [congruence|]. by apply IH.
    + by apply start_merging_wf.
  - destruct (reserve_cases q) as [[H Hn]|(id & e & Hf & He & Hm & H & _)]; rewrite H in E;
      [|done]. injection E as <-. split_and!; [done..|]. intros id e He Hq.
    unfold MQ.next_mergeable in Hn. rewrite next_in_find in Hn.
    assert (MQ.mergeable (MQ.entries q) (MQ.locked_files q) id = false) as Hf.
    { destruct (List.find _ (MQ.order q)) as [x|] eqn:Ex.
      - pose proof (List.find_some _ _ Ex) as [_ (e' & He' & _)%mergeable_spec].
        simpl in Hn. by rewrite He' in Hn.
      - apply (List.find_none _ _ Ex). apply list_elem_of_In. rewrite Ho.
        apply elem_of_sorted_ids. eauto. }
    unfold MQ.mergeable in Hf. rewrite He, Hq in Hf. simpl in Hf.
    destruct (MQ.locked_conflicts _ _) as [|[f p] l] eqn:El; [done|].
    assert ((f, p) ∈ MQ.locked_conflicts (MQ.locked_files q) (MQ.files_of e)) as Hin
      by (rewrite El; left).
    unfold MQ.locked_conflicts in Hin.
    apply elem_of_list_filter_bool in Hin as [Hin%elem_of_btree_iter Hfe%bool_decide_eq_true].
    apply Hl in Hin as (e' & He' & Hm' & Hf'). exists p, e', f. split_and!; try done.
    intros ->. rewrite He in He'. injection He' as <-. by rewrite queued_not_merging, Hm' in Hq.
Qed.

Lemma reserve_takes_best_witness :
  MQ.next_mergeable example_queue =
    Some (MergeRequest.new "b" "plan/b" ["lib.rs"; "b.rs"] 5).
Proof.
  pose proof (reserve_takes_best example_queue (mq_reachable_wf _ example_queue_reachable)) as H.
  destruct (MQ.reserve_next_mergeable example_queue) as [q' r] eqn:E.
  vm_compute in E. injection E as <- <-. by destruct H.
Defined.

(** crash recovery of the queue is lossless: restoring the snapshot of a
    well-formed queue gives the same queue, with the locks rebuilt from the merging
    entries, the order and the failures. *)
Theorem queue_snapshot_roundtrip q :
  queue_wf q → MQ.from_snapshot (MQ.snapshot q) = q.
Proof. apply from_snapshot_snapshot. Qed.

Lemma queue_snapshot_roundtrip_witness :
  MQ.from_snapshot (MQ.snapshot busy_queue) = busy_queue.
Proof.
  apply queue_snapshot_roundtrip. unfold busy_queue.
  apply reserve_wf, reserve_wf, mq_reachable_wf, example_queue_reachable.
Defined.

(** ** Batches *)

(** Reserving one request keeps the order of the others. *)
Lemma sorted_ids_start es id e :
  es !! id = Some e →
  MQ.sorted_ids (<[id := QueueEntry.mk (QueueEntry.request e) MergeStatus.Merging]> es) =
    List.filter (λ x, negb (string_eqb x id)) (MQ.sorted_ids es).
Proof.
  intros He. set (es' := <[id := _]> es).
  assert (∀ x, MQ.entry_priority es' x = MQ.entry_priority es x) as Hp.
  { intros x. unfold MQ.entry_priority, es'. destruct (decide (x = id)) as [->|Hx].
    - by rewrite lookup_insert_eq, He.
    - by rewrite lookup_insert_ne. }
  assert (∀ a b, MQ.order_leb es' a b = MQ.order_leb es a b) as Hleb.
  { intros a b. unfold MQ.order_leb. by rewrite !Hp. }
  apply (StronglySorted_unique_strong (λ a b, MQ.order_leb es a b = true)).
  - intros x y _ _. unfold MQ.order_leb. pose proof (string_leb_antisym x y) as Ha.
    destruct (String.leb x y), (String.leb y x); auto; lia.
  - eapply StronglySorted_impl; [|apply sorted_ids_sorted]. intros a b H. rewrite <-Hleb. exact H.
  - pose proof (sorted_ids_sorted es) as Hs.
    induction Hs as [|x l Hs IH Hx]; [constructor|]. cbn [List.filter].
    destruct (negb (string_eqb x id)); [|done]. constructor; [done|].
    rewrite Forall_forall in *. intros y [Hy _]%elem_of_list_filter_bool. by apply Hx.
  - apply NoDup_Permutation; [apply NoDup_sorted_ids|apply NoDup_filter_bool, NoDup_sorted_ids|].
    intros x. rewrite elem_of_list_filter_bool, !elem_of_sorted_ids. unfold string_eqb.
    rewrite negb_true_iff, bool_decide_eq_false. unfold es'.
    destruct (decide (x = id)) as [->|Hx].
    + rewrite lookup_insert_eq. split; [by intros (? & [= <-] & ?)|by intros [_ ?]].
    + rewrite lookup_insert_ne by done. split; [auto|by intros [? _]].
Qed.

(** [n] successive reservations. *)
Fixpoint reserve_n (n : nat) (q : MergeQueue) : list MergeRequest :=
  match n with
  | O => []
  | S n' =>
      match MQ.reserve_next_mergeable q with
      | (q', Some r) => r :: reserve_n n' q'
      | (_, None) => []
      end
  end.

Lemma filter_ne_middle id (l1 l2 : list string) :
  NoDup (l1 ++ id :: l2) →
  List.filter (λ x, negb (string_eqb x id)) (l1 ++ id :: l2) = l1 ++ l2.
Proof.
  intros (Hn1 & Hd & [Hid Hn2]%NoDup_cons)%NoDup_app. rewrite List.filter_app. cbn [List.filter].
  unfold string_eqb at 2. rewrite bool_decide_eq_true_2 by done. simpl.
  assert (∀ l, id ∉ l → List.filter (λ x, negb (string_eqb x id)) l = l) as Hf.
  { induction l as [|x l IH]; [done|]. intros [Hx Hl]%not_elem_of_cons. cbn [List.filter].
    unfold string_eqb at 1. rewrite bool_decide_eq_false_2 by done. simpl. by rewrite IH. }
  rewrite !Hf; [done|done|]. intros Hin. apply (Hd id); [done|left].
Qed.

Lemma find_skip {A} (f : A → bool) l1 l2 :
  (∀ x, x ∈ l1 → f x = false) → List.find f (l1 ++ l2) = List.find f l2.
Proof.
  induction l1 as [|x l1 IH]; [done|]. intros H. simpl.
  rewrite H by left. apply IH. intros y Hy. apply H. by right.
Qed.

(** Reserving a request makes no other request mergeable. *)
Lemma start_merging_shrinks q id e x (q' := MQ.start_merging q id e) :
  MQ.mergeable (MQ.entries q') (MQ.locked_files q') x = true →
  MQ.mergeable (MQ.entries q) (MQ.locked_files q) x = true.
Proof.
  intros (e' & He' & Hq' & Hf')%mergeable_spec. apply mergeable_spec. simpl in He', Hf'.
  apply lookup_insert_Some in He' as [[_ <-]|[_ He']]; [done|]. exists e'.
  split_and!; [done..|]. intros f Hf. specialize (Hf' f Hf).
  rewrite lookup_lock_files in Hf'. by case_decide.
Qed.

Lemma batch_loop_spec q limit out l k q' sk :
  (∀ id, id ∈ l → MQ.entries q !! id = MQ.entries q' !! id) →
  MQ.order q' = MQ.sorted_ids (MQ.entries q') → MQ.order q' = sk ++ l →
  (∀ id, id ∈ sk → MQ.mergeable (MQ.entries q') (MQ.locked_files q') id = false) →
  (0 < limit → k = limit - length out)%nat → (limit = 0 → length l ≤ k)%nat →
  MQ.batch_loop q limit (MQ.locked_files q') out l = out ++ reserve_n k q'.
Proof.
  revert out k q' sk. induction l as [|id l IH]; intros out k q' sk Hent Hord Hsk Hun Hk1 Hk0.
  - simpl. destruct k as [|k]; [by rewrite app_nil_r|]. cbn [reserve_n].
    unfold MQ.reserve_next_mergeable. rewrite Hsk, find_skip by done. simpl.
    by rewrite app_nil_r.
  - cbn [MQ.batch_loop]. destruct ((0 <? limit)%nat && (limit <=? length out)%nat) eqn:El.
    { replace k with 0%nat by lia. by rewrite app_nil_r. }
    assert (MQ.mergeable (MQ.entries q) (MQ.locked_files q') id =
            MQ.mergeable (MQ.entries q') (MQ.locked_files q') id) as Hmeq.
    { unfold MQ.mergeable. by rewrite Hent by left. }
    rewrite Hmeq, Hent by left.
    destruct (MQ.mergeable (MQ.entries q') (MQ.locked_files q') id) eqn:Em.
    + pose proof Em as (e & He & Hq & Hf)%mergeable_spec. rewrite He.
      cbn [length] in Hk0. destruct k as [|k]; [lia|]. cbn [reserve_n].
      unfold MQ.reserve_next_mergeable. rewrite Hsk, find_skip by done. cbn [List.find].
      rewrite Em, He.
      assert (NoDup (sk ++ id :: l)) as Hnd by (rewrite <-Hsk, Hord; apply NoDup_sorted_ids).
      pose proof Hnd as (_ & Hd & [Hidl _]%NoDup_cons)%NoDup_app.
      etrans; [apply (IH _ k (MQ.start_merging q' id e) sk)|].
      * intros x Hx. simpl. rewrite lookup_insert_ne by (by intros ->).
        apply Hent. by right.
      * done.
      * simpl. by rewrite sorted_ids_start, <-Hord, Hsk, filter_ne_middle by done.
      * intros x Hx. apply not_true_is_false. intros Hm%start_merging_shrinks.
        by rewrite (Hun x Hx) in Hm.
      * rewrite length_app. simpl. lia.
      * lia.
      * by rewrite <-app_assoc.
    + destruct (MQ.entries q' !! id) as [e|].
      * apply (IH _ k q' (sk ++ [id])); [|done|by rewrite <-app_assoc| |done|simpl in Hk0; lia].
        -- intros x Hx. apply Hent. by right.
        -- intros x [Hx| ->%list_elem_of_singleton]%elem_of_app; [by apply Hun|done].
      * apply (IH _ k q' (sk ++ [id])); [|done|by rewrite <-app_assoc| |done|simpl in Hk0; lia].
        -- intros x Hx. apply Hent. by right.
        -- intros x [Hx| ->%list_elem_of_singleton]%elem_of_app; [by apply Hun|done].
Qed.

(** [ready_batch] predicts reservation: the batch it returns without
    changing the queue is exactly what as many successive calls of
    [reserve_next_mergeable] would hand out (all there are, when the limit is 0). *)
Theorem ready_batch_is_reserve_n q limit :
  queue_wf q →
  MQ.ready_batch q limit =
    reserve_n (if (limit =? 0)%nat then length (MQ.order q) else limit) q.
Proof.
  intros [Ho _ _]. unfold MQ.ready_batch.
  apply (batch_loop_spec q limit [] (MQ.order q) _ q []); try done; simpl.
  - intros id Hid. by apply not_elem_of_nil in Hid.
  - destruct limit; simpl; lia.
  - intros ->. simpl. lia.
Qed.

Lemma ready_batch_is_reserve_n_witness :
  MergeRequest.plan_id <$> MQ.ready_batch example_queue 0 = ["b"; "c"].
Proof.
  rewrite ready_batch_is_reserve_n; [by vm_compute|].
  apply mq_reachable_wf, example_queue_reachable.
Defined.

(** ** Draining *)

(** One worker that reserves a request, merges it, and reports the outcome that
    the environment decides, until nothing is mergeable; the plans merged. *)
Fixpoint drain (outcome : nat → MergeRequest → bool) (fuel : nat) (q : MergeQueue) :
    MergeQueue * list string :=
  match fuel with
  | O => (q, [])
  | S n =>
      match MQ.reserve_next_mergeable q with
      | (q, None) => (q, [])
      | (q, Some r) =>
          let id := MergeRequest.plan_id r in
          if outcome n r then
            let '(q, merged) := drain outcome n (MQ.mark_complete q id) in (q, id :: merged)
          else drain outcome n (MQ.mark_failed q id "merge conflict").1
      end
  end.

(** The failures a queue can still absorb. *)
Definition attempts_left (e : QueueEntry) : nat :=
  N.to_nat (MAX_RETRIES - MergeRequest.retry_count (QueueEntry.request e)).
Definition budget (q : MergeQueue) : nat :=
  map_fold (λ _ e n, attempts_left e + n)%nat 0%nat (MQ.entries q).

Lemma budget_delete (m : gmap string QueueEntry) id e :
  m !! id = Some e →
  map_fold (λ _ e n, attempts_left e + n)%nat 0%nat m =
    (attempts_left e + map_fold (λ _ e n, attempts_left e + n)%nat 0%nat (delete id m))%nat.
Proof.
  intros He. apply (map_fold_delete_L (λ _ e n, attempts_left e + n)%nat); [|done].
  intros. lia.
Qed.

(** A queue no worker is using, with every request below the retry limit. *)
Record idle (q : MergeQueue) : Prop := {
  idle_wf : queue_wf q;
  idle_queued : ∀ id e, MQ.entries q !! id = Some e → MQ.is_queued e = true;
  idle_retries : ∀ id e, MQ.entries q !! id = Some e →
    (MergeRequest.retry_count (QueueEntry.request e) < MAX_RETRIES)%N;
}.

Lemma idle_reserve q :
  idle q →
  (MQ.entries q = ∅ ∧ MQ.reserve_next_mergeable q = (q, None)) ∨
  ∃ id e, MQ.entries q !! id = Some e ∧
    MQ.reserve_next_mergeable q =
      (MQ.start_merging q id e, Some (QueueEntry.request e)) ∧
    MergeRequest.plan_id (QueueEntry.request e) = id ∧ queue_wf (MQ.start_merging q id e).
Proof.
  intros [Hwf Hq _]. pose proof Hwf as [Ho Hi Hl].
  destruct (reserve_cases q) as [[Hr Hn]|(id & e & _ & He & Hm & Hr & _)].
  - left. split; [|done]. apply map_eq. intros id. rewrite lookup_empty.
    destruct (MQ.entries q !! id) as [e|] eqn:He; [|done]. exfalso.
    unfold MQ.next_mergeable in Hn. rewrite next_in_find in Hn.
    destruct (List.find _ (MQ.order q)) as [x|] eqn:Ex.
    + pose proof (List.find_some _ _ Ex) as [_ (e' & He' & _)%mergeable_spec].
      simpl in Hn. by rewrite He' in Hn.
    + assert (MQ.mergeable (MQ.entries q) (MQ.locked_files q) id = true) as Hm;
        [|rewrite (List.find_none _ _ Ex) in Hm; [done|]].
      * apply mergeable_spec. exists e. split_and!; [done|by eapply Hq|].
        intros f _. destruct (MQ.locked_files q !! f) as [p|] eqn:Ef; [|done].
        apply Hl in Ef as (e' & He' & Hm & _). apply Hq in He'.
        by rewrite queued_not_merging, Hm in He'.
      * apply list_elem_of_In. rewrite Ho. apply elem_of_sorted_ids. eauto.
  - right. exists id, e. split_and!; [done..|by apply Hi|by apply start_merging_wf].
Qed.

(** Reporting the outcome of a reserved merge makes the queue idle again. *)
Lemma idle_complete q id e (q' := MQ.mark_complete (MQ.start_merging q id e) id) :
  idle q → MQ.entries q !! id = Some e → queue_wf (MQ.start_merging q id e) →
  idle q' ∧ MQ.entries q' = delete id (MQ.entries q) ∧ MQ.failed q' = MQ.failed q.
Proof.
  intros [Hwf Hq Hr] He Hwf'.
  assert (MQ.entries q' = delete id (MQ.entries q) ∧ MQ.failed q' = MQ.failed q) as [Hes Hf].
  { unfold q', MQ.mark_complete. simpl. rewrite lookup_insert_eq. simpl.
    by rewrite delete_insert_eq. }
  split; [|done]. constructor.
  - eapply mq_step_wf; [|exact Hwf']. apply mq_complete, status_merging. simpl.
    eexists. by rewrite lookup_insert_eq.
  - intros x ex. rewrite Hes. intros [_ Hx]%lookup_delete_Some. by eapply Hq.
  - intros x ex. rewrite Hes. intros [_ Hx]%lookup_delete_Some. by eapply Hr.
Qed.

Lemma idle_failed q id e reason (q' := (MQ.mark_failed (MQ.start_merging q id e) id reason).1)
    (r := MergeRequest.bump_retry (QueueEntry.request e)) :
  idle q → MQ.entries q !! id = Some e → queue_wf (MQ.start_merging q id e) →
  idle q' ∧
  (MQ.entries q' = delete id (MQ.entries q) ∧ MQ.failed q' = <[id := reason]> (MQ.failed q) ∨
   MQ.entries q' = <[id := QueueEntry.mk r MergeStatus.Queued]> (MQ.entries q) ∧
   MQ.failed q' = MQ.failed q ∧ (MergeRequest.retry_count r < MAX_RETRIES)%N).
Proof.
  intros [Hwf Hq Hr] He Hwf'.
  assert (MQ.entries q' = delete id (MQ.entries q) ∧ MQ.failed q' = <[id := reason]> (MQ.failed q) ∨
   MQ.entries q' = <[id := QueueEntry.mk r MergeStatus.Queued]> (MQ.entries q) ∧
   MQ.failed q' = MQ.failed q ∧ (MergeRequest.retry_count r < MAX_RETRIES)%N) as Hc.
  { unfold q', MQ.mark_failed. cbn [MQ.start_merging MQ.rebuild_order MQ.entries].
    rewrite lookup_insert_eq. cbn [QueueEntry.request]. fold r.
    destruct (N.leb_spec MAX_RETRIES (MergeRequest.retry_count r)) as [Hle|Hlt]; simpl.
    - left. by rewrite delete_insert_eq.
    - right. split_and!; [by rewrite insert_insert_eq|done|exact Hlt]. }
  split; [|done]. constructor.
  - eapply mq_step_wf; [|exact Hwf']. apply mq_fail, status_merging. simpl.
    eexists. by rewrite lookup_insert_eq.
  - intros x ex. destruct Hc as [[-> _]|[-> _]].
    + intros [_ Hx]%lookup_delete_Some. by eapply Hq.
    + intros [[<- <-]|[_ Hx]]%lookup_insert_Some; [done|by eapply Hq].
  - intros x ex. destruct Hc as [[-> _]|(-> & _ & Hlt)].
    + intros [_ Hx]%lookup_delete_Some. by eapply Hr.
    + intros [[<- <-]|[_ Hx]]%lookup_insert_Some; [done|by eapply Hr].
Qed.

Lemma attempts_left_bump e :
  (MergeRequest.retry_count (QueueEntry.request e) < MAX_RETRIES)%N →
  attempts_left e =
    S (attempts_left (QueueEntry.mk (MergeRequest.bump_retry (QueueEntry.request e))
                        MergeStatus.Queued)).
Proof.
  unfold attempts_left, MAX_RETRIES, DEFAULT_MAX_MERGE_RETRIES. simpl. intros H.
  rewrite add32_small by (unfold u32_MAX; lia). lia.
Qed.

(** The outcome of draining [q]. *)
Record drained (q q' : MergeQueue) (merged : list string) : Prop := {
  drained_empty : MQ.entries q' = ∅;
  drained_unlocked : MQ.locked_files q' = ∅;
  drained_all : ∀ id, is_Some (MQ.entries q !! id) ∨ is_Some (MQ.failed q !! id) →
    id ∈ merged ∨ is_Some (MQ.failed q' !! id);
  drained_merged : ∀ id, id ∈ merged → is_Some (MQ.entries q !! id);
}.

Lemma drained_nothing q : idle q → MQ.entries q = ∅ → drained q q [].
Proof.
  intros Hidle He. constructor; [done| | |].
  - apply map_eq. intros f. rewrite lookup_empty.
    destruct (MQ.locked_files q !! f) eqn:Ef; [|done].
    apply (wf_locks q (idle_wf q Hidle)) in Ef as (? & Hx & _).
    by rewrite He, lookup_empty in Hx.
  - intros x [Hx|Hx]; [|by right]. rewrite He, lookup_empty in Hx. by destruct Hx.
  - by intros x ?%not_elem_of_nil.
Qed.

Lemma drained_after_merge q q1 q2 id merged :
  is_Some (MQ.entries q !! id) → MQ.entries q1 = delete id (MQ.entries q) →
  MQ.failed q1 = MQ.failed q → drained q1 q2 merged → drained q q2 (id :: merged).
Proof.
  intros Hid Hes Hf [H1 H2 H3 H4]. rewrite Hes in H3, H4. rewrite Hf in H3.
  constructor; [done..| |].
  - intros x Hx. destruct (decide (x = id)) as [->|Hne]; [left; left|].
    destruct (H3 x) as [Hm|Hm]; [|left; by right|by right].
    by rewrite lookup_delete_ne by done.
  - intros x [->|Hx]%elem_of_cons; [done|].
    apply H4 in Hx as [y [_ Hy]%lookup_delete_Some]. eauto.
Qed.

Lemma drained_after_failure q q1 q2 id e reason merged :
  is_Some (MQ.entries q !! id) →
  (MQ.entries q1 = delete id (MQ.entries q) ∧ MQ.failed q1 = <[id := reason]> (MQ.failed q) ∨
   MQ.entries q1 = <[id := e]> (MQ.entries q) ∧ MQ.failed q1 = MQ.failed q) →
  drained q1 q2 merged → drained q q2 merged.
Proof.
  intros Hid Hc [H1 H2 H3 H4]. constructor; [done..| |].
  - intros x Hx. apply H3. destruct Hc as [[-> ->]|[-> ->]];
      (destruct (decide (x = id)) as [->|Hne]; [rewrite ?lookup_insert_eq; eauto|]);
      by rewrite ?lookup_delete_ne, ?lookup_insert_ne by done.
  - intros x Hx. apply H4 in Hx. destruct Hc as [[Hc _]|[Hc _]]; rewrite Hc in Hx.
    + destruct Hx as [y [_ Hy]%lookup_delete_Some]. eauto.
    + destruct Hx as [y [[<- _]|[_ Hy]]%lookup_insert_Some]; eauto.
Qed.

(** C15: the queue drains.  From an idle queue whose requests are below the retry
    limit, a worker that reserves, merges and reports whatever outcomes occur
    empties the queue within as many attempts as there are retries left: every
    request ends up merged or among the permanent failures, and no lock is left. *)
Theorem drain_terminates outcome fuel q :
  idle q → (budget q ≤ fuel)%nat →
  drained q (drain outcome fuel q).1 (drain outcome fuel q).2.
Proof.
  revert q. induction fuel as [|fuel IH]; intros q Hidle Hb;
    destruct (idle_reserve q Hidle) as [[Hem Hr]|(id & e & He & Hr & Hid & Hwf')];
    cbn [drain]; try (rewrite ?Hr; by apply drained_nothing).
  { unfold budget in Hb. rewrite (budget_delete _ _ _ He), (attempts_left_bump e) in Hb
      by (by eapply idle_retries). lia. }
  rewrite Hr, Hid. assert (is_Some (MQ.entries q !! id)) as Hsome by eauto.
  unfold budget in Hb. rewrite (budget_delete _ _ _ He), (attempts_left_bump e) in Hb
    by (by eapply idle_retries).
  destruct (outcome fuel (QueueEntry.request e)).
  - destruct (idle_complete q id e Hidle He Hwf') as (Hidle' & Hes & Hf).
    specialize (IH _ Hidle'). destruct (drain outcome fuel _) as [q2 merged].
    eapply drained_after_merge; [done..|]. apply IH. unfold budget. rewrite Hes. lia.
  - destruct (idle_failed q id e "merge conflict" Hidle He Hwf') as (Hidle' & Hc).
    eapply (drained_after_failure _ _ _ id); [done| |apply IH; [done|]].
    + destruct Hc as [Hc|(Hc1 & Hc2 & _)]; [left; exact Hc|right; split; [exact Hc1|done]].
    + unfold budget. destruct Hc as [[-> _]|(-> & _ & _)]; [lia|].
      rewrite (budget_delete _ id _ (lookup_insert_eq _ _ _)), delete_insert_eq. lia.
Qed.

Lemma example_queue_entries :
  map_to_list (MQ.entries example_queue) =
  map_to_list (<["a" := QueueEntry.mk (MergeRequest.new "a" "plan/a" ["lib.rs"] 1)
                          MergeStatus.Queued]>
    (<["b" := QueueEntry.mk (MergeRequest.new "b" "plan/b" ["lib.rs"; "b.rs"] 5)
                MergeStatus.Queued]>
     {["c" := QueueEntry.mk (MergeRequest.new "c" "plan/c" ["c.rs"] 3) MergeStatus.Queued]})).
Proof. by vm_compute. Qed.

Lemma example_queue_idle : idle example_queue.
Proof.
  assert (∀ id e, MQ.entries example_queue !! id = Some e →
    MQ.is_queued e = true ∧
    (MergeRequest.retry_count (QueueEntry.request e) < MAX_RETRIES)%N) as H.
  { intros id e He%elem_of_map_to_list. rewrite example_queue_entries in He.
    apply elem_of_map_to_list in He.
    repeat (apply lookup_insert_Some in He as [[_ <-]|[_ He]]; [by split|]).
    apply lookup_singleton_Some in He as [_ <-]. by split. }
  constructor; [apply mq_reachable_wf, example_queue_reachable|..];
    intros id e He; by apply (H id).
Qed.

Lemma drain_terminates_witness :
  MQ.entries (drain (λ n _, Nat.even n) 15 example_queue).1 = ∅.
Proof.
  apply drain_terminates; [apply example_queue_idle|]. vm_compute. lia.
Defined.

(** ** Undisciplined use

    Outside the discipline of [mq_step] the queue does not protect itself. *)

(** Reporting a failure for a plan that is only waiting releases the locks of the
    plan being merged: two plans end up merging the same file. *)
Lemma mark_failed_steals_locks :
  let r f := MergeRequest.new f ("plan/" +:+ f) ["lib.rs"] 1 in
  let q := MQ.enqueue (MQ.enqueue MQ.new (r "a")) (r "b") in
  let q := (MQ.reserve_next_mergeable q).1 in
  let q := (MQ.mark_failed q "b" "flaky").1 in
  let q := (MQ.reserve_next_mergeable q).1 in
  MergeRequest.plan_id <$> MQ.in_progress_requests q = ["a"; "b"].
Proof. by vm_compute. Qed.

(** Replacing a request that is being merged leaves its locks behind: the plan
    is blocked by its own lock for ever. *)
Lemma enqueue_while_merging_blocks_itself :
  let r := MergeRequest.new "a" "plan/a" ["lib.rs"] 1 in
  let q := (MQ.reserve_next_mergeable (MQ.enqueue MQ.new r)).1 in
  let q := MQ.enqueue q r in
  MQ.in_progress_count q = 0%nat ∧ MQ.next_mergeable q = None ∧ MQ.queued_order q = ["a"].
Proof. by vm_compute. Qed.

(** [mark_merging] checks the status of the request but not its conflicts. *)
Lemma mark_merging_ignores_conflicts :
  let r f := MergeRequest.new f ("plan/" +:+ f) ["lib.rs"] 1 in
  let q := MQ.enqueue (MQ.enqueue MQ.new (r "a")) (r "b") in
  let '(q, ok1) := MQ.mark_merging q "a" in
  let '(q, ok2) := MQ.mark_merging q "b" in
  ok1 = true ∧ ok2 = true ∧ MQ.in_progress_count q = 2%nat.
Proof. by vm_compute. Qed.
