(* ===== verification/Permit.v ===== *)
(** * Permits (crates/roko-orchestrator/src/safety/permit.rs)

    Scoped, time-bounded authorizations: when a permit expires, when it is active, and
    what it authorizes.  Times are milliseconds, an [i64]; the time to live is a
    [u64]. *)

From S2P Require Import Prelude.

(** ** Paths

    Equality of [PathBuf]s compares their components: repeated and trailing separators
    and [.] components (except a leading one of a relative path) do not count. *)

Module UnixPath.
Fixpoint segments (cur : string) (s : string) : list string :=
  match s with
  | EmptyString => [cur]
  | String a s' =>
      if Ascii.eqb a "/" then cur :: segments "" s'
      else segments (cur +:+ String a "") s'
  end.

Definition is_absolute (s : string) : bool := str_starts_with "/" s.

Definition keep (x : string) : bool := negb (string_eqb x "") && negb (string_eqb x ".").

Definition components (s : string) : list string :=
  match segments "" s with
  | x :: l =>
      (if is_absolute s then ["/"] else if string_eqb x "." then ["."]
       else List.filter keep [x]) ++ List.filter keep l
  | [] => []
  end.

Definition eqb (p q : string) : bool := bool_decide (components p = components q).
End UnixPath.

Module PermitScope.
Inductive t : Type :=
  | Path (path : string)
  | Command (cmd : string)
  | Url (url : string)
  | EnvVar (name : string)
  | GitRemote (name : string)
  | Other (label : string).

Definition eqb (a b : t) : bool :=
  match a, b with
  | Path p, Path q => UnixPath.eqb p q
  | Command x, Command y | Url x, Url y | EnvVar x, EnvVar y
  | GitRemote x, GitRemote y | Other x, Other y => string_eqb x y
  | _, _ => false
  end.

Definition kind_name (s : t) : string :=
  match s with
  | Path _ => "path"
  | Command _ => "command"
  | Url _ => "url"
  | EnvVar _ => "env_var"
  | GitRemote _ => "git_remote"
  | Other _ => "other"
  end.
End PermitScope.
Abbreviation PermitScope := PermitScope.t.

Module Permit.
Record t : Type := mk { scope : PermitScope; granted_at_ms : Z; ttl_ms : N; grantor : string }.

Definition new : PermitScope → Z → N → string → t := mk.
Definition with_scope (scope : PermitScope) (p : t) : t :=
  mk scope (granted_at_ms p) (ttl_ms p) (grantor p).
Definition with_granted_at_ms (granted_at_ms : Z) (p : t) : t :=
  mk (scope p) granted_at_ms (ttl_ms p) (grantor p).
Definition with_ttl_ms (ttl_ms : N) (p : t) : t :=
  mk (scope p) (granted_at_ms p) ttl_ms (grantor p).
Definition with_grantor (grantor : string) (p : t) : t :=
  mk (scope p) (granted_at_ms p) (ttl_ms p) grantor.

Definition expires_at_ms (p : t) : Z :=
  let i64_max_as_u64 := Z.to_N i64_MAX in
  if (ttl_ms p <=? i64_max_as_u64)%N then
    sat_i64 (granted_at_ms p + Z.of_N (ttl_ms p))
  else
    let remainder_u := (ttl_ms p - i64_max_as_u64)%N in
    if (remainder_u <=? i64_max_as_u64)%N then
      sat_i64 (sat_i64 (granted_at_ms p + i64_MAX) + Z.of_N remainder_u)
    else sat_i64 (sat_i64 (sat_i64 (granted_at_ms p + i64_MAX) + i64_MAX) + 1).

Definition is_expired (p : t) (now_ms : Z) : bool := (expires_at_ms p <=? now_ms)%Z.

Definition is_active (p : t) (now_ms : Z) : bool :=
  (granted_at_ms p <=? now_ms)%Z && negb (is_expired p now_ms).

Definition is_valid_for (p : t) (requested : PermitScope) (now_ms : Z) : bool :=
  is_active p now_ms && PermitScope.eqb (scope p) requested.

Definition remaining_ms (p : t) (now_ms : Z) : N :=
  let expires := expires_at_ms p in
  if (expires <=? now_ms)%Z then 0
  else if (now_ms <? granted_at_ms p)%Z then ttl_ms p
  else Z.abs_N (sat_i64 (expires - now_ms)).
End Permit.
Abbreviation Permit := Permit.t.

(** ** When a permit holds *)

Definition permit_wf (p : Permit) : Prop :=
  is_i64 (Permit.granted_at_ms p) ∧ is_u64 (Permit.ttl_ms p).

(** Adding the time to live in two or three saturating steps is the exact sum,
    saturated once. *)
Lemma expires_at_exact p :
  permit_wf p →
  Permit.expires_at_ms p = Z.min (Permit.granted_at_ms p + Z.of_N (Permit.ttl_ms p)) i64_MAX.
Proof.
  intros [Hg Ht]. unfold Permit.expires_at_ms.
  change (Z.to_N i64_MAX) with 9223372036854775807%N.
  unfold sat_i64, is_i64, is_u64, i64_MIN, i64_MAX, u64_MAX in *. cbv zeta.
  destruct (N.leb_spec (Permit.ttl_ms p) 9223372036854775807) as [H1|H1]; [lia|].
  destruct (N.leb_spec (Permit.ttl_ms p - 9223372036854775807) 9223372036854775807); lia.
Qed.

Lemma path_eqb_spec p q : UnixPath.eqb p q = true ↔ UnixPath.components p = UnixPath.components q.
Proof. apply bool_decide_eq_true. Qed.

(** The resource a scope names, with paths by their components. *)
Definition scope_resource (s : PermitScope) : string * list string :=
  match s with
  | PermitScope.Path p => ("path", UnixPath.components p)
  | PermitScope.Command x | PermitScope.Url x | PermitScope.EnvVar x
  | PermitScope.GitRemote x | PermitScope.Other x => (PermitScope.kind_name s, [x])
  end.

Lemma scope_eqb_spec a b : PermitScope.eqb a b = true ↔ scope_resource a = scope_resource b.
Proof.
  destruct a, b; simpl; unfold string_eqb; rewrite ?path_eqb_spec, ?bool_decide_eq_true;
    split; (try done); try congruence.
Qed.

(** A permit authorizes exactly its own resource, from the moment it is granted for
    exactly its time to live, cut off at the last representable instant, however large
    the time to live is.  While it is active the remaining time (up to the largest
    [i64]) is what is left until then; it is zero exactly when the permit has expired. *)
Theorem permit_window p requested now :
  permit_wf p → is_i64 now →
  let until := Z.min (Permit.granted_at_ms p + Z.of_N (Permit.ttl_ms p)) i64_MAX in
  (Permit.is_valid_for p requested now = true ↔
    scope_resource (Permit.scope p) = scope_resource requested ∧
    (Permit.granted_at_ms p ≤ now < until)%Z) ∧
  (Permit.is_active p now = true →
    Z.of_N (Permit.remaining_ms p now) = Z.min (until - now) i64_MAX) ∧
  (Permit.remaining_ms p now = 0%N ↔
    Permit.is_expired p now = true ∨ (now < Permit.granted_at_ms p)%Z ∧ Permit.ttl_ms p = 0%N).
Proof.
  intros Hwf Hnow until. pose proof (expires_at_exact p Hwf) as E. fold until in E.
  destruct Hwf as [Hg Ht].
  unfold Permit.is_valid_for, Permit.is_active, Permit.remaining_ms, Permit.is_expired. rewrite E.
  rewrite !andb_true_iff, scope_eqb_spec, negb_true_iff, Z.leb_le, Z.leb_gt.
  assert (until ≤ i64_MAX)%Z by lia.
  unfold sat_i64, is_i64, i64_MIN, i64_MAX in *.
  split_and!.
  - split; [intros [[? ?] ?]; split; [done|lia]|intros [? ?]; split; [split; lia|done]].
  - intros [H1 H2]. destruct (Z.leb_spec until now); [lia|].
    destruct (Z.ltb_spec now (Permit.granted_at_ms p)); [lia|].
    rewrite N2Z.inj_abs_N. lia.
  - rewrite Z.leb_le. destruct (Z.leb_spec until now); [lia|].
    destruct (Z.ltb_spec now (Permit.granted_at_ms p)); lia.
Qed.

Definition sample_permit : Permit :=
  Permit.new (PermitScope.Path "/repo//src/.") 1000 u64_MAX "conductor".

Lemma permit_window_witness :
  Permit.is_valid_for sample_permit (PermitScope.Path "/repo/src") 5000 = true ∧
  Permit.is_valid_for sample_permit (PermitScope.Path "/repo") 5000 = false.
Proof.
  assert (permit_wf sample_permit) as Hwf by (unfold permit_wf; vm_compute; intuition congruence).
  assert (is_i64 5000) as Hnow by (unfold is_i64, i64_MIN, i64_MAX; lia). split.
  - apply (permit_window sample_permit (PermitScope.Path "/repo/src") 5000 Hwf Hnow).
    vm_compute. intuition congruence.
  - apply not_true_iff_false. intros H.
    apply (permit_window sample_permit (PermitScope.Path "/repo") 5000 Hwf Hnow) in H as [H _].
    vm_compute in H. congruence.
Defined.

(** A permit as long as possible, granted as early as possible: at the moment it is
    granted less than half of its time is reported as remaining, although the code
    means the subtraction to be lossless. *)
Lemma remaining_ms_saturates :
  let p := Permit.new (PermitScope.Other "x") i64_MIN u64_MAX "conductor" in
  Permit.is_active p i64_MIN = true ∧ Permit.remaining_ms p i64_MIN = 9223372036854775807%N ∧
  Permit.is_active p (i64_MIN + 9223372036854775807) = true.
Proof. vm_compute. done. Qed.
