(* ===== verification/LoopGuard.v ===== *)
(** * Runaway-loop detection (crates/roko-orchestrator/src/safety/loop_guard.rs)

    A rolling window of action fingerprints and the verdicts drawn from it. *)

From S2P Require Import Prelude.

Module LoopGuardConfig.
Record t : Type := mk { max_iterations : N; window_size : nat; progress_budget_ms : N }.

Definition default : t := mk 100 8 60000.
End LoopGuardConfig.
Abbreviation LoopGuardConfig := LoopGuardConfig.t.

Module LoopVerdict.
Inductive t : Type :=
  | Continue
  | Stall
  | RepeatLoop
  | MaxIters.

#[global] Instance t_eq_dec : EqDecision t.
Proof. solve_decision. Defined.
End LoopVerdict.
Abbreviation LoopVerdict := LoopVerdict.t.

(** [Vec::dedup]: consecutive equal elements are merged. *)
Fixpoint vec_dedup (l : list N) : list N :=
  match l with
  | x :: (y :: _) as l' => if (x =? y)%N then vec_dedup l' else x :: vec_dedup l'
  | l => l
  end.

Module LoopGuard.
(** The state behind the mutex: the window holds fingerprints with their timestamps. *)
Record t : Type := mk {
  config : LoopGuardConfig;
  window : list (N * Z);
  total : N;
}.

Definition new (config : LoopGuardConfig) : t := mk config [] 0.

Definition cap (s : t) : nat := LoopGuardConfig.window_size (config s) `max` 2.

Definition push (fingerprint : N) (ts_ms : Z) (s : t) : t :=
  let window := if decide (length (window s) = cap s) then tail (window s) else window s in
  mk (config s) (window ++ [(fingerprint, ts_ms)]) (sat_add32 (total s) 1).

Definition unique_fps (s : t) : nat := length (vec_dedup (sort_by N.leb (window s).*1)).

Definition evaluate (s : t) : LoopVerdict :=
  if (LoopGuardConfig.max_iterations (config s) <? total s)%N then LoopVerdict.MaxIters
  else if cap s <=? length (window s) then
    match head (window s), last (window s) with
    | Some (first, oldest_ts), Some (_, newest_ts) =>
        if forallb (λ p, (p.1 =? first)%N) (window s) then LoopVerdict.RepeatLoop
        else
          let span := sat_i64 (newest_ts - oldest_ts) in
          if (0 <=? span)%Z then
            if (unique_fps s <? cap s) &&
               (LoopGuardConfig.progress_budget_ms (config s) <=? Z.to_N span)%N
            then LoopVerdict.Stall else LoopVerdict.Continue
          else LoopVerdict.Continue
    | _, _ => LoopVerdict.Continue
    end
  else LoopVerdict.Continue.

(** [record_at] with the fingerprint of the action, and [peek], [reset]. *)
Definition record_at (fingerprint : N) (ts_ms : Z) (s : t) : t * LoopVerdict :=
  let s := push fingerprint ts_ms s in (s, evaluate s).

Definition peek : t → LoopVerdict := evaluate.
Definition window_len (s : t) : nat := length (window s).
Definition reset (s : t) : t := mk (config s) [] 0.
End LoopGuard.
Abbreviation LoopGuard := LoopGuard.t.
Module LG := LoopGuard.

(** ** Distinct fingerprints *)

Lemma vec_dedup_cons x y l :
  vec_dedup (x :: y :: l) = if (x =? y)%N then vec_dedup (y :: l) else x :: vec_dedup (y :: l).
Proof. done. Qed.

Lemma elem_of_vec_dedup x l : x ∈ vec_dedup l ↔ x ∈ l.
Proof.
  induction l as [|y [|z l] IH]; [done|done|]. rewrite vec_dedup_cons.
  destruct (N.eqb_spec y z) as [->|Hne].
  - rewrite IH, !elem_of_cons. tauto.
  - rewrite elem_of_cons, IH, (elem_of_cons (z :: l)). done.
Qed.

Lemma NoDup_vec_dedup l : StronglySorted (λ a b, (a <=? b)%N = true) l → NoDup (vec_dedup l).
Proof.
  induction 1 as [|y [|z l] Hs IH Hall]; [constructor|apply NoDup_singleton|].
  rewrite vec_dedup_cons. destruct (N.eqb_spec y z) as [->|Hne]; [done|].
  constructor; [|done]. rewrite elem_of_vec_dedup. intros Hy.
  apply Forall_cons in Hall as [Hyz _]. apply N.leb_le in Hyz.
  apply StronglySorted_inv in Hs as [_ Hz].
  apply elem_of_cons in Hy as [|Hy]; [done|]. rewrite Forall_forall in Hz.
  specialize (Hz y Hy). apply N.leb_le in Hz. lia.
Qed.

Lemma unique_fps_size s : LG.unique_fps s = size (list_to_set (LG.window s).*1 : gset N).
Proof.
  unfold LG.unique_fps. set (l := (LG.window s).*1).
  assert (NoDup (vec_dedup (sort_by N.leb l))) as Hnd.
  { apply NoDup_vec_dedup, sort_by_sorted; intros; lia. }
  rewrite <-(size_list_to_set (C := gset N) _ Hnd). f_equal. apply set_eq. intros x.
  by rewrite !elem_of_list_to_set, elem_of_vec_dedup, elem_of_sort_by.
Qed.

Lemma size_list_to_set_le (l : list N) : size (list_to_set l : gset N) ≤ length l.
Proof.
  induction l as [|x l IH]; [done|]. simpl. rewrite size_union_alt, size_singleton.
  pose proof (subseteq_size (list_to_set l ∖ {[x]} : gset N) (list_to_set l)). set_solver by lia.
Qed.

Lemma size_list_to_set_lt (l : list N) : size (list_to_set l : gset N) < length l ↔ ¬ NoDup l.
Proof.
  split.
  - intros H Hnd. rewrite size_list_to_set in H by done. lia.
  - intros H. induction l as [|x l IH]; [destruct H; constructor|]. simpl.
    rewrite NoDup_cons in H. destruct (decide (x ∈ l)) as [Hx|Hx].
    + assert (({[x]} ∪ list_to_set l : gset N) = list_to_set l) as -> by set_solver.
      pose proof (size_list_to_set_le l). lia.
    + rewrite size_union by set_solver. rewrite size_singleton.
      assert (size (list_to_set l : gset N) < length l) by (apply IH; tauto). lia.
Qed.

(** ** The window *)

Definition last_n {A} (n : nat) (l : list A) : list A := drop (length l - n) l.

Lemma drop_S_tail {A} k (l : list A) : drop (S k) l = tail (drop k l).
Proof. revert l. induction k as [|k IH]; intros [|x l]; try done. apply (IH l). Qed.

Lemma last_n_snoc {A} n (l : list A) x :
  0 < n →
  last_n n (l ++ [x]) = (if decide (length (last_n n l) = n) then tail (last_n n l) else last_n n l) ++ [x].
Proof.
  intros Hn. unfold last_n. rewrite length_drop, length_app. simpl.
  case_decide as Hd.
  - replace (length l + 1 - n) with (S (length l - n)) by lia.
    rewrite drop_app_le, drop_S_tail by lia.
    destruct (drop (length l - n) l) eqn:E; [|done].
    apply (f_equal length) in E. rewrite length_drop in E. simpl in E. lia.
  - replace (length l + 1 - n) with 0 by lia. replace (length l - n) with 0 by lia. by rewrite !drop_0.
Qed.

Definition record_all (config : LoopGuardConfig) (history : list (N * Z)) : LoopGuard :=
  foldl (λ s p, (LG.record_at p.1 p.2 s).1) (LG.new config) history.

Lemma record_all_snoc config h p :
  record_all config (h ++ [p]) = LG.push p.1 p.2 (record_all config h).
Proof. unfold record_all. by rewrite foldl_app. Qed.

Lemma record_all_spec config h :
  LG.config (record_all config h) = config ∧
  LG.window (record_all config h) = last_n (LoopGuardConfig.window_size config `max` 2) h ∧
  LG.total (record_all config h) = N.min (N.of_nat (length h)) u32_MAX.
Proof.
  induction h as [|p h (H1 & H2 & H3)] using rev_ind; [done|].
  rewrite record_all_snoc. unfold LG.push, LG.cap. simpl. rewrite H1, H2, H3. split_and!.
  - done.
  - rewrite (last_n_snoc _ h p) by lia. by destruct p.
  - unfold sat_add32. rewrite length_app. simpl. unfold u32_MAX. lia.
Qed.

(** The verdict the module documents for a history of recorded actions: too many
    actions; else, when the last [cap] of them fill the window, all of them the same; else
    a fingerprint repeated among them and no less than the budget between the first and
    the last. *)
Definition repeated (w : list (N * Z)) : Prop := ∃ fp, Forall (λ p, p.1 = fp) w.

Definition stalled (budget : N) (w : list (N * Z)) : Prop :=
  ¬ NoDup w.*1 ∧
  ∃ first last, head w = Some first ∧ list.last w = Some last ∧
    (Z.of_N budget ≤ last.2 - first.2)%Z.

Definition spec_verdict (config : LoopGuardConfig) (h : list (N * Z)) (v : LoopVerdict) : Prop :=
  let cap := LoopGuardConfig.window_size config `max` 2 in
  let w := last_n cap h in
  let too_many := (LoopGuardConfig.max_iterations config < N.of_nat (length h))%N in
  let full := cap ≤ length h in
  match v with
  | LoopVerdict.MaxIters => too_many
  | LoopVerdict.RepeatLoop => ¬ too_many ∧ full ∧ repeated w
  | LoopVerdict.Stall =>
      ¬ too_many ∧ full ∧ ¬ repeated w ∧ stalled (LoopGuardConfig.progress_budget_ms config) w
  | LoopVerdict.Continue =>
      ¬ too_many ∧
      (full → ¬ repeated w ∧ ¬ stalled (LoopGuardConfig.progress_budget_ms config) w)
  end.

(** A full window has a first and a last element, taken from the history. *)
Lemma full_window n (h : list (N * Z)) :
  0 < n → n ≤ length h →
  ∃ first w last, last_n n h = first :: w ∧ list.last (last_n n h) = Some last ∧
    length (last_n n h) = n ∧ first ∈ h ∧ last ∈ h.
Proof.
  intros Hn Hle.
  assert (length (last_n n h) = n) as Hlen by (unfold last_n; rewrite length_drop; lia).
  assert (∀ x, x ∈ last_n n h → x ∈ h) as Hin.
  { intros x Hx. unfold last_n in Hx. eapply elem_of_submseteq; [exact Hx|].
    apply sublist_submseteq, sublist_drop. }
  destruct (last_n n h) as [|first w] eqn:E; [simpl in Hlen; lia|].
  destruct (list.last (first :: w)) as [x|] eqn:El; [|by apply last_None in El].
  exists first, w, x. split_and!; [done|done|done|apply Hin; by left|].
  apply Hin. by eapply last_Some_elem_of.
Qed.

Lemma all_same_repeated first (w : list (N * Z)) :
  forallb (λ p, (p.1 =? first.1)%N) (first :: w) = true ↔ repeated (first :: w).
Proof.
  rewrite forallb_forall. setoid_rewrite <-list_elem_of_In. unfold repeated. split.
  - intros H. exists first.1. apply Forall_forall. intros p Hp. by apply N.eqb_eq, H.
  - intros [fp Hall] p Hp. apply Forall_cons in Hall as [<- Hall].
    apply N.eqb_eq. apply elem_of_cons in Hp as [->|Hp]; [done|].
    rewrite Forall_forall in Hall. by apply Hall.
Qed.

(** Once it is settled which conditions hold, one verdict is left. *)
Local Ltac decide_verdict v :=
  destruct v; split; intros; first [done|tauto|exfalso; tauto].

(** The verdict after any history of actions is the documented one: [MaxIters] when
    more than the allowed number were recorded; otherwise, once the window is full,
    [RepeatLoop] when the last [cap] actions are all the same, [Stall] when one of them
    is repeated and they span at least the progress budget; otherwise [Continue]. *)
Theorem loop_guard_verdict config h v :
  (LoopGuardConfig.max_iterations config < u32_MAX)%N →
  Forall (λ p, (0 ≤ p.2 ≤ i64_MAX)%Z) h →
  LG.peek (record_all config h) = v ↔ spec_verdict config h v.
Proof.
  intros Hmax Hts. unfold LG.peek, LG.evaluate, LG.cap. rewrite unique_fps_size.
  destruct (record_all_spec config h) as (-> & -> & ->). unfold spec_verdict.
  set (cap := _ `max` 2). set (w := last_n cap h).
  destruct (N.ltb_spec (LoopGuardConfig.max_iterations config)
    (N.min (N.of_nat (length h)) u32_MAX)) as [Hm|Hm].
  { assert (LoopGuardConfig.max_iterations config < N.of_nat (length h))%N by lia.
    decide_verdict v. }
  assert (¬ (LoopGuardConfig.max_iterations config < N.of_nat (length h))%N) as Hnm by lia.
  assert (length w = cap `min` length h) as Hlen by (unfold w, last_n; rewrite length_drop; lia).
  rewrite Hlen. destruct (Nat.leb_spec cap (cap `min` length h)) as [Hf|Hf].
  2:{ assert (¬ cap ≤ length h) by lia. decide_verdict v. }
  destruct (full_window cap h) as (first & w' & last & Ew & El & Hl & Hfin & Hlin); [lia..|].
  fold w in Ew, El, Hl. rewrite El. rewrite Forall_forall in Hts.
  pose proof (Hts first Hfin) as Hr1. pose proof (Hts last Hlin) as Hr2. simpl in Hr1, Hr2.
  assert (cap ≤ length h) as Hfull by lia.
  assert (head w = Some first) as Eh by by rewrite Ew.
  rewrite Eh. destruct first as [f1 t1], last as [f2 t2]. simpl in *.
  pose proof (all_same_repeated (f1, t1) w') as Hrep. rewrite <-Ew in Hrep. simpl in Hrep.
  destruct (forallb _ w) eqn:Hall.
  { assert (repeated w) by tauto. decide_verdict v. }
  assert (¬ repeated w) as Hnr by (rewrite <-Hrep; done).
  assert (stalled (LoopGuardConfig.progress_budget_ms config) w ↔
    ¬ NoDup w.*1 ∧ (Z.of_N (LoopGuardConfig.progress_budget_ms config) ≤ t2 - t1)%Z) as Hst.
  { unfold stalled. rewrite Eh, El. naive_solver. }
  rewrite <-size_list_to_set_lt, length_fmap, Hl in Hst.
  assert (sat_i64 (t2 - t1) = t2 - t1)%Z as -> by (unfold sat_i64, i64_MIN, i64_MAX in *; lia).
  destruct (Z.leb_spec 0 (t2 - t1)).
  - destruct (Nat.ltb_spec (size (list_to_set w.*1 : gset N)) cap);
      destruct (N.leb_spec (LoopGuardConfig.progress_budget_ms config) (Z.to_N (t2 - t1))); simpl.
    + assert (stalled (LoopGuardConfig.progress_budget_ms config) w) by (apply Hst; lia).
      decide_verdict v.
    + assert (¬ stalled (LoopGuardConfig.progress_budget_ms config) w) by (rewrite Hst; lia).
      decide_verdict v.
    + assert (¬ stalled (LoopGuardConfig.progress_budget_ms config) w) by (rewrite Hst; lia).
      decide_verdict v.
    + assert (¬ stalled (LoopGuardConfig.progress_budget_ms config) w) by (rewrite Hst; lia).
      decide_verdict v.
  - assert (¬ stalled (LoopGuardConfig.progress_budget_ms config) w) by (rewrite Hst; lia).
    decide_verdict v.
Qed.

Definition sample_config : LoopGuardConfig := LoopGuardConfig.mk 100 3 10000.

Lemma loop_guard_verdict_witness :
  spec_verdict sample_config [(7%N, 0%Z); (7%N, 10%Z); (7%N, 20%Z)] LoopVerdict.RepeatLoop ∧
  LG.peek (record_all sample_config [(7%N, 0%Z); (7%N, 10%Z)]) = LoopVerdict.Continue.
Proof.
  split.
  - apply (loop_guard_verdict sample_config); [done| |vm_compute; reflexivity].
    apply (bool_decide_unpack _). vm_compute. exact I.
  - vm_compute. reflexivity.
Defined.

(** A stall is declared although the agent keeps taking new actions: the window below
    holds three actions never seen before, among them the newest one, and one repeated
    long ago. *)
Lemma stall_despite_progress :
  LG.peek (record_all (LoopGuardConfig.mk 100 4 1000)
    [(1%N, 0%Z); (1%N, 500%Z); (2%N, 1000%Z); (3%N, 1500%Z)]) = LoopVerdict.Stall.
Proof. vm_compute. reflexivity. Qed.

(** A counter that saturates never exceeds the largest limit. *)
Lemma max_limit_never_reached config h :
  LoopGuardConfig.max_iterations config = u32_MAX →
  LG.peek (record_all config h) ≠ LoopVerdict.MaxIters.
Proof.
  intros Hmax. unfold LG.peek, LG.evaluate. destruct (record_all_spec config h) as (-> & _ & ->).
  rewrite Hmax. destruct (N.ltb_spec u32_MAX (N.min (N.of_nat (length h)) u32_MAX)); [lia|].
  repeat (case_match; try done).
Qed.
