(* ===== verification/Taint.v ===== *)
(** * Taint tracking (crates/roko-core/src/provenance.rs and
      crates/roko-orchestrator/src/safety/taint_propagation.rs)

    Why data is tainted, who produced it, and how taint flows from signals to the
    signals derived from them. *)

From stdpp Require Import relations.
From S2P Require Import Prelude Ordered Bytes.

Module TaintInfo.
Record t : Type := mk { category : string; detail : string; inherited_from : option bytes }.

Definition new (category detail : string) : t := mk category detail None.
Definition external (detail : string) : t := new "external" detail.
Definition user_input (detail : string) : t := new "user_input" detail.
Definition with_inherited_from (inherited_from : bytes) (i : t) : t :=
  mk (category i) (detail i) (Some inherited_from).
Definition propagated (detail : string) (inherited_from : bytes) : t :=
  with_inherited_from inherited_from (new "propagated" detail).
End TaintInfo.
Abbreviation TaintInfo := TaintInfo.t.

Module Taint.
Inductive t : Type :=
  | Clean
  | LlmHallucination (detail : string)
  | ToolFailure (detail : string)
  | UserFlagged (detail : string)
  | StaleData (threshold_ms : Z)
  | UnverifiedSource (detail : string)
  | Propagated (detail : string) (inherited_from : option bytes)
  | UserInput (detail : string)
  | Custom (detail : string).

Definition is_tainted (x : t) : bool := match x with Clean => false | _ => true end.

Definition category (x : t) : string :=
  match x with
  | Clean => "clean"
  | LlmHallucination _ => "llm_hallucination"
  | ToolFailure _ => "tool_failure"
  | UserFlagged _ => "user_flagged"
  | StaleData _ => "stale_data"
  | UnverifiedSource _ => "unverified_source"
  | Propagated _ _ => "propagated"
  | UserInput _ => "user_input"
  | Custom _ => "custom"
  end.

Definition detail (x : t) : option string :=
  match x with
  | Clean | StaleData _ => None
  | LlmHallucination d | ToolFailure d | UserFlagged d | UnverifiedSource d
  | Propagated d _ | UserInput d | Custom d => Some d
  end.

Definition inherited_from (x : t) : option bytes :=
  match x with Propagated _ i => i | _ => None end.

(** [TaintInfo::to_taint]. *)
Definition of_info (i : TaintInfo) : t :=
  if string_eqb (TaintInfo.category i) "external" then UnverifiedSource (TaintInfo.detail i)
  else if string_eqb (TaintInfo.category i) "user_input" then UserInput (TaintInfo.detail i)
  else if string_eqb (TaintInfo.category i) "propagated" then
    Propagated (TaintInfo.detail i) (TaintInfo.inherited_from i)
  else Custom (TaintInfo.category i +:+ ": " +:+ TaintInfo.detail i).

Definition fmt_Z (z : Z) : string := pretty z.

(** [Option<TaintInfo>::from(&Taint)]. *)
Definition to_info (x : t) : option TaintInfo :=
  match x with
  | Clean => None
  | LlmHallucination d => Some (TaintInfo.new "llm_hallucination" d)
  | ToolFailure d => Some (TaintInfo.new "tool_failure" d)
  | UserFlagged d => Some (TaintInfo.new "user_flagged" d)
  | StaleData threshold_ms =>
      Some (TaintInfo.new "stale_data" ("threshold " +:+ fmt_Z threshold_ms +:+ "ms"))
  | UnverifiedSource d => Some (TaintInfo.new "external" d)
  | Propagated d inherited_from => Some (TaintInfo.mk "propagated" d inherited_from)
  | UserInput d => Some (TaintInfo.new "user_input" d)
  | Custom d => Some (TaintInfo.new "custom" d)
  end.
End Taint.
Abbreviation Taint := Taint.t.

Module Provenance.
Record t : Type := mk {
  author : string;
  trust : F32.t;
  taint : Taint;
  taint_info : option TaintInfo;
  session : option string;
}.

Definition trusted (author : string) : t := mk author (F32.of_Z 1) Taint.Clean None None.
Definition agent (author : string) : t := mk author (F32.lit 3 4) Taint.Clean None None.
Definition external (author : string) : t :=
  mk author (F32.lit 1 10) (Taint.UnverifiedSource ("source " +:+ author)) None None.
Definition user (author : string) : t :=
  mk author (F32.lit 1 2) (Taint.UserInput ("source " +:+ author)) None None.
Definition with_session (session : string) (p : t) : t :=
  mk (author p) (trust p) (taint p) (taint_info p) (Some session).
Definition with_trust (trust : F32.t) (p : t) : t :=
  mk (author p) (F32.clamp F32.zero (F32.of_Z 1) trust) (taint p) (taint_info p) (session p).
Definition with_taint (taint : Taint) (p : t) : t :=
  mk (author p) (trust p) taint (taint_info p) (session p).
Definition with_taint_info (i : TaintInfo) (p : t) : t :=
  mk (author p) (trust p) (Taint.of_info i) (Some i) (session p).
Definition is_tainted (p : t) : bool := Taint.is_tainted (taint p).
End Provenance.
Abbreviation Provenance := Provenance.t.

(** What the tracker reads of a signal. *)
Module TaintSignal.
Record t : Type := mk { id : bytes; provenance : Provenance }.
End TaintSignal.
Abbreviation TaintSignal := TaintSignal.t.

Module TaintReason.
Record t : Type := mk { category : string; detail : string; inherited_from : option bytes }.

Definition new (category detail : string) : t := mk category detail None.
Definition external (detail : string) : t := new "external" detail.
Definition user_input (detail : string) : t := new "user_input" detail.
Definition propagated (detail : string) : t := new "propagated" detail.
Definition to_taint_info (r : t) : TaintInfo :=
  TaintInfo.mk (category r) (detail r) (inherited_from r).
Definition from_taint_info (i : TaintInfo) : t :=
  mk (TaintInfo.category i) (TaintInfo.detail i) (TaintInfo.inherited_from i).
End TaintReason.
Abbreviation TaintReason := TaintReason.t.

Module TaintTracker.
(** The map behind the mutex. *)
Abbreviation t := (gmap bytes TaintReason).

Definition new : t := ∅.
Definition mark_tainted (hash : bytes) (reason : TaintReason) (s : t) : t := <[hash := reason]> s.
Definition is_tainted (s : t) (hash : bytes) : bool := bool_decide (is_Some (s !! hash)).
Definition reason (s : t) (hash : bytes) : option TaintReason := s !! hash.
Definition taint_info (s : t) (hash : bytes) : option TaintInfo :=
  TaintReason.to_taint_info <$> reason s hash.

Definition propagate (parents : list bytes) (child : bytes) (s : t) : t * bool :=
  match List.find (is_tainted s) parents with
  | Some parent =>
      let already_specific :=
        match s !! child with
        | Some r => negb (string_eqb (TaintReason.category r) "propagated")
        | None => false
        end in
      if already_specific then (s, true)
      else
        (<[child := TaintReason.mk "propagated" ("inherited from " +:+ ContentHash.short parent)
                      (Some parent)]> s, true)
  | None => (s, false)
  end.

Definition observed_reason (p : Provenance) : TaintReason :=
  match Provenance.taint_info p with
  | Some i => TaintReason.from_taint_info i
  | None =>
      TaintReason.new (Taint.category (Provenance.taint p))
        (default ("signal author " +:+ Provenance.author p) (Taint.detail (Provenance.taint p)))
  end.

Definition observe_signal (signal : TaintSignal) (s : t) : t * bool :=
  if Provenance.is_tainted (TaintSignal.provenance signal) then
    (mark_tainted (TaintSignal.id signal) (observed_reason (TaintSignal.provenance signal)) s, true)
  else (s, false).

Definition clear (s : t) : t := ∅.
Definition len (s : t) : nat := size s.
Definition is_empty (s : t) : bool := bool_decide (s = ∅).
End TaintTracker.
Abbreviation TaintTracker := (gmap bytes TaintReason).
Module TT := TaintTracker.

(** ** The flow of taint along a lineage

    The derivations of a run, in order: the parents and the signal derived from them. *)

Definition derivation : Type := list bytes * bytes.

Definition run_lineage (s : TaintTracker) (l : list derivation) : TaintTracker :=
  foldl (λ s d, (TT.propagate d.1 d.2 s).1) s l.

Definition derived (l : list derivation) (a b : bytes) : Prop :=
  ∃ d, d ∈ l ∧ a ∈ d.1 ∧ b = d.2.

(** Signals are only derived from signals that are already there: none is a parent
    before, or while, it is derived. *)
Definition in_order (l : list derivation) : Prop :=
  ∀ l1 d l2 d', l = l1 ++ d :: l2 → d' ∈ d :: l2 → d'.2 ∉ d.1.

Definition tainted (s : TaintTracker) (h : bytes) : Prop := TT.is_tainted s h = true.

#[global] Instance tainted_dec s h : Decision (tainted s h).
Proof. unfold tainted. apply _. Defined.

Lemma tainted_iff s h : tainted s h ↔ is_Some (s !! h).
Proof. unfold tainted, TT.is_tainted. apply bool_decide_eq_true. Qed.

Lemma run_lineage_snoc s l d :
  run_lineage s (l ++ [d]) = (TT.propagate d.1 d.2 (run_lineage s l)).1.
Proof. unfold run_lineage. by rewrite foldl_app. Qed.

(** One propagation: the child becomes tainted exactly when a parent is. *)
Lemma propagate_spec s parents child :
  let s' := (TT.propagate parents child s).1 in
  (∀ h, tainted s' h ↔ tainted s h ∨ h = child ∧ ∃ p, p ∈ parents ∧ tainted s p) ∧
  (TT.propagate parents child s).2 = bool_decide (Exists (tainted s) parents) ∧
  (∀ h r, s' !! h = Some r → s !! h = Some r ∨
     h = child ∧ ∃ p, TaintReason.inherited_from r = Some p ∧
       TaintReason.category r = "propagated" ∧ p ∈ parents ∧ tainted s p) ∧
  (∀ h r, s !! h = Some r → TaintReason.category r ≠ "propagated" → s' !! h = Some r).
Proof.
  unfold TT.propagate. destruct (List.find (TT.is_tainted s) parents) as [p|] eqn:Hf.
  - apply find_some in Hf as [Hp%list_elem_of_In Ht].
    assert (Exists (tainted s) parents) as Hex by (apply Exists_exists; eauto).
    destruct (s !! child) as [r|] eqn:Hc; [destruct (negb _) eqn:Hspec|]; simpl.
    + split_and!; [|by rewrite bool_decide_true|auto|auto].
      intros h. split; [auto|]. intros [?|[-> _]]; [done|]. rewrite tainted_iff. eauto.
    + rewrite negb_false_iff in Hspec. apply bool_decide_eq_true in Hspec.
      split_and!; [|by rewrite bool_decide_true| |].
      * intros h. rewrite !tainted_iff, lookup_insert. case_decide as Hh; naive_solver.
      * intros h r'. rewrite lookup_insert. case_decide as Hh; [|auto]. intros [= <-]. right.
        split; [done|]. eauto.
      * intros h r' Hh Hr'. rewrite lookup_insert_ne; [done|]. intros ->. congruence.
    + split_and!; [|by rewrite bool_decide_true| |].
      * intros h. rewrite !tainted_iff, lookup_insert. case_decide as Hh; naive_solver.
      * intros h r'. rewrite lookup_insert. case_decide as Hh; [|auto]. intros [= <-]. right.
        split; [done|]. eauto.
      * intros h r' Hh Hr'. rewrite lookup_insert_ne; [done|]. intros ->. congruence.
  - assert (∀ p, p ∈ parents → ¬ tainted s p) as Hno.
    { intros p Hp%list_elem_of_In. pose proof (find_none _ _ Hf p Hp) as Hn.
      unfold tainted. by rewrite Hn. }
    split_and!; [naive_solver| |auto|auto]. simpl. rewrite bool_decide_false; [done|].
    intros (p & Hp & Ht)%Exists_exists. by apply (Hno p).
Qed.

(** The last signal derived has no descendants yet. *)
Lemma derived_snoc l d a b :
  (∀ d', d' ∈ l ++ [d] → d.2 ∉ d'.1) →
  rtc (derived (l ++ [d])) a b →
  rtc (derived l) a b ∨ b = d.2 ∧ ∃ p, p ∈ d.1 ∧ rtc (derived l) a p.
Proof.
  intros Hlast. revert b.
  apply (rtc_ind_r (λ b, rtc (derived l) a b ∨ b = d.2 ∧ ∃ p, p ∈ d.1 ∧ rtc (derived l) a p) a);
    [left; apply rtc_refl|]. intros y z Hay Hyz IH. destruct Hyz as (d' & Hd' & Hy & ->).
  destruct IH as [IH|[-> _]]; [|by destruct (Hlast d')].
  apply elem_of_app in Hd' as [Hd'| ->%list_elem_of_singleton].
  - left. eapply rtc_r; [exact IH|]. exists d'. auto.
  - right. eauto.
Qed.

Lemma in_order_snoc l d :
  in_order (l ++ [d]) → in_order l ∧ ∀ d', d' ∈ l ++ [d] → d.2 ∉ d'.1.
Proof.
  intros H. split.
  - intros l1 d1 l2 d' -> Hd'. apply (H l1 d1 (l2 ++ [d]) d').
    + by rewrite <-app_assoc.
    + rewrite app_comm_cons. apply elem_of_app. by left.
  - intros d' Hd'. apply list_elem_of_split in Hd' as (l1 & l2 & E).
    apply (H l1 d' l2 d E).
    assert (last (l ++ [d]) = Some d) as Hl by apply last_snoc.
    rewrite E, last_app_cons in Hl. by apply last_Some_elem_of in Hl.
Qed.

Lemma derived_mono l l' a b : l ⊆ l' → rtc (derived l) a b → rtc (derived l') a b.
Proof.
  intros Hl. apply rtc_subrel. intros x y (d & Hd & Hx & ->). exists d. auto.
Qed.

(** C34: Taint reaches exactly what is derived, directly or through other signals, from
    tainted signals, when signals are derived from signals that are already there;
    concrete reasons are kept; and a reason given by propagation names a tainted parent. *)
Theorem taint_reaches_descendants s l h :
  in_order l →
  (TT.is_tainted (run_lineage s l) h = true ↔
     ∃ a, TT.is_tainted s a = true ∧ rtc (derived l) a h) ∧
  (∀ r, TT.reason s h = Some r → TaintReason.category r ≠ "propagated" →
     TT.reason (run_lineage s l) h = Some r) ∧
  (∀ r, TT.reason (run_lineage s l) h = Some r → TT.reason s h = Some r ∨
     ∃ p, TaintReason.inherited_from r = Some p ∧ TaintReason.category r = "propagated" ∧
          derived l p h ∧ TT.is_tainted (run_lineage s l) p = true).
Proof.
  change (in_order l → (tainted (run_lineage s l) h ↔ ∃ a, tainted s a ∧ rtc (derived l) a h) ∧
    (∀ r, s !! h = Some r → TaintReason.category r ≠ "propagated" →
       run_lineage s l !! h = Some r) ∧
    (∀ r, run_lineage s l !! h = Some r → s !! h = Some r ∨
       ∃ p, TaintReason.inherited_from r = Some p ∧ TaintReason.category r = "propagated" ∧
            derived l p h ∧ tainted (run_lineage s l) p)).
  revert h. induction l as [|d l IH] using rev_ind; intros h Hord.
  { split_and!; [|done|by left]. split; [intros Hh; exists h; split; [done|apply rtc_refl]|].
    intros (a & Ha & Hr). by inversion Hr as [|? ? ? (? & ?%elem_of_nil & _)]; subst. }
  apply in_order_snoc in Hord as [Hord Hlast]. specialize (λ h, IH h Hord) as IHl. clear IH.
  rewrite run_lineage_snoc.
  destruct (propagate_spec (run_lineage s l) d.1 d.2) as (P1 & _ & P3 & P4).
  split_and!.
  - rewrite P1. split.
    + intros [Hh|(-> & p & Hp & Ht)].
      * apply IHl in Hh as (a & Ha & Hr). exists a. split; [done|].
        eapply derived_mono; [|exact Hr]. set_solver.
      * apply IHl in Ht as (a & Ha & Hr). exists a. split; [done|].
        eapply rtc_r; [eapply derived_mono; [|exact Hr]; set_solver|].
        exists d. split_and!; [set_solver|done|done].
    + intros (a & Ha & Hr). apply derived_snoc in Hr as [Hr|(-> & p & Hp & Hr)]; [..|done].
      * left. apply IHl. eauto.
      * right. split; [done|]. exists p. split; [done|]. apply IHl. eauto.
  - intros r Hr Hcat. apply P4; [|done]. by apply IHl.
  - intros r Hr. apply P3 in Hr as [Hr|(-> & p & Hi & Hcat & Hp & Ht)].
    + apply IHl in Hr as [|(p & Hi & Hcat & (d' & Hd' & Hp & ->) & Ht)]; [by left|right].
      exists p. split_and!; [done|done| |apply P1; by left]. exists d'. set_solver.
    + right. exists p. split_and!; [done|done| |apply P1; by left]. exists d. set_solver.
Qed.

(** A webhook's payload is parsed, and the result combined with a clean file. *)
Definition sample_hash (n : nat) : bytes := replicate n Byte.x01.

Definition sample_lineage : list derivation :=
  [([sample_hash 1], sample_hash 2); ([sample_hash 3; sample_hash 2], sample_hash 4);
   ([sample_hash 3], sample_hash 5)].

Lemma in_order_dec l :
  (∀ i, Forall (λ d', Forall (λ d, d'.2 ∉ d.1) (take 1 (drop i l))) (drop i l)) → in_order l.
Proof.
  intros H l1 d l2 d' -> Hd'. specialize (H (length l1)). rewrite drop_app_length in H.
  rewrite Forall_forall in H. specialize (H d' Hd'). by apply Forall_cons in H as [? _].
Qed.

Lemma sample_lineage_in_order : in_order sample_lineage.
Proof.
  apply in_order_dec. intros [|[|[|i]]];
    [apply (bool_decide_unpack _); vm_compute; exact I..|]. simpl. rewrite drop_nil. constructor.
Defined.

Lemma taint_reaches_descendants_witness :
  TT.is_tainted (run_lineage
    (TT.mark_tainted (sample_hash 1) (TaintReason.external "webhook") TT.new) sample_lineage)
    (sample_hash 4) = true.
Proof.
  apply (taint_reaches_descendants
    (TT.mark_tainted (sample_hash 1) (TaintReason.external "webhook") TT.new) sample_lineage
    (sample_hash 4) sample_lineage_in_order).
  exists (sample_hash 1). split; [vm_compute; reflexivity|].
  apply (rtc_l _ _ (sample_hash 2));
    [exists ([sample_hash 1], sample_hash 2)|
     apply rtc_once; exists ([sample_hash 3; sample_hash 2], sample_hash 4)];
    (split; [|split; [|reflexivity]]).
  - left.
  - left.
  - right. left.
  - right. left.
Defined.

(** Out of order taint is lost: marking a signal after something was derived from it
    does not taint the derived signal. *)
Lemma propagate_is_not_retroactive :
  let s := (TT.propagate [sample_hash 1] (sample_hash 2) TT.new).1 in
  let s := TT.mark_tainted (sample_hash 1) (TaintReason.external "webhook") s in
  TT.is_tainted s (sample_hash 2) = false.
Proof. vm_compute. reflexivity. Qed.

(** A second derivation overwrites a reason given by propagation, so the recorded
    parents can form a cycle that no longer leads to the tainted source. *)
Lemma provenance_cycle :
  let s := TT.mark_tainted (sample_hash 0) (TaintReason.external "webhook") TT.new in
  let s := run_lineage s [([sample_hash 0], sample_hash 1); ([sample_hash 1], sample_hash 2);
                          ([sample_hash 2], sample_hash 1)] in
  (TT.reason s (sample_hash 1) ≫= TaintReason.inherited_from) = Some (sample_hash 2) ∧
  (TT.reason s (sample_hash 2) ≫= TaintReason.inherited_from) = Some (sample_hash 1).
Proof. vm_compute. done. Qed.

(** A typed taint and its legacy form are inverse for the categories the legacy form
    knows, and only for those: a tool failure comes back as a custom taint. *)
Lemma of_info_to_info x i :
  Taint.to_info x = Some i →
  match x with
  | Taint.UnverifiedSource _ | Taint.UserInput _ | Taint.Propagated _ _ => Taint.of_info i = x
  | _ => ∃ d, Taint.of_info i = Taint.Custom d
  end.
Proof. destruct x; simpl; intros [= <-]; unfold Taint.of_info; simpl; eauto. Qed.

(** Observing a tainted signal always taints its hash, whatever the form of its
    provenance. *)
Lemma observe_signal_spec signal s :
  (TT.observe_signal signal s).2 = Provenance.is_tainted (TaintSignal.provenance signal) ∧
  ∀ h, TT.is_tainted (TT.observe_signal signal s).1 h =
    bool_decide (h = TaintSignal.id signal) && Provenance.is_tainted (TaintSignal.provenance signal)
    || TT.is_tainted s h.
Proof.
  unfold TT.observe_signal, TT.is_tainted, TT.mark_tainted.
  destruct (Provenance.is_tainted _); simpl; (split; [done|]); intros h.
  - rewrite lookup_insert. case_decide as Hh.
    + subst. by rewrite (bool_decide_true (TaintSignal.id signal = _)).
    + rewrite (bool_decide_false (h = _)); [done|congruence].
  - by rewrite andb_false_r.
Qed.

(** Clearing the typed taint leaves a legacy record behind. *)
Lemma with_taint_keeps_info i p :
  let p := Provenance.with_taint Taint.Clean (Provenance.with_taint_info i p) in
  Provenance.is_tainted p = false ∧ Provenance.taint_info p = Some i.
Proof. done. Qed.
