(* ===== verification/KeyedMix.v ===== *)
(** * The keyed hash of capabilities
      (crates/roko-orchestrator/src/safety/capability_tokens.rs, [keyed_mix])

    A 256-bit add-rotate-xor permutation that absorbs a message eight bytes at a time.
    The permutation is shown to be injective, so messages of equal length that differ in
    one block never collide. *)

From S2P Require Import Prelude Bytes.

(** ** 64-bit words *)

Definition modulus64 : N := 18446744073709551616.
Definition word64 (x : N) : Prop := (x < modulus64)%N.

Definition wrapping_add (a b : N) : N := (a + b) mod modulus64.

Definition rotate_left (x : N) (k : N) : N :=
  N.lor (N.shiftl x k mod modulus64) (N.shiftr x (64 - k)).

(** The state: four words. *)
Module MixState.
Record t : Type := mk { s0 : N; s1 : N; s2 : N; s3 : N }.
End MixState.
Abbreviation MixState := MixState.t.

Definition permute_round (s : MixState) : MixState :=
  let '(MixState.mk a b c d) := s in
  let a := wrapping_add a b in
  let c := wrapping_add c d in
  let b := N.lxor (rotate_left b 13) a in
  let d := N.lxor (rotate_left d 17) c in
  let a := wrapping_add (rotate_left a 31) d in
  let c := wrapping_add (rotate_left c 7) b in
  let b := N.lxor (rotate_left b 25) c in
  let d := N.lxor (rotate_left d 11) a in
  MixState.mk a b c d.

Definition permute (s : MixState) : MixState := Nat.iter 12 permute_round s.

Definition key_state (key : bytes) : MixState :=
  let word i := le_val (take 8 (drop (8 * i) key)) in
  MixState.mk (word 0) (word 1) (word 2) (word 3).

Definition absorb_block (s : MixState) (block : bytes) : MixState :=
  permute (MixState.mk (N.lxor (MixState.s0 s) (le_val block)) (MixState.s1 s)
             (MixState.s2 s) (MixState.s3 s)).

(** [while i + 8 <= bytes.len()]: the state and what is left of the message. *)
Fixpoint absorb (fuel : nat) (s : MixState) (msg : bytes) : MixState * bytes :=
  match fuel with
  | O => (s, msg)
  | S fuel' =>
      if decide (8 ≤ length msg)
      then absorb fuel' (absorb_block s (take 8 msg)) (drop 8 msg)
      else (s, msg)
  end.

(** The final partial block: padded, its last byte the length tagged with [0x80]. *)
Definition tail_block (rem : bytes) : bytes :=
  take 7 (rem ++ replicate 8 Byte.x00) ++ [byte_of_N (N.lor (N.of_nat (length rem)) 128)].

Definition finish (s : MixState) (rem : bytes) : MixState :=
  permute (permute (MixState.mk (MixState.s0 s) (N.lxor (MixState.s1 s) (le_val (tail_block rem)))
                      (MixState.s2 s) (MixState.s3 s))).

Definition squeeze (s : MixState) : bytes :=
  le_bytes 8 (MixState.s0 s) ++ le_bytes 8 (MixState.s1 s) ++
  le_bytes 8 (MixState.s2 s) ++ le_bytes 8 (MixState.s3 s).

Definition keyed_mix (key msg : bytes) : bytes :=
  let '(s, rem) := absorb (length msg) (key_state key) msg in squeeze (finish s rem).

(** ** The operations on words are injective *)

Lemma word64_bits x i : word64 x → (64 ≤ i)%N → N.testbit x i = false.
Proof.
  intros Hx Hi. destruct (N.eq_dec x 0) as [->|Hn]; [apply N.bits_0|].
  apply N.bits_above_log2. apply N.log2_lt_pow2; [lia|].
  unfold word64, modulus64 in Hx.
  eapply N.lt_le_trans; [exact Hx|]. change 18446744073709551616%N with (2 ^ 64)%N.
  apply N.pow_le_mono_r; lia.
Qed.

Lemma wrapping_add_word a b : word64 (wrapping_add a b).
Proof. unfold word64, wrapping_add. apply N.mod_lt. done. Qed.

Lemma wrapping_add_inj a b c :
  word64 a → word64 b → wrapping_add a c = wrapping_add b c → a = b.
Proof.
  unfold word64, wrapping_add, modulus64. intros Ha Hb H.
  pose proof (N.div_mod (a + c) 18446744073709551616).
  pose proof (N.div_mod (b + c) 18446744073709551616). nia.
Qed.

Lemma lt_pow2_bits x : (∀ i, (64 ≤ i)%N → N.testbit x i = false) → word64 x.
Proof.
  intros H. unfold word64, modulus64. change 18446744073709551616%N with (2 ^ 64)%N.
  destruct (N.lt_ge_cases x (2 ^ 64)) as [|Hge]; [done|].
  assert (64 ≤ N.log2 x)%N as Hlog by (apply N.log2_le_pow2; lia).
  specialize (H (N.log2 x) Hlog). rewrite N.bit_log2 in H; [done|]. lia.
Qed.

Lemma lxor_word a b : word64 a → word64 b → word64 (N.lxor a b).
Proof.
  intros Ha Hb. apply lt_pow2_bits. intros i Hi.
  by rewrite N.lxor_spec, !word64_bits.
Qed.

Lemma lxor_inj_r a b c : N.lxor a c = N.lxor b c → a = b.
Proof.
  intros H. apply (f_equal (λ x, N.lxor x c)) in H.
  by rewrite !N.lxor_assoc, N.lxor_nilpotent, !N.lxor_0_r in H.
Qed.

(** Bit [i] of the rotated word. *)
Lemma rotate_left_bits x k i :
  word64 x → (k ≤ 64)%N →
  N.testbit (rotate_left x k) i =
    if (i <? k)%N then N.testbit x (i + (64 - k))
    else if (i <? 64)%N then N.testbit x (i - k) else false.
Proof.
  intros Hx Hk. unfold rotate_left. rewrite N.lor_spec, N.shiftr_spec by lia.
  change modulus64 with (2 ^ 64)%N.
  destruct (N.ltb_spec i 64) as [H64|H64].
  - rewrite N.mod_pow2_bits_low by done. destruct (N.ltb_spec i k) as [Hik|Hik].
    + by rewrite N.shiftl_spec_low.
    + rewrite N.shiftl_spec_high' by done. rewrite (word64_bits x (i + (64 - k))) by (done || lia).
      apply orb_false_r.
  - rewrite N.mod_pow2_bits_high by done. rewrite (word64_bits x (i + (64 - k))) by (done || lia).
    by destruct (N.ltb_spec i k); [lia|].
Qed.

Lemma rotate_left_word x k : word64 x → (k ≤ 64)%N → word64 (rotate_left x k).
Proof.
  intros Hx Hk. apply lt_pow2_bits. intros i Hi. rewrite rotate_left_bits by done.
  destruct (N.ltb_spec i k); [|by destruct (N.ltb_spec i 64); [lia|]].
  apply word64_bits; [done|lia].
Qed.

Lemma rotate_left_inj x y k :
  word64 x → word64 y → (k ≤ 64)%N → rotate_left x k = rotate_left y k → x = y.
Proof.
  intros Hx Hy Hk H. apply N.bits_inj. intros i.
  destruct (N.lt_ge_cases i 64) as [Hi|Hi]; [|by rewrite !word64_bits].
  destruct (N.lt_ge_cases i (64 - k)) as [Hlo|Hhi].
  - apply (f_equal (λ z, N.testbit z (i + k))) in H. rewrite !rotate_left_bits in H by done.
    destruct (N.ltb_spec (i + k) k); [lia|]. destruct (N.ltb_spec (i + k) 64); [|lia].
    by replace (i + k - k)%N with i in H by lia.
  - apply (f_equal (λ z, N.testbit z (i - (64 - k)))) in H. rewrite !rotate_left_bits in H by done.
    destruct (N.ltb_spec (i - (64 - k)) k); [|lia].
    by replace (i - (64 - k) + (64 - k))%N with i in H by lia.
Qed.

(** ** The permutation is injective *)

Definition words (s : MixState) : Prop :=
  word64 (MixState.s0 s) ∧ word64 (MixState.s1 s) ∧ word64 (MixState.s2 s) ∧ word64 (MixState.s3 s).

Ltac solve_word :=
  match goal with
  | |- word64 (wrapping_add _ _) => apply wrapping_add_word
  | |- word64 (N.lxor _ _) => apply lxor_word; solve_word
  | |- word64 (rotate_left _ _) => apply rotate_left_word; [solve_word|lia]
  | _ => assumption
  end.

Lemma permute_round_words s : words s → words (permute_round s).
Proof.
  destruct s as [a b c d]. unfold words. simpl. intros (Ha & Hb & Hc & Hd).
  split_and!; solve_word.
Qed.

Lemma permute_round_inj s s' :
  words s → words s' → permute_round s = permute_round s' → s = s'.
Proof.
  destruct s as [a b c d], s' as [a' b' c' d']. unfold words. simpl.
  intros (Ha & Hb & Hc & Hd) (Ha' & Hb' & Hc' & Hd') H. injection H as H0 H1 H2 H3.
  set (a1 := wrapping_add a b) in *. set (a1' := wrapping_add a' b') in *.
  set (c1 := wrapping_add c d) in *. set (c1' := wrapping_add c' d') in *.
  set (b1 := N.lxor (rotate_left b 13) a1) in *. set (b1' := N.lxor (rotate_left b' 13) a1') in *.
  set (d1 := N.lxor (rotate_left d 17) c1) in *. set (d1' := N.lxor (rotate_left d' 17) c1') in *.
  assert (word64 a1 ∧ word64 a1' ∧ word64 c1 ∧ word64 c1') as (? & ? & ? & ?)
    by (split_and!; apply wrapping_add_word).
  assert (word64 b1 ∧ word64 b1' ∧ word64 d1 ∧ word64 d1') as (? & ? & ? & ?)
    by (unfold b1, b1', d1, d1'; split_and!; solve_word).
  rewrite H2 in H1. apply lxor_inj_r, rotate_left_inj in H1; [|done|done|lia].
  rewrite H0 in H3. apply lxor_inj_r, rotate_left_inj in H3; [|done|done|lia].
  rewrite H3 in H0. apply wrapping_add_inj, rotate_left_inj in H0; [|solve_word || done || lia..].
  rewrite H1 in H2. apply wrapping_add_inj, rotate_left_inj in H2; [|solve_word || done || lia..].
  unfold b1, b1' in H1. rewrite H0 in H1. apply lxor_inj_r, rotate_left_inj in H1; [|done|done|lia].
  unfold d1, d1' in H3. rewrite H2 in H3. apply lxor_inj_r, rotate_left_inj in H3; [|done|done|lia].
  subst b' d'. unfold a1, a1' in H0. unfold c1, c1' in H2.
  apply wrapping_add_inj in H0; [|done..]. apply wrapping_add_inj in H2; [|done..]. by subst.
Qed.

Lemma permute_words s : words s → words (permute s).
Proof. intros H. unfold permute. do 12 (apply permute_round_words). done. Qed.

Lemma permute_inj s s' : words s → words s' → permute s = permute s' → s = s'.
Proof.
  unfold permute. generalize 12 as n. induction n as [|n IH]; intros Hs Hs' H; [done|].
  simpl in H. apply permute_round_inj in H; [by apply IH|..].
  - clear -Hs. induction n; [done|]. by apply permute_round_words.
  - clear -Hs'. induction n; [done|]. by apply permute_round_words.
Qed.

(** ** One differing block *)

Lemma le_val_word l : length l ≤ 8 → word64 (le_val l).
Proof.
  intros H. unfold word64. eapply N.lt_le_trans; [apply le_val_bound|].
  change modulus64 with (256 ^ 8)%N. apply N.pow_le_mono_r; lia.
Qed.

Lemma length_take_le {A} n (l : list A) : length (take n l) ≤ n.
Proof. rewrite length_take. lia. Qed.

Lemma key_state_words key : words (key_state key).
Proof. unfold words, key_state. simpl. split_and!; apply le_val_word, length_take_le. Qed.

Opaque permute.

(** The word absorbed into the first, or tagged into the second, word of a state. *)
Lemma xor_first_words s w :
  words s → word64 w →
  words (MixState.mk (N.lxor (MixState.s0 s) w) (MixState.s1 s) (MixState.s2 s) (MixState.s3 s)).
Proof. intros (? & ? & ? & ?) Hw. split_and!; simpl; [by apply lxor_word|assumption..]. Qed.

Lemma xor_second_words s w :
  words s → word64 w →
  words (MixState.mk (MixState.s0 s) (N.lxor (MixState.s1 s) w) (MixState.s2 s) (MixState.s3 s)).
Proof.
  intros (? & ? & ? & ?) Hw. split_and!; simpl; [assumption|by apply lxor_word|assumption..].
Qed.

Lemma absorb_block_words s block : words s → length block ≤ 8 → words (absorb_block s block).
Proof. intros Hs Hb. by apply permute_words, xor_first_words, le_val_word. Qed.

Lemma absorb_block_inj s s' block :
  words s → words s' → length block ≤ 8 → absorb_block s block = absorb_block s' block → s = s'.
Proof.
  intros Hs Hs' Hb H. pose proof (le_val_word block Hb) as Hw.
  apply permute_inj in H; [|by apply xor_first_words..].
  destruct s, s'. injection H as E1 -> -> ->. by apply lxor_inj_r in E1 as ->.
Qed.

Lemma le_val_inj l1 l2 : length l1 = length l2 → le_val l1 = le_val l2 → l1 = l2.
Proof. intros Hl H. by rewrite <-(le_bytes_val l1), <-(le_bytes_val l2), Hl, H. Qed.

(** Different blocks absorbed into one state give different states. *)
Lemma absorb_block_differ s b1 b2 :
  words s → length b1 = 8 → length b2 = 8 → absorb_block s b1 = absorb_block s b2 → b1 = b2.
Proof.
  intros Hs H1 H2 H.
  assert (word64 (le_val b1)) by (apply le_val_word; lia).
  assert (word64 (le_val b2)) by (apply le_val_word; lia).
  apply permute_inj in H; [|by apply xor_first_words..].
  injection H as E. rewrite !(N.lxor_comm (MixState.s0 s)) in E. apply lxor_inj_r in E.
  apply le_val_inj; [lia|assumption].
Qed.

Lemma absorb_step fuel s block rest :
  length block = 8 → absorb (S fuel) s (block ++ rest) = absorb fuel (absorb_block s block) rest.
Proof.
  intros H. cbn [absorb]. rewrite decide_True by (rewrite length_app; lia).
  by rewrite take_app_length', drop_app_length' by done.
Qed.

(** More fuel than eight-byte blocks changes nothing. *)
Lemma absorb_fuel fuel1 fuel2 s msg :
  length msg ≤ fuel1 → length msg ≤ fuel2 → absorb fuel1 s msg = absorb fuel2 s msg.
Proof.
  revert fuel2 s msg. induction fuel1 as [|fuel1 IH]; intros fuel2 s msg H1 H2.
  { destruct msg; [|simpl in H1; lia]. by destruct fuel2. }
  destruct fuel2 as [|fuel2]; [destruct msg; [done|simpl in H2; lia]|]. cbn [absorb].
  destruct (decide (8 ≤ length msg)); [|done]. apply IH; rewrite length_drop; lia.
Qed.

(** Absorbing the same message is injective in the state. *)
Lemma absorb_inj fuel s s' msg :
  words s → words s' →
  (absorb fuel s msg).2 = (absorb fuel s' msg).2 ∧
  ((absorb fuel s msg).1 = (absorb fuel s' msg).1 → s = s') ∧
  words (absorb fuel s msg).1 ∧ words (absorb fuel s' msg).1.
Proof.
  revert s s' msg. induction fuel as [|fuel IH]; intros s s' msg Hs Hs'; [done|]. cbn [absorb].
  destruct (decide (8 ≤ length msg)); [|done].
  assert (length (take 8 msg) ≤ 8) as Hb by apply length_take_le.
  destruct (IH (absorb_block s (take 8 msg)) (absorb_block s' (take 8 msg)) (drop 8 msg))
    as (H1 & H2 & H3 & H4); [by apply absorb_block_words..|].
  split_and!; [done| |done|done]. intros H. by eapply absorb_block_inj, H2.
Qed.

Lemma tail_block_short rem : length (tail_block rem) ≤ 8.
Proof.
  unfold tail_block. rewrite length_app. cbn [length].
  pose proof (length_take_le 7 (rem ++ replicate 8 Byte.x00)). lia.
Qed.

Lemma finish_inj s s' rem : words s → words s' → finish s rem = finish s' rem → s = s'.
Proof.
  intros Hs Hs' H. pose proof (le_val_word _ (tail_block_short rem)) as Hw.
  apply permute_inj in H; [|by apply permute_words, xor_second_words..].
  apply permute_inj in H; [|by apply xor_second_words..].
  destruct s, s'. injection H as -> E -> ->. by apply lxor_inj_r in E as ->.
Qed.

Lemma finish_words s rem : words s → words (finish s rem).
Proof.
  intros Hs. apply permute_words, permute_words, xor_second_words; [done|].
  apply le_val_word, tail_block_short.
Qed.

Lemma squeeze_inj s s' : words s → words s' → squeeze s = squeeze s' → s = s'.
Proof.
  unfold words, word64. change modulus64 with (256 ^ N.of_nat 8)%N.
  intros (? & ? & ? & ?) (? & ? & ? & ?) Heq. unfold squeeze in Heq. 
  apply app_inj_1 in Heq as [E0 Heq]; [|by rewrite !length_le_bytes].
  apply app_inj_1 in Heq as [E1 Heq]; [|by rewrite !length_le_bytes].
  apply app_inj_1 in Heq as [E2 E3]; [|by rewrite !length_le_bytes].
  apply le_bytes_inj in E0, E1, E2, E3; [|done..]. destruct s, s'. simpl in *. by subst.
Qed.

Lemma length_keyed_mix key msg : length (keyed_mix key msg) = 32.
Proof.
  unfold keyed_mix. destruct (absorb _ _ _) as [s rem]. unfold squeeze.
  by rewrite !length_app, !length_le_bytes.
Qed.

(** Absorbing whole blocks first. *)
Lemma absorb_app fuel s (pre rest : bytes) :
  length pre `mod` 8 = 0 → length pre + length rest ≤ fuel → words s →
  ∃ s', words s' ∧ ∀ rest', length rest' ≤ length rest →
    absorb fuel s (pre ++ rest') = absorb fuel s' rest'.
Proof.
  revert s pre. induction fuel as [|fuel IH]; intros s pre Hmod Hf Hs.
  { destruct pre; [|simpl in Hf; lia]. exists s. auto. }
  destruct (decide (pre = [])) as [->|Hne]; [exists s; auto|].
  assert (8 ≤ length pre) as H8.
  { assert (length pre ≠ 0) by by destruct pre.
    pose proof (Nat.div_mod_eq (length pre) 8). lia. }
  rewrite <-(take_drop 8 pre).
  assert (length (take 8 pre) = 8) as Ht by (rewrite length_take; lia).
  destruct (IH (absorb_block s (take 8 pre)) (drop 8 pre)) as (s' & Hs' & H).
  - rewrite length_drop. pose proof (Nat.div_mod_eq (length pre) 8) as E. rewrite Hmod in E.
    replace (length pre - 8) with ((length pre / 8 - 1) * 8) by lia. apply Nat.Div0.mod_mul.
  - rewrite length_drop. lia.
  - apply absorb_block_words; [done|lia].
  - exists s'. split; [done|]. intros rest' Hr. rewrite <-app_assoc, absorb_step by done.
    rewrite H by done. apply absorb_fuel; lia.
Qed.

(** Messages that differ in a single aligned block have different digests. *)
Lemma keyed_mix_one_block key (pre b1 b2 post : bytes) :
  length pre `mod` 8 = 0 → length b1 = 8 → length b2 = 8 →
  keyed_mix key (pre ++ b1 ++ post) = keyed_mix key (pre ++ b2 ++ post) → b1 = b2.
Proof.
  intros Hpre H1 H2. unfold keyed_mix. set (n := length (pre ++ b1 ++ post)).
  assert (length (pre ++ b2 ++ post) = n) as -> by (unfold n; rewrite !length_app; lia).
  assert (n = length pre + (8 + length post)) as En by (unfold n; rewrite !length_app; lia).
  destruct (absorb_app n (key_state key) pre (b1 ++ post)) as (s & Hs & Habs);
    [done|rewrite length_app; lia|apply key_state_words|].
  rewrite !Habs by (rewrite !length_app; lia).
  destruct n as [|n]; [lia|]. rewrite !absorb_step by done.
  assert (words (absorb_block s b1) ∧ words (absorb_block s b2)) as [W1 W2]
    by (split; apply absorb_block_words; [done|lia|done|lia]).
  destruct (absorb_inj n _ _ post W1 W2) as (Er & Hinj & W3 & W4).
  destruct (absorb n (absorb_block s b1) post) as [t1 r1],
    (absorb n (absorb_block s b2) post) as [t2 r2]. simpl in *. subst r2.
  intros H. apply squeeze_inj in H; [|apply finish_words; assumption..].
  apply finish_inj in H; [|assumption..]. apply Hinj in H.
  exact (absorb_block_differ s b1 b2 Hs H1 H2 H).
Qed.
