(* ===== verification/Capability.v ===== *)
(** * Capability tokens (crates/roko-orchestrator/src/safety/capability_tokens.rs)

    Signed single-use tokens: their issue, their verification and their revocation.  The
    clock and the random identifiers are arguments. *)

From stdpp Require Import relations.
From S2P Require Import Prelude Bytes KeyedMix.

Module CapabilityKind.
Inductive t : Type :=
  | FileWrite
  | FileRead
  | NetworkEgress
  | SubprocessSpawn
  | GitMutate
  | SignalEmit.

Definition name (k : t) : string :=
  match k with
  | FileWrite => "FileWrite"
  | FileRead => "FileRead"
  | NetworkEgress => "NetworkEgress"
  | SubprocessSpawn => "SubprocessSpawn"
  | GitMutate => "GitMutate"
  | SignalEmit => "SignalEmit"
  end.
End CapabilityKind.
Abbreviation CapabilityKind := CapabilityKind.t.

(** A token; its kind is a type parameter in the code. *)
Module Capability.
Record t : Type := mk {
  kind : CapabilityKind;
  id : bytes;
  target : string;
  issued_at_ms : Z;
  ttl_ms : N;
  signature : bytes;
}.

Definition is_expired (c : t) (now_ms : Z) : bool :=
  let elapsed := sat_i64 (now_ms - issued_at_ms c) in
  if (elapsed <? 0)%Z then false else (ttl_ms c <? Z.to_N elapsed)%N.
End Capability.
Abbreviation Capability := Capability.t.

Module BurnedCapability.
Record t : Type := mk { id : bytes; kind : string; target : string; burned_at_ms : Z }.
End BurnedCapability.
Abbreviation BurnedCapability := BurnedCapability.t.

Module CapabilityError.
Inductive t : Type :=
  | AlreadyBurned (id : bytes)
  | Expired
  | BadSignature
  | Revoked (id : bytes)
  | InvalidTarget (target : string)
  | ZeroTtl
  | Denied (reason : string).
End CapabilityError.
Abbreviation CapabilityError := CapabilityError.t.

(** ** Signatures *)

Definition i64_le_bytes (x : Z) : bytes := le_bytes 8 (Z.to_N (x mod 2 ^ 64)).

Definition capability_message (kind : CapabilityKind) (id : bytes) (target : string)
    (issued_at_ms : Z) (ttl_ms : N) : bytes :=
  let kind := str_bytes (CapabilityKind.name kind) in
  let target := str_bytes target in
  id ++ i64_le_bytes issued_at_ms ++ le_bytes 8 ttl_ms ++
  len_prefix kind ++ kind ++ len_prefix target ++ target.

Definition xor_key (pad : N) (secret : bytes) : bytes :=
  (λ b, byte_of_N (N.lxor (Byte.to_N b) pad)) <$> secret.

Definition inner_key : bytes → bytes := xor_key 54.
Definition outer_key : bytes → bytes := xor_key 92.

Definition sign_capability (secret : bytes) (kind : CapabilityKind) (id : bytes)
    (target : string) (issued_at_ms : Z) (ttl_ms : N) : bytes :=
  let msg := capability_message kind id target issued_at_ms ttl_ms in
  let inner := keyed_mix (inner_key secret) msg in
  keyed_mix (outer_key secret) inner.

Definition constant_time_eq (a b : bytes) : bool :=
  (foldl (λ diff p, N.lor diff (N.lxor (Byte.to_N p.1) (Byte.to_N p.2))) 0 (zip a b) =? 0)%N.

(** ** The issuer *)

Module CapabilityIssuer.
Record t : Type := mk { secret : bytes; burned : gset bytes; revoked : gset bytes }.

Definition new (secret : bytes) : t := mk secret ∅ ∅.

Definition burned_count (s : t) : nat := size (burned s).
Definition revoked_count (s : t) : nat := size (revoked s).

(** [ttl] is in nanoseconds; [id] is the fresh identifier and [now] the clock. *)
Definition issue (s : t) (kind : CapabilityKind) (target : string) (ttl : N)
    (id : bytes) (now : Z) : result Capability CapabilityError :=
  if (ttl =? 0)%N then Err CapabilityError.ZeroTtl
  else if existsb (λ b, (Byte.to_N b =? 0)%N || (Byte.to_N b =? 10)%N) (str_bytes target)
  then Err (CapabilityError.InvalidTarget target)
  else
    let ttl_ms := N.min (ttl / 1000000) u64_MAX in
    let signature := sign_capability (secret s) kind id target now ttl_ms in
    Ok (Capability.mk kind id target now ttl_ms signature).

Definition verify_and_burn (s : t) (cap : Capability) (now : Z) :
    t * result BurnedCapability CapabilityError :=
  let expected :=
    sign_capability (secret s) (Capability.kind cap) (Capability.id cap)
      (Capability.target cap) (Capability.issued_at_ms cap) (Capability.ttl_ms cap) in
  if negb (constant_time_eq expected (Capability.signature cap)) then
    (s, Err CapabilityError.BadSignature)
  else if Capability.is_expired cap now then (s, Err CapabilityError.Expired)
  else if decide (Capability.id cap ∈ revoked s) then
    (s, Err (CapabilityError.Revoked (Capability.id cap)))
  else if decide (Capability.id cap ∈ burned s) then
    (s, Err (CapabilityError.AlreadyBurned (Capability.id cap)))
  else
    (mk (secret s) ({[Capability.id cap]} ∪ burned s) (revoked s),
     Ok (BurnedCapability.mk (Capability.id cap) (CapabilityKind.name (Capability.kind cap))
           (Capability.target cap) now)).

Definition revoke (s : t) (id : bytes) : t * bool :=
  (mk (secret s) (burned s) ({[id]} ∪ revoked s), negb (bool_decide (id ∈ revoked s))).

Definition is_revoked (s : t) (id : bytes) : bool := bool_decide (id ∈ revoked s).
End CapabilityIssuer.
Abbreviation CapabilityIssuer := CapabilityIssuer.t.
Module CI := CapabilityIssuer.

(** ** What a signature binds *)

(** The fields have the widths of the code: a 16-byte identifier, an [i64] time, a
    [u64] time to live, and strings shorter than 4 GiB. *)
Definition fields_wf (id : bytes) (target : string) (at_ms : Z) (ttl : N) : Prop :=
  length id = 16 ∧ fits_u32 (str_bytes target) ∧ i64_range at_ms ∧ is_u64 ttl.

Lemma i64_le_bytes_inj a b :
  i64_range a → i64_range b → i64_le_bytes a = i64_le_bytes b → a = b.
Proof.
  intros Ha Hb H. apply i64_be_bytes_inj; [done|done|].
  unfold i64_be_bytes, be_bytes. unfold i64_le_bytes in H. by rewrite H.
Qed.

Lemma kind_name_inj k k' : CapabilityKind.name k = CapabilityKind.name k' → k = k'.
Proof. by destruct k, k'. Qed.

Lemma kind_fits k : fits_u32 (str_bytes (CapabilityKind.name k)).
Proof. destruct k; vm_compute; discriminate. Qed.

Lemma ttl_bytes_inj a b : is_u64 a → is_u64 b → le_bytes 8 a = le_bytes 8 b → a = b.
Proof.
  unfold is_u64, u64_MAX. intros Ha Hb. change (256 ^ N.of_nat 8)%N with 18446744073709551616%N.
  apply le_bytes_inj; change (256 ^ N.of_nat 8)%N with 18446744073709551616%N; lia.
Qed.

Lemma capability_message_inj k k' id id' target target' at_ms at_ms' ttl ttl' :
  fields_wf id target at_ms ttl → fields_wf id' target' at_ms' ttl' →
  capability_message k id target at_ms ttl = capability_message k' id' target' at_ms' ttl' →
  k = k' ∧ id = id' ∧ target = target' ∧ at_ms = at_ms' ∧ ttl = ttl'.
Proof.
  intros (Hi & Ht & Ha & Hl) (Hi' & Ht' & Ha' & Hl') H. unfold capability_message in H.
  apply app_inj_1 in H as [-> H]; [|congruence].
  apply app_inj_1 in H as [Eat H]; [|by unfold i64_le_bytes; rewrite !length_le_bytes].
  apply app_inj_1 in H as [Ettl H]; [|by rewrite !length_le_bytes].
  apply lp_app_inj in H as [Ek H]; [|apply kind_fits..].
  destruct (lp_app_inj (str_bytes target) (str_bytes target') [] []) as [Et _];
    [done|done|by rewrite !app_nil_r|].
  split_and!; [by apply kind_name_inj, str_bytes_inj|done|by apply str_bytes_inj|
    by apply i64_le_bytes_inj|by apply ttl_bytes_inj].
Qed.

(** Two different byte strings with the same keyed digest. *)
Definition collides (key : bytes) (x y : bytes) : Prop :=
  x ≠ y ∧ keyed_mix key x = keyed_mix key y.

(** A signature binds every field of a capability: if two capabilities have the same
    signature, either all their fields are the same, or the keyed hash collides, on their
    two messages or on the two inner digests.  When only the time of issue or only the
    time to live differs, the inner digests always differ, so that nothing but a collision
    of the outer hash on two 32-byte digests can go unnoticed. *)
Theorem signature_binds_fields secret k k' id id' target target' at_ms at_ms' ttl ttl' :
  fields_wf id target at_ms ttl → fields_wf id' target' at_ms' ttl' →
  sign_capability secret k id target at_ms ttl = sign_capability secret k' id' target' at_ms' ttl' →
  let msg := capability_message k id target at_ms ttl in
  let msg' := capability_message k' id' target' at_ms' ttl' in
  let inner := keyed_mix (inner_key secret) msg in
  let inner' := keyed_mix (inner_key secret) msg' in
  ((k = k' ∧ id = id' ∧ target = target' ∧ at_ms = at_ms' ∧ ttl = ttl') ∨
   collides (inner_key secret) msg msg' ∨ collides (outer_key secret) inner inner') ∧
  (k = k' → id = id' → target = target' →
   (at_ms = at_ms' ∧ ttl ≠ ttl' ∨ at_ms ≠ at_ms' ∧ ttl = ttl') →
   collides (outer_key secret) inner inner').
Proof.
  intros Hwf Hwf' H msg msg' inner inner'. split.
  - destruct (decide (inner = inner')) as [Ei|Ni]; [|right; right; by split].
    destruct (decide (msg = msg')) as [Em|Nm]; [|right; left; by split].
    left. by eapply capability_message_inj.
  - intros <- <- <- Hdiff. split; [|done].
    destruct Hwf as (Hi & _ & Ha & Hl), Hwf' as (_ & _ & Ha' & Hl').
    unfold inner, inner', msg, msg', capability_message.
    destruct Hdiff as [[<- Hne]|[Hne <-]]; intros E.
    + rewrite !(app_assoc id) in E. apply keyed_mix_one_block in E.
      * by apply ttl_bytes_inj in E.
      * unfold i64_le_bytes. by rewrite length_app, length_le_bytes, Hi.
      * by rewrite length_le_bytes.
      * by rewrite length_le_bytes.
    + apply keyed_mix_one_block in E.
      * by apply i64_le_bytes_inj in E.
      * by rewrite Hi.
      * unfold i64_le_bytes. by rewrite length_le_bytes.
      * unfold i64_le_bytes. by rewrite length_le_bytes.
Qed.

(** ** The life of a token *)

Lemma constant_time_eq_spec a b : length a = length b → constant_time_eq a b = true ↔ a = b.
Proof.
  unfold constant_time_eq. rewrite N.eqb_eq.
  assert (∀ a b d, length a = length b →
    foldl (λ diff p, N.lor diff (N.lxor (Byte.to_N p.1) (Byte.to_N p.2))) d (zip a b) = 0%N ↔
    d = 0%N ∧ a = b) as Hgen.
  { clear. induction a as [|x a IH]; intros [|y b] d Hl; try done; simpl; [tauto|].
    rewrite IH by (simpl in Hl; lia). rewrite N.lor_eq_0_iff, N.lxor_eq_0_iff.
    split; [|naive_solver]. intros [[-> Hxy] ->]. split; [done|]. f_equal.
    by rewrite <-(byte_of_to_N x), <-(byte_of_to_N y), Hxy. }
  intros Hl. rewrite Hgen by done. tauto.
Qed.

(** [cap] carries the issuer's signature for its own fields. *)
Definition signed (secret : bytes) (cap : Capability) : Prop :=
  Capability.signature cap =
  sign_capability secret (Capability.kind cap) (Capability.id cap) (Capability.target cap)
    (Capability.issued_at_ms cap) (Capability.ttl_ms cap).

(** [Capability]'s signature is an array of 32 bytes. *)
Definition cap_wf (cap : Capability) : Prop := length (Capability.signature cap) = 32.

Lemma verify_spec s cap now :
  cap_wf cap →
  match CI.verify_and_burn s cap now with
  | (s', Ok receipt) =>
      signed (CI.secret s) cap ∧ Capability.is_expired cap now = false ∧
      (Capability.id cap ∉ CI.revoked s) ∧ (Capability.id cap ∉ CI.burned s) ∧
      s' = CI.mk (CI.secret s) ({[Capability.id cap]} ∪ CI.burned s) (CI.revoked s) ∧
      receipt = BurnedCapability.mk (Capability.id cap)
                  (CapabilityKind.name (Capability.kind cap)) (Capability.target cap) now
  | (s', Err CapabilityError.BadSignature) => s' = s ∧ ¬ signed (CI.secret s) cap
  | (s', Err CapabilityError.Expired) =>
      s' = s ∧ signed (CI.secret s) cap ∧ Capability.is_expired cap now = true
  | (s', Err (CapabilityError.Revoked id)) =>
      s' = s ∧ signed (CI.secret s) cap ∧ id = Capability.id cap ∧ id ∈ CI.revoked s
  | (s', Err (CapabilityError.AlreadyBurned id)) =>
      s' = s ∧ signed (CI.secret s) cap ∧ id = Capability.id cap ∧ id ∈ CI.burned s
  | _ => False
  end.
Proof.
  intros Hwf. unfold CI.verify_and_burn. set (expected := sign_capability _ _ _ _ _ _).
  assert (constant_time_eq expected (Capability.signature cap) = true ↔ signed (CI.secret s) cap)
    as Hsig.
  { rewrite constant_time_eq_spec; [unfold signed; split; done|].
    unfold expected, sign_capability. by rewrite length_keyed_mix, Hwf. }
  destruct (constant_time_eq expected (Capability.signature cap)); simpl.
  2:{ split; [done|]. intros Hs. by apply Hsig in Hs. }
  assert (signed (CI.secret s) cap) by by apply Hsig.
  destruct (Capability.is_expired cap now) eqn:He; [done|].
  destruct (decide (Capability.id cap ∈ CI.revoked s)); [done|].
  destruct (decide (Capability.id cap ∈ CI.burned s)); done.
Qed.

(** The issuer together with the tokens it accepted, and when.  Anybody may present any
    token; issuing changes nothing. *)
Definition issuer_run : Type := CapabilityIssuer * list (Capability * Z).

Inductive issuer_step : relation issuer_run :=
  | step_verified s s' used cap now receipt :
      cap_wf cap → CI.verify_and_burn s cap now = (s', Ok receipt) →
      issuer_step (s, used) (s', used ++ [(cap, now)])
  | step_refused s s' used cap now e :
      cap_wf cap → CI.verify_and_burn s cap now = (s', Err e) → issuer_step (s, used) (s', used)
  | step_revoke s used id : issuer_step (s, used) ((CI.revoke s id).1, used).

Definition used_ids (x : issuer_run) : list bytes := (λ u, Capability.id u.1) <$> x.2.

Record issuer_inv (secret : bytes) (x : issuer_run) : Prop := {
  ii_secret : CI.secret x.1 = secret;
  ii_nodup : NoDup (used_ids x);
  ii_burned : CI.burned x.1 = list_to_set (used_ids x);
  ii_valid : Forall (λ u, signed secret u.1 ∧ Capability.is_expired u.1 u.2 = false) x.2;
}.

(** What one step can add, and what it cannot take back. *)
Record extends (x y : issuer_run) : Prop := {
  ex_revoked : CI.revoked x.1 ⊆ CI.revoked y.1;
  ex_used : ∃ more, y.2 = x.2 ++ more ∧
    ∀ u, u ∈ more → Capability.id u.1 ∉ CI.revoked x.1;
}.

Lemma extends_refl x : extends x x.
Proof. split; [done|]. exists []. split; [by rewrite app_nil_r|]. by intros u ?%elem_of_nil. Qed.

Lemma extends_trans x y z : extends x y → extends y z → extends x z.
Proof.
  intros [H1 (m1 & E1 & H1')] [H2 (m2 & E2 & H2')]. split; [set_solver|].
  exists (m1 ++ m2). split; [by rewrite E2, E1, app_assoc|].
  intros u [Hu|Hu]%elem_of_app; [auto|]. specialize (H2' u Hu). set_solver.
Qed.

Lemma issuer_step_spec secret x y :
  issuer_step x y → issuer_inv secret x → issuer_inv secret y ∧ extends x y.
Proof.
  intros [s s' used cap now receipt Hwf E|s s' used cap now e Hwf E|s used id] H.
  - pose proof (verify_spec s cap now Hwf) as Hv. rewrite E in Hv.
    destruct Hv as (Hsig & Hexp & Hrev & Hburn & -> & _).
    destruct H as [H1 H2 H3 H4]. simpl in *. subst secret.
    assert (used_ids (s, used ++ [(cap, now)]) = used_ids (s, used) ++ [Capability.id cap]) as Eu
      by (unfold used_ids; simpl; by rewrite fmap_app).
    split; [split|split]; simpl.
    + done.
    + change (NoDup (used_ids (s, used ++ [(cap, now)]))). rewrite Eu. apply NoDup_app.
      split_and!; [done| |apply NoDup_singleton]. intros i Hi ->%list_elem_of_singleton.
      rewrite H3 in Hburn. by apply Hburn, elem_of_list_to_set.
    + change (used_ids (_, used ++ [(cap, now)])) with (used_ids (s, used ++ [(cap, now)])).
      rewrite Eu, list_to_set_app_L, H3. simpl. set_solver.
    + apply Forall_app. split; [done|]. by repeat constructor.
    + done.
    + exists [(cap, now)]. split; [done|]. by intros u ->%list_elem_of_singleton.
  - pose proof (verify_spec s cap now Hwf) as Hv. rewrite E in Hv.
    assert (s' = s) as -> by (destruct e; tauto). split; [done|apply extends_refl].
  - destruct H as [H1 H2 H3 H4]. split; [by split|]. split; simpl; [set_solver|].
    exists []. split; [by rewrite app_nil_r|]. by intros u ?%elem_of_nil.
Qed.

Lemma issuer_run_spec secret x y :
  rtc issuer_step x y → issuer_inv secret x → issuer_inv secret y ∧ extends x y.
Proof.
  induction 1 as [x|x y z Hxy _ IH]; intros H; [split; [done|apply extends_refl]|].
  destruct (issuer_step_spec _ _ _ Hxy H) as [Hy He]. destruct (IH Hy) as [Hz He'].
  split; [done|]. by eapply extends_trans.
Qed.

Lemma new_issuer_inv secret : issuer_inv secret (CI.new secret, []).
Proof. split; [done|constructor|done|constructor]. Qed.

(** C29: Capabilities are single-use: whatever tokens are presented and whenever ids are
    revoked, no id is accepted twice, every accepted token carries the issuer's signature
    on its own kind, id, target and times and was not expired when it was accepted, and
    no token is accepted after its id was revoked. *)
Theorem capability_single_use secret x y :
  rtc issuer_step (CI.new secret, []) x → rtc issuer_step x y →
  NoDup (used_ids y) ∧ CI.burned y.1 = list_to_set (used_ids y) ∧
  Forall (λ u, signed secret u.1 ∧ Capability.is_expired u.1 u.2 = false) y.2 ∧
  ∃ more, y.2 = x.2 ++ more ∧ ∀ u, u ∈ more → Capability.id u.1 ∉ CI.revoked x.1.
Proof.
  intros Hx Hy.
  destruct (issuer_run_spec secret _ _ Hx (new_issuer_inv secret)) as [Hix _].
  destruct (issuer_run_spec secret _ _ Hy Hix) as [Hiy Hext].
  split_and!; [apply Hiy..|]. apply Hext.
Qed.

(** A token that was issued, and neither used nor revoked, is accepted until its time
    to live has passed. *)
Lemma issued_capability_verifies s kind target ttl id at_ms cap now :
  CI.issue s kind target ttl id at_ms = Ok cap →
  is_i64 at_ms → is_i64 now → (now ≤ at_ms + Z.of_N (ttl / 1000000))%Z →
  (now - at_ms ≤ i64_MAX)%Z → (i64_MIN ≤ now - at_ms)%Z →
  id ∉ CI.burned s → id ∉ CI.revoked s →
  (CI.verify_and_burn s cap now).2 =
    Ok (BurnedCapability.mk id (CapabilityKind.name kind) target now).
Proof.
  unfold CI.issue. intros H Hat Hnow Httl Hmax Hmin Hb Hr.
  destruct (ttl =? 0)%N; [done|]. destruct (existsb _ _); [done|]. injection H as <-.
  unfold CI.verify_and_burn. cbn [Capability.kind Capability.id Capability.target
    Capability.issued_at_ms Capability.ttl_ms Capability.signature].
  rewrite (proj2 (constant_time_eq_spec _ _ eq_refl)) by done. cbn [negb].
  assert (Capability.is_expired (Capability.mk kind id target at_ms
    (N.min (ttl / 1000000) u64_MAX) (sign_capability (CI.secret s) kind id target at_ms
    (N.min (ttl / 1000000) u64_MAX))) now = false) as ->.
  { unfold Capability.is_expired, sat_i64. cbn [Capability.issued_at_ms Capability.ttl_ms].
    unfold is_i64, i64_MIN, i64_MAX, u64_MAX in *.
    destruct (Z.ltb_spec (Z.max (-9223372036854775808) (Z.min (now - at_ms) 9223372036854775807)) 0);
      [done|]. apply N.ltb_ge. lia. }
  by rewrite !decide_False.
Qed.

(** ** Samples *)

Definition sample_secret : bytes := replicate 32 Byte.x2a.
Definition sample_id : bytes := replicate 16 Byte.x07.
Definition sample_cap : Capability :=
  Capability.mk CapabilityKind.FileWrite sample_id "/tmp/foo" 1000 30000
    (sign_capability sample_secret CapabilityKind.FileWrite sample_id "/tmp/foo" 1000 30000).

Definition sample_run : issuer_run :=
  ((CI.verify_and_burn (CI.new sample_secret) sample_cap 2000).1, [(sample_cap, 2000%Z)]).

Lemma sample_run_reachable : rtc issuer_step (CI.new sample_secret, []) sample_run.
Proof.
  apply rtc_once. apply (step_verified (CI.new sample_secret) _ [] sample_cap 2000
    (BurnedCapability.mk sample_id "FileWrite" "/tmp/foo" 2000)); vm_compute; reflexivity.
Defined.

Lemma capability_single_use_witness : NoDup (used_ids sample_run).
Proof.
  destruct (capability_single_use sample_secret sample_run sample_run sample_run_reachable
    (rtc_refl _ _)) as [H _]. exact H.
Defined.

(** The same token with a longer time to live: its signature does not verify. *)
Lemma signature_binds_fields_witness :
  fields_wf sample_id "/tmp/foo" 1000 30000 ∧
  CapabilityKind.FileWrite = CapabilityKind.FileWrite ∧
  (CI.verify_and_burn (CI.new sample_secret)
    (Capability.mk CapabilityKind.FileWrite sample_id "/tmp/foo" 1000 30001
      (Capability.signature sample_cap)) 2000).2 = Err CapabilityError.BadSignature.
Proof.
  assert (fields_wf sample_id "/tmp/foo" 1000 30000) as Hwf.
  { unfold fields_wf, fits_u32, i64_range, is_u64, u32_MAX, u64_MAX. split_and!;
      vm_compute; intuition congruence. }
  split; [exact Hwf|]. split.
  - destruct (signature_binds_fields sample_secret CapabilityKind.FileWrite
      CapabilityKind.FileWrite sample_id sample_id "/tmp/foo" "/tmp/foo" 1000 1000 30000 30000
      Hwf Hwf eq_refl) as [[(H & _)|[[H _]|[H _]]] _]; [exact H|by destruct H..].
  - vm_compute. reflexivity.
Defined.

(** A token issued for less than a millisecond has no time to live at all, although a
    zero time to live is refused as meaningless. *)
Lemma sub_millisecond_ttl :
  match CI.issue (CI.new sample_secret) CapabilityKind.FileRead "/tmp/foo" 999999 sample_id 1000 with
  | Ok cap => Capability.ttl_ms cap = 0%N ∧ Capability.is_expired cap 1001 = true
  | Err _ => False
  end.
Proof. vm_compute. done. Qed.
