(* ===== verification/Pipeline.v ===== *)
(** * The workflow pipeline (crates/roko-runtime/src/pipeline_state.rs)

    The pure state machine that drives one workflow run: strategy,
    implementation, gates with auto-fixing, review, commit. *)

From S2P Require Import Prelude.

(** ** Data *)

Module WorkflowOutcome.
Inductive t : Type :=
  | Success (commit_hash : option string)
  | Halted (reason : string)
  | Cancelled.

#[global] Instance t_eq_dec : EqDecision t.
Proof. solve_decision. Defined.
End WorkflowOutcome.
Abbreviation WorkflowOutcome := WorkflowOutcome.t.

Module CommitOutcome.
Inductive t : Type :=
  | Created (hash : string)
  | NoChanges
  | Rejected (reason : string)
  | Failed (error : string).

#[global] Instance t_eq_dec : EqDecision t.
Proof. solve_decision. Defined.

Definition from_commit_done (hash : string) : t := Created hash.
Definition from_commit_failed (error : string) : t := Failed error.

Definition created_hash (o : t) : option string :=
  match o with Created hash => Some hash | NoChanges | Rejected _ | Failed _ => None end.
End CommitOutcome.
Abbreviation CommitOutcome := CommitOutcome.t.

Module WorkflowConfig.
Record t : Type := mk {
  has_strategy : bool;
  has_review : bool;
  max_iterations : N;
  max_autofix_attempts : N;
}.

#[global] Instance t_eq_dec : EqDecision t.
Proof. solve_decision. Defined.

Definition express : t := mk false false 1 1.
Definition standard : t := mk false true 2 2.
Definition full : t := mk true true 3 2.
Definition default : t := standard.
End WorkflowConfig.
Abbreviation WorkflowConfig := WorkflowConfig.t.

Module Phase.
Inductive t : Type :=
  | Pending
  | Strategizing
  | Implementing
  | Gating
  | AutoFixing
  | Reviewing
  | Committing
  | Complete
  | Halted (reason : string)
  | Cancelled.

#[global] Instance t_eq_dec : EqDecision t.
Proof. solve_decision. Defined.

Definition is_terminal (p : t) : bool :=
  match p with Complete | Halted _ | Cancelled => true | _ => false end.

Definition label (p : t) : string :=
  match p with
  | Pending => "pending"
  | Strategizing => "strategizing"
  | Implementing => "implementing"
  | Gating => "gating"
  | AutoFixing => "auto_fixing"
  | Reviewing => "reviewing"
  | Committing => "committing"
  | Complete => "complete"
  | Halted _ => "halted"
  | Cancelled => "cancelled"
  end.
End Phase.
Abbreviation Phase := Phase.t.

Module PipelineInput.
Inductive t : Type :=
  | Start
  | StrategyComplete (brief : string)
  | StrategySkipped
  | AgentCompleted (output : string) (files_changed : N)
  | AgentFailed (error : string)
  | GatesPassed
  | GateFailed (gate output : string)
  | ReviewApproved (summary : string)
  | ReviewRejected (reason : string)
  | ReviewUnclear (summary : string)
  | ReviewRevise (findings : list string)
  | CommitFinished (outcome : CommitOutcome)
  | CommitDone (hash : string)
  | CommitFailed (error : string)
  | UserCancel
  | ResourceExhausted (reason : string).

#[global] Instance t_eq_dec : EqDecision t.
Proof. solve_decision. Defined.
End PipelineInput.
Abbreviation PipelineInput := PipelineInput.t.

(** [CommitOutcome::from_pipeline_input] *)
Definition commit_outcome_from_pipeline_input (input : PipelineInput) : option CommitOutcome :=
  match input with
  | PipelineInput.CommitFinished outcome => Some outcome
  | PipelineInput.CommitDone legacy_hash => Some (CommitOutcome.from_commit_done legacy_hash)
  | PipelineInput.CommitFailed error => Some (CommitOutcome.from_commit_failed error)
  | _ => None
  end.

Module PipelineOutput.
Inductive t : Type :=
  | SpawnStrategist (prompt : string)
  | SpawnImplementer (prompt : string) (context : option string)
  | SpawnAutoFixer (error_output : string)
  | RunGates
  | SpawnReviewer (diff_context : option string)
  | Commit
  | Done (outcome : WorkflowOutcome)
  | Halt (reason : string).

#[global] Instance t_eq_dec : EqDecision t.
Proof. solve_decision. Defined.
End PipelineOutput.
Abbreviation PipelineOutput := PipelineOutput.t.

(** ** The state machine *)

(** The text of the invalid-transition reason: the [Debug] rendering of the
    discriminant of the input and of the phase, which the standard library
    formats. *)
Class InvalidText := { invalid_reason : PipelineInput → Phase → string }.

Definition newline : string := String (Ascii.ascii_of_N 10) EmptyString.

Module PipelineStateV2.
Record t : Type := mk {
  phase : Phase;
  config : WorkflowConfig;
  iteration : N;
  autofix_attempts : N;
  original_prompt : string;
  strategist_brief : option string;
  review_findings : list string;
  last_gate_failure : option string;
  files_changed : N;
  commit_hash : option string;
}.

Definition new (config : WorkflowConfig) (prompt : string) : t :=
  {| phase := Phase.Pending; config := config; iteration := 0; autofix_attempts := 0;
     original_prompt := prompt; strategist_brief := None; review_findings := [];
     last_gate_failure := None; files_changed := 0; commit_hash := None |}.

(** Field assignments. *)
Definition set_phase (p : Phase) (s : t) : t :=
  mk p (config s) (iteration s) (autofix_attempts s) (original_prompt s) (strategist_brief s)
    (review_findings s) (last_gate_failure s) (files_changed s) (commit_hash s).
Definition set_iteration (n : N) (s : t) : t :=
  mk (phase s) (config s) n (autofix_attempts s) (original_prompt s) (strategist_brief s)
    (review_findings s) (last_gate_failure s) (files_changed s) (commit_hash s).
Definition set_autofix_attempts (n : N) (s : t) : t :=
  mk (phase s) (config s) (iteration s) n (original_prompt s) (strategist_brief s)
    (review_findings s) (last_gate_failure s) (files_changed s) (commit_hash s).
Definition set_strategist_brief (b : option string) (s : t) : t :=
  mk (phase s) (config s) (iteration s) (autofix_attempts s) (original_prompt s) b
    (review_findings s) (last_gate_failure s) (files_changed s) (commit_hash s).
Definition set_review_findings (l : list string) (s : t) : t :=
  mk (phase s) (config s) (iteration s) (autofix_attempts s) (original_prompt s)
    (strategist_brief s) l (last_gate_failure s) (files_changed s) (commit_hash s).
Definition set_last_gate_failure (o : option string) (s : t) : t :=
  mk (phase s) (config s) (iteration s) (autofix_attempts s) (original_prompt s)
    (strategist_brief s) (review_findings s) o (files_changed s) (commit_hash s).
Definition set_files_changed (n : N) (s : t) : t :=
  mk (phase s) (config s) (iteration s) (autofix_attempts s) (original_prompt s)
    (strategist_brief s) (review_findings s) (last_gate_failure s) n (commit_hash s).
Definition set_commit_hash (h : option string) (s : t) : t :=
  mk (phase s) (config s) (iteration s) (autofix_attempts s) (original_prompt s)
    (strategist_brief s) (review_findings s) (last_gate_failure s) (files_changed s) h.

Definition halt (reason : string) (s : t) : t * PipelineOutput :=
  (set_phase (Phase.Halted reason) s, PipelineOutput.Halt reason).

Definition finish_commit (s : t) (outcome : CommitOutcome) : t * PipelineOutput :=
  match outcome with
  | CommitOutcome.Created hash =>
      (set_phase Phase.Complete (set_commit_hash (Some hash) s),
       PipelineOutput.Done (WorkflowOutcome.Success (Some hash)))
  | CommitOutcome.NoChanges =>
      (set_phase Phase.Complete (set_commit_hash None s),
       PipelineOutput.Done (WorkflowOutcome.Success None))
  | CommitOutcome.Rejected reason | CommitOutcome.Failed reason => halt reason s
  end.

(** The next implementation pass: [iteration += 1] and the auto-fix counter reset. *)
Definition next_iteration (s : t) : t :=
  set_phase Phase.Implementing
    (set_autofix_attempts 0 (set_iteration (add32 (iteration s) 1) s)).

Definition request_review_revision (s : t) (findings : list string) : t * PipelineOutput :=
  let s := set_review_findings (review_findings s ++ findings) s in
  if (iteration s <? WorkflowConfig.max_iterations (config s))%N then
    let s := next_iteration s in
    let feedback := str_join (newline +:+ "- ") (review_findings s) in
    (s, PipelineOutput.SpawnImplementer (original_prompt s)
          (Some ("Review findings:" +:+ newline +:+ "- " +:+ feedback)))
  else (set_phase Phase.Committing s, PipelineOutput.Commit).

Definition start_implementing (s : t) : t := set_phase Phase.Implementing (set_iteration 1 s).

Section Step.
Context {IT : InvalidText}.

Definition step (s : t) (input : PipelineInput) : t * PipelineOutput :=
  match phase s, input with
  | Phase.Pending, PipelineInput.Start =>
      if WorkflowConfig.has_strategy (config s) then
        (set_phase Phase.Strategizing s, PipelineOutput.SpawnStrategist (original_prompt s))
      else
        (start_implementing s, PipelineOutput.SpawnImplementer (original_prompt s) None)
  | Phase.Strategizing, PipelineInput.StrategyComplete brief =>
      (start_implementing (set_strategist_brief (Some brief) s),
       PipelineOutput.SpawnImplementer (original_prompt s) (Some brief))
  | Phase.Strategizing, PipelineInput.StrategySkipped =>
      (start_implementing s, PipelineOutput.SpawnImplementer (original_prompt s) None)
  | Phase.Implementing, PipelineInput.AgentCompleted _ files_changed =>
      (set_autofix_attempts 0 (set_phase Phase.Gating (set_files_changed files_changed s)),
       PipelineOutput.RunGates)
  | Phase.Implementing, PipelineInput.AgentFailed error => halt error s
  | Phase.Gating, PipelineInput.GatesPassed =>
      if WorkflowConfig.has_review (config s) then
        (set_phase Phase.Reviewing s, PipelineOutput.SpawnReviewer None)
      else (set_phase Phase.Committing s, PipelineOutput.Commit)
  | Phase.Gating, PipelineInput.GateFailed gate output =>
      let s := set_last_gate_failure (Some output) s in
      if (autofix_attempts s <? WorkflowConfig.max_autofix_attempts (config s))%N then
        (set_phase Phase.AutoFixing (set_autofix_attempts (add32 (autofix_attempts s) 1) s),
         PipelineOutput.SpawnAutoFixer output)
      else if (iteration s <? WorkflowConfig.max_iterations (config s))%N then
        (next_iteration s,
         PipelineOutput.SpawnImplementer (original_prompt s)
           (Some ("Previous attempt failed gate '" +:+ gate +:+ "'. Error:" +:+ newline +:+
                  output)))
      else
        halt ("Gate '" +:+ gate +:+ "' failed after " +:+ fmt_N (iteration s) +:+
              " iterations") s
  | Phase.AutoFixing, PipelineInput.AgentCompleted _ _ =>
      (set_phase Phase.Gating s, PipelineOutput.RunGates)
  | Phase.AutoFixing, PipelineInput.AgentFailed error =>
      if (iteration s <? WorkflowConfig.max_iterations (config s))%N then
        (next_iteration s,
         PipelineOutput.SpawnImplementer (original_prompt s) (last_gate_failure s))
      else halt ("Autofix failed: " +:+ error) s
  | Phase.Reviewing, PipelineInput.ReviewApproved _ =>
      (set_phase Phase.Committing s, PipelineOutput.Commit)
  | Phase.Reviewing, PipelineInput.ReviewRevise findings => request_review_revision s findings
  | Phase.Reviewing, PipelineInput.ReviewRejected reason => request_review_revision s [reason]
  | Phase.Reviewing, PipelineInput.ReviewUnclear summary =>
      request_review_revision s ["Unclear review outcome: " +:+ summary]
  | Phase.Committing, PipelineInput.CommitFinished outcome => finish_commit s outcome
  | Phase.Committing, PipelineInput.CommitDone legacy_hash =>
      finish_commit s (CommitOutcome.from_commit_done legacy_hash)
  | Phase.Committing, PipelineInput.CommitFailed error =>
      finish_commit s (CommitOutcome.from_commit_failed error)
  | _, PipelineInput.UserCancel =>
      (set_phase Phase.Cancelled s, PipelineOutput.Done WorkflowOutcome.Cancelled)
  | _, PipelineInput.ResourceExhausted reason => halt reason s
  | phase, input => halt (invalid_reason input phase) s
  end.

(** A run: the state after a sequence of inputs, and the outputs on the way. *)
Fixpoint run (s : t) (inputs : list PipelineInput) : t * list PipelineOutput :=
  match inputs with
  | [] => (s, [])
  | i :: inputs' =>
      let '(s, o) := step s i in
      let '(s, os) := run s inputs' in (s, o :: os)
  end.
End Step.
End PipelineStateV2.
Abbreviation PipelineStateV2 := PipelineStateV2.t.

(** ** Termination and bounds *)

Module PS := PipelineStateV2.

#[local] Arguments N.mul : simpl never.
#[local] Arguments N.add : simpl never.
#[local] Arguments N.sub : simpl never.
#[local] Arguments N.ltb : simpl never.
#[local] Arguments N.max : simpl never.
#[local] Arguments add32 : simpl never.

(** The limits are [u32] values. *)
Record config_wf (c : WorkflowConfig) : Prop := {
  wf_iterations : (WorkflowConfig.max_iterations c ≤ u32_MAX)%N;
  wf_autofix : (WorkflowConfig.max_autofix_attempts c ≤ u32_MAX)%N;
}.

(** The steps that are left at most, with iteration limit [x] and auto-fix limit
    [m]: every iteration costs at most [2m + 4] of them. *)
Definition steps_left (x m it af : N) (p : Phase) : N :=
  match p with
  | Phase.Pending => x * (2 * m + 4) + 2 * m + 6
  | Phase.Strategizing => x * (2 * m + 4) + 2 * m + 5
  | Phase.Implementing => (x - it) * (2 * m + 4) + 2 * m + 4
  | Phase.AutoFixing => (x - it) * (2 * m + 4) + 2 * (m - af) + 4
  | Phase.Gating => (x - it) * (2 * m + 4) + 2 * (m - af) + 3
  | Phase.Reviewing => (x - it) * (2 * m + 4) + 2
  | Phase.Committing => 1
  | Phase.Complete | Phase.Halted _ | Phase.Cancelled => 0
  end%N.

(** The implementer and auto-fixer agents that may still be spawned. *)
Definition implementers_left (x it : N) (p : Phase) : N :=
  match p with
  | Phase.Pending | Phase.Strategizing => N.max 1 x
  | Phase.Complete | Phase.Halted _ | Phase.Cancelled => 0
  | _ => x - it
  end%N.

Definition autofixers_left (x m it af : N) (p : Phase) : N :=
  match p with
  | Phase.Pending | Phase.Strategizing => N.max 1 x * m
  | Phase.Implementing => (x - it) * m + m
  | Phase.Gating | Phase.AutoFixing => (x - it) * m + (m - af)
  | Phase.Reviewing => (x - it) * m
  | _ => 0
  end%N.

Definition measure (s : PipelineStateV2) : N :=
  steps_left (WorkflowConfig.max_iterations (PS.config s))
    (WorkflowConfig.max_autofix_attempts (PS.config s)) (PS.iteration s)
    (PS.autofix_attempts s) (PS.phase s).

Definition implementers (s : PipelineStateV2) : N :=
  implementers_left (WorkflowConfig.max_iterations (PS.config s)) (PS.iteration s) (PS.phase s).

Definition autofixers (s : PipelineStateV2) : N :=
  autofixers_left (WorkflowConfig.max_iterations (PS.config s))
    (WorkflowConfig.max_autofix_attempts (PS.config s)) (PS.iteration s)
    (PS.autofix_attempts s) (PS.phase s).

Definition is_implementer (o : PipelineOutput) : bool :=
  match o with PipelineOutput.SpawnImplementer _ _ => true | _ => false end.
Definition is_autofixer (o : PipelineOutput) : bool :=
  match o with PipelineOutput.SpawnAutoFixer _ => true | _ => false end.

(** Unfold one step of a pipeline in every phase and input. *)
Ltac step_cases s i :=
  destruct s as [ph [hs hr x m] it af pr sb rf gf fc ch];
  unfold PS.step, PS.request_review_revision, PS.finish_commit, PS.next_iteration,
    PS.start_implementing, PS.halt in *;
  destruct ph, i; simpl in *; try done; repeat case_match; simpl in *; try done.

Section PipelineFacts.
Context {IT : InvalidText}.
Implicit Types s : PipelineStateV2.

Lemma step_config s i : PS.config (PS.step s i).1 = PS.config s.
Proof. by step_cases s i. Qed.

Lemma step_terminal s i :
  Phase.is_terminal (PS.phase s) = true → Phase.is_terminal (PS.phase (PS.step s i).1) = true.
Proof. by step_cases s i. Qed.

Lemma step_decreases s i :
  config_wf (PS.config s) → Phase.is_terminal (PS.phase s) = false →
  (measure (PS.step s i).1 < measure s)%N.
Proof.
  intros [Hx Hm] Ht. unfold measure. step_cases s i; rewrite ?add32_small by lia; nia.
Qed.

Lemma step_implementers s i :
  config_wf (PS.config s) →
  ((if is_implementer (PS.step s i).2 then 1 else 0) + implementers (PS.step s i).1
   ≤ implementers s)%N.
Proof.
  intros [Hx Hm]. unfold implementers. step_cases s i; rewrite ?add32_small by lia; lia.
Qed.

Lemma step_autofixers s i :
  config_wf (PS.config s) →
  ((if is_autofixer (PS.step s i).2 then 1 else 0) + autofixers (PS.step s i).1
   ≤ autofixers s)%N.
Proof.
  intros [Hx Hm]. unfold autofixers. step_cases s i; rewrite ?add32_small by lia; nia.
Qed.
End PipelineFacts.

Definition count (f : PipelineOutput → bool) (os : list PipelineOutput) : N :=
  N.of_nat (length (List.filter f os)).

Lemma count_cons f o os : count f (o :: os) = ((if f o then 1 else 0) + count f os)%N.
Proof. unfold count. simpl. destruct (f o); simpl; lia. Qed.

Section Runs.
Context {IT : InvalidText}.

Lemma run_cons s i ins :
  PS.run s (i :: ins) =
    ((PS.run (PS.step s i).1 ins).1, (PS.step s i).2 :: (PS.run (PS.step s i).1 ins).2).
Proof.
  cbn [PS.run]. destruct (PS.step s i) as [s' o]. simpl. by destruct (PS.run s' ins).
Qed.

Lemma run_snoc s ins i : (PS.run s (ins ++ [i])).1 = (PS.step (PS.run s ins).1 i).1.
Proof.
  revert s. induction ins as [|j ins IH]; intros s; cbn [app]; rewrite !run_cons; [done|]. apply IH.
Qed.

Lemma pipeline_run_terminal s ins :
  Phase.is_terminal (PS.phase s) = true → Phase.is_terminal (PS.phase (PS.run s ins).1) = true.
Proof.
  revert s. induction ins as [|i ins IH]; intros s Hs; [done|]. rewrite run_cons.
  by apply IH, step_terminal.
Qed.

Lemma run_measure s ins :
  config_wf (PS.config s) → (measure s ≤ N.of_nat (length ins))%N →
  Phase.is_terminal (PS.phase (PS.run s ins).1) = true.
Proof.
  revert s. induction ins as [|i ins IH]; intros s Hwf Hm;
    destruct (Phase.is_terminal (PS.phase s)) eqn:Ht; try (by apply pipeline_run_terminal).
  - exfalso. unfold measure, steps_left in Hm. simpl in Hm.
    destruct (PS.phase s); try done; nia.
  - rewrite run_cons. apply IH; [by rewrite step_config|].
    pose proof (step_decreases s i Hwf Ht). simpl in Hm. lia.
Qed.

Lemma run_spawns s ins :
  config_wf (PS.config s) →
  (count is_implementer (PS.run s ins).2 + implementers (PS.run s ins).1 ≤ implementers s)%N ∧
  (count is_autofixer (PS.run s ins).2 + autofixers (PS.run s ins).1 ≤ autofixers s)%N.
Proof.
  revert s. induction ins as [|i ins IH]; intros s Hwf; [by unfold count; simpl; lia|].
  rewrite run_cons. cbn [fst snd]. rewrite !count_cons.
  pose proof (step_implementers s i Hwf). pose proof (step_autofixers s i Hwf).
  destruct (IH (PS.step s i).1) as [H1 H2]; [by rewrite step_config|]. lia.
Qed.

(** How the commit phase is entered. *)
Lemma step_to_committing s i :
  PS.phase (PS.step s i).1 = Phase.Committing →
  (PS.phase s = Phase.Gating ∧ i = PipelineInput.GatesPassed ∧
   WorkflowConfig.has_review (PS.config s) = false) ∨
  (PS.phase s = Phase.Reviewing ∧
   ((∃ summary, i = PipelineInput.ReviewApproved summary) ∨
    (WorkflowConfig.max_iterations (PS.config s) ≤ PS.iteration s)%N)).
Proof. step_cases s i; intros _; [by left|right; split; [done|]..]; eauto; right; lia. Qed.

Lemma step_to_reviewing s i :
  PS.phase (PS.step s i).1 = Phase.Reviewing →
  PS.phase s = Phase.Gating ∧ i = PipelineInput.GatesPassed ∧
  WorkflowConfig.has_review (PS.config s) = true.
Proof. by step_cases s i. Qed.

Lemma step_to_complete s i :
  PS.phase (PS.step s i).1 = Phase.Complete → PS.phase s = Phase.Committing.
Proof. by step_cases s i. Qed.
End Runs.

(** C16: termination.  Whatever inputs arrive (agent failures, gate failures,
    rejections, even inputs that are invalid in the current phase), a pipeline ins
    in a terminal phase after at most [x * (2m + 4) + 2m + 6] of them, where [x] ins
    the iteration limit and [m] the auto-fix limit, and it stays terminal. *)
Theorem pipeline_terminates {IT : InvalidText} c prompt inputs :
  config_wf c →
  let x := WorkflowConfig.max_iterations c in
  let m := WorkflowConfig.max_autofix_attempts c in
  (x * (2 * m + 4) + 2 * m + 6 ≤ N.of_nat (length inputs))%N →
  Phase.is_terminal (PS.phase (PS.run (PS.new c prompt) inputs).1) = true.
Proof. intros Hwf x m Hlen. by apply run_measure. Qed.

(** A concrete rendering of the invalid-transition reason. *)
Definition plain_invalid : InvalidText :=
  {| invalid_reason _ p := "Invalid transition in phase " +:+ Phase.label p |}.

Lemma pipeline_terminates_witness :
  Phase.is_terminal
    (PS.phase (@PS.run plain_invalid (PS.new WorkflowConfig.express "fix")
                 (replicate 14 PipelineInput.GatesPassed)).1) = true.
Proof.
  apply (@pipeline_terminates plain_invalid).
  - constructor; by vm_compute.
  - by vm_compute.
Defined.

(** bounded effort.  A run spawns at most [max(1, x)] implementer agents
    and at most [m] auto-fixers for each of them. *)
Theorem pipeline_spawns_bounded {IT : InvalidText} c prompt inputs :
  config_wf c →
  let x := WorkflowConfig.max_iterations c in
  let m := WorkflowConfig.max_autofix_attempts c in
  let os := (PS.run (PS.new c prompt) inputs).2 in
  (count is_implementer os ≤ N.max 1 x)%N ∧ (count is_autofixer os ≤ N.max 1 x * m)%N.
Proof.
  intros Hwf x m os. destruct (run_spawns (PS.new c prompt) inputs Hwf) as [H1 H2].
  change (implementers (PS.new c prompt)) with (N.max 1 x) in H1.
  change (autofixers (PS.new c prompt)) with (N.max 1 x * m)%N in H2.
  fold os in H1, H2. lia.
Qed.

Lemma pipeline_spawns_bounded_witness :
  (count is_implementer
     (@PS.run plain_invalid (PS.new WorkflowConfig.full "fix")
        [PipelineInput.Start; PipelineInput.StrategySkipped]).2 ≤ 3)%N.
Proof.
  apply (@pipeline_spawns_bounded plain_invalid WorkflowConfig.full).
  constructor; by vm_compute.
Defined.

(** C17: commit safety.  A run reaches the commit phase only right after the
    gates passed on the last change: directly when the workflow has no review, and
    otherwise through exactly one review verdict, which is an approval unless the
    iterations are exhausted. *)
Theorem commit_requires_gates {IT : InvalidText} c prompt inputs s :
  s = (PS.run (PS.new c prompt) inputs).1 → PS.phase s = Phase.Committing →
  ∃ pre post, inputs = pre ++ PipelineInput.GatesPassed :: post ∧
    PS.phase (PS.run (PS.new c prompt) pre).1 = Phase.Gating ∧
    (if WorkflowConfig.has_review c then
       ∃ verdict, post = [verdict] ∧
         ((∃ summary, verdict = PipelineInput.ReviewApproved summary) ∨
          (WorkflowConfig.max_iterations c ≤ PS.iteration s)%N)
     else post = []).
Proof.
  assert (∀ ins, PS.config (PS.run (PS.new c prompt) ins).1 = c) as Hc.
  { intros ins. induction ins as [|i ins IH] using rev_ind; [done|].
    by rewrite run_snoc, step_config. }
  intros -> Hp. destruct inputs as [|i inputs _] using rev_ind; [done|].
  rewrite run_snoc in Hp |- *. set (t := (PS.run (PS.new c prompt) inputs).1) in *.
  pose proof (step_to_committing t i Hp) as [(Hg & -> & Hr)|[Hrv Hv]].
  - unfold t in Hr. rewrite Hc in Hr. exists inputs, []. by rewrite Hr.
  - assert (PS.iteration (PS.step t i).1 = PS.iteration t) as Hit.
    { clear Hc Hv. clearbody t. revert Hp Hrv. step_cases t i. }
    destruct inputs as [|j inputs _] using rev_ind; [done|].
    unfold t in Hrv. rewrite run_snoc in Hrv.
    apply step_to_reviewing in Hrv as (Hg & -> & Hr). rewrite Hc in Hr.
    exists inputs, [i]. rewrite Hr, <-app_assoc. split_and!; [done..|].
    exists i. split; [done|]. rewrite Hit.
    destruct Hv as [Hv|Hv]; [by left|right]. unfold t in Hv |- *. by rewrite Hc in Hv.
Qed.

Lemma commit_requires_gates_witness :
  ∃ pre post,
    [PipelineInput.Start; PipelineInput.AgentCompleted "done" 2; PipelineInput.GatesPassed;
     PipelineInput.ReviewApproved "ok"] = pre ++ PipelineInput.GatesPassed :: post.
Proof.
  destruct (@commit_requires_gates plain_invalid WorkflowConfig.standard "fix"
    [PipelineInput.Start; PipelineInput.AgentCompleted "done" 2; PipelineInput.GatesPassed;
     PipelineInput.ReviewApproved "ok"] _ eq_refl) as (pre & post & H & _); [by vm_compute|].
  by exists pre, post.
Defined.

(** A terminal phase is left by a cancellation: the completed workflow of a
    created commit turns into a cancelled one. *)
Lemma terminal_phase_is_left {IT : InvalidText} s :
  PS.phase s = Phase.Complete →
  PS.phase (PS.step s PipelineInput.UserCancel).1 = Phase.Cancelled.
Proof. intros Hp. unfold PS.step. by rewrite Hp. Qed.

(** A review that rejects the last permitted iteration is followed by a commit. *)
Lemma rejected_review_is_committed :
  let s := (@PS.run plain_invalid (PS.new (WorkflowConfig.mk false true 1 0) "fix")
    [PipelineInput.Start; PipelineInput.AgentCompleted "done" 2; PipelineInput.GatesPassed]).1 in
  (@PS.step plain_invalid s (PipelineInput.ReviewRejected "leaks the key")).2 =
    PipelineOutput.Commit.
Proof. by vm_compute. Qed.
