(* ===== verification/TaskScheduler.v ===== *)
(** * The task scheduler (crates/roko-runtime/src/task_scheduler.rs)

    The pure dependency resolver of a multi-task workflow: which tasks are ready,
    which can start together, and what happens downstream when a task completes or
    fails. *)

From stdpp Require Import relations.
From S2P Require Import Prelude Ordered.

Module SchedulableTask.
Record t : Type := mk { id : string; depends_on : list string; files : list string }.
End SchedulableTask.
Abbreviation SchedulableTask := SchedulableTask.t.

Module SchedStatus.
Inductive t : Type :=
  | Blocked
  | Ready
  | Running
  | Completed
  | Failed (error : string)
  | Skipped.

#[global] Instance t_eq_dec : EqDecision t.
Proof. solve_decision. Defined.

(** The pattern [Completed | Failed { .. } | Skipped]. *)
Definition is_terminal (s : t) : bool :=
  match s with Completed | Failed _ | Skipped => true | _ => false end.
End SchedStatus.
Abbreviation SchedStatus := SchedStatus.t.

Module TaskScheduler.
Record t : Type := mk {
  tasks : gmap string SchedulableTask;
  status : gmap string SchedStatus;
  max_parallel : nat;
}.

Definition set_status_map (m : gmap string SchedStatus) (s : t) : t :=
  mk (tasks s) m (max_parallel s).

(** [if let Some(status) = self.status.get_mut(id) { *status = x; }] *)
Definition assign (id : string) (x : SchedStatus) (s : t) : t :=
  match status s !! id with
  | Some _ => set_status_map (<[id := x]> (status s)) s
  | None => s
  end.

Section Ops.
Context {HI : HashIter}.

Definition all_deps_done (s : t) (task : SchedulableTask) : bool :=
  forallb (λ dep, bool_decide (status s !! dep = Some SchedStatus.Completed))
    (SchedulableTask.depends_on task).

Definition update_one (s : t) (id : string) : t :=
  match tasks s !! id with
  | Some task =>
      if all_deps_done s task
      then set_status_map (<[id := SchedStatus.Ready]> (status s)) s else s
  | None => s
  end.

Definition update_ready (s : t) : t :=
  let blocked_ids :=
    (List.filter (λ p, bool_decide (p.2 = SchedStatus.Blocked)) (hash_iter (status s))).*1 in
  foldl update_one s blocked_ids.

Definition new (tasks : list SchedulableTask) (max_parallel : nat) : t :=
  let status := foldl (λ m task, <[SchedulableTask.id task := SchedStatus.Blocked]> m) ∅ tasks in
  let task_map := foldl (λ m task, <[SchedulableTask.id task := task]> m) ∅ tasks in
  update_ready (mk task_map status max_parallel).

Definition ids_with (x : SchedStatus) (s : t) : list string :=
  (List.filter (λ p, bool_decide (p.2 = x)) (hash_iter (status s))).*1.

Definition ready_tasks (s : t) : list string := ids_with SchedStatus.Ready s.

Definition files_of (s : t) (id : string) : list string :=
  match tasks s !! id with Some task => SchedulableTask.files task | None => [] end.

(** The loop of [next_batch] with the batch and its files. *)
Fixpoint batch_loop (s : t) (available_slots : nat) (running_files : gset string)
    (batch : list string) (batch_files : gset string) (l : list (string * SchedStatus)) :
    list string :=
  match l with
  | [] => batch
  | (id, st) :: l' =>
      if decide (st ≠ SchedStatus.Ready) then
        batch_loop s available_slots running_files batch batch_files l'
      else if decide (available_slots ≤ length batch) then batch
      else
        match tasks s !! id with
        | None => batch_loop s available_slots running_files batch batch_files l'
        | Some task =>
            let has_conflict :=
              existsb (λ file, bool_decide (file ∈ running_files ∨ file ∈ batch_files))
                (SchedulableTask.files task) in
            if has_conflict then
              batch_loop s available_slots running_files batch batch_files l'
            else
              batch_loop s available_slots running_files (batch ++ [id])
                (foldl (λ X file, {[file]} ∪ X) batch_files (SchedulableTask.files task)) l'
        end
  end.

Definition next_batch (s : t) : list string :=
  let running := ids_with SchedStatus.Running s in
  let available_slots := max_parallel s - length running in
  if decide (available_slots = 0) then []
  else
    let running_files : gset string := list_to_set (concat (files_of s <$> running)) in
    batch_loop s available_slots running_files [] ∅ (hash_iter (status s)).

Definition mark_running (s : t) (task_id : string) : t := assign task_id SchedStatus.Running s.

Definition mark_completed (s : t) (task_id : string) : t :=
  update_ready (assign task_id SchedStatus.Completed s).

(** [task.depends_on.iter().any(|dep| dep == id)] *)
Definition depends_directly (id : string) (p : string * SchedulableTask) : bool :=
  existsb (λ dep, string_eqb dep id) (SchedulableTask.depends_on p.2).

Definition direct_dependents (s : t) (id : string) : list string :=
  (List.filter (depends_directly id) (hash_iter (tasks s))).*1.

(** The work list of [skip_dependents]: a task is skipped at most once, and each time
    at most all tasks are pushed. *)
Fixpoint skip_loop (fuel : nat) (s : t) (to_skip : list string) : t :=
  match fuel, to_skip with
  | S fuel', skip_id :: to_skip' =>
      match status s !! skip_id with
      | Some st =>
          if SchedStatus.is_terminal st then skip_loop fuel' s to_skip'
          else
            skip_loop fuel' (set_status_map (<[skip_id := SchedStatus.Skipped]> (status s)) s)
              (to_skip' ++ direct_dependents s skip_id)
      | None => skip_loop fuel' s to_skip'
      end
  | _, _ => s
  end.

Definition skip_dependents (s : t) (failed_id : string) : t :=
  let n := size (tasks s) in
  skip_loop (n + n * size (status s)) s (direct_dependents s failed_id).

Definition mark_failed (s : t) (task_id error : string) : t :=
  update_ready (skip_dependents (assign task_id (SchedStatus.Failed error) s) task_id).

Definition is_done (s : t) : bool :=
  forallb SchedStatus.is_terminal (hash_values (status s)).

Definition task_status (s : t) (task_id : string) : option SchedStatus := status s !! task_id.

Definition summary (s : t) : nat * nat * nat * nat * nat * nat :=
  let count f := length (List.filter f (hash_values (status s))) in
  (count (λ x, bool_decide (x = SchedStatus.Completed)),
   count (λ x, match x with SchedStatus.Failed _ => true | _ => false end),
   count (λ x, bool_decide (x = SchedStatus.Skipped)),
   count (λ x, bool_decide (x = SchedStatus.Running)),
   count (λ x, bool_decide (x = SchedStatus.Blocked)),
   count (λ x, bool_decide (x = SchedStatus.Ready))).
End Ops.
End TaskScheduler.
Abbreviation TaskScheduler := TaskScheduler.t.
Module TS := TaskScheduler.

(** ** Facts about the operations *)

Section Facts.
Context {HI : HashIter}.
Implicit Types (s : TaskScheduler) (x y dep : string) (task : SchedulableTask).

Lemma elem_of_ids_with st s x : x ∈ TS.ids_with st s ↔ TS.status s !! x = Some st.
Proof.
  unfold TS.ids_with. rewrite list_elem_of_fmap. setoid_rewrite elem_of_list_filter_bool. split.
  - intros ([y v] & -> & Hin%elem_of_hash_iter & Hv%bool_decide_eq_true). simpl in *. by subst.
  - intros Hx. exists (x, st). split_and!; [done|by apply elem_of_hash_iter|].
    by apply bool_decide_eq_true.
Qed.

Lemma NoDup_fst_filter {A B} (f : A * B → bool) l : NoDup l.*1 → NoDup (List.filter f l).*1.
Proof.
  induction l as [|[a b] l IH]; intros Hnd; [done|]. rewrite fmap_cons in Hnd.
  apply NoDup_cons in Hnd as [Ha Hnd]. cbn [List.filter]. destruct (f (a, b)); [|auto].
  rewrite fmap_cons. constructor; [|auto].
  intros ([a' b'] & Heq & [Hin _]%elem_of_list_filter_bool)%list_elem_of_fmap.
  apply Ha, list_elem_of_fmap. eauto.
Qed.

Lemma NoDup_ids_with st s : NoDup (TS.ids_with st s).
Proof. apply NoDup_fst_filter, NoDup_hash_keys. Qed.

(** [x] can become ready: it is a task and its dependencies are completed. *)
Definition unblocked s x : bool :=
  match TS.tasks s !! x with Some task => TS.all_deps_done s task | None => false end.

Lemma all_deps_done_iff s task :
  TS.all_deps_done s task = true ↔
  ∀ dep, dep ∈ SchedulableTask.depends_on task → TS.status s !! dep = Some SchedStatus.Completed.
Proof.
  unfold TS.all_deps_done. rewrite forallb_forall. setoid_rewrite <-list_elem_of_In.
  split; intros H dep Hd; specialize (H dep Hd); by rewrite bool_decide_eq_true in *.
Qed.

Lemma unblocked_ext s s' x :
  TS.tasks s' = TS.tasks s →
  (∀ y, TS.status s' !! y = Some SchedStatus.Completed ↔
        TS.status s !! y = Some SchedStatus.Completed) →
  unblocked s' x = unblocked s x.
Proof.
  intros Ht Hst. unfold unblocked. rewrite Ht. destruct (TS.tasks s !! x) as [task|]; [|done].
  apply eq_true_iff_eq. rewrite !all_deps_done_iff. by setoid_rewrite Hst.
Qed.

Lemma update_fold l s :
  NoDup l → (∀ x, x ∈ l → TS.status s !! x = Some SchedStatus.Blocked) →
  let s' := foldl TS.update_one s l in
  TS.tasks s' = TS.tasks s ∧ TS.max_parallel s' = TS.max_parallel s ∧
  ∀ x, TS.status s' !! x =
    if decide (x ∈ l ∧ unblocked s x = true) then Some SchedStatus.Ready else TS.status s !! x.
Proof.
  revert s. induction l as [|z l IH]; intros s Hnd Hl; cbn [foldl].
  { split_and!; [done|done|]. intros x. rewrite decide_False; [done|]. set_solver. }
  apply NoDup_cons in Hnd as [Hz Hnd].
  assert (TS.update_one s z =
    if unblocked s z then TS.set_status_map (<[z := SchedStatus.Ready]> (TS.status s)) s else s)
    as E by (unfold TS.update_one, unblocked; by destruct (TS.tasks s !! z)).
  rewrite E. destruct (unblocked s z) eqn:Hu.
  - set (s1 := TS.set_status_map _ s).
    assert (∀ x, unblocked s1 x = unblocked s x) as Hext.
    { intros x. apply unblocked_ext; [done|]. intros y. unfold s1. simpl.
      destruct (decide (y = z)) as [->|Hne]; [|by rewrite lookup_insert_ne].
      rewrite lookup_insert_eq, (Hl z) by by left. naive_solver. }
    destruct (IH s1) as (H1 & H2 & H3); [done| |].
    { intros x Hx. unfold s1. simpl. rewrite lookup_insert_ne by congruence.
      apply Hl. by right. }
    split_and!; [done|done|]. intros x. rewrite H3, Hext. unfold s1. simpl.
    destruct (decide (x = z)) as [->|Hne].
    + rewrite decide_False by tauto. rewrite decide_True by (split; [by left|done]).
      apply lookup_insert_eq.
    + rewrite lookup_insert_ne by done. destruct (decide (x ∈ l ∧ unblocked s x = true)) as [Hx|Hx];
        [rewrite decide_True|rewrite decide_False]; set_solver.
  - destruct (IH s) as (H1 & H2 & H3); [done|intros x Hx; apply Hl; by right|].
    split_and!; [done|done|]. intros x. rewrite H3.
    destruct (decide (x ∈ l ∧ unblocked s x = true)) as [Hx|Hx];
      [rewrite decide_True|rewrite decide_False]; [done|set_solver|done|].
    intros [[->|Hin]%elem_of_cons Hb]; [congruence|tauto].
Qed.

Lemma update_ready_spec s :
  TS.tasks (TS.update_ready s) = TS.tasks s ∧
  TS.max_parallel (TS.update_ready s) = TS.max_parallel s ∧
  ∀ x, TS.status (TS.update_ready s) !! x =
    if decide (TS.status s !! x = Some SchedStatus.Blocked ∧ unblocked s x = true)
    then Some SchedStatus.Ready else TS.status s !! x.
Proof.
  destruct (update_fold (TS.ids_with SchedStatus.Blocked s) s) as (H1 & H2 & H3).
  - apply NoDup_ids_with.
  - intros x. apply elem_of_ids_with.
  - split_and!; [done|done|]. intros x. unfold TS.update_ready. rewrite H3.
    pose proof (elem_of_ids_with SchedStatus.Blocked s x) as Hx.
    destruct (decide (x ∈ TS.ids_with SchedStatus.Blocked s ∧ unblocked s x = true)) as [H|H];
      [rewrite decide_True by tauto|rewrite decide_False by tauto]; done.
Qed.

(** A task that is not finished. *)
Definition live s x : Prop :=
  ∃ st, TS.status s !! x = Some st ∧ SchedStatus.is_terminal st = false.

Definition live_set s : gset string :=
  dom (filter (λ p, SchedStatus.is_terminal p.2 = false) (TS.status s)).

Lemma elem_of_live_set s x : x ∈ live_set s ↔ live s x.
Proof.
  unfold live_set, live. rewrite elem_of_dom. unfold is_Some.
  by setoid_rewrite map_lookup_filter_Some.
Qed.

Lemma elem_of_direct_dependents s x y :
  y ∈ TS.direct_dependents s x ↔
  ∃ task, TS.tasks s !! y = Some task ∧ x ∈ SchedulableTask.depends_on task.
Proof.
  unfold TS.direct_dependents. rewrite list_elem_of_fmap.
  setoid_rewrite elem_of_list_filter_bool. unfold TS.depends_directly.
  setoid_rewrite existsb_exists. split.
  - intros ([z task] & -> & Hin%elem_of_hash_iter & dep & Hd & Heq%bool_decide_eq_true).
    subst dep. exists task. split; [done|]. by apply list_elem_of_In.
  - intros (task & Ht & Hx). exists (y, task). split_and!; [done|by apply elem_of_hash_iter|].
    exists x. split; [by apply list_elem_of_In|by apply bool_decide_eq_true].
Qed.

Lemma length_direct_dependents s x : length (TS.direct_dependents s x) ≤ size (TS.tasks s).
Proof.
  unfold TS.direct_dependents. rewrite length_fmap.
  etrans; [apply filter_length_le|]. by rewrite hash_iter_perm, length_map_to_list.
Qed.

(** [s'] is [s] after skipping the tasks [x] with [newly s s' x]. *)
Definition newly s s' x : Prop :=
  live s x ∧ TS.status s' !! x = Some SchedStatus.Skipped.

Record skipped_from s s' (q : list string) : Prop := {
  sk_tasks : TS.tasks s' = TS.tasks s;
  sk_max : TS.max_parallel s' = TS.max_parallel s;
  sk_status : ∀ x, TS.status s' !! x = TS.status s !! x ∨ newly s s' x;
  sk_seeds : ∀ x, x ∈ q → ¬ live s' x;
  sk_closed : ∀ x y, newly s s' x → y ∈ TS.direct_dependents s x → ¬ live s' y;
  sk_reason : ∀ x, newly s s' x →
    x ∈ q ∨ ∃ y, newly s s' y ∧ x ∈ TS.direct_dependents s y;
}.

Lemma live_skip s z x :
  live (TS.set_status_map (<[z := SchedStatus.Skipped]> (TS.status s)) s) x ↔ live s x ∧ x ≠ z.
Proof.
  unfold live. simpl. destruct (decide (x = z)) as [->|Hne].
  - rewrite lookup_insert_eq. split; [intros (st & [= <-] & ?); done|tauto].
  - rewrite lookup_insert_ne by done. tauto.
Qed.

Lemma live_monotone s s' q x : skipped_from s s' q → live s' x → live s x.
Proof.
  intros H (st & Hst & Hl). destruct (sk_status _ _ _ H x) as [E|[Hx _]]; [|done].
  rewrite E in Hst. by exists st.
Qed.

Lemma skip_loop_spec fuel s q :
  length q + size (TS.tasks s) * size (live_set s) ≤ fuel →
  skipped_from s (TS.skip_loop fuel s q) q.
Proof.
  revert s q. induction fuel as [|fuel IH]; intros s q Hf.
  { destruct q; [|simpl in Hf; lia]. simpl. split; [done|done|auto|set_solver|..].
    - intros x y [(st & Hx & Hl) Hs]. rewrite Hs in Hx. by simplify_eq.
    - intros x [(st & Hx & Hl) Hs]. rewrite Hs in Hx. by simplify_eq. }
  destruct q as [|z q]; cbn [TS.skip_loop].
  { split; [done|done|auto|set_solver|..].
    - intros x y [(st & Hx & Hl) Hs]. rewrite Hs in Hx. by simplify_eq.
    - intros x [(st & Hx & Hl) Hs]. rewrite Hs in Hx. by simplify_eq. }
  cbn [length] in Hf.
  assert (¬ live s z → skipped_from s (TS.skip_loop fuel s q) (z :: q)) as Hpass.
  { intros Hz. pose proof (IH s q ltac:(lia)) as H. pose proof H as [H1 H2 H3 H4 H5 H6].
    split; [done..| |done|].
    - intros x [->|Hx]%elem_of_cons; [|auto]. intros Hl. by eapply Hz, live_monotone.
    - intros x Hx. destruct (H6 x Hx); [left; by right|auto]. }
  destruct (TS.status s !! z) as [st|] eqn:Hst.
  2:{ apply Hpass. intros (? & ? & _). congruence. }
  destruct (SchedStatus.is_terminal st) eqn:Hterm.
  { apply Hpass. intros (? & ? & ?). congruence. }
  clear Hpass. assert (live s z) as Hz by by exists st.
  set (s1 := TS.set_status_map _ s).
  assert (∀ x, live s1 x ↔ live s x ∧ x ≠ z) as Hl1 by (intros x; apply live_skip).
  assert (∀ x, TS.direct_dependents s1 x = TS.direct_dependents s x) as Hdd by done.
  destruct (IH s1 (q ++ TS.direct_dependents s z)) as [H1 H2 H3 H4 H5 H6].
  { rewrite length_app. simpl.
    pose proof (length_direct_dependents s z).
    assert (live_set s1 = live_set s ∖ {[z]}) as ->.
    { apply set_eq. intros x. rewrite elem_of_difference, elem_of_singleton, !elem_of_live_set.
      apply Hl1. }
    rewrite (size_remove (live_set s) z) in Hf by by apply elem_of_live_set. nia. }
  set (s' := TS.skip_loop fuel s1 _) in *.
  assert (TS.status s' !! z = Some SchedStatus.Skipped) as Hz'.
  { destruct (H3 z) as [E|[_ E]]; [|done]. rewrite E. apply lookup_insert_eq. }
  assert (∀ x, newly s s' x ↔ x = z ∨ newly s1 s' x) as Hnew.
  { intros x. unfold newly. rewrite Hl1. destruct (decide (x = z)) as [->|Hne]; naive_solver. }
  split; [done|done| | | |].
  - intros x. rewrite Hnew. destruct (decide (x = z)) as [->|Hne]; [auto|].
    destruct (H3 x) as [E|Hn]; [|auto]. left. rewrite E. simpl. by apply lookup_insert_ne.
  - intros x [->|Hx]%elem_of_cons; [intros (st' & E & ?); rewrite Hz' in E; by simplify_eq|].
    apply H4, elem_of_app. by left.
  - intros x y [->|Hx]%Hnew Hy.
    + apply H4, elem_of_app. by right.
    + by eapply H5.
  - intros x [->|Hx]%Hnew; [left; by left|].
    destruct (H6 x Hx) as [[Hq|Hd]%elem_of_app|(y & Hy & Hxy)].
    + left. by right.
    + right. exists z. split; [apply Hnew; by left|done].
    + right. exists y. split; [apply Hnew; by right|done].
Qed.

Lemma skip_dependents_spec s x :
  skipped_from s (TS.skip_dependents s x) (TS.direct_dependents s x).
Proof.
  apply skip_loop_spec. pose proof (length_direct_dependents s x).
  assert (size (live_set s) ≤ size (TS.status s)) as Hle.
  { unfold live_set. rewrite <-(size_dom (TS.status s)). apply subseteq_size.
    intros y Hy%elem_of_live_set. apply elem_of_dom. destruct Hy as (st & Hy & _). eauto. }
  nia.
Qed.

(** ** The batch *)

(** What [next_batch] has chosen so far: [RF] are the files of the running tasks and
    [BF] those of the batch. *)
Record batch_ok s (slots : nat) (RF BF : gset string) (B : list string) : Prop := {
  bo_nodup : NoDup B;
  bo_ready : ∀ x, x ∈ B → TS.status s !! x = Some SchedStatus.Ready;
  bo_len : length B ≤ slots;
  bo_files : ∀ f, f ∈ BF ↔ ∃ x, x ∈ B ∧ f ∈ TS.files_of s x;
  bo_running : ∀ x f, x ∈ B → f ∈ TS.files_of s x → f ∉ RF;
  bo_disjoint : ∀ x y f, x ∈ B → y ∈ B → x ≠ y → f ∈ TS.files_of s x → f ∉ TS.files_of s y;
}.

(** Why a ready task is not in the batch [B]. *)
Definition left_out s (slots : nat) (RF : gset string) (B : list string) x : Prop :=
  slots ≤ length B ∨
  ∃ f, f ∈ TS.files_of s x ∧ (f ∈ RF ∨ ∃ y, y ∈ B ∧ f ∈ TS.files_of s y).

Lemma left_out_app s slots RF B B' x : left_out s slots RF B x → left_out s slots RF (B ++ B') x.
Proof.
  intros [H|(f & Hf & [H|(y & Hy & Hfy)])]; [left; rewrite length_app; lia|right..].
  - eauto.
  - exists f. split; [done|]. right. exists y. split; [|done]. apply elem_of_app. by left.
Qed.

Lemma elem_of_insert_all (l : list string) (X : gset string) f :
  f ∈ foldl (λ X file, {[file]} ∪ X) X l ↔ f ∈ l ∨ f ∈ X.
Proof.
  revert X. induction l as [|z l IH]; intros X; cbn [foldl]; [set_solver|]. rewrite IH. set_solver.
Qed.

Lemma batch_ok_snoc s slots RF BF B x task :
  batch_ok s slots RF BF B → TS.tasks s !! x = Some task →
  TS.status s !! x = Some SchedStatus.Ready → x ∉ B → ¬ slots ≤ length B →
  (∀ f, f ∈ SchedulableTask.files task → (f ∉ RF) ∧ (f ∉ BF)) →
  batch_ok s slots RF (foldl (λ X file, {[file]} ∪ X) BF (SchedulableTask.files task)) (B ++ [x]).
Proof.
  intros [H1 H2 H3 H4 H5 H6] Ht Hr Hx Hlen Hf.
  assert (TS.files_of s x = SchedulableTask.files task) as Hfx by (unfold TS.files_of; by rewrite Ht).
  assert (∀ y, y ∈ B ++ [x] ↔ y ∈ B ∨ y = x) as Hin.
  { intros y. by rewrite elem_of_app, list_elem_of_singleton. }
  split.
  - apply NoDup_app. split_and!; [done| |apply NoDup_singleton].
    intros y Hy ->%list_elem_of_singleton. done.
  - intros y [Hy| ->]%Hin; auto.
  - rewrite length_app. simpl. lia.
  - intros f. rewrite elem_of_insert_all, <-Hfx, H4. setoid_rewrite Hin. split.
    + intros [Hfin|(y & Hy & Hfy)]; eauto.
    + intros (y & [Hy| ->] & Hfy); eauto.
  - intros y f [Hy| ->]%Hin Hfy; [eauto|]. rewrite Hfx in Hfy. by apply Hf.
  - intros y z f [Hy| ->]%Hin [Hz| ->]%Hin Hne Hfy; [exact (H6 y z f Hy Hz Hne Hfy)| | |congruence].
    + rewrite Hfx. intros Hfin. apply (Hf f Hfin). apply H4. eauto.
    + rewrite Hfx in Hfy. intros Hfz. apply (Hf f Hfy). apply H4. eauto.
Qed.

Lemma has_conflict_false (files : list string) (RF BF : gset string) :
  existsb (λ file, bool_decide (file ∈ RF ∨ file ∈ BF)) files = false →
  ∀ f, f ∈ files → (f ∉ RF) ∧ (f ∉ BF).
Proof.
  intros H f Hf.
  enough (¬ (f ∈ RF ∨ f ∈ BF)) by tauto. intros Hc.
  apply not_true_iff_false in H. apply H, existsb_exists. exists f.
  split; [by apply list_elem_of_In|by apply bool_decide_eq_true].
Qed.

Lemma choose_batch_spec s slots RF l BF B :
  batch_ok s slots RF BF B → NoDup l.*1 → (∀ x, x ∈ B → x ∉ l.*1) →
  (∀ x st, (x, st) ∈ l → TS.status s !! x = Some st) →
  (∀ x, is_Some (TS.status s !! x) → is_Some (TS.tasks s !! x)) →
  let B' := TS.batch_loop s slots RF B BF l in
  (∃ BF', batch_ok s slots RF BF' B') ∧ (∃ R, B' = B ++ R) ∧
  ∀ x, (x, SchedStatus.Ready) ∈ l → x ∈ B' ∨ left_out s slots RF B' x.
Proof.
  intros HB Hnd Hfresh Hst Htasks. revert BF B HB Hfresh.
  induction l as [|[x st] l IH]; intros BF B HB Hfresh; cbn [TS.batch_loop].
  { split_and!; [eauto|exists []; by rewrite app_nil_r|]. by intros x ?%elem_of_nil. }
  rewrite fmap_cons in Hnd. apply NoDup_cons in Hnd as [Hx Hnd].
  assert (∀ y, y ∈ B → y ∉ l.*1) as Hfresh'.
  { intros y Hy Hin. apply (Hfresh y Hy). rewrite fmap_cons. by right. }
  assert (∀ y st', (y, st') ∈ l → TS.status s !! y = Some st') as Hst'.
  { intros y st' Hin. apply Hst. by right. }
  specialize (IH Hnd Hst').
  destruct (decide (st ≠ SchedStatus.Ready)) as [Hne|Hr].
  { destruct (IH BF B HB Hfresh') as (H1 & H2 & H3). split_and!; [done|done|].
    intros y [[= -> <-]|Hy]%elem_of_cons; [done|auto]. }
  apply dec_stable in Hr. subst st.
  destruct (decide (slots ≤ length B)) as [Hfull|Hroom].
  { split_and!; [eauto|exists []; by rewrite app_nil_r|]. intros y _. right. by left. }
  assert (TS.status s !! x = Some SchedStatus.Ready) as Hready by (apply Hst; by left).
  destruct (TS.tasks s !! x) as [task|] eqn:Ht.
  2:{ destruct (Htasks x) as [? ?]; [by rewrite Hready|congruence]. }
  assert (TS.files_of s x = SchedulableTask.files task) as Hfx by (unfold TS.files_of; by rewrite Ht).
  destruct (existsb _ _) eqn:Hc.
  - destruct (IH BF B HB Hfresh') as (H1 & (R & H2) & H3). split_and!; [done|by exists R|].
    intros y [[= ->]|Hy]%elem_of_cons; [|auto]. right. rewrite H2. apply left_out_app. right.
    apply existsb_exists in Hc as (f & Hf%list_elem_of_In & Hor%bool_decide_eq_true).
    exists f. rewrite Hfx. split; [done|]. destruct Hor as [|Hbf]; [by left|right].
    by apply (bo_files _ _ _ _ _ HB).
  - assert (x ∉ B) as HxB.
    { intros Hin. apply (Hfresh x Hin). rewrite fmap_cons. by left. }
    destruct (IH _ (B ++ [x]) (batch_ok_snoc _ _ _ _ _ _ _ HB Ht Hready HxB Hroom
      (has_conflict_false _ _ _ Hc))) as (H1 & (R & H2) & H3).
    { intros y [Hy| ->%list_elem_of_singleton]%elem_of_app; auto. }
    split_and!; [done|exists ([x] ++ R); by rewrite H2, <-app_assoc|].
    intros y [[= ->]|Hy]%elem_of_cons; [|auto]. left. rewrite H2.
    apply elem_of_app. left. apply elem_of_app. right. by left.
Qed.

(** Every task with a status is a known task and the other way round. *)
Definition same_ids s : Prop := ∀ x, is_Some (TS.status s !! x) ↔ is_Some (TS.tasks s !! x).

Definition running_count s : nat := length (TS.ids_with SchedStatus.Running s).

Definition running_files s : gset string :=
  list_to_set (concat (TS.files_of s <$> TS.ids_with SchedStatus.Running s)).

Lemma elem_of_running_files s f :
  f ∈ running_files s ↔
  ∃ x, TS.status s !! x = Some SchedStatus.Running ∧ f ∈ TS.files_of s x.
Proof.
  unfold running_files. rewrite elem_of_list_to_set, list_elem_of_In, in_concat.
  setoid_rewrite <-list_elem_of_In. setoid_rewrite list_elem_of_fmap.
  setoid_rewrite elem_of_ids_with. naive_solver.
Qed.

Lemma next_batch_ok s :
  same_ids s →
  (∃ BF, batch_ok s (TS.max_parallel s - running_count s) (running_files s) BF (TS.next_batch s)) ∧
  ∀ x, TS.status s !! x = Some SchedStatus.Ready →
    x ∈ TS.next_batch s ∨
    left_out s (TS.max_parallel s - running_count s) (running_files s) (TS.next_batch s) x.
Proof.
  intros Hids.
  assert (∀ n, batch_ok s n (running_files s) ∅ []) as Hinit.
  { intros n. split; [by constructor|set_solver|simpl; lia|set_solver..]. }
  unfold TS.next_batch. fold (running_count s). fold (running_files s).
  destruct (decide _) as [->|Hn].
  { split; [eauto|]. intros x _. right. left. simpl. lia. }
  destruct (choose_batch_spec s (TS.max_parallel s - running_count s) (running_files s)
    (hash_iter (TS.status s)) ∅ []) as (H1 & _ & H3).
  - auto.
  - apply NoDup_hash_keys.
  - set_solver.
  - intros x st. by rewrite elem_of_hash_iter.
  - intros x. apply Hids.
  - split; [done|]. intros x Hx. apply H3. by apply elem_of_hash_iter.
Qed.
End Facts.

(** ** The engine's use of the scheduler *)

Section Run.
Context {HI : HashIter}.
Implicit Types (s : TaskScheduler) (x y dep : string) (task : SchedulableTask).

(** [x] failed or was skipped. *)
Definition lost s x : Prop :=
  (∃ e, TS.status s !! x = Some (SchedStatus.Failed e)) ∨
  TS.status s !! x = Some SchedStatus.Skipped.

Definition released (st : SchedStatus) : bool :=
  match st with SchedStatus.Blocked | SchedStatus.Skipped => false | _ => true end.

(** The invariant, without the promptness of [update_ready]. *)
Record sched_core s : Prop := {
  sc_ids : same_ids s;
  sc_released : ∀ x st, TS.status s !! x = Some st → released st = true → unblocked s x = true;
  sc_blocked : ∀ x task dep, TS.status s !! x = Some SchedStatus.Blocked →
    TS.tasks s !! x = Some task → dep ∈ SchedulableTask.depends_on task → ¬ lost s dep;
  sc_skipped : ∀ x, TS.status s !! x = Some SchedStatus.Skipped →
    ∃ task dep, TS.tasks s !! x = Some task ∧ dep ∈ SchedulableTask.depends_on task ∧ lost s dep;
  sc_files : ∀ x y f, TS.status s !! x = Some SchedStatus.Running →
    TS.status s !! y = Some SchedStatus.Running → x ≠ y →
    f ∈ TS.files_of s x → f ∉ TS.files_of s y;
  sc_slots : running_count s ≤ TS.max_parallel s;
}.

(** The invariant of the scheduler: a task is released exactly when its dependencies
    are all completed, it is skipped exactly when one of them is lost, running tasks
    touch different files and there are at most [max_parallel] of them. *)
Record sched_inv s : Prop := {
  si_core : sched_core s;
  si_prompt : ∀ x, TS.status s !! x = Some SchedStatus.Blocked → unblocked s x = false;
}.

(** The engine starts some of the offered batch, in order, and reports how a running
    task ended. *)
Inductive sched_step : relation TaskScheduler :=
  | step_start s batch :
      sublist batch (TS.next_batch s) → sched_step s (foldl TS.mark_running s batch)
  | step_completed s x :
      TS.status s !! x = Some SchedStatus.Running → sched_step s (TS.mark_completed s x)
  | step_failed s x e :
      TS.status s !! x = Some SchedStatus.Running → sched_step s (TS.mark_failed s x e).

Lemma assign_present s x st st' :
  TS.status s !! x = Some st → TS.assign x st' s = TS.set_status_map (<[x := st']> (TS.status s)) s.
Proof. unfold TS.assign. by intros ->. Qed.

(** The same tasks, and a status that only differs where [upd] says so. *)
Lemma same_ids_ext s s' :
  same_ids s → TS.tasks s' = TS.tasks s →
  (∀ x, is_Some (TS.status s' !! x) ↔ is_Some (TS.status s !! x)) → same_ids s'.
Proof. intros H Ht Hs x. by rewrite Ht, Hs. Qed.

Lemma unblocked_mono s s' x :
  TS.tasks s' = TS.tasks s →
  (∀ y, TS.status s !! y = Some SchedStatus.Completed →
        TS.status s' !! y = Some SchedStatus.Completed) →
  unblocked s x = true → unblocked s' x = true.
Proof.
  intros Ht Hc. unfold unblocked. rewrite Ht. destruct (TS.tasks s !! x); [|done].
  rewrite !all_deps_done_iff. auto.
Qed.

Lemma lost_ext s s' x :
  (∀ e, TS.status s' !! x = Some (SchedStatus.Failed e) ↔
        TS.status s !! x = Some (SchedStatus.Failed e)) →
  (TS.status s' !! x = Some SchedStatus.Skipped ↔ TS.status s !! x = Some SchedStatus.Skipped) →
  lost s' x ↔ lost s x.
Proof.
  intros H1 H2. unfold lost. rewrite H2.
  split; (intros [[e He]|?]; [left; exists e|by right]); by apply H1.
Qed.

(** Fewer running tasks. *)
Lemma running_count_mono s s' :
  (∀ x, TS.status s' !! x = Some SchedStatus.Running → TS.status s !! x = Some SchedStatus.Running) →
  running_count s' ≤ running_count s.
Proof.
  intros H. apply submseteq_length, NoDup_submseteq; [apply NoDup_ids_with|].
  intros x. rewrite !elem_of_ids_with. apply H.
Qed.

Lemma sc_files_mono s s' :
  sched_core s → TS.tasks s' = TS.tasks s →
  (∀ x, TS.status s' !! x = Some SchedStatus.Running → TS.status s !! x = Some SchedStatus.Running) →
  ∀ x y f, TS.status s' !! x = Some SchedStatus.Running →
    TS.status s' !! y = Some SchedStatus.Running → x ≠ y →
    f ∈ TS.files_of s' x → f ∉ TS.files_of s' y.
Proof.
  intros H Ht Hr x y f Hx Hy. unfold TS.files_of. rewrite Ht. by apply (sc_files _ H); auto.
Qed.

(** [update_ready] makes the invariant complete. *)
Lemma update_ready_inv s : sched_core s → sched_inv (TS.update_ready s).
Proof.
  intros H. destruct (update_ready_spec s) as (Ht & Hm & Hst).
  set (s' := TS.update_ready s) in *.
  assert (∀ x st, st ≠ SchedStatus.Blocked → st ≠ SchedStatus.Ready →
    TS.status s' !! x = Some st ↔ TS.status s !! x = Some st) as Hsame.
  { intros x st H1 H2. rewrite Hst. case_decide; naive_solver. }
  assert (∀ x, unblocked s' x = unblocked s x) as Hu.
  { intros x. apply unblocked_ext; [done|]. intros y. by apply Hsame. }
  assert (∀ x, lost s' x ↔ lost s x) as Hl.
  { intros x. apply lost_ext; [intros e|]; by apply Hsame. }
  split; [split|].
  - eapply same_ids_ext; [apply H|done|]. intros x. rewrite Hst.
    case_decide as Hd; [|done]. destruct Hd as [-> _]. split; eauto.
  - intros x st Hx Hr. rewrite Hu. rewrite Hst in Hx.
    case_decide as Hd; [tauto|]. by eapply (sc_released _ H).
  - intros x task dep Hx. rewrite Ht, Hl. rewrite Hst in Hx.
    case_decide; [done|]. by apply (sc_blocked _ H).
  - intros x Hx%Hsame; [|done..]. rewrite Ht. setoid_rewrite Hl. by apply (sc_skipped _ H).
  - apply (sc_files_mono s); [done..|]. intros x. by apply Hsame.
  - rewrite Hm. etrans; [apply running_count_mono|apply (sc_slots _ H)].
    intros x. by apply Hsame.
  - intros x. rewrite Hu, Hst. case_decide as Hd; [done|]. intros Hx.
    apply not_true_iff_false. tauto.
Qed.

(** A new scheduler. *)
Lemma new_statuses (ts : list SchedulableTask) (m : gmap string SchedStatus) :
  (∀ x st, m !! x = Some st → st = SchedStatus.Blocked) →
  ∀ x st, foldl (λ m task, <[SchedulableTask.id task := SchedStatus.Blocked]> m) m ts !! x
    = Some st → st = SchedStatus.Blocked.
Proof.
  revert m. induction ts as [|t ts IH]; intros m Hm; cbn [foldl]; [done|]. apply IH.
  intros x st. rewrite lookup_insert. case_decide; naive_solver.
Qed.

Lemma new_ids (ts : list SchedulableTask) (m1 : gmap string SchedStatus)
    (m2 : gmap string SchedulableTask) :
  (∀ x, is_Some (m1 !! x) ↔ is_Some (m2 !! x)) →
  ∀ x, is_Some (foldl (λ m task, <[SchedulableTask.id task := SchedStatus.Blocked]> m) m1 ts !! x) ↔
       is_Some (foldl (λ m task, <[SchedulableTask.id task := task]> m) m2 ts !! x).
Proof.
  revert m1 m2. induction ts as [|t ts IH]; intros m1 m2 Hm; cbn [foldl]; [done|]. apply IH.
  intros x. rewrite !lookup_insert. case_decide; [|done]. split; eauto.
Qed.

Lemma new_inv ts k : sched_inv (TS.new ts k).
Proof.
  apply update_ready_inv. set (s := TS.mk _ _ _).
  assert (∀ x st, TS.status s !! x = Some st → st = SchedStatus.Blocked) as Hb.
  { apply new_statuses. intros x st. by rewrite lookup_empty. }
  split.
  - intros x. apply (new_ids ts ∅ ∅). intros y. by rewrite !lookup_empty.
  - by intros x st ->%Hb.
  - intros x task dep _ _ _ [[e He%Hb]|He%Hb]; done.
  - by intros x ?%Hb.
  - by intros x y f ?%Hb.
  - replace (running_count s) with 0; [lia|]. unfold running_count.
    destruct (TS.ids_with SchedStatus.Running s) as [|x l] eqn:E; [done|].
    assert (x ∈ TS.ids_with SchedStatus.Running s) as Hx by (rewrite E; by left).
    by apply elem_of_ids_with, Hb in Hx.
Qed.

(** Starting tasks. *)
Lemma start_status b s x :
  TS.status (foldl TS.mark_running s b) !! x =
    if decide (x ∈ b ∧ is_Some (TS.status s !! x)) then Some SchedStatus.Running
    else TS.status s !! x.
Proof.
  revert s. induction b as [|z b IH]; intros s; cbn [foldl].
  { rewrite decide_False; [done|]. intros [H%elem_of_nil _]. done. }
  rewrite IH. unfold TS.mark_running, TS.assign.
  assert (x ∈ z :: b ↔ x = z ∨ x ∈ b) as He by apply elem_of_cons.
  destruct (TS.status s !! z) as [st|] eqn:Hz; simpl;
    [destruct (decide (x = z)) as [->|Hne]|].
  - rewrite lookup_insert_eq, Hz. rewrite (decide_True (P := z ∈ z :: b ∧ _)); [by case_decide|].
    split; [by left|eauto].
  - rewrite lookup_insert_ne by done. apply decide_ext. tauto.
  - apply decide_ext. split; intros [Hin Hs]; (split; [|done]); [tauto|].
    destruct (proj1 He Hin) as [->|]; [|done]. rewrite Hz in Hs. by destruct Hs.
Qed.

Lemma start_same b s :
  TS.tasks (foldl TS.mark_running s b) = TS.tasks s ∧
  TS.max_parallel (foldl TS.mark_running s b) = TS.max_parallel s.
Proof.
  revert s. induction b as [|z b IH]; intros s; cbn [foldl]; [done|].
  destruct (IH (TS.mark_running s z)) as [-> ->]. unfold TS.mark_running, TS.assign.
  by destruct (TS.status s !! z).
Qed.

(** The running tasks after a start. *)
Lemma start_running s b :
  (∀ x, x ∈ b → TS.status s !! x = Some SchedStatus.Ready) → NoDup b →
  let s' := foldl TS.mark_running s b in
  (∀ x, TS.status s' !! x = Some SchedStatus.Running ↔
        x ∈ b ∨ TS.status s !! x = Some SchedStatus.Running) ∧
  (∀ x st, st ≠ SchedStatus.Ready → st ≠ SchedStatus.Running →
     TS.status s' !! x = Some st ↔ TS.status s !! x = Some st) ∧
  running_count s' = length b + running_count s.
Proof.
  intros Hb Hnd s'.
  assert (∀ x, TS.status s' !! x =
    if decide (x ∈ b) then Some SchedStatus.Running else TS.status s !! x) as Hst.
  { intros x. unfold s'. rewrite start_status. case_decide as H1; case_decide as H2; try done.
    - tauto.
    - destruct H1. split; [done|]. rewrite Hb by done. eauto. }
  assert (∀ x, TS.status s' !! x = Some SchedStatus.Running ↔
        x ∈ b ∨ TS.status s !! x = Some SchedStatus.Running) as Hrun.
  { intros x. rewrite Hst. case_decide; naive_solver. }
  split_and!; [done| |].
  - intros x st Hn1 Hn2. rewrite Hst. case_decide as Hx; [|done].
    rewrite (Hb x Hx). split; congruence.
  - unfold running_count. rewrite <-length_app. apply Permutation_length, NoDup_Permutation.
    + apply NoDup_ids_with.
    + apply NoDup_app. split_and!; [done| |apply NoDup_ids_with].
      intros x Hx%Hb Hr%elem_of_ids_with. congruence.
    + intros x. by rewrite elem_of_app, !elem_of_ids_with, Hrun.
Qed.

Lemma start_inv s b : sched_inv s → sublist b (TS.next_batch s) →
  sched_inv (foldl TS.mark_running s b).
Proof.
  intros [H Hp] Hsub. destruct (next_batch_ok s (sc_ids _ H)) as [(BF & HB) _].
  assert (∀ x, x ∈ b → x ∈ TS.next_batch s) as Hin.
  { intros x Hx. by eapply elem_of_submseteq, sublist_submseteq. }
  assert (NoDup b) as Hnd.
  { eapply sublist_NoDup; [apply (bo_nodup _ _ _ _ _ HB)|exact Hsub]. }
  destruct (start_running s b) as (Hrun & Hsame & Hcount); [|done|].
  { intros x Hx. apply (bo_ready _ _ _ _ _ HB), Hin, Hx. }
  destruct (start_same b s) as [Ht Hm].
  pose proof (λ x, start_status b s x) as Hst.
  set (s' := foldl TS.mark_running s b) in *.
  assert (∀ x, unblocked s' x = unblocked s x) as Hu.
  { intros x. apply unblocked_ext; [done|]. intros y. by apply Hsame. }
  assert (∀ x, lost s' x ↔ lost s x) as Hl.
  { intros x. apply lost_ext; [intros e|]; by apply Hsame. }
  assert (∀ x, TS.files_of s' x = TS.files_of s x) as Hf.
  { intros x. unfold TS.files_of. by rewrite Ht. }
  split; [split|].
  - eapply same_ids_ext; [apply H|done|]. intros x. rewrite Hst.
    case_decide as Hd; [|done]. split; [intros _; apply Hd|eauto].
  - intros x st Hx Hr. rewrite Hu. rewrite Hst in Hx. case_decide as Hd.
    + destruct Hd as [Hxb _]. eapply (sc_released _ H); [|].
      * apply (bo_ready _ _ _ _ _ HB), Hin, Hxb.
      * done.
    + by eapply (sc_released _ H).
  - intros x task dep Hx%Hsame; [|done..]. rewrite Ht, Hl. by apply (sc_blocked _ H).
  - intros x Hx%Hsame; [|done..]. rewrite Ht. setoid_rewrite Hl. by apply (sc_skipped _ H).
  - intros x y f Hx Hy Hne. rewrite !Hf. apply Hrun in Hx, Hy.
    destruct Hx as [Hx|Hx], Hy as [Hy|Hy].
    + apply (bo_disjoint _ _ _ _ _ HB); auto.
    + intros Hfx Hfy. apply (bo_running _ _ _ _ _ HB x f); [auto|done|].
      apply elem_of_running_files. eauto.
    + intros Hfx Hfy. apply (bo_running _ _ _ _ _ HB y f); [auto|done|].
      apply elem_of_running_files. eauto.
    + by apply (sc_files _ H).
  - rewrite Hm, Hcount. pose proof (bo_len _ _ _ _ _ HB). pose proof (sc_slots _ H).
    apply sublist_length in Hsub. lia.
  - intros x. rewrite Hu. intros Hx%Hsame; [auto|done..].
Qed.

(** Completing a running task. *)
Lemma completed_core s x :
  sched_core s → TS.status s !! x = Some SchedStatus.Running →
  sched_core (TS.assign x SchedStatus.Completed s).
Proof.
  intros H Hx. rewrite (assign_present _ _ _ _ Hx). set (s' := TS.set_status_map _ s).
  assert (∀ y st, st ≠ SchedStatus.Completed → st ≠ SchedStatus.Running →
    TS.status s' !! y = Some st ↔ TS.status s !! y = Some st) as Hsame.
  { intros y st H1 H2. unfold s'. simpl. rewrite lookup_insert. case_decide; naive_solver. }
  assert (∀ y, TS.status s' !! y = Some SchedStatus.Running →
    TS.status s !! y = Some SchedStatus.Running) as Hrun.
  { intros y. unfold s'. simpl. rewrite lookup_insert. by case_decide. }
  assert (∀ y, TS.status s !! y = Some SchedStatus.Completed →
    TS.status s' !! y = Some SchedStatus.Completed) as Hdone.
  { intros y. unfold s'. simpl. rewrite lookup_insert. by case_decide. }
  assert (∀ y, lost s' y ↔ lost s y) as Hl.
  { intros y. apply lost_ext; [intros e|]; by apply Hsame. }
  split.
  - eapply same_ids_ext; [apply H|done|]. intros y. unfold s'. simpl. rewrite lookup_insert.
    case_decide as Hd; [subst y; rewrite Hx; split; eauto|done].
  - intros y st Hy Hr. apply (unblocked_mono s); [done|done|].
    unfold s' in Hy. simpl in Hy. rewrite lookup_insert in Hy. case_decide as Hd.
    + subst y. by apply (sc_released _ H _ _ Hx).
    + by eapply (sc_released _ H).
  - intros y task dep Hy%Hsame; [|done..]. rewrite Hl. by apply (sc_blocked _ H).
  - intros y Hy%Hsame; [|done..]. setoid_rewrite Hl. by apply (sc_skipped _ H).
  - by apply (sc_files_mono s).
  - simpl. etrans; [by apply (running_count_mono s)|apply (sc_slots _ H)].
Qed.

(** Failing a running task. *)
Lemma failed_core s x e :
  sched_core s → TS.status s !! x = Some SchedStatus.Running →
  sched_core (TS.skip_dependents (TS.assign x (SchedStatus.Failed e) s) x).
Proof.
  intros H Hx. rewrite (assign_present _ _ _ _ Hx). set (s1 := TS.set_status_map _ s).
  pose proof (skip_dependents_spec s1 x) as Hsk. set (s' := TS.skip_dependents s1 x) in *.
  assert (TS.tasks s' = TS.tasks s) as Ht by apply (sk_tasks _ _ _ Hsk).
  assert (TS.max_parallel s' = TS.max_parallel s) as Hm by apply (sk_max _ _ _ Hsk).
  assert (∀ y, TS.status s1 !! y =
    if decide (x = y) then Some (SchedStatus.Failed e) else TS.status s !! y) as H1.
  { intros y. apply lookup_insert. }
  (* a skipped dependent was not released *)
  assert (∀ y, newly s1 s' y → lost s' y) as Hnl by (intros y [_ ?]; by right).
  assert (lost s' x) as Hlx.
  { left. exists e. destruct (sk_status _ _ _ Hsk x) as [->|[(st & Hs & Hterm) _]].
    - rewrite H1. by rewrite decide_True.
    - rewrite H1, decide_True in Hs by done. by simplify_eq. }
  assert (∀ y, lost s' y ↔ y = x ∨ lost s y ∨ newly s1 s' y) as Hl.
  { intros y. split.
    - intros Hy. destruct (sk_status _ _ _ Hsk y) as [E|?]; [|auto]. unfold lost in Hy.
      rewrite E, H1 in Hy. case_decide; [auto|]. right; left. exact Hy.
    - intros [->|[Hy|Hy]]; [done| |auto]. destruct (sk_status _ _ _ Hsk y) as [E|?]; [|auto].
      destruct (decide (x = y)) as [<-|Hne]; [done|]. unfold lost in *.
      by rewrite E, H1, decide_False. }
  assert (∀ y, TS.status s !! y = Some SchedStatus.Completed →
    TS.status s' !! y = Some SchedStatus.Completed) as Hdone.
  { intros y Hy. destruct (decide (x = y)) as [<-|Hne]; [congruence|].
    destruct (sk_status _ _ _ Hsk y) as [->|[(st & Hs & Hterm) _]].
    - by rewrite H1, decide_False.
    - rewrite H1, decide_False, Hy in Hs by done. by simplify_eq. }
  assert (∀ y st, st ≠ SchedStatus.Skipped → (∀ e, st ≠ SchedStatus.Failed e) →
    TS.status s' !! y = Some st → TS.status s !! y = Some st) as Hback.
  { intros y st Hn1 Hn2 Hy. destruct (sk_status _ _ _ Hsk y) as [E|[_ E]]; [|congruence].
    rewrite E, H1 in Hy. case_decide; [naive_solver|done]. }
  assert (∀ y task dep, TS.tasks s !! y = Some task → dep ∈ SchedulableTask.depends_on task →
    y ∈ TS.direct_dependents s1 dep) as Hdd.
  { intros y task dep Hty Hd. apply elem_of_direct_dependents. eauto. }
  split.
  - eapply same_ids_ext; [apply H|done|]. intros y.
    destruct (sk_status _ _ _ Hsk y) as [->|[(st & Hs & _) Hs']].
    + rewrite H1. case_decide as Hd; [subst y; rewrite Hx; split; eauto|done].
    + rewrite H1 in Hs. rewrite Hs'. case_decide as Hd; [subst y; rewrite Hx|rewrite Hs]; split; eauto.
  - intros y st Hy Hr. apply (unblocked_mono s); [done|done|].
    destruct (sk_status _ _ _ Hsk y) as [E|[_ E]]; [|congruence || (rewrite E in Hy; by simplify_eq)].
    rewrite E, H1 in Hy. case_decide as Hd.
    + subst y. by apply (sc_released _ H _ _ Hx).
    + by eapply (sc_released _ H).
  - intros y task dep Hy Hty Hd. rewrite Ht in Hty.
    assert (live s' y) as Hlive by by eexists.
    rewrite Hl. intros [->|[Hlost|Hnew]].
    + by apply (sk_seeds _ _ _ Hsk y); [eapply Hdd|].
    + by apply (sc_blocked _ H y task dep); [apply Hback|..].
    + by eapply (sk_closed _ _ _ Hsk dep y); [|eapply Hdd|].
  - intros y Hy. rewrite Ht. destruct (sk_status _ _ _ Hsk y) as [E|Hn].
    + rewrite E, H1 in Hy. case_decide; [done|].
      destruct (sc_skipped _ H y Hy) as (task & dep & ? & ? & ?).
      exists task, dep. split_and!; [done..|]. apply Hl. auto.
    + destruct (sk_reason _ _ _ Hsk y Hn) as [Hq|(z & Hz & Hq)];
        apply elem_of_direct_dependents in Hq as (task & Hty & Hd); simpl in Hty.
      * exists task, x. auto.
      * exists task, z. auto.
  - apply (sc_files_mono s); [done..|]. intros y. by apply Hback.
  - rewrite Hm. etrans; [apply (running_count_mono s)|apply (sc_slots _ H)].
    intros y. by apply Hback.
Qed.

Lemma sched_step_inv s s' : sched_step s s' → sched_inv s → sched_inv s'.
Proof.
  intros [s0 b Hb|s0 x Hx|s0 x e Hx] H.
  - by apply start_inv.
  - by apply update_ready_inv, completed_core; [apply H|].
  - by apply update_ready_inv, failed_core; [apply H|].
Qed.

Lemma sched_reachable_inv s s' : rtc sched_step s s' → sched_inv s → sched_inv s'.
Proof. induction 1; eauto using sched_step_inv. Qed.
End Run.

(** ** The properties *)

(** The dependency graph of the scheduled tasks. *)
Definition dependency_graph (s : TaskScheduler) : gmap string (gset string) :=
  (λ task, list_to_set (SchedulableTask.depends_on task)) <$> TS.tasks s.

Definition dependencies_known (s : TaskScheduler) : Prop :=
  ∀ x task dep, TS.tasks s !! x = Some task → dep ∈ SchedulableTask.depends_on task →
    is_Some (TS.tasks s !! dep).

Section Properties.
Context {HI : HashIter}.
Implicit Types (s : TaskScheduler) (x y dep : string) (task : SchedulableTask).

Lemma edge_dependency s x dep :
  edge (dependency_graph s) x dep ↔
  ∃ task, TS.tasks s !! x = Some task ∧ dep ∈ SchedulableTask.depends_on task.
Proof.
  unfold edge, dependency_graph. rewrite lookup_fmap. destruct (TS.tasks s !! x) as [task|] eqn:E.
  - simpl. split.
    + intros (ds & [= <-] & Hd%elem_of_list_to_set). eauto.
    + intros (task' & [= <-] & Hd). eexists. split; [done|]. by apply elem_of_list_to_set.
  - split; [by intros (? & ? & ?)|by intros (? & ? & ?)].
Qed.

Definition sched_reachable ts k s : Prop := rtc sched_step (TS.new ts k) s.

Lemma assign_same s x st :
  TS.tasks (TS.assign x st s) = TS.tasks s ∧
  TS.max_parallel (TS.assign x st s) = TS.max_parallel s.
Proof. unfold TS.assign. by destruct (TS.status s !! x). Qed.

Lemma step_same s s' :
  sched_step s s' → TS.tasks s' = TS.tasks s ∧ TS.max_parallel s' = TS.max_parallel s.
Proof.
  intros [s0 b Hb|s0 x Hx|s0 x e Hx]; [apply start_same|..]; unfold TS.mark_completed, TS.mark_failed.
  - destruct (update_ready_spec (TS.assign x SchedStatus.Completed s0)) as (-> & -> & _).
    apply assign_same.
  - destruct (update_ready_spec (TS.skip_dependents (TS.assign x (SchedStatus.Failed e) s0) x))
      as (-> & -> & _).
    pose proof (skip_dependents_spec (TS.assign x (SchedStatus.Failed e) s0) x) as Hsk.
    rewrite (sk_tasks _ _ _ Hsk), (sk_max _ _ _ Hsk). apply assign_same.
Qed.

Lemma reachable_same s s' :
  rtc sched_step s s' → TS.tasks s' = TS.tasks s ∧ TS.max_parallel s' = TS.max_parallel s.
Proof.
  induction 1 as [|s s1 s2 H _ [-> ->]]; [done|]. by apply step_same.
Qed.

Lemma new_same ts k : TS.max_parallel (TS.new ts k) = k.
Proof. unfold TS.new. by rewrite (proj1 (proj2 (update_ready_spec _))). Qed.

Lemma reachable_inv ts k s : sched_reachable ts k s → sched_inv s.
Proof. intros H. eapply sched_reachable_inv; [exact H|apply new_inv]. Qed.

(** C20: However the engine starts offered tasks and reports their outcomes, the
    scheduler keeps its invariant: a task is ready, running, completed or failed only
    when all its dependencies are completed; it is blocked only while one is not and
    none is lost; it is skipped only because a dependency failed or was skipped; running
    tasks never share a file, and at most [max_parallel] tasks run. *)
Theorem scheduler_safe ts k s :
  sched_reachable ts k s → sched_inv s ∧ TS.max_parallel s = k.
Proof.
  intros H. split; [by eapply reachable_inv|].
  rewrite <-(new_same ts k). apply (reachable_same _ _ H).
Qed.

(** The next batch consists of distinct ready tasks whose dependencies are all
    completed, which fit into the free slots and touch neither a file of a running task
    nor one of each other; and it is maximal: a ready task is left out only when the
    slots are used up or one of its files is taken. *)
Theorem scheduler_next_batch ts k s :
  sched_reachable ts k s →
  let batch := TS.next_batch s in
  NoDup batch ∧
  (∀ x, x ∈ batch → TS.status s !! x = Some SchedStatus.Ready ∧ unblocked s x = true) ∧
  length batch + running_count s ≤ k ∧
  (∀ x y f, x ∈ batch → f ∈ TS.files_of s x → f ∈ TS.files_of s y → x ≠ y →
     (y ∉ batch) ∧ TS.status s !! y ≠ Some SchedStatus.Running) ∧
  (∀ x, TS.status s !! x = Some SchedStatus.Ready →
     x ∈ batch ∨ length batch + running_count s = k ∨
     ∃ y f, (y ∈ batch ∨ TS.status s !! y = Some SchedStatus.Running) ∧
            f ∈ TS.files_of s x ∧ f ∈ TS.files_of s y).
Proof.
  intros H batch. pose proof (reachable_inv _ _ _ H) as [Hinv _].
  destruct (next_batch_ok s (sc_ids _ Hinv)) as [(BF & HB) Hmax]. fold batch in HB, Hmax.
  assert (TS.max_parallel s = k) as Hk.
  { rewrite <-(new_same ts k). apply (reachable_same _ _ H). }
  pose proof (bo_len _ _ _ _ _ HB) as Hlen. pose proof (sc_slots _ Hinv) as Hslots.
  split_and!.
  - apply HB.
  - intros x Hx. pose proof (bo_ready _ _ _ _ _ HB x Hx) as Hr.
    split; [done|]. by apply (sc_released _ Hinv _ _ Hr).
  - lia.
  - intros x y f Hx Hfx Hfy Hne. split.
    + intros Hy. by apply (bo_disjoint _ _ _ _ _ HB x y f).
    + intros Hy. apply (bo_running _ _ _ _ _ HB x f Hx Hfx), elem_of_running_files. eauto.
  - intros x Hx. destruct (Hmax x Hx) as [?|[Hfull|(f & Hf & [Hr|(y & Hy & Hfy)])]].
    + by left.
    + right; left. lia.
    + apply elem_of_running_files in Hr as (y & Hy & Hfy). right; right. exists y, f. auto.
    + right; right. exists y, f. auto.
Qed.

(** C21: The scheduler never gets stuck: when the dependencies are known and acyclic
    and there is at least one slot, then with nothing running either every task has
    ended or there is a task to start. *)
Theorem scheduler_progress ts k s :
  sched_reachable ts k s → 0 < k →
  dependencies_known (TS.new ts k) → acyclic (dependency_graph (TS.new ts k)) →
  (∀ x, TS.status s !! x ≠ Some SchedStatus.Running) →
  TS.is_done s = true ∨ TS.next_batch s ≠ [].
Proof.
  intros H Hk Hknown Hac Hidle. pose proof (reachable_inv _ _ _ H) as [Hinv Hprompt].
  destruct (reachable_same _ _ H) as [Ht Hm]. rewrite new_same in Hm.
  assert (∀ x st, TS.status s !! x = Some st → SchedStatus.is_terminal st = false →
    ∃ y, TS.status s !! y = Some SchedStatus.Ready) as Hready.
  { intros x. induction (acyclic_sn _ x Hac) as [x _ IH]. intros st Hx Hterm.
    destruct st; simplify_eq/=; [|by eauto|by destruct (Hidle x)].
    pose proof (Hprompt x Hx) as Hu. unfold unblocked in Hu.
    destruct (proj1 (sc_ids _ Hinv x)) as [task Htask]; [by eauto|].
    rewrite Htask in Hu. unfold TS.all_deps_done in Hu.
    assert (∃ dep, dep ∈ SchedulableTask.depends_on task ∧
      TS.status s !! dep ≠ Some SchedStatus.Completed) as (dep & Hd & Hnc).
    { apply not_true_iff_false in Hu. setoid_rewrite forallb_forall in Hu.
      setoid_rewrite <-list_elem_of_In in Hu.
      destruct (decide (Forall (λ dep, TS.status s !! dep = Some SchedStatus.Completed)
        (SchedulableTask.depends_on task))) as [Hall|Hex%not_Forall_Exists]; [|..].
      - rewrite Forall_forall in Hall. destruct Hu. intros dep Hd. apply bool_decide_eq_true. auto.
      - apply Exists_exists in Hex. destruct Hex as (dep & Hd & Hn). eauto.
      - intros dep. apply _. }
    destruct (proj2 (sc_ids _ Hinv dep)) as [st Hst].
    { rewrite Ht. rewrite Ht in Htask. by eapply Hknown. }
    pose proof (sc_blocked _ Hinv x task dep Hx Htask Hd) as Hnl.
    apply (IH dep) with st; [|done|].
    - unfold flip. apply edge_dependency. exists task. by rewrite <-Ht.
    - destruct st; try done. { by destruct Hnl; left; eauto. } by destruct Hnl; right. }
  destruct (TS.is_done s) eqn:Hdone; [by left|right]. intros Hnil.
  assert (∃ x st, TS.status s !! x = Some st ∧ SchedStatus.is_terminal st = false)
    as (x & st & Hx & Hterm).
  { unfold TS.is_done in Hdone. apply not_true_iff_false in Hdone.
    destruct (decide (Exists (λ st, SchedStatus.is_terminal st = false) (hash_values (TS.status s))))
      as [Hex|Hnex].
    - apply Exists_exists in Hex as (st & (x & Hx)%elem_of_hash_values & Hterm). eauto.
    - destruct Hdone. apply forallb_forall. intros st Hst%list_elem_of_In.
      apply not_false_iff_true. intros Hf. apply Hnex, Exists_exists. eauto. }
  destruct (Hready x st Hx Hterm) as (y & Hy).
  destruct (next_batch_ok s (sc_ids _ Hinv)) as [_ Hmax].
  assert (running_count s = 0) as Hrc.
  { unfold running_count. destruct (TS.ids_with SchedStatus.Running s) as [|z l] eqn:E; [done|].
    destruct (Hidle z). apply elem_of_ids_with. rewrite E. by left. }
  destruct (Hmax y Hy) as [Hin|[Hfull|(f & _ & [Hr|(z & Hz & _)])]]; rewrite Hnil in *.
  - by apply elem_of_nil in Hin.
  - simpl in Hfull. lia.
  - apply elem_of_running_files in Hr as (z & Hz & _). by destruct (Hidle z).
  - by apply elem_of_nil in Hz.
Qed.
End Properties.

(** ** A sample run *)

(** The diamond of the unit tests: the third task needs the first two, the fourth needs
    the third; the first two touch the same file, so they cannot start together. *)
Definition sample_tasks : list SchedulableTask :=
  [SchedulableTask.mk "t" [] ["shared.rs"];
   SchedulableTask.mk "tt" [] ["shared.rs"];
   SchedulableTask.mk "ttt" ["t"; "tt"] ["c.rs"];
   SchedulableTask.mk "tttt" ["ttt"] ["d.rs"]].

Definition sample_new : TaskScheduler := TS.new sample_tasks 4.
Definition sample_started : TaskScheduler :=
  foldl TS.mark_running sample_new (TS.next_batch sample_new).
Definition sample_first : string := default "" (head (TS.next_batch sample_new)).
Definition sample_failed : TaskScheduler := TS.mark_failed sample_started sample_first "error".

Lemma sample_started_reachable : sched_reachable sample_tasks 4 sample_started.
Proof. eapply rtc_once, step_start. reflexivity. Defined.

Lemma sample_failed_reachable : sched_reachable sample_tasks 4 sample_failed.
Proof.
  eapply rtc_r; [apply sample_started_reachable|]. apply step_failed. vm_compute. reflexivity.
Defined.

(** The failure skips both dependents although they are two and one steps away. *)
Example sample_failed_summary : TS.summary sample_failed = (0, 1, 2, 0, 0, 1).
Proof. vm_compute. reflexivity. Qed.

Lemma dependencies_known_dec s :
  map_Forall (λ _ task, Forall (λ dep, is_Some (TS.tasks s !! dep))
    (SchedulableTask.depends_on task)) (TS.tasks s) → dependencies_known s.
Proof.
  intros H x task dep Hx Hd. specialize (H x task Hx). rewrite Forall_forall in H. auto.
Qed.

(** Dependencies on ids of smaller rank. *)
Lemma acyclic_by_rank s (rank : string → nat) :
  map_Forall (λ x task, Forall (λ dep, rank dep < rank x) (SchedulableTask.depends_on task))
    (TS.tasks s) → acyclic (dependency_graph s).
Proof.
  intros H a Hc.
  assert (∀ x y, tc (edge (dependency_graph s)) x y → rank y < rank x) as Hr.
  { assert (∀ x y, edge (dependency_graph s) x y → rank y < rank x) as He.
    { intros x y (task & Ht & Hd)%edge_dependency. specialize (H x task Ht).
      rewrite Forall_forall in H. auto. }
    induction 1 as [x y Hxy|x y z Hxy _ IH]; [auto|]. specialize (He x y Hxy). lia. }
  specialize (Hr a a Hc). lia.
Qed.

Lemma scheduler_safe_witness : sched_inv sample_failed ∧ TS.max_parallel sample_failed = 4.
Proof. apply (scheduler_safe sample_tasks 4), sample_failed_reachable. Defined.

Lemma scheduler_next_batch_witness :
  NoDup (TS.next_batch sample_failed) ∧ length (TS.next_batch sample_failed) + 0 ≤ 4.
Proof.
  destruct (scheduler_next_batch sample_tasks 4 sample_failed sample_failed_reachable)
    as (H1 & _ & H2 & _). split; [exact H1|].
  assert (running_count sample_failed = 0) as E by (vm_compute; reflexivity).
  rewrite E in H2. exact H2.
Defined.

Lemma scheduler_progress_witness :
  TS.is_done sample_new = true ∨ TS.next_batch sample_new ≠ [].
Proof.
  apply (scheduler_progress sample_tasks 4).
  - apply rtc_refl.
  - lia.
  - apply dependencies_known_dec. apply (bool_decide_unpack _). vm_compute. exact I.
  - apply (acyclic_by_rank _ String.length). apply (bool_decide_unpack _). vm_compute. exact I.
  - assert (map_Forall (λ _ st, st ≠ SchedStatus.Running) (TS.status sample_new)) as H
      by (apply (bool_decide_unpack _); vm_compute; exact I).
    intros x Hx. exact (H x _ Hx eq_refl).
Defined.
