(* ===== verification/CircuitBreaker.v ===== *)
(** * The conductor's circuit breaker and phase timeouts
      (crates/roko-conductor/src/circuit_breaker.rs and state_machine.rs)

    Per-plan failure counts, the exponential smoothing that predicts further failures,
    and the timeouts of the plan phases.  The concurrent maps are finite maps: each
    method is taken as one step. *)

From S2P Require Import Prelude Phase Task.

#[local] Arguments F64.of_Z : simpl never.

Definition MAX_PLAN_FAILURES : N := 2.

Module FailureRecord.
Record t : Type := mk { count : N; last_failure_ms : option Z; reasons : list string }.

Definition default : t := mk 0 None [].
End FailureRecord.
Abbreviation FailureRecord := FailureRecord.t.

(** Holt's double exponential smoothing. *)
Module HoltForecaster.
Record t : Type := mk {
  level : F64.t;
  trend : F64.t;
  alpha : F64.t;
  beta : F64.t;
  observations : N;
}.

Definition default : t := mk F64.zero F64.zero (F64.lit 3 10) (F64.lit 1 10) 0.

Definition new (alpha beta : F64.t) : t :=
  mk F64.zero F64.zero (F64.clamp F64.zero (F64.of_Z 1) alpha)
    (F64.clamp F64.zero (F64.of_Z 1) beta) 0.

Definition update (observation : F64.t) (f : t) : t :=
  let one := F64.of_Z 1 in
  if (observations f =? 0)%N then
    mk observation F64.zero (alpha f) (beta f) (add32 (observations f) 1)
  else
    let prev_level := level f in
    let level' :=
      F64.add (F64.mul (alpha f) observation)
        (F64.mul (F64.sub one (alpha f)) (F64.add (level f) (trend f))) in
    let trend' :=
      F64.add (F64.mul (beta f) (F64.sub level' prev_level))
        (F64.mul (F64.sub one (beta f)) (trend f)) in
    mk level' trend' (alpha f) (beta f) (add32 (observations f) 1).

Definition forecast (f : t) (horizon : nat) : F64.t :=
  F64.add (level f) (F64.mul (F64.of_Z (Z.of_nat horizon)) (trend f)).

Definition observation_count (f : t) : N := observations f.
End HoltForecaster.
Abbreviation HoltForecaster := HoltForecaster.t.

Module ProactiveTripSignal.
Inductive t : Type :=
  | Warning (plan_id : string) (forecast_h3 : F64.t)
  | ProactiveTrip (plan_id : string) (forecast_h1 : F64.t).
End ProactiveTripSignal.
Abbreviation ProactiveTripSignal := ProactiveTripSignal.t.

Module CircuitBreakerState.
Record t : Type := mk { max_failures : N; records : gmap string FailureRecord }.
End CircuitBreakerState.
Abbreviation CircuitBreakerState := CircuitBreakerState.t.

Module CircuitBreaker.
Record t : Type := mk {
  max_failures : N;
  records : gmap string FailureRecord;
  forecasters : gmap string HoltForecaster;
  eval_counts : gmap string (N * N);
  predictive : bool;
  forecast_trip_threshold : F64.t;
}.

Definition new (max_failures : N) : t := mk max_failures ∅ ∅ ∅ false (F64.lit 1 2).
Definition default : t := new MAX_PLAN_FAILURES.

Definition with_predictive (trip_threshold : F64.t) (b : t) : t :=
  mk (max_failures b) (records b) (forecasters b) (eval_counts b) true
    (F64.clamp (F64.lit 1 100) (F64.of_Z 1) trip_threshold).

Definition is_predictive (b : t) : bool := predictive b.

Definition from_state (s : CircuitBreakerState) : t :=
  let cb := new (CircuitBreakerState.max_failures s) in
  mk (max_failures cb) (CircuitBreakerState.records s) (forecasters cb) (eval_counts cb)
    (predictive cb) (forecast_trip_threshold cb).

Definition set_records (m : gmap string FailureRecord) (b : t) : t :=
  mk (max_failures b) m (forecasters b) (eval_counts b) (predictive b) (forecast_trip_threshold b).

Definition update_forecaster (plan_id : string) (observation : F64.t) (b : t) : t :=
  let entry := stdpp.option.default (0%N, 0%N) (eval_counts b !! plan_id) in
  let failures :=
    if F64.gt observation (F64.lit 1 2) then add32 entry.1 1 else entry.1 in
  let entry := (failures, add32 entry.2 1) in
  let f := stdpp.option.default HoltForecaster.default (forecasters b !! plan_id) in
  mk (max_failures b) (records b)
    (<[plan_id := HoltForecaster.update observation f]> (forecasters b))
    (<[plan_id := entry]> (eval_counts b)) (predictive b) (forecast_trip_threshold b).

(** The forecast one step ahead reaches the threshold. *)
Definition forecast_trips (b : t) (plan_id : string) : bool :=
  predictive b &&
  match forecasters b !! plan_id with
  | Some f =>
      (2 <=? HoltForecaster.observation_count f)%N &&
      F64.ge (HoltForecaster.forecast f 1) (forecast_trip_threshold b)
  | None => false
  end.

Definition record_failure (plan_id reason : string) (now_ms : Z) (b : t) : t * bool :=
  let entry := stdpp.option.default FailureRecord.default (records b !! plan_id) in
  let entry :=
    FailureRecord.mk (add32 (FailureRecord.count entry) 1) (Some now_ms)
      (FailureRecord.reasons entry ++ [reason]) in
  let count := FailureRecord.count entry in
  let b := set_records (<[plan_id := entry]> (records b)) b in
  let b := if predictive b then update_forecaster plan_id (F64.of_Z 1) b else b in
  (b, if (max_failures b <=? count)%N then true else forecast_trips b plan_id).

Definition record_success (plan_id : string) (b : t) : t :=
  if predictive b then update_forecaster plan_id F64.zero b else b.

Definition check_proactive (b : t) (plan_id : string) : option ProactiveTripSignal :=
  if negb (predictive b) then None
  else
    match forecasters b !! plan_id with
    | None => None
    | Some f =>
        if (HoltForecaster.observation_count f <? 2)%N then None
        else
          let h1 := HoltForecaster.forecast f 1 in
          let h3 := HoltForecaster.forecast f 3 in
          if F64.ge h1 (forecast_trip_threshold b)
          then Some (ProactiveTripSignal.ProactiveTrip plan_id h1)
          else if F64.ge h3 (forecast_trip_threshold b)
          then Some (ProactiveTripSignal.Warning plan_id h3)
          else None
    end.

Definition get_forecaster (b : t) (plan_id : string) : option HoltForecaster :=
  forecasters b !! plan_id.

Definition is_tripped (b : t) (plan_id : string) : bool :=
  if match records b !! plan_id with
     | Some r => (max_failures b <=? FailureRecord.count r)%N
     | None => false
     end
  then true else forecast_trips b plan_id.

Definition is_broken : t → string → bool := is_tripped.

Definition failure_count (b : t) (plan_id : string) : N :=
  match records b !! plan_id with Some r => FailureRecord.count r | None => 0 end.

Definition reset (plan_id : string) (b : t) : t :=
  mk (max_failures b) (delete plan_id (records b)) (delete plan_id (forecasters b))
    (delete plan_id (eval_counts b)) (predictive b) (forecast_trip_threshold b).

Definition reset_all (b : t) : t :=
  mk (max_failures b) ∅ ∅ ∅ (predictive b) (forecast_trip_threshold b).

Definition get_record (b : t) (plan_id : string) : option FailureRecord := records b !! plan_id.

Definition snapshot_state (b : t) : CircuitBreakerState :=
  CircuitBreakerState.mk (max_failures b) (records b).

Definition tracked_plans (b : t) : nat := size (records b).
End CircuitBreaker.
Abbreviation CircuitBreaker := CircuitBreaker.t.
Module CB := CircuitBreaker.

(** ** The breaker follows the history of its plans *)

Inductive cb_op : Type :=
  | RecordFailure (plan_id reason : string) (now_ms : Z)
  | RecordSuccess (plan_id : string)
  | Reset (plan_id : string)
  | ResetAll.

Definition cb_apply (b : CircuitBreaker) (op : cb_op) : CircuitBreaker :=
  match op with
  | RecordFailure p reason now => (CB.record_failure p reason now b).1
  | RecordSuccess p => CB.record_success p b
  | Reset p => CB.reset p b
  | ResetAll => CB.reset_all b
  end.

(** The outcomes of plan [p] since it was last reset, oldest first: [true] is a failure. *)
Definition outcome_step (p : string) (l : list bool) (op : cb_op) : list bool :=
  match op with
  | RecordFailure q _ _ => if decide (q = p) then l ++ [true] else l
  | RecordSuccess q => if decide (q = p) then l ++ [false] else l
  | Reset q => if decide (q = p) then [] else l
  | ResetAll => []
  end.

Definition outcomes (p : string) (ops : list cb_op) : list bool := foldl (outcome_step p) [] ops.

Definition failures (l : list bool) : N := N.of_nat (length (List.filter id l)).

(** The smoothed failure rate of a list of outcomes. *)
Definition holt (l : list bool) : HoltForecaster :=
  foldl (λ f x, HoltForecaster.update (if x : bool then F64.of_Z 1 else F64.zero) f)
    HoltForecaster.default l.

Record cb_tracks (b : CircuitBreaker) (o : string → list bool) : Prop := {
  ct_count : ∀ p, match CB.records b !! p with
                  | Some r => FailureRecord.count r = failures (o p) ∧ (0 < failures (o p))%N
                  | None => failures (o p) = 0%N
                  end;
  ct_forecast : CB.predictive b = true → ∀ p,
    CB.forecasters b !! p = if decide (o p = []) then None else Some (holt (o p));
}.

Lemma failures_app l x : failures (l ++ [x]) = (failures l + (if x then 1 else 0))%N.
Proof. unfold failures. rewrite List.filter_app, length_app. destruct x; simpl; lia. Qed.

Lemma failures_le l : (failures l ≤ N.of_nat (length l))%N.
Proof. unfold failures. pose proof (filter_length_le id l). lia. Qed.

Lemma holt_app l x :
  holt (l ++ [x]) = HoltForecaster.update (if x : bool then F64.of_Z 1 else F64.zero) (holt l).
Proof. unfold holt. by rewrite foldl_app. Qed.

Lemma holt_of_entry o b p :
  cb_tracks b o → CB.predictive b = true →
  default HoltForecaster.default (CB.forecasters b !! p) = holt (o p).
Proof.
  intros H Hp. rewrite (ct_forecast _ _ H Hp). case_decide as E; [by rewrite E|done].
Qed.

Lemma update_forecaster_lookup p x b q :
  CB.forecasters (CB.update_forecaster p x b) !! q =
  if decide (p = q) then
    Some (HoltForecaster.update x (default HoltForecaster.default (CB.forecasters b !! p)))
  else CB.forecasters b !! q.
Proof. unfold CB.update_forecaster. simpl. apply lookup_insert. Qed.

Lemma cb_apply_tracks b o op :
  cb_tracks b o → (∀ p, N.of_nat (length (o p)) < u32_MAX)%N →
  cb_tracks (cb_apply b op) (λ p, outcome_step p (o p) op) ∧
  CB.predictive (cb_apply b op) = CB.predictive b ∧
  CB.max_failures (cb_apply b op) = CB.max_failures b ∧
  CB.forecast_trip_threshold (cb_apply b op) = CB.forecast_trip_threshold b.
Proof.
  intros H Hlen. destruct op as [q reason now|q|q|]; simpl.
  - unfold CB.record_failure. cbv zeta. set (b1 := CB.set_records _ b).
    assert (∀ p, match CB.records b1 !! p with
      | Some r => FailureRecord.count r = failures (if decide (q = p) then o p ++ [true] else o p) ∧
                  (0 < failures (if decide (q = p) then o p ++ [true] else o p))%N
      | None => failures (if decide (q = p) then o p ++ [true] else o p) = 0%N end) as Hc.
    { intros p. unfold b1. simpl. pose proof (ct_count _ _ H p) as Hp.
      rewrite lookup_insert. destruct (decide (q = p)) as [->|Hne]; [|done]. simpl.
      rewrite failures_app. pose proof (failures_le (o p)). specialize (Hlen p).
      destruct (CB.records b !! p); simpl in *; rewrite add32_small by lia; lia. }
    assert (CB.predictive b1 = CB.predictive b) as Eb by done.
    destruct (CB.predictive b) eqn:Hpred.
    + split; [|done]. split; [done|].
      intros _ p. cbn [fst]. rewrite update_forecaster_lookup.
      destruct (decide (q = p)) as [->|Hne].
      * rewrite decide_False by (by destruct (o p)). f_equal. rewrite holt_app.
        f_equal. exact (holt_of_entry o b p H Hpred).
      * by apply (ct_forecast _ _ H Hpred).
    + split; [|done]. split; [done|]. by rewrite Eb.
  - unfold CB.record_success. destruct (CB.predictive b) eqn:Hpred.
    + split; [|done]. split.
      * intros p. simpl. pose proof (ct_count _ _ H p) as Hp. case_decide; [|done].
        by rewrite failures_app, N.add_0_r.
      * intros _ p. rewrite update_forecaster_lookup. destruct (decide (q = p)) as [->|Hne].
        -- rewrite decide_False by (by destruct (o p)). f_equal. rewrite holt_app.
           f_equal. exact (holt_of_entry o b p H Hpred).
        -- by apply (ct_forecast _ _ H Hpred).
    + split; [|done]. split; [|by rewrite Hpred].
      intros p. pose proof (ct_count _ _ H p) as Hp. case_decide; [|done].
      by rewrite failures_app, N.add_0_r.
  - split; [|done]. split; simpl.
    + intros p. rewrite lookup_delete. case_decide; [done|]. apply (ct_count _ _ H).
    + intros Hp p. rewrite lookup_delete. case_decide; [done|]. by apply (ct_forecast _ _ H).
  - split; [|done]. split; simpl.
    + intros p. by rewrite lookup_empty.
    + intros Hp p. by rewrite lookup_empty.
Qed.

Definition run_breaker (b : CircuitBreaker) (ops : list cb_op) : CircuitBreaker :=
  foldl cb_apply b ops.

Lemma outcomes_length p ops : length (outcomes p ops) ≤ length ops.
Proof.
  unfold outcomes. induction ops as [|op ops IH] using rev_ind; [done|].
  rewrite foldl_app, length_app. simpl.
  destruct op; simpl; repeat case_decide; rewrite ?length_app; simpl; lia.
Qed.

Lemma run_breaker_tracks b ops :
  cb_tracks b (λ _, []) → (N.of_nat (length ops) ≤ u32_MAX)%N →
  cb_tracks (run_breaker b ops) (λ p, outcomes p ops) ∧
  CB.predictive (run_breaker b ops) = CB.predictive b ∧
  CB.max_failures (run_breaker b ops) = CB.max_failures b ∧
  CB.forecast_trip_threshold (run_breaker b ops) = CB.forecast_trip_threshold b.
Proof.
  intros Hb. unfold run_breaker, outcomes. induction ops as [|op ops IH] using rev_ind; [done|].
  rewrite length_app. simpl. intros Hlen. destruct IH as (H & H1 & H2 & H3); [lia|].
  rewrite foldl_app. simpl.
  destruct (cb_apply_tracks _ _ op H) as (H' & H1' & H2' & H3').
  { intros p. pose proof (outcomes_length p ops) as Hp. unfold outcomes in Hp. simpl. lia. }
  split_and!; [|congruence..]. destruct H' as [Hc Hf]. split.
  - intros p. specialize (Hc p). by rewrite foldl_app.
  - intros Hp p. rewrite foldl_app. by apply Hf.
Qed.

(** The specification: too many failures since the last reset, or a forecast of the
    smoothed failure rate, from at least two outcomes, that reaches the threshold. *)
Definition spec_tripped (b : CircuitBreaker) (l : list bool) : bool :=
  (0 <? failures l)%N && (CB.max_failures b <=? failures l)%N ||
  CB.predictive b && (2 <=? length l) &&
  F64.ge (HoltForecaster.forecast (holt l) 1) (CB.forecast_trip_threshold b).

Lemma holt_observations l :
  (N.of_nat (length l) ≤ u32_MAX)%N → HoltForecaster.observations (holt l) = N.of_nat (length l).
Proof.
  induction l as [|x l IH] using rev_ind; [done|]. rewrite length_app. simpl. intros Hl.
  rewrite holt_app. unfold HoltForecaster.update.
  destruct (HoltForecaster.observations (holt l) =? 0)%N; simpl;
    rewrite IH, add32_small by lia; lia.
Qed.

Lemma is_tripped_spec b o p :
  cb_tracks b o → (N.of_nat (length (o p)) ≤ u32_MAX)%N →
  CB.is_tripped b p = spec_tripped b (o p).
Proof.
  intros H Hlen. unfold CB.is_tripped, spec_tripped.
  assert (match CB.records b !! p with
    | Some r => (CB.max_failures b <=? FailureRecord.count r)%N | None => false end =
    (0 <? failures (o p))%N && (CB.max_failures b <=? failures (o p))%N) as ->.
  { pose proof (ct_count _ _ H p) as Hp. destruct (CB.records b !! p) as [r|].
    - destruct Hp as [-> Hpos]. destruct (N.ltb_spec 0 (failures (o p))); [done|lia].
    - by rewrite Hp. }
  destruct ((0 <? failures (o p))%N && (CB.max_failures b <=? failures (o p))%N); [done|]. simpl.
  unfold CB.forecast_trips. destruct (CB.predictive b) eqn:Hpred; [|done]. simpl.
  rewrite (ct_forecast _ _ H Hpred). case_decide as E; [by rewrite E|].
  unfold HoltForecaster.observation_count. rewrite holt_observations by done. f_equal.
  destruct (length (o p)) as [|[|n]]; [done..|]. apply N.leb_le. lia.
Qed.

(** C33: After any sequence of failures, successes and resets, in any order and over any
    plans, a plan's breaker is open exactly when its own outcomes since its last reset
    say so; its failure count is the number of failures among them; the answer of
    [record_failure] is whether the breaker is open afterwards; and restoring a snapshot
    keeps every count and forgets the forecasts, so that the breaker is open afterwards exactly
    when it was opened by the number of its failures. *)
Theorem breaker_follows_history b ops p :
  cb_tracks b (λ _, []) → (N.of_nat (length ops) < u32_MAX)%N →
  let b' := run_breaker b ops in
  CB.is_tripped b' p = spec_tripped b (outcomes p ops) ∧
  CB.failure_count b' p = failures (outcomes p ops) ∧
  (∀ reason now,
     (CB.record_failure p reason now b').2 =
     CB.is_tripped (CB.record_failure p reason now b').1 p) ∧
  CB.failure_count (CB.from_state (CB.snapshot_state b')) p = failures (outcomes p ops) ∧
  CB.is_tripped (CB.from_state (CB.snapshot_state b')) p =
    (0 <? failures (outcomes p ops))%N && (CB.max_failures b <=? failures (outcomes p ops))%N.
Proof.
  intros Hb Hlen b'. destruct (run_breaker_tracks b ops Hb ltac:(lia)) as (H & E1 & E2 & E3).
  fold b' in H, E1, E2, E3. pose proof (outcomes_length p ops) as Ho.
  assert (CB.failure_count b' p = failures (outcomes p ops)) as Hcount.
  { unfold CB.failure_count. pose proof (ct_count _ _ H p) as Hp.
    destruct (CB.records b' !! p); [by destruct Hp|done]. }
  split_and!.
  - rewrite (is_tripped_spec _ _ _ H) by lia. unfold spec_tripped. by rewrite E1, E2, E3.
  - done.
  - intros reason now. unfold CB.is_tripped, CB.record_failure. cbv zeta.
    set (b1 := CB.set_records _ b').
    assert (∀ b2, CB.records b2 = CB.records b1 → CB.max_failures b2 = CB.max_failures b' →
      (if (CB.max_failures b2 <=? FailureRecord.count (FailureRecord.mk
             (add32 (FailureRecord.count (default FailureRecord.default (CB.records b' !! p))) 1)
             (Some now) (FailureRecord.reasons (default FailureRecord.default
                (CB.records b' !! p)) ++ [reason])))%N then true else CB.forecast_trips b2 p) =
      (if match CB.records b2 !! p with
          | Some r => (CB.max_failures b2 <=? FailureRecord.count r)%N | None => false end
       then true else CB.forecast_trips b2 p)) as Hb2.
    { intros b2 -> ->. unfold b1. simpl. by rewrite lookup_insert_eq. }
    destruct (CB.predictive b1); by apply Hb2.
  - exact Hcount.
  - unfold CB.is_tripped. simpl. pose proof (ct_count _ _ H p) as Hp.
    destruct (CB.records b' !! p) as [r|].
    + destruct Hp as [-> Hpos]. rewrite E2, (proj2 (N.ltb_lt _ _) Hpos). cbn [andb].
      by destruct (CB.max_failures b <=? _)%N.
    + by rewrite Hp.
Qed.

Lemma new_tracks n : cb_tracks (CB.new n) (λ _, []).
Proof. split; [intros p; simpl; by rewrite lookup_empty|done]. Qed.

Lemma with_predictive_tracks n threshold :
  cb_tracks (CB.with_predictive threshold (CB.new n)) (λ _, []).
Proof. split; simpl; intros; by rewrite lookup_empty. Qed.

Lemma breaker_follows_history_witness :
  CB.is_tripped (run_breaker (CB.with_predictive (F64.lit 1 2) CB.default)
    [RecordFailure "p" "gate" 1; RecordFailure "q" "gate" 2; RecordFailure "p" "gate" 3]) "p" = true.
Proof.
  destruct (breaker_follows_history (CB.with_predictive (F64.lit 1 2) CB.default)
    [RecordFailure "p" "gate" 1; RecordFailure "q" "gate" 2; RecordFailure "p" "gate" 3] "p"
    (with_predictive_tracks _ _) ltac:(vm_compute; reflexivity)) as [H _].
  rewrite H. vm_compute. reflexivity.
Defined.

(** Recording a success can open the breaker: one failure alone does not, a success
    after it does. *)
Lemma success_trips :
  let b := CB.with_predictive (F64.lit 1 2) CB.default in
  CB.is_tripped (run_breaker b [RecordFailure "p" "gate" 1]) "p" = false ∧
  CB.is_tripped (run_breaker b [RecordFailure "p" "gate" 1; RecordSuccess "p"]) "p" = true.
Proof. vm_compute. done. Qed.

(** A restart forgets the predictive mode: a breaker opened by a forecast is closed
    again after its state was saved and restored. *)
Lemma restore_forgets_forecast :
  let b := run_breaker (CB.with_predictive (F64.lit 1 2) (CB.new 3))
             [RecordFailure "p" "gate" 1; RecordFailure "p" "gate" 2] in
  CB.is_tripped b "p" = true ∧
  CB.is_tripped (CB.from_state (CB.snapshot_state b)) "p" = false.
Proof. vm_compute. done. Qed.

(** With a limit of no failures a plan without failures is not stopped. *)
Lemma zero_limit_not_tripped p : CB.is_tripped (CB.new 0) p = false.
Proof. unfold CB.is_tripped. simpl. by rewrite lookup_empty. Qed.

(** ** Phase timeouts *)

Definition TIMEOUT_IMPLEMENTING_COMPLEX : N := 600.
Definition TIMEOUT_IMPLEMENTING_STANDARD : N := 300.
Definition TIMEOUT_IMPLEMENTING_SIMPLE : N := 120.
Definition TIMEOUT_GATING : N := 300.
Definition TIMEOUT_REVIEWING : N := 300.
Definition TIMEOUT_MERGING : N := 60.
Definition TIMEOUT_ENRICHING : N := 120.
Definition TIMEOUT_VERIFYING : N := 300.
Definition TIMEOUT_AUTO_FIXING : N := 300.
Definition TIMEOUT_DOC_REVISION : N := 120.

Definition phase_timeout (phase : PhaseKind) (complexity : TaskComplexityBand.t) : option N :=
  match phase with
  | PhaseKind.Implementing =>
      Some match complexity with
           | TaskComplexityBand.Complex => TIMEOUT_IMPLEMENTING_COMPLEX
           | TaskComplexityBand.Fast => TIMEOUT_IMPLEMENTING_SIMPLE
           | _ => TIMEOUT_IMPLEMENTING_STANDARD
           end
  | PhaseKind.Gating => Some TIMEOUT_GATING
  | PhaseKind.Verifying => Some TIMEOUT_VERIFYING
  | PhaseKind.Reviewing => Some TIMEOUT_REVIEWING
  | PhaseKind.Merging => Some TIMEOUT_MERGING
  | PhaseKind.Enriching => Some TIMEOUT_ENRICHING
  | PhaseKind.AutoFixing => Some TIMEOUT_AUTO_FIXING
  | PhaseKind.DocRevision => Some TIMEOUT_DOC_REVISION
  | _ => None
  end.

(** Every phase a completed plan must go through is bounded in time. *)
Lemma mandatory_phases_timed phase complexity :
  phase ∈ mandatory_phases → is_Some (phase_timeout phase complexity).
Proof.
  intros H. assert (Forall (λ p, is_Some (phase_timeout p complexity)) mandatory_phases) as Hall
    by (repeat constructor; eexists; reflexivity).
  rewrite Forall_forall in Hall. by apply Hall.
Qed.

Module PhaseTransition.
Record t : Type := mk {
  plan_id : string;
  from : PhaseKind;
  to : PhaseKind;
  at_ms : Z;
  reason : option string;
}.

Definition new (plan_id : string) (from to : PhaseKind) (at_ms : Z) : t :=
  mk plan_id from to at_ms None.
Definition with_reason (reason : string) (x : t) : t :=
  mk (plan_id x) (from x) (to x) (at_ms x) (Some reason).
(** The plain subtraction of [i64]s wraps. *)
Definition wrap_i64 (z : Z) : Z := (z + 2 ^ 63) mod 2 ^ 64 - 2 ^ 63.
Definition elapsed_ms (x : t) (now_ms : Z) : Z := Z.max (wrap_i64 (now_ms - at_ms x)) 0.
Definition elapsed_secs (x : t) (now_ms : Z) : N := Z.to_N (Z.max (elapsed_ms x now_ms) 0) / 1000.
End PhaseTransition.
