(* ===== verification/Gates.v ===== *)
(** * Gate pipelines (crates/roko-gate/src/gate_pipeline.rs, rung_selector.rs and ratchet.rs)

    How gates are composed: in sequence, in parallel, by vote and with a fallback.

    A gate is an effect on the world (it compiles, runs tests, asks a model): a function
    from a state of the world to a verdict and the next state.

    At the end, the rungs: which of them a plan runs, by its complexity, the tools at hand and
    the failures so far; and the highest rung each plan has passed. *)

From S2P Require Import Prelude PlanState.

Module Gate.
Record t (W : Type) : Type := mk { name : string; verify : W → Verdict * W }.
Arguments mk {W} _ _.
Arguments name {W} _.
Arguments verify {W} _ _.
End Gate.
Abbreviation Gate := Gate.t.

(** The monotonic clock of the world, in nanoseconds. *)
Class Clock (W : Type) := clock : W → N.

(** [elapsed_ms(started)] *)
Definition elapsed_ms `{Clock W} (started now : W) : N :=
  N.min ((clock now - clock started) / 1000000) u64_MAX.

Definition merge_test_count (acc next : option TestCount) : option TestCount :=
  match acc, next with
  | None, None => None
  | Some a, None => Some a
  | None, Some b => Some b
  | Some a, Some b =>
      Some (TestCount.mk (sat_add32 (TestCount.passed a) (TestCount.passed b))
              (sat_add32 (TestCount.failed a) (TestCount.failed b))
              (sat_add32 (TestCount.ignored a) (TestCount.ignored b)))
  end.

Definition render_step_line (index : nat) (inner : Verdict) : string :=
  let status := if Verdict.passed inner then "pass" else "fail" in
  let reason := if Verdict.passed inner then "" else " — " +:+ Verdict.reason inner in
  fmt_nat (index + 1) +:+ ". [" +:+ status +:+ "] " +:+ Verdict.gate inner +:+ " (" +:+
  fmt_N (Verdict.duration_ms inner) +:+ " ms)" +:+ reason.

Definition lines_detail (header : string) (lines : list string) : string :=
  foldl (λ out line, out +:+ String "010" "" +:+ line) header lines.

Definition failure_reason (failed_names : list string) : string :=
  match failed_names with
  | [name] => "inner gate failed: " +:+ name
  | _ => fmt_nat (length failed_names) +:+ " inner gates failed: " +:+ str_join ", " failed_names
  end.

Definition bool_str (b : bool) : string := if b then "true" else "false".

Definition with_opt_test_count (tc : option TestCount) (v : Verdict) : Verdict :=
  match tc with Some tc => Verdict.with_test_count tc v | None => v end.

(** What the loop over the gates accumulates. *)
Module Steps.
Record t : Type := mk {
  detail_lines : list string;
  failed_names : list string;
  test_count : option TestCount;
  steps_run : nat;
}.

Definition init : t := mk [] [] None 0.

(** One verdict is recorded at position [idx]. *)
Definition record (idx : nat) (inner : Verdict) (s : t) : t :=
  mk (detail_lines s ++ [render_step_line idx inner])
    (if Verdict.passed inner then failed_names s else failed_names s ++ [Verdict.gate inner])
    (merge_test_count (test_count s) (Verdict.test_count inner))
    (steps_run s + 1).

Definition add_lines (l : list string) (s : t) : t :=
  mk (detail_lines s ++ l) (failed_names s) (test_count s) (steps_run s).
End Steps.
Abbreviation Steps := Steps.t.

(** ** The sequential pipeline *)

Module GatePipeline.
Record t (W : Type) : Type := mk { gates : list (Gate W); short_circuit : bool; name : string }.
Arguments mk {W} _ _ _.
Arguments gates {W} _.
Arguments short_circuit {W} _.
Arguments name {W} _.

Section Ops.
Context {W : Type} `{!Clock W}.

Definition of_name (name : string) : t W := mk [] true name.
Definition of_gates (gates : list (Gate W)) : t W := mk gates true "gate-pipeline".
Definition push (gate : Gate W) (p : t W) : t W :=
  mk (gates p ++ [gate]) (short_circuit p) (name p).
Definition with_name (name : string) (p : t W) : t W := mk (gates p) (short_circuit p) name.
Definition with_short_circuit (enabled : bool) (p : t W) : t W := mk (gates p) enabled (name p).
Definition without_short_circuit : t W → t W := with_short_circuit false.

(** The lines of the gates that a short circuit leaves out. *)
Definition skip_lines (idx : nat) (rest : list (Gate W)) : list string :=
  imap (λ i skipped, fmt_nat (idx + 1 + i + 1) +:+ ". [skip] " +:+ Gate.name skipped +:+
                     " (short-circuit)") rest.

Fixpoint run_gates (short_circuit : bool) (idx : nat) (gates : list (Gate W)) (s : Steps)
    (w : W) : Steps * W :=
  match gates with
  | [] => (s, w)
  | gate :: rest =>
      let '(inner, w) := Gate.verify gate w in
      let s := Steps.record idx inner s in
      if negb (Verdict.passed inner) && short_circuit
      then (Steps.add_lines (skip_lines idx rest) s, w)
      else run_gates short_circuit (S idx) rest s w
  end.

Definition verify (p : t W) (w : W) : Verdict * W :=
  match gates p with
  | [] =>
      (Verdict.with_duration (elapsed_ms w w)
         (Verdict.with_detail "GatePipeline: no inner gates" (Verdict.pass (name p))), w)
  | _ =>
      let '(s, w') := run_gates (short_circuit p) 0 (gates p) Steps.init w in
      let elapsed := elapsed_ms w w' in
      let header :=
        "GatePipeline '" +:+ name p +:+ "' — " +:+ fmt_nat (Steps.steps_run s) +:+ "/" +:+
        fmt_nat (length (gates p)) +:+ " executed, short_circuit=" +:+
        bool_str (short_circuit p) in
      let detail := lines_detail header (Steps.detail_lines s) in
      let verdict :=
        match Steps.failed_names s with
        | [] => Verdict.with_detail detail (Verdict.pass (name p))
        | failed =>
            Verdict.with_detail detail (Verdict.fail (name p) (failure_reason failed))
        end in
      (with_opt_test_count (Steps.test_count s) (Verdict.with_duration elapsed verdict), w')
  end.

(** A pipeline is itself a gate. *)
Definition as_gate (p : t W) : Gate W := Gate.mk (name p) (verify p).
End Ops.
End GatePipeline.
Abbreviation GatePipeline := GatePipeline.t.

(** ** Composition modes *)

Module GateComposition.
Inductive t : Type :=
  | Sequential
  | Parallel (indices : list nat)
  | Voting (threshold : F64.t)
  | Fallback (indices : list nat).
End GateComposition.
Abbreviation GateComposition := GateComposition.t.

Definition build_aggregate_verdict (pipeline_name : string) (s : Steps)
    (failed_names : list string) (elapsed : N) (total_gates : nat) : Verdict :=
  let header :=
    "ComposedGatePipeline '" +:+ pipeline_name +:+ "' — " +:+
    fmt_nat (length (Steps.detail_lines s)) +:+ "/" +:+ fmt_nat total_gates +:+ " gates" in
  let detail := lines_detail header (Steps.detail_lines s) in
  let verdict :=
    match failed_names with
    | [] => Verdict.with_detail detail (Verdict.pass pipeline_name)
    | failed => Verdict.with_detail detail (Verdict.fail pipeline_name (failure_reason failed))
    end in
  with_opt_test_count (Steps.test_count s) (Verdict.with_duration elapsed verdict).

Module ComposedGatePipeline.
Record t (W : Type) : Type := mk {
  gates : list (Gate W);
  composition : GateComposition;
  name : string;
}.
Arguments mk {W} _ _ _.
Arguments gates {W} _.
Arguments composition {W} _.
Arguments name {W} _.

Section Ops.
Context {W : Type} `{!Clock W}.

Definition new (name : string) (composition : GateComposition) : t W := mk [] composition name.
Definition push (gate : Gate W) (p : t W) : t W :=
  mk (gates p ++ [gate]) (composition p) (name p).

(** The verdicts of the gates at the indices that exist, in the order of the indices. *)
Fixpoint run_parallel (gates : list (Gate W)) (indices : list nat) (w : W) : list Verdict * W :=
  match indices with
  | [] => ([], w)
  | idx :: rest =>
      match gates !! idx with
      | Some gate =>
          let '(v, w) := Gate.verify gate w in
          let '(vs, w) := run_parallel gates rest w in
          (v :: vs, w)
      | None => run_parallel gates rest w
      end
  end.

(** The gates at [indices] in sequence until one fails. *)
Fixpoint run_until_failure (gates : list (Gate W)) (indices : list nat) (s : Steps) (w : W) :
    Steps * W * bool :=
  match indices with
  | [] => (s, w, true)
  | idx :: rest =>
      match gates !! idx with
      | Some gate =>
          let '(inner, w) := Gate.verify gate w in
          let s := Steps.record idx inner s in
          if Verdict.passed inner then run_until_failure gates rest s w else (s, w, false)
      | None => run_until_failure gates rest s w
      end
  end.

(** The [i]-th verdict is recorded at the [i]-th index. *)
Definition record_all (indices : list nat) (vs : list Verdict) : Steps :=
  foldl (λ s p, Steps.record (default p.1 (indices !! p.1)) p.2 s) Steps.init (imap pair vs).

Definition verify_sequential (p : t W) (w : W) : Verdict * W :=
  let '(s, w', _) := run_until_failure (gates p) (seq 0 (length (gates p))) Steps.init w in
  (build_aggregate_verdict (name p) s (Steps.failed_names s) (elapsed_ms w w')
     (length (gates p)), w').

Definition verify_parallel (p : t W) (indices : list nat) (w : W) : Verdict * W :=
  let indices :=
    match indices with [] => seq 0 (length (gates p)) | _ => indices end in
  let '(vs, w') := run_parallel (gates p) indices w in
  let s := record_all indices vs in
  (build_aggregate_verdict (name p) s (Steps.failed_names s) (elapsed_ms w w')
     (length (gates p)), w').

Definition percent (f : F64.t) : string := fmt_fixed 0 (F64.mul f (F64.of_Z 100)).

Definition verify_voting (p : t W) (threshold : F64.t) (w : W) : Verdict * W :=
  let all_indices := seq 0 (length (gates p)) in
  let '(vs, w') := run_parallel (gates p) all_indices w in
  let s := record_all all_indices vs in
  let pass_count := length (List.filter Verdict.passed vs) in
  let pass_rate :=
    F64.div (F64.of_Z (Z.of_nat pass_count)) (F64.of_Z (Z.of_nat (length (gates p) `max` 1))) in
  let overall_passed := F64.ge pass_rate threshold in
  let reason :=
    "voting failed: " +:+ fmt_nat pass_count +:+ "/" +:+ fmt_nat (length (gates p)) +:+ " (" +:+
    percent pass_rate +:+ "%) < " +:+ percent threshold +:+ "%" in
  let detail :=
    "ComposedGatePipeline '" +:+ name p +:+ "' — voting mode, " +:+
    fmt_nat (length (gates p)) +:+ " gates" +:+ String "010" "" +:+
    str_join (String "010" "") (Steps.detail_lines s) in
  let verdict :=
    if overall_passed then Verdict.with_detail detail (Verdict.pass (name p))
    else Verdict.with_detail detail (Verdict.fail (name p) reason) in
  (with_opt_test_count (Steps.test_count s)
     (Verdict.with_duration (elapsed_ms w w') verdict), w').

Definition verify_fallback (p : t W) (fallback_indices : list nat) (w : W) : Verdict * W :=
  let primary_indices :=
    List.filter (λ i, negb (bool_decide (i ∈ fallback_indices))) (seq 0 (length (gates p))) in
  let '(s, w1, primary_passed) := run_until_failure (gates p) primary_indices Steps.init w in
  if primary_passed then
    (build_aggregate_verdict (name p) s [] (elapsed_ms w w1) (length (gates p)), w1)
  else
    (* the names of the primary failures are not part of the verdict *)
    let s := Steps.mk (Steps.detail_lines s ++ ["--- fallback ---"]) [] (Steps.test_count s)
               (Steps.steps_run s) in
    let '(s, w2, _) := run_until_failure (gates p) fallback_indices s w1 in
    (build_aggregate_verdict (name p) s (Steps.failed_names s) (elapsed_ms w w2)
       (length (gates p)), w2).

Definition verify (p : t W) (w : W) : Verdict * W :=
  match gates p with
  | [] =>
      (Verdict.with_duration (elapsed_ms w w)
         (Verdict.with_detail "ComposedGatePipeline: no inner gates" (Verdict.pass (name p))), w)
  | _ =>
      match composition p with
      | GateComposition.Sequential => verify_sequential p w
      | GateComposition.Parallel indices => verify_parallel p indices w
      | GateComposition.Voting threshold => verify_voting p threshold w
      | GateComposition.Fallback fallback_indices => verify_fallback p fallback_indices w
      end
  end.
End Ops.
End ComposedGatePipeline.
Abbreviation ComposedGatePipeline := ComposedGatePipeline.t.
Module CGP := ComposedGatePipeline.

(** ** What running gates means *)

Section Runs.
Context {W : Type}.
Implicit Types (gates : list (Gate W)) (w : W) (vs : list Verdict).

(** All gates, in order. *)
Fixpoint run_all gates w : list Verdict * W :=
  match gates with
  | [] => ([], w)
  | gate :: rest =>
      let '(v, w) := Gate.verify gate w in
      let '(vs, w) := run_all rest w in
      (v :: vs, w)
  end.

(** The gates up to and including the first that fails. *)
Fixpoint run_prefix gates w : list Verdict * W :=
  match gates with
  | [] => ([], w)
  | gate :: rest =>
      let '(v, w) := Gate.verify gate w in
      if Verdict.passed v then let '(vs, w) := run_prefix rest w in (v :: vs, w)
      else ([v], w)
  end.

Definition select gates (indices : list nat) : list (Gate W) := omap (λ i, gates !! i) indices.

Definition all_passed vs : bool := forallb Verdict.passed vs.

Definition failing_names vs : list string :=
  Verdict.gate <$> List.filter (λ v, negb (Verdict.passed v)) vs.

Definition total_tests vs : option TestCount :=
  foldl merge_test_count None (Verdict.test_count <$> vs).

Lemma failing_names_nil vs : failing_names vs = [] ↔ all_passed vs = true.
Proof.
  unfold failing_names, all_passed. induction vs as [|v vs IH]; [done|]. simpl.
  destruct (Verdict.passed v); simpl; [done|]. split; done.
Qed.

(** Stopping early does not change whether everything passed, and a prefix that passed
    is the whole run. *)
Lemma run_prefix_passed gates w :
  all_passed (run_prefix gates w).1 = all_passed (run_all gates w).1 ∧
  (all_passed (run_prefix gates w).1 = true → run_prefix gates w = run_all gates w).
Proof.
  revert w. induction gates as [|gate gates IH]; intros w; simpl; [done|].
  destruct (Gate.verify gate w) as [v w1]. specialize (IH w1).
  destruct (run_prefix gates w1) as [vs1 w2], (run_all gates w1) as [vs2 w3].
  unfold all_passed in *. destruct (Verdict.passed v) eqn:Hv; simpl; rewrite ?Hv; simpl; [|done].
  destruct IH as [IH1 IH2]. split; [done|]. intros H. by injection (IH2 H) as -> ->.
Qed.

(** The verdicts of a short-circuited run are those of the full run, cut after the
    first failure. *)
Lemma run_prefix_cut gates w :
  ∃ rest, (run_all gates w).1 = (run_prefix gates w).1 ++ rest ∧
    (rest = [] ∨ ∃ pre v, (run_prefix gates w).1 = pre ++ [v] ∧ all_passed pre = true ∧
       Verdict.passed v = false).
Proof.
  revert w. induction gates as [|gate gates IH]; intros w; simpl; [by exists []; auto|].
  destruct (Gate.verify gate w) as [v w1]. destruct (IH w1) as (rest & E & Hrest).
  destruct (run_prefix gates w1) as [vs1 w2], (run_all gates w1) as [vs2 w3]. simpl in *.
  destruct (Verdict.passed v) eqn:Hv; simpl.
  - exists rest. split; [by rewrite E|].
    destruct Hrest as [|(pre & v' & -> & Hp & Hv')]; [by left|right].
    exists (v :: pre), v'. split_and!; [done| |done]. unfold all_passed. simpl. by rewrite Hv.
  - exists vs2. split; [done|right]. by exists [], v.
Qed.

(** [s'] is [s] with the verdicts [vs] recorded. *)
Record recorded (s s' : Steps) vs : Prop := {
  rec_failed : Steps.failed_names s' = Steps.failed_names s ++ failing_names vs;
  rec_tests : Steps.test_count s' =
              foldl merge_test_count (Steps.test_count s) (Verdict.test_count <$> vs);
  rec_steps : Steps.steps_run s' = Steps.steps_run s + length vs;
}.

Lemma recorded_nil s : recorded s s [].
Proof. split; simpl; [by rewrite app_nil_r|done|lia]. Qed.

Lemma recorded_cons idx v s s' vs :
  recorded (Steps.record idx v s) s' vs → recorded s s' (v :: vs).
Proof.
  intros [H1 H2 H3]. split; [|exact H2|simpl in *; lia]. rewrite H1. unfold failing_names. simpl.
  destruct (Verdict.passed v); simpl; [done|]. by rewrite <-app_assoc.
Qed.

Lemma recorded_add_lines l s s' vs : recorded s s' vs → recorded s (Steps.add_lines l s') vs.
Proof. intros [H1 H2 H3]. by split. Qed.

Lemma run_gates_spec (short_circuit : bool) idx gates s w :
  let vs := (if short_circuit then run_prefix gates w else run_all gates w).1 in
  recorded s (GatePipeline.run_gates short_circuit idx gates s w).1 vs ∧
  (GatePipeline.run_gates short_circuit idx gates s w).2 =
    (if short_circuit then run_prefix gates w else run_all gates w).2.
Proof.
  revert idx s w. induction gates as [|gate gates IH]; intros idx s w; cbv zeta.
  { destruct short_circuit; simpl; (split; [apply recorded_nil|done]). }
  simpl. destruct (Gate.verify gate w) as [v w1].
  specialize (IH (S idx) (Steps.record idx v s) w1). cbv zeta in IH.
  destruct short_circuit; simpl in *.
  - destruct (Verdict.passed v) eqn:Hv; simpl.
    + destruct (run_prefix gates w1) as [vs w2]. simpl in *. destruct IH as [IH1 IH2].
      split; [by eapply recorded_cons|done].
    + split; [|done]. apply recorded_add_lines. by eapply recorded_cons, recorded_nil.
  - rewrite andb_false_r. destruct (run_all gates w1) as [vs w2]. simpl in *.
    destruct IH as [IH1 IH2]. split; [by eapply recorded_cons|done].
Qed.

Lemma run_parallel_spec gates indices w :
  CGP.run_parallel gates indices w = run_all (select gates indices) w.
Proof.
  revert w. induction indices as [|i indices IH]; intros w; [done|]. simpl.
  unfold select in *. simpl. destruct (gates !! i) as [gate|]; simpl; [|apply IH].
  destruct (Gate.verify gate w) as [v w1]. by rewrite IH.
Qed.

Lemma run_until_failure_spec gates indices s w :
  let '(s', w', ok) := CGP.run_until_failure gates indices s w in
  recorded s s' (run_prefix (select gates indices) w).1 ∧
  w' = (run_prefix (select gates indices) w).2 ∧
  ok = all_passed (run_prefix (select gates indices) w).1.
Proof.
  revert s w. induction indices as [|i indices IH]; intros s w; simpl.
  { split_and!; [apply recorded_nil|done|done]. }
  unfold select in *. simpl. destruct (gates !! i) as [gate|]; simpl; [|apply IH].
  destruct (Gate.verify gate w) as [v w1]. destruct (Verdict.passed v) eqn:Hv.
  - specialize (IH (Steps.record i v s) w1).
    destruct (CGP.run_until_failure gates indices (Steps.record i v s) w1) as [[s' w'] ok].
    destruct (run_prefix (omap _ indices) w1) as [vs w2]. simpl in *.
    destruct IH as (H1 & -> & ->). split_and!; [by eapply recorded_cons|done|].
    unfold all_passed. simpl. by rewrite Hv.
  - simpl. split_and!; [by eapply recorded_cons, recorded_nil|done|].
    unfold all_passed. simpl. by rewrite Hv.
Qed.

Lemma record_verdicts_spec indices vs : recorded Steps.init (CGP.record_all indices vs) vs.
Proof.
  unfold CGP.record_all.
  assert (∀ (l : list (nat * Verdict)) (f : nat * Verdict → nat) s,
    recorded s (foldl (λ s p, Steps.record (f p) p.2 s) s l) l.*2) as Hl.
  { induction l as [|p l IH]; intros f s; simpl; [apply recorded_nil|].
    eapply recorded_cons, IH. }
  specialize (Hl (imap pair vs) (λ p, default p.1 (indices !! p.1)) Steps.init).
  assert ((imap pair vs).*2 = vs) as E.
  { rewrite fmap_imap. apply list_eq. intros i. rewrite list_lookup_imap. by destruct (vs !! i). }
  by rewrite E in Hl.
Qed.

Lemma select_all gates : select gates (seq 0 (length gates)) = gates.
Proof.
  assert (∀ gs pre : list (Gate W), omap (λ i, (pre ++ gs) !! i) (seq (length pre) (length gs)) = gs) as H.
  { induction gs as [|g gs IH]; intros pre; [done|]. simpl.
    rewrite list_lookup_middle by done. f_equal.
    specialize (IH (pre ++ [g])). rewrite <-app_assoc, length_app in IH. simpl in IH.
    by rewrite Nat.add_1_r in IH. }
  apply (H gates []).
Qed.
End Runs.

(** ** The properties *)

Section Properties.
Context {W : Type} `{!Clock W}.
Implicit Types (w : W).

Lemma aggregate_fields name s failed elapsed n :
  let v := build_aggregate_verdict name s failed elapsed n in
  Verdict.passed v = bool_decide (failed = []) ∧
  Verdict.reason v = (if decide (failed = []) then "" else failure_reason failed) ∧
  Verdict.gate v = name ∧ Verdict.test_count v = Steps.test_count s ∧
  Verdict.duration_ms v = elapsed.
Proof.
  unfold build_aggregate_verdict. destruct failed, (Steps.test_count s); simpl; done.
Qed.

(** A gate pipeline passes exactly when every inner gate passes, run in order; in
    short-circuit mode it runs the gates up to and including the first failure and no
    other, otherwise all of them; its reason names the gates that failed in order, and its
    test counts are the sums over the gates that ran.  Stopping early never changes
    whether the pipeline passes. *)
Theorem gate_pipeline_verdict (p : GatePipeline W) w :
  let ran := if GatePipeline.short_circuit p
             then run_prefix (GatePipeline.gates p) w else run_all (GatePipeline.gates p) w in
  let '(v, w') := GatePipeline.verify p w in
  w' = ran.2 ∧
  Verdict.passed v = all_passed (run_all (GatePipeline.gates p) w).1 ∧
  Verdict.gate v = GatePipeline.name p ∧
  Verdict.test_count v = total_tests ran.1 ∧
  Verdict.reason v =
    (if Verdict.passed v then "" else failure_reason (failing_names ran.1)) ∧
  Verdict.duration_ms v = elapsed_ms w w'.
Proof.
  cbv zeta. unfold GatePipeline.verify.
  destruct (GatePipeline.gates p) as [|g gs] eqn:Eg.
  { by destruct (GatePipeline.short_circuit p). }
  rewrite <-Eg. clear Eg.
  pose proof (run_gates_spec (GatePipeline.short_circuit p) 0 (GatePipeline.gates p)
    Steps.init w) as [[H1 H2 H3] Hw]. cbv zeta in *.
  set (ran := if GatePipeline.short_circuit p then _ else _) in *.
  destruct (GatePipeline.run_gates _ _ _ _ _) as [s w']. simpl in *. subst w'.
  assert (all_passed ran.1 = all_passed (run_all (GatePipeline.gates p) w).1) as Hall.
  { unfold ran. destruct (GatePipeline.short_circuit p); [apply run_prefix_passed|done]. }
  pose proof (failing_names_nil ran.1) as Hnil. rewrite <-Hall.
  unfold total_tests. rewrite <-H2, H1.
  destruct (failing_names ran.1), (Steps.test_count s), (all_passed ran.1); simpl;
    (split_and!; try done); naive_solver.
Qed.

(** The verdict but for its transcript. *)
Definition summary (v : Verdict) : Verdict := Verdict.with_detail "" v.

Lemma summary_eq v v' :
  Verdict.passed v = Verdict.passed v' → Verdict.reason v = Verdict.reason v' →
  Verdict.gate v = Verdict.gate v' → Verdict.score v = Verdict.score v' →
  Verdict.test_count v = Verdict.test_count v' →
  Verdict.error_digest v = Verdict.error_digest v' →
  Verdict.duration_ms v = Verdict.duration_ms v' → summary v = summary v'.
Proof. destruct v, v'. simpl. by intros -> -> -> -> -> -> ->. Qed.

(** In the sequential mode a composed pipeline is the short-circuiting pipeline, up to the
    transcript. *)
Lemma sequential_is_pipeline (p : ComposedGatePipeline W) w :
  CGP.composition p = GateComposition.Sequential →
  let q := GatePipeline.mk (CGP.gates p) true (CGP.name p) in
  summary (CGP.verify p w).1 = summary (GatePipeline.verify q w).1 ∧
  (CGP.verify p w).2 = (GatePipeline.verify q w).2.
Proof.
  intros Hc. unfold CGP.verify, GatePipeline.verify. rewrite Hc. cbn [GatePipeline.gates
    GatePipeline.short_circuit GatePipeline.name].
  destruct (CGP.gates p) as [|g gs] eqn:Eg; [done|]. rewrite <-Eg. clear Eg.
  unfold CGP.verify_sequential.
  pose proof (run_until_failure_spec (CGP.gates p) (seq 0 (length (CGP.gates p))) Steps.init w) as H1.
  pose proof (run_gates_spec true 0 (CGP.gates p) Steps.init w) as [[F2 T2 _] W2].
  rewrite select_all in H1. cbv zeta in *.
  destruct (CGP.run_until_failure _ _ _ _) as [[s1 w1] ok1].
  destruct (GatePipeline.run_gates _ _ _ _ _) as [s2 w2]. simpl in *.
  destruct H1 as ([F1 T1 _] & -> & _). subst w2. split; [|done].
  unfold build_aggregate_verdict. rewrite F1, F2, T1, T2.
  destruct (failing_names _), (foldl _ _ _); by apply summary_eq.
Qed.

(** What each composition mode decides: in sequence, the pipeline it is documented to
    be, up to the transcript; in parallel, that all selected gates pass, every one of them
    run; by vote, that the share of passing gates reaches the threshold; with a fallback,
    that the other gates all pass or else the fallback gates do, each group run in order up
    to its first failure and the fallback only when it is needed. *)
Theorem composition_verdict (p : ComposedGatePipeline W) w :
  let gates := CGP.gates p in
  let '(v, w') := CGP.verify p w in
  match gates, CGP.composition p with
  | _, GateComposition.Sequential =>
      let q := GatePipeline.mk gates true (CGP.name p) in
      summary v = summary (GatePipeline.verify q w).1 ∧ w' = (GatePipeline.verify q w).2
  | [], _ => Verdict.passed v = true ∧ w' = w
  | _, GateComposition.Parallel indices =>
      let ran := run_all (match indices with [] => gates | _ => select gates indices end) w in
      Verdict.passed v = all_passed ran.1 ∧ w' = ran.2 ∧ Verdict.test_count v = total_tests ran.1
  | _, GateComposition.Voting threshold =>
      let ran := run_all gates w in
      let votes := length (List.filter Verdict.passed ran.1) in
      Verdict.passed v =
        F64.ge (F64.div (F64.of_Z (Z.of_nat votes)) (F64.of_Z (Z.of_nat (length gates)))) threshold ∧
      w' = ran.2 ∧ Verdict.test_count v = total_tests ran.1
  | _, GateComposition.Fallback fallback =>
      let primary := List.filter (λ i, negb (bool_decide (i ∈ fallback))) (seq 0 (length gates)) in
      let ran1 := run_prefix (select gates primary) w in
      let ran2 := run_prefix (select gates fallback) ran1.2 in
      if all_passed ran1.1 then Verdict.passed v = true ∧ w' = ran1.2
      else Verdict.passed v = all_passed ran2.1 ∧ w' = ran2.2
  end.
Proof.
  cbv zeta. destruct (CGP.verify p w) as [v w'] eqn:E.
  destruct (CGP.composition p) as [|indices|threshold|fallback] eqn:Hc.
  { pose proof (sequential_is_pipeline p w Hc) as H. rewrite E in H. simpl in H.
    by destruct (CGP.gates p). }
  all: unfold CGP.verify in E; rewrite Hc in E;
    destruct (CGP.gates p) as [|g gs] eqn:Eg; [by injection E as <- <-|]; rewrite <-Eg in *.
  - unfold CGP.verify_parallel in E. rewrite run_parallel_spec in E.
    assert (select (CGP.gates p) (match indices with [] => seq 0 (length (CGP.gates p)) | _ => indices end) =
      match indices with [] => CGP.gates p | _ => select (CGP.gates p) indices end) as Es
      by (destruct indices; [apply select_all|done]).
    rewrite Es in E. destruct (run_all _ w) as [vs w1]. injection E as <- <-.
    pose proof (record_verdicts_spec (match indices with [] => seq 0 (length (CGP.gates p)) | _ => indices end) vs)
      as [F T _].
    pose proof (aggregate_fields (CGP.name p)
      (CGP.record_all (match indices with [] => seq 0 (length (CGP.gates p)) | _ => indices end) vs)
      (Steps.failed_names (CGP.record_all (match indices with
         [] => seq 0 (length (CGP.gates p)) | _ => indices end) vs))
      (elapsed_ms w w1) (length (CGP.gates p))) as (Hp & _ & _ & Ht & _).
    rewrite Hp, Ht, F, T. split_and!; [|done|done]. simpl.
    apply eq_true_iff_eq. by rewrite bool_decide_eq_true, failing_names_nil.
  - unfold CGP.verify_voting in E. rewrite run_parallel_spec, select_all in E.
    destruct (run_all _ w) as [vs w1]. injection E as <- <-.
    pose proof (record_verdicts_spec (seq 0 (length (CGP.gates p))) vs) as [_ T _].
    replace (length (CGP.gates p) `max` 1) with (length (CGP.gates p)) by (rewrite Eg; simpl; lia).
    rewrite T. simpl. unfold total_tests.
    destruct (F64.ge _ threshold), (foldl merge_test_count None _); done.
  - unfold CGP.verify_fallback in E.
    set (primary := List.filter _ _) in *.
    pose proof (run_until_failure_spec (CGP.gates p) primary Steps.init w) as H1.
    destruct (CGP.run_until_failure _ primary _ _) as [[s1 w1] ok1].
    destruct H1 as (_ & -> & ->). destruct (all_passed _) eqn:Ha.
    { injection E as <- <-. split; [|done].
      apply (aggregate_fields (CGP.name p) s1 [] _ (length (CGP.gates p))). }
    set (s1' := Steps.mk _ _ _ _) in E.
    pose proof (run_until_failure_spec (CGP.gates p) fallback s1'
      (run_prefix (select (CGP.gates p) primary) w).2) as H2.
    destruct (CGP.run_until_failure _ fallback _ _) as [[s2 w2] ok2].
    destruct H2 as ([F _ _] & -> & _). injection E as <- <-. split; [|done].
    rewrite (proj1 (aggregate_fields (CGP.name p) s2 (Steps.failed_names s2) _ (length (CGP.gates p)))).
    rewrite F. simpl. apply eq_true_iff_eq. by rewrite bool_decide_eq_true, failing_names_nil.
Qed.
End Properties.

(** ** Where the modes pass without checking *)

#[local] Instance unit_clock : Clock unit := λ _, 0%N.

Definition fixed_gate (name : string) (passed : bool) : Gate unit :=
  Gate.mk name (λ w, (if passed then Verdict.pass name else Verdict.fail name "no", w)).

(** With an empty list of fallback gates a pipeline passes although its gate failed. *)
Lemma empty_fallback_passes :
  Verdict.passed (CGP.verify
    (CGP.mk [fixed_gate "compile" false] (GateComposition.Fallback []) "p") ()).1 = true.
Proof. vm_compute. reflexivity. Qed.

(** When every gate is a fallback gate none of them is run. *)
Lemma all_fallback_passes :
  Verdict.passed (CGP.verify
    (CGP.mk [fixed_gate "compile" false] (GateComposition.Fallback [0]) "p") ()).1 = true.
Proof. vm_compute. reflexivity. Qed.

(** Indices out of range are ignored: no gate runs and the pipeline passes. *)
Lemma parallel_out_of_range_passes :
  Verdict.passed (CGP.verify
    (CGP.mk [fixed_gate "compile" false] (GateComposition.Parallel [1]) "p") ()).1 = true.
Proof. vm_compute. reflexivity. Qed.

(** Exactly the threshold fraction is enough, not only more than it. *)
Lemma voting_threshold_inclusive :
  Verdict.passed (CGP.verify
    (CGP.mk [fixed_gate "a" true; fixed_gate "b" false] (GateComposition.Voting (F64.lit 1 2)) "p")
    ()).1 = true.
Proof. vm_compute. reflexivity. Qed.

Example short_circuit_example :
  let p := GatePipeline.mk [fixed_gate "compile" false; fixed_gate "test" true] true "p" in
  Verdict.reason (GatePipeline.verify p ()).1 = "inner gate failed: compile" ∧
  (run_prefix (GatePipeline.gates p) ()).1 = [Verdict.fail "compile" "no"].
Proof. vm_compute. done. Qed.

(** ** Complexity and rungs *)

Module PlanComplexity.
Inductive t : Type := Trivial | Simple | Standard | Complex.

#[global] Instance t_eq_dec : EqDecision t.
Proof. solve_decision. Defined.

Definition escalate (c : t) : t :=
  match c with
  | Trivial => Simple
  | Simple => Standard
  | Standard | Complex => Complex
  end.

(** [for _ in 0..n { c = c.escalate() }] *)
Definition escalate_by (n : N) (c : t) : t := N.iter n escalate c.

(** The derived order is that of the declaration. *)
Definition rank (c : t) : N :=
  match c with Trivial => 0 | Simple => 1 | Standard => 2 | Complex => 3 end.
End PlanComplexity.
Abbreviation PlanComplexity := PlanComplexity.t.

Module Rung.
Inductive t : Type :=
  | Compile | Lint | Test | Symbol | GeneratedTest | PropertyTest | Integration.

#[global] Instance t_eq_dec : EqDecision t.
Proof. solve_decision. Defined.

Definition as_index (r : t) : N :=
  match r with
  | Compile => 0 | Lint => 1 | Test => 2 | Symbol => 3
  | GeneratedTest => 4 | PropertyTest => 5 | Integration => 6
  end.

Definition from_index (index : N) : option t :=
  match index with
  | 0 => Some Compile | 1 => Some Lint | 2 => Some Test | 3 => Some Symbol
  | 4 => Some GeneratedTest | 5 => Some PropertyTest | 6 => Some Integration
  | _ => None
  end%N.

Definition label (r : t) : string :=
  match r with
  | Compile => "compile" | Lint => "lint" | Test => "test" | Symbol => "symbol"
  | GeneratedTest => "gen-test" | PropertyTest => "prop-test" | Integration => "integration"
  end.
End Rung.
Abbreviation Rung := Rung.t.

Definition CANONICAL_ORDER : list Rung :=
  [Rung.Compile; Rung.Lint; Rung.Test; Rung.Symbol; Rung.GeneratedTest; Rung.PropertyTest;
   Rung.Integration].

Module RungCaps.
Record t : Type := mk {
  has_lint_tool : bool;
  has_symbol_manifest : bool;
  has_generated_tests : bool;
  has_property_tests : bool;
  has_integration_scenario : bool;
}.

Definition default : t := mk false false false false false.
Definition all : t := mk true true true true true.

Definition allows (c : t) (rung : Rung) : bool :=
  match rung with
  | Rung.Compile | Rung.Test => true
  | Rung.Lint => has_lint_tool c
  | Rung.Symbol => has_symbol_manifest c
  | Rung.GeneratedTest => has_generated_tests c
  | Rung.PropertyTest => has_property_tests c
  | Rung.Integration => has_integration_scenario c
  end.
End RungCaps.
Abbreviation RungCaps := RungCaps.t.

(** ** Selection *)

Definition base_rungs (complexity : PlanComplexity) : list Rung :=
  match complexity with
  | PlanComplexity.Trivial => [Rung.Compile]
  | PlanComplexity.Simple => [Rung.Compile; Rung.Lint]
  | PlanComplexity.Standard => [Rung.Compile; Rung.Lint; Rung.Test; Rung.Symbol]
  | PlanComplexity.Complex =>
      [Rung.Compile; Rung.Lint; Rung.Test; Rung.Symbol; Rung.GeneratedTest;
       Rung.PropertyTest; Rung.Integration]
  end.

Definition select_rungs (complexity : PlanComplexity) (caps : RungCaps) (prior_failures : N) :
    list Rung :=
  let effective := PlanComplexity.escalate_by prior_failures complexity in
  List.filter (RungCaps.allows caps) (base_rungs effective).

Definition is_selected (complexity : PlanComplexity) (rung : Rung) : bool :=
  bool_decide (rung ∈ base_rungs complexity).

(** ** The ratchet *)

Module GateRatchet.
(** [passes] of the code: plan identifier to highest rung passed, a [u8]. *)
Abbreviation t := (gmap string N).

Definition new : t := ∅.
Definition record_pass (plan_id : string) (rung : N) (r : t) : t :=
  let entry := stdpp.option.default 0%N (r !! plan_id) in
  <[plan_id := if (entry <? rung)%N then rung else entry]> r.
Definition highest_pass (plan_id : string) (r : t) : option N := r !! plan_id.
Definition can_regress (plan_id : string) (rung : N) (r : t) : bool :=
  match r !! plan_id with
  | None => true
  | Some highest => (highest <=? rung)%N
  end.
Definition plan_count (r : t) : nat := size r.
Definition clear (r : t) : t := ∅.
End GateRatchet.
Abbreviation GateRatchet := GateRatchet.t.

(** ** Selection lemmas *)

Lemma escalate_by_rank n c :
  PlanComplexity.rank (PlanComplexity.escalate_by n c) = N.min 3 (PlanComplexity.rank c + n).
Proof.
  unfold PlanComplexity.escalate_by.
  induction n as [|n IH] using N.peano_ind; [by destruct c|].
  rewrite N.iter_succ.
  assert (∀ c', PlanComplexity.rank (PlanComplexity.escalate c') =
                N.min 3 (PlanComplexity.rank c' + 1)) as -> by (by intros []).
  rewrite IH. lia.
Qed.

Lemma rank_inj c1 c2 : PlanComplexity.rank c1 = PlanComplexity.rank c2 → c1 = c2.
Proof. by destruct c1, c2. Qed.

(** The rungs of a band are those up to its last one. *)
Definition last_index (rank : N) : N :=
  match rank with 0 => 0 | 1 => 1 | 2 => 3 | _ => 6 end%N.

Lemma base_rungs_prefix c :
  base_rungs c =
  List.filter (λ r, (Rung.as_index r <=? last_index (PlanComplexity.rank c))%N) CANONICAL_ORDER.
Proof. by destruct c. Qed.

Lemma canonical_order_all r : r ∈ CANONICAL_ORDER.
Proof. apply (bool_decide_unpack _). by destruct r. Qed.

Lemma select_rungs_eq c caps n :
  select_rungs c caps n =
  List.filter (λ r, (Rung.as_index r <=? last_index (N.min 3 (PlanComplexity.rank c + n)))%N
                    && RungCaps.allows caps r) CANONICAL_ORDER.
Proof.
  unfold select_rungs. rewrite base_rungs_prefix, escalate_by_rank.
  induction CANONICAL_ORDER as [|r l IH]; [done|]. simpl.
  destruct (Rung.as_index r <=? _)%N; simpl; [|exact IH].
  destruct (RungCaps.allows caps r); [by f_equal|exact IH].
Qed.

Lemma last_index_mono a b : (a ≤ b → last_index a ≤ last_index b)%N.
Proof.
  unfold last_index. destruct a as [|[[]|[]|]], b as [|[[]|[]|]]; lia.
Qed.

Lemma filter_sublist_impl {A} (f g : A → bool) l :
  (∀ x, f x = true → g x = true) → List.filter f l `sublist_of` List.filter g l.
Proof.
  intros Hfg. induction l as [|x l IH]; simpl; [done|].
  destruct (f x) eqn:E; [rewrite (Hfg x E); by constructor|].
  destruct (g x); [by constructor|done].
Qed.

Lemma StronglySorted_List_filter {A} (R : A → A → Prop) (f : A → bool) l :
  StronglySorted R l → StronglySorted R (List.filter f l).
Proof.
  induction 1 as [|x l _ IH Hx]; simpl; [constructor|].
  destruct (f x); [|done]. constructor; [done|].
  rewrite Forall_forall in *. intros y Hy. apply Hx.
  rewrite list_elem_of_In, filter_In, <-list_elem_of_In in Hy. apply Hy.
Qed.

(** Indices and rungs are in bijection; only 0 to 6 name a rung. *)
Lemma from_index_iff i r : Rung.from_index i = Some r ↔ Rung.as_index r = i.
Proof.
  split.
  - destruct i as [|p]; [by intros [= <-]|].
    do 3 (try destruct p as [p|p|]); simpl; try discriminate; by intros [= <-].
  - intros <-. by destruct r.
Qed.

Lemma is_selected_monotone c1 c2 r :
  (PlanComplexity.rank c1 ≤ PlanComplexity.rank c2)%N →
  is_selected c1 r = true → is_selected c2 r = true.
Proof. by destruct c1, c2, r; vm_compute. Qed.

(** The rungs a plan runs are exactly the available ones of its complexity band, which
    each earlier failure raises by one up to the highest; they come in canonical order.
    Compiling is always among them; missing tools only remove rungs, failures only add. *)
Theorem select_rungs_spec c caps n :
  let rungs := select_rungs c caps n in
  (∀ r, r ∈ rungs ↔
    (Rung.as_index r ≤ last_index (N.min 3 (PlanComplexity.rank c + n)))%N ∧
    RungCaps.allows caps r = true) ∧
  StronglySorted (λ a b, Rung.as_index a < Rung.as_index b)%N rungs ∧
  Rung.Compile ∈ rungs ∧
  (∀ caps', (∀ r, RungCaps.allows caps r = true → RungCaps.allows caps' r = true) →
     rungs `sublist_of` select_rungs c caps' n) ∧
  (∀ m, (n ≤ m)%N → rungs `sublist_of` select_rungs c caps m).
Proof.
  cbv zeta. assert (∀ r, r ∈ select_rungs c caps n ↔
    (Rung.as_index r ≤ last_index (N.min 3 (PlanComplexity.rank c + n)))%N ∧
    RungCaps.allows caps r = true) as Hin.
  { intros r. rewrite select_rungs_eq, list_elem_of_In, filter_In, <-list_elem_of_In.
    rewrite andb_true_iff, N.leb_le. pose proof (canonical_order_all r). tauto. }
  split_and!.
  - exact Hin.
  - rewrite select_rungs_eq. apply StronglySorted_List_filter. repeat constructor.
  - apply Hin. split; [simpl; lia|done].
  - intros caps' Hcaps. rewrite !select_rungs_eq. apply filter_sublist_impl. intros r.
    rewrite !andb_true_iff. intros [? ?]. auto.
  - intros m Hm. rewrite !select_rungs_eq. apply filter_sublist_impl. intros r.
    rewrite !andb_true_iff, !N.leb_le. intros [Hr ?]. split; [|done].
    etrans; [exact Hr|]. apply last_index_mono. lia.
Qed.

(** ** The ratchet keeps the maximum *)

(** The calls that change a ratchet. *)
Inductive ratchet_call : Type :=
  | RecordPass (plan_id : string) (rung : N)
  | Clear.

Definition ratchet_step (r : GateRatchet) (c : ratchet_call) : GateRatchet :=
  match c with
  | RecordPass plan_id rung => GateRatchet.record_pass plan_id rung r
  | Clear => GateRatchet.clear r
  end.

(** The rungs recorded for a plan since the last [Clear], the last one first. *)
Definition recorded_step (plan_id : string) (l : list N) (c : ratchet_call) : list N :=
  match c with
  | RecordPass p rung => if decide (p = plan_id) then rung :: l else l
  | Clear => []
  end.

Definition max_rung (l : list N) : option N :=
  match l with [] => None | x :: l => Some (foldr N.max x l) end.

Lemma foldr_max_cons a b l : N.max a (foldr N.max b l) = foldr N.max a (b :: l).
Proof. simpl. induction l as [|c l IH]; simpl in *; lia. Qed.

Lemma ratchet_is_max calls plan_id :
  foldl ratchet_step GateRatchet.new calls !! plan_id =
  max_rung (foldl (recorded_step plan_id) [] calls).
Proof.
  induction calls as [|c calls IH] using rev_ind; [apply lookup_empty|].
  rewrite !foldl_app. simpl. destruct c as [p rung|]; simpl; [|apply lookup_empty].
  unfold GateRatchet.record_pass.
  destruct (decide (p = plan_id)) as [->|Hne];
    [rewrite lookup_insert_eq|by rewrite lookup_insert_ne].
  rewrite IH. destruct (foldl _ [] calls) as [|x l]; unfold max_rung; f_equal; cbn [default from_option].
  - simpl. destruct rung; done.
  - rewrite <-foldr_max_cons. simpl. destruct (N.ltb_spec (foldr N.max x l) rung); lia.
Qed.

Lemma max_rung_le l rung :
  match max_rung l with None => true | Some highest => (highest <=? rung)%N end = true ↔
  Forall (λ p, p ≤ rung)%N l.
Proof.
  destruct l as [|x l]; simpl; [by split|]. rewrite N.leb_le, Forall_cons.
  induction l as [|y l IH]; simpl; [by rewrite Forall_nil; intuition|].
  rewrite Forall_cons, N.max_lub_iff, IH. tauto.
Qed.

(** After any sequence of passes and resets the ratchet knows, for each plan, the highest
    rung passed since the last reset, and nothing of a plan that passed none; a rung is
    refused exactly when a higher one was passed, and recording a pass refuses exactly the
    lower rungs from then on. *)
Theorem ratchet_never_slips calls plan_id rung :
  let r := foldl ratchet_step GateRatchet.new calls in
  let passed := foldl (recorded_step plan_id) [] calls in
  GateRatchet.highest_pass plan_id r = max_rung passed ∧
  (GateRatchet.can_regress plan_id rung r = true ↔ Forall (λ p, p ≤ rung)%N passed) ∧
  (∀ rung' : N, GateRatchet.can_regress plan_id rung' (GateRatchet.record_pass plan_id rung r) = true ↔
     (rung ≤ rung')%N ∧ GateRatchet.can_regress plan_id rung' r = true).
Proof.
  cbv zeta. pose proof (ratchet_is_max calls plan_id) as H.
  set (r := foldl _ _ calls) in *. set (passed := foldl _ _ calls) in *.
  split_and!; [done| |].
  - unfold GateRatchet.can_regress. rewrite H. by apply max_rung_le.
  - intros rung'. unfold GateRatchet.can_regress, GateRatchet.record_pass.
    rewrite lookup_insert_eq. destruct (r !! plan_id) as [h|]; simpl;
      case_match; rewrite ?N.leb_le, ?N.ltb_lt, ?N.ltb_ge in *; (split; [|intros [? ?]]); try lia;
      intros; split; done || lia.
Qed.

Example ratchet_example :
  let r := foldl ratchet_step GateRatchet.new [RecordPass "p" 3; RecordPass "p" 1; RecordPass "q" 0] in
  GateRatchet.highest_pass "p" r = Some 3%N ∧ GateRatchet.highest_pass "q" r = Some 0%N ∧
  GateRatchet.can_regress "p" 2 r = false ∧ GateRatchet.plan_count r = 2.
Proof. vm_compute. done. Qed.
