(* ===== verification/Combinators.v ===== *)
(** * Gate combinators (crates/roko-gate/src/composition.rs)

    Gates made of gates: all of them with the lowest score, a vote with the mean score of
    the passing ones, and a primary gate with a fallback.  Unlike the pipelines of Gates.v
    they are meant to be nested, and their scores count. *)

From Stdlib Require Import SpecFloat.
From S2P Require Import Prelude PlanState Gates.

(** [format!] of one inner verdict in the detail of a combinator. *)
Definition score_line (i : nat) (v : Verdict) : string :=
  let status := if Verdict.passed v then "pass" else "fail" in
  "  " +:+ fmt_nat (i + 1) +:+ ". [" +:+ status +:+ "] " +:+ Verdict.gate v +:+ " (score=" +:+
  fmt_fixed 2 (Verdict.score v) +:+ ")".

Definition newline : string := String "010" "".

Definition score_lines (vs : list Verdict) : string := str_join newline (imap score_line vs).

(** [for gate in &self.gates { verdicts.push(gate.verify(..).await) }] *)
Fixpoint verify_each {W} (gates : list (Gate W)) (w : W) : list Verdict * W :=
  match gates with
  | [] => ([], w)
  | gate :: rest =>
      let '(v, w) := Gate.verify gate w in
      let '(vs, w) := verify_each rest w in
      (v :: vs, w)
  end.

Module ParallelGate.
Record t (W : Type) : Type := mk { gates : list (Gate W); name : string }.
Arguments mk {W} _ _.
Arguments gates {W} _.
Arguments name {W} _.

Section Ops.
Context {W : Type} `{!Clock W}.

Definition new (name : string) : t W := mk [] name.
Definition push (gate : Gate W) (p : t W) : t W := mk (gates p ++ [gate]) (name p).
Definition with_gate (gate : Gate W) (p : t W) : t W := push gate p.
Definition len (p : t W) : nat := length (gates p).
Definition is_empty (p : t W) : bool := bool_decide (gates p = []).

Definition min_score (vs : list Verdict) : F32.t :=
  foldl F32.min F32.infinity (Verdict.score <$> vs).

Definition verify (p : t W) (w : W) : Verdict * W :=
  match gates p with
  | [] =>
      (Verdict.with_duration (elapsed_ms w w)
         (Verdict.with_detail "ParallelGate: no inner gates" (Verdict.pass (name p))), w)
  | _ =>
      let '(verdicts, w') := verify_each (gates p) w in
      let min_score := min_score verdicts in
      let failed := Verdict.gate <$> List.filter (λ v, negb (Verdict.passed v)) verdicts in
      let detail := score_lines verdicts in
      let elapsed := elapsed_ms w w' in
      let total := length verdicts in
      (match failed with
       | [] =>
           Verdict.with_duration elapsed
             (Verdict.with_detail
                ("ParallelGate: " +:+ fmt_nat total +:+ "/" +:+ fmt_nat total +:+ " passed" +:+
                 newline +:+ detail)
                (Verdict.with_score min_score (Verdict.pass (name p))))
       | _ =>
           let reason :=
             fmt_nat (length failed) +:+ " of " +:+ fmt_nat total +:+ " gates failed: " +:+
             str_join ", " failed in
           Verdict.with_duration elapsed
             (Verdict.with_detail
                ("ParallelGate: " +:+ fmt_nat (total - length failed) +:+ "/" +:+
                 fmt_nat total +:+ " passed" +:+ newline +:+ detail)
                (Verdict.with_score min_score (Verdict.fail (name p) reason)))
       end, w')
  end.

Definition as_gate (p : t W) : Gate W := Gate.mk (name p) (verify p).
End Ops.
End ParallelGate.
Abbreviation ParallelGate := ParallelGate.t.

Module VotingGate.
Record t (W : Type) : Type := mk { gates : list (Gate W); required_passes : nat; name : string }.
Arguments mk {W} _ _ _.
Arguments gates {W} _.
Arguments required_passes {W} _.
Arguments name {W} _.

Section Ops.
Context {W : Type} `{!Clock W}.

Definition new (name : string) (required_passes : nat) : t W :=
  mk [] (required_passes `max` 1) name.
Definition push (gate : Gate W) (p : t W) : t W :=
  mk (gates p ++ [gate]) (required_passes p) (name p).
Definition with_gate (gate : Gate W) (p : t W) : t W := push gate p.
Definition len (p : t W) : nat := length (gates p).
Definition is_empty (p : t W) : bool := bool_decide (gates p = []).

(** [iter().sum::<f32>() / len as f32]; a sum of floats starts from -0. *)
Definition mean_score (scores : list F32.t) : F32.t :=
  match scores with
  | [] => F32.zero
  | _ => F32.div (foldl F32.add (S754_zero true) scores)
           (F32.of_Z (Z.of_nat (length scores)))
  end.

Definition verify (p : t W) (w : W) : Verdict * W :=
  match gates p with
  | [] =>
      (Verdict.with_duration (elapsed_ms w w)
         (Verdict.with_detail "VotingGate: no inner gates" (Verdict.pass (name p))), w)
  | _ =>
      let '(verdicts, w') := verify_each (gates p) w in
      let pass_count := length (List.filter Verdict.passed verdicts) in
      let passing_scores := Verdict.score <$> List.filter Verdict.passed verdicts in
      let mean_passing_score := mean_score passing_scores in
      let elapsed := elapsed_ms w w' in
      let total := fmt_nat (length (gates p)) in
      let required := fmt_nat (required_passes p) in
      let detail :=
        "VotingGate: " +:+ fmt_nat pass_count +:+ "/" +:+ total +:+ " passed (required " +:+
        required +:+ ")" +:+ newline +:+ score_lines verdicts in
      let overall_passed := required_passes p <=? pass_count in
      let verdict :=
        if overall_passed then Verdict.pass (name p)
        else Verdict.fail (name p)
               ("voting failed: " +:+ fmt_nat pass_count +:+ "/" +:+ total +:+
                " passed, required " +:+ required) in
      (Verdict.with_duration elapsed
         (Verdict.with_detail detail (Verdict.with_score mean_passing_score verdict)), w')
  end.

Definition as_gate (p : t W) : Gate W := Gate.mk (name p) (verify p).
End Ops.
End VotingGate.
Abbreviation VotingGate := VotingGate.t.

Module FallbackGate.
Record t (W : Type) : Type := mk { primary : Gate W; fallback : Gate W; name : string }.
Arguments mk {W} _ _ _.
Arguments primary {W} _.
Arguments fallback {W} _.
Arguments name {W} _.

Section Ops.
Context {W : Type} `{!Clock W}.

Definition new (name : string) (primary fallback : Gate W) : t W := mk primary fallback name.

Definition verify (p : t W) (w : W) : Verdict * W :=
  let '(primary_verdict, w1) := Gate.verify (primary p) w in
  if Verdict.passed primary_verdict
  then (Verdict.with_duration (elapsed_ms w w1) primary_verdict, w1)
  else
    let '(fallback_verdict, w2) := Gate.verify (fallback p) w1 in
    let elapsed := elapsed_ms w w2 in
    if Verdict.passed fallback_verdict then
      (Verdict.with_duration elapsed
         (Verdict.with_detail
            ("FallbackGate '" +:+ name p +:+ "': primary '" +:+ Gate.name (primary p) +:+
             "' failed, fallback '" +:+ Gate.name (fallback p) +:+ "' passed" +:+ newline +:+
             "Primary reason: " +:+ Verdict.reason primary_verdict) fallback_verdict), w2)
    else
      (Verdict.with_duration elapsed
         (Verdict.with_detail
            ("FallbackGate '" +:+ name p +:+ "': both gates failed" +:+ newline +:+
             "  Primary (" +:+ Gate.name (primary p) +:+ "): " +:+
             Verdict.reason primary_verdict +:+ newline +:+
             "  Fallback (" +:+ Gate.name (fallback p) +:+ "): " +:+
             Verdict.reason fallback_verdict)
            (Verdict.with_score
               (F32.min (Verdict.score fallback_verdict) (Verdict.score primary_verdict))
               (Verdict.fail (name p)
                  ("both primary '" +:+ Gate.name (primary p) +:+ "' and fallback '" +:+
                   Gate.name (fallback p) +:+ "' failed")))), w2).

Definition as_gate (p : t W) : Gate W := Gate.mk (name p) (verify p).
End Ops.
End FallbackGate.
Abbreviation FallbackGate := FallbackGate.t.

(** ** Order on scores *)

(** A score in the closed unit interval, as every verdict built in the crate has. *)
Definition unit_score (f : F32.t) : bool :=
  negb (F32.is_nan f) && negb (F32.lt f F32.zero) && negb (F32.lt (F32.of_Z 1) f).

Lemma min_cases a b :
  F32.is_nan a = false → F32.is_nan b = false →
  (F32.min a b = a ∧ sf_le a b) ∨ (F32.min a b = b ∧ sf_le b a).
Proof.
  intros Ha Hb. unfold F32.min, F64.min. change F64.is_nan with F32.is_nan.
  change F64.lt with F32.lt. rewrite Ha, Hb.
  destruct (F32.lt b a) eqn:E; [right; split; [done|by apply sf_lt_le]|by left].
Qed.

(** The fold of [min] is the lowest of the scores and of the start. *)
Lemma fold_min scores a :
  F32.is_nan a = false → Forall (λ s, F32.is_nan s = false) scores →
  let m := foldl F32.min a scores in
  (m = a ∨ m ∈ scores) ∧ sf_le m a ∧ Forall (sf_le m) scores.
Proof.
  intros Ha Hs. revert a Ha. induction Hs as [|s scores Hs _ IH]; intros a Ha; simpl.
  { split_and!; [by left|apply sf_le_refl|constructor]. }
  assert (F32.is_nan (F32.min a s) = false) as Hm
    by (destruct (min_cases a s Ha Hs) as [[-> _]|[-> _]]; done).
  destruct (IH _ Hm) as (H1 & H2 & H3). split_and!.
  - destruct H1 as [->|H1]; [|right; by right].
    destruct (min_cases a s Ha Hs) as [[-> _]|[-> _]]; [by left|right; by left].
  - destruct (min_cases a s Ha Hs) as [[E _]|[E Hle]]; rewrite E in *; [done|].
    by eapply sf_le_trans; [| |exact Hle].
  - constructor; [|done].
    destruct (min_cases a s Ha Hs) as [[E Hle]|[E _]]; rewrite E in *; [|done].
    by eapply sf_le_trans; [| |exact Hle].
Qed.

Lemma clamp_unit f : unit_score f = true → F32.clamp F32.zero (F32.of_Z 1) f = f.
Proof.
  unfold unit_score, F32.clamp, F64.clamp.
  change (F64.lt f) with (F32.lt f). change (F64.gt f) with (λ hi, F32.lt hi f). cbv beta.
  by destruct (F32.is_nan f), (F32.lt f F32.zero), (F32.lt (F32.of_Z 1) f).
Qed.

Section Facts.
Context {W : Type} `{!Clock W}.
Implicit Types (w : W).

Lemma verify_each_run_all (gates : list (Gate W)) w : verify_each gates w = run_all gates w.
Proof.
  revert w. induction gates as [|g gates IH]; intros w; simpl; [done|].
  destruct (Gate.verify g w) as [v w1]. by rewrite IH.
Qed.

Lemma min_score_spec vs :
  Forall (λ v, unit_score (Verdict.score v) = true) vs → vs ≠ [] →
  let m := F32.clamp F32.zero (F32.of_Z 1) (ParallelGate.min_score vs) in
  m ∈ Verdict.score <$> vs ∧ Forall (λ v, sf_le m (Verdict.score v)) vs.
Proof.
  intros Hs Hne. unfold ParallelGate.min_score.
  destruct vs as [|v vs]; [done|]. clear Hne.
  assert (Forall (λ s, F32.is_nan s = false) (Verdict.score <$> v :: vs)) as Hnan.
  { apply Forall_fmap. eapply Forall_impl; [exact Hs|]. intros v'. unfold compose, unit_score.
    by destruct (F32.is_nan _). }
  destruct (fold_min (Verdict.score <$> v :: vs) F32.infinity eq_refl Hnan) as (Hin & _ & Hle).
  set (m := foldl _ _ _) in *.
  assert (m ∈ Verdict.score <$> v :: vs) as Hin'.
  { destruct Hin as [E|]; [|done]. exfalso. rewrite E in Hle.
    apply Forall_cons in Hs as [Hv _]. apply Forall_cons in Hle as [Hle _].
    destruct (Verdict.score v) as [[]|[]| |[] ? ?]; first [discriminate Hle|discriminate Hv]. }
  assert (unit_score m = true) as Hm.
  { apply list_elem_of_fmap in Hin' as (v' & -> & Hv'). rewrite Forall_forall in Hs. by apply Hs. }
  rewrite clamp_unit by done. split; [exact Hin'|].
  exact (proj1 (Forall_fmap Verdict.score (sf_le m) (v :: vs)) Hle).
Qed.
Lemma parallel_verify (p : ParallelGate W) w :
  let ran := run_all (ParallelGate.gates p) w in
  let '(v, w') := ParallelGate.verify p w in
  w' = ran.2 ∧ Verdict.passed v = all_passed ran.1 ∧ Verdict.gate v = ParallelGate.name p ∧
  (Forall (λ v, unit_score (Verdict.score v) = true) ran.1 → ran.1 ≠ [] →
   Verdict.score v ∈ Verdict.score <$> ran.1 ∧
   Forall (λ i, sf_le (Verdict.score v) (Verdict.score i)) ran.1).
Proof.
  cbv zeta. unfold ParallelGate.verify.
  destruct (ParallelGate.gates p) as [|g gs] eqn:Eg; [done|]. rewrite <-Eg. clear Eg.
  rewrite verify_each_run_all. destruct (run_all _ w) as [vs w']. cbn [fst snd].
  pose proof (failing_names_nil vs) as Hn. fold (failing_names vs).
  pose proof (min_score_spec vs) as Hm.
  destruct (failing_names vs) as [|n ns]; (split_and!; [done| |done|exact Hm]).
  - symmetry. by apply Hn.
  - destruct (all_passed vs); [discriminate (proj2 Hn eq_refl)|done].
Qed.

Lemma voting_verify (p : VotingGate W) w :
  let ran := run_all (VotingGate.gates p) w in
  let '(v, w') := VotingGate.verify p w in
  w' = ran.2 ∧ Verdict.gate v = VotingGate.name p ∧
  Verdict.passed v =
    (bool_decide (VotingGate.gates p = []) ||
     (VotingGate.required_passes p <=? length (List.filter Verdict.passed ran.1))).
Proof.
  cbv zeta. unfold VotingGate.verify.
  destruct (VotingGate.gates p) as [|g gs] eqn:Eg; [done|].
  rewrite (bool_decide_eq_false_2 (g :: gs = [])) by done. rewrite <-Eg. clear Eg.
  rewrite verify_each_run_all. destruct (run_all _ w) as [vs w']. cbn [fst snd orb].
  by destruct (_ <=? _).
Qed.

Lemma fallback_verify (p : FallbackGate W) w :
  let '(v1, w1) := Gate.verify (FallbackGate.primary p) w in
  let '(v2, w2) := Gate.verify (FallbackGate.fallback p) w1 in
  let '(v, w') := FallbackGate.verify p w in
  w' = (if Verdict.passed v1 then w1 else w2) ∧
  Verdict.passed v = Verdict.passed v1 || Verdict.passed v2 ∧
  (Verdict.passed v = true → Verdict.score v =
     if Verdict.passed v1 then Verdict.score v1 else Verdict.score v2).
Proof.
  unfold FallbackGate.verify.
  destruct (Gate.verify (FallbackGate.primary p) w) as [v1 w1].
  destruct (Gate.verify (FallbackGate.fallback p) w1) as [v2 w2] eqn:E2.
  destruct (Verdict.passed v1) eqn:E1; simpl; [by rewrite ?E1|].
  destruct (Verdict.passed v2) eqn:E3; simpl; by rewrite ?E3.
Qed.

(** A vote that needs every gate is a parallel gate, and more votes than gates never pass. *)
Lemma all_votes_parallel gates name1 name2 w :
  gates ≠ [] →
  Verdict.passed (VotingGate.verify (VotingGate.mk gates (length gates) name1) w).1 =
  Verdict.passed (ParallelGate.verify (ParallelGate.mk gates name2) w).1.
Proof.
  intros Hne. pose proof (voting_verify (VotingGate.mk gates (length gates) name1) w) as Hv.
  pose proof (parallel_verify (ParallelGate.mk gates name2) w) as Hp. cbv zeta in *.
  destruct (VotingGate.verify _ w) as [v w1], (ParallelGate.verify _ w) as [v' w2].
  simpl in *. destruct Hv as (_ & _ & ->), Hp as (_ & -> & _).
  rewrite bool_decide_eq_false_2 by done. simpl.
  assert (length (run_all gates w).1 = length gates) as <-.
  { revert w. clear. induction gates as [|g gs IH]; intros w; simpl; [done|].
    destruct (Gate.verify g w) as [v w']. specialize (IH w').
    destruct (run_all gs w'). simpl in *. by rewrite IH. }
  unfold all_passed. induction (run_all gates w).1 as [|v0 vs IH]; simpl; [done|].
  pose proof (List.filter_length_le Verdict.passed vs).
  destruct (Verdict.passed v0); simpl; [exact IH|].
  destruct (length (List.filter _ _)); [done|]. apply Nat.leb_gt. lia.
Qed.

End Facts.

(** With no gate a voting gate passes whatever it requires. *)
Lemma empty_vote_passes :
  Verdict.passed (VotingGate.verify (W:=unit) (Clock0:=λ _, 0%N) (VotingGate.new "v" 2) ()).1 =
  true.
Proof. vm_compute. reflexivity. Qed.

(** ** The properties *)

Section Properties.
Context {W : Type} `{!Clock W}.
Implicit Types (w : W).

(** What the combinators decide.  A parallel gate runs every gate once, in order, and
    passes exactly when all of them do; its score is then the lowest of theirs.  A voting
    gate runs every gate and passes exactly when enough of them do, and without any gate
    always.  A fallback gate runs the fallback only after a failure of the primary, in the
    world the primary left, and passes exactly when one of the two does. *)
Theorem combinators_decide (par : ParallelGate W) (vote : VotingGate W) (fb : FallbackGate W) w :
  (let ran := run_all (ParallelGate.gates par) w in
   let '(v, w') := ParallelGate.verify par w in
   w' = ran.2 ∧ Verdict.passed v = all_passed ran.1 ∧ Verdict.gate v = ParallelGate.name par ∧
   (Forall (λ v, unit_score (Verdict.score v) = true) ran.1 → ran.1 ≠ [] →
    Verdict.score v ∈ Verdict.score <$> ran.1 ∧
    Forall (λ i, sf_le (Verdict.score v) (Verdict.score i)) ran.1)) ∧
  (let ran := run_all (VotingGate.gates vote) w in
   let '(v, w') := VotingGate.verify vote w in
   w' = ran.2 ∧ Verdict.gate v = VotingGate.name vote ∧
   Verdict.passed v =
     (bool_decide (VotingGate.gates vote = []) ||
      (VotingGate.required_passes vote <=? length (List.filter Verdict.passed ran.1)))) ∧
  (let '(v1, w1) := Gate.verify (FallbackGate.primary fb) w in
   let '(v2, w2) := Gate.verify (FallbackGate.fallback fb) w1 in
   let '(v, w') := FallbackGate.verify fb w in
   w' = (if Verdict.passed v1 then w1 else w2) ∧
   Verdict.passed v = Verdict.passed v1 || Verdict.passed v2 ∧
   (Verdict.passed v = true → Verdict.score v =
      if Verdict.passed v1 then Verdict.score v1 else Verdict.score v2)).
Proof.
  split_and!.
  - apply parallel_verify.
  - apply voting_verify.
  - apply fallback_verify.
Qed.
End Properties.
