(* ===== verification/Dag.v ===== *)
(** * The unified task DAG (crates/roko-orchestrator/src/dag.rs)

    The graph over the tasks of every plan: its construction from task and plan
    dependencies and from shared files, and its topological sort.  A
    [HashMap<GlobalTaskId, V>] is a finite map, a [BTreeSet<GlobalTaskId>] a finite
    set iterated in order.  The theorems show that the indexes hold exactly the
    declared dependencies, that the sort succeeds exactly on acyclic graphs, and
    what its order guarantees. *)

From stdpp Require Import relations.
From S2P Require Import Prelude Task Ordered CycleDetect.

(** ** Data *)

Module DagConfig.
Record t : Type := mk { infer_file_overlap : bool; max_wave_width : nat }.
Definition default : t := mk true 0.
End DagConfig.
Abbreviation DagConfig := DagConfig.t.

Module DagError.
Inductive t : Type :=
  | Cycle (involving : list GlobalTaskId)
  | DanglingDepRef (referrer : GlobalTaskId) (target : string)
  | UnknownPlan (plan : string).
End DagError.
Abbreviation DagError := DagError.t.

(** Sets of ids indexed by ids: the dependencies or the dependents of each task. *)
Abbreviation id_graph := (gmap GlobalTaskId (gset GlobalTaskId)).

(** [resolve_dep_ref]: a reference is [plan:task], or a task of the same plan. *)
Definition resolve_dep_ref (referrer_plan raw : string) : GlobalTaskId :=
  default (GlobalTaskId.new referrer_plan raw) (GlobalTaskId.parse raw).

(** [edges.entry(id).or_default().insert(dep)] *)
Definition edge_insert (id dep : GlobalTaskId) (edges : id_graph) : id_graph :=
  <[id := {[dep]} ∪ default ∅ (edges !! id)]> edges.

(** [BTreeSet::new()] for every node. *)
Definition empty_edges (nodes : list GlobalTaskId) : id_graph :=
  foldl (λ m node, <[node := ∅]> m) ∅ nodes.

Module UnifiedTaskDag.
Record t : Type := mk {
  tasks : gmap GlobalTaskId Task;
  plan_deps : gmap string (gset string);
  edges : id_graph;
  reverse_edges : id_graph;
  nodes : list GlobalTaskId;
  estimates : gmap GlobalTaskId N;
  config : DagConfig;
}.

Definition set_tasks (m : gmap GlobalTaskId Task) (d : t) : t :=
  mk m (plan_deps d) (edges d) (reverse_edges d) (nodes d) (estimates d) (config d).
Definition set_indexes (e r : id_graph) (ns : list GlobalTaskId) (es : gmap GlobalTaskId N)
    (d : t) : t :=
  mk (tasks d) (plan_deps d) e r ns es (config d).

Definition deps_of (d : t) (id : GlobalTaskId) : gset GlobalTaskId :=
  default ∅ (edges d !! id).
Definition dependents_of (d : t) (id : GlobalTaskId) : gset GlobalTaskId :=
  default ∅ (reverse_edges d !! id).
Definition task (d : t) (id : GlobalTaskId) : option Task := tasks d !! id.

(** ** Rebuilding the indexes *)

Section Rebuild.
Context {HI : HashIter}.

Definition tasks_for_plan (tasks : gmap GlobalTaskId Task) (plan : string) :
    option (list GlobalTaskId) :=
  match List.filter (λ id, string_eqb (GlobalTaskId.plan id) plan) (hash_keys tasks) with
  | [] => None
  | ids => Some (sort_ids ids)
  end.

(** The references of one task. *)
Fixpoint dep_refs_loop (node_set : gset GlobalTaskId) (id : GlobalTaskId) (raws : list string)
    (edges : id_graph) : id_graph * result unit DagError :=
  match raws with
  | [] => (edges, Ok tt)
  | raw :: raws' =>
      let dep_id := resolve_dep_ref (GlobalTaskId.plan id) raw in
      if decide (dep_id ∈ node_set)
      then dep_refs_loop node_set id raws' (edge_insert id dep_id edges)
      else (edges, Err (DagError.DanglingDepRef id raw))
  end.

(** The loop over the tasks: estimates and declared dependencies. *)
Fixpoint tasks_loop (node_set : gset GlobalTaskId) (l : list (GlobalTaskId * Task))
    (edges : id_graph) (estimates : gmap GlobalTaskId N) :
    id_graph * gmap GlobalTaskId N * result unit DagError :=
  match l with
  | [] => (edges, estimates, Ok tt)
  | (id, task) :: l' =>
      let estimates := <[id := default 0%N (Task.estimated_minutes task)]> estimates in
      match dep_refs_loop node_set id (Task.depends_on task) edges with
      | (edges, Ok _) => tasks_loop node_set l' edges estimates
      | (edges, Err e) => (edges, estimates, Err e)
      end
  end.

(** Every task of a plan depends on every task of [dep_plan]. *)
Definition plan_edges (plan_tasks dep_tasks : list GlobalTaskId) (edges : id_graph) : id_graph :=
  foldl (λ edges id, foldl (λ edges dep_id, edge_insert id dep_id edges) edges dep_tasks)
    edges plan_tasks.

Fixpoint dep_plans_loop (tasks : gmap GlobalTaskId Task) (plan_tasks : list GlobalTaskId)
    (deps : list string) (edges : id_graph) : id_graph * result unit DagError :=
  match deps with
  | [] => (edges, Ok tt)
  | dep_plan :: deps' =>
      match tasks_for_plan tasks dep_plan with
      | None => (edges, Err (DagError.UnknownPlan dep_plan))
      | Some dep_tasks =>
          dep_plans_loop tasks plan_tasks deps' (plan_edges plan_tasks dep_tasks edges)
      end
  end.

Fixpoint plan_deps_loop (tasks : gmap GlobalTaskId Task) (l : list (string * gset string))
    (edges : id_graph) : id_graph * result unit DagError :=
  match l with
  | [] => (edges, Ok tt)
  | (plan, deps) :: l' =>
      match tasks_for_plan tasks plan with
      | None => (edges, Err (DagError.UnknownPlan plan))
      | Some plan_tasks =>
          match dep_plans_loop tasks plan_tasks (hash_set_iter deps) edges with
          | (edges, Ok _) => plan_deps_loop tasks l' edges
          | (edges, Err e) => (edges, Err e)
          end
      end
  end.

(** [by_file]: the tasks that touch each file. *)
Definition by_file (tasks : gmap GlobalTaskId Task) : gmap string (gset GlobalTaskId) :=
  foldl (λ m p,
    foldl (λ m file, <[file := {[p.1]} ∪ default ∅ (m !! file)]> m) m (Task.files p.2))
    ∅ (hash_iter tasks).

(** The double loop over the ordered tasks of one file: [before] holds the
    elements at the indexes [0..i]. *)
Fixpoint overlap_loop (before ordered : list GlobalTaskId) (edges : id_graph) : id_graph :=
  match ordered with
  | [] => edges
  | x :: ordered' =>
      overlap_loop (before ++ [x]) ordered'
        (foldl (λ edges y, if decide (x ≠ y) then edge_insert x y edges else edges)
           edges before)
  end.

Definition file_overlap_edges (tasks : gmap GlobalTaskId Task) (edges : id_graph) : id_graph :=
  foldl (λ edges ids, overlap_loop [] (set_iter ids) edges) edges (hash_values (by_file tasks)).

(** The transposed graph. *)
Definition transpose (nodes : list GlobalTaskId) (edges : id_graph) : id_graph :=
  foldl (λ rev p, foldl (λ rev dep, edge_insert dep p.1 rev) rev (set_iter p.2))
    (empty_edges nodes) (hash_iter edges).

(** On an error the indexes are left as far as they were built. *)
Definition rebuild_indexes (d : t) : t * result unit DagError :=
  let nodes := sort_ids (hash_keys (tasks d)) in
  let node_set : gset GlobalTaskId := list_to_set nodes in
  let empty := empty_edges nodes in
  match tasks_loop node_set (hash_iter (tasks d)) empty ∅ with
  | (edges, estimates, Err e) => (set_indexes edges empty nodes estimates d, Err e)
  | (edges, estimates, Ok _) =>
      match plan_deps_loop (tasks d) (hash_iter (plan_deps d)) edges with
      | (edges, Err e) => (set_indexes edges empty nodes estimates d, Err e)
      | (edges, Ok _) =>
          let edges :=
            if DagConfig.infer_file_overlap (config d)
            then file_overlap_edges (tasks d) edges else edges in
          (set_indexes edges (transpose nodes edges) nodes estimates d, Ok tt)
      end
  end.
End Rebuild.

(** ** Topological sort (Kahn's algorithm) *)

Record kahn_state : Type := mk_kahn {
  remaining_deps : gmap GlobalTaskId nat;
  ready : gset GlobalTaskId;
  out : list GlobalTaskId;
}.

(** One dependent of the task just emitted. *)
Definition release (s : kahn_state) (dependent : GlobalTaskId) : kahn_state :=
  match remaining_deps s !! dependent with
  | Some entry =>
      let entry := pred entry in
      mk_kahn (<[dependent := entry]> (remaining_deps s))
        (if decide (entry = 0) then {[dependent]} ∪ ready s else ready s) (out s)
  | None => s
  end.

Definition kahn_step (reverse_edges : id_graph) (next : GlobalTaskId) (s : kahn_state) :
    kahn_state :=
  foldl release (mk_kahn (remaining_deps s) (ready s ∖ {[next]}) (out s ++ [next]))
    (children reverse_edges next).

(** The [while let] loop; each round emits one task, so the number of tasks is
    enough fuel. *)
Fixpoint kahn (reverse_edges : id_graph) (fuel : nat) (s : kahn_state) : kahn_state :=
  match fuel with
  | O => s
  | S fuel' =>
      match set_first (ready s) with
      | None => s
      | Some next => kahn reverse_edges fuel' (kahn_step reverse_edges next s)
      end
  end.

Definition kahn_init (edges : id_graph) : kahn_state :=
  let remaining : gmap GlobalTaskId nat := size <$> edges in
  mk_kahn remaining (dom (filter (λ p, p.2 = 0) remaining)) [].

Definition topological_sort (d : t) : result (list GlobalTaskId) DagError :=
  let s := kahn (reverse_edges d) (length (nodes d)) (kahn_init (edges d)) in
  if decide (length (out s) ≠ length (nodes d)) then
    match detect_cycle_nodes (edges d) with
    | [] =>
        Err (DagError.Cycle
               (sort_ids (map_to_list (filter (λ p, 0 < p.2) (remaining_deps s))).*1))
    | cycle_nodes => Err (DagError.Cycle cycle_nodes)
    end
  else Ok (out s).

(** ** Construction *)

Section Build.
Context {HI : HashIter}.

(** The check of [plan_deps] against the loaded plans: the first unknown plan. *)
Fixpoint unknown_plan (plan_tasks : gmap string (list Task)) (l : list (string * gset string)) :
    option string :=
  match l with
  | [] => None
  | (plan, deps) :: l' =>
      if decide (is_Some (plan_tasks !! plan)) then
        match List.find (λ dep, bool_decide (plan_tasks !! dep = None)) (hash_set_iter deps) with
        | Some dep => Some dep
        | None => unknown_plan plan_tasks l'
        end
      else Some plan
  end.

Definition collect_tasks (plan_tasks : gmap string (list Task)) : gmap GlobalTaskId Task :=
  foldl (λ m p,
    foldl (λ m task, <[GlobalTaskId.new p.1 (Task.id task) := task]> m) m p.2)
    ∅ (btree_iter plan_tasks).

Definition build (plan_tasks : gmap string (list Task)) (plan_deps : gmap string (gset string))
    (config : DagConfig) : result t DagError :=
  match unknown_plan plan_tasks (hash_iter plan_deps) with
  | Some plan => Err (DagError.UnknownPlan plan)
  | None =>
      let dag := mk (collect_tasks plan_tasks) plan_deps ∅ ∅ [] ∅ config in
      let '(dag, r) := rebuild_indexes dag in
      let? _ := r in
      let? _ := topological_sort dag in
      Ok dag
  end.
End Build.
End UnifiedTaskDag.
Abbreviation UnifiedTaskDag := UnifiedTaskDag.t.
Module UD := UnifiedTaskDag.

(** ** Graphs built by insertion *)

Section Edges.
Implicit Types (e : id_graph) (a b id dep : GlobalTaskId).

Lemma edge_default e a b : edge e a b ↔ b ∈ default ∅ (e !! a).
Proof.
  unfold edge. destruct (e !! a) as [ds|]; simpl; [naive_solver|].
  split; [by intros (? & ? & _)|set_solver].
Qed.

Lemma edge_edge_insert e id dep a b :
  edge (edge_insert id dep e) a b ↔ (a = id ∧ b = dep) ∨ edge e a b.
Proof.
  rewrite !edge_default. unfold edge_insert. destruct (decide (id = a)) as [->|Hne].
  - rewrite lookup_insert_eq. simpl. set_solver.
  - rewrite lookup_insert_ne by done. naive_solver.
Qed.

Lemma dom_edge_insert N e id dep :
  dom e = N → id ∈ N → dom (edge_insert id dep e) = N.
Proof. intros <- Hid. unfold edge_insert. rewrite dom_insert_L. set_solver. Qed.

Lemma edge_empty_edges l a b : ¬ edge (empty_edges l) a b.
Proof.
  unfold empty_edges. assert (∀ e, (∀ a b, ¬ edge e a b) →
    ∀ a b, ¬ edge (foldl (λ m node, <[node := ∅]> m) e l) a b) as H.
  { induction l as [|x l IH]; intros e He; simpl; [done|]. apply IH.
    intros a' b'. rewrite edge_default. destruct (decide (x = a')) as [->|Hne].
    - rewrite lookup_insert_eq. simpl. set_solver.
    - rewrite lookup_insert_ne by done. rewrite <-edge_default. apply He. }
  apply H. intros a' b' (ds & Hl & _). destruct (lookup_empty_Some _ _ Hl).
Qed.

Lemma dom_empty_edges l : dom (empty_edges l) = list_to_set l.
Proof.
  unfold empty_edges. assert (∀ e, dom (foldl (λ m node, <[node := ∅]> m) e l) =
    list_to_set l ∪ dom e) as H.
  { induction l as [|x l IH]; intros e; simpl; [set_solver|].
    rewrite IH, dom_insert_L. set_solver. }
  rewrite H, dom_empty_L. set_solver.
Qed.

(** A fold of steps that each add the edges of [P x]. *)
Lemma edge_foldl {A} (f : id_graph → A → id_graph) (P : A → GlobalTaskId → GlobalTaskId → Prop) l :
  (∀ e x a b, edge (f e x) a b ↔ P x a b ∨ edge e a b) →
  ∀ e a b, edge (foldl f e l) a b ↔ (∃ x, x ∈ l ∧ P x a b) ∨ edge e a b.
Proof.
  intros Hf. induction l as [|x l IH]; intros e a b; simpl; [set_solver|].
  rewrite IH, Hf. set_solver.
Qed.

Lemma dom_foldl {A} (f : id_graph → A → id_graph) N l :
  (∀ e x, x ∈ l → dom e = N → dom (f e x) = N) →
  ∀ e, dom e = N → dom (foldl f e l) = N.
Proof.
  induction l as [|x l IH]; intros Hf e He; simpl; [done|].
  apply IH; [|apply Hf; [by left|done]]. intros; apply Hf; [by right|done].
Qed.
End Edges.

(** ** What the indexes hold *)

(** The dependencies a DAG declares: by reference, by plan, and by shared files. *)
Definition declared (d : UnifiedTaskDag) (a b : GlobalTaskId) : Prop :=
  is_Some (UD.tasks d !! b) ∧ ∃ t, UD.tasks d !! a = Some t ∧
  ((∃ raw, raw ∈ Task.depends_on t ∧ resolve_dep_ref (GlobalTaskId.plan a) raw = b) ∨
   (∃ deps, UD.plan_deps d !! GlobalTaskId.plan a = Some deps ∧ GlobalTaskId.plan b ∈ deps) ∨
   (DagConfig.infer_file_overlap (UD.config d) = true ∧ a ≠ b ∧ GlobalTaskId.leb b a = true ∧
    ∃ u file, UD.tasks d !! b = Some u ∧ file ∈ Task.files t ∧ file ∈ Task.files u)).

(** Every reference names a task. *)
Definition refs_resolved (d : UnifiedTaskDag) : Prop :=
  ∀ a t raw, UD.tasks d !! a = Some t → raw ∈ Task.depends_on t →
    is_Some (UD.tasks d !! resolve_dep_ref (GlobalTaskId.plan a) raw).

(** References and plans all resolve. *)
Definition resolved (d : UnifiedTaskDag) : Prop :=
  refs_resolved d ∧
  (∀ p deps q, UD.plan_deps d !! p = Some deps → q = p ∨ q ∈ deps →
     ∃ id, is_Some (UD.tasks d !! id) ∧ GlobalTaskId.plan id = q).

Record indexed (d : UnifiedTaskDag) : Prop := {
  ix_nodes : UD.nodes d = map_keys (UD.tasks d);
  ix_edges_dom : dom (UD.edges d) = dom (UD.tasks d);
  ix_reverse_dom : dom (UD.reverse_edges d) = dom (UD.tasks d);
  ix_edges : ∀ a b, edge (UD.edges d) a b ↔ declared d a b;
  ix_reverse : ∀ a b, edge (UD.reverse_edges d) a b ↔ edge (UD.edges d) b a;
  ix_estimates : UD.estimates d = (λ t, default 0%N (Task.estimated_minutes t)) <$> UD.tasks d;
}.

(** Why a rebuild fails. *)
Definition rebuild_failure (d : UnifiedTaskDag) (err : DagError) : Prop :=
  match err with
  | DagError.DanglingDepRef a raw =>
      ∃ t, UD.tasks d !! a = Some t ∧ raw ∈ Task.depends_on t ∧
        UD.tasks d !! resolve_dep_ref (GlobalTaskId.plan a) raw = None
  | DagError.UnknownPlan q =>
      ∃ p deps, UD.plan_deps d !! p = Some deps ∧ (q = p ∨ q ∈ deps) ∧
        ¬ ∃ id, is_Some (UD.tasks d !! id) ∧ GlobalTaskId.plan id = q
  | DagError.Cycle _ => False
  end.

Lemma string_eqb_eq (a b : string) : string_eqb a b = true ↔ a = b.
Proof. apply bool_decide_eq_true. Qed.

Section RebuildFacts.
Context {HI : HashIter}.
Implicit Types (e : id_graph) (a b id : GlobalTaskId) (tasks : gmap GlobalTaskId Task).

Lemma elem_of_plan_filter tasks p id :
  id ∈ List.filter (λ id, string_eqb (GlobalTaskId.plan id) p) (hash_keys tasks) ↔
  is_Some (tasks !! id) ∧ GlobalTaskId.plan id = p.
Proof. by rewrite elem_of_list_filter_bool, elem_of_hash_keys, string_eqb_eq. Qed.

Lemma tasks_for_plan_Some tasks p ids :
  UD.tasks_for_plan tasks p = Some ids →
  ∀ id, id ∈ ids ↔ is_Some (tasks !! id) ∧ GlobalTaskId.plan id = p.
Proof.
  unfold UD.tasks_for_plan. intros H id. rewrite <-elem_of_plan_filter.
  destruct (List.filter _ _) as [|x l]; simplify_eq. apply elem_of_sort_ids.
Qed.

Lemma tasks_for_plan_inhabited tasks p ids :
  UD.tasks_for_plan tasks p = Some ids → ∃ id, is_Some (tasks !! id) ∧ GlobalTaskId.plan id = p.
Proof.
  unfold UD.tasks_for_plan. pose proof (elem_of_plan_filter tasks p) as H.
  destruct (List.filter _ _) as [|x l]; [done|]. intros _. exists x. apply H. by left.
Qed.

Lemma tasks_for_plan_None tasks p :
  UD.tasks_for_plan tasks p = None ↔ ¬ ∃ id, is_Some (tasks !! id) ∧ GlobalTaskId.plan id = p.
Proof.
  unfold UD.tasks_for_plan. pose proof (elem_of_plan_filter tasks p) as H.
  destruct (List.filter _ _) as [|x l].
  - split; [|done]. intros _ (id & Hid%H). set_solver.
  - split; [done|]. intros Hno. exfalso. apply Hno. exists x. apply H. by left.
Qed.

Lemma dep_refs_loop_spec ns id raws e e' r :
  UD.dep_refs_loop ns id raws e = (e', r) → id ∈ dom e →
  dom e' = dom e ∧
  match r with
  | Ok _ =>
      (∀ raw, raw ∈ raws → resolve_dep_ref (GlobalTaskId.plan id) raw ∈ ns) ∧
      ∀ a b, edge e' a b ↔
        (a = id ∧ ∃ raw, raw ∈ raws ∧ resolve_dep_ref (GlobalTaskId.plan id) raw = b) ∨ edge e a b
  | Err err => ∃ raw, err = DagError.DanglingDepRef id raw ∧ raw ∈ raws ∧
      resolve_dep_ref (GlobalTaskId.plan id) raw ∉ ns
  end.
Proof.
  revert e. induction raws as [|raw raws IH]; intros e Hl Hid; simpl in Hl.
  { simplify_eq. split; [done|]. split; [set_solver|]. intros a b. set_solver. }
  case_decide as Hin; [|simplify_eq; split; [done|]; set_solver].
  apply IH in Hl as [Hd Hr]; [|by rewrite (dom_edge_insert (dom e))].
  rewrite (dom_edge_insert (dom e)) in Hd by done. split; [done|].
  destruct r as [u|err]; [|set_solver]. destruct Hr as [Hr He]. split; [set_solver|].
  intros a b. rewrite He, edge_edge_insert. set_solver.
Qed.

Lemma tasks_loop_spec ns l e es e' es' r N :
  UD.tasks_loop ns l e es = (e', es', r) → dom e = N → (∀ p, p ∈ l → p.1 ∈ N) →
  dom e' = N ∧
  match r with
  | Ok _ =>
      (∀ id t raw, (id, t) ∈ l → raw ∈ Task.depends_on t →
         resolve_dep_ref (GlobalTaskId.plan id) raw ∈ ns) ∧
      (∀ a b, edge e' a b ↔
        (∃ t raw, (a, t) ∈ l ∧ raw ∈ Task.depends_on t ∧
           resolve_dep_ref (GlobalTaskId.plan a) raw = b) ∨ edge e a b) ∧
      es' = foldl (λ m p, <[p.1 := default 0%N (Task.estimated_minutes p.2)]> m) es l
  | Err err => ∃ id t raw, err = DagError.DanglingDepRef id raw ∧ (id, t) ∈ l ∧
      raw ∈ Task.depends_on t ∧ resolve_dep_ref (GlobalTaskId.plan id) raw ∉ ns
  end.
Proof.
  revert e es. induction l as [|[id t] l IH]; intros e es Hl He HN; simpl in Hl.
  { simplify_eq. split; [done|]. split_and!; [set_solver| |done]. intros a b. set_solver. }
  destruct (UD.dep_refs_loop _ _ _ _) as [e1 r1] eqn:Hd.
  apply dep_refs_loop_spec in Hd as [Hd1 Hr1]; [|rewrite He; apply (HN (id, t)); by left].
  destruct r1 as [u|err].
  - apply IH in Hl as [Hd2 Hr2]; [|congruence|intros p Hp; apply HN; by right].
    split; [done|]. destruct r as [u'|err]; [|naive_solver set_solver].
    destruct Hr1 as [Hr1 He1], Hr2 as (Hr2 & He2 & ->). split_and!.
    + intros id' t' raw [?|?]%elem_of_cons; [simplify_eq; by apply Hr1|by eapply Hr2].
    + intros a b. rewrite He2, He1. set_solver.
    + done.
  - simplify_eq. split; [done|]. destruct Hr1 as (raw & -> & Hr). exists id, t, raw. set_solver.
Qed.

Lemma edge_plan_edges ids dids e a b :
  edge (UD.plan_edges ids dids e) a b ↔ (a ∈ ids ∧ b ∈ dids) ∨ edge e a b.
Proof.
  unfold UD.plan_edges. rewrite (edge_foldl _ (λ x a b, a = x ∧ b ∈ dids)).
  - set_solver.
  - intros e' x a' b'. rewrite (edge_foldl _ (λ y a b, a = x ∧ b = y)); [set_solver|].
    intros *. apply edge_edge_insert.
Qed.

Lemma dom_plan_edges ids dids e N :
  dom e = N → (∀ id, id ∈ ids → id ∈ N) → dom (UD.plan_edges ids dids e) = N.
Proof.
  intros He Hids. unfold UD.plan_edges. apply dom_foldl; [|done].
  intros e' x Hx He'. apply dom_foldl; [|done]. intros e'' y _ He''.
  apply dom_edge_insert; auto.
Qed.

Lemma dep_plans_loop_spec tasks ids deps e e' r N :
  UD.dep_plans_loop tasks ids deps e = (e', r) → dom e = N → (∀ id, id ∈ ids → id ∈ N) →
  dom e' = N ∧
  match r with
  | Ok _ =>
      (∀ q, q ∈ deps → ∃ id, is_Some (tasks !! id) ∧ GlobalTaskId.plan id = q) ∧
      ∀ a b, edge e' a b ↔
        (a ∈ ids ∧ is_Some (tasks !! b) ∧ GlobalTaskId.plan b ∈ deps) ∨ edge e a b
  | Err err => ∃ q, err = DagError.UnknownPlan q ∧ q ∈ deps ∧
      ¬ ∃ id, is_Some (tasks !! id) ∧ GlobalTaskId.plan id = q
  end.
Proof.
  revert e. induction deps as [|q deps IH]; intros e Hl He HN; simpl in Hl.
  { simplify_eq. split; [done|]. split; [set_solver|]. intros a b. set_solver. }
  destruct (UD.tasks_for_plan tasks q) as [qids|] eqn:Hq.
  - apply IH in Hl as [Hd Hr]; [|by apply dom_plan_edges|done]. split; [done|].
    pose proof (tasks_for_plan_Some _ _ _ Hq) as Hqids.
    destruct r as [u|err]; [|naive_solver set_solver]. destruct Hr as [Hr He']. split.
    + intros q' [->|Hq']%elem_of_cons; [by eapply tasks_for_plan_inhabited|auto].
    + intros a b. rewrite He', edge_plan_edges, Hqids. set_solver.
  - simplify_eq. split; [done|]. exists q. apply tasks_for_plan_None in Hq. set_solver.
Qed.

Lemma plan_deps_loop_spec tasks l e e' r N :
  UD.plan_deps_loop tasks l e = (e', r) → dom e = N → (∀ id, is_Some (tasks !! id) → id ∈ N) →
  dom e' = N ∧
  match r with
  | Ok _ =>
      (∀ p deps q, (p, deps) ∈ l → q = p ∨ q ∈ deps →
         ∃ id, is_Some (tasks !! id) ∧ GlobalTaskId.plan id = q) ∧
      ∀ a b, edge e' a b ↔
        (is_Some (tasks !! a) ∧ is_Some (tasks !! b) ∧
         ∃ deps, (GlobalTaskId.plan a, deps) ∈ l ∧ GlobalTaskId.plan b ∈ deps) ∨ edge e a b
  | Err err => ∃ p deps q, err = DagError.UnknownPlan q ∧ (p, deps) ∈ l ∧ (q = p ∨ q ∈ deps) ∧
      ¬ ∃ id, is_Some (tasks !! id) ∧ GlobalTaskId.plan id = q
  end.
Proof.
  revert e. induction l as [|[p deps] l IH]; intros e Hl He HN; simpl in Hl.
  { simplify_eq. split; [done|]. split; [set_solver|]. intros a b. set_solver. }
  destruct (UD.tasks_for_plan tasks p) as [ids|] eqn:Hp.
  2:{ simplify_eq. split; [done|]. exists p, deps, p. apply tasks_for_plan_None in Hp.
      set_solver. }
  pose proof (tasks_for_plan_Some _ _ _ Hp) as Hids.
  destruct (UD.dep_plans_loop _ _ _ _) as [e1 r1] eqn:Hd.
  apply (dep_plans_loop_spec _ _ _ _ _ _ N) in Hd as [Hd1 Hr1]; [|done|naive_solver].
  destruct r1 as [u|err].
  - apply IH in Hl as [Hd2 Hr2]; [|done|done]. split; [done|].
    destruct r as [u'|err]; [|naive_solver set_solver].
    destruct Hr1 as [Hr1 He1], Hr2 as [Hr2 He2]. split.
    + intros p' deps' q [?|?]%elem_of_cons Hq; [|by eapply Hr2]. simplify_eq.
      destruct Hq as [->|Hq]; [by eapply tasks_for_plan_inhabited|].
      apply Hr1. by apply elem_of_hash_set_iter.
    + intros a b. rewrite He2, He1, Hids. setoid_rewrite elem_of_cons.
      setoid_rewrite elem_of_hash_set_iter. clear -a. naive_solver.
  - simplify_eq. split; [done|]. destruct Hr1 as (q & -> & Hq%elem_of_hash_set_iter & Hno).
    exists p, deps, q. set_solver.
Qed.

Lemma elem_of_by_file tasks file id :
  id ∈ default ∅ (UD.by_file tasks !! file) ↔ ∃ t, tasks !! id = Some t ∧ file ∈ Task.files t.
Proof.
  unfold UD.by_file.
  assert (∀ fs (m : gmap string (gset GlobalTaskId)) x,
    id ∈ default ∅ (foldl (λ m f, <[f := {[x]} ∪ default ∅ (m !! f)]> m) m fs !! file) ↔
    (x = id ∧ file ∈ fs) ∨ id ∈ default ∅ (m !! file)) as H1.
  { induction fs as [|f fs IH]; intros m x; simpl; [set_solver|]. rewrite IH.
    destruct (decide (f = file)) as [->|Hne].
    - rewrite lookup_insert_eq. simpl. set_solver.
    - rewrite lookup_insert_ne by done. set_solver. }
  assert (∀ l (m : gmap string (gset GlobalTaskId)),
    id ∈ default ∅ (foldl (λ m p, foldl (λ m f, <[f := {[p.1]} ∪ default ∅ (m !! f)]> m) m
      (Task.files p.2)) m l !! file) ↔
    (∃ t, (id, t) ∈ l ∧ file ∈ Task.files t) ∨ id ∈ default ∅ (m !! file)) as H2.
  { induction l as [|[x t] l IH]; intros m; simpl; [set_solver|]. rewrite IH, H1.
    setoid_rewrite elem_of_cons. naive_solver. }
  rewrite H2. setoid_rewrite elem_of_hash_iter. rewrite lookup_empty. set_solver.
Qed.

Lemma edge_overlap_loop before ordered e a b :
  StronglySorted (λ x y, GlobalTaskId.leb x y = true) (before ++ ordered) →
  edge (UD.overlap_loop before ordered e) a b ↔
  (a ∈ ordered ∧ b ∈ before ++ ordered ∧ a ≠ b ∧ GlobalTaskId.leb b a = true) ∨ edge e a b.
Proof.
  revert before e. induction ordered as [|x ordered IH]; intros before e Hs; simpl; [set_solver|].
  rewrite IH by (by rewrite <-app_assoc).
  rewrite (edge_foldl _ (λ y a b, x ≠ y ∧ a = x ∧ b = y)).
  2:{ intros e' y a' b'. case_decide; [rewrite edge_edge_insert|]; naive_solver. }
  rewrite <-app_assoc. simpl. apply StronglySorted_app in Hs as (Hbx & _ & Hso).
  apply StronglySorted_inv in Hso as [_ Hx]. rewrite Forall_forall in Hx.
  assert (∀ y, y ∈ before → GlobalTaskId.leb y x = true) as Hb by set_solver.
  rewrite !elem_of_app, !elem_of_cons. split.
  - intros [(?&?&?&?)|[(y&?&?&->&->)|?]]; [left|left|by right]; split_and!; auto.
  - intros [([->|Ha]&Hb'&Hne&Hle)|?]; [|left; split_and!; auto|by auto].
    destruct Hb' as [Hb'|[Hb'|Hb']]; [right; left; eauto 8|done|].
    exfalso. apply Hne, id_leb_antisym; auto.
Qed.

Lemma set_iter_sorted (X : gset GlobalTaskId) :
  StronglySorted (λ x y, GlobalTaskId.leb x y = true) (set_iter X).
Proof. apply sort_ids_sorted. Qed.

Lemma edge_file_overlap tasks e a b :
  edge (UD.file_overlap_edges tasks e) a b ↔
  (a ≠ b ∧ GlobalTaskId.leb b a = true ∧
   ∃ t u file, tasks !! a = Some t ∧ tasks !! b = Some u ∧
     file ∈ Task.files t ∧ file ∈ Task.files u) ∨ edge e a b.
Proof.
  unfold UD.file_overlap_edges.
  rewrite (edge_foldl _ (λ ids a b, a ∈ ids ∧ b ∈ ids ∧ a ≠ b ∧ GlobalTaskId.leb b a = true)).
  2:{ intros e' ids a' b'. rewrite edge_overlap_loop by apply set_iter_sorted. simpl.
      by rewrite !elem_of_set_iter. }
  f_equiv. split.
  - intros (ids & [file Hf]%elem_of_hash_values & Ha & Hb & Hne & Hle).
    assert (∀ id, id ∈ ids → id ∈ default ∅ (UD.by_file tasks !! file)) as Hids by by rewrite Hf.
    apply Hids, elem_of_by_file in Ha as (t & ? & ?).
    apply Hids, elem_of_by_file in Hb as (u & ? & ?). eauto 10.
  - intros (Hne & Hle & t & u & file & Ha & Hb & Hta & Hub).
    assert (a ∈ default ∅ (UD.by_file tasks !! file)) as Hfa by (apply elem_of_by_file; eauto).
    assert (b ∈ default ∅ (UD.by_file tasks !! file)) as Hfb by (apply elem_of_by_file; eauto).
    destruct (UD.by_file tasks !! file) as [ids|] eqn:Hf; simpl in *; [|set_solver].
    exists ids. split; [|done]. apply elem_of_hash_values. eauto.
Qed.

Lemma dom_overlap_loop before ordered e N :
  dom e = N → (∀ x, x ∈ ordered → x ∈ N) → dom (UD.overlap_loop before ordered e) = N.
Proof.
  revert before e. induction ordered as [|x l IH]; intros before e He Hl; simpl; [done|].
  apply IH; [|set_solver]. apply dom_foldl; [|done]. intros e' y _ He'.
  case_decide; [|done]. apply dom_edge_insert; set_solver.
Qed.

Lemma dom_file_overlap tasks e :
  dom e = dom tasks → dom (UD.file_overlap_edges tasks e) = dom tasks.
Proof.
  intros He. unfold UD.file_overlap_edges. apply dom_foldl; [|done].
  intros e' ids [file Hf]%elem_of_hash_values He'. apply dom_overlap_loop; [done|].
  intros x Hx%elem_of_set_iter. apply elem_of_dom.
  destruct (elem_of_by_file tasks file x) as [H _]. rewrite Hf in H. naive_solver.
Qed.

Lemma edge_transpose nodes e a b : edge (UD.transpose nodes e) a b ↔ edge e b a.
Proof.
  unfold UD.transpose. rewrite (edge_foldl _ (λ p a b, b = p.1 ∧ a ∈ p.2)).
  - split; [|intros (ds & H1 & H2); left; exists (b, ds); by rewrite elem_of_hash_iter].
    intros [([x ds] & H%elem_of_hash_iter & -> & Ha)|H]; [by exists ds|].
    by apply edge_empty_edges in H.
  - intros e' [x ds] a' b'. rewrite (edge_foldl _ (λ y a b, a = y ∧ b = x)).
    + setoid_rewrite elem_of_set_iter. naive_solver.
    + intros *. apply edge_edge_insert.
Qed.

Lemma dom_transpose nodes e :
  (∀ a b, edge e a b → b ∈ nodes) → dom (UD.transpose nodes e) = list_to_set nodes.
Proof.
  intros He. unfold UD.transpose. apply dom_foldl; [|apply dom_empty_edges].
  intros e' [x ds] Hx%elem_of_hash_iter He'. apply dom_foldl; [|done].
  intros e'' y Hy%elem_of_set_iter He''. apply dom_edge_insert; [done|].
  apply elem_of_list_to_set, (He x). by exists ds.
Qed.

Abbreviation estimate_all := (foldl (λ (m : gmap GlobalTaskId N) (p : GlobalTaskId * Task),
  <[p.1 := default 0%N (Task.estimated_minutes p.2)]> m)).

Lemma estimates_fold_ne l m id : id ∉ l.*1 → estimate_all m l !! id = m !! id.
Proof.
  revert m. induction l as [|p l IH]; intros m Hid; [done|]. cbn [foldl].
  rewrite IH by set_solver. apply lookup_insert_ne. set_solver.
Qed.

Lemma estimates_fold l m id t :
  NoDup l.*1 → (id, t) ∈ l →
  estimate_all m l !! id = Some (default 0%N (Task.estimated_minutes t)).
Proof.
  revert m. induction l as [|[x u] l IH]; intros m Hnd Hin; [set_solver|]. cbn [foldl].
  apply NoDup_cons in Hnd as [Hx Hnd]. simpl in Hx.
  apply elem_of_cons in Hin as [?|Hin]; [|by apply IH].
  simplify_eq. rewrite estimates_fold_ne by done. apply lookup_insert_eq.
Qed.

Lemma sorted_hash_keys tasks : sort_ids (hash_keys tasks) = map_keys tasks.
Proof. apply (sort_keys_unique (OK := GlobalTaskId_ord)). unfold hash_keys. by rewrite hash_iter_perm. Qed.

Lemma elem_of_node_set tasks x :
  x ∈ (list_to_set (map_keys tasks) : gset GlobalTaskId) ↔ is_Some (tasks !! x).
Proof. rewrite elem_of_list_to_set. apply elem_of_map_keys. Qed.

Lemma dom_node_set tasks : (list_to_set (map_keys tasks) : gset GlobalTaskId) = dom tasks.
Proof. apply set_eq. intros x. by rewrite elem_of_node_set, elem_of_dom. Qed.

(** Dependencies by reference and by plan. *)
Definition declared_direct (d : UnifiedTaskDag) (a b : GlobalTaskId) : Prop :=
  is_Some (UD.tasks d !! b) ∧ ∃ t, UD.tasks d !! a = Some t ∧
  ((∃ raw, raw ∈ Task.depends_on t ∧ resolve_dep_ref (GlobalTaskId.plan a) raw = b) ∨
   ∃ deps, UD.plan_deps d !! GlobalTaskId.plan a = Some deps ∧ GlobalTaskId.plan b ∈ deps).

Lemma edge_direct d e1 es u e2 u2 :
  UD.tasks_loop (list_to_set (map_keys (UD.tasks d))) (hash_iter (UD.tasks d))
    (empty_edges (map_keys (UD.tasks d))) ∅ = (e1, es, Ok u) →
  UD.plan_deps_loop (UD.tasks d) (hash_iter (UD.plan_deps d)) e1 = (e2, Ok u2) →
  (∀ a b, edge e2 a b ↔ declared_direct d a b) ∧ resolved d ∧ dom e2 = dom (UD.tasks d) ∧
  es = (λ t, default 0%N (Task.estimated_minutes t)) <$> UD.tasks d.
Proof.
  intros H1 H2.
  apply (tasks_loop_spec _ _ _ _ _ _ _ (dom (UD.tasks d))) in H1 as (Hd1 & Hres & He1 & Hes);
    [|by rewrite dom_empty_edges, dom_node_set
     |intros [x t] Hx%elem_of_hash_iter; by eapply elem_of_dom_2].
  apply (plan_deps_loop_spec _ _ _ _ _ (dom (UD.tasks d))) in H2 as (Hd2 & Hplans & He2);
    [|done|intros x; by rewrite elem_of_dom].
  assert (resolved d) as Hr.
  { split.
    - intros a t raw Ha Hraw. apply elem_of_node_set, (Hres a t); [by apply elem_of_hash_iter|done].
    - intros p deps q Hp Hq. apply (Hplans p deps); [by apply elem_of_hash_iter|done]. }
  split_and!; [|done|done|].
  - intros a b. unfold declared_direct. rewrite He2, He1. setoid_rewrite elem_of_hash_iter. split.
    + intros [([t Ht] & Hb & deps & Hdeps)|[(t & raw & Ht & Hraw & <-)|Hno]].
      * split; [done|]. exists t. eauto.
      * split; [by eapply (proj1 Hr)|]. exists t. eauto 6.
      * by apply edge_empty_edges in Hno.
    + intros (Hb & t & Ht & [(raw & Hraw & Hres')|(deps & Hdeps)]); [right; left; eauto|].
      left. eauto 6.
  - apply map_eq. intros id. rewrite Hes, lookup_fmap. destruct (UD.tasks d !! id) as [t|] eqn:Ht.
    + simpl. apply estimates_fold; [apply NoDup_hash_keys|]. by apply elem_of_hash_iter.
    + simpl. rewrite estimates_fold_ne; [apply lookup_empty|].
      intros [v Hv]%elem_of_hash_keys. congruence.
Qed.

Lemma edge_declared d e :
  (∀ a b, edge e a b ↔ declared_direct d a b) →
  ∀ a b, edge (if DagConfig.infer_file_overlap (UD.config d)
               then UD.file_overlap_edges (UD.tasks d) e else e) a b ↔ declared d a b.
Proof.
  intros E a b. unfold declared. destruct (DagConfig.infer_file_overlap _).
  - rewrite edge_file_overlap, E. clear. unfold declared_direct. split.
    + intros [(Hne & Hle & t & u & f & Ht & Hu & Hf)|(Hb & t & Ht & [H|H])]; [|eauto 8..].
      split; [eauto|]. exists t. split; [done|]. right. right. eauto 8.
    + intros (Hb & t & Ht & [H|[H|(_ & Hne & Hle & u & f & Hu & Hf)]]); [eauto 8..|].
      left. split_and!; [done..|]. exists t, u, f. naive_solver.
  - rewrite E. unfold declared_direct. clear. naive_solver.
Qed.

Lemma rebuild_indexes_spec d d' r :
  UD.rebuild_indexes d = (d', r) →
  UD.tasks d' = UD.tasks d ∧ UD.plan_deps d' = UD.plan_deps d ∧ UD.config d' = UD.config d ∧
  match r with Ok _ => indexed d' ∧ resolved d' | Err err => rebuild_failure d err end.
Proof.
  unfold UD.rebuild_indexes. rewrite sorted_hash_keys.
  destruct (UD.tasks_loop _ _ _ _) as [[e1 es] [u|err]] eqn:H1.
  2:{ apply (tasks_loop_spec _ _ _ _ _ _ _ (dom (UD.tasks d)))
        in H1 as (_ & a & t & raw & -> & Ha & Hraw & Hno);
        [|by rewrite dom_empty_edges, dom_node_set
         |intros [x t] Hx%elem_of_hash_iter; by eapply elem_of_dom_2].
      intros [= <- <-]. split_and!; [done..|]. exists t.
      rewrite elem_of_node_set in Hno. split_and!; [by apply elem_of_hash_iter|done|].
      by apply eq_None_not_Some. }
  destruct (UD.plan_deps_loop _ _ _) as [e2 [u2|err]] eqn:H2.
  2:{ apply (plan_deps_loop_spec _ _ _ _ _ (dom e1 ∪ dom (UD.tasks d)))
        in H2 as (_ & p & deps & q & -> & Hp & Hq & Hno).
      - intros [= <- <-]. split_and!; [done..|]. exists p, deps.
        split_and!; [by apply elem_of_hash_iter|done|done].
      - apply (tasks_loop_spec _ _ _ _ _ _ _ (dom (UD.tasks d))) in H1 as [-> _]; [set_solver| |].
        + by rewrite dom_empty_edges, dom_node_set.
        + intros [x t] Hx%elem_of_hash_iter. by eapply elem_of_dom_2.
      - intros x Hx%elem_of_dom. set_solver. }
  destruct (edge_direct d _ _ _ _ _ H1 H2) as (He2 & Hres & Hd2 & Hes).
  pose proof (edge_declared d e2 He2) as He3. intros [= <- <-]. split_and!; [done..| |done].
  split; simpl.
  - done.
  - destruct (DagConfig.infer_file_overlap _); [by apply dom_file_overlap|done].
  - rewrite <-dom_node_set. apply dom_transpose. intros a b [Hb _]%He3. by apply elem_of_map_keys.
  - apply He3.
  - intros a b. apply edge_transpose.
  - done.
Qed.
End RebuildFacts.

(** ** Correctness of the topological sort *)

(** [l] lists every node before the nodes that depend on it. *)
Definition respects (e : id_graph) (l : list GlobalTaskId) : Prop :=
  ∀ i a b, l !! i = Some a → edge e a b → b ∈ take i l.

(** Among the nodes whose dependencies are all listed, the smallest comes next. *)
Definition smallest_first (e : id_graph) (l : list GlobalTaskId) : Prop :=
  ∀ i a k, l !! i = Some a → k ∈ dom e → k ∉ take i l →
    (∀ b, edge e k b → b ∈ take i l) → GlobalTaskId.leb a k = true.

Section Kahn.
Context (e rev : id_graph).
Context (Hrev : ∀ a b, edge rev a b ↔ edge e b a).
Context (Hclosed : ∀ a b, edge e a b → b ∈ dom e).
Implicit Types (s : UD.kahn_state) (a b k : GlobalTaskId).

Record kahn_inv s : Prop := {
  ki_nodup : NoDup (UD.out s);
  ki_out : ∀ k, k ∈ UD.out s → k ∈ dom e;
  ki_order : respects e (UD.out s);
  ki_smallest : smallest_first e (UD.out s);
  ki_remaining : ∀ k, UD.remaining_deps s !! k =
    ((λ ds, size (ds ∖ list_to_set (UD.out s))) <$> (e !! k));
  ki_ready : ∀ k, k ∈ UD.ready s ↔
    (k ∉ UD.out s) ∧ k ∈ dom e ∧ (∀ b, edge e k b → b ∈ UD.out s);
}.

Lemma size_zero_subset (ds X : gset GlobalTaskId) : size (ds ∖ X) = 0 ↔ ds ⊆ X.
Proof.
  split.
  - intros H%size_empty_inv x Hx. destruct (decide (x ∈ X)) as [|Hn]; [done|].
    assert (x ∈ (∅ : gset GlobalTaskId)) by (apply H; by apply elem_of_difference). set_solver.
  - intros H. apply size_empty_iff. set_solver.
Qed.

Lemma kahn_inv_init : kahn_inv (UD.kahn_init e).
Proof.
  split; unfold UD.kahn_init; simpl.
  - constructor.
  - set_solver.
  - intros i a b H. done.
  - intros i a b H. done.
  - intros k. rewrite lookup_fmap. destruct (e !! k) as [ds|]; simpl; [|done].
    by replace (ds ∖ ∅) with ds by set_solver.
  - intros k. rewrite !elem_of_dom. unfold is_Some. setoid_rewrite map_lookup_filter_Some.
    setoid_rewrite lookup_fmap. split.
    + intros (n & Hn & Hz). simpl in Hz. subst n. destruct (e !! k) as [ds|] eqn:Hk; [|done].
      simpl in Hn. injection Hn as Hn. apply size_empty_inv in Hn. split_and!; [set_solver|eauto|].
      intros b (ds' & Hds & Hb). set_solver.
    + intros (_ & (ds & Hk) & Hb). exists 0. rewrite Hk. simpl. split; [|done]. f_equal.
      apply size_empty_iff. intros x. split; [|set_solver]. intros Hx.
      assert (x ∈ []) as Hnil by (apply Hb; by exists ds). set_solver.
Qed.

(** The inner loop lowers the count of each dependent, and readies those at zero. *)
Lemma foldl_release l s :
  NoDup l →
  UD.out (foldl UD.release s l) = UD.out s ∧
  (∀ k, UD.remaining_deps (foldl UD.release s l) !! k =
    if decide (k ∈ l) then pred <$> UD.remaining_deps s !! k else UD.remaining_deps s !! k) ∧
  (∀ k, k ∈ UD.ready (foldl UD.release s l) ↔
    k ∈ UD.ready s ∨ (k ∈ l ∧ (pred <$> UD.remaining_deps s !! k) = Some 0)).
Proof.
  revert s. induction l as [|x l IH]; intros s Hnd; simpl; [set_solver|].
  apply NoDup_cons in Hnd as [Hx Hnd]. destruct (IH (UD.release s x) Hnd) as (Ho & Hr & Hrd).
  assert (UD.out (UD.release s x) = UD.out s) as Ho'.
  { unfold UD.release. by destruct (_ !! x). }
  assert (∀ k, UD.remaining_deps (UD.release s x) !! k =
    if decide (k = x) then pred <$> UD.remaining_deps s !! k else UD.remaining_deps s !! k) as Hr'.
  { intros k. unfold UD.release. destruct (UD.remaining_deps s !! x) eqn:E; simpl.
    - case_decide as Hk; [subst; rewrite E; apply lookup_insert_eq|by apply lookup_insert_ne].
    - case_decide; [subst; by rewrite E|done]. }
  assert (∀ k, k ∈ UD.ready (UD.release s x) ↔
    k ∈ UD.ready s ∨ (k = x ∧ (pred <$> UD.remaining_deps s !! k) = Some 0)) as Hrd'.
  { intros k. unfold UD.release. destruct (UD.remaining_deps s !! x) as [n|] eqn:E; simpl.
    - case_decide as Hn; [rewrite elem_of_union, elem_of_singleton|].
      + split; [intros [->|?]; [rewrite E; simpl|]; eauto with f_equal|naive_solver].
      + split; [auto|]. intros [?|[-> Hk]]; [done|]. rewrite E in Hk. simpl in Hk. naive_solver.
    - split; [auto|]. intros [?|[-> Hk]]; [done|]. rewrite E in Hk. done. }
  split_and!.
  - congruence.
  - intros k. rewrite Hr, !Hr'. destruct (decide (k = x)) as [->|Hne].
    + rewrite decide_False by done. by rewrite decide_True by by left.
    + case_decide; [rewrite decide_True by by right|rewrite decide_False by set_solver]; done.
  - intros k. rewrite Hrd, Hrd', Hr'. destruct (decide (k = x)) as [->|Hne].
    + naive_solver set_solver.
    + set_solver.
Qed.

Lemma respects_snoc l x :
  respects e l → (∀ b, edge e x b → b ∈ l) → respects e (l ++ [x]).
Proof.
  intros Hl Hx i a b Hi Hab. apply lookup_app_Some in Hi as [Hi|[Hle Hi]].
  - rewrite take_app_le by (apply lookup_lt_Some in Hi; lia). by eapply Hl.
  - apply list_lookup_singleton_Some in Hi as [? <-]. rewrite take_app_ge by done.
    apply elem_of_app. left. auto.
Qed.

Lemma smallest_first_snoc l x :
  smallest_first e l →
  (∀ k, k ∈ dom e → k ∉ l → (∀ b, edge e k b → b ∈ l) → GlobalTaskId.leb x k = true) →
  smallest_first e (l ++ [x]).
Proof.
  intros Hl Hx i a k Hi. apply lookup_app_Some in Hi as [Hi|[Hle Hi]].
  - rewrite take_app_le by (apply lookup_lt_Some in Hi; lia). by apply Hl.
  - apply list_lookup_singleton_Some in Hi as [? <-].
    replace i with (length l) by lia. rewrite take_app_length. apply Hx.
Qed.

Lemma remaining_step s next k :
  kahn_inv s → next ∉ UD.out s → edge e k next →
  pred <$> UD.remaining_deps s !! k =
  (λ ds, size (ds ∖ list_to_set (UD.out s ++ [next]))) <$> (e !! k).
Proof.
  intros Hs Hn (ds & Hk & Hin). rewrite (ki_remaining s Hs), Hk. simpl. f_equal.
  assert (ds ∖ list_to_set (UD.out s ++ [next]) = (ds ∖ list_to_set (UD.out s)) ∖ {[next]}) as ->
    by set_solver.
  rewrite (size_difference _ {[next]}), size_singleton; [lia|].
  apply singleton_subseteq_l, elem_of_difference. by rewrite elem_of_list_to_set.
Qed.

Lemma kahn_inv_step s next :
  kahn_inv s → set_first (UD.ready s) = Some next → kahn_inv (UD.kahn_step rev next s).
Proof.
  intros Hs [Hready Hmin]%set_first_Some. pose proof (proj1 (ki_ready s Hs next) Hready) as (Hout & Hdom & Hdeps).
  assert (∀ k, k ∈ children rev next ↔ edge e k next) as Hl
    by (intros k; by rewrite elem_of_children, Hrev).
  assert (NoDup (children rev next)) as Hnd
    by (unfold children; destruct (rev !! next); [apply NoDup_set_iter|constructor]).
  unfold UD.kahn_step.
  destruct (foldl_release (children rev next) (UD.mk_kahn (UD.remaining_deps s)
    (UD.ready s ∖ {[next]}) (UD.out s ++ [next])) Hnd) as (Ho & Hr & Hrd).
  set (s' := foldl _ _ _) in *. simpl in Ho, Hr, Hrd.
  assert (∀ k, UD.remaining_deps s' !! k =
    (λ ds, size (ds ∖ list_to_set (UD.out s'))) <$> (e !! k)) as Hrem.
  { intros k. rewrite Hr, Ho. case_decide as Hk; [apply remaining_step; [done..|by apply Hl]|].
    rewrite (ki_remaining s Hs). destruct (e !! k) as [ds|] eqn:Ek; [|done]. simpl.
    assert (next ∉ ds) by (intros Hin; apply Hk, Hl; by exists ds).
    by replace (ds ∖ list_to_set (UD.out s ++ [next])) with (ds ∖ list_to_set (UD.out s))
      by set_solver. }
  split; [..|exact Hrem|]; rewrite ?Ho.
  - apply NoDup_app. split_and!; [apply (ki_nodup s Hs)|set_solver|apply NoDup_singleton].
  - intros k [Hk|Hk%list_elem_of_singleton]%elem_of_app; [by apply (ki_out s Hs)|by subst].
  - apply respects_snoc; [apply (ki_order s Hs)|done].
  - apply smallest_first_snoc; [apply (ki_smallest s Hs)|].
    intros k Hk Hko Hkd. by apply Hmin, (ki_ready s Hs).
  - intros k. rewrite Hrd, elem_of_difference, (ki_ready s Hs), Hl, elem_of_singleton.
    rewrite not_elem_of_app, not_elem_of_cons. split.
    + intros [[(H1 & H2 & H3) Hne]|[Hk Hz]]; [set_solver|].
      destruct Hk as (ds & Ek & Hin). rewrite (remaining_step s next k), Ek in Hz;
        [|done|done|by exists ds]. simpl in Hz. injection Hz as Hz. apply size_zero_subset in Hz.
      split_and!; [|intros ->; apply Hout, Hdeps; by exists ds|set_solver|by eapply elem_of_dom_2|].
      * intros [i Hi]%list_elem_of_lookup_1. apply Hout, (elem_of_take_weaken _ i).
        apply (ki_order s Hs i k next); [done|by exists ds].
      * intros b (ds' & Hds' & Hb). simplify_eq. set_solver.
    + intros ((H1 & H2 & _) & H3 & H4). destruct (decide (next ∈ default ∅ (e !! k))) as [Hin|Hno].
      * right. apply edge_default in Hin. split; [done|].
        rewrite (remaining_step s next k) by done. apply elem_of_dom in H3 as [ds Ek].
        rewrite Ek. simpl. f_equal. apply size_zero_subset. intros b Hb.
        apply elem_of_list_to_set, H4. by exists ds.
      * left. split_and!; [done|done| |done]. intros b Hb. rewrite <-edge_default in Hno.
        specialize (H4 b Hb). set_solver.
Qed.

Lemma kahn_inv_run fuel s :
  kahn_inv s → kahn_inv (UD.kahn rev fuel s).
Proof.
  revert s. induction fuel as [|fuel IH]; intros s Hs; simpl; [done|].
  destruct (set_first (UD.ready s)) as [next|] eqn:E; [|done].
  by apply IH, kahn_inv_step.
Qed.

Lemma out_le s : kahn_inv s → length (UD.out s) ≤ size e.
Proof.
  intros Hs. rewrite <-(size_dom e), <-(size_list_to_set (C := gset GlobalTaskId) (UD.out s))
    by apply (ki_nodup s Hs).
  apply subseteq_size. intros k Hk%elem_of_list_to_set. by apply (ki_out s Hs).
Qed.

Lemma out_step next s : UD.out (UD.kahn_step rev next s) = UD.out s ++ [next].
Proof.
  unfold UD.kahn_step. assert (∀ l s0, UD.out (foldl UD.release s0 l) = UD.out s0) as H; [|apply H].
  induction l as [|x l IH]; intros s0; simpl; [done|]. rewrite IH. unfold UD.release.
  by destruct (_ !! x).
Qed.

(** The fuel is enough: the loop ends because nothing is ready. *)
Lemma kahn_drains fuel s :
  kahn_inv s → size e ≤ fuel + length (UD.out s) → UD.ready (UD.kahn rev fuel s) = ∅.
Proof.
  revert s. induction fuel as [|fuel IH]; intros s Hs Hf; simpl.
  - destruct (set_first (UD.ready s)) as [next|] eqn:E; [|by apply set_first_None].
    pose proof (out_le _ (kahn_inv_step s next Hs E)) as H.
    rewrite out_step, length_app in H. simpl in H. lia.
  - destruct (set_first (UD.ready s)) as [next|] eqn:E; [|by apply set_first_None].
    apply IH; [by apply kahn_inv_step|].
    rewrite out_step, length_app. simpl. lia.
Qed.

(** Once nothing is ready, every node without an infinite chain of dependencies is out. *)
Lemma drained_out s k :
  kahn_inv s → UD.ready s = ∅ → Acc (flip (edge e)) k → k ∈ dom e → k ∈ UD.out s.
Proof.
  intros Hs Hr. induction 1 as [k _ IH]. intros Hk.
  destruct (decide (k ∈ UD.out s)) as [|Hno]; [done|]. exfalso.
  assert (k ∈ UD.ready s); [|set_solver]. apply (ki_ready s Hs). split_and!; [done|done|].
  intros b Hb. apply IH; [done|]. by eapply Hclosed.
Qed.

Lemma respects_Acc l :
  respects e l → (∀ k, k ∈ dom e → k ∈ l) → ∀ k, Acc (flip (edge e)) k.
Proof.
  intros Hl Hall.
  assert (∀ n i k, i < n → l !! i = Some k → Acc (flip (edge e)) k) as H.
  { induction n as [|n IH]; intros i k Hi Hk; [lia|]. constructor. intros b Hb.
    pose proof (Hl i k b Hk Hb) as Hin.
    apply elem_of_take in Hin as (j & Hj & Hlt). by apply (IH j); [lia|]. }
  intros k. constructor. intros b (ds & Hk & Hb).
  assert (k ∈ l) as [i Hi]%list_elem_of_lookup_1 by (apply Hall; by eapply elem_of_dom_2).
  apply Acc_inv with k; [by apply (H (S i) i); [lia|]|]. by exists ds.
Qed.
End Kahn.

(** The sort of an indexed DAG: a complete order when there is one, otherwise
    nodes that lie on a cycle. *)
Lemma topological_sort_indexed d :
  indexed d →
  match UD.topological_sort d with
  | Ok l => l ≡ₚ UD.nodes d ∧ respects (UD.edges d) l ∧ smallest_first (UD.edges d) l ∧
      acyclic (UD.edges d)
  | Err (DagError.Cycle l) => l ≠ [] ∧ ∀ x, x ∈ l → on_cycle (UD.edges d) x
  | Err _ => False
  end.
Proof.
  intros Hix. unfold UD.topological_sort.
  set (s := UD.kahn _ _ _).
  assert (∀ a b, edge (UD.edges d) a b → b ∈ dom (UD.edges d)) as Hclosed.
  { intros a b H%(ix_edges d Hix). rewrite (ix_edges_dom d Hix). apply elem_of_dom, H. }
  assert (length (UD.nodes d) = size (UD.edges d)) as Hlen.
  { rewrite (ix_nodes d Hix), length_map_keys, <-!size_dom. by rewrite (ix_edges_dom d Hix). }
  pose proof (ix_reverse d Hix) as Hrev.
  pose proof (kahn_inv_init _ _ Hrev Hclosed) as Hinit.
  assert (kahn_inv (UD.edges d) s) as Hs by by apply kahn_inv_run.
  assert (UD.ready s = ∅) as Hr by (apply (kahn_drains (UD.edges d)); [done..|simpl; lia]).
  assert (∀ k, k ∈ UD.nodes d ↔ k ∈ dom (UD.edges d)) as Hnodes.
  { intros k. by rewrite (ix_nodes d Hix), (ix_edges_dom d Hix), elem_of_map_keys, elem_of_dom. }
  case_decide as Hne.
  - assert (detect_cycle_nodes (UD.edges d) ≠ []) as Hdet.
    { intros Hnil. apply Hne, Permutation_length, NoDup_Permutation.
      - apply (ki_nodup _ _ Hs).
      - rewrite (ix_nodes d Hix). apply NoDup_map_keys.
      - intros k. rewrite Hnodes. split; [apply (ki_out _ _ Hs)|]. intros Hk.
        apply (drained_out _ _ Hrev Hclosed); [done..| |done]. by apply detect_none_acyclic. }
    destruct (detect_cycle_nodes (UD.edges d)) as [|x l] eqn:E; [done|].
    split; [done|]. intros y Hy. apply detect_sound. by rewrite E.
  - assert (UD.out s ≡ₚ UD.nodes d) as Hperm.
    { apply submseteq_length_Permutation; [|lia]. apply NoDup_submseteq; [apply (ki_nodup _ _ Hs)|].
      intros k Hk. apply Hnodes. by apply (ki_out _ _ Hs). }
    split_and!; [done|apply (ki_order _ _ Hs)|apply (ki_smallest _ _ Hs)|].
    intros k. apply Acc_not_on_cycle, (respects_Acc _ (UD.out s)); [apply (ki_order _ _ Hs)|].
    intros k' Hk'. rewrite Hperm. by apply Hnodes.
Qed.

(** ** Correctness of the construction *)

(** The DAG [build] starts from, before its indexes are filled. *)
Definition raw_dag (pt : gmap string (list Task)) (pd : gmap string (gset string))
    (cfg : DagConfig) : UnifiedTaskDag :=
  UD.mk (UD.collect_tasks pt) pd ∅ ∅ [] ∅ cfg.

Lemma collect_tasks_plan pt id :
  is_Some (UD.collect_tasks pt !! id) → is_Some (pt !! GlobalTaskId.plan id).
Proof.
  unfold UD.collect_tasks.
  assert (∀ p ts (m : gmap GlobalTaskId Task),
    is_Some (foldl (λ m task, <[GlobalTaskId.new p (Task.id task) := task]> m) m ts !! id) →
    GlobalTaskId.plan id = p ∨ is_Some (m !! id)) as H1.
  { induction ts as [|t ts IH]; intros m H; simpl in H; [auto|]. apply IH in H as [H|H]; [auto|].
    destruct (decide (GlobalTaskId.new p (Task.id t) = id)) as [<-|Hne]; [by left|].
    rewrite lookup_insert_ne in H; auto. }
  assert (∀ l (m : gmap GlobalTaskId Task),
    is_Some (foldl (λ m p, foldl (λ m task, <[GlobalTaskId.new p.1 (Task.id task) := task]> m) m
      p.2) m l !! id) → GlobalTaskId.plan id ∈ l.*1 ∨ is_Some (m !! id)) as H2.
  { induction l as [|[p ts] l IH]; intros m H; simpl in H; [auto|].
    apply IH in H as [H|H]; [left; set_solver|]. apply H1 in H as [->|H]; [left; set_solver|auto]. }
  intros [Hin|[t Ht]]%H2; [|by destruct (lookup_empty_Some _ _ Ht)].
  rewrite btree_iter_fst in Hin. by apply elem_of_btree_keys.
Qed.

Section BuildFacts.
Context {HI : HashIter}.

Lemma unknown_plan_Some pt l q :
  UD.unknown_plan pt l = Some q →
  ∃ p deps, (p, deps) ∈ l ∧ (q = p ∨ q ∈ deps) ∧ pt !! q = None.
Proof.
  induction l as [|[p deps] l IH]; simpl; [done|]. case_decide as Hp.
  - destruct (List.find _ _) as [dep|] eqn:Hf.
    + intros [= <-]. apply List.find_some in Hf as [Hin Hb]. apply bool_decide_eq_true in Hb.
      exists p, deps. split_and!; [by left| |done]. right.
      by apply elem_of_hash_set_iter, list_elem_of_In.
    + intros (p' & deps' & Hin & H)%IH. exists p', deps'. split; [by right|done].
  - intros [= <-]. exists p, deps. split_and!; [by left|by left|by apply eq_None_not_Some].
Qed.

Lemma declared_ext d d' a b :
  UD.tasks d' = UD.tasks d → UD.plan_deps d' = UD.plan_deps d → UD.config d' = UD.config d →
  declared d' a b ↔ declared d a b.
Proof. unfold declared. by intros -> -> ->. Qed.

Lemma on_cycle_declared d x : indexed d → on_cycle (UD.edges d) x ↔ tc (declared d) x x.
Proof.
  intros Hix. split; intros H.
  - eapply (tc_congruence id); [|exact H]. intros a b. apply (ix_edges d Hix).
  - eapply (tc_congruence id); [|exact H]. intros a b. apply (ix_edges d Hix).
Qed.
End BuildFacts.

(** C12: [UnifiedTaskDag::build] succeeds exactly when every reference names a task,
    every plan of the plan dependencies has tasks, and the declared dependencies
    have no cycle; the graph then holds exactly the declared dependencies, with
    consistent reverse edges, estimates and node list.  Each error names a real
    culprit: an unresolved reference, a plan without tasks, or nodes that do lie on
    a cycle. *)
Theorem build_spec {HI : HashIter} pt pd cfg :
  let d0 := raw_dag pt pd cfg in
  match UD.build pt pd cfg with
  | Ok d => UD.tasks d = UD.collect_tasks pt ∧ UD.plan_deps d = pd ∧ UD.config d = cfg ∧
      indexed d ∧ resolved d ∧ ∀ a, ¬ tc (declared d0) a a
  | Err (DagError.Cycle l) => resolved d0 ∧ l ≠ [] ∧ ∀ a, a ∈ l → tc (declared d0) a a
  | Err err => rebuild_failure d0 err
  end.
Proof.
  intros d0. unfold UD.build.
  destruct (UD.unknown_plan pt (hash_iter pd)) as [q|] eqn:Hq.
  { apply unknown_plan_Some in Hq as (p & deps & Hp%elem_of_hash_iter & Hq & Hno).
    exists p, deps. split_and!; [done..|]. intros (id & Hid%collect_tasks_plan & Hplan).
    rewrite Hplan, Hno in Hid. by destruct Hid. }
  fold (raw_dag pt pd cfg). fold d0. destruct (UD.rebuild_indexes d0) as [d r] eqn:Hr.
  apply rebuild_indexes_spec in Hr as (Ht & Hpd & Hcfg & Hr).
  destruct r as [u|err]; [|by destruct err]. destruct Hr as [Hix Hres].
  assert (resolved d0) as Hres0 by (unfold resolved, refs_resolved in *; by rewrite <-Ht, <-Hpd).
  assert (∀ a, on_cycle (UD.edges d) a ↔ tc (declared d0) a a) as Hcyc.
  { intros a. rewrite (on_cycle_declared d a Hix). split; intros H;
      (eapply (tc_congruence id); [|exact H]); intros x y; by apply declared_ext. }
  pose proof (topological_sort_indexed d Hix) as Hts.
  destruct (UD.topological_sort d) as [l|[l|? ?|?]]; [|..|done|done].
  - split_and!; [done..|]. intros a Ha%Hcyc. by apply Hts in Ha.
  - destruct Hts as [Hl Hon]. split_and!; [done|done|]. intros a Ha. by apply Hcyc, Hon.
Qed.

(** The invariant of a DAG: consistent indexes, resolved references, no cycle. *)
Record dag_ok (d : UnifiedTaskDag) : Prop := {
  ok_indexed : indexed d;
  ok_resolved : refs_resolved d;
  ok_acyclic : acyclic (UD.edges d);
}.

Lemma dag_ok_sort d :
  dag_ok d →
  ∃ l, UD.topological_sort d = Ok l ∧ l ≡ₚ UD.nodes d ∧ respects (UD.edges d) l ∧
    smallest_first (UD.edges d) l.
Proof.
  intros [Hix _ Hac]. pose proof (topological_sort_indexed d Hix) as H.
  destruct (UD.topological_sort d) as [l|[l|? ?|?]]; [naive_solver| |done|done].
  destruct H as [Hl Hon]. destruct l as [|x l]; [done|]. exfalso. apply (Hac x), Hon. by left.
Qed.

Lemma build_Ok {HI : HashIter} pt pd cfg d : UD.build pt pd cfg = Ok d → dag_ok d.
Proof.
  unfold UD.build. destruct (UD.unknown_plan _ _); [done|].
  destruct (UD.rebuild_indexes _) as [d' r] eqn:Hr.
  apply rebuild_indexes_spec in Hr as (_ & _ & _ & Hr). destruct r as [u|err]; [|done].
  destruct Hr as [Hix Hres]. pose proof (topological_sort_indexed d' Hix) as Hts.
  destruct (UD.topological_sort d') as [l|err]; [|done]. intros [= <-].
  split; [done|apply Hres|naive_solver].
Qed.

(** ** A small DAG

    Plan [p] has tasks a, b, c and d: a depends on c, and b and d touch the same file. *)

Definition sample_task (id : string) (deps files : list string) (minutes : N) : Task :=
  {| Task.id := id; Task.title := id; Task.status := TaskStatus.Pending; Task.files := files;
     Task.role := None; Task.acceptance := []; Task.depends_on := deps;
     Task.parallel_group := None; Task.exclusive_files := true;
     Task.estimated_minutes := Some minutes; Task.types_to_define := None;
     Task.formulas := None; Task.test_invariants := None; Task.imports := None;
     Task.example_pattern := None; Task.context_files := None; Task.plan_section := None;
     Task.skills := None; Task.category := None; Task.reasoning_level := None;
     Task.speed_priority := None; Task.quality_profile := None; Task.context_weight := None;
     Task.research_before_edit := None; Task.tags := None; Task.dependency_tags := None;
     Task.fixture_keys := None; Task.sidecar_requirements := None;
     Task.integration_surfaces := None; Task.complexity_band := None;
     Task.preferred_model := None; Task.preferred_provider := None;
     Task.escalate_on_retry := None; Task.domain := None |}.

Definition sample_plans : gmap string (list Task) :=
  {["p" := [sample_task "a" ["c"] [] 5; sample_task "b" [] ["lib.rs"] 7;
            sample_task "c" [] [] 3; sample_task "d" [] ["lib.rs"] 2]]}.

Definition sample_dag (width : nat) : UnifiedTaskDag :=
  match UD.build sample_plans ∅ (DagConfig.mk true width) with
  | Ok d => d
  | Err _ => raw_dag ∅ ∅ DagConfig.default
  end.

Definition sample_id (task : string) : GlobalTaskId := GlobalTaskId.new "p" task.

Lemma sample_dag_build width :
  UD.build sample_plans ∅ (DagConfig.mk true width) = Ok (sample_dag width).
Proof. vm_compute. reflexivity. Qed.

Lemma sample_dag_ok width : dag_ok (sample_dag width).
Proof. eapply build_Ok, sample_dag_build. Qed.
