(* ===== verification/DagSchedule.v ===== *)
(** * Scheduling a task DAG (crates/roko-orchestrator/src/dag.rs)

    Parallel waves, the critical path method, and execution snapshots over a
    [UnifiedTaskDag].  Durations are whole seconds. *)

From stdpp Require Import relations.
From S2P Require Import Prelude Task Ordered CycleDetect Dag.

(** ** Data *)

Module ExecutionWave.
Record t : Type := mk {
  index : nat;
  tasks : list GlobalTaskId;
  estimated_minutes : N;
}.
End ExecutionWave.
Abbreviation ExecutionWave := ExecutionWave.t.

Module DagStats.
Record t : Type := mk {
  nodes : nat; edges : nat; waves : nat; critical_path_minutes : N;
}.
End DagStats.
Abbreviation DagStats := DagStats.t.

Module DagTaskExecutionStatus.
Inductive t : Type :=
  | Pending
  | Ready
  | Running
  | Gating
  | Passed
  | Retrying (attempt : N) (backoff_until_ms : N)
  | Exhausted (attempts : N) (last_error : string)
  | Skipped.

#[global] Instance t_eq_dec : EqDecision t.
Proof. solve_decision. Defined.

Definition is_terminal (s : t) : bool :=
  match s with Passed | Exhausted _ _ | Skipped => true | _ => false end.
Definition satisfies_dependency (s : t) : bool :=
  match s with Passed => true | _ => false end.
Definition is_dispatchable (s : t) : bool :=
  match s with Ready => true | _ => false end.
End DagTaskExecutionStatus.
Abbreviation DagTaskExecutionStatus := DagTaskExecutionStatus.t.

Module DagTaskExecutionMetadata.
Record t : Type := mk {
  task_id : GlobalTaskId;
  status : DagTaskExecutionStatus;
  dependencies : list GlobalTaskId;
  dependents : list GlobalTaskId;
  files : list string;
  estimated_minutes : option N;
  updated_at_ms : N;
}.
End DagTaskExecutionMetadata.
Abbreviation DagTaskExecutionMetadata := DagTaskExecutionMetadata.t.

Module DagExecutionSnapshot.
Record t : Type := mk {
  schema_version : N;
  tasks : gmap string DagTaskExecutionMetadata;
  topological_order : list GlobalTaskId;
  waves : list ExecutionWave;
  timestamp_ms : N;
}.

Definition deps_passed (s : t) (m : DagTaskExecutionMetadata) : bool :=
  forallb (λ dep,
    match tasks s !! GlobalTaskId.to_string dep with
    | Some dep_meta =>
        DagTaskExecutionStatus.satisfies_dependency (DagTaskExecutionMetadata.status dep_meta)
    | None => false
    end) (DagTaskExecutionMetadata.dependencies m).

Definition ready_tasks (s : t) : list GlobalTaskId :=
  omap (λ id,
    match tasks s !! GlobalTaskId.to_string id with
    | None => None
    | Some metadata =>
        if negb (DagTaskExecutionStatus.is_dispatchable (DagTaskExecutionMetadata.status metadata))
        then None
        else if deps_passed s metadata then Some id else None
    end) (topological_order s).
End DagExecutionSnapshot.
Abbreviation DagExecutionSnapshot := DagExecutionSnapshot.t.

Definition DAG_EXECUTION_SNAPSHOT_SCHEMA_VERSION : N := 1.

(** ** Waves *)

Module Waves.
Section Waves.
Context {HI : HashIter} (d : UnifiedTaskDag).

(** A table filled along an order: each entry is computed from the earlier ones. *)
Definition table {A} (f : gmap GlobalTaskId A → GlobalTaskId → A) (order : list GlobalTaskId) :
    gmap GlobalTaskId A :=
  foldl (λ m node, <[node := f m node]> m) ∅ order.

(** [edges.get(node).map(|dep| depth(dep) + 1).max().unwrap_or(0)] *)
Definition node_depth (depth : gmap GlobalTaskId nat) (node : GlobalTaskId) : nat :=
  foldr Nat.max 0 ((λ dep, default 0 (depth !! dep) + 1) <$> children (UD.edges d) node).

Definition by_depth (depth : gmap GlobalTaskId nat) : gmap nat (gset GlobalTaskId) :=
  foldl (λ m p, <[p.2 := {[p.1]} ∪ default ∅ (m !! p.2)]> m) ∅ (hash_iter depth).

Definition batch_estimate (batch : list GlobalTaskId) : N :=
  foldr N.max 0%N ((λ id, default 0%N (UD.estimates d !! id)) <$> batch).

Definition emit (waves : list ExecutionWave) (batch : list GlobalTaskId) : list ExecutionWave :=
  waves ++ [ExecutionWave.mk (length waves) batch (batch_estimate batch)].

(** [take]: the whole list when the width is unbounded. *)
Definition wave_take (len : nat) : nat :=
  let max_width := DagConfig.max_wave_width (UD.config d) in
  if decide (max_width = 0) then len else Nat.min len max_width.

(** One depth bucket.  The [while] runs at most once: with an unbounded width it
    takes everything, otherwise it breaks with the rest as the new overflow. *)
Definition bucket_step (acc : list ExecutionWave * list GlobalTaskId)
    (bucket : gset GlobalTaskId) : list ExecutionWave * list GlobalTaskId :=
  let '(waves, overflow) := acc in
  let combined := sort_ids (overflow ++ set_iter bucket) in
  match combined with
  | [] => (waves, [])
  | _ =>
      let n := wave_take (length combined) in
      (emit waves (take n combined), drop n combined)
  end.

(** The final overflow; each round removes at least one task. *)
Fixpoint drain_overflow (fuel : nat) (waves : list ExecutionWave) (overflow : list GlobalTaskId) :
    list ExecutionWave :=
  match fuel, overflow with
  | S fuel', _ :: _ =>
      let n := wave_take (length overflow) in
      drain_overflow fuel' (emit waves (take n overflow)) (drop n overflow)
  | _, _ => waves
  end.

Definition buckets (depth : gmap GlobalTaskId nat) : list (gset GlobalTaskId) :=
  omap (λ k, by_depth depth !! k) (map_keys (by_depth depth)).

Definition waves : result (list ExecutionWave) DagError :=
  let? topo := UD.topological_sort d in
  let depth := table node_depth topo in
  let '(ws, overflow) := foldl bucket_step ([], []) (buckets depth) in
  Ok (drain_overflow (length overflow) ws overflow).
End Waves.
End Waves.

(** ** The critical path method *)

Module Cpm.
Section Cpm.
Context (d : UnifiedTaskDag).

(** [task_duration]: estimated minutes in seconds. *)
Definition task_duration (id : GlobalTaskId) : N :=
  match UD.tasks d !! id with
  | Some task =>
      match Task.estimated_minutes task with
      | Some minutes => (minutes * 60)%N
      | None => 0%N
      end
  | None => 0%N
  end.

Definition duration_at (m : gmap GlobalTaskId N) (id : GlobalTaskId) : N := default 0%N (m !! id).

Definition earliest_of (earliest : gmap GlobalTaskId N) (node : GlobalTaskId) : N :=
  foldr N.max 0%N
    ((λ dep, (duration_at earliest dep + task_duration dep)%N) <$> set_iter (UD.deps_of d node)).

Definition project_duration (earliest : gmap GlobalTaskId N) (topo : list GlobalTaskId) : N :=
  foldl (λ acc node, N.max acc (duration_at earliest node + task_duration node)%N) 0%N topo.

(** [min().unwrap_or(project_duration)] over the dependents. *)
Definition latest_finish (total : N) (latest : gmap GlobalTaskId N) (node : GlobalTaskId) : N :=
  match (λ dep, default total (latest !! dep)) <$> set_iter (UD.dependents_of d node) with
  | [] => total
  | x :: l => foldr N.min x l
  end.

Definition latest_of (total : N) (latest : gmap GlobalTaskId N) (node : GlobalTaskId) : N :=
  sat_sub (latest_finish total latest node) (task_duration node).

Definition cpm_analysis :
    option (gmap GlobalTaskId N * gmap GlobalTaskId N * N * list GlobalTaskId) :=
  match UD.topological_sort d with
  | Err _ => None
  | Ok topo =>
      let earliest := Waves.table earliest_of topo in
      let total := project_duration earliest topo in
      let latest := Waves.table (latest_of total) (reverse topo) in
      Some (earliest, latest, total, topo)
  end.

Definition earliest_start (id : GlobalTaskId) : N :=
  match cpm_analysis with Some (earliest, _, _, _) => duration_at earliest id | None => 0%N end.
Definition latest_start (id : GlobalTaskId) : N :=
  match cpm_analysis with Some (_, latest, _, _) => duration_at latest id | None => 0%N end.
Definition slack (id : GlobalTaskId) : N := sat_sub (latest_start id) (earliest_start id).

Definition critical_path : list GlobalTaskId :=
  match cpm_analysis with
  | None => []
  | Some (earliest, latest, _, topo) =>
      List.filter (λ id,
        match earliest !! id, latest !! id with
        | Some es, Some ls => (sat_sub ls es =? 0)%N
        | _, _ => false
        end) topo
  end.

(** [duration_to_minutes] *)
Definition duration_to_minutes (secs : N) : N := N.min (secs / 60) u32_MAX.

Definition stats `{!HashIter} : DagStats :=
  DagStats.mk (length (UD.nodes d))
    (foldr Nat.add 0 (size <$> hash_values (UD.edges d)))
    (match Waves.waves d with Ok w => length w | Err _ => 0 end)
    (match cpm_analysis with Some (_, _, total, _) => duration_to_minutes total | None => 0%N end).
End Cpm.
End Cpm.

(** ** Execution snapshots *)

Section Snapshot.
Context {HI : HashIter} (d : UnifiedTaskDag).

Definition snapshot_metadata (statuses : gmap GlobalTaskId DagTaskExecutionStatus)
    (timestamp_ms : N) (id : GlobalTaskId) : DagTaskExecutionMetadata :=
  let dependencies := set_iter (UD.deps_of d id) in
  let dependents := set_iter (UD.dependents_of d id) in
  let task := UD.tasks d !! id in
  let status :=
    default (match dependencies with
             | [] => DagTaskExecutionStatus.Ready
             | _ => DagTaskExecutionStatus.Pending
             end) (statuses !! id) in
  DagTaskExecutionMetadata.mk id status dependencies dependents
    (match task with Some t => Task.files t | None => [] end)
    (match task with Some t => Task.estimated_minutes t | None => None end) timestamp_ms.

Definition execution_snapshot (statuses : gmap GlobalTaskId DagTaskExecutionStatus)
    (timestamp_ms : N) : result DagExecutionSnapshot DagError :=
  let? topological_order := UD.topological_sort d in
  let? waves := Waves.waves d in
  let tasks :=
    foldl (λ m id, <[GlobalTaskId.to_string id := snapshot_metadata statuses timestamp_ms id]> m)
      ∅ (UD.nodes d) in
  Ok (DagExecutionSnapshot.mk DAG_EXECUTION_SNAPSHOT_SCHEMA_VERSION tasks topological_order waves
        timestamp_ms).
End Snapshot.

(** ** Tables along a topological order *)

Section Table.
Context {A : Type} (f : gmap GlobalTaskId A → GlobalTaskId → A).
Implicit Types order : list GlobalTaskId.

Lemma table_snoc order x :
  Waves.table f (order ++ [x]) = <[x := f (Waves.table f order) x]> (Waves.table f order).
Proof. unfold Waves.table. by rewrite foldl_app. Qed.

Lemma dom_table order k : is_Some (Waves.table f order !! k) ↔ k ∈ order.
Proof.
  induction order as [|x order IH] using rev_ind.
  { unfold Waves.table. simpl. rewrite lookup_empty. split; [by intros []|set_solver]. }
  rewrite table_snoc, elem_of_app, list_elem_of_singleton, <-IH.
  destruct (decide (x = k)) as [->|Hne].
  - rewrite lookup_insert_eq. split; [auto|]. eauto.
  - rewrite lookup_insert_ne by done. naive_solver.
Qed.

Context (needs : GlobalTaskId → GlobalTaskId → Prop).
Context (Hf : ∀ m m' x, (∀ y, needs x y → m !! y = m' !! y) → f m x = f m' x).

(** The table satisfies its defining equation once it is complete. *)
Lemma table_fix order :
  NoDup order → (∀ i x y, order !! i = Some x → needs x y → y ∈ take i order) →
  ∀ x, x ∈ order → Waves.table f order !! x = Some (f (Waves.table f order) x).
Proof.
  induction order as [|z order IH] using rev_ind; intros Hnd Hord x Hx; [set_solver|].
  apply NoDup_app in Hnd as (Hnd & Hz & _). rewrite table_snoc.
  assert (z ∉ order) as Hz' by (intros Hin; apply (Hz z Hin); by left).
  assert (∀ i x y, order !! i = Some x → needs x y → y ∈ take i order) as Hord'.
  { intros i a b Hi Hab. assert (i < length order)%nat by by eapply lookup_lt_Some.
    rewrite <-(take_app_le order [z]) by lia. eapply Hord; [by apply lookup_app_l_Some|done]. }
  apply elem_of_app in Hx as [Hx|Hx%list_elem_of_singleton]; [|subst x].
  - assert (x ≠ z) by congruence. rewrite lookup_insert_ne by done. rewrite IH by done. f_equal.
    apply Hf. intros y Hy. rewrite lookup_insert_ne; [done|]. intros <-.
    apply list_elem_of_lookup_1 in Hx as [i Hi]. apply Hz'.
    by eapply elem_of_take_weaken, Hord'.
  - rewrite lookup_insert_eq. f_equal. apply Hf. intros y Hy.
    rewrite lookup_insert_ne; [done|]. intros <-. apply Hz'.
    rewrite <-(take_app_length order [z]). eapply Hord; [|done]. by apply list_lookup_middle.
Qed.
End Table.

Lemma respects_reverse (e rev : id_graph) l :
  (∀ a b, edge rev a b ↔ edge e b a) → NoDup l → respects e l →
  (∀ a b, edge e a b → a ∈ l) →
  ∀ i x y, reverse l !! i = Some x → edge rev x y → y ∈ take i (reverse l).
Proof.
  intros Hrev Hnd Hl Hall i x y Hi Hxy%Hrev.
  assert (i < length l)%nat by (rewrite <-length_reverse; by eapply lookup_lt_Some).
  rewrite reverse_lookup in Hi by done.
  pose proof (Hall y x Hxy) as [j Hj]%list_elem_of_lookup_1.
  assert (j < length l)%nat by by eapply lookup_lt_Some.
  pose proof (Hl j y x Hj Hxy) as Hx. apply elem_of_take in Hx as (k & Hk & Hkj).
  assert (k = length l - S i)%nat as -> by by eapply NoDup_lookup.
  apply elem_of_take. exists (length l - S j)%nat. split; [|lia].
  rewrite reverse_lookup by lia. rewrite <-Hj. f_equal. lia.
Qed.

(** ** Correctness of the waves *)

Lemma foldr_max_ge (l : list nat) x : x ∈ l → x ≤ foldr Nat.max 0 l.
Proof. induction l as [|y l IH]; simpl; [set_solver|]. intros [->|H%IH]%elem_of_cons; lia. Qed.

Lemma StronglySorted_lookup {A} (R : A → A → Prop) l i j x y :
  StronglySorted R l → l !! i = Some x → l !! j = Some y → i < j → R x y.
Proof.
  intros Hs. revert i j. induction Hs as [|z l _ IH Hz]; intros i j Hi Hj Hij; [done|].
  destruct j as [|j]; [lia|]. simpl in Hj. destruct i as [|i]; simpl in Hi.
  - simplify_eq. rewrite Forall_forall in Hz. by eapply Hz, list_elem_of_lookup_2.
  - eapply IH; [done..|lia].
Qed.

(** The tasks of a list of waves, in order. *)
Definition wave_tasks (ws : list ExecutionWave) : list GlobalTaskId :=
  concat (ExecutionWave.tasks <$> ws).

Lemma wave_tasks_app ws ws' : wave_tasks (ws ++ ws') = wave_tasks ws ++ wave_tasks ws'.
Proof. unfold wave_tasks. by rewrite fmap_app, concat_app. Qed.

Lemma elem_of_wave_tasks ws a : a ∈ wave_tasks ws ↔ ∃ w, w ∈ ws ∧ a ∈ ExecutionWave.tasks w.
Proof.
  induction ws as [|w ws IH]; [set_solver|].
  change (wave_tasks (w :: ws)) with (ExecutionWave.tasks w ++ wave_tasks ws).
  rewrite elem_of_app, IH. set_solver.
Qed.

Section WaveFacts.
Context {HI : HashIter} (d : UnifiedTaskDag).
Implicit Types (ws : list ExecutionWave) (ov : list GlobalTaskId).

(** Waves are numbered, non-empty, within the width, and carry their estimate. *)
Definition waves_wf ws : Prop :=
  ∀ i w, ws !! i = Some w →
    ExecutionWave.index w = i ∧ ExecutionWave.tasks w ≠ [] ∧
    ExecutionWave.estimated_minutes w = Waves.batch_estimate d (ExecutionWave.tasks w) ∧
    (DagConfig.max_wave_width (UD.config d) ≠ 0 →
     length (ExecutionWave.tasks w) ≤ DagConfig.max_wave_width (UD.config d)).

Lemma emit_wf ws l n :
  waves_wf ws → l ≠ [] → n = Waves.wave_take d (length l) → waves_wf (Waves.emit d ws (take n l)).
Proof.
  intros Hws Hl -> i w Hi. apply lookup_app_Some in Hi as [Hi|[Hle Hi]]; [by apply Hws|].
  apply list_lookup_singleton_Some in Hi as [Hi <-]. simpl. unfold Waves.wave_take.
  assert (length l ≠ 0) by by destruct l. split_and!; [lia| |done|].
  - intros E%(f_equal length). rewrite length_take in E. simpl in E. case_decide; lia.
  - intros Hw. rewrite length_take. case_decide; lia.
Qed.

Lemma emit_perm ws l n :
  wave_tasks (Waves.emit d ws (take n l)) ++ drop n l = wave_tasks ws ++ l.
Proof.
  unfold Waves.emit. rewrite wave_tasks_app, <-app_assoc. f_equal.
  unfold wave_tasks. simpl. by rewrite app_nil_r, take_drop.
Qed.

Lemma bucket_step_spec ws ov bucket ws' ov' :
  Waves.bucket_step d (ws, ov) bucket = (ws', ov') → waves_wf ws →
  waves_wf ws' ∧ wave_tasks ws' ++ ov' ≡ₚ wave_tasks ws ++ ov ++ set_iter bucket ∧
  (DagConfig.max_wave_width (UD.config d) = 0 → ov' = []).
Proof.
  unfold Waves.bucket_step. intros H Hws.
  assert (sort_ids (ov ++ set_iter bucket) ≡ₚ ov ++ set_iter bucket) as Hp by apply sort_by_perm.
  destruct (sort_ids (ov ++ set_iter bucket)) as [|x l] eqn:E; simplify_eq.
  - apply Permutation_nil in Hp. by rewrite Hp, app_nil_r.
  - split_and!; [by eapply emit_wf| |].
    + by rewrite emit_perm, <-Hp.
    + intros Hw. unfold Waves.wave_take. rewrite decide_True by done. by rewrite drop_all.
Qed.

Lemma bucket_fold_spec bs ws ov ws' ov' :
  foldl (Waves.bucket_step d) (ws, ov) bs = (ws', ov') → waves_wf ws →
  waves_wf ws' ∧ wave_tasks ws' ++ ov' ≡ₚ wave_tasks ws ++ ov ++ concat (set_iter <$> bs).
Proof.
  revert ws ov. induction bs as [|b bs IH]; intros ws ov H Hws; cbn [foldl] in H.
  { simplify_eq. simpl. by rewrite app_nil_r. }
  destruct (Waves.bucket_step d (ws, ov) b) as [ws1 ov1] eqn:Hb.
  apply bucket_step_spec in Hb as (Hws1 & Hp1 & _); [|done].
  apply IH in H as [Hws' Hp']; [|done]. split; [done|].
  rewrite Hp', app_assoc, Hp1. simpl. by rewrite !app_assoc.
Qed.

Lemma drain_overflow_spec fuel ws ov :
  waves_wf ws → length ov ≤ fuel →
  waves_wf (Waves.drain_overflow d fuel ws ov) ∧
  wave_tasks (Waves.drain_overflow d fuel ws ov) = wave_tasks ws ++ ov.
Proof.
  revert ws ov. induction fuel as [|fuel IH]; intros ws ov Hws Hf; destruct ov as [|x ov]; simpl.
  - by rewrite app_nil_r.
  - simpl in Hf. lia.
  - by rewrite app_nil_r.
  - destruct (IH (Waves.emit d ws (take (Waves.wave_take d (S (length ov))) (x :: ov)))
      (drop (Waves.wave_take d (S (length ov))) (x :: ov))) as [H1 H2].
    + by eapply emit_wf.
    + rewrite length_drop. simpl in *. unfold Waves.wave_take. case_decide; lia.
    + split; [done|]. by rewrite H2, emit_perm.
Qed.

Lemma elem_of_by_depth depth k a :
  a ∈ default ∅ (Waves.by_depth depth !! k) ↔ depth !! a = Some k.
Proof.
  unfold Waves.by_depth.
  assert (∀ l (m : gmap nat (gset GlobalTaskId)),
    a ∈ default ∅ (foldl (λ m p, <[p.2 := {[p.1]} ∪ default ∅ (m !! p.2)]> m) m l !! k) ↔
    (a, k) ∈ l ∨ a ∈ default ∅ (m !! k)) as H.
  { induction l as [|[x j] l IH]; intros m; simpl; [set_solver|]. rewrite IH.
    destruct (decide (j = k)) as [->|Hne].
    - rewrite lookup_insert_eq. simpl. set_solver.
    - rewrite lookup_insert_ne by done. set_solver. }
  rewrite H, elem_of_hash_iter, lookup_empty. set_solver.
Qed.

(** The buckets partition the tasks of the depth table. *)
Lemma buckets_concat depth :
  concat (set_iter <$> Waves.buckets depth) ≡ₚ map_keys depth.
Proof.
  unfold Waves.buckets.
  assert (∀ ks, NoDup ks →
    NoDup (concat (set_iter <$> omap (λ k, Waves.by_depth depth !! k) ks)) ∧
    ∀ a, a ∈ concat (set_iter <$> omap (λ k, Waves.by_depth depth !! k) ks) ↔
      ∃ k, k ∈ ks ∧ depth !! a = Some k) as H.
  { induction ks as [|k ks IH]; intros Hnd; [split; [constructor|set_solver]|].
    apply NoDup_cons in Hnd as [Hk Hnd]. destruct (IH Hnd) as [IH1 IH2]. cbn [omap list_omap].
    pose proof (elem_of_by_depth depth k) as Hb.
    destruct (Waves.by_depth depth !! k) as [b|]; simpl in Hb.
    - rewrite fmap_cons. cbn [concat]. split.
      + apply NoDup_app. split_and!; [apply NoDup_set_iter| |done].
        intros a Ha%elem_of_set_iter%Hb (k' & Hk' & Ha')%IH2. by simplify_eq.
      + intros a. rewrite elem_of_app, elem_of_set_iter, Hb, IH2. set_solver.
    - split; [done|]. intros a. rewrite IH2. specialize (Hb a). set_solver. }
  destruct (H (map_keys (Waves.by_depth depth))) as [H1 H2]; [apply NoDup_map_keys|].
  apply NoDup_Permutation; [done|apply NoDup_map_keys|]. intros a. rewrite H2, elem_of_map_keys.
  split; [intros (k & _ & Ha); eauto|]. intros [k Ha]. exists k. split; [|done].
  apply elem_of_map_keys. apply elem_of_by_depth in Ha.
  destruct (Waves.by_depth depth !! k); [eauto|]. simpl in Ha. set_solver.
Qed.

(** Every task of wave [w] has depth [k]. *)
Definition layer (depth : gmap GlobalTaskId nat) (w : ExecutionWave) (k : nat) : Prop :=
  ∀ a, a ∈ ExecutionWave.tasks w → depth !! a = Some k.

Definition layered (depth : gmap GlobalTaskId nat) ws (ks : list nat) : Prop :=
  Forall2 (layer depth) ws ks ∧ StronglySorted lt ks.

Lemma bucket_fold_layers depth ks ws kks ws' ov' :
  DagConfig.max_wave_width (UD.config d) = 0 →
  foldl (Waves.bucket_step d) (ws, []) (omap (λ k, Waves.by_depth depth !! k) ks) = (ws', ov') →
  layered depth ws kks → StronglySorted lt ks → (∀ k k', k ∈ kks → k' ∈ ks → k < k') →
  ov' = [] ∧ ∃ kks', layered depth ws' kks'.
Proof.
  intros Hw. revert ws kks. induction ks as [|k ks IH]; intros ws kks Hf Hl Hs Hlt.
  { simpl in Hf. simplify_eq. eauto. }
  apply StronglySorted_inv in Hs as [Hs Hk]. rewrite Forall_forall in Hk.
  cbn [omap list_omap] in Hf. pose proof (elem_of_by_depth depth k) as Hb.
  destruct (Waves.by_depth depth !! k) as [b|];
    [|eapply IH; [done..|]; intros; apply Hlt; [done|by right]].
  cbn [foldl] in Hf. simpl in Hb.
  assert (∃ ws1 kks1, Waves.bucket_step d (ws, []) b = (ws1, []) ∧ layered depth ws1 kks1 ∧
    ∀ j, j ∈ kks1 → j = k ∨ j ∈ kks) as (ws1 & kks1 & Hb1 & Hl1 & Hk1).
  { unfold Waves.bucket_step. simpl.
    assert (∀ a, a ∈ sort_ids (set_iter b) → depth !! a = Some k) as Hall.
    { intros a Ha. apply Hb, elem_of_set_iter. by rewrite elem_of_sort_ids in Ha. }
    destruct (sort_ids (set_iter b)) as [|x l]; [by exists ws, kks; auto|].
    unfold Waves.wave_take. rewrite decide_True by done. rewrite firstn_all, drop_all.
    exists (Waves.emit d ws (x :: l)), (kks ++ [k]). split_and!; [done|split|set_solver].
    - apply Forall2_app; [apply Hl|]. repeat constructor. exact Hall.
    - apply StronglySorted_app. destruct Hl as [_ Hl]. split_and!; [set_solver|done|].
      repeat constructor. }
  rewrite Hb1 in Hf. eapply IH; [done..|]. intros j j' [->|Hj]%Hk1 Hj'; [by apply Hk|].
  apply Hlt; [done|by right].
Qed.

Lemma map_keys_lt {V} (m : gmap nat V) : StronglySorted lt (map_keys m).
Proof.
  assert (StronglySorted (λ a b, Nat.leb a b = true) (map_keys m)) as Hs
    by (apply sort_by_sorted; [apply ord_leb_total|apply ord_leb_trans]).
  pose proof (NoDup_map_keys m) as Hnd. induction Hs as [|x l Hl IH Hx]; [constructor|].
  apply NoDup_cons in Hnd as [Hn Hnd]. constructor; [by apply IH|].
  rewrite Forall_forall in Hx |- *. intros y Hy. specialize (Hx y Hy).
  apply Nat.leb_le in Hx. assert (x ≠ y) by congruence. lia.
Qed.

(** Waves with increasing depths put deeper tasks later. *)
Lemma layered_lt depth ws ks i j wi wj a b da db :
  layered depth ws ks → ws !! i = Some wi → ws !! j = Some wj →
  a ∈ ExecutionWave.tasks wi → b ∈ ExecutionWave.tasks wj →
  depth !! a = Some da → depth !! b = Some db → db < da → j < i.
Proof.
  intros [Hl Hs] Hi Hj Ha Hb Hda Hdb Hlt.
  destruct (Forall2_lookup_l _ _ _ _ _ Hl Hi) as (ki & Hki & Hli).
  destruct (Forall2_lookup_l _ _ _ _ _ Hl Hj) as (kj & Hkj & Hlj).
  pose proof (Hli a Ha). pose proof (Hlj b Hb). simplify_eq.
  destruct (decide (j < i)) as [|Hge]; [done|]. exfalso.
  assert (i = j ∨ i < j) as [->|Hij] by lia; [simplify_eq; lia|].
  pose proof (StronglySorted_lookup lt ks i j _ _ Hs Hki Hkj Hij). lia.
Qed.

Lemma elem_of_nodes a : dag_ok d → a ∈ UD.nodes d ↔ is_Some (UD.tasks d !! a).
Proof. intros Hd. by rewrite (ix_nodes d (ok_indexed d Hd)), elem_of_map_keys. Qed.

Lemma NoDup_nodes : dag_ok d → NoDup (UD.nodes d).
Proof. intros Hd. rewrite (ix_nodes d (ok_indexed d Hd)). apply NoDup_map_keys. Qed.

Lemma node_depth_ext m m' x :
  (∀ y, edge (UD.edges d) x y → m !! y = m' !! y) → Waves.node_depth d m x = Waves.node_depth d m' x.
Proof.
  intros H. unfold Waves.node_depth. f_equal. apply list_fmap_ext. intros i y Hy. simpl.
  rewrite H; [done|]. by eapply elem_of_children, list_elem_of_lookup_2.
Qed.

(** Dependencies are strictly less deep. *)
Lemma depth_lt topo a b :
  NoDup topo → respects (UD.edges d) topo → a ∈ topo → edge (UD.edges d) a b →
  let depth := Waves.table (Waves.node_depth d) topo in
  ∃ da db, depth !! a = Some da ∧ depth !! b = Some db ∧ db < da.
Proof.
  intros Hnd Hresp Ha Hab depth.
  assert (b ∈ topo) as Hb.
  { apply list_elem_of_lookup_1 in Ha as [i Hi]. by eapply elem_of_take_weaken, Hresp. }
  pose proof (table_fix (Waves.node_depth d) (edge (UD.edges d)) node_depth_ext topo Hnd Hresp a Ha)
    as Hda. fold depth in Hda.
  destruct (proj2 (dom_table (Waves.node_depth d) topo b) Hb) as [db Hdb]. fold depth in Hdb.
  exists (Waves.node_depth d depth a), db. split_and!; [done|done|].
  enough (db + 1 ≤ Waves.node_depth d depth a) by lia. apply foldr_max_ge.
  apply list_elem_of_fmap. exists b. split; [by rewrite Hdb|by apply elem_of_children].
Qed.
End WaveFacts.

(** C14: the waves of a DAG partition its tasks; they are numbered from zero,
    non-empty, no wider than the configured width, and carry the largest estimate
    of their tasks.  With an unbounded width a task always runs in a later wave than
    everything it depends on, so the tasks of a wave are independent. *)
Theorem waves_spec {HI : HashIter} d :
  dag_ok d →
  ∃ ws, Waves.waves d = Ok ws ∧ wave_tasks ws ≡ₚ UD.nodes d ∧ waves_wf d ws ∧
    (DagConfig.max_wave_width (UD.config d) = 0 →
     ∀ i j wi wj a b, ws !! i = Some wi → ws !! j = Some wj →
       a ∈ ExecutionWave.tasks wi → b ∈ ExecutionWave.tasks wj → declared d a b → j < i).
Proof.
  intros Hd. destruct (dag_ok_sort d Hd) as (topo & Hts & Hperm & Hresp & _).
  assert (NoDup topo) as Hnd by (rewrite Hperm; by apply NoDup_nodes).
  unfold Waves.waves. rewrite Hts. set (depth := Waves.table (Waves.node_depth d) topo).
  destruct (foldl _ _ _) as [ws ov] eqn:Hf.
  pose proof (bucket_fold_spec d _ _ _ _ _ Hf) as [Hwf Hp]; [by intros i w Hi|].
  destruct (drain_overflow_spec d (length ov) ws ov) as [Hwf' Htasks]; [done|done|].
  eexists. split_and!; [done| |done|].
  - rewrite Htasks, Hp. simpl. rewrite buckets_concat, <-Hperm.
    apply NoDup_Permutation; [apply NoDup_map_keys|done|]. intros a.
    rewrite elem_of_map_keys. apply dom_table.
  - intros Hw. destruct (bucket_fold_layers d depth (map_keys (Waves.by_depth depth)) [] [] ws ov)
      as (-> & ks & Hl); [done|done|by repeat constructor|apply map_keys_lt|set_solver|].
    simpl. intros i j wi wj a b Hi Hj Ha Hb Hab.
    assert (a ∈ topo) as Hat.
    { rewrite Hperm, elem_of_nodes by done. destruct Hab as (_ & t & Ht & _). eauto. }
    destruct (depth_lt d topo a b) as (da & db & Hda & Hdb & Hlt); [done..| |].
    { by apply (ix_edges d (ok_indexed d Hd)). }
    by eapply (layered_lt depth ws ks i j).
Qed.

Lemma waves_spec_witness :
  ∃ ws, Waves.waves (sample_dag 0) = Ok ws ∧ wave_tasks ws ≡ₚ UD.nodes (sample_dag 0) ∧
    ∀ i j wi wj, ws !! i = Some wi → ws !! j = Some wj →
      sample_id "d" ∈ ExecutionWave.tasks wi → sample_id "b" ∈ ExecutionWave.tasks wj → j < i.
Proof.
  destruct (waves_spec (sample_dag 0) (sample_dag_ok 0)) as (ws & H1 & H2 & _ & H4).
  exists ws. split_and!; [exact H1|exact H2|]. intros i j wi wj Hi Hj Hd Hb.
  apply (H4 eq_refl i j wi wj (sample_id "d") (sample_id "b")); try assumption.
  apply (ix_edges _ (ok_indexed _ (sample_dag_ok 0))).
  exists {[sample_id "b"]}. split; [vm_compute; reflexivity|]. set_solver.
Defined.

(** With a bounded width the guarantee is lost: the overflow of a depth is sorted
    together with the next depth, and here a runs one wave before c, on which it
    depends. *)
Lemma bounded_waves_break_dependencies :
  declared (sample_dag 1) (sample_id "a") (sample_id "c") ∧
  (ExecutionWave.tasks <$>
     match Waves.waves (sample_dag 1) with Ok ws => ws | Err _ => [] end) =
  [[sample_id "b"]; [sample_id "a"]; [sample_id "c"]; [sample_id "d"]].
Proof.
  split; [|vm_compute; reflexivity].
  apply (ix_edges _ (ok_indexed _ (sample_dag_ok 1))).
  exists {[sample_id "c"]}. split; [vm_compute; reflexivity|]. set_solver.
Qed.

(** ** Correctness of the critical path method *)

Lemma foldr_Nmax_le (l : list N) (n : N) :
  (foldr N.max 0 l ≤ n)%N ↔ ∀ x, x ∈ l → (x ≤ n)%N.
Proof.
  induction l as [|y l IH]; cbn [foldr]; [split; [set_solver|lia]|].
  rewrite N.max_lub_iff, IH. setoid_rewrite elem_of_cons. naive_solver.
Qed.

Lemma foldr_Nmin_ge (l : list N) (y n : N) :
  (n ≤ foldr N.min y l)%N ↔ (n ≤ y)%N ∧ ∀ x, x ∈ l → (n ≤ x)%N.
Proof.
  induction l as [|z l IH]; cbn [foldr]; [split; [set_solver|naive_solver]|].
  rewrite N.min_glb_iff, IH. setoid_rewrite elem_of_cons. naive_solver.
Qed.

Section CpmFacts.
Context (d : UnifiedTaskDag).
Implicit Types (S : GlobalTaskId → N) (T : N) (a b : GlobalTaskId).

(** A schedule starts a task after everything it depends on has finished. *)
Definition feasible S : Prop :=
  ∀ a b, declared d a b → (S b + Cpm.task_duration d b ≤ S a)%N.

Definition finishes_by S T : Prop :=
  ∀ a, is_Some (UD.tasks d !! a) → (S a + Cpm.task_duration d a ≤ T)%N.

Lemma elem_of_deps_of a b : indexed d → b ∈ set_iter (UD.deps_of d a) ↔ declared d a b.
Proof.
  intros Hix. unfold UD.deps_of. by rewrite elem_of_set_iter, <-edge_default, (ix_edges d Hix).
Qed.

Lemma elem_of_dependents_of a b :
  indexed d → b ∈ set_iter (UD.dependents_of d a) ↔ declared d b a.
Proof.
  intros Hix. unfold UD.dependents_of.
  by rewrite elem_of_set_iter, <-edge_default, (ix_reverse d Hix), (ix_edges d Hix).
Qed.

Lemma earliest_of_le m a n :
  indexed d → (Cpm.earliest_of d m a ≤ n)%N ↔
    ∀ b, declared d a b → (Cpm.duration_at m b + Cpm.task_duration d b ≤ n)%N.
Proof.
  intros Hix. unfold Cpm.earliest_of. rewrite foldr_Nmax_le. setoid_rewrite list_elem_of_fmap.
  split.
  - intros H b Hb. apply H. exists b. split; [done|]. by apply elem_of_deps_of.
  - intros H x (b & -> & Hb%elem_of_deps_of); auto.
Qed.

Lemma earliest_of_ext m m' a :
  indexed d → (∀ b, declared d a b → m !! b = m' !! b) →
  Cpm.earliest_of d m a = Cpm.earliest_of d m' a.
Proof.
  intros Hix H. unfold Cpm.earliest_of, Cpm.duration_at. f_equal. apply list_fmap_ext.
  intros i b Hb. simpl. rewrite H; [done|]. by eapply elem_of_deps_of, list_elem_of_lookup_2.
Qed.

Lemma project_duration_le m topo n :
  (Cpm.project_duration d m topo ≤ n)%N ↔
    ∀ a, a ∈ topo → (Cpm.duration_at m a + Cpm.task_duration d a ≤ n)%N.
Proof.
  unfold Cpm.project_duration.
  assert (∀ acc, (foldl (λ acc node,
      N.max acc (Cpm.duration_at m node + Cpm.task_duration d node)) acc topo ≤ n)%N ↔
    (acc ≤ n)%N ∧ ∀ a, a ∈ topo → (Cpm.duration_at m a + Cpm.task_duration d a ≤ n)%N) as H.
  { induction topo as [|x topo IH]; intros acc; cbn [foldl]; [set_solver|].
    rewrite IH, N.max_lub_iff. setoid_rewrite elem_of_cons. naive_solver. }
  rewrite H. split; [naive_solver|]. intros Ha. split; [lia|done].
Qed.

Lemma latest_finish_ge T m a n :
  indexed d → (∀ b, declared d b a → (default T (m !! b) ≤ T)%N) →
  (n ≤ Cpm.latest_finish d T m a)%N ↔
    (n ≤ T)%N ∧ ∀ b, declared d b a → (n ≤ default T (m !! b))%N.
Proof.
  intros Hix Hle. unfold Cpm.latest_finish.
  assert (∀ x, x ∈ (λ dep, default T (m !! dep)) <$> set_iter (UD.dependents_of d a) ↔
    ∃ b, x = default T (m !! b) ∧ declared d b a) as H.
  { intros x. rewrite list_elem_of_fmap. by setoid_rewrite elem_of_dependents_of. }
  destruct ((λ dep, default T (m !! dep)) <$> set_iter (UD.dependents_of d a)) as [|y l].
  - split; [|naive_solver]. intros Hn. split; [done|]. intros b Hb.
    assert (default T (m !! b) ∈ []) as Hnil by (apply H; eauto). set_solver.
  - rewrite foldr_Nmin_ge. destruct (proj1 (H y)) as (b0 & Hy & Hb0); [by left|].
    assert (y ≤ T)%N by (subst y; auto). split.
    + intros [H1 H2]. split; [lia|]. intros b Hb.
      assert (default T (m !! b) ∈ y :: l) as [->|Hin]%elem_of_cons by (apply H; eauto); auto.
    + intros [H1 H2]. split; [subst y; auto|]. intros x Hx.
      destruct (proj1 (H x)) as (b & -> & Hb); [by right|auto].
Qed.

Lemma latest_of_ext T m m' a :
  indexed d → (∀ b, declared d b a → m !! b = m' !! b) →
  Cpm.latest_of d T m a = Cpm.latest_of d T m' a.
Proof.
  intros Hix H. unfold Cpm.latest_of, Cpm.latest_finish.
  assert ((λ dep, default T (m !! dep)) <$> set_iter (UD.dependents_of d a) =
    (λ dep, default T (m' !! dep)) <$> set_iter (UD.dependents_of d a)) as ->; [|done].
  apply list_fmap_ext. intros i b Hb. simpl. rewrite H; [done|].
  by eapply elem_of_dependents_of, list_elem_of_lookup_2.
Qed.
End CpmFacts.

Section CpmTables.
Context (d : UnifiedTaskDag) (Hd : dag_ok d).
Context (topo : list GlobalTaskId) (Hperm : topo ≡ₚ UD.nodes d).
Context (Hresp : respects (UD.edges d) topo).
Let es := Waves.table (Cpm.earliest_of d) topo.
Let total := Cpm.project_duration d es topo.
Let ls := Waves.table (Cpm.latest_of d total) (reverse topo).
Let E := Cpm.duration_at es.
Let L := Cpm.duration_at ls.
Let dur := Cpm.task_duration d.

Lemma cpm_topo a : a ∈ topo ↔ is_Some (UD.tasks d !! a).
Proof. rewrite Hperm. by apply elem_of_nodes. Qed.

Lemma cpm_nodup : NoDup topo.
Proof. rewrite Hperm. by apply NoDup_nodes. Qed.

Lemma declared_tasks a b :
  declared d a b → is_Some (UD.tasks d !! a) ∧ is_Some (UD.tasks d !! b).
Proof. intros (Hb & t & Ht & _). eauto. Qed.

Lemma earliest_eq a : is_Some (UD.tasks d !! a) → es !! a = Some (Cpm.earliest_of d es a).
Proof.
  intros Ha. apply (table_fix _ (declared d)).
  - intros m m' x. apply earliest_of_ext, Hd.
  - apply cpm_nodup.
  - intros i x y Hx Hxy. eapply Hresp; [done|]. by apply (ix_edges d (ok_indexed d Hd)).
  - by apply cpm_topo.
Qed.

Lemma latest_eq a : is_Some (UD.tasks d !! a) → ls !! a = Some (Cpm.latest_of d total ls a).
Proof.
  intros Ha. apply (table_fix _ (λ a b, declared d b a)).
  - intros m m' x. apply latest_of_ext, Hd.
  - rewrite (reverse_Permutation topo). apply cpm_nodup.
  - intros i x y Hx Hxy. destruct Hd as [Hix _ _].
    eapply (respects_reverse (UD.edges d) (UD.reverse_edges d));
      [apply (ix_reverse d Hix)|apply cpm_nodup|done| |done|].
    + intros u v Huv%(ix_edges d Hix)%declared_tasks. apply cpm_topo, Huv.
    + by apply (ix_reverse d Hix), (ix_edges d Hix).
  - rewrite elem_of_reverse. by apply cpm_topo.
Qed.

Lemma declared_wf a : Acc (λ b a, declared d a b) a.
Proof.
  assert (Acc (flip (edge (UD.edges d))) a) as Ha.
  { apply (respects_Acc _ topo); [done|]. intros k. rewrite (ix_edges_dom d (ok_indexed d Hd)).
    rewrite elem_of_dom. apply cpm_topo. }
  induction Ha as [a _ IH]. constructor. intros b Hb. apply IH.
  by apply (ix_edges d (ok_indexed d Hd)).
Qed.

Lemma declared_rev_wf a : Acc (declared d) a.
Proof.
  assert (Acc (flip (edge (UD.reverse_edges d))) a) as Ha.
  { pose proof (ok_indexed d Hd) as Hix. apply (respects_Acc _ (reverse topo)).
    - intros i x y. apply (respects_reverse (UD.edges d)); [apply (ix_reverse d Hix)|
        apply cpm_nodup|done|].
      intros u v Huv%(ix_edges d Hix)%declared_tasks. apply cpm_topo, Huv.
    - intros k. rewrite (ix_reverse_dom d Hix), elem_of_dom, elem_of_reverse. apply cpm_topo. }
  induction Ha as [a _ IH]. constructor. intros b Hb. apply IH.
  by apply (ix_reverse d (ok_indexed d Hd)), (ix_edges d (ok_indexed d Hd)).
Qed.

Lemma earliest_feasible : feasible d E ∧ finishes_by d E total.
Proof.
  split.
  - intros a b Hab. pose proof (declared_tasks a b Hab) as [Ha _]. unfold E, Cpm.duration_at at 2.
    rewrite earliest_eq by done. simpl.
    by apply (proj1 (earliest_of_le d es a _ (ok_indexed d Hd)) (N.le_refl _)).
  - intros a Ha%cpm_topo. by apply (proj1 (project_duration_le d es topo total) (N.le_refl _)).
Qed.

Lemma earliest_least S a : feasible d S → (E a ≤ S a)%N.
Proof.
  intros HS. induction (declared_wf a) as [a _ IH]. unfold E, Cpm.duration_at.
  destruct (es !! a) as [x|] eqn:Ea; simpl; [|lia].
  assert (is_Some (UD.tasks d !! a)) as Ha.
  { apply cpm_topo, (dom_table (Cpm.earliest_of d)). eauto. }
  rewrite earliest_eq in Ea by done. injection Ea as <-.
  apply earliest_of_le; [apply Hd|]. intros b Hb. specialize (IH b Hb). specialize (HS a b Hb).
  unfold E in IH. lia.
Qed.

Lemma total_least S T : feasible d S → finishes_by d S T → (total ≤ T)%N.
Proof.
  intros HS HT. apply project_duration_le. intros a Ha%cpm_topo. specialize (HT a Ha).
  pose proof (earliest_least S a HS). unfold E in *. lia.
Qed.

Lemma latest_default a : is_Some (UD.tasks d !! a) → default total (ls !! a) = L a.
Proof. intros Ha. unfold L, Cpm.duration_at. by rewrite latest_eq. Qed.

Lemma latest_le_total a : is_Some (UD.tasks d !! a) → (L a ≤ total)%N.
Proof.
  induction (declared_rev_wf a) as [a _ IH]. intros Ha. unfold L, Cpm.duration_at.
  rewrite latest_eq by done. simpl. unfold Cpm.latest_of, sat_sub.
  assert (Cpm.latest_finish d total ls a ≤ total)%N; [|lia].
  assert (∀ b, declared d b a → (default total (ls !! b) ≤ total)%N) as Hle.
  { intros b Hb. pose proof (declared_tasks _ _ Hb) as [Hb' _].
    rewrite latest_default by done. by apply IH. }
  by apply (proj1 (latest_finish_ge d total ls a _ (ok_indexed d Hd) Hle) (N.le_refl _)).
Qed.

Lemma latest_finish_spec a n :
  (n ≤ Cpm.latest_finish d total ls a)%N ↔
    (n ≤ total)%N ∧ ∀ b, declared d b a → (n ≤ L b)%N.
Proof.
  rewrite latest_finish_ge; [|apply Hd|].
  - split; intros [H1 H2]; (split; [done|]); intros b Hb; specialize (H2 b Hb);
      pose proof (declared_tasks _ _ Hb) as [Hb' _]; by rewrite ?latest_default in *.
  - intros b [Hb _]%declared_tasks. rewrite latest_default by done. by apply latest_le_total.
Qed.

(** Any feasible schedule that finishes in time starts each task by its latest start. *)
Lemma latest_greatest S a :
  feasible d S → finishes_by d S total → is_Some (UD.tasks d !! a) →
  (S a + dur a ≤ Cpm.latest_finish d total ls a)%N ∧ (S a ≤ L a)%N.
Proof.
  intros HS HT. induction (declared_rev_wf a) as [a _ IH]. intros Ha.
  assert (S a + dur a ≤ Cpm.latest_finish d total ls a)%N as H.
  { apply latest_finish_spec. split; [by apply HT|]. intros b Hb.
    pose proof (HS b a Hb). destruct (IH b Hb) as [_ HL]; [apply (declared_tasks _ _ Hb)|].
    unfold dur. lia. }
  split; [done|]. unfold L, Cpm.duration_at. rewrite latest_eq by done. simpl.
  unfold Cpm.latest_of, sat_sub. unfold dur in H. lia.
Qed.

Lemma latest_plus_duration a :
  is_Some (UD.tasks d !! a) → (L a + dur a)%N = Cpm.latest_finish d total ls a.
Proof.
  intros Ha. destruct earliest_feasible as [H1 H2].
  destruct (latest_greatest E a H1 H2 Ha) as [H _]. unfold L, Cpm.duration_at.
  rewrite latest_eq by done. simpl. unfold Cpm.latest_of, sat_sub, dur in *. lia.
Qed.

Lemma latest_feasible : feasible d L ∧ finishes_by d L total.
Proof.
  assert (∀ a, is_Some (UD.tasks d !! a) →
    (L a + dur a ≤ total)%N ∧ ∀ b, declared d b a → (L a + dur a ≤ L b)%N) as H.
  { intros a Ha. apply latest_finish_spec. rewrite latest_plus_duration by done. lia. }
  split.
  - intros a b Hab. apply H; [|done]. apply (declared_tasks _ _ Hab).
  - intros a Ha. by apply H.
Qed.
End CpmTables.

(** C19: the critical path method computes, for every task, the earliest start among
    all schedules that respect the dependencies, the shortest total duration any such
    schedule can have, and the latest start that still meets it; both the earliest
    and the latest starts are such schedules, and the critical path is the tasks
    with no freedom between the two. *)
Theorem cpm_spec d :
  dag_ok d →
  ∃ es ls total topo, Cpm.cpm_analysis d = Some (es, ls, total, topo) ∧
    feasible d (Cpm.earliest_start d) ∧ finishes_by d (Cpm.earliest_start d) total ∧
    feasible d (Cpm.latest_start d) ∧ finishes_by d (Cpm.latest_start d) total ∧
    (∀ S a, feasible d S → (Cpm.earliest_start d a ≤ S a)%N) ∧
    (∀ S T, feasible d S → finishes_by d S T → (total ≤ T)%N) ∧
    (∀ S a, feasible d S → finishes_by d S total → is_Some (UD.tasks d !! a) →
       (S a ≤ Cpm.latest_start d a)%N) ∧
    (∀ a, a ∈ Cpm.critical_path d ↔
       is_Some (UD.tasks d !! a) ∧ Cpm.latest_start d a = Cpm.earliest_start d a).
Proof.
  intros Hd. destruct (dag_ok_sort d Hd) as (topo & Hts & Hperm & Hresp & _).
  unfold Cpm.earliest_start, Cpm.latest_start, Cpm.critical_path, Cpm.cpm_analysis.
  rewrite Hts. do 4 eexists. split; [done|].
  pose proof (earliest_feasible d Hd topo Hperm Hresp) as [E1 E2].
  pose proof (latest_feasible d Hd topo Hperm Hresp) as [L1 L2].
  split_and!; [exact E1|exact E2|exact L1|exact L2| | | |].
  - intros S a HS. by apply earliest_least.
  - intros S T HS HT. by eapply total_least.
  - intros S a HS HT Ha. by apply (latest_greatest d Hd topo Hperm Hresp S a).
  - intros a. rewrite elem_of_list_filter_bool, (cpm_topo d Hd topo Hperm).
    split; intros [Ha H]; (split; [done|]).
    + pose proof (latest_greatest d Hd topo Hperm Hresp _ a E1 E2 Ha) as [_ Hle].
      unfold Cpm.duration_at in Hle |- *. rewrite earliest_eq, latest_eq in * by done.
      simpl in Hle |- *. apply N.eqb_eq in H. unfold sat_sub in H. lia.
    + unfold Cpm.duration_at in H. rewrite earliest_eq, latest_eq in H |- * by done.
      simpl in H. apply N.eqb_eq. unfold sat_sub. rewrite H. lia.
Qed.

Lemma cpm_spec_witness :
  ∃ es ls total topo, Cpm.cpm_analysis (sample_dag 0) = Some (es, ls, total, topo) ∧
    (∀ S T, feasible (sample_dag 0) S → finishes_by (sample_dag 0) S T → (total ≤ T)%N) ∧
    Cpm.critical_path (sample_dag 0) = [sample_id "b"; sample_id "d"].
Proof.
  destruct (cpm_spec (sample_dag 0) (sample_dag_ok 0))
    as (es & ls & total & topo & H1 & _ & _ & _ & _ & _ & H2 & _).
  exists es, ls, total, topo. split_and!; [exact H1|exact H2|vm_compute; reflexivity].
Defined.

(** ** Correctness of execution snapshots *)

Definition ids_well_formed (d : UnifiedTaskDag) : Prop :=
  ∀ id, is_Some (UD.tasks d !! id) → well_formed_id id = true.

(** The status a snapshot gives a task without an override. *)
Definition default_status (d : UnifiedTaskDag) (id : GlobalTaskId) : DagTaskExecutionStatus :=
  match set_iter (UD.deps_of d id) with
  | [] => DagTaskExecutionStatus.Ready
  | _ => DagTaskExecutionStatus.Pending
  end.

Lemma to_string_inj a b :
  well_formed_id a = true → well_formed_id b = true →
  GlobalTaskId.to_string a = GlobalTaskId.to_string b → a = b.
Proof. intros Ha%parse_to_string Hb%parse_to_string H. rewrite H in Ha. congruence. Qed.

Lemma keyed_fold {V} (key : GlobalTaskId → string) (g : GlobalTaskId → V) l id :
  (∀ a b, a ∈ l → b ∈ l → key a = key b → a = b) → id ∈ l →
  foldl (λ (m : gmap string V) x, <[key x := g x]> m) ∅ l !! key id = Some (g id).
Proof.
  induction l as [|x l IH] using rev_ind; intros Hinj Hid; [set_solver|].
  rewrite foldl_app. simpl. destruct (decide (key x = key id)) as [E|Hne].
  - rewrite E, lookup_insert_eq. by rewrite (Hinj x id) by set_solver.
  - rewrite lookup_insert_ne by done. apply IH; [set_solver|].
    apply elem_of_app in Hid as [|Hid%list_elem_of_singleton]; [done|congruence].
Qed.

Lemma satisfies_default d (statuses : gmap GlobalTaskId DagTaskExecutionStatus) id :
  DagTaskExecutionStatus.satisfies_dependency
    (default (default_status d id) (statuses !! id)) = true ↔
  statuses !! id = Some DagTaskExecutionStatus.Passed.
Proof.
  destruct (statuses !! id) as [[]|]; simpl; try (split; [done|by intros [=]]).
  unfold default_status. split; [|done]. by destruct (set_iter _).
Qed.

Lemma NoDup_omap_id {A} (f : A → option A) l :
  (∀ x y, f x = Some y → x = y) → NoDup l → NoDup (omap f l).
Proof.
  intros Hf. induction l as [|x l IH]; intros Hnd; [constructor|].
  apply NoDup_cons in Hnd as [Hx Hnd]. cbn [omap list_omap]. destruct (f x) as [y|] eqn:E; [|auto].
  apply Hf in E as <-. constructor; [|auto].
  intros (z & Hz & E%Hf)%list_elem_of_omap. by subst.
Qed.

Lemma snapshot_Ok {HI : HashIter} d statuses now_ms :
  dag_ok d → ids_well_formed d →
  ∃ snap, execution_snapshot d statuses now_ms = Ok snap ∧
    DagExecutionSnapshot.topological_order snap ≡ₚ UD.nodes d ∧
    ∀ id, is_Some (UD.tasks d !! id) →
      DagExecutionSnapshot.tasks snap !! GlobalTaskId.to_string id =
      Some (snapshot_metadata d statuses now_ms id).
Proof.
  intros Hd Hwf. destruct (dag_ok_sort d Hd) as (topo & Hts & Hperm & _).
  unfold execution_snapshot, Waves.waves. rewrite Hts. destruct (foldl _ _ _) as [ws ov].
  eexists. split_and!; [done|done|]. simpl. intros id Hid.
  apply (keyed_fold GlobalTaskId.to_string).
  - intros a b Ha Hb. apply to_string_inj; apply Hwf; by apply elem_of_nodes.
  - by apply elem_of_nodes.
Qed.

Section ReadyFacts.
Context {HI : HashIter} (d : UnifiedTaskDag) (Hd : dag_ok d).
Context (statuses : gmap GlobalTaskId DagTaskExecutionStatus) (now_ms : N).
Context (snap : DagExecutionSnapshot).
Context (Hperm : DagExecutionSnapshot.topological_order snap ≡ₚ UD.nodes d).
Context (Htasks : ∀ id, is_Some (UD.tasks d !! id) →
  DagExecutionSnapshot.tasks snap !! GlobalTaskId.to_string id =
  Some (snapshot_metadata d statuses now_ms id)).

Lemma metadata_status id :
  DagTaskExecutionMetadata.status (snapshot_metadata d statuses now_ms id) =
  default (default_status d id) (statuses !! id).
Proof. done. Qed.

Lemma deps_passed_iff id :
  DagExecutionSnapshot.deps_passed snap (snapshot_metadata d statuses now_ms id) = true ↔
  ∀ b, declared d id b → statuses !! b = Some DagTaskExecutionStatus.Passed.
Proof.
  unfold DagExecutionSnapshot.deps_passed. rewrite forallb_forall.
  setoid_rewrite <-list_elem_of_In. cbn [DagTaskExecutionMetadata.dependencies snapshot_metadata].
  setoid_rewrite elem_of_deps_of; [|apply Hd]. split; intros H b Hb; specialize (H b Hb);
    pose proof (declared_tasks d _ _ Hb) as [_ Hb']; rewrite Htasks, metadata_status in * by done;
    by apply (satisfies_default d).
Qed.

Lemma elem_of_ready_tasks id :
  id ∈ DagExecutionSnapshot.ready_tasks snap ↔
  is_Some (UD.tasks d !! id) ∧
  default (default_status d id) (statuses !! id) = DagTaskExecutionStatus.Ready ∧
  ∀ b, declared d id b → statuses !! b = Some DagTaskExecutionStatus.Passed.
Proof.
  unfold DagExecutionSnapshot.ready_tasks. rewrite <-deps_passed_iff, list_elem_of_omap. split.
  - intros (x & Hx & Hsome). rewrite Hperm, elem_of_nodes in Hx by done.
    rewrite Htasks, metadata_status in Hsome by done.
    destruct (default (default_status d x) (statuses !! x)) eqn:Est; try done.
    cbn [DagTaskExecutionStatus.is_dispatchable negb] in Hsome.
    destruct (DagExecutionSnapshot.deps_passed snap _) eqn:Edp in Hsome; [|done].
    injection Hsome as <-. done.
  - intros (Hid & Hst & Hb). exists id. rewrite Hperm, elem_of_nodes by done. split; [done|].
    rewrite Htasks, metadata_status by done. rewrite Hst.
    cbn [DagTaskExecutionStatus.is_dispatchable negb]. by rewrite Hb.
Qed.

Lemma NoDup_ready_tasks : NoDup (DagExecutionSnapshot.ready_tasks snap).
Proof.
  apply NoDup_omap_id; [|rewrite Hperm; by apply NoDup_nodes]. intros x y H.
  destruct (DagExecutionSnapshot.tasks snap !! _) as [m|]; [|done].
  destruct (negb _); [done|]. destruct (DagExecutionSnapshot.deps_passed snap m); [|done].
  congruence.
Qed.
End ReadyFacts.

(** the snapshot of a DAG lists as ready exactly the tasks whose status is ready
    and whose dependencies have all passed, each once, dependencies first; tasks
    that are ready together do not depend on each other. *)
Theorem ready_tasks_spec {HI : HashIter} d statuses now_ms :
  dag_ok d → ids_well_formed d →
  ∃ snap, execution_snapshot d statuses now_ms = Ok snap ∧
    NoDup (DagExecutionSnapshot.ready_tasks snap) ∧
    (∀ id, id ∈ DagExecutionSnapshot.ready_tasks snap ↔
       is_Some (UD.tasks d !! id) ∧
       default (default_status d id) (statuses !! id) = DagTaskExecutionStatus.Ready ∧
       ∀ b, declared d id b → statuses !! b = Some DagTaskExecutionStatus.Passed) ∧
    (∀ a b, a ∈ DagExecutionSnapshot.ready_tasks snap →
       b ∈ DagExecutionSnapshot.ready_tasks snap → ¬ declared d a b).
Proof.
  intros Hd Hwf.
  destruct (snapshot_Ok d statuses now_ms Hd Hwf) as (snap & Hsnap & Hperm & Htasks).
  exists snap. pose proof (elem_of_ready_tasks d Hd statuses now_ms snap Hperm Htasks) as Hiff.
  split_and!; [done|by eapply NoDup_ready_tasks|done|].
  intros a b (_ & _ & Ha)%Hiff (_ & Hb & _)%Hiff Hab. rewrite (Ha b Hab) in Hb. done.
Qed.

Lemma ready_tasks_spec_witness :
  ∃ snap, execution_snapshot (sample_dag 0)
            {[sample_id "c" := DagTaskExecutionStatus.Passed;
              sample_id "a" := DagTaskExecutionStatus.Ready]} 0 = Ok snap ∧
    NoDup (DagExecutionSnapshot.ready_tasks snap) ∧
    DagExecutionSnapshot.ready_tasks snap = [sample_id "b"; sample_id "a"].
Proof.
  destruct (ready_tasks_spec (sample_dag 0)
    {[sample_id "c" := DagTaskExecutionStatus.Passed;
      sample_id "a" := DagTaskExecutionStatus.Ready]} 0 (sample_dag_ok 0))
    as (snap & H1 & H2 & _).
  - intros id [t Ht]. assert (id ∈ map_keys (UD.tasks (sample_dag 0))) as Hin.
    { apply elem_of_map_keys. eauto. }
    revert Hin. vm_compute. clear.
    intros [->|[->|[->|[->|H]%elem_of_cons]%elem_of_cons]%elem_of_cons]%elem_of_cons;
      [reflexivity..|]. by apply elem_of_nil in H.
  - exists snap. split_and!; [exact H1|exact H2|]. vm_compute in H1. injection H1 as <-.
    vm_compute. reflexivity.
Defined.
