(* ===== verification/DagMutate.v ===== *)
(** * Changing a task DAG (crates/roko-orchestrator/src/dag.rs)

    Live mutations, culling, and the incremental wrapper that tracks which tasks
    have to run again.  Every operation returns the DAG it leaves behind together
    with its result.  Rendering a task as JSON is serde's: a parameter. *)

From stdpp Require Import relations.
From S2P Require Import Prelude Task Bytes Ordered CycleDetect Dag DagSchedule.

(** ** Mutations *)

Module DagMutationError.
Inductive t : Type :=
  | UnknownTask (id : GlobalTaskId)
  | CompletedTask (id : GlobalTaskId)
  | InvalidMutation (message : string)
  | Cycle (involving : list GlobalTaskId).
End DagMutationError.
Abbreviation DagMutationError := DagMutationError.t.

Module Mutate.
Abbreviation id_str := GlobalTaskId.to_string.

Definition dedup_in_place (deps : list string) : list string := dedup_first deps.
Definition replace_dep (deps : list string) (old new : string) : list string :=
  dedup_in_place ((λ dep, if decide (dep = old) then new else dep) <$> deps).
Definition remove_dep (deps : list string) (target : string) : list string :=
  dedup_in_place (List.filter (λ dep, negb (string_eqb dep target)) deps).

Definition ensure_mutable (d : UnifiedTaskDag) (task_id : GlobalTaskId) :
    result unit DagMutationError :=
  match UD.tasks d !! task_id with
  | None => Err (DagMutationError.UnknownTask task_id)
  | Some task =>
      if decide (Task.status task = TaskStatus.Done)
      then Err (DagMutationError.CompletedTask task_id)
      else Ok tt
  end.

Definition map_rebuild_error (err : DagError) : DagMutationError :=
  match err with
  | DagError.Cycle stuck => DagMutationError.Cycle stuck
  | DagError.DanglingDepRef referrer target =>
      DagMutationError.InvalidMutation
        ("dangling dep during rebuild: " +:+ id_str referrer +:+ " -> " +:+ target)
  | DagError.UnknownPlan plan =>
      DagMutationError.InvalidMutation ("unknown plan during rebuild: " +:+ plan)
  end.

(** [if let Some(dep_task) = next.tasks.get_mut(&id) { ... }] on [depends_on]. *)
Definition update_deps (f : list string → list string) (id : GlobalTaskId)
    (tasks : gmap GlobalTaskId Task) : gmap GlobalTaskId Task :=
  alter (λ t, Task.set_depends_on (f (Task.depends_on t)) t) id tasks.

Definition id_mismatch (task_id : GlobalTaskId) (task : Task) : DagMutationError :=
  DagMutationError.InvalidMutation
    ("task id mismatch: " +:+ id_str task_id +:+ " vs " +:+ Task.id task).

Definition add_task (d : UnifiedTaskDag) (task_id : GlobalTaskId) (task : Task)
    (depends_on : list GlobalTaskId) : result (gmap GlobalTaskId Task) DagMutationError :=
  if decide (GlobalTaskId.task task_id ≠ Task.id task) then Err (id_mismatch task_id task)
  else if decide (is_Some (UD.tasks d !! task_id)) then
    Err (DagMutationError.InvalidMutation ("task already exists: " +:+ id_str task_id))
  else Ok (<[task_id := Task.set_depends_on (id_str <$> depends_on) task]> (UD.tasks d)).

(** The dependents lose the qualified reference and inherit the dependencies. *)
Definition inherit_deps (task_key : string) (deps dep_task_deps : list string) : list string :=
  foldl push_unique (remove_dep dep_task_deps task_key) deps.

Definition remove_task (d : UnifiedTaskDag) (task_id : GlobalTaskId) :
    result (gmap GlobalTaskId Task) DagMutationError :=
  let? _ := ensure_mutable d task_id in
  match UD.tasks d !! task_id with
  | None => Err (DagMutationError.UnknownTask task_id)
  | Some task =>
      let deps := Task.depends_on task in
      let dependents := set_iter (UD.dependents_of d task_id) in
      let tasks :=
        foldl (λ tasks dependent, update_deps (inherit_deps (id_str task_id) deps) dependent tasks)
          (UD.tasks d) dependents in
      Ok (delete task_id tasks)
  end.

(** The loop over the replacement tasks; [chain] holds their ids so far. *)
Fixpoint split_loop (task_id : GlobalTaskId) (original_deps : list string)
    (chain : list GlobalTaskId) (into : list Task) (tasks : gmap GlobalTaskId Task) :
    result (list GlobalTaskId * gmap GlobalTaskId Task) DagMutationError :=
  match into with
  | [] => Ok (chain, tasks)
  | task :: into' =>
      let index := length chain in
      if decide (index = 0 ∧ Task.id task ≠ GlobalTaskId.task task_id) then
        Err (DagMutationError.InvalidMutation
               ("split head must keep original id " +:+ GlobalTaskId.task task_id))
      else if str_is_empty (Task.id task) then
        Err (DagMutationError.InvalidMutation "split tasks must have explicit ids")
      else if decide (0 < index ∧ Task.id task = GlobalTaskId.task task_id) then
        Err (DagMutationError.InvalidMutation
               ("split task id mismatch: replacement must not reuse original id " +:+
                GlobalTaskId.task task_id))
      else
        let depends_on :=
          match last chain with Some prev => [id_str prev] | None => original_deps end in
        let id := GlobalTaskId.new (GlobalTaskId.plan task_id) (Task.id task) in
        split_loop task_id original_deps (chain ++ [id]) into'
          (<[id := Task.set_depends_on depends_on task]> tasks)
  end.

Definition split_task (d : UnifiedTaskDag) (task_id : GlobalTaskId) (into : list Task) :
    result (gmap GlobalTaskId Task) DagMutationError :=
  let? _ := ensure_mutable d task_id in
  match into with
  | [] =>
      Err (DagMutationError.InvalidMutation "split requires at least one replacement task")
  | _ =>
      match UD.tasks d !! task_id with
      | None => Err (DagMutationError.UnknownTask task_id)
      | Some original =>
          let dependents := set_iter (UD.dependents_of d task_id) in
          let? (chain, tasks) :=
            split_loop task_id (Task.depends_on original) [] into (UD.tasks d) in
          match last chain with
          | None => Err (DagMutationError.InvalidMutation "empty split")
          | Some last_id =>
              let tasks :=
                foldl (λ tasks dependent,
                  update_deps (λ ds, replace_dep ds (id_str task_id) (id_str last_id)) dependent
                    tasks) tasks dependents in
              Ok (delete task_id tasks)
          end
      end
  end.

Definition add_dependency (d : UnifiedTaskDag) (from to : GlobalTaskId) :
    result (gmap GlobalTaskId Task) DagMutationError :=
  if decide (from = to) then
    Err (DagMutationError.InvalidMutation "self-dependency is not allowed")
  else
    let? _ := ensure_mutable d from in
    match UD.tasks d !! from with
    | None => Err (DagMutationError.UnknownTask from)
    | Some _ => Ok (update_deps (λ ds, push_unique ds (id_str to)) from (UD.tasks d))
    end.

Definition update_task_metadata (d : UnifiedTaskDag) (task_id : GlobalTaskId) (task : Task) :
    result (gmap GlobalTaskId Task) DagMutationError :=
  let? _ := ensure_mutable d task_id in
  if decide (GlobalTaskId.task task_id ≠ Task.id task) then Err (id_mismatch task_id task)
  else
    match UD.tasks d !! task_id with
    | None => Err (DagMutationError.UnknownTask task_id)
    | Some current =>
        Ok (<[task_id := Task.set_depends_on (Task.depends_on current) task]> (UD.tasks d))
    end.

(** The tasks of [next] after the [match] on the mutation. *)
Definition mutated_tasks (d : UnifiedTaskDag) (mutation : DagMutation.t) :
    result (gmap GlobalTaskId Task) DagMutationError :=
  match mutation with
  | DagMutation.AddTask task_id task depends_on => add_task d task_id task depends_on
  | DagMutation.RemoveTask task_id => remove_task d task_id
  | DagMutation.SplitTask task_id into => split_task d task_id into
  | DagMutation.AddDependency from to => add_dependency d from to
  | DagMutation.UpdateTaskMetadata task_id task => update_task_metadata d task_id task
  end.

(** The mutation works on a clone, which replaces the DAG only at the end. *)
Definition apply_mutation `{!HashIter} (d : UnifiedTaskDag) (mutation : DagMutation.t) :
    UnifiedTaskDag * result unit DagMutationError :=
  match mutated_tasks d mutation with
  | Err e => (d, Err e)
  | Ok tasks =>
      match UD.rebuild_indexes (UD.set_tasks tasks d) with
      | (_, Err err) => (d, Err (map_rebuild_error err))
      | (next, Ok _) =>
          match UD.topological_sort next with
          | Err err => (d, Err (map_rebuild_error err))
          | Ok _ => (next, Ok tt)
          end
      end
  end.
End Mutate.

(** ** Culling *)

Module Cull.
(** The work list and the set of needed tasks. *)
Abbreviation frontier := (list GlobalTaskId * gset GlobalTaskId)%type.

Definition push_target (acc : frontier) (id : GlobalTaskId) : frontier :=
  (acc.1 ++ [id], {[id]} ∪ acc.2).

(** A target is a qualified id, or the bare name of tasks of any plan. *)
Definition resolve_target (d : UnifiedTaskDag) (acc : frontier) (target : string) : frontier :=
  match GlobalTaskId.parse target with
  | Some gid => if decide (is_Some (UD.tasks d !! gid)) then push_target acc gid else acc
  | None =>
      foldl (λ acc node,
        if decide (GlobalTaskId.task node = target) then push_target acc node else acc)
        acc (UD.nodes d)
  end.

(** [if needed.insert(dep) { queue.push_back(dep) }] *)
Definition need (acc : frontier) (dep : GlobalTaskId) : frontier :=
  if decide (dep ∈ acc.2) then acc else push_target acc dep.

(** Backward search; [fuel] bounds the number of tasks taken from the queue. *)
Fixpoint search (d : UnifiedTaskDag) (fuel : nat) (acc : frontier) : gset GlobalTaskId :=
  match fuel, acc.1 with
  | S fuel', node :: queue =>
      search d fuel' (foldl need (queue, acc.2) (set_iter (UD.deps_of d node)))
  | _, _ => acc.2
  end.

Definition needed_tasks (d : UnifiedTaskDag) (targets : list string) : gset GlobalTaskId :=
  let start := foldl (resolve_target d) ([], ∅) targets in
  search d (length start.1 + size (universe (UD.edges d))) start.

Definition cull `{!HashIter} (d : UnifiedTaskDag) (targets : list string) : UnifiedTaskDag * nat :=
  let needed := needed_tasks d targets in
  let to_remove := List.filter (λ id, bool_decide (id ∉ needed)) (UD.nodes d) in
  let culled := length to_remove in
  if decide (culled = 0) then (d, 0)
  else
    let remove_set : gset GlobalTaskId := list_to_set to_remove in
    let remove_all {V} (m : gmap GlobalTaskId V) : gmap GlobalTaskId V :=
      foldl (λ m id, delete id m) m to_remove in
    let tasks := remove_all (UD.tasks d) in
    let retain : id_graph → id_graph :=
      fmap (λ ids : gset GlobalTaskId, filter (λ x, x ∉ remove_set) ids) in
    (UD.mk tasks (UD.plan_deps d) (retain (remove_all (UD.edges d)))
       (retain (remove_all (UD.reverse_edges d))) (sort_ids (hash_keys tasks))
       (remove_all (UD.estimates d)) (UD.config d), culled).
End Cull.

(** ** Incremental recomputation *)

Module Durability.
Inductive t : Type := Low | Medium | High.
#[global] Instance t_eq_dec : EqDecision t.
Proof. solve_decision. Defined.
End Durability.
Abbreviation Durability := Durability.t.

(** [serde_json::to_string(task)] *)
Class TaskJson := { task_to_string : Task → result string string }.

Module IncrementalDag.
Record t : Type := mk {
  dag : UnifiedTaskDag;
  dirty : gset GlobalTaskId;
  durability : gmap GlobalTaskId Durability;
  revision : N;
  verified_at : gmap GlobalTaskId N;
  input_hashes : gmap GlobalTaskId bytes;
}.

Definition new (dag : UnifiedTaskDag) : t := mk dag ∅ ∅ 0 ∅ ∅.

Definition set_dag (x : UnifiedTaskDag) (s : t) : t :=
  mk x (dirty s) (durability s) (revision s) (verified_at s) (input_hashes s).
Definition set_dirty (x : gset GlobalTaskId) (s : t) : t :=
  mk (dag s) x (durability s) (revision s) (verified_at s) (input_hashes s).
Definition set_verified (id : GlobalTaskId) (s : t) : t :=
  mk (dag s) (dirty s ∖ {[id]}) (durability s) (revision s)
    (<[id := revision s]> (verified_at s)) (input_hashes s).
Definition set_hash (id : GlobalTaskId) (h : bytes) (s : t) : t :=
  mk (dag s) (dirty s) (durability s) (revision s) (verified_at s) (<[id := h]> (input_hashes s)).

Definition set_durability (s : t) (task : GlobalTaskId) (x : Durability) : t :=
  mk (dag s) (dirty s) (<[task := x]> (durability s)) (revision s) (verified_at s)
    (input_hashes s).

(** The loop over the stack, whose top is the end of the list. *)
Fixpoint dirty_loop (s : t) (fuel : nat) (stack : list GlobalTaskId)
    (dirty : gset GlobalTaskId) : gset GlobalTaskId :=
  match fuel, last stack with
  | S fuel', Some next =>
      let stack := removelast stack in
      if decide (next ∈ dirty) then dirty_loop s fuel' stack dirty
      else
        let dirty := {[next]} ∪ dirty in
        if decide (durability s !! next = Some Durability.High)
        then dirty_loop s fuel' stack dirty
        else dirty_loop s fuel' (stack ++ set_iter (UD.dependents_of (dag s) next)) dirty
  | _, _ => dirty
  end.

(** One push for the task, and one per edge of the graph. *)
Definition dirty_fuel (d : UnifiedTaskDag) : nat :=
  S (foldr Nat.add 0 (size <$> (map_to_list (UD.reverse_edges d)).*2)).

(** [revision += 1] on a [u64]. *)
Definition mark_dirty (s : t) (task : GlobalTaskId) : t :=
  mk (dag s) (dirty_loop s (dirty_fuel (dag s)) [task] (dirty s)) (durability s)
    (revision s + 1) (verified_at s) (input_hashes s).

Section Hashed.
Context {B3 : Blake3} {TJ : TaskJson}.

Definition compute_input_hash (s : t) (task_id : GlobalTaskId) : bytes :=
  blake3
    (str_bytes (GlobalTaskId.to_string task_id) ++
     match UD.task (dag s) task_id with
     | Some task => match task_to_string task with Ok json => str_bytes json | Err _ => [] end
     | None => []
     end ++
     concat ((λ dep, str_bytes (GlobalTaskId.to_string dep)) <$>
       set_iter (UD.deps_of (dag s) task_id))).

Definition ensure_clean (s : t) (task_id : GlobalTaskId) : t * bool :=
  if decide (task_id ∉ dirty s) then (s, true)
  else
    let current_hash := compute_input_hash s task_id in
    if decide (input_hashes s !! task_id = Some current_hash)
    then (set_verified task_id s, true)
    else (set_hash task_id current_hash s, false).

Definition mark_verified (s : t) (task_id : GlobalTaskId) : t :=
  set_hash task_id (compute_input_hash s task_id) (set_verified task_id s).
End Hashed.

Definition clean_set (s : t) : gset GlobalTaskId :=
  list_to_set (List.filter (λ id, bool_decide (id ∉ dirty s)) (UD.nodes (dag s))).

(** [if self.dirty.remove(&id) { dirty_order.push(id) }] *)
Definition take_dirty (acc : gset GlobalTaskId * list GlobalTaskId) (id : GlobalTaskId) :
    gset GlobalTaskId * list GlobalTaskId :=
  if decide (id ∈ acc.1) then (acc.1 ∖ {[id]}, acc.2 ++ [id]) else acc.

Definition recompute_plan (s : t) : t * list GlobalTaskId :=
  match UD.topological_sort (dag s) with
  | Err _ => (s, [])
  | Ok topo =>
      let '(dirty, dirty_order) := foldl take_dirty (dirty s, []) topo in
      (set_dirty dirty s, dirty_order)
  end.

Definition mutation_touched_ids (mutation : DagMutation.t) : list GlobalTaskId :=
  match mutation with
  | DagMutation.AddTask task_id _ _ | DagMutation.RemoveTask task_id
  | DagMutation.UpdateTaskMetadata task_id _ => [task_id]
  | DagMutation.SplitTask task_id into =>
      task_id ::
      match into with
      | first :: _ => [GlobalTaskId.new (GlobalTaskId.plan task_id) (Task.id first)]
      | [] => []
      end
  | DagMutation.AddDependency from _ => [from]
  end.

Definition apply_mutation `{!HashIter} (s : t) (mutation : DagMutation.t) :
    t * result unit DagMutationError :=
  match Mutate.apply_mutation (dag s) mutation with
  | (_, Err e) => (s, Err e)
  | (d, Ok _) =>
      (foldl mark_dirty (set_dag d s) (mutation_touched_ids mutation), Ok tt)
  end.
End IncrementalDag.
Abbreviation IncrementalDag := IncrementalDag.t.

(** ** Correctness of mutations *)

Section MutateFacts.
Context {HI : HashIter}.
Implicit Types (d : UnifiedTaskDag) (m : DagMutation.t) (a b id x : GlobalTaskId).

Lemma apply_mutation_cases d m d' r :
  Mutate.apply_mutation d m = (d', r) →
  match r with
  | Ok _ => ∃ tasks, Mutate.mutated_tasks d m = Ok tasks ∧ UD.tasks d' = tasks ∧
      UD.plan_deps d' = UD.plan_deps d ∧ UD.config d' = UD.config d ∧ dag_ok d'
  | Err _ => d' = d
  end.
Proof.
  unfold Mutate.apply_mutation. destruct (Mutate.mutated_tasks d m) as [tasks|e]; [|naive_solver].
  destruct (UD.rebuild_indexes _) as [next [u|err]] eqn:Hr; [|naive_solver].
  apply rebuild_indexes_spec in Hr as (Ht & Hp & Hc & Hix & Hres).
  pose proof (topological_sort_indexed next Hix) as Hts.
  destruct (UD.topological_sort next) as [l|err]; [|naive_solver].
  intros [= <- <-]. exists tasks. split_and!; [done..|].
  split; [done|apply Hres|naive_solver].
Qed.

Lemma ensure_mutable_Ok d id u :
  Mutate.ensure_mutable d id = Ok u ↔
  ∃ t, UD.tasks d !! id = Some t ∧ Task.status t ≠ TaskStatus.Done.
Proof.
  unfold Mutate.ensure_mutable. destruct u, (UD.tasks d !! id) as [t|]; [case_decide|];
    naive_solver.
Qed.

Lemma lookup_update_deps f id x tasks :
  Mutate.update_deps f id tasks !! x =
  if decide (x = id) then (λ t, Task.set_depends_on (f (Task.depends_on t)) t) <$> tasks !! x
  else tasks !! x.
Proof.
  unfold Mutate.update_deps. case_decide; [subst; apply lookup_alter_eq|by apply lookup_alter_ne].
Qed.

Lemma lookup_update_all f l x tasks :
  NoDup l →
  foldl (λ tasks id, Mutate.update_deps f id tasks) tasks l !! x =
  if decide (x ∈ l) then (λ t, Task.set_depends_on (f (Task.depends_on t)) t) <$> tasks !! x
  else tasks !! x.
Proof.
  revert tasks. induction l as [|id l IH]; intros tasks Hnd; cbn [foldl].
  { by rewrite decide_False by set_solver. }
  apply NoDup_cons in Hnd as [Hid Hnd]. rewrite IH by done. rewrite lookup_update_deps.
  destruct (decide (x = id)) as [->|Hne].
  - rewrite decide_False by done. by rewrite decide_True by by left.
  - case_decide; [rewrite decide_True by by right|rewrite decide_False by set_solver]; done.
Qed.

Lemma resolve_to_string p id :
  well_formed_id id = true → resolve_dep_ref p (GlobalTaskId.to_string id) = id.
Proof. intros Hw. unfold resolve_dep_ref. by rewrite parse_to_string. Qed.

Lemma declared_by_ref d a t raw :
  dag_ok d → UD.tasks d !! a = Some t → raw ∈ Task.depends_on t →
  declared d a (resolve_dep_ref (GlobalTaskId.plan a) raw).
Proof. intros Hd Ha Hraw. split; [by eapply (ok_resolved d Hd)|]. exists t. eauto. Qed.

Lemma elem_of_foldl_push_unique (s : string) l deps :
  s ∈ foldl push_unique l deps ↔ s ∈ l ∨ s ∈ deps.
Proof.
  revert l. induction deps as [|y deps IH]; intros l; cbn [foldl]; [set_solver|].
  rewrite IH, elem_of_push_unique, elem_of_cons. naive_solver.
Qed.
End MutateFacts.

(** A task that can be mutated: present and not completed. *)
Definition mutable (d : UnifiedTaskDag) (id : GlobalTaskId) : Prop :=
  ∃ t, UD.tasks d !! id = Some t ∧ Task.status t ≠ TaskStatus.Done.

(** The tasks that replace a task after the first of them: each depends on the one before it.
    The loop puts them into the map in this order. *)
Definition split_id (id : GlobalTaskId) (t : Task) : GlobalTaskId :=
  GlobalTaskId.new (GlobalTaskId.plan id) (Task.id t).
Fixpoint split_links (id prev : GlobalTaskId) (rest : list Task) : list (GlobalTaskId * Task) :=
  match rest with
  | [] => []
  | t :: rest' =>
      (split_id id t, Task.set_depends_on [GlobalTaskId.to_string prev] t)
      :: split_links id (split_id id t) rest'
  end.
Definition insert_all (l : list (GlobalTaskId * Task)) (tasks : gmap GlobalTaskId Task) :
    gmap GlobalTaskId Task :=
  foldl (λ m p, <[p.1 := p.2]> m) tasks l.

(** What an accepted mutation does. *)
Definition mutation_effect (d d' : UnifiedTaskDag) (m : DagMutation.t) : Prop :=
  match m with
  | DagMutation.AddTask id t deps =>
      UD.tasks d !! id = None ∧
      UD.tasks d' = <[id := Task.set_depends_on (GlobalTaskId.to_string <$> deps) t]> (UD.tasks d) ∧
      ∀ b, b ∈ deps → well_formed_id b = true → declared d' id b
  | DagMutation.RemoveTask id =>
      mutable d id ∧ UD.tasks d' !! id = None ∧
      (∀ x, x ≠ id → ¬ declared d x id → UD.tasks d' !! x = UD.tasks d !! x) ∧
      (∀ t x raw, UD.tasks d !! id = Some t → declared d x id → x ≠ id →
         raw ∈ Task.depends_on t →
         declared d' x (resolve_dep_ref (GlobalTaskId.plan x) raw))
  | DagMutation.SplitTask id into =>
      mutable d id ∧ UD.tasks d' !! id = None ∧
      ∃ h rest last_id, into = h :: rest ∧ Task.id h = GlobalTaskId.task id ∧
        last (split_id id <$> into) = Some last_id ∧
        (∀ x, x ≠ id → ¬ declared d x id →
           UD.tasks d' !! x = insert_all (split_links id id rest) (UD.tasks d) !! x) ∧
        (∀ x, x ≠ id → declared d x id →
           UD.tasks d' !! x =
             (λ t, Task.set_depends_on (Mutate.replace_dep (Task.depends_on t)
                     (GlobalTaskId.to_string id) (GlobalTaskId.to_string last_id)) t)
             <$> insert_all (split_links id id rest) (UD.tasks d) !! x) ∧
        (well_formed_id id = true → rest = [])
  | DagMutation.AddDependency from to =>
      mutable d from ∧ (∀ x, x ≠ from → UD.tasks d' !! x = UD.tasks d !! x) ∧
      (well_formed_id to = true → declared d' from to) ∧
      (∀ b, declared d from b → declared d' from b)
  | DagMutation.UpdateTaskMetadata id t =>
      ∃ old, UD.tasks d !! id = Some old ∧ Task.status old ≠ TaskStatus.Done ∧
        UD.tasks d' = <[id := Task.set_depends_on (Task.depends_on old) t]> (UD.tasks d)
  end.

Section MutationEffects.
Context {HI : HashIter} (d d' : UnifiedTaskDag) (Hd : dag_ok d) (Hd' : dag_ok d').
Context (Hplans : UD.plan_deps d' = UD.plan_deps d) (Hcfg : UD.config d' = UD.config d).



Lemma split_loop_spec id deps prev chain rest tasks chain' ts :
  last chain = Some prev → Mutate.split_loop id deps chain rest tasks = Ok (chain', ts) →
  chain' = chain ++ (split_id id <$> rest) ∧ ts = insert_all (split_links id prev rest) tasks
  ∧ Forall (λ t, str_is_empty (Task.id t) = false ∧ Task.id t ≠ GlobalTaskId.task id) rest.
Proof.
  revert prev chain tasks. induction rest as [|t rest IH]; intros prev chain tasks Hlast; simpl.
  { intros [= <- <-]. by rewrite app_nil_r. }
  assert (0 < length chain)%nat by (destruct chain; [done|simpl; lia]).
  case_decide; [lia|]. destruct (str_is_empty (Task.id t)) eqn:He; [done|].
  case_decide as Hid; [done|]. rewrite Hlast. intros (-> & -> & Hf)%(IH (split_id id t)).
  - rewrite <-app_assoc. split_and!; [done|done|]. constructor; [naive_solver|done].
  - by rewrite last_snoc.
Qed.

Lemma insert_all_congr l x (m1 m2 : gmap GlobalTaskId Task) :
  m1 !! x = m2 !! x → insert_all l m1 !! x = insert_all l m2 !! x.
Proof.
  unfold insert_all. revert m1 m2. induction l as [|[y t] l IH]; intros m1 m2 H; simpl; [done|].
  apply IH. destruct (decide (x = y)) as [->|]; [by rewrite !lookup_insert_eq|].
  by rewrite !lookup_insert_ne.
Qed.

Lemma split_links_other id prev rest x tasks :
  x ∉ split_id id <$> rest → insert_all (split_links id prev rest) tasks !! x = tasks !! x.
Proof.
  unfold insert_all. revert prev tasks. induction rest as [|t rest IH]; intros prev tasks Hx; [done|].
  apply not_elem_of_cons in Hx as [Hne Hx]. cbn [split_links foldl fst snd].
  rewrite IH by done. by apply lookup_insert_ne.
Qed.

(** A replacement has the task before it as its dependency. *)
Lemma split_links_lookup id prev rest x tasks :
  x ∈ split_id id <$> rest →
  ∃ t prev', insert_all (split_links id prev rest) tasks !! x
      = Some (Task.set_depends_on [GlobalTaskId.to_string prev'] t)
    ∧ (prev' = prev ∨ prev' ∈ split_id id <$> rest).
Proof.
  revert prev tasks. induction rest as [|t rest IH]; intros prev tasks Hx; [by apply elem_of_nil in Hx|].
  cbn [split_links insert_all foldl fst snd]. fold (insert_all (split_links id (split_id id t) rest)
    (<[split_id id t := Task.set_depends_on [GlobalTaskId.to_string prev] t]> tasks)).
  destruct (decide (x ∈ split_id id <$> rest)) as [Hin|Hout].
  - destruct (IH (split_id id t)
      (<[split_id id t := Task.set_depends_on [GlobalTaskId.to_string prev] t]> tasks) Hin)
      as (t' & prev' & Hl & Hor).
    exists t', prev'. split; [exact Hl|]. right. destruct Hor as [->|Hor]; [by left|by right].
  - apply elem_of_cons in Hx as [->|]; [|done]. exists t, prev. split; [|by left].
    rewrite split_links_other by done. apply lookup_insert_eq.
Qed.

(** Nothing of a finite set can depend on something of the set for ever. *)
Lemma no_endless_dependencies (S : list GlobalTaskId) :
  (∀ x, x ∈ S → ∃ y, y ∈ S ∧ declared d' x y) → S = [].
Proof.
  intros HS. destruct S as [|x0 S0] eqn:ES; [done|]. exfalso. rewrite <-ES in HS.
  assert (x0 ∈ S) as Hx by (rewrite ES; by left). clear ES. revert Hx.
  assert (sn (declared d') x0) as Hsn.
  { apply tc_finite_sn.
    - intros x Hx. apply (ok_acyclic d' Hd' x). apply on_cycle_declared; [apply Hd'|done].
    - exists (elements (dom (UD.tasks d'))). intros y Hy. apply elem_of_elements, elem_of_dom.
      induction Hy as [x y H|x y z _ _ IH]; [apply H|done]. }
  induction Hsn as [x _ IH]. intros Hx. destruct (HS x Hx) as (y & Hy & H). by apply (IH y).
Qed.

Lemma replace_dep_one a old new :
  Mutate.replace_dep [a] old new = [if decide (a = old) then new else a].
Proof. done. Qed.

(** A replacement depends on a replacement: on the task before it, or, where that was the original,
    on the last one, if the graph holds up. *)
Lemma split_link_depends id rest last_id x :
  well_formed_id id = true →
  Forall (λ t, str_is_empty (Task.id t) = false ∧ Task.id t ≠ GlobalTaskId.task id) rest →
  last (id :: (split_id id <$> rest)) = Some last_id → UD.tasks d' !! id = None →
  (∀ x, x ≠ id → UD.tasks d' !! x =
    if decide (x ∈ set_iter (UD.dependents_of d id))
    then (λ t, Task.set_depends_on (Mutate.replace_dep (Task.depends_on t)
             (GlobalTaskId.to_string id) (GlobalTaskId.to_string last_id)) t)
           <$> insert_all (split_links id id rest) (UD.tasks d) !! x
    else insert_all (split_links id id rest) (UD.tasks d) !! x) →
  x ∈ split_id id <$> rest → ∃ y, y ∈ split_id id <$> rest ∧ declared d' x y.
Proof.
  intros Hw Hrest Hlast Hgone Hl Hx.
  assert (∀ y, y ∈ split_id id <$> rest → y ≠ id ∧ well_formed_id y = true) as Hlinks.
  { intros y (t & -> & Ht)%list_elem_of_fmap. rewrite Forall_forall in Hrest.
    destruct (Hrest t Ht) as [He Hne]. split.
    - intros Heq. apply Hne. by rewrite <-Heq.
    - unfold well_formed_id in *. destruct id as [p k]. simpl in *. rewrite He.
      apply andb_prop in Hw as [[Hp _]%andb_prop Hc]. by rewrite Hp, Hc. }
  assert (last_id ∈ split_id id <$> rest) as Hlin.
  { destruct (split_id id <$> rest) as [|y ys]; [by apply elem_of_nil in Hx|].
    apply last_Some_elem_of. exact Hlast. }
  assert (∀ y t, UD.tasks d' !! x = Some t → Task.depends_on t = [GlobalTaskId.to_string y] →
    y ∈ split_id id <$> rest → declared d' x y) as Hdecl.
  { intros y t Ht Hdep Hy. destruct (Hlinks y Hy) as [_ Hwy].
    rewrite <-(resolve_to_string (GlobalTaskId.plan x) y Hwy).
    eapply declared_by_ref; [done|exact Ht|]. rewrite Hdep. by left. }
  destruct (split_links_lookup id id rest x (UD.tasks d) Hx) as (t & prev & Hlink & Hprev).
  destruct (Hlinks x Hx) as [Hne _]. specialize (Hl x Hne). rewrite Hlink in Hl.
  case_decide as Hdep.
  - cbn [fmap option_fmap option_map Task.depends_on Task.set_depends_on] in Hl.
    destruct (decide (GlobalTaskId.to_string prev = GlobalTaskId.to_string id)) as [Heq|Hneq].
    + exists last_id. split; [done|]. eapply Hdecl; [exact Hl| |done].
      cbn [Task.depends_on Task.set_depends_on]. by rewrite replace_dep_one, decide_True.
    + destruct Hprev as [->|Hprev]; [done|]. exists prev. split; [done|].
      eapply Hdecl; [exact Hl| |done].
      cbn [Task.depends_on Task.set_depends_on]. by rewrite replace_dep_one, decide_False.
  - destruct Hprev as [->|Hprev].
    + exfalso. destruct (ok_resolved d' Hd' x _ (GlobalTaskId.to_string id) Hl) as [v Hv];
        [by left|]. rewrite resolve_to_string in Hv by done. congruence.
    + exists prev. split; [done|]. by eapply Hdecl.
Qed.

Lemma split_task_effect id into :
  Mutate.split_task d id into = Ok (UD.tasks d') →
  mutation_effect d d' (DagMutation.SplitTask id into).
Proof.
  unfold Mutate.split_task. destruct (Mutate.ensure_mutable d id) as [u|] eqn:Hm; [|done].
  apply ensure_mutable_Ok in Hm as (t & Hid & Hst). rewrite Hid.
  destruct into as [|h rest]; [done|]. cbn [Mutate.split_loop length last].
  case_decide as Hh; [done|].
  assert (Task.id h = GlobalTaskId.task id) as Hhid
    by (destruct (decide (Task.id h = GlobalTaskId.task id)); naive_solver).
  destruct (str_is_empty (Task.id h)) eqn:Hhe; [done|]. case_decide; [lia|]. cbn [app].
  assert (split_id id h = id) as Hsid by (unfold split_id; rewrite Hhid; by destruct id).
  unfold split_id in Hsid. rewrite Hsid.
  destruct (Mutate.split_loop _ _ _ rest _) as [[chain ts]|] eqn:Hl; [|done].
  apply (split_loop_spec id _ id) in Hl as (-> & -> & Hrest); [|done].
  destruct (last ([id] ++ _)) as [last_id|] eqn:Hlast; [|done]. intros [= Ht].
  assert (last (split_id id <$> h :: rest) = Some last_id) as Hlast'.
  { rewrite fmap_cons. unfold split_id at 1. by rewrite Hsid. }
  assert (∀ x, x ≠ id → UD.tasks d' !! x =
    if decide (x ∈ set_iter (UD.dependents_of d id))
    then (λ t, Task.set_depends_on (Mutate.replace_dep (Task.depends_on t)
             (GlobalTaskId.to_string id) (GlobalTaskId.to_string last_id)) t)
           <$> insert_all (split_links id id rest) (UD.tasks d) !! x
    else insert_all (split_links id id rest) (UD.tasks d) !! x) as Hx.
  { intros x Hne. rewrite <-Ht, lookup_delete_ne by done.
    rewrite lookup_update_all by apply NoDup_set_iter.
    rewrite (insert_all_congr _ x (<[_:=_]> (UD.tasks d)) (UD.tasks d)); [done|].
    by apply lookup_insert_ne. }
  assert (UD.tasks d' !! id = None) as Hgone by (by rewrite <-Ht, lookup_delete_eq).
  split; [by exists t|]. split; [done|]. exists h, rest, last_id. split_and!; [done|done|done| | |].
  - intros x Hne Hno. rewrite Hx by done. rewrite decide_False; [done|].
    by rewrite elem_of_dependents_of by apply Hd.
  - intros x Hne Hde. rewrite Hx by done. rewrite decide_True; [done|].
    by rewrite elem_of_dependents_of by apply Hd.
  - intros Hw. apply (fmap_nil_inv (split_id id)), no_endless_dependencies. intros x Hin.
    by apply (split_link_depends id rest last_id).
Qed.


End MutationEffects.



(** *** Mutations that cannot succeed *)

Section MutationLimits.
Context {HI : HashIter} (d : UnifiedTaskDag) (Hd : dag_ok d).

(** A mutation that would leave a reference to a missing task is refused. *)
Lemma dangling_mutation_refused m x t raw tasks :
  Mutate.mutated_tasks d m = Ok tasks → tasks !! x = Some t → raw ∈ Task.depends_on t →
  tasks !! resolve_dep_ref (GlobalTaskId.plan x) raw = None →
  ∃ e, Mutate.apply_mutation d m = (d, Err e).
Proof.
  intros Hm Hx Hraw Hno. destruct (Mutate.apply_mutation d m) as [d' r] eqn:H.
  apply apply_mutation_cases in H. destruct r as [u|e]; [|subst; eauto].
  destruct H as (tasks' & Hm' & Ht & _ & _ & Hd'). rewrite Hm in Hm'. injection Hm' as <-.
  exfalso. pose proof (ok_resolved d' Hd' x t raw) as H. rewrite Ht, Hno in H.
  by destruct (H Hx Hraw).
Qed.

(** A task that another task of its plan names by its bare name cannot be removed:
    only the qualified reference is taken out of its dependents. *)
Lemma remove_with_bare_reference_fails id x t :
  UD.tasks d !! x = Some t → x ≠ id → mutable d id →
  GlobalTaskId.plan x = GlobalTaskId.plan id → GlobalTaskId.task id ∈ Task.depends_on t →
  GlobalTaskId.parse (GlobalTaskId.task id) = None →
  GlobalTaskId.to_string id ≠ GlobalTaskId.task id →
  ∃ e, Mutate.apply_mutation d (DagMutation.RemoveTask id) = (d, Err e).
Proof.
  intros Hx Hne (u & Hid & Hst) Hplan Hbare Hparse Hstr.
  assert (resolve_dep_ref (GlobalTaskId.plan x) (GlobalTaskId.task id) = id) as Hres.
  { unfold resolve_dep_ref. rewrite Hparse, Hplan. simpl. by destruct id. }
  assert (x ∈ set_iter (UD.dependents_of d id)) as Hdep.
  { rewrite elem_of_dependents_of by apply Hd. rewrite <-Hres. by eapply declared_by_ref. }
  eapply (dangling_mutation_refused _ x _ (GlobalTaskId.task id)).
  - simpl. unfold Mutate.remove_task.
    rewrite (proj2 (ensure_mutable_Ok d id tt)) by eauto. by rewrite Hid.
  - rewrite lookup_delete_ne by done. rewrite lookup_update_all by apply NoDup_set_iter.
    rewrite decide_True by done. by rewrite Hx.
  - simpl. unfold Mutate.inherit_deps. apply elem_of_foldl_push_unique. left.
    unfold Mutate.remove_dep, Mutate.dedup_in_place. rewrite elem_of_dedup_first.
    rewrite elem_of_list_filter_bool. split; [done|].
    apply negb_true_iff, bool_decide_eq_false. congruence.
  - rewrite Hres. apply lookup_delete_eq.
Qed.

(** A task cannot be split in two or more: the replacement that keeps the original id is
    deleted again with the original, and the second replacement refers to it. *)
Lemma split_in_two_fails id t1 t2 rest :
  well_formed_id id = true →
  ∃ e, Mutate.apply_mutation d (DagMutation.SplitTask id (t1 :: t2 :: rest)) = (d, Err e).
Proof.
  intros Hw. destruct (Mutate.apply_mutation d _) as [d' r] eqn:H.
  apply apply_mutation_cases in H. destruct r as [u|e]; [|subst; by exists e].
  destruct H as (tasks & Hm & <- & _ & _ & Hd').
  apply split_task_effect in Hm as (_ & _ & h & rest' & l & [= _ <-] & _ & _ & _ & _ & Hone);
    [|done|done].
  by specialize (Hone Hw).
Qed.
End MutationLimits.

(** ** Correctness of culling *)

(** The tasks a list of targets names. *)
Definition targeted (d : UnifiedTaskDag) (targets : list string) (x : GlobalTaskId) : Prop :=
  is_Some (UD.tasks d !! x) ∧ ∃ target, target ∈ targets ∧
    match GlobalTaskId.parse target with
    | Some gid => gid = x
    | None => GlobalTaskId.task x = target
    end.

(** The tasks needed to produce the targets. *)
Definition required (d : UnifiedTaskDag) (targets : list string) (x : GlobalTaskId) : Prop :=
  ∃ y, targeted d targets y ∧ rtc (declared d) y x.

Section CullFacts.
Context {HI : HashIter} (d : UnifiedTaskDag) (Hd : dag_ok d).
Let U := universe (UD.edges d).
Implicit Types (acc : Cull.frontier) (x y a b : GlobalTaskId).

Lemma need_fold l acc :
  (∀ x, x ∈ l → x ∈ U) →
  let r := foldl Cull.need acc l in
  (∀ x, x ∈ r.2 ↔ x ∈ acc.2 ∨ x ∈ l) ∧
  (∀ x, x ∈ r.1 ↔ x ∈ acc.1 ∨ (x ∈ l ∧ x ∉ acc.2)) ∧
  length r.1 + size (U ∖ r.2) = length acc.1 + size (U ∖ acc.2).
Proof.
  revert acc. induction l as [|z l IH]; intros acc Hl; cbn [foldl]; [set_solver|].
  assert (∀ x, x ∈ l → x ∈ U) as Hl' by set_solver.
  destruct (IH (Cull.need acc z) Hl') as (H1 & H2 & H3).
  unfold Cull.need in *. case_decide as Hz.
  - split_and!; [set_solver| |done]. intros x. rewrite H2. set_solver.
  - unfold Cull.push_target in *. simpl in *. split_and!; [set_solver| |].
    + intros x. rewrite H2. destruct (decide (x = z)); set_solver.
    + rewrite H3, length_app. simpl.
      rewrite (size_remove (U ∖ acc.2) z) by set_solver.
      replace (U ∖ ({[z]} ∪ acc.2)) with ((U ∖ acc.2) ∖ {[z]}) by set_solver. lia.
Qed.

Lemma search_spec fuel acc :
  length acc.1 + size (U ∖ acc.2) ≤ fuel →
  (∀ x, x ∈ acc.1 → x ∈ acc.2) →
  (∀ x, x ∈ acc.2 → x ∈ acc.1 ∨ ∀ b, declared d x b → b ∈ acc.2) →
  ∀ y, y ∈ Cull.search d fuel acc ↔ ∃ x, x ∈ acc.2 ∧ rtc (declared d) x y.
Proof.
  revert acc. induction fuel as [|fuel IH]; intros [q n] Hf Hq Hc y; simpl in *.
  - destruct q as [|z q]; [|simpl in Hf; lia]. split; [eauto using rtc_refl|].
    intros (x & Hx & Hxy). induction Hxy as [|x z y Hxz _ IHr]; [done|]. apply IHr.
    destruct (Hc x Hx); [set_solver|auto].
  - destruct q as [|z q].
    { split; [eauto using rtc_refl|]. intros (x & Hx & Hxy).
      induction Hxy as [|x z y Hxz _ IHr]; [done|]. apply IHr.
      destruct (Hc x Hx); [set_solver|auto]. }
    assert (∀ x, x ∈ set_iter (UD.deps_of d z) ↔ declared d z x) as Hdeps
      by (intros x; apply elem_of_deps_of, Hd).
    destruct (need_fold (set_iter (UD.deps_of d z)) (q, n)) as (H1 & H2 & H3).
    { intros x Hx%Hdeps. apply (edge_universe (UD.edges d) z), (ix_edges d (ok_indexed d Hd)), Hx. }
    set (r := foldl Cull.need (q, n) _) in *. simpl in *. rewrite IH.
    + assert (z ∈ n) as Hz by (apply Hq; by left). split.
      * intros (x & [Hx|Hx%Hdeps]%H1 & Hxy); [eauto|]. exists z. split; [done|]. by eapply rtc_l.
      * intros (x & Hx & Hxy). exists x. split; [|done]. apply H1. by left.
    + lia.
    + intros x [Hx|[Hx _]]%H2; apply H1; [left; apply Hq; by right|by right].
    + intros x [Hx|Hx]%H1.
      * destruct (Hc x Hx) as [[->|Hxq]%elem_of_cons|Hb].
        -- right. intros b Hb%Hdeps. apply H1. by right.
        -- left. apply H2. by left.
        -- right. intros b Hxb. apply H1. left. auto.
      * destruct (decide (x ∈ n)) as [Hn|Hn]; [|left; apply H2; auto].
        destruct (Hc x Hn) as [[->|Hxq]%elem_of_cons|Hb].
        -- right. intros b Hb%Hdeps. apply H1. by right.
        -- left. apply H2. by left.
        -- right. intros b Hxb. apply H1. left. auto.
Qed.

Lemma targeted_cons g targets x :
  targeted d (g :: targets) x ↔ targeted d [g] x ∨ targeted d targets x.
Proof.
  unfold targeted. split.
  - intros [Hx (g' & [->|Hg]%elem_of_cons & H)]; [left|right]; (split; [done|]).
    + exists g. split; [by left|done].
    + by exists g'.
  - intros [[Hx (g' & ->%list_elem_of_singleton & H)]|[Hx (g' & Hg & H)]]; (split; [done|]).
    + exists g. split; [by left|done].
    + exists g'. split; [by right|done].
Qed.

Lemma targeted_one g x :
  targeted d [g] x ↔ is_Some (UD.tasks d !! x) ∧
    match GlobalTaskId.parse g with Some gid => gid = x | None => GlobalTaskId.task x = g end.
Proof.
  unfold targeted. split; intros [Hx H]; (split; [done|]).
  - destruct H as (g' & ->%list_elem_of_singleton & H). done.
  - exists g. split; [by left|done].
Qed.

(** The scan of the nodes for a bare name. *)
Lemma bare_targets_spec g l acc :
  (∀ x, x ∈ acc.1 ↔ x ∈ acc.2) →
  let r := foldl (λ acc node, if decide (GlobalTaskId.task node = g)
             then Cull.push_target acc node else acc) acc l in
  (∀ x, x ∈ r.1 ↔ x ∈ r.2) ∧ (∀ x, x ∈ r.2 ↔ x ∈ acc.2 ∨ (x ∈ l ∧ GlobalTaskId.task x = g)).
Proof.
  revert acc. induction l as [|z l IH]; intros acc Ha; cbn [foldl]; [set_solver|].
  case_decide as Hz.
  - destruct (IH (Cull.push_target acc z)) as [K1 K2]; [simpl; set_solver|].
    split; [done|]. intros x. rewrite K2. simpl. set_solver.
  - destruct (IH acc Ha) as [K1 K2]. split; [done|]. intros x. rewrite K2. set_solver.
Qed.

Lemma resolve_target_spec g acc :
  (∀ x, x ∈ acc.1 ↔ x ∈ acc.2) →
  let r := Cull.resolve_target d acc g in
  (∀ x, x ∈ r.1 ↔ x ∈ r.2) ∧ (∀ x, x ∈ r.2 ↔ x ∈ acc.2 ∨ targeted d [g] x).
Proof.
  intros Ha. cbv zeta. setoid_rewrite targeted_one. unfold Cull.resolve_target.
  destruct (GlobalTaskId.parse g) as [gid|].
  - case_decide as Hin; simpl.
    + split; [set_solver|]. intros x. rewrite elem_of_union, elem_of_singleton.
      split; [intros [->|?]; auto|intros [?|[_ ->]]; auto].
    + split; [done|]. intros x. split; [auto|]. intros [?|[Hx ->]]; done.
  - destruct (bare_targets_spec g (UD.nodes d) acc Ha) as [K1 K2]. split; [done|].
    intros x. by rewrite K2, elem_of_nodes.
Qed.

Lemma resolve_targets_spec targets acc :
  (∀ x, x ∈ acc.1 ↔ x ∈ acc.2) →
  let r := foldl (Cull.resolve_target d) acc targets in
  (∀ x, x ∈ r.1 ↔ x ∈ r.2) ∧ (∀ x, x ∈ r.2 ↔ x ∈ acc.2 ∨ targeted d targets x).
Proof.
  revert acc. induction targets as [|g targets IH]; intros acc Hacc; cbn [foldl].
  { split; [done|]. intros x. unfold targeted. set_solver. }
  destruct (resolve_target_spec g acc Hacc) as [H1 H2].
  destruct (IH _ H1) as [K1 K2]. split; [done|]. intros x. rewrite K2, H2, (targeted_cons g targets).
  clear. tauto.
Qed.

Lemma needed_tasks_spec targets x : x ∈ Cull.needed_tasks d targets ↔ required d targets x.
Proof.
  unfold Cull.needed_tasks.
  destruct (resolve_targets_spec targets ([], ∅)) as [H1 H2]; [set_solver|].
  set (start := foldl _ _ _) in *. rewrite search_spec.
  - unfold required. split; intros (y & Hy & Hxy); exists y; (split; [|done]).
    + apply H2 in Hy as [?|?]; [set_solver|done].
    + apply H2. by right.
  - assert (size (U ∖ start.2) ≤ size U) by (apply subseteq_size; set_solver). unfold U in *. lia.
  - intros y. apply H1.
  - intros y Hy. left. by apply H1.
Qed.

Lemma lookup_remove_all {V} (m : gmap GlobalTaskId V) l x :
  foldl (λ m id, delete id m) m l !! x = if decide (x ∈ l) then None else m !! x.
Proof.
  revert m. induction l as [|z l IH]; intros m; cbn [foldl]; [done|].
  rewrite IH. destruct (decide (x = z)) as [->|Hne].
  - rewrite lookup_delete_eq. rewrite (decide_True (P := z ∈ z :: l)) by by left.
    by case_decide.
  - rewrite lookup_delete_ne by done. case_decide; [rewrite decide_True by by right|
      rewrite decide_False by set_solver]; done.
Qed.

Lemma edge_retain (e : id_graph) l a b :
  edge ((λ ids : gset GlobalTaskId, filter (λ x, x ∉ (list_to_set l : gset GlobalTaskId)) ids) <$>
        foldl (λ m id, delete id m) e l) a b ↔
  (a ∉ l) ∧ (b ∉ l) ∧ edge e a b.
Proof.
  unfold edge. setoid_rewrite lookup_fmap. setoid_rewrite lookup_remove_all. case_decide as Ha.
  - split; [by intros (? & ? & _)|naive_solver].
  - split.
    + intros (ds & Hds & Hb). destruct (e !! a) as [es|]; [|done]. simpl in Hds. simplify_eq.
      apply elem_of_filter in Hb as [Hb1 Hb2]. rewrite elem_of_list_to_set in Hb1. eauto.
    + intros (_ & Hb & ds & Hds & Hin). rewrite Hds. eexists. split; [done|].
      apply elem_of_filter. by rewrite elem_of_list_to_set.
Qed.

(** The list of tasks that [cull] removes. *)
Definition culled_tasks (targets : list string) : list GlobalTaskId :=
  List.filter (λ id, bool_decide (id ∉ Cull.needed_tasks d targets)) (UD.nodes d).

Lemma elem_of_culled targets x :
  x ∈ culled_tasks targets ↔ is_Some (UD.tasks d !! x) ∧ ¬ required d targets x.
Proof.
  unfold culled_tasks. rewrite elem_of_list_filter_bool, bool_decide_eq_true.
  by rewrite needed_tasks_spec, elem_of_nodes.
Qed.

Lemma required_closed targets x y :
  required d targets x → declared d x y → required d targets y.
Proof. intros (z & Hz & Hzx) Hxy. exists z. split; [done|]. by eapply rtc_r. Qed.

Section Restricted.
Context (targets : list string) (d' : UnifiedTaskDag).
Context (Ht : ∀ x, UD.tasks d' !! x = if decide (x ∈ culled_tasks targets) then None
                                       else UD.tasks d !! x).
Context (Hp : UD.plan_deps d' = UD.plan_deps d) (Hc : UD.config d' = UD.config d).

Lemma declared_restricted a b :
  declared d' a b ↔ (a ∉ culled_tasks targets) ∧ (b ∉ culled_tasks targets) ∧ declared d a b.
Proof.
  unfold declared. rewrite Hp, Hc. setoid_rewrite Ht.
  destruct (decide (a ∈ culled_tasks targets)) as [Ha|Ha].
  { split; [by intros (_ & t & ? & _)|naive_solver]. }
  destruct (decide (b ∈ culled_tasks targets)) as [Hb|Hb].
  { split; [by intros [[? ?] _]|naive_solver]. }
  split; [intros H; exact (conj Ha (conj Hb H))|by intros (_ & _ & H)].
Qed.

Lemma refs_restricted : refs_resolved d'.
Proof.
  intros a t raw. rewrite !Ht. case_decide as Ha; [done|]. intros Hat Hraw.
  pose proof (declared_by_ref d a t raw Hd Hat Hraw) as Hdecl.
  rewrite decide_False; [apply (declared_tasks d _ _ Hdecl)|].
  intros [_ Hno]%elem_of_culled. apply Hno. eapply required_closed; [|done].
  rewrite elem_of_culled in Ha. destruct (decide (a ∈ Cull.needed_tasks d targets)) as [Hn|Hn];
    [by apply needed_tasks_spec|]. rewrite needed_tasks_spec in Hn. exfalso. apply Ha. eauto.
Qed.
End Restricted.

Lemma cull_ok targets d' n :
  Cull.cull d targets = (d', n) →
  dag_ok d' ∧ n = length (culled_tasks targets) ∧
  UD.plan_deps d' = UD.plan_deps d ∧ UD.config d' = UD.config d ∧
  ∀ x, UD.tasks d' !! x = if decide (x ∈ culled_tasks targets) then None else UD.tasks d !! x.
Proof.
  unfold Cull.cull. fold (culled_tasks targets). case_decide as Hlen.
  { intros [= <- <-]. apply nil_length_inv in Hlen. rewrite Hlen. split_and!; [done..|].
    intros x. by rewrite decide_False by set_solver. }
  set (tasks := foldl (λ m id, delete id m) (UD.tasks d) (culled_tasks targets)).
  intros H. destruct (Hd) as [Hix Href Hac].
  assert (∀ x, tasks !! x = if decide (x ∈ culled_tasks targets) then None else UD.tasks d !! x)
    as Ht by (intros x; apply lookup_remove_all).
  assert (dom tasks = dom (UD.tasks d) ∖ list_to_set (culled_tasks targets)) as Hdom.
  { apply set_eq. intros x. rewrite elem_of_difference, !elem_of_dom, elem_of_list_to_set, Ht.
    case_decide; [|naive_solver]. split; [by intros []|naive_solver]. }
  assert (∀ (e : id_graph), dom e = dom (UD.tasks d) →
    dom ((λ ids : gset GlobalTaskId,
      filter (λ x, x ∉ (list_to_set (culled_tasks targets) : gset GlobalTaskId)) ids) <$>
      foldl (λ m id, delete id m) e (culled_tasks targets)) = dom tasks) as Hdom'.
  { intros e He. rewrite dom_fmap_L, Hdom, <-He. apply set_eq. intros x.
    rewrite elem_of_difference, !elem_of_dom, elem_of_list_to_set, lookup_remove_all.
    case_decide; [|naive_solver]. split; [by intros []|naive_solver]. }
  injection H as <- <-. split_and!; [|done..].
  set (d' := UD.mk _ _ _ _ _ _ _).
  assert (∀ a b, declared d' a b ↔
    (a ∉ culled_tasks targets) ∧ (b ∉ culled_tasks targets) ∧ declared d a b) as Hdecl
    by (by apply declared_restricted).
  split; [split; simpl| |].
  - apply sorted_hash_keys.
  - apply Hdom', (ix_edges_dom d Hix).
  - apply Hdom', (ix_reverse_dom d Hix).
  - intros a b. by rewrite edge_retain, Hdecl, (ix_edges d Hix).
  - intros a b. rewrite !edge_retain, (ix_reverse d Hix). clear. tauto.
  - apply map_eq. intros x. rewrite lookup_remove_all, lookup_fmap, Ht, (ix_estimates d Hix).
    case_decide; [done|]. apply lookup_fmap.
  - by eapply refs_restricted.
  - intros x Hx. apply (Hac x). eapply (tc_congruence id); [|exact Hx]. intros a b.
    simpl. rewrite edge_retain. by intros (_ & _ & ?).
Qed.
End CullFacts.

(** culling keeps exactly the tasks that the targets need, directly or through
    their dependencies, with the dependencies between them, reports how many it
    removed, and leaves a consistent acyclic DAG. *)
Theorem cull_spec {HI : HashIter} d targets :
  dag_ok d →
  let '(d', n) := Cull.cull d targets in
  dag_ok d' ∧
  (∀ x t, UD.tasks d' !! x = Some t ↔ UD.tasks d !! x = Some t ∧ required d targets x) ∧
  (∀ a b, declared d' a b ↔ declared d a b ∧ required d targets a) ∧
  n + length (UD.nodes d') = length (UD.nodes d).
Proof.
  intros Hd. destruct (Cull.cull d targets) as [d' n] eqn:H.
  pose proof (cull_ok d Hd targets d' n H) as (Hd' & -> & Hp & Hc & Ht).
  assert (∀ x, is_Some (UD.tasks d !! x) → x ∉ culled_tasks d targets ↔ required d targets x) as Hkeep.
  { intros x Hx. rewrite elem_of_culled by done. rewrite <-(needed_tasks_spec d Hd).
    destruct (decide (x ∈ Cull.needed_tasks d targets)); naive_solver. }
  split_and!; [done| | |].
  - intros x t. rewrite Ht. case_decide as Hx.
    + split; [done|]. intros [Hxt Hr]. exfalso. by apply (Hkeep x) in Hr; [|eauto].
    + split; [|by intros [? _]]. intros Hxt. split; [done|]. by apply Hkeep; [eauto|].
  - intros a b. rewrite (declared_restricted d targets d' Ht Hp Hc). split.
    + intros (Ha & _ & Hab). split; [done|]. apply Hkeep; [|done]. apply (declared_tasks d _ _ Hab).
    + intros [Hab Hr]. pose proof (declared_tasks d _ _ Hab) as [Ha Hb]. split_and!; [|..|done].
      * by apply Hkeep.
      * apply Hkeep; [done|]. by eapply required_closed.
  - assert (UD.nodes d ≡ₚ culled_tasks d targets ++ UD.nodes d') as ->; [|by rewrite length_app].
    apply NoDup_Permutation; [by apply NoDup_nodes| |].
    + apply NoDup_app. split_and!; [by apply NoDup_filter_bool, NoDup_nodes| |by apply NoDup_nodes].
      intros x Hx. rewrite elem_of_nodes, Ht by done. rewrite decide_True by done. by intros [].
    + intros x. rewrite elem_of_app, !elem_of_nodes, Ht by done. case_decide as Hx.
      * split; [auto|]. intros _. by apply elem_of_culled in Hx as [? _].
      * naive_solver.
Qed.

Lemma cull_spec_witness :
  let '(d', n) := Cull.cull (sample_dag 0) ["a"] in
  dag_ok d' ∧ n + length (UD.nodes d') = 4 ∧ UD.nodes d' = [sample_id "a"; sample_id "c"].
Proof.
  pose proof (cull_spec (sample_dag 0) ["a"] (sample_dag_ok 0)) as H.
  assert (UD.nodes (Cull.cull (sample_dag 0) ["a"]).1 = [sample_id "a"; sample_id "c"]) as Hn
    by (vm_compute; reflexivity).
  destruct (Cull.cull _ _) as [d' n]. destruct H as (H1 & _ & _ & H2).
  split_and!; [exact H1|exact H2|exact Hn].
Defined.

(** ** Reachable DAGs *)

(** The DAGs a program can hold: built, then mutated and culled. *)
Inductive dag_reachable {HI : HashIter} : UnifiedTaskDag → Prop :=
  | reach_build pt pd cfg d : UD.build pt pd cfg = Ok d → dag_reachable d
  | reach_mutate d m : dag_reachable d → dag_reachable (Mutate.apply_mutation d m).1
  | reach_cull d targets : dag_reachable d → dag_reachable (Cull.cull d targets).1.

Lemma dag_reachable_ok {HI : HashIter} d : dag_reachable d → dag_ok d.
Proof.
  induction 1 as [pt pd cfg d H|d m _ IH|d targets _ IH].
  - by eapply build_Ok.
  - destruct (Mutate.apply_mutation d m) as [d' r] eqn:H. apply apply_mutation_cases in H.
    destruct r as [u|e]; simpl; [naive_solver|by subst].
  - destruct (Cull.cull d targets) as [d' n] eqn:H. by apply (cull_ok d IH) in H as [? _].
Qed.

(** C3: however a DAG was built, mutated and culled, it holds exactly its declared
    dependencies, and its topological sort succeeds: a permutation of the tasks in
    which every dependency comes first, and in which the smallest task among those
    whose dependencies are listed comes next, so that the order is unique. *)
Theorem topological_sort_spec {HI : HashIter} d :
  dag_reachable d →
  (∀ a b, edge (UD.edges d) a b ↔ declared d a b) ∧
  ∃ l, UD.topological_sort d = Ok l ∧ l ≡ₚ UD.nodes d ∧
    (∀ i a b, l !! i = Some a → declared d a b → b ∈ take i l) ∧
    (∀ i a k, l !! i = Some a → is_Some (UD.tasks d !! k) → k ∉ take i l →
       (∀ b, declared d k b → b ∈ take i l) → GlobalTaskId.leb a k = true).
Proof.
  intros Hd%dag_reachable_ok. pose proof (ok_indexed d Hd) as Hix.
  split; [apply (ix_edges d Hix)|].
  destruct (dag_ok_sort d Hd) as (l & Hts & Hp & Hresp & Hsm). exists l. split_and!; [done|done| |].
  - intros i a b Hi Hab. eapply Hresp; [done|]. by apply (ix_edges d Hix).
  - intros i a k Hi Hk Hno Hb. apply (Hsm i a k Hi); [|done|].
    + rewrite (ix_edges_dom d Hix). by apply elem_of_dom.
    + intros b Hkb. apply Hb. by apply (ix_edges d Hix).
Qed.

Lemma topological_sort_spec_witness :
  dag_reachable (sample_dag 0) ∧
  UD.topological_sort (sample_dag 0) =
    Ok [sample_id "b"; sample_id "c"; sample_id "a"; sample_id "d"] ∧
  ∃ l, UD.topological_sort (sample_dag 0) = Ok l ∧ l ≡ₚ UD.nodes (sample_dag 0).
Proof.
  assert (dag_reachable (sample_dag 0)) as Hr by (eapply reach_build, sample_dag_build).
  split_and!; [exact Hr|vm_compute; reflexivity|].
  destruct (topological_sort_spec (sample_dag 0) Hr) as (_ & l & H1 & H2 & _).
  exists l. split; [exact H1|exact H2].
Defined.

(** ** Correctness of incremental recomputation *)

Section DirtyFacts.
Context (s : IncrementalDag).
Implicit Types (D X : gset GlobalTaskId) (x y : GlobalTaskId) (stack : list GlobalTaskId).
Let rev := map_to_list (UD.reverse_edges (IncrementalDag.dag s)).

(** [x] passes its dirtiness on to its dependents. *)
Definition propagates x : Prop := IncrementalDag.durability s !! x ≠ Some Durability.High.

(** Every task of [X] outside [D] has passed its dirtiness on. *)
Definition closed_beyond D X : Prop :=
  ∀ x y, x ∈ X → x ∉ D → propagates x → y ∈ UD.dependents_of (IncrementalDag.dag s) x → y ∈ X.

(** The pushes still possible: the edges that leave clean tasks. *)
Fixpoint pushes_left D (l : list (GlobalTaskId * gset GlobalTaskId)) : nat :=
  match l with
  | [] => 0
  | (x, ds) :: l' => (if decide (x ∈ D) then 0 else size ds) + pushes_left D l'
  end.

Lemma pushes_left_mono D x l : pushes_left ({[x]} ∪ D) l ≤ pushes_left D l.
Proof.
  induction l as [|[y ds] l IH]; simpl; [done|].
  destruct (decide (y ∈ D)); [rewrite decide_True by set_solver|case_decide]; lia.
Qed.

Lemma pushes_left_spend D x ds l :
  (x, ds) ∈ l → x ∉ D → pushes_left ({[x]} ∪ D) l + size ds ≤ pushes_left D l.
Proof.
  intros Hin Hx. induction l as [|[y es] l IH]; simpl; [set_solver|].
  apply elem_of_cons in Hin as [?|Hin]; [simplify_eq|].
  - rewrite (decide_True (P := y ∈ {[y]} ∪ D)) by set_solver. rewrite decide_False by done.
    pose proof (pushes_left_mono D y l). lia.
  - specialize (IH Hin). destruct (decide (y ∈ D)); [rewrite decide_True by set_solver; lia|].
    case_decide; lia.
Qed.

Lemma pushes_left_dependents D x :
  x ∉ D → pushes_left ({[x]} ∪ D) rev +
    length (set_iter (UD.dependents_of (IncrementalDag.dag s) x)) ≤ pushes_left D rev.
Proof.
  intros Hx. rewrite length_set_iter. unfold UD.dependents_of.
  destruct (UD.reverse_edges (IncrementalDag.dag s) !! x) as [ds|] eqn:E; cbn [default].
  - apply pushes_left_spend; [|done]. by apply elem_of_map_to_list.
  - replace (size (∅ : gset GlobalTaskId)) with 0 by done.
    pose proof (pushes_left_mono D x rev). lia.
Qed.

Lemma elem_of_last_split stack x y :
  last stack = Some x → y ∈ stack ↔ y = x ∨ y ∈ removelast stack.
Proof.
  intros Hl. assert (stack = removelast stack ++ [x]) as E.
  { destruct stack as [|z k] using rev_ind; [done|]. rewrite last_snoc in Hl.
    rewrite removelast_last. congruence. }
  rewrite E at 1. set_solver.
Qed.

Lemma dirty_loop_spec fuel D0 stack D :
  length stack + pushes_left D rev ≤ fuel → D0 ⊆ D →
  (∀ x y, x ∈ D → x ∉ D0 → propagates x →
     y ∈ UD.dependents_of (IncrementalDag.dag s) x → y ∈ D ∨ y ∈ stack) →
  let R := IncrementalDag.dirty_loop s fuel stack D in
  D ⊆ R ∧ (∀ x, x ∈ stack → x ∈ R) ∧ closed_beyond D0 R ∧
  ∀ X, closed_beyond D0 X → D ⊆ X → (∀ x, x ∈ stack → x ∈ X) → R ⊆ X.
Proof.
  revert stack D. induction fuel as [|fuel IH]; intros stack D Hf H0 Hc; simpl.
  { destruct stack; [|simpl in Hf; lia]. split_and!; [done|set_solver| |done].
    intros x y Hx Hn Hp Hy. destruct (Hc x y); set_solver. }
  destruct (last stack) as [next|] eqn:Hl.
  2:{ apply last_None in Hl as ->. split_and!; [done|set_solver| |done].
      intros x y Hx Hn Hp Hy. destruct (Hc x y); set_solver. }
  pose proof (λ y, elem_of_last_split stack next y Hl) as Hst.
  assert (length stack = S (length (removelast stack))) as Hlen.
  { destruct stack as [|z k] using rev_ind; [done|]. rewrite removelast_last, length_app. simpl. lia. }
  case_decide as Hn.
  - destruct (IH (removelast stack) D) as (H1 & H2 & H3 & H4); [lia|done| |].
    + intros x y Hx Hx0 Hp Hy. destruct (Hc x y Hx Hx0 Hp Hy) as [?|[->|?]%Hst]; auto.
    + split_and!; [done| |done|].
      * intros x [->|Hx]%Hst; auto.
      * intros X HX HD Hs. apply H4; [done..|]. intros x Hx. apply Hs, Hst. by right.
  - assert (∀ stack', (∀ x, x ∈ removelast stack → x ∈ stack') →
      (∀ x, x ∈ stack' → x ∈ removelast stack ∨
         (propagates next ∧ x ∈ UD.dependents_of (IncrementalDag.dag s) next)) →
      (propagates next → ∀ x, x ∈ UD.dependents_of (IncrementalDag.dag s) next → x ∈ stack') →
      length stack' + pushes_left ({[next]} ∪ D) rev ≤ fuel →
      let R := IncrementalDag.dirty_loop s fuel stack' ({[next]} ∪ D) in
      D ⊆ R ∧ (∀ x, x ∈ stack → x ∈ R) ∧ closed_beyond D0 R ∧
      ∀ X, closed_beyond D0 X → D ⊆ X → (∀ x, x ∈ stack → x ∈ X) → R ⊆ X) as Hstep.
    { intros stack' Hs1 Hs2 Hs3 Hf'.
      destruct (IH stack' ({[next]} ∪ D)) as (H1 & H2 & H3 & H4); [done|set_solver| |].
      - intros x y [Hx%elem_of_singleton|Hx]%elem_of_union Hx0 Hp Hy.
        + subst x. right. by apply Hs3.
        + destruct (Hc x y Hx Hx0 Hp Hy) as [?|[->|?]%Hst]; [set_solver|set_solver|auto].
      - split_and!; [set_solver| |done|].
        + intros x [->|Hx]%Hst; [set_solver|auto].
        + intros X HX HD Hs. assert (next ∈ X) by (apply Hs, Hst; by left).
          apply H4; [done|set_solver|]. intros x [Hx|[Hp Hx]]%Hs2; [apply Hs, Hst; by right|].
          apply (HX next); [done| |done|done]. set_solver. }
    pose proof (pushes_left_dependents D next Hn).
    case_decide as Hh.
    + apply Hstep; [done|auto| |lia]. intros Hp. by exfalso.
    + apply Hstep.
      * set_solver.
      * intros x [?|?%elem_of_set_iter]%elem_of_app; auto.
      * intros _ x Hx. apply elem_of_app. right. by apply elem_of_set_iter.
      * rewrite length_app. lia.
Qed.

Lemma pushes_left_total D :
  pushes_left D rev ≤ foldr Nat.add 0 (size <$> rev.*2).
Proof.
  induction rev as [|[x ds] l IH]; [done|]. cbn [pushes_left]. rewrite !fmap_cons.
  cbn [foldr snd]. case_decide; lia.
Qed.
End DirtyFacts.

Lemma take_dirty_fold topo D out :
  NoDup topo →
  foldl IncrementalDag.take_dirty (D, out) topo =
  (D ∖ list_to_set topo, out ++ List.filter (λ x, bool_decide (x ∈ D)) topo).
Proof.
  revert D out. induction topo as [|x topo IH]; intros D out Hnd; cbn [foldl List.filter].
  { rewrite app_nil_r. f_equal. set_solver. }
  apply NoDup_cons in Hnd as [Hx Hnd]. unfold IncrementalDag.take_dirty at 2. cbn [fst snd].
  destruct (decide (x ∈ D)) as [Hin|Hno].
  - rewrite IH by done. rewrite (bool_decide_eq_true_2 _ Hin), <-app_assoc. f_equal; [set_solver|].
    simpl. f_equal. f_equal. apply filter_ext_in. intros y Hy%list_elem_of_In.
    apply bool_decide_ext. set_solver.
  - rewrite IH by done. rewrite (bool_decide_eq_false_2 _ Hno). f_equal. set_solver.
Qed.

Lemma filter_keeps_order (f : GlobalTaskId → bool) l a b i :
  NoDup l → List.filter f l !! i = Some a → b ∈ List.filter f l →
  (∀ j, l !! j = Some a → b ∈ take j l) → b ∈ take i (List.filter f l).
Proof.
  intros Hnd Hi Hb Hord. assert (a ∈ List.filter f l) as Ha by by eapply list_elem_of_lookup_2.
  apply elem_of_list_filter_bool in Ha as [Ha Hfa], Hb as [_ Hfb].
  apply list_elem_of_lookup_1 in Ha as [j Hj]. pose proof (Hord j Hj) as Hbj.
  assert (List.filter f l = List.filter f (take j l) ++ a :: List.filter f (drop (S j) l)) as E.
  { rewrite <-(take_drop_middle l j a Hj) at 1. rewrite List.filter_app. simpl. by rewrite Hfa. }
  assert (i = length (List.filter f (take j l))) as ->.
  { eapply NoDup_lookup; [by apply NoDup_filter_bool|done|]. rewrite E. by apply list_lookup_middle. }
  rewrite E, take_app_length. by apply elem_of_list_filter_bool.
Qed.

(** C22: marking a clean task dirty dirties the task and everything downstream of it that can be
    reached over clean tasks, tasks of high durability too, but not beyond those, and nothing
    else: the new dirty set is the least one that contains the old one and the task and in which
    every newly dirty task of lower durability has passed its dirtiness on.  A task that is dirty
    already passes nothing on.  The plan to recompute then
    lists the dirty tasks of the DAG, each once and after the dirty tasks it depends
    on, and leaves no task dirty. *)
Theorem incremental_recompute_spec s task :
  let s' := IncrementalDag.mark_dirty s task in
  (task ∈ IncrementalDag.dirty s' ∧ IncrementalDag.dirty s ⊆ IncrementalDag.dirty s' ∧
   closed_beyond s (IncrementalDag.dirty s) (IncrementalDag.dirty s') ∧
   ∀ X, task ∈ X → IncrementalDag.dirty s ⊆ X → closed_beyond s (IncrementalDag.dirty s) X →
     IncrementalDag.dirty s' ⊆ X) ∧
  (dag_ok (IncrementalDag.dag s) →
   let '(s2, plan) := IncrementalDag.recompute_plan s' in
   NoDup plan ∧
   (∀ x, x ∈ plan ↔
      is_Some (UD.tasks (IncrementalDag.dag s) !! x) ∧ x ∈ IncrementalDag.dirty s') ∧
   (∀ i a b, plan !! i = Some a → declared (IncrementalDag.dag s) a b → b ∈ plan →
      b ∈ take i plan) ∧
   ∀ x, is_Some (UD.tasks (IncrementalDag.dag s) !! x) → x ∉ IncrementalDag.dirty s2).
Proof.
  intros s'. split.
  - destruct (dirty_loop_spec s (IncrementalDag.dirty_fuel (IncrementalDag.dag s))
      (IncrementalDag.dirty s) [task] (IncrementalDag.dirty s)) as (H1 & H2 & H3 & H4).
    + unfold IncrementalDag.dirty_fuel. simpl.
      pose proof (pushes_left_total s (IncrementalDag.dirty s)). lia.
    + done.
    + intros x y Hx Hn. done.
    + split_and!; [apply H2; by left|done|done|]. intros X Ht HD HX. apply H4; [done|done|].
      intros x ->%list_elem_of_singleton. done.
  - intros Hd. unfold IncrementalDag.recompute_plan.
    change (IncrementalDag.dag s') with (IncrementalDag.dag s).
    destruct (dag_ok_sort _ Hd) as (topo & -> & Hperm & Hresp & _).
    assert (NoDup topo) as Hnd by (rewrite Hperm; by apply NoDup_nodes).
    rewrite take_dirty_fold by done. rewrite app_nil_l.
    assert (∀ x, x ∈ topo ↔ is_Some (UD.tasks (IncrementalDag.dag s) !! x)) as Htopo
      by (intros x; rewrite Hperm; by apply elem_of_nodes).
    split_and!.
    + by apply NoDup_filter_bool.
    + intros x. by rewrite elem_of_list_filter_bool, bool_decide_eq_true, Htopo.
    + intros i a b Hi Hab Hb. eapply filter_keeps_order; [done..|]. intros j Hj.
      eapply Hresp; [done|]. by apply (ix_edges _ (ok_indexed _ Hd)).
    + intros x Hx%Htopo. simpl. set_solver.
Qed.

(** A DAG that depends on a plan whose tasks were all culled refuses every later
    mutation: the plan dependencies are kept, and their plan has no task left. *)
Definition two_plans : gmap string (list Task) :=
  {["p" := [sample_task "a" [] [] 1]; "q" := [sample_task "b" [] [] 1]]}.

Lemma cull_blocks_mutations :
  ∃ d, UD.build two_plans {["q" := {["p"]}]} DagConfig.default = Ok d ∧
    let d' := (Cull.cull d ["p:a"]).1 in
    UD.nodes d' = [GlobalTaskId.new "p" "a"] ∧
    (Mutate.apply_mutation d' (DagMutation.AddTask (GlobalTaskId.new "p" "c")
       (sample_task "c" [] [] 1) [])).2 =
    Err (DagMutationError.InvalidMutation "unknown plan during rebuild: q").
Proof.
  destruct (UD.build two_plans {["q" := {["p"]}]} DagConfig.default) as [d|e] eqn:E;
    [|vm_compute in E; discriminate].
  exists d. split; [done|]. vm_compute in E. injection E as <-. vm_compute. done.
Qed.

(** A task of high durability that nobody marked is dirtied by its dependency. *)
Example high_task_is_dirtied :
  let s := IncrementalDag.set_durability (IncrementalDag.new (sample_dag 0)) (sample_id "a")
             Durability.High in
  (IncrementalDag.recompute_plan (IncrementalDag.mark_dirty s (sample_id "c"))).2
    = [sample_id "c"; sample_id "a"].
Proof. by vm_compute. Qed.

(** Asking twice whether a dirty task is clean answers yes the second time, although
    nothing was recomputed: the first call stores the new hash of the inputs. *)
Lemma ensure_clean_twice {B3 : Blake3} {TJ : TaskJson} s id :
  let '(s1, _) := IncrementalDag.ensure_clean s id in
  (IncrementalDag.ensure_clean s1 id).2 = true.
Proof.
  unfold IncrementalDag.ensure_clean. case_decide as Hd; [by rewrite decide_True|].
  case_decide as Hh; simpl.
  - by rewrite decide_True by set_solver.
  - rewrite decide_False by (intros Hno; by apply Hno). rewrite decide_True; [done|]. apply lookup_insert_eq.
Qed.

Lemma incremental_recompute_spec_witness :
  let s := IncrementalDag.new (sample_dag 0) in
  let '(s2, plan) := IncrementalDag.recompute_plan (IncrementalDag.mark_dirty s (sample_id "c")) in
  plan = [sample_id "c"; sample_id "a"] ∧
  ∀ x, is_Some (UD.tasks (sample_dag 0) !! x) → x ∉ IncrementalDag.dirty s2.
Proof.
  pose proof (proj2 (incremental_recompute_spec (IncrementalDag.new (sample_dag 0)) (sample_id "c"))
    (sample_dag_ok 0)) as H.
  assert ((IncrementalDag.recompute_plan (IncrementalDag.mark_dirty
    (IncrementalDag.new (sample_dag 0)) (sample_id "c"))).2 = [sample_id "c"; sample_id "a"]) as Hp
    by (vm_compute; reflexivity).
  cbv zeta in H |- *. destruct (IncrementalDag.recompute_plan _) as [s2 plan].
  split; [exact Hp|apply H].
Defined.
