(* ===== verification/DagFuse.v ===== *)
(** * Fusing linear chains of tasks (crates/roko-orchestrator/src/dag.rs)

    [fuse_linear_chains] collapses serial chains into their first task, in place.
    The theorems show that it terminates and that no file or acceptance criterion
    of a fused task is lost; examples show where rewiring goes wrong. *)

From stdpp Require Import relations.
From S2P Require Import Prelude Task Ordered CycleDetect Dag DagSchedule.

Module FusionConfig.
Record t : Type := mk {
  max_chain_length : nat;
  ave_width : F64.t;
  same_tier_only : bool;
}.
Definition default : t := mk 5 (F64.of_Z 2) true.
End FusionConfig.
Abbreviation FusionConfig := FusionConfig.t.

Module Fuse.
Definition fusion_compatible (lhs rhs : option Task) : bool :=
  match lhs, rhs with
  | Some lhs, Some rhs =>
      bool_decide (Task.role lhs = Task.role rhs) &&
      bool_decide (Task.preferred_model lhs = Task.preferred_model rhs) &&
      bool_decide (Task.preferred_provider lhs = Task.preferred_provider rhs) &&
      bool_decide (Task.complexity_band lhs = Task.complexity_band rhs)
  | _, _ => false
  end.

Definition append_unique (target source : list string) : list string :=
  foldl push_unique target source.

(** [if target.f.is_none() { target.f = merged.f }] *)
Definition or_else {A} (target merged : option A) : option A :=
  match target with None => merged | Some _ => target end.

Definition merge_task_specs (target merged : Task) : Task :=
  {| Task.id := Task.id target;
     Task.title := Task.title target +:+ " + " +:+ Task.title merged;
     Task.status := Task.status target;
     Task.files := append_unique (Task.files target) (Task.files merged);
     Task.role := or_else (Task.role target) (Task.role merged);
     Task.acceptance := append_unique (Task.acceptance target) (Task.acceptance merged);
     Task.depends_on := Task.depends_on target;
     Task.parallel_group := Task.parallel_group target;
     Task.exclusive_files := Task.exclusive_files target || Task.exclusive_files merged;
     Task.estimated_minutes :=
       Some (sat_add32 (default 0%N (Task.estimated_minutes target))
               (default 0%N (Task.estimated_minutes merged)));
     Task.types_to_define := Task.types_to_define target;
     Task.formulas := Task.formulas target;
     Task.test_invariants := Task.test_invariants target;
     Task.imports := Task.imports target;
     Task.example_pattern := Task.example_pattern target;
     Task.context_files := Task.context_files target;
     Task.plan_section := Task.plan_section target;
     Task.skills := Task.skills target;
     Task.category := or_else (Task.category target) (Task.category merged);
     Task.reasoning_level := or_else (Task.reasoning_level target) (Task.reasoning_level merged);
     Task.speed_priority := or_else (Task.speed_priority target) (Task.speed_priority merged);
     Task.quality_profile := or_else (Task.quality_profile target) (Task.quality_profile merged);
     Task.context_weight := or_else (Task.context_weight target) (Task.context_weight merged);
     Task.research_before_edit := Task.research_before_edit target;
     Task.tags := Task.tags target;
     Task.dependency_tags := Task.dependency_tags target;
     Task.fixture_keys := Task.fixture_keys target;
     Task.sidecar_requirements := Task.sidecar_requirements target;
     Task.integration_surfaces := Task.integration_surfaces target;
     Task.complexity_band := or_else (Task.complexity_band target) (Task.complexity_band merged);
     Task.preferred_model := or_else (Task.preferred_model target) (Task.preferred_model merged);
     Task.preferred_provider :=
       or_else (Task.preferred_provider target) (Task.preferred_provider merged);
     Task.escalate_on_retry := Task.escalate_on_retry target;
     Task.domain := Task.domain target |}.

Section Fuse.
Context {HI : HashIter} (config : FusionConfig).

(** The walk along the chain: its tasks, and whether it stayed compatible.  In an
    acyclic graph it visits each task at most once. *)
Fixpoint walk (d : UnifiedTaskDag) (fuel : nat) (chain : list GlobalTaskId)
    (cursor : GlobalTaskId) : list GlobalTaskId * bool :=
  match fuel with
  | O => (chain, true)
  | S fuel' =>
      match set_first (UD.dependents_of d cursor) with
      | None => (chain, true)
      | Some next =>
          if decide (size (UD.deps_of d next) ≠ 1) then (chain, false)
          else if decide (set_first (UD.deps_of d next) ≠ Some cursor) then (chain, false)
          else if negb (fusion_compatible (UD.task d cursor) (UD.task d next)) then (chain, false)
          else if FusionConfig.same_tier_only config &&
                  negb (bool_decide ((UD.task d cursor ≫= Task.complexity_band) =
                                     (UD.task d next ≫= Task.complexity_band)))
          then (chain, false)
          else
            let chain := chain ++ [next] in
            if decide (FusionConfig.max_chain_length config ≤ length chain) then (chain, true)
            else if decide (UD.dependents_of d next = ∅) then (chain, true)
            else if decide (size (UD.dependents_of d next) ≠ 1) then (chain, false)
            else walk d fuel' chain next
      end
  end.

(** The guard on the average width after the fusion. *)
Definition too_narrow (d : UnifiedTaskDag) (chain : list GlobalTaskId) : bool :=
  if F64.gt (FusionConfig.ave_width config) F64.zero then
    let node_count := length (UD.nodes d) in
    let wave_count := Nat.max (match Waves.waves d with Ok w => length w | Err _ => 1 end) 1 in
    let merged_count := length chain - 1 in
    let new_node_count := node_count - merged_count in
    let avg_width :=
      F64.div (F64.of_Z (Z.of_nat new_node_count)) (F64.of_Z (Z.of_nat wave_count)) in
    F64.lt avg_width (FusionConfig.ave_width config)
  else false.

(** [for merged_id in chain.iter().skip(1)]: the specs of the chain into its head. *)
Definition merge_chain (tasks : gmap GlobalTaskId Task) (target : Task)
    (merged : list GlobalTaskId) : Task :=
  foldl (λ target id,
    match tasks !! id with Some m => merge_task_specs target m | None => target end) target merged.

(** References to the tail, bare or qualified, become references to the head. *)
Definition rewire (start tail : GlobalTaskId) (deps : list string) : list string :=
  let start_ref :=
    if decide (GlobalTaskId.plan tail = GlobalTaskId.plan start)
    then GlobalTaskId.task start else GlobalTaskId.to_string start in
  (λ raw, if decide (raw = GlobalTaskId.task tail ∨ raw = GlobalTaskId.to_string tail)
          then start_ref else raw) <$> deps.

Definition fused_tasks (d : UnifiedTaskDag) (start tail : GlobalTaskId) (target : Task)
    (merged : list GlobalTaskId) : gmap GlobalTaskId Task :=
  let tasks := <[start := merge_chain (UD.tasks d) target merged]> (UD.tasks d) in
  let tasks :=
    foldl (λ tasks id,
      alter (λ t, Task.set_depends_on (rewire start tail (Task.depends_on t)) t) id tasks)
      tasks (set_iter (UD.dependents_of d tail)) in
  foldl (λ tasks id, delete id tasks) tasks merged.

(** What one round of the [for] loop does with a start task. *)
Inductive step : Type :=
  | Skip
  | Fused (d : UnifiedTaskDag)
  | Broken (d : UnifiedTaskDag).

Definition try_fuse (d : UnifiedTaskDag) (start : GlobalTaskId) : step :=
  if decide (size (UD.dependents_of d start) ≠ 1) then Skip
  else
    let '(chain, compatible) := walk d (length (UD.nodes d)) [start] start in
    if negb compatible || bool_decide (length chain < 2) then Skip
    else
      match UD.tasks d !! start with
      | None => Skip
      | Some target =>
          if existsb (λ id,
               match UD.tasks d !! id with
               | Some t => bool_decide (Task.status t = TaskStatus.Done)
               | None => false
               end) chain then Skip
          else if too_narrow d chain then Skip
          else
            match last chain with
            | None => Skip
            | Some tail =>
                let d := UD.set_tasks (fused_tasks d start tail target (List.tl chain)) d in
                match UD.rebuild_indexes d with
                | (d, Ok _) => Fused d
                | (d, Err _) => Broken d
                end
            end
      end.

(** The [for] loop over the topological order: it stops at the first fusion, and at
    the first rebuild that fails. *)
Fixpoint fuse_pass (d : UnifiedTaskDag) (topo : list GlobalTaskId) : step :=
  match topo with
  | [] => Skip
  | start :: topo' =>
      match try_fuse d start with
      | Skip => fuse_pass d topo'
      | r => r
      end
  end.

(** The outer loop; each fusion removes a task, so the number of tasks bounds it. *)
Fixpoint fuse_loop (fuel : nat) (d : UnifiedTaskDag) (fusions : nat) : UnifiedTaskDag * nat :=
  match fuel with
  | O => (d, fusions)
  | S fuel' =>
      match UD.topological_sort d with
      | Err _ => (d, fusions)
      | Ok topo =>
          match fuse_pass d topo with
          | Skip => (d, fusions)
          | Broken d => (d, fusions)
          | Fused d => fuse_loop fuel' d (S fusions)
          end
      end
  end.

Definition fuse_linear_chains (d : UnifiedTaskDag) : UnifiedTaskDag * nat :=
  fuse_loop (length (UD.nodes d)) d 0.
End Fuse.
End Fuse.

(** ** Facts *)

Section FuseFacts.
Context {HI : HashIter} (config : FusionConfig).
Implicit Types (d : UnifiedTaskDag) (x y : GlobalTaskId).

(** The tasks of a walk after its first are tasks of the DAG and distinct from it,
    unless the graph has a cycle. *)
Lemma walk_tasks d fuel chain cursor chain' ok :
  indexed d → Fuse.walk config d fuel chain cursor = (chain', ok) →
  ∃ more, chain' = chain ++ more ∧ ∀ x, x ∈ more → tc (declared d) x cursor.
Proof.
  intros Hix. revert chain cursor. induction fuel as [|fuel IH]; intros chain cursor H; simpl in H.
  { simplify_eq. exists []. split; [by rewrite app_nil_r|set_solver]. }
  destruct (set_first (UD.dependents_of d cursor)) as [next|] eqn:Hn.
  2:{ simplify_eq. exists []. split; [by rewrite app_nil_r|set_solver]. }
  apply set_first_Some in Hn as [Hn _].
  assert (declared d next cursor) as Hdecl.
  { apply (elem_of_dependents_of d cursor next Hix). by apply elem_of_set_iter. }
  assert (∃ more, chain = chain ++ more ∧ ∀ x, x ∈ more → tc (declared d) x cursor) as Hstop.
  { exists []. split; [by rewrite app_nil_r|set_solver]. }
  assert (∃ more, chain ++ [next] = chain ++ more ∧ ∀ x, x ∈ more → tc (declared d) x cursor)
    as Hnext.
  { exists [next]. split; [done|]. intros x ->%list_elem_of_singleton. by apply tc_once. }
  repeat (case_decide || case_match); simplify_eq; try done.
  all: apply IH in H as (more & -> & Hmore); exists (next :: more);
    (split; [by rewrite <-app_assoc|]);
    intros x [->|Hx]%elem_of_cons; [by apply tc_once|]; (eapply tc_r; [by apply Hmore|done]).
Qed.

Lemma lookup_alter_all (f : Task → Task) l (m : gmap GlobalTaskId Task) x :
  NoDup l →
  foldl (λ m id, alter f id m) m l !! x = if decide (x ∈ l) then f <$> m !! x else m !! x.
Proof.
  revert m. induction l as [|z l IH]; intros m Hnd; cbn [foldl].
  { by rewrite decide_False by set_solver. }
  apply NoDup_cons in Hnd as [Hz Hnd]. rewrite IH by done. destruct (decide (x = z)) as [->|Hne].
  - rewrite decide_False by done. rewrite decide_True by by left. apply lookup_alter_eq.
  - rewrite lookup_alter_ne by done.
    case_decide; [rewrite decide_True by by right|rewrite decide_False by set_solver]; done.
Qed.

Lemma lookup_delete_all (l : list GlobalTaskId) (m : gmap GlobalTaskId Task) x :
  foldl (λ m id, delete id m) m l !! x = if decide (x ∈ l) then None else m !! x.
Proof.
  revert m. induction l as [|z l IH]; intros m; cbn [foldl]; [by rewrite decide_False by set_solver|].
  rewrite IH. destruct (decide (x = z)) as [->|Hne].
  - rewrite lookup_delete_eq. rewrite (decide_True (P := z ∈ z :: l)) by by left. by case_decide.
  - rewrite lookup_delete_ne by done.
    case_decide; [rewrite decide_True by by right|rewrite decide_False by set_solver]; done.
Qed.

(** The tasks after one fusion: the merged ones are gone, the head carries their
    specs, and the dependents of the tail are rewired. *)
Lemma lookup_fused d start tail target merged x :
  Fuse.fused_tasks d start tail target merged !! x =
  if decide (x ∈ merged) then None
  else
    (λ t, if decide (x ∈ set_iter (UD.dependents_of d tail))
          then Task.set_depends_on (Fuse.rewire start tail (Task.depends_on t)) t else t) <$>
    (if decide (x = start) then Some (Fuse.merge_chain (UD.tasks d) target merged)
     else UD.tasks d !! x).
Proof.
  unfold Fuse.fused_tasks. rewrite lookup_delete_all. case_decide; [done|].
  rewrite lookup_alter_all by apply NoDup_set_iter.
  destruct (decide (x = start)) as [->|Hne];
    [rewrite lookup_insert_eq|rewrite lookup_insert_ne by done]; case_decide; try done.
  by destruct (UD.tasks d !! x).
Qed.

Lemma elem_of_append_unique (s : string) l l' : s ∈ Fuse.append_unique l l' ↔ s ∈ l ∨ s ∈ l'.
Proof.
  unfold Fuse.append_unique. revert l. induction l' as [|y l' IH]; intros l; cbn [foldl].
  - set_solver.
  - rewrite IH, elem_of_push_unique, elem_of_cons. naive_solver.
Qed.

(** A field of list type that merging accumulates. *)
Definition accumulates (g : Task → list string) : Prop :=
  (∀ t m s, s ∈ g (Fuse.merge_task_specs t m) ↔ s ∈ g t ∨ s ∈ g m) ∧
  (∀ t ds, g (Task.set_depends_on ds t) = g t).

Lemma files_accumulate : accumulates Task.files.
Proof. split; [intros t m s; apply elem_of_append_unique|done]. Qed.

Lemma acceptance_accumulates : accumulates Task.acceptance.
Proof. split; [intros t m s; apply elem_of_append_unique|done]. Qed.

(** Some task of the DAG mentions [s]. *)
Definition mentioned (g : Task → list string) (tasks : gmap GlobalTaskId Task) (s : string) : Prop :=
  ∃ x t, tasks !! x = Some t ∧ s ∈ g t.

Lemma merge_chain_mentions g tasks target merged s :
  accumulates g →
  s ∈ g (Fuse.merge_chain tasks target merged) ↔
  s ∈ g target ∨ ∃ x t, x ∈ merged ∧ tasks !! x = Some t ∧ s ∈ g t.
Proof.
  intros [Hg _]. unfold Fuse.merge_chain. revert target.
  induction merged as [|y merged IH]; intros target; cbn [foldl]; [set_solver|].
  rewrite IH. setoid_rewrite elem_of_cons. destruct (tasks !! y) as [m|] eqn:E.
  - rewrite Hg. naive_solver.
  - naive_solver.
Qed.

Lemma fused_mentions g d start tail target merged s :
  accumulates g → UD.tasks d !! start = Some target → start ∉ merged →
  mentioned g (Fuse.fused_tasks d start tail target merged) s ↔ mentioned g (UD.tasks d) s.
Proof.
  intros Hg Hstart Hnot. pose proof Hg as [_ Hset]. unfold mentioned. setoid_rewrite lookup_fused.
  assert (∀ x t, g (if decide (x ∈ set_iter (UD.dependents_of d tail))
    then Task.set_depends_on (Fuse.rewire start tail (Task.depends_on t)) t else t) = g t) as Hdep
    by (intros x t; case_decide; [apply Hset|done]).
  split.
  - intros (x & t & Hx & Hs). case_decide as Hm; [done|]. apply fmap_Some in Hx as (u & Hu & ->).
    rewrite Hdep in Hs. case_decide; [|eauto]. simplify_eq.
    apply merge_chain_mentions in Hs as [Hs|(y & v & _ & Hy & Hs)]; [eauto..|done].
  - intros (x & t & Hx & Hs). destruct (decide (x = start ∨ x ∈ merged)) as [Hor|Hno].
    + exists start. rewrite decide_False by done. rewrite decide_True by done.
      eexists. split; [done|]. rewrite Hdep. apply merge_chain_mentions; [done|].
      destruct Hor as [->|Hm]; [simplify_eq; auto|eauto 6].
    + exists x. rewrite decide_False by tauto. rewrite decide_False by tauto. rewrite Hx.
      eexists. split; [done|]. by rewrite Hdep.
Qed.

(** [d'] is [d] after one fusion, up to its indexes. *)
Definition fused_from d d' : Prop :=
  ∃ start tail target merged,
    UD.tasks d !! start = Some target ∧ merged ≠ [] ∧ (start ∉ merged) ∧
    (∀ x, x ∈ start :: merged →
       ∃ t, UD.tasks d !! x = Some t ∧ Task.status t ≠ TaskStatus.Done) ∧
    UD.tasks d' = Fuse.fused_tasks d start tail target merged ∧
    UD.plan_deps d' = UD.plan_deps d ∧ UD.config d' = UD.config d.

Lemma not_done_all d l :
  (∀ x, x ∈ l → is_Some (UD.tasks d !! x)) →
  existsb (λ id, match UD.tasks d !! id with
                 | Some t => bool_decide (Task.status t = TaskStatus.Done)
                 | None => false end) l = false →
  ∀ x, x ∈ l → ∃ t, UD.tasks d !! x = Some t ∧ Task.status t ≠ TaskStatus.Done.
Proof.
  intros Hall Hex x Hx. destruct (Hall x Hx) as [t Ht]. exists t. split; [done|]. intros Hst.
  assert (existsb (λ id, match UD.tasks d !! id with
    | Some t => bool_decide (Task.status t = TaskStatus.Done) | None => false end) l = true);
    [|congruence].
  apply existsb_exists. exists x. split; [by apply list_elem_of_In|]. rewrite Ht.
  by apply bool_decide_eq_true.
Qed.

Lemma try_fuse_cases d start :
  dag_ok d →
  match Fuse.try_fuse config d start with
  | Fuse.Skip => True
  | Fuse.Fused d' => fused_from d d' ∧ indexed d' ∧ resolved d'
  | Fuse.Broken d' => fused_from d d'
  end.
Proof.
  intros Hd. pose proof (ok_indexed d Hd) as Hix. unfold Fuse.try_fuse. case_decide; [done|].
  destruct (Fuse.walk _ _ _ _ _) as [chain ok] eqn:Hw.
  apply walk_tasks in Hw as (merged & -> & Hmerged); [|done]. cbn [app List.tl].
  destruct (negb ok || bool_decide (length (start :: merged) < 2)) eqn:Hc; [done|].
  apply orb_false_iff in Hc as [_ Hlen%bool_decide_eq_false].
  destruct (UD.tasks d !! start) as [target|] eqn:Hstart; [|done].
  destruct (existsb _ _) eqn:Hdone; [done|]. destruct (Fuse.too_narrow _ _ _); [done|].
  destruct (last (start :: merged)) as [tail|]; [|done].
  assert (∀ x, x ∈ merged → is_Some (UD.tasks d !! x)) as Htasks.
  { intros x Hx. apply Hmerged, tc_first in Hx as (b & Hxb & _).
    apply (declared_tasks d _ _ Hxb). }
  assert (∀ d', UD.tasks d' = Fuse.fused_tasks d start tail target merged →
    UD.plan_deps d' = UD.plan_deps d → UD.config d' = UD.config d → fused_from d d') as Hfrom.
  { intros d' Ht Hp Hcfg. exists start, tail, target, merged.
    split_and!; [done| | |by apply not_done_all; [set_solver|]|done..].
    - intros ->. simpl in Hlen. lia.
    - intros Hin. apply (ok_acyclic d Hd start), (on_cycle_declared d start Hix). by apply Hmerged. }
  destruct (UD.rebuild_indexes _) as [d' [u|e]] eqn:Hr;
    apply rebuild_indexes_spec in Hr as (Ht & Hp & Hcfg & Hr); simpl in Ht, Hp, Hcfg.
  - split; [by apply Hfrom|done].
  - by apply Hfrom.
Qed.

Lemma fuse_pass_cases d topo :
  dag_ok d →
  match Fuse.fuse_pass config d topo with
  | Fuse.Skip => True
  | Fuse.Fused d' => fused_from d d' ∧ indexed d' ∧ resolved d'
  | Fuse.Broken d' => fused_from d d'
  end.
Proof.
  intros Hd. induction topo as [|x topo IH]; [done|]. cbn [Fuse.fuse_pass].
  pose proof (try_fuse_cases d x Hd) as H. by destruct (Fuse.try_fuse config d x).
Qed.

(** What a fusion preserves. *)
Record conserves d d' : Prop := {
  cons_mentions : ∀ g s, accumulates g →
    mentioned g (UD.tasks d') s ↔ mentioned g (UD.tasks d) s;
  cons_dom : dom (UD.tasks d') ⊆ dom (UD.tasks d);
  cons_done : ∀ x t, UD.tasks d !! x = Some t → Task.status t = TaskStatus.Done →
    ∃ ds, UD.tasks d' !! x = Some (Task.set_depends_on ds t);
}.

Lemma conserves_trans d1 d2 d3 : conserves d1 d2 → conserves d2 d3 → conserves d1 d3.
Proof.
  intros [M1 D1 C1] [M2 D2 C2]. split.
  - intros g s Hg. by rewrite M2, M1.
  - set_solver.
  - intros x t Hx Hst. destruct (C1 x t Hx Hst) as [ds Hds].
    destruct (C2 x _ Hds Hst) as [ds' Hds']. by exists ds'.
Qed.

Lemma conserves_refl d : conserves d d.
Proof. split; [done|done|]. intros x t Hx _. exists (Task.depends_on t). by destruct t. Qed.

Lemma fused_conserves d d' : fused_from d d' → conserves d d'.
Proof.
  intros (start & tail & target & merged & Hstart & Hne & Hnot & Hall & Ht & _ & _). split.
  - intros g s Hg. rewrite Ht. by apply fused_mentions.
  - intros x. rewrite !elem_of_dom, Ht, lookup_fused. case_decide; [by intros []|].
    rewrite fmap_is_Some. case_decide; [subst; eauto|done].
  - intros x t Hx Hst. rewrite Ht, lookup_fused.
    assert (x ∉ start :: merged) as [Hxs Hxm]%not_elem_of_cons.
    { intros (t' & Ht' & Hnd)%Hall. congruence. }
    rewrite decide_False by done. rewrite decide_False by done. rewrite Hx. simpl.
    case_decide; [eauto|]. exists (Task.depends_on t). by destruct t.
Qed.

Lemma fused_shrinks d d' : fused_from d d' → size (UD.tasks d') < size (UD.tasks d).
Proof.
  intros H. pose proof (cons_dom _ _ (fused_conserves d d' H)) as Hdom.
  destruct H as (start & tail & target & merged & _ & Hne & _ & Hall & Ht & _ & _).
  rewrite <-!size_dom. apply subset_size. split; [done|]. intros Hsub.
  destruct merged as [|x merged]; [done|].
  destruct (Hall x) as (t & Hx & _); [right; by left|].
  assert (x ∈ dom (UD.tasks d')) as Hin by (apply Hsub; by eapply elem_of_dom_2).
  apply elem_of_dom in Hin as [t' Hin]. rewrite Ht, lookup_fused in Hin.
  rewrite decide_True in Hin by by left. done.
Qed.

Lemma sorted_dag_ok d topo :
  indexed d → refs_resolved d → UD.topological_sort d = Ok topo →
  dag_ok d ∧ topo ≡ₚ UD.nodes d.
Proof.
  intros Hix Href Hts. pose proof (topological_sort_indexed d Hix) as H. rewrite Hts in H.
  destruct H as (Hp & _ & _ & Hac). split; [by split|done].
Qed.

Lemma fuse_loop_spec fuel d n :
  indexed d → refs_resolved d →
  let '(d', n') := Fuse.fuse_loop config fuel d n in
  conserves d d' ∧ n' + size (UD.tasks d') ≤ n + size (UD.tasks d).
Proof.
  revert d n. induction fuel as [|fuel IH]; intros d n Hix Href; cbn [Fuse.fuse_loop].
  { split; [apply conserves_refl|done]. }
  destruct (UD.topological_sort d) as [topo|e] eqn:Hts; [|split; [apply conserves_refl|done]].
  destruct (sorted_dag_ok d topo Hix Href Hts) as [Hd _].
  pose proof (fuse_pass_cases d topo Hd) as Hpass.
  destruct (Fuse.fuse_pass config d topo) as [|d1|d1]; [split; [apply conserves_refl|done]| |].
  - destruct Hpass as (Hf & Hix1 & Hres1). specialize (IH d1 (S n) Hix1 (proj1 Hres1)).
    destruct (Fuse.fuse_loop config fuel d1 (S n)) as [d' n']. destruct IH as [IHc IHs].
    pose proof (fused_shrinks d d1 Hf). pose proof (fused_conserves d d1 Hf).
    split; [by eapply conserves_trans|lia].
  - pose proof (fused_shrinks d d1 Hpass). split; [by apply fused_conserves|lia].
Qed.

(** The number of tasks is enough fuel for the outer loop. *)
Lemma fuse_loop_fuel fuel k d n :
  indexed d → refs_resolved d → size (UD.tasks d) ≤ fuel →
  Fuse.fuse_loop config (fuel + k) d n = Fuse.fuse_loop config fuel d n.
Proof.
  revert d n. induction fuel as [|fuel IH]; intros d n Hix Href Hf; cbn [Fuse.fuse_loop Nat.add].
  - destruct k as [|k]; [done|]. cbn [Fuse.fuse_loop].
    destruct (UD.topological_sort d) as [topo|e] eqn:Hts; [|done].
    destruct (sorted_dag_ok d topo Hix Href Hts) as [_ Hp].
    apply Permutation_length in Hp. rewrite (ix_nodes d Hix), length_map_keys in Hp.
    destruct topo; [done|]. simpl in Hp. lia.
  - destruct (UD.topological_sort d) as [topo|e] eqn:Hts; [|done].
    destruct (sorted_dag_ok d topo Hix Href Hts) as [Hd _].
    pose proof (fuse_pass_cases d topo Hd) as Hpass.
    destruct (Fuse.fuse_pass config d topo) as [|d1|d1]; [done| |done].
    destruct Hpass as (Hs & Hix1 & Hres1). pose proof (fused_shrinks d d1 Hs).
    apply IH; [done|apply Hres1|lia].
Qed.
End FuseFacts.

(** C25: fusing chains loses no work.  It ends after at most as many rounds as there
    are tasks, whatever more it is given; every file and every acceptance criterion
    some task had, some task still has, and no other; tasks only disappear, one at
    least per fusion; and a completed task stays, with at most its references
    rewired. *)
Theorem fuse_linear_chains_conserves {HI : HashIter} config d :
  dag_ok d →
  let '(d', fusions) := Fuse.fuse_linear_chains config d in
  (∀ more, Fuse.fuse_loop config (length (UD.nodes d) + more) d 0 = (d', fusions)) ∧
  (∀ s, mentioned Task.files (UD.tasks d') s ↔ mentioned Task.files (UD.tasks d) s) ∧
  (∀ s, mentioned Task.acceptance (UD.tasks d') s ↔ mentioned Task.acceptance (UD.tasks d) s) ∧
  fusions + size (UD.tasks d') ≤ size (UD.tasks d) ∧
  (∀ x t, UD.tasks d !! x = Some t → Task.status t = TaskStatus.Done →
     ∃ ds, UD.tasks d' !! x = Some (Task.set_depends_on ds t)).
Proof.
  intros [Hix Href _]. unfold Fuse.fuse_linear_chains.
  pose proof (fuse_loop_spec config (length (UD.nodes d)) d 0 Hix Href) as H.
  pose proof (λ k, fuse_loop_fuel config (length (UD.nodes d)) k d 0 Hix Href) as Hfuel.
  destruct (Fuse.fuse_loop config (length (UD.nodes d)) d 0) as [d' n].
  destruct H as [[M _ C] Hs]. split_and!.
  - intros more. apply Hfuel. by rewrite (ix_nodes d Hix), length_map_keys.
  - intros s. apply M, files_accumulate.
  - intros s. apply M, acceptance_accumulates.
  - lia.
  - exact C.
Qed.

Lemma fuse_linear_chains_conserves_witness :
  let '(d', fusions) := Fuse.fuse_linear_chains (FusionConfig.mk 5 F64.zero true) (sample_dag 0) in
  fusions = 2 ∧ UD.nodes d' = [sample_id "b"; sample_id "c"] ∧
  ∀ s, mentioned Task.files (UD.tasks d') s ↔ mentioned Task.files (UD.tasks (sample_dag 0)) s.
Proof.
  pose proof (fuse_linear_chains_conserves (FusionConfig.mk 5 F64.zero true) (sample_dag 0)
    (sample_dag_ok 0)) as H.
  assert (let '(d', fusions) :=
    Fuse.fuse_linear_chains (FusionConfig.mk 5 F64.zero true) (sample_dag 0) in
    fusions = 2 ∧ UD.nodes d' = [sample_id "b"; sample_id "c"]) as Hn
    by (vm_compute; split; reflexivity).
  destruct (Fuse.fuse_linear_chains _ _) as [d' n]. destruct Hn as [H1 H2].
  split_and!; [exact H1|exact H2|apply H].
Defined.

(** ** Where rewiring goes wrong *)

(** Cut at length two, the chain p:a, p:b is fused into p:a; its dependent q:c is
    rewired to the bare name a, which means q:a in plan q.  The rebuild fails, and the
    DAG is left with b gone and its indexes half built. *)
Definition cross_plan : gmap string (list Task) :=
  {["p" := [sample_task "a" [] [] 1; sample_task "b" ["a"] [] 1];
    "q" := [sample_task "c" ["p:b"] [] 1]]}.

Lemma fusion_breaks_cross_plan_reference :
  ∃ d, UD.build cross_plan ∅ DagConfig.default = Ok d ∧
    let '(d', fusions) := Fuse.fuse_linear_chains (FusionConfig.mk 2 F64.zero true) d in
    fusions = 0 ∧ ¬ refs_resolved d'.
Proof.
  destruct (UD.build cross_plan ∅ DagConfig.default) as [d|e] eqn:E;
    [|vm_compute in E; discriminate].
  exists d. split; [done|]. vm_compute in E. injection E as <-.
  destruct (Fuse.fuse_linear_chains _ _) as [d' n] eqn:F. vm_compute in F. injection F as <- <-.
  split; [done|]. intros H. destruct (H (GlobalTaskId.new "q" "c") (sample_task "c" ["a"] [] 1) "a").
  - vm_compute. reflexivity.
  - simpl. by left.
  - discriminate.
Qed.

(** Fusing can close a cycle: t9 and t1, a chain, become t9, which now touches the file
    of t5; the smaller id t5 has to run first, but t5 depends on the chain. *)
Definition overlap_plan : gmap string (list Task) :=
  {["p" := [sample_task "t9" [] [] 1; sample_task "t1" ["t9"] ["f"] 1;
            sample_task "t5" ["t1"] ["f"] 1]]}.

Lemma fusion_closes_cycle :
  ∃ d, UD.build overlap_plan ∅ DagConfig.default = Ok d ∧
    UD.topological_sort (Fuse.fuse_linear_chains (FusionConfig.mk 2 F64.zero true) d).1 =
    Err (DagError.Cycle [sample_id "t5"; sample_id "t9"]).
Proof.
  destruct (UD.build overlap_plan ∅ DagConfig.default) as [d|e] eqn:E;
    [|vm_compute in E; discriminate].
  exists d. split; [done|]. vm_compute in E. injection E as <-. vm_compute. reflexivity.
Qed.
