(* ===== verification/Graph.v ===== *)
(** * Cell graphs (crates/roko-graph/src/types.rs, topo.rs, registry.rs, loader.rs and
      convert.rs)

    The graph of named nodes the graph engine runs: construction, queries, the registry of
    cell factories, and the conversion of a plan's tasks into a graph.

    The directed graph underneath is petgraph's [DiGraph], a third-party crate: nodes and
    edges are numbered in the order they are added, which is how the model stores them; its
    two algorithms, the topological sort and the enumeration of neighbours, are the
    operations of a class whose laws state what petgraph documents. *)

From S2P Require Import Prelude.

(** ** The algorithms of petgraph *)

Definition arc (es : list (nat * nat)) (a b : nat) : Prop := (a, b) ∈ es.

(** [a] comes before [b]. *)
Definition precedes {A} (l : list A) (a b : A) : Prop :=
  ∃ i j, l !! i = Some a ∧ l !! j = Some b ∧ i < j.

Definition arcs_in_range (n : nat) (es : list (nat * nat)) : Prop :=
  Forall (λ e, e.1 < n ∧ e.2 < n) es.

Class DiGraphLib : Type := {
  (** [toposort(&graph, None)], [None] for an error *)
  toposort : nat → list (nat * nat) → option (list nat);
  (** [neighbors_directed(idx, Incoming)] and [(idx, Outgoing)] *)
  neighbors_in : list (nat * nat) → nat → list nat;
  neighbors_out : list (nat * nat) → nat → list nat;
}.

Class DiGraphLaws (L : DiGraphLib) : Prop := {
  toposort_order n es order :
    arcs_in_range n es → toposort n es = Some order →
    order ≡ₚ seq 0 n ∧ ∀ a b, arc es a b → precedes order a b;
  toposort_cycle n es :
    arcs_in_range n es → toposort n es = None → ∃ a, tc (arc es) a a;
  neighbors_in_spec es i :
    neighbors_in es i ≡ₚ (List.filter (λ e, e.2 =? i) es).*1;
  neighbors_out_spec es i :
    neighbors_out es i ≡ₚ (List.filter (λ e, e.1 =? i) es).*2;
}.

(** ** Data *)

Abbreviation NodeId := string.

Module EdgeCondition.
Inductive t : Type :=
  | Success
  | Failure
  | OutputEquals (key value : string)
  | Always.
End EdgeCondition.
Abbreviation EdgeCondition := EdgeCondition.t.

Module GraphMetadata.
Record t : Type := mk {
  name : string;
  description : option string;
  version : option string;
  labels : gmap string string;
}.
End GraphMetadata.
Abbreviation GraphMetadata := GraphMetadata.t.

(** [config] is a [toml::Value], a third-party type. *)
Module Node.
Record t (Toml : Type) : Type := mk {
  id : NodeId;
  cell_type : string;
  config : Toml;
  inputs : list string;
  outputs : list string;
}.
Arguments mk {Toml} _ _ _ _ _.
Arguments id {Toml} _.
Arguments cell_type {Toml} _.
Arguments config {Toml} _.
Arguments inputs {Toml} _.
Arguments outputs {Toml} _.
End Node.
Abbreviation Node := Node.t.

Module Edge.
Record t : Type := mk { from : NodeId; to : NodeId; condition : option EdgeCondition }.
End Edge.
Abbreviation Edge := Edge.t.

Module GraphError.
Inductive t : Type :=
  | DuplicateNode (id : NodeId)
  | NodeNotFound (id : NodeId)
  | CycleDetected
  | LoaderError (message : string)
  | UnknownCellType (cell_type : string)
  | NodeFailed (node_id reason : string)
  | InvalidEdge (node_id : string)
  | BudgetExceeded (reason : string)
  | ConditionError (from to reason : string)
  | InvalidGraph (reason : string).

Definition display (e : t) : string :=
  match e with
  | DuplicateNode id => "duplicate node: `" +:+ id +:+ "`"
  | NodeNotFound id => "node not found: `" +:+ id +:+ "`"
  | CycleDetected => "cycle detected in graph"
  | LoaderError m => "loader error: " +:+ m
  | UnknownCellType c => "unknown cell type: `" +:+ c +:+ "`"
  | NodeFailed n r => "node '" +:+ n +:+ "' failed: " +:+ r
  | InvalidEdge n => "edge references unknown node '" +:+ n +:+ "'"
  | BudgetExceeded r => "budget exceeded: " +:+ r
  | ConditionError f t r =>
      "condition evaluation failed for edge " +:+ f +:+ " -> " +:+ t +:+ ": " +:+ r
  | InvalidGraph r => "invalid graph definition: " +:+ r
  end.
End GraphError.
Abbreviation GraphError := GraphError.t.

(** ** The graph *)

Module Graph.
Record t (Toml : Type) : Type := mk {
  metadata : GraphMetadata;
  nodes : list (Node Toml);                (* [inner]: node weights by index *)
  edges : list (nat * nat * Edge);         (* [inner]: source, target and weight *)
  node_map : list (NodeId * nat);          (* in insertion order *)
}.
Arguments mk {Toml} _ _ _ _.
Arguments metadata {Toml} _.
Arguments nodes {Toml} _.
Arguments edges {Toml} _.
Arguments node_map {Toml} _.

Section Ops.
Context {Toml : Type}.
Implicit Types (g : t Toml).

Definition new (metadata : GraphMetadata) : t Toml := mk metadata [] [] [].

(** [node_map.get(id)] *)
Definition index g (id : NodeId) : option nat :=
  snd <$> List.find (λ p, string_eqb p.1 id) (node_map g).

Definition arcs g : list (nat * nat) := fst <$> edges g.

Definition add_node (node : Node Toml) g : result (t Toml * nat) GraphError :=
  match index g (Node.id node) with
  | Some _ => Err (GraphError.DuplicateNode (Node.id node))
  | None =>
      let idx := length (nodes g) in
      Ok (mk (metadata g) (nodes g ++ [node]) (edges g) (node_map g ++ [(Node.id node, idx)]),
          idx)
  end.

Definition add_edge (edge : Edge) g : result (t Toml) GraphError :=
  match index g (Edge.from edge) with
  | None => Err (GraphError.NodeNotFound (Edge.from edge))
  | Some from_idx =>
      match index g (Edge.to edge) with
      | None => Err (GraphError.NodeNotFound (Edge.to edge))
      | Some to_idx =>
          Ok (mk (metadata g) (nodes g) (edges g ++ [(from_idx, to_idx, edge)]) (node_map g))
      end
  end.

Definition get_node g (id : NodeId) : option (Node Toml) :=
  match index g id with Some idx => nodes g !! idx | None => None end.

Definition node_count g : nat := length (nodes g).
Definition edge_count g : nat := length (edges g).

(** The identifiers at indices; the code would panic at an index out of range. *)
Definition ids_at g (indices : list nat) : list NodeId :=
  omap (λ i, Node.id <$> nodes g !! i) indices.
End Ops.
End Graph.
Abbreviation Graph := Graph.t.

(** ** Order and neighbours (topo.rs) *)

Section Topo.
Context {Toml : Type} `{!DiGraphLib}.
Implicit Types (g : Graph Toml).

Definition topological_order g : result (list NodeId) GraphError :=
  match toposort (Graph.node_count g) (Graph.arcs g) with
  | Some sorted => Ok (Graph.ids_at g sorted)
  | None => Err GraphError.CycleDetected
  end.

Definition dependencies g (node_id : NodeId) : list NodeId :=
  match Graph.index g node_id with
  | None => []
  | Some idx => Graph.ids_at g (neighbors_in (Graph.arcs g) idx)
  end.

Definition dependents g (node_id : NodeId) : list NodeId :=
  match Graph.index g node_id with
  | None => []
  | Some idx => Graph.ids_at g (neighbors_out (Graph.arcs g) idx)
  end.

Definition is_dag g : bool :=
  match toposort (Graph.node_count g) (Graph.arcs g) with Some _ => true | None => false end.

Definition root_nodes g : list NodeId :=
  fst <$> List.filter (λ p, match neighbors_in (Graph.arcs g) p.2 with [] => true | _ => false end)
            (Graph.node_map g).

Definition leaf_nodes g : list NodeId :=
  fst <$> List.filter (λ p, match neighbors_out (Graph.arcs g) p.2 with [] => true | _ => false end)
            (Graph.node_map g).
End Topo.

(** ** Loading (loader.rs)

    [toml::from_str] is third-party: it gives the raw file or an error message. *)

Module RawNode.
Record t (Toml : Type) : Type := mk {
  id : string;
  cell_type : string;
  config : option Toml;
  inputs : list string;
  outputs : list string;
}.
Arguments mk {Toml} _ _ _ _ _.
Arguments id {Toml} _.
Arguments cell_type {Toml} _.
Arguments config {Toml} _.
Arguments inputs {Toml} _.
Arguments outputs {Toml} _.
End RawNode.
Abbreviation RawNode := RawNode.t.

Module RawEdge.
(** [RawEdgeCondition] has the constructors of [EdgeCondition], and converts to it. *)
Record t : Type := mk { from : string; to : string; condition : option EdgeCondition }.
End RawEdge.
Abbreviation RawEdge := RawEdge.t.

Module RawGraphFile.
Record t (Toml : Type) : Type := mk {
  name : string;
  description : option string;
  version : option string;
  labels : option (gmap string string);
  nodes : list (RawNode Toml);
  edges : list RawEdge;
}.
Arguments mk {Toml} _ _ _ _ _ _.
Arguments name {Toml} _.
Arguments description {Toml} _.
Arguments version {Toml} _.
Arguments labels {Toml} _.
Arguments nodes {Toml} _.
Arguments edges {Toml} _.
End RawGraphFile.
Abbreviation RawGraphFile := RawGraphFile.t.

Section Build.
Context {Toml : Type}.

(** [for node in nodes { graph.add_node(node)?; }] *)
Fixpoint add_nodes (nodes : list (Node Toml)) (g : Graph Toml) : result (Graph Toml) GraphError :=
  match nodes with
  | [] => Ok g
  | node :: rest => let? p := Graph.add_node node g in add_nodes rest p.1
  end.

(** [for edge in edges { graph.add_edge(edge)?; }] *)
Fixpoint add_edges (edges : list Edge) (g : Graph Toml) : result (Graph Toml) GraphError :=
  match edges with
  | [] => Ok g
  | edge :: rest => let? g := Graph.add_edge edge g in add_edges rest g
  end.

(** [from_str]: the TOML parser; [default_config]: an empty table. *)
Definition load_from_str (from_str : string → result (RawGraphFile Toml) string)
    (default_config : Toml) (toml_str : string) : result (Graph Toml) GraphError :=
  match from_str toml_str with
  | Err e => Err (GraphError.LoaderError e)
  | Ok raw =>
      let metadata :=
        GraphMetadata.mk (RawGraphFile.name raw) (RawGraphFile.description raw)
          (RawGraphFile.version raw) (default ∅ (RawGraphFile.labels raw)) in
      let node (n : RawNode Toml) :=
        Node.mk (RawNode.id n) (RawNode.cell_type n) (default default_config (RawNode.config n))
          (RawNode.inputs n) (RawNode.outputs n) in
      let edge (e : RawEdge) := Edge.mk (RawEdge.from e) (RawEdge.to e) (RawEdge.condition e) in
      let? graph := add_nodes (node <$> RawGraphFile.nodes raw) (Graph.new metadata) in
      add_edges (edge <$> RawGraphFile.edges raw) graph
  end.
End Build.

(** ** Plans as graphs (convert.rs) *)

(** The constructors of [toml::Value] the conversion uses. *)
Class TomlValue (Toml : Type) : Type := {
  toml_string : string → Toml;
  toml_integer : Z → Toml;
  toml_array : list Toml → Toml;
  toml_table : gmap string Toml → Toml;
}.

(** [full_config_json] is a [serde_json::Value], of which only the text is used. *)
Module PlanTaskInfo.
Record t : Type := mk {
  title : string;
  description : option string;
  role : option string;
  tier : string;
  model_hint : option string;
  files : list string;
  depends_on : list string;
  depends_on_plan : list string;
  timeout_secs : N;
  max_retries : N;
  domain : option string;
  sequence : N;
  full_config_json : string;
}.
End PlanTaskInfo.
Abbreviation PlanTaskInfo := PlanTaskInfo.t.

(** [x as u32] and [x as i64] of an unsigned [x]. *)
Definition as_u32 (x : N) : N := x mod 4294967296.
Definition as_i64 (x : N) : Z :=
  if (x <=? 9223372036854775807)%N then Z.of_N x else Z.of_N x - 18446744073709551616.

Section Convert.
Context {Toml : Type} `{!TomlValue Toml} `{!DiGraphLib}.

Definition insert_opt (key : string) (v : option string) (table : gmap string Toml) :
    gmap string Toml :=
  match v with Some s => <[key := toml_string s]> table | None => table end.

Definition build_node_config (plan_id plan_dir : string) (info : PlanTaskInfo) : Toml :=
  let table := ∅ in
  let table := <["plan_id" := toml_string plan_id]> table in
  let table := <["plan_dir" := toml_string plan_dir]> table in
  let table := <["title" := toml_string (PlanTaskInfo.title info)]> table in
  let table := insert_opt "description" (PlanTaskInfo.description info) table in
  let table := insert_opt "role" (PlanTaskInfo.role info) table in
  let table := <["tier" := toml_string (PlanTaskInfo.tier info)]> table in
  let table := insert_opt "model_hint" (PlanTaskInfo.model_hint info) table in
  let table := insert_opt "domain" (PlanTaskInfo.domain info) table in
  let table :=
    <["timeout_secs" :=
        toml_integer (Z.of_N (as_u32 (N.min (PlanTaskInfo.timeout_secs info) 9223372036854775807)))]>
      table in
  let table := <["max_retries" := toml_integer (Z.of_N (PlanTaskInfo.max_retries info))]> table in
  let table := <["sequence" := toml_integer (as_i64 (PlanTaskInfo.sequence info))]> table in
  let table := <["task_def_json" := toml_string (PlanTaskInfo.full_config_json info)]> table in
  let table := <["files" := toml_array (toml_string <$> PlanTaskInfo.files info)]> table in
  toml_table table.

Definition plan_metadata (plan_id plan_dir : string) (max_parallel : N) : GraphMetadata :=
  GraphMetadata.mk plan_id (Some ("Converted from plan '" +:+ plan_id +:+ "' tasks.toml")) None
    (<["source" := "plan-converter"]> (<["plan_id" := plan_id]> (<["plan_dir" := plan_dir]>
      (<["max_parallel" := fmt_N max_parallel]> ∅)))).

Definition task_node (plan_id plan_dir : string) (task : string * PlanTaskInfo) : Node Toml :=
  Node.mk task.1 "task-executor" (build_node_config plan_id plan_dir task.2) [] [].

(** The edges of one task, in the order of its dependencies. *)
Fixpoint add_deps (plan_id id : string) (known_ids : list string) (deps : list string)
    (g : Graph Toml) : result (Graph Toml) GraphError :=
  match deps with
  | [] => Ok g
  | dep :: rest =>
      if bool_decide (dep ∈ known_ids) then
        let? g := Graph.add_edge (Edge.mk dep id None) g in
        add_deps plan_id id known_ids rest g
      else
        Err (GraphError.InvalidGraph
               ("task '" +:+ id +:+ "' in plan '" +:+ plan_id +:+ "' depends on '" +:+ dep +:+
                "', which does not exist in this plan"))
  end.

Fixpoint add_all_deps (plan_id : string) (known_ids : list string)
    (tasks : list (string * PlanTaskInfo)) (g : Graph Toml) : result (Graph Toml) GraphError :=
  match tasks with
  | [] => Ok g
  | (id, info) :: rest =>
      let? g := add_deps plan_id id known_ids (PlanTaskInfo.depends_on info) g in
      add_all_deps plan_id known_ids rest g
  end.

Definition plan_to_graph (plan_id plan_dir : string) (tasks : list (string * PlanTaskInfo))
    (max_parallel : N) : result (Graph Toml) GraphError :=
  let known_ids := tasks.*1 in
  let graph := Graph.new (plan_metadata plan_id plan_dir max_parallel) in
  let? graph := add_nodes (task_node plan_id plan_dir <$> tasks) graph in
  let? graph := add_all_deps plan_id known_ids tasks graph in
  let? _ := topological_order graph in
  Ok graph.

Definition plan_to_graph_with_endpoints (plan_id plan_dir : string)
    (tasks : list (string * PlanTaskInfo)) (max_parallel : N) :
    result (Graph Toml * list string * list string) GraphError :=
  let? graph := plan_to_graph plan_id plan_dir tasks max_parallel in
  Ok (graph, root_nodes graph, leaf_nodes graph).
End Convert.

(** ** Well-formed graphs

    Identifiers are unique, the map is exactly the index of the nodes, and the weight of an
    edge names its two ends. *)

Definition ends_ok {Toml} (nodes : list (Node Toml)) (e : nat * nat * Edge) : Prop :=
  Node.id <$> nodes !! e.1.1 = Some (Edge.from e.2) ∧
  Node.id <$> nodes !! e.1.2 = Some (Edge.to e.2).

Record graph_wf {Toml} (g : Graph Toml) : Prop := {
  wf_map : Graph.node_map g = imap (λ i n, (Node.id n, i)) (Graph.nodes g);
  wf_ids : NoDup (Node.id <$> Graph.nodes g);
  wf_edges : Forall (ends_ok (Graph.nodes g)) (Graph.edges g);
}.

(** Edge [a] to [b] by name. *)
Definition link {Toml} (g : Graph Toml) (a b : NodeId) : Prop :=
  ∃ e, e ∈ (Graph.edges g).*2 ∧ Edge.from e = a ∧ Edge.to e = b.

Section Wf.
Context {Toml : Type}.
Implicit Types (g : Graph Toml).

Lemma new_wf m : graph_wf (Toml:=Toml) (Graph.new m).
Proof. by split; [|constructor|constructor]. Qed.

Lemma find_imap (nodes : list (Node Toml)) k id :
  snd <$> List.find (λ p, string_eqb p.1 id) (imap (λ i n, (Node.id n, k + i)) nodes) =
  (λ i, k + i) <$> str_position id (Node.id <$> nodes).
Proof.
  revert k. induction nodes as [|n nodes IH]; intros k; simpl; [done|].
  unfold string_eqb. case_bool_decide as Heq.
  - subst id. by rewrite decide_True by done.
  - rewrite decide_False by congruence.
    rewrite (imap_ext _ (λ i n, (Node.id n, S k + i))) by (intros; simpl; f_equal; lia).
    rewrite IH. destruct (str_position _ _); simpl; [|done]. f_equal. lia.
Qed.

Lemma index_position g id :
  graph_wf g → Graph.index g id = str_position id (Node.id <$> Graph.nodes g).
Proof.
  intros Hg. unfold Graph.index. rewrite (wf_map g Hg), (find_imap _ 0 id).
  by destruct (str_position _ _).
Qed.

Lemma index_Some g id i :
  graph_wf g → Graph.index g id = Some i → Node.id <$> Graph.nodes g !! i = Some id.
Proof. intros Hg. rewrite index_position by done. rewrite <-list_lookup_fmap. apply str_position_Some. Qed.

Lemma index_None g id :
  graph_wf g → Graph.index g id = None ↔ id ∉ Node.id <$> Graph.nodes g.
Proof. intros Hg. rewrite index_position by done. apply str_position_None. Qed.

Lemma index_iff g id i :
  graph_wf g → Graph.index g id = Some i ↔ Node.id <$> Graph.nodes g !! i = Some id.
Proof.
  intros Hg. split; [by apply index_Some|]. intros Hi.
  destruct (Graph.index g id) as [j|] eqn:E.
  - apply index_Some in E; [|done]. rewrite <-list_lookup_fmap in *.
    f_equal. eapply NoDup_lookup; [apply (wf_ids g Hg)|exact E|exact Hi].
  - apply index_None in E; [|done]. rewrite <-list_lookup_fmap in Hi.
    by apply list_elem_of_lookup_2 in Hi.
Qed.

Lemma get_node_iff g id n :
  graph_wf g → Graph.get_node g id = Some n ↔ n ∈ Graph.nodes g ∧ Node.id n = id.
Proof.
  intros Hg. unfold Graph.get_node. split.
  - destruct (Graph.index g id) as [i|] eqn:E; [|done]. intros Hn.
    apply index_Some in E; [|done]. rewrite Hn in E. simplify_eq/=.
    split; [by eapply list_elem_of_lookup_2|done].
  - intros [(i & Hi)%list_elem_of_lookup <-].
    assert (Graph.index g (Node.id n) = Some i) as -> by (apply index_iff; [done|by rewrite Hi]).
    done.
Qed.

Lemma add_node_spec node g :
  graph_wf g →
  match Graph.add_node node g with
  | Ok (g', idx) =>
      (Node.id node ∉ Node.id <$> Graph.nodes g) ∧ graph_wf g' ∧
      Graph.nodes g' = Graph.nodes g ++ [node] ∧ Graph.edges g' = Graph.edges g ∧
      Graph.index g' (Node.id node) = Some idx
  | Err e => e = GraphError.DuplicateNode (Node.id node) ∧
             Node.id node ∈ Node.id <$> Graph.nodes g
  end.
Proof.
  intros Hg. unfold Graph.add_node.
  destruct (Graph.index g (Node.id node)) as [i|] eqn:E.
  { split; [done|]. apply index_Some in E; [|done]. rewrite <-list_lookup_fmap in E.
    by eapply list_elem_of_lookup_2. }
  apply index_None in E; [|done]. split; [done|].
  set (g' := Graph.mk _ _ _ _).
  assert (graph_wf g') as Hg'.
  { split; simpl.
    - rewrite imap_app. simpl. rewrite (wf_map g Hg). by rewrite Nat.add_0_r.
    - rewrite fmap_app. apply NoDup_app. split_and!; [apply (wf_ids g Hg)| |apply NoDup_singleton].
      intros x Hx ->%list_elem_of_singleton. done.
    - eapply Forall_impl; [apply (wf_edges g Hg)|]. intros e [H1 H2]. unfold ends_ok.
      split; rewrite lookup_app_l; try done; apply lookup_lt_is_Some;
        [by destruct (_ !! e.1.1)|by destruct (_ !! e.1.2)]. }
  split_and!; [done|done|done|]. apply index_iff; [done|]. simpl.
  by rewrite list_lookup_middle.
Qed.

Lemma add_edge_spec edge g :
  graph_wf g →
  match Graph.add_edge edge g with
  | Ok g' =>
      graph_wf g' ∧ Graph.nodes g' = Graph.nodes g ∧
      (Graph.edges g').*2 = (Graph.edges g).*2 ++ [edge] ∧
      Edge.from edge ∈ Node.id <$> Graph.nodes g ∧ Edge.to edge ∈ Node.id <$> Graph.nodes g
  | Err e => ∃ id, e = GraphError.NodeNotFound id ∧ (id ∉ Node.id <$> Graph.nodes g) ∧
                   (id = Edge.from edge ∨ id = Edge.to edge)
  end.
Proof.
  intros Hg. unfold Graph.add_edge.
  destruct (Graph.index g (Edge.from edge)) as [i|] eqn:E1;
    [|apply index_None in E1; [|done]; exists (Edge.from edge); auto].
  destruct (Graph.index g (Edge.to edge)) as [j|] eqn:E2;
    [|apply index_None in E2; [|done]; exists (Edge.to edge); auto].
  apply index_Some in E1, E2; [|done..]. split_and!.
  - split; [apply (wf_map g Hg)|apply (wf_ids g Hg)|]. simpl.
    apply Forall_app. split; [apply (wf_edges g Hg)|]. by constructor.
  - done.
  - simpl. by rewrite fmap_app.
  - rewrite <-list_lookup_fmap in E1. by eapply list_elem_of_lookup_2.
  - rewrite <-list_lookup_fmap in E2. by eapply list_elem_of_lookup_2.
Qed.

(** *** Links and arcs *)

Lemma arcs_wf g : graph_wf g → arcs_in_range (Graph.node_count g) (Graph.arcs g).
Proof.
  intros Hg. unfold arcs_in_range, Graph.arcs. apply Forall_fmap.
  eapply Forall_impl; [apply (wf_edges g Hg)|]. intros e [H1 H2]. unfold Graph.node_count.
  split; apply lookup_lt_is_Some; [by destruct (_ !! e.1.1)|by destruct (_ !! e.1.2)].
Qed.

Lemma link_arc g a b :
  graph_wf g →
  link g a b ↔ ∃ i j, arc (Graph.arcs g) i j ∧ Node.id <$> Graph.nodes g !! i = Some a ∧
                      Node.id <$> Graph.nodes g !! j = Some b.
Proof.
  intros Hg. pose proof (wf_edges g Hg) as Hes. rewrite Forall_forall in Hes.
  unfold link, arc, Graph.arcs. split.
  - intros (e & ([[i j] e'] & -> & He)%list_elem_of_fmap & <- & <-). simpl in *.
    destruct (Hes _ He) as [H1 H2]. exists i, j. split_and!; [|done|done].
    apply list_elem_of_fmap. by exists (i, j, e').
  - intros (i & j & ([[i' j'] e] & Heq & He)%list_elem_of_fmap & Hi & Hj). simplify_eq/=.
    destruct (Hes _ He) as [H1 H2]. simpl in *. exists e.
    split; [|split; congruence]. apply list_elem_of_fmap. by exists (i', j', e).
Qed.

Lemma tc_arc_link g i j a b :
  graph_wf g → tc (arc (Graph.arcs g)) i j →
  Node.id <$> Graph.nodes g !! i = Some a → Node.id <$> Graph.nodes g !! j = Some b →
  tc (link g) a b.
Proof.
  intros Hg H. revert a. induction H as [i j H|i k j H _ IH]; intros a Ha Hb.
  { apply tc_once. apply link_arc; [done|]. by exists i, j. }
  pose proof (arcs_wf g Hg) as Hr. unfold arcs_in_range in Hr. rewrite Forall_forall in Hr.
  destruct (Hr _ H) as [_ [n Hn]%lookup_lt_is_Some]. simpl in Hn.
  apply tc_l with (Node.id n).
  - apply link_arc; [done|]. exists i, k. by rewrite Hn.
  - apply IH; [by rewrite Hn|done].
Qed.

Lemma ids_at_fmap g l :
  Forall (λ i, i < Graph.node_count g) l →
  (Some <$> Graph.ids_at g l) = (λ i, Node.id <$> Graph.nodes g !! i) <$> l.
Proof.
  unfold Graph.ids_at. induction 1 as [|i l [n Hn]%lookup_lt_is_Some _ IH]; [done|].
  simpl. rewrite Hn. simpl. f_equal. exact IH.
Qed.

Lemma ids_at_seq g : Graph.ids_at g (seq 0 (Graph.node_count g)) = Node.id <$> Graph.nodes g.
Proof.
  unfold Graph.ids_at, Graph.node_count.
  assert (∀ (l pre : list (Node Toml)),
    omap (λ i, Node.id <$> (pre ++ l) !! i) (seq (length pre) (length l)) = Node.id <$> l) as H.
  { induction l as [|n l IH]; intros pre; [done|]. simpl.
    rewrite list_lookup_middle by done. simpl. f_equal.
    specialize (IH (pre ++ [n])). rewrite <-app_assoc, length_app in IH. simpl in IH.
    by rewrite Nat.add_1_r in IH. }
  apply (H _ []).
Qed.

Context `{L : !DiGraphLib} `{!DiGraphLaws L}.

Lemma elem_of_neighbors es i j :
  (i ∈ neighbors_in es j ↔ arc es i j) ∧ (j ∈ neighbors_out es i ↔ arc es i j).
Proof.
  rewrite neighbors_in_spec, neighbors_out_spec. unfold arc.
  split; rewrite list_elem_of_fmap; setoid_rewrite list_elem_of_In; setoid_rewrite filter_In;
    setoid_rewrite Nat.eqb_eq; split.
  - by intros ([a b] & -> & Hin & <-).
  - intros Hin. by exists (i, j).
  - by intros ([a b] & -> & Hin & <-).
  - intros Hin. by exists (i, j).
Qed.

Lemma elem_of_ids_at g l a :
  a ∈ Graph.ids_at g l ↔ ∃ i, i ∈ l ∧ Node.id <$> Graph.nodes g !! i = Some a.
Proof. unfold Graph.ids_at. apply list_elem_of_omap. Qed.

Lemma elem_of_dependencies g a b :
  graph_wf g → a ∈ dependencies g b ↔ link g a b.
Proof.
  intros Hg. unfold dependencies. rewrite link_arc by done.
  destruct (Graph.index g b) as [j|] eqn:E.
  - rewrite elem_of_ids_at. setoid_rewrite (λ i, proj1 (elem_of_neighbors (Graph.arcs g) i j)).
    apply index_Some in E; [|done]. split; [naive_solver|].
    intros (i & j' & Harc & Hi & Hj). exists i. split; [|done].
    apply (index_iff g) in Hj; [|done]. apply (index_iff g) in E; [|done]. by simplify_eq.
  - apply index_None in E; [|done]. split; [by intros ?%not_elem_of_nil|].
    intros (i & j & _ & _ & Hj). rewrite <-list_lookup_fmap in Hj.
    by apply list_elem_of_lookup_2 in Hj.
Qed.

Lemma topological_order_ok g order :
  graph_wf g → topological_order g = Ok order →
  order ≡ₚ Node.id <$> Graph.nodes g ∧ (∀ a b, link g a b → precedes order a b).
Proof.
  intros Hg. unfold topological_order.
  destruct (toposort _ _) as [sorted|] eqn:E; [|done]. intros [= <-].
  apply toposort_order in E as [Hp Hb]; [|by apply arcs_wf]. split.
  { rewrite <-ids_at_seq. unfold Graph.ids_at. by rewrite Hp. }
  assert (Forall (λ i, i < Graph.node_count g) sorted) as Hr.
  { rewrite Hp. apply Forall_forall. intros i Hi%elem_of_seq. lia. }
  pose proof (ids_at_fmap g sorted Hr) as Hids.
  assert (∀ k i, sorted !! k = Some i → ∀ a, Node.id <$> Graph.nodes g !! i = Some a →
                 Graph.ids_at g sorted !! k = Some a) as Hk.
  { intros k i Hk a Ha. apply (f_equal (.!! k)) in Hids. rewrite !list_lookup_fmap, Hk in Hids.
    simpl in Hids. rewrite Ha in Hids. by destruct (Graph.ids_at g sorted !! k); simplify_eq/=. }
  intros a b (i & j & Harc & Hi & Hj)%link_arc; [|done].
  destruct (Hb i j Harc) as (x & y & Hx & Hy & Hlt). exists x, y. eauto.
Qed.

Lemma topological_order_err g e :
  graph_wf g → topological_order g = Err e →
  e = GraphError.CycleDetected ∧ ∃ a, tc (link g) a a.
Proof.
  intros Hg. unfold topological_order.
  destruct (toposort _ _) as [sorted|] eqn:E; [done|]. intros [= <-]. split; [done|].
  apply toposort_cycle in E as (i & Hc); [|by apply arcs_wf].
  assert (∃ a, Node.id <$> Graph.nodes g !! i = Some a) as (a & Ha).
  { pose proof (arcs_wf g Hg) as Hr. unfold arcs_in_range in Hr. rewrite Forall_forall in Hr.
    assert (∃ k, arc (Graph.arcs g) i k) as (k & Hk) by (inversion Hc; eauto).
    destruct (Hr _ Hk) as [[n Hn]%lookup_lt_is_Some _]. simpl in Hn. rewrite Hn. by eexists. }
  exists a. by eapply tc_arc_link.
Qed.
End Wf.

(** ** The laws can be met

    A reference library: the sort takes a node without open predecessors until none is
    left; the neighbours are listed from the last edge to the first, as petgraph does. *)

(** A finite relation without a source has a cycle. *)
Lemma no_source_cycle (l : list nat) (R : relation nat) :
  l ≠ [] → (∀ x, x ∈ l → ∃ y, y ∈ l ∧ R y x) → ∃ x, tc R x x.
Proof.
  revert R. induction l as [|x l IH]; intros R; [done|]. intros _ Hp.
  destruct (Hp x) as (u & Hu & Hux); [by left|].
  destruct (decide (u = x)) as [->|Hne]; [exists x; by apply tc_once|].
  assert (u ∈ l) as Hul by (by apply elem_of_cons in Hu as [|]).
  destruct (IH (λ a b, R a b ∨ R a x ∧ R x b)) as (c & Hc).
  - intros ->. by apply not_elem_of_nil in Hul.
  - intros z Hz. destruct (Hp z) as (y & Hy & Hyz); [by right|].
    apply elem_of_cons in Hy as [->|Hy]; [exists u; by auto|exists y; by auto].
  - exists c. revert Hc. generalize c at 1 3. generalize c. clear. intros c1 c2 Hc.
    induction Hc as [a b H|a b d H _ IH].
    + destruct H as [H|[H1 H2]]; [by apply tc_once|].
      eapply tc_l; [exact H1|by apply tc_once].
    + destruct H as [H|[H1 H2]]; [by eapply tc_l|].
      eapply tc_l; [exact H1|]. by eapply tc_l.
Qed.

Definition is_source (es : list (nat * nat)) (remaining : list nat) (x : nat) : bool :=
  forallb (λ e, negb ((e.2 =? x) && bool_decide (e.1 ∈ remaining))) es.

Fixpoint ref_sort (es : list (nat * nat)) (fuel : nat) (remaining : list nat) :
    option (list nat) :=
  match remaining, fuel with
  | [], _ => Some []
  | _, O => None
  | _, S fuel =>
      match List.find (is_source es remaining) remaining with
      | Some x =>
          cons x <$> ref_sort es fuel (List.filter (λ y, negb (y =? x)) remaining)
      | None => None
      end
  end.

#[local] Instance reference_lib : DiGraphLib := {
  toposort n es := ref_sort es n (seq 0 n);
  neighbors_in es i := reverse (List.filter (λ e, e.2 =? i) es).*1;
  neighbors_out es i := reverse (List.filter (λ e, e.1 =? i) es).*2;
}.

Lemma is_source_spec es remaining x :
  is_source es remaining x = true ↔ ∀ y, arc es y x → y ∉ remaining.
Proof.
  unfold is_source, arc. rewrite forallb_forall. setoid_rewrite <-list_elem_of_In. split.
  - intros H y Hy. specialize (H _ Hy). simpl in H. rewrite Nat.eqb_refl in H. simpl in H.
    by case_bool_decide.
  - intros H [a b] Hab. simpl. destruct (Nat.eqb_spec b x) as [->|]; [|done]. simpl.
    rewrite bool_decide_eq_false_2; [done|]. by apply H.
Qed.

Lemma filter_remove_perm (x : nat) l :
  NoDup l → x ∈ l → l ≡ₚ x :: List.filter (λ y, negb (y =? x)) l.
Proof.
  intros Hnd Hx. apply NoDup_Permutation; [done| |].
  - constructor; [|by apply NoDup_filter_bool].
    rewrite elem_of_list_filter_bool, Nat.eqb_refl. by intros [? ?].
  - intros y. rewrite elem_of_cons, elem_of_list_filter_bool.
    destruct (Nat.eqb_spec y x) as [->|]; naive_solver.
Qed.

Lemma ref_sort_ok es fuel l :
  NoDup l → length l ≤ fuel →
  match ref_sort es fuel l with
  | Some order => order ≡ₚ l ∧ ∀ a b, arc es a b → a ∈ l → b ∈ l → precedes order a b
  | None => ∃ a, tc (arc es) a a
  end.
Proof.
  revert l. induction fuel as [|fuel IH]; intros l Hnd Hlen.
  { destruct l; [|simpl in Hlen; lia]. simpl. split; [done|].
    by intros a b _ ?%not_elem_of_nil. }
  destruct l as [|x0 l0]; [simpl; split; [done|by intros a b _ ?%not_elem_of_nil]|].
  set (l := x0 :: l0) in *. change (ref_sort es (S fuel) l) with
    (match List.find (is_source es l) l with
     | Some x => cons x <$> ref_sort es fuel (List.filter (λ y, negb (y =? x)) l)
     | None => None end).
  destruct (List.find _ l) as [x|] eqn:E.
  - apply find_some in E as [Hx Hs]. rewrite <-list_elem_of_In in Hx.
    pose proof (filter_remove_perm x l Hnd Hx) as Hp.
    specialize (IH (List.filter (λ y, negb (y =? x)) l)).
    rewrite is_source_spec in Hs.
    apply Permutation_length in Hp as Hl. simpl in Hl.
    specialize (IH (NoDup_filter_bool _ _ Hnd) ltac:(unfold l in *; simpl in *; lia)).
    destruct (ref_sort es fuel _) as [order|]; simpl; [|done]. destruct IH as [IHp IHb].
    split; [by rewrite IHp|]. intros a b Hab Ha Hb.
    assert (b ≠ x) as Hbx by (intros ->; by apply (Hs a)).
    rewrite Hp in Ha, Hb. apply elem_of_cons in Hb as [|Hb]; [done|].
    apply elem_of_cons in Ha as [->|Ha].
    + rewrite <-IHp in Hb. apply list_elem_of_lookup in Hb as (j & Hj).
      exists 0, (S j). split_and!; [done|done|lia].
    + destruct (IHb a b Hab Ha Hb) as (i & j & Hi & Hj & Hlt).
      exists (S i), (S j). split_and!; [done|done|lia].
  - apply (no_source_cycle l); [done|]. intros x Hx.
    pose proof (find_none _ _ E x) as Hn. rewrite <-list_elem_of_In in Hn. specialize (Hn Hx).
    unfold is_source in Hn. apply not_true_iff_false in Hn. rewrite forallb_forall in Hn.
    destruct (List.existsb (λ e, (e.2 =? x) && bool_decide (e.1 ∈ l)) es) eqn:Ex.
    + apply existsb_exists in Ex as ([a b] & Hab & [Hb%Nat.eqb_eq Ha%bool_decide_eq_true]%andb_true_iff).
      simpl in *. subst b. exists a. split; [done|]. by apply list_elem_of_In.
    + destruct Hn. intros e He. apply negb_true_iff, not_true_iff_false. intros Ht.
      apply not_true_iff_false in Ex. apply Ex, existsb_exists. by exists e.
Qed.

#[local] Instance reference_laws : DiGraphLaws reference_lib.
Proof.
  split; simpl.
  - intros n es order Hr H.
    pose proof (ref_sort_ok es n (seq 0 n) (NoDup_seq _ _)) as Hs. rewrite length_seq, H in Hs.
    destruct Hs as [Hp Hb]; [lia|]. split; [done|]. intros a b Hab.
    unfold arcs_in_range in Hr. rewrite Forall_forall in Hr. destruct (Hr _ Hab) as [Ha Hb']. simpl in *.
    apply Hb; [done| |]; apply elem_of_seq; lia.
  - intros n es _ H. pose proof (ref_sort_ok es n (seq 0 n) (NoDup_seq _ _)) as Hs.
    rewrite length_seq, H in Hs. apply Hs. lia.
  - intros es i. by rewrite reverse_Permutation.
  - intros es i. by rewrite reverse_Permutation.
Qed.

(** ** Building graphs *)

Section Building.
Context {Toml : Type}.
Implicit Types (g : Graph Toml).

(** The calls that change a graph; a refused call leaves it as it is. *)
Inductive graph_op : Type :=
  | AddNode (node : Node Toml)
  | AddEdge (edge : Edge).

Definition apply_graph_op g (op : graph_op) : Graph Toml :=
  match op with
  | AddNode node => match Graph.add_node node g with Ok (g', _) => g' | Err _ => g end
  | AddEdge edge => match Graph.add_edge edge g with Ok g' => g' | Err _ => g end
  end.

Lemma apply_graph_op_wf g op : graph_wf g → graph_wf (apply_graph_op g op).
Proof.
  intros Hg. destruct op as [node|edge]; simpl.
  - pose proof (add_node_spec node g Hg). destruct (Graph.add_node node g) as [[g' idx]|]; tauto.
  - pose proof (add_edge_spec edge g Hg). destruct (Graph.add_edge edge g); [tauto|done].
Qed.

Lemma add_nodes_spec nodes g :
  graph_wf g →
  match add_nodes nodes g with
  | Ok g' => graph_wf g' ∧ Graph.nodes g' = Graph.nodes g ++ nodes ∧ Graph.edges g' = Graph.edges g
  | Err e => ∃ id, e = GraphError.DuplicateNode id ∧
                   ¬ NoDup (Node.id <$> (Graph.nodes g ++ nodes))
  end.
Proof.
  revert g. induction nodes as [|n nodes IH]; intros g Hg; simpl; [by rewrite app_nil_r|].
  pose proof (add_node_spec n g Hg) as H. destruct (Graph.add_node n g) as [[g' i]|e].
  - destruct H as (_ & Hg' & Hn & He & _). specialize (IH g' Hg'). simpl.
    rewrite Hn, <-app_assoc, He in IH. exact IH.
  - destruct H as [-> Hin]. exists (Node.id n). split; [done|].
    rewrite fmap_app, NoDup_app. intros (_ & H & _). apply (H _ Hin). by left.
Qed.

Definition dep_edges (id : string) (deps : list string) : list Edge :=
  (λ dep, Edge.mk dep id None) <$> deps.

Lemma add_deps_spec plan_id id known deps g :
  graph_wf g → (∀ x, x ∈ known ↔ x ∈ Node.id <$> Graph.nodes g) → id ∈ known →
  match add_deps plan_id id known deps g with
  | Ok g' => graph_wf g' ∧ Graph.nodes g' = Graph.nodes g ∧
             (Graph.edges g').*2 = (Graph.edges g).*2 ++ dep_edges id deps ∧
             Forall (.∈ known) deps
  | Err e => (∃ dep, dep ∈ deps ∧ (dep ∉ known)) ∧ ∃ reason, e = GraphError.InvalidGraph reason
  end.
Proof.
  revert g. induction deps as [|dep deps IH]; intros g Hg Hk Hid; simpl.
  { rewrite app_nil_r. split_and!; [done..|constructor]. }
  case_bool_decide as Hdep.
  2:{ split; [|by eexists]. exists dep. split; [by left|done]. }
  pose proof (add_edge_spec (Edge.mk dep id None) g Hg) as H.
  destruct (Graph.add_edge _ g) as [g'|e].
  - destruct H as (Hg' & Hn & He & _). specialize (IH g' Hg').
    rewrite Hn, He, <-app_assoc in IH. specialize (IH Hk Hid). simpl.
    destruct (add_deps plan_id id known deps g'); [|naive_solver set_solver].
    destruct IH as (? & ? & ? & ?). split_and!; [done..|by constructor].
  - exfalso. destruct H as (x & _ & Hx & [-> | ->]); simpl in Hx; by apply Hx, Hk.
Qed.

Definition plan_edges (tasks : list (string * PlanTaskInfo)) : list Edge :=
  tasks ≫= λ t, dep_edges t.1 (PlanTaskInfo.depends_on t.2).

Lemma add_all_deps_spec plan_id known tasks g :
  graph_wf g → (∀ x, x ∈ known ↔ x ∈ Node.id <$> Graph.nodes g) → Forall (.∈ known) tasks.*1 →
  match add_all_deps plan_id known tasks g with
  | Ok g' => graph_wf g' ∧ Graph.nodes g' = Graph.nodes g ∧
             (Graph.edges g').*2 = (Graph.edges g).*2 ++ plan_edges tasks ∧
             Forall (λ t, Forall (.∈ known) (PlanTaskInfo.depends_on t.2)) tasks
  | Err e => (∃ t dep, t ∈ tasks ∧ dep ∈ PlanTaskInfo.depends_on t.2 ∧ (dep ∉ known)) ∧
             ∃ reason, e = GraphError.InvalidGraph reason
  end.
Proof.
  revert g. induction tasks as [|[id info] tasks IH]; intros g Hg Hk Hall; simpl.
  { rewrite app_nil_r. split_and!; [done..|constructor]. }
  inversion Hall as [|? ? Hid Hrest]; subst. simpl in *.
  pose proof (add_deps_spec plan_id id known (PlanTaskInfo.depends_on info) g Hg Hk Hid) as H.
  destruct (add_deps _ _ _ _ g) as [g'|e].
  - destruct H as (Hg' & Hn & He & Hd). specialize (IH g' Hg').
    rewrite Hn in IH. specialize (IH Hk Hrest). rewrite He, <-app_assoc in IH.
    destruct (add_all_deps plan_id known tasks g').
    + destruct IH as (? & ? & ? & ?). split_and!; [done..|by constructor].
    + destruct IH as [(t & dep & Ht & Hdep) Hr]. split; [|done].
      exists t, dep. split; [by right|done].
  - destruct H as [(dep & Hdep) Hr]. split; [|done]. exists (id, info), dep. split; [by left|done].
Qed.

(** [a] is listed as a dependency of task [b]. *)
Definition depends (tasks : list (string * PlanTaskInfo)) (a b : string) : Prop :=
  ∃ info, (b, info) ∈ tasks ∧ a ∈ PlanTaskInfo.depends_on info.

Lemma link_plan_edges g tasks a b :
  (Graph.edges g).*2 = plan_edges tasks → link g a b ↔ depends tasks a b.
Proof.
  intros He. unfold link, depends. rewrite He. unfold plan_edges, dep_edges.
  setoid_rewrite list_elem_of_bind. setoid_rewrite list_elem_of_fmap. split.
  - intros (e & ([b' info] & (dep & -> & Hdep) & Ht) & <- & <-). by exists info.
  - intros (info & Ht & Ha). exists (Edge.mk a b None). split; [|done].
    exists (b, info). split; [|done]. by exists a.
Qed.

Lemma precedes_irrefl {A} (l : list A) (x : A) : NoDup l → ¬ precedes l x x.
Proof.
  intros Hnd (i & j & Hi & Hj & Hlt). pose proof (NoDup_lookup l i j x Hnd Hi Hj). lia.
Qed.

Lemma precedes_trans {A} (l : list A) (x y z : A) :
  NoDup l → precedes l x y → precedes l y z → precedes l x z.
Proof.
  intros Hnd (i & j & Hi & Hj & Hlt) (j' & k & Hj' & Hk & Hlt').
  assert (j = j') as <- by (by eapply NoDup_lookup). exists i, k. split_and!; [done|done|lia].
Qed.

Lemma tc_precedes {A} (l : list A) (R : relation A) x y :
  NoDup l → (∀ a b, R a b → precedes l a b) → tc R x y → precedes l x y.
Proof.
  intros Hnd HR. induction 1 as [x y H|x y z H _ IH]; [by apply HR|].
  eapply precedes_trans; [done|by apply HR|done].
Qed.
End Building.

(** ** The properties *)

Section Sorting.
Context {Toml : Type} `{L : !DiGraphLib} `{!DiGraphLaws L}.
Implicit Types (g : Graph Toml).

Lemma topological_order_spec g :
  graph_wf g →
  match topological_order g with
  | Ok order => order ≡ₚ Node.id <$> Graph.nodes g ∧ (∀ a b, link g a b → precedes order a b) ∧
                (∀ a, ¬ tc (link g) a a)
  | Err e => e = GraphError.CycleDetected ∧ ∃ a, tc (link g) a a
  end.
Proof.
  intros Hg. destruct (topological_order g) as [order|e] eqn:E;
    [|by apply topological_order_err].
  apply topological_order_ok in E as [Hp Hb]; [|done]. split_and!; [done..|].
  intros a Hc. assert (NoDup order) as Hnd by (rewrite Hp; apply (wf_ids g Hg)).
  apply (tc_precedes order) in Hc; [|done|done]. by apply (precedes_irrefl order a).
Qed.

Lemma is_dag_iff g : graph_wf g → is_dag g = true ↔ ∀ a, ¬ tc (link g) a a.
Proof.
  intros Hg. pose proof (topological_order_spec g Hg) as H. unfold is_dag.
  unfold topological_order in H. destruct (toposort _ _); [split; [|done]; intros _; apply H|].
  split; [done|]. destruct H as (_ & a & Ha). intros Hn. by destruct (Hn a).
Qed.

Lemma built_wf m (ops : list (graph_op (Toml:=Toml))) :
  graph_wf (foldl apply_graph_op (Graph.new m) ops).
Proof.
  induction ops as [|op ops IH] using rev_ind; [apply new_wf|].
  rewrite foldl_app. by apply apply_graph_op_wf.
Qed.

Lemma get_node_None g id :
  graph_wf g → Graph.get_node g id = None ↔ id ∉ Node.id <$> Graph.nodes g.
Proof.
  intros Hg. rewrite <-index_None by done. unfold Graph.get_node.
  destruct (Graph.index g id) as [i|] eqn:E; [|done].
  apply index_Some in E; [|done]. by destruct (Graph.nodes g !! i).
Qed.

Lemma get_node_is_Some g id :
  graph_wf g → is_Some (Graph.get_node g id) ↔ id ∈ Node.id <$> Graph.nodes g.
Proof.
  intros Hg. pose proof (get_node_None g id Hg) as H. rewrite <-not_eq_None_Some, H.
  split; [apply dec_stable|tauto].
Qed.

Lemma add_node_ok_iff g node :
  graph_wf g →
  is_ok (Graph.add_node node g) = bool_decide (Graph.get_node g (Node.id node) = None).
Proof.
  intros Hg. pose proof (add_node_spec node g Hg) as H. pose proof (get_node_None g (Node.id node) Hg).
  destruct (Graph.add_node node g) as [[g' i]|e]; simpl; symmetry;
    [apply bool_decide_eq_true|apply bool_decide_eq_false]; tauto.
Qed.

Lemma add_edge_ok_iff g edge :
  graph_wf g →
  is_ok (Graph.add_edge edge g) =
  bool_decide (is_Some (Graph.get_node g (Edge.from edge)) ∧
               is_Some (Graph.get_node g (Edge.to edge))).
Proof.
  intros Hg. pose proof (add_edge_spec edge g Hg) as H.
  pose proof (get_node_is_Some g (Edge.from edge) Hg) as H1.
  pose proof (get_node_is_Some g (Edge.to edge) Hg) as H2.
  destruct (Graph.add_edge edge g) as [g'|e]; simpl; symmetry;
    [apply bool_decide_eq_true; tauto|apply bool_decide_eq_false].
  destruct H as (id & _ & Hid & [-> | ->]); tauto.
Qed.

Lemma elem_of_root_nodes g id :
  graph_wf g → id ∈ root_nodes g ↔ id ∈ Node.id <$> Graph.nodes g ∧ ∀ a, ¬ link g a id.
Proof.
  intros Hg. unfold root_nodes. rewrite list_elem_of_fmap. split.
  - intros ([x i] & -> & [Hm Hs]%elem_of_list_filter_bool). simpl in *.
    rewrite (wf_map g Hg) in Hm. apply elem_of_lookup_imap in Hm as (k & n & Heq & Hn).
    simplify_eq. split; [apply list_elem_of_fmap; exists n; split; [done|by eapply list_elem_of_lookup_2]|].
    intros a (i & j & Harc & _ & Hj)%link_arc; [|done].
    assert (j = k) as ->.
    { apply (index_iff g) in Hj; [|done].
      assert (Graph.index g (Node.id n) = Some k) by (apply index_iff; [done|by rewrite Hn]).
      by simplify_eq. }
    apply (proj1 (elem_of_neighbors (Graph.arcs g) i k)) in Harc.
    destruct (neighbors_in _ k); [by apply not_elem_of_nil in Harc|done].
  - intros [(n & -> & (k & Hk)%list_elem_of_lookup)%list_elem_of_fmap Hno].
    exists (Node.id n, k). split; [done|]. apply elem_of_list_filter_bool. split.
    + rewrite (wf_map g Hg). apply elem_of_lookup_imap. by exists k, n.
    + simpl. destruct (neighbors_in (Graph.arcs g) k) as [|i l] eqn:E; [done|]. exfalso.
      assert (arc (Graph.arcs g) i k) as Harc.
      { apply (proj1 (elem_of_neighbors _ i k)). rewrite E. by left. }
      pose proof (arcs_wf g Hg) as Hr. unfold arcs_in_range in Hr. rewrite Forall_forall in Hr.
      destruct (Hr _ Harc) as [[m Hm]%lookup_lt_is_Some _]. simpl in Hm.
      apply (Hno (Node.id m)). apply link_arc; [done|]. exists i, k. by rewrite Hm, Hk.
Qed.

(** C32: Whatever nodes and edges are added, and whichever are refused, a graph stays
    well-formed: identifiers are unique, the map indexes exactly the nodes, edges end at the
    nodes they name.  A node is refused exactly when its identifier is taken, an edge exactly
    when an end is missing; and a graph has a topological order, listing each node once with
    every edge pointing forward, exactly when it has no cycle. *)
Theorem graph_always_wf metadata (ops : list (graph_op (Toml:=Toml))) :
  let g := foldl apply_graph_op (Graph.new metadata) ops in
  graph_wf g ∧
  (∀ id n, Graph.get_node g id = Some n ↔ n ∈ Graph.nodes g ∧ Node.id n = id) ∧
  (∀ node, is_ok (Graph.add_node node g) = bool_decide (Graph.get_node g (Node.id node) = None)) ∧
  (∀ edge, is_ok (Graph.add_edge edge g) =
     bool_decide (is_Some (Graph.get_node g (Edge.from edge)) ∧
                  is_Some (Graph.get_node g (Edge.to edge)))) ∧
  (∀ a b, a ∈ dependencies g b ↔ link g a b) ∧
  match topological_order g with
  | Ok order => order ≡ₚ Node.id <$> Graph.nodes g ∧ (∀ a b, link g a b → precedes order a b) ∧
                (∀ a, ¬ tc (link g) a a)
  | Err e => e = GraphError.CycleDetected ∧ ∃ a, tc (link g) a a
  end.
Proof.
  cbv zeta. set (g := foldl _ _ _). assert (graph_wf g) as Hg by (apply built_wf).
  split_and!; [done|by intros; apply get_node_iff|by intros; apply add_node_ok_iff|
    by intros; apply add_edge_ok_iff|by intros; apply elem_of_dependencies|
    by apply topological_order_spec].
Qed.

(** C31: A plan becomes a graph exactly when its task identifiers are unique, its dependencies
    are tasks of the plan and they have no cycle; the graph then has one node for each task
    and one edge for each dependency, in the order of the plan.  Each error says which of the
    three fails, in that order; the roots are the tasks without dependencies. *)
Theorem plan_to_graph_spec `{!TomlValue Toml} plan_id plan_dir tasks max_parallel :
  let unique := NoDup tasks.*1 in
  let known := Forall (λ t : string * PlanTaskInfo,
                         Forall (.∈ tasks.*1) (PlanTaskInfo.depends_on t.2)) tasks in
  match plan_to_graph plan_id plan_dir tasks max_parallel with
  | Ok g =>
      unique ∧ known ∧ (∀ a, ¬ tc (depends tasks) a a) ∧ graph_wf g ∧
      Graph.nodes g = task_node plan_id plan_dir <$> tasks ∧
      (Graph.edges g).*2 = plan_edges tasks ∧
      (∀ id, id ∈ root_nodes g ↔ id ∈ tasks.*1 ∧ ∀ a, ¬ depends tasks a id)
  | Err (GraphError.DuplicateNode _) => ¬ unique
  | Err (GraphError.InvalidGraph _) => unique ∧ ¬ known
  | Err GraphError.CycleDetected => unique ∧ known ∧ ∃ a, tc (depends tasks) a a
  | Err _ => False
  end.
Proof.
  cbv zeta. unfold plan_to_graph. set (g0 := Graph.new _).
  pose proof (add_nodes_spec (task_node plan_id plan_dir <$> tasks) g0 (new_wf _)) as H1.
  assert (∀ l : list (string * PlanTaskInfo), Node.id <$> (task_node plan_id plan_dir <$> l) = l.*1) as Hids
    by (intros l; by rewrite <-list_fmap_compose).
  destruct (add_nodes _ g0) as [g1|e1].
  2:{ destruct H1 as (id & -> & Hnd). simpl in Hnd. by rewrite Hids in Hnd. }
  destruct H1 as (Hg1 & Hn1 & He1). simpl in Hn1, He1.
  pose proof (wf_ids g1 Hg1) as Hnd. rewrite Hn1, Hids in Hnd.
  pose proof (add_all_deps_spec plan_id tasks.*1 tasks g1 Hg1) as H2.
  rewrite Hn1, Hids in H2. specialize (H2 ltac:(done) ltac:(by apply Forall_forall)).
  destruct (add_all_deps _ _ tasks g1) as [g2|e2].
  2:{ destruct H2 as [(t & dep & Ht & Hdep & Hno) (r & ->)]. split; [done|].
      rewrite Forall_forall. intros Hk. specialize (Hk t Ht). rewrite Forall_forall in Hk. auto. }
  destruct H2 as (Hg2 & Hn2 & He2 & Hk). rewrite He1 in He2. simpl in He2.
  pose proof (topological_order_spec g2 Hg2) as H3.
  assert (∀ a b, link g2 a b ↔ depends tasks a b) as Hl by (intros; by apply link_plan_edges).
  assert (∀ a b, tc (link g2) a b ↔ tc (depends tasks) a b) as Htc
    by (intros; split; apply (tc_congruence id); intros; by apply Hl).
  destruct (topological_order g2) as [order|e].
  - destruct H3 as (_ & _ & Hac). split_and!; [done|done| |done|done|done|].
    + intros a Ha. apply (Hac a). by apply Htc.
    + intros id. rewrite elem_of_root_nodes by done. rewrite Hn2, Hids.
      split; intros [Hi Ha]; (split; [done|]); intros a Hab; by apply (Ha a), Hl.
  - destruct H3 as (-> & a & Ha). split_and!; [done|done|]. exists a. by apply Htc.
Qed.
End Sorting.

Section Witness.
#[local] Instance string_toml : TomlValue string := {
  toml_string s := s; toml_integer z := fmt_N (Z.to_N z);
  toml_array l := str_join "," l; toml_table m := "table" }.

Definition sample_task (deps : list string) : PlanTaskInfo :=
  PlanTaskInfo.mk "t" None None "fast" None [] deps [] 60 1 None 0 "{}".

Definition sample_plan : list (string * PlanTaskInfo) :=
  [("b", sample_task ["a"]); ("a", sample_task []); ("c", sample_task ["a"; "b"])].

Lemma graph_always_wf_witness :
  let node id := Node.mk id "noop" "" [] [] in
  let g := foldl apply_graph_op (Graph.new (GraphMetadata.mk "g" None None ∅))
    [AddNode (node "a"); AddNode (node "b"); AddNode (node "a"); AddEdge (Edge.mk "b" "a" None);
     AddEdge (Edge.mk "b" "c" None)] in
  graph_wf g ∧ topological_order g = Ok ["b"; "a"].
Proof.
  cbv zeta. split; [|vm_compute; reflexivity].
  exact (proj1 (graph_always_wf (GraphMetadata.mk "g" None None ∅) _)).
Defined.

Lemma plan_to_graph_spec_witness :
  match plan_to_graph "p" "dir" sample_plan 2 with
  | Ok g => Node.id <$> Graph.nodes g = ["b"; "a"; "c"] ∧
            (∀ id, id ∈ root_nodes g ↔ id ∈ sample_plan.*1 ∧ ∀ a, ¬ depends sample_plan a id)
  | Err _ => False
  end.
Proof.
  pose proof (plan_to_graph_spec (Toml:=string) "p" "dir" sample_plan 2) as H. cbv zeta in H.
  destruct (plan_to_graph "p" "dir" sample_plan 2) as [g|e] eqn:E.
  - destruct H as (_ & _ & _ & _ & Hn & _ & Hr). split; [by rewrite Hn|exact Hr].
  - vm_compute in E. discriminate E.
Defined.
End Witness.

(** *** What the conversion loses *)

(** A timeout is cut to 32 bits: one of 2^32 seconds becomes none. *)
Lemma timeout_truncated : as_u32 (N.min 4294967296 9223372036854775807) = 0%N.
Proof. vm_compute. reflexivity. Qed.

(** Dependencies on other plans leave no trace in the graph. *)
Lemma cross_plan_dependencies_dropped `{!DiGraphLib} `{!TomlValue Toml} plan_id plan_dir tasks n :
  let drop_cross (t : string * PlanTaskInfo) :=
    let i := t.2 in
    (t.1, PlanTaskInfo.mk (PlanTaskInfo.title i) (PlanTaskInfo.description i) (PlanTaskInfo.role i)
            (PlanTaskInfo.tier i) (PlanTaskInfo.model_hint i) (PlanTaskInfo.files i)
            (PlanTaskInfo.depends_on i) [] (PlanTaskInfo.timeout_secs i) (PlanTaskInfo.max_retries i)
            (PlanTaskInfo.domain i) (PlanTaskInfo.sequence i) (PlanTaskInfo.full_config_json i)) in
  plan_to_graph (Toml:=Toml) plan_id plan_dir (drop_cross <$> tasks) n =
  plan_to_graph plan_id plan_dir tasks n.
Proof.
  cbv zeta. set (drop := λ t, _). unfold plan_to_graph.
  assert ((drop <$> tasks).*1 = tasks.*1) as -> by (rewrite <-list_fmap_compose; by apply list_fmap_ext).
  assert (task_node plan_id plan_dir <$> (drop <$> tasks) = task_node (Toml:=Toml) plan_id plan_dir <$> tasks) as ->
    by (rewrite <-list_fmap_compose; by apply list_fmap_ext).
  destruct (add_nodes _ _) as [g|]; [|done].
  assert (∀ known g, add_all_deps (Toml:=Toml) plan_id known (drop <$> tasks) g =
                     add_all_deps plan_id known tasks g) as ->; [|done].
  intros known. induction tasks as [|[id info] tasks IH]; intros g'; [done|]. simpl.
  destruct (add_deps _ _ _ _ g'); [apply IH|done].
Qed.
