(* ===== verification/GraphEngine.v ===== *)
(** * The graph engine (crates/roko-graph/src/engine.rs, registry.rs and budget.rs)

    Running a cell graph: each node in topological order, on the outputs of its direct
    predecessors, skipping what is downstream of a failure; and the tracker of the tokens,
    money and time a run may use.

    A cell is code outside the engine with effects on the world: its [execute] maps inputs and
    a world to outputs or an error message, and the next world.  The context the code passes
    to every cell is part of the world. *)

From S2P Require Import Prelude Graph Budget Gates.

(** ** Cells and their registry *)

Module Cell.
Record t (E W : Type) : Type := mk { execute : list E → W → result (list E) string * W }.
Arguments mk {E W} _.
Arguments execute {E W} _ _ _.
End Cell.
Abbreviation Cell := Cell.t.

Module CellRegistry.
Section Ops.
Context {Toml E W : Type}.
(** [factories] of the code *)
Abbreviation t := (gmap string (Toml → Cell E W)).

Definition new : t := ∅.
Definition register (cell_type : string) (factory : Toml → Cell E W) (r : t) : t :=
  <[cell_type := factory]> r.
Definition create (r : t) (cell_type : string) (config : Toml) : result (Cell E W) GraphError :=
  match r !! cell_type with
  | None => Err (GraphError.UnknownCellType cell_type)
  | Some factory => Ok (factory config)
  end.
Definition contains (r : t) (cell_type : string) : bool :=
  match r !! cell_type with Some _ => true | None => false end.
Definition len (r : t) : nat := size r.
Definition is_empty (r : t) : bool := bool_decide (size r = 0).
End Ops.
End CellRegistry.

(** ** Results *)

Module NodeStatus.
Inductive t : Type := Pending | Running | Complete | Failed | Skipped.

#[global] Instance t_eq_dec : EqDecision t.
Proof. solve_decision. Defined.

Definition display (s : t) : string :=
  match s with
  | Pending => "pending"
  | Running => "running"
  | Complete => "complete"
  | Failed => "FAILED"
  | Skipped => "skipped"
  end.
End NodeStatus.
Abbreviation NodeStatus := NodeStatus.t.

(** Durations are in nanoseconds. *)
Module NodeResult.
Record t : Type := mk {
  node_id : NodeId;
  cell_type : string;
  status : NodeStatus;
  duration : N;
  error : option string;
  output_count : nat;
}.
End NodeResult.
Abbreviation NodeResult := NodeResult.t.

Module GraphOutput.
Record t : Type := mk {
  graph_name : string;
  success : bool;
  node_results : list NodeResult;
  total_duration : N;
}.
End GraphOutput.
Abbreviation GraphOutput := GraphOutput.t.

(** ** The engine *)

Module GraphEngine.
Record t (Toml E W : Type) : Type := mk {
  graph : Graph Toml;
  registry : gmap string (Toml → Cell E W);
}.
Arguments mk {Toml E W} _ _.
Arguments graph {Toml E W} _.
Arguments registry {Toml E W} _.

(** What the loop over the nodes keeps. *)
Record run (E : Type) : Type := mk_run {
  outputs : gmap NodeId (list E);
  failed_nodes : gset NodeId;
  results : list NodeResult;
}.
Arguments mk_run {E} _ _ _.
Arguments outputs {E} _.
Arguments failed_nodes {E} _.
Arguments results {E} _.

Section Ops.
Context {Toml E W : Type} `{!DiGraphLib} `{!Clock W}.
Implicit Types (e : t Toml E W) (w : W).

Definition new (graph : Graph Toml) (registry : gmap string (Toml → Cell E W)) : t Toml E W :=
  mk graph registry.

(** Only the direct predecessors are looked at. *)
Definition has_failed_ancestor e (node_id : NodeId) (failed : gset NodeId) : bool :=
  existsb (λ pred_id, bool_decide (pred_id ∈ failed)) (dependencies (graph e) node_id).

Definition gather_inputs e (node_id : NodeId) (outputs : gmap NodeId (list E)) : list E :=
  dependencies (graph e) node_id ≫= λ pred_id, default [] (outputs !! pred_id).

Definition skip_node (node : Node Toml) (r : run E) : run E :=
  mk_run (outputs r) ({[Node.id node]} ∪ failed_nodes r)
    (results r ++ [NodeResult.mk (Node.id node) (Node.cell_type node) NodeStatus.Skipped 0
                     (Some "upstream dependency failed") 0]).

Definition complete_node (node : Node Toml) (engrams : list E) (duration : N) (r : run E) : run E :=
  mk_run (<[Node.id node := engrams]> (outputs r)) (failed_nodes r)
    (results r ++ [NodeResult.mk (Node.id node) (Node.cell_type node) NodeStatus.Complete duration
                     None (length engrams)]).

Definition fail_node (node : Node Toml) (msg : string) (duration : N) (r : run E) : run E :=
  mk_run (outputs r) ({[Node.id node]} ∪ failed_nodes r)
    (results r ++ [NodeResult.mk (Node.id node) (Node.cell_type node) NodeStatus.Failed duration
                     (Some msg) 0]).

(** One pass of the loop. *)
Definition run_node e (node : Node Toml) (r : run E) w : result (run E) GraphError * W :=
  if has_failed_ancestor e (Node.id node) (failed_nodes r) then (Ok (skip_node node r), w)
  else
    match CellRegistry.create (registry e) (Node.cell_type node) (Node.config node) with
    | Err err => (Err err, w)
    | Ok cell =>
        let input := gather_inputs e (Node.id node) (outputs r) in
        let '(outcome, w') := Cell.execute cell input w in
        let duration := (clock w' - clock w)%N in
        match outcome with
        | Ok engrams => (Ok (complete_node node engrams duration r), w')
        | Err msg => (Ok (fail_node node msg duration r), w')
        end
    end.

Fixpoint run_nodes e (order : list NodeId) (r : run E) w : result (run E) GraphError * W :=
  match order with
  | [] => (Ok r, w)
  | node_id :: rest =>
      match Graph.get_node (graph e) node_id with
      | None => run_nodes e rest r w
      | Some node =>
          match run_node e node r w with
          | (Ok r, w) => run_nodes e rest r w
          | (Err err, w) => (Err err, w)
          end
      end
  end.

Definition empty_run : run E := mk_run ∅ ∅ [].

Definition execute e w : result GraphOutput GraphError * W :=
  match topological_order (graph e) with
  | Err err => (Err err, w)
  | Ok order =>
      match run_nodes e order empty_run w with
      | (Err err, w') => (Err err, w')
      | (Ok r, w') =>
          (Ok (GraphOutput.mk (GraphMetadata.name (Graph.metadata (graph e)))
                 (forallb (λ x, bool_decide (NodeResult.status x = NodeStatus.Complete)) (results r))
                 (results r) (clock w' - clock w)), w')
      end
  end.

Definition validate e : list string :=
  (if is_ok (topological_order (graph e)) then [] else ["graph contains a cycle"]) ++
  omap (λ p,
    match Graph.nodes (graph e) !! p.2 with
    | Some node =>
        if CellRegistry.contains (registry e) (Node.cell_type node) then None
        else Some ("node '" +:+ p.1 +:+ "' references unknown cell type '" +:+
                   Node.cell_type node +:+ "'")
    | None => None
    end) (Graph.node_map (graph e)).
End Ops.
End GraphEngine.
Abbreviation GraphEngine := GraphEngine.t.
Module GE := GraphEngine.

(** ** Budgets (budget.rs)

    The counters are atomics; the clock is an argument. *)

Module BudgetLimits.
Record t : Type := mk {
  max_tokens : option N;
  max_cost_usd : option F64.t;
  deadline : option N;
}.
End BudgetLimits.
Abbreviation BudgetLimits := BudgetLimits.t.

Module NodeCost.
Record t : Type := mk { node_id : string; tokens : N; cost_usd : F64.t; duration : N }.
End NodeCost.
Abbreviation NodeCost := NodeCost.t.

Module BudgetTracker.
Record t : Type := mk {
  tokens_used : N;
  cost_microdollars : N;
  start_time : N;
  limits : BudgetLimits;
  breakdown : list NodeCost;
}.

(** [from_config] takes the three limits of the graph configuration. *)
Definition with_limits (now : N) (limits : BudgetLimits) : t := mk 0 0 now limits [].

Definition cost_usd (b : t) : F64.t :=
  F64.div (F64.of_N (cost_microdollars b)) (F64.of_Z 1000000).
Definition elapsed (now : N) (b : t) : N := (now - start_time b)%N.
Definition remaining_cost_usd (b : t) : option F64.t :=
  (λ max, F64.sub max (cost_usd b)) <$> BudgetLimits.max_cost_usd (limits b).
Definition remaining_time (now : N) (b : t) : option N :=
  (λ d, d - elapsed now b)%N <$> BudgetLimits.deadline (limits b).

Definition check_tokens (b : t) : result unit GraphError :=
  match BudgetLimits.max_tokens (limits b) with
  | Some max =>
      if (max <=? tokens_used b)%N then
        Err (GraphError.BudgetExceeded
               ("token limit reached: " +:+ fmt_N (tokens_used b) +:+ "/" +:+ fmt_N max))
      else Ok ()
  | None => Ok ()
  end.

Definition check_cost (b : t) : result unit GraphError :=
  match BudgetLimits.max_cost_usd (limits b) with
  | Some max =>
      if F64.ge (cost_usd b) max then
        Err (GraphError.BudgetExceeded
               ("cost limit reached: $" +:+ fmt_fixed 4 (cost_usd b) +:+ "/" +:+ fmt_fixed 4 max))
      else Ok ()
  | None => Ok ()
  end.

Definition check_deadline (now : N) (b : t) : result unit GraphError :=
  match BudgetLimits.deadline (limits b) with
  | Some deadline =>
      if (deadline <=? elapsed now b)%N then
        Err (GraphError.BudgetExceeded
               ("deadline exceeded: " +:+ fmt_fixed 1 (as_secs_f64 (elapsed now b)) +:+ "s/" +:+
                fmt_fixed 1 (as_secs_f64 deadline) +:+ "s"))
      else Ok ()
  | None => Ok ()
  end.

Definition check (now : N) (b : t) : result unit GraphError :=
  let? _ := check_tokens b in
  let? _ := check_cost b in
  check_deadline now b.

(** [fetch_add] wraps around; the cast of the cost saturates. *)
Definition wrapping_add64 (a b : N) : N := (a + b) mod 18446744073709551616.

Definition record (node_id : string) (tokens : N) (cost_usd : F64.t) (duration : N) (b : t) : t :=
  let microdollars := F64.to_u64 (F64.mul cost_usd (F64.of_Z 1000000)) in
  mk (wrapping_add64 (tokens_used b) tokens) (wrapping_add64 (cost_microdollars b) microdollars)
    (start_time b) (limits b)
    (breakdown b ++ [NodeCost.mk node_id tokens cost_usd duration]).
End BudgetTracker.
Abbreviation BudgetTracker := BudgetTracker.t.

(** ** What a run is *)

Section Spec.
Context {Toml E W : Type} `{L : !DiGraphLib} `{!DiGraphLaws L} `{!Clock W}.
Implicit Types (e : GraphEngine Toml E W) (w : W) (r : GE.run E) (x : NodeResult).

(** No direct predecessor failed or was skipped. *)
Definition clear_above e r (id : NodeId) : Prop :=
  ∀ p, link (GE.graph e) p id → p ∉ GE.failed_nodes r.

(** [ran e r xs w w']: the results [xs] are what running their nodes in order does from world
    [w] to world [w'], where [r] holds the outputs and failures of the whole run: a skipped
    node has a predecessor that failed or was skipped and leaves the world alone; any other
    node is executed once, on the outputs of its predecessors, and its result is the outcome. *)
Inductive ran e r : list NodeResult → W → W → Prop :=
  | ran_nil w : ran e r [] w w
  | ran_skip id node xs w w' :
      Graph.get_node (GE.graph e) id = Some node →
      (∃ p, link (GE.graph e) p id ∧ p ∈ GE.failed_nodes r) →
      id ∈ GE.failed_nodes r → GE.outputs r !! id = None →
      ran e r xs w w' →
      ran e r (NodeResult.mk id (Node.cell_type node) NodeStatus.Skipped 0
                 (Some "upstream dependency failed") 0 :: xs) w w'
  | ran_complete id node cell engrams xs w w1 w' :
      Graph.get_node (GE.graph e) id = Some node →
      clear_above e r id →
      CellRegistry.create (GE.registry e) (Node.cell_type node) (Node.config node) = Ok cell →
      Cell.execute cell (GE.gather_inputs e id (GE.outputs r)) w = (Ok engrams, w1) →
      id ∉ GE.failed_nodes r → GE.outputs r !! id = Some engrams →
      ran e r xs w1 w' →
      ran e r (NodeResult.mk id (Node.cell_type node) NodeStatus.Complete (clock w1 - clock w)
                 None (length engrams) :: xs) w w'
  | ran_fail id node cell msg xs w w1 w' :
      Graph.get_node (GE.graph e) id = Some node →
      clear_above e r id →
      CellRegistry.create (GE.registry e) (Node.cell_type node) (Node.config node) = Ok cell →
      Cell.execute cell (GE.gather_inputs e id (GE.outputs r)) w = (Err msg, w1) →
      id ∈ GE.failed_nodes r → GE.outputs r !! id = None →
      ran e r xs w1 w' →
      ran e r (NodeResult.mk id (Node.cell_type node) NodeStatus.Failed (clock w1 - clock w)
                 (Some msg) 0 :: xs) w w'.

Lemma ran_app e r xs ys w w1 w2 :
  ran e r xs w w1 → ran e r ys w1 w2 → ran e r (xs ++ ys) w w2.
Proof. induction 1; intros; simpl; [done|econstructor; eauto..]. Qed.

(** Two states that agree on [done]. *)
Definition agree (done : list NodeId) r r' : Prop :=
  ∀ p, p ∈ done → GE.outputs r' !! p = GE.outputs r !! p ∧
                  (p ∈ GE.failed_nodes r' ↔ p ∈ GE.failed_nodes r).

Definition closed e (done : list NodeId) : Prop :=
  ∀ p id, link (GE.graph e) p id → id ∈ done → p ∈ done.

Lemma gather_inputs_pred e done r r' id :
  graph_wf (GE.graph e) → (∀ p, link (GE.graph e) p id → p ∈ done) → agree done r r' →
  GE.gather_inputs e id (GE.outputs r') = GE.gather_inputs e id (GE.outputs r).
Proof.
  intros Hg Hc Ha. unfold GE.gather_inputs.
  assert (Forall (.∈ done) (dependencies (GE.graph e) id)) as Hall.
  { apply Forall_forall. intros p Hp. apply elem_of_dependencies in Hp; [|done]. by apply Hc. }
  induction Hall as [|p l Hp _ IH]; [done|].
  by rewrite !bind_cons, IH, (proj1 (Ha p Hp)).
Qed.

Lemma ran_agree e done r r' xs w w' :
  graph_wf (GE.graph e) → closed e done → agree done r r' →
  Forall (λ x, NodeResult.node_id x ∈ done) xs → ran e r xs w w' → ran e r' xs w w'.
Proof.
  intros Hg Hc Ha Hin H. induction H; apply Forall_cons in Hin || idtac;
    try (destruct Hin as [Hid Hin]; simpl in Hid; destruct (Ha _ Hid) as [Eo Ef]).
  - constructor.
  - econstructor; [done| |by apply Ef|by rewrite Eo|by apply IHran].
    destruct H0 as (p & Hp & Hf). exists p. split; [done|]. apply Ha; [by eapply Hc|done].
  - econstructor; [done| |done| |by rewrite Ef|by rewrite Eo|by apply IHran].
    + intros p Hp. rewrite (proj2 (Ha p ltac:(by eapply Hc))). by apply H0.
    + by erewrite (gather_inputs_pred e done r); [|done|intros; by eapply Hc|].
  - econstructor; [done| |done| |by rewrite Ef|by rewrite Eo|by apply IHran].
    + intros p Hp. rewrite (proj2 (Ha p ltac:(by eapply Hc))). by apply H0.
    + by erewrite (gather_inputs_pred e done r); [|done|intros; by eapply Hc|].
Qed.

(** What holds after the nodes [done] have been run. *)
Record run_inv e (done : list NodeId) r w0 w : Prop := {
  ri_ids : NodeResult.node_id <$> GE.results r = done;
  ri_ran : ran e r (GE.results r) w0 w;
  ri_failed : ∀ p, p ∈ GE.failed_nodes r → p ∈ done;
  ri_outputs : ∀ p, is_Some (GE.outputs r !! p) → p ∈ done;
}.

Lemma has_failed_ancestor_spec e id failed :
  graph_wf (GE.graph e) →
  GE.has_failed_ancestor e id failed = true ↔ ∃ p, link (GE.graph e) p id ∧ p ∈ failed.
Proof.
  intros Hg. unfold GE.has_failed_ancestor. rewrite existsb_exists.
  setoid_rewrite <-list_elem_of_In. setoid_rewrite bool_decide_eq_true.
  by setoid_rewrite (elem_of_dependencies (GE.graph e) _ id Hg).
Qed.

(** Extending the invariant by one node. *)
Lemma run_inv_step e done id r r' x w0 w w' :
  graph_wf (GE.graph e) → closed e done → id ∉ done → run_inv e done r w0 w →
  agree done r r' → GE.results r' = GE.results r ++ [x] → NodeResult.node_id x = id →
  ran e r' [x] w w' →
  (∀ p, p ∈ GE.failed_nodes r' → p = id ∨ p ∈ GE.failed_nodes r) →
  (∀ p, is_Some (GE.outputs r' !! p) → p = id ∨ is_Some (GE.outputs r !! p)) →
  run_inv e (done ++ [id]) r' w0 w'.
Proof.
  intros Hg Hc Hid [Hids Hran Hf Ho] Ha Hr Hx Hstep Hf' Ho'. split.
  - rewrite Hr, fmap_app, Hids. simpl. by rewrite Hx.
  - rewrite Hr. eapply ran_app; [|done]. eapply (ran_agree e done r); [done..| |done].
    rewrite <-Hids. apply Forall_forall. intros y Hy. by apply list_elem_of_fmap_2.
  - intros p [-> | Hp]%Hf'; apply elem_of_app; [right; by left|left; by apply Hf].
  - intros p [-> | Hp]%Ho'; apply elem_of_app; [right; by left|left; by apply Ho].
Qed.

Lemma run_node_inv e done id node r w0 w :
  graph_wf (GE.graph e) → closed e done → id ∉ done →
  (∀ p, link (GE.graph e) p id → p ∈ done) →
  Graph.get_node (GE.graph e) id = Some node → run_inv e done r w0 w →
  match GE.run_node e node r w with
  | (Ok r', w') => run_inv e (done ++ [id]) r' w0 w'
  | (Err err, _) => err = GraphError.UnknownCellType (Node.cell_type node) ∧
                    CellRegistry.contains (GE.registry e) (Node.cell_type node) = false
  end.
Proof.
  intros Hg Hc Hid Hpred Hnode Hinv.
  assert (Node.id node = id) as Hnid by (apply get_node_iff in Hnode; tauto).
  assert (GE.outputs r !! id = None) as Hout.
  { apply eq_None_not_Some. intros H. by apply Hid, (ri_outputs _ _ _ _ _ Hinv). }
  assert (id ∉ GE.failed_nodes r) as Hnf
    by (intros H; by apply Hid, (ri_failed _ _ _ _ _ Hinv)).
  unfold GE.run_node. rewrite Hnid.
  destruct (GE.has_failed_ancestor e id (GE.failed_nodes r)) eqn:Hanc.
  { apply has_failed_ancestor_spec in Hanc as (p & Hp & Hpf); [|done].
    eapply (run_inv_step e done id r); [done..| | | | | |]; unfold GE.skip_node; simpl;
      rewrite ?Hnid; [|done|done| |set_solver|auto].
    - split; simpl; [done|set_solver].
    - apply ran_skip; [done| | |done|constructor]; simpl; [|set_solver].
      exists p. split; [done|set_solver]. }
  assert (clear_above e r id) as Hclear.
  { intros p Hp Hpf. apply not_true_iff_false in Hanc. apply Hanc.
    apply has_failed_ancestor_spec; [done|]. by exists p. }
  unfold CellRegistry.contains.
  destruct (CellRegistry.create (GE.registry e) (Node.cell_type node) (Node.config node))
    as [cell|err] eqn:Hcell.
  2:{ unfold CellRegistry.create in Hcell.
      destruct (GE.registry e !! Node.cell_type node); [done|]. by injection Hcell as <-. }
  destruct (Cell.execute cell _ w) as [[engrams|msg] w'] eqn:Hex; simpl.
  - assert (agree done r (GE.complete_node node engrams (clock w' - clock w) r)) as Ha.
    { intros p Hp. simpl. rewrite lookup_insert_ne by congruence. done. }
    eapply (run_inv_step e done id r); [done..| | | |auto|].
    + simpl. by rewrite Hnid.
    + done.
    + eapply ran_complete; [done| |done| |done| |constructor].
      * done.
      * erewrite (gather_inputs_pred e done r); done.
      * simpl. by rewrite Hnid, lookup_insert_eq.
    + intros p. simpl. rewrite Hnid. destruct (decide (p = id)); [auto|].
      rewrite lookup_insert_ne by done. auto.
  - assert (agree done r (GE.fail_node node msg (clock w' - clock w) r)) as Ha.
    { intros p Hp. simpl. split; [done|set_solver]. }
    eapply (run_inv_step e done id r); [done..| | | | |auto].
    + simpl. by rewrite Hnid.
    + done.
    + eapply ran_fail; [done| |done| | |done|constructor].
      * intros p Hp. rewrite (proj2 (Ha p (Hpred p Hp))). by apply Hclear.
      * erewrite (gather_inputs_pred e done r); done.
      * simpl. set_solver.
    + intros p. simpl. rewrite Hnid. set_solver.
Qed.

(** *** The whole run *)

Lemma prefix_preds e order done rest p id :
  NoDup order → (∀ a b, link (GE.graph e) a b → precedes order a b) →
  order = done ++ rest → link (GE.graph e) p id → id ∈ done ∨ head rest = Some id → p ∈ done.
Proof.
  intros Hnd Hlink -> Hp Hid. destruct (Hlink p id Hp) as (i & j & Hi & Hj & Hlt).
  assert (∃ k, k ≤ length done ∧ (done ++ rest) !! k = Some id) as (k & Hk & Hkid).
  { destruct Hid as [(k & Hk)%list_elem_of_lookup|Hh].
    - exists k. apply lookup_lt_Some in Hk as Hl. split; [lia|]. by apply lookup_app_l_Some.
    - exists (length done). split; [done|]. rewrite lookup_app_r, Nat.sub_diag by done.
      by rewrite <-head_lookup. }
  assert (j = k) as -> by (by eapply NoDup_lookup).
  rewrite lookup_app_l in Hi by lia. by eapply list_elem_of_lookup_2.
Qed.

Lemma run_nodes_inv e order done rest r w0 w :
  graph_wf (GE.graph e) → NoDup order →
  (∀ a b, link (GE.graph e) a b → precedes order a b) →
  (∀ id, id ∈ order → id ∈ Node.id <$> Graph.nodes (GE.graph e)) →
  order = done ++ rest → run_inv e done r w0 w →
  match GE.run_nodes e rest r w with
  | (Ok r', w') => run_inv e order r' w0 w'
  | (Err err, _) => ∃ node, node ∈ Graph.nodes (GE.graph e) ∧
                            err = GraphError.UnknownCellType (Node.cell_type node) ∧
                            CellRegistry.contains (GE.registry e) (Node.cell_type node) = false
  end.
Proof.
  intros Hg Hnd Hlink Hids. revert done r w.
  induction rest as [|id rest IH]; intros done r w Heq Hinv; simpl.
  { by rewrite Heq, app_nil_r. }
  assert (id ∈ order) as Hido by (rewrite Heq; apply elem_of_app; right; by left).
  assert (is_Some (Graph.get_node (GE.graph e) id)) as [node Hnode]
    by (apply get_node_is_Some; auto).
  rewrite Hnode.
  assert (id ∉ done) as Hid.
  { rewrite Heq in Hnd. apply NoDup_app in Hnd as (_ & H & _). intros Hd. apply (H _ Hd). by left. }
  pose proof (run_node_inv e done id node r w0 w Hg) as Hstep.
  destruct (GE.run_node e node r w) as [[r'|err] w'].
  - apply (IH (done ++ [id])); [by rewrite <-app_assoc|].
    apply Hstep; [|done| |done|done]; [intros p b Hp Hb|intros p Hp];
      eapply (prefix_preds e order done (id :: rest)); eauto.
  - exists node. split; [by apply get_node_iff in Hnode as [? _]|].
    apply Hstep; [|done| |done|done]; [intros p b Hp Hb|intros p Hp];
      eapply (prefix_preds e order done (id :: rest)); eauto.
Qed.

(** Node [id] ended with status [s]. *)
Definition ended (xs : list NodeResult) (id : NodeId) (s : NodeStatus) : Prop :=
  ∃ x, x ∈ xs ∧ NodeResult.node_id x = id ∧ NodeResult.status x = s.

Lemma ran_cases e r xs w w' id :
  ran e r xs w w' → id ∈ NodeResult.node_id <$> xs →
  (ended xs id NodeStatus.Skipped ∧ id ∈ GE.failed_nodes r ∧
   ∃ p, link (GE.graph e) p id ∧ p ∈ GE.failed_nodes r) ∨
  (ended xs id NodeStatus.Failed ∧ id ∈ GE.failed_nodes r ∧ clear_above e r id) ∨
  (ended xs id NodeStatus.Complete ∧ (id ∉ GE.failed_nodes r) ∧ clear_above e r id).
Proof.
  assert (∀ x xs s, ended xs id s → ended (x :: xs) id s) as Hmono
    by (intros x l s (y & Hy & ?); exists y; split; [by right|done]).
  induction 1; simpl; intros Hin; [by apply not_elem_of_nil in Hin|..];
    (apply elem_of_cons in Hin as [->|Hin]; [|naive_solver]).
  - left. split; [|by split]. eexists. split; [by left|done].
  - right; right. split; [|by split]. eexists. split; [by left|done].
  - right; left. split; [|by split]. eexists. split; [by left|done].
Qed.

Lemma ended_unique xs id s1 s2 :
  NoDup (NodeResult.node_id <$> xs) → ended xs id s1 → ended xs id s2 → s1 = s2.
Proof.
  intros Hnd (x & (i & Hi)%list_elem_of_lookup & Hx & <-) (y & (j & Hj)%list_elem_of_lookup & Hy & <-).
  assert (i = j) as ->; [|by simplify_eq].
  apply (NoDup_lookup _ i j id Hnd); rewrite list_lookup_fmap, ?Hi, ?Hj; simpl; congruence.
Qed.

(** A node is skipped exactly when it is downstream of one that failed. *)
Lemma skipped_iff e r xs w w' id :
  graph_wf (GE.graph e) → NoDup (NodeResult.node_id <$> xs) →
  (∀ a b, link (GE.graph e) a b → precedes (NodeResult.node_id <$> xs) a b) →
  ran e r xs w w' →
  ended xs id NodeStatus.Skipped ↔
  ∃ a, tc (link (GE.graph e)) a id ∧ ended xs a NodeStatus.Failed.
Proof.
  intros Hg Hnd Hlink Hran.
  assert (∀ a b, link (GE.graph e) a b →
    a ∈ NodeResult.node_id <$> xs ∧ b ∈ NodeResult.node_id <$> xs) as Hin.
  { intros a b (i & j & Hi & Hj & _)%Hlink. split; by eapply list_elem_of_lookup_2. }
  split.
  - assert (∀ n id, str_position id (NodeResult.node_id <$> xs) = Some n →
      ended xs id NodeStatus.Skipped →
      ∃ a, tc (link (GE.graph e)) a id ∧ ended xs a NodeStatus.Failed) as H.
    { intros n. induction n as [n IH] using lt_wf_ind. intros b Hb Hsk.
      pose proof (str_position_Some _ _ _ Hb) as Hpos.
      destruct (ran_cases e r xs w w' b Hran) as [(_ & _ & p & Hp & Hpf)|[[Hs _]|[Hs _]]];
        [by eapply list_elem_of_lookup_2| |discriminate (ended_unique _ _ _ _ Hnd Hsk Hs)
        |discriminate (ended_unique _ _ _ _ Hnd Hsk Hs)].
      destruct (ran_cases e r xs w w' p Hran) as [(Hs & _ & _)|[[Hs _]|(_ & Hn & _)]];
        [by apply (Hin p b)| | |done].
      - destruct (Hlink p b Hp) as (i & j & Hi & Hj & Hlt).
        assert (j = n) as -> by (by eapply NoDup_lookup).
        destruct (str_position p (NodeResult.node_id <$> xs)) as [i'|] eqn:Ei.
        2:{ apply str_position_None in Ei. by destruct (Ei (list_elem_of_lookup_2 _ _ _ Hi)). }
        pose proof (str_position_Some _ _ _ Ei) as Hi'.
        assert (i = i') as <- by (by eapply NoDup_lookup).
        destruct (IH i Hlt p Ei Hs) as (a & Ha & Haf). exists a. split; [|done]. by eapply tc_r.
      - exists p. split; [by apply tc_once|done]. }
    intros Hsk. destruct (str_position id (NodeResult.node_id <$> xs)) as [n|] eqn:En; [by eapply H|].
    apply str_position_None in En. destruct Hsk as (x & Hx & <- & _).
    destruct En. by apply list_elem_of_fmap_2.
  - intros (a & Hpath & Haf).
    assert (∀ x : NodeId, ended xs x NodeStatus.Failed ∨ ended xs x NodeStatus.Skipped →
            x ∈ GE.failed_nodes r) as Hfailed.
    { intros x Hx. assert (x ∈ NodeResult.node_id <$> xs) as Hxin.
      { destruct Hx as [(y & Hy & <- & _)|(y & Hy & <- & _)]; by apply list_elem_of_fmap_2. }
      destruct (ran_cases e r xs w w' x Hran Hxin) as [(_ & ? & _)|[(_ & ? & _)|(Hc & _)]];
        [done|done|]. destruct Hx as [Hx|Hx]; discriminate (ended_unique _ _ _ _ Hnd Hx Hc). }
    assert (∀ p b, link (GE.graph e) p b → p ∈ GE.failed_nodes r → ended xs b NodeStatus.Skipped) as Hskip.
    { intros p b Hp Hpf. destruct (ran_cases e r xs w w' b Hran) as [(? & _)|[(_ & _ & Hc)|(_ & _ & Hc)]];
        [by apply (Hin p b)|done|by destruct (Hc p Hp)|by destruct (Hc p Hp)]. }
    assert (a ∈ GE.failed_nodes r) as Ha by (apply Hfailed; by left). clear Haf.
    induction Hpath as [a b H|a c b H _ IH]; [by eapply Hskip|].
    apply IH, Hfailed. right. by eapply Hskip.
Qed.
End Spec.

(** ** The properties *)

Section Properties.
Context {Toml E W : Type} `{L : !DiGraphLib} `{!DiGraphLaws L} `{!Clock W}.
Implicit Types (e : GraphEngine Toml E W) (w : W).

Lemma omap_all_None {A B} (f : A → option B) l :
  (∀ x, x ∈ l → f x = None) → omap f l = [].
Proof.
  induction l as [|x l IH]; intros H; [done|]. simpl. rewrite (H x) by left.
  apply IH. intros y Hy. apply H. by right.
Qed.

Lemma validate_nil e :
  graph_wf (GE.graph e) →
  GE.validate e = [] ↔
  is_ok (topological_order (GE.graph e)) = true ∧
  Forall (λ n, CellRegistry.contains (GE.registry e) (Node.cell_type n) = true)
    (Graph.nodes (GE.graph e)).
Proof.
  intros Hg. unfold GE.validate. rewrite app_nil. rewrite (wf_map _ Hg).
  assert ((if is_ok (topological_order (GE.graph e)) then [] else ["graph contains a cycle"]) = [] ↔
          is_ok (topological_order (GE.graph e)) = true) as -> by (by destruct (is_ok _)).
  rewrite Forall_lookup. split; intros [Hc Hl]; (split; [exact Hc|]).
  - intros i n Hn. destruct (CellRegistry.contains _ _) eqn:Ec; [done|]. exfalso.
    eapply not_elem_of_nil. rewrite <-Hl. apply list_elem_of_omap.
    exists (Node.id n, i). split; [apply elem_of_lookup_imap; by exists i, n|].
    simpl. by rewrite Hn, Ec.
  - apply omap_all_None. intros p (i & n & -> & Hn)%elem_of_lookup_imap. simpl.
    by rewrite Hn, (Hl i n Hn).
Qed.

Lemma execute_inv e w :
  graph_wf (GE.graph e) →
  match topological_order (GE.graph e) with
  | Err err => GE.execute e w = (Err err, w)
  | Ok order =>
      match GE.execute e w with
      | (Ok out, w') => ∃ r, run_inv e order r w w' ∧ GraphOutput.node_results out = GE.results r ∧
          GraphOutput.success out =
            forallb (λ x, bool_decide (NodeResult.status x = NodeStatus.Complete)) (GE.results r)
      | (Err err, _) => ∃ node, node ∈ Graph.nodes (GE.graph e) ∧
                                err = GraphError.UnknownCellType (Node.cell_type node) ∧
                                CellRegistry.contains (GE.registry e) (Node.cell_type node) = false
      end
  end.
Proof.
  intros Hg. pose proof (topological_order_spec (GE.graph e) Hg) as Ht. unfold GE.execute.
  destruct (topological_order (GE.graph e)) as [order|err]; [|done].
  destruct Ht as (Hp & Hlink & _).
  assert (run_inv e [] (GE.empty_run (E:=E)) w w) as Hinit.
  { split; [done|constructor|set_solver|]. intros p. simpl. rewrite lookup_empty. by intros []. }
  pose proof (run_nodes_inv e order [] order GE.empty_run w w Hg) as H.
  assert (NoDup order) as Hnd by (rewrite Hp; apply (wf_ids _ Hg)).
  specialize (H Hnd Hlink ltac:(intros id Hid; by rewrite <-Hp) eq_refl Hinit).
  destruct (GE.run_nodes e order GE.empty_run w) as [[r|err] w']; [|done].
  by exists r.
Qed.

(** C27: A run of a cell graph is a failure-propagating topological execution.  It visits each
    node exactly once, after all its predecessors; a node is executed exactly when no
    predecessor failed or was skipped, on the outputs of its predecessors, and the world
    changes by exactly these executions in that order; a node is skipped exactly when a node
    upstream of it failed; and the run succeeds exactly when every node completes.  It stops
    with an error only on a cycle, before anything is executed, or at a node whose cell type
    is not registered, which validation reports beforehand. *)
Theorem execute_spec e w :
  graph_wf (GE.graph e) →
  (match GE.execute e w with
   | (Ok out, w') =>
       let xs := GraphOutput.node_results out in
       NodeResult.node_id <$> xs ≡ₚ Node.id <$> Graph.nodes (GE.graph e) ∧
       (∀ a b, link (GE.graph e) a b → precedes (NodeResult.node_id <$> xs) a b) ∧
       (∃ r, ran e r xs w w') ∧
       (∀ id, ended xs id NodeStatus.Skipped ↔
          ∃ a, tc (link (GE.graph e)) a id ∧ ended xs a NodeStatus.Failed) ∧
       (GraphOutput.success out = true ↔
          Forall (λ x, NodeResult.status x = NodeStatus.Complete) xs)
   | (Err err, w') =>
       (err = GraphError.CycleDetected ∧ w' = w ∧ ∃ a, tc (link (GE.graph e)) a a) ∨
       (∃ node, node ∈ Graph.nodes (GE.graph e) ∧
          err = GraphError.UnknownCellType (Node.cell_type node) ∧
          CellRegistry.contains (GE.registry e) (Node.cell_type node) = false)
   end) ∧
  (GE.validate e = [] → is_ok (GE.execute e w).1 = true).
Proof.
  intros Hg. pose proof (topological_order_spec (GE.graph e) Hg) as Ht.
  pose proof (execute_inv e w Hg) as Hex. pose proof (validate_nil e Hg) as Hv.
  destruct (topological_order (GE.graph e)) as [order|err].
  2:{ destruct Ht as [-> Hc]. rewrite Hex. split; [left; by split_and!|]. by intros [? _]%Hv. }
  destruct Ht as (Hp & Hlink & _).
  destruct (GE.execute e w) as [[out|err] w'].
  - split; [|done]. destruct Hex as (r & [Hids Hran _ _] & -> & ->).
    assert (NoDup (NodeResult.node_id <$> GE.results r)) as Hnd
      by (rewrite Hids, Hp; apply (wf_ids _ Hg)).
    cbv zeta. split_and!; [by rewrite Hids|by rewrite Hids|by exists r| |].
    + intros id. apply (skipped_iff e r _ w w'); [done|done|by rewrite Hids|done].
    + rewrite forallb_forall, Forall_forall. setoid_rewrite <-list_elem_of_In.
      by setoid_rewrite bool_decide_eq_true.
  - split; [by right|]. intros [_ Hall]%Hv. destruct Hex as (node & Hin & _ & Hno).
    rewrite Forall_forall in Hall. by rewrite (Hall node Hin) in Hno.
Qed.
End Properties.

(** ** Examples and departures *)

Section Witness.
#[local] Existing Instance reference_lib.
#[local] Existing Instance reference_laws.

(** A world that logs the cells run. *)
#[local] Instance log_clock : Clock (list string) := λ w, N.of_nat (length w).

Definition log_cell (name : string) (ok : bool) (_ : string) : Cell nat (list string) :=
  Cell.mk (λ input w,
    (if ok then Ok (input ++ [length w]) else Err (name +:+ " failed"), w ++ [name])).

Definition sample_registry : gmap string (string → Cell nat (list string)) :=
  <["ok" := log_cell "ok" true]> (<["bad" := log_cell "bad" false]> ∅).

Definition sample_graph (kind_b : string) : Graph string :=
  foldl apply_graph_op (Graph.new (GraphMetadata.mk "g" None None ∅))
    [AddNode (Node.mk "a" "ok" "" [] []); AddNode (Node.mk "b" kind_b "" [] []);
     AddNode (Node.mk "c" "ok" "" [] []); AddNode (Node.mk "d" "ok" "" [] []);
     AddEdge (Edge.mk "a" "b" None); AddEdge (Edge.mk "b" "c" None)].

Definition sample_engine (kind_b : string) : GraphEngine string nat (list string) :=
  GE.new (sample_graph kind_b) sample_registry.

Lemma execute_spec_witness :
  match GE.execute (sample_engine "bad") [] with
  | (Ok out, w') =>
      w' = ["ok"; "bad"; "ok"] ∧
      (λ x, (NodeResult.node_id x, NodeResult.status x)) <$> GraphOutput.node_results out =
        [("a", NodeStatus.Complete); ("b", NodeStatus.Failed); ("c", NodeStatus.Skipped);
         ("d", NodeStatus.Complete)] ∧
      ended (GraphOutput.node_results out) "c" NodeStatus.Skipped
  | (Err _, _) => False
  end.
Proof.
  pose proof (execute_spec (sample_engine "bad") [] (built_wf _ _)) as [H _].
  destruct (GE.execute (sample_engine "bad") []) as [[out|err] w'] eqn:Eex;
    [|vm_compute in Eex; discriminate Eex].
  assert (out = (match GE.execute (sample_engine "bad") [] with
                 | (Ok o, _) => o | _ => out end)) as Hout by (by rewrite Eex).
  assert (w' = (GE.execute (sample_engine "bad") []).2) as Hw by (by rewrite Eex).
  cbv zeta in H. destruct H as (_ & _ & _ & Hs & _).
  split; [rewrite Hw; vm_compute; reflexivity|].
  split; [rewrite Hout; vm_compute; reflexivity|].
  apply Hs. exists "b". split.
  - apply tc_once. unfold link. eexists (Edge.mk "b" "c" None).
    split; [|by split]. apply list_elem_of_lookup. exists 1. vm_compute. reflexivity.
  - unfold ended. rewrite Hout. eexists (NodeResult.mk "b" "bad" NodeStatus.Failed 1 (Some "bad failed") 0).
    split; [|by split]. apply list_elem_of_lookup. exists 1. vm_compute. reflexivity.
Defined.

(** An unregistered cell type stops the run after the nodes before it have had their
    effects. *)
Lemma unknown_type_after_effects :
  GE.execute (sample_engine "missing") [] = (Err (GraphError.UnknownCellType "missing"), ["ok"]).
Proof. vm_compute. reflexivity. Qed.
End Witness.

(** Conditions on edges change nothing: the engine never looks at them. *)
Definition drop_conditions {Toml} (g : Graph Toml) : Graph Toml :=
  Graph.mk (Graph.metadata g) (Graph.nodes g)
    ((λ p : nat * nat * Edge, (p.1, Edge.mk (Edge.from p.2) (Edge.to p.2) None)) <$> Graph.edges g)
    (Graph.node_map g).

Section Conditions.
Context {Toml E W : Type} `{L : !DiGraphLib} `{!Clock W}.

Lemma arcs_drop_conditions (g : Graph Toml) : Graph.arcs (drop_conditions g) = Graph.arcs g.
Proof. unfold Graph.arcs. simpl. rewrite <-list_fmap_compose. by apply list_fmap_ext. Qed.

Lemma edge_conditions_ignored (g : Graph Toml) (registry : gmap string (Toml → Cell E W)) w :
  GE.execute (GE.new (drop_conditions g) registry) w = GE.execute (GE.new g registry) w.
Proof.
  assert (∀ id, dependencies (drop_conditions g) id = dependencies g id) as Hd
    by (intros id; unfold dependencies; by rewrite arcs_drop_conditions).
  assert (∀ node r w, GE.run_node (GE.new (drop_conditions g) registry) node r w =
                      GE.run_node (GE.new g registry) node r w) as Hn.
  { intros node r w0. unfold GE.run_node, GE.has_failed_ancestor, GE.gather_inputs. simpl.
    by rewrite Hd. }
  assert (∀ order r w, GE.run_nodes (GE.new (drop_conditions g) registry) order r w =
                       GE.run_nodes (GE.new g registry) order r w) as Hr.
  { induction order as [|id order IH]; intros r w0; [done|]. simpl.
    change (Graph.get_node (drop_conditions g) id) with (Graph.get_node g id).
    destruct (Graph.get_node g id) as [node|]; [|apply IH]. rewrite Hn.
    destruct (GE.run_node _ node r w0) as [[r'|] w1]; [apply IH|done]. }
  unfold GE.execute, topological_order. simpl. rewrite arcs_drop_conditions.
  change (Graph.node_count (drop_conditions g)) with (Graph.node_count g).
  destruct (toposort _ _); [|done]. by rewrite Hr.
Qed.
End Conditions.

(** *** The budget tracker *)

(** A use of the tracker: what the nodes reported. *)
Definition spend (b : BudgetTracker) (uses : list NodeCost) : BudgetTracker :=
  foldl (λ b c, BudgetTracker.record (NodeCost.node_id c) (NodeCost.tokens c)
                  (NodeCost.cost_usd c) (NodeCost.duration c) b) b uses.

Definition microdollars (c : NodeCost) : N :=
  F64.to_u64 (F64.mul (NodeCost.cost_usd c) (F64.of_Z 1000000)).

Definition sum_N (l : list N) : N := foldr N.add 0%N l.

Lemma sum_N_app l1 l2 : sum_N (l1 ++ l2) = (sum_N l1 + sum_N l2)%N.
Proof. unfold sum_N. induction l1 as [|x l IH]; simpl; [done|]. rewrite IH. lia. Qed.

Lemma spend_spec now limits uses :
  let b := spend (BudgetTracker.with_limits now limits) uses in
  BudgetTracker.tokens_used b = (sum_N (NodeCost.tokens <$> uses) mod 18446744073709551616)%N ∧
  BudgetTracker.cost_microdollars b =
    (sum_N (microdollars <$> uses) mod 18446744073709551616)%N ∧
  BudgetTracker.breakdown b = uses ∧ BudgetTracker.limits b = limits ∧
  BudgetTracker.start_time b = now.
Proof.
  cbv zeta. induction uses as [|c uses IH] using rev_ind; [done|].
  unfold spend in *. rewrite foldl_app, !fmap_app, !sum_N_app.
  destruct IH as (Ht & Hm & Hb & Hl & Hs). set (b := foldl _ _ uses) in *.
  cbn [foldl fmap list_fmap sum_N foldr].
  unfold BudgetTracker.record. cbn -[N.modulo F64.to_u64].
  rewrite Ht, Hm, Hb. unfold BudgetTracker.wrapping_add64. fold (microdollars c).
  split_and!; [|..|by destruct c|done|done]; rewrite N.add_0_r, N.Div0.add_mod_idemp_l; done.
Qed.

(** The tracker lets a node run exactly while the tokens, the money and the time used are
    each below their limit, where what is used is the sum of what the nodes reported, counted
    in whole microdollars for money, as long as the sums fit in 64 bits. *)
Lemma budget_check_spec start limits uses now :
  (sum_N (NodeCost.tokens <$> uses) < 18446744073709551616)%N →
  (sum_N (microdollars <$> uses) < 18446744073709551616)%N →
  let b := spend (BudgetTracker.with_limits start limits) uses in
  BudgetTracker.check now b = Ok () ↔
  (∀ max, BudgetLimits.max_tokens limits = Some max → (sum_N (NodeCost.tokens <$> uses) < max)%N) ∧
  (∀ max, BudgetLimits.max_cost_usd limits = Some max →
     F64.ge (F64.div (F64.of_N (sum_N (microdollars <$> uses))) (F64.of_Z 1000000)) max = false) ∧
  (∀ deadline, BudgetLimits.deadline limits = Some deadline → (now - start < deadline)%N).
Proof.
  intros Ht Hm. cbv zeta. destruct (spend_spec start limits uses) as (Et & Em & _ & El & Es).
  rewrite N.mod_small in Et, Em by done. set (b := spend _ _) in *.
  unfold BudgetTracker.check, BudgetTracker.check_tokens, BudgetTracker.check_cost,
    BudgetTracker.check_deadline, BudgetTracker.cost_usd, BudgetTracker.elapsed.
  rewrite El, Et, Em, Es. destruct limits as [lt lc ld]. cbn -[F64.ge F64.div F64.of_N F64.of_Z].
  destruct lt as [mt|], lc as [mc|], ld as [d|]; simpl;
    repeat (case_match; simplify_eq); naive_solver lia.
Qed.
