(* ===== verification/WorkflowToml.v ===== *)
(** * The workflow configuration parser (crates/roko-runtime/src/pipeline_state.rs)

    The hand-written reader of the subset of TOML that configures a workflow: tables, keys,
    comments, strings with escapes, booleans and unsigned integers, with presets and the
    inference of phases from workflow steps.

    Strings are sequences of bytes.  The characters the parser looks for are ASCII, so reading
    bytes or characters is the same, but for [trim], which also removes the white space of
    other scripts: the model covers text whose white space is ASCII. *)

From Stdlib Require Import Ascii.
From S2P Require Import Prelude Pipeline.

(** ** Functions of [str] *)

Definition is_whitespace (c : ascii) : bool :=
  let n := N_of_ascii c in ((9 <=? n)%N && (n <=? 13)%N) || (n =? 32)%N.

Fixpoint trim_start (s : string) : string :=
  match s with
  | String c s' => if is_whitespace c then trim_start s' else s
  | EmptyString => EmptyString
  end.

Fixpoint trim_end (s : string) : string :=
  match s with
  | String c s' =>
      match trim_end s' with
      | EmptyString => if is_whitespace c then EmptyString else String c EmptyString
      | t => String c t
      end
  | EmptyString => EmptyString
  end.

Definition trim (s : string) : string := trim_end (trim_start s).

Fixpoint str_rev_append (s acc : string) : string :=
  match s with String c s' => str_rev_append s' (String c acc) | EmptyString => acc end.
Definition str_rev (s : string) : string := str_rev_append s EmptyString.

Definition str_ends_with (pat s : string) : bool := str_starts_with (str_rev pat) (str_rev s).

(** [trim_start_matches(pat)] with a pattern of one or two characters: the pattern is removed
    as often as it is there. *)
Fixpoint trim_start_matches1 (a : ascii) (s : string) : string :=
  match s with
  | String c s' => if Ascii.eqb c a then trim_start_matches1 a s' else s
  | EmptyString => EmptyString
  end.

Fixpoint trim_start_matches2 (a b : ascii) (s : string) : string :=
  match s with
  | String c (String d s' as t) =>
      if Ascii.eqb c a && Ascii.eqb d b then trim_start_matches2 a b s' else s
  | s => s
  end.

Definition trim_end_matches1 (a : ascii) (s : string) : string :=
  str_rev (trim_start_matches1 a (str_rev s)).
Definition trim_end_matches2 (a b : ascii) (s : string) : string :=
  str_rev (trim_start_matches2 b a (str_rev s)).

Definition str_push_front (c : ascii) (lines : list string) : list string :=
  match lines with [] => [String c EmptyString] | l :: ls => String c l :: ls end.

(** [s.lines()]: a line ends with a line feed, or a carriage return and a line feed. *)
Fixpoint lines (s : string) : list string :=
  match s with
  | EmptyString => []
  | String c s' =>
      if Ascii.eqb c "010" then EmptyString :: lines s'
      else
        match s' with
        | String d s'' =>
            if Ascii.eqb c "013" && Ascii.eqb d "010" then EmptyString :: lines s''
            else str_push_front c (lines s')
        | EmptyString => [String c EmptyString]
        end
  end.

Definition digit_value (c : ascii) : option N :=
  let n := N_of_ascii c in
  if (48 <=? n)%N && (n <=? 57)%N then Some (n - 48)%N else None.

(** [s.parse::<u32>()] after the sign, with the messages of [ParseIntError]. *)
Fixpoint parse_digits (acc : N) (s : string) : result N string :=
  match s with
  | EmptyString => Ok acc
  | String c s' =>
      match digit_value c with
      | None => Err "invalid digit found in string"
      | Some d =>
          let acc := (acc * 10 + d)%N in
          if (acc <=? u32_MAX)%N then parse_digits acc s'
          else
            (* the rest is not read after an overflow *)
            Err "number too large to fit in target type"
      end
  end.

Definition parse_u32 (s : string) : result N string :=
  match s with
  | EmptyString => Err "cannot parse integer from empty string"
  | String "+" EmptyString | String "-" EmptyString => Err "invalid digit found in string"
  | String "+" s' => parse_digits 0 s'
  | _ => parse_digits 0 s
  end.

(** ** The parser *)

Module WorkflowConfigToml.
Record t : Type := mk {
  template : option string;
  has_strategy : option bool;
  has_review : option bool;
  max_iterations : option N;
  max_autofix_attempts : option N;
}.
End WorkflowConfigToml.
Abbreviation WorkflowConfigToml := WorkflowConfigToml.t.

Module WorkflowTomlScope.
Inductive t : Type := Root | Workflow | WorkflowStep | Other.

#[global] Instance t_eq_dec : EqDecision t.
Proof. solve_decision. Defined.
End WorkflowTomlScope.
Abbreviation WorkflowTomlScope := WorkflowTomlScope.t.

(** The errors are [std::io::Error]s: their message. *)
Definition line_error {T} (line_number : nat) (message : string) : result T string :=
  Err ("line " +:+ fmt_nat line_number +:+ ": " +:+ message).

Definition quote_char : ascii := "034".
Definition backslash : ascii := "092".

(** What is left of a line before a comment, and whether a string is still open at its end. *)
Fixpoint strip_loop (in_string escaped : bool) (line : string) : string * bool :=
  match line with
  | EmptyString => (EmptyString, in_string)
  | String ch rest =>
      if in_string then
        let '(in_string, escaped) :=
          if escaped then (true, false)
          else if Ascii.eqb ch backslash then (true, true)
          else if Ascii.eqb ch quote_char then (false, false)
          else (true, false) in
        let '(out, still_open) := strip_loop in_string escaped rest in (String ch out, still_open)
      else if Ascii.eqb ch quote_char then
        let '(out, still_open) := strip_loop true escaped rest in (String ch out, still_open)
      else if Ascii.eqb ch "#" then (EmptyString, false)
      else let '(out, still_open) := strip_loop false escaped rest in (String ch out, still_open)
  end.

Definition strip_toml_comment (line : string) : result string string :=
  let '(out, in_string) := strip_loop false false line in
  if in_string then Err "unterminated string" else Ok out.

Definition parse_workflow_toml_scope (line : string) : result WorkflowTomlScope string :=
  if str_starts_with "[[" line then
    if negb (str_ends_with "]]" line) then Err "unterminated array table header"
    else
      let name := trim (trim_end_matches2 "]" "]" (trim_start_matches2 "[" "[" line)) in
      Ok (if string_eqb name "workflow.steps" then WorkflowTomlScope.WorkflowStep
          else WorkflowTomlScope.Other)
  else if negb (str_ends_with "]" line) then Err "unterminated table header"
  else
    let name := trim (trim_end_matches1 "]" (trim_start_matches1 "[" line)) in
    Ok (if string_eqb name "workflow" then WorkflowTomlScope.Workflow
        else WorkflowTomlScope.Other).

Definition unescape_char (escaped : ascii) : ascii :=
  if Ascii.eqb escaped "n" then "010"
  else if Ascii.eqb escaped "r" then "013"
  else if Ascii.eqb escaped "t" then "009"
  else escaped.

(** [None] for an escape at the end. *)
Fixpoint unescape (inner : string) : option string :=
  match inner with
  | EmptyString => Some EmptyString
  | String ch rest =>
      if Ascii.eqb ch backslash then
        match rest with
        | EmptyString => None
        | String escaped rest => String (unescape_char escaped) <$> unescape rest
        end
      else String ch <$> unescape rest
  end.

Definition quote_string : string := String quote_char EmptyString.

Definition parse_toml_string (value : string) (line_number : nat) : result string string :=
  if negb (str_starts_with quote_string value) || negb (str_ends_with quote_string value) ||
     (String.length value <? 2)
  then line_error line_number "expected string value"
  else
    match unescape (String.substring 1 (String.length value - 2) value) with
    | None => line_error line_number "dangling escape in string"
    | Some parsed => Ok parsed
    end.

Definition parse_toml_bool (value : string) (line_number : nat) : result bool string :=
  if string_eqb value "true" then Ok true
  else if string_eqb value "false" then Ok false
  else line_error line_number "expected boolean value".

Definition parse_toml_u32 (value : string) (line_number : nat) : result N string :=
  match parse_u32 value with
  | Ok n => Ok n
  | Err err => line_error line_number ("expected unsigned integer: " +:+ err)
  end.

(** What the loop over the lines keeps. *)
Module ParseState.
Record t : Type := mk {
  workflow : WorkflowConfigToml;
  scope : WorkflowTomlScope;
  saw_workflow_table : bool;
  saw_workflow_steps : bool;
  steps_have_strategy : bool;
  steps_have_review : bool;
}.

Definition init : t :=
  mk (WorkflowConfigToml.mk None None None None None) WorkflowTomlScope.Root false false false false.

Definition enter (scope : WorkflowTomlScope) (s : t) : t :=
  mk (workflow s) scope
    (match scope with WorkflowTomlScope.Workflow => true | _ => saw_workflow_table s end)
    (match scope with WorkflowTomlScope.WorkflowStep => true | _ => saw_workflow_steps s end)
    (steps_have_strategy s) (steps_have_review s).

Definition set_workflow (w : WorkflowConfigToml) (s : t) : t :=
  mk w (scope s) (saw_workflow_table s) (saw_workflow_steps s) (steps_have_strategy s)
    (steps_have_review s).

Definition step_name (name : string) (s : t) : t :=
  mk (workflow s) (scope s) (saw_workflow_table s) (saw_workflow_steps s)
    (steps_have_strategy s || string_eqb name "strategy")
    (steps_have_review s || string_eqb name "review").
End ParseState.
Abbreviation ParseState := ParseState.t.

Definition should_read (s : ParseState) : bool :=
  if ParseState.saw_workflow_table s
  then bool_decide (ParseState.scope s = WorkflowTomlScope.Workflow)
  else bool_decide (ParseState.scope s = WorkflowTomlScope.Root).

(** [match key] on a line that is read. *)
Definition read_key (line_number : nat) (key value : string) (w : WorkflowConfigToml) :
    result WorkflowConfigToml string :=
  let '(WorkflowConfigToml.mk template has_strategy has_review max_iterations max_autofix) := w in
  if string_eqb key "template" then
    let? v := parse_toml_string value line_number in
    Ok (WorkflowConfigToml.mk (Some v) has_strategy has_review max_iterations max_autofix)
  else if string_eqb key "has_strategy" then
    let? v := parse_toml_bool value line_number in
    Ok (WorkflowConfigToml.mk template (Some v) has_review max_iterations max_autofix)
  else if string_eqb key "has_review" then
    let? v := parse_toml_bool value line_number in
    Ok (WorkflowConfigToml.mk template has_strategy (Some v) max_iterations max_autofix)
  else if string_eqb key "max_iterations" then
    let? v := parse_toml_u32 value line_number in
    Ok (WorkflowConfigToml.mk template has_strategy has_review (Some v) max_autofix)
  else if string_eqb key "max_autofix_attempts" then
    let? v := parse_toml_u32 value line_number in
    Ok (WorkflowConfigToml.mk template has_strategy has_review max_iterations (Some v))
  else Ok w.

Definition parse_key_value (line_number : nat) (line : string) (s : ParseState) :
    result ParseState string :=
  match str_split_once "=" line with
  | None => line_error line_number "expected key = value"
  | Some (key, value) =>
      let key := trim key in
      let value := trim value in
      if str_is_empty key || str_is_empty value then line_error line_number "expected key = value"
      else if should_read s then
        let? w := read_key line_number key value (ParseState.workflow s) in
        Ok (ParseState.set_workflow w s)
      else if bool_decide (ParseState.scope s = WorkflowTomlScope.WorkflowStep) &&
              string_eqb key "name" then
        let? name := parse_toml_string value line_number in Ok (ParseState.step_name name s)
      else Ok s
  end.

Definition with_line {T} (line_number : nat) (r : result T string) : result T string :=
  match r with Ok x => Ok x | Err err => line_error line_number err end.

Definition parse_line (idx : nat) (raw_line : string) (s : ParseState) : result ParseState string :=
  let line_number := idx + 1 in
  let? line := with_line line_number (strip_toml_comment raw_line) in
  let line := trim line in
  if str_is_empty line then Ok s
  else if str_starts_with "[[" line || str_starts_with "[" line then
    let? scope := with_line line_number (parse_workflow_toml_scope line) in
    Ok (ParseState.enter scope s)
  else parse_key_value line_number line s.

Fixpoint parse_lines (idx : nat) (ls : list string) (s : ParseState) : result ParseState string :=
  match ls with
  | [] => Ok s
  | raw_line :: rest => let? s := parse_line idx raw_line s in parse_lines (S idx) rest s
  end.

Definition opt_or {A} (a b : option A) : option A := match a with Some _ => a | None => b end.

Definition parse_workflow_config_toml (s : string) : result WorkflowConfigToml string :=
  let? st := parse_lines 0 (lines s) ParseState.init in
  let w := ParseState.workflow st in
  if ParseState.saw_workflow_steps st then
    Ok (WorkflowConfigToml.mk (WorkflowConfigToml.template w)
          (opt_or (WorkflowConfigToml.has_strategy w) (Some (ParseState.steps_have_strategy st)))
          (opt_or (WorkflowConfigToml.has_review w) (Some (ParseState.steps_have_review st)))
          (WorkflowConfigToml.max_iterations w) (WorkflowConfigToml.max_autofix_attempts w))
  else Ok w.

(** The preset of a template. *)
Definition template_config (template : option string) : result WorkflowConfig string :=
  match template with
  | None => Ok WorkflowConfig.standard
  | Some t =>
      if string_eqb t "express" then Ok WorkflowConfig.express
      else if string_eqb t "standard" then Ok WorkflowConfig.standard
      else if string_eqb t "full" then Ok WorkflowConfig.full
      else Err ("unknown workflow template: " +:+ t)
  end.

Definition from_toml_str (s : string) : result WorkflowConfig string :=
  let? raw := parse_workflow_config_toml s in
  let? config := template_config (WorkflowConfigToml.template raw) in
  Ok (WorkflowConfig.mk
        (default (WorkflowConfig.has_strategy config) (WorkflowConfigToml.has_strategy raw))
        (default (WorkflowConfig.has_review config) (WorkflowConfigToml.has_review raw))
        (default (WorkflowConfig.max_iterations config) (WorkflowConfigToml.max_iterations raw))
        (default (WorkflowConfig.max_autofix_attempts config)
           (WorkflowConfigToml.max_autofix_attempts raw))).

(** ** Facts about strings *)

#[local] Arguments String.append : simpl nomatch.

Fixpoint str_all (f : ascii → bool) (s : string) : bool :=
  match s with EmptyString => true | String c s' => f c && str_all f s' end.

Lemma str_all_app f s t : str_all f (s +:+ t) = str_all f s && str_all f t.
Proof. induction s as [|c s IH]; simpl; [done|]. by rewrite IH, andb_assoc. Qed.

Lemma str_rev_append_spec s acc : str_rev_append s acc = str_rev s +:+ acc.
Proof.
  unfold str_rev. revert acc. induction s as [|c s IH]; intros acc; simpl; [done|].
  rewrite IH, (IH (String c "")), str_app_assoc. done.
Qed.

Lemma str_rev_snoc s c : str_rev (s +:+ String c "") = String c (str_rev s).
Proof.
  unfold str_rev. change (String c (str_rev_append s "")) with (String c "" +:+ str_rev_append s "").
  assert (∀ s acc, str_rev_append (s +:+ String c "") acc = String c (str_rev_append s acc)) as ->;
    [|done].
  clear. induction s as [|d s IH]; intros acc; simpl; [done|]. apply IH.
Qed.

(** *** Lines *)

Definition inline_char (c : ascii) : bool := negb (Ascii.eqb c "010") && negb (Ascii.eqb c "013").

(** Text without line ends. *)
Definition inline (s : string) : bool := str_all inline_char s.

Lemma lines_cons_inline l rest :
  inline l = true → lines (l +:+ String "010" rest) = l :: lines rest.
Proof.
  unfold inline. induction l as [|c l IH]; intros H; [done|].
  simpl in H. apply andb_true_iff in H as [[H1 H2]%andb_true_iff H3].
  apply negb_true_iff in H1, H2. specialize (IH H3). cbn [String.append lines]. rewrite H1.
  destruct (l +:+ String "010" rest) as [|d t] eqn:E; [by destruct l|].
  rewrite H2. cbn [andb]. by rewrite <-E, IH in *.
Qed.

Lemma lines_inline l : inline l = true → l ≠ "" → lines l = [l].
Proof.
  unfold inline. induction l as [|c l IH]; intros H Hne; [done|].
  simpl in H. apply andb_true_iff in H as [[H1 H2]%andb_true_iff H3].
  apply negb_true_iff in H1, H2. cbn [lines]. rewrite H1.
  destruct l as [|d l]; [done|]. rewrite H2. cbn [andb]. by rewrite IH.
Qed.

Definition newline : string := String "010" "".

Lemma lines_join ls :
  Forall (λ l, inline l = true ∧ l ≠ "") ls → lines (str_join newline ls) = ls.
Proof.
  induction 1 as [|l ls [Hl Hne] Hls IH]; [done|].
  destruct ls as [|l' ls]; [by apply lines_inline|].
  change (str_join newline (l :: l' :: ls)) with (l +:+ newline +:+ str_join newline (l' :: ls)).
  unfold newline at 1. cbn [String.append]. rewrite lines_cons_inline by done. by rewrite IH.
Qed.

(** *** Trimming *)

Lemma trim_end_app s t : trim_end t ≠ "" → trim_end (s +:+ t) = s +:+ trim_end t.
Proof.
  intros Ht. induction s as [|c s IH]; [done|]. cbn [String.append trim_end]. rewrite IH.
  destruct (s +:+ trim_end t) eqn:E; [|done]. destruct s; [done|discriminate].
Qed.

Lemma trim_end_id s c : is_whitespace c = false → trim_end (s +:+ String c "") = s +:+ String c "".
Proof. intros Hc. rewrite trim_end_app; simpl; by rewrite Hc. Qed.

Lemma trim_end_space s c :
  is_whitespace c = false → trim_end ((s +:+ String c "") +:+ " ") = s +:+ String c "".
Proof. intros Hc. rewrite str_app_assoc, trim_end_app; simpl; by rewrite Hc. Qed.

(** Text that [trim] leaves alone, also with a space after it: it starts and ends with a
    character that is not white space. *)
Definition solid (s : string) : Prop :=
  ∃ c s' d s'', s = String c s' ∧ is_whitespace c = false ∧
                s = s'' +:+ String d "" ∧ is_whitespace d = false.

Lemma solid_nonempty s : solid s → s ≠ "".
Proof. by intros (c & s' & _ & _ & -> & _). Qed.

Lemma trim_solid s : solid s → trim s = s ∧ trim (s +:+ " ") = s ∧ trim (" " +:+ s) = s.
Proof.
  intros (c & s' & d & s'' & E1 & Hc & E2 & Hd). unfold trim.
  assert (trim_start s = s) as Hs by (rewrite E1; simpl; by rewrite Hc).
  assert (trim_start (s +:+ " ") = s +:+ " ") as Hs' by (rewrite E1; simpl; by rewrite Hc).
  split_and!.
  - rewrite Hs, E2. by apply trim_end_id.
  - rewrite Hs', E2. by apply trim_end_space.
  - change (trim_start (" " +:+ s)) with (trim_start s). rewrite Hs, E2. by apply trim_end_id.
Qed.

Lemma solid_app s t u : solid s → solid u → solid (s +:+ t +:+ u).
Proof.
  intros (c & s' & _ & _ & -> & Hc & _) (_ & _ & d & u' & _ & _ & -> & Hd).
  exists c, (s' +:+ t +:+ u' +:+ String d ""), d, (String c s' +:+ t +:+ u').
  split_and!; [done|done| |done]. by rewrite <-!str_app_assoc.
Qed.

Lemma solid_all s : s ≠ "" → str_all (λ c, negb (is_whitespace c)) s = true → solid s.
Proof.
  destruct s as [|c s]; [done|]. intros _ H.
  assert (∃ d s'', String c s = s'' +:+ String d "" ∧ is_whitespace d = false) as (d & s'' & E & Hd).
  { revert c H. induction s as [|e s IH]; intros c H.
    - exists c, "". split; [done|]. simpl in H. by rewrite andb_true_r, negb_true_iff in H.
    - cbn [str_all] in H. apply andb_true_iff in H as [_ H]. destruct (IH e H) as (d & s'' & E & Hd).
      exists d, (String c s''). split; [|done]. simpl. by rewrite <-E. }
  simpl in H. apply andb_true_iff in H as [Hc _]. apply negb_true_iff in Hc.
  by exists c, s, d, s''.
Qed.

(** *** Strings and numbers *)

(** A string as it is written: the quote, the backslash and the line ends are escaped. *)
Fixpoint escape (s : string) : string :=
  match s with
  | EmptyString => EmptyString
  | String c s' =>
      if Ascii.eqb c quote_char || Ascii.eqb c backslash then String backslash (String c (escape s'))
      else if Ascii.eqb c "010" then String backslash (String "n" (escape s'))
      else if Ascii.eqb c "013" then String backslash (String "r" (escape s'))
      else String c (escape s')
  end.

Definition quote (s : string) : string := String quote_char (escape s +:+ quote_string).

Lemma unescape_escape s : unescape (escape s) = Some s.
Proof.
  induction s as [|c s IH]; [done|]. cbn [escape].
  destruct (Ascii.eqb c quote_char || Ascii.eqb c backslash) eqn:E.
  { cbn [unescape]. rewrite Ascii.eqb_refl, IH. simpl. do 2 f_equal.
    apply orb_true_iff in E as [->%Ascii.eqb_eq| ->%Ascii.eqb_eq]; reflexivity. }
  apply orb_false_iff in E as [_ Hb].
  destruct (Ascii.eqb_spec c "010") as [->|]; [cbn [unescape]; rewrite Ascii.eqb_refl, IH; done|].
  destruct (Ascii.eqb_spec c "013") as [->|]; [cbn [unescape]; rewrite Ascii.eqb_refl, IH; done|].
  cbn [unescape]. by rewrite Hb, IH.
Qed.

Lemma length_app_string (s t : string) :
  String.length (s +:+ t) = String.length s + String.length t.
Proof. induction s as [|c s IH]; simpl; [done|]. by rewrite IH. Qed.

Lemma substring_app s t : String.substring 0 (String.length s) (s +:+ t) = s.
Proof. induction s as [|c s IH]; simpl; [by destruct t|]. by rewrite IH. Qed.

Lemma parse_toml_string_quote s n : parse_toml_string (quote s) n = Ok s.
Proof.
  unfold parse_toml_string, quote.
  assert (str_ends_with quote_string (String quote_char (escape s +:+ quote_string)) = true) as ->.
  { unfold str_ends_with, quote_string.
    change (String quote_char (escape s +:+ String quote_char ""))
      with (String quote_char (escape s) +:+ String quote_char "").
    rewrite str_rev_snoc. reflexivity. }
  assert (String.length (String quote_char (escape s +:+ quote_string)) =
          S (S (String.length (escape s)))) as ->.
  { simpl. rewrite length_app_string. simpl. lia. }
  cbn [str_starts_with quote_string]. rewrite Ascii.eqb_refl. cbn [andb negb orb Nat.ltb Nat.leb].
  replace (S (S (String.length (escape s))) - 2) with (String.length (escape s)) by lia.
  cbn [String.substring]. by rewrite substring_app, unescape_escape.
Qed.

Lemma strip_plain p q :
  str_all (λ c, negb (Ascii.eqb c quote_char) && negb (Ascii.eqb c "#")) p = true →
  strip_loop false false (p +:+ q) =
  (p +:+ (strip_loop false false q).1, (strip_loop false false q).2).
Proof.
  induction p as [|c p IH]; intros H; [apply surjective_pairing|].
  cbn [str_all] in H. apply andb_true_iff in H as [[H1 H2]%andb_true_iff H].
  apply negb_true_iff in H1, H2. cbn [String.append strip_loop]. rewrite H1, H2, IH by done. done.
Qed.

Lemma strip_escaped s q :
  strip_loop true false (escape s +:+ quote_string +:+ q) =
  (escape s +:+ quote_string +:+ (strip_loop false false q).1, (strip_loop false false q).2).
Proof.
  induction s as [|c s IH].
  { simpl. by destruct (strip_loop false false q). }
  cbn [escape]. destruct (Ascii.eqb c quote_char || Ascii.eqb c backslash) eqn:E.
  { cbn [String.append strip_loop]. rewrite Ascii.eqb_refl. by rewrite IH. }
  apply orb_false_iff in E as [Hq Hb].
  destruct (Ascii.eqb c "010");
    [cbn [String.append strip_loop]; rewrite Ascii.eqb_refl; by rewrite IH|].
  destruct (Ascii.eqb c "013");
    [cbn [String.append strip_loop]; rewrite Ascii.eqb_refl; by rewrite IH|].
  cbn [String.append strip_loop]. rewrite Hb, Hq. by rewrite IH.
Qed.

Lemma strip_quote s q :
  strip_loop false false (quote s +:+ q) =
  (quote s +:+ (strip_loop false false q).1, (strip_loop false false q).2).
Proof.
  unfold quote. cbn [String.append strip_loop]. rewrite Ascii.eqb_refl, str_app_assoc, strip_escaped.
  by rewrite <-str_app_assoc.
Qed.

Lemma inline_escape s : inline (escape s) = true.
Proof.
  unfold inline. induction s as [|c s IH]; [done|]. cbn [escape].
  destruct (Ascii.eqb c quote_char || Ascii.eqb c backslash) eqn:E.
  { cbn [str_all]. rewrite IH.
    apply orb_true_iff in E as [->%Ascii.eqb_eq| ->%Ascii.eqb_eq]; reflexivity. }
  destruct (Ascii.eqb c "010") eqn:E1; [cbn [str_all]; by rewrite IH|].
  destruct (Ascii.eqb c "013") eqn:E2; [cbn [str_all]; by rewrite IH|].
  cbn [str_all]. rewrite IH. unfold inline_char. by rewrite E1, E2.
Qed.

Lemma solid_quote s : solid (quote s).
Proof.
  exists quote_char, (escape s +:+ quote_string), quote_char, (String quote_char (escape s)).
  unfold quote, quote_string. by split_and!.
Qed.

Lemma digit_value_char d : (d < 10)%N → digit_value (pretty_N_char d) = Some d.
Proof.
  intros Hd. assert (d = 0 ∨ d = 1 ∨ d = 2 ∨ d = 3 ∨ d = 4 ∨ d = 5 ∨ d = 6 ∨ d = 7 ∨ d = 8 ∨ d = 9)%N
    as H by lia. repeat (destruct H as [->|H]; [done|]). by subst d.
Qed.

Lemma parse_pretty_go n s :
  (n ≤ u32_MAX)%N → parse_digits 0 (pretty_N_go n s) = parse_digits n s.
Proof.
  revert s. induction (N.lt_wf_0 n) as [n _ IH]; intros s Hn.
  destruct (decide (n = 0)%N) as [->|]; [by rewrite pretty_N_go_0|].
  rewrite pretty_N_go_step by lia.
  pose proof (N.div_lt n 10 ltac:(lia) ltac:(lia)) as Hlt.
  rewrite IH by (unfold u32_MAX in *; lia). cbn [parse_digits].
  rewrite digit_value_char by (apply N.mod_lt; lia).
  replace (n / 10 * 10 + n mod 10)%N with n by (pose proof (N.div_mod n 10 ltac:(lia)); lia).
  by destruct (N.leb_spec n u32_MAX); [|lia].
Qed.

Definition is_digit (c : ascii) : bool :=
  match digit_value c with Some _ => true | None => false end.

Lemma digits_pretty_go n s :
  str_all is_digit s = true → str_all is_digit (pretty_N_go n s) = true.
Proof.
  revert s. induction (N.lt_wf_0 n) as [n _ IH]; intros s Hs.
  destruct (decide (n = 0)%N) as [->|]; [by rewrite pretty_N_go_0|].
  rewrite pretty_N_go_step by lia. apply IH; [apply N.div_lt; lia|]. cbn [str_all].
  unfold is_digit. by rewrite digit_value_char by (apply N.mod_lt; lia).
Qed.

Lemma digits_fmt_N n : str_all is_digit (fmt_N n) = true ∧ fmt_N n ≠ "".
Proof.
  unfold fmt_N, pretty, pretty_N. destruct (decide (n = 0)%N) as [->|Hn]; [done|].
  split; [by apply digits_pretty_go|].
  rewrite pretty_N_go_step by lia.
  assert (∀ n s, s ≠ "" → pretty_N_go n s ≠ "") as H'; [|by apply H'].
  clear. intros n. induction (N.lt_wf_0 n) as [n _ IH]; intros s Hs.
  destruct (decide (n = 0)%N) as [->|]; [by rewrite pretty_N_go_0|].
  rewrite pretty_N_go_step by lia. apply IH; [apply N.div_lt; lia|done].
Qed.

Lemma str_all_impl f g s : (∀ c, f c = true → g c = true) → str_all f s = true → str_all g s = true.
Proof.
  intros H. induction s as [|c s IH]; [done|]. simpl. rewrite !andb_true_iff. intros [? ?]. auto.
Qed.

Lemma digit_code c : is_digit c = true → (48 <= N_of_ascii c <= 57)%N.
Proof.
  unfold is_digit, digit_value.
  destruct (N.leb_spec 48 (N_of_ascii c)), (N.leb_spec (N_of_ascii c) 57); done || lia.
Qed.

Lemma digit_not c d : is_digit c = true → is_digit d = false → Ascii.eqb c d = false.
Proof. intros Hc Hd. apply Ascii.eqb_neq. congruence. Qed.

Lemma solid_fmt_N n : solid (fmt_N n).
Proof.
  destruct (digits_fmt_N n) as [H Hne]. apply solid_all; [done|].
  revert H. apply str_all_impl. intros c Hc%digit_code. unfold is_whitespace.
  destruct (N.leb_spec 9 (N_of_ascii c)), (N.leb_spec (N_of_ascii c) 13),
    (N.eqb_spec (N_of_ascii c) 32); simpl; lia || done.
Qed.

Lemma parse_u32_fmt_N n : (n ≤ u32_MAX)%N → parse_u32 (fmt_N n) = Ok n.
Proof.
  intros Hn. destruct (digits_fmt_N n) as [Hd Hne].
  assert (parse_digits 0 (fmt_N n) = Ok n) as Hp.
  { unfold fmt_N, pretty, pretty_N. destruct (decide (n = 0)%N) as [->|]; [done|].
    by rewrite parse_pretty_go. }
  unfold parse_u32. destruct (fmt_N n) as [|c s]; [done|].
  cbn [str_all] in Hd. apply andb_true_iff in Hd as [Hc _]. rewrite <-Hp.
  destruct c as [[] [] [] [] [] [] [] []]; try reflexivity; discriminate Hc.
Qed.

Lemma plain_fmt_N n :
  str_all (λ c, negb (Ascii.eqb c quote_char) && negb (Ascii.eqb c "#")) (fmt_N n) = true ∧
  inline (fmt_N n) = true.
Proof.
  destruct (digits_fmt_N n) as [H _]. split; revert H; apply str_all_impl; intros c Hc.
  - by rewrite !(digit_not c).
  - unfold inline_char. by rewrite !(digit_not c).
Qed.

(** ** Documents

    A document is settings, each with a comment, at the root or under [[workflow]], and then
    workflow steps. *)

Inductive setting : Type :=
  | SetTemplate (name : string)
  | SetStrategy (b : bool)
  | SetReview (b : bool)
  | SetIterations (n : N)
  | SetAutofix (n : N).

Definition key_of (st : setting) : string :=
  match st with
  | SetTemplate _ => "template"
  | SetStrategy _ => "has_strategy"
  | SetReview _ => "has_review"
  | SetIterations _ => "max_iterations"
  | SetAutofix _ => "max_autofix_attempts"
  end.

Definition bool_text (b : bool) : string := if b then "true" else "false".

Definition value_text (st : setting) : string :=
  match st with
  | SetTemplate name => quote name
  | SetStrategy b | SetReview b => bool_text b
  | SetIterations n | SetAutofix n => fmt_N n
  end.

Definition setting_fits (st : setting) : Prop :=
  match st with SetIterations n | SetAutofix n => (n ≤ u32_MAX)%N | _ => True end.

Definition render_setting (p : setting * string) : string :=
  (key_of p.1 +:+ " = " +:+ value_text p.1) +:+ " #" +:+ p.2.

Definition render_step (name : string) : list string :=
  ["[[workflow.steps]]"; "name = " +:+ quote name].

Definition document_lines (header : bool) (settings : list (setting * string))
    (steps : list string) : list string :=
  (if header then ["[workflow]"] else []) ++ (render_setting <$> settings) ++
  (steps ≫= render_step).

Definition document header settings steps : string :=
  str_join newline (document_lines header settings steps).

Definition apply_setting (st : setting) (w : WorkflowConfigToml) : WorkflowConfigToml :=
  let '(WorkflowConfigToml.mk t s r i a) := w in
  match st with
  | SetTemplate name => WorkflowConfigToml.mk (Some name) s r i a
  | SetStrategy b => WorkflowConfigToml.mk t (Some b) r i a
  | SetReview b => WorkflowConfigToml.mk t s (Some b) i a
  | SetIterations n => WorkflowConfigToml.mk t s r (Some n) a
  | SetAutofix n => WorkflowConfigToml.mk t s r i (Some n)
  end.

Lemma solid_key st : solid (key_of st).
Proof. destruct st; (apply solid_all; [done|reflexivity]). Qed.

Lemma solid_value st : solid (value_text st).
Proof.
  destruct st as [name|[]|[]|n|n]; simpl; try apply solid_quote; try apply solid_fmt_N;
    (apply solid_all; [done|reflexivity]).
Qed.

Lemma strip_setting st comment :
  strip_loop false false (render_setting (st, comment)) =
  ((key_of st +:+ " = " +:+ value_text st) +:+ " ", false).
Proof.
  unfold render_setting. simpl fst. simpl snd. rewrite !str_app_assoc.
  assert (∀ q, strip_loop false false (value_text st +:+ q) =
    (value_text st +:+ (strip_loop false false q).1, (strip_loop false false q).2)) as Hv.
  { intros q. destruct st as [name|[]|[]|n|n]; simpl value_text; try apply strip_quote;
      apply strip_plain; try reflexivity; apply plain_fmt_N. }
  rewrite strip_plain by (by destruct st). rewrite strip_plain by done. rewrite Hv. reflexivity.
Qed.

Lemma split_setting st :
  str_split_once "=" (key_of st +:+ " = " +:+ value_text st) =
  Some (key_of st +:+ " ", " " +:+ value_text st).
Proof. by destruct st. Qed.

Lemma read_key_setting n st w :
  setting_fits st → read_key n (key_of st) (value_text st) w = Ok (apply_setting st w).
Proof.
  intros Hf. destruct w as [t s r i a]. unfold read_key.
  destruct st as [name|[]|[]|k|k]; cbn [key_of value_text apply_setting];
    repeat match goal with
    | |- context [string_eqb ?a ?b] =>
        let r := eval vm_compute in (string_eqb a b) in change (string_eqb a b) with r
    end; cbv iota beta zeta; try reflexivity.
  - by rewrite parse_toml_string_quote.
  - unfold parse_toml_u32. by rewrite parse_u32_fmt_N.
  - unfold parse_toml_u32. by rewrite parse_u32_fmt_N.
Qed.

Lemma parse_line_setting idx st comment s :
  should_read s = true → setting_fits st →
  parse_line idx (render_setting (st, comment)) s =
  Ok (ParseState.set_workflow (apply_setting st (ParseState.workflow s)) s).
Proof.
  intros Hr Hf. unfold parse_line, strip_toml_comment. rewrite strip_setting. cbn [with_line].
  pose proof (solid_app _ " = " _ (solid_key st) (solid_value st)) as Hsolid.
  rewrite (proj1 (proj2 (trim_solid _ Hsolid))).
  assert (str_is_empty (key_of st +:+ " = " +:+ value_text st) = false ∧
          str_starts_with "[[" (key_of st +:+ " = " +:+ value_text st) = false ∧
          str_starts_with "[" (key_of st +:+ " = " +:+ value_text st) = false) as (-> & -> & ->)
    by (by destruct st).
  cbn [orb]. unfold parse_key_value. rewrite split_setting.
  rewrite (proj1 (proj2 (trim_solid _ (solid_key st)))).
  rewrite (proj2 (proj2 (trim_solid _ (solid_value st)))).
  assert (str_is_empty (key_of st) = false) as -> by (by destruct st).
  assert (str_is_empty (value_text st) = false) as ->
    by (pose proof (solid_nonempty _ (solid_value st)); by destruct (value_text st)).
  cbn [orb]. rewrite Hr, read_key_setting by done. done.
Qed.

Lemma parse_line_step idx name s :
  ParseState.scope s = WorkflowTomlScope.WorkflowStep →
  parse_line idx ("name = " +:+ quote name) s = Ok (ParseState.step_name name s).
Proof.
  intros Hs. unfold parse_line, strip_toml_comment.
  rewrite strip_plain by done. rewrite <-(str_app_nil (quote name)), strip_quote. cbn [strip_loop fst snd with_line].
  rewrite !str_app_nil.
  assert (solid ("name = " +:+ quote name)) as Hsolid.
  { change ("name = " +:+ quote name) with ("name" +:+ " = " +:+ quote name).
    apply solid_app; [by apply solid_all|apply solid_quote]. }
  rewrite (proj1 (trim_solid _ Hsolid)).
  assert (str_is_empty ("name = " +:+ quote name) = false ∧
          str_starts_with "[[" ("name = " +:+ quote name) = false ∧
          str_starts_with "[" ("name = " +:+ quote name) = false) as (-> & -> & ->) by done.
  cbn [orb]. unfold parse_key_value.
  change (str_split_once "=" ("name = " +:+ quote name)) with (Some ("name ", " " +:+ quote name)).
  cbv iota beta zeta.
  change (trim "name ") with "name".
  rewrite (proj2 (proj2 (trim_solid _ (solid_quote name)))).
  change (str_is_empty "name" || str_is_empty (quote name)) with false. cbv iota.
  assert (should_read s = false) as ->
    by (unfold should_read; rewrite Hs; by destruct (ParseState.saw_workflow_table s)).
  rewrite Hs, bool_decide_eq_true_2 by done. change (string_eqb "name" "name") with true.
  cbn [andb]. by rewrite parse_toml_string_quote.
Qed.

Lemma parse_lines_app idx l1 l2 s :
  parse_lines idx (l1 ++ l2) s =
  let? s' := parse_lines idx l1 s in parse_lines (idx + length l1) l2 s'.
Proof.
  revert idx s. induction l1 as [|l l1 IH]; intros idx s; simpl; [by rewrite Nat.add_0_r|].
  destruct (parse_line idx l s) as [s'|]; [|done]. rewrite IH.
  by replace (S idx + length l1) with (idx + S (length l1)) by lia.
Qed.

Lemma parse_settings idx settings s :
  should_read s = true → Forall (λ p, setting_fits p.1) settings →
  parse_lines idx (render_setting <$> settings) s =
  Ok (ParseState.set_workflow
        (foldl (λ w p, apply_setting p.1 w) (ParseState.workflow s) settings) s).
Proof.
  intros Hr Hf. revert idx s Hr. induction Hf as [|[st comment] settings Hst _ IH]; intros idx s Hr.
  { by destruct s. }
  cbn [fmap list_fmap parse_lines]. rewrite parse_line_setting by done.
  change (list_fmap _ _ render_setting settings) with (render_setting <$> settings).
  by rewrite IH.
Qed.

Lemma parse_steps idx steps s :
  let s' := foldl (λ s name, ParseState.step_name name
                     (ParseState.enter WorkflowTomlScope.WorkflowStep s)) s steps in
  parse_lines idx (steps ≫= render_step) s = Ok s'.
Proof.
  cbv zeta. revert idx s. induction steps as [|name steps IH]; intros idx s; [done|].
  rewrite bind_cons, parse_lines_app. unfold render_step at 1. cbn [parse_lines].
  change (parse_line idx "[[workflow.steps]]" s)
    with (@Ok _ string (ParseState.enter WorkflowTomlScope.WorkflowStep s)).
  cbv beta iota. rewrite parse_line_step by done. cbv beta iota. by rewrite IH.
Qed.

Lemma foldl_steps steps s :
  let s' := foldl (λ s name, ParseState.step_name name
                     (ParseState.enter WorkflowTomlScope.WorkflowStep s)) s steps in
  ParseState.workflow s' = ParseState.workflow s ∧
  ParseState.saw_workflow_steps s' =
    (ParseState.saw_workflow_steps s || negb (bool_decide (steps = []))) ∧
  ParseState.steps_have_strategy s' =
    (ParseState.steps_have_strategy s || bool_decide ("strategy" ∈ steps)) ∧
  ParseState.steps_have_review s' =
    (ParseState.steps_have_review s || bool_decide ("review" ∈ steps)).
Proof.
  cbv zeta. revert s. induction steps as [|name steps IH]; intros s.
  { simpl. by rewrite !orb_false_r. }
  cbn [foldl]. specialize (IH (ParseState.step_name name (ParseState.enter WorkflowTomlScope.WorkflowStep s))).
  destruct IH as (-> & -> & -> & ->). simpl.
  assert (∀ n : string, string_eqb name n || bool_decide (n ∈ steps) =
                        bool_decide (n ∈ name :: steps)) as Hn.
  { intros n. unfold string_eqb. apply eq_true_iff_eq.
    rewrite orb_true_iff, !bool_decide_eq_true, elem_of_cons. naive_solver. }
  split_and!; [done| | |].
  - by rewrite orb_true_r.
  - by rewrite <-orb_assoc, Hn.
  - by rewrite <-orb_assoc, Hn.
Qed.

(** The last value a list of settings gives. *)
Definition last_value {A} (f : setting → option A) (settings : list (setting * string)) : option A :=
  last (omap (λ p, f p.1) settings).

Definition template_of (st : setting) : option string :=
  match st with SetTemplate t => Some t | _ => None end.
Definition strategy_of (st : setting) : option bool :=
  match st with SetStrategy b => Some b | _ => None end.
Definition review_of (st : setting) : option bool :=
  match st with SetReview b => Some b | _ => None end.
Definition iterations_of (st : setting) : option N :=
  match st with SetIterations n => Some n | _ => None end.
Definition autofix_of (st : setting) : option N :=
  match st with SetAutofix n => Some n | _ => None end.

Lemma last_value_snoc {A} (f : setting → option A) settings p :
  last_value f (settings ++ [p]) = opt_or (f p.1) (last_value f settings).
Proof.
  unfold last_value. rewrite omap_app. simpl. destruct (f p.1); simpl; [by rewrite last_snoc|].
  by rewrite app_nil_r.
Qed.

Lemma foldl_settings settings :
  foldl (λ w p, apply_setting p.1 w) (ParseState.workflow ParseState.init) settings =
  WorkflowConfigToml.mk (last_value template_of settings) (last_value strategy_of settings)
    (last_value review_of settings) (last_value iterations_of settings)
    (last_value autofix_of settings).
Proof.
  induction settings as [|p settings IH] using rev_ind; [done|].
  rewrite foldl_app, IH, !last_value_snoc. by destruct p as [[] ?].
Qed.

Lemma inline_setting st comment :
  inline comment = true → inline (render_setting (st, comment)) = true.
Proof.
  intros Hc. unfold render_setting, inline in *. cbn [fst snd]. rewrite !str_all_app, Hc.
  assert (str_all inline_char (value_text st) = true) as ->.
  { destruct st as [name|[]|[]|n|n]; try reflexivity; try apply plain_fmt_N.
    cbn [value_text]. unfold quote. cbn [str_all]. rewrite str_all_app.
    change (str_all inline_char (escape name)) with (inline (escape name)).
    by rewrite inline_escape. }
  by destruct st.
Qed.

Lemma document_lines_ok header settings steps :
  Forall (λ p, inline p.2 = true) settings →
  Forall (λ l, inline l = true ∧ l ≠ "") (document_lines header settings steps).
Proof.
  intros Hc. unfold document_lines. apply Forall_app. split; [by destruct header; repeat constructor|].
  apply Forall_app. split.
  - apply Forall_fmap. eapply Forall_impl; [exact Hc|]. intros [st comment] H. simpl in *. split.
    + by apply inline_setting.
    + by destruct st.
  - apply Forall_forall. intros l (name & Hl & _)%list_elem_of_bind.
    apply elem_of_cons in Hl as [->|Hl%list_elem_of_singleton]; [done|]. subst l. split; [|done].
    unfold quote, inline. rewrite str_all_app. cbn [str_all]. rewrite str_all_app.
    change (str_all inline_char (escape name)) with (inline (escape name)). by rewrite inline_escape.
Qed.

(** C30: Reading a configuration document gives what the document says: the last template
    names the preset, an unknown one being refused; the last value of every other key
    overrides the preset, whether the keys stand at the root or under a workflow table; a
    phase neither set nor ruled out is inferred from the names of the steps when there are
    any; quotes, backslashes, line ends and number signs inside strings survive, and comments
    are ignored. *)
Theorem from_toml_str_document header settings steps :
  Forall (λ p, setting_fits p.1 ∧ inline p.2 = true) settings →
  from_toml_str (document header settings steps) =
  (let? config := template_config (last_value template_of settings) in
   let inferred name := if decide (steps = []) then None else Some (bool_decide (name ∈ steps)) in
   Ok (WorkflowConfig.mk
         (default (WorkflowConfig.has_strategy config)
            (opt_or (last_value strategy_of settings) (inferred "strategy")))
         (default (WorkflowConfig.has_review config)
            (opt_or (last_value review_of settings) (inferred "review")))
         (default (WorkflowConfig.max_iterations config) (last_value iterations_of settings))
         (default (WorkflowConfig.max_autofix_attempts config) (last_value autofix_of settings)))).
Proof.
  intros Hall. apply Forall_and in Hall as [Hfit Hin].
  unfold from_toml_str, parse_workflow_config_toml, document.
  rewrite lines_join by (by apply document_lines_ok). unfold document_lines.
  rewrite parse_lines_app.
  set (s0 := if header then ParseState.enter WorkflowTomlScope.Workflow ParseState.init
             else ParseState.init).
  assert (parse_lines 0 (if header then ["[workflow]"] else []) ParseState.init = Ok s0) as ->
    by (by destruct header).
  assert (should_read s0 = true) as Hread by (by destruct header).
  rewrite parse_lines_app, parse_settings by done.
  assert (ParseState.workflow s0 = ParseState.workflow ParseState.init) as -> by (by destruct header).
  rewrite foldl_settings, parse_steps.
  set (s1 := ParseState.set_workflow _ s0).
  pose proof (foldl_steps steps s1) as Hs. cbv zeta in Hs.
  set (s2 := foldl _ s1 steps) in *. destruct Hs as (Ew & Esteps & Estrat & Erev).
  assert (ParseState.saw_workflow_steps s1 = false ∧ ParseState.steps_have_strategy s1 = false ∧
          ParseState.steps_have_review s1 = false) as (E1 & E2 & E3) by (by destruct header).
  rewrite Ew, Esteps, Estrat, Erev, E1, E2, E3. cbn [orb negb].
  destruct (decide (steps = [])) as [->|Hne].
  - simpl. destruct (template_config _); [|done].
    by destruct (last_value strategy_of settings), (last_value review_of settings).
  - rewrite bool_decide_eq_false_2 by done. simpl. by destruct (template_config _).
Qed.

Lemma from_toml_str_document_witness :
  let settings := [(SetTemplate "full", " the # of a comment"); (SetIterations 5, "")] in
  from_toml_str (document true settings ["implement"; "review"]) =
    Ok (WorkflowConfig.mk false true 5 2).
Proof.
  cbv zeta. rewrite from_toml_str_document; [vm_compute; reflexivity|].
  repeat constructor; (apply (bool_decide_unpack _); vm_compute; exact I) || reflexivity.
Defined.

(** *** What the reader lets pass *)

Definition q (s : string) : string := quote_string +:+ s +:+ quote_string.

(** Keys of the root count even when a workflow table follows, unless it sets them again. *)
Lemma root_keys_count :
  from_toml_str (str_join newline ["max_iterations = 9"; "[workflow]"; "template = " +:+ q "express"]) =
  Ok (WorkflowConfig.mk false false 9 1).
Proof. vm_compute. reflexivity. Qed.

(** A string may contain unescaped quotes, and trailing text after a bracket is taken for an
    unterminated header only when the line does not end in one. *)
Lemma inner_quotes_pass :
  parse_toml_string (q ("a" +:+ quote_string +:+ "b")) 1 = Ok ("a" +:+ quote_string +:+ "b").
Proof. vm_compute. reflexivity. Qed.
