(* ===== verification/Collusion.v ===== *)
(** * Collusion rings (crates/roko-chain/src/collusion.rs)

    The pairs of agents that assign jobs to each other, and the maximal cliques among
    them, found by the Bron-Kerbosch search with pivots. *)

From S2P Require Import Prelude.

(** ** Sets of the standard library *)

(** [a.union(&b)] chains the larger set with what the smaller one adds. *)
Definition hash_union {HI : HashIter} (a b : gset N) : list N :=
  let chain a b := hash_set_iter a ++ List.filter (λ v, bool_decide (v ∉ a)) (hash_set_iter b) in
  if size b <=? size a then chain a b else chain b a.

(** [a.difference(&b)] *)
Definition hash_difference {HI : HashIter} (a b : gset N) : list N :=
  List.filter (λ v, bool_decide (v ∉ b)) (hash_set_iter a).

(** [iter.max_by_key(f)]: the last of the greatest elements. *)
Definition max_by_key {A} (f : A → nat) (l : list A) : option A :=
  foldl (λ best x,
           match best with
           | None => Some x
           | Some y => if f y <=? f x then Some x else Some y
           end) None l.

(** [v.sort_unstable()] of integers. *)
Definition sort_ids (l : list N) : list N := sort_by N.leb l.

(** ** Data *)

Module AssignmentEdge.
Record t : Type := mk { from : N; to : N; block : N }.
End AssignmentEdge.
Abbreviation AssignmentEdge := AssignmentEdge.t.

Module CollusionConfig.
Record t : Type := mk {
  mutual_ratio_threshold : F64.t;
  min_assignments_per_pair : N;
  min_clique_size : nat;
  lookback_blocks : N;
}.

Definition default : t := mk (F64.lit 1 2) 3 3 0.
End CollusionConfig.
Abbreviation CollusionConfig := CollusionConfig.t.

Module CollusionRing.
Record t : Type := mk { members : list N; size : nat }.
End CollusionRing.
Abbreviation CollusionRing := CollusionRing.t.

Module CollusionReport.
Record t : Type := mk {
  rings : list CollusionRing;
  suspicious_pairs : nat;
  agents_analyzed : nat;
  assignments_analyzed : nat;
}.
End CollusionReport.
Abbreviation CollusionReport := CollusionReport.t.

(** ** The clique search *)

Abbreviation adjacency := (gmap N (gset N)).

Section Search.
Context {HI : HashIter}.
Implicit Types (r p x : gset N) (adj : adjacency).

(** [adj.get(&v).cloned().unwrap_or_default()] *)
Definition neighbors adj (v : N) : gset N := default ∅ (adj !! v).

Definition ring_of r : CollusionRing :=
  let members := sort_ids (hash_set_iter r) in
  CollusionRing.mk members (length members).

Definition pick_pivot adj p x : option N :=
  max_by_key
    (λ v, match adj !! v with Some neighbors => size (p ∩ neighbors) | None => 0 end)
    (hash_union p x).

(** One pass of the loop over the candidates, which moves the candidate from [p] to [x]. *)
Definition branch (search : gset N → gset N → gset N → list CollusionRing → list CollusionRing)
    adj r (s : gset N * gset N * list CollusionRing) (v : N) :
    gset N * gset N * list CollusionRing :=
  let '(p, x, results) := s in
  let v_neighbors := neighbors adj v in
  let results := search ({[v]} ∪ r) (p ∩ v_neighbors) (x ∩ v_neighbors) results in
  (p ∖ {[v]}, {[v]} ∪ x, results).

(** Every call of the search has a smaller [p], whose size bounds the depth. *)
Fixpoint bron_kerbosch (fuel : nat) r p x adj (min_size : nat) (results : list CollusionRing) :
    list CollusionRing :=
  match fuel with
  | O => results
  | S fuel' =>
      if decide (p = ∅ ∧ x = ∅) then
        if min_size <=? size r then results ++ [ring_of r] else results
      else
        match pick_pivot adj p x with
        | None => results
        | Some pivot =>
            let candidates := hash_difference p (neighbors adj pivot) in
            (foldl (branch (λ r p x results, bron_kerbosch fuel' r p x adj min_size results) adj r)
               (p, x, results) candidates).2
        end
  end.

Definition find_cliques adj (min_size : nat) : list CollusionRing :=
  let all_vertices := dom adj in
  bron_kerbosch (S (size all_vertices)) ∅ all_vertices ∅ adj min_size [].
End Search.

(** ** The detector *)

Module CollusionDetector.
Record t : Type := mk { config : CollusionConfig; edges : list AssignmentEdge }.

Definition new (config : CollusionConfig) : t := mk config [].
Definition default : t := new CollusionConfig.default.
Definition record_assignment (edge : AssignmentEdge) (d : t) : t :=
  mk (config d) (edges d ++ [edge]).
Definition assignment_count (d : t) : nat := length (edges d).

(** The block of the newest assignment. *)
Definition current_block (edges : list AssignmentEdge) : N :=
  foldr N.max 0%N (AssignmentEdge.block <$> edges).

Definition active (d : t) : list AssignmentEdge :=
  let lookback := CollusionConfig.lookback_blocks (config d) in
  if (0 <? lookback)%N then
    let min_block := sat_sub (current_block (edges d)) lookback in
    List.filter (λ e, min_block <=? AssignmentEdge.block e)%N (edges d)
  else edges d.

Definition count_pairs (active : list AssignmentEdge) : gmap (N * N) N :=
  foldl (λ pair_counts e,
           let key := (AssignmentEdge.from e, AssignmentEdge.to e) in
           <[key := add32 (stdpp.option.default 0%N (pair_counts !! key)) 1]> pair_counts) ∅ active.

Definition all_agents (active : list AssignmentEdge) : gset N :=
  foldl (λ agents e, {[AssignmentEdge.to e]} ∪ ({[AssignmentEdge.from e]} ∪ agents)) ∅ active.

(** The tests on one entry of the counts. *)
Definition entry_suspicious (config : CollusionConfig) (pair_counts : gmap (N * N) N)
    (entry : N * N * N) : bool :=
  let '((a, b), count_ab) := entry in
  if (b <=? a)%N then false
  else
    let count_ba := stdpp.option.default 0%N (pair_counts !! (b, a)) in
    let total := add32 count_ab count_ba in
    let min_count := N.min count_ab count_ba in
    let max_count := N.max count_ab count_ba in
    if (total <? CollusionConfig.min_assignments_per_pair config)%N then false
    else if (0 <? max_count)%N then
      let ratio := F64.div (F64.of_N min_count) (F64.of_N max_count) in
      F64.ge ratio (CollusionConfig.mutual_ratio_threshold config)
    else false.

Section Detect.
Context {HI : HashIter}.

Definition suspicious (config : CollusionConfig) (pair_counts : gmap (N * N) N) : gset (N * N) :=
  foldl (λ found entry,
           if entry_suspicious config pair_counts entry then
             let '((a, b), _) := entry in {[(N.min a b, N.max a b)]} ∪ found
           else found) ∅ (hash_iter pair_counts).

(** [adjacency.entry(a).or_default().insert(b)] *)
Definition add_neighbor (a b : N) (adj : adjacency) : adjacency :=
  <[a := {[b]} ∪ neighbors adj a]> adj.

Definition build_adjacency (suspicious : gset (N * N)) : adjacency :=
  foldl (λ adj '(a, b), add_neighbor b a (add_neighbor a b adj)) ∅ (hash_set_iter suspicious).

Definition detect (d : t) : CollusionReport :=
  let active := active d in
  let suspicious := suspicious (config d) (count_pairs active) in
  CollusionReport.mk
    (find_cliques (build_adjacency suspicious) (CollusionConfig.min_clique_size (config d)))
    (size suspicious) (size (all_agents active)) (length active).
End Detect.
End CollusionDetector.
Abbreviation CollusionDetector := CollusionDetector.t.
Module CD := CollusionDetector.

(** ** What the search finds *)

Lemma hash_set_iter_NoDup {HI : HashIter} (X : gset N) : NoDup (hash_set_iter X).
Proof. rewrite hash_set_iter_perm. apply NoDup_elements. Qed.

Lemma elem_of_hash_union {HI : HashIter} (a b : gset N) v : v ∈ hash_union a b ↔ v ∈ a ∪ b.
Proof.
  unfold hash_union. destruct (_ <=? _);
    rewrite elem_of_app, elem_of_list_filter_bool, !elem_of_hash_set_iter, bool_decide_eq_true;
    destruct (decide (v ∈ a)), (decide (v ∈ b)); set_solver.
Qed.

Lemma elem_of_hash_difference {HI : HashIter} (a b : gset N) v :
  v ∈ hash_difference a b ↔ v ∈ a ∧ v ∉ b.
Proof.
  unfold hash_difference.
  rewrite elem_of_list_filter_bool, elem_of_hash_set_iter, bool_decide_eq_true. tauto.
Qed.

Lemma hash_difference_NoDup {HI : HashIter} (a b : gset N) : NoDup (hash_difference a b).
Proof. apply NoDup_filter_bool, hash_set_iter_NoDup. Qed.

Lemma max_by_key_elem {A} (f : A → nat) l :
  match max_by_key f l with Some x => x ∈ l | None => l = [] end.
Proof.
  unfold max_by_key. induction l as [|x l IH] using rev_ind; [done|].
  rewrite foldl_snoc. destruct (foldl _ None l) as [y|]; [destruct (_ <=? _)|]; set_solver.
Qed.

Lemma ring_of_inj {HI : HashIter} r r' : ring_of r = ring_of r' → r = r'.
Proof.
  unfold ring_of. intros [= Hm _]. apply set_eq. intros v.
  rewrite <-(elem_of_hash_set_iter r), <-(elem_of_hash_set_iter r').
  rewrite <-(elem_of_sort_by N.leb _ (hash_set_iter r)), <-(elem_of_sort_by N.leb _ (hash_set_iter r')).
  unfold sort_ids in Hm. by rewrite Hm.
Qed.

(** A list of rings that has exactly the sets with a property, each once. *)
Definition enumerates {HI : HashIter} (out : list CollusionRing) (P : gset N → Prop) : Prop :=
  NoDup out ∧ ∀ ring, ring ∈ out ↔ ∃ r, P r ∧ ring = ring_of r.

Lemma enumerates_nil {HI : HashIter} (P : gset N → Prop) : (∀ r, ¬ P r) → enumerates [] P.
Proof. intros H. split; [constructor|]. intros ring. rewrite elem_of_nil. naive_solver. Qed.

Lemma enumerates_one {HI : HashIter} r (P : gset N → Prop) :
  (∀ r', P r' ↔ r' = r) → enumerates [ring_of r] P.
Proof.
  intros H. split; [apply NoDup_singleton|]. intros ring. rewrite list_elem_of_singleton.
  split; [|by intros (r' & ->%H & ->)]. intros ->. exists r. split; [by apply H|done].
Qed.

Lemma enumerates_app {HI : HashIter} out1 out2 (P1 P2 P : gset N → Prop) :
  enumerates out1 P1 → enumerates out2 P2 → (∀ r, P r ↔ P1 r ∨ P2 r) → (∀ r, P1 r → ¬ P2 r) →
  enumerates (out1 ++ out2) P.
Proof.
  intros [N1 E1] [N2 E2] HP Hd. split.
  - apply NoDup_app. split_and!; [done| |done]. intros ring (r & Hr & ->)%E1 (r' & Hr' & E)%E2.
    apply ring_of_inj in E as ->. by eapply Hd.
  - intros ring. rewrite elem_of_app, E1, E2. setoid_rewrite HP. naive_solver.
Qed.

Lemma enumerates_iff {HI : HashIter} out (P Q : gset N → Prop) :
  (∀ r, P r ↔ Q r) → enumerates out P → enumerates out Q.
Proof. intros H [N E]. split; [done|]. intros ring. rewrite E. by setoid_rewrite H. Qed.

Section Cliques.
Context {HI : HashIter} (adj : adjacency).
Implicit Types (r p x C : gset N).

(** Neighbourhood is symmetric and nobody is its own neighbour. *)
Definition undirected : Prop :=
  (∀ u v, v ∈ neighbors adj u → u ∈ neighbors adj v) ∧ ∀ u, u ∉ neighbors adj u.

Definition clique C : Prop := ∀ u v, u ∈ C → v ∈ C → u ≠ v → v ∈ neighbors adj u.

Definition maximal_clique C : Prop :=
  clique C ∧ C ⊆ dom adj ∧ ∀ D, clique D → D ⊆ dom adj → C ⊆ D → D = C.

(** [u] is a neighbour of all of [C]. *)
Definition extends C (u : N) : Prop := ∀ c, c ∈ C → c ∈ neighbors adj u.

Lemma neighbors_dom u v : v ∈ neighbors adj u → u ∈ dom adj.
Proof. unfold neighbors. rewrite elem_of_dom. destruct (adj !! u); set_solver. Qed.

Hypothesis Hund : undirected.

Lemma extends_fresh C u : extends C u → u ∉ C.
Proof. intros H Hu. by apply (proj2 Hund u), H. Qed.

(** A clique is maximal when nothing extends it. *)
Lemma maximal_iff C :
  maximal_clique C ↔ clique C ∧ C ⊆ dom adj ∧ ∀ u, u ∈ dom adj → ¬ extends C u.
Proof.
  split; intros (Hc & Hd & Hmax); split_and!; try done.
  - intros u Hu He. apply (extends_fresh C u He). rewrite <-(Hmax ({[u]} ∪ C)); [set_solver| |set_solver|set_solver].
    intros a b Ha%elem_of_union Hb%elem_of_union Hne. rewrite !elem_of_singleton in *.
    destruct Ha as [->|Ha], Hb as [->|Hb]; [done|by apply He| |by apply Hc].
    by apply (proj1 Hund), He.
  - intros D HcD HdD HCD. apply set_eq. intros u. split; [|apply HCD]. intros Hu.
    destruct (decide (u ∈ C)) as [|Hn]; [done|]. exfalso. apply (Hmax u (HdD _ Hu)).
    intros c Hcc. apply HcD; [done|by apply HCD|]. by intros ->.
Qed.

(** What a call of the search is responsible for. *)
Definition target (min_size : nat) r p C : Prop :=
  maximal_clique C ∧ min_size ≤ size C ∧ r ⊆ C ∧ C ⊆ r ∪ p.

(** What a call may rely on: [p] and [x] are together the nodes that extend [r]. *)
Record search_inv r p x : Prop := {
  inv_clique : clique r;
  inv_dom : r ⊆ dom adj;
  inv_extends u : u ∈ p ∪ x ↔ u ∈ dom adj ∧ extends r u;
  inv_disjoint : p ## x;
}.

Lemma inv_candidate r p x v : search_inv r p x → v ∈ p → v ∈ dom adj ∧ extends r v ∧ v ∉ r.
Proof.
  intros H Hv. destruct (proj1 (inv_extends _ _ _ H v)) as [Hd He]; [set_solver|].
  split_and!; [done..|]. by apply extends_fresh.
Qed.

Lemma inv_choose r p x v :
  search_inv r p x → v ∈ p →
  search_inv ({[v]} ∪ r) (p ∩ neighbors adj v) (x ∩ neighbors adj v).
Proof.
  intros H Hv. destruct (inv_candidate r p x v H Hv) as (Hd & He & Hn).
  destruct H as [Hc Hr Hx Hdis]. destruct Hund as [Hsym Hirr]. split.
  - intros a b [->%elem_of_singleton|Ha]%elem_of_union [->%elem_of_singleton|Hb]%elem_of_union Hne;
      [done|by apply He|by apply Hsym, He|by apply Hc].
  - set_solver.
  - intros u. split.
    + intros Hu. destruct (proj1 (Hx u)) as [Hdu Heu]; [set_solver|]. split; [done|].
      intros c [->%elem_of_singleton|Hcr]%elem_of_union; [apply Hsym; set_solver|by apply Heu].
    + intros [Hdu Heu].
      assert (u ∈ p ∪ x) as Hu by (apply Hx; split; [done|]; intros c Hcr; apply Heu; set_solver).
      assert (u ∈ neighbors adj v) by (apply Hsym, Heu; set_solver). set_solver.
  - set_solver.
Qed.

Lemma inv_discard r p x v :
  search_inv r p x → v ∈ p → search_inv r (p ∖ {[v]}) ({[v]} ∪ x).
Proof.
  intros [Hc Hr Hx Hdis] Hv. split; [done..| |set_solver].
  intros u. rewrite <-Hx. destruct (decide (u = v)); set_solver.
Qed.

Lemma target_choose m r p x v C :
  search_inv r p x → v ∈ p →
  target m ({[v]} ∪ r) (p ∩ neighbors adj v) C ↔ target m r p C ∧ v ∈ C.
Proof.
  intros H Hv. unfold target. split; intros Ht.
  - destruct Ht as (Hm & Hs & Hr & Hp). split_and!; try done; set_solver.
  - destruct Ht as [(Hm & Hs & Hr & Hp) HvC]. split_and!; try done; [set_solver|].
    intros c HcC. destruct (decide (c = v)) as [->|Hne]; [set_solver|].
    assert (c ∈ neighbors adj v) by (apply Hm; congruence || done). set_solver.
Qed.

Lemma target_discard m r p x v C :
  search_inv r p x → v ∈ p → target m r (p ∖ {[v]}) C ↔ target m r p C ∧ v ∉ C.
Proof.
  intros H Hv. destruct (inv_candidate r p x v H Hv) as (_ & _ & Hn). unfold target.
  split; intros Ht.
  - destruct Ht as (Hm & Hs & Hr & Hp). split_and!; try done; set_solver.
  - destruct Ht as [(Hm & Hs & Hr & Hp) HvC]. split_and!; try done. set_solver.
Qed.

(** A search that does its work on every [p] of less than [k] nodes. *)
Definition searches m k
    (search : gset N → gset N → gset N → list CollusionRing → list CollusionRing) : Prop :=
  ∀ r p x results, search_inv r p x → size p < k →
    ∃ out, search r p x results = results ++ out ∧ enumerates out (target m r p).

Lemma branches_spec m k search r cs p x results :
  searches m k search → search_inv r p x → size p ≤ k → NoDup cs → (∀ v, v ∈ cs → v ∈ p) →
  ∃ out, (foldl (branch search adj r) (p, x, results) cs).2 = results ++ out ∧
         enumerates out (λ C, target m r p C ∧ ∃ v, v ∈ cs ∧ v ∈ C).
Proof.
  intros Hsearch. revert p x results. induction cs as [|v cs IH]; intros p x results H Hk Hnd Hcs.
  { exists []. split; [by rewrite app_nil_r|]. apply enumerates_nil. set_solver. }
  apply NoDup_cons in Hnd as [Hv Hnd].
  assert (v ∈ p) as Hvp by (apply Hcs; left).
  destruct (Hsearch ({[v]} ∪ r) (p ∩ neighbors adj v) (x ∩ neighbors adj v) results)
    as (out1 & E1 & F1); [by apply inv_choose| |].
  { apply Nat.lt_le_trans with (size p); [|done]. apply subset_size. split; [set_solver|].
    intros Hsub. apply (proj2 Hund v). set_solver. }
  destruct (IH (p ∖ {[v]}) ({[v]} ∪ x) (results ++ out1)) as (out2 & E2 & F2);
    [by apply inv_discard| |done| |].
  { etrans; [|exact Hk]. apply subseteq_size. set_solver. }
  { intros w Hw. apply elem_of_difference. split; [apply Hcs; by right|]. set_solver. }
  exists (out1 ++ out2). split; [simpl; by rewrite E1, E2, app_assoc|].
  eapply enumerates_app; [exact F1|exact F2|..]; simpl.
  - intros C. rewrite (target_choose m r p x v C), (target_discard m r p x v C) by done.
    setoid_rewrite elem_of_cons. destruct (decide (v ∈ C)); naive_solver.
  - intros C. rewrite (target_choose m r p x v C), (target_discard m r p x v C) by done. tauto.
Qed.

(** A maximal clique avoids some neighbour of every pivot. *)
Lemma pivot_complete m r p x pivot C :
  search_inv r p x → pivot ∈ p ∪ x → target m r p C →
  ∃ v, v ∈ hash_difference p (neighbors adj pivot) ∧ v ∈ C.
Proof.
  intros H Hpiv (Hm & _ & Hr & Hp).
  destruct (proj1 (inv_extends _ _ _ H pivot) Hpiv) as [Hd He].
  apply maximal_iff in Hm as (Hc & HC & Hno).
  destruct (decide (C ∩ (p ∖ neighbors adj pivot) = ∅)) as [E|[v Hv]%set_choose_L].
  - exfalso. apply (Hno pivot Hd). intros c HcC. destruct (decide (c ∈ r)); [by apply He|].
    destruct (decide (c ∈ neighbors adj pivot)); [done|]. set_solver.
  - exists v. rewrite elem_of_hash_difference. set_solver.
Qed.

Lemma bron_kerbosch_spec m fuel :
  searches m fuel (λ r p x results, bron_kerbosch fuel r p x adj m results).
Proof.
  induction fuel as [|fuel IH]; intros r p x results H Hfuel; [lia|]. cbn [bron_kerbosch].
  destruct (decide _) as [[-> ->]|Hne].
  - assert (∀ C, target m r ∅ C ↔ C = r ∧ m ≤ size r) as Ht.
    { intros C. split.
      - intros (_ & Hs & Hr & Hp). assert (C = r) as -> by set_solver. done.
      - intros [-> Hs]. split_and!; [|done|done|set_solver]. apply maximal_iff.
        split_and!; [apply H..|]. intros u Hu He.
        assert (u ∈ (∅ : gset N) ∪ ∅) by (by apply (inv_extends _ _ _ H)). set_solver. }
    destruct (Nat.leb_spec m (size r)).
    + exists [ring_of r]. split; [done|]. apply enumerates_one. intros C. rewrite Ht. naive_solver.
    + exists []. split; [by rewrite app_nil_r|]. apply enumerates_nil. intros C. rewrite Ht. lia.
  - unfold pick_pivot. pose proof (max_by_key_elem
      (λ v, match adj !! v with Some ns => size (p ∩ ns) | None => 0 end) (hash_union p x)) as Hpiv.
    destruct (max_by_key _ _) as [pivot|].
    + apply elem_of_hash_union in Hpiv.
      destruct (branches_spec m fuel _ r (hash_difference p (neighbors adj pivot)) p x results IH H)
        as (out & E & F); [lia|apply hash_difference_NoDup|by intros v [? _]%elem_of_hash_difference|].
      exists out. split; [exact E|]. eapply enumerates_iff; [|exact F]. intros C. simpl. split; [tauto|].
      intros Ht. split; [done|]. by eapply pivot_complete.
    + exfalso. apply Hne.
      assert (∀ v, v ∉ p ∪ x) as Hv by (intros v; rewrite <-elem_of_hash_union, Hpiv; set_solver).
      split; set_solver.
Qed.

Lemma find_cliques_spec m :
  enumerates (find_cliques adj m) (λ C, maximal_clique C ∧ m ≤ size C).
Proof.
  destruct (bron_kerbosch_spec m (S (size (dom adj))) ∅ (dom adj) ∅ []) as (out & E & F); [|lia|].
  { split; [intros u v Hu; by apply elem_of_empty in Hu|set_solver| |set_solver].
    intros u. split; [|set_solver]. intros Hu.
    split; [set_solver|]. intros c Hc. by apply elem_of_empty in Hc. }
  unfold find_cliques. cbv zeta. simpl app in E. rewrite E. eapply enumerates_iff; [|exact F].
  intros C. unfold target, maximal_clique. set_solver.
Qed.
End Cliques.

(** ** What the detector reports *)

Section Detector.
Context {HI : HashIter}.
Implicit Types (config : CollusionConfig) (active : list AssignmentEdge) (a b : N).

(** How often [a] assigned a job to [b]. *)
Definition assigned active a b : nat :=
  length (List.filter (λ e, bool_decide (AssignmentEdge.from e = a ∧ AssignmentEdge.to e = b)) active).

(** Two agents assign jobs to each other often and at similar rates. *)
Definition colludes (config : CollusionConfig) active a b : Prop :=
  let ab := N.of_nat (assigned active a b) in
  let ba := N.of_nat (assigned active b a) in
  a ≠ b ∧ 0 < assigned active (N.min a b) (N.max a b) ∧
  (CollusionConfig.min_assignments_per_pair config ≤ ab + ba)%N ∧
  F64.ge (F64.div (F64.of_N (N.min ab ba)) (F64.of_N (N.max ab ba)))
    (CollusionConfig.mutual_ratio_threshold config) = true.

(** Agents that collude with somebody, and each with each other. *)
Definition collusive config active (C : gset N) : Prop :=
  (∀ a b, a ∈ C → b ∈ C → a ≠ b → colludes config active a b) ∧
  (∀ a, a ∈ C → ∃ b, colludes config active a b).

Definition maximal_collusive config active (C : gset N) : Prop :=
  collusive config active C ∧ ∀ D, collusive config active D → C ⊆ D → D = C.

Lemma colludes_sym config active a b : colludes config active a b → colludes config active b a.
Proof.
  unfold colludes. rewrite (N.min_comm b a), (N.max_comm b a). cbv zeta.
  rewrite (N.min_comm (N.of_nat (assigned active b a))), (N.max_comm (N.of_nat (assigned active b a))).
  rewrite (N.add_comm (N.of_nat (assigned active b a))). naive_solver.
Qed.

Lemma assigned_snoc active e a b :
  assigned (active ++ [e]) a b =
  assigned active a b +
  (if decide ((AssignmentEdge.from e, AssignmentEdge.to e) = (a, b)) then 1 else 0).
Proof.
  unfold assigned. rewrite List.filter_app, length_app. simpl.
  destruct (decide _) as [[= -> ->]|Hne]; case_bool_decide; naive_solver.
Qed.

Lemma assigned_length active a b :
  a ≠ b → assigned active a b + assigned active b a ≤ length active.
Proof.
  intros Hne. induction active as [|e active IH] using rev_ind; [done|].
  rewrite !assigned_snoc, length_app. simpl. repeat case_decide; simplify_eq; lia.
Qed.

Lemma count_pairs_spec active a b :
  (N.of_nat (length active) ≤ u32_MAX)%N →
  CD.count_pairs active !! (a, b) =
  (if decide (assigned active a b = 0) then None else Some (N.of_nat (assigned active a b))).
Proof.
  unfold CD.count_pairs. induction active as [|e active IH] using rev_ind; [done|].
  rewrite length_app. simpl. intros Hlen. rewrite foldl_snoc, assigned_snoc. cbv zeta.
  destruct (decide ((AssignmentEdge.from e, AssignmentEdge.to e) = (a, b))) as [[= -> ->]|Hne].
  - rewrite lookup_insert_eq, IH by lia.
    assert (assigned active a b ≤ length active) by apply List.filter_length_le.
    repeat case_decide; simpl; try lia; f_equal; rewrite add32_small; lia.
  - rewrite lookup_insert_ne, IH by (done || lia). by rewrite Nat.add_0_r.
Qed.

Lemma elem_of_suspicious_fold config (counts : gmap (N * N) N) (l : list (N * N * N)) (X : gset (N * N)) (k : N * N) :
  k ∈ foldl (λ (found : gset (N * N)) entry,
           if CD.entry_suspicious config counts entry then
             let '((a, b), _) := entry in {[(N.min a b, N.max a b)]} ∪ found
           else found) X l ↔
  k ∈ X ∨ ∃ a b n, ((a, b), n) ∈ l ∧ CD.entry_suspicious config counts ((a, b), n) = true ∧
                   k = (N.min a b, N.max a b).
Proof.
  induction l as [|[[a b] n] l IH] using rev_ind.
  { simpl. split; [by left|]. intros [|(a & b & n & []%elem_of_nil & _)]; done. }
  rewrite foldl_snoc. setoid_rewrite elem_of_app. setoid_rewrite list_elem_of_singleton.
  destruct (CD.entry_suspicious _ _ _) eqn:E; rewrite ?elem_of_union, ?elem_of_singleton, IH;
    clear IH; split.
  - intros [->|[|(a0 & b0 & n0 & ? & ? & ?)]]; [right; eauto 10|by left|right; eauto 10].
  - intros [|(a0 & b0 & n0 & [|[= -> -> ->]] & ? & ?)]; [auto|right; right; eauto 10|by left].
  - intros [|(a0 & b0 & n0 & ? & ? & ?)]; [by left|right; eauto 10].
  - intros [|(a0 & b0 & n0 & [|[= -> -> ->]] & ? & ?)]; [by left|right; eauto 10|congruence].
Qed.

Lemma elem_of_suspicious config active a b :
  (N.of_nat (length active) ≤ u32_MAX)%N →
  (a, b) ∈ CD.suspicious config (CD.count_pairs active) ↔ (a < b)%N ∧ colludes config active a b.
Proof.
  intros Hlen. unfold CD.suspicious. rewrite elem_of_suspicious_fold.
  assert (∀ a b, (a < b)%N → CD.count_pairs active !! (a, b) ≠ None →
            CD.entry_suspicious config (CD.count_pairs active)
              ((a, b), N.of_nat (assigned active a b)) = true ↔ colludes config active a b) as Hs.
  { clear a b. intros a b Hab Hsome. unfold CD.entry_suspicious, colludes.
    rewrite (proj2 (N.leb_gt b a)), (N.min_l a b), (N.max_r a b) by lia.
    rewrite count_pairs_spec in Hsome |- * by done.
    case_decide as Hz; [done|].
    assert (default 0%N (if decide (assigned active b a = 0) then None
                         else Some (N.of_nat (assigned active b a))) = N.of_nat (assigned active b a))
      as -> by (case_decide as E0; simpl; lia).
    pose proof (assigned_length active a b).
    rewrite add32_small by lia.
    destruct (N.ltb_spec (N.of_nat (assigned active a b) + N.of_nat (assigned active b a))
                (CollusionConfig.min_assignments_per_pair config)); [split; [done|lia]|].
    rewrite (proj2 (N.ltb_lt 0 _)) by lia. split; [|tauto]. intros Hge. split_and!; [lia..|done]. }
  split.
  - intros [[]%elem_of_empty|(a' & b' & n & Hin & Hsus & [= -> ->])].
    apply elem_of_hash_iter in Hin as Hl.
    assert (a' < b')%N as Hab.
    { unfold CD.entry_suspicious in Hsus. destruct (N.leb_spec b' a'); [done|lia]. }
    rewrite N.min_l, N.max_r by lia. split; [done|]. apply Hs; [done|by rewrite Hl|].
    rewrite count_pairs_spec in Hl by done. by case_decide; simplify_eq.
  - intros [Hab Hc]. right. exists a, b, (N.of_nat (assigned active a b)).
    rewrite N.min_l, N.max_r by lia.
    assert (CD.count_pairs active !! (a, b) = Some (N.of_nat (assigned active a b))) as Hl.
    { rewrite count_pairs_spec by done. destruct Hc as (_ & Hpos & _).
      rewrite N.min_l, N.max_r in Hpos by lia. by rewrite decide_False by lia. }
    split_and!; [by apply elem_of_hash_iter|by apply Hs; [|rewrite Hl|]|done].
Qed.

(** The graph the detector searches. *)
Lemma neighbors_add_neighbor a b adj u :
  neighbors (CD.add_neighbor a b adj) u =
  if decide (u = a) then {[b]} ∪ neighbors adj u else neighbors adj u.
Proof.
  unfold CD.add_neighbor, neighbors at 1. case_decide as E.
  - subst u. by rewrite lookup_insert_eq.
  - by rewrite lookup_insert_ne.
Qed.

Lemma build_adjacency_fold (l : list (N * N)) u v :
  let adj := foldl (λ adj '(a, b), CD.add_neighbor b a (CD.add_neighbor a b adj)) ∅ l in
  (v ∈ neighbors adj u ↔ (u, v) ∈ l ∨ (v, u) ∈ l) ∧
  (u ∈ dom adj → ∃ w, w ∈ neighbors adj u).
Proof.
  cbv zeta. revert u v. induction l as [|[a b] l IH] using rev_ind; intros u v.
  { unfold neighbors. simpl. rewrite lookup_empty. set_solver. }
  rewrite foldl_snoc, !neighbors_add_neighbor, !elem_of_app, !list_elem_of_singleton.
  destruct (IH u v) as [IH1 IH2]. split.
  - repeat case_decide; rewrite ?elem_of_union, ?elem_of_singleton, IH1; clear IH IH1 IH2;
      split; intros; destruct_or?; simplify_eq; auto.
  - intros Hd. repeat case_decide; [set_solver..|]. apply IH2.
    unfold CD.add_neighbor in Hd. set_solver.
Qed.

Section Reports.
Context (config : CollusionConfig) (active : list AssignmentEdge).
Hypothesis Hlen : (N.of_nat (length active) ≤ u32_MAX)%N.
Let adj : adjacency := CD.build_adjacency (CD.suspicious config (CD.count_pairs active)).

Lemma neighbors_colludes u v : v ∈ neighbors adj u ↔ colludes config active u v.
Proof using Hlen.
  unfold adj, CD.build_adjacency. rewrite (proj1 (build_adjacency_fold _ u v)).
  rewrite !elem_of_hash_set_iter, !elem_of_suspicious by done. split.
  - intros [[_ H]|[_ H]]; [done|by apply colludes_sym].
  - intros H. pose proof H as [Hne _].
    assert (u < v ∨ v < u)%N as [|] by lia; [by left|right]. split; [done|by apply colludes_sym].
Qed.

Lemma dom_colludes u : u ∈ dom adj ↔ ∃ v, colludes config active u v.
Proof using Hlen.
  split.
  - intros Hu. destruct (proj2 (build_adjacency_fold
      (hash_set_iter (CD.suspicious config (CD.count_pairs active))) u 0%N) Hu) as [w Hw].
    exists w. by apply neighbors_colludes.
  - intros [v Hv]. apply neighbors_colludes in Hv. exact (neighbors_dom _ u v Hv).
Qed.

Lemma adj_undirected : undirected adj.
Proof using Hlen.
  split; intros u; [intros v|]; rewrite !neighbors_colludes; [apply colludes_sym|].
  intros [Hne _]. by apply Hne.
Qed.

Lemma clique_collusive C : clique adj C ∧ C ⊆ dom adj ↔ collusive config active C.
Proof using Hlen.
  unfold clique, collusive. setoid_rewrite neighbors_colludes.
  assert (C ⊆ dom adj ↔ ∀ a, a ∈ C → ∃ b, colludes config active a b) as ->.
  { unfold subseteq, set_subseteq_instance. by setoid_rewrite dom_colludes. }
  done.
Qed.

Lemma maximal_clique_collusive C : maximal_clique adj C ↔ maximal_collusive config active C.
Proof using Hlen.
  unfold maximal_clique, maximal_collusive. setoid_rewrite <-clique_collusive. naive_solver.
Qed.
End Reports.

Lemma sorted_lt (l : list N) :
  StronglySorted (λ a b, N.leb a b = true) l → NoDup l → StronglySorted N.lt l.
Proof.
  induction 1 as [|a l Hs IH Ha]; intros Hn; [constructor|]. apply NoDup_cons in Hn as [Hal Hn].
  constructor; [by apply IH|]. apply Forall_forall. intros b Hb.
  rewrite Forall_forall in Ha. specialize (Ha b Hb). assert (a ≠ b) by (by intros ->). lia.
Qed.

(** The members of a ring are a set in increasing order. *)
Lemma ring_of_members r :
  CollusionRing.members (ring_of r) ≡ₚ elements r ∧
  StronglySorted N.lt (CollusionRing.members (ring_of r)) ∧
  CollusionRing.size (ring_of r) = size r.
Proof.
  unfold ring_of, sort_ids; simpl.
  assert (sort_by N.leb (hash_set_iter r) ≡ₚ elements r) as Hp
    by by rewrite sort_by_perm, hash_set_iter_perm.
  split_and!; [done| |by rewrite Hp].
  apply sorted_lt; [apply sort_by_sorted; intros; lia|]. rewrite Hp. apply NoDup_elements.
Qed.

Lemma sorted_lt_unique (l l' : list N) :
  StronglySorted N.lt l → StronglySorted N.lt l' → l ≡ₚ l' → l = l'.
Proof.
  assert (AntiSymm (=) N.lt) by (intros x y ? ?; lia).
  apply (StronglySorted_unique N.lt).
Qed.

Lemma sorted_lt_NoDup (l : list N) : StronglySorted N.lt l → NoDup l.
Proof.
  induction 1 as [|a l Hs IH Ha]; constructor; [|done].
  intros Hal. rewrite Forall_forall in Ha. specialize (Ha a Hal). lia.
Qed.

(** A ring is the ring of a set exactly when it lists that set in increasing order. *)
Lemma ring_of_iff ring r :
  ring = ring_of r ↔
  StronglySorted N.lt (CollusionRing.members ring) ∧
  CollusionRing.size ring = length (CollusionRing.members ring) ∧
  list_to_set (CollusionRing.members ring) = r.
Proof.
  destruct (ring_of_members r) as (Hp & Hs & Hn). split.
  - intros ->. split_and!; [done| |].
    + by rewrite Hn, Hp.
    + apply set_eq. intros v. by rewrite elem_of_list_to_set, Hp, elem_of_elements.
  - destruct ring as [members n]. simpl. intros (Hsm & -> & <-).
    assert (members = CollusionRing.members (ring_of (list_to_set members))) as Em.
    { apply sorted_lt_unique; [done|done|]. rewrite Hp, elements_list_to_set; [done|].
      by apply sorted_lt_NoDup. }
    destruct (ring_of (list_to_set members)) as [members' n'] eqn:E. simpl in Em.
    unfold ring_of in E. injection E as E1 E2. congruence.
Qed.

Lemma elem_of_all_agents active a :
  a ∈ CD.all_agents active ↔
  ∃ e, e ∈ active ∧ (a = AssignmentEdge.from e ∨ a = AssignmentEdge.to e).
Proof.
  unfold CD.all_agents. induction active as [|e active IH] using rev_ind; [set_solver|].
  rewrite foldl_snoc. setoid_rewrite elem_of_app. set_solver.
Qed.

Lemma active_length d : length (CD.active d) ≤ length (CD.edges d).
Proof. unfold CD.active. destruct (_ <? _)%N; [apply List.filter_length_le|done]. Qed.

Lemma elem_of_active d e :
  e ∈ CD.active d ↔
  e ∈ CD.edges d ∧
  (CollusionConfig.lookback_blocks (CD.config d) = 0%N ∨
   (CD.current_block (CD.edges d) ≤
    AssignmentEdge.block e + CollusionConfig.lookback_blocks (CD.config d))%N).
Proof.
  unfold CD.active, sat_sub. destruct (N.ltb_spec 0 (CollusionConfig.lookback_blocks (CD.config d))).
  - rewrite elem_of_list_filter_bool, N.leb_le. intuition lia.
  - split; [|tauto]. intros. split; [done|]. left. lia.
Qed.
End Detector.

(** The detector reports exactly the collusion rings, each once and with its members in
    increasing order: the maximal sets of agents, of the configured size at least, of which
    any two assign each other jobs often enough and at rates similar enough, counting the
    assignments of the lookback window; and it counts the colluding pairs, the agents and the
    assignments of that window. *)
Theorem detect_spec {HI : HashIter} (d : CollusionDetector) :
  (N.of_nat (length (CD.edges d)) ≤ u32_MAX)%N →
  let config := CD.config d in
  let active := CD.active d in
  let report := CD.detect d in
  NoDup (CollusionReport.rings report) ∧
  (∀ ring, ring ∈ CollusionReport.rings report ↔
     StronglySorted N.lt (CollusionRing.members ring) ∧
     CollusionRing.size ring = length (CollusionRing.members ring) ∧
     CollusionConfig.min_clique_size config ≤ CollusionRing.size ring ∧
     maximal_collusive config active (list_to_set (CollusionRing.members ring))) ∧
  (∃ pairs : gset (N * N), CollusionReport.suspicious_pairs report = size pairs ∧
     ∀ a b, (a, b) ∈ pairs ↔ (a < b)%N ∧ colludes config active a b) ∧
  (∃ agents : gset N, CollusionReport.agents_analyzed report = size agents ∧
     ∀ a, a ∈ agents ↔ ∃ e, e ∈ active ∧ (a = AssignmentEdge.from e ∨ a = AssignmentEdge.to e)) ∧
  CollusionReport.assignments_analyzed report = length active.
Proof.
  intros Hlen config active report.
  assert (N.of_nat (length active) ≤ u32_MAX)%N as Hact
    by (pose proof (active_length d); unfold active; lia).
  pose proof (find_cliques_spec _ (adj_undirected config active Hact)
    (CollusionConfig.min_clique_size config)) as [Hn Hr].
  split_and!; [exact Hn| | | |done].
  - intros ring. unfold report, CD.detect. cbn [CollusionReport.rings].
    fold config active. rewrite Hr. setoid_rewrite maximal_clique_collusive; [|done].
    split.
    + intros (r & [Hm Hsize] & Er). pose proof (ring_of_members r) as (_ & _ & Hz).
      pose proof Er as (Hs & Hl & Hset)%ring_of_iff. rewrite Hset. split_and!; try done.
      by rewrite Er, Hz.
    + intros (Hs & Hl & Hsize & Hm). exists (list_to_set (CollusionRing.members ring)).
      assert (ring = ring_of (list_to_set (CollusionRing.members ring))) as Er by by apply ring_of_iff.
      pose proof (ring_of_members (list_to_set (CollusionRing.members ring))) as (_ & _ & Hz).
      split; [|done]. split; [done|]. by rewrite <-Hz, <-Er.
  - exists (CD.suspicious config (CD.count_pairs active)). split; [done|].
    intros a b. by apply elem_of_suspicious.
  - exists (CD.all_agents active). split; [done|]. apply elem_of_all_agents.
Qed.

(** Three agents that hire each other, and a fourth that only one of them hires. *)
Definition sample_detector : CollusionDetector :=
  let pair (a b : N) := [AssignmentEdge.mk a b 1; AssignmentEdge.mk b a 2; AssignmentEdge.mk a b 3] in
  foldl (λ d e, CD.record_assignment e d) CD.default
    (pair 3 1 ++ pair 2 3 ++ pair 1 2 ++ [AssignmentEdge.mk 1 4 5])%N.

Lemma detect_spec_witness :
  NoDup (CollusionReport.rings (CD.detect sample_detector)) ∧
  CollusionReport.rings (CD.detect sample_detector) = [CollusionRing.mk [1; 2; 3]%N 3].
Proof.
  split; [apply (detect_spec sample_detector)|]; vm_compute; [discriminate|reflexivity].
Defined.

(** With a threshold of zero a pair that hires in one direction only is suspicious in one
    direction of the order of identifiers, and not in the other. *)
Lemma one_way_pairs_differ :
  let config := CollusionConfig.mk F64.zero 1 2 0 in
  let report a b :=
    CD.detect (CD.record_assignment (AssignmentEdge.mk a b 1) (CD.new config)) in
  CollusionReport.suspicious_pairs (report 1 2)%N = 1 ∧
  CollusionReport.suspicious_pairs (report 2 1)%N = 0.
Proof. vm_compute. done. Qed.
