(* ===== verification/ChainTypes.v ===== *)
(** * Shared types of the chain crate (crates/roko-chain/src/phase2.rs)

    Wide integers, passports and their tiers. *)

From S2P Require Import Prelude Bytes.

(** ** Wide integers

    The crate's [u256] is an alias of [u128]; a plain [+] wraps in the release profile. *)

Definition u128_MAX : N := 340282366920938463463374607431768211455.
Definition add64 (a b : N) : N := (a + b) mod (u64_MAX + 1).
Definition add128 (a b : N) : N := (a + b) mod (u128_MAX + 1).
Definition sat_add128 (a b : N) : N := N.min (a + b) u128_MAX.

Lemma add64_small a b : (a + b ≤ u64_MAX)%N → add64 a b = (a + b)%N.
Proof. intros H. unfold add64. apply N.mod_small. lia. Qed.

Lemma add128_small a b : (a + b ≤ u128_MAX)%N → add128 a b = (a + b)%N.
Proof. intros H. unfold add128. apply N.mod_small. lia. Qed.

(** The casts [x as f64] and [a as u128]. *)
Definition f64_of_u128 (x : N) : F64.t := F64.of_N x.
Definition f64_to_u128 : F64.t → N := F64.to_uint u128_MAX.

(** [f64::powf], of the system's mathematical library. *)
Class PowLib := { f64_powf : F64.t → F64.t → F64.t }.

Abbreviation Address := string.

(** ** Passports *)

Module PassportTier.
Inductive t : Type :=
  | Protocol
  | Sovereign
  | Worker
  | Edge.

#[global] Instance t_eq_dec : EqDecision t.
Proof. solve_decision. Defined.

Definition default : t := Worker.

Definition privilege_level (x : t) : N :=
  match x with Protocol => 3 | Sovereign => 2 | Worker => 1 | Edge => 0 end.

Definition min_stake (x : t) : N :=
  match x with Protocol => 100000 | Sovereign => 25000 | Worker => 5000 | Edge => 0 end.

Definition has_privilege (x required : t) : bool :=
  (privilege_level required <=? privilege_level x)%N.

(** [{:?}] *)
Definition debug (x : t) : string :=
  match x with
  | Protocol => "Protocol" | Sovereign => "Sovereign" | Worker => "Worker" | Edge => "Edge"
  end.
End PassportTier.
Abbreviation PassportTier := PassportTier.t.

Module ReputationScore.
Record t : Type := mk { score : F64.t; job_count : N; last_update : N }.
End ReputationScore.
Abbreviation ReputationScore := ReputationScore.t.

Module ViolationType.
Inductive t : Type :=
  | MissedDeadline
  | AbandonedJob
  | QualityRejection
  | RepeatedQualityFailure
  | Plagiarism
  | ResultManipulation
  | TeeViolation.
End ViolationType.
Abbreviation ViolationType := ViolationType.t.

Module SlashRecord.
Record t : Type := mk { violation_type : ViolationType; amount : N; block_number : N }.
End SlashRecord.
Abbreviation SlashRecord := SlashRecord.t.

Module ServiceEndpoint.
Record t : Type := mk { service_type : string; url : string; description : option string }.
End ServiceEndpoint.
Abbreviation ServiceEndpoint := ServiceEndpoint.t.

Module AgentPassport.
Record t : Type := mk {
  passport_id : N;
  owner : Address;
  capability_list : N;
  domain_stakes : gmap string N;
  reputation_tracks : gmap string ReputationScore;
  tee_attestation : option (bytes * N);
  system_prompt_hash : bytes;
  tier : PassportTier;
  slash_history : list SlashRecord;
  service_endpoints : list ServiceEndpoint;
  runtime_fingerprint : option bytes;
}.

Definition set_prompt_hash (hash : bytes) (p : t) : t :=
  mk (passport_id p) (owner p) (capability_list p) (domain_stakes p) (reputation_tracks p)
    (tee_attestation p) hash (tier p) (slash_history p) (service_endpoints p)
    (runtime_fingerprint p).

Definition set_tier (tier : PassportTier) (p : t) : t :=
  mk (passport_id p) (owner p) (capability_list p) (domain_stakes p) (reputation_tracks p)
    (tee_attestation p) (system_prompt_hash p) tier (slash_history p) (service_endpoints p)
    (runtime_fingerprint p).
End AgentPassport.
Abbreviation AgentPassport := AgentPassport.t.
