(* ===== verification/AgentRegistry.v ===== *)
(** * The registry of agent passports (crates/roko-chain/src/agent_registry.rs)

    Soulbound passports, updates of the committed prompt behind a timelock, and the
    progression of tiers. *)

From S2P Require Import Prelude Bytes ChainTypes.

Definition PROMPT_UPDATE_TIMELOCK_SECS : N := 24 * 3600.
Definition PROMPT_CHANGE_WINDOW_SECS : N := 30 * 24 * 3600.
Definition MAX_PROMPT_CHANGES_IN_WINDOW : nat := 3.
Definition TIER_PROTOCOL_STAKE : N := 100000.
Definition TIER_SOVEREIGN_STAKE : N := 25000.
Definition TIER_WORKER_STAKE : N := 5000.

Module PendingPromptUpdate.
Record t : Type := mk { new_hash : bytes; submitted_at : N; executable_after : N }.
End PendingPromptUpdate.
Abbreviation PendingPromptUpdate := PendingPromptUpdate.t.

Module RegistryError.
Inductive t : Type :=
  | PassportNotFound (passport_id : N)
  | SoulboundTransferDenied
  | NotOwner
  | TimelockNotElapsed (remaining_secs : N)
  | NoPendingUpdate
  | PromptChangeRateExceeded (changes_in_window : nat)
  | AdminOnly.
End RegistryError.
Abbreviation RegistryError := RegistryError.t.

(** Tier by stake alone. *)
Definition tier_from_stake (stake : N) : PassportTier :=
  if (TIER_PROTOCOL_STAKE <=? stake)%N then PassportTier.Protocol
  else if (TIER_SOVEREIGN_STAKE <=? stake)%N then PassportTier.Sovereign
  else if (TIER_WORKER_STAKE <=? stake)%N then PassportTier.Worker
  else PassportTier.Edge.

Module AgentRegistry.
(** A change record holds only its time. *)
Record t : Type := mk {
  admin : string;
  passports : gmap N AgentPassport;
  pending_updates : gmap N PendingPromptUpdate;
  prompt_changes : gmap N (list N);
  next_id : N;
}.

Definition new (admin : string) : t := mk admin ∅ ∅ ∅ 1.

(** The passport a mint creates: what is not given has its default. *)
Definition fresh_passport (passport_id : N) (owner : Address) (capabilities : N)
    (system_prompt_hash : bytes) (tier : PassportTier) : AgentPassport :=
  AgentPassport.mk passport_id owner capabilities ∅ ∅ None system_prompt_hash tier [] [] None.

Definition mint (s : t) (caller owner : Address) (capabilities : N) (system_prompt_hash : bytes)
    (initial_stake : N) : t * result N RegistryError :=
  if negb (string_eqb caller (admin s)) then (s, Err RegistryError.AdminOnly)
  else
    let passport_id := next_id s in
    let tier := tier_from_stake initial_stake in
    let passport := fresh_passport passport_id owner capabilities system_prompt_hash tier in
    (mk (admin s) (<[passport_id := passport]> (passports s)) (pending_updates s)
       (prompt_changes s) (add128 (next_id s) 1), Ok passport_id).

Definition transfer (s : t) (passport_id : N) (from to : Address) : result unit RegistryError :=
  Err RegistryError.SoulboundTransferDenied.

Definition get_passport (s : t) (passport_id : N) : option AgentPassport :=
  passports s !! passport_id.

Definition submit_prompt_update (s : t) (passport_id : N) (caller : Address) (new_hash : bytes)
    (now : N) : t * result unit RegistryError :=
  match passports s !! passport_id with
  | None => (s, Err (RegistryError.PassportNotFound passport_id))
  | Some passport =>
      if negb (string_eqb (AgentPassport.owner passport) caller) then
        (s, Err RegistryError.NotOwner)
      else
        let pending :=
          PendingPromptUpdate.mk new_hash now (add64 now PROMPT_UPDATE_TIMELOCK_SECS) in
        (mk (admin s) (passports s) (<[passport_id := pending]> (pending_updates s))
           (prompt_changes s) (next_id s), Ok tt)
  end.

(** The changes of the last 30 days, with the one being made. *)
Definition recent_changes (changes : list N) (now : N) : list N :=
  List.filter (λ c, sat_sub now c <? PROMPT_CHANGE_WINDOW_SECS)%N changes ++ [now].

Definition rate_penalty (changes : list N) : F64.t :=
  if MAX_PROMPT_CHANGES_IN_WINDOW <? length changes then F64.lit (-5) 100 else F64.zero.

Definition execute_prompt_update (s : t) (passport_id : N) (caller : Address) (now : N) :
    t * result F64.t RegistryError :=
  match passports s !! passport_id with
  | None => (s, Err (RegistryError.PassportNotFound passport_id))
  | Some passport =>
      if negb (string_eqb (AgentPassport.owner passport) caller) then
        (s, Err RegistryError.NotOwner)
      else
        match pending_updates s !! passport_id with
        | None => (s, Err RegistryError.NoPendingUpdate)
        | Some pending =>
            if (now <? PendingPromptUpdate.executable_after pending)%N then
              (s, Err (RegistryError.TimelockNotElapsed
                         (PendingPromptUpdate.executable_after pending - now)))
            else
              let new_hash := PendingPromptUpdate.new_hash pending in
              let changes :=
                recent_changes (default [] (prompt_changes s !! passport_id)) now in
              (mk (admin s)
                 (alter (AgentPassport.set_prompt_hash new_hash) passport_id (passports s))
                 (delete passport_id (pending_updates s))
                 (<[passport_id := changes]> (prompt_changes s)) (next_id s),
               Ok (rate_penalty changes))
        end
  end.

Definition update_tier (s : t) (passport_id stake : N) : t * result PassportTier RegistryError :=
  match passports s !! passport_id with
  | None => (s, Err (RegistryError.PassportNotFound passport_id))
  | Some passport =>
      let new_tier := tier_from_stake stake in
      (mk (admin s) (<[passport_id := AgentPassport.set_tier new_tier passport]> (passports s))
         (pending_updates s) (prompt_changes s) (next_id s), Ok new_tier)
  end.

Definition passport_count (s : t) : nat := size (passports s).

Definition has_capability (s : t) (passport_id capability_bit : N) : bool :=
  match passports s !! passport_id with
  | Some p => negb (N.land (AgentPassport.capability_list p) capability_bit =? 0)%N
  | None => false
  end.
End AgentRegistry.
Abbreviation AgentRegistry := AgentRegistry.t.
Module AR := AgentRegistry.

(** ** Progression of tiers *)

Module AgentProgressionState.
Record t : Type := mk {
  total_jobs : N;
  avg_reputation : F64.t;
  stake : N;
  days_below_min : N;
  governance_approved : bool;
}.
End AgentProgressionState.
Abbreviation AgentProgressionState := AgentProgressionState.t.
Module APS := AgentProgressionState.

Module TierEvaluation.
Inductive t : Type :=
  | Maintain (tier : PassportTier)
  | Promote (tier : PassportTier)
  | Demote (tier : PassportTier)
  | RequiresGovernance.
End TierEvaluation.
Abbreviation TierEvaluation := TierEvaluation.t.

Module TierProgressionRules.
Record t : Type := mk {
  edge_to_worker_jobs : N;
  edge_to_worker_min_rep : F64.t;
  worker_to_sovereign_jobs : N;
  worker_to_sovereign_min_rep : F64.t;
  demotion_grace_days : N;
}.

Definition default : t := mk 10 (F64.lit 1 2) 100 (F64.lit 7 10) 30.

Section Rules.
Implicit Types (state : AgentProgressionState).

Definition check_promotion (rules : t) (current_tier : PassportTier) state :
    option PassportTier :=
  match current_tier with
  | PassportTier.Edge =>
      if (TIER_WORKER_STAKE <=? APS.stake state)%N &&
         (edge_to_worker_jobs rules <=? APS.total_jobs state)%N &&
         F64.ge (APS.avg_reputation state) (edge_to_worker_min_rep rules)
      then Some PassportTier.Worker else None
  | PassportTier.Worker =>
      if (TIER_SOVEREIGN_STAKE <=? APS.stake state)%N &&
         (worker_to_sovereign_jobs rules <=? APS.total_jobs state)%N &&
         F64.ge (APS.avg_reputation state) (worker_to_sovereign_min_rep rules)
      then Some PassportTier.Sovereign else None
  | PassportTier.Sovereign =>
      if (TIER_PROTOCOL_STAKE <=? APS.stake state)%N && APS.governance_approved state
      then Some PassportTier.Protocol else None
  | PassportTier.Protocol => None
  end.

(** One tier down, for the two tiers that can be lost. *)
Definition tier_below (current_tier : PassportTier) : option PassportTier :=
  match current_tier with
  | PassportTier.Sovereign => Some PassportTier.Worker
  | PassportTier.Worker => Some PassportTier.Edge
  | _ => None
  end.

Definition check_demotion (rules : t) (current_tier : PassportTier) state :
    option PassportTier :=
  let requirements :=
    match current_tier with
    | PassportTier.Sovereign => Some (TIER_SOVEREIGN_STAKE, worker_to_sovereign_min_rep rules)
    | PassportTier.Worker => Some (TIER_WORKER_STAKE, edge_to_worker_min_rep rules)
    | PassportTier.Edge | PassportTier.Protocol => None
    end in
  match requirements with
  | None => None
  | Some (min_stake, min_rep) =>
      if (APS.stake state <? min_stake)%N then tier_below current_tier
      else if F64.lt (APS.avg_reputation state) min_rep &&
              (demotion_grace_days rules <=? APS.days_below_min state)%N
      then tier_below current_tier
      else None
  end.

Definition evaluate (rules : t) (current_tier : PassportTier) state : TierEvaluation :=
  match check_demotion rules current_tier state with
  | Some demoted => TierEvaluation.Demote demoted
  | None =>
      match check_promotion rules current_tier state with
      | Some promoted => TierEvaluation.Promote promoted
      | None =>
          if bool_decide (current_tier = PassportTier.Sovereign) &&
             (TIER_PROTOCOL_STAKE <=? APS.stake state)%N && negb (APS.governance_approved state)
          then TierEvaluation.RequiresGovernance
          else TierEvaluation.Maintain current_tier
      end
  end.
End Rules.
End TierProgressionRules.
Abbreviation TierProgressionRules := TierProgressionRules.t.
Module TPR := TierProgressionRules.

(** ** Histories of a registry *)

Inductive registry_op : Type :=
  | Mint (caller owner : Address) (capabilities : N) (hash : bytes) (stake : N)
  | SubmitUpdate (id : N) (caller : Address) (hash : bytes) (now : N)
  | ExecuteUpdate (id : N) (caller : Address) (now : N)
  | UpdateTier (id stake : N).

Definition apply_registry_op (s : AgentRegistry) (op : registry_op) : AgentRegistry :=
  match op with
  | Mint caller owner caps hash stake => (AR.mint s caller owner caps hash stake).1
  | SubmitUpdate id caller hash now => (AR.submit_prompt_update s id caller hash now).1
  | ExecuteUpdate id caller now => (AR.execute_prompt_update s id caller now).1
  | UpdateTier id stake => (AR.update_tier s id stake).1
  end.

Definition run_registry (admin : string) (ops : list registry_op) : AgentRegistry :=
  foldl apply_registry_op (AR.new admin) ops.

(** The mints that are not refused. *)
Definition mints (admin : string) (ops : list registry_op) : list registry_op :=
  List.filter (λ op, match op with Mint caller _ _ _ _ => string_eqb caller admin | _ => false end) ops.

Definition submits (id : N) (owner : Address) (op : registry_op) : Prop :=
  match op with SubmitUpdate id' caller _ _ => id' = id ∧ caller = owner | _ => False end.

(** The times are such that a timelock does not overflow. *)
Definition time_fits (op : registry_op) : Prop :=
  match op with
  | SubmitUpdate _ _ _ now => (now + PROMPT_UPDATE_TIMELOCK_SECS ≤ u64_MAX)%N
  | _ => True
  end.

(** A prompt hash is the one of the mint, or its owner announced it a day before it was
    put in place, and announced nothing else in between. *)
Definition justified (id : N) (owner : Address) (hash0 : bytes) (later : list registry_op)
    (hash : bytes) : Prop :=
  hash = hash0 ∨
  ∃ before between after announced executed,
    later = before ++ SubmitUpdate id owner hash announced :: between ++
            ExecuteUpdate id owner executed :: after ∧
    (announced + PROMPT_UPDATE_TIMELOCK_SECS ≤ executed)%N ∧
    Forall (λ op, ¬ submits id owner op) between.

(** The stake a tier was last computed from. *)
Definition last_stake (id stake0 : N) (later : list registry_op) : N :=
  foldl (λ stake op, match op with
                     | UpdateTier id' stake' => if (id' =? id)%N then stake' else stake
                     | _ => stake
                     end) stake0 later.

(** What a pending update stands for. *)
Definition promised (id : N) (owner : Address) (later : list registry_op)
    (pending : option PendingPromptUpdate) : Prop :=
  match pending with
  | None => True
  | Some q =>
      PendingPromptUpdate.executable_after q =
        (PendingPromptUpdate.submitted_at q + PROMPT_UPDATE_TIMELOCK_SECS)%N ∧
      ∃ before between,
        later = before ++ SubmitUpdate id owner (PendingPromptUpdate.new_hash q)
                            (PendingPromptUpdate.submitted_at q) :: between ∧
        Forall (λ op, ¬ submits id owner op) between
  end.

(** Where a passport comes from. *)
Definition passport_history (admin : string) (ops : list registry_op) (id : N) (p : AgentPassport)
    (pending : option PendingPromptUpdate) : Prop :=
  ∃ earlier owner capabilities hash0 stake0 later,
    ops = earlier ++ Mint admin owner capabilities hash0 stake0 :: later ∧
    id = N.of_nat (S (length (mints admin earlier))) ∧
    AgentPassport.owner p = owner ∧ AgentPassport.capability_list p = capabilities ∧
    AgentPassport.tier p = tier_from_stake (last_stake id stake0 later) ∧
    justified id owner hash0 later (AgentPassport.system_prompt_hash p) ∧
    promised id owner later pending.

Record registry_inv (admin : string) (ops : list registry_op) (s : AgentRegistry) : Prop := {
  ri_admin : AR.admin s = admin;
  ri_next : AR.next_id s = N.of_nat (S (length (mints admin ops)));
  ri_pending id : is_Some (AR.pending_updates s !! id) → is_Some (AR.passports s !! id);
  ri_ids id : is_Some (AR.passports s !! id) ↔ (0 < id < AR.next_id s)%N;
  ri_history id p :
    AR.passports s !! id = Some p → passport_history admin ops id p (AR.pending_updates s !! id);
}.

Lemma mints_snoc admin ops op :
  length (mints admin (ops ++ [op])) =
  length (mints admin ops) +
  match op with Mint caller _ _ _ _ => if string_eqb caller admin then 1 else 0 | _ => 0 end.
Proof.
  unfold mints. rewrite List.filter_app, length_app. f_equal. simpl.
  destruct op; try done. by destruct (string_eqb _ _).
Qed.

Lemma mints_length admin ops : length (mints admin ops) ≤ length ops.
Proof. apply List.filter_length_le. Qed.

Lemma justified_snoc id owner hash0 later op hash :
  justified id owner hash0 later hash → justified id owner hash0 (later ++ [op]) hash.
Proof.
  intros [->|(b & m & a & t & t' & -> & Ht & Hm)]; [by left|right].
  exists b, m, (a ++ [op]), t, t'. split_and!; [|done|done]. rewrite <-app_assoc. simpl. by rewrite <-app_assoc.
Qed.

Lemma promised_snoc id owner later op pending :
  ¬ submits id owner op → promised id owner later pending →
  promised id owner (later ++ [op]) pending.
Proof.
  destruct pending as [q|]; [|done]. intros Hop (Ht & b & m & -> & Hm). split; [done|].
  exists b, (m ++ [op]). split; [by rewrite <-app_assoc|]. apply Forall_app. by repeat constructor.
Qed.

(** An operation that neither announces an update of a passport nor changes its tier
    leaves its history as it is. *)
Lemma history_keep admin ops op id p pending :
  passport_history admin ops id p pending →
  ¬ submits id (AgentPassport.owner p) op → (∀ stake, op ≠ UpdateTier id stake) →
  passport_history admin (ops ++ [op]) id p pending.
Proof.
  intros (l & owner & caps & hash0 & stake0 & later & -> & Hid & Ho & Hcaps & Ht & Hj & Hp) Hs Hu.
  exists l, owner, caps, hash0, stake0, (later ++ [op]).
  split_and!; try done.
  - by rewrite <-app_assoc.
  - rewrite Ht. unfold last_stake. rewrite foldl_snoc. destruct op; try done.
    destruct (N.eqb_spec id0 id); [|done]. subst. by destruct (Hu stake).
  - by apply justified_snoc.
  - apply promised_snoc; [|done]. by rewrite <-Ho.
Qed.

(** An operation that changes nothing. *)
Lemma inv_refused admin ops op s :
  registry_inv admin ops s → length (mints admin (ops ++ [op])) = length (mints admin ops) →
  (∀ id p, AR.passports s !! id = Some p → ¬ submits id (AgentPassport.owner p) op) →
  (∀ id stake, op = UpdateTier id stake → AR.passports s !! id = None) →
  registry_inv admin (ops ++ [op]) s.
Proof.
  intros [Ha Hn Hp Hi Hh] Hm Hs Hu. split; try done; [by rewrite Hm|].
  intros id p Hid. apply history_keep; [by apply Hh|by apply Hs|].
  intros stake ->. by rewrite (Hu id stake) in Hid.
Qed.

Lemma inv_mint admin ops s caller owner caps hash stake :
  registry_inv admin ops s → (N.of_nat (length ops) < u128_MAX - 1)%N →
  registry_inv admin (ops ++ [Mint caller owner caps hash stake])
    (AR.mint s caller owner caps hash stake).1.
Proof.
  intros H Hlen. pose proof (mints_snoc admin ops (Mint caller owner caps hash stake)) as Hm.
  pose proof (mints_length admin ops). unfold AR.mint.
  rewrite (ri_admin _ _ _ H). unfold string_eqb in *. case_bool_decide as E; simpl.
  2:{ apply inv_refused; [done|by rewrite Hm, Nat.add_0_r|by intros ? ? ? []|done]. }
  subst caller. destruct H as [Ha Hn Hp Hi Hh].
  assert (AR.passports s !! AR.next_id s = None) as Hfresh.
  { destruct (AR.passports s !! AR.next_id s) eqn:E; [|done].
    assert (is_Some (AR.passports s !! AR.next_id s)) as [_ Hlt]%Hi by (by rewrite E). lia. }
  assert (AR.pending_updates s !! AR.next_id s = None) as Hnone.
  { destruct (AR.pending_updates s !! AR.next_id s) eqn:E; [|done].
    destruct (Hp (AR.next_id s)) as [? ?]; [by rewrite E|congruence]. }
  assert (add128 (AR.next_id s) 1 = AR.next_id s + 1)%N as Hadd
    by (apply add128_small; rewrite Hn; lia).
  split; simpl; try done.
  - rewrite Hadd, Hn, Hm. lia.
  - intros id Hid%Hp. destruct (decide (id = AR.next_id s)) as [->|];
      [rewrite lookup_insert_eq; eauto|by rewrite lookup_insert_ne].
  - intros id. rewrite Hadd. destruct (decide (id = AR.next_id s)) as [->|Hne].
    + rewrite lookup_insert_eq. rewrite Hn. split; [lia|done].
    + rewrite lookup_insert_ne, Hi by done. lia.
  - intros id p. destruct (decide (id = AR.next_id s)) as [->|Hne].
    + rewrite lookup_insert_eq, Hnone. intros [= <-].
      exists ops, owner, caps, hash, stake, []. split_and!; try done. by left.
    + rewrite lookup_insert_ne by done. intros Hid. apply history_keep; [by apply Hh|by intros []|done].
Qed.

Lemma inv_submit admin ops s id caller hash now :
  registry_inv admin ops s → time_fits (SubmitUpdate id caller hash now) →
  registry_inv admin (ops ++ [SubmitUpdate id caller hash now])
    (AR.submit_prompt_update s id caller hash now).1.
Proof.
  intros H Hfit. pose proof (mints_snoc admin ops (SubmitUpdate id caller hash now)) as Hm.
  rewrite Nat.add_0_r in Hm. unfold AR.submit_prompt_update.
  destruct (AR.passports s !! id) as [p|] eqn:Ep; simpl.
  2:{ apply inv_refused; [done|done| |done]. intros id' p' Hp' [-> _]. congruence. }
  unfold string_eqb. case_bool_decide as E; simpl.
  2:{ apply inv_refused; [done|done| |done]. intros id' p' Hp' [-> ->]. congruence. }
  subst caller. destruct H as [Ha Hn Hp Hi Hh]. split; simpl; try done; [by rewrite Hm| |].
  - intros id'. destruct (decide (id' = id)) as [->|Hne]; [by rewrite Ep|].
    rewrite lookup_insert_ne by done. apply Hp.
  - intros id' p' Hp'. destruct (decide (id' = id)) as [->|Hne].
    + rewrite lookup_insert_eq. assert (p' = p) as -> by congruence.
      destruct (Hh id p Ep) as (l & o & caps & h0 & st & later & -> & Hid & Ho & Hc & Ht & Hj & _).
      exists l, o, caps, h0, st, (later ++ [SubmitUpdate id (AgentPassport.owner p) hash now]).
      split_and!; try done.
      * by rewrite <-app_assoc.
      * rewrite Ht. unfold last_stake. by rewrite foldl_snoc.
      * by apply justified_snoc.
      * simpl. split; [by apply add64_small|]. exists later, []. rewrite <-Ho.
        split; [done|constructor].
    + rewrite lookup_insert_ne by done. apply history_keep; [by apply Hh| |done].
      intros [-> _]. done.
Qed.

Lemma inv_execute admin ops s id caller now :
  registry_inv admin ops s →
  registry_inv admin (ops ++ [ExecuteUpdate id caller now])
    (AR.execute_prompt_update s id caller now).1.
Proof.
  intros H. pose proof (mints_snoc admin ops (ExecuteUpdate id caller now)) as Hm.
  rewrite Nat.add_0_r in Hm.
  assert (registry_inv admin (ops ++ [ExecuteUpdate id caller now]) s) as Hsame
    by (apply inv_refused; by try (intros ? ? ? [])).
  unfold AR.execute_prompt_update.
  destruct (AR.passports s !! id) as [p|] eqn:Ep; [|done].
  unfold string_eqb. case_bool_decide as E; [|done]. simpl. subst caller.
  destruct (AR.pending_updates s !! id) as [q|] eqn:Eq; [|done].
  destruct (N.ltb_spec now (PendingPromptUpdate.executable_after q)) as [|Hready]; [done|]. simpl.
  destruct H as [Ha Hn Hp Hi Hh]. split; simpl; try done; [by rewrite Hm| | |].
  - intros id' [q' Hq']. apply lookup_delete_Some in Hq' as [Hne Hq'].
    rewrite lookup_alter_ne by done. apply Hp. eauto.
  - intros id'. rewrite <-Hi, lookup_alter. case_decide; [|done]. subst. by rewrite fmap_is_Some.
  - intros id' p' Hp'. destruct (decide (id' = id)) as [->|Hne].
    + rewrite lookup_alter_eq, Ep in Hp'. injection Hp' as <-. rewrite lookup_delete_eq.
      destruct (Hh id p Ep) as (l & o & caps & h0 & st & later & -> & Hid & Ho & Hc & Ht & Hj & Hpr).
      exists l, o, caps, h0, st, (later ++ [ExecuteUpdate id (AgentPassport.owner p) now]).
      split_and!; try done.
      * by rewrite <-app_assoc.
      * simpl. rewrite Ht. unfold last_stake. by rewrite foldl_snoc.
      * rewrite Eq in Hpr. destruct Hpr as (Hex & b & m & -> & Hb). right. simpl.
        exists b, m, [], (PendingPromptUpdate.submitted_at q), now. rewrite Ho.
        split_and!; [by rewrite <-app_assoc|lia|done].
    + rewrite lookup_alter_ne in Hp' by done. rewrite lookup_delete_ne by done.
      apply history_keep; [by apply Hh|by intros []|done].
Qed.

Lemma inv_update_tier admin ops s id stake :
  registry_inv admin ops s →
  registry_inv admin (ops ++ [UpdateTier id stake]) (AR.update_tier s id stake).1.
Proof.
  intros H. pose proof (mints_snoc admin ops (UpdateTier id stake)) as Hm.
  rewrite Nat.add_0_r in Hm. unfold AR.update_tier.
  destruct (AR.passports s !! id) as [p|] eqn:Ep; simpl.
  2:{ apply inv_refused; [done|done|by intros ? ? ? []|]. intros ? ? [= -> ->]. done. }
  destruct H as [Ha Hn Hp Hi Hh]. split; simpl; try done; [by rewrite Hm| | |].
  - intros id' Hq%Hp. destruct (decide (id' = id)) as [->|];
      [rewrite lookup_insert_eq; eauto|by rewrite lookup_insert_ne].
  - intros id'. rewrite <-Hi. destruct (decide (id' = id)) as [->|];
      [rewrite lookup_insert_eq, Ep; split; eauto|by rewrite lookup_insert_ne].
  - intros id' p' Hp'. destruct (decide (id' = id)) as [->|Hne].
    + rewrite lookup_insert_eq in Hp'. injection Hp' as <-.
      destruct (Hh id p Ep) as (l & o & caps & h0 & st & later & -> & Hid & Ho & Hc & Ht & Hj & Hpr).
      exists l, o, caps, h0, st, (later ++ [UpdateTier id stake]). split_and!; try done.
      * by rewrite <-app_assoc.
      * simpl. unfold last_stake. rewrite foldl_snoc. by rewrite N.eqb_refl.
      * by apply justified_snoc.
      * by apply promised_snoc; [intros []|].
    + rewrite lookup_insert_ne in Hp' by done. apply history_keep; [by apply Hh|by intros []|].
      intros st [= -> ->]. done.
Qed.

Lemma registry_run_inv admin ops :
  (N.of_nat (length ops) < u128_MAX - 1)%N → Forall time_fits ops →
  registry_inv admin ops (run_registry admin ops).
Proof.
  unfold run_registry. induction ops as [|op ops IH] using rev_ind.
  { intros _ _. split; simpl; try done.
    - intros id. rewrite lookup_empty. by intros [? ?].
    - intros id. rewrite lookup_empty. split; [by intros [? ?]|lia]. }
  rewrite length_app, foldl_snoc. simpl. intros Hlen [Hfit [Hop _]%Forall_cons]%Forall_app.
  specialize (IH ltac:(lia) Hfit).
  destruct op; simpl; [apply inv_mint; [done|lia]|by apply inv_submit|by apply inv_execute|
    by apply inv_update_tier].
Qed.

(** *** The rate of changes *)

(** The times at which updates of a passport took effect. *)
Definition executions (admin : string) (id : N) (ops : list registry_op) : list N :=
  (foldl (λ '(s, times) op,
            (apply_registry_op s op,
             match op with
             | ExecuteUpdate id' caller now =>
                 if decide (id' = id ∧ is_ok (AR.execute_prompt_update s id' caller now).2 = true)
                 then times ++ [now] else times
             | _ => times
             end)) (AR.new admin, []) ops).2.

Definition op_time (op : registry_op) : option N :=
  match op with
  | SubmitUpdate _ _ _ now | ExecuteUpdate _ _ now => Some now
  | _ => None
  end.

(** The clock does not go back. *)
Definition in_time (ops : list registry_op) : Prop := StronglySorted N.le (omap op_time ops).

Definition within_window (now : N) (times : list N) : list N :=
  List.filter (λ c, sat_sub now c <? PROMPT_CHANGE_WINDOW_SECS)%N times.

Lemma executions_snoc admin id ops op :
  executions admin id (ops ++ [op]) =
  match op with
  | ExecuteUpdate id' caller now =>
      if decide (id' = id ∧
                 is_ok (AR.execute_prompt_update (run_registry admin ops) id' caller now).2 = true)
      then executions admin id ops ++ [now] else executions admin id ops
  | _ => executions admin id ops
  end.
Proof.
  unfold executions, run_registry. rewrite foldl_snoc.
  match goal with |- context [foldl ?f ?x ops] =>
    assert (foldl apply_registry_op (AR.new admin) ops = (foldl f x ops).1) as -> end.
  { induction ops as [|o ops IH] using rev_ind; [done|]. rewrite !foldl_snoc, IH.
    by destruct (foldl _ (AR.new admin, []) ops). }
  by destruct (foldl _ (AR.new admin, []) ops).
Qed.

Lemma in_time_snoc ops op :
  in_time (ops ++ [op]) ↔
  in_time ops ∧ ∀ now, op_time op = Some now → Forall (λ t, (t ≤ now)%N) (omap op_time ops).
Proof.
  unfold in_time. rewrite omap_app. simpl. destruct (op_time op) as [now|].
  - rewrite StronglySorted_app. split.
    + intros (H & ? & _). split; [done|]. intros ? [= <-]. apply Forall_forall. intros t Ht.
      apply H; [done|left].
    + intros [? H]. specialize (H now eq_refl). rewrite Forall_forall in H. split_and!; [|done|].
      * intros t u Ht ->%list_elem_of_singleton. by apply H.
      * by repeat constructor.
  - rewrite app_nil_r. naive_solver.
Qed.

Lemma executions_times admin id ops t : t ∈ executions admin id ops → t ∈ omap op_time ops.
Proof.
  induction ops as [|op ops IH] using rev_ind; [done|]. rewrite executions_snoc, omap_app, elem_of_app.
  destruct op; simpl; try by auto. case_decide; [|by auto].
  rewrite elem_of_app, list_elem_of_singleton. tauto.
Qed.

Lemma within_window_mono t now times :
  (t ≤ now)%N → within_window now (within_window t times) = within_window now times.
Proof.
  intros Ht. unfold within_window, sat_sub. induction times as [|c times IH]; [done|]. simpl.
  destruct (N.ltb_spec (t - c) PROMPT_CHANGE_WINDOW_SECS) as [Hc|Hc]; simpl; rewrite IH; [done|].
  destruct (N.ltb_spec (now - c) PROMPT_CHANGE_WINDOW_SECS); [lia|done].
Qed.

Lemma within_window_app now times times' :
  within_window now (times ++ times') = within_window now times ++ within_window now times'.
Proof. apply List.filter_app. Qed.

(** Other operations leave the recorded changes alone. *)
Lemma changes_kept s op id :
  (∀ caller now, op = ExecuteUpdate id caller now →
     is_ok (AR.execute_prompt_update s id caller now).2 = false) →
  AR.prompt_changes (apply_registry_op s op) !! id = AR.prompt_changes s !! id.
Proof.
  intros H. destruct op as [c o k h st|id' c h now|id' c now|id' st]; simpl.
  - unfold AR.mint. by destruct (negb _).
  - unfold AR.submit_prompt_update. destruct (_ !! id'); [|done]. by destruct (negb _).
  - specialize (H c now). unfold AR.execute_prompt_update in *.
    destruct (AR.passports s !! id') eqn:E1; [|done]. destruct (negb _) eqn:E2; [done|].
    destruct (AR.pending_updates s !! id') eqn:E3; [|done]. destruct (_ <? _)%N eqn:E4; [done|].
    simpl. destruct (decide (id' = id)) as [->|]; [|by rewrite lookup_insert_ne].
    specialize (H eq_refl). rewrite E1, E2, E3, E4 in H. done.
  - unfold AR.update_tier. by destruct (_ !! id').
Qed.

Lemma changes_executed s id caller now :
  is_ok (AR.execute_prompt_update s id caller now).2 = true →
  AR.prompt_changes (AR.execute_prompt_update s id caller now).1 !! id =
    Some (AR.recent_changes (default [] (AR.prompt_changes s !! id)) now) ∧
  (AR.execute_prompt_update s id caller now).2 =
    Ok (AR.rate_penalty (AR.recent_changes (default [] (AR.prompt_changes s !! id)) now)).
Proof.
  unfold AR.execute_prompt_update. destruct (AR.passports s !! id); [|done].
  destruct (negb _); [done|]. destruct (AR.pending_updates s !! id); [|done].
  destruct (_ <? _)%N; [done|]. simpl. intros _. by rewrite lookup_insert_eq.
Qed.

(** What is recorded of the changes is enough to count those of any later window. *)
Lemma recorded_changes admin ops id now :
  in_time ops → Forall (λ t, (t ≤ now)%N) (omap op_time ops) →
  within_window now (default [] (AR.prompt_changes (run_registry admin ops) !! id)) =
  within_window now (executions admin id ops).
Proof.
  revert now. induction ops as [|op ops IH] using rev_ind; intros now; [done|].
  intros [Ht Hop]%in_time_snoc. rewrite omap_app. intros [Hnow Hlast]%Forall_app.
  specialize (λ now, IH now Ht). rewrite executions_snoc. unfold run_registry in *.
  rewrite foldl_snoc. set (s := foldl apply_registry_op (AR.new admin) ops) in *.
  destruct op as [?|?|id' caller t|?];
    try (rewrite changes_kept; [by apply IH|intros; discriminate]).
  case_decide as E.
  - destruct E as [-> Hok]. simpl.
    destruct (changes_executed s id caller t Hok) as [-> _]. simpl.
    unfold AR.recent_changes. fold (within_window t (default [] (AR.prompt_changes s !! id))).
    assert (t ≤ now)%N by (rewrite Forall_forall in Hlast; apply Hlast; left).
    by rewrite (IH t (Hop t eq_refl)), !within_window_app, within_window_mono.
  - rewrite changes_kept; [by apply IH|]. intros caller' t' [= -> -> ->].
    apply not_true_is_false. intros Hok. by apply E.
Qed.

(** Passports are soulbound and their prompts change only behind the timelock.  After any
    history of operations, refused ones included, a passport has the owner and capabilities
    the registry's admin minted it with, identifiers count the mints, its tier follows from
    the last stake reported, and its prompt hash is the minted one or one that its owner
    announced at least a day before putting it in place and did not replace meanwhile.  With
    a clock that does not go back, putting a change in place is penalised exactly when it is
    more than the third of the last 30 days. *)
Theorem passport_timelock admin ops :
  (N.of_nat (length ops) < u128_MAX - 1)%N → Forall time_fits ops →
  let s := run_registry admin ops in
  (∀ id p, AR.get_passport s id = Some p →
     ∃ earlier owner capabilities hash0 stake0 later,
       ops = earlier ++ Mint admin owner capabilities hash0 stake0 :: later ∧
       id = N.of_nat (S (length (mints admin earlier))) ∧
       AgentPassport.owner p = owner ∧ AgentPassport.capability_list p = capabilities ∧
       AgentPassport.tier p = tier_from_stake (last_stake id stake0 later) ∧
       justified id owner hash0 later (AgentPassport.system_prompt_hash p)) ∧
  (∀ id caller now penalty,
     in_time (ops ++ [ExecuteUpdate id caller now]) →
     (AR.execute_prompt_update s id caller now).2 = Ok penalty →
     penalty = if decide (3 < length (within_window now (executions admin id ops ++ [now])))
               then F64.lit (-5) 100 else F64.zero).
Proof.
  intros Hlen Hfit s. split.
  - intros id p Hp. pose proof (registry_run_inv admin ops Hlen Hfit) as H.
    destruct (ri_history _ _ _ H id p Hp) as (l & o & c & h & st & later & H1 & H2 & H3 & H4 & H5 & H6 & _).
    exists l, o, c, h, st, later. by split_and!.
  - intros id caller now penalty [Ht Hnow]%in_time_snoc Hok.
    specialize (Hnow now eq_refl).
    destruct (changes_executed s id caller now) as [_ E]; [by rewrite Hok|].
    rewrite Hok in E. injection E as ->. unfold AR.rate_penalty.
    assert (AR.recent_changes (default [] (AR.prompt_changes s !! id)) now =
            within_window now (executions admin id ops ++ [now])) as ->.
    { rewrite within_window_app, <-(recorded_changes admin ops id now Ht Hnow).
      unfold AR.recent_changes, within_window. f_equal. simpl. unfold sat_sub.
      by rewrite N.sub_diag. }
    unfold MAX_PROMPT_CHANGES_IN_WINDOW. destruct (Nat.ltb_spec 3 (length
      (within_window now (executions admin id ops ++ [now])))); by case_decide; try lia.
Qed.

(** A passport whose owner changes the prompt once. *)
Definition sample_hash32 (n : N) : bytes := replicate 32 (byte_of_N n).
Definition sample_ops : list registry_op :=
  [Mint "admin" "0xa" 5 (sample_hash32 1) 25000; SubmitUpdate 1 "0xa" (sample_hash32 2) 1000;
   ExecuteUpdate 1 "0xa" 5000; ExecuteUpdate 1 "0xa" 90000; UpdateTier 1 6000].

Lemma passport_timelock_witness :
  ∃ earlier owner capabilities hash0 stake0 later,
    sample_ops = earlier ++ Mint "admin" owner capabilities hash0 stake0 :: later ∧
    justified 1 owner hash0 later (sample_hash32 2).
Proof.
  assert (Forall time_fits sample_ops) as Hfit
    by (repeat constructor; apply (bool_decide_unpack _); vm_compute; exact I).
  destruct (passport_timelock "admin" sample_ops eq_refl Hfit) as [H _].
  eassert (AR.get_passport (run_registry "admin" sample_ops) 1 = Some _) as Hp
    by (vm_compute; reflexivity).
  destruct (H 1%N _ Hp) as (l & o & c & h & st & later & E & _ & _ & _ & _ & Hj).
  exists l, o, c, h, st, later. split; [exact E|exact Hj].
Defined.

(** *** Tiers *)

(** The tier above. *)
Definition tier_above (tier : PassportTier) : option PassportTier :=
  match tier with
  | PassportTier.Edge => Some PassportTier.Worker
  | PassportTier.Worker => Some PassportTier.Sovereign
  | PassportTier.Sovereign => Some PassportTier.Protocol
  | PassportTier.Protocol => None
  end.

(** A promotion goes one tier up, to a tier whose stake is there, and to the highest only
    with the approval of governance; a demotion goes one tier down; the highest tier is
    never lost; and governance is asked only for a missing approval. *)
Lemma evaluate_spec rules tier state :
  match TPR.evaluate rules tier state with
  | TierEvaluation.Promote tier' =>
      tier_above tier = Some tier' ∧ (PassportTier.min_stake tier' ≤ APS.stake state)%N ∧
      (tier' = PassportTier.Protocol → APS.governance_approved state = true)
  | TierEvaluation.Demote tier' =>
      tier_above tier' = Some tier ∧ tier ≠ PassportTier.Protocol ∧
      ((APS.stake state < PassportTier.min_stake tier)%N ∨
       (TPR.demotion_grace_days rules ≤ APS.days_below_min state)%N)
  | TierEvaluation.RequiresGovernance =>
      tier = PassportTier.Sovereign ∧ APS.governance_approved state = false ∧
      (PassportTier.min_stake PassportTier.Protocol ≤ APS.stake state)%N
  | TierEvaluation.Maintain tier' => tier' = tier
  end.
Proof.
  unfold TPR.evaluate, TPR.check_demotion, TPR.check_promotion, TPR.tier_below,
    TIER_PROTOCOL_STAKE, TIER_SOVEREIGN_STAKE, TIER_WORKER_STAKE.
  destruct tier; simpl; repeat case_match; simplify_eq; simpl; split_and?; try done; try lia;
    try (left; lia); try (right; lia); by destruct (APS.governance_approved state).
Qed.

(** The registry itself gives the highest tier for stake alone, which the rules reserve to
    governance. *)
Lemma protocol_without_governance :
  (AR.get_passport (run_registry "admin"
    [Mint "admin" "0xa" 0 [] 0; UpdateTier 1 100000]) 1 ≫= λ p, Some (AgentPassport.tier p)) =
    Some PassportTier.Protocol ∧
  TPR.evaluate TPR.default PassportTier.Sovereign
    (APS.mk 1000 (F64.of_Z 1) 100000 0 false) = TierEvaluation.RequiresGovernance.
Proof. vm_compute. done. Qed.
