(* ===== verification/X402.v ===== *)
(** * Micropayments and state channels (crates/roko-chain/src/x402.rs)

    Payment requests and the check of their authorizations; channels between two parties,
    updated by signed balance proofs and closed after a challenge window. *)

From S2P Require Import Prelude Bytes ChainTypes.

(** ** Data *)

Module PaymentRequest.
Record t : Type := mk {
  recipient : Address;
  amount : N;
  token : Address;
  nonce : N;
  deadline : N;
  reason : string;
}.
End PaymentRequest.
Abbreviation PaymentRequest := PaymentRequest.t.

Module PaymentAuthorization.
Record t : Type := mk {
  from : Address;
  to : Address;
  value : N;
  valid_after : N;
  valid_before : N;
  nonce : N;
  v : N;
  r : bytes;
  s : bytes;
}.
End PaymentAuthorization.
Abbreviation PaymentAuthorization := PaymentAuthorization.t.

Module VerificationStatus.
Inductive t : Type :=
  | Valid
  | Expired
  | NonceReused
  | AmountMismatch (requested authorized : N)
  | RecipientMismatch
  | InvalidSignature.
End VerificationStatus.
Abbreviation VerificationStatus := VerificationStatus.t.

Module X402Config.
Record t : Type := mk {
  default_deadline_secs : N;
  challenge_window_blocks : N;
  min_channel_deposit : N;
}.

Definition default : t := mk 3600 100 1000.
End X402Config.
Abbreviation X402Config := X402Config.t.

Module ChannelLifecycle.
Inductive t : Type :=
  | Open
  | Closing (close_requested_at : N)
  | Closed
  | Disputed.

#[global] Instance t_eq_dec : EqDecision t.
Proof. solve_decision. Defined.
End ChannelLifecycle.
Abbreviation ChannelLifecycle := ChannelLifecycle.t.

Module StateChannel.
Record t : Type := mk {
  channel_id : bytes;
  party_a : Address;
  party_a_passport : N;
  party_b : Address;
  party_b_passport : N;
  deposit_a : N;
  deposit_b : N;
  nonce : N;
  balance_a : N;
  balance_b : N;
  state : ChannelLifecycle;
  challenge_window : N;
  opened_at_block : N;
}.

Definition set_balances (nonce balance_a balance_b : N) (c : t) : t :=
  mk (channel_id c) (party_a c) (party_a_passport c) (party_b c) (party_b_passport c)
    (deposit_a c) (deposit_b c) nonce balance_a balance_b (state c) (challenge_window c)
    (opened_at_block c).

Definition set_state (state : ChannelLifecycle) (c : t) : t :=
  mk (channel_id c) (party_a c) (party_a_passport c) (party_b c) (party_b_passport c)
    (deposit_a c) (deposit_b c) (nonce c) (balance_a c) (balance_b c) state (challenge_window c)
    (opened_at_block c).
End StateChannel.
Abbreviation StateChannel := StateChannel.t.
Module SC := StateChannel.

Module BalanceProof.
Record t : Type := mk {
  channel_id : bytes;
  nonce : N;
  balance_a : N;
  balance_b : N;
  sig_a : bytes;
  sig_b : bytes;
}.
End BalanceProof.
Abbreviation BalanceProof := BalanceProof.t.

Module ChannelSettlement.
Record t : Type := mk {
  channel_id : bytes;
  final_balance_a : N;
  final_balance_b : N;
  nonce : N;
}.
End ChannelSettlement.
Abbreviation ChannelSettlement := ChannelSettlement.t.

Module X402Error.
Inductive t : Type :=
  | ChannelNotFound
  | ChannelNotOpen
  | InvalidState (what : string)
  | InvalidNonce (current provided : N)
  | BalanceMismatch (total_deposit total_balance : N)
  | InsufficientDeposit (provided required : N)
  | ChallengePeriodActive (remaining : N).
End X402Error.
Abbreviation X402Error := X402Error.t.

(** The form of a channel in phase2.rs. *)
Module AgentPaymentChannel.
Record party : Type := mk_party { passport_id : N; address : Address }.
Record channel_state : Type := mk_state {
  nonce : N;
  balance_a : N;
  balance_b : N;
  sig_a : bytes;
  sig_b : bytes;
}.
Record t : Type := mk {
  channel_id : bytes;
  agent_a : party;
  agent_b : party;
  deposit_a : N;
  deposit_b : N;
  state : channel_state;
  challenge_window : N;
}.
End AgentPaymentChannel.
Abbreviation AgentPaymentChannel := AgentPaymentChannel.t.

(** ** The manager *)

Module X402Manager.
Record t : Type := mk {
  config : X402Config;
  used_nonces : gmap (Address * N) bool;
  channels : gmap bytes StateChannel;
  current_block : N;
  current_timestamp : N;
  next_nonce : N;
}.

Definition new (config : X402Config) : t := mk config ∅ ∅ 0 0 1.
Definition default : t := new X402Config.default.

Definition set_channels (channels : gmap bytes StateChannel) (s : t) : t :=
  mk (config s) (used_nonces s) channels (current_block s) (current_timestamp s) (next_nonce s).

Definition set_time (block timestamp : N) (s : t) : t :=
  mk (config s) (used_nonces s) (channels s) block timestamp (next_nonce s).

Definition create_payment_request (s : t) (recipient : Address) (amount : N) (token : Address)
    (reason : string) : t * PaymentRequest :=
  let nonce := next_nonce s in
  (mk (config s) (used_nonces s) (channels s) (current_block s) (current_timestamp s)
     (add128 (next_nonce s) 1),
   PaymentRequest.mk recipient amount token nonce
     (add64 (current_timestamp s) (X402Config.default_deadline_secs (config s))) reason).

Definition verify_authorization (s : t) (request : PaymentRequest) (auth : PaymentAuthorization) :
    VerificationStatus :=
  let nonce_key := (PaymentAuthorization.from auth, PaymentAuthorization.nonce auth) in
  if bool_decide (is_Some (used_nonces s !! nonce_key)) then VerificationStatus.NonceReused
  else if (PaymentAuthorization.value auth <? PaymentRequest.amount request)%N then
    VerificationStatus.AmountMismatch (PaymentRequest.amount request)
      (PaymentAuthorization.value auth)
  else if negb (string_eqb (PaymentAuthorization.to auth) (PaymentRequest.recipient request)) then
    VerificationStatus.RecipientMismatch
  else if (current_timestamp s <? PaymentAuthorization.valid_after auth)%N ||
          (PaymentAuthorization.valid_before auth <? current_timestamp s)%N then
    VerificationStatus.Expired
  else VerificationStatus.Valid.

Definition record_nonce (s : t) (from : Address) (nonce : N) : t :=
  mk (config s) (<[(from, nonce) := true]> (used_nonces s)) (channels s) (current_block s)
    (current_timestamp s) (next_nonce s).

Definition open_channel (s : t) (channel_id : bytes) (party_a : Address) (party_a_passport : N)
    (party_b : Address) (party_b_passport deposit_a deposit_b : N) : t * result unit X402Error :=
  if (deposit_a <? X402Config.min_channel_deposit (config s))%N then
    (s, Err (X402Error.InsufficientDeposit deposit_a
               (X402Config.min_channel_deposit (config s))))
  else
    let channel :=
      SC.mk channel_id party_a party_a_passport party_b party_b_passport deposit_a deposit_b 0
        deposit_a deposit_b ChannelLifecycle.Open
        (X402Config.challenge_window_blocks (config s)) (current_block s) in
    (set_channels (<[channel_id := channel]> (channels s)) s, Ok tt).

Definition update_channel (s : t) (proof : BalanceProof) : t * result unit X402Error :=
  match channels s !! BalanceProof.channel_id proof with
  | None => (s, Err X402Error.ChannelNotFound)
  | Some channel =>
      if decide (SC.state channel ≠ ChannelLifecycle.Open) then (s, Err X402Error.ChannelNotOpen)
      else if (BalanceProof.nonce proof <=? SC.nonce channel)%N then
        (s, Err (X402Error.InvalidNonce (SC.nonce channel) (BalanceProof.nonce proof)))
      else
        let total_deposit := add128 (SC.deposit_a channel) (SC.deposit_b channel) in
        let total_balance :=
          add128 (BalanceProof.balance_a proof) (BalanceProof.balance_b proof) in
        if negb (total_balance =? total_deposit)%N then
          (s, Err (X402Error.BalanceMismatch total_deposit total_balance))
        else
          (set_channels
             (<[BalanceProof.channel_id proof :=
                  SC.set_balances (BalanceProof.nonce proof) (BalanceProof.balance_a proof)
                    (BalanceProof.balance_b proof) channel]> (channels s)) s, Ok tt)
  end.

Definition request_close (s : t) (channel_id : bytes) : t * result N X402Error :=
  match channels s !! channel_id with
  | None => (s, Err X402Error.ChannelNotFound)
  | Some channel =>
      if decide (SC.state channel ≠ ChannelLifecycle.Open) then (s, Err X402Error.ChannelNotOpen)
      else
        let close_deadline := add64 (current_block s) (SC.challenge_window channel) in
        (set_channels
           (<[channel_id := SC.set_state (ChannelLifecycle.Closing (current_block s)) channel]>
              (channels s)) s, Ok close_deadline)
  end.

Definition finalize_close (s : t) (channel_id : bytes) :
    t * result ChannelSettlement X402Error :=
  match channels s !! channel_id with
  | None => (s, Err X402Error.ChannelNotFound)
  | Some channel =>
      match SC.state channel with
      | ChannelLifecycle.Closing close_requested_at =>
          let ends_at := add64 close_requested_at (SC.challenge_window channel) in
          if (current_block s <? ends_at)%N then
            (s, Err (X402Error.ChallengePeriodActive (ends_at - current_block s)))
          else
            (set_channels
               (<[channel_id := SC.set_state ChannelLifecycle.Closed channel]> (channels s)) s,
             Ok (ChannelSettlement.mk channel_id (SC.balance_a channel) (SC.balance_b channel)
                   (SC.nonce channel)))
      | _ => (s, Err (X402Error.InvalidState "not in Closing state"))
      end
  end.

Definition get_channel (s : t) (channel_id : bytes) : option StateChannel :=
  channels s !! channel_id.

Definition channel_count (s : t) : nat := size (channels s).

Definition to_phase2_channel (channel : StateChannel) : AgentPaymentChannel :=
  let no_signature := replicate 64 Byte.x00 in
  AgentPaymentChannel.mk (SC.channel_id channel)
    (AgentPaymentChannel.mk_party (SC.party_a_passport channel) (SC.party_a channel))
    (AgentPaymentChannel.mk_party (SC.party_b_passport channel) (SC.party_b channel))
    (SC.deposit_a channel) (SC.deposit_b channel)
    (AgentPaymentChannel.mk_state (SC.nonce channel) (SC.balance_a channel)
       (SC.balance_b channel) no_signature no_signature)
    (SC.challenge_window channel).
End X402Manager.
Abbreviation X402Manager := X402Manager.t.
Module XM := X402Manager.

(** ** Histories *)

Inductive x402_op : Type :=
  | SetTime (block timestamp : N)
  | CreateRequest (recipient : Address) (amount : N) (token : Address) (reason : string)
  | RecordNonce (from : Address) (nonce : N)
  | OpenChannel (id : bytes) (a : Address) (a_passport : N) (b : Address)
      (b_passport deposit_a deposit_b : N)
  | UpdateChannel (proof : BalanceProof)
  | RequestClose (id : bytes)
  | FinalizeClose (id : bytes).

Definition apply_x402_op (s : X402Manager) (op : x402_op) : X402Manager :=
  match op with
  | SetTime block timestamp => XM.set_time block timestamp s
  | CreateRequest recipient amount token reason =>
      (XM.create_payment_request s recipient amount token reason).1
  | RecordNonce from nonce => XM.record_nonce s from nonce
  | OpenChannel id a pa b pb da db => (XM.open_channel s id a pa b pb da db).1
  | UpdateChannel proof => (XM.update_channel s proof).1
  | RequestClose id => (XM.request_close s id).1
  | FinalizeClose id => (XM.finalize_close s id).1
  end.

Definition run_x402 (config : X402Config) (ops : list x402_op) : X402Manager :=
  foldl apply_x402_op (XM.new config) ops.

(** The settlements paid out in a history, in order. *)
Definition settlements (config : X402Config) (ops : list x402_op) : list ChannelSettlement :=
  (foldl (λ '(s, log) op,
            (apply_x402_op s op,
             match op with
             | FinalizeClose id =>
                 match (XM.finalize_close s id).2 with Ok st => log ++ [st] | Err _ => log end
             | _ => log
             end)) (XM.new config, []) ops).2.

(** The deposits a channel identifier was opened with. *)
Definition openings (config : X402Config) (id : bytes) (ops : list x402_op) : list (N * N) :=
  omap (λ op, match op with
              | OpenChannel id' _ _ _ _ da db =>
                  if decide (id' = id ∧ (X402Config.min_channel_deposit config ≤ da)%N)
                  then Some (da, db) else None
              | _ => None
              end) ops.

Definition settled (id : bytes) (log : list ChannelSettlement) : list ChannelSettlement :=
  List.filter (λ st, bool_decide (ChannelSettlement.channel_id st = id)) log.

(** The nonce and the balances that an operation agrees on for a channel, by its answer: those of
    an opening that is accepted, or of a proof that is. *)
Definition agreement (s : X402Manager) (op : x402_op) (id : bytes) : option (N * N * N) :=
  match op with
  | OpenChannel id' a pa b pb da db =>
      if decide (id' = id) then
        if is_ok (XM.open_channel s id' a pa b pb da db).2 then Some (0%N, da, db) else None
      else None
  | UpdateChannel proof =>
      if decide (BalanceProof.channel_id proof = id) then
        if is_ok (XM.update_channel s proof).2 then
          Some (BalanceProof.nonce proof, BalanceProof.balance_a proof,
                BalanceProof.balance_b proof)
        else None
      else None
  | _ => None
  end.

(** The last of them in a history. *)
Definition last_agreement (config : X402Config) (ops : list x402_op) (id : bytes) :
    option (N * N * N) :=
  (foldl (λ '(s, last) op, (apply_x402_op s op, match agreement s op id with Some a => Some a | None => last end))
     (XM.new config, None) ops).2.

(** A channel has what was agreed on last, of the deposits it was opened with. *)
Definition channel_agreed config ops id (c : StateChannel) : Prop :=
  SC.channel_id c = id
  ∧ last_agreement config ops id = Some (SC.nonce c, SC.balance_a c, SC.balance_b c)
  ∧ last (openings config id ops) = Some (SC.deposit_a c, SC.deposit_b c)
  ∧ add128 (SC.balance_a c) (SC.balance_b c) = add128 (SC.deposit_a c) (SC.deposit_b c).

(** A closing channel is the channel that was open when its closing was requested. *)
Definition closing_since config ops id (c : StateChannel) : Prop :=
  ∀ b, SC.state c = ChannelLifecycle.Closing b →
    ∃ before after c0, ops = before ++ RequestClose id :: after ∧
      XM.current_block (run_x402 config before) = b ∧
      XM.get_channel (run_x402 config before) id = Some c0 ∧
      SC.state c0 = ChannelLifecycle.Open ∧
      c = SC.set_state (ChannelLifecycle.Closing b) c0.

(** Openings not yet paid out. *)
Definition unsettled (s : X402Manager) (id : bytes) : nat :=
  match XM.get_channel s id with
  | Some c => if decide (SC.state c = ChannelLifecycle.Closed) then 0 else 1
  | None => 0
  end.

Record x402_inv (config : X402Config) (ops : list x402_op) : Prop := {
  xi_config : XM.config (run_x402 config ops) = config;
  xi_closing id c :
    XM.get_channel (run_x402 config ops) id = Some c → closing_since config ops id c;
  xi_count id :
    length (settled id (settlements config ops)) + unsettled (run_x402 config ops) id ≤
    length (openings config id ops);
}.

Lemma run_x402_snoc config ops op :
  run_x402 config (ops ++ [op]) = apply_x402_op (run_x402 config ops) op.
Proof. unfold run_x402. by rewrite foldl_snoc. Qed.

Lemma settlements_snoc config ops op :
  settlements config (ops ++ [op]) =
  settlements config ops ++
  match op with
  | FinalizeClose id =>
      match (XM.finalize_close (run_x402 config ops) id).2 with Ok st => [st] | Err _ => [] end
  | _ => []
  end.
Proof.
  unfold settlements, run_x402. rewrite foldl_snoc.
  match goal with |- context [foldl ?f ?x ops] =>
    assert (foldl apply_x402_op (XM.new config) ops = (foldl f x ops).1) as -> end.
  { induction ops as [|o ops IH] using rev_ind; [done|]. rewrite !foldl_snoc, IH.
    by destruct (foldl _ (XM.new config, []) ops). }
  destruct (foldl _ (XM.new config, []) ops) as [s log]. simpl.
  destruct op; simpl; rewrite ?app_nil_r; try done.
  destruct (XM.finalize_close s id).2; simpl; by rewrite ?app_nil_r.
Qed.

Lemma openings_snoc config id ops op :
  openings config id (ops ++ [op]) =
  openings config id ops ++
  match op with
  | OpenChannel id' _ _ _ _ da db =>
      if decide (id' = id ∧ (X402Config.min_channel_deposit config ≤ da)%N)
      then [(da, db)] else []
  | _ => []
  end.
Proof. unfold openings. rewrite omap_app. f_equal. destruct op; try done. simpl. by case_decide. Qed.

Lemma settled_app id log log' : settled id (log ++ log') = settled id log ++ settled id log'.
Proof. apply List.filter_app. Qed.

Lemma closing_snoc config ops op id c :
  closing_since config ops id c → closing_since config (ops ++ [op]) id c.
Proof.
  intros H b Hb. destruct (H b Hb) as (l & k & c0 & -> & ?). exists l, (k ++ [op]), c0.
  split; [by rewrite <-app_assoc|done].
Qed.

(** What an operation adds to the settlements and to the openings. *)
Definition paid_by (s : X402Manager) (op : x402_op) : list ChannelSettlement :=
  match op with
  | FinalizeClose id => match (XM.finalize_close s id).2 with Ok st => [st] | Err _ => [] end
  | _ => []
  end.

Definition opened_by (config : X402Config) (id : bytes) (op : x402_op) : list (N * N) :=
  match op with
  | OpenChannel id' _ _ _ _ da db =>
      if decide (id' = id ∧ (X402Config.min_channel_deposit config ≤ da)%N) then [(da, db)] else []
  | _ => []
  end.

Lemma inv_step config ops op (s := run_x402 config ops) (s' := apply_x402_op s op) :
  x402_inv config ops → XM.config s' = config →
  (∀ id c, XM.get_channel s' id = Some c → XM.get_channel s id = Some c ∨
     closing_since config (ops ++ [op]) id c) →
  (∀ id, length (settled id (paid_by s op)) + unsettled s' id ≤
         unsettled s id + length (opened_by config id op)) →
  x402_inv config (ops ++ [op]).
Proof.
  intros [Hc Hcl Hn] Hconf Hchan Hcount.
  assert (run_x402 config (ops ++ [op]) = s') as Es by apply run_x402_snoc.
  split; rewrite ?Es.
  - done.
  - intros id c Hid. destruct (Hchan id c Hid) as [H|?]; [|done]. by apply closing_snoc, Hcl.
  - intros id. rewrite settlements_snoc, openings_snoc, settled_app, !length_app.
    specialize (Hn id). specialize (Hcount id).
    change (length (settled id (settlements config ops)) + length (settled id (paid_by s op)) +
            unsettled s' id ≤ length (openings config id ops) + length (opened_by config id op)).
    unfold s in *. lia.
Qed.

(** An operation that leaves the channels alone. *)
Lemma inv_frame config ops op (s := run_x402 config ops) :
  x402_inv config ops → XM.config (apply_x402_op s op) = XM.config s →
  XM.channels (apply_x402_op s op) = XM.channels s → paid_by s op = [] →
  x402_inv config (ops ++ [op]).
Proof.
  intros H Hc Hs Hp. pose proof (xi_config _ _ H) as Hconf.
  assert (∀ id, unsettled (apply_x402_op s op) id = unsettled s id) as Hu
    by (intros id; unfold unsettled, XM.get_channel; by rewrite Hs).
  apply inv_step; fold s; [done|by rewrite Hc| |].
  - intros id c. unfold XM.get_channel. rewrite Hs. by left.
  - intros id. rewrite Hp, Hu. simpl. lia.
Qed.

Lemma get_set_channel s id c id' :
  XM.get_channel (XM.set_channels (<[id := c]> (XM.channels s)) s) id' =
  if decide (id' = id) then Some c else XM.get_channel s id'.
Proof.
  unfold XM.get_channel, XM.set_channels. simpl. case_decide as E; [subst; by rewrite lookup_insert_eq|].
  by rewrite lookup_insert_ne.
Qed.

Lemma unsettled_set s id c id' :
  unsettled (XM.set_channels (<[id := c]> (XM.channels s)) s) id' =
  if decide (id' = id)
  then (if decide (SC.state c = ChannelLifecycle.Closed) then 0 else 1) else unsettled s id'.
Proof. unfold unsettled. rewrite get_set_channel. by case_decide. Qed.

(** An operation that replaces one channel and pays nothing. *)
Lemma inv_replace config ops op (s := run_x402 config ops) id c c' :
  x402_inv config ops → XM.get_channel s id = Some c →
  apply_x402_op s op = XM.set_channels (<[id := c']> (XM.channels s)) s → paid_by s op = [] →
  SC.state c ≠ ChannelLifecycle.Closed →
  closing_since config (ops ++ [op]) id c' → x402_inv config (ops ++ [op]).
Proof.
  intros H Hc Hop Hp Hopen Hcl. pose proof (xi_config _ _ H) as Hconf.
  apply inv_step; fold s; [done|by rewrite Hop| |].
  - intros id' d. rewrite Hop, get_set_channel. case_decide; [|by left]. intros [= <-]. subst. by right.
  - intros id'. rewrite Hp, Hop, unsettled_set. simpl. case_decide; [|lia]. subst id'.
    unfold unsettled. rewrite Hc. repeat case_decide; try done; lia.
Qed.

Lemma inv_open config ops id a pa b pb da db :
  x402_inv config ops → x402_inv config (ops ++ [OpenChannel id a pa b pb da db]).
Proof.
  intros H. pose proof (xi_config _ _ H) as Hconf.
  destruct (N.ltb_spec da (X402Config.min_channel_deposit config)) as [Hlt|Hge].
  { apply inv_frame; [done|..|done]; unfold apply_x402_op, XM.open_channel; rewrite Hconf;
      by rewrite (proj2 (N.ltb_lt _ _) Hlt). }
  assert (apply_x402_op (run_x402 config ops) (OpenChannel id a pa b pb da db) =
    XM.set_channels (<[id := SC.mk id a pa b pb da db 0 da db ChannelLifecycle.Open
      (X402Config.challenge_window_blocks config) (XM.current_block (run_x402 config ops))]>
      (XM.channels (run_x402 config ops))) (run_x402 config ops)) as Hop.
  { unfold apply_x402_op, XM.open_channel. rewrite Hconf.
    by rewrite (proj2 (N.ltb_ge _ _) Hge). }
  apply inv_step; [done|by rewrite Hop| |].
  - intros id' c. rewrite Hop, get_set_channel. case_decide; [|by left]. intros [= <-]. subst. right.
    by intros ?.
  - intros id'. rewrite Hop, unsettled_set. simpl. case_decide; [|lia]. subst id'.
    rewrite decide_True by done. simpl. lia.
Qed.

Lemma inv_update config ops proof :
  x402_inv config ops → x402_inv config (ops ++ [UpdateChannel proof]).
Proof.
  intros H. set (s := run_x402 config ops) in *.
  destruct (XM.get_channel s (BalanceProof.channel_id proof)) as [c|] eqn:Ec;
    [|apply inv_frame; fold s; try done; unfold apply_x402_op, XM.update_channel;
      unfold XM.get_channel in Ec; by rewrite Ec].
  assert (XM.update_channel s proof = XM.update_channel s proof) as Hu by done.
  unfold XM.update_channel at 2 in Hu. unfold XM.get_channel in Ec. rewrite Ec in Hu.
  destruct (decide (SC.state c ≠ ChannelLifecycle.Open)) as [Hs|Hs%dec_stable];
    [apply inv_frame; fold s; try done; simpl; by rewrite Hu|].
  destruct (_ <=? _)%N eqn:En in Hu; [apply inv_frame; fold s; try done; simpl; by rewrite Hu|].
  destruct (negb _) eqn:Et in Hu; [apply inv_frame; fold s; try done; simpl; by rewrite Hu|].
  apply negb_false_iff, N.eqb_eq in Et.
  eapply (inv_replace config ops _ (BalanceProof.channel_id proof) c);
    [done|exact Ec|simpl; fold s; by rewrite Hu|done|by rewrite Hs|].
  intros b Hb. simpl in Hb. congruence.
Qed.

Lemma inv_request config ops id : x402_inv config ops → x402_inv config (ops ++ [RequestClose id]).
Proof.
  intros H. set (s := run_x402 config ops) in *.
  assert (XM.request_close s id = XM.request_close s id) as Hu by done.
  unfold XM.request_close at 2 in Hu.
  destruct (XM.channels s !! id) as [c|] eqn:Ec;
    [|apply inv_frame; fold s; try done; simpl; by rewrite Hu].
  destruct (decide (SC.state c ≠ ChannelLifecycle.Open)) as [Hs|Hs%dec_stable];
    [apply inv_frame; fold s; try done; simpl; by rewrite Hu|].
  eapply (inv_replace config ops _ id c); [done|exact Ec|simpl; fold s; by rewrite Hu|done|by rewrite Hs|].
  intros b Hb. simpl in Hb. injection Hb as <-. exists ops, [], c. by split_and!.
Qed.

Lemma inv_finalize config ops id : x402_inv config ops → x402_inv config (ops ++ [FinalizeClose id]).
Proof.
  intros H. pose proof (xi_config _ _ H) as Hconf.
  set (s := run_x402 config ops) in *.
  assert (XM.finalize_close s id = XM.finalize_close s id) as Hu by done.
  unfold XM.finalize_close at 2 in Hu.
  destruct (XM.channels s !! id) as [c|] eqn:Ec;
    [|apply inv_frame; fold s; try done; simpl; by rewrite Hu].
  destruct (SC.state c) as [|b| |] eqn:Es;
    [apply inv_frame; fold s; try done; simpl; by rewrite Hu| |
     apply inv_frame; fold s; try done; simpl; by rewrite Hu..].
  destruct (_ <? _)%N in Hu; [apply inv_frame; fold s; try done; simpl; by rewrite Hu|].
  apply inv_step; fold s; simpl; rewrite ?Hu; [done|done| |].
  - intros id' d. cbn [fst]. rewrite get_set_channel. case_decide; [|by left].
    intros [= <-]. subst id'. right. by intros ?.
  - intros id'. cbn [fst snd]. rewrite unsettled_set. simpl.
    destruct (decide (id' = id)) as [->|Hne].
    + rewrite bool_decide_eq_true_2 by done. unfold unsettled, XM.get_channel. rewrite Ec.
      simpl. rewrite (decide_False (P := SC.state c = _)) by congruence. lia.
    + rewrite bool_decide_eq_false_2 by done. simpl. lia.
Qed.

Lemma x402_run_inv config ops : x402_inv config ops.
Proof.
  induction ops as [|op ops IH] using rev_ind.
  { by split. }
  destruct op; [by apply inv_frame..| | | |].
  - by apply inv_open.
  - by apply inv_update.
  - by apply inv_request.
  - by apply inv_finalize.
Qed.

Lemma last_agreement_snoc config ops op id :
  last_agreement config (ops ++ [op]) id =
    match agreement (run_x402 config ops) op id with
    | Some a => Some a | None => last_agreement config ops id end.
Proof.
  unfold last_agreement, run_x402. rewrite foldl_snoc.
  match goal with |- context [foldl ?f ?x ops] =>
    assert (foldl apply_x402_op (XM.new config) ops = (foldl f x ops).1) as -> end.
  { induction ops as [|o ops IH] using rev_ind; [done|]. rewrite !foldl_snoc, IH.
    by destruct (foldl _ (XM.new config, None) ops). }
  by destruct (foldl _ (XM.new config, None) ops).
Qed.

(** An operation that touches no money of a channel. *)
Lemma agreed_kept config ops op id c :
  channel_agreed config ops id c → agreement (run_x402 config ops) op id = None →
  opened_by config id op = [] → channel_agreed config (ops ++ [op]) id c.
Proof.
  intros (H1 & H2 & H3 & H4) Ha Ho. split_and!; try done.
  - by rewrite last_agreement_snoc, Ha.
  - rewrite openings_snoc. fold (opened_by config id op). by rewrite Ho, app_nil_r.
Qed.

Lemma channels_agreed config ops id c :
  XM.get_channel (run_x402 config ops) id = Some c → channel_agreed config ops id c.
Proof.
  revert c. induction ops as [|op ops IH] using rev_ind; intros c; [done|].
  rewrite run_x402_snoc. pose proof (xi_config _ _ (x402_run_inv config ops)) as Hconf.
  set (s := run_x402 config ops) in *.
  destruct op as [| | |i a pa b pb da db|proof|i|i].
  1-3: intros H; by apply agreed_kept; [apply IH|..].
  - cbn [apply_x402_op]. intros H.
    destruct (XM.open_channel s i a pa b pb da db) as [s' r] eqn:E. pose proof E as E'.
    unfold XM.open_channel in E. rewrite Hconf in E.
    destruct (N.ltb_spec da (X402Config.min_channel_deposit config)) as [Hlt|Hge];
      injection E as <- <-; cbn [fst] in H.
    + apply agreed_kept; [by apply IH| |].
      * cbn [agreement]. fold s. rewrite E'. by case_decide.
      * cbn [opened_by]. case_decide; [lia|done].
    + rewrite get_set_channel in H. destruct (decide (id = i)) as [->|Hne].
      * injection H as <-. split; [done|]. rewrite last_agreement_snoc, openings_snoc.
        cbn [agreement]. fold s. rewrite E', decide_True by done.
        rewrite decide_True by done. by rewrite last_snoc.
      * apply agreed_kept; [by apply IH| |]; cbn [agreement opened_by];
          rewrite decide_False; naive_solver.
  - cbn [apply_x402_op]. intros H. destruct (XM.update_channel s proof) as [s' r] eqn:E.
    pose proof E as E'. unfold XM.update_channel in E. cbn [fst] in H.
    assert (∀ e, (s', r) = (s, Err e) → channel_agreed config (ops ++ [UpdateChannel proof]) id c)
      as Hrefused.
    { intros e [= -> ->]. apply agreed_kept; [by apply IH| |done].
      cbn [agreement]. fold s. rewrite E'. by case_decide. }
    destruct (XM.channels s !! BalanceProof.channel_id proof) as [c0|] eqn:Ec;
      [|by eapply Hrefused].
    destruct (decide _) as [Hs|Hs]; [by eapply Hrefused|].
    destruct (_ <=? _)%N; [by eapply Hrefused|].
    destruct (negb _) eqn:Et; [by eapply Hrefused|]. clear Hrefused.
    apply negb_false_iff, N.eqb_eq in Et. injection E as <- <-. rewrite get_set_channel in H.
    destruct (decide (id = BalanceProof.channel_id proof)) as [->|Hne].
    + injection H as <-. destruct (IH c0 Ec) as (H1 & _ & H3 & _). split; [done|].
      rewrite last_agreement_snoc, openings_snoc, app_nil_r. cbn [agreement]. fold s.
      by rewrite E', decide_True.
    + apply agreed_kept; [by apply IH| |done]. cbn [agreement]. by rewrite decide_False.
  - cbn [apply_x402_op]. unfold XM.request_close. intros H.
    destruct (XM.channels s !! i) as [c0|] eqn:Ec; [|by apply agreed_kept; [apply IH|..]].
    destruct (decide _); [by apply agreed_kept; [apply IH|..]|]. cbn [fst] in H.
    rewrite get_set_channel in H. destruct (decide (id = i)) as [->|].
    + injection H as <-.
      by apply (agreed_kept config ops (RequestClose i) i c0); [apply IH|..].
    + by apply agreed_kept; [apply IH|..].
  - cbn [apply_x402_op]. unfold XM.finalize_close. intros H.
    destruct (XM.channels s !! i) as [c0|] eqn:Ec; [|by apply agreed_kept; [apply IH|..]].
    destruct (SC.state c0); try by apply agreed_kept; [apply IH|..].
    destruct (_ <? _)%N; [by apply agreed_kept; [apply IH|..]|]. cbn [fst] in H.
    rewrite get_set_channel in H. destruct (decide (id = i)) as [->|].
    + injection H as <-.
      by apply (agreed_kept config ops (FinalizeClose i) i c0); [apply IH|..].
    + by apply agreed_kept; [apply IH|..].
Qed.

(** A payment is that of the channel as it was then. *)
Lemma paid_from_channel config ops st :
  st ∈ settlements config ops →
  ∃ before after c,
    ops = before ++ FinalizeClose (ChannelSettlement.channel_id st) :: after
    ∧ channel_agreed config before (ChannelSettlement.channel_id st) c
    ∧ st = ChannelSettlement.mk (ChannelSettlement.channel_id st) (SC.balance_a c)
             (SC.balance_b c) (SC.nonce c).
Proof.
  induction ops as [|op ops IH] using rev_ind; [by intros ?%elem_of_nil|].
  rewrite settlements_snoc, elem_of_app. intros [H|H].
  - destruct (IH H) as (before & after & c & -> & H'). exists before, (after ++ [op]), c.
    by rewrite <-app_assoc.
  - destruct op as [| | | | | |i]; try by apply elem_of_nil in H.
    unfold XM.finalize_close in H.
    destruct (XM.channels (run_x402 config ops) !! i) as [c|] eqn:Ec; [|by apply elem_of_nil in H].
    destruct (SC.state c); try by apply elem_of_nil in H.
    destruct (_ <? _)%N; [by apply elem_of_nil in H|].
    apply list_elem_of_singleton in H as ->. exists ops, [], c. cbn.
    split_and!; [done|by apply channels_agreed|done].
Qed.

(** C37: Channels keep their money.  After any history of operations, refused ones included,
    a channel has the balances of the opening or the proof that was accepted for it last; they
    add up to the deposits of that opening in the 128 bits of the code, and as numbers when neither
    sum overflows; a proof is accepted exactly when the channel is open, the proof is newer and
    adds up; once closing is requested nothing but the closing changes the channel; it is paid
    out exactly when the challenge window after the request has passed, with these balances; and
    there are never more payments for an identifier than openings. *)
Theorem channels_settle_once config ops :
  let s := run_x402 config ops in
  (∀ id c, XM.get_channel s id = Some c →
     channel_agreed config ops id c ∧ closing_since config ops id c ∧
     ((SC.balance_a c + SC.balance_b c ≤ u128_MAX)%N →
      (SC.deposit_a c + SC.deposit_b c ≤ u128_MAX)%N →
      (SC.balance_a c + SC.balance_b c = SC.deposit_a c + SC.deposit_b c)%N)) ∧
  (∀ proof, is_ok (XM.update_channel s proof).2 = true ↔
     ∃ c, XM.get_channel s (BalanceProof.channel_id proof) = Some c ∧
       SC.state c = ChannelLifecycle.Open ∧ (SC.nonce c < BalanceProof.nonce proof)%N ∧
       add128 (BalanceProof.balance_a proof) (BalanceProof.balance_b proof) =
       add128 (SC.deposit_a c) (SC.deposit_b c)) ∧
  (∀ id st, (XM.finalize_close s id).2 = Ok st ↔
     ∃ c b, XM.get_channel s id = Some c ∧ SC.state c = ChannelLifecycle.Closing b ∧
       (add64 b (SC.challenge_window c) ≤ XM.current_block s)%N ∧
       st = ChannelSettlement.mk id (SC.balance_a c) (SC.balance_b c) (SC.nonce c)) ∧
  (∀ id, length (settled id (settlements config ops)) + unsettled s id ≤
     length (openings config id ops)) ∧
  (∀ st, st ∈ settlements config ops → ∃ before after c,
     ops = before ++ FinalizeClose (ChannelSettlement.channel_id st) :: after ∧
     channel_agreed config before (ChannelSettlement.channel_id st) c ∧
     st = ChannelSettlement.mk (ChannelSettlement.channel_id st) (SC.balance_a c)
            (SC.balance_b c) (SC.nonce c)).
Proof.
  intros s. pose proof (x402_run_inv config ops) as [Hc Hcl Hn].
  split_and!; [|..|exact Hn|apply paid_from_channel].
  - intros id c Hid. pose proof (channels_agreed _ _ _ _ Hid) as Ha.
    split; [done|]. split; [by apply Hcl|]. destruct Ha as (_ & _ & _ & Hsum). intros H1 H2.
    by rewrite !add128_small in Hsum.
  - intros proof. unfold XM.update_channel, XM.get_channel.
    destruct (XM.channels s !! BalanceProof.channel_id proof) as [c|];
      [|split; [done|by intros (? & ? & _)]].
    destruct (decide _) as [Hs|Hs%dec_stable]; [split; [done|naive_solver]|].
    destruct (N.leb_spec (BalanceProof.nonce proof) (SC.nonce c));
      [split; [done|intros (c' & [= <-] & _ & ? & _); lia]|].
    destruct (N.eqb_spec (add128 (BalanceProof.balance_a proof) (BalanceProof.balance_b proof))
                (add128 (SC.deposit_a c) (SC.deposit_b c))); simpl;
      [|split; [done|by intros (c' & [= <-] & _ & _ & ?)]].
    split; [|done]. intros _. by exists c.
  - intros id st. unfold XM.finalize_close, XM.get_channel.
    destruct (XM.channels s !! id) as [c|]; [|split; [done|by intros (? & ? & ? & _)]].
    destruct (SC.state c) as [|b| |] eqn:Es;
      try (split; [done|intros (c' & b' & [= <-] & ? & _); congruence]).
    destruct (N.ltb_spec (XM.current_block s) (add64 b (SC.challenge_window c))); simpl.
    + split; [done|]. intros (c' & b' & [= <-] & Eb & Hle & _). rewrite Es in Eb.
      injection Eb as <-. lia.
    + split; [intros [= <-]; by exists c, b|]. intros (c' & b' & [= <-] & _ & _ & ->). done.
Qed.

(** A channel that is updated twice, closed and paid out by the second proof. *)
Definition sample_history : list x402_op :=
  let id := [Byte.x01] in
  [OpenChannel id "a" 1 "b" 2 5000 0; UpdateChannel (BalanceProof.mk id 1 4000 1000 [] []);
   UpdateChannel (BalanceProof.mk id 3 3000 2000 [] []);
   UpdateChannel (BalanceProof.mk id 2 4500 500 [] []);
   RequestClose id; SetTime 100 0; FinalizeClose id].

Lemma channels_settle_once_witness :
  settlements X402Config.default sample_history = [ChannelSettlement.mk [Byte.x01] 3000 2000 3]
  ∧ ∃ c, XM.get_channel (run_x402 X402Config.default sample_history) [Byte.x01] = Some c
      ∧ last_agreement X402Config.default sample_history [Byte.x01] = Some (3, 3000, 2000)%N
      ∧ (SC.balance_a c + SC.balance_b c = 5000)%N.
Proof.
  split; [vm_compute; reflexivity|].
  destruct (XM.get_channel (run_x402 X402Config.default sample_history) [Byte.x01]) as [c|] eqn:E;
    [|vm_compute in E; discriminate].
  destruct (channels_settle_once X402Config.default sample_history) as (H & _).
  destruct (H _ _ E) as (_ & _ & Hsum). vm_compute in E. injection E as <-.
  eexists. split; [reflexivity|]. split; [vm_compute; reflexivity|].
  apply Hsum; vm_compute; discriminate.
Defined.

(** ** Authorizations *)

Lemma nonce_recorded config ops from nonce :
  is_Some (XM.used_nonces (run_x402 config ops) !! (from, nonce)) ↔ RecordNonce from nonce ∈ ops.
Proof.
  induction ops as [|op ops IH] using rev_ind.
  { simpl. rewrite lookup_empty. split; [by intros [? ?]|by intros ?%elem_of_nil]. }
  rewrite run_x402_snoc, elem_of_app, list_elem_of_singleton, <-IH.
  set (s := run_x402 config ops). destruct op as [| |f n| | | |]; simpl.
  1,2: naive_solver.
  - destruct (decide ((f, n) = (from, nonce))) as [[= -> ->]|Hne].
    + rewrite lookup_insert_eq. split; eauto.
    + rewrite lookup_insert_ne by done. naive_solver.
  - unfold XM.open_channel. destruct (_ <? _)%N; naive_solver.
  - unfold XM.update_channel. repeat case_match; simpl; naive_solver.
  - unfold XM.request_close. repeat case_match; simpl; naive_solver.
  - unfold XM.finalize_close. repeat case_match; simpl; naive_solver.
Qed.

(** An authorization is valid exactly when its nonce was never recorded for its payer, it
    covers the amount, names the recipient and the time is in its window. *)
Lemma authorization_valid_iff config ops request auth :
  let s := run_x402 config ops in
  XM.verify_authorization s request auth = VerificationStatus.Valid ↔
  (RecordNonce (PaymentAuthorization.from auth) (PaymentAuthorization.nonce auth) ∉ ops) ∧
  (PaymentRequest.amount request ≤ PaymentAuthorization.value auth)%N ∧
  PaymentAuthorization.to auth = PaymentRequest.recipient request ∧
  (PaymentAuthorization.valid_after auth ≤ XM.current_timestamp s ≤
   PaymentAuthorization.valid_before auth)%N.
Proof.
  intros s. unfold XM.verify_authorization, string_eqb. rewrite <-(nonce_recorded config ops).
  fold s. case_bool_decide; [split; [done|tauto]|].
  destruct (N.ltb_spec (PaymentAuthorization.value auth) (PaymentRequest.amount request));
    [split; [done|lia]|].
  case_bool_decide; simpl; [|split; [done|tauto]].
  destruct (N.ltb_spec (XM.current_timestamp s) (PaymentAuthorization.valid_after auth)); simpl;
    [split; [done|lia]|].
  destruct (N.ltb_spec (PaymentAuthorization.valid_before auth) (XM.current_timestamp s));
    split; intros; split_and?; try done; lia.
Qed.

(** *** Where the checks fall short *)

(** The sum of the balances of a proof wraps: a proof can give a party almost all 128-bit
    money of the world. *)
Lemma wrapping_proof_accepted :
  let id := [Byte.x01] in
  let s := run_x402 X402Config.default
    [OpenChannel id "a" 1 "b" 2 1000 0; UpdateChannel (BalanceProof.mk id 1 u128_MAX 1001 [] [])] in
  (SC.balance_a <$> XM.get_channel s id) = Some u128_MAX.
Proof. vm_compute. reflexivity. Qed.

(** Opening a channel under an identifier in use replaces the open channel: its deposits
    are paid out to nobody. *)
Lemma reopening_forgets_deposits :
  let id := [Byte.x01] in
  let ops := [OpenChannel id "a" 1 "b" 2 5000 0; OpenChannel id "c" 3 "d" 4 1000 0;
              RequestClose id; SetTime 100 0; FinalizeClose id; FinalizeClose id] in
  settlements X402Config.default ops = [ChannelSettlement.mk id 1000 0 0].
Proof. vm_compute. reflexivity. Qed.

(** In the challenge period a newer proof is refused, so nothing can be challenged. *)
Lemma challenge_refused s proof c b :
  XM.get_channel s (BalanceProof.channel_id proof) = Some c →
  SC.state c = ChannelLifecycle.Closing b →
  XM.update_channel s proof = (s, Err X402Error.ChannelNotOpen).
Proof.
  unfold XM.get_channel, XM.update_channel. intros -> Hs. by rewrite decide_True by (by rewrite Hs).
Qed.

(** The token, the nonce and the deadline of a request are not looked at. *)
Lemma request_fields_ignored s r amount token nonce deadline reason token' nonce' deadline' auth :
  XM.verify_authorization s (PaymentRequest.mk r amount token nonce deadline reason) auth =
  XM.verify_authorization s (PaymentRequest.mk r amount token' nonce' deadline' reason) auth.
Proof. done. Qed.
