(* ===== verification/Dispatch.v ===== *)
(** * Hiring an agent (crates/roko-chain/src/identity_economy_markets.rs, dispatch)

    Bids, the reputation-adjusted second-price auction and the three hiring models. *)

From S2P Require Import Prelude Bytes ChainTypes.

(** The natural logarithm of the platform's mathematics library. *)
Class Libm := { f64_ln : F64.t → F64.t }.

Module AuctionType.
Inductive t : Type :=
  | FPSB
  | Vickrey
  | Dutch (start_price decrement_per_block : N).
End AuctionType.
Abbreviation AuctionType := AuctionType.t.

Module HiringModel.
Inductive t : Type :=
  | RandomVRF
  | BlindAuction (auction_duration_blocks : N) (auction_type : AuctionType)
  | DirectHire (target_passport_id : N).
End HiringModel.
Abbreviation HiringModel := HiringModel.t.

Module BountySpec.
Record t : Type := mk {
  job_id : bytes;
  title : string;
  description : string;
  required_capabilities : N;
  required_domain : string;
  min_reputation : F64.t;
  max_budget_usdc : N;
  deadline : N;
  hiring_model : HiringModel;
  evaluation_criteria : list string;
  quality_threshold : F64.t;
  poster_passport_id : N;
}.
End BountySpec.
Abbreviation BountySpec := BountySpec.t.

Module SparrowBid.
Record t : Type := mk {
  bidder_passport_id : N;
  bounty_id : bytes;
  price_usdc : N;
  estimated_time : N;
  capability_proof : N;
  reputation_snapshot : F64.t;
  signature : bytes;
}.
End SparrowBid.
Abbreviation SparrowBid := SparrowBid.t.

Module DispatchDecision.
Record t : Type := mk {
  winner : N;
  payment : F64.t;
  model : HiringModel;
  audit_trail : list string;
}.
End DispatchDecision.
Abbreviation DispatchDecision := DispatchDecision.t.

Module VickreyResult.
Record t : Type := mk { winner_index : nat; payment : F64.t }.
End VickreyResult.
Abbreviation VickreyResult := VickreyResult.t.

(** ** The auction *)

(** [1.0 + (1.0 - reputation)] *)
Definition reputation_factor (reputation : F64.t) : F64.t :=
  F64.add (F64.of_Z 1) (F64.sub (F64.of_Z 1) reputation).

Definition score_bid (bid : SparrowBid) : F64.t :=
  F64.mul (F64.of_N (SparrowBid.price_usdc bid))
    (reputation_factor (SparrowBid.reputation_snapshot bid)).

(** [partial_cmp(..).unwrap_or(Equal) != Greater]: the order of a stable sort. *)
Definition score_le (a b : nat * F64.t) : bool := negb (F64.gt a.2 b.2).

Definition scored_bids (bids : list SparrowBid) : list (nat * F64.t) :=
  sort_by score_le (imap (λ i b, (i, score_bid b)) bids).

Definition select_winner (bids : list SparrowBid) : option VickreyResult :=
  match scored_bids bids with
  | [] => None
  | (winner_idx, first_score) :: rest =>
      let second_score := match rest with (_, score) :: _ => score | [] => first_score end in
      let winner_rep :=
        default F64.zero (SparrowBid.reputation_snapshot <$> bids !! winner_idx) in
      Some (VickreyResult.mk winner_idx (F64.div second_score (reputation_factor winner_rep)))
  end.

(** ** The hiring models *)

Section Dispatch.
Context {LM : Libm}.

Definition anti_centralization_fee (base_fee : F64.t) (repeat_count : N) : F64.t :=
  F64.mul base_fee
    (F64.add (F64.of_Z 1) (f64_ln (F64.add (F64.of_Z 1) (F64.of_N repeat_count)))).

(** [bytes[k] as usize] of an identifier. *)
Definition byte_at (k : nat) (id : bytes) : nat :=
  N.to_nat (Byte.to_N (nth k id Byte.x00)).

(** The two candidates of the power of two choices. *)
Definition candidate_pair (job_id : bytes) (n : nat) : nat * nat :=
  let i := byte_at 0 job_id mod n in
  let candidate := byte_at 1 job_id mod n in
  (i, if decide (candidate = i) then (candidate + 1) mod n else candidate).

Definition dispatch_random_vrf (pool : list SparrowBid) (bounty : BountySpec) :
    option DispatchDecision :=
  let payment := F64.of_N (BountySpec.max_budget_usdc bounty) in
  match pool with
  | [] => None
  | [bid] =>
      Some (DispatchDecision.mk (SparrowBid.bidder_passport_id bid) payment HiringModel.RandomVRF
              ["single candidate — auto-assigned"])
  | _ =>
      let '(i, j) := candidate_pair (BountySpec.job_id bounty) (length pool) in
      match pool !! i, pool !! j with
      | Some bid_i, Some bid_j =>
          let score_i := SparrowBid.reputation_snapshot bid_i in
          let score_j := SparrowBid.reputation_snapshot bid_j in
          let '(winner_idx, winner) := if F64.ge score_i score_j then (i, bid_i) else (j, bid_j) in
          Some (DispatchDecision.mk (SparrowBid.bidder_passport_id winner) payment
                  HiringModel.RandomVRF
                  ["P2C: candidate[" +:+ fmt_nat i +:+ "] rep=" +:+ fmt_fixed 3 score_i +:+
                   " vs candidate[" +:+ fmt_nat j +:+ "] rep=" +:+ fmt_fixed 3 score_j +:+
                   " -> winner=[" +:+ fmt_nat winner_idx +:+ "]"])
      | _, _ => None
      end
  end.

Definition dispatch_blind_auction (bids : list SparrowBid) (bounty : BountySpec) :
    option DispatchDecision :=
  match select_winner bids with
  | None => None
  | Some result =>
      let auction_type :=
        match BountySpec.hiring_model bounty with
        | HiringModel.BlindAuction _ auction_type => auction_type
        | _ => AuctionType.Vickrey
        end in
      (λ bid, DispatchDecision.mk (SparrowBid.bidder_passport_id bid)
                (VickreyResult.payment result)
                (HiringModel.BlindAuction 0 auction_type)
                ["Vickrey winner: index=" +:+ fmt_nat (VickreyResult.winner_index result) +:+
                 ", payment=" +:+ fmt_fixed 2 (VickreyResult.payment result)]) <$>
      bids !! VickreyResult.winner_index result
  end.

Definition dispatch_direct_hire (target_passport_id : N) (base_fee : F64.t) (repeat_count : N) :
    DispatchDecision :=
  let fee := anti_centralization_fee base_fee repeat_count in
  DispatchDecision.mk target_passport_id fee (HiringModel.DirectHire target_passport_id)
    ["direct hire: target=" +:+ fmt_N target_passport_id +:+ ", base_fee=" +:+
     fmt_fixed 2 base_fee +:+ ", repeats=" +:+ fmt_N repeat_count +:+ ", fee=" +:+
     fmt_fixed 2 fee].
End Dispatch.

(** ** Facts *)

Lemma candidate_pair_spec job_id n i j :
  2 ≤ n → candidate_pair job_id n = (i, j) → i < n ∧ j < n ∧ i ≠ j.
Proof.
  intros Hn [= <- <-]. assert (∀ k, k mod n < n) as Hmod by (intros; apply Nat.mod_upper_bound; lia).
  split_and!; [apply Hmod|case_decide; apply Hmod|].
  case_decide as E; [|done]. rewrite E. set (k := byte_at 0 job_id mod n).
  specialize (Hmod (byte_at 0 job_id)). fold k in Hmod. clearbody k. clear E.
  destruct (decide (k + 1 = n)) as [E|E].
  - rewrite E, Nat.Div0.mod_same. lia.
  - rewrite Nat.mod_small by lia. lia.
Qed.

Section VrfFacts.
Context {LM : Libm}.

(** A job is assigned to one of two different candidates, the one of the higher reputation. *)
Lemma dispatch_random_vrf_spec pool bounty :
  match dispatch_random_vrf pool bounty with
  | None => pool = []
  | Some decision =>
      ∃ i j bid other, pool !! i = Some bid ∧ pool !! j = Some other ∧
        (i ≠ j ∨ length pool = 1) ∧
        DispatchDecision.winner decision = SparrowBid.bidder_passport_id bid ∧
        DispatchDecision.payment decision = F64.of_N (BountySpec.max_budget_usdc bounty) ∧
        F64.lt (SparrowBid.reputation_snapshot bid) (SparrowBid.reputation_snapshot other) = false
  end.
Proof.
  unfold dispatch_random_vrf. destruct pool as [|b1 [|b2 pool]]; [done| |].
  - exists 0, 0, b1, b1. split_and!; try done; [by right|]. apply sf_le_refl.
  - set (l := b1 :: b2 :: pool). destruct (candidate_pair (BountySpec.job_id bounty) (length l))
      as [i j] eqn:E.
    apply candidate_pair_spec in E as (Hi & Hj & Hij); [|simpl; lia].
    destruct (lookup_lt_is_Some_2 l i Hi) as [bi Hbi], (lookup_lt_is_Some_2 l j Hj) as [bj Hbj].
    rewrite Hbi, Hbj. destruct (F64.ge _ _) eqn:Hge.
    + exists i, j, bi, bj. split_and!; try done; [by left|]. by apply leb_le.
    + exists j, i, bj, bi. split_and!; try done; [by left|]. by apply not_leb_lt.
Qed.
End VrfFacts.

(** *** The auction *)

Definition number_score (p : nat * F64.t) : Prop := F64.is_nan p.2 = false.

Lemma score_le_total a b : score_le a b = true ∨ score_le b a = true.
Proof.
  unfold score_le. destruct (F64.gt a.2 b.2) eqn:E; [right|by left].
  pose proof (sf_lt_le _ _ E) as H. unfold sf_le in H. unfold F64.gt. by rewrite H.
Qed.

Lemma score_le_iff a b : score_le a b = true ↔ sf_le a.2 b.2.
Proof. unfold score_le, sf_le, F64.gt. by rewrite negb_true_iff. Qed.

Lemma scored_bids_sorted bids :
  Forall (λ b, F64.is_nan (score_bid b) = false) bids →
  StronglySorted (λ a b, score_le a b = true) (scored_bids bids).
Proof.
  intros Hn. apply (sort_by_sorted_on _ number_score score_le_total).
  - intros x y z _ Hy _. rewrite !score_le_iff. by apply sf_le_trans.
  - apply Forall_forall. intros [i f] (k & b & [= -> ->] & Hk)%elem_of_lookup_imap.
    rewrite Forall_forall in Hn. apply Hn. by eapply list_elem_of_lookup_2.
Qed.

Lemma elem_of_scored_bids bids i f :
  (i, f) ∈ scored_bids bids ↔ ∃ b, bids !! i = Some b ∧ f = score_bid b.
Proof.
  unfold scored_bids. rewrite elem_of_sort_by. split.
  - intros (k & b & [= -> ->] & Hk)%elem_of_lookup_imap. eauto.
  - intros (b & Hb & ->). apply elem_of_lookup_imap. eauto.
Qed.

Lemma scored_bids_indices bids : (scored_bids bids).*1 ≡ₚ seq 0 (length bids).
Proof.
  unfold scored_bids. rewrite sort_by_perm, fmap_imap.
  rewrite <-(list_fmap_id (seq 0 (length bids))). rewrite <-(imap_seq_0 bids id).
  reflexivity.
Qed.

(** The auction takes a bid of the least reputation-adjusted score, and pays the least score
    of the other bids divided by the winner's own adjustment. *)
Lemma select_winner_spec bids :
  Forall (λ b, F64.is_nan (score_bid b) = false) bids →
  match select_winner bids with
  | None => bids = []
  | Some result =>
      let i := VickreyResult.winner_index result in
      ∃ b second, bids !! i = Some b ∧
        (∀ j b', bids !! j = Some b' → sf_le (score_bid b) (score_bid b')) ∧
        VickreyResult.payment result =
          F64.div second (reputation_factor (SparrowBid.reputation_snapshot b)) ∧
        (length bids = 1 → second = score_bid b) ∧
        (2 ≤ length bids → ∃ j b', j ≠ i ∧ bids !! j = Some b' ∧ second = score_bid b' ∧
           ∀ k b'', k ≠ i → bids !! k = Some b'' → sf_le second (score_bid b''))
  end.
Proof.
  intros Hn. pose proof (scored_bids_sorted bids Hn) as Hs.
  pose proof (scored_bids_indices bids) as Hp.
  assert (length (scored_bids bids) = length bids) as Hl
    by (unfold scored_bids; by rewrite length_sort_by, length_imap).
  unfold select_winner. destruct (scored_bids bids) as [|[i f] rest] eqn:E.
  { by destruct bids. }
  cbn [VickreyResult.winner_index VickreyResult.payment].
  destruct (proj1 (elem_of_scored_bids bids i f)) as (b & Hb & ->); [rewrite E; left|].
  assert (NoDup (i :: rest.*1)) as Hnd.
  { change (i :: rest.*1) with (((i, score_bid b) :: rest).*1). rewrite Hp. apply NoDup_seq. }
  apply NoDup_cons in Hnd as [Hi _].
  apply StronglySorted_inv in Hs as [Hrest Hfirst]. rewrite Forall_forall in Hfirst.
  assert (∀ j b', bids !! j = Some b' → j = i ∧ b' = b ∨ (j, score_bid b') ∈ rest) as Hmem.
  { intros j b' Hb'. assert ((j, score_bid b') ∈ scored_bids bids) as Hin
      by (apply elem_of_scored_bids; eauto).
    rewrite E, elem_of_cons in Hin. destruct Hin as [[= -> _]|]; [left|by right].
    by rewrite Hb in Hb'; simplify_eq. }
  eexists b, _. rewrite Hb. split_and!; [done| |reflexivity| |].
  - intros j b' Hb'. destruct (Hmem j b' Hb') as [[_ ->]|Hin]; [apply sf_le_refl|].
    by apply (score_le_iff (i, score_bid b) (j, score_bid b')), Hfirst.
  - intros H1. rewrite H1 in Hl. by destruct rest.
  - intros H2. destruct rest as [|[j g] rest]; [simpl in Hl; lia|].
    destruct (proj1 (elem_of_scored_bids bids j g)) as (b' & Hb' & ->); [rewrite E; set_solver|].
    exists j, b'. split_and!; [intros ->; set_solver|done|done|].
    intros k b'' Hk Hb''. destruct (Hmem k b'' Hb'') as [[? _]|Hin]; [done|].
    apply elem_of_cons in Hin as [[= -> ->]|Hin]; [apply sf_le_refl|].
    apply StronglySorted_inv in Hrest as [_ Hj]. rewrite Forall_forall in Hj.
    by apply (score_le_iff (j, score_bid b') (k, score_bid b'')), Hj.
Qed.
