(* ===== verification/Marketplace.v ===== *)
(** * The job marketplace (crates/roko-chain/src/marketplace.rs)

    Jobs, their escrow and their disputes. *)

From S2P Require Import Prelude Bytes ChainTypes Dispatch.

(** ** Data *)

Module JobState.
Inductive t : Type :=
  | Posted
  | Assigned
  | InProgress
  | Submitted
  | Settled
  | Disputed
  | Expired.

#[global] Instance t_eq_dec : EqDecision t.
Proof. solve_decision. Defined.

Definition debug (x : t) : string :=
  match x with
  | Posted => "Posted" | Assigned => "Assigned" | InProgress => "InProgress"
  | Submitted => "Submitted" | Settled => "Settled" | Disputed => "Disputed"
  | Expired => "Expired"
  end.
End JobState.
Abbreviation JobState := JobState.t.

Module SporeJobPosting.
Record t : Type := mk {
  job_id : bytes;
  domain : string;
  required_capabilities : N;
  budget : N;
  deadline_block : N;
  hiring_model : HiringModel;
  min_reputation : F64.t;
  min_tier : PassportTier;
  description_cid : string;
  poster_passport_id : N;
  direct_hire_target : option N;
  max_agents : N;
}.
End SporeJobPosting.
Abbreviation SporeJobPosting := SporeJobPosting.t.
Module SJP := SporeJobPosting.

Module MarketplaceJob.
Record t : Type := mk {
  job_id : bytes;
  state : JobState;
  poster_passport_id : N;
  assigned_agent : option N;
  budget : N;
  deadline_block : N;
  hiring_model : HiringModel;
  min_reputation : F64.t;
  min_tier : PassportTier;
  domain : string;
  required_capabilities : N;
  result_hash : option bytes;
  quality_score : option F64.t;
  posted_at_block : N;
  payment : option F64.t;
}.

(** The fields the operations change. *)
Definition update (state : JobState) (assigned_agent : option N) (payment : option F64.t)
    (result_hash : option bytes) (quality_score : option F64.t) (j : t) : t :=
  mk (job_id j) state (poster_passport_id j) assigned_agent (budget j) (deadline_block j)
    (hiring_model j) (min_reputation j) (min_tier j) (domain j) (required_capabilities j)
    result_hash quality_score (posted_at_block j) payment.

Definition set_state (state : JobState) (j : t) : t :=
  update state (assigned_agent j) (payment j) (result_hash j) (quality_score j) j.

Definition assign (winner : N) (payment : F64.t) (j : t) : t :=
  update JobState.Assigned (Some winner) (Some payment) (result_hash j) (quality_score j) j.

Definition submit (result_hash : bytes) (quality_score : F64.t) (j : t) : t :=
  update JobState.Submitted (assigned_agent j) (payment j) (Some result_hash)
    (Some quality_score) j.
End MarketplaceJob.
Abbreviation MarketplaceJob := MarketplaceJob.t.
Module MJ := MarketplaceJob.

Module EscrowEntry.
Record t : Type := mk {
  job_id : bytes;
  depositor : N;
  amount : N;
  recipient : option N;
  released : bool;
  disputed : bool;
}.

Definition set_recipient (winner : N) (e : t) : t :=
  mk (job_id e) (depositor e) (amount e) (Some winner) (released e) (disputed e).
Definition set_released (e : t) : t :=
  mk (job_id e) (depositor e) (amount e) (recipient e) true (disputed e).
Definition set_disputed (e : t) : t :=
  mk (job_id e) (depositor e) (amount e) (recipient e) (released e) true.
Definition set_resolved (e : t) : t :=
  mk (job_id e) (depositor e) (amount e) (recipient e) true false.
End EscrowEntry.
Abbreviation EscrowEntry := EscrowEntry.t.

Module DisputeOutcome.
Inductive t : Type :=
  | EntryUpheld
  | EntryRemoved
  | EntryAmended (amendment_hash : bytes).

(** [{:?}] of an array of bytes, and of the type. *)
Definition debug_bytes (b : bytes) : string :=
  "[" +:+ str_join ", " ((λ x, fmt_N (Byte.to_N x)) <$> b) +:+ "]".

Definition debug (x : t) : string :=
  match x with
  | EntryUpheld => "EntryUpheld"
  | EntryRemoved => "EntryRemoved"
  | EntryAmended h => "EntryAmended { amendment_hash: " +:+ debug_bytes h +:+ " }"
  end.
End DisputeOutcome.
Abbreviation DisputeOutcome := DisputeOutcome.t.

Module DisputeLevel.
Inductive t : Type :=
  | BondEscalation (round : N)
  | PeerJury (votes_for votes_against : N)
  | GovernanceVote (proposal_id : bytes)
  | Resolved (winner : N) (outcome : DisputeOutcome).

Definition debug (x : t) : string :=
  match x with
  | BondEscalation round => "BondEscalation { round: " +:+ fmt_N round +:+ " }"
  | PeerJury f a =>
      "PeerJury { votes_for: " +:+ fmt_N f +:+ ", votes_against: " +:+ fmt_N a +:+ " }"
  | GovernanceVote p => "GovernanceVote { proposal_id: " +:+ DisputeOutcome.debug_bytes p +:+ " }"
  | Resolved w o =>
      "Resolved { winner: " +:+ fmt_N w +:+ ", outcome: " +:+ DisputeOutcome.debug o +:+ " }"
  end.
End DisputeLevel.
Abbreviation DisputeLevel := DisputeLevel.t.

Module DisputeResolution.
Record t : Type := mk {
  entry_hash : bytes;
  challenger : N;
  defender : N;
  current_level : DisputeLevel;
  challenger_bond : N;
  defender_bond : N;
  jury : option (list N);
  deadline_block : N;
}.

Definition set_level (level : DisputeLevel) (deadline_block : N) (d : t) : t :=
  mk (entry_hash d) (challenger d) (defender d) level (challenger_bond d) (defender_bond d)
    (jury d) deadline_block.
End DisputeResolution.
Abbreviation DisputeResolution := DisputeResolution.t.
Module DR := DisputeResolution.

Module MarketplaceConfig.
Record t : Type := mk {
  direct_hire_premium : F64.t;
  platform_fee_fraction : F64.t;
  dispute_challenge_window : N;
  optimistic_window_blocks : N;
}.

Definition default : t := mk (F64.lit 3 2) (F64.lit 2 100) 100 21600.
End MarketplaceConfig.
Abbreviation MarketplaceConfig := MarketplaceConfig.t.

Module AssignmentResult.
Record t : Type := mk { agent_passport_id : N; payment : F64.t; hiring_model : HiringModel }.
End AssignmentResult.
Abbreviation AssignmentResult := AssignmentResult.t.

Module SettlementResult.
Record t : Type := mk {
  agent_payment : N;
  platform_fee : N;
  agent_passport_id : N;
  quality_score : F64.t;
}.
End SettlementResult.
Abbreviation SettlementResult := SettlementResult.t.

Module ExpirationResult.
Record t : Type := mk { refund : N; poster_passport_id : N }.
End ExpirationResult.
Abbreviation ExpirationResult := ExpirationResult.t.

Module DisputeSettlement.
Record t : Type := mk {
  winner : N;
  outcome : DisputeOutcome;
  escrow_recipient : N;
  amount : N;
  challenger_bond_returned : N;
  defender_bond_returned : N;
}.
End DisputeSettlement.
Abbreviation DisputeSettlement := DisputeSettlement.t.

Module MarketplaceError.
Inductive t : Type :=
  | NotFound
  | DuplicateJob
  | InvalidState (expected actual : string)
  | EmptyPool
  | NoAssignedAgent
  | DeadlineNotReached (current deadline : N)
  | InsufficientTier (required actual : PassportTier)
  | NoDispute.
End MarketplaceError.
Abbreviation MarketplaceError := MarketplaceError.t.

(** ** The marketplace *)

Module Marketplace.
Record t : Type := mk {
  config : MarketplaceConfig;
  jobs : gmap bytes MarketplaceJob;
  escrow : gmap bytes EscrowEntry;
  disputes : gmap bytes DisputeResolution;
  current_block : N;
  bids : gmap bytes (list SparrowBid);
}.

Definition new (config : MarketplaceConfig) : t := mk config ∅ ∅ ∅ 0 ∅.
Definition default : t := new MarketplaceConfig.default.

Definition set_block (block : N) (s : t) : t :=
  mk (config s) (jobs s) (escrow s) (disputes s) block (bids s).
Definition job_count (s : t) : nat := size (jobs s).
Definition get_job (s : t) (job_id : bytes) : option MarketplaceJob := jobs s !! job_id.
Definition get_escrow (s : t) (job_id : bytes) : option EscrowEntry := escrow s !! job_id.
Definition get_dispute (s : t) (job_id : bytes) : option DisputeResolution :=
  disputes s !! job_id.

(** A changed job and escrow entry. *)
Definition put (s : t) (job_id : bytes) (job : MarketplaceJob)
    (on_escrow : EscrowEntry → EscrowEntry) : t :=
  mk (config s) (<[job_id := job]> (jobs s)) (alter on_escrow job_id (escrow s)) (disputes s)
    (current_block s) (bids s).

Definition invalid_state {T} (expected : string) (actual : JobState) :
    result T MarketplaceError :=
  Err (MarketplaceError.InvalidState expected (JobState.debug actual)).

(** The lookup and the test most operations start with. *)
Definition job_in (s : t) (job_id : bytes) (state : JobState) :
    result MarketplaceJob MarketplaceError :=
  match jobs s !! job_id with
  | None => Err MarketplaceError.NotFound
  | Some job =>
      if decide (MJ.state job ≠ state) then invalid_state (JobState.debug state) (MJ.state job)
      else Ok job
  end.

Definition posted_job (s : t) (posting : SporeJobPosting) : MarketplaceJob :=
  MJ.mk (SJP.job_id posting) JobState.Posted (SJP.poster_passport_id posting) None
    (SJP.budget posting) (SJP.deadline_block posting) (SJP.hiring_model posting)
    (SJP.min_reputation posting) (SJP.min_tier posting) (SJP.domain posting)
    (SJP.required_capabilities posting) None None (current_block s) None.

Definition create_job (s : t) (posting : SporeJobPosting) : t * result unit MarketplaceError :=
  if bool_decide (is_Some (jobs s !! SJP.job_id posting)) then
    (s, Err MarketplaceError.DuplicateJob)
  else
    let entry :=
      EscrowEntry.mk (SJP.job_id posting) (SJP.poster_passport_id posting) (SJP.budget posting)
        None false false in
    (mk (config s) (<[SJP.job_id posting := posted_job s posting]> (jobs s))
       (<[SJP.job_id posting := entry]> (escrow s)) (disputes s) (current_block s) (bids s), Ok tt).

Definition submit_bid (s : t) (job_id : bytes) (bid : SparrowBid) :
    t * result unit MarketplaceError :=
  match job_in s job_id JobState.Posted with
  | Err e => (s, Err e)
  | Ok _ =>
      (mk (config s) (jobs s) (escrow s) (disputes s) (current_block s)
         (<[job_id := stdpp.option.default [] (bids s !! job_id) ++ [bid]]> (bids s)), Ok tt)
  end.

(** [job_to_bounty]: the budget is cut to 64 bits. *)
Definition job_to_bounty (job : MarketplaceJob) : BountySpec :=
  BountySpec.mk (MJ.job_id job) "" "" (MJ.required_capabilities job) (MJ.domain job)
    (MJ.min_reputation job) (MJ.budget job mod 18446744073709551616) (MJ.deadline_block job)
    (MJ.hiring_model job) [] F64.zero (MJ.poster_passport_id job).

Definition finalize_assignment (s : t) (job_id : bytes) (winner : N) (payment : F64.t) :
    t * result AssignmentResult MarketplaceError :=
  match jobs s !! job_id with
  | None => (s, Err MarketplaceError.NotFound)
  | Some job =>
      (put s job_id (MJ.assign winner payment job) (EscrowEntry.set_recipient winner),
       Ok (AssignmentResult.mk winner payment (MJ.hiring_model job)))
  end.

(** An assignment by a decision, if there is one. *)
Definition assign_by (s : t) (job_id : bytes) (decision : option DispatchDecision) :
    t * result AssignmentResult MarketplaceError :=
  match decision with
  | None => (s, Err MarketplaceError.EmptyPool)
  | Some decision =>
      finalize_assignment s job_id (DispatchDecision.winner decision)
        (DispatchDecision.payment decision)
  end.

Section Assign.
Context {LM : Libm}.

Definition assign_random_vrf (s : t) (job_id : bytes) (pool : list SparrowBid) :
    t * result AssignmentResult MarketplaceError :=
  match job_in s job_id JobState.Posted with
  | Err e => (s, Err e)
  | Ok job =>
      match pool with
      | [] => (s, Err MarketplaceError.EmptyPool)
      | _ => assign_by s job_id (dispatch_random_vrf pool (job_to_bounty job))
      end
  end.

Definition assign_blind_auction (s : t) (job_id : bytes) :
    t * result AssignmentResult MarketplaceError :=
  match job_in s job_id JobState.Posted with
  | Err e => (s, Err e)
  | Ok job =>
      match bids s !! job_id with
      | None | Some [] => (s, Err MarketplaceError.EmptyPool)
      | Some bids => assign_by s job_id (dispatch_blind_auction bids (job_to_bounty job))
      end
  end.

Definition assign_direct_hire (s : t) (job_id : bytes) (target_passport_id : N)
    (agent_tier : PassportTier) (repeat_count : N) :
    t * result AssignmentResult MarketplaceError :=
  match job_in s job_id JobState.Posted with
  | Err e => (s, Err e)
  | Ok job =>
      if negb (PassportTier.has_privilege agent_tier PassportTier.Sovereign) then
        (s, Err (MarketplaceError.InsufficientTier PassportTier.Sovereign agent_tier))
      else
        let base_fee :=
          F64.mul (f64_of_u128 (MJ.budget job)) (MarketplaceConfig.direct_hire_premium (config s)) in
        assign_by s job_id (Some (dispatch_direct_hire target_passport_id base_fee repeat_count))
  end.
End Assign.

Definition start_work (s : t) (job_id : bytes) : t * result unit MarketplaceError :=
  match job_in s job_id JobState.Assigned with
  | Err e => (s, Err e)
  | Ok job => (put s job_id (MJ.set_state JobState.InProgress job) id, Ok tt)
  end.

Definition submit_result (s : t) (job_id result_hash : bytes) (quality_score : F64.t) :
    t * result unit MarketplaceError :=
  match job_in s job_id JobState.InProgress with
  | Err e => (s, Err e)
  | Ok job => (put s job_id (MJ.submit result_hash quality_score job) id, Ok tt)
  end.

Definition settle_job (s : t) (job_id : bytes) : t * result SettlementResult MarketplaceError :=
  match job_in s job_id JobState.Submitted with
  | Err e => (s, Err e)
  | Ok job =>
      match MJ.assigned_agent job with
      | None => (s, Err MarketplaceError.NoAssignedAgent)
      | Some agent =>
          let payment := stdpp.option.default (f64_of_u128 (MJ.budget job)) (MJ.payment job) in
          let platform_fee :=
            f64_to_u128 (F64.mul payment (MarketplaceConfig.platform_fee_fraction (config s))) in
          let agent_payment := sat_sub (f64_to_u128 payment) platform_fee in
          (put s job_id (MJ.set_state JobState.Settled job) EscrowEntry.set_released,
           Ok (SettlementResult.mk agent_payment platform_fee agent
                 (stdpp.option.default F64.zero (MJ.quality_score job))))
      end
  end.

Definition expire_job (s : t) (job_id : bytes) : t * result ExpirationResult MarketplaceError :=
  match jobs s !! job_id with
  | None => (s, Err MarketplaceError.NotFound)
  | Some job =>
      if (current_block s <? MJ.deadline_block job)%N then
        (s, Err (MarketplaceError.DeadlineNotReached (current_block s) (MJ.deadline_block job)))
      else if bool_decide (MJ.state job = JobState.Settled) ||
              bool_decide (MJ.state job = JobState.Expired) then
        (s, invalid_state "not Settled/Expired" (MJ.state job))
      else
        (put s job_id (MJ.set_state JobState.Expired job) EscrowEntry.set_released,
         Ok (ExpirationResult.mk (MJ.budget job) (MJ.poster_passport_id job)))
  end.

Definition open_dispute (s : t) (job_id : bytes) (challenger challenger_bond : N) :
    t * result unit MarketplaceError :=
  match job_in s job_id JobState.Submitted with
  | Err e => (s, Err e)
  | Ok job =>
      match MJ.assigned_agent job with
      | None => (s, Err MarketplaceError.NoAssignedAgent)
      | Some defender =>
          let dispute :=
            DR.mk (stdpp.option.default (replicate 32 Byte.x00) (MJ.result_hash job)) challenger
              defender (DisputeLevel.BondEscalation 1) challenger_bond 0 None
              (add64 (current_block s) (MarketplaceConfig.dispute_challenge_window (config s))) in
          (mk (config s) (<[job_id := MJ.set_state JobState.Disputed job]> (jobs s))
             (alter EscrowEntry.set_disputed job_id (escrow s))
             (<[job_id := dispute]> (disputes s)) (current_block s) (bids s), Ok tt)
      end
  end.

Definition next_level (job_id : bytes) (level : DisputeLevel) : option DisputeLevel :=
  match level with
  | DisputeLevel.BondEscalation round =>
      Some (if (3 <=? round)%N then DisputeLevel.PeerJury 0 0
            else DisputeLevel.BondEscalation (round + 1))
  | DisputeLevel.PeerJury _ _ => Some (DisputeLevel.GovernanceVote job_id)
  | _ => None
  end.

Definition put_dispute (s : t) (job_id : bytes) (dispute : DisputeResolution) : t :=
  mk (config s) (jobs s) (escrow s) (<[job_id := dispute]> (disputes s)) (current_block s) (bids s).

Definition escalate_dispute (s : t) (job_id : bytes) : t * result DisputeLevel MarketplaceError :=
  match disputes s !! job_id with
  | None => (s, Err MarketplaceError.NoDispute)
  | Some dispute =>
      match next_level job_id (DR.current_level dispute) with
      | None =>
          (s, Err (MarketplaceError.InvalidState "escalatable dispute level"
                     (DisputeLevel.debug (DR.current_level dispute))))
      | Some level =>
          let deadline_block :=
            add64 (current_block s) (MarketplaceConfig.dispute_challenge_window (config s)) in
          (put_dispute s job_id (DR.set_level level deadline_block dispute), Ok level)
      end
  end.

Definition resolve_dispute (s : t) (job_id : bytes) (winner : N) (outcome : DisputeOutcome) :
    t * result DisputeSettlement MarketplaceError :=
  match disputes s !! job_id with
  | None => (s, Err MarketplaceError.NoDispute)
  | Some dispute =>
      let s :=
        put_dispute s job_id
          (DR.set_level (DisputeLevel.Resolved winner outcome) (DR.deadline_block dispute) dispute) in
      match jobs s !! job_id with
      | None => (s, Err MarketplaceError.NotFound)
      | Some job =>
          let escrow_to :=
            match outcome with
            | DisputeOutcome.EntryUpheld => stdpp.option.default 0%N (MJ.assigned_agent job)
            | DisputeOutcome.EntryRemoved | DisputeOutcome.EntryAmended _ =>
                MJ.poster_passport_id job
            end in
          (mk (config s) (jobs s) (alter EscrowEntry.set_resolved job_id (escrow s)) (disputes s)
             (current_block s) (bids s),
           Ok (DisputeSettlement.mk winner outcome escrow_to (MJ.budget job)
                 (DR.challenger_bond dispute) (DR.defender_bond dispute)))
      end
  end.
End Marketplace.
Abbreviation Marketplace := Marketplace.t.
Module MP := Marketplace.

(** ** Accounts of jobs

    What the marketplace keeps of a job, its account, changes by the steps below only: the
    life of a job with its escrow and its dispute. *)

Module Account.
Record t : Type := mk {
  job : option MarketplaceJob;
  escrow : option EscrowEntry;
  dispute : option DisputeResolution;
}.
End Account.
Abbreviation Account := Account.t.


(** A payment out of an escrow: at the end of a job, or by the decision of a dispute. *)
Inductive payout : Type := Closing | Decided.

#[global] Instance payout_eq_dec : EqDecision payout.
Proof. solve_decision. Defined.


(** ** Histories *)

Inductive market_op : Type :=
  | SetBlock (block : N)
  | CreateJob (posting : SporeJobPosting)
  | SubmitBid (id : bytes) (bid : SparrowBid)
  | AssignVrf (id : bytes) (pool : list SparrowBid)
  | AssignAuction (id : bytes)
  | AssignDirect (id : bytes) (target : N) (tier : PassportTier) (repeats : N)
  | StartWork (id : bytes)
  | SubmitResult (id result_hash : bytes) (quality : F64.t)
  | SettleJob (id : bytes)
  | ExpireJob (id : bytes)
  | OpenDispute (id : bytes) (challenger bond : N)
  | EscalateDispute (id : bytes)
  | ResolveDispute (id : bytes) (winner : N) (outcome : DisputeOutcome).

Section History.
Context {LM : Libm}.

Definition apply_market_op (s : Marketplace) (op : market_op) : Marketplace :=
  match op with
  | SetBlock block => MP.set_block block s
  | CreateJob posting => (MP.create_job s posting).1
  | SubmitBid id bid => (MP.submit_bid s id bid).1
  | AssignVrf id pool => (MP.assign_random_vrf s id pool).1
  | AssignAuction id => (MP.assign_blind_auction s id).1
  | AssignDirect id target tier repeats => (MP.assign_direct_hire s id target tier repeats).1
  | StartWork id => (MP.start_work s id).1
  | SubmitResult id h q => (MP.submit_result s id h q).1
  | SettleJob id => (MP.settle_job s id).1
  | ExpireJob id => (MP.expire_job s id).1
  | OpenDispute id challenger bond => (MP.open_dispute s id challenger bond).1
  | EscalateDispute id => (MP.escalate_dispute s id).1
  | ResolveDispute id winner outcome => (MP.resolve_dispute s id winner outcome).1
  end.

(** The payment an operation makes, if it succeeds. *)
Definition pays (s : Marketplace) (op : market_op) : option (bytes * payout) :=
  match op with
  | SettleJob id => if is_ok (MP.settle_job s id).2 then Some (id, Closing) else None
  | ExpireJob id => if is_ok (MP.expire_job s id).2 then Some (id, Closing) else None
  | ResolveDispute id winner outcome =>
      if is_ok (MP.resolve_dispute s id winner outcome).2 then Some (id, Decided) else None
  | _ => None
  end.

Definition run_market (config : MarketplaceConfig) (ops : list market_op) : Marketplace :=
  foldl apply_market_op (MP.new config) ops.

(** The payments for a job in a history. *)
Definition payouts (config : MarketplaceConfig) (id : bytes) (ops : list market_op) : list payout :=
  (foldl (λ '(s, log) op,
            (apply_market_op s op,
             match pays s op with
             | Some (id', p) => if decide (id' = id) then log ++ [p] else log
             | None => log
             end)) (MP.new config, []) ops).2.





(** *** Every operation takes a step of one account *)













(** *** What holds of every account *)



Definition resolved (d : DisputeResolution) : bool :=
  match DR.current_level d with DisputeLevel.Resolved _ _ => true | _ => false end.













End History.

(** ** Decided disputes, and what a direct hire is paid

    A decision leaves the job disputed and the dispute in place: the same dispute can be decided
    again, and the job expired after its deadline, each time with the whole budget. *)

Definition posting0 : SporeJobPosting :=
  SJP.mk [Byte.x01] "d" 0 1000 50 (HiringModel.DirectHire 2) F64.zero PassportTier.Edge "" 1 None 1.

Definition disputed_ops : list market_op :=
  [CreateJob posting0; AssignDirect [Byte.x01] 2 PassportTier.Sovereign 0; StartWork [Byte.x01];
   SubmitResult [Byte.x01] [Byte.x02] (F64.lit 1 1); OpenDispute [Byte.x01] 3 10;
   ResolveDispute [Byte.x01] 2 DisputeOutcome.EntryUpheld;
   ResolveDispute [Byte.x01] 3 DisputeOutcome.EntryRemoved; SetBlock 50; ExpireJob [Byte.x01]].

Lemma decided_job_paid_again `{LM : Libm} :
  payouts MarketplaceConfig.default [Byte.x01] disputed_ops = [Decided; Decided; Closing].
Proof. vm_compute. reflexivity. Qed.

(** While a dispute is open, the job expires at its deadline and the escrow is paid out. *)
Lemma open_dispute_expires `{LM : Libm} :
  let ops := take 5 disputed_ops ++ [SetBlock 50; ExpireJob [Byte.x01]] in
  let s := run_market MarketplaceConfig.default ops in
  payouts MarketplaceConfig.default [Byte.x01] ops = [Closing]
  ∧ (λ d, resolved d) <$> MP.disputes s !! [Byte.x01] = Some false
  ∧ EscrowEntry.released <$> MP.get_escrow s [Byte.x01] = Some true.
Proof. split_and!; vm_compute; reflexivity. Qed.

(** A logarithm that is right at one. *)
Definition ln_at_one : Libm := {| f64_ln _ := F64.zero |}.

(** The payment of a direct hire is one and a half times the budget, the escrow is the budget. *)
Lemma direct_hire_exceeds_escrow :
  let s := run_market (LM := ln_at_one) MarketplaceConfig.default (take 4 disputed_ops) in
  SettlementResult.agent_payment <$> result_ok (MP.settle_job s [Byte.x01]).2 = Some 1470%N ∧
  EscrowEntry.amount <$> MP.get_escrow s [Byte.x01] = Some 1000%N.
Proof. split; vm_compute; reflexivity. Qed.

(** A budget of [2 ^ 64] makes a bounty of zero. *)
Lemma bounty_budget_wraps s posting :
  SJP.budget posting = 18446744073709551616%N →
  BountySpec.max_budget_usdc (MP.job_to_bounty (MP.posted_job s posting)) = 0%N.
Proof. intros H. unfold MP.job_to_bounty. simpl. by rewrite H. Qed.
