(* ===== verification/Reputation.v ===== *)
(** * The reputation registry (crates/roko-chain/src/reputation_registry.rs)

    Scores of agents by domain, discipline states, recovery and bans. *)

From Stdlib Require Import SpecFloat.
From S2P Require Import Prelude ChainTypes.

(** [HALF_LIFE_SECS] is exact: an integer below [2 ^ 53]. *)
Definition HALF_LIFE_SECS : F64.t := F64.of_Z 2592000.
Definition NEUTRAL : F64.t := F64.lit 1 2.
Definition COLLUSION_DILUTION_DURATION_SECS : N := 2592000.
Definition SLASH_WINDOW_SECS : N := 7776000.

Definition REPUTATION_DOMAINS : list string :=
  ["coding"; "security"; "research"; "chain"; "knowledge"; "operations"; "strategy"].

(** [x.clamp(0.0, 1.0)] *)
Definition clamp01 : F64.t → F64.t := F64.clamp F64.zero (F64.of_Z 1).

(** ** Data *)

Module DisciplineState.
Inductive t : Type :=
  | GoodStanding
  | Probation
  | Suspended
  | Banned.

#[global] Instance t_eq_dec : EqDecision t.
Proof. solve_decision. Defined.
End DisciplineState.
Abbreviation DisciplineState := DisciplineState.t.
Module DS := DisciplineState.

Module ReputationViolation.
Inductive t : Type :=
  | MissedDeadline
  | AbandonedJob
  | QualityRejection
  | RepeatedQualityFailure
  | Plagiarism
  | ResultManipulation
  | TeeViolation
  | Collusion.

Definition slash_rate (x : t) : F64.t :=
  match x with
  | MissedDeadline => F64.lit (-1) 100
  | AbandonedJob => F64.lit (-3) 100
  | QualityRejection => F64.lit (-2) 100
  | RepeatedQualityFailure => F64.lit (-5) 100
  | Plagiarism | ResultManipulation | TeeViolation => F64.lit (-10) 100
  | Collusion => F64.zero
  end.

Definition is_collusion (x : t) : bool := match x with Collusion => true | _ => false end.
End ReputationViolation.
Abbreviation ReputationViolation := ReputationViolation.t.

Module FeedbackDilution.
Record t : Type := mk { applied_at : N; multiplier : F64.t; duration_secs : N }.

Definition collusion (now : N) : t := mk now (F64.lit 1 2) COLLUSION_DILUTION_DURATION_SECS.
Definition is_active (d : t) (now : N) : bool :=
  (now <? add64 (applied_at d) (duration_secs d))%N.
Definition effective_multiplier (d : t) (now : N) : F64.t :=
  if is_active d now then multiplier d else F64.of_Z 1.
End FeedbackDilution.
Abbreviation FeedbackDilution := FeedbackDilution.t.

(** ** The reputation of an agent in a domain *)

Module DomainReputation.
Record t : Type := mk {
  score : F64.t;
  job_count : N;
  last_update : N;
  slash_timestamps : list N;
}.

Definition new (initial_score : F64.t) (now : N) : t := mk (clamp01 initial_score) 0 now [].

Definition effective_score {PL : PowLib} (d : t) (now : N) : F64.t :=
  if (now <=? last_update d)%N then score d
  else
    let elapsed := F64.of_N (now - last_update d) in
    let decay := f64_powf (F64.lit 1 2) (F64.div elapsed HALF_LIFE_SECS) in
    F64.add NEUTRAL (F64.mul (F64.sub (score d) NEUTRAL) decay).

Definition adaptive_alpha (d : t) : F64.t :=
  if (job_count d <=? 10)%N then F64.lit 30 100
  else if (job_count d <=? 50)%N then F64.lit 15 100
  else if (job_count d <=? 200)%N then F64.lit 8 100
  else F64.lit 4 100.

Definition update (observation feedback_weight : F64.t) (now : N) (d : t) : t :=
  let alpha := F64.mul (adaptive_alpha d) feedback_weight in
  let score :=
    clamp01 (F64.add (F64.mul alpha observation)
               (F64.mul (F64.sub (F64.of_Z 1) alpha) (score d))) in
  mk score (add64 (job_count d) 1) now (slash_timestamps d).

Definition slash (penalty : F64.t) (now : N) (d : t) : t :=
  mk (clamp01 (F64.add (score d) penalty)) (job_count d) now (slash_timestamps d ++ [now]).

(** [.count() as u32] *)
Definition slash_count_in_window (d : t) (now : N) : N :=
  let window_start := sat_sub now SLASH_WINDOW_SECS in
  N.of_nat (length (List.filter (λ t, window_start <=? t)%N (slash_timestamps d)))
    mod (u32_MAX + 1).
End DomainReputation.
Abbreviation DomainReputation := DomainReputation.t.
Module DR := DomainReputation.

(** ** Recovery *)

Module RecoveryJob.
Record t : Type := mk { feedback : F64.t; completed_at : N }.
End RecoveryJob.
Abbreviation RecoveryJob := RecoveryJob.t.

Module RecoveryRequirements.
Record t : Type := mk {
  min_jobs : nat;
  min_avg_feedback : F64.t;
  waiting_period_secs : N;
  requires_stake : bool;
  requires_verification : bool;
}.

Definition for_probation : t := mk 10 (F64.lit 6 10) 0 false false.
Definition for_suspension : t := mk 0 F64.zero 7776000 true true.
End RecoveryRequirements.
Abbreviation RecoveryRequirements := RecoveryRequirements.t.
Module RR := RecoveryRequirements.

Module RecoveryStatus.
Inductive t : Type :=
  | Eligible
  | WaitingPeriod (remaining_secs : N)
  | NeedMoreJobs (current required : nat)
  | FeedbackTooLow (current_avg required : F64.t)
  | NeedStake
  | NeedVerification
  | NotApplicable.

(** [status == Eligible] *)
Definition is_eligible (x : t) : bool := match x with Eligible => true | _ => false end.
End RecoveryStatus.
Abbreviation RecoveryStatus := RecoveryStatus.t.

Module RecoveryTracker.
Record t : Type := mk {
  recovery_jobs : list RecoveryJob;
  state_entered_at : N;
  recovery_stake_posted : bool;
  verification_passed : bool;
}.

Definition default : t := mk [] 0 false false.

Definition record_job (feedback : F64.t) (now : N) (r : t) : t :=
  mk (recovery_jobs r ++ [RecoveryJob.mk (clamp01 feedback) now]) (state_entered_at r)
    (recovery_stake_posted r) (verification_passed r).

(** [sum()] of floats starts from [-0.0]. *)
Definition avg_feedback (r : t) : F64.t :=
  match recovery_jobs r with
  | [] => F64.zero
  | jobs =>
      F64.div (foldl F64.add (S754_zero true) (RecoveryJob.feedback <$> jobs))
        (F64.of_Z (Z.of_nat (length jobs)))
  end.

Definition check (r : t) (reqs : RecoveryRequirements) (now : N) : RecoveryStatus :=
  let elapsed := sat_sub now (state_entered_at r) in
  if (0 <? RR.waiting_period_secs reqs)%N && (elapsed <? RR.waiting_period_secs reqs)%N then
    RecoveryStatus.WaitingPeriod (RR.waiting_period_secs reqs - elapsed)
  else if RR.requires_stake reqs && negb (recovery_stake_posted r) then RecoveryStatus.NeedStake
  else if RR.requires_verification reqs && negb (verification_passed r) then
    RecoveryStatus.NeedVerification
  else if length (recovery_jobs r) <? RR.min_jobs reqs then
    RecoveryStatus.NeedMoreJobs (length (recovery_jobs r)) (RR.min_jobs reqs)
  else
    let avg := avg_feedback r in
    if F64.gt (RR.min_avg_feedback reqs) F64.zero && F64.lt avg (RR.min_avg_feedback reqs) then
      RecoveryStatus.FeedbackTooLow avg (RR.min_avg_feedback reqs)
    else RecoveryStatus.Eligible.

Definition reset (now : N) (r : t) : t := mk [] now false false.

Definition enter (now : N) (r : t) : t :=
  mk (recovery_jobs r) now (recovery_stake_posted r) (verification_passed r).
Definition post_stake (r : t) : t :=
  mk (recovery_jobs r) (state_entered_at r) true (verification_passed r).
Definition pass_verification (r : t) : t :=
  mk (recovery_jobs r) (state_entered_at r) (recovery_stake_posted r) true.
End RecoveryTracker.
Abbreviation RecoveryTracker := RecoveryTracker.t.
Module RT := RecoveryTracker.

(** ** The reputation of an agent *)

Module AgentReputation.
Record t : Type := mk {
  domains : gmap string DomainReputation;
  discipline_override : option DisciplineState;
  feedback_dilutions : list FeedbackDilution;
  recovery : RecoveryTracker;
}.

Definition new (now : N) : t :=
  mk (foldl (λ domains domain, <[domain := DR.new (F64.lit 1 2) now]> domains) ∅
        REPUTATION_DOMAINS) None [] RT.default.

Definition set_domains (domains : gmap string DomainReputation) (a : t) : t :=
  mk domains (discipline_override a) (feedback_dilutions a) (recovery a).
Definition set_standing (state : DisciplineState) (recovery : RecoveryTracker) (a : t) : t :=
  mk (domains a) (Some state) (feedback_dilutions a) recovery.
Definition set_recovery (recovery : RecoveryTracker) (a : t) : t :=
  mk (domains a) (discipline_override a) (feedback_dilutions a) recovery.

(** [product()] of floats starts from [1.0]. *)
Definition feedback_weight (a : t) (now : N) : F64.t :=
  foldl F64.mul (F64.of_Z 1)
    ((λ d, FeedbackDilution.effective_multiplier d now) <$> feedback_dilutions a).

Definition apply_collusion_dilution (now : N) (a : t) : t :=
  mk (domains a) (discipline_override a) (feedback_dilutions a ++ [FeedbackDilution.collusion now])
    (recovery a).

Section Discipline.
Context {PL : PowLib} {HI : HashIter}.

(** The loop over the domains: the first score below a threshold decides. *)
Fixpoint scan_domains (domains : list DomainReputation) (now : N) : DisciplineState :=
  match domains with
  | [] => DS.GoodStanding
  | domain :: domains' =>
      let effective := DR.effective_score domain now in
      if F64.lt effective (F64.lit 2 10) then DS.Suspended
      else if F64.lt effective (F64.lit 4 10) then DS.Probation
      else scan_domains domains' now
  end.

(** The sum of the counts, which wraps. *)
Definition total_slashes (a : t) (now : N) : N :=
  foldl add32 0%N ((λ d, DR.slash_count_in_window d now) <$> hash_values (domains a)).

Definition discipline_state (a : t) (now : N) : DisciplineState :=
  match discipline_override a with
  | Some state => state
  | None =>
      if (3 <=? total_slashes a now)%N then DS.Suspended
      else scan_domains (hash_values (domains a)) now
  end.
End Discipline.
End AgentReputation.
Abbreviation AgentReputation := AgentReputation.t.
Module AR := AgentReputation.

(** ** The registry *)

Module ReputationRegistry.
Abbreviation t := (gmap N AgentReputation).

Definition new : t := ∅.

(** [entry(id).or_insert_with(|| AgentReputation::new(now))], changed by [f]. *)
Definition with_agent (passport_id now : N) (f : AgentReputation → AgentReputation) (s : t) : t :=
  <[passport_id := f (default (AR.new now) (s !! passport_id))]> s.

Definition register_agent (s : t) (passport_id now : N) : t := with_agent passport_id now id s.

Definition submit_feedback_weighted (s : t) (passport_id : N) (domain : string)
    (quality feedback_weight : F64.t) (now : N) : t :=
  with_agent passport_id now
    (λ agent,
      let domain_rep := default (DR.new (F64.lit 1 2) now) (AR.domains agent !! domain) in
      AR.set_domains
        (<[domain := DR.update (clamp01 quality) (clamp01 feedback_weight) now domain_rep]>
           (AR.domains agent)) agent) s.

Definition submit_feedback (s : t) (passport_id : N) (domain : string) (quality : F64.t)
    (now : N) : t :=
  submit_feedback_weighted s passport_id domain quality (F64.of_Z 1) now.

Definition feedback_weight (s : t) (passport_id now : N) : F64.t :=
  match s !! passport_id with
  | Some agent => AR.feedback_weight agent now
  | None => F64.of_Z 1
  end.

Definition slash (s : t) (passport_id : N) (domain : string) (violation : ReputationViolation)
    (now : N) : t :=
  alter (λ agent,
    if ReputationViolation.is_collusion violation then AR.apply_collusion_dilution now agent
    else
      let penalty := ReputationViolation.slash_rate violation in
      AR.set_domains (alter (DR.slash penalty now) domain (AR.domains agent)) agent) passport_id s.

Definition ban_agent (s : t) (passport_id now : N) : t :=
  alter (λ agent, AR.set_standing DS.Banned (RT.enter now (AR.recovery agent)) agent) passport_id s.

(** The days until a ban can be appealed, by whole days. *)
Definition amnesty_eligible (s : t) (passport_id now : N) : option N :=
  agent ← s !! passport_id;
  if decide (AR.discipline_override agent ≠ Some DS.Banned) then None
  else
    let ban_duration := sat_sub now (RT.state_entered_at (AR.recovery agent)) in
    let required := (365 * 24 * 3600)%N in
    if (required <=? ban_duration)%N then Some 0%N
    else Some ((required - ban_duration) / (24 * 3600))%N.

Definition restore (now : N) (agent : AgentReputation) : AgentReputation :=
  AR.set_standing DS.GoodStanding (RT.reset now (AR.recovery agent)) agent.

Definition governance_amnesty (s : t) (passport_id now : N) : t * bool :=
  if decide (amnesty_eligible s passport_id now ≠ Some 0%N) then (s, false)
  else
    match s !! passport_id with
    | Some agent => (<[passport_id := restore now agent]> s, true)
    | None => (s, false)
    end.

Definition record_recovery_job (s : t) (passport_id : N) (feedback : F64.t) (now : N) : t :=
  alter (λ agent, AR.set_recovery (RT.record_job feedback now (AR.recovery agent)) agent)
    passport_id s.

Definition post_recovery_stake (s : t) (passport_id : N) : t :=
  alter (λ agent, AR.set_recovery (RT.post_stake (AR.recovery agent)) agent) passport_id s.

Definition pass_verification_challenge (s : t) (passport_id : N) : t :=
  alter (λ agent, AR.set_recovery (RT.pass_verification (AR.recovery agent)) agent) passport_id s.

Definition agent_count (s : t) : nat := size s.

Section Reads.
Context {PL : PowLib} {HI : HashIter}.

Definition get_score (s : t) (passport_id : N) (domain : string) (now : N) : F64.t :=
  default F64.zero
    (agent ← s !! passport_id; d ← AR.domains agent !! domain; Some (DR.effective_score d now)).

Definition get_all_scores (s : t) (passport_id now : N) : gmap string F64.t :=
  match s !! passport_id with
  | Some agent => (λ rep, DR.effective_score rep now) <$> AR.domains agent
  | None => ∅
  end.

Definition discipline_state (s : t) (passport_id now : N) : DisciplineState :=
  match s !! passport_id with
  | Some agent => AR.discipline_state agent now
  | None => DS.GoodStanding
  end.

Definition recovery_status (s : t) (passport_id now : N) : RecoveryStatus :=
  match s !! passport_id with
  | None => RecoveryStatus.NotApplicable
  | Some agent =>
      match AR.discipline_state agent now with
      | DS.Probation => RT.check (AR.recovery agent) RR.for_probation now
      | DS.Suspended => RT.check (AR.recovery agent) RR.for_suspension now
      | _ => RecoveryStatus.NotApplicable
      end
  end.

Definition attempt_recovery (s : t) (passport_id now : N) : t * bool :=
  if negb (RecoveryStatus.is_eligible (recovery_status s passport_id now)) then (s, false)
  else
    match s !! passport_id with
    | Some agent => (<[passport_id := restore now agent]> s, true)
    | None => (s, false)
    end.
End Reads.
End ReputationRegistry.
Abbreviation ReputationRegistry := ReputationRegistry.t.
Module RG := ReputationRegistry.

(** ** Histories *)

Inductive rep_op : Type :=
  | Register (id now : N)
  | Feedback (id : N) (domain : string) (quality weight : F64.t) (now : N)
  | Slash (id : N) (domain : string) (violation : ReputationViolation) (now : N)
  | Ban (id now : N)
  | Amnesty (id now : N)
  | RecoveryWork (id : N) (feedback : F64.t) (now : N)
  | PostStake (id : N)
  | PassVerification (id : N)
  | AttemptRecovery (id now : N).

(** The standing of an agent: the state that overrides its scores, and since when. *)
Definition standing (s : ReputationRegistry) (id : N) : option (option DisciplineState * N) :=
  (λ a, (AR.discipline_override a, RT.state_entered_at (AR.recovery a))) <$> s !! id.

Lemma standing_with_agent id now f s id' :
  (∀ a, AR.discipline_override (f a) = AR.discipline_override a) →
  (∀ a, AR.recovery (f a) = AR.recovery a) →
  standing (RG.with_agent id now f s) id' =
  if decide (id' = id) then Some (default (None, 0%N) (standing s id)) else standing s id'.
Proof.
  intros Ho Hr. unfold standing, RG.with_agent. case_decide as E.
  - subst. rewrite lookup_insert_eq. simpl. rewrite Ho, Hr. by destruct (s !! id).
  - by rewrite lookup_insert_ne.
Qed.

Lemma standing_alter id f (s : ReputationRegistry) id' :
  (∀ a, AR.discipline_override (f a) = AR.discipline_override a) →
  (∀ a, RT.state_entered_at (AR.recovery (f a)) = RT.state_entered_at (AR.recovery a)) →
  standing (alter f id s) id' = standing s id'.
Proof.
  intros Ho Hr. unfold standing. destruct (decide (id' = id)) as [->|].
  - rewrite lookup_alter_eq. destruct (s !! id); simpl; by rewrite ?Ho, ?Hr.
  - by rewrite lookup_alter_ne.
Qed.

Lemma standing_restore id now a (s : ReputationRegistry) id' :
  standing (<[id := RG.restore now a]> s) id' =
  if decide (id' = id) then Some (Some DS.GoodStanding, now) else standing s id'.
Proof.
  unfold standing. case_decide; [subst; by rewrite lookup_insert_eq|by rewrite lookup_insert_ne].
Qed.

(** Amnesty is open when less than a day of the 365 is left. *)
Lemma amnesty_iff s id now :
  (RG.governance_amnesty s id now).2 = true ↔
  ∃ t, standing s id = Some (Some DS.Banned, t) ∧ (364 * 24 * 3600 < now - t)%N.
Proof.
  unfold RG.governance_amnesty, RG.amnesty_eligible, standing, sat_sub.
  destruct (s !! id) as [a|]; simpl; [|naive_solver].
  destruct (decide (AR.discipline_override a ≠ Some DS.Banned)) as [Hb|Hb%dec_stable].
  { rewrite decide_True by done. simpl. naive_solver. }
  rewrite Hb. set (t := RT.state_entered_at (AR.recovery a)).
  destruct (365 * 24 * 3600 <=? now - t)%N eqn:E.
  { rewrite decide_False by naive_solver. simpl. split; [|done]. intros _. exists t. split; [done|lia]. }
  assert ((365 * 24 * 3600 - (now - t)) / (24 * 3600) = 0 ↔ 364 * 24 * 3600 < now - t)%N as Hd.
  { rewrite N.div_small_iff by lia. lia. }
  case_decide as H; simpl.
  - split; [done|]. intros (t' & [= <-] & Ht). destruct H. by rewrite (proj2 Hd).
  - injection H as H. split; [|done]. intros _. exists t.
    split; [done|]. by apply Hd.
Qed.

(** Both ways of restoring an agent change nothing or mark it as in good standing. *)
Lemma amnesty_cases s id now :
  RG.governance_amnesty s id now = (s, false) ∨
  ∃ a, s !! id = Some a ∧ RG.governance_amnesty s id now = (<[id := RG.restore now a]> s, true).
Proof. unfold RG.governance_amnesty. repeat case_match; by eauto. Qed.

Section History.
Context {PL : PowLib} {HI : HashIter}.

Lemma recovery_cases s id now :
  RG.attempt_recovery s id now = (s, false) ∨
  ∃ a, s !! id = Some a ∧ RG.attempt_recovery s id now = (<[id := RG.restore now a]> s, true).
Proof. unfold RG.attempt_recovery. repeat case_match; by eauto. Qed.

Definition apply_rep_op (s : ReputationRegistry) (op : rep_op) : ReputationRegistry :=
  match op with
  | Register id now => RG.register_agent s id now
  | Feedback id domain quality weight now =>
      RG.submit_feedback_weighted s id domain quality weight now
  | Slash id domain violation now => RG.slash s id domain violation now
  | Ban id now => RG.ban_agent s id now
  | Amnesty id now => (RG.governance_amnesty s id now).1
  | RecoveryWork id feedback now => RG.record_recovery_job s id feedback now
  | PostStake id => RG.post_recovery_stake s id
  | PassVerification id => RG.pass_verification_challenge s id
  | AttemptRecovery id now => (RG.attempt_recovery s id now).1
  end.

Definition run_rep (s : ReputationRegistry) (ops : list rep_op) : ReputationRegistry :=
  foldl apply_rep_op s ops.

(** An operation other than a ban of the agent. *)
Definition no_ban (id : N) (op : rep_op) : Prop :=
  match op with Ban id' _ => id' ≠ id | _ => True end.

(** An amnesty of the agent comes more than a day before the 365 days since [t] are over. *)
Definition early_amnesty (id t : N) (op : rep_op) : Prop :=
  match op with Amnesty id' now => id' = id → (now - t ≤ 364 * 24 * 3600)%N | _ => True end.

Lemma marked_discipline s id state t now :
  standing s id = Some (Some state, t) → RG.discipline_state s id now = state.
Proof.
  unfold standing, RG.discipline_state, AR.discipline_state.
  destruct (s !! id) as [a|]; [|done]. simpl. by intros [= -> _].
Qed.

Lemma marked_no_recovery s id state t now :
  standing s id = Some (Some state, t) → state = DS.GoodStanding ∨ state = DS.Banned →
  RG.attempt_recovery s id now = (s, false).
Proof.
  intros Hs Hst. unfold RG.attempt_recovery, RG.recovery_status, standing in *.
  destruct (s !! id) as [a|]; [|done]. injection Hs as Hs _.
  unfold AR.discipline_state. rewrite Hs. by destruct Hst as [-> | ->].
Qed.

(** What an operation does to the standing of an agent. *)
Lemma standing_step s op id :
  standing (apply_rep_op s op) id = standing s id ∨
  (standing s id = None ∧ standing (apply_rep_op s op) id = Some (None, 0%N)) ∨
  (∃ now, op = Ban id now ∧ standing (apply_rep_op s op) id = Some (Some DS.Banned, now)) ∨
  (∃ now, op = Amnesty id now ∧ (RG.governance_amnesty s id now).2 = true ∧
     standing (apply_rep_op s op) id = Some (Some DS.GoodStanding, now)) ∨
  (∃ now, op = AttemptRecovery id now ∧ (RG.attempt_recovery s id now).2 = true ∧
     standing (apply_rep_op s op) id = Some (Some DS.GoodStanding, now)).
Proof.
  destruct op as [i now|i domain q w now|i domain v now|i now|i now|i f now|i|i|i now]; simpl.
  1,2: unfold RG.register_agent, RG.submit_feedback_weighted; rewrite standing_with_agent by done;
    case_decide; [subst; destruct (standing s i); by eauto|by left].
  - left. apply standing_alter; intros a; by destruct (ReputationViolation.is_collusion v).
  - unfold RG.ban_agent, standing. destruct (decide (id = i)) as [->|].
    + rewrite lookup_alter_eq. destruct (s !! i); [right; right; left; by eauto|by left].
    + left. by rewrite lookup_alter_ne.
  - destruct (amnesty_cases s i now) as [E|(a & _ & E)]; rewrite E; simpl; [by left|].
    rewrite standing_restore. case_decide; [subst|by left]. right; right; right; left.
    exists now. by rewrite E.
  - left. by apply standing_alter.
  - left. by apply standing_alter.
  - left. by apply standing_alter.
  - destruct (recovery_cases s i now) as [E|(a & _ & E)]; rewrite E; simpl; [by left|].
    rewrite standing_restore. case_decide; [subst|by left]. right; right; right; right.
    exists now. by rewrite E.
Qed.

Lemma ban_stays s ops id t :
  standing s id = Some (Some DS.Banned, t) →
  Forall (no_ban id) ops → Forall (early_amnesty id t) ops →
  standing (run_rep s ops) id = Some (Some DS.Banned, t).
Proof.
  intros Hs Hb Ha. induction ops as [|op ops IH] using rev_ind; [done|].
  apply Forall_app in Hb as [Hb Hb']. apply Forall_app in Ha as [Ha Ha'].
  rewrite Forall_singleton in Hb', Ha'. specialize (IH Hb Ha).
  unfold run_rep in *. rewrite foldl_snoc. set (s' := foldl apply_rep_op s ops) in *.
  destruct (standing_step s' op id)
    as [->|[[Hn _]|[(now & -> & _)|[(now & -> & Hok & _)|(now & -> & Hok & _)]]]]; [done|..].
  - by rewrite IH in Hn.
  - done.
  - apply amnesty_iff in Hok as (t' & Ht' & Hlate). rewrite IH in Ht'. injection Ht' as <-.
    specialize (Ha' eq_refl). lia.
  - rewrite (marked_no_recovery _ _ _ _ _ IH) in Hok by naive_solver. done.
Qed.

Lemma restored_stays s ops id t :
  standing s id = Some (Some DS.GoodStanding, t) → Forall (no_ban id) ops →
  standing (run_rep s ops) id = Some (Some DS.GoodStanding, t).
Proof.
  intros Hs Hb. induction ops as [|op ops IH] using rev_ind; [done|].
  apply Forall_app in Hb as [Hb Hb']. rewrite Forall_singleton in Hb'. specialize (IH Hb).
  unfold run_rep in *. rewrite foldl_snoc. set (s' := foldl apply_rep_op s ops) in *.
  destruct (standing_step s' op id)
    as [->|[[Hn _]|[(now & -> & _)|[(now & -> & Hok & _)|(now & -> & Hok & _)]]]]; [done|..].
  - by rewrite IH in Hn.
  - done.
  - apply amnesty_iff in Hok as (t' & Ht' & _). by rewrite IH in Ht'.
  - rewrite (marked_no_recovery _ _ _ _ _ IH) in Hok by naive_solver. done.
Qed.

(** *** Scores *)

Definition in_unit (f : F64.t) : Prop := sf_le F64.zero f ∧ sf_le f (F64.of_Z 1).

Lemma clamp01_unit f : in_unit (clamp01 f).
Proof.
  unfold in_unit, clamp01, F64.clamp, F64.lt, F64.gt, sf_le.
  destruct (SFltb f F64.zero) eqn:E0; [by vm_compute|].
  destruct (SFltb (F64.of_Z 1) f) eqn:E1; [by vm_compute|]. done.
Qed.

(** The scores of an agent are between 0 and 1. *)
Definition scores_wf (s : ReputationRegistry) : Prop :=
  map_Forall (λ _ a, map_Forall (λ _ d, in_unit (DR.score d)) (AR.domains a)) s.

Lemma new_agent_unit now : map_Forall (λ _ d, in_unit (DR.score d)) (AR.domains (AR.new now)).
Proof.
  unfold AR.new. simpl. repeat apply map_Forall_insert_2; try apply clamp01_unit.
  apply map_Forall_empty.
Qed.

Lemma with_agent_wf id now f s :
  scores_wf s →
  (∀ a, map_Forall (λ _ d, in_unit (DR.score d)) (AR.domains a) →
     map_Forall (λ _ d, in_unit (DR.score d)) (AR.domains (f a))) →
  scores_wf (RG.with_agent id now f s).
Proof.
  intros Hs Hf. apply map_Forall_insert_2; [|done]. apply Hf.
  destruct (s !! id) as [a|] eqn:E; [by eapply Hs|apply new_agent_unit].
Qed.

Lemma alter_wf (P : AgentReputation → Prop) f id (s : ReputationRegistry) :
  map_Forall (λ _ a, P a) s → (∀ a, P a → P (f a)) → map_Forall (λ _ a, P a) (alter f id s).
Proof.
  intros Hs Hf i a. destruct (decide (i = id)) as [->|].
  - rewrite lookup_alter_eq. destruct (s !! id) as [b|] eqn:E; [|done].
    intros [= <-]. by eapply Hf, Hs.
  - rewrite lookup_alter_ne by done. apply Hs.
Qed.

Lemma apply_scores_wf s op : scores_wf s → scores_wf (apply_rep_op s op).
Proof.
  intros Hs. destruct op as [i now|i domain q w now|i domain v now|i now|i now|i f now|i|i|i now]; simpl.
  - by apply with_agent_wf.
  - apply with_agent_wf; [done|]. intros a Ha. apply map_Forall_insert_2; [|done].
    apply clamp01_unit.
  - apply alter_wf; [done|]. intros a Ha. destruct (ReputationViolation.is_collusion v); [done|].
    intros k d. simpl. destruct (decide (k = domain)) as [->|].
    + rewrite lookup_alter_eq. destruct (AR.domains a !! domain) as [d'|] eqn:E; [|done].
      intros [= <-]. apply clamp01_unit.
    + rewrite lookup_alter_ne by done. apply Ha.
  - by apply alter_wf.
  - destruct (amnesty_cases s i now) as [-> |(a & Ha & ->)]; [done|].
    apply map_Forall_insert_2; [|done]. by eapply (Hs i a).
  - by apply alter_wf.
  - by apply alter_wf.
  - by apply alter_wf.
  - destruct (recovery_cases s i now) as [-> |(a & Ha & ->)]; [done|].
    apply map_Forall_insert_2; [|done]. by eapply (Hs i a).
Qed.

Lemma run_scores_wf ops : scores_wf (run_rep RG.new ops).
Proof.
  induction ops as [|op ops IH] using rev_ind; [by apply map_Forall_empty|].
  unfold run_rep. rewrite foldl_snoc. by apply apply_scores_wf.
Qed.

(** *** Discipline from the scores *)

(** The slashes of an agent in the last 90 days, over all domains. *)
Definition window_slashes (now : N) (d : DomainReputation) : N :=
  N.of_nat (length (List.filter (λ t, now - SLASH_WINDOW_SECS <=? t)%N (DR.slash_timestamps d))).

Definition recent_slashes (a : AgentReputation) (now : N) : N :=
  foldr N.add 0%N (window_slashes now <$> hash_values (AR.domains a)).

Lemma sum_counts (counts : list N) acc :
  (acc + foldr N.add 0 counts ≤ u32_MAX)%N →
  foldl add32 acc ((λ n, n mod (u32_MAX + 1))%N <$> counts) = (acc + foldr N.add 0 counts)%N.
Proof.
  revert acc. induction counts as [|n counts IH]; simpl; intros acc H; [lia|].
  rewrite (N.mod_small n) by lia. rewrite add32_small by lia. rewrite IH; lia.
Qed.

Lemma total_slashes_spec a now :
  (recent_slashes a now ≤ u32_MAX)%N → AR.total_slashes a now = recent_slashes a now.
Proof.
  intros H. unfold AR.total_slashes, recent_slashes in *.
  change (λ d, DR.slash_count_in_window d now)
    with ((λ n, n mod (u32_MAX + 1))%N ∘ window_slashes now).
  rewrite list_fmap_compose, sum_counts; by rewrite N.add_0_l.
Qed.

Definition below (limit : F64.t) (now : N) (d : DomainReputation) : bool :=
  F64.lt (DR.effective_score d now) limit.

Lemma scan_domains_spec ds now :
  let low := below (F64.lit 4 10) now in
  let very_low := below (F64.lit 2 10) now in
  match AR.scan_domains ds now with
  | DS.GoodStanding => ∀ d, d ∈ ds → low d = false ∧ very_low d = false
  | DS.Probation => ∃ d, d ∈ ds ∧ low d = true ∧ very_low d = false
  | DS.Suspended => ∃ d, d ∈ ds ∧ very_low d = true
  | DS.Banned => False
  end.
Proof.
  intros low very_low. induction ds as [|d ds IH]; simpl; [set_solver|].
  change (F64.lt _ (F64.lit 2 10)) with (very_low d). change (F64.lt _ (F64.lit 4 10)) with (low d).
  destruct (very_low d) eqn:E2; [set_solver|]. destruct (low d) eqn:E4; [set_solver|].
  destruct (AR.scan_domains ds now); set_solver.
Qed.

(** Bans and restorations hold.  A ban of a registered agent holds whatever happens to it,
    slashes, feedback and recovery attempts included, until an amnesty more than 364 days after
    the ban (the code counts whole days of the 365 that are left) or a new ban; an amnesty then succeeds, and
    none before.  An agent that was restored, by amnesty or recovery, is in good standing
    whatever happens until it is banned.  The discipline of an agent that was neither banned nor restored
    follows its record: suspended from three slashes in 90 days on, otherwise in good standing
    exactly when no score is below the thresholds, suspended only for a score below 0.2 and on
    probation only for one below 0.4.  All scores stay between 0 and 1. *)
Theorem bans_and_restorations ops id :
  let s := run_rep RG.new ops in
  scores_wf s ∧
  (∀ t later now, is_Some (s !! id) → Forall (no_ban id) later → Forall (early_amnesty id t) later →
     let s' := run_rep (RG.ban_agent s id t) later in
     RG.discipline_state s' id now = DS.Banned ∧ RG.attempt_recovery s' id now = (s', false) ∧
     ((RG.governance_amnesty s' id now).2 = true ↔ (364 * 24 * 3600 < now - t)%N)) ∧
  (∀ t s' later now,
     RG.governance_amnesty s id t = (s', true) ∨ RG.attempt_recovery s id t = (s', true) →
     Forall (no_ban id) later → RG.discipline_state (run_rep s' later) id now = DS.GoodStanding) ∧
  (∀ a now, s !! id = Some a → AR.discipline_override a = None →
     (recent_slashes a now ≤ u32_MAX)%N →
     let low d := below (F64.lit 4 10) now d in
     let very_low d := below (F64.lit 2 10) now d in
     let has (p : DomainReputation → bool) := ∃ k d, AR.domains a !! k = Some d ∧ p d = true in
     if (3 <=? recent_slashes a now)%N then RG.discipline_state s id now = DS.Suspended
     else match RG.discipline_state s id now with
          | DS.GoodStanding => ¬ has low ∧ ¬ has very_low
          | DS.Probation => has low
          | DS.Suspended => has very_low
          | DS.Banned => False
          end).
Proof.
  intros s. split_and!.
  - apply run_scores_wf.
  - intros t later now [a Ha] Hb He s'.
    assert (standing s' id = Some (Some DS.Banned, t)) as Hs.
    { apply ban_stays; [|done|done]. unfold standing, RG.ban_agent. by rewrite lookup_alter_eq, Ha. }
    split_and!; [by eapply marked_discipline|by eapply marked_no_recovery; eauto|].
    rewrite amnesty_iff, Hs. naive_solver.
  - intros t s' later now Hr Hb. eapply marked_discipline. apply (restored_stays _ _ _ t); [|done].
    destruct Hr as [Hr|Hr];
      [destruct (amnesty_cases s id t) as [E|(a & _ & E)]
      |destruct (recovery_cases s id t) as [E|(a & _ & E)]]; rewrite E in Hr; simplify_eq;
      rewrite standing_restore; by rewrite decide_True.
  - intros a now Ha Ho Hn low very_low has.
    unfold RG.discipline_state, AR.discipline_state. rewrite Ha, Ho, total_slashes_spec by done.
    destruct (3 <=? recent_slashes a now)%N; [done|].
    pose proof (scan_domains_spec (hash_values (AR.domains a)) now) as H. simpl in H.
    destruct (AR.scan_domains _ now); [|destruct H as (d & [k Hk]%elem_of_hash_values & ? & ?)
      |destruct H as (d & [k Hk]%elem_of_hash_values & ?)|done].
    + split; intros (k & d & Hk & Hd);
        destruct (H d (proj2 (elem_of_hash_values _ _) (ex_intro _ k Hk))); unfold low, very_low in *; congruence.
    + by exists k, d.
    + by exists k, d.
Qed.
End History.

(** A constant decay stands in for the power function: scores do not move with time. *)
Definition no_decay : PowLib := {| f64_powf _ _ := F64.of_Z 1 |}.

Definition banned_ops : list rep_op :=
  [Slash 1 "coding" ReputationViolation.Plagiarism 200; Amnesty 1 1000; AttemptRecovery 1 2000].

Lemma bans_and_restorations_witness :
  let s := run_rep (PL := no_decay) RG.new [Register 1 0; Register 2 0] in
  let s' := run_rep (PL := no_decay) (RG.ban_agent s 1 100) banned_ops in
  RG.discipline_state (PL := no_decay) s' 1 3000 = DS.Banned ∧
  RG.discipline_state (PL := no_decay) s 2 10 = DS.GoodStanding.
Proof.
  intros s s'.
  pose proof (bans_and_restorations (PL := no_decay) [Register 1 0; Register 2 0] 1) as (_ & H & _).
  split.
  - apply (H 100%N banned_ops 3000%N).
    + apply (bool_decide_unpack _). vm_compute. exact I.
    + by repeat constructor.
    + repeat constructor; intros _; vm_compute; discriminate.
  - vm_compute. reflexivity.
Defined.

(** ** Where the discipline departs from its documentation *)

(** An iteration in the opposite order. *)
Definition hash_iter_reversed : HashIter.
Proof.
  refine {| hash_iter _ _ _ _ m := reverse (map_to_list m);
            hash_set_iter _ _ _ X := reverse (elements X) |}; intros; apply reverse_Permutation.
Defined.

Definition two_low_scores : AgentReputation :=
  AR.set_domains
    (<["coding" := DR.new (F64.lit 3 10) 0]> (<["security" := DR.new (F64.lit 1 10) 0]> ∅)) (AR.new 0).

(** An agent with one score below 0.4 and one below 0.2 is on probation or suspended, depending
    on the iteration order of the hash map. *)
Lemma discipline_depends_on_order :
  ∃ HI1 HI2 : HashIter,
    AR.discipline_state (PL := no_decay) (HI := HI1) two_low_scores 0 = DS.Probation ∧
    AR.discipline_state (PL := no_decay) (HI := HI2) two_low_scores 0 = DS.Suspended.
Proof.
  first [exists hash_iter_canonical, hash_iter_reversed; split; vm_compute; reflexivity
        |exists hash_iter_reversed, hash_iter_canonical; split; vm_compute; reflexivity].
Qed.

Definition three_slashes : list rep_op :=
  Register 1 1000000000 ::
  replicate 3 (Slash 1 "coding" ReputationViolation.MissedDeadline 1000000000).

(** The time of entering suspension is never recorded: an agent that was just suspended recovers at once,
    without the 90 days. *)
Lemma suspension_does_not_wait :
  let s := run_rep (PL := no_decay) RG.new (three_slashes ++ [PostStake 1; PassVerification 1]) in
  RG.discipline_state (PL := no_decay) s 1 1000000000 = DS.Suspended ∧
  (RG.attempt_recovery (PL := no_decay) s 1 1000000000).2 = true.
Proof. split; vm_compute; reflexivity. Qed.

(** Once restored an agent keeps its good standing whatever it does. *)
Lemma restored_agent_immune :
  let s := run_rep (PL := no_decay) RG.new
    (three_slashes ++ [PostStake 1; PassVerification 1; AttemptRecovery 1 1000000000] ++
     replicate 20 (Slash 1 "coding" ReputationViolation.Plagiarism 1000000001)) in
  RG.get_score (PL := no_decay) s 1 "coding" 1000000001 = F64.zero ∧
  RG.discipline_state (PL := no_decay) s 1 1000000001 = DS.GoodStanding.
Proof. split; vm_compute; reflexivity. Qed.

(** An amnesty is granted after 364 days and a second. *)
Lemma amnesty_a_day_early :
  let s := run_rep (PL := no_decay) RG.new [Register 1 0; Ban 1 0] in
  (RG.governance_amnesty s 1 (364 * 24 * 3600 + 1)).2 = true.
Proof. vm_compute. reflexivity. Qed.
