(* ===== verification/KoraiToken.v ===== *)
(** * The KORAI token (crates/roko-chain/src/korai_token.rs)

    Balances that lose value over time, charged when they are read; and the schedule by which
    tokens are emitted. *)

From S2P Require Import Prelude ChainTypes.

(** [365.25 * 24.0 * 3600.0] is exact. *)
Definition SECONDS_PER_YEAR : F64.t := F64.of_Z 31557600.
Definition DEFAULT_DEMURRAGE_RATE : F64.t := F64.lit 1 100.

(** ** Data *)

Module BalanceRecord.
Record t : Type := mk { stored_balance : N; last_update : N }.

Definition new (balance timestamp : N) : t := mk balance timestamp.

Section Demurrage.
Context {PL : PowLib}.

Definition effective_balance (r : t) (now : N) (annual_rate : F64.t) : N :=
  if (now <=? last_update r)%N || (stored_balance r =? 0)%N then stored_balance r
  else
    let elapsed := F64.of_N (now - last_update r) in
    let decay_factor :=
      f64_powf (F64.sub (F64.of_Z 1) annual_rate) (F64.div elapsed SECONDS_PER_YEAR) in
    f64_to_u128 (F64.mul (f64_of_u128 (stored_balance r)) decay_factor).

Definition materialise_demurrage (now : N) (annual_rate : F64.t) (r : t) : t :=
  mk (effective_balance r now annual_rate) now.
End Demurrage.
End BalanceRecord.
Abbreviation BalanceRecord := BalanceRecord.t.
Module BR := BalanceRecord.

Module EarningPathway.
Inductive t : Type :=
  | TaskCompletion
  | KnowledgeContribution
  | ValidationParticipation
  | ReputationStaking
  | MarketplaceFees.
End EarningPathway.
Abbreviation EarningPathway := EarningPathway.t.

Module SpendingMechanism.
Inductive t : Type :=
  | ComputePurchase
  | KnowledgeAccess
  | JobPosting
  | EscrowDeposit
  | GovernanceParticipation.
End SpendingMechanism.
Abbreviation SpendingMechanism := SpendingMechanism.t.

Module TransferReason.
Inductive t : Type :=
  | Earn (pathway : EarningPathway)
  | Spend (mechanism : SpendingMechanism)
  | Transfer.
End TransferReason.
Abbreviation TransferReason := TransferReason.t.

Module Transfer.
Record t : Type := mk {
  from : string;
  to : string;
  amount : N;
  reason : TransferReason;
  timestamp : N;
}.
End Transfer.
Abbreviation Transfer := Transfer.t.

Module KoraiTokenConfig.
Record t : Type := mk {
  demurrage_rate : F64.t;
  name : string;
  symbol : string;
  is_testnet : bool;
}.

Definition default : t := mk DEFAULT_DEMURRAGE_RATE "KORAI" "KORAI" false.
Definition testnet : t := mk DEFAULT_DEMURRAGE_RATE "DAEJI" "DAEJI" true.
End KoraiTokenConfig.
Abbreviation KoraiTokenConfig := KoraiTokenConfig.t.

(** ** The token *)

Module KoraiToken.
Record t : Type := mk {
  config : KoraiTokenConfig;
  balances : gmap string BalanceRecord;
  total_supply : N;
  transfers : list Transfer;
}.

Definition new (config : KoraiTokenConfig) : t := mk config ∅ 0 [].
Definition mainnet : t := new KoraiTokenConfig.default.
Definition testnet : t := new KoraiTokenConfig.testnet.
Definition name (s : t) : string := KoraiTokenConfig.name (config s).
Definition symbol (s : t) : string := KoraiTokenConfig.symbol (config s).
Definition demurrage_rate (s : t) : F64.t := KoraiTokenConfig.demurrage_rate (config s).

Section Operations.
Context {PL : PowLib}.

Definition balance_of (s : t) (address : string) (now : N) : N :=
  match balances s !! address with
  | Some record => BR.effective_balance record now (demurrage_rate s)
  | None => 0
  end.

(** The record of an account after its demurrage was charged and [change] made to it. *)
Definition settle (s : t) (now : N) (change : N → N) (record : BalanceRecord) : BalanceRecord :=
  let record := BR.materialise_demurrage now (demurrage_rate s) record in
  BR.mk (change (BR.stored_balance record)) now.

(** [entry(to).or_insert_with(..)], charged and credited. *)
Definition credit (s : t) (to : string) (amount now : N) (balances : gmap string BalanceRecord) :
    gmap string BalanceRecord :=
  <[to := settle s now (λ b, sat_add128 b amount)
            (stdpp.option.default (BR.new 0 now) (balances !! to))]> balances.

(** [get_mut(from)], charged and debited if it exists. *)
Definition debit (s : t) (from : string) (amount now : N) (balances : gmap string BalanceRecord) :
    gmap string BalanceRecord :=
  alter (settle s now (λ b, sat_sub b amount)) from balances.

Definition mint (s : t) (to : string) (amount : N) (pathway : EarningPathway) (now : N) : t :=
  mk (config s) (credit s to amount now (balances s)) (sat_add128 (total_supply s) amount)
    (transfers s ++ [Transfer.mk "0x0" to amount (TransferReason.Earn pathway) now]).

Definition transfer (s : t) (from to : string) (amount now : N) : t * bool :=
  if (balance_of s from now <? amount)%N then (s, false)
  else
    (mk (config s) (credit s to amount now (debit s from amount now (balances s)))
       (total_supply s)
       (transfers s ++ [Transfer.mk from to amount TransferReason.Transfer now]), true).

Definition burn (s : t) (from : string) (amount : N) (mechanism : SpendingMechanism) (now : N) :
    t * bool :=
  if (balance_of s from now <? amount)%N then (s, false)
  else
    (mk (config s) (debit s from amount now (balances s)) (sat_sub (total_supply s) amount)
       (transfers s ++ [Transfer.mk from "0x0" amount (TransferReason.Spend mechanism) now]), true).
End Operations.
End KoraiToken.
Abbreviation KoraiToken := KoraiToken.t.
Module KT := KoraiToken.

(** ** Balances before and after *)

Section Balances.
Context {PL : PowLib}.
Implicit Types (s : KoraiToken) (m : gmap string BalanceRecord).

(** The balance of an address in a map of records. *)
Definition balance_in (rate : F64.t) m (a : string) (now : N) : N :=
  match m !! a with Some r => BR.effective_balance r now rate | None => 0 end.

Definition balances_bounded m : Prop :=
  map_Forall (λ _ r, (BR.stored_balance r ≤ u128_MAX)%N) m.

Lemma effective_bounded r now rate :
  (BR.stored_balance r ≤ u128_MAX)%N → (BR.effective_balance r now rate ≤ u128_MAX)%N.
Proof.
  intros H. unfold BR.effective_balance. case_match; [done|].
  unfold f64_to_u128, F64.to_uint. repeat case_match; unfold u128_MAX in *; lia.
Qed.

Lemma effective_settled s now change r :
  BR.effective_balance (KT.settle s now change r) now (KT.demurrage_rate s) =
  change (BR.effective_balance r now (KT.demurrage_rate s)).
Proof.
  unfold KT.settle. simpl. unfold BR.effective_balance at 1. simpl.
  by rewrite N.leb_refl.
Qed.

Lemma balance_credit s to amount now m a :
  balance_in (KT.demurrage_rate s) (KT.credit s to amount now m) a now =
  if decide (a = to) then sat_add128 (balance_in (KT.demurrage_rate s) m to now) amount
  else balance_in (KT.demurrage_rate s) m a now.
Proof.
  unfold balance_in, KT.credit. case_decide as E.
  - subst. rewrite lookup_insert_eq, effective_settled. destruct (m !! to); [done|].
    simpl. unfold BR.effective_balance. simpl. by rewrite N.leb_refl.
  - by rewrite lookup_insert_ne.
Qed.

Lemma balance_debit s from amount now m a :
  balance_in (KT.demurrage_rate s) (KT.debit s from amount now m) a now =
  (balance_in (KT.demurrage_rate s) m a now - if decide (a = from) then amount else 0)%N.
Proof.
  unfold balance_in, KT.debit. case_decide as E.
  - subst. rewrite lookup_alter_eq. destruct (m !! from) as [r|]; simpl; [|done].
    by rewrite effective_settled.
  - rewrite lookup_alter_ne by done. lia.
Qed.

Lemma credit_bounded s to amount now m :
  balances_bounded m → balances_bounded (KT.credit s to amount now m).
Proof.
  intros H. apply map_Forall_insert_2; [|done]. simpl. unfold sat_add128. lia.
Qed.

Lemma debit_bounded s from amount now m :
  balances_bounded m → balances_bounded (KT.debit s from amount now m).
Proof.
  intros H k r. unfold KT.debit. destruct (decide (k = from)) as [->|].
  - rewrite lookup_alter_eq. destruct (m !! from) as [r'|] eqn:E; [|done]. intros [= <-]. simpl.
    pose proof (effective_bounded r' now (KT.demurrage_rate s) (H _ _ E)). unfold sat_sub. lia.
  - rewrite lookup_alter_ne by done. apply H.
Qed.

(** ** The sum of all balances *)

Definition supply_in (rate : F64.t) m (now : N) : N :=
  map_fold (λ _ r n, (BR.effective_balance r now rate + n)%N) 0%N m.

Definition supply_at s (now : N) : N := supply_in (KT.demurrage_rate s) (KT.balances s) now.

Lemma supply_insert rate m a r now :
  (supply_in rate (<[a := r]> m) now + balance_in rate m a now =
   supply_in rate m now + BR.effective_balance r now rate)%N.
Proof.
  unfold supply_in, balance_in. rewrite <-insert_delete_eq.
  rewrite map_fold_insert_L; [|intros; lia|by rewrite lookup_delete_eq].
  destruct (m !! a) as [r'|] eqn:E.
  - rewrite (map_fold_delete_L _ _ a r' m); [lia|intros; lia|done].
  - rewrite delete_id by done. lia.
Qed.

Lemma supply_credit s to amount now m :
  (balance_in (KT.demurrage_rate s) m to now + amount ≤ u128_MAX)%N →
  supply_in (KT.demurrage_rate s) (KT.credit s to amount now m) now =
  (supply_in (KT.demurrage_rate s) m now + amount)%N.
Proof.
  intros H. unfold KT.credit.
  set (r := KT.settle _ _ _ _). pose proof (supply_insert (KT.demurrage_rate s) m to r now) as Hi.
  pose proof (balance_credit s to amount now m to) as Hb. rewrite decide_True in Hb by done.
  unfold balance_in at 1, KT.credit in Hb. rewrite lookup_insert_eq in Hb. fold r in Hb.
  unfold sat_add128 in Hb. lia.
Qed.

Lemma supply_debit s from amount now m :
  (amount ≤ balance_in (KT.demurrage_rate s) m from now)%N →
  (supply_in (KT.demurrage_rate s) (KT.debit s from amount now m) now + amount =
   supply_in (KT.demurrage_rate s) m now)%N.
Proof.
  intros H. pose proof (balance_debit s from amount now m from) as Hb.
  rewrite decide_True in Hb by done. unfold KT.debit in *.
  destruct (m !! from) as [r|] eqn:E.
  - rewrite (alter_alt_Some _ _ _ _ E) in *. pose proof (supply_insert (KT.demurrage_rate s) m from
      (KT.settle s now (λ b, sat_sub b amount) r) now) as Hi.
    rewrite effective_settled in Hi. unfold balance_in in *. rewrite E in *. unfold sat_sub in *. lia.
  - rewrite alter_id'; [|by rewrite E]. unfold balance_in in H. rewrite E in H. lia.
Qed.

(** ** Histories *)

Inductive token_op : Type :=
  | Mint (to : string) (amount : N) (pathway : EarningPathway) (now : N)
  | Move (from to : string) (amount now : N)
  | Burn (from : string) (amount : N) (mechanism : SpendingMechanism) (now : N).

Definition apply_token_op s (op : token_op) : KoraiToken :=
  match op with
  | Mint to amount pathway now => KT.mint s to amount pathway now
  | Move from to amount now => (KT.transfer s from to amount now).1
  | Burn from amount mechanism now => (KT.burn s from amount mechanism now).1
  end.

Definition run_token (config : KoraiTokenConfig) (ops : list token_op) : KoraiToken :=
  foldl apply_token_op (KT.new config) ops.

(** The supply the log of transfers accounts for. *)
Definition logged_supply (log : list Transfer) : N :=
  foldl (λ n t,
    match Transfer.reason t with
    | TransferReason.Earn _ => sat_add128 n (Transfer.amount t)
    | TransferReason.Spend _ => sat_sub n (Transfer.amount t)
    | TransferReason.Transfer => n
    end) 0%N log.

Lemma run_token_wf config ops :
  let s := run_token config ops in
  balances_bounded (KT.balances s) ∧ KT.total_supply s = logged_supply (KT.transfers s).
Proof.
  induction ops as [|op ops [Hb Hs]] using rev_ind; [split; [apply map_Forall_empty|done]|].
  unfold run_token in *. rewrite foldl_snoc. set (s := foldl _ _ ops) in *.
  destruct op as [to amount p now|from to amount now|from amount m now]; simpl.
  - split; [by apply credit_bounded|]. unfold logged_supply. rewrite foldl_snoc. simpl. by rewrite Hs.
  - unfold KT.transfer. case_match; [done|]. simpl.
    split; [by apply credit_bounded, debit_bounded|]. unfold logged_supply. by rewrite foldl_snoc.
  - unfold KT.burn. case_match; [done|]. simpl.
    split; [by apply debit_bounded|]. unfold logged_supply. rewrite foldl_snoc. simpl. by rewrite Hs.
Qed.

Lemma balance_of_mk s m total log a now :
  KT.balance_of (KT.mk (KT.config s) m total log) a now = balance_in (KT.demurrage_rate s) m a now.
Proof. done. Qed.

(** [amount] more at one address. *)
Definition at_address (a b : string) (amount : N) : N := if decide (a = b) then amount else 0%N.

Lemma mint_moves s to amount p now :
  (KT.balance_of s to now + amount ≤ u128_MAX)%N →
  let s' := KT.mint s to amount p now in
  (∀ a, KT.balance_of s' a now = KT.balance_of s a now + at_address a to amount)%N ∧
  supply_at s' now = (supply_at s now + amount)%N.
Proof.
  intros H s'. split; [intros a|exact (supply_credit s to amount now _ H)].
  unfold s', KT.mint. rewrite balance_of_mk, balance_credit.
  change (KT.balance_of s) with (balance_in (KT.demurrage_rate s) (KT.balances s)) in *.
  unfold at_address, sat_add128. case_decide; subst; lia.
Qed.

Lemma transfer_moves s from to amount now s' ok :
  balances_bounded (KT.balances s) → KT.transfer s from to amount now = (s', ok) →
  ok = (amount <=? KT.balance_of s from now)%N ∧ (ok = false → s' = s) ∧
  (ok = true → (from ≠ to → KT.balance_of s to now + amount ≤ u128_MAX)%N →
     (∀ a, KT.balance_of s' a now + at_address a from amount =
           KT.balance_of s a now + at_address a to amount)%N ∧
     supply_at s' now = supply_at s now).
Proof.
  intros Hb. unfold KT.transfer.
  change (KT.balance_of s) with (balance_in (KT.demurrage_rate s) (KT.balances s)).
  destruct (_ <? amount)%N eqn:E; intros [= <- <-]; (split; [lia|]); (split; [done|]); [done|].
  intros _ H. set (m := KT.debit s from amount now (KT.balances s)).
  pose proof (λ a, balance_debit s from amount now (KT.balances s) a) as Hd. fold m in Hd.
  assert (balance_in (KT.demurrage_rate s) m to now + amount ≤ u128_MAX)%N as Hroom.
  { rewrite Hd. case_decide as Eq; [|specialize (H ltac:(congruence)); lia].
    subst. unfold balance_in in *. destruct (KT.balances s !! from) as [r|] eqn:Er; [|by destruct amount].
    pose proof (effective_bounded r now (KT.demurrage_rate s) (Hb _ _ Er)). lia. }
  split.
  - intros a. rewrite balance_of_mk, balance_credit, !Hd. rewrite Hd in Hroom.
    unfold at_address, sat_add128. repeat case_decide; subst; try congruence; lia.
  - unfold supply_at. simpl. change (KT.demurrage_rate _) with (KT.demurrage_rate s).
    rewrite supply_credit by done. apply supply_debit. lia.
Qed.

Lemma burn_moves s from amount mechanism now s' ok :
  KT.burn s from amount mechanism now = (s', ok) →
  ok = (amount <=? KT.balance_of s from now)%N ∧ (ok = false → s' = s) ∧
  (ok = true →
     (∀ a, KT.balance_of s' a now + at_address a from amount = KT.balance_of s a now)%N ∧
     (supply_at s' now + amount = supply_at s now)%N).
Proof.
  unfold KT.burn. change (KT.balance_of s) with (balance_in (KT.demurrage_rate s) (KT.balances s)).
  destruct (_ <? amount)%N eqn:E; intros [= <- <-]; (split; [lia|]); (split; [done|]); [done|].
  intros _. split; [intros a|].
  - rewrite balance_of_mk, balance_debit. unfold at_address. case_decide; subst; lia.
  - unfold supply_at. simpl. change (KT.demurrage_rate _) with (KT.demurrage_rate s).
    apply supply_debit. lia.
Qed.

(** Tokens move and are conserved.  In any reachable state and at any time, a mint raises the
    balance of its receiver and the sum of all balances by exactly its amount; a transfer or a
    burn succeeds exactly when the balance after demurrage covers it, changes nothing if
    refused, and otherwise takes exactly the amount from the sender's balance; a transfer adds it to the
    receiver's, to oneself included, and keeps the sum, and a burn lowers the sum by it.  No
    other balance changes.  Mints and receivers must have room in 128 bits.  The recorded
    total supply is what the log of transfers accounts for. *)
Theorem tokens_conserved config ops now :
  let s := run_token config ops in
  let balance a := KT.balance_of s a now in
  (∀ to amount pathway, (balance to + amount ≤ u128_MAX)%N →
     let s' := KT.mint s to amount pathway now in
     (∀ a, KT.balance_of s' a now = balance a + at_address a to amount)%N ∧
     supply_at s' now = (supply_at s now + amount)%N) ∧
  (∀ from to amount s' ok, KT.transfer s from to amount now = (s', ok) →
     ok = (amount <=? balance from)%N ∧ (ok = false → s' = s) ∧
     (ok = true → (from ≠ to → balance to + amount ≤ u128_MAX)%N →
        (∀ a, KT.balance_of s' a now + at_address a from amount =
              balance a + at_address a to amount)%N ∧
        supply_at s' now = supply_at s now)) ∧
  (∀ from amount mechanism s' ok, KT.burn s from amount mechanism now = (s', ok) →
     ok = (amount <=? balance from)%N ∧ (ok = false → s' = s) ∧
     (ok = true →
        (∀ a, KT.balance_of s' a now + at_address a from amount = balance a)%N ∧
        (supply_at s' now + amount = supply_at s now)%N)) ∧
  KT.total_supply s = logged_supply (KT.transfers s).
Proof.
  intros s balance. destruct (run_token_wf config ops) as [Hb Hs]. split_and!; [..|done].
  - intros to amount p. apply mint_moves.
  - intros from to amount s' ok. by apply transfer_moves.
  - intros from amount m s' ok. apply burn_moves.
Qed.
End Balances.

(** A power function that is right for the base one. *)
Definition pow_at_one : PowLib := {| f64_powf _ _ := F64.of_Z 1 |}.

(** Without demurrage a balance beyond 53 bits is rounded when it is charged: waiting a second
    creates a token. *)
Lemma waiting_creates_tokens :
  let config := KoraiTokenConfig.mk F64.zero "KORAI" "KORAI" false in
  let s := run_token (PL := pow_at_one) config
    [Mint "a" 9007199254740995 EarningPathway.TaskCompletion 0] in
  KT.balance_of (PL := pow_at_one) s "a" 0 = 9007199254740995%N ∧
  KT.balance_of (PL := pow_at_one) s "a" 1 = 9007199254740996%N.
Proof. split; vm_compute; reflexivity. Qed.

(** ** The emission of KORAI tokens (crates/roko-chain/src/korai_token.rs)

    A rate per block that halves every epoch down to a terminal rate, added up over a
    range of blocks. *)

From Stdlib Require Import SpecFloat.

(** [0.5_f64.powi(n)]: a power of two is exact, below the range of the format it is 0. *)
Definition half_powi (n : Z) : F64.t := binary_normalize 53 1024 1 (- n) false.

(** The cast [x as i32]. *)
Definition u64_as_i32 (x : N) : Z :=
  let low := (x mod 4294967296)%N in
  if (low <? 2147483648)%N then Z.of_N low else (Z.of_N low - 4294967296)%Z.

Definition mul64 (a b : N) : N := (a * b) mod (u64_MAX + 1).

(** [a - b], wrapping. *)
Definition sub64 (a b : N) : N := ((a + (u64_MAX + 1)) - b) mod (u64_MAX + 1).

Module EmissionSchedule.
Record t : Type := mk {
  base_emission_per_block : F64.t;
  blocks_per_epoch : N;
  terminal_rate : F64.t;
  max_supply : F64.t;
  total_minted : F64.t }.

Definition new (base : F64.t) (blocks : N) (terminal supply : F64.t) : t :=
  mk (F64.max base F64.zero) (N.max blocks 1) (F64.max terminal F64.zero)
     (F64.max supply F64.zero) F64.zero.

Definition default_korai : t :=
  new (F64.of_Z 100) 2628000 (F64.of_Z 1) (F64.of_Z 1000000000).

Definition epoch_for_block (s : t) (block : N) : N := block / blocks_per_epoch s.

Definition rate_at_block (s : t) (block : N) : F64.t :=
  if F64.ge (total_minted s) (max_supply s) then F64.zero
  else
    let epoch := epoch_for_block s block in
    let halving_factor := half_powi (u64_as_i32 epoch) in
    let rate := F64.mul (base_emission_per_block s) halving_factor in
    F64.max rate (terminal_rate s).

(** One round of the loop over epochs: what the round adds, and the block it goes on with. *)
Definition emission_round (s : t) (block end_block : N) : F64.t * N :=
  let epoch := epoch_for_block s block in
  let epoch_end := mul64 (add64 epoch 1) (blocks_per_epoch s) in
  let range_end := N.min end_block epoch_end in
  let blocks_in_range := sub64 range_end block in
  (F64.mul (rate_at_block s block) (F64.of_N blocks_in_range), range_end).

(** The loop, with fuel: none when it runs out. *)
Fixpoint emission_loop (fuel : nat) (s : t) (block end_block : N) (total : F64.t) : option F64.t :=
  if (block <? end_block)%N then
    match fuel with
    | O => None
    | S fuel =>
        let '(emitted, range_end) := emission_round s block end_block in
        emission_loop fuel s range_end end_block (F64.add total emitted)
    end
  else Some total.

Definition remaining_supply (s : t) : F64.t :=
  F64.max (F64.sub (max_supply s) (total_minted s)) F64.zero.

(** A round for each epoch the range meets. *)
Definition emission_fuel (s : t) (start_block end_block : N) : nat :=
  S (N.to_nat (epoch_for_block s end_block - epoch_for_block s start_block)).

Definition emission_for_range (s : t) (start_block end_block : N) : option F64.t :=
  if (end_block <=? start_block)%N then Some F64.zero
  else
    total ← emission_loop (emission_fuel s start_block end_block) s start_block end_block F64.zero;
    Some (F64.min total (remaining_supply s)).

Definition record_mint (amount : F64.t) (s : t) : t :=
  mk (base_emission_per_block s) (blocks_per_epoch s) (terminal_rate s) (max_supply s)
     (F64.add (total_minted s) amount).

Definition supply_fraction (s : t) : F64.t :=
  if F64.le (max_supply s) F64.zero then F64.of_Z 1
  else F64.min (F64.div (total_minted s) (max_supply s)) (F64.of_Z 1).

Definition estimated_blocks_remaining (s : t) (current_block : N) : option N :=
  let rate := rate_at_block s current_block in
  if F64.le rate F64.zero then None
  else Some (F64.to_u64 (F64.div (remaining_supply s) rate)).
End EmissionSchedule.
Abbreviation EmissionSchedule := EmissionSchedule.t.
Module ES := EmissionSchedule.

Example rate_of_fourth_epoch :
  ES.rate_at_block ES.default_korai 7900000 = F64.lit 25 2 ∧
  ES.rate_at_block ES.default_korai 30000000 = F64.of_Z 1.
Proof. split; vm_compute; reflexivity. Qed.

(** ** The emission of a range

    The part of epoch [e] in a range of blocks, and what it emits. *)

Definition blocks_of_epoch (s : EmissionSchedule) (start_block end_block e : N) : N :=
  N.min end_block ((e + 1) * ES.blocks_per_epoch s) - N.max start_block (e * ES.blocks_per_epoch s).

Definition epoch_rate (s : EmissionSchedule) (e : N) : F64.t :=
  ES.rate_at_block s (e * ES.blocks_per_epoch s).

Definition epoch_emission s (start_block end_block e : N) : F64.t :=
  F64.mul (epoch_rate s e) (F64.of_N (blocks_of_epoch s start_block end_block e)).

Fixpoint epochs_from (e : N) (k : nat) : list N :=
  match k with O => [] | S k => e :: epochs_from (e + 1) k end.

Definition emission_of_epochs s (start_block end_block : N) (epochs : list N) (total : F64.t) : F64.t :=
  foldl (λ total e, F64.add total (epoch_emission s start_block end_block e)) total epochs.

Section Emission.
Context (s : EmissionSchedule) (Hn : (0 < ES.blocks_per_epoch s)%N).
Context (start_block end_block : N).
Context (Hroom : (end_block + ES.blocks_per_epoch s ≤ u64_MAX)%N).

Lemma rate_of_epoch block : ES.rate_at_block s block = epoch_rate s (ES.epoch_for_block s block).
Proof.
  unfold epoch_rate, ES.rate_at_block, ES.epoch_for_block. rewrite N.div_mul by lia. done.
Qed.

Lemma epoch_bounds block :
  (ES.epoch_for_block s block * ES.blocks_per_epoch s ≤ block <
   (ES.epoch_for_block s block + 1) * ES.blocks_per_epoch s)%N.
Proof.
  unfold ES.epoch_for_block. pose proof (N.div_mod block (ES.blocks_per_epoch s)).
  pose proof (N.mod_lt block (ES.blocks_per_epoch s)). nia.
Qed.

(** A round goes on at the next epoch or ends the range. *)
Lemma emission_round_spec block :
  (block < end_block)%N →
  ES.emission_round s block end_block =
    (F64.mul (epoch_rate s (ES.epoch_for_block s block))
       (F64.of_N (N.min end_block ((ES.epoch_for_block s block + 1) * ES.blocks_per_epoch s) - block)),
     N.min end_block ((ES.epoch_for_block s block + 1) * ES.blocks_per_epoch s)%N).
Proof.
  intros Hb. unfold ES.emission_round. rewrite <- rate_of_epoch.
  pose proof (epoch_bounds block) as He. set (e := ES.epoch_for_block s block) in *.
  set (n := ES.blocks_per_epoch s) in *.
  assert ((e + 1) * n ≤ u64_MAX)%N as H1 by nia.
  assert (e + 1 ≤ u64_MAX)%N as H2 by nia.
  rewrite (add64_small e 1) by done. unfold mul64. rewrite N.mod_small by lia.
  f_equal. f_equal. f_equal. unfold sub64.
  set (r := N.min end_block ((e + 1) * n)%N).
  assert (block ≤ r ≤ u64_MAX)%N as Hr by (unfold r; lia).
  replace (r + (u64_MAX + 1) - block)%N with ((r - block) + 1 * (u64_MAX + 1))%N by lia.
  rewrite N.Div0.mod_add, N.mod_small by lia. done.
Qed.

Lemma emission_loop_spec k :
  ∀ block total fuel,
  (start_block ≤ block < end_block)%N →
  block = N.max start_block (ES.epoch_for_block s block * ES.blocks_per_epoch s) →
  N.to_nat (ES.epoch_for_block s (end_block - 1) - ES.epoch_for_block s block) = k → k < fuel →
  ES.emission_loop fuel s block end_block total =
    Some (emission_of_epochs s start_block end_block
            (epochs_from (ES.epoch_for_block s block) (S k)) total).
Proof.
  induction k as [|k IH]; intros block total fuel [Hs Hb] Eb Hk Hf;
    (destruct fuel as [|fuel]; [lia|]);
    pose proof (epoch_bounds block) as He; pose proof (epoch_bounds (end_block - 1)) as Hl;
    set (e := ES.epoch_for_block s block) in *; set (l := ES.epoch_for_block s (end_block - 1)) in *;
    cbn [ES.emission_loop];
    (assert ((block <? end_block)%N = true) as -> by lia);
    rewrite emission_round_spec by done; fold e;
    (replace (F64.mul (epoch_rate s e) _) with (epoch_emission s start_block end_block e)
       by (unfold epoch_emission, blocks_of_epoch; by rewrite <- Eb));
    set (n := ES.blocks_per_epoch s) in *.
  - assert (l = e) as El by nia.
    rewrite N.min_l by nia. cbn. destruct fuel; cbn; by rewrite N.ltb_irrefl.
  - assert (e + 1 ≤ l)%N as El by nia.
    assert ((e + 1) * n ≤ end_block - 1)%N as Hn1 by nia.
    rewrite N.min_r by lia.
    assert (ES.epoch_for_block s ((e + 1) * n) = e + 1)%N as Ee
      by (unfold ES.epoch_for_block; by apply N.div_mul; lia).
    rewrite IH; rewrite ?Ee; fold n; try lia.
    done.
Qed.

(** The emission of a range is the sum over its epochs of rate times blocks, capped by the
    supply that is left; the loop ends. *)
Lemma emission_for_range_spec :
  (start_block < end_block)%N →
  let first := ES.epoch_for_block s start_block in
  let last := ES.epoch_for_block s (end_block - 1) in
  ES.emission_for_range s start_block end_block =
    Some (F64.min
      (emission_of_epochs s start_block end_block
         (epochs_from first (S (N.to_nat (last - first)))) F64.zero)
      (ES.remaining_supply s)).
Proof.
  intros Hb first last. unfold ES.emission_for_range.
  assert ((end_block <=? start_block)%N = false) as -> by lia.
  pose proof (epoch_bounds start_block) as He.
  rewrite (emission_loop_spec (N.to_nat (last - first))); [done|lia|lia|done|].
  unfold ES.emission_fuel. assert (last ≤ ES.epoch_for_block s end_block)%N; [|fold first; lia].
  unfold last, ES.epoch_for_block. apply N.Div0.div_le_mono. lia.
Qed.
End Emission.

Lemma F64_min_le_r a b : sf_le (F64.min a b) b.
Proof.
  unfold F64.min, sf_le. destruct (F64.is_nan a) eqn:Ea; [apply sf_le_refl|].
  destruct (F64.is_nan b) eqn:Eb; [by apply lt_nan_l|].
  unfold F64.lt. destruct (SFltb b a) eqn:E; [apply sf_le_refl|done].
Qed.

(** No range emits more than what is left. *)
Lemma emission_capped s start_block end_block total :
  ES.emission_for_range s start_block end_block = Some total →
  (start_block < end_block)%N → sf_le total (ES.remaining_supply s).
Proof.
  unfold ES.emission_for_range. intros H Hb.
  assert ((end_block <=? start_block)%N = false) as E by lia. rewrite E in H.
  destruct (ES.emission_loop _ _ _ _ _) as [t|]; simplify_option_eq. apply F64_min_le_r.
Qed.
