(* ===== verification/Floats.v ===== *)
(** * Fused arithmetic on floats

    [f64::mul_add]: a product and a sum with a single rounding. *)

From Stdlib Require Import SpecFloat.
From S2P Require Import Prelude.

(** The value of a finite float is [signed f * 2 ^ exponent f]. *)
Definition signed (f : spec_float) : Z :=
  match f with
  | S754_finite true m _ => Zneg m
  | S754_finite false m _ => Zpos m
  | _ => 0
  end.

Definition exponent (f : spec_float) : Z := match f with S754_finite _ _ e => e | _ => 0 end.

Definition sign_of (f : spec_float) : bool :=
  match f with
  | S754_zero s | S754_infinity s | S754_finite s _ _ => s
  | S754_nan => false
  end.

Definition is_zero (f : spec_float) : bool := match f with S754_zero _ => true | _ => false end.
Definition is_infinite (f : spec_float) : bool :=
  match f with S754_infinity _ => true | _ => false end.

(** The sum of [m * 2^e] and [m' * 2^e'], as a multiple of the smaller power. *)
Definition exact_sum (m e m' e' : Z) : Z * Z :=
  let low := Z.min e e' in
  (m * 2 ^ (e - low) + m' * 2 ^ (e' - low), low)%Z.

(** [a.mul_add(b, c)] *)
Definition mul_add (a b c : F64.t) : F64.t :=
  let s := xorb (sign_of a) (sign_of b) in
  if F64.is_nan a || F64.is_nan b || F64.is_nan c then S754_nan
  else if is_infinite a || is_infinite b then
    if is_zero a || is_zero b then S754_nan
    else if is_infinite c && negb (Bool.eqb s (sign_of c)) then S754_nan
    else S754_infinity s
  else if is_infinite c then c
  else if is_zero a || is_zero b then F64.add (S754_zero s) c
  else
    let '(m, e) :=
      exact_sum (signed a * signed b) (exponent a + exponent b) (signed c) (exponent c) in
    if (m =? 0)%Z then S754_zero false else binary_normalize 53 1024 m e false.

(** Rounded once: [1 + 2^-53 * 1.5] rounds up, where the product of rounded terms would not. *)
Example mul_add_rounds_once :
  let x := F64.lit 1 9007199254740992 in
  mul_add x (F64.lit 3 2) (F64.of_Z 1) = F64.lit 4503599627370497 4503599627370496 ∧
  mul_add (F64.lit 1 3) (F64.of_Z 3) (F64.of_Z (-1)) = F64.lit (-1) 18014398509481984.
Proof. split; vm_compute; reflexivity. Qed.

(** A zero product adds nothing. *)
Lemma mul_add_zero b c :
  F64.is_nan b = false → is_infinite b = false → F64.is_nan c = false → is_zero c = false →
  mul_add F64.zero b c = F64.add (S754_zero (sign_of b)) c.
Proof. by destruct b as [|[]| |], c as [[]|[]| |]. Qed.

(** ** Rounding of a product

    How a positive number [m * 2^e] is rounded to 53 bits: shifted right by some [n], and
    possibly one up if that lost something. *)

Lemma iter_pos_nat {A} (f : A → A) p x : SpecFloat.iter_pos f p x = Nat.iter (Pos.to_nat p) f x.
Proof.
  revert x. induction p as [p IH|p IH|]; intros x; cbn [SpecFloat.iter_pos]; [| |done].
  - rewrite Pos2Nat.inj_xI, !IH, <- Nat.iter_succ_r, <- Nat.iter_add. f_equal. lia.
  - rewrite Pos2Nat.inj_xO, !IH, <- Nat.iter_add. f_equal. lia.
Qed.

Definition lost (x : shr_record) : bool := shr_r x || shr_s x.

Lemma shr_1_spec x :
  (0 ≤ shr_m x)%Z →
  shr_m (shr_1 x) = (shr_m x / 2)%Z ∧
  lost (shr_1 x) = lost x || negb (shr_m x mod 2 =? 0)%Z.
Proof.
  destruct x as [[|[p|p|]|p] [] []]; intros H; try lia; split; try done;
    unfold lost; cbn [shr_1 shr_m shr_r shr_s orb];
    rewrite ?(Pos2Z.inj_xI p), ?(Pos2Z.inj_xO p), ?orb_false_r; try done; lia.
Qed.

Lemma shr_iter_spec k m :
  (0 ≤ m)%Z →
  let x := Nat.iter k shr_1 {| shr_m := m; shr_r := false; shr_s := false |} in
  shr_m x = (m / 2 ^ Z.of_nat k)%Z ∧ lost x = negb (m mod 2 ^ Z.of_nat k =? 0)%Z.
Proof.
  intros Hm. cbv zeta. induction k as [|k [IH1 IH2]].
  - simpl. rewrite Z.div_1_r, Z.mod_1_r. done.
  - change (Nat.iter (S k) shr_1 ?y) with (shr_1 (Nat.iter k shr_1 y)). set (x := Nat.iter k shr_1 _) in *.
    pose proof (Z.pow_pos_nonneg 2 (Z.of_nat k)) as Hp.
    assert (0 ≤ shr_m x)%Z as Hx by (rewrite IH1; apply Z.div_pos; lia).
    destruct (shr_1_spec x Hx) as [-> ->]. rewrite IH1, IH2.
    rewrite Nat2Z.inj_succ, Z.pow_succ_r, Z.mul_comm by lia.
    rewrite Z.div_div by lia. split; [done|].
    rewrite Z.rem_mul_r by lia.
    pose proof (Z.mod_pos_bound m (2 ^ Z.of_nat k)).
    pose proof (Z.mod_pos_bound (m / 2 ^ Z.of_nat k) 2).
    destruct (m mod 2 ^ Z.of_nat k =? 0)%Z eqn:E1, ((m / 2 ^ Z.of_nat k) mod 2 =? 0)%Z eqn:E2; nia.
Qed.

Lemma digits2_pos_size p : digits2_pos p = Pos.size p.
Proof. induction p as [p IH|p IH|]; simpl; rewrite ?IH; lia. Qed.

Lemma Zdigits2_bounds m :
  (0 < m → 2 ^ (Zdigits2 m - 1) ≤ m < 2 ^ Zdigits2 m ∧ 0 < Zdigits2 m)%Z.
Proof.
  intros Hm. destruct m as [|p|p]; [lia| |lia]. cbn [Zdigits2]. rewrite digits2_pos_size.
  pose proof (Pos.size_gt p) as H1. pose proof (Pos.size_le p) as H2.
  set (d := Pos.size p) in *.
  assert (2 ^ Z.pos d = 2 * 2 ^ (Z.pos d - 1))%Z as E
    by (rewrite <- Z.pow_succ_r by lia; f_equal; lia).
  rewrite <- Pos2Z.inj_pow in *. lia.
Qed.

Lemma Zdigits2_unique m d : (0 < d → 2 ^ (d - 1) ≤ m < 2 ^ d → Zdigits2 m = d)%Z.
Proof.
  intros Hd [H1 H2]. assert (0 < m)%Z as Hm by (pose proof (Z.pow_pos_nonneg 2 (d - 1)); lia).
  destruct (Zdigits2_bounds m Hm) as [[H3 H4] H5].
  assert (d - 1 < Zdigits2 m)%Z by (apply (Z.pow_lt_mono_r_iff 2); lia).
  assert (Zdigits2 m - 1 < d)%Z by (apply (Z.pow_lt_mono_r_iff 2); lia).
  lia.
Qed.

Lemma Zdigits2_le m d : (0 ≤ d → 0 < m → m < 2 ^ d → Zdigits2 m ≤ d)%Z.
Proof.
  intros Hd Hm H. destruct (Zdigits2_bounds m Hm) as [[H3 H4] H5].
  assert (Zdigits2 m - 1 < d)%Z; [|lia]. apply (Z.pow_lt_mono_r_iff 2); lia.
Qed.

(** The exponent at which a number is rounded. *)
Definition scale (m e : Z) : Z := Z.max e (fexp 53 1024 (Zdigits2 m + e)).

Lemma shr_fexp_spec m e :
  (0 ≤ m)%Z →
  let n := (scale m e - e)%Z in
  let '(x, e') := shr_fexp 53 1024 m e loc_Exact in
  e' = scale m e ∧ shr_m x = (m / 2 ^ n)%Z ∧ lost x = negb (m mod 2 ^ n =? 0)%Z.
Proof.
  intros Hm n. unfold shr_fexp, shr. cbn [shr_record_of_loc].
  destruct (fexp 53 1024 (Zdigits2 m + e) - e)%Z as [|p|p] eqn:E;
    unfold n, scale; [rewrite Z.max_l by lia| |rewrite Z.max_l by lia].
  1, 3: rewrite Z.sub_diag, Z.div_1_r, Z.mod_1_r; done.
  rewrite Z.max_r, E by lia. split; [lia|]. rewrite iter_pos_nat.
  pose proof (shr_iter_spec (Pos.to_nat p) m Hm) as H. rewrite positive_nat_Z in H. apply H.
Qed.

Lemma round_nearest_spec x :
  let q := round_nearest_even (shr_m x) (loc_of_shr_record x) in
  q = shr_m x ∨ q = (shr_m x + 1)%Z ∧ lost x = true.
Proof. destruct x as [m [] []]; unfold lost; simpl; auto. destruct (Z.even m); auto. Qed.

(** A positive number that is scaled to at most an integer: the result is a multiple of its
    scale, the quotient or one more if there is a remainder. *)
Lemma round_aux_spec m e :
  (0 < m → scale m e ≤ 0 → 0 < m / 2 ^ (scale m e - e) →
  ∃ q k m' e', binary_round_aux 53 1024 false m e loc_Exact = S754_finite false m' e' ∧
    (q = m / 2 ^ (scale m e - e) ∨
     q = m / 2 ^ (scale m e - e) + 1 ∧ m mod 2 ^ (scale m e - e) ≠ 0) ∧
    0 ≤ k ≤ 1 ∧ (k = 1 → q = 2 ^ 53) ∧ e' = scale m e + k ∧ Z.pos m' * 2 ^ k = q)%Z.
Proof.
  intros Hm Hs Hq. unfold binary_round_aux.
  pose proof (shr_fexp_spec m e) as H. destruct (shr_fexp 53 1024 m e loc_Exact) as [x e1].
  destruct H as (-> & Hx & Hlost); [lia|].
  pose proof (round_nearest_spec x) as Hr. cbv zeta in Hr.
  set (q := round_nearest_even (shr_m x) (loc_of_shr_record x)) in *.
  set (n := (scale m e - e)%Z) in *.
  assert (0 ≤ n)%Z as Hn by (unfold n, scale; lia).
  assert (q = m / 2 ^ n ∨ q = m / 2 ^ n + 1 ∧ m mod 2 ^ n ≠ 0)%Z as Hq'.
  { rewrite Hx, Hlost in Hr. destruct Hr as [?|[? ?]]; [auto|right]. split; [done|]. lia. }
  pose proof (Zdigits2_bounds m Hm) as [[_ Hd] _].
  assert (-1074 ≤ scale m e ∧ Zdigits2 m - n ≤ 53)%Z as [Hlow Hdn]
    by (unfold n, scale, fexp, SpecFloat.emin; lia).
  assert (m / 2 ^ n < 2 ^ 53)%Z as Hlt.
  { apply Z.div_lt_upper_bound; [lia|]. rewrite <- Z.pow_add_r by lia.
    eapply Z.lt_le_trans; [exact Hd|]. apply Z.pow_le_mono_r; lia. }
  assert (0 < q ≤ 2 ^ 53)%Z as [Hq0 Hq1] by lia.
  pose proof (shr_fexp_spec q (scale m e)) as H2. destruct (shr_fexp 53 1024 q _ loc_Exact) as [y e2].
  destruct H2 as (-> & Hy & _); [lia|].
  assert (∃ k, 0 ≤ k ≤ 1 ∧ scale q (scale m e) = scale m e + k ∧
            q mod 2 ^ k = 0 ∧ (k = 1 → q = 2 ^ 53))%Z as (k & Hk & Ek & Hm0 & Hk1).
  { destruct (Z.eq_dec q (2 ^ 53)) as [E|E].
    - exists 1%Z. split; [lia|]. rewrite E. split; [|done].
      unfold scale at 1, fexp. rewrite (Zdigits2_unique (2 ^ 53) 54) by done. unfold SpecFloat.emin. lia.
    - exists 0%Z. split; [lia|]. split; [|by rewrite Z.mod_1_r].
      pose proof (Zdigits2_le q 53). unfold scale at 1, fexp, SpecFloat.emin. lia. }
  rewrite Ek in *. replace (scale m e + k - scale m e)%Z with k in Hy by lia.
  pose proof (Z.pow_pos_nonneg 2 k) as Hpk.
  pose proof (Z.div_mod q (2 ^ k)) as Hdm.
  rewrite Hy. destruct (q / 2 ^ k)%Z as [|p|p] eqn:Ep; [nia| |nia].
  exists q, k, p, (scale m e + k)%Z.
  rewrite (proj2 (Z.leb_le _ _)) by lia. split_and!; try done; lia.
Qed.

Lemma iter_xO k p : Pos.iter xO p k = (p * 2 ^ k)%positive.
Proof.
  revert p. induction k as [|k IH] using Pos.peano_ind; intros p; [simpl; lia|].
  rewrite Pos.iter_succ, IH, Pos.pow_succ_r. lia.
Qed.

(** Integers below [2^53] are represented exactly. *)
Lemma of_N_exact n :
  (0 < n < 2 ^ 53)%N →
  ∃ m e, F64.of_N n = S754_finite false m e ∧ (e ≤ 0)%Z ∧ Z.pos m = (Z.of_N n * 2 ^ (- e))%Z.
Proof.
  intros [H0 H1]. destruct n as [|p]; [lia|]. cbn [F64.of_N F64.of_Z Z.of_N binary_normalize].
  unfold F64.of_N, F64.of_Z. cbn [Z.of_N binary_normalize]. unfold binary_round.
  set (d := Zdigits2 (Z.pos p)). change (Z.pos (digits2_pos p)) with d.
  pose proof (Zdigits2_bounds (Z.pos p) eq_refl) as [[Hl Hu] Hd]. fold d in Hl, Hu, Hd.
  assert (d ≤ 53)%Z as Hd53 by (apply Zdigits2_le; lia).
  assert (∃ m, shl_align p 0 (fexp 53 1024 (d + 0)) = (m, (d - 53)%Z) ∧
          Z.pos m = (Z.pos p * 2 ^ (53 - d))%Z) as (m & -> & Em).
  { unfold shl_align, fexp, SpecFloat.emin.
    replace (Z.max (d + 0 - 53) (3 - 1024 - 53) - 0)%Z with (d - 53)%Z by lia.
    replace (Z.max (d + 0 - 53) (3 - 1024 - 53))%Z with (d - 53)%Z by lia.
    destruct (d - 53)%Z as [|q|q] eqn:E; [exists p|lia|].
    - replace (53 - d)%Z with 0%Z by lia. split; [done|]. lia.
    - exists (p * 2 ^ q)%positive. rewrite iter_xO. replace (53 - d)%Z with (Z.pos q) by lia.
      split; [done|]. lia. }
  assert (Z.pos m < 2 ^ 53 ∧ 2 ^ 52 ≤ Z.pos m)%Z as [Hm1 Hm2].
  { rewrite Em. replace (2 ^ 53)%Z with (2 ^ d * 2 ^ (53 - d))%Z
      by (rewrite <- Z.pow_add_r by lia; f_equal; lia).
    replace (2 ^ 52)%Z with (2 ^ (d - 1) * 2 ^ (53 - d))%Z
      by (rewrite <- Z.pow_add_r by lia; f_equal; lia).
    pose proof (Z.pow_pos_nonneg 2 (53 - d)). nia. }
  assert (scale (Z.pos m) (d - 53) = d - 53)%Z as Es.
  { unfold scale, fexp, SpecFloat.emin. rewrite (Zdigits2_unique (Z.pos m) 53) by lia. lia. }
  destruct (round_aux_spec (Z.pos m) (d - 53)) as (q & k & m' & e' & -> & Hq & Hk & Hk1 & -> & Eq);
    rewrite ?Es, ?Z.sub_diag, ?Z.div_1_r, ?Z.mod_1_r; [lia..|].
  rewrite Es, Z.sub_diag, Z.div_1_r, Z.mod_1_r in Hq.
  assert (k = 0)%Z as -> by lia. exists m', (d - 53 + 0)%Z. split; [done|]. split; [lia|].
  replace (- (d - 53 + 0))%Z with (53 - d)%Z by lia. simpl in Em. lia.
Qed.

(** The floats from [1/2] to [1] that are multiples of a power of two, as those of every
    division are. *)
Definition half_to_one (f : spec_float) : bool :=
  match f with
  | S754_finite false m e =>
      (e <=? 0)%Z && (Z.pos m <=? 2 ^ (- e))%Z && (2 ^ (- e) <=? 2 * Z.pos m)%Z
  | _ => false
  end.

Lemma to_uint_finite limit m e k q :
  (0 ≤ k ≤ 1 → e ≤ 0 → Z.pos m * 2 ^ k = q →
   Z.of_N (F64.to_uint limit (S754_finite false m (e + k))) = Z.min (q / 2 ^ (- e)) (Z.of_N limit))%Z.
Proof.
  intros Hk He Hq. cbn [F64.to_uint]. rewrite N2Z.inj_min. f_equal.
  assert (∀ j, (0 ≤ j)%Z → (q / 2 ^ j = Z.pos m * 2 ^ k / 2 ^ j)%Z) as Hj by (intros; by rewrite Hq).
  rewrite Hj by lia. destruct (e + k)%Z as [|p|p] eqn:E.
  - simpl. replace (- e)%Z with k by lia. rewrite Z.div_mul; [done|].
    pose proof (Z.pow_pos_nonneg 2 k). lia.
  - assert (e = 0 ∧ k = 1 ∧ p = 1%positive)%Z as (-> & -> & ->) by lia.
    change (Z.to_N 1) with 1%N. rewrite N.shiftl_mul_pow2, N2Z.inj_mul. simpl Z.opp. rewrite Z.div_1_r.
    done.
  - cbn [Z.to_N]. rewrite N.shiftr_div_pow2, N2Z.inj_div, N2Z.inj_pow. simpl Z.of_N.
    replace (- e)%Z with (Z.pos p + k)%Z by lia. rewrite Z.pow_add_r by lia.
    pose proof (Z.pow_pos_nonneg 2 k). rewrite Z.div_mul_cancel_r; [done| |lia].
    pose proof (Z.pow_pos_nonneg 2 (Z.pos p)). lia.
Qed.

(** Rounding a number between the half of a whole number [n] and [n], and truncating. *)
Lemma round_between n M E :
  (0 ≤ n < 2 ^ 53 → 0 < M → E ≤ 0 → M ≤ n * 2 ^ (- E) ≤ 2 * M →
   n / 2 ≤ Z.of_N (F64.to_u64 (binary_round_aux 53 1024 false M E loc_Exact)) ≤ n)%Z.
Proof.
  intros [Hn0 Hn] HM0 HE [HM1 HM2].
  pose proof (Zdigits2_bounds M HM0) as [[Hdl _] Hd0]. pose proof (Z.pow_pos_nonneg 2 (- E)) as PE.
  assert (1 ≤ n)%Z as Hn1 by nia.
  assert (Zdigits2 M ≤ 53 - E)%Z as Hd.
  { apply Zdigits2_le; [lia|lia|]. replace (53 - E)%Z with (53 + - E)%Z by lia.
    rewrite Z.pow_add_r by lia. nia. }
  assert (scale M E ≤ 0 ∧ E ≤ scale M E)%Z as [Hs0 Hs1]
    by (unfold scale, fexp, SpecFloat.emin; lia).
  set (s := (scale M E - E)%Z).
  assert (2 ^ s ≤ M)%Z as HsM.
  { destruct (Z.le_gt_cases s (Zdigits2 M - 1)) as [Hle|Hgt].
    - etrans; [|exact Hdl]. apply Z.pow_le_mono_r; lia.
    - assert (s ≤ - E - 1)%Z as Hle by (unfold s, scale, fexp, SpecFloat.emin in *; lia).
      assert (2 ^ s ≤ 2 ^ (- E - 1))%Z by (apply Z.pow_le_mono_r; lia).
      assert (2 ^ (- E) = 2 * 2 ^ (- E - 1))%Z by (rewrite <- Z.pow_succ_r by lia; f_equal; lia).
      nia. }
  assert (0 ≤ s)%Z as Hs by (unfold s; lia). pose proof (Z.pow_pos_nonneg 2 s) as Ps.
  destruct (round_aux_spec M E) as (q & k & m' & e' & -> & Hq & Hk & _ & -> & Eq); [done|done| |].
  { fold s. apply Z.div_str_pos. lia. }
  fold s in Hq. unfold F64.to_u64.
  pose proof (to_uint_finite u64_MAX m' (scale M E) k q Hk Hs0 Eq) as Hr.
  assert (2 ^ (- E) = 2 ^ s * 2 ^ (- scale M E))%Z as ES
    by (rewrite <- Z.pow_add_r by lia; f_equal; unfold s; lia).
  pose proof (Z.pow_pos_nonneg 2 (- scale M E)) as PS.
  assert (q / 2 ^ (- scale M E) ≤ n)%Z as Hup.
  { pose proof (Z.div_mod M (2 ^ s)) as Hdm. pose proof (Z.mod_pos_bound M (2 ^ s)) as Hb.
    assert (M ≤ n * 2 ^ (- scale M E) * 2 ^ s)%Z as HM by nia.
    apply Z.div_le_upper_bound; [lia|]. destruct Hq as [->|[-> Hne]]; nia. }
  assert (n / 2 ≤ q / 2 ^ (- scale M E))%Z as Hlo.
  { transitivity (M / 2 ^ s / 2 ^ (- scale M E))%Z; [|apply Z.div_le_mono; lia].
    rewrite Z.div_div by lia. rewrite <- ES. apply Z.div_le_lower_bound; [nia|].
    pose proof (Z.mul_div_le n 2). nia. }
  unfold u64_MAX in *. lia.
Qed.

(** A whole number below [2^53] times such a float, truncated, is between its half and itself. *)
Lemma mul_half_to_one n f :
  (n < 2 ^ 53)%N → half_to_one f = true →
  (n / 2 ≤ F64.to_u64 (F64.mul (F64.of_N n) f) ≤ n)%N.
Proof.
  intros Hn Hf. destruct f as [| | |[] mf ef]; try discriminate. cbn [half_to_one] in Hf.
  destruct (decide (n = 0%N)) as [->|Hn0]; [vm_compute; split; discriminate|].
  destruct (of_N_exact n) as (mn & en & -> & Hen & Emn); [lia|].
  unfold F64.mul. cbn [SFmul xorb].
  assert (2 ^ (- (en + ef)) = 2 ^ (- en) * 2 ^ (- ef))%Z as EE
    by (rewrite <- Z.pow_add_r by lia; f_equal; lia).
  pose proof (Z.pow_pos_nonneg 2 (- en)) as Pn. pose proof (Z.pow_pos_nonneg 2 (- ef)) as Pf.
  assert (Z.pos (mn * mf) = Z.of_N n * 2 ^ (- en) * Z.pos mf)%Z as EM
    by (by rewrite Pos2Z.inj_mul, Emn).
  assert (Z.of_N (n / 2) = Z.of_N n / 2)%Z as E2 by (by rewrite N2Z.inj_div).
  destruct (round_between (Z.of_N n) (Z.pos (mn * mf)) (en + ef)); [lia|lia|lia| |lia].
  rewrite EE, EM. nia.
Qed.
