(* ===== verification/Retry.v ===== *)
(** * Errors, retries and call breakers (roko-core/src/error)

    The schedule of retries with exponential backoff and the breaker that stops calling a failing
    service (retry.rs); the root error type, its stable kinds with their retry policies, and the
    JSON-RPC codes errors are sent with (mod.rs, rpc.rs).  Instants and durations of the breaker
    are in one unit of time; each operation takes the reading of the clock as an argument. *)

From S2P Require Import Prelude Bytes Floats.

(** ** Retry policies *)

Module RetryPolicy.
Record t : Type := mk {
  max_attempts : N;
  base_delay_ms : N;
  max_delay_ms : N;
  jitter : bool;
}.

#[global] Instance t_eq_dec : EqDecision t.
Proof. solve_decision. Defined.

Definition new (max_attempts base_delay_ms max_delay_ms : N) (jitter : bool) : t :=
  mk (N.max max_attempts 1) base_delay_ms max_delay_ms jitter.

Definition should_retry (p : t) (attempt : N) : bool :=
  (attempt <? sat_sub (max_attempts p) 1)%N.

(** [1u64.checked_shl(attempt)] *)
Definition checked_shl_1 (attempt : N) : option N :=
  if (attempt <? 64)%N then Some (N.shiftl 1 attempt) else None.

Definition low32 (x : N) : N := N.land x u32_MAX.

Definition jitter_hash (attempt : N) : N :=
  let x := add32 attempt 2654435769 in
  let x := N.lxor x (low32 (N.shiftl x 13)) in
  let x := N.lxor x (N.shiftr x 17) in
  N.lxor x (low32 (N.shiftl x 5)).

Definition capped_delay (p : t) (attempt : N) : N :=
  N.min (sat_mul64 (base_delay_ms p) (default u64_MAX (checked_shl_1 attempt))) (max_delay_ms p).

Definition jitter_factor (attempt : N) : F64.t :=
  mul_add (F64.div (F64.of_N (jitter_hash attempt)) (F64.of_N u32_MAX)) (F64.lit 1 2) (F64.lit 1 2).

(** In milliseconds. *)
Definition delay_for (p : t) (attempt : N) : N :=
  let capped := capped_delay p attempt in
  if jitter p then
    let jittered := F64.to_u64 (F64.mul (F64.of_N capped) (jitter_factor attempt)) in
    N.max jittered 1
  else capped.
End RetryPolicy.
Abbreviation RetryPolicy := RetryPolicy.t.
Module RP := RetryPolicy.

(** ** The breaker *)

Module BreakerState.
Inductive t : Type :=
  | Closed
  | Open
  | HalfOpen.

#[global] Instance t_eq_dec : EqDecision t.
Proof. solve_decision. Defined.
End BreakerState.
Abbreviation BreakerState := BreakerState.t.
Module BS := BreakerState.

Module CircuitBreaker.
Record t : Type := mk {
  failure_threshold : N;
  recovery_timeout : N;
  state : BreakerState;
  consecutive_failures : N;
  last_failure_at : option N;
}.

Definition new (failure_threshold recovery_timeout : N) : t :=
  mk (N.max failure_threshold 1) recovery_timeout BS.Closed 0 None.

Definition set_state (s : BreakerState) (b : t) : t :=
  mk (failure_threshold b) (recovery_timeout b) s (consecutive_failures b) (last_failure_at b).

(** The method [state]: reading moves an open breaker on when its time has passed. *)
Definition read_state (b : t) (now : N) : t * BreakerState :=
  let b' :=
    if decide (state b = BS.Open) then
      match last_failure_at b with
      | Some ts => if (recovery_timeout b <=? sat_sub now ts)%N then set_state BS.HalfOpen b else b
      | None => b
      end
    else b in
  (b', state b').

Definition is_open (b : t) (now : N) : t * bool :=
  let '(b', s) := read_state b now in (b', bool_decide (s = BS.Open)).

Definition record_success (b : t) : t :=
  mk (failure_threshold b) (recovery_timeout b) BS.Closed 0 None.

Definition record_failure (b : t) (now : N) : t :=
  let failures := sat_add32 (consecutive_failures b) 1 in
  mk (failure_threshold b) (recovery_timeout b)
    (if (failure_threshold b <=? failures)%N then BS.Open else state b) failures (Some now).

Definition trip (b : t) (now : N) : t :=
  mk (failure_threshold b) (recovery_timeout b) BS.Open (consecutive_failures b) (Some now).
End CircuitBreaker.
Abbreviation CircuitBreaker := CircuitBreaker.t.
Module CB := CircuitBreaker.

(** ** What the schedule is

    The factors of the first 64 attempts are floats from one half to one. *)

Lemma jitter_factors : forallb (λ k, half_to_one (RP.jitter_factor (N.of_nat k))) (seq 0 64) = true.
Proof. vm_compute. reflexivity. Qed.

Lemma jitter_factor_range attempt : (attempt < 64)%N → half_to_one (RP.jitter_factor attempt) = true.
Proof.
  intros H. pose proof jitter_factors as Hall. rewrite forallb_forall in Hall.
  specialize (Hall (N.to_nat attempt)). rewrite N2Nat.id in Hall. apply Hall, in_seq. lia.
Qed.

(** The saturations never show: the delay is the minimum of the exact power and the ceiling. *)
Lemma capped_delay_exact p attempt :
  (RP.max_delay_ms p ≤ u64_MAX)%N →
  RP.capped_delay p attempt = N.min (RP.base_delay_ms p * 2 ^ attempt) (RP.max_delay_ms p).
Proof.
  intros Hm. unfold RP.capped_delay, RP.checked_shl_1, sat_mul64.
  destruct (decide (RP.base_delay_ms p = 0%N)) as [->|Hb]; [simpl; lia|].
  destruct (attempt <? 64)%N eqn:E; cbn [default from_option]; unfold id.
  - rewrite N.shiftl_mul_pow2, N.mul_1_l. lia.
  - assert (2 ^ 64 ≤ 2 ^ attempt)%N by (apply N.pow_le_mono_r; lia).
    assert (u64_MAX < 2 ^ 64)%N by done.
    assert (u64_MAX ≤ RP.base_delay_ms p * u64_MAX)%N by nia.
    assert (u64_MAX ≤ RP.base_delay_ms p * 2 ^ attempt)%N by nia. lia.
Qed.

(** The schedule of retries.  A policy allows one retry less than its attempts (at least one attempt is
    always made).  Without jitter the delay before retry [k] is exactly the base delay doubled [k] times,
    up to the ceiling, without overflow for any number.  With jitter it is between half of that
    delay and the whole, and at least a millisecond. *)
Theorem retry_schedule attempts base ceiling attempt :
  (ceiling ≤ u64_MAX)%N →
  let delay := N.min (base * 2 ^ attempt) ceiling in
  (∀ jitter, RP.should_retry (RP.new attempts base ceiling jitter) attempt = true ↔
     (attempt + 1 < N.max attempts 1)%N) ∧
  RP.delay_for (RP.new attempts base ceiling false) attempt = delay ∧
  ((attempt < 64)%N → (ceiling < 2 ^ 53)%N →
   let jittered := RP.delay_for (RP.new attempts base ceiling true) attempt in
   (N.max (delay / 2) 1 ≤ jittered ≤ N.max delay 1)%N).
Proof.
  intros Hc delay. split_and!.
  - intros j. unfold RP.should_retry, sat_sub. simpl. lia.
  - apply (capped_delay_exact (RP.new attempts base ceiling false)). done.
  - intros Ha H53. unfold RP.delay_for. cbn [RP.jitter RP.new].
    rewrite capped_delay_exact by done. cbn [RP.base_delay_ms RP.max_delay_ms RP.new]. fold delay.
    pose proof (mul_half_to_one delay (RP.jitter_factor attempt)) as H.
    pose proof (jitter_factor_range attempt Ha). unfold delay in *. lia.
Qed.

Lemma retry_schedule_witness :
  let p := RP.new 5 2000 60000 true in
  RP.should_retry p 3 = true ∧ RP.should_retry p 4 = false ∧ RP.delay_for p 3 = 10534%N ∧
  (N.max (16000 / 2) 1 ≤ RP.delay_for p 3)%N.
Proof.
  split_and!; [by vm_compute..|].
  apply (retry_schedule 5 2000 60000 3); [by vm_compute|by vm_compute|by vm_compute].
Defined.

(** ** What the breaker says of its history *)

Inductive breaker_op : Type :=
  | Success
  | Failure
  | Trip
  | Look.

(** Operations with the readings of the clock at which they happen. *)
Definition apply_breaker_op (b : CircuitBreaker) (op : N * breaker_op) : CircuitBreaker :=
  match op.2 with
  | Success => CB.record_success b
  | Failure => CB.record_failure b op.1
  | Trip => CB.trip b op.1
  | Look => (CB.read_state b op.1).1
  end.

Definition run_breaker (threshold timeout : N) (ops : list (N * breaker_op)) : CircuitBreaker :=
  foldl apply_breaker_op (CB.new threshold timeout) ops.

(** What happened since the last success. *)
Definition since_success (ops : list (N * breaker_op)) : list (N * breaker_op) :=
  foldl (λ recent op, match op.2 with Success => [] | _ => recent ++ [op] end) [] ops.

Definition failures (ops : list (N * breaker_op)) : nat :=
  length (List.filter (λ op, match op.2 with Failure => true | _ => false end) ops).

Definition tripped (ops : list (N * breaker_op)) : bool :=
  existsb (λ op, match op.2 with Trip => true | _ => false end) ops.

(** The time of the last failure or trip. *)
Definition last_bad (ops : list (N * breaker_op)) : option N :=
  foldl (λ t op, match op.2 with Failure | Trip => Some op.1 | _ => t end) None ops.

Section Breaker.
Context (threshold timeout : N) (Ht : (threshold ≤ u32_MAX)%N).

Lemma since_success_snoc ops op :
  since_success (ops ++ [op]) =
    match op.2 with Success => [] | _ => since_success ops ++ [op] end.
Proof. unfold since_success. by rewrite foldl_snoc. Qed.

Lemma failures_snoc ops op :
  failures (ops ++ [op]) = failures ops + match op.2 with Failure => 1 | _ => 0 end.
Proof. unfold failures. rewrite List.filter_app, length_app. by destruct op as [? []]. Qed.

Lemma tripped_snoc ops op :
  tripped (ops ++ [op]) = tripped ops || match op.2 with Trip => true | _ => false end.
Proof. unfold tripped. rewrite existsb_app. simpl. by rewrite orb_false_r. Qed.

Lemma last_bad_snoc ops op :
  last_bad (ops ++ [op]) = match op.2 with Failure | Trip => Some op.1 | _ => last_bad ops end.
Proof. unfold last_bad. by rewrite foldl_snoc. Qed.

Definition reached (ops : list (N * breaker_op)) : Prop :=
  (N.max threshold 1 ≤ N.of_nat (failures ops))%N.

(** What the breaker holds after a history, given the time of its last operation. *)
Record breaker_inv (recent : list (N * breaker_op)) (now : N) (b : CircuitBreaker) : Prop := {
  bi_config : CB.failure_threshold b = N.max threshold 1 ∧ CB.recovery_timeout b = timeout;
  bi_count : CB.consecutive_failures b = N.min (N.of_nat (failures recent)) u32_MAX;
  bi_last : CB.last_failure_at b = last_bad recent;
  bi_some : reached recent ∨ tripped recent = true → is_Some (last_bad recent);
  bi_past : ∀ t, last_bad recent = Some t → (t ≤ now)%N;
  bi_closed : CB.state b = BS.Closed ↔ ¬ reached recent ∧ tripped recent = false;
  bi_half : CB.state b = BS.HalfOpen → reached recent →
            ∀ t, last_bad recent = Some t → (timeout ≤ now - t)%N }.

Lemma breaker_inv_later recent now now' b :
  (now ≤ now')%N → breaker_inv recent now b → breaker_inv recent now' b.
Proof.
  intros Hle [Hc Hn Hl Hs Hp Hcl Hh]. constructor; auto.
  - intros t E. specialize (Hp t E). lia.
  - intros E1 E2 t E. specialize (Hh E1 E2 t E). lia.
Qed.

Lemma reached_dec recent : reached recent ∨ ¬ reached recent.
Proof. unfold reached. lia. Qed.

Lemma new_breaker_inv now : breaker_inv [] now (CB.new threshold timeout).
Proof.
  constructor; unfold reached, failures; simpl; try done; try lia.
  split; [intros _; split; [lia|done]|done].
Qed.

Lemma read_state_inv recent now b :
  breaker_inv recent now b → breaker_inv recent now (CB.read_state b now).1.
Proof.
  intros [[Hc1 Hc2] Hn Hl Hs Hp Hcl Hh]. unfold CB.read_state. cbn [fst].
  case_decide as E; [|by constructor]. rewrite Hc2.
  destruct (CB.last_failure_at b) as [ts|] eqn:El; [|constructor; auto; congruence].
  destruct (timeout <=? sat_sub now ts)%N eqn:Et; [|constructor; auto; congruence].
  constructor; cbn [CB.set_state CB.state CB.failure_threshold CB.recovery_timeout
    CB.consecutive_failures CB.last_failure_at]; auto; try congruence.
  - split; [done|]. intros H. apply Hcl in H. congruence.
  - intros _ _ t Ht'. unfold sat_sub in Et. assert (t = ts) as -> by congruence. lia.
Qed.

Definition recent_with (recent : list (N * breaker_op)) (op : N * breaker_op) :=
  match op.2 with Success => [] | _ => recent ++ [op] end.

Lemma reached_snoc recent op :
  reached (recent ++ [op]) ↔
  reached recent ∨ op.2 = Failure ∧ (N.max threshold 1 = N.of_nat (failures recent) + 1)%N.
Proof.
  unfold reached. rewrite failures_snoc.
  destruct op as [? []]; cbn [snd]; (split; [intros H|intros [H|[E H]]]); try discriminate; try lia.
  destruct (decide (N.max threshold 1 ≤ N.of_nat (failures recent))%N); [by left|].
  right. split; [done|lia].
Qed.

Lemma apply_breaker_op_inv recent now b op :
  breaker_inv recent now b → (now ≤ op.1)%N →
  breaker_inv (recent_with recent op) op.1 (apply_breaker_op b op).
Proof.
  intros Hi Hle. apply (breaker_inv_later _ _ op.1) in Hi; [|done].
  destruct op as [t op]; cbn [fst snd] in *.
  destruct op; unfold recent_with, apply_breaker_op; cbn [fst snd].
  - destruct Hi as [[Hc1 Hc2] _ _ _ _ _ _].
    apply (breaker_inv_later [] t); [done|]. unfold CB.record_success. rewrite Hc1, Hc2.
    apply new_breaker_inv.
  - destruct Hi as [[Hc1 Hc2] Hn Hl Hs Hp Hcl Hh].
    constructor; unfold CB.record_failure; cbn [CB.state CB.failure_threshold CB.recovery_timeout
      CB.consecutive_failures CB.last_failure_at]; rewrite ?last_bad_snoc, ?tripped_snoc,
      ?failures_snoc, ?reached_snoc, ?orb_false_r; cbn [snd fst]; auto; try done.
    + unfold sat_add32. lia.
    + intros t' [= ->]. lia.
    + rewrite Hc1, Hn. unfold sat_add32, u32_MAX in *.
      destruct (N.max threshold 1 <=? _)%N eqn:E; unfold reached in *.
      * split; [done|]. intros [H _]. exfalso. apply H.
        destruct (decide (N.max threshold 1 ≤ N.of_nat (failures recent))%N); [by left|right]. split; [done|lia].
      * rewrite Hcl. split; intros [H1 H2]; (split; [|done]); [intros [?|[_ ?]]; lia|tauto].
    + intros E [H|[_ H]] t' [= <-]; exfalso; revert E; rewrite Hc1, Hn; unfold sat_add32, reached, u32_MAX in *.
      all: destruct (N.max threshold 1 <=? _)%N eqn:E2; [done|lia].
  - destruct Hi as [[Hc1 Hc2] Hn Hl Hs Hp Hcl Hh].
    constructor; unfold CB.trip; cbn [CB.state CB.failure_threshold CB.recovery_timeout
      CB.consecutive_failures CB.last_failure_at]; rewrite ?last_bad_snoc, ?tripped_snoc,
      ?failures_snoc, ?reached_snoc, ?orb_true_r; cbn [snd fst]; auto; try done.
    + rewrite Hn. lia.
    + intros t' [= ->]. lia.
    + split; [done|]. naive_solver.
  - apply read_state_inv. destruct Hi as [Hc Hn Hl Hs Hp Hcl Hh].
    constructor; rewrite ?last_bad_snoc, ?tripped_snoc, ?failures_snoc, ?reached_snoc, ?orb_false_r;
      cbn [snd fst]; auto.
    + rewrite Hn. lia.
    + naive_solver.
    + rewrite Hcl. naive_solver.
    + naive_solver.
Qed.

(** The readings of the clock never go back. *)
Fixpoint in_order (now : N) (ops : list (N * breaker_op)) : Prop :=
  match ops with
  | [] => True
  | op :: ops => (now ≤ op.1)%N ∧ in_order op.1 ops
  end.

Lemma run_breaker_inv ops recent start b now op :
  breaker_inv recent start b → in_order start (ops ++ [(now, op)]) →
  breaker_inv (foldl recent_with recent ops) now (foldl apply_breaker_op b ops).
Proof.
  revert recent start b. induction ops as [|o ops IH]; intros recent start b Hi [H1 H2]; simpl in *.
  - by eapply breaker_inv_later.
  - eapply IH; [|done]. by eapply apply_breaker_op_inv.
Qed.

(** The breaker follows the failures of its service.  It is closed exactly when since
    the last success it was not tripped and there were fewer failures than the threshold (at
    least one).  Once the threshold is reached it is open until the recovery timeout has passed since
    the last failure or trip, and half open from then on, however often and whenever its state was read
    before.  An open breaker always has a failure or trip within the timeout, and the counter is the
    number of failures since the last success. *)
Theorem breaker_follows_failures ops now :
  in_order 0 (ops ++ [(now, Look)]) →
  let b := run_breaker threshold timeout ops in
  let recent := since_success ops in
  let seen := (CB.read_state b now).2 in
  CB.consecutive_failures b = N.min (N.of_nat (failures recent)) u32_MAX ∧
  (seen = BS.Closed ↔ ¬ reached recent ∧ tripped recent = false) ∧
  (reached recent → ∃ t, last_bad recent = Some t ∧
     seen = if (timeout <=? now - t)%N then BS.HalfOpen else BS.Open) ∧
  (seen = BS.Open → ∃ t, last_bad recent = Some t ∧ (now - t < timeout)%N).
Proof.
  intros Ho b recent seen.
  pose proof (run_breaker_inv ops [] 0 _ now Look (new_breaker_inv 0) Ho) as Hi.
  change (foldl recent_with [] ops) with recent in Hi.
  change (foldl apply_breaker_op _ ops) with b in Hi.
  pose proof (read_state_inv _ _ _ Hi) as Hi'.
  assert (seen = CB.state (CB.read_state b now).1) as Es by done.
  assert (seen = BS.Open → ∃ t, last_bad recent = Some t ∧ (now - t < timeout)%N) as Hopen.
  { intros E. destruct Hi as [[_ Hc2] _ Hl Hs _ Hcl _]. revert Hl. unfold seen, CB.read_state in E.
    cbn [snd] in E. case_decide as Eo; [|done]. destruct (CB.last_failure_at b) as [t|].
    - intros Hl. exists t. split; [done|]. rewrite Hc2 in E.
      destruct (timeout <=? sat_sub now t)%N eqn:Et; [done|]. unfold sat_sub in Et. lia.
    - intros Hl. exfalso. destruct Hs as [? ?]; [|congruence].
      destruct (reached_dec recent) as [Hr|Hr]; [by left|]. right.
      destruct (tripped recent) eqn:Et; [done|]. exfalso.
      assert (CB.state b = BS.Closed) by (by apply Hcl). congruence. }
  split_and!; [apply Hi|rewrite Es; apply Hi'| |done].
  intros Hr. destruct (bi_some _ _ _ Hi (or_introl Hr)) as [t Et]. exists t. split; [done|].
  destruct seen eqn:Eseen.
  - exfalso. symmetry in Es. apply (bi_closed _ _ _ Hi') in Es. tauto.
  - destruct (Hopen eq_refl) as (t' & Et' & Hlt). assert (t' = t) as -> by congruence.
    by rewrite (proj2 (N.leb_gt _ _)).
  - symmetry in Es. pose proof (bi_half _ _ _ Hi' Es Hr t Et) as Hh.
    by rewrite (proj2 (N.leb_le _ _)).
Qed.
End Breaker.

Definition flaky : list (N * breaker_op) :=
  [(0, Failure); (10, Success); (20, Failure); (30, Failure); (50, Look); (95, Look); (96, Failure)]%N.

Lemma breaker_follows_failures_witness :
  let b := run_breaker 2 60 flaky in
  (∃ t, last_bad (since_success flaky) = Some t ∧
     (CB.read_state b 156).2 = if (60 <=? 156 - t)%N then BS.HalfOpen else BS.Open) ∧
  (CB.read_state b 155).2 = BS.Open ∧ (CB.read_state b 156).2 = BS.HalfOpen.
Proof.
  split; [|by vm_compute].
  apply (breaker_follows_failures 2 60); [by vm_compute| |].
  - simpl. lia.
  - vm_compute. discriminate.
Defined.

(** ** Where the breaker departs from its documentation *)

(** A probe that fails is documented to open the breaker again.  After a manual trip it does
    not: the failure is the first of the count, and the breaker stays half open. *)
Lemma failed_probe_stays_half_open :
  let b := run_breaker 3 60 [(0, Trip); (60, Look); (61, Failure)]%N in
  (CB.read_state b 61).2 = BS.HalfOpen ∧ CB.last_failure_at b = Some 61%N.
Proof. by vm_compute. Qed.

(** ** Constants of roko-core/src/defaults.rs *)

Definition DEFAULT_RETRY_ATTEMPTS : N := 3.
Definition DEFAULT_RETRY_BASE_DELAY_MS : N := 1000.
Definition DEFAULT_RETRY_MAX_BACKOFF_MS : N := 60000.
Definition DEFAULT_RATE_LIMIT_RETRY_ATTEMPTS : N := 5.
Definition DEFAULT_RATE_LIMIT_RETRY_BASE_DELAY_MS : N := 2000.
Definition DEFAULT_RATE_LIMIT_RETRY_MAX_BACKOFF_MS : N := DEFAULT_RETRY_MAX_BACKOFF_MS.
Definition DEFAULT_TIMEOUT_RETRY_ATTEMPTS : N := DEFAULT_RETRY_ATTEMPTS.
Definition DEFAULT_TIMEOUT_RETRY_BASE_DELAY_MS : N := DEFAULT_RETRY_BASE_DELAY_MS.
Definition DEFAULT_TIMEOUT_RETRY_MAX_BACKOFF_MS : N := 30000.
Definition DEFAULT_TRANSIENT_RETRY_ATTEMPTS : N := DEFAULT_RETRY_ATTEMPTS.
Definition DEFAULT_TRANSIENT_RETRY_BASE_DELAY_MS : N := 500.
Definition DEFAULT_TRANSIENT_RETRY_MAX_BACKOFF_MS : N := 15000.

(** ** Kinds *)

Module ErrorKind.
Inductive t : Type :=
  | Store | NotFound | BodyEncode | BodyDecode | Rejected | BudgetExceeded | Io | Json
  | Invalid | Planning | Agent | Verify | Tool | Chain | Config | Transport | User
  | Timeout | Cancelled | PermissionDenied | RateLimited.

#[global] Instance t_eq_dec : EqDecision t.
Proof. solve_decision. Defined.

Definition as_str (k : t) : string :=
  match k with
  | Store => "substrate"
  | NotFound => "not_found"
  | BodyEncode => "body_encode"
  | BodyDecode => "body_decode"
  | Rejected => "rejected"
  | BudgetExceeded => "budget_exceeded"
  | Io => "io"
  | Json => "json"
  | Invalid => "invalid"
  | Planning => "planning"
  | Agent => "agent"
  | Verify => "gate"
  | Tool => "tool"
  | Chain => "chain"
  | Config => "config"
  | Transport => "transport"
  | User => "user"
  | Timeout => "timeout"
  | Cancelled => "cancelled"
  | PermissionDenied => "permission_denied"
  | RateLimited => "rate_limited"
  end.

Definition is_transient (k : t) : bool :=
  match k with
  | Timeout | RateLimited | Io | Transport | Chain | Store | Agent => true
  | NotFound | Rejected | Invalid | User | PermissionDenied | BudgetExceeded | BodyEncode
  | BodyDecode | Json | Config | Planning | Verify | Tool | Cancelled => false
  end.

Definition retry_policy (k : t) : option RetryPolicy :=
  if negb (is_transient k) then None
  else Some match k with
    | RateLimited =>
        RP.new DEFAULT_RATE_LIMIT_RETRY_ATTEMPTS DEFAULT_RATE_LIMIT_RETRY_BASE_DELAY_MS
          DEFAULT_RATE_LIMIT_RETRY_MAX_BACKOFF_MS true
    | Timeout =>
        RP.new DEFAULT_TIMEOUT_RETRY_ATTEMPTS DEFAULT_TIMEOUT_RETRY_BASE_DELAY_MS
          DEFAULT_TIMEOUT_RETRY_MAX_BACKOFF_MS true
    | _ =>
        RP.new DEFAULT_TRANSIENT_RETRY_ATTEMPTS DEFAULT_TRANSIENT_RETRY_BASE_DELAY_MS
          DEFAULT_TRANSIENT_RETRY_MAX_BACKOFF_MS true
    end.

Definition log_level (k : t) : string :=
  match k with
  | Cancelled | User => "info"
  | Timeout | RateLimited | Io | Transport | Chain | Store | Agent => "warn"
  | NotFound | Rejected | Invalid | PermissionDenied | BudgetExceeded | BodyEncode | BodyDecode
  | Json | Config | Planning | Verify | Tool => "error"
  end.
End ErrorKind.
Abbreviation ErrorKind := ErrorKind.t.
Module EK := ErrorKind.

(** ** Errors

    Errors of the standard library and of serde_json are their text. *)

Module RokoError.
Inductive t : Type :=
  | Store (message : string)
  | NotFound (hash : bytes)
  | BodyEncode (message : string)
  | BodyDecode (message : string)
  | Rejected (message : string)
  | BudgetExceeded (dimension : string) (used limit : nat)
  | Io (error : string)
  | Json (error : string)
  | Invalid (message : string)
  | Planning (message : string)
  | Agent (backend message : string)
  | Verify (gate message : string)
  | Tool (tool message : string)
  | Chain (message : string)
  | Config (message : string)
  | Transport (message : string)
  | User (message : string)
  | Timeout (operation : string) (timeout_ms : N)
  | Cancelled (message : string)
  | PermissionDenied (message : string)
  | RateLimited (message : string).

(** The [Display] the [error] attributes derive. *)
Definition display (e : t) : string :=
  match e with
  | Store m => "substrate error: " +:+ m
  | NotFound h => "signal not found: " +:+ ContentHash.short h
  | BodyEncode m => "body encode error: " +:+ m
  | BodyDecode m => "body decode error: " +:+ m
  | Rejected m => "gate rejected: " +:+ m
  | BudgetExceeded d used limit =>
      "budget exceeded: " +:+ d +:+ " (used " +:+ fmt_nat used +:+ ", limit " +:+
      fmt_nat limit +:+ ")"
  | Io e => "I/O error: " +:+ e
  | Json e => "JSON error: " +:+ e
  | Invalid m => "invalid input: " +:+ m
  | Planning m => "planning error: " +:+ m
  | Agent backend m => "agent error (" +:+ backend +:+ "): " +:+ m
  | Verify gate m => "gate error (" +:+ gate +:+ "): " +:+ m
  | Tool tool m => "tool error (" +:+ tool +:+ "): " +:+ m
  | Chain m => "chain error: " +:+ m
  | Config m => "config error: " +:+ m
  | Transport m => "transport error: " +:+ m
  | User m => "user error: " +:+ m
  | Timeout operation ms => "timeout after " +:+ fmt_N ms +:+ "ms: " +:+ operation
  | Cancelled m => "cancelled: " +:+ m
  | PermissionDenied m => "permission denied: " +:+ m
  | RateLimited m => "rate limit: " +:+ m
  end.

Definition kind (e : t) : ErrorKind :=
  match e with
  | Store _ => EK.Store
  | NotFound _ => EK.NotFound
  | BodyEncode _ => EK.BodyEncode
  | BodyDecode _ => EK.BodyDecode
  | Rejected _ => EK.Rejected
  | BudgetExceeded _ _ _ => EK.BudgetExceeded
  | Io _ => EK.Io
  | Json _ => EK.Json
  | Invalid _ => EK.Invalid
  | Planning _ => EK.Planning
  | Agent _ _ => EK.Agent
  | Verify _ _ => EK.Verify
  | Tool _ _ => EK.Tool
  | Chain _ => EK.Chain
  | Config _ => EK.Config
  | Transport _ => EK.Transport
  | User _ => EK.User
  | Timeout _ _ => EK.Timeout
  | Cancelled _ => EK.Cancelled
  | PermissionDenied _ => EK.PermissionDenied
  | RateLimited _ => EK.RateLimited
  end.

Definition is_transient (e : t) : bool := EK.is_transient (kind e).
Definition retry_policy (e : t) : option RetryPolicy := EK.retry_policy (kind e).
Definition log_level (e : t) : string := EK.log_level (kind e).
End RokoError.
Abbreviation RokoError := RokoError.t.
Module RE := RokoError.

(** ** JSON-RPC *)

Definition PARSE_ERROR : Z := -32700.
Definition INVALID_REQUEST : Z := -32600.
Definition METHOD_NOT_FOUND : Z := -32601.
Definition INVALID_PARAMS : Z := -32602.
Definition INTERNAL_ERROR : Z := -32603.
Definition AGENT_FAILURE : Z := -32000.
Definition GATE_FAILURE : Z := -32001.
Definition TIMEOUT : Z := -32002.
Definition BUDGET_EXCEEDED : Z := -32003.

Module RpcError.
(** [data] holds a JSON value. *)
Record t {json : Type} : Type := mk { code : Z; message : string; data : option json }.
Arguments t : clear implicits.
Arguments mk {json} _ _ _.

Definition new {json} (code : Z) (message : string) : t json := mk code message None.
Definition with_data {json} (code : Z) (message : string) (data : json) : t json :=
  mk code message (Some data).
Definition display {json} (e : t json) : string :=
  "RPC error " +:+ pretty (code e) +:+ ": " +:+ message e.
End RpcError.
Abbreviation RpcError := RpcError.t.

Definition to_rpc_error {json} (error : RokoError) : RpcError json :=
  let '(code, message) :=
    match error with
    | RE.Json _ => (PARSE_ERROR, RE.display error)
    | RE.Invalid _ | RE.User _ => (INVALID_PARAMS, RE.display error)
    | RE.NotFound _ => (METHOD_NOT_FOUND, RE.display error)
    | RE.Agent _ _ => (AGENT_FAILURE, RE.display error)
    | RE.Verify _ _ | RE.Rejected _ => (GATE_FAILURE, RE.display error)
    | RE.Timeout _ _ => (TIMEOUT, RE.display error)
    | RE.BudgetExceeded _ _ _ => (BUDGET_EXCEEDED, RE.display error)
    | _ => (INTERNAL_ERROR, RE.display error)
    end in
  RpcError.new code message.

Example rpc_display :
  RpcError.display (json := unit) (to_rpc_error (RE.Timeout "build" 500)) =
    "RPC error -32002: timeout after 500ms: build".
Proof. vm_compute. reflexivity. Qed.

(** ** Facts *)

#[global] Instance as_str_inj : Inj (=) (=) EK.as_str.
Proof. intros [] []; simpl; intros; congruence. Qed.

(** An error is retried exactly when it is transient, exactly when it is logged as a
    warning. *)
Lemma transient_iff_retried e :
  (RE.is_transient e = true ↔ is_Some (RE.retry_policy e)) ∧
  (RE.is_transient e = true ↔ RE.log_level e = "warn").
Proof.
  unfold RE.is_transient, RE.retry_policy, RE.log_level.
  destruct (RE.kind e); simpl; split; split; try done; intros [? ?]; done.
Qed.

(** Every policy retries two to four times, and no delay exceeds a minute. *)
Lemma policies_bounded e p :
  RE.retry_policy e = Some p →
  (3 ≤ RP.max_attempts p ≤ 5)%N ∧
  ∀ attempt, RP.should_retry p attempt = true → (1 ≤ RP.delay_for p attempt ≤ 60000)%N.
Proof.
  intros H. unfold RE.retry_policy in H.
  assert (p ∈ [RP.new 5 2000 60000 true; RP.new 3 1000 30000 true; RP.new 3 500 15000 true]) as Hp.
  { destruct (RE.kind e); unfold EK.retry_policy in H; simpl in H; simplify_eq; apply (bool_decide_unpack _); vm_compute; exact I. }
  rewrite !elem_of_cons, elem_of_nil in Hp.
  split; [destruct Hp as [->|[->|[->|[]]]]; simpl; lia|].
  intros attempt Hr.
  assert (attempt ∈ [0; 1; 2; 3]%N) as Ha.
  { unfold RP.should_retry, sat_sub in Hr. rewrite !elem_of_cons, elem_of_nil.
    destruct Hp as [->|[->|[->|[]]]]; simpl in Hr; lia. }
  clear Hr H. rewrite !elem_of_cons, elem_of_nil in Ha.
  destruct Hp as [->|[->|[->|[]]]], Ha as [->|[->|[->|[->|[]]]]]; vm_compute; split; discriminate.
Qed.

(** Every error is sent with its text; the code tells the parse errors, invalid parameters, agents,
    gates, timeouts and budgets apart, and each code of this program is in its documented range. *)
Lemma rpc_codes {json} e :
  let r := to_rpc_error (json := json) e in
  RpcError.message r = RE.display e ∧ RpcError.data r = None ∧
  (RpcError.code r = TIMEOUT ↔ RE.kind e = EK.Timeout) ∧
  (RpcError.code r = AGENT_FAILURE ↔ RE.kind e = EK.Agent) ∧
  (RpcError.code r = GATE_FAILURE ↔ RE.kind e = EK.Verify ∨ RE.kind e = EK.Rejected) ∧
  ((-32700 ≤ RpcError.code r ≤ -32600) ∨ (-32003 ≤ RpcError.code r ≤ -32000))%Z.
Proof.
  destruct e; vm_compute RpcError.code; cbn [to_rpc_error RpcError.message RpcError.data RpcError.new RE.kind];
    (split_and!; [done|done| | | |]); try (split; [discriminate|by intros [|] || discriminate]);
    try (by split); try (split; intros; intuition discriminate);
    first [left; split; vm_compute; discriminate|right; split; vm_compute; discriminate].
Qed.
