(* ===== verification/Progress.v ===== *)
(** * Progress tracking (crates/roko-orchestrator/src/progress.rs)

    The tracker that only lets plans move forward, the check of enrichment data, and the events
    errors are published as. *)

From S2P Require Import Prelude Phase PlanState StateMachine EventLog Retry.

(** ** The tracker *)

Module ProgressError.
Record t : Type := mk { from : PhaseKind; to : PhaseKind; reason : string }.

Definition display (e : t) : string :=
  "invalid transition " +:+ PhaseKind.debug (from e) +:+ " -> " +:+ PhaseKind.debug (to e) +:+
  ": " +:+ reason e.
End ProgressError.
Abbreviation ProgressError := ProgressError.t.

Module ProgressTracker.
Record t : Type := mk { phases : gmap string PlanPhase }.

Definition new : t := mk ∅.

Definition current_phase (s : t) (plan_id : string) : option PlanPhase := phases s !! plan_id.

Definition insert (plan_id : string) (to : PlanPhase) (s : t) : t :=
  mk (<[plan_id := to]> (phases s)).

Definition refuse (from to : PlanPhase) (reason : string) : ProgressError :=
  ProgressError.mk (PlanPhase.kind from) (PlanPhase.kind to) reason.

Definition try_transition (s : t) (plan_id : string) (from to : PlanPhase) :
    t * result unit ProgressError :=
  match phases s !! plan_id with
  | None =>
      if decide (PlanPhase.kind from ≠ PhaseKind.Queued) then
        (s, Err (refuse from to "plan not yet tracked; first transition must be from Queued"))
      else if negb (is_monotonic_progression from to) then
        (s, Err (refuse from to "transition not in valid_transitions table"))
      else (insert plan_id to s, Ok tt)
  | Some current =>
      if decide (PlanPhase.kind current ≠ PlanPhase.kind from) then
        (s, Err (refuse from to
                   ("current phase is " +:+ PhaseKind.debug (PlanPhase.kind current) +:+ ", not " +:+
                    PhaseKind.debug (PlanPhase.kind from))))
      else if negb (is_monotonic_progression from to) then
        (s, Err (refuse from to "transition not in valid_transitions table"))
      else (insert plan_id to s, Ok tt)
  end.

Definition force_restart (s : t) (plan_id : string) : t := insert plan_id PlanPhase.Queued s.

Definition tracked_count (s : t) : nat := size (phases s).
End ProgressTracker.
Abbreviation ProgressTracker := ProgressTracker.t.
Module PT := ProgressTracker.

(** ** Enrichment data *)

(** [Value::as_object], of serde_json. *)
Class JsonObject {J : Json} := { json_as_object : json → option (gmap string json) }.
Arguments JsonObject : clear implicits.

Module ValidationError.
Record t : Type := mk { schema : string; violations : list string }.

Definition display (e : t) : string :=
  "enrichment validation failed for schema '" +:+ schema e +:+ "': " +:+
  str_join "; " (violations e).
End ValidationError.
Abbreviation ValidationError := ValidationError.t.

Definition required_keys (schema : string) : option (list string) :=
  if decide (schema = "brief") then Some ["title"; "objective"; "scope"]
  else if decide (schema = "test_plan") then Some ["tests"; "coverage_targets"]
  else if decide (schema = "invariants") then Some ["invariants"]
  else if decide (schema = "context") then Some ["files"; "dependencies"]
  else None.

Definition validate_enrichment {J : Json} {JO : JsonObject J} (data : json) (schema : string) :
    result unit ValidationError :=
  match required_keys schema with
  | None => Ok tt
  | Some keys =>
      match json_as_object data with
      | None => Err (ValidationError.mk schema ["enrichment data is not a JSON object"])
      | Some obj =>
          let missing :=
            (λ k, "missing required key: " +:+ k) <$>
              List.filter (λ k, negb (bool_decide (is_Some (obj !! k)))) keys in
          match missing with
          | [] => Ok tt
          | _ => Err (ValidationError.mk schema missing)
          end
      end
  end.

(** ** Error events *)

Module ErrorEvent.
Record t : Type := mk { kind : ErrorKind; message : string; transient : bool }.
End ErrorEvent.
Abbreviation ErrorEvent := ErrorEvent.t.

Definition publish_error (error : RokoError) : ErrorEvent :=
  ErrorEvent.mk (RE.kind error) (RE.display error) (RE.is_transient error).

(** ** Progress is forward *)

Inductive tracker_op : Type :=
  | Try (plan_id : string) (from to : PlanPhase)
  | Restart (plan_id : string).

Definition apply_tracker_op (s : ProgressTracker) (op : tracker_op) : ProgressTracker :=
  match op with
  | Try id from to => (PT.try_transition s id from to).1
  | Restart id => PT.force_restart s id
  end.

Definition run_tracker (ops : list tracker_op) : ProgressTracker :=
  foldl apply_tracker_op PT.new ops.

(** The kind of phase a plan counts as being in: a plan that is not tracked is queued. *)
Definition kind_of (s : ProgressTracker) (id : string) : PhaseKind :=
  default PhaseKind.Queued (PlanPhase.kind <$> PT.current_phase s id).

Lemma try_transition_cases s id from to :
  (PT.try_transition s id from to = (PT.insert id to s, Ok tt) ∧
   kind_of s id = PlanPhase.kind from ∧ table_step (PlanPhase.kind from) (PlanPhase.kind to)) ∨
  (∃ reason, PT.try_transition s id from to = (s, Err (PT.refuse from to reason)) ∧
   ¬ (kind_of s id = PlanPhase.kind from ∧
      table_step (PlanPhase.kind from) (PlanPhase.kind to))).
Proof.
  unfold PT.try_transition, kind_of, PT.current_phase, is_monotonic_progression, table_step.
  destruct (PT.phases s !! id) as [p|]; simpl; case_decide; try (right; eexists; split; [done|]; naive_solver);
    case_bool_decide; simpl; (left + (right; eexists)); split_and?; try done; naive_solver.
Qed.

Lemma current_insert s id id' p :
  PT.current_phase (PT.insert id p s) id' = if decide (id = id') then Some p else PT.current_phase s id'.
Proof. unfold PT.current_phase, PT.insert. simpl. case_decide; simplify_map_eq; done. Qed.

(** The phases a plan was moved to since its last restart, from the history of accepted moves. *)
Fixpoint tracked (id : string) (s : ProgressTracker) (path : list PhaseKind) (ops : list tracker_op) :
    list PhaseKind :=
  match ops with
  | [] => path
  | op :: ops =>
      tracked id (apply_tracker_op s op)
        match op with
        | Try id' from to =>
            if decide (id' = id ∧ is_ok (PT.try_transition s id' from to).2 = true)
            then path ++ [PlanPhase.kind to] else path
        | Restart id' => if decide (id' = id) then [PhaseKind.Queued] else path
        end ops
  end.

Lemma table_path_snoc a l b c : table_path a l b → table_step b c → table_path a (l ++ [c]) c.
Proof.
  induction 1 as [a|a b' c' l Hs Hp IH]; intros Hc; simpl.
  - econstructor; [done|constructor].
  - econstructor; [done|]. by apply IH.
Qed.

Lemma kind_of_insert s id id' p :
  kind_of (PT.insert id p s) id' = if decide (id = id') then PlanPhase.kind p else kind_of s id'.
Proof. unfold kind_of. rewrite current_insert. by case_decide. Qed.

Lemma tracked_path id ops s path :
  table_path PhaseKind.Queued path (kind_of s id) →
  table_path PhaseKind.Queued (tracked id s path ops) (kind_of (foldl apply_tracker_op s ops) id).
Proof.
  revert s path. induction ops as [|op ops IH]; intros s path Hp; [done|].
  destruct op as [id' from to|id']; cbn [tracked foldl apply_tracker_op]; apply IH.
  - destruct (try_transition_cases s id' from to) as [(E & Hk & Ht)|(reason & E & _)]; rewrite E; simpl.
    + rewrite kind_of_insert. destruct (decide (id' = id)) as [->|Hne].
      * rewrite decide_True by done. rewrite Hk in Hp. by eapply table_path_snoc.
      * rewrite decide_False by naive_solver. done.
    + rewrite decide_False by naive_solver. done.
  - unfold PT.force_restart. rewrite kind_of_insert. case_decide; simplify_eq; [constructor|done].
Qed.

(** Progress is forward.  The phases a plan was moved to since its last restart are a path of
    the transition table from Queued to its current phase, so a plan tracked as Complete went
    through every mandatory phase since then.  A move is accepted exactly when it starts at the
    current phase (Queued for a plan not tracked) and the table allows it; it then changes that plan
    alone, and refused it changes nothing.  Nothing leaves a terminal phase but a restart.  And the tracker
    accepts every transition of the plan state machine. *)
Theorem progress_is_forward ops id :
  let s := run_tracker ops in
  let path := tracked id PT.new [PhaseKind.Queued] ops in
  table_path PhaseKind.Queued path (kind_of s id) ∧
  (kind_of s id = PhaseKind.Complete → ∀ k, k ∈ mandatory_phases → k ∈ path) ∧
  (∀ from to s' r, PT.try_transition s id from to = (s', r) →
     (r = Ok tt ↔
      kind_of s id = PlanPhase.kind from ∧ PlanPhase.kind to ∈ valid_transitions (PlanPhase.kind from)) ∧
     (r = Ok tt → ∀ id', PT.current_phase s' id' = if decide (id = id') then Some to else PT.current_phase s id') ∧
     (r ≠ Ok tt → s' = s)) ∧
  (∀ p from to, PT.current_phase s id = Some p → PlanPhase.is_terminal p = true →
     (PT.try_transition s id from to).1 = s) ∧
  (∀ ps event next, PlanStateMachine.transition ps event = Ok next →
     kind_of s id = PlanPhase.kind (PlanState.current_phase ps) →
     (PT.try_transition s id (PlanState.current_phase ps) next).2 = Ok tt).
Proof.
  intros s path.
  assert (table_path PhaseKind.Queued path (kind_of s id)) as Hp by (apply tracked_path; constructor).
  split_and!; [done|..].
  - intros Hc k Hk. rewrite Hc in Hp. by eapply complete_path_mandatory.
  - intros from to s' r E.
    destruct (try_transition_cases s id from to) as [(E' & Hk & Ht)|(reason & E' & Hn)];
      rewrite E' in E; simplify_eq; (split; [|split]); try done.
    intros _ id'. apply current_insert.
  - intros p from to Hc Ht.
    destruct (try_transition_cases s id from to) as [(E & Hk & Hs)|(reason & E & _)]; rewrite E; [|done].
    exfalso. unfold kind_of in Hk. rewrite Hc in Hk. simpl in Hk.
    unfold table_step in Hs. rewrite <- Hk in Hs. apply is_terminal_no_successor in Ht.
    rewrite Ht in Hs. by apply not_elem_of_nil in Hs.
  - intros ps event next E Hk.
    destruct (try_transition_cases s id (PlanState.current_phase ps) next) as [(-> & _)|(reason & _ & Hn)];
      [done|]. exfalso. apply Hn. split; [done|]. apply (lifecycle_in_table _ _ _ _ _ (transition_lifecycle _ _ _ E)).
Qed.

(** Enrichment data pass exactly when the schema is unknown or they are an object with every
    required key; otherwise the violations are the missing keys in order. *)
Lemma validate_enrichment_spec {J : Json} {JO : JsonObject J} data schema :
  (validate_enrichment data schema = Ok tt ↔
     ∀ keys, required_keys schema = Some keys →
       ∃ obj, json_as_object data = Some obj ∧ ∀ k, k ∈ keys → is_Some (obj !! k)) ∧
  (∀ keys obj e, required_keys schema = Some keys → json_as_object data = Some obj →
     validate_enrichment data schema = Err e →
     ValidationError.schema e = schema ∧
     ∀ k, ("missing required key: " +:+ k) ∈ ValidationError.violations e ↔
          k ∈ keys ∧ obj !! k = None).
Proof.
  unfold validate_enrichment. destruct (required_keys schema) as [keys|] eqn:Ek; [|naive_solver].
  destruct (json_as_object data) as [obj|] eqn:Eo; [|naive_solver].
  set (absent := List.filter _ keys).
  assert (∀ k, k ∈ absent ↔ k ∈ keys ∧ obj !! k = None) as Ha.
  { intros k. unfold absent. rewrite !list_elem_of_In, filter_In, negb_true_iff, bool_decide_eq_false.
    by rewrite eq_None_not_Some. }
  destruct (_ <$> absent) as [|m ms] eqn:Em.
  - apply fmap_nil_inv in Em. rewrite Em in Ha. split; [|naive_solver]. split; [|done].
    intros _ keys' [= <-]. exists obj. split; [done|]. intros k Hk.
    destruct (obj !! k) eqn:E; [done|]. exfalso.
    apply (not_elem_of_nil k), Ha. done.
  - split; [split; [done|]|].
    + intros H. exfalso. destruct (H keys eq_refl) as (obj' & [= <-] & Hall).
      assert (m ∈ (λ k, "missing required key: " +:+ k) <$> absent) as Hm by (rewrite Em; left).
      apply list_elem_of_fmap in Hm as (k & _ & Hk). apply Ha in Hk as [Hk Hn].
      apply Hall in Hk as [? ?]. congruence.
    + intros keys' obj' e [= <-] [= <-] [= <-]. simpl. split; [done|]. intros k.
      rewrite <- Em, list_elem_of_fmap, <- Ha. split; [|naive_solver].
      intros (k' & Hk' & Hin). apply (inj (String.append _)) in Hk'. by subst.
Qed.

(** What is published of an error decides its retries. *)
Lemma published_transient e :
  ErrorEvent.transient (publish_error e) = true ↔ is_Some (RE.retry_policy e).
Proof. apply transient_iff_retried. Qed.
