(* ===== verification/Sandbox.v ===== *)
(** * Sandbox policies (crates/roko-orchestrator/src/safety/sandboxing.rs)

    Which paths, commands and environment variables a subprocess may use, by pure checks.  A
    path is its Unix text; its components are those of [Permit]. *)

From S2P Require Import Prelude Permit.

(** ** Paths *)

Module PathBuf.
Definition ends_with_slash (s : string) : bool := bool_decide (last (String.list_ascii_of_string s) = Some "/"%char).

(** [PathBuf::push] *)
Definition push (out p : string) : string :=
  if UnixPath.is_absolute p then p
  else if str_is_empty out || ends_with_slash out then out +:+ p
  else out +:+ "/" +:+ p.

(** The text of a path given by its components. *)
Definition render (comps : list string) : string :=
  match comps with
  | "/" :: names => "/" +:+ str_join "/" names
  | names => str_join "/" names
  end%string.

(** [PathBuf::pop], of a path written without redundant separators: all but the last
    component, unless that is the root. *)
Definition pop (out : string) : string :=
  match last (UnixPath.components out) with
  | None | Some "/"%string => out
  | Some _ => render (removelast (UnixPath.components out))
  end.

(** [Path::file_name]: the last component if it is a name. *)
Definition file_name (p : string) : option string :=
  match last (UnixPath.components p) with
  | Some n => if decide (n ∈ ["/"; "."; ".."]%string) then None else Some n
  | None => None
  end.

(** [Path::starts_with] *)
Definition starts_with (p base : string) : bool :=
  bool_decide (UnixPath.components base `prefix_of` UnixPath.components p).
End PathBuf.

(** The rounds of the loop of [normalize]. *)
Definition normalize_step (out comp : string) : string :=
  if decide (comp = "..") then PathBuf.pop out
  else if decide (comp = ".") then out
  else PathBuf.push out comp.

Definition normalize (path : string) : string :=
  foldl normalize_step "" (UnixPath.components path).

Definition is_contained (candidate root : string) : bool := PathBuf.starts_with candidate root.

Example normalize_examples :
  normalize "/work/./out/../../etc//passwd" = "/etc/passwd" ∧ normalize "/../.." = "/" ∧
  is_contained "/work/a" "/work" = true ∧ is_contained "/workspace" "/work" = false.
Proof. vm_compute. done. Qed.

(** ** Errors and policies *)

Module SandboxError.
Inductive t : Type :=
  | RelativePath (path : string)
  | PathNotAllowed (path : string)
  | PathDenied (path : string)
  | CommandNotAllowed (basename : string)
  | CommandMissingBasename (path : string)
  | WallClockExceeded (elapsed_ms budget_ms : N)
  | NoWallClockBudget.

#[global] Instance t_eq_dec : EqDecision t.
Proof. solve_decision. Defined.
End SandboxError.
Abbreviation SandboxError := SandboxError.t.

Module SandboxPolicy.
Record t : Type := mk {
  allowed_paths : list string;
  denied_paths : list string;
  allowed_commands : gset string;
  max_wall_ms : option N;
  env_allow_list : gset string;
}.

Definition closed : t := mk [] [] ∅ None ∅.
End SandboxPolicy.
Abbreviation SandboxPolicy := SandboxPolicy.t.
Module SP := SandboxPolicy.

(** The builder has the fields of the policy. *)
Module SandboxPolicyBuilder.
Definition builder : SandboxPolicy := SP.closed.

Definition allow_path (path : string) (b : SandboxPolicy) : result SandboxPolicy SandboxError :=
  if negb (UnixPath.is_absolute path) then Err (SandboxError.RelativePath path)
  else Ok (SP.mk (SP.allowed_paths b ++ [normalize path]) (SP.denied_paths b)
             (SP.allowed_commands b) (SP.max_wall_ms b) (SP.env_allow_list b)).

Definition deny_path (path : string) (b : SandboxPolicy) : result SandboxPolicy SandboxError :=
  if negb (UnixPath.is_absolute path) then Err (SandboxError.RelativePath path)
  else Ok (SP.mk (SP.allowed_paths b) (SP.denied_paths b ++ [normalize path])
             (SP.allowed_commands b) (SP.max_wall_ms b) (SP.env_allow_list b)).

Definition allow_command (name : string) (b : SandboxPolicy) : SandboxPolicy :=
  SP.mk (SP.allowed_paths b) (SP.denied_paths b) ({[name]} ∪ SP.allowed_commands b)
    (SP.max_wall_ms b) (SP.env_allow_list b).

Definition max_wall_ms (ms : N) (b : SandboxPolicy) : SandboxPolicy :=
  SP.mk (SP.allowed_paths b) (SP.denied_paths b) (SP.allowed_commands b) (Some ms)
    (SP.env_allow_list b).

Definition allow_env (key : string) (b : SandboxPolicy) : SandboxPolicy :=
  SP.mk (SP.allowed_paths b) (SP.denied_paths b) (SP.allowed_commands b) (SP.max_wall_ms b)
    ({[key]} ∪ SP.env_allow_list b).

Definition build (b : SandboxPolicy) : SandboxPolicy := b.
End SandboxPolicyBuilder.
Module SPB := SandboxPolicyBuilder.

(** ** The enforcer *)

Module SandboxEnforcer.
Definition check_path (policy : SandboxPolicy) (p : string) : result unit SandboxError :=
  if negb (UnixPath.is_absolute p) then Err (SandboxError.RelativePath p)
  else
    let candidate := normalize p in
    if existsb (λ root, is_contained candidate root) (SP.denied_paths policy) then
      Err (SandboxError.PathDenied candidate)
    else if existsb (λ root, is_contained candidate root) (SP.allowed_paths policy) then Ok tt
    else Err (SandboxError.PathNotAllowed candidate).

Definition check_command (policy : SandboxPolicy) (program : string) : result unit SandboxError :=
  match PathBuf.file_name program with
  | None => Err (SandboxError.CommandMissingBasename program)
  | Some basename =>
      if decide (basename ∈ SP.allowed_commands policy) then Ok tt
      else Err (SandboxError.CommandNotAllowed basename)
  end.

Definition check_wall_ms (policy : SandboxPolicy) (elapsed_ms : N) : result unit SandboxError :=
  match SP.max_wall_ms policy with
  | None => Err SandboxError.NoWallClockBudget
  | Some budget =>
      if (budget <? elapsed_ms)%N then Err (SandboxError.WallClockExceeded elapsed_ms budget)
      else Ok tt
  end.

(** Collected into a map: the last value of a key stays. *)
Definition filter_env (policy : SandboxPolicy) (env : list (string * string)) : gmap string string :=
  foldl (λ m kv, <[kv.1 := kv.2]> m) ∅
    (List.filter (λ kv, bool_decide (kv.1 ∈ SP.env_allow_list policy)) env).

Definition env_allows (policy : SandboxPolicy) (key : string) : bool :=
  bool_decide (key ∈ SP.env_allow_list policy).
End SandboxEnforcer.
Module SE := SandboxEnforcer.

(** ** What a path means

    The names under the root a path leads to when [..] goes up and links are not followed. *)

Definition resolve_step (names : list string) (comp : string) : list string :=
  if decide (comp = "..") then removelast names else names ++ [comp].

Definition location (path : string) : list string :=
  foldl resolve_step [] (tail (UnixPath.components path)).

(** A component that is a name or [..]. *)
Definition is_part (x : string) : Prop := UnixPath.keep x = true ∧ str_has "/" x = false.
Definition is_name (x : string) : Prop := is_part x ∧ x ≠ "..".

Lemma segments_has_no_slash cur s :
  str_has "/" cur = false → Forall (λ x, str_has "/" x = false) (UnixPath.segments cur s).
Proof.
  revert cur. induction s as [|a s IH]; intros cur Hc; simpl; [by repeat constructor|].
  destruct (Ascii.eqb a "/") eqn:E; [constructor; [done|by apply IH]|].
  apply IH. rewrite str_has_app, Hc. simpl. by rewrite E.
Qed.

Lemma segments_last cur s :
  str_has "/" s = false → UnixPath.segments cur s = [cur +:+ s].
Proof.
  revert cur. induction s as [|a s IH]; intros cur Hs; simpl in *; [by rewrite str_app_nil|].
  apply orb_false_iff in Hs as [Ha Hs]. rewrite Ha, IH by done.
  by rewrite str_app_assoc.
Qed.

Lemma segments_cons cur s t :
  str_has "/" s = false →
  UnixPath.segments cur (s +:+ String "/" t) = (cur +:+ s) :: UnixPath.segments "" t.
Proof.
  revert cur. induction s as [|a s IH]; intros cur Hs; simpl in *; [by rewrite str_app_nil|].
  apply orb_false_iff in Hs as [Ha Hs].
  change (UnixPath.segments cur (String a (s +:+ String "/" t)) = (cur +:+ String a s) :: UnixPath.segments "" t).
  simpl. rewrite Ha, IH by done. by rewrite str_app_assoc.
Qed.

(** Paths under the root, written by their names. *)
Definition absolute (names : list string) : string := PathBuf.render ("/"%string :: names).

Lemma segments_join names :
  Forall is_part names → names ≠ [] → UnixPath.segments "" (str_join "/" names) = names.
Proof.
  induction 1 as [|x names [_ Hx] Hf IH]; [done|]. intros _.
  destruct names as [|y names]; [by apply segments_last|].
  change (str_join "/" (x :: y :: names)) with (x +:+ String "/" (str_join "/" (y :: names))).
  rewrite segments_cons, IH by done. done.
Qed.

Lemma keep_names names : Forall is_part names → List.filter UnixPath.keep names = names.
Proof. induction 1 as [|x names [Hx _] Hf IH]; [done|]. simpl. by rewrite Hx, IH. Qed.

Lemma components_root s :
  UnixPath.components (String "/" s) = "/"%string :: List.filter UnixPath.keep (UnixPath.segments "" s).
Proof. reflexivity. Qed.

Lemma components_absolute names :
  Forall is_part names → UnixPath.components (absolute names) = "/"%string :: names.
Proof.
  intros Hf. change (UnixPath.components (String "/" (str_join "/" names)) = "/"%string :: names).
  rewrite components_root.
  destruct names as [|x names]; [done|]. rewrite segments_join by done. by rewrite keep_names.
Qed.

Lemma absolute_components p :
  UnixPath.is_absolute p = true →
  ∃ parts, UnixPath.components p = "/"%string :: parts ∧ Forall is_part parts.
Proof.
  intros Ha. destruct p as [|a p]; [done|].
  change (Ascii.eqb "/" a && true = true) in Ha. rewrite andb_true_r in Ha.
  apply Ascii.eqb_eq in Ha as <-. rewrite components_root. eexists. split; [reflexivity|].
  pose proof (segments_has_no_slash "" p eq_refl) as Hs. rewrite Forall_forall in Hs.
  apply Forall_forall. intros x. rewrite list_elem_of_In, filter_In, <- list_elem_of_In.
  intros [Hx Hk]. split; [done|by apply Hs].
Qed.

Lemma last_ascii_app a b :
  b ≠ ""%string →
  last (String.list_ascii_of_string (a +:+ b)) = last (String.list_ascii_of_string b).
Proof.
  intros Hb. induction a as [|x a IH]; [done|].
  change (last (x :: String.list_ascii_of_string (a +:+ b)) = last (String.list_ascii_of_string b)).
  rewrite <- IH. destruct (String.list_ascii_of_string (a +:+ b)) eqn:E; [|done].
  exfalso. destruct a; [|done]. destruct b; done.
Qed.

Lemma no_slash_at_end x : str_has "/" x = false → PathBuf.ends_with_slash x = false.
Proof.
  intros H. unfold PathBuf.ends_with_slash. apply bool_decide_eq_false. intros Hl.
  induction x as [|a x IH]; [done|]. simpl in H. apply orb_false_iff in H as [Ha H].
  destruct x as [|b x]; [simpl in Hl; simplify_eq; by apply eqb_neq in Ha|]. by apply IH.
Qed.

Lemma join_snoc names n :
  names ≠ [] → str_join "/" (names ++ [n]) = str_join "/" names +:+ "/" +:+ n.
Proof.
  induction names as [|x names IH]; [done|]. intros _. destruct names as [|y names]; [done|].
  change (str_join "/" ((x :: y :: names) ++ [n])) with (x +:+ "/" +:+ str_join "/" ((y :: names) ++ [n])).
  rewrite IH by done.
  change (str_join "/" (x :: y :: names)) with (x +:+ "/" +:+ str_join "/" (y :: names)).
  by rewrite !str_app_assoc.
Qed.

Lemma join_end names :
  Forall is_part names → names ≠ [] → PathBuf.ends_with_slash (str_join "/" names) = false ∧ str_join "/" names ≠ ""%string.
Proof.
  intros Hf Hn. destruct (exists_last Hn) as (ns & n & ->). apply Forall_app in Hf as [_ Hf].
  apply Forall_singleton in Hf as [Hk Hs].
  assert (n ≠ ""%string) as Hne by (intros ->; done).
  destruct ns as [|x ns]; [split; [by apply no_slash_at_end|done]|].
  rewrite join_snoc by done. split.
  - unfold PathBuf.ends_with_slash. rewrite last_ascii_app, (last_ascii_app "/") by (destruct n; done).
    by apply no_slash_at_end.
  - by destruct (str_join "/" (x :: ns)).
Qed.

Lemma pop_absolute names :
  Forall is_part names → PathBuf.pop (absolute names) = absolute (removelast names).
Proof.
  intros Hf. unfold PathBuf.pop. rewrite components_absolute by done.
  destruct (decide (names = [])) as [->|Hn]; [done|].
  destruct (exists_last Hn) as (ns & n & ->). rewrite removelast_last.
  change ("/"%string :: ns ++ [n]) with (("/"%string :: ns) ++ [n]). rewrite last_snoc, removelast_last.
  apply Forall_app in Hf as [_ [[Hk Hs] _]%Forall_cons].
  destruct (decide (n = "/"%string)) as [->|Hne]; [done|].
  assert (∀ A (x y : A), match n with "/"%string => x | _ => y end = y) as Hmatch.
  { intros A x y. clear -Hne. destruct n as [|[[] [] [] [] [] [] [] []] [|? ?]]; done. }
  apply Hmatch.
Qed.

Lemma push_absolute names n :
  Forall is_part names → is_part n → PathBuf.push (absolute names) n = absolute (names ++ [n]).
Proof.
  intros Hf [Hk Hs]. unfold PathBuf.push.
  assert (UnixPath.is_absolute n = false) as ->.
  { destruct n as [|a n]; [done|]. cbn [str_has] in Hs. apply orb_false_iff in Hs as [Ha _].
    change (Ascii.eqb "/" a && true = false). by rewrite Ascii.eqb_sym, Ha. }
  destruct (decide (names = [])) as [->|Hn]; [done|].
  destruct (join_end names Hf Hn) as [He Hne].
  assert (PathBuf.ends_with_slash (absolute names) = false) as Ha.
  { unfold PathBuf.ends_with_slash, absolute, PathBuf.render. by rewrite last_ascii_app. }
  rewrite Ha. change (str_is_empty (absolute names)) with false. simpl orb.
  unfold absolute, PathBuf.render. by rewrite join_snoc, str_app_assoc.
Qed.

Lemma normalize_step_absolute names comp :
  Forall is_name names → is_part comp →
  normalize_step (absolute names) comp = absolute (resolve_step names comp) ∧
  Forall is_name (resolve_step names comp).
Proof.
  intros Hf Hc. assert (Forall is_part names) as Hp by (eapply Forall_impl; [done|]; by intros ? [??]).
  unfold normalize_step, resolve_step. case_decide as Hd.
  - split; [by apply pop_absolute|]. destruct (decide (names = [])) as [->|Hn]; [done|].
    destruct (exists_last Hn) as (ns & n & ->). rewrite removelast_last. by apply Forall_app in Hf as [? _].
  - rewrite decide_False; [|by intros ->; destruct Hc].
    split; [by apply push_absolute|]. apply Forall_app. split; [done|]. by constructor.
Qed.

Lemma normalize_parts parts names :
  Forall is_name names → Forall is_part parts →
  foldl normalize_step (absolute names) parts = absolute (foldl resolve_step names parts) ∧
  Forall is_name (foldl resolve_step names parts).
Proof.
  intros Hn Hp. revert names Hn. induction Hp as [|x parts Hx Hp IH]; intros names Hn; [done|].
  simpl. destruct (normalize_step_absolute names x Hn Hx) as [-> Hr]. by apply IH.
Qed.

(** An absolute path is normalized to the path of its location, which has no [..] left. *)
Lemma normalize_absolute p :
  UnixPath.is_absolute p = true →
  normalize p = absolute (location p) ∧ Forall is_name (location p) ∧
  UnixPath.components (normalize p) = "/"%string :: location p.
Proof.
  intros Ha. destruct (absolute_components p Ha) as (parts & E & Hp).
  unfold normalize, location. rewrite E. cbn [tail foldl].
  change (normalize_step "" "/") with (absolute []).
  destruct (normalize_parts parts [] (Forall_nil_2 _) Hp) as [-> Hf]. split_and!; [done|done|].
  apply components_absolute. eapply Forall_impl; [exact Hf|]. by intros x [? _].
Qed.

Lemma is_contained_spec p root :
  UnixPath.is_absolute p = true → UnixPath.is_absolute root = true →
  is_contained (normalize p) (normalize root) = true ↔ location root `prefix_of` location p.
Proof.
  intros Hp Hr. unfold is_contained, PathBuf.starts_with. rewrite bool_decide_eq_true.
  destruct (normalize_absolute p Hp) as (_ & _ & ->).
  destruct (normalize_absolute root Hr) as (_ & _ & ->).
  split; [apply prefix_cons_inv_2|apply prefix_cons].
Qed.

(** Normalizing again changes nothing. *)
Lemma normalize_idempotent p :
  UnixPath.is_absolute p = true → normalize (normalize p) = normalize p.
Proof.
  intros Ha. destruct (normalize_absolute p Ha) as (E & Hf & Ec).
  unfold normalize at 1. rewrite Ec. cbn [foldl]. change (normalize_step "" "/") with (absolute []).
  destruct (normalize_parts (location p) [] (Forall_nil_2 _)) as [-> _].
  - eapply Forall_impl; [exact Hf|]. by intros x [? _].
  - rewrite E. f_equal. clear -Hf. revert Hf. generalize (location p) as names.
    assert (∀ names acc, Forall is_name names → foldl resolve_step acc names = acc ++ names) as H.
    { induction names as [|x names IH]; intros acc Hf; simpl; [by rewrite app_nil_r|].
      apply Forall_cons in Hf as [[_ Hx] Hf]. unfold resolve_step at 2. rewrite decide_False by done.
      rewrite IH by done. by rewrite <- app_assoc. }
    intros names Hf. by apply (H names []).
Qed.

(** ** What a built policy admits *)

Inductive policy_op : Type :=
  | AllowPath (path : string)
  | DenyPath (path : string)
  | AllowCommand (name : string)
  | MaxWallMs (ms : N)
  | AllowEnv (key : string).

Definition apply_policy_op (op : policy_op) (b : SandboxPolicy) : result SandboxPolicy SandboxError :=
  match op with
  | AllowPath p => SPB.allow_path p b
  | DenyPath p => SPB.deny_path p b
  | AllowCommand name => Ok (SPB.allow_command name b)
  | MaxWallMs ms => Ok (SPB.max_wall_ms ms b)
  | AllowEnv key => Ok (SPB.allow_env key b)
  end.

(** A chain of calls of the builder, each error returned early. *)
Fixpoint build_policy (b : SandboxPolicy) (ops : list policy_op) : result SandboxPolicy SandboxError :=
  match ops with
  | [] => Ok (SPB.build b)
  | op :: ops => match apply_policy_op op b with Ok b => build_policy b ops | Err e => Err e end
  end.

Definition allow_roots (ops : list policy_op) : list string :=
  omap (λ op, match op with AllowPath p => Some p | _ => None end) ops.
Definition deny_roots (ops : list policy_op) : list string :=
  omap (λ op, match op with DenyPath p => Some p | _ => None end) ops.
Definition wall_budget (ops : list policy_op) (b : option N) : option N :=
  foldl (λ b op, match op with MaxWallMs ms => Some ms | _ => b end) b ops.

Lemma build_policy_fields ops b policy :
  build_policy b ops = Ok policy →
  SP.allowed_paths policy = SP.allowed_paths b ++ (normalize <$> allow_roots ops) ∧
  SP.denied_paths policy = SP.denied_paths b ++ (normalize <$> deny_roots ops) ∧
  Forall (λ p, UnixPath.is_absolute p = true) (allow_roots ops ++ deny_roots ops) ∧
  (∀ c, c ∈ SP.allowed_commands policy ↔ c ∈ SP.allowed_commands b ∨ AllowCommand c ∈ ops) ∧
  (∀ k, k ∈ SP.env_allow_list policy ↔ k ∈ SP.env_allow_list b ∨ AllowEnv k ∈ ops) ∧
  SP.max_wall_ms policy = wall_budget ops (SP.max_wall_ms b).
Proof.
  revert b. induction ops as [|op ops IH]; intros b; cbn [build_policy].
  - intros [= <-]. unfold SPB.build. rewrite !app_nil_r. split_and!; try done; set_solver.
  - destruct (apply_policy_op op b) as [b'|] eqn:E; [|done]. intros H.
    destruct (IH b' H) as (Ha & Hd & Hf & Hc & He & Hw). rewrite Ha, Hd, Hw.
    rewrite Forall_app in Hf. destruct Hf as [Hf1 Hf2].
    assert (Forall (λ p, UnixPath.is_absolute p = true) (allow_roots [op] ++ deny_roots [op])) as Hop.
    { destruct op; simpl in E |- *; try constructor; try constructor;
        unfold SPB.allow_path, SPB.deny_path in E; by destruct (UnixPath.is_absolute path). }
    destruct op; simpl in E; unfold SPB.allow_path, SPB.deny_path in E;
      try (destruct (UnixPath.is_absolute path) eqn:Ep; simpl in E); simplify_eq; simpl in *;
      rewrite <- ?app_assoc;
      (split_and!; try done; [rewrite ?Forall_app, ?Forall_cons; split; naive_solver| |];
       intros x; rewrite ?Hc, ?He; set_solver).
Qed.

Lemma existsb_roots p roots :
  UnixPath.is_absolute p = true → Forall (λ p, UnixPath.is_absolute p = true) roots →
  existsb (λ root, is_contained (normalize p) root) (normalize <$> roots) = true ↔
  ∃ root, root ∈ roots ∧ location root `prefix_of` location p.
Proof.
  intros Hp Hf. rewrite Forall_forall in Hf. rewrite existsb_exists. split.
  - intros (r & Hr & Hc). apply list_elem_of_In, list_elem_of_fmap in Hr as (root & -> & Hr).
    exists root. split; [done|]. apply is_contained_spec; auto.
  - intros (root & Hr & Hc). exists (normalize root). split.
    + apply list_elem_of_In, list_elem_of_fmap. eauto.
    + apply is_contained_spec; auto.
Qed.

(** A list of entries written to a map one after the other: the last value of a key stays. *)
Definition last_entry (k v : string) (l : list (string * string)) : Prop :=
  ∃ pre post, l = pre ++ (k, v) :: post ∧ k ∉ post.*1.

Lemma last_entry_snoc k v k' v' l :
  last_entry k v (l ++ [(k', v')]) ↔ if decide (k' = k) then v' = v else last_entry k v l.
Proof.
  unfold last_entry. split.
  - intros (pre & post & E & Hn). destruct post as [|x post _] using rev_ind.
    + apply app_inj_tail in E as [_ [= -> ->]]. by rewrite decide_True.
    + rewrite app_comm_cons, app_assoc in E. apply app_inj_tail in E as [-> <-].
      rewrite fmap_app in Hn. rewrite decide_False by set_solver. exists pre, post. set_solver.
  - case_decide as Hk; [intros ->; subst; exists l, []; split; [done|set_solver]|].
    intros (pre & post & -> & Hn). exists pre, (post ++ [(k', v')]).
    split; [by rewrite <- app_assoc|]. rewrite fmap_app. set_solver.
Qed.

Lemma foldl_insert_lookup l (m : gmap string string) k v :
  (foldl (λ m kv, <[kv.1 := kv.2]> m) m l !! k) = Some v ↔
  last_entry k v l ∨ ((k ∉ l.*1) ∧ m !! k = Some v).
Proof.
  revert m. induction l as [|[k' v'] l IH] using rev_ind; intros m.
  - simpl. split; [intros ?; right; split; [set_solver|done]|].
    intros [(pre & post & E & _)|[_ ?]]; [by destruct pre|done].
  - rewrite foldl_snoc, fmap_app, last_entry_snoc. simpl. case_decide as Hk; subst.
    + rewrite lookup_insert_eq. set_solver.
    + rewrite lookup_insert_ne, IH by done. set_solver.
Qed.

Lemma filter_env_spec policy env k v :
  SE.filter_env policy env !! k = Some v ↔ k ∈ SP.env_allow_list policy ∧ last_entry k v env.
Proof.
  unfold SE.filter_env. rewrite foldl_insert_lookup, lookup_empty.
  assert (∀ P : Prop, (P ∨ (k ∉ (List.filter (λ kv, bool_decide (kv.1 ∈ SP.env_allow_list policy)) env).*1) ∧
    None = Some v) ↔ P) as -> by naive_solver.
  induction env as [|[k' v'] env IH] using rev_ind.
  - split; [intros (pre & post & E & _)|intros (_ & pre & post & E & _)]; by destruct pre.
  - rewrite List.filter_app, last_entry_snoc. cbn [List.filter fst]. case_bool_decide as Hin.
    + rewrite last_entry_snoc. case_decide; naive_solver.
    + rewrite app_nil_r, IH. case_decide; naive_solver.
Qed.

(** C26: The sandbox confines.  Under a policy built without error, a path passes exactly when it is
    absolute and its location (with [..] going up and redundant separators ignored, links aside)
    is under the location of an allowed root and under that of no denied root, so no [..] escapes and a
    denial wins; otherwise the error says which of the three fails.  A command passes exactly when
    its file name was allowed, a time when a budget was set and the last one covers it; and of the environment exactly the
    allowed variables stay, with the last of their values. *)
Theorem sandbox_confines ops policy :
  build_policy SPB.builder ops = Ok policy →
  (∀ p,
     let under roots := ∃ root, root ∈ roots ∧ location root `prefix_of` location p in
     SE.check_path policy p = Ok tt ↔
       UnixPath.is_absolute p = true ∧ under (allow_roots ops) ∧ ¬ under (deny_roots ops)) ∧
  (∀ p e, SE.check_path policy p = Err e →
     let under roots := ∃ root, root ∈ roots ∧ location root `prefix_of` location p in
     (e = SandboxError.RelativePath p ∧ UnixPath.is_absolute p = false) ∨
     (e = SandboxError.PathDenied (absolute (location p)) ∧ under (deny_roots ops)) ∨
     (e = SandboxError.PathNotAllowed (absolute (location p)) ∧ ¬ under (deny_roots ops) ∧
      ¬ under (allow_roots ops))) ∧
  (∀ program, SE.check_command policy program = Ok tt ↔
     ∃ name, PathBuf.file_name program = Some name ∧ AllowCommand name ∈ ops) ∧
  (∀ ms, SE.check_wall_ms policy ms = Ok tt ↔
     ∃ budget, wall_budget ops None = Some budget ∧ (ms ≤ budget)%N) ∧
  (∀ env k v, SE.filter_env policy env !! k = Some v ↔
     AllowEnv k ∈ ops ∧ last_entry k v env).
Proof.
  intros Hb. destruct (build_policy_fields _ _ _ Hb) as (Ha & Hd & Hf & Hc & He & Hw).
  simpl in Ha, Hd. apply Forall_app in Hf as [Hfa Hfd].
  assert (∀ p, UnixPath.is_absolute p = true → SE.check_path policy p =
    if existsb (λ root, is_contained (normalize p) root) (normalize <$> deny_roots ops) then
      Err (SandboxError.PathDenied (absolute (location p)))
    else if existsb (λ root, is_contained (normalize p) root) (normalize <$> allow_roots ops) then Ok tt
    else Err (SandboxError.PathNotAllowed (absolute (location p)))) as Hcheck.
  { intros p Hp. unfold SE.check_path. rewrite Hp, Ha, Hd. simpl.
    by rewrite <- (proj1 (normalize_absolute p Hp)). }
  split_and!.
  - intros p under. destruct (UnixPath.is_absolute p) eqn:Hp;
      [|unfold SE.check_path; rewrite Hp; split; [done|by intros [? _]]].
    rewrite Hcheck by done. pose proof (existsb_roots p _ Hp Hfd) as Ed. pose proof (existsb_roots p _ Hp Hfa) as Ea.
    fold (under (deny_roots ops)) in Ed. fold (under (allow_roots ops)) in Ea.
    destruct (existsb _ (normalize <$> deny_roots ops)); [naive_solver|].
    destruct (existsb _ (normalize <$> allow_roots ops)); naive_solver.
  - intros p e. destruct (UnixPath.is_absolute p) eqn:Hp;
      [|unfold SE.check_path; rewrite Hp; intros [= <-]; by left].
    rewrite Hcheck by done. pose proof (existsb_roots p _ Hp Hfd) as Ed. pose proof (existsb_roots p _ Hp Hfa) as Ea.
    intros E under. fold (under (deny_roots ops)) in Ed. fold (under (allow_roots ops)) in Ea.
    destruct (existsb _ (normalize <$> deny_roots ops)); [naive_solver|].
    destruct (existsb _ (normalize <$> allow_roots ops)); naive_solver.
  - intros program. unfold SE.check_command. destruct (PathBuf.file_name program) as [n|]; [|naive_solver].
    case_decide as Hin; rewrite Hc in Hin; simpl in Hin; set_solver.
  - intros ms. unfold SE.check_wall_ms. rewrite Hw. simpl.
    destruct (wall_budget ops None) as [b|]; [|naive_solver].
    destruct (b <? ms)%N eqn:E; (split; [intros H|intros (? & [= <-] & ?)]); try done; [lia|].
    exists b. split; [done|lia].
  - intros env k v. rewrite filter_env_spec, He. simpl. set_solver.
Qed.

Definition work_policy : list policy_op :=
  [AllowPath "/work/./repo"; DenyPath "/work/repo/.git"; AllowCommand "cargo"; AllowEnv "PATH"].

Lemma sandbox_confines_witness :
  ∃ policy, build_policy SPB.builder work_policy = Ok policy ∧
    SE.check_path policy "/work/repo/src/../target" = Ok tt ∧
    SE.check_path policy "/work/repo/src/../../../etc/passwd" ≠ Ok tt ∧
    SE.check_path policy "/work/repo//.git/config" ≠ Ok tt ∧
    SE.check_command policy "/usr/bin/cargo" = Ok tt.
Proof.
  eexists. split; [reflexivity|].
  pose proof (sandbox_confines work_policy _ eq_refl) as (Hp & _ & Hc & _).
  split_and!; [|by vm_compute|by vm_compute|].
  - apply Hp. split_and!; [done| |].
    + exists "/work/./repo"%string. split; [vm_compute; left|]. exists ["target"%string]. reflexivity.
    + intros (root & Hr & [l Hl]). apply list_elem_of_singleton in Hr as ->. vm_compute in Hl. done.
  - apply Hc. exists "cargo"%string. split; [reflexivity|]. unfold work_policy. set_solver.
Defined.
