(* ===== verification/Repair.v ===== *)
(** * Re-planning and repair (crates/roko-orchestrator/src/replan.rs and repair.rs)

    Requests to revise a plan, strategies of re-planning, and the engine that selects the
    repair of a failed task. *)

From S2P Require Import Prelude Bytes Pipeline WorkflowToml.

(** ** Plan revision requests *)

Module FailureDisposition.
Inductive t : Type :=
  | Retry
  | NeedsReplan
  | Blocked
  | NeedsHuman.

#[global] Instance t_eq_dec : EqDecision t.
Proof. solve_decision. Defined.

Definition label (d : t) : string :=
  match d with
  | Retry => "retry"
  | NeedsReplan => "needs_replan"
  | Blocked => "blocked"
  | NeedsHuman => "needs_human"
  end.
End FailureDisposition.
Abbreviation FailureDisposition := FailureDisposition.t.

Module PlanRevisionEvidence.
Record t : Type := mk {
  source : string;
  classification : option string;
  failure_pattern_ids : list string;
  blocking_findings : list string;
  detail : option string;
}.

#[global] Instance t_eq_dec : EqDecision t.
Proof. solve_decision. Defined.

Definition gate (source : string) : t := mk source None [] [] None.
Definition with_classification (classification : option string) (e : t) : t :=
  mk (source e) classification (failure_pattern_ids e) (blocking_findings e) (detail e).
Definition with_failure_pattern_ids (ids : list string) (e : t) : t :=
  mk (source e) (classification e) ids (blocking_findings e) (detail e).
Definition with_blocking_findings (findings : list string) (e : t) : t :=
  mk (source e) (classification e) (failure_pattern_ids e) findings (detail e).
Definition with_detail (detail : option string) (e : t) : t :=
  mk (source e) (classification e) (failure_pattern_ids e) (blocking_findings e) detail.
End PlanRevisionEvidence.
Abbreviation PlanRevisionEvidence := PlanRevisionEvidence.t.
Module PRE := PlanRevisionEvidence.

(** The text serde_json gives to the payload of a revision hash. *)
Class RevisionText := {
  revision_text :
    string → string → string → N → list string → list string → list PlanRevisionEvidence → bytes }.

(** The loop of [unique_flatten]: values that are not blank, each once. *)
Definition unique_flatten (values : list string) : list string :=
  foldl (λ unique value,
    if negb (str_is_empty (trim value)) && bool_decide (value ∉ unique) then unique ++ [value] else unique)
    [] values.

Definition revision_hash `{!Blake3} {RT : RevisionText} (plan_id task_id reason : string)
    (attempts : N) (failure_pattern_ids blocking_findings : list string)
    (evidence : list PlanRevisionEvidence) : string :=
  ContentHash.to_hex (blake3 (revision_text plan_id task_id reason attempts failure_pattern_ids
    blocking_findings evidence)).

Module PlanRevisionRequest.
Record t : Type := mk {
  request_id : string;
  plan_id : string;
  task_id : string;
  disposition : FailureDisposition;
  reason : string;
  attempts : N;
  evidence : list PlanRevisionEvidence;
  failure_pattern_ids : list string;
  blocking_findings : list string;
  resume_token : string;
  created_at : Z;
}.

Definition gate_failure_limit `{!Blake3} {RT : RevisionText} (plan_id task_id : string) (attempts : N)
    (evidence : list PlanRevisionEvidence) (now : Z) : t :=
  let failure_pattern_ids := unique_flatten (evidence ≫= PRE.failure_pattern_ids) in
  let blocking_findings := unique_flatten (evidence ≫= PRE.blocking_findings) in
  let disposition :=
    if existsb (λ finding, str_contains "permission" finding || str_contains "human" finding)
         blocking_findings
    then FailureDisposition.NeedsHuman else FailureDisposition.NeedsReplan in
  let resume_token :=
    revision_hash plan_id task_id "gate_failure_limit" attempts failure_pattern_ids
      blocking_findings evidence in
  mk ("replan-" +:+ resume_token) plan_id task_id disposition "gate_failure_limit" attempts
    evidence failure_pattern_ids blocking_findings resume_token now.
End PlanRevisionRequest.
Abbreviation PlanRevisionRequest := PlanRevisionRequest.t.
Module PRR := PlanRevisionRequest.

(** ** Strategies and results *)

Module ReplanStrategy.
Inductive t : Type :=
  | RetrySame
  | RetryWithEscalation
  | Decompose
  | Skip
  | RegeneratePlan.

#[global] Instance t_eq_dec : EqDecision t.
Proof. solve_decision. Defined.

Definition label (s : t) : string :=
  match s with
  | RetrySame => "retry_same"
  | RetryWithEscalation => "retry_with_escalation"
  | Decompose => "decompose"
  | Skip => "skip"
  | RegeneratePlan => "regenerate_plan"
  end.
End ReplanStrategy.
Abbreviation ReplanStrategy := ReplanStrategy.t.
Module RS := ReplanStrategy.

Module ReplanResult.
Inductive t : Type :=
  | RetrySame (plan_id task_id : string)
  | RetryWithEscalation (plan_id task_id escalated_model : string)
  | Decompose (plan_id task_id : string) (new_task_ids : list string)
  | RegeneratePlan (plan_id task_id : string) (new_task_ids : list string)
  | Skip (plan_id task_id : string).

Definition strategy (r : t) : ReplanStrategy :=
  match r with
  | RetrySame _ _ => RS.RetrySame
  | RetryWithEscalation _ _ _ => RS.RetryWithEscalation
  | Decompose _ _ _ => RS.Decompose
  | RegeneratePlan _ _ _ => RS.RegeneratePlan
  | Skip _ _ => RS.Skip
  end.

Definition plan_id (r : t) : string :=
  match r with
  | RetrySame p _ | RetryWithEscalation p _ _ | Decompose p _ _ | RegeneratePlan p _ _ | Skip p _ => p
  end.

Definition task_id (r : t) : string :=
  match r with
  | RetrySame _ i | RetryWithEscalation _ i _ | Decompose _ i _ | RegeneratePlan _ i _ | Skip _ i => i
  end.

Definition requires_restart (r : t) : bool :=
  match r with Decompose _ _ _ | RegeneratePlan _ _ _ => true | _ => false end.

Definition new_task_ids (r : t) : list string :=
  match r with Decompose _ _ ids | RegeneratePlan _ _ ids => ids | _ => [] end.
End ReplanResult.
Abbreviation ReplanResult := ReplanResult.t.

(** ** The repair of a failed task *)

Module FailureContext.
Record t : Type := mk {
  plan_id : string;
  task_id : string;
  retry_count : N;
  is_compile_error : bool;
  is_test_failure : bool;
  is_timeout : bool;
  failed_gate : option string;
  error_summary : string;
  dependent_count : nat;
  total_tasks : nat;
  current_model : option string;
}.

Definition new (plan_id task_id : string) : t :=
  mk plan_id task_id 0 false false false None "" 0 1 None.

Definition set_retry_count (n : N) (c : t) : t :=
  mk (plan_id c) (task_id c) n (is_compile_error c) (is_test_failure c) (is_timeout c)
    (failed_gate c) (error_summary c) (dependent_count c) (total_tasks c) (current_model c).
End FailureContext.
Abbreviation FailureContext := FailureContext.t.
Module FC := FailureContext.

Module RepairLevel.
Inductive t : Type :=
  | TaskRetry
  | SubgraphReplacement
  | FullReplan.

#[global] Instance t_eq_dec : EqDecision t.
Proof. solve_decision. Defined.

Definition label (l : t) : string :=
  match l with
  | TaskRetry => "task_retry"
  | SubgraphReplacement => "subgraph_replacement"
  | FullReplan => "full_replan"
  end.

Definition relative_cost (l : t) : F64.t :=
  match l with
  | TaskRetry => F64.lit 1 10
  | SubgraphReplacement => F64.lit 4 10
  | FullReplan => F64.of_Z 1
  end.
End RepairLevel.
Abbreviation RepairLevel := RepairLevel.t.
Module RL := RepairLevel.

Module RepairAction.
Inductive t : Type :=
  | RetryTask (plan_id task_id additional_context : string) (escalated_model : option string)
  | ReplaceSubgraph (plan_id root_task_id : string) (affected_task_ids : list string)
      (failure_hint : string)
  | FullReplan (plan_id reason : string)
  | SkipTask (plan_id task_id reason : string).

Definition level (a : t) : RepairLevel :=
  match a with
  | RetryTask _ _ _ _ => RL.TaskRetry
  | ReplaceSubgraph _ _ _ _ => RL.SubgraphReplacement
  | FullReplan _ _ => RL.FullReplan
  | SkipTask _ _ _ => RL.TaskRetry
  end.

Definition plan_id (a : t) : string :=
  match a with
  | RetryTask p _ _ _ | ReplaceSubgraph p _ _ _ | FullReplan p _ | SkipTask p _ _ => p
  end.

Definition as_replan_strategy (a : t) : ReplanStrategy :=
  match a with
  | RetryTask _ _ _ (Some _) => RS.RetryWithEscalation
  | RetryTask _ _ _ None => RS.RetrySame
  | ReplaceSubgraph _ _ _ _ => RS.Decompose
  | FullReplan _ _ => RS.RegeneratePlan
  | SkipTask _ _ _ => RS.Skip
  end.

Definition display (a : t) : string :=
  match a with
  | RetryTask p i _ (Some model) => "retry(" +:+ p +:+ ":" +:+ i +:+ ", model=" +:+ model +:+ ")"
  | RetryTask p i _ None => "retry(" +:+ p +:+ ":" +:+ i +:+ ")"
  | ReplaceSubgraph p i ids _ =>
      "replace_subgraph(" +:+ p +:+ ":" +:+ i +:+ ", " +:+ fmt_nat (length ids) +:+ " tasks)"
  | FullReplan p reason => "full_replan(" +:+ p +:+ ": " +:+ reason +:+ ")"
  | SkipTask p i _ => "skip(" +:+ p +:+ ":" +:+ i +:+ ")"
  end.
End RepairAction.
Abbreviation RepairAction := RepairAction.t.
Module RA := RepairAction.

Module RepairConfig.
Record t : Type := mk {
  max_task_retries : N;
  max_subgraph_attempts : N;
  subgraph_fraction_threshold : F64.t;
  escalation_model : option string;
  allow_skip : bool;
}.

Definition default : t := mk 2 1 (F64.lit 1 2) None true.
End RepairConfig.
Abbreviation RepairConfig := RepairConfig.t.
Module RC := RepairConfig.

(** A cast [n as f64]. *)
Definition f64_of_usize (n : nat) : F64.t := F64.of_Z (Z.of_nat n).

Module StabilityMetric.
Record t : Type := mk { unchanged_tasks : nat; total_tasks : nat }.

Definition ratio (m : t) : F64.t :=
  if total_tasks m =? 0 then F64.of_Z 1
  else F64.div (f64_of_usize (unchanged_tasks m)) (f64_of_usize (total_tasks m)).

Definition display (m : t) : string :=
  fmt_nat (unchanged_tasks m) +:+ "/" +:+ fmt_nat (total_tasks m) +:+ " unchanged (" +:+
  fmt_fixed 0 (F64.mul (ratio m) (F64.of_Z 100)) +:+ "%)".
End StabilityMetric.
Abbreviation StabilityMetric := StabilityMetric.t.

Module RepairDecision.
Record t : Type := mk {
  action : RepairAction;
  level : RepairLevel;
  reasoning : string;
  expected_stability : StabilityMetric;
}.
End RepairDecision.
Abbreviation RepairDecision := RepairDecision.t.
Module RD := RepairDecision.

Definition build_retry_context (ctx : FailureContext) : string :=
  let parts := ["Previous attempt failed (attempt " +:+ fmt_N (add32 (FC.retry_count ctx) 1) +:+ ")."] in
  let parts :=
    if str_is_empty (FC.error_summary ctx) then parts
    else parts ++ ["Error: " +:+ FC.error_summary ctx] in
  let parts :=
    if FC.is_compile_error ctx then
      parts ++ ["The code did not compile. Fix all compilation errors before proceeding."]
    else parts in
  let parts :=
    if FC.is_test_failure ctx then
      parts ++
        ["Tests failed. Ensure all existing tests pass and add tests for new functionality."]
    else parts in
  let parts :=
    if FC.is_timeout ctx then
      parts ++
        ["The previous attempt timed out. Simplify the approach or break the work into smaller steps."]
    else parts in
  let parts :=
    match FC.failed_gate ctx with
    | Some gate => parts ++ ["The '" +:+ gate +:+ "' gate rejected the output."]
    | None => parts
    end in
  str_join newline parts.

Module RepairEngine.
Definition try_skip (config : RepairConfig) (ctx : FailureContext) : option RepairDecision :=
  if negb (RC.allow_skip config) then None
  else if 0 <? FC.dependent_count ctx then None
  else if FC.is_compile_error ctx then None
  else if (FC.retry_count ctx =? 0)%N then None
  else Some (RD.mk
    (RA.SkipTask (FC.plan_id ctx) (FC.task_id ctx) "no dependents and not a compile error")
    RL.TaskRetry
    ("task " +:+ FC.task_id ctx +:+ " has no dependents and has been retried " +:+
     fmt_N (FC.retry_count ctx) +:+ " times; skipping")
    (StabilityMetric.mk (FC.total_tasks ctx - 1) (FC.total_tasks ctx))).

Definition try_task_retry (config : RepairConfig) (ctx : FailureContext) : option RepairDecision :=
  if (RC.max_task_retries config <=? FC.retry_count ctx)%N then None
  else
    let escalated_model :=
      if (0 <? FC.retry_count ctx)%N then RC.escalation_model config else None in
    Some (RD.mk
      (RA.RetryTask (FC.plan_id ctx) (FC.task_id ctx) (build_retry_context ctx) escalated_model)
      RL.TaskRetry
      ("retry " +:+ fmt_N (add32 (FC.retry_count ctx) 1) +:+ "/" +:+
       fmt_N (RC.max_task_retries config) +:+ " for task " +:+ FC.task_id ctx +:+ " (" +:+
       (match escalated_model with Some _ => "with model escalation" | None => "same model" end) +:+ ")")
      (StabilityMetric.mk (FC.total_tasks ctx) (FC.total_tasks ctx))).

(** The share of the plan that a replacement of the task and its dependents changes. *)
Definition affected_fraction (ctx : FailureContext) : F64.t :=
  if 0 <? FC.total_tasks ctx then
    F64.div (f64_of_usize (FC.dependent_count ctx + 1)) (f64_of_usize (FC.total_tasks ctx))
  else F64.of_Z 1.

Definition try_subgraph_replacement (config : RepairConfig) (ctx : FailureContext) :
    option RepairDecision :=
  let affected_count := FC.dependent_count ctx + 1 in
  let fraction := affected_fraction ctx in
  if F64.gt fraction (RC.subgraph_fraction_threshold config) then None
  else Some (RD.mk
    (RA.ReplaceSubgraph (FC.plan_id ctx) (FC.task_id ctx) [FC.task_id ctx] (FC.error_summary ctx))
    RL.SubgraphReplacement
    ("subgraph replacement for task " +:+ FC.task_id ctx +:+ " (" +:+ fmt_nat affected_count +:+
     " of " +:+ fmt_nat (FC.total_tasks ctx) +:+ " tasks affected, " +:+
     fmt_fixed 0 (F64.mul fraction (F64.of_Z 100)) +:+ "%)")
    (StabilityMetric.mk (FC.total_tasks ctx - affected_count) (FC.total_tasks ctx))).

Definition full_replan (ctx : FailureContext) : RepairDecision :=
  RD.mk
    (RA.FullReplan (FC.plan_id ctx)
       ("task " +:+ FC.task_id ctx +:+ " exhausted retries (" +:+ fmt_N (FC.retry_count ctx) +:+
        ") and subgraph too large"))
    RL.FullReplan
    ("full replan for plan " +:+ FC.plan_id ctx +:+ " after " +:+ fmt_N (FC.retry_count ctx) +:+
     " failed retries on task " +:+ FC.task_id ctx)
    (StabilityMetric.mk 0 (FC.total_tasks ctx)).

Definition repair (config : RepairConfig) (ctx : FailureContext) : RepairDecision :=
  match try_skip config ctx with
  | Some decision => decision
  | None =>
      match try_task_retry config ctx with
      | Some decision => decision
      | None =>
          match try_subgraph_replacement config ctx with
          | Some decision => decision
          | None => full_replan ctx
          end
      end
  end.
End RepairEngine.
Module RN := RepairEngine.

(** ** Requests collect the evidence *)

Definition blank (value : string) : bool := str_is_empty (trim value).

Lemma unique_flatten_snoc l x :
  unique_flatten (l ++ [x]) =
    if negb (blank x) && bool_decide (x ∉ unique_flatten l) then unique_flatten l ++ [x]
    else unique_flatten l.
Proof. unfold unique_flatten. by rewrite foldl_snoc. Qed.

(** Each value that is not blank once, in the order of their first occurrences. *)
Lemma unique_flatten_spec l :
  NoDup (unique_flatten l) ∧
  (∀ x, x ∈ unique_flatten l ↔ x ∈ l ∧ blank x = false) ∧
  unique_flatten l `sublist_of` l.
Proof.
  induction l as [|x l (IH1 & IH2 & IH3)] using rev_ind.
  - split_and!; [constructor|set_solver|constructor].
  - rewrite unique_flatten_snoc. destruct (blank x) eqn:Eb; simpl.
    + split_and!; [done| |by apply sublist_inserts_r].
      intros y. rewrite IH2, elem_of_app, list_elem_of_singleton. naive_solver congruence.
    + case_bool_decide as Hx.
      * split_and!; [apply NoDup_app; split_and!; [done|set_solver|apply NoDup_singleton]| |by apply sublist_app].
        intros y. rewrite !elem_of_app, IH2, list_elem_of_singleton. naive_solver.
      * split_and!; [done| |by apply sublist_inserts_r].
        apply IH2 in Hx as [Hx _].
        intros y. rewrite IH2, elem_of_app, list_elem_of_singleton. naive_solver.
Qed.

Lemma to_hex_length h : String.length (ContentHash.to_hex h) = 2 * length h.
Proof. induction h as [|b h IH]; [done|]. change (S (S (String.length (ContentHash.to_hex h))) = 2 * length (b :: h)). rewrite IH. simpl. lia. Qed.

(** A request names its plan and task and carries the distinct findings of its evidence; it asks for a
    human exactly when one of them mentions permissions or humans; its id is its token, 64 hexadecimal
    digits that do not depend on the time. *)
Lemma gate_failure_limit_spec `{!Blake3} {RT : RevisionText} plan task attempts evidence now :
  let r := PRR.gate_failure_limit plan task attempts evidence now in
  (∀ x, x ∈ PRR.blocking_findings r ↔
     blank x = false ∧ ∃ e, e ∈ evidence ∧ x ∈ PRE.blocking_findings e) ∧
  (∀ x, x ∈ PRR.failure_pattern_ids r ↔
     blank x = false ∧ ∃ e, e ∈ evidence ∧ x ∈ PRE.failure_pattern_ids e) ∧
  (PRR.disposition r = FailureDisposition.NeedsHuman ↔
     ∃ x, x ∈ PRR.blocking_findings r ∧ (str_contains "permission" x || str_contains "human" x) = true) ∧
  PRR.request_id r = "replan-" +:+ PRR.resume_token r ∧ String.length (PRR.resume_token r) = 64 ∧
  (∀ now', PRR.resume_token (PRR.gate_failure_limit plan task attempts evidence now') = PRR.resume_token r).
Proof.
  intros r. split_and!; try done.
  - intros x. simpl. destruct (unique_flatten_spec (evidence ≫= PRE.blocking_findings)) as (_ & -> & _).
    rewrite list_elem_of_bind. naive_solver.
  - intros x. simpl. destruct (unique_flatten_spec (evidence ≫= PRE.failure_pattern_ids)) as (_ & -> & _).
    rewrite list_elem_of_bind. naive_solver.
  - simpl. destruct (existsb _ _) eqn:E.
    + split; [|done]. intros _. apply existsb_exists in E as (x & Hx & Hc). exists x.
      by rewrite list_elem_of_In.
    + split; [done|]. intros (x & Hx & Hc). exfalso. apply not_true_iff_false in E. apply E.
      apply existsb_exists. exists x. by rewrite <- list_elem_of_In.
  - simpl. unfold revision_hash. rewrite to_hex_length, blake3_length. done.
Qed.

(** ** The engine selects the cheapest feasible repair *)

(** The task may be given up rather than repaired. *)
Definition may_skip (config : RepairConfig) (ctx : FailureContext) : bool :=
  RC.allow_skip config && (FC.dependent_count ctx =? 0) && negb (FC.is_compile_error ctx).

Definition skippable (config : RepairConfig) (ctx : FailureContext) : bool :=
  may_skip config ctx && negb (FC.retry_count ctx =? 0)%N.

(** The part of the plan a replacement changes is within the threshold. *)
Definition replaceable (config : RepairConfig) (ctx : FailureContext) : bool :=
  negb (F64.gt (RN.affected_fraction ctx) (RC.subgraph_fraction_threshold config)).

Definition can_retry (config : RepairConfig) (ctx : FailureContext) : bool :=
  (FC.retry_count ctx <? RC.max_task_retries config)%N.

Lemma repair_cases config ctx :
  RN.repair config ctx =
    if skippable config ctx then
      default (RN.full_replan ctx) (RN.try_skip config ctx)
    else if can_retry config ctx then default (RN.full_replan ctx) (RN.try_task_retry config ctx)
    else if replaceable config ctx then default (RN.full_replan ctx) (RN.try_subgraph_replacement config ctx)
    else RN.full_replan ctx.
Proof.
  unfold RN.repair, skippable, may_skip, can_retry, replaceable, RN.try_skip, RN.try_task_retry,
    RN.try_subgraph_replacement.
  destruct (RC.allow_skip config), (FC.is_compile_error ctx), (FC.dependent_count ctx) as [|d];
    cbn [negb andb Nat.ltb Nat.leb Nat.eqb];
    rewrite ?(N.ltb_antisym (RC.max_task_retries config));
    destruct (FC.retry_count ctx =? 0)%N, (RC.max_task_retries config <=? FC.retry_count ctx)%N,
      (F64.gt (RN.affected_fraction ctx) _); reflexivity.
Qed.

(** The retries the engine asks for while a task fails [n] times in a row. *)
Definition is_retry (a : RepairAction) : bool :=
  match a with RA.RetryTask _ _ _ _ => true | _ => false end.

Definition action_after (config : RepairConfig) (ctx : FailureContext) (failures : nat) : RepairAction :=
  RD.action (RN.repair config (FC.set_retry_count (N.of_nat failures) ctx)).

Definition retries (config : RepairConfig) (ctx : FailureContext) (n : nat) : nat :=
  length (List.filter is_retry (action_after config ctx <$> seq 0 n)).

Lemma is_retry_after config ctx k :
  is_retry (action_after config ctx k) =
    (N.of_nat k <? RC.max_task_retries config)%N && negb (may_skip config ctx && (0 <? k)).
Proof.
  unfold action_after. rewrite repair_cases. unfold skippable, can_retry.
  change (FC.retry_count (FC.set_retry_count _ ctx)) with (N.of_nat k).
  change (may_skip config (FC.set_retry_count _ ctx)) with (may_skip config ctx).
  unfold RN.try_skip, RN.try_task_retry, RN.try_subgraph_replacement.
  change (FC.retry_count (FC.set_retry_count _ ctx)) with (N.of_nat k).
  change (FC.dependent_count (FC.set_retry_count _ ctx)) with (FC.dependent_count ctx).
  change (FC.is_compile_error (FC.set_retry_count _ ctx)) with (FC.is_compile_error ctx).
  unfold may_skip. rewrite (N.ltb_antisym (RC.max_task_retries config)).
  destruct (RC.max_task_retries config <=? N.of_nat k)%N, (RC.allow_skip config),
    (FC.dependent_count ctx), (FC.is_compile_error ctx), k;
    cbn [negb andb Nat.ltb Nat.leb Nat.eqb N.eqb N.of_nat]; repeat case_match; done.
Qed.

Lemma filter_seq_count (p : nat → bool) bound n :
  (∀ k, p k = (k <? bound)) → length (List.filter p (seq 0 n)) = Nat.min n bound.
Proof.
  intros Hp. induction n as [|n IH]; [done|]. rewrite seq_S, List.filter_app, length_app, IH. cbn [List.filter].
  rewrite Hp, Nat.add_0_l. destruct (Nat.ltb_spec n bound); cbn [length]; lia.
Qed.

(** A task that cannot be skipped is retried up to the configured number of times, one that can be at
    most once. *)
Lemma retries_spec config ctx n :
  retries config ctx n =
    Nat.min n (if may_skip config ctx then Nat.min 1 (N.to_nat (RC.max_task_retries config))
               else N.to_nat (RC.max_task_retries config)).
Proof.
  unfold retries. rewrite <- (filter_seq_count (λ k, is_retry (action_after config ctx k))).
  - clear. induction (seq 0 n) as [|k l IH]; [done|].
    rewrite fmap_cons. cbn [List.filter]. destruct (is_retry _); cbn [length]; by rewrite IH.
  - intros k. rewrite is_retry_after. destruct (may_skip config ctx); rewrite ?andb_true_l, ?andb_false_l; lia.
Qed.

(** The repair engine is bounded and picks the first feasible level.  A task is skipped exactly when that is
    allowed, nothing depends on it, it compiled and it failed again after a retry; otherwise it is
    retried while retries are left, with the configured stronger model from the second retry on;
    otherwise the subgraph is replaced if it is within the threshold, and otherwise the plan is
    regenerated.  The decision is about the failed plan, its level is that of its action, and no repair changes more
    tasks than the plan has.  However often a task fails it is retried at most the configured number
    of times, and if it can be skipped at most once. *)
Theorem repair_decision config ctx :
  let d := RN.repair config ctx in
  match RD.action d with
  | RA.SkipTask _ task _ => skippable config ctx = true ∧ task = FC.task_id ctx
  | RA.RetryTask _ task _ model =>
      skippable config ctx = false ∧ (FC.retry_count ctx < RC.max_task_retries config)%N ∧
      task = FC.task_id ctx ∧
      model = if (0 <? FC.retry_count ctx)%N then RC.escalation_model config else None
  | RA.ReplaceSubgraph _ root ids hint =>
      skippable config ctx = false ∧ (RC.max_task_retries config ≤ FC.retry_count ctx)%N ∧
      replaceable config ctx = true ∧ root = FC.task_id ctx ∧ ids = [root] ∧ hint = FC.error_summary ctx
  | RA.FullReplan _ _ =>
      skippable config ctx = false ∧ (RC.max_task_retries config ≤ FC.retry_count ctx)%N ∧
      replaceable config ctx = false
  end ∧
  RA.plan_id (RD.action d) = FC.plan_id ctx ∧ RD.level d = RA.level (RD.action d) ∧
  StabilityMetric.unchanged_tasks (RD.expected_stability d) ≤ FC.total_tasks ctx ∧
  StabilityMetric.total_tasks (RD.expected_stability d) = FC.total_tasks ctx ∧
  (∀ n, retries config ctx n ≤ N.to_nat (RC.max_task_retries config) ∧
        (may_skip config ctx = true → retries config ctx n ≤ 1)).
Proof.
  assert (∀ n, retries config ctx n ≤ N.to_nat (RC.max_task_retries config) ∧
        (may_skip config ctx = true → retries config ctx n ≤ 1)) as Hn.
  { intros n. rewrite retries_spec. destruct (may_skip config ctx); split; try done; lia. }
  split; [|split; [|split; [|split; [|split; [|exact Hn]]]]]; clear Hn;
    unfold RN.repair, RN.try_skip, RN.try_task_retry, RN.try_subgraph_replacement, skippable, may_skip,
      replaceable;
    destruct (RC.allow_skip config), (FC.dependent_count ctx) as [|d], (FC.is_compile_error ctx);
    cbn [negb andb Nat.ltb Nat.leb Nat.eqb];
    try (destruct (FC.retry_count ctx =? 0)%N eqn:E0);
    try (destruct (RC.max_task_retries config <=? FC.retry_count ctx)%N eqn:Em);
    try (destruct (F64.gt (RN.affected_fraction ctx) (RC.subgraph_fraction_threshold config)) eqn:Eg);
    simpl; split_and?; try done; lia.
Qed.

(** ** Where the engine departs from its configuration *)

(** The number of subgraph replacements is documented to be limited; the limit is read nowhere. *)
Lemma subgraph_attempts_unlimited a b threshold retries_left escalation skip :
  RN.repair (RC.mk retries_left a threshold escalation skip) =
  RN.repair (RC.mk retries_left b threshold escalation skip).
Proof. reflexivity. Qed.

(** A task that may be skipped is skipped at its second failure, however many retries are configured. *)
Lemma skipped_before_retries_are_exhausted :
  let config := RC.mk 5 1 (F64.lit 1 2) None true in
  let ctx := FC.set_retry_count 1 (FC.new "plan" "task") in
  RA.as_replan_strategy (RD.action (RN.repair config ctx)) = RS.Skip.
Proof. reflexivity. Qed.
