(* ===== verification/PostMerge.v ===== *)
(** * Regression checks after a merge (crates/roko-orchestrator/src/post_merge.rs)

    The verdict on a merged plan, the history of checks and what is to be reverted.  The
    history behind the mutex is the value the lock protects. *)

From S2P Require Import Prelude PlanState.

(** ** Data *)

Module PostMergeResult.
Inductive t : Type :=
  | Clean
  | RegressionDetected (failing_tests : list string) (reverted : bool).

Definition is_clean (r : t) : bool := match r with Clean => true | _ => false end.
Definition is_regression (r : t) : bool := match r with RegressionDetected _ _ => true | _ => false end.
End PostMergeResult.
Abbreviation PostMergeResult := PostMergeResult.t.
Module PMR := PostMergeResult.

Module PostMergeCheck.
Record t : Type := mk { plan_id : string; merged_at_ms : Z; result : PostMergeResult }.
End PostMergeCheck.
Abbreviation PostMergeCheck := PostMergeCheck.t.
Module PMC := PostMergeCheck.

Module PostMergeFollowUp.
Record t : Type := mk { plan_id : string; should_revert : bool; failing_tests : list string }.

Definition from_result (plan_id : string) (result : PostMergeResult) : t :=
  match result with
  | PMR.Clean => mk plan_id false []
  | PMR.RegressionDetected failing_tests _ => mk plan_id true failing_tests
  end.

Definition needs_revert (f : t) : bool := should_revert f.
End PostMergeFollowUp.
Abbreviation PostMergeFollowUp := PostMergeFollowUp.t.
Module PMF := PostMergeFollowUp.

(** ** The runner *)

Module PostMergeRunner.
Record t : Type := mk { history : gmap string PostMergeCheck }.

Definition new : t := mk ∅.

(** How a failed verdict is named. *)
Definition failing_test (v : Verdict) : string :=
  if str_is_empty (Verdict.reason v) then
    Verdict.gate v +:+ " (score=" +:+ fmt_fixed 2 (Verdict.score v) +:+ ")"
  else Verdict.gate v +:+ ": " +:+ Verdict.reason v.

Definition check_regression (gate_results : list Verdict) : PostMergeResult :=
  let failing := failing_test <$> List.filter (λ v, negb (Verdict.passed v)) gate_results in
  match failing with
  | [] => PMR.Clean
  | _ => PMR.RegressionDetected failing false
  end.

Definition run_and_record (s : t) (plan_id : string) (merged_at_ms : Z) (gate_results : list Verdict) :
    t * PostMergeCheck :=
  let result := check_regression gate_results in
  let check := PMC.mk plan_id merged_at_ms result in
  (mk (<[plan_id := check]> (history s)), check).

Definition run_record_and_follow_up (s : t) (plan_id : string) (merged_at_ms : Z)
    (gate_results : list Verdict) : t * (PostMergeCheck * PostMergeFollowUp) :=
  let '(s', check) := run_and_record s plan_id merged_at_ms gate_results in
  let follow_up := PMF.from_result plan_id (PMC.result check) in
  (s', (check, follow_up)).

Definition get_check (s : t) (plan_id : string) : option PostMergeCheck := history s !! plan_id.

Definition follow_up_for (s : t) (plan_id : string) : option PostMergeFollowUp :=
  (λ check, PMF.from_result (PMC.plan_id check) (PMC.result check)) <$> get_check s plan_id.

Definition history_len (s : t) : nat := size (history s).

Definition regressions (s : t) : list PostMergeCheck :=
  List.filter (λ c, PMR.is_regression (PMC.result c)) (btree_values (history s)).

Definition clean_merges (s : t) : list PostMergeCheck :=
  List.filter (λ c, PMR.is_clean (PMC.result c)) (btree_values (history s)).

Definition mark_reverted (s : t) (plan_id : string) : t * bool :=
  match history s !! plan_id with
  | None => (s, false)
  | Some check =>
      match PMC.result check with
      | PMR.RegressionDetected failing _ =>
          (mk (<[plan_id := PMC.mk (PMC.plan_id check) (PMC.merged_at_ms check)
                               (PMR.RegressionDetected failing true)]> (history s)), true)
      | PMR.Clean => (s, false)
      end
  end.

(** The test of an entry in [unresolved_regressions]. *)
Definition unresolved (kc : string * PostMergeCheck) : option string :=
  match PMC.result kc.2 with
  | PMR.RegressionDetected _ false => Some kc.1
  | _ => None
  end.

Definition unresolved_regressions (s : t) : list string := omap unresolved (btree_iter (history s)).
End PostMergeRunner.
Abbreviation PostMergeRunner := PostMergeRunner.t.
Module PM := PostMergeRunner.

(** ** The history answers for the last check *)

Inductive merge_op : Type :=
  | Check (plan_id : string) (merged_at_ms : Z) (gate_results : list Verdict)
  | Revert (plan_id : string).

Definition apply_merge_op (s : PostMergeRunner) (op : merge_op) : PostMergeRunner :=
  match op with
  | Check id at_ms verdicts => (PM.run_and_record s id at_ms verdicts).1
  | Revert id => (PM.mark_reverted s id).1
  end.

Definition run_checks (ops : list merge_op) : PostMergeRunner := foldl apply_merge_op PM.new ops.

(** The gates that failed in the last check of a plan, unless it was reverted since. *)
Definition standing_op (id : string) (open : option (list Verdict * bool)) (op : merge_op) :
    option (list Verdict * bool) :=
  match op with
  | Check id' _ verdicts => if decide (id' = id) then Some (verdicts, false) else open
  | Revert id' => if decide (id' = id) then (λ o, (o.1, true)) <$> open else open
  end.

Definition last_verdicts (id : string) (ops : list merge_op) : option (list Verdict * bool) :=
  foldl (standing_op id) None ops.

Definition any_failed (verdicts : list Verdict) : bool :=
  existsb (λ v, negb (Verdict.passed v)) verdicts.

Lemma check_regression_spec verdicts :
  PM.check_regression verdicts =
    if any_failed verdicts then
      PMR.RegressionDetected (PM.failing_test <$> List.filter (λ v, negb (Verdict.passed v)) verdicts) false
    else PMR.Clean.
Proof.
  unfold PM.check_regression, any_failed. induction verdicts as [|v l IH]; [done|].
  cbn [List.filter existsb]. by destruct (negb (Verdict.passed v)).
Qed.

(** What is stored of a plan after a history. *)
Definition result_of (o : list Verdict * bool) : PostMergeResult :=
  match PM.check_regression o.1 with
  | PMR.RegressionDetected failing _ => PMR.RegressionDetected failing o.2
  | PMR.Clean => PMR.Clean
  end.

Lemma stored_result ops id :
  PMC.result <$> PM.history (run_checks ops) !! id = result_of <$> last_verdicts id ops.
Proof.
  unfold run_checks, last_verdicts. induction ops as [|op ops IH] using rev_ind; [done|].
  rewrite !foldl_snoc. set (s := foldl apply_merge_op PM.new ops) in *.
  destruct op as [id' at_ms verdicts|id']; simpl.
  - case_decide as Hd; [subst; rewrite lookup_insert_eq|rewrite lookup_insert_ne by done]; simpl; [|done].
    unfold result_of. simpl. rewrite check_regression_spec. by destruct (any_failed verdicts).
  - unfold PM.mark_reverted. case_decide as Hd; subst.
    + destruct (PM.history s !! id) as [check|] eqn:E; simpl in *;
        destruct (foldl (standing_op id) None ops) as [o|]; try discriminate; [|by rewrite E].
      simpl in IH. injection IH as IH. rewrite IH.
      destruct (result_of o) as [|failing r] eqn:Er; simpl;
        [rewrite E; simpl; rewrite IH|rewrite lookup_insert_eq; simpl];
        unfold result_of in *; simpl; destruct (PM.check_regression o.1); congruence.
    + repeat case_match; simpl; rewrite ?lookup_insert_ne by done; done.
Qed.

Lemma plan_of_check ops id c : PM.history (run_checks ops) !! id = Some c → PMC.plan_id c = id.
Proof.
  unfold run_checks. revert c. induction ops as [|op ops IH] using rev_ind; [done|]. intros c.
  rewrite !foldl_snoc. set (s := foldl apply_merge_op PM.new ops) in *.
  destruct op as [id' at_ms verdicts|id']; simpl.
  - destruct (decide (id' = id)) as [->|]; [rewrite lookup_insert_eq; by intros [= <-]|].
    rewrite lookup_insert_ne by done. apply IH.
  - unfold PM.mark_reverted. repeat case_match; simpl; try apply IH. destruct (decide (id' = id)) as [->|].
    + rewrite lookup_insert_eq. intros [= <-]. simpl. by apply IH.
    + rewrite lookup_insert_ne by done. apply IH.
Qed.

Lemma result_of_spec o :
  PMR.is_regression (result_of o) = any_failed o.1 ∧
  (result_of o = PMR.Clean ↔ any_failed o.1 = false).
Proof.
  unfold result_of. rewrite check_regression_spec. by destruct o as [vs []]; simpl; destruct (any_failed vs).
Qed.

Lemma unresolved_sublist s :
  PM.unresolved_regressions s `sublist_of` btree_keys (PM.history s).
Proof.
  rewrite <- btree_iter_fst. unfold PM.unresolved_regressions.
  induction (btree_iter (PM.history s)) as [|[k c] l IH]; [done|]. cbn [omap list_omap fst fmap list_fmap].
  unfold PM.unresolved at 1. simpl. destruct (PMC.result c) as [|? []]; by constructor.
Qed.

Lemma elem_of_checks s p c :
  c ∈ List.filter (λ c, p (PMC.result c)) (btree_values (PM.history s)) ↔
  (∃ k, PM.history s !! k = Some c) ∧ p (PMC.result c) = true.
Proof.
  rewrite list_elem_of_In, filter_In, <- list_elem_of_In. unfold btree_values. rewrite list_elem_of_fmap.
  split; intros [H1 H2]; (split; [|done]).
  - destruct H1 as ([k c'] & -> & H). exists k. by apply elem_of_btree_iter.
  - destruct H1 as [k H]. exists (k, c). split; [done|]. by apply elem_of_btree_iter.
Qed.

Lemma checks_of_plan ops id p c :
  let s := run_checks ops in
  c ∈ List.filter (λ c, p (PMC.result c)) (btree_values (PM.history s)) ∧ PMC.plan_id c = id ↔
  PM.get_check s id = Some c ∧ from_option (λ o, p (result_of o)) false (last_verdicts id ops) = true.
Proof.
  intros s. rewrite elem_of_checks. unfold PM.get_check. pose proof (stored_result ops id) as Hr. fold s in Hr.
  split.
  - intros [[[k Hk] Hp] <-]. pose proof (plan_of_check ops k c Hk) as E. rewrite E in *.
    split; [done|]. rewrite Hk in Hr. simpl in Hr. destruct (last_verdicts k ops); simplify_eq/=. congruence.
  - intros [Hk Hp]. split; [|by eapply plan_of_check]. split; [eauto|].
    rewrite Hk in Hr. simpl in Hr. destruct (last_verdicts id ops); simplify_eq/=. congruence.
Qed.

(** The history of merges.  After any checks and reverts, a plan is listed as an unresolved
    regression exactly when its last check had a failing gate and it was not marked reverted since,
    each plan once and in order; a regression is a plan whose last check failed, a clean merge one whose last
    check did not; the follow-up of a plan that was checked asks for a revert exactly when a gate of its last
    check failed, naming all that failed; and marking a revert succeeds exactly then. *)
Theorem post_merge_history ops id :
  let s := run_checks ops in
  let last := last_verdicts id ops in
  let failing verdicts := PM.failing_test <$> List.filter (λ v, negb (Verdict.passed v)) verdicts in
  (id ∈ PM.unresolved_regressions s ↔
     ∃ verdicts, last = Some (verdicts, false) ∧ any_failed verdicts = true) ∧
  PM.unresolved_regressions s `sublist_of` btree_keys (PM.history s) ∧
  NoDup (PM.unresolved_regressions s) ∧
  (∀ c, c ∈ PM.regressions s ∧ PMC.plan_id c = id ↔
     PM.get_check s id = Some c ∧ ∃ o, last = Some o ∧ any_failed o.1 = true) ∧
  (∀ c, c ∈ PM.clean_merges s ∧ PMC.plan_id c = id ↔
     PM.get_check s id = Some c ∧ ∃ o, last = Some o ∧ any_failed o.1 = false) ∧
  PM.follow_up_for s id =
    (λ o, PMF.mk id (any_failed o.1) (failing o.1)) <$> last ∧
  ((PM.mark_reverted s id).2 = true ↔ ∃ o, last = Some o ∧ any_failed o.1 = true).
Proof.
  intros s last failing. pose proof (stored_result ops id) as Hr. fold s in Hr. fold last in Hr.
  assert (∀ o, PMR.is_clean (result_of o) = negb (any_failed o.1)) as Hclean.
  { intros o. destruct (result_of_spec o) as [<- _]. by destruct (result_of o). }
  split_and!.
  - unfold PM.unresolved_regressions. rewrite list_elem_of_omap. split.
    + intros ([k c] & Hk & Hu). apply elem_of_btree_iter in Hk. unfold PM.unresolved in Hu. simpl in Hu.
      destruct (PMC.result c) as [|f []] eqn:Ec; try done. injection Hu as ->.
      rewrite Hk in Hr. simpl in Hr. destruct last as [[vs r]|]; simplify_eq/=. exists vs.
      unfold result_of in Hr. rewrite check_regression_spec in Hr. simpl in Hr.
      destruct (any_failed vs); [|congruence]. split; [congruence|done].
    + intros (vs & Hl & Hf). rewrite Hl in Hr. simpl in Hr. destruct (PM.history s !! id) as [c|] eqn:Ec; [|done].
      simpl in Hr. injection Hr as Hr. exists (id, c). split; [by apply elem_of_btree_iter|].
      unfold PM.unresolved. simpl. rewrite Hr. unfold result_of. rewrite check_regression_spec. simpl. by rewrite Hf.
  - apply unresolved_sublist.
  - exact (sublist_NoDup _ _ (NoDup_btree_keys (PM.history s)) (unresolved_sublist s)).
  - intros c. etrans; [exact (checks_of_plan ops id PMR.is_regression c)|]. fold s last.
    destruct last as [o|]; simpl; [rewrite (proj1 (result_of_spec o))|]; naive_solver.
  - intros c. etrans; [exact (checks_of_plan ops id PMR.is_clean c)|]. fold s last.
    destruct last as [o|]; simpl; [rewrite Hclean, negb_true_iff|]; naive_solver.
  - unfold PM.follow_up_for, PM.get_check. destruct (PM.history s !! id) as [c|] eqn:Ec; simpl in Hr;
      destruct last as [o|]; try done. simpl in *. injection Hr as Hr.
    rewrite (plan_of_check ops id c Ec), Hr. unfold result_of, PMF.from_result. rewrite check_regression_spec.
    destruct (any_failed (o.1)) eqn:Ea; [done|]. do 2 f_equal. unfold failing. clear -Ea.
    unfold any_failed in Ea. induction (o.1) as [|v l IH]; [done|]. cbn [existsb List.filter] in *.
    apply orb_false_iff in Ea as [-> Ea]. by apply IH.
  - unfold PM.mark_reverted. destruct (PM.history s !! id) as [c|] eqn:Ec; simpl in Hr; destruct last as [o|]; try done.
    + simpl in *. injection Hr as Hr. rewrite Hr. destruct (result_of_spec o) as [H _].
      destruct (result_of o); simpl in *; naive_solver.
    + naive_solver.
Qed.

(** ** Where the follow-up departs from the history *)

(** After the revert the follow-up asks for it again. *)
Lemma reverted_twice :
  let s := run_checks [Check "p" 0 [Verdict.fail "tests" "broken"]; Revert "p"] in
  PM.unresolved_regressions s = [] ∧
  PM.follow_up_for s "p" = Some (PMF.mk "p" true ["tests: broken"]).
Proof. by vm_compute. Qed.
