(* ===== verification/Text.v ===== *)
(** * Text of the standard library

    What the conductor calls of Rust's strings and numbers: [str::trim] with Unicode's
    white space, slices at a byte offset, which panic inside a character, [f64::from_str]
    and the shortest [Display] of an [f64].  A string is its UTF-8 bytes. *)

From Stdlib Require Import SpecFloat.
From S2P Require Import Prelude Floats.

(** ** Bytes of a string *)

Fixpoint codes (s : string) : list N :=
  match s with
  | EmptyString => []
  | String a s' => Ascii.N_of_ascii a :: codes s'
  end.

Fixpoint of_codes (l : list N) : string :=
  match l with
  | [] => EmptyString
  | b :: l' => String (Ascii.ascii_of_N b) (of_codes l')
  end.

Lemma of_codes_codes s : of_codes (codes s) = s.
Proof. induction s as [|a s IH]; simpl; [done|]. by rewrite IH, Ascii.ascii_N_embedding. Qed.

Lemma codes_of_codes l : Forall (λ b, (b < 256)%N) l → codes (of_codes l) = l.
Proof.
  induction 1 as [|b l Hb _ IH]; [done|]. cbn. rewrite IH. f_equal. by apply Ascii.N_ascii_embedding.
Qed.

Lemma length_codes s : length (codes s) = String.length s.
Proof. induction s as [|a s IH]; simpl; [done|]. by rewrite IH. Qed.

#[export] Instance codes_inj : Inj (=) (=) codes.
Proof. intros s t H. by rewrite <- (of_codes_codes s), H, of_codes_codes. Qed.

Lemma codes_app s t : codes (s +:+ t) = codes s ++ codes t.
Proof. induction s as [|a s IH]; [done|]. rewrite str_app_cons. cbn [codes app]. by rewrite IH. Qed.

(** ** White space *)

(** The length in bytes of the white space character at the head, or 0. *)
Definition ws_len (l : list N) : nat :=
  match l with
  | [] => 0
  | b1 :: r =>
      if ((9 <=? b1)%N && (b1 <=? 13)%N) || (b1 =? 32)%N then 1%nat
      else
        match r with
        | [] => 0
        | b2 :: r' =>
            if (b1 =? 194)%N && ((b2 =? 133)%N || (b2 =? 160)%N) then 2%nat
            else
              match r' with
              | [] => 0
              | b3 :: _ =>
                  if ((b1 =? 225)%N && (b2 =? 154)%N && (b3 =? 128)%N)
                  || ((b1 =? 226)%N && (b2 =? 128)%N
                      && ((128 <=? b3)%N && (b3 <=? 138)%N
                          || (b3 =? 168)%N || (b3 =? 169)%N || (b3 =? 175)%N))
                  || ((b1 =? 226)%N && (b2 =? 129)%N && (b3 =? 159)%N)
                  || ((b1 =? 227)%N && (b2 =? 128)%N && (b3 =? 128)%N)
                  then 3%nat else 0%nat
              end
        end
  end.

(** The same of the last character; its bytes are given in reverse. *)
Definition ws_len_rev (l : list N) : nat :=
  let found (n : nat) := bool_decide (n ≤ length l) && (ws_len (reverse (take n l)) =? n)%nat in
  if found 1%nat then 1%nat else if found 2%nat then 2%nat else if found 3%nat then 3%nat else 0%nat.

Fixpoint strip (len : list N → nat) (fuel : nat) (l : list N) : list N :=
  match fuel with
  | O => l
  | S fuel' => match len l with O => l | n => strip len fuel' (drop n l) end
  end.

Definition trim_codes (l : list N) : list N :=
  let l := strip ws_len (length l) l in
  reverse (strip ws_len_rev (length l) (reverse l)).

(** [s.trim()] *)
Definition utf8_trim (s : string) : string := of_codes (trim_codes (codes s)).

Example utf8_trim_examples :
  utf8_trim "  a b  " = "a b" ∧ utf8_trim "   " = "" ∧
  utf8_trim (of_codes [194; 160; 97; 226; 128; 175; 10]%N) = "a" ∧
  utf8_trim (of_codes [195; 160]%N) = of_codes [195; 160]%N.
Proof. vm_compute. done. Qed.

(** A white space character is one to three bytes long, all of them present. *)
Lemma ws_len_le l : (ws_len l ≤ length l)%nat ∧ (ws_len l ≤ 3)%nat.
Proof.
  destruct l as [|b1 [|b2 [|b3 l]]]; unfold ws_len; repeat case_match; simpl; lia.
Qed.

Lemma ws_len_rev_le l : (ws_len_rev l ≤ length l)%nat.
Proof.
  unfold ws_len_rev. repeat case_match; try lia;
    apply andb_true_iff in H as [Hle%bool_decide_eq_true _] ||
    apply andb_true_iff in H0 as [Hle%bool_decide_eq_true _] ||
    apply andb_true_iff in H1 as [Hle%bool_decide_eq_true _]; lia.
Qed.

Section strip.
Context (len : list N → nat) (len_le : ∀ l, (len l ≤ length l)%nat).

(** With the length as fuel, what is left starts with no white space. *)
Lemma strip_done fuel l : (length l ≤ fuel)%nat → len (strip len fuel l) = 0%nat.
Proof using len_le.
  revert l. induction fuel as [|fuel IH]; intros l Hl; cbn [strip].
  - pose proof (len_le l). lia.
  - destruct (len l) as [|n] eqn:E; [done|].
    apply IH. rewrite length_drop. pose proof (len_le l). lia.
Qed.

Lemma strip_suffix fuel l : ∃ p, l = p ++ strip len fuel l.
Proof using Type.
  revert l. induction fuel as [|fuel IH]; intros l; cbn [strip]; [by exists []|].
  destruct (len l) as [|n] eqn:E; [by exists []|].
  destruct (IH (drop (S n) l)) as [p Hp]. exists (take (S n) l ++ p).
  by rewrite <- app_assoc, <- Hp, take_drop.
Qed.

Lemma strip_fixed fuel l : len l = 0%nat → strip len fuel l = l.
Proof using Type. intros H. destruct fuel; [done|]. cbn [strip]. by rewrite H. Qed.
End strip.

(** What is trimmed is a part of the text. *)
Lemma trim_codes_infix l : ∃ p q, l = p ++ trim_codes l ++ q.
Proof.
  unfold trim_codes.
  destruct (strip_suffix ws_len (length l) l) as [p Hp].
  set (m := strip ws_len (length l) l) in *.
  destruct (strip_suffix ws_len_rev (length m) (reverse m)) as [q Hq].
  exists p, (reverse q). rewrite Hp at 1. f_equal.
  apply (f_equal reverse) in Hq. rewrite reverse_app, reverse_involutive in Hq. done.
Qed.

(** ** Slices *)

(** [s[..n]]: panics when [n] is past the end or inside a character. *)
Definition str_prefix (n : nat) (s : string) : option string :=
  let l := codes s in
  if (length l <? n)%nat then None
  else
    match l !! n with
    | Some b => if (128 <=? b)%N && (b <? 192)%N then None else Some (of_codes (take n l))
    | None => Some s
    end.

Lemma str_prefix_ascii n s :
  (n ≤ String.length s)%nat → (∀ b, codes s !! n = Some b → (b < 128)%N) →
  str_prefix n s = Some (of_codes (take n (codes s))).
Proof.
  rewrite <- length_codes. intros Hn Hb. unfold str_prefix.
  destruct (Nat.ltb_spec (length (codes s)) n) as [|_]; [lia|].
  destruct (codes s !! n) as [b|] eqn:E.
  - specialize (Hb b eq_refl). destruct (N.leb_spec 128 b) as [|_]; [lia|]. done.
  - apply lookup_ge_None in E. rewrite take_ge by lia. by rewrite of_codes_codes.
Qed.

(** ** Numbers *)

Definition is_digit (b : N) : bool := (48 <=? b)%N && (b <=? 57)%N.

Fixpoint span_digits (l : list N) : list N * list N :=
  match l with
  | [] => ([], [])
  | b :: l' =>
      if is_digit b then let '(d, r) := span_digits l' in ((b - 48)%N :: d, r) else ([], l)
  end.

Definition digits_val (l : list N) : N := foldl (λ v d, 10 * v + d)%N 0%N l.

(** The optional sign at the head. *)
Definition take_sign (l : list N) : bool * list N :=
  match l with
  | b :: l' => if (b =? 45)%N then (true, l') else if (b =? 43)%N then (false, l') else (false, l)
  | [] => (false, [])
  end.

(** The binary64 nearest to [m * 10^e], ties to even. *)
Definition dec_to_f64 (negative : bool) (m : N) (e : Z) : F64.t :=
  match m with
  | N0 => S754_zero negative
  | Npos m =>
      match e with
      | Zneg e' =>
          let '(q, e', l) := SFdiv_core_binary 53 1024 (Zpos m) 0 (10 ^ Zpos e') 0 in
          binary_round_aux 53 1024 negative q e' l
      | _ =>
          let v := (Zpos m * 10 ^ e)%Z in
          binary_normalize 53 1024 (if negative then - v else v)%Z 0 negative
      end
  end.

Definition parse_exponent (l : list N) : option Z :=
  match l with
  | [] => Some 0%Z
  | b :: l' =>
      if (b =? 101)%N || (b =? 69)%N then
        let '(negative, l') := take_sign l' in
        let '(d, rest) := span_digits l' in
        match d, rest with
        | _ :: _, [] => Some (if negative then - Z.of_N (digits_val d) else Z.of_N (digits_val d))%Z
        | _, _ => None
        end
      else None
  end.

Definition parse_number (negative : bool) (l : list N) : option F64.t :=
  let '(ip, rest) := span_digits l in
  let '(fp, rest) :=
    match rest with
    | b :: rest' => if (b =? 46)%N then span_digits rest' else ([], rest)
    | [] => ([], rest)
    end in
  match ip ++ fp with
  | [] => None
  | ds =>
      match parse_exponent rest with
      | Some e => Some (dec_to_f64 negative (digits_val ds) (e - Z.of_nat (length fp)))
      | None => None
      end
  end.

(** [s.parse::<f64>().ok()] *)
Definition parse_f64 (s : string) : option F64.t :=
  let '(negative, l) := take_sign (codes s) in
  let word := str_to_ascii_lowercase (of_codes l) in
  if string_eqb word "inf" || string_eqb word "infinity" then Some (S754_infinity negative)
  else if string_eqb word "nan" then Some S754_nan
  else parse_number negative l.

Example parse_f64_examples :
  parse_f64 "0.3" = Some (F64.lit 3 10) ∧ parse_f64 "+12" = Some (F64.of_Z 12) ∧
  parse_f64 "-.5e1" = Some (F64.of_Z (-5)) ∧ parse_f64 "5." = Some (F64.of_Z 5) ∧
  parse_f64 "" = None ∧ parse_f64 "." = None ∧ parse_f64 "1e" = None ∧ parse_f64 " 1" = None ∧
  parse_f64 "-Infinity" = Some (S754_infinity true) ∧ parse_f64 "1e400" = Some (S754_infinity false) ∧
  parse_f64 "2.5e-1x" = None ∧ parse_f64 "9007199254740993" = Some (F64.of_Z 9007199254740992).
Proof. vm_compute. done. Qed.

(** [f.to_string()]: the shortest digits that read back as [f]; of the two neighbours the
    nearer, the larger on a tie.  [k] is the number of digits after the point. *)
Definition dec_at (k : Z) (q : N) : F64.t := dec_to_f64 false q (- k).

Fixpoint shortest (fuel : nat) (f : F64.t) (num den : N) (k : Z) : N * Z :=
  let scaled :=
    match k with Zneg k' => (num, den * 10 ^ Npos k')%N | _ => (num * 10 ^ Z.to_N k, den)%N end in
  let q := (scaled.1 / scaled.2)%N in
  let r := (2 * (scaled.1 mod scaled.2))%N in
  let low := SFeqb (dec_at k q) f in
  let high := SFeqb (dec_at k (q + 1)) f in
  match fuel with
  | O => (q, k)
  | S fuel' =>
      if low && high then (if (scaled.2 <=? r)%N then q + 1 else q, k)%N
      else if low then (q, k)
      else if high then (q + 1, k)%N
      else shortest fuel' f num den (k + 1)
  end.

Definition print_decimal (q : N) (k : Z) : string :=
  match k with
  | Zpos k' =>
      let unit := (10 ^ Npos k')%N in
      fmt_N (q / unit) +:+ "." +:+ pad_digits (Pos.to_nat k') (fmt_N (q mod unit))
  | _ => fmt_N (q * 10 ^ Z.to_N (- k))
  end.

Definition f64_to_string (f : F64.t) : string :=
  match f with
  | S754_nan => "NaN"
  | S754_infinity s => if s then "-inf" else "inf"
  | S754_zero s => if s then "-0" else "0"
  | S754_finite s m e =>
      let '(num, den) :=
        match e with Zneg e' => (Npos m, 2 ^ Npos e')%N | _ => (N.shiftl (Npos m) (Z.to_N e), 1%N) end in
      let start := (- Z.of_nat (String.length (fmt_N (num / den))))%Z in
      let '(q, k) := shortest 1200 (S754_finite false m e) num den start in
      (if s then "-" else "") +:+ print_decimal q k
  end.

Example f64_to_string_examples :
  f64_to_string (F64.lit 8 10) = "0.8" ∧ f64_to_string (F64.of_Z 1) = "1" ∧
  f64_to_string (F64.lit 1 3) = "0.3333333333333333" ∧ f64_to_string (F64.of_Z (-1200)) = "-1200" ∧
  f64_to_string (F64.add (F64.lit 1 10) (F64.lit 2 10)) = "0.30000000000000004".
Proof. vm_compute. done. Qed.
