(* ===== verification/Body.v ===== *)
(** * Kinds and bodies of signals (roko-core/src/kind.rs and body.rs)

    The kind of a signal, simple or compound, and its payload, with the base64 that
    carries bytes through JSON.  JSON values and the encoding serde derives for a body are
    parameters. *)

From Stdlib Require Import Strings.Byte.
From S2P Require Import Prelude Bytes EventLog Text.

(** ** Kinds *)

Module Kind.
Inductive t : Type :=
  | ProcessSpawn | ProcessExit | AgentMessage | AgentOutput | TokenUsage | ApprovalRequested
  | GateVerdict | TestResult | CompileDiagnostic
  | Task | Plan | PlanPhase
  | PromptSection | ContextPack | Prompt
  | RouterChoice | RouterFeedback
  | Episode | PlaybookRule | Skill
  | Compound (parts : list t)
  | Metric | ExperimentResult | ToolInvocation | ToolHealthDegraded
  | Insight | Pheromone | Bounty | Transaction | Service | Prediction
  | Custom (s : string).

(** An induction principle that reaches the parts of a compound kind. *)
Lemma t_nested_ind (P : t → Prop) (Hcompound : ∀ l, Forall P l → P (Compound l))
    (Hsimple : ∀ k, (∀ l, k ≠ Compound l) → P k) (k : t) : P k.
Proof.
  revert k. refine (fix go (k : t) : P k := _).
  destruct k as [| | | | | | | | | | | | | | | | | | | |parts| | | | | | | | | | |s];
    try (apply Hsimple; intros ?; discriminate).
  apply Hcompound. induction parts as [|x l IH]; [constructor|].
  constructor; [exact (go x)|exact IH].
Qed.

#[global] Instance t_eq_dec : EqDecision t.
Proof.
  unfold EqDecision. fix go 1. intros k1 k2.
  destruct k1 as [| | | | | | | | | | | | | | | | | | | |l1| | | | | | | | | | |s1],
    k2 as [| | | | | | | | | | | | | | | | | | | |l2| | | | | | | | | | |s2];
    try (right; discriminate); try (left; reflexivity).
  - assert (Decision (l1 = l2)) as [->|Hne].
    { revert l2. induction l1 as [|x l1 IH]; intros [|y l2]; try (right; discriminate).
      - left. reflexivity.
      - destruct (go x y) as [->|Hne]; [|right; congruence].
        destruct (IH l2) as [->|Hne]; [left; reflexivity|right; congruence]. }
    + left. reflexivity.
    + right. congruence.
  - destruct (decide (s1 = s2)) as [->|Hne]; [left; reflexivity|right; congruence].
Defined.

Definition as_str (k : t) : string :=
  match k with
  | ProcessSpawn => "process_spawn"
  | ProcessExit => "process_exit"
  | AgentMessage => "agent_message"
  | AgentOutput => "agent_output"
  | TokenUsage => "token_usage"
  | ApprovalRequested => "approval_requested"
  | GateVerdict => "gate_verdict"
  | TestResult => "test_result"
  | CompileDiagnostic => "compile_diagnostic"
  | Task => "task"
  | Plan => "plan"
  | PlanPhase => "plan_phase"
  | PromptSection => "prompt_section"
  | ContextPack => "context_pack"
  | Prompt => "prompt"
  | RouterChoice => "router_choice"
  | RouterFeedback => "router_feedback"
  | Episode => "episode"
  | PlaybookRule => "playbook_rule"
  | Skill => "skill"
  | Compound _ => "compound"
  | Metric => "metric"
  | ExperimentResult => "experiment_result"
  | ToolInvocation => "tool_invocation"
  | ToolHealthDegraded => "tool_health_degraded"
  | Insight => "insight"
  | Pheromone => "pheromone"
  | Bounty => "bounty"
  | Transaction => "transaction"
  | Service => "service"
  | Prediction => "prediction"
  | Custom s => s
  end.

Definition compound (parts : list t) : t := Compound parts.

Definition has_part (parts : list t) (k : t) : bool := bool_decide (k ∈ parts).

Definition matches (self other : t) : bool :=
  if decide (self = other) then true
  else
    match self, other with
    | Compound parts, Compound other_parts => forallb (has_part parts) other_parts
    | Compound parts, _ => has_part parts other
    | _, Compound other_parts => has_part other_parts self
    | _, _ => false
    end.

Definition contains (self part : t) : bool :=
  match self with
  | Compound parts => has_part parts part
  | _ => bool_decide (self = part)
  end.

Definition arity (k : t) : nat :=
  match k with Compound parts => length parts | _ => 1 end.

Definition constituents (k : t) : list t :=
  match k with Compound parts => parts | _ => [k] end.

Definition is_compound (k : t) : bool := match k with Compound _ => true | _ => false end.

Fixpoint identity_key (k : t) : string :=
  match k with
  | Compound parts => "compound(" +:+ str_join "+" (identity_key <$> parts) +:+ ")"
  | _ => as_str k
  end.
End Kind.
Abbreviation Kind := Kind.t.

(** ** Base64 *)

Definition CHARS : list N :=
  codes "ABCDEFGHIJKLMNOPQRSTUVWXYZabcdefghijklmnopqrstuvwxyz0123456789+/".

(** [CHARS[i & 0x3f]] *)
Definition sextet (n : N) (shift : N) : N := N.land (N.shiftr n shift) 63.
Definition char_at (i : N) : N := default 0%N (CHARS !! N.to_nat i).

Definition pack3 (a b c : N) : N := N.lor (N.lor (N.shiftl a 16) (N.shiftl b 8)) c.

Definition equals_sign : N := 61.

Fixpoint encode_codes (l : list N) : list N :=
  match l with
  | a :: b :: c :: l' =>
      let n := pack3 a b c in
      char_at (sextet n 18) :: char_at (sextet n 12) :: char_at (sextet n 6)
        :: char_at (sextet n 0) :: encode_codes l'
  | [a; b] =>
      let n := pack3 a b 0 in
      [char_at (sextet n 18); char_at (sextet n 12); char_at (sextet n 6); equals_sign]
  | [a] =>
      let n := pack3 a 0 0 in
      [char_at (sextet n 18); char_at (sextet n 12); equals_sign; equals_sign]
  | [] => []
  end.

Definition encode_base64 (l : bytes) : string := of_codes (encode_codes (Byte.to_N <$> l)).

Definition base64_val (b : N) : option N :=
  if (65 <=? b)%N && (b <=? 90)%N then Some (b - 65)%N
  else if (97 <=? b)%N && (b <=? 122)%N then Some (b - 97 + 26)%N
  else if (48 <=? b)%N && (b <=? 57)%N then Some (b - 48 + 52)%N
  else if (b =? 43)%N then Some 62%N
  else if (b =? 47)%N then Some 63%N
  else None.

Definition invalid_byte (c : N) : string := "invalid base64 byte: " +:+ fmt_N c.

(** The values of the four bytes of a chunk, and how many of them are [=]. *)
Fixpoint chunk_vals (chunk : list N) : result (list N * nat) string :=
  match chunk with
  | [] => Ok ([], 0)
  | c :: chunk' =>
      let here : result (N * nat) string :=
        if (c =? equals_sign)%N then Ok (0%N, 1)
        else match base64_val c with Some v => Ok (v, 0) | None => Err (invalid_byte c) end in
      match here with
      | Err e => Err e
      | Ok (v, p) =>
          match chunk_vals chunk' with
          | Err e => Err e
          | Ok (vs, ps) => Ok (v :: vs, p + ps)
          end
      end
  end.

Definition pack4 (a b c d : N) : N :=
  N.lor (N.lor (N.lor (N.shiftl a 18) (N.shiftl b 12)) (N.shiftl c 6)) d.

Definition octet (n shift : N) : N := N.land (N.shiftr n shift) 255.

Definition decode_chunk (chunk : list N) : result (list N) string :=
  match chunk_vals chunk with
  | Err e => Err e
  | Ok (vs, pad) =>
      match vs with
      | [a; b; c; d] =>
          let n := pack4 a b c d in
          Ok ([octet n 16] ++ (if (pad <? 2)%nat then [octet n 8] else [])
              ++ (if (pad <? 1)%nat then [octet n 0] else []))
      | _ => Ok []
      end
  end.

Fixpoint decode_codes (l : list N) : result (list N) string :=
  match l with
  | a :: b :: c :: d :: l' =>
      match decode_chunk [a; b; c; d] with
      | Err e => Err e
      | Ok out =>
          match decode_codes l' with
          | Err e => Err e
          | Ok rest => Ok (out ++ rest)
          end
      end
  | _ => Ok []
  end.

Definition decode_base64 (s : string) : result bytes string :=
  let l := codes s in
  if negb (length l mod 4 =? 0)%nat then Err "base64 length not multiple of 4"
  else
    match decode_codes l with
    | Err e => Err e
    | Ok out => Ok (byte_of_N <$> out)
    end.

(** ** Bodies *)

(** [Value::to_string] *)
Class JsonText {J : Json} := { json_to_string : json → string }.

Module Body.
Inductive t `{!Json} : Type :=
  | Empty
  | Text (s : string)
  | Json (v : json)
  | Bytes (b : bytes).
#[global] Arguments Empty {_}.
#[global] Arguments Text {_}.
#[global] Arguments Json {_}.
#[global] Arguments Bytes {_}.

Section body.
Context {J : EventLog.Json}.

Definition empty : t := Empty.
Definition text (s : string) : t := Text s.
Definition bytes (b : bytes) : t := Bytes b.

Definition kind_hint (x : t) : string :=
  match x with
  | Empty => "empty"
  | Text _ => "text"
  | Json _ => "json"
  | Bytes _ => "bytes"
  end.

(** [decode] is what serde derives for the type asked for. *)
Definition as_json {A} (decode : json → option A) (x : t) : option A :=
  match x with Json v => decode v | _ => None end.

Definition as_text (x : t) : option string := match x with Text s => Some s | _ => None end.
Definition as_bytes (x : t) : option Bytes.bytes := match x with Bytes b => Some b | _ => None end.

Definition byte_size `{!JsonText} (x : t) : nat :=
  match x with
  | Empty => 0
  | Text s => String.length s
  | Json v => String.length (json_to_string v)
  | Bytes b => length b
  end.
End body.
End Body.
Abbreviation Body := Body.t.

(** ** Facts about kinds *)

Module K := Kind.

Lemma has_part_spec l k : K.has_part l k = true ↔ k ∈ l.
Proof. apply bool_decide_eq_true. Qed.

(** [matches] is the containment of the constituents on the side of a compound kind. *)
Lemma matches_compound parts k :
  K.is_compound k = false → K.matches (K.Compound parts) k = K.contains (K.Compound parts) k.
Proof.
  intros Hk. unfold K.matches. rewrite decide_False by (intros <-; done).
  destruct k; done.
Qed.

Lemma matches_compounds ps qs :
  K.matches (K.Compound ps) (K.Compound qs) = true ↔ ∀ k, k ∈ qs → k ∈ ps.
Proof.
  unfold K.matches. destruct (decide _) as [[= ->]|Hne]; [naive_solver|].
  rewrite forallb_forall. setoid_rewrite has_part_spec. setoid_rewrite <- list_elem_of_In. done.
Qed.

Lemma matches_refl k : K.matches k k = true.
Proof. unfold K.matches. by rewrite decide_True. Qed.

Lemma contains_constituent k p :
  K.contains k p = true ↔ p ∈ K.constituents k.
Proof.
  destruct k; cbn [K.contains K.constituents]; rewrite ?has_part_spec;
    rewrite ?bool_decide_eq_true, ?list_elem_of_singleton; naive_solver.
Qed.

Lemma arity_constituents k : K.arity k = length (K.constituents k).
Proof. by destruct k. Qed.

(** The key of the identity does not tell a custom kind from the kind it is named after, nor a
    compound from a custom kind that spells it. *)
Lemma identity_key_custom k : K.identity_key (K.Custom (K.identity_key k)) = K.identity_key k.
Proof. done. Qed.

(** ** Facts about base64 *)

Lemma lor_add k x y : (x mod 2 ^ k = 0)%N → (y < 2 ^ k)%N → N.lor x y = (x + y)%N.
Proof.
  intros Hx Hy. assert (x = N.shiftl (x / 2 ^ k) k) as Hs.
  { rewrite N.shiftl_mul_pow2. pose proof (N.div_mod x (2 ^ k)) as E.
    assert (2 ^ k ≠ 0)%N by (apply N.pow_nonzero; lia). lia. }
  assert (N.land x y = 0)%N as Hland.
  { apply N.bits_inj_0. intros i. rewrite N.land_spec, Hs.
    destruct (N.lt_ge_cases i k) as [Hi|Hi].
    - by rewrite N.shiftl_spec_low.
    - destruct (N.eq_dec y 0) as [->|Hy0]; [by rewrite N.bits_0, andb_false_r|].
      rewrite (N.bits_above_log2 y i); [by rewrite andb_false_r|].
      apply N.log2_lt_pow2 in Hy; lia. }
  rewrite N.add_nocarry_lxor by done. by rewrite N.lxor_lor.
Qed.

Lemma sextet_div n s : sextet n s = ((n / 2 ^ s) mod 64)%N.
Proof. unfold sextet. change 63%N with (N.ones 6). by rewrite N.land_ones, N.shiftr_div_pow2. Qed.

Lemma octet_div n s : octet n s = ((n / 2 ^ s) mod 256)%N.
Proof. unfold octet. change 255%N with (N.ones 8). by rewrite N.land_ones, N.shiftr_div_pow2. Qed.

Lemma pack3_add a b c :
  (a < 256)%N → (b < 256)%N → (c < 256)%N → pack3 a b c = (a * 65536 + b * 256 + c)%N.
Proof.
  intros. unfold pack3. rewrite !N.shiftl_mul_pow2.
  change (2 ^ 16)%N with 65536%N. change (2 ^ 8)%N with 256%N.
  rewrite (lor_add 16 (a * 65536)), (lor_add 8);
    change (2 ^ 16)%N with 65536%N; change (2 ^ 8)%N with 256%N;
    zify; Z.to_euclidean_division_equations; lia.
Qed.

Lemma pack4_add a b c d :
  (a < 64)%N → (b < 64)%N → (c < 64)%N → (d < 64)%N →
  pack4 a b c d = (a * 262144 + b * 4096 + c * 64 + d)%N.
Proof.
  intros. unfold pack4. rewrite !N.shiftl_mul_pow2.
  change (2 ^ 18)%N with 262144%N. change (2 ^ 12)%N with 4096%N. change (2 ^ 6)%N with 64%N.
  rewrite (lor_add 18 (a * 262144)), (lor_add 12 (a * 262144 + b * 4096)), (lor_add 6);
    change (2 ^ 18)%N with 262144%N; change (2 ^ 12)%N with 4096%N; change (2 ^ 6)%N with 64%N;
    zify; Z.to_euclidean_division_equations; lia.
Qed.

(** The sixty-four characters read back as their index, and none of them is the padding. *)
Lemma char_at_val i :
  (i < 64)%N → base64_val (char_at i) = Some i ∧ char_at i ≠ equals_sign ∧ (char_at i < 256)%N.
Proof.
  intros Hi.
  assert (forallb (λ n, bool_decide (base64_val (char_at (N.of_nat n)) = Some (N.of_nat n)
      ∧ char_at (N.of_nat n) ≠ equals_sign ∧ (char_at (N.of_nat n) < 256)%N)) (seq 0 64) = true) as H
    by (vm_compute; reflexivity).
  rewrite forallb_forall in H. specialize (H (N.to_nat i)). rewrite N2Nat.id in H.
  eapply bool_decide_eq_true_1, H, in_seq. lia.
Qed.

Lemma chunk_vals_char i l :
  (i < 64)%N →
  chunk_vals (char_at i :: l) =
    match chunk_vals l with Err e => Err e | Ok (vs, p) => Ok (i :: vs, p) end.
Proof.
  intros Hi. destruct (char_at_val i Hi) as (Hv & Hne & _). cbn [chunk_vals].
  rewrite (proj2 (N.eqb_neq _ _) Hne), Hv. repeat case_match; naive_solver.
Qed.

Lemma chunk_vals_pad l :
  chunk_vals (equals_sign :: l) =
    match chunk_vals l with Err e => Err e | Ok (vs, p) => Ok (0%N :: vs, S p) end.
Proof. cbn [chunk_vals]. rewrite N.eqb_refl. repeat case_match; naive_solver. Qed.

(** Three octets cut into four sextets join again. *)
Lemma sextets_join n :
  (n < 16777216)%N →
  pack4 (sextet n 18) (sextet n 12) (sextet n 6) (sextet n 0) = n.
Proof.
  intros Hn. rewrite !sextet_div, pack4_add by (apply N.mod_lt; done).
  change (2 ^ 18)%N with (64 * (64 * 64))%N. change (2 ^ 12)%N with (64 * 64)%N.
  change (2 ^ 6)%N with 64%N. change (2 ^ 0)%N with 1%N.
  rewrite <- !N.Div0.div_div, N.div_1_r.
  pose proof (N.div_mod n 64). pose proof (N.div_mod (n / 64) 64).
  pose proof (N.div_mod (n / 64 / 64) 64).
  assert (n / 64 / 64 / 64 < 64)%N by (rewrite !N.Div0.div_div; by apply N.Div0.div_lt_upper_bound).
  rewrite (N.mod_small (n / 64 / 64 / 64)) by done. lia.
Qed.

Lemma octets_split a b c :
  (a < 256)%N → (b < 256)%N → (c < 256)%N →
  octet (pack3 a b c) 16 = a ∧ octet (pack3 a b c) 8 = b ∧ octet (pack3 a b c) 0 = c.
Proof.
  intros Ha Hb Hc. rewrite pack3_add, !octet_div by done.
  change (2 ^ 16)%N with 65536%N. change (2 ^ 8)%N with 256%N. change (2 ^ 0)%N with 1%N.
  rewrite N.div_1_r. repeat split; zify; Z.to_euclidean_division_equations; lia.
Qed.

Lemma pack3_lt a b c :
  (a < 256)%N → (b < 256)%N → (c < 256)%N → (pack3 a b c < 16777216)%N.
Proof. intros. rewrite pack3_add by done. lia. Qed.

(** The sextets the padding stands for are zero. *)
Lemma sextet_pad a b :
  (a < 256)%N → (b < 256)%N → sextet (pack3 a b 0) 0 = 0%N ∧ sextet (pack3 a 0 0) 6 = 0%N.
Proof.
  intros. rewrite !sextet_div, !pack3_add by done.
  change (2 ^ 6)%N with 64%N. change (2 ^ 0)%N with 1%N. rewrite N.div_1_r.
  split; zify; Z.to_euclidean_division_equations; lia.
Qed.

Lemma sextet_lt n s : (sextet n s < 64)%N.
Proof. rewrite sextet_div. by apply N.mod_lt. Qed.

(** A chunk of the encoder gives back the bytes it stands for. *)
Lemma decode_chunk_3 a b c :
  (a < 256)%N → (b < 256)%N → (c < 256)%N →
  decode_chunk [char_at (sextet (pack3 a b c) 18); char_at (sextet (pack3 a b c) 12);
    char_at (sextet (pack3 a b c) 6); char_at (sextet (pack3 a b c) 0)] = Ok [a; b; c].
Proof.
  intros Ha Hb Hc. destruct (octets_split a b c) as (Ea & Eb & Ec); [done..|].
  unfold decode_chunk. rewrite !chunk_vals_char by apply sextet_lt. cbn [chunk_vals].
  cbv zeta. rewrite sextets_join by by apply pack3_lt. by rewrite Ea, Eb, Ec.
Qed.

Lemma decode_chunk_2 a b :
  (a < 256)%N → (b < 256)%N →
  decode_chunk [char_at (sextet (pack3 a b 0) 18); char_at (sextet (pack3 a b 0) 12);
    char_at (sextet (pack3 a b 0) 6); equals_sign] = Ok [a; b].
Proof.
  intros Ha Hb. destruct (octets_split a b 0) as (Ea & Eb & _); [done..|].
  destruct (sextet_pad a b) as [Hp _]; [done..|].
  unfold decode_chunk. rewrite !chunk_vals_char, chunk_vals_pad by apply sextet_lt.
  cbn [chunk_vals]. cbv zeta.
  pose proof (sextets_join (pack3 a b 0)) as J. rewrite Hp in J.
  rewrite J by by apply pack3_lt. by rewrite Ea, Eb.
Qed.

Lemma decode_chunk_1 a :
  (a < 256)%N →
  decode_chunk [char_at (sextet (pack3 a 0 0) 18); char_at (sextet (pack3 a 0 0) 12);
    equals_sign; equals_sign] = Ok [a].
Proof.
  intros Ha. destruct (octets_split a 0 0) as (Ea & _ & _); [done..|].
  destruct (sextet_pad a 0) as [Hp Hq]; [done..|].
  unfold decode_chunk. rewrite !chunk_vals_char, !chunk_vals_pad by apply sextet_lt.
  cbn [chunk_vals]. cbv zeta.
  pose proof (sextets_join (pack3 a 0 0)) as J. rewrite Hp, Hq in J.
  rewrite J by by apply pack3_lt. by rewrite Ea.
Qed.

(** Induction by three. *)
Lemma list_ind3 {A} (P : list A → Prop) :
  P [] → (∀ a, P [a]) → (∀ a b, P [a; b]) → (∀ a b c l, P l → P (a :: b :: c :: l)) → ∀ l, P l.
Proof.
  intros H0 H1 H2 H3. fix go 1. intros [|a [|b [|c l]]]; [done..|]. apply H3, go.
Qed.

Lemma decode_encode_codes l :
  Forall (λ b, b < 256)%N l → decode_codes (encode_codes l) = Ok l.
Proof.
  induction l as [|a|a b|a b c l IH] using list_ind3; rewrite ?Forall_cons.
  - done.
  - intros (Ha & _). cbn [encode_codes]. cbv zeta. cbn [decode_codes]. by rewrite decode_chunk_1.
  - intros (Ha & Hb & _). cbn [encode_codes]. cbv zeta. cbn [decode_codes].
    by rewrite decode_chunk_2.
  - intros (Ha & Hb & Hc & Hl). cbn [encode_codes]. cbv zeta. cbn [decode_codes].
    rewrite decode_chunk_3 by done. by rewrite IH.
Qed.

Lemma encode_codes_range l :
  Forall (λ b, b < 256)%N l → Forall (λ b, b < 256)%N (encode_codes l).
Proof.
  assert (∀ n s, (char_at (sextet n s) < 256)%N) as Hc.
  { intros n s. apply char_at_val. rewrite sextet_div. by apply N.mod_lt. }
  induction l as [|a|a b|a b c l IH] using list_ind3; intros H; cbn [encode_codes];
    repeat constructor; try apply Hc; try done.
  apply IH. by do 3 apply Forall_cons_1 in H as [_ H].
Qed.

Lemma length_encode_codes l : length (encode_codes l) = (4 * ((length l + 2) / 3))%nat.
Proof.
  induction l as [|a|a b|a b c l IH] using list_ind3; try done.
  cbn [encode_codes length]. rewrite IH.
  replace (S (S (S (length l))) + 2)%nat with (length l + 2 + 1 * 3)%nat by lia.
  rewrite Nat.div_add by lia. lia.
Qed.

Lemma to_N_range (l : bytes) : Forall (λ b, b < 256)%N (Byte.to_N <$> l).
Proof. apply Forall_fmap, Forall_true. intros b. apply to_N_bounded. Qed.

(** Bytes survive their trip through JSON. *)
Theorem base64_roundtrip (l : bytes) : decode_base64 (encode_base64 l) = Ok l.
Proof.
  unfold decode_base64, encode_base64.
  rewrite codes_of_codes by apply encode_codes_range, to_N_range.
  rewrite length_encode_codes, Nat.mul_comm, Nat.Div0.mod_mul. cbn [Nat.eqb negb].
  rewrite decode_encode_codes by apply to_N_range.
  f_equal. rewrite <- list_fmap_compose. rewrite <- (list_fmap_id l) at 2.
  apply list_fmap_ext. intros i b _. apply byte_of_to_N.
Qed.

(** ** What the decoder accepts *)

Definition base64_byte (b : N) : Prop := b = equals_sign ∨ is_Some (base64_val b).

Lemma chunk_vals_ok l :
  (∃ vs p, chunk_vals l = Ok (vs, p) ∧ length vs = length l) ↔ Forall base64_byte l.
Proof.
  induction l as [|c l IH]; cbn [chunk_vals].
  { split; [intros _; constructor|intros _; by exists [], 0%nat]. }
  rewrite Forall_cons, <- IH. unfold base64_byte.
  destruct (N.eqb_spec c equals_sign) as [Hc|Hc].
  - destruct (chunk_vals l) as [[vs p]|e]; [|naive_solver].
    split; [intros (? & ? & [= <- <-] & [= Hl])|intros (_ & ? & ? & [= <- <-] & Hl)].
    + split; [by left|]. by exists vs, p.
    + exists (0%N :: vs), (S p). split; [done|]. cbn [length]. by f_equal.
  - destruct (base64_val c) as [v|]; [|naive_solver].
    destruct (chunk_vals l) as [[vs p]|e]; [|naive_solver].
    split; [intros (? & ? & [= <- <-] & [= Hl])|intros (_ & ? & ? & [= <- <-] & Hl)].
    + split; [right; by exists v|]. by exists vs, p.
    + exists (v :: vs), p. split; [done|]. cbn [length]. by f_equal.
Qed.

Lemma decode_chunk_ok a b c d :
  is_ok (decode_chunk [a; b; c; d]) = true ↔ Forall base64_byte [a; b; c; d].
Proof.
  rewrite <- chunk_vals_ok. unfold decode_chunk.
  destruct (chunk_vals [a; b; c; d]) as [[vs p]|e] eqn:E; [|naive_solver].
  split; [intros _|intros (? & ? & [= <- <-] & Hl)].
  - exists vs, p. split; [done|]. revert E. cbn [chunk_vals]. repeat case_match; naive_solver.
  - by destruct vs as [|? [|? [|? [|? [|]]]]].
Qed.

Lemma list_ind4 {A} (P : list A → Prop) :
  P [] → (∀ a, P [a]) → (∀ a b, P [a; b]) → (∀ a b c, P [a; b; c]) →
  (∀ a b c d l, P l → P (a :: b :: c :: d :: l)) → ∀ l, P l.
Proof.
  intros H0 H1 H2 H3 H4. fix go 1. intros [|a [|b [|c [|d l]]]]; [done..|]. apply H4, go.
Qed.

Lemma decode_codes_ok l :
  (length l mod 4 = 0)%nat → is_ok (decode_codes l) = true ↔ Forall base64_byte l.
Proof.
  induction l as [|a|a b|a b c|a b c d l IH] using list_ind4; intros Hl; try done.
  cbn [length] in Hl. replace (S (S (S (S (length l)))))%nat with (length l + 1 * 4)%nat in Hl by lia.
  rewrite Nat.Div0.mod_add in Hl. specialize (IH Hl).
  change (a :: b :: c :: d :: l) with ([a; b; c; d] ++ l). rewrite Forall_app, <- IH, <- decode_chunk_ok.
  cbn [decode_codes app]. destruct (decode_chunk [a; b; c; d]) as [out|e]; [|naive_solver].
  destruct (decode_codes l) as [rest|e]; naive_solver.
Qed.

(** A text decodes exactly when its length is a multiple of four and its bytes are of the
    alphabet or the padding, wherever the padding stands. *)
Theorem decode_base64_accepts s :
  is_ok (decode_base64 s) = true ↔
  (String.length s mod 4 = 0)%nat ∧ Forall base64_byte (codes s).
Proof.
  unfold decode_base64. rewrite <- length_codes.
  destruct (Nat.eqb_spec (length (codes s) mod 4) 0) as [Hl|Hl]; cbn [negb]; [|naive_solver].
  rewrite <- (decode_codes_ok _ Hl). destruct (decode_codes (codes s)); naive_solver.
Qed.

(** Texts the encoder never writes decode too: the unused bits need not be zero, and the
    padding may stand before a digit. *)
Example decode_base64_not_canonical :
  decode_base64 "QR==" = decode_base64 "QQ==" ∧ decode_base64 "=QQQ" = Ok [Byte.x01; Byte.x04].
Proof. vm_compute. done. Qed.
