(* ===== verification/Scoring.v ===== *)
(** * Scores and decay (roko-core/src/score.rs and decay.rs)

    The seven axes of a signal's score with the scalar they reduce to, and how a signal's
    weight fades with its age.  [f32::powf] and [f32::exp] are the system's mathematical
    library's. *)

From Stdlib Require Import SpecFloat.
From S2P Require Import Prelude.

#[local] Arguments F32.of_Z : simpl never.

Definition is_finite (f : F32.t) : bool :=
  match f with S754_zero _ | S754_finite _ _ _ => true | _ => false end.

Definition one : F32.t := F32.of_Z 1.
Definition half : F32.t := F32.lit 1 2.

Definition finite_unit_interval (value : F32.t) : F32.t :=
  if is_finite value then F32.clamp F32.zero one value else F32.zero.

Definition finite_non_negative (value : F32.t) : F32.t :=
  if is_finite value && F32.lt F32.zero value then value else F32.zero.

(** ** Scores *)

Module Score.
Record t : Type := mk {
  confidence : F32.t;
  novelty : F32.t;
  utility : F32.t;
  reputation : F32.t;
  precision : F32.t;
  salience : F32.t;
  coherence : F32.t;
}.

Definition ZERO : t :=
  mk F32.zero F32.zero F32.zero F32.zero F32.zero F32.zero F32.zero.

Definition NEUTRAL : t :=
  mk half F32.zero F32.zero one F32.zero F32.zero F32.zero.

Definition new (confidence novelty utility reputation : F32.t) : t :=
  mk (finite_unit_interval confidence) (finite_unit_interval novelty)
    (finite_non_negative utility) (finite_non_negative reputation)
    F32.zero F32.zero F32.zero.

Definition new_extended
    (confidence novelty utility reputation precision salience coherence : F32.t) : t :=
  mk (finite_unit_interval confidence) (finite_unit_interval novelty)
    (finite_non_negative utility) (finite_non_negative reputation)
    (finite_unit_interval precision) (finite_unit_interval salience)
    (finite_unit_interval coherence).

Definition is_finite (s : t) : bool :=
  is_finite (confidence s) && is_finite (novelty s) && is_finite (utility s)
  && is_finite (reputation s) && is_finite (precision s) && is_finite (salience s)
  && is_finite (coherence s).

(** [0.5 + 0.5 * axis], or 1 for an axis that is zero. *)
Definition soft_factor (axis : F32.t) : F32.t :=
  if SFeqb axis F32.zero then one else F32.add half (F32.mul half axis).

Definition effective (s : t) : F32.t :=
  if negb (is_finite s) then F32.zero
  else
    let salience_factor := soft_factor (salience s) in
    let coherence_factor := soft_factor (coherence s) in
    finite_non_negative
      (F32.mul
        (F32.mul
          (F32.mul
            (F32.mul
              (F32.mul (confidence s) (F32.add one (novelty s)))
              (F32.add one (utility s)))
            (reputation s))
          salience_factor)
        coherence_factor).

Definition exceeds (s : t) (threshold : F32.t) : bool :=
  Scoring.is_finite threshold && F32.lt threshold (effective s).

Definition from_confidence (confidence : F32.t) : t :=
  new confidence F32.zero F32.zero one.

Definition default : t := NEUTRAL.

Definition axiswise (f : F32.t → F32.t → F32.t) (a b : t) : t :=
  mk (finite_unit_interval (f (confidence a) (confidence b)))
    (finite_unit_interval (f (novelty a) (novelty b)))
    (finite_non_negative (f (utility a) (utility b)))
    (finite_non_negative (f (reputation a) (reputation b)))
    (finite_unit_interval (f (precision a) (precision b)))
    (finite_unit_interval (f (salience a) (salience b)))
    (finite_unit_interval (f (coherence a) (coherence b))).

Definition mul (a b : t) : t := axiswise F32.mul a b.
Definition add (a b : t) : t := axiswise F32.add a b.
End Score.
Abbreviation Score := Score.t.

(** ** Decay *)

Class ExpLib := {
  f32_powf : F32.t → F32.t → F32.t;
  f32_exp : F32.t → F32.t;
}.

Definition finite_weight (weight : F32.t) : F32.t :=
  if is_finite weight then F32.clamp F32.zero one weight else F32.zero.

Module Decay.
Inductive t : Type :=
  | None
  | HalfLife (half_life_ms : N)
  | Ttl (ttl_ms : N)
  | Ebbinghaus (strength : F32.t) (scale_ms : N).

Definition is_finite (d : t) : bool :=
  match d with
  | None | HalfLife _ | Ttl _ => true
  | Ebbinghaus strength _ => Scoring.is_finite strength
  end.

Definition apply `{!ExpLib} (d : t) (age_ms : Z) : F32.t :=
  if (age_ms <=? 0)%Z then one
  else
    let age_ms := F32.of_Z age_ms in
    match d with
    | None => one
    | HalfLife half_life_ms =>
        if (half_life_ms =? 0)%N then F32.zero
        else
          let hl := F32.of_Z (Z.of_N half_life_ms) in
          finite_weight (f32_powf half (F32.div age_ms hl))
    | Ttl ttl_ms => if F32.ge age_ms (F32.of_Z (Z.of_N ttl_ms)) then F32.zero else one
    | Ebbinghaus strength scale_ms =>
        if (scale_ms =? 0)%N || negb (Scoring.is_finite strength) || SFleb strength F32.zero
        then F32.zero
        else
          let scale := F32.mul strength (F32.of_Z (Z.of_N scale_ms)) in
          finite_weight (f32_exp (F32.div (SFopp age_ms) scale))
    end.

Definition is_alive `{!ExpLib} (d : t) (age_ms : Z) (threshold : F32.t) : bool :=
  Scoring.is_finite threshold && F32.lt threshold (apply d age_ms).

Definition THREAT : t := HalfLife 7200000.
Definition OPPORTUNITY : t := HalfLife 14400000.
Definition WISDOM : t := HalfLife 86400000.
Definition GATE_VERDICT : t := HalfLife 86400000.
End Decay.
Abbreviation Decay := Decay.t.

(** ** Ranges *)

(** A finite float of the unit interval, and a finite float that is not negative. *)
Definition unit_range (f : F32.t) : Prop :=
  is_finite f = true ∧ sf_le F32.zero f ∧ sf_le f one.
Definition non_negative (f : F32.t) : Prop := is_finite f = true ∧ sf_le F32.zero f.

Lemma unit_zero : unit_range F32.zero.
Proof. repeat split. Qed.

Lemma unit_one : unit_range one.
Proof. repeat split. Qed.

Lemma clamp_in_unit f : is_finite f = true → unit_range (F32.clamp F32.zero one f).
Proof.
  intros Hf. unfold F32.clamp, F64.clamp, F64.lt, F64.gt.
  destruct (SFltb f F32.zero) eqn:E1; [apply unit_zero|].
  destruct (SFltb one f) eqn:E2; [apply unit_one|]. done.
Qed.

Lemma finite_unit_interval_range f : unit_range (finite_unit_interval f).
Proof.
  unfold finite_unit_interval. destruct (is_finite f) eqn:E; [by apply clamp_in_unit|apply unit_zero].
Qed.

Lemma finite_weight_range f : unit_range (finite_weight f).
Proof. apply finite_unit_interval_range. Qed.

Lemma finite_non_negative_range f : non_negative (finite_non_negative f).
Proof.
  unfold finite_non_negative. destruct (is_finite f) eqn:E; [|done]. cbn [andb].
  destruct (F32.lt F32.zero f) eqn:Hlt; [|done]. split; [done|]. by apply sf_lt_le.
Qed.

(** Within the ranges the axes are documented with. *)
Record score_wf (s : Score) : Prop := {
  wf_confidence : unit_range (Score.confidence s);
  wf_novelty : unit_range (Score.novelty s);
  wf_utility : non_negative (Score.utility s);
  wf_reputation : non_negative (Score.reputation s);
  wf_precision : unit_range (Score.precision s);
  wf_salience : unit_range (Score.salience s);
  wf_coherence : unit_range (Score.coherence s);
}.

#[local] Hint Resolve unit_zero unit_one finite_unit_interval_range finite_non_negative_range : core.

Lemma score_axiswise_wf f a b : score_wf (Score.axiswise f a b).
Proof. by constructor; cbn; auto. Qed.

Lemma score_wf_finite s : score_wf s → Score.is_finite s = true.
Proof.
  intros [[H1 _] [H2 _] [H3 _] [H4 _] [H5 _] [H6 _] [H7 _]]. unfold Score.is_finite.
  by rewrite H1, H2, H3, H4, H5, H6, H7.
Qed.

(** Whatever floats a score is made from, [NaN] and the infinities among them, its axes are in
    their ranges, and products and sums of scores keep them there. *)
Theorem score_ranges c n u r p sa co f a b :
  score_wf (Score.new c n u r) ∧ score_wf (Score.new_extended c n u r p sa co)
  ∧ score_wf (Score.mul a b) ∧ score_wf (Score.add a b)
  ∧ score_wf (Score.from_confidence f) ∧ score_wf Score.ZERO ∧ score_wf Score.NEUTRAL.
Proof.
  repeat split; try apply score_axiswise_wf; try (cbn; auto; done);
    try apply finite_unit_interval_range; try apply finite_non_negative_range; done.
Qed.

Lemma effective_non_negative s : non_negative (Score.effective s).
Proof.
  unfold Score.effective. destruct (Score.is_finite s); [apply finite_non_negative_range|done].
Qed.

(** *** Zero confidence *)

Definition zero_or_nan (f : F32.t) : bool :=
  match f with S754_zero _ | S754_nan => true | _ => false end.

Lemma mul_zero_or_nan a b : zero_or_nan a = true → zero_or_nan (F32.mul a b) = true.
Proof. by destruct a as [[]|[]| |[] m e], b as [[]|[]| |[] m' e']. Qed.

Lemma finite_non_negative_zero f : zero_or_nan f = true → finite_non_negative f = F32.zero.
Proof. by destruct f as [[]|[]| |[] m e]. Qed.

Lemma zero_confidence_ineffective s :
  SFeqb (Score.confidence s) F32.zero = true → Score.effective s = F32.zero.
Proof.
  intros Hc. unfold Score.effective. destruct (Score.is_finite s); [|done]. cbn [negb].
  apply finite_non_negative_zero. do 5 apply mul_zero_or_nan.
  by destruct (Score.confidence s) as [[]|[]| |[] m e].
Qed.

(** ** The weight of a signal fades *)

Section decay.
Context `{EL : ExpLib}.

(** The multiplier is in the unit interval whatever the mathematical library answers. *)
Lemma decay_range d age : unit_range (Decay.apply d age).
Proof using Type.
  unfold Decay.apply. repeat case_match; auto using finite_weight_range.
Qed.

Lemma decay_fresh d age : (age ≤ 0)%Z → Decay.apply d age = one.
Proof using Type. intros H. unfold Decay.apply. by rewrite (proj2 (Z.leb_le _ _) H). Qed.

(** No weight is above 1, so a threshold of 1 or more is never exceeded, and a threshold
    that is no number is not either. *)
Lemma never_alive d age threshold : sf_le one threshold → Decay.is_alive d age threshold = false.
Proof using Type.
  intros Ht. unfold Decay.is_alive.
  destruct (is_finite threshold) eqn:Hf; [|done]. cbn [andb].
  destruct (decay_range d age) as (_ & _ & Hle).
  assert (sf_le (Decay.apply d age) threshold) as H; [|exact H].
  eapply sf_le_trans; [|exact Hle|exact Ht]. done.
Qed.

(** The degenerate parameters give nothing to an aged signal. *)
Lemma decay_degenerate age strength :
  (0 < age)%Z →
  Decay.apply (Decay.HalfLife 0) age = F32.zero
  ∧ Decay.apply (Decay.Ebbinghaus strength 0) age = F32.zero
  ∧ Decay.apply (Decay.Ebbinghaus S754_nan 5) age = F32.zero.
Proof using Type.
  intros H. unfold Decay.apply. rewrite (proj2 (Z.leb_gt _ _) H). done.
Qed.
End decay.
