(* ===== verification/Engram.v ===== *)
(** * Signals (roko-core/src/engram.rs and pulse.rs)

    The durable signal, [Engram], with its content hash, its builder and what derives signals
    from signals; the ephemeral [Pulse] with its topics and filters, and its promotion to an
    engram.  The clock is read once by a builder whose time is not set: an argument of
    [build].  The vectors, proofs and emotions an engram may carry are opaque. *)

From Stdlib Require Import SpecFloat Strings.Byte.
From S2P Require Import Prelude Bytes EventLog Taint Text Body Scoring.

(** What an engram carries and no operation here looks into. *)
Class EngramParts := {
  HdcFingerprint : Type;
  Attestation : Type;
  EmotionalTag : Type;
}.

(** What serde derives for a body: [to_vec], [to_value], and the array of values. *)
Class BodySerde {J : Json} := {
  body_to_vec : Body → bytes;
  body_to_value : Body → json;
  json_array : list json → json;
}.

(** The plain difference of two [i64]s, wrapping. *)
Definition sub_i64 (a b : Z) : Z := ((a - b + 2 ^ 63) mod 2 ^ 64 - 2 ^ 63)%Z.

Lemma sub_i64_exact a b : is_i64 (a - b) → sub_i64 a b = (a - b)%Z.
Proof.
  unfold is_i64, i64_MIN, i64_MAX, sub_i64. intros H. rewrite Z.mod_small by lia. lia.
Qed.

Section Signals.
Context `{J : Json, EP : !EngramParts, BS : !BodySerde, B3 : !Blake3, EL : !ExpLib}.

(** ** Engrams *)

Record Engram : Type := mk_engram {
  id : bytes;
  fingerprint : option HdcFingerprint;
  kind : Kind;
  body : Body;
  created_at_ms : Z;
  decay : Decay;
  provenance : Provenance;
  score : Score;
  lineage : list bytes;
  tags : gmap string string;
  attestation : option Attestation;
  emotional_tag : option EmotionalTag;
  balance : F64.t;
}.

(** [Body::canonical_bytes] *)
Definition canonical_bytes (b : Body) : bytes := body_to_vec b.

Definition bar : bytes := str_bytes "|".

Definition tag_bytes (kv : string * string) : bytes :=
  str_bytes kv.1 ++ str_bytes "=" ++ str_bytes kv.2 ++ str_bytes ";".

(** What the hasher is fed. *)
Definition hash_input (k : Kind) (b : Body) (p : Provenance) (l : list bytes)
    (m : gmap string string) : bytes :=
  str_bytes (Kind.identity_key k) ++ bar ++ canonical_bytes b ++ bar
    ++ str_bytes (Provenance.author p) ++ bar
    ++ [if Provenance.is_tainted p then Byte.x01 else Byte.x00] ++ bar
    ++ concat l ++ bar ++ concat (tag_bytes <$> btree_iter m).

Definition content_hash (e : Engram) : bytes :=
  blake3 (hash_input (kind e) (body e) (provenance e) (lineage e) (tags e)).

Definition weight_at (e : Engram) (now_ms : Z) : F32.t :=
  let age := sub_i64 now_ms (created_at_ms e) in
  F32.mul (Score.effective (score e)) (Decay.apply (decay e) age).

Definition age_ms (e : Engram) (now_ms : Z) : Z :=
  Z.max (sub_i64 now_ms (created_at_ms e)) 0.

Definition touch (e : Engram) : Engram :=
  mk_engram (id e) (fingerprint e) (kind e) (body e) (created_at_ms e) (decay e) (provenance e)
    (score e) (lineage e) (tags e) (attestation e) (emotional_tag e) (F64.of_Z 1).

Definition get_tag (e : Engram) (key : string) : option string := tags e !! key.

Definition is_kind (e : Engram) (k : Kind) : bool := bool_decide (kind e = k).

(** ** The builder *)

Record EngramBuilder : Type := mk_builder {
  b_kind : Kind;
  b_body : Body;
  b_created_at_ms : option Z;
  b_decay : Decay;
  b_provenance : Provenance;
  b_score : Score;
  b_lineage : list bytes;
  b_tags : gmap string string;
  b_fingerprint : option HdcFingerprint;
  b_attestation : option Attestation;
  b_emotional_tag : option EmotionalTag;
  b_balance : F64.t;
}.

Definition default_provenance : Provenance := Provenance.trusted "roko".

Definition builder (k : Kind) : EngramBuilder :=
  mk_builder k Body.empty None Decay.None default_provenance Score.NEUTRAL [] ∅ None None None
    (F64.of_Z 1).

Definition with_body (x : Body) (b : EngramBuilder) : EngramBuilder :=
  mk_builder (b_kind b) x (b_created_at_ms b) (b_decay b) (b_provenance b) (b_score b)
    (b_lineage b) (b_tags b) (b_fingerprint b) (b_attestation b) (b_emotional_tag b) (b_balance b).

Definition with_decay (x : Decay) (b : EngramBuilder) : EngramBuilder :=
  mk_builder (b_kind b) (b_body b) (b_created_at_ms b) x (b_provenance b) (b_score b)
    (b_lineage b) (b_tags b) (b_fingerprint b) (b_attestation b) (b_emotional_tag b) (b_balance b).

Definition with_provenance (x : Provenance) (b : EngramBuilder) : EngramBuilder :=
  mk_builder (b_kind b) (b_body b) (b_created_at_ms b) (b_decay b) x (b_score b)
    (b_lineage b) (b_tags b) (b_fingerprint b) (b_attestation b) (b_emotional_tag b) (b_balance b).

Definition with_score (x : Score) (b : EngramBuilder) : EngramBuilder :=
  mk_builder (b_kind b) (b_body b) (b_created_at_ms b) (b_decay b) (b_provenance b) x
    (b_lineage b) (b_tags b) (b_fingerprint b) (b_attestation b) (b_emotional_tag b) (b_balance b).

Definition with_created_at_ms (x : Z) (b : EngramBuilder) : EngramBuilder :=
  mk_builder (b_kind b) (b_body b) (Some x) (b_decay b) (b_provenance b) (b_score b)
    (b_lineage b) (b_tags b) (b_fingerprint b) (b_attestation b) (b_emotional_tag b) (b_balance b).

Definition with_lineage (hashes : list bytes) (b : EngramBuilder) : EngramBuilder :=
  mk_builder (b_kind b) (b_body b) (b_created_at_ms b) (b_decay b) (b_provenance b) (b_score b)
    (b_lineage b ++ hashes) (b_tags b) (b_fingerprint b) (b_attestation b) (b_emotional_tag b)
    (b_balance b).

Definition with_tag (key value : string) (b : EngramBuilder) : EngramBuilder :=
  mk_builder (b_kind b) (b_body b) (b_created_at_ms b) (b_decay b) (b_provenance b) (b_score b)
    (b_lineage b) (<[key := value]> (b_tags b)) (b_fingerprint b) (b_attestation b)
    (b_emotional_tag b) (b_balance b).

(** The loops that copy a map of tags. *)
Definition with_tags (m : gmap string string) (b : EngramBuilder) : EngramBuilder :=
  foldl (λ b kv, with_tag kv.1 kv.2 b) b (btree_iter m).

Definition build (now : Z) (b : EngramBuilder) : Engram :=
  let created := default now (b_created_at_ms b) in
  let e (h : bytes) :=
    mk_engram h (b_fingerprint b) (b_kind b) (b_body b) created (b_decay b) (b_provenance b)
      (b_score b) (b_lineage b) (b_tags b) (b_attestation b) (b_emotional_tag b) (b_balance b) in
  e (content_hash (e zero_hash)).

(** ** Derived engrams *)

Definition derive (e : Engram) (k : Kind) (x : Body) : EngramBuilder :=
  with_provenance (Provenance.agent "derived") (with_lineage [id e] (with_body x (builder k))).

Definition derived_lineage (e : Engram) : list bytes :=
  foldl (λ l h, if bool_decide (h ∈ l) then l else l ++ [h]) [] (lineage e ++ [id e]).

Definition derive_verdict (e : Engram) (x : Body) : EngramBuilder :=
  with_tags (tags e)
    (with_provenance (Provenance.agent "derived")
      (with_lineage (derived_lineage e)
        (with_decay Decay.GATE_VERDICT (with_body x (builder Kind.GateVerdict))))).

(** ** Pulses *)

Record Pulse : Type := mk_pulse {
  p_seq : N;
  p_topic : string;
  p_kind : Kind;
  p_body : Body;
  p_created_at_ms : Z;
  p_tags : gmap string string;
}.

Definition new_pulse (seq : N) (topic : string) (k : Kind) (x : Body) (now : Z) : Pulse :=
  mk_pulse seq topic k x now ∅.

Definition pulse_tag (p : Pulse) (key : string) : option string := p_tags p !! key.

Definition graduate (p : Pulse) (pr : Provenance) (s : Score) (now : Z) : Engram :=
  build now
    (with_tags (p_tags p)
      (with_tag "pulse_seq" (fmt_N (p_seq p))
        (with_tag "pulse_topic" (p_topic p)
          (with_created_at_ms (p_created_at_ms p)
            (with_score s
              (with_provenance pr (with_body (p_body p) (builder (p_kind p))))))))).

Definition from_pulse_synthetic (p : Pulse) (now : Z) : Engram :=
  build now
    (with_tags (p_tags p)
      (with_provenance (Provenance.agent "pulse_promotion")
        (with_created_at_ms (p_created_at_ms p) (with_body (p_body p) (builder (p_kind p)))))).

Definition text_of (b : Body) : option string :=
  match b with Body.Text s => Some s | _ => None end.

Definition newline : string := String (Ascii.ascii_of_nat 10) EmptyString.

(** The body of a batch of two pulses or more. *)
Definition batch_body (pulses : list Pulse) : Body :=
  let texts := omap (λ p, text_of (p_body p)) pulses in
  if (length texts =? length pulses)%nat then Body.text (str_join newline texts)
  else Body.Json (json_array (body_to_value <$> (p_body <$> pulses))).

(** The tags of the batch: a later pulse overwrites. *)
Definition merge_tags (pulses : list Pulse) : gmap string string :=
  foldl (λ m p, foldl (λ m kv, <[kv.1 := kv.2]> m) m (btree_iter (p_tags p))) ∅ pulses.

Definition earliest (pulses : list Pulse) : Z :=
  match p_created_at_ms <$> pulses with
  | [] => 0
  | t :: ts => foldl Z.min t ts
  end.

Definition from_pulses (pulses : list Pulse) (now : Z) : Engram :=
  match pulses with
  | [] => build now (with_provenance (Provenance.agent "pulse_batch") (builder Kind.Episode))
  | p :: rest =>
      let x := match rest with [] => p_body p | _ => batch_body pulses end in
      build now
        (with_tags (merge_tags pulses)
          (with_provenance (Provenance.agent "pulse_batch")
            (with_created_at_ms (earliest pulses) (with_body x (builder (p_kind p))))))
  end.
End Signals.

(** ** Topics *)

Module TopicFilter.
Inductive t : Type :=
  | Exact (topic : string)
  | Prefix (p : string)
  | All
  | And (filters : list t)
  | Or (filters : list t)
  | Not (filter : t).

Fixpoint matches (f : t) (topic : string) : bool :=
  match f with
  | Exact x => string_eqb x topic
  | Prefix p => str_starts_with p topic
  | All => true
  | And filters => forallb (λ f, matches f topic) filters
  | Or filters => existsb (λ f, matches f topic) filters
  | Not f => negb (matches f topic)
  end.
End TopicFilter.
Abbreviation TopicFilter := TopicFilter.t.

(** ** Tags *)

Lemma foldl_insert_map {V} (l : list (string * V)) (m : gmap string V) :
  NoDup l.*1 → foldl (λ m kv, <[kv.1 := kv.2]> m) m l = list_to_map l ∪ m.
Proof.
  revert m. induction l as [|[k v] l IH]; intros m Hl; cbn [foldl].
  - change (list_to_map []) with (∅ : gmap string V). by rewrite (left_id_L ∅ (∪) m).
  - rewrite fmap_cons, NoDup_cons in Hl. destruct Hl as [Hk Hl]. rewrite IH by done.
    cbn [list_to_map foldr fst snd]. cbn.
    rewrite <- insert_union_r, insert_union_l; [done|]. by apply not_elem_of_list_to_map_1.
Qed.

Lemma btree_iter_map {V} (m : gmap string V) : list_to_map (btree_iter m) = m.
Proof.
  apply map_eq. intros k. apply option_eq. intros v.
  rewrite <- elem_of_list_to_map, elem_of_btree_iter; [done|].
  rewrite btree_iter_fst. apply NoDup_btree_keys.
Qed.

Lemma foldl_insert_btree {V} (m acc : gmap string V) :
  foldl (λ m kv, <[kv.1 := kv.2]> m) acc (btree_iter m) = m ∪ acc.
Proof.
  rewrite foldl_insert_map, btree_iter_map; [done|].
  rewrite btree_iter_fst. apply NoDup_btree_keys.
Qed.

Lemma btree_iter_inj {V} (m m' : gmap string V) : btree_iter m = btree_iter m' → m = m'.
Proof. intros H. by rewrite <- (btree_iter_map m), H, btree_iter_map. Qed.

(** A field read up to the next separator is read unambiguously. *)
Lemma app_sep_inj {A} (x : A) a b r s :
  x ∉ a → x ∉ b → a ++ (x :: r) = b ++ (x :: s) → a = b ∧ r = s.
Proof.
  revert b. induction a as [|y a IH]; intros [|z b] Ha Hb; cbn; intros H; simplify_eq.
  - done.
  - by rewrite elem_of_cons in Hb; destruct Hb; left.
  - by rewrite elem_of_cons in Ha; destruct Ha; left.
  - rewrite not_elem_of_cons in Ha, Hb.
    destruct (IH b) as [-> ->]; [tauto|tauto|done|done].
Qed.

Definition tag_clean (kv : string * string) : Prop :=
  (Byte.x3d ∉ str_bytes kv.1) ∧ (Byte.x3b ∉ str_bytes kv.2).

Lemma tag_bytes_inj l l' :
  Forall tag_clean l → Forall tag_clean l' →
  concat (tag_bytes <$> l) = concat (tag_bytes <$> l') → l = l'.
Proof.
  intros Hl. revert l'. induction Hl as [|[k v] l [Hk Hv] _ IH]; intros l' Hl'.
  - destruct l' as [|[k v] l']; [done|]. cbn. intros H. exfalso.
    apply (f_equal length) in H. rewrite !length_app in H. cbn in H. lia.
  - destruct Hl' as [|[k' v'] l' [Hk' Hv'] Hl'].
    { cbn. intros H. exfalso. apply (f_equal length) in H. rewrite !length_app in H. cbn in H. lia. }
    rewrite !fmap_cons. cbn [concat]. unfold tag_bytes at 1 3. cbn [fst snd] in *.
    rewrite <- !app_assoc. intros H. apply app_sep_inj in H as [Ek H]; [|done|done].
    apply app_sep_inj in H as [Ev H]; [|done|done].
    f_equal; [|by apply IH]. by apply str_bytes_inj in Ek, Ev; subst.
Qed.

Section facts.
Context `{J : Json, EP : !EngramParts, BS : !BodySerde, B3 : !Blake3, EL : !ExpLib}.

Lemma with_tags_eq m b :
  with_tags m b =
    mk_builder (b_kind b) (b_body b) (b_created_at_ms b) (b_decay b) (b_provenance b) (b_score b)
      (b_lineage b) (m ∪ b_tags b) (b_fingerprint b) (b_attestation b) (b_emotional_tag b)
      (b_balance b).
Proof.
  unfold with_tags. rewrite <- foldl_insert_btree. generalize (btree_iter m). intros l. clear m.
  revert b. induction l as [|kv l IH]; intros b; cbn [foldl]; [by destruct b|]. by rewrite IH.
Qed.

(** An engram whose identity is the hash of its content. *)
Definition sealed (e : Engram) : Prop := id e = content_hash e.

Lemma build_sealed now b : sealed (build now b).
Proof. done. Qed.

Lemma touch_sealed e : sealed e → sealed (touch e).
Proof. done. Qed.

(** The hash covers the kind's key, the body, the author, whether the source is tainted, the
    lineage and the tags, and nothing else. *)
Definition same_identity (e e' : Engram) : Prop :=
  Kind.identity_key (kind e) = Kind.identity_key (kind e')
  ∧ canonical_bytes (body e) = canonical_bytes (body e')
  ∧ Provenance.author (provenance e) = Provenance.author (provenance e')
  ∧ Provenance.is_tainted (provenance e) = Provenance.is_tainted (provenance e')
  ∧ concat (lineage e) = concat (lineage e') ∧ tags e = tags e'.

Lemma content_hash_same e e' : same_identity e e' → content_hash e = content_hash e'.
Proof.
  intros (Hk & Hb & Ha & Ht & Hl & Hm). unfold content_hash, hash_input.
  by rewrite Hk, Hb, Ha, Ht, Hl, Hm.
Qed.

(** Two signals that agree on the rest have the same hash only if their tags are the same,
    when no key holds an equals sign and no value a semicolon. *)
Theorem content_hash_separates_tags e e' :
  kind e = kind e' → body e = body e' → provenance e = provenance e' → lineage e = lineage e' →
  Forall tag_clean (btree_iter (tags e)) → Forall tag_clean (btree_iter (tags e')) →
  collision_free [hash_input (kind e) (body e) (provenance e) (lineage e) (tags e);
    hash_input (kind e') (body e') (provenance e') (lineage e') (tags e')] →
  content_hash e = content_hash e' → tags e = tags e'.
Proof.
  intros Hk Hb Hp Hl Hc Hc' [Hfree _] H. unfold content_hash in H.
  apply Hfree in H; [|set_solver..]. rewrite Hk, Hb, Hp, Hl in H. unfold hash_input in H.
  do 9 apply app_inv_head in H. apply app_inv_head in H.
  by apply btree_iter_inj, tag_bytes_inj.
Qed.

Lemma derived_lineage_spec e :
  NoDup (derived_lineage e) ∧ ∀ h, h ∈ derived_lineage e ↔ h ∈ lineage e ∨ h = id e.
Proof.
  unfold derived_lineage.
  assert (∀ (l acc : list bytes), NoDup acc →
    NoDup (foldl (λ l h, if bool_decide (h ∈ l) then l else l ++ [h]) acc l) ∧
    ∀ h, h ∈ foldl (λ l h, if bool_decide (h ∈ l) then l else l ++ [h]) acc l ↔ h ∈ acc ∨ h ∈ l)
    as Hgen.
  { induction l as [|x l IH]; intros acc Hacc; cbn [foldl]; [set_solver|].
    case_bool_decide as Hx.
    - destruct (IH acc Hacc) as [H1 H2]. split; [done|]. intros h. rewrite H2. set_solver.
    - destruct (IH (acc ++ [x])) as [H1 H2].
      { apply NoDup_app. split; [done|]. split; [set_solver|apply NoDup_singleton]. }
      split; [done|]. intros h. rewrite H2. set_solver. }
  destruct (Hgen (lineage e ++ [id e]) [] (NoDup_nil_2)) as [H1 H2]. split; [done|].
  intros h. rewrite H2. set_solver.
Qed.

(** A verdict keeps the tags of the signal it judges and descends from it and from all its
    ancestors, each named once; its identity is the hash of its content. *)
Theorem verdict_lineage e x now :
  let v := build now (derive_verdict e x) in
  sealed v ∧ kind v = Kind.GateVerdict ∧ body v = x ∧ decay v = Decay.GATE_VERDICT
  ∧ tags v = tags e ∧ NoDup (lineage v) ∧ (∀ h, h ∈ lineage v ↔ h ∈ lineage e ∨ h = id e)
  ∧ Provenance.is_tainted (provenance v) = false.
Proof.
  cbv zeta. unfold derive_verdict. rewrite with_tags_eq. cbn.
  destruct (derived_lineage_spec e) as [H1 H2].
  repeat split; try done; rewrite ?(right_id_L ∅ (∪) (tags e)); try done; apply H2.
Qed.

(** ** Promotion *)

(** A pulse that graduates keeps its kind, body, time and tags; the two audit tags are those
    of the promotion only where the pulse has no tag of that name. *)
Theorem graduate_audit_tags p pr s now :
  let e := graduate p pr s now in
  sealed e ∧ kind e = p_kind p ∧ body e = p_body p ∧ created_at_ms e = p_created_at_ms p
  ∧ provenance e = pr ∧ score e = s ∧ lineage e = []
  ∧ (∀ k v, p_tags p !! k = Some v → get_tag e k = Some v)
  ∧ (p_tags p !! "pulse_topic" = None → get_tag e "pulse_topic" = Some (p_topic p))
  ∧ (p_tags p !! "pulse_seq" = None → get_tag e "pulse_seq" = Some (fmt_N (p_seq p))).
Proof.
  cbv zeta. unfold graduate. rewrite with_tags_eq. cbn. unfold get_tag. cbn.
  repeat split; try done.
  - intros k v Hk. by apply lookup_union_Some_l.
  - intros Hn. by rewrite lookup_union_r, lookup_insert_ne, lookup_insert_eq.
  - intros Hn. by rewrite lookup_union_r, lookup_insert_eq.
Qed.

Lemma merge_tags_snoc ps p : merge_tags (ps ++ [p]) = p_tags p ∪ merge_tags ps.
Proof. unfold merge_tags. rewrite foldl_app. cbn [foldl]. apply foldl_insert_btree. Qed.

Lemma foldl_min_le l t : (foldl Z.min t l ≤ t)%Z ∧ ∀ x, x ∈ l → (foldl Z.min t l ≤ x)%Z.
Proof.
  revert t. induction l as [|y l IH]; intros t; cbn [foldl]; [set_solver by lia|].
  destruct (IH (Z.min t y)) as [H1 H2]. split; [lia|].
  intros x [->|Hx]%elem_of_cons; [lia|auto].
Qed.

Lemma foldl_min_elem l t : foldl Z.min t l ∈ t :: l.
Proof.
  revert t. induction l as [|y l IH]; intros t; cbn [foldl]; [set_solver|].
  specialize (IH (Z.min t y)). apply elem_of_cons in IH as [->|H]; [|set_solver].
  destruct (Z.min_spec t y) as [[_ ->]|[_ ->]]; set_solver.
Qed.

Lemma earliest_spec p ps :
  (∀ q, q ∈ p :: ps → (earliest (p :: ps) ≤ p_created_at_ms q)%Z)
  ∧ ∃ q, q ∈ p :: ps ∧ earliest (p :: ps) = p_created_at_ms q.
Proof.
  unfold earliest. rewrite fmap_cons.
  destruct (foldl_min_le (p_created_at_ms <$> ps) (p_created_at_ms p)) as [H1 H2]. split.
  - intros q [->|Hq]%elem_of_cons; [done|]. by apply H2, list_elem_of_fmap_2.
  - pose proof (foldl_min_elem (p_created_at_ms <$> ps) (p_created_at_ms p)) as H.
    rewrite <- fmap_cons, list_elem_of_fmap in H. destruct H as (q & E & Hq). by exists q.
Qed.

(** A batch is an engram of the first pulse's kind and the earliest time, with every tag of
    every pulse, the last pulse's value winning. *)
Lemma from_pulses_spec p ps now :
  let e := from_pulses (p :: ps) now in
  sealed e ∧ kind e = p_kind p ∧ created_at_ms e = earliest (p :: ps)
  ∧ tags e = merge_tags (p :: ps)
  ∧ (ps = [] → body e = p_body p).
Proof.
  cbv zeta. unfold from_pulses. rewrite with_tags_eq. cbn.
  repeat split; try done; [by rewrite (right_id_L ∅ (∪))|]. by intros ->.
Qed.

(** The ages are never negative, whatever the clocks. *)
Lemma age_ms_nonneg e now : (0 ≤ age_ms e now)%Z.
Proof. unfold age_ms. lia. Qed.

(** A permanent engram that is not from the future weighs what its score is worth. *)
Lemma weight_at_future e now :
  is_i64 (now - created_at_ms e) → (now ≤ created_at_ms e)%Z →
  weight_at e now = F32.mul (Score.effective (score e)) one.
Proof. intros Hr H. unfold weight_at. rewrite sub_i64_exact, decay_fresh by (done || lia). done. Qed.
End facts.

(** ** Filters *)

Module TF := TopicFilter.

Lemma filter_not_and fs x :
  TF.matches (TF.Not (TF.And fs)) x = TF.matches (TF.Or (TF.Not <$> fs)) x.
Proof.
  cbn [TF.matches]. induction fs as [|f fs IH]; [done|]. cbn [forallb fmap list_fmap existsb].
  rewrite negb_andb. f_equal. exact IH.
Qed.

Lemma filter_not_or fs x :
  TF.matches (TF.Not (TF.Or fs)) x = TF.matches (TF.And (TF.Not <$> fs)) x.
Proof.
  cbn [TF.matches]. induction fs as [|f fs IH]; [done|]. cbn [forallb fmap list_fmap existsb].
  rewrite negb_orb. f_equal. exact IH.
Qed.

Lemma filter_empty x : TF.matches (TF.And []) x = true ∧ TF.matches (TF.Or []) x = false.
Proof. done. Qed.

(** ** Instances for examples *)

Definition unit_parts : EngramParts :=
  {| HdcFingerprint := unit; Attestation := unit; EmotionalTag := unit |}.

Definition text_serde : @BodySerde simple_Json := {|
  body_to_vec b := match b with
    | Body.Empty => [] | Body.Text s => str_bytes s | Body.Json v => @json_to_vec simple_Json v
    | Body.Bytes b => b end;
  body_to_value b := match b with Body.Text s => JStr s | _ => JNull end;
  json_array := JArr;
|}.

Definition flat_exp : ExpLib := {| f32_powf _ _ := one; f32_exp _ := one |}.

Section examples.
#[local] Existing Instance simple_Json.
#[local] Existing Instance unit_parts.
#[local] Existing Instance text_serde.
#[local] Existing Instance poly_blake3.
#[local] Existing Instance flat_exp.

(** The same signal, built at two times with its tags set in two orders. *)
Definition sample_1 : Engram :=
  build 5 (with_tag "a" "1" (with_tag "b" "2" (builder Kind.Metric))).
Definition sample_2 : Engram :=
  build 9 (with_tag "b" "2" (with_tag "a" "1" (builder Kind.Metric))).

Lemma content_hash_separates_tags_witness :
  content_hash sample_1 = content_hash sample_2 ∧ tags sample_1 = tags sample_2.
Proof.
  split; [vm_compute; reflexivity|].
  apply (content_hash_separates_tags sample_1 sample_2); try reflexivity;
    try (apply (bool_decide_unpack _); vm_compute; exact I);
    try (vm_compute; reflexivity).
  apply collision_free_decide; vm_compute; reflexivity.
Defined.
End examples.

(** The encoding of the tags is ambiguous where the separators may occur in them, and a custom
    kind shares the key of the kind it is named after: different signals, one identity. *)
Theorem content_hash_ambiguous
    `{J : Json, EP : !EngramParts, BS : !BodySerde, B3 : !Blake3, EL : !ExpLib} now :
  let e1 := build now (with_tag "a" "1" (with_tag "b" "2" (builder Kind.Metric))) in
  let e2 := build now (with_tag "a" "1;b=2" (builder Kind.Metric)) in
  id e1 = id e2 ∧ tags e1 ≠ tags e2
  ∧ id (build now (builder Kind.Plan)) = id (build now (builder (Kind.Custom "plan"))).
Proof.
  cbv zeta. split; [|split].
  - unfold build, content_hash, hash_input. cbn [id kind body provenance lineage tags].
    cbn [b_kind b_body b_provenance b_lineage b_tags with_tag builder].
    do 10 f_equal.
  - intros H. apply (f_equal (lookup "b")) in H. vm_compute in H. done.
  - done.
Qed.
