(* ===== verification/Signals.v ===== *)
(** * Signals between tasks (roko-runtime/src/event_bus.rs, pulse_bus.rs and cancel.rs,
      roko-core/src/bus_backends.rs)

    The bus that numbers events, keeps the last of them for replay and hands them to live
    subscribers; the buses of pulses over it, with filters by topic.  Emitting is three atomic
    actions, between which other threads may act: the number is taken, the event is put in the
    ring under its lock, and it is given to the broadcast channel.  The channels of tokio are
    third-party: of the broadcast channel only what is given to it is kept, and bounded
    channels are a parameter.

    Cancellation tokens form a tree: a token counts as cancelled when it or an ancestor was
    cancelled.  Tokens are shared objects: a store maps each to its flag and its parent, and a
    child is made after its parent, so that the walk along the parents ends. *)

From S2P Require Import Prelude Bytes EventLog Taint Text Body Scoring Engram.

(** ** The event bus (event_bus.rs) *)

Module Envelope.
Record t {E : Type} : Type := mk { seq : N; ts_millis : N; payload : E }.
Arguments t : clear implicits.
Arguments mk {_}.
End Envelope.
Abbreviation Envelope := Envelope.t.
Module Env := Envelope.

(** The push of a bounded ring: the oldest goes when it is full. *)
Definition ring_push {A} (capacity : nat) (x : A) (ring : list A) : list A :=
  (if (capacity <=? length ring)%nat then tail ring else ring) ++ [x].

(** [fetch_add(1)] of an [AtomicU64] wraps. *)
Definition wrap64 (n : N) : N := n mod (u64_MAX + 1).

Section event_bus.
Context {E : Type}.

(** [Shared]; [sent] is what the broadcast channel was given. *)
Record EventBus : Type := shared {
  ring : list (Envelope E);
  next_seq : N;
  capacity : nat;
  sent : list (Envelope E);
}.

(** A broadcast channel of capacity 0 panics. *)
Definition new_bus (capacity : nat) : option EventBus :=
  if (capacity =? 0)%nat then None else Some (shared [] 0 capacity []).

(** The three actions of [emit_inner]. *)
Definition take_seq (b : EventBus) : EventBus :=
  shared (ring b) (wrap64 (next_seq b + 1)) (capacity b) (sent b).
Definition record_event (env : Envelope E) (b : EventBus) : EventBus :=
  shared (ring_push (capacity b) env (ring b)) (next_seq b) (capacity b) (sent b).
Definition send_event (env : Envelope E) (b : EventBus) : EventBus :=
  shared (ring b) (next_seq b) (capacity b) (sent b ++ [env]).

Definition emit_inner (ts : N) (event : E) (b : EventBus) : EventBus * N :=
  let envelope := Env.mk (next_seq b) ts event in
  (send_event envelope (record_event envelope (take_seq b)), Env.seq envelope).

Definition replay_from (after_seq : N) (b : EventBus) : list (Envelope E) :=
  List.filter (λ e, after_seq <=? Env.seq e)%N (ring b).
Definition total_emitted (b : EventBus) : N := next_seq b.
Definition ring_len (b : EventBus) : nat := length (ring b).

(** *** Threads

    An emission that took its number, and whether it is in the ring already. *)
Record Flight : Type := flight { carried : Envelope E; in_ring : bool }.

(** The bus, the emissions on their way, and the history of the ring, of which only the proofs
    speak. *)
Record System : Type := system { bus : EventBus; flights : list Flight; log : list (Envelope E) }.

Definition quiet (b : EventBus) : System := system b [] [].

Inductive step : System → System → Prop :=
  | step_take ts event b fl lg :
      step (system b fl lg)
        (system (take_seq b) (fl ++ [flight (Env.mk (next_seq b) ts event) false]) lg)
  | step_record fl1 env fl2 b lg :
      step (system b (fl1 ++ flight env false :: fl2) lg)
        (system (record_event env b) (fl1 ++ flight env true :: fl2) (lg ++ [env]))
  | step_send fl1 env fl2 b lg :
      step (system b (fl1 ++ flight env true :: fl2) lg)
        (system (send_event env b) (fl1 ++ fl2) lg).

Definition unrecorded (fl : list Flight) : list (Envelope E) :=
  carried <$> List.filter (λ f, negb (in_ring f)) fl.
Definition unsent (fl : list Flight) : list (Envelope E) := carried <$> List.filter in_ring fl.

(** The last [n] elements. *)
Definition last_of {A} (n : nat) (l : list A) : list A := drop (length l - n) l.
End event_bus.
#[global] Arguments EventBus : clear implicits.
#[global] Arguments Flight : clear implicits.
#[global] Arguments System : clear implicits.

(** ** The buses of pulses (pulse_bus.rs, bus_backends.rs) *)

(** What a receiver of the broadcast channel is told. *)
Module Received.
Inductive t {E : Type} : Type := Event (e : Envelope E) | Lagged (n : N) | Closed.
Arguments t : clear implicits.
End Received.

(** A bounded channel of tokio with its state. *)
Class Mpsc (A : Type) := {
  channel : Type;
  fresh_channel : nat → channel;
  try_send : A → channel → channel;
  is_closed : channel → bool;
}.

(** What is in it waits to be received; sending to a full or closed one drops. *)
Class MpscLaws {A} (M : Mpsc A) := {
  waiting : channel → list A;
  room : channel → nat;
  fresh_waiting n : waiting (fresh_channel n) = [] ∧ room (fresh_channel n) = n;
  fresh_open n : is_closed (fresh_channel n) = false;
  sent_to c a :
    is_closed c = false → (length (waiting c) < room c)%nat →
    waiting (try_send a c) = waiting c ++ [a] ∧ room (try_send a c) = room c
    ∧ is_closed (try_send a c) = false;
  dropped_by c a :
    is_closed c = true ∨ (room c ≤ length (waiting c))%nat → try_send a c = c;
}.

Definition DEFAULT_CHANNEL_BUFFER : nat := 256.

Section pulses.
Context {J : Json}.

Definition filtered (filter : option TopicFilter) (p : Pulse) : bool :=
  match filter with Some f => TopicFilter.matches f (p_topic p) | None => true end.

(** [PulseBus], a wrapper of the event bus. *)
Abbreviation PulseBus := (EventBus Pulse).

Definition pulse_replay_from (after_seq : N) (filter : option TopicFilter) (b : PulseBus) :
    list Pulse :=
  Env.payload <$> List.filter (λ env, filtered filter (Env.payload env)) (replay_from after_seq b).

(** [publish] reads the number and then emits. *)
Definition pulse_publish (ts : N) (pulse : Pulse) (b : PulseBus) : PulseBus * N :=
  let seq := total_emitted b in
  let '(b, _) := emit_inner ts pulse b in (b, seq).

(** [recv], of what the channel will say; [None] when that has not been said yet. *)
Fixpoint pulse_recv (filter : TopicFilter) (said : list (Received.t Pulse)) :
    option (option Pulse * list (Received.t Pulse)) :=
  match said with
  | [] => None
  | Received.Event env :: said =>
      if TopicFilter.matches filter (p_topic (Env.payload env)) then
        Some (Some (Env.payload env), said)
      else pulse_recv filter said
  | Received.Lagged _ :: said => pulse_recv filter said
  | Received.Closed :: said => Some (None, said)
  end.

Context {M : Mpsc Pulse}.

Record BroadcastSubscriber : Type := subscriber { filter : TopicFilter; tx : channel }.

Definition offer (pulse : Pulse) (s : BroadcastSubscriber) : BroadcastSubscriber :=
  if TopicFilter.matches (filter s) (p_topic pulse) then
    subscriber (filter s) (try_send pulse (tx s))
  else s.
Definition live (subs : list BroadcastSubscriber) : list BroadcastSubscriber :=
  List.filter (λ s, negb (is_closed (tx s))) subs.

Record BroadcastBus : Type := broadcast_bus { bb_seq : N; bb_subscribers : list BroadcastSubscriber }.
Definition new_broadcast : BroadcastBus := broadcast_bus 0 [].
Definition subscriber_count (b : BroadcastBus) : nat := length (live (bb_subscribers b)).
Definition broadcast_publish (pulse : Pulse) (b : BroadcastBus) : BroadcastBus * N :=
  (broadcast_bus (wrap64 (bb_seq b + 1)) (offer pulse <$> bb_subscribers b), bb_seq b).
Definition broadcast_subscribe (f : TopicFilter) (b : BroadcastBus) : BroadcastBus :=
  broadcast_bus (bb_seq b)
    (live (bb_subscribers b) ++ [subscriber f (fresh_channel DEFAULT_CHANNEL_BUFFER)]).

Record MemoryBus : Type := memory_bus {
  mb_seq : N;
  mb_ring : list (N * Pulse);
  mb_capacity : nat;
  mb_subscribers : list BroadcastSubscriber;
}.
Definition new_memory (capacity : nat) : MemoryBus := memory_bus 0 [] capacity [].
Definition memory_replay_from (after_seq : N) (f : option TopicFilter) (b : MemoryBus) :
    list Pulse :=
  snd <$> List.filter (λ x : N * Pulse, filtered f x.2)
            (List.filter (λ x : N * Pulse, after_seq <=? x.1)%N (mb_ring b)).
Definition total_published (b : MemoryBus) : N := mb_seq b.
Definition memory_ring_len (b : MemoryBus) : nat := length (mb_ring b).
Definition memory_publish (pulse : Pulse) (b : MemoryBus) : MemoryBus * N :=
  (memory_bus (wrap64 (mb_seq b + 1)) (ring_push (mb_capacity b) (mb_seq b, pulse) (mb_ring b))
     (mb_capacity b) (offer pulse <$> mb_subscribers b), mb_seq b).
Definition memory_subscribe (f : TopicFilter) (b : MemoryBus) : MemoryBus :=
  memory_bus (mb_seq b) (mb_ring b) (mb_capacity b)
    (live (mb_subscribers b) ++ [subscriber f (fresh_channel DEFAULT_CHANNEL_BUFFER)]).

(** [MultiBus]: the other buses are of any kind, may fail, and are handles on an outside world,
    two of them perhaps on the same bus. *)
Context {Secondary World : Type}.
Context (publish_erased : Secondary → Pulse → World → World * result N string).

Record MultiBus : Type := multi_bus { primary : MemoryBus; secondaries : list Secondary }.
Definition new_multi (primary_capacity : nat) : MultiBus :=
  multi_bus (new_memory primary_capacity) [].
Definition add_secondary (s : Secondary) (b : MultiBus) : MultiBus :=
  multi_bus (primary b) (secondaries b ++ [s]).
Definition secondary_count (b : MultiBus) : nat := length (secondaries b).
Definition multi_publish (pulse : Pulse) (b : MultiBus) (w : World) : MultiBus * World * N :=
  let '(p, seq) := memory_publish pulse (primary b) in
  (multi_bus p (secondaries b), foldl (λ w s, (publish_erased s pulse w).1) w (secondaries b), seq).
Definition multi_subscribe (f : TopicFilter) (b : MultiBus) : MultiBus :=
  multi_bus (memory_subscribe f (primary b)) (secondaries b).
End pulses.

(** ** What the ring holds *)

Lemma ring_pushed {A} c (x : A) l :
  (0 < c)%nat → ring_push c x (last_of c l) = last_of c (l ++ [x]).
Proof.
  intros Hc. unfold ring_push, last_of. rewrite length_drop, length_app. cbn [length].
  destruct (Nat.leb_spec c (length l - (length l - c))).
  - rewrite drop_app_le by lia. f_equal.
    replace (length l + 1 - c)%nat with (S (length l - c)) by lia.
    generalize (length l - c)%nat as k. clear. intros k. revert k.
    induction l as [|a l IH]; intros [|k]; try done. cbn [drop]. apply IH.
  - replace (length l - c)%nat with 0%nat by lia. rewrite drop_0.
    replace (length l + 1 - c)%nat with 0%nat by lia. by rewrite drop_0.
Qed.

Section histories.
Context {E : Type}.
Implicit Types (b : EventBus E) (lg : list (Envelope E)).

(** The numbers of the first [n] events. *)
Definition numbers (n : nat) : list N := (λ i, wrap64 (N.of_nat i)) <$> seq 0 n.
#[local] Arguments numbers : simpl never.

Lemma wrap_next n : wrap64 (wrap64 n + 1) = wrap64 (n + 1).
Proof. apply N.Div0.add_mod_idemp_l. Qed.

Lemma numbers_S n : numbers (S n) = numbers n ++ [wrap64 (N.of_nat n)].
Proof. unfold numbers. rewrite seq_S, fmap_app. done. Qed.

Lemma numbers_NoDup n : (N.of_nat n ≤ u64_MAX + 1)%N → NoDup (numbers n).
Proof.
  intros Hn. apply NoDup_fmap_2_strong; [|apply NoDup_seq].
  intros x y Hx%elem_of_seq Hy%elem_of_seq. unfold wrap64. rewrite !N.mod_small by lia. lia.
Qed.

(** What holds after [n] numbers were taken. *)
Record history (c n : nat) (σ : System E) : Prop := {
  h_capacity : capacity (bus σ) = c;
  h_next : next_seq (bus σ) = wrap64 (N.of_nat n);
  h_ring : ring (bus σ) = last_of c (log σ);
  h_numbers : Env.seq <$> (unrecorded (flights σ) ++ log σ) ≡ₚ numbers n;
  h_sent : sent (bus σ) ++ unsent (flights σ) ≡ₚ log σ;
}.

Lemma history_new c b : new_bus c = Some b → history c 0 (quiet b) ∧ (0 < c)%nat.
Proof.
  unfold new_bus. destruct (Nat.eqb_spec c 0); [done|]. intros [= <-]. split; [|lia]. by split.
Qed.

Lemma history_step c n σ σ' :
  (0 < c)%nat → history c n σ → step σ σ' → history c n σ' ∨ history c (S n) σ'.
Proof.
  intros Hc [H1 H2 H3 H4 H5] Hs. unfold unrecorded, unsent in *. destruct Hs; cbn in *.
  - right. split; cbn; [done| |done| |].
    + rewrite H2, wrap_next. f_equal. lia.
    + unfold unrecorded. rewrite List.filter_app, numbers_S, <- H4, <- H2. cbn.
      rewrite fmap_app, !fmap_app. cbn. rewrite <- !(assoc (++)). f_equiv. apply Permutation_cons_append.
    + unfold unsent. rewrite List.filter_app. cbn. by rewrite app_nil_r.
  - left. split; cbn; [done|done| | |].
    + rewrite H1, H3. by apply ring_pushed.
    + rewrite <- H4. unfold unrecorded. rewrite !List.filter_app. cbn.
      rewrite !fmap_app. cbn. rewrite <- !(assoc (++)). f_equiv.
      rewrite (assoc (++)), <- (Permutation_cons_append _ (Env.seq env)). done.
    + unfold unsent. rewrite !List.filter_app in *. cbn in *. rewrite !fmap_app in *. cbn.
      rewrite <- H5, <- !(assoc (++)), <- Permutation_middle, (assoc (++)).
      rewrite <- (Permutation_cons_append _ env). rewrite <- !(assoc (++)). f_equiv. apply Permutation_middle.
  - left. split; cbn; [done..| |].
    + rewrite <- H4. unfold unrecorded. rewrite !List.filter_app. done.
    + unfold unsent. rewrite !List.filter_app in *. cbn in *. rewrite !fmap_app in *. cbn in *.
      rewrite <- H5, <- !(assoc (++)). f_equiv. cbn. by rewrite Permutation_middle.
Qed.

Lemma history_steps c n σ σ' :
  (0 < c)%nat → history c n σ → rtc step σ σ' → ∃ n', (n ≤ n')%nat ∧ history c n' σ'.
Proof.
  intros Hc Hh Hs. revert n Hh. induction Hs as [σ|σ1 σ2 σ3 H1 _ IH]; intros n Hh; [by exists n|].
  destruct (history_step _ _ _ _ Hc Hh H1) as [H|H]; destruct (IH _ H) as (n' & Hn & Hh');
    exists n'; (split; [lia|done]).
Qed.

Lemma replay_all b : replay_from 0 b = ring b.
Proof.
  unfold replay_from. generalize (ring b) as l. intros l. induction l as [|e l IH]; [done|].
  cbn [List.filter]. destruct (N.leb_spec 0 (Env.seq e)); [by f_equal|lia].
Qed.

(** C39: However emissions interleave: the numbers taken count from 0 and wrap, each taken by one event,
    which is on its way or was put in the ring once; the ring holds the last of those that were put
    there; and the live channel was given each of these once, but for those on their way. *)
Theorem bus_history c b σ :
  new_bus c = Some b → rtc step (quiet b) σ →
  ∃ n, next_seq (bus σ) = wrap64 (N.of_nat n)
    ∧ Env.seq <$> (unrecorded (flights σ) ++ log σ) ≡ₚ numbers n
    ∧ ((N.of_nat n ≤ u64_MAX + 1)%N → NoDup (Env.seq <$> log σ))
    ∧ replay_from 0 (bus σ) = last_of c (log σ)
    ∧ ring_len (bus σ) = Nat.min c (length (log σ))
    ∧ sent (bus σ) ++ unsent (flights σ) ≡ₚ log σ.
Proof.
  intros [Hh Hc]%history_new Hs. destruct (history_steps _ _ _ _ Hc Hh Hs) as (n & _ & [H1 H2 H3 H4 H5]).
  exists n. split_and!; [done|done| | | |done].
  - intros Hn. pose proof (numbers_NoDup n Hn) as Hd. rewrite <- H4, fmap_app in Hd.
    by apply NoDup_app in Hd as (_ & _ & ?).
  - rewrite <- H3. apply replay_all.
  - unfold ring_len. rewrite H3. unfold last_of. rewrite length_drop. lia.
Qed.

Lemma step_grows (σ σ' : System E) :
  step σ σ' → sent (bus σ) `prefix_of` sent (bus σ') ∧ log σ `prefix_of` log σ'.
Proof. destruct 1; cbn; split; try done; by eexists. Qed.

Lemma steps_grow (σ σ' : System E) :
  rtc step σ σ' → sent (bus σ) `prefix_of` sent (bus σ') ∧ log σ `prefix_of` log σ'.
Proof.
  induction 1 as [|σ1 σ2 σ3 H1 _ [IH1 IH2]]; [done|]. apply step_grows in H1 as [? ?].
  split; by etrans.
Qed.

(** A late joiner that subscribes in [σ1] and then replays in [σ2] has, by [σ3], seen every event
    that was put in the ring, in the replay or live, but for those on their way to the channel
    and those that had left the ring before the replay. *)
Theorem late_joiner c b σ1 σ2 σ3 e :
  new_bus c = Some b → rtc step (quiet b) σ1 → rtc step σ1 σ2 → rtc step σ2 σ3 →
  e ∈ log σ3 →
  e ∈ replay_from 0 (bus σ2)
  ∨ e ∈ drop (length (sent (bus σ1))) (sent (bus σ3))
  ∨ e ∈ unsent (flights σ3)
  ∨ e ∈ take (length (log σ2) - c) (log σ2).
Proof.
  intros [Hh Hc]%history_new H01 H12 H23 He.
  destruct (history_steps _ _ _ _ Hc Hh H01) as (n1 & _ & Hh1).
  destruct (history_steps _ _ _ _ Hc Hh1 H12) as (n2 & _ & Hh2).
  destruct (history_steps _ _ _ _ Hc Hh2 H23) as (n3 & _ & Hh3).
  rewrite <- (h_sent _ _ _ Hh3) in He. apply elem_of_app in He as [He|He]; [|by auto].
  assert (rtc step σ1 σ3) as H13 by by etrans.
  destruct (steps_grow _ _ H13) as [[new Hnew] _].
  rewrite Hnew in He. apply elem_of_app in He as [He|He].
  - assert (e ∈ log σ1) as He1 by (rewrite <- (h_sent _ _ _ Hh1); apply elem_of_app; by left).
    destruct (steps_grow _ _ H12) as [_ [more Hmore]].
    assert (e ∈ log σ2) as He2 by (rewrite Hmore; apply elem_of_app; by left).
    rewrite <- (take_drop (length (log σ2) - c) (log σ2)) in He2.
    apply elem_of_app in He2 as [?|He2]; [by auto|]. left.
    by rewrite replay_all, (h_ring _ _ _ Hh2).
  - right. left. rewrite Hnew, drop_app_ge, Nat.sub_diag by lia. by rewrite drop_0.
Qed.

(** *** One thread *)

Definition emit_all (evs : list (N * E)) (b : EventBus E) : EventBus E :=
  foldl (λ b ev, (emit_inner ev.1 ev.2 b).1) b evs.

(** The events under their numbers. *)
Definition numbered (i : nat) (evs : list (N * E)) : list (Envelope E) :=
  imap (λ k ev, Env.mk (wrap64 (N.of_nat (i + k))) ev.1 ev.2) evs.

Lemma emit_steps ts ev b lg :
  rtc step (system b [] lg)
    (system (emit_inner ts ev b).1 [] (lg ++ [Env.mk (next_seq b) ts ev])).
Proof.
  eapply rtc_l; [apply step_take|]. eapply rtc_l; [apply (step_record [] _ [])|].
  eapply rtc_l; [apply (step_send [] _ [])|]. apply rtc_refl.
Qed.

Lemma numbered_cons i ev evs :
  numbered i (ev :: evs) = Env.mk (wrap64 (N.of_nat i)) ev.1 ev.2 :: numbered (S i) evs.
Proof.
  unfold numbered. cbn [imap]. rewrite Nat.add_0_r. f_equal. apply imap_ext. intros k x _. cbn.
  by replace (i + S k)%nat with (S (i + k)) by lia.
Qed.

Lemma emitted_next ts ev b i :
  next_seq b = wrap64 (N.of_nat i) →
  next_seq (emit_inner ts ev b).1 = wrap64 (N.of_nat (S i)).
Proof. intros Hi. cbn. rewrite Hi, wrap_next. f_equal. lia. Qed.

Lemma emit_all_steps evs b lg i :
  next_seq b = wrap64 (N.of_nat i) →
  rtc step (system b [] lg) (system (emit_all evs b) [] (lg ++ numbered i evs)).
Proof.
  revert b lg i. induction evs as [|ev evs IH]; intros b lg i Hi.
  { unfold numbered. cbn. rewrite app_nil_r. apply rtc_refl. }
  etrans; [apply (emit_steps ev.1 ev.2)|].
  replace (lg ++ numbered i (ev :: evs))
    with ((lg ++ [Env.mk (next_seq b) ev.1 ev.2]) ++ numbered (S i) evs)
    by (by rewrite numbered_cons, Hi, <- (assoc (++))).
  apply IH. by apply emitted_next.
Qed.

Lemma emit_all_sent evs b i :
  next_seq b = wrap64 (N.of_nat i) →
  sent (emit_all evs b) = sent b ++ numbered i evs
  ∧ next_seq (emit_all evs b) = wrap64 (N.of_nat (i + length evs)).
Proof.
  revert b i. induction evs as [|ev evs IH]; intros b i Hi; cbn [emit_all foldl length].
  - unfold numbered. cbn. by rewrite app_nil_r, Nat.add_0_r.
  - destruct (IH (emit_inner ev.1 ev.2 b).1 (S i)) as [H1 H2]; [by apply emitted_next|].
    unfold emit_all in H1, H2. rewrite H1, H2, numbered_cons. cbn.
    rewrite Hi, <- (assoc (++)). split; [done|f_equal; lia].
Qed.

Lemma filter_numbered k i evs :
  (N.of_nat (i + length evs) ≤ u64_MAX + 1)%N →
  List.filter (λ e, k <=? Env.seq e)%N (numbered i evs) = drop (N.to_nat k - i) (numbered i evs).
Proof.
  revert i. induction evs as [|ev evs IH]; intros i Hi; [symmetry; apply drop_nil|].
  rewrite numbered_cons. cbn [length] in Hi. cbn [List.filter Env.seq].
  unfold wrap64 at 1. rewrite N.mod_small by lia. rewrite IH by lia.
  destruct (N.leb_spec k (N.of_nat i)).
  - replace (N.to_nat k - i)%nat with 0%nat by lia. by replace (N.to_nat k - S i)%nat with 0%nat by lia.
  - by replace (N.to_nat k - i)%nat with (S (N.to_nat k - S i)) by lia.
Qed.

Lemma filter_drop_numbered k j evs :
  (N.of_nat (length evs) ≤ u64_MAX + 1)%N →
  List.filter (λ e, k <=? Env.seq e)%N (drop j (numbered 0 evs))
    = drop (Nat.max j (N.to_nat k)) (numbered 0 evs).
Proof.
  intros Hi. assert (drop j (numbered 0 evs) = numbered j (drop j evs)) as E1.
  { apply list_eq. intros x. unfold numbered. by rewrite lookup_drop, !list_lookup_imap, lookup_drop. }
  rewrite E1. destruct (decide (j ≤ length evs)%nat) as [Hj|Hj].
  - rewrite filter_numbered by (rewrite length_drop; lia). rewrite <- E1, drop_drop. f_equal. lia.
  - rewrite (drop_ge evs) by lia. symmetry. apply drop_ge. unfold numbered. rewrite length_imap. lia.
Qed.

(** Without interleaving, a replay gives exactly the events from the number asked for on, as far
    as they are among the last that fit, in the order of their numbers. *)
Theorem replay_in_order c b evs k :
  new_bus c = Some b → (N.of_nat (length evs) ≤ u64_MAX + 1)%N →
  replay_from k (emit_all evs b) = drop (Nat.max (length evs - c) (N.to_nat k)) (numbered 0 evs)
  ∧ sent (emit_all evs b) = numbered 0 evs
  ∧ total_emitted (emit_all evs b) = wrap64 (N.of_nat (length evs)).
Proof.
  intros Hb Hn. destruct (history_new _ _ Hb) as [Hh Hc].
  assert (next_seq b = wrap64 (N.of_nat 0)) as H0 by apply (h_next _ _ _ Hh).
  pose proof (emit_all_steps evs b [] 0 H0) as Hs. cbn [app] in Hs.
  destruct (history_steps _ _ _ _ Hc Hh Hs) as (n & _ & Hh').
  destruct (emit_all_sent evs b 0 H0) as [Hs1 Hs2]. split_and!; [| |exact Hs2].
  - unfold replay_from. pose proof (h_ring _ _ _ Hh') as Hr. cbn [bus log] in Hr. rewrite Hr.
    unfold last_of. rewrite filter_drop_numbered by done. f_equal. unfold numbered.
    rewrite length_imap. lia.
  - rewrite Hs1. unfold new_bus in Hb. destruct (_ =? _)%nat; [done|]. by injection Hb as <-.
Qed.
End histories.

(** ** What subscribers get *)

Section delivery.
Context {J : Json} {M : Mpsc Pulse} {ML : MpscLaws M}.
Implicit Types (ps : list Pulse) (s : BroadcastSubscriber).

Definition wanted (s : BroadcastSubscriber) (ps : list Pulse) : list Pulse :=
  List.filter (λ p, TopicFilter.matches (filter s) (p_topic p)) ps.
Definition offered (ps : list Pulse) (s : BroadcastSubscriber) : BroadcastSubscriber :=
  foldl (λ s p, offer p s) s ps.

Lemma offer_filter p s : filter (offer p s) = filter s.
Proof. unfold offer. by destruct (TopicFilter.matches _ _). Qed.

(** A subscriber whose receiver lives and takes nothing gets the pulses that match its filter, in
    order, until its channel is full, and no pulse after. *)
Lemma offered_spec s ps :
  is_closed (tx s) = false → (length (waiting (tx s)) ≤ room (tx s))%nat →
  waiting (tx (offered ps s))
    = waiting (tx s) ++ take (room (tx s) - length (waiting (tx s))) (wanted s ps)
  ∧ is_closed (tx (offered ps s)) = false ∧ filter (offered ps s) = filter s.
Proof.
  revert s. induction ps as [|p ps IH]; intros s Ho Hl; cbn [offered foldl wanted List.filter].
  { by rewrite take_nil, app_nil_r. }
  unfold offered in IH. destruct (TopicFilter.matches (filter s) (p_topic p)) eqn:Ep.
  - assert (offer p s = subscriber (filter s) (try_send p (tx s))) as -> by (unfold offer; by rewrite Ep).
    destruct (decide (length (waiting (tx s)) < room (tx s))%nat) as [Hr|Hr].
    + destruct (sent_to (tx s) p Ho Hr) as (Hw & Hroom & Hopen).
      destruct (IH (subscriber (filter s) (try_send p (tx s)))) as (H1 & H2 & H3); cbn [tx] in *;
        [done|rewrite Hw, Hroom, length_app; cbn; lia|].
      split; [|done]. rewrite H1, Hw, Hroom, length_app, <- (assoc (++)). f_equal. cbn [length].
      replace (room (tx s) - length (waiting (tx s)))%nat
        with (S (room (tx s) - (length (waiting (tx s)) + 1))) by lia. done.
    + rewrite dropped_by by lia.
      destruct (IH (subscriber (filter s) (tx s))) as (H1 & H2 & H3); [done|cbn; lia|].
      split; [|done]. rewrite H1. cbn [tx].
      by replace (room (tx s) - length (waiting (tx s)))%nat with 0%nat by lia.
  - assert (offer p s = s) as -> by (unfold offer; by rewrite Ep). by apply IH.
Qed.

Lemma broadcast_all ps b :
  bb_subscribers (foldl (λ b p, (broadcast_publish p b).1) b ps) = offered ps <$> bb_subscribers b.
Proof.
  revert b. induction ps as [|p ps IH]; intros b; cbn [foldl].
  - symmetry. apply list_fmap_id.
  - rewrite IH. cbn. by rewrite <- list_fmap_compose.
Qed.

Lemma memory_all ps b :
  mb_subscribers (foldl (λ b p, (memory_publish p b).1) b ps) = offered ps <$> mb_subscribers b.
Proof.
  revert b. induction ps as [|p ps IH]; intros b; cbn [foldl].
  - symmetry. apply list_fmap_id.
  - rewrite IH. cbn. by rewrite <- list_fmap_compose.
Qed.

(** Who subscribes gets every later pulse that matches, in order, as far as the buffer reaches. *)
Theorem new_subscriber_gets f b ps :
  ∃ s, last (bb_subscribers (foldl (λ b p, (broadcast_publish p b).1) (broadcast_subscribe f b) ps))
         = Some s
    ∧ waiting (tx s)
      = take DEFAULT_CHANNEL_BUFFER (List.filter (λ p, TopicFilter.matches f (p_topic p)) ps).
Proof.
  rewrite broadcast_all. cbn. rewrite fmap_app. cbn. rewrite last_snoc. eexists. split; [done|].
  destruct (fresh_waiting DEFAULT_CHANNEL_BUFFER) as [Hw Hr].
  destruct (offered_spec (subscriber f (fresh_channel DEFAULT_CHANNEL_BUFFER)) ps) as (-> & _);
    cbn [tx]; [apply fresh_open|rewrite Hw; cbn; lia|].
  by rewrite Hw, Hr.
Qed.

(** A receiver of the pulse bus passes over gaps and what its filter does not match, and over
    nothing else. *)
Definition passed_over (f : TopicFilter) (r : Received.t Pulse) : bool :=
  match r with
  | Received.Event env => negb (TopicFilter.matches f (p_topic (Env.payload env)))
  | Received.Lagged _ => true
  | Received.Closed => false
  end.

Lemma recv_spec f said p rest :
  pulse_recv f said = Some (Some p, rest) ↔
  ∃ skipped env, said = skipped ++ Received.Event env :: rest ∧ Env.payload env = p
    ∧ TopicFilter.matches f (p_topic p) = true ∧ forallb (passed_over f) skipped = true.
Proof.
  split.
  - induction said as [|[env|n|] said IH]; cbn [pulse_recv]; [done| | |done].
    + destruct (TopicFilter.matches f (p_topic (Env.payload env))) eqn:E.
      * intros H. simplify_eq. by exists [], env.
      * intros (skipped & env' & -> & Hp & Hm & Hs)%IH. exists (Received.Event env :: skipped), env'.
        split_and!; try done. cbn. by rewrite E, Hs.
    + intros (skipped & env' & -> & Hp & Hm & Hs)%IH. by exists (Received.Lagged n :: skipped), env'.
  - intros (skipped & env & -> & <- & Hm & Hs). induction skipped as [|r skipped IH]; cbn [app pulse_recv].
    + by rewrite Hm.
    + cbn in Hs. apply andb_true_iff in Hs as [Hr Hs]. destruct r as [env'|n|]; [|by apply IH|done].
      cbn in Hr. destruct (TopicFilter.matches f (p_topic (Env.payload env'))); [done|by apply IH].
Qed.
End delivery.

(** ** A small channel, and what can go wrong *)

Definition simple_mpsc : Mpsc (@Pulse simple_Json) := {|
  channel := nat * list (@Pulse simple_Json) * bool;
  fresh_channel n := (n, [], false);
  try_send p c := if c.2 || (c.1.1 <=? length c.1.2)%nat then c else (c.1.1, c.1.2 ++ [p], false);
  is_closed c := c.2;
|}.

#[global] Instance simple_mpsc_laws : MpscLaws simple_mpsc.
Proof.
  refine {| waiting := λ c : @channel _ simple_mpsc, (c : nat * list (@Pulse simple_Json) * bool).1.2;
            room := λ c : @channel _ simple_mpsc, (c : nat * list (@Pulse simple_Json) * bool).1.1 |}; try done.
  - intros [[n l] []] a H Hl; [done|]. cbn in *. destruct (Nat.leb_spec n (length l)); [lia|done].
  - intros [[n l] []] a H; [done|]. cbn in *. destruct (Nat.leb_spec n (length l)); [done|].
    destruct H; [done|lia].
Qed.

(** Two threads of which the second overtakes the first: the ring is out of order, and of a ring of
    one the newer event has already left. *)
Definition overtaken (c : nat) : EventBus string :=
  let b := shared [] 0 c [] in
  let first := Env.mk (next_seq b) 0 "first" in let b := take_seq b in
  let second := Env.mk (next_seq b) 0 "second" in let b := take_seq b in
  send_event first (record_event first (send_event second (record_event second b))).

Example out_of_order :
  Env.seq <$> replay_from 0 (overtaken 2) = [1; 0]%N
  ∧ Env.payload <$> replay_from 0 (overtaken 1) = ["first"] ∧ replay_from 1 (overtaken 1) = [].
Proof. by vm_compute. Qed.

Lemma overtaken_reachable :
  rtc step (quiet (shared [] 0 2 []))
    (system (overtaken 2) [] [Env.mk 1 0 "second"; Env.mk 0 0 "first"]).
Proof.
  eapply rtc_l; [apply (step_take 0 "first")|]. eapply rtc_l; [apply (step_take 0 "second")|].
  eapply rtc_l; [apply (step_record [flight (Env.mk 0 0 "first") false] (Env.mk 1 0 "second") [])|].
  eapply rtc_l; [apply (step_send [flight (Env.mk 0 0 "first") false] (Env.mk 1 0 "second") [])|].
  eapply rtc_l; [apply (step_record [] (Env.mk 0 0 "first") [])|].
  eapply rtc_l; [apply (step_send [] (Env.mk 0 0 "first") [])|]. apply rtc_refl.
Qed.

(** Two publishers of a pulse bus that read the number before either emits are told the same. *)
Example same_number :
  let b := shared [] 0 4 [] in
  let told1 := total_emitted b in let told2 := total_emitted b in
  let '(b, seq1) := emit_inner 0 "a" b in let '(b, seq2) := emit_inner 0 "b" b in
  (told1, told2) = (0, 0)%N ∧ (seq1, seq2) = (0, 1)%N.
Proof. by vm_compute. Qed.

(** A memory bus without capacity keeps one pulse. *)
Example ring_of_zero :
  @memory_ring_len simple_Json simple_mpsc
    (@memory_publish simple_Json simple_mpsc (@new_pulse simple_Json 0 "t" Kind.Metric Body.Empty 0)
       (@new_memory simple_Json simple_mpsc 0)).1 = 1%nat.
Proof. by vm_compute. Qed.

(** The bus of [overtaken]: two numbers, both events in the ring, out of order, and both sent. *)
Lemma bus_history_witness :
  ∃ n, next_seq (overtaken 2) = wrap64 (N.of_nat n)
    ∧ Env.seq <$> [Env.mk 1 0 "second"; Env.mk 0 0 "first"] ≡ₚ numbers n
    ∧ ring_len (overtaken 2) = 2%nat.
Proof.
  destruct (bus_history 2 (shared [] 0 2 []) _ eq_refl overtaken_reachable)
    as (n & H1 & H2 & _ & _ & H3 & _). by exists n.
Defined.

(** ** Cancellation tokens (cancel.rs) *)

Module CancelToken.
Record CancelInner : Type := inner { cancelled : bool; parent : option nat }.

(** A token is its place in the store. *)
Abbreviation Tokens := (list CancelInner).

Definition new (s : Tokens) : Tokens * nat := (s ++ [inner false None], length s).
Definition child (token : nat) (s : Tokens) : Tokens * nat :=
  (s ++ [inner false (Some token)], length s).

(** [store(true)]; [notify_waiters] wakes those that wait on this token. *)
Definition cancel (token : nat) (s : Tokens) : Tokens :=
  alter (λ t, inner true (parent t)) token s.
Definition notified_by (token : nat) : list nat := [token].

(** The walk of [is_cancelled]. *)
Fixpoint walk (fuel : nat) (current : option nat) (s : Tokens) : bool :=
  match fuel, current with
  | S fuel', Some token =>
      match s !! token with
      | Some t => cancelled t || walk fuel' (parent t) s
      | None => false
      end
  | _, _ => false
  end.
(** A chain has at most as many tokens as were made up to this one. *)
Definition is_cancelled (token : nat) (s : Tokens) : bool := walk (S token) (Some token) s.

(** The handles that [cancelled] collects, and those of them it waits on: with a chain of three
    or more, the first and the last. *)
Fixpoint chain (fuel : nat) (token : nat) (s : Tokens) : list nat :=
  match fuel with
  | O => []
  | S fuel' =>
      match s !! token with
      | Some t => token :: match parent t with Some p => chain fuel' p s | None => [] end
      | None => []
      end
  end.
Definition notifies (token : nat) (s : Tokens) : list nat := chain (S token) token s.
Definition waited_on (token : nat) (s : Tokens) : list nat :=
  match notifies token s with
  | [] => []
  | [a] => [a]
  | [a; b] => [a; b]
  | a :: l => [a; stdpp.option.default a (last l)]
  end.

(** What the operations of a program do to the store. *)
Inductive op : Tokens → Tokens → Prop :=
  | op_new s : op s (new s).1
  | op_child s token : (token < length s)%nat → op s (child token s).1
  | op_cancel s token : op s (cancel token s).

(** ** Cancellation reaches the descendants, and nothing else *)

(** Parents are older than their children. *)
Definition wf (s : Tokens) : Prop := ∀ i t p, s !! i = Some t → parent t = Some p → (p < i)%nat.

(** [a] is [i] or an ancestor of it. *)
Inductive ancestor (s : Tokens) (a : nat) : nat → Prop :=
  | ancestor_self : (a < length s)%nat → ancestor s a a
  | ancestor_up i t p : s !! i = Some t → parent t = Some p → ancestor s a p → ancestor s a i.

Definition flagged (s : Tokens) (i : nat) : Prop := cancelled <$> s !! i = Some true.

Lemma lookup_snoc_inner (s : Tokens) x i t :
  (s ++ [x]) !! i = Some t → s !! i = Some t ∨ (i = length s ∧ t = x).
Proof.
  intros [?|[? (? & <-)%list_lookup_singleton_Some]]%lookup_app_Some; [by left|right].
  split; [lia|done].
Qed.

Lemma cancel_lookup token s i t :
  cancel token s !! i = Some t → ∃ t0, s !! i = Some t0 ∧ parent t = parent t0.
Proof.
  unfold cancel. destruct (decide (i = token)) as [->|Hne].
  - rewrite list_lookup_alter, decide_True by done. destruct (s !! token) as [t0|]; [|done].
    intros [= <-]. by exists t0.
  - rewrite list_lookup_alter, decide_False by done. intros H. by exists t.
Qed.

Lemma op_wf s s' : wf s → op s s' → wf s'.
Proof.
  intros Hs Ho i t p Hi Hp. destruct Ho as [s|s token Ht|s token]; cbn in Hi.
  - apply lookup_snoc_inner in Hi as [Hi|[-> ->]]; [by eapply Hs|done].
  - apply lookup_snoc_inner in Hi as [Hi|[-> ->]]; [by eapply Hs|]. cbn in Hp. by injection Hp as <-.
  - apply cancel_lookup in Hi as (t0 & Hi & Hp'). rewrite Hp' in Hp. by eapply Hs.
Qed.

Lemma walk_spec fuel i s :
  wf s → (i < fuel)%nat →
  walk fuel (Some i) s = true ↔ ∃ a, ancestor s a i ∧ flagged s a.
Proof.
  intros Hs. revert i. induction fuel as [|fuel IH]; intros i Hi; [lia|]. cbn [walk].
  destruct (s !! i) as [t|] eqn:E.
  - rewrite orb_true_iff. split.
    + intros [H|H].
      * exists i. split; [apply ancestor_self; by eapply lookup_lt_Some|].
        unfold flagged. by rewrite E; cbn; rewrite H.
      * destruct (parent t) as [p|] eqn:Ep; [|by destruct fuel].
        apply IH in H as (a & Ha & Hf); [|specialize (Hs _ _ _ E Ep); lia].
        exists a. split; [by eapply ancestor_up|done].
    + intros (a & Ha & Hf). destruct Ha as [Hl|i t' p E' Ep Ha].
      * left. unfold flagged in Hf. rewrite E in Hf. by injection Hf.
      * right. rewrite E in E'. injection E' as <-. rewrite Ep. apply IH; [|by exists a].
        specialize (Hs _ _ _ E Ep). lia.
  - split; [done|]. intros (a & Ha & Hf). destruct Ha as [Hl|i t' p E' Ep Ha]; [|by rewrite E in E'].
    apply lookup_ge_None in E. lia.
Qed.

(** The walk ends, and finds exactly whether an ancestor was cancelled. *)
Lemma is_cancelled_spec i s :
  wf s → is_cancelled i s = true ↔ ∃ a, ancestor s a i ∧ flagged s a.
Proof. intros Hs. apply walk_spec; [done|lia]. Qed.

Lemma op_lookup s s' i t :
  op s s' → s !! i = Some t →
  ∃ t', s' !! i = Some t' ∧ parent t' = parent t ∧ (cancelled t = true → cancelled t' = true).
Proof.
  intros Ho Hi. pose proof (lookup_lt_Some _ _ _ Hi) as Hl. destruct Ho as [s|s token Ht|s token]; cbn.
  - exists t. by rewrite lookup_app_l.
  - exists t. by rewrite lookup_app_l.
  - unfold cancel. destruct (decide (i = token)) as [->|Hne].
    + exists (inner true (parent t)). by rewrite list_lookup_alter, decide_True, Hi by done.
    + exists t. by rewrite list_lookup_alter, decide_False by done.
Qed.

Lemma op_ancestor s s' a i : op s s' → ancestor s a i → ancestor s' a i.
Proof.
  intros Ho. induction 1 as [Hl|i t p Hi Hp _ IH].
  - apply lookup_lt_is_Some in Hl as [t Ht]. destruct (op_lookup _ _ _ _ Ho Ht) as (t' & Ht' & _).
    apply ancestor_self. by eapply lookup_lt_Some.
  - destruct (op_lookup _ _ _ _ Ho Hi) as (t' & Ht' & Hp' & _). eapply ancestor_up; [done| |done].
    by rewrite Hp'.
Qed.





Lemma ancestor_lt s a i : ancestor s a i → (a < length s)%nat.
Proof. by induction 1. Qed.


Lemma older_ancestor s x a i :
  wf s → (i < length s)%nat → ancestor (s ++ [x]) a i → ancestor s a i.
Proof.
  intros Hs Hi Ha. induction Ha as [Hl|i t p Hl Hp _ IH]; [by apply ancestor_self|].
  apply lookup_snoc_inner in Hl as [Hl|[-> _]]; [|lia]. eapply ancestor_up; [done|done|].
  apply IH. specialize (Hs _ _ _ Hl Hp). lia.
Qed.

(** A new token is not cancelled; a new child is exactly when its parent is. *)
Lemma new_tokens s token :
  wf s → (token < length s)%nat →
  is_cancelled (new s).2 (new s).1 = false
  ∧ is_cancelled (child token s).2 (child token s).1 = is_cancelled token s.
Proof.
  intros Hs Ht. split.
  - unfold is_cancelled. cbn [walk new fst snd]. rewrite lookup_app_r, Nat.sub_diag by lia. cbn.
    by destruct (length s).
  - apply eq_true_iff_eq. rewrite !is_cancelled_spec; [|done|by eapply op_wf, op_child].
    assert (op s (child token s).1) as Ho by by apply op_child. cbn [fst snd child].
    assert ((s ++ [inner false (Some token)]) !! length s = Some (inner false (Some token))) as El
      by (by rewrite lookup_app_r, Nat.sub_diag by lia).
    split.
    + intros (a & Ha & Hf). inversion Ha as [Hl|i t p Hi Hp Ha']; subst.
      * unfold flagged in Hf. rewrite El in Hf. done.
      * rewrite El in Hi. injection Hi as <-. injection Hp as <-. exists a.
        apply older_ancestor in Ha'; [|done|done]. pose proof (ancestor_lt _ _ _ Ha') as Hl.
        split; [done|]. unfold flagged in *. by rewrite lookup_app_l in Hf.
    + intros (a & Ha & Hf). exists a. pose proof (ancestor_lt _ _ _ Ha) as Hl.
      split; [eapply ancestor_up; [exact El|done|by eapply op_ancestor]|].
      unfold flagged in *. by rewrite lookup_app_l.
Qed.

(** ** Waiting *)

(** With a chain of three, a waiter listens to itself and the root: when its parent is cancelled
    it counts as cancelled and nothing it waits on is notified. *)
Example deaf_to_the_middle :
  let s := [inner false None; inner false (Some 0%nat); inner false (Some 1%nat)] in
  waited_on 2 s = [2; 0]%nat ∧ notified_by 1 = [1]%nat ∧ is_cancelled 2 s = false
  ∧ is_cancelled 2 (cancel 1 s) = true.
Proof. by vm_compute. Qed.

(** A waiter with at most one ancestor listens to all that can cancel it. *)
Lemma shallow_waiters_listen s i :
  wf s → (length (notifies i s) ≤ 2)%nat → ∀ a, ancestor s a i → a ∈ waited_on i s.
Proof.
  intros Hs Hl a Ha.
  assert (∀ fuel j, (j < fuel)%nat → ancestor s a j → a ∈ chain fuel j s) as Hin.
  { clear -Hs. intros fuel. induction fuel as [|fuel IH]; intros j Hj Ha; [lia|]. cbn [chain].
    destruct Ha as [Hl|i t p Hi Hp Ha].
    - apply lookup_lt_is_Some in Hl as [t ->]. by left.
    - rewrite Hi, Hp. right. apply IH; [|done]. specialize (Hs _ _ _ Hi Hp). lia. }
  specialize (Hin (S i) i ltac:(lia) Ha). unfold waited_on. unfold notifies in *.
  destruct (chain (S i) i s) as [|x [|y [|z l]]]; cbn [length] in *; [done..|lia].
Qed.

(** ** An instance *)

End CancelToken.
