(* ===== verification/Job.v ===== *)
(** * Marketplace jobs (roko-core/src/job.rs)

    The lifecycle of a job, the kinds of jobs, and the store of jobs: a directory with one
    file per job, here the finite map from the file's stem to the job serde reads back from
    it.  Failures of the file system are not modelled. *)

From S2P Require Import Prelude EventLog Text.

(** ** The lifecycle *)

Module JobStatus.
Inductive t : Type :=
  | Open | Assigned | InProgress | Submitted | Completed | Failed | Cancelled.

#[global] Instance t_eq_dec : EqDecision t.
Proof. solve_decision. Defined.

Definition parse (s : string) : option t :=
  let s := str_to_ascii_lowercase (utf8_trim s) in
  if string_eqb s "open" || string_eqb s "pending" then Some Open
  else if string_eqb s "assigned" then Some Assigned
  else if string_eqb s "in_progress" || string_eqb s "active" || string_eqb s "running" then
    Some InProgress
  else if string_eqb s "submitted" then Some Submitted
  else if string_eqb s "completed" || string_eqb s "done" || string_eqb s "evaluated" then
    Some Completed
  else if string_eqb s "failed" then Some Failed
  else if string_eqb s "cancelled" || string_eqb s "canceled" then Some Cancelled
  else None.

Definition as_str (s : t) : string :=
  match s with
  | Open => "open"
  | Assigned => "assigned"
  | InProgress => "in_progress"
  | Submitted => "submitted"
  | Completed => "completed"
  | Failed => "failed"
  | Cancelled => "cancelled"
  end.

Definition valid_transitions (s : t) : list t :=
  match s with
  | Open => [Assigned; InProgress; Cancelled]
  | Assigned => [InProgress; Open; Cancelled]
  | InProgress => [Submitted; Failed; Cancelled]
  | Submitted => [Completed; InProgress; Failed]
  | Completed | Failed | Cancelled => []
  end.

Definition is_terminal (s : t) : bool :=
  match s with Completed | Failed | Cancelled => true | _ => false end.
End JobStatus.
Abbreviation JobStatus := JobStatus.t.

Module JobType.
Inductive t : Type :=
  | Research | CodingTask | ChainMonitor | ChainAnalysis | Review | Documentation | Testing
  | Other (s : string).

Definition default : t := Other "other".

Definition display (x : t) : string :=
  match x with
  | Research => "research"
  | CodingTask => "coding_task"
  | ChainMonitor => "chain_monitor"
  | ChainAnalysis => "chain_analysis"
  | Review => "review"
  | Documentation => "documentation"
  | Testing => "testing"
  | Other s => s
  end.

Definition from_str (s : string) : t :=
  let s := str_to_ascii_lowercase (utf8_trim s) in
  if string_eqb s "research" then Research
  else if string_eqb s "coding_task" || string_eqb s "coding" then CodingTask
  else if string_eqb s "chain_monitor" then ChainMonitor
  else if string_eqb s "chain_analysis" then ChainAnalysis
  else if string_eqb s "review" then Review
  else if string_eqb s "documentation" || string_eqb s "docs" then Documentation
  else if string_eqb s "testing" || string_eqb s "test" then Testing
  else Other s.
End JobType.
Abbreviation JobType := JobType.t.

(** ** Jobs *)

Section Jobs.
Context `{J : Json}.

Record MarketplaceJob : Type := mk_job {
  id : string;
  title : string;
  description : string;
  job_type : string;
  status : string;
  state : string;
  posted_by : string;
  assigned_to : string;
  priority : string;
  created_at : string;
  updated_at : string;
  tags : list string;
  reward : string;
  plan_id : string;
  submission : option json;
  evaluation : option json;
  auto_execute : bool;
}.

Definition set_id (i : string) (j : MarketplaceJob) : MarketplaceJob :=
  mk_job i (title j) (description j) (job_type j) (status j) (state j) (posted_by j)
    (assigned_to j) (priority j) (created_at j) (updated_at j) (tags j) (reward j) (plan_id j)
    (submission j) (evaluation j) (auto_execute j).

Definition effective_status (j : MarketplaceJob) : string :=
  let s := utf8_trim (status j) in
  if negb (str_is_empty s) then s
  else
    let fallback := utf8_trim (state j) in
    if negb (str_is_empty fallback) then fallback else "open".

Record JobFilter : Type := mk_filter {
  f_state : option JobStatus;
  f_job_type : option string;
  f_assigned_to : option string;
}.

Definition default_filter : JobFilter := mk_filter None None None.

(** An unset or empty text filters nothing. *)
Definition text_filter (want : option string) (have : string) : bool :=
  match want with
  | Some w => str_is_empty w || string_eqb have w
  | None => true
  end.

Definition filter_matches (f : JobFilter) (j : MarketplaceJob) : bool :=
  match f_state f with
  | Some s => bool_decide (JobStatus.parse (status j) = Some s)
  | None => true
  end
  && text_filter (f_job_type f) (job_type j)
  && text_filter (f_assigned_to f) (assigned_to j).

Record CreateJobRequest : Type := mk_request {
  r_title : string;
  r_description : string;
  r_job_type : string;
  r_priority : string;
  r_tags : list string;
  r_reward : string;
  r_auto_execute : bool;
}.

(** ** The store *)

Definition save (j : MarketplaceJob) (store : gmap string MarketplaceJob) :
    gmap string MarketplaceJob := <[id j := j]> store.

(** [None] is [JobError::NotFound(id)]. *)
Definition get (i : string) (store : gmap string MarketplaceJob) : option MarketplaceJob :=
  store !! i.

(** The job of a file of the directory, named after the file when it has no identifier. *)
Definition listed (kv : string * MarketplaceJob) : MarketplaceJob :=
  if str_is_empty (id kv.2) then set_id kv.1 kv.2 else kv.2.

(** The newest first; [b.created_at.cmp(&a.created_at).then(b.id.cmp(&a.id))]. *)
Definition newest_first (a b : MarketplaceJob) : bool :=
  match String.compare (created_at b) (created_at a) with
  | Lt => true
  | Gt => false
  | Eq => String.leb (id b) (id a)
  end.

(** The directory is read in the order of the file system. *)
Definition list_jobs {HI : HashIter} (f : JobFilter) (store : gmap string MarketplaceJob) :
    list MarketplaceJob :=
  sort_by newest_first (List.filter (filter_matches f) (listed <$> hash_iter store)).

(** [now_ms] and [now] are the reading of the clock, in milliseconds and as text. *)
Definition create (req : CreateJobRequest) (now_ms : Z) (now : string)
    (store : gmap string MarketplaceJob) :
    gmap string MarketplaceJob * MarketplaceJob :=
  let j :=
    mk_job ("job-" +:+ (pretty now_ms : string)) (r_title req) (r_description req)
      (if str_is_empty (r_job_type req) then "other" else r_job_type req)
      "open" "" "" "" (r_priority req) now now (r_tags req) (r_reward req) "" None None
      (r_auto_execute req) in
  (save j store, j).

Record JobStats : Type := mk_stats {
  total : nat;
  by_state : gmap string nat;
  by_type : gmap string nat;
}.

Definition bump (k : string) (m : gmap string nat) : gmap string nat :=
  <[k := S (default 0%nat (m !! k))]> m.

Definition or_else (default s : string) : string := if str_is_empty s then default else s.

Definition stats {HI : HashIter} (store : gmap string MarketplaceJob) : JobStats :=
  let all := list_jobs default_filter store in
  mk_stats (length all)
    (foldl (λ m j, bump (or_else "open" (status j)) m) ∅ all)
    (foldl (λ m j, bump (or_else "other" (job_type j)) m) ∅ all).
End Jobs.

(** ** The lifecycle, as steps *)

Module JS := JobStatus.

Definition job_step (a b : JobStatus) : Prop := b ∈ JS.valid_transitions a.

(** A step that the table lists. *)
Ltac step_listed :=
  unfold job_step; cbn [JS.valid_transitions]; rewrite !elem_of_cons; tauto.

Lemma status_roundtrip s : JS.parse (JS.as_str s) = Some s.
Proof. by destruct s. Qed.

Lemma as_str_inj : Inj (=) (=) JS.as_str.
Proof. intros a b H. apply (f_equal JS.parse) in H. by rewrite !status_roundtrip in H; injection H. Qed.

(** A status is terminal exactly when nothing follows it. *)
Lemma terminal_iff s : JS.is_terminal s = true ↔ ∀ s', ¬ job_step s s'.
Proof.
  unfold job_step. split.
  - destruct s; try discriminate; intros _ s' H; cbn in H; by apply elem_of_nil in H.
  - destruct s; intros H; try reflexivity; exfalso;
      [apply (H JS.Assigned)|apply (H JS.InProgress)|apply (H JS.Submitted)|apply (H JS.Completed)];
      cbn; apply list_elem_of_here.
Qed.

Lemma steps_inv (P : JobStatus → Prop) a b :
  (∀ x y, P x → job_step x y → P y) → P a → rtc job_step a b → P b.
Proof. intros Hstep Ha Hab. induction Hab; eauto. Qed.

(** Whatever happens, a job can be brought to an end; it completes only through work
    that was submitted; and once it has ended it stays as it is. *)
Theorem job_lifecycle :
  (∀ s, ∃ e, JS.is_terminal e = true ∧ rtc job_step s e)
  ∧ (∀ a, job_step a JS.Completed → a = JS.Submitted)
  ∧ (∀ a, job_step a JS.Submitted → a = JS.InProgress)
  ∧ (∀ a b, JS.is_terminal a = true → rtc job_step a b → b = a).
Proof.
  repeat split.
  - intros s. destruct s.
    1,2: exists JS.Cancelled; split; [done|apply rtc_once; step_listed].
    1,2: exists JS.Failed; split; [done|apply rtc_once; step_listed].
    all: eexists; (split; [|apply rtc_refl]); done.
  - intros a. unfold job_step. destruct a; cbn; rewrite ?elem_of_cons, ?elem_of_nil; naive_solver.
  - intros a. unfold job_step. destruct a; cbn; rewrite ?elem_of_cons, ?elem_of_nil; naive_solver.
  - intros a b Ha Hab. destruct Hab as [a|a c b Hac _]; [done|].
    apply terminal_iff in Hac; [done|done].
Qed.

(** The kinds read back, but for one spelt like another or in capitals. *)
Lemma job_type_roundtrip x :
  (∀ s, x ≠ JobType.Other s) → JobType.from_str (JobType.display x) = x.
Proof. intros H. destruct x; try reflexivity. by destruct (H s). Qed.

(** ** The store *)

Section store.
Context `{J : Json} {HI : HashIter}.
Implicit Types (store : gmap string MarketplaceJob) (j : MarketplaceJob).

Lemma get_save j store : get (id j) (save j store) = Some j.
Proof. apply lookup_insert_eq. Qed.

Lemma get_save_ne j store i : i ≠ id j → get i (save j store) = get i store.
Proof. intros H. by apply lookup_insert_ne. Qed.

Lemma elem_of_list_jobs f store j :
  j ∈ list_jobs f store ↔
  filter_matches f j = true ∧ ∃ k j', store !! k = Some j' ∧ j = listed (k, j').
Proof.
  unfold list_jobs. rewrite elem_of_sort_by, list_elem_of_In, filter_In, <- list_elem_of_In.
  rewrite list_elem_of_fmap. split.
  - intros [((k & j') & -> & H%elem_of_hash_iter) Hf]. eauto.
  - intros [Hf (k & j' & H & ->)]. split; [|done]. exists (k, j'). split; [done|].
    by apply elem_of_hash_iter.
Qed.

(** A job that was created is found under its identifier, is open and is listed. *)
Lemma create_get req now_ms now store :
  let r := create req now_ms now store in
  get (id r.2) r.1 = Some r.2 ∧ JS.parse (status r.2) = Some JS.Open
  ∧ r.2 ∈ list_jobs default_filter r.1.
Proof.
  cbv zeta. cbn [fst snd create].
  set (j := mk_job _ _ _ _ _ _ _ _ _ _ _ _ _ _ _ _ _).
  split; [apply get_save|]. split; [done|].
  apply elem_of_list_jobs. split; [done|]. exists (id j), j. split; [apply get_save|].
  done.
Qed.

(** Two jobs created in one millisecond share their identifier: the first is lost. *)
Theorem create_collision req1 req2 now_ms t1 t2 store :
  let s1 := create req1 now_ms t1 store in
  let s2 := create req2 now_ms t2 s1.1 in
  id s1.2 = id s2.2 ∧ get (id s1.2) s2.1 = Some s2.2
  ∧ s2.1 = (create req2 now_ms t2 store).1.
Proof.
  cbv zeta. split; [done|]. split; [exact (get_save (create req2 now_ms t2 store).2 _)|].
  unfold create, save. cbn [id fst snd]. apply insert_insert_eq.
Qed.

Lemma length_list_jobs_default store : length (list_jobs default_filter store) = size store.
Proof.
  unfold list_jobs. rewrite sort_by_perm.
  rewrite (List.filter_ext _ (λ _, true)) by by intros j.
  assert (∀ l : list MarketplaceJob, List.filter (λ _, true) l = l) as E.
  { induction l as [|x l IH]; [done|]. cbn. by rewrite IH. }
  rewrite E, length_fmap, hash_iter_perm. apply length_map_to_list.
Qed.

Lemma total_stats store : total (stats store) = size store.
Proof. apply length_list_jobs_default. Qed.

(** A file that only has the older [state] field has that status, but no filter on the status
    finds it. *)
Lemma filter_ignores_state f j s :
  status j = "" → f_state f = Some s → filter_matches f j = false.
Proof. intros Hs Hf. unfold filter_matches. by rewrite Hs, Hf. Qed.
End store.

(** The list is the newest first. *)
Lemma newest_first_total `{J : Json} (a b : MarketplaceJob) :
  newest_first a b = false → newest_first b a = true.
Proof.
  unfold newest_first. rewrite (String.compare_antisym (created_at b) (created_at a)).
  destruct (String.compare (created_at a) (created_at b)); cbn; try done.
  intros H. by destruct (String.leb_total (id a) (id b)) as [E|E]; [|congruence].
Qed.
