(* ===== verification/Immune.v ===== *)
(** * The quarantine of suspect signals (roko-core/src/immune.rs)

    Screening by anomaly score and the vault that holds quarantined signals for review.  The
    clock is an argument of the operations that read it; the vault's map is iterated in an
    arbitrary order. *)

From Stdlib Require Import SpecFloat.
From S2P Require Import Prelude Bytes Taint.

Module AnomalyScore.
Record t : Type := mk {
  score : F64.t;
  dimensions : gmap string F64.t;
  detected_taint : option Taint;
}.

Definition unit_clamp (f : F64.t) : F64.t := F64.clamp F64.zero (F64.of_Z 1) f.

Definition clean : t := mk F64.zero ∅ None.
Definition from_score (score : F64.t) : t := mk (unit_clamp score) ∅ None.
Definition with_dimension (name : string) (score' : F64.t) (a : t) : t :=
  mk (score a) (<[name := unit_clamp score']> (dimensions a)) (detected_taint a).
Definition with_taint (taint : Taint) (a : t) : t := mk (score a) (dimensions a) (Some taint).
Definition exceeds_threshold (a : t) (threshold : F64.t) : bool := F64.ge (score a) threshold.
End AnomalyScore.
Abbreviation AnomalyScore := AnomalyScore.t.

Module QuarantineDecision.
Inductive t : Type := Accept | Quarantine | Reject.
End QuarantineDecision.
Abbreviation QuarantineDecision := QuarantineDecision.t.

Module QuarantineStatus.
Inductive t : Type := Pending | Approved | Rejected | Escalated.

#[global] Instance t_eq_dec : EqDecision t.
Proof. solve_decision. Defined.
End QuarantineStatus.
Abbreviation QuarantineStatus := QuarantineStatus.t.

Module IncidentRelation.
Inductive t : Type := SameSource | Propagated | Contradiction | SameSession.
End IncidentRelation.
Abbreviation IncidentRelation := IncidentRelation.t.

Module IncidentLink.
Record t : Type := mk { related_hash : bytes; relation : IncidentRelation; linked_at : Z }.
End IncidentLink.
Abbreviation IncidentLink := IncidentLink.t.

Module QuarantineEntry.
Record t : Type := mk {
  hash : bytes;
  anomaly_score : AnomalyScore;
  quarantined_at : Z;
  status : QuarantineStatus;
  reviewer_notes : option string;
  incident_links : list IncidentLink;
}.

Definition set_review (s : QuarantineStatus) (notes : option string) (e : t) : t :=
  mk (hash e) (anomaly_score e) (quarantined_at e) s notes (incident_links e).
Definition push_link (l : IncidentLink) (e : t) : t :=
  mk (hash e) (anomaly_score e) (quarantined_at e) (status e) (reviewer_notes e)
    (incident_links e ++ [l]).
End QuarantineEntry.
Abbreviation QuarantineEntry := QuarantineEntry.t.

Module QuarantineVault.
Record t : Type := mk {
  entries : gmap bytes QuarantineEntry;
  threshold : F64.t;
  max_entries : nat;
  auto_reject : bool;
}.

Definition new (threshold : F64.t) (max_entries : nat) (auto_reject : bool) : t :=
  mk ∅ (AnomalyScore.unit_clamp threshold) max_entries auto_reject.

Definition with_defaults : t := new (F64.lit 8 10) 50 false.

Definition set_entries (m : gmap bytes QuarantineEntry) (v : t) : t :=
  mk m (threshold v) (max_entries v) (auto_reject v).

Definition screen (v : t) (anomaly : AnomalyScore) : QuarantineDecision :=
  if AnomalyScore.exceeds_threshold anomaly (threshold v) then
    if auto_reject v then QuarantineDecision.Reject else QuarantineDecision.Quarantine
  else QuarantineDecision.Accept.

Definition quarantine (now : Z) (hash : bytes) (anomaly : AnomalyScore) (v : t) : t * bool :=
  if (max_entries v <=? size (entries v))%nat then (v, false)
  else
    let entry := QuarantineEntry.mk hash anomaly now QuarantineStatus.Pending None [] in
    (set_entries (<[hash := entry]> (entries v)) v, true).

Definition review (hash : bytes) (status : QuarantineStatus) (notes : option string) (v : t) :
    t * bool :=
  match entries v !! hash with
  | Some entry =>
      (set_entries (<[hash := QuarantineEntry.set_review status notes entry]> (entries v)) v, true)
  | None => (v, false)
  end.

Definition push_link_at (h : bytes) (l : IncidentLink) (m : gmap bytes QuarantineEntry) :
    gmap bytes QuarantineEntry :=
  match m !! h with Some e => <[h := QuarantineEntry.push_link l e]> m | None => m end.

Definition link_incidents (now : Z) (a b : bytes) (relation : IncidentRelation) (v : t) :
    t * bool :=
  match entries v !! a, entries v !! b with
  | Some _, Some _ =>
      let m := push_link_at a (IncidentLink.mk b relation now) (entries v) in
      let m := push_link_at b (IncidentLink.mk a relation now) m in
      (set_entries m v, true)
  | _, _ => (v, false)
  end.

Definition get (v : t) (hash : bytes) : option QuarantineEntry := entries v !! hash.

Definition has_status (s : QuarantineStatus) (e : QuarantineEntry) : bool :=
  bool_decide (QuarantineEntry.status e = s).

Definition pending {HI : HashIter} (v : t) : list QuarantineEntry :=
  List.filter (has_status QuarantineStatus.Pending) (hash_values (entries v)).

(** The hashes of the entries of a status, in the order [retain] meets them. *)
Definition hashes_with {HI : HashIter} (s : QuarantineStatus) (v : t) : list bytes :=
  (List.filter (λ kv, has_status s kv.2) (hash_iter (entries v))).*1.

Definition unresolved (e : QuarantineEntry) : bool :=
  match QuarantineEntry.status e with
  | QuarantineStatus.Approved | QuarantineStatus.Rejected => false
  | _ => true
  end.

Definition drain_resolved {HI : HashIter} (v : t) : t * (list bytes * list bytes) :=
  let released := hashes_with QuarantineStatus.Approved v in
  let purged := hashes_with QuarantineStatus.Rejected v in
  (set_entries (filter (λ kv, unresolved kv.2 = true) (entries v)) v, (released, purged)).

Definition count (v : t) : nat := size (entries v).
Definition is_full (v : t) : bool := (max_entries v <=? size (entries v))%nat.

Definition needs_escalation (v : t) : bool :=
  F64.ge (F64.of_N (N.of_nat (size (entries v))))
    (F64.mul (F64.of_N (N.of_nat (max_entries v))) (F64.lit 8 10)).
End QuarantineVault.
Abbreviation QuarantineVault := QuarantineVault.t.
Module QV := QuarantineVault.
Module QS := QuarantineStatus.

(** ** The vault's invariant *)

(** Never more entries than its limit, each under its own hash. *)
Record vault_wf (v : QuarantineVault) : Prop := {
  wf_size : (size (QV.entries v) ≤ QV.max_entries v)%nat;
  wf_hash : ∀ h e, QV.entries v !! h = Some e → QuarantineEntry.hash e = h;
}.

Inductive vault_step {HI : HashIter} : QuarantineVault → QuarantineVault → Prop :=
  | StepQuarantine now h a v : vault_step v (QV.quarantine now h a v).1
  | StepReview h s notes v : vault_step v (QV.review h s notes v).1
  | StepLink now a b r v : vault_step v (QV.link_incidents now a b r v).1
  | StepDrain v : vault_step v (QV.drain_resolved v).1.

(** Replacing an entry by one of the same hash keeps the vault well-formed. *)
Lemma replace_wf v h e e' :
  vault_wf v → QV.entries v !! h = Some e → QuarantineEntry.hash e' = QuarantineEntry.hash e →
  vault_wf (QV.set_entries (<[h := e']> (QV.entries v)) v).
Proof.
  intros [Hs Hh] He Heq. constructor; cbn.
  - by rewrite map_size_insert_Some by eauto.
  - intros k x. destruct (decide (k = h)) as [->|Hne].
    + rewrite lookup_insert_eq. intros [= <-]. rewrite Heq. by apply Hh.
    + rewrite lookup_insert_ne by done. apply Hh.
Qed.

Lemma push_link_at_wf v h l :
  vault_wf v → vault_wf (QV.set_entries (QV.push_link_at h l (QV.entries v)) v).
Proof.
  intros Hv. unfold QV.push_link_at. destruct (QV.entries v !! h) as [e|] eqn:E.
  - by apply (replace_wf _ _ e).
  - by destruct v.
Qed.

Lemma quarantine_wf now h a v : vault_wf v → vault_wf (QV.quarantine now h a v).1.
Proof.
  intros [Hs Hh]. unfold QV.quarantine.
  destruct (Nat.leb_spec (QV.max_entries v) (size (QV.entries v))) as [|Hlt]; [done|].
  constructor; cbn.
  - destruct (QV.entries v !! h) as [e|] eqn:E.
    + rewrite map_size_insert_Some by eauto. lia.
    + rewrite map_size_insert_None by done. lia.
  - intros k x. destruct (decide (k = h)) as [->|Hne].
    + rewrite lookup_insert_eq. by intros [= <-].
    + rewrite lookup_insert_ne by done. apply Hh.
Qed.

Lemma link_wf now a b r v : vault_wf v → vault_wf (QV.link_incidents now a b r v).1.
Proof.
  intros Hv. unfold QV.link_incidents. repeat case_match; try done. cbn.
  apply (push_link_at_wf (QV.set_entries _ v)). by apply push_link_at_wf.
Qed.

Lemma drain_wf {HI : HashIter} v : vault_wf v → vault_wf (QV.drain_resolved v).1.
Proof.
  intros [Hs Hh]. constructor; cbn.
  - etrans; [|exact Hs]. apply map_subseteq_size, map_filter_subseteq.
  - intros h e He. apply map_lookup_filter_Some in He as [He _]. by apply Hh.
Qed.

(** Any sequence of operations on a fresh vault stays within its limit and files every entry
    under its own hash; no operation changes the configuration. *)
Theorem vault_invariant {HI : HashIter} threshold max_entries auto_reject v :
  rtc vault_step (QV.new threshold max_entries auto_reject) v →
  vault_wf v ∧ QV.max_entries v = max_entries ∧ QV.auto_reject v = auto_reject.
Proof.
  set (v0 := QV.new threshold max_entries auto_reject).
  assert (vault_wf v0 ∧ QV.max_entries v0 = max_entries ∧ QV.auto_reject v0 = auto_reject) as H0.
  { split; [|done]. constructor; cbn; [rewrite map_size_empty; lia|]. intros h e He.
    by rewrite lookup_empty in He. }
  intros Hv. revert H0. induction Hv as [x|x y z Hxy _ IH]; [done|].
  intros (Hwf & Hm & Ha). apply IH. destruct Hxy.
  - split; [by apply quarantine_wf|]. unfold QV.quarantine. by case_match.
  - split; [|unfold QV.review; by case_match]. unfold QV.review.
    destruct (QV.entries v !! h) as [e|] eqn:E; [|done]. by apply (replace_wf _ _ e).
  - split; [by apply link_wf|]. unfold QV.link_incidents. by repeat case_match.
  - split; [by apply drain_wf|done].
Qed.

(** ** Screening and review *)

(** Rejection happens only where it is automatic, and acceptance exactly below the
    threshold. *)
Lemma screen_spec v a :
  QV.screen v a =
    match F64.ge (AnomalyScore.score a) (QV.threshold v), QV.auto_reject v with
    | false, _ => QuarantineDecision.Accept
    | true, true => QuarantineDecision.Reject
    | true, false => QuarantineDecision.Quarantine
    end.
Proof. unfold QV.screen, AnomalyScore.exceeds_threshold. by repeat case_match. Qed.

(** A score that is no number is accepted. *)
Lemma screen_nan v d t : QV.screen v (AnomalyScore.mk S754_nan d t) = QuarantineDecision.Accept.
Proof. rewrite screen_spec. cbn. by destruct (QV.threshold v) as [[]|[]| |[] m e]. Qed.

Lemma elem_of_hashes_with {HI : HashIter} s v h :
  h ∈ QV.hashes_with s v ↔ ∃ e, QV.entries v !! h = Some e ∧ QuarantineEntry.status e = s.
Proof.
  unfold QV.hashes_with, QV.has_status. rewrite list_elem_of_fmap. split.
  - intros ([k e] & -> & Hin). rewrite list_elem_of_In, filter_In, <- list_elem_of_In in Hin.
    destruct Hin as [Hin%elem_of_hash_iter Hs%bool_decide_eq_true]. by exists e.
  - intros (e & He & Hs). exists (h, e). split; [done|].
    rewrite list_elem_of_In, filter_In, <- list_elem_of_In. split; [by apply elem_of_hash_iter|].
    by apply bool_decide_eq_true.
Qed.

(** Draining releases the approved, purges the rejected and keeps the others; nothing is
    both released and purged, and nothing is lost. *)
Theorem drain_resolved_spec {HI : HashIter} v :
  let '(v', (released, purged)) := QV.drain_resolved v in
  (∀ h, h ∈ released ↔ ∃ e, QV.get v h = Some e ∧ QuarantineEntry.status e = QS.Approved)
  ∧ (∀ h, h ∈ purged ↔ ∃ e, QV.get v h = Some e ∧ QuarantineEntry.status e = QS.Rejected)
  ∧ (∀ h e, QV.get v' h = Some e ↔ QV.get v h = Some e ∧ QV.unresolved e = true)
  ∧ (∀ h, is_Some (QV.get v h) ↔ is_Some (QV.get v' h) ∨ h ∈ released ∨ h ∈ purged).
Proof.
  cbn. unfold QV.get. cbn.
  assert (∀ h e, filter (λ kv : bytes * QuarantineEntry, QV.unresolved kv.2 = true)
      (QV.entries v) !! h = Some e ↔ QV.entries v !! h = Some e ∧ QV.unresolved e = true) as Hf
    by (intros h e; apply map_lookup_filter_Some).
  split; [intros h; apply elem_of_hashes_with|].
  split; [intros h; apply elem_of_hashes_with|]. split; [exact Hf|].
  intros h. rewrite !elem_of_hashes_with. split.
  - intros [e He]. destruct (QV.unresolved e) eqn:Hu.
    + left. exists e. by apply Hf.
    + right. unfold QV.unresolved in Hu. destruct (QuarantineEntry.status e) eqn:Hs; try done;
        [left|right]; by exists e.
  - intros [[e He]|[(e & He & _)|(e & He & _)]]; [|by exists e..].
    apply Hf in He as [He _]. by exists e.
Qed.

(** A link is recorded at both ends. *)
Lemma link_both now a b r v :
  a ≠ b → (QV.link_incidents now a b r v).2 = true →
  ∃ ea eb, QV.get v a = Some ea ∧ QV.get v b = Some eb
    ∧ QV.get (QV.link_incidents now a b r v).1 a
        = Some (QuarantineEntry.push_link (IncidentLink.mk b r now) ea)
    ∧ QV.get (QV.link_incidents now a b r v).1 b
        = Some (QuarantineEntry.push_link (IncidentLink.mk a r now) eb).
Proof.
  intros Hne. unfold QV.link_incidents, QV.get.
  destruct (QV.entries v !! a) as [ea|] eqn:Ea; [|done].
  destruct (QV.entries v !! b) as [eb|] eqn:Eb; [|done].
  intros _. exists ea, eb. cbn. unfold QV.push_link_at. rewrite Ea.
  rewrite lookup_insert_ne, Eb by done.
  repeat split.
  - by rewrite lookup_insert_ne, lookup_insert_eq.
  - by rewrite lookup_insert_eq.
Qed.

(** Quarantining a signal again forgets its review and its links. *)
Lemma requarantine_resets now h a v :
  QV.is_full v = false →
  QV.get (QV.quarantine now h a v).1 h
    = Some (QuarantineEntry.mk h a now QS.Pending None []).
Proof.
  intros Hf. unfold QV.quarantine. unfold QV.is_full in Hf. rewrite Hf. cbn. apply lookup_insert_eq.
Qed.

(** A full vault takes nothing, not even a signal it already holds. *)
Lemma full_refuses now h a v : QV.is_full v = true → QV.quarantine now h a v = (v, false).
Proof. intros Hf. unfold QV.quarantine. unfold QV.is_full in Hf. by rewrite Hf. Qed.

(** ** Examples *)

Definition hash_1 : bytes := replicate 32 Byte.x01.
Definition two_slots : QuarantineVault := QV.new (F64.lit 1 2) 2 false.

Lemma vault_invariant_witness :
  vault_wf (QV.quarantine 7 hash_1 AnomalyScore.clean two_slots).1.
Proof.
  apply (vault_invariant (F64.lit 1 2) 2 false).
  eapply rtc_once. apply StepQuarantine.
Defined.
