(* ===== verification/Namespace.v ===== *)
(** * Cognitive namespaces (roko-core/src/namespace.rs)

    Isolated knowledge spaces: who may read, write and administer each, the channels that
    let data cross, and the registry that answers the access checks. *)

From S2P Require Import Prelude EventLog.

Module ChannelDirection.
Inductive t : Type := Unidirectional | Bidirectional.

#[global] Instance t_eq_dec : EqDecision t.
Proof. solve_decision. Defined.
End ChannelDirection.
Abbreviation ChannelDirection := ChannelDirection.t.

Module NamespaceAcl.
Record t : Type := mk { readers : gset string; writers : gset string; admins : gset string }.

Definition default : t := mk ∅ ∅ ∅.

Definition can_read (a : t) (agent : string) : bool :=
  bool_decide (agent ∈ readers a) || bool_decide (agent ∈ admins a).
Definition can_write (a : t) (agent : string) : bool :=
  bool_decide (agent ∈ writers a) || bool_decide (agent ∈ admins a).
Definition is_admin (a : t) (agent : string) : bool := bool_decide (agent ∈ admins a).

Definition grant_read (agent : string) (a : t) : t :=
  mk ({[agent]} ∪ readers a) (writers a) (admins a).
Definition grant_write (agent : string) (a : t) : t :=
  mk (readers a) ({[agent]} ∪ writers a) (admins a).
Definition grant_admin (agent : string) (a : t) : t :=
  mk (readers a) (writers a) ({[agent]} ∪ admins a).
End NamespaceAcl.
Abbreviation NamespaceAcl := NamespaceAcl.t.
Module ACL := NamespaceAcl.

Module RateLimitConfig.
Record t : Type := mk {
  max_reads_per_window : N;
  max_writes_per_window : N;
  window_secs : N;
}.
End RateLimitConfig.
Abbreviation RateLimitConfig := RateLimitConfig.t.

Section Namespaces.
Context `{J : Json}.

Record Channel : Type := mk_channel {
  ch_name : string;
  source_ns : string;
  target_ns : string;
  direction : ChannelDirection;
  schema : option json;
}.

Record CognitiveNamespace : Type := mk_namespace {
  ns_id : string;
  owner : string;
  acl : NamespaceAcl;
  channels : list Channel;
  rate_limit : option RateLimitConfig;
}.

Definition new_namespace (id owner : string) : CognitiveNamespace :=
  mk_namespace id owner (ACL.grant_admin owner ACL.default) [] None.

Definition with_channel (c : Channel) (n : CognitiveNamespace) : CognitiveNamespace :=
  mk_namespace (ns_id n) (owner n) (acl n) (channels n ++ [c]) (rate_limit n).
Definition with_rate_limit (l : RateLimitConfig) (n : CognitiveNamespace) : CognitiveNamespace :=
  mk_namespace (ns_id n) (owner n) (acl n) (channels n) (Some l).

Definition ns_check_read (n : CognitiveNamespace) (agent : string) : bool :=
  ACL.can_read (acl n) agent.
Definition ns_check_write (n : CognitiveNamespace) (agent : string) : bool :=
  ACL.can_write (acl n) agent.

Definition channel_carries (n : CognitiveNamespace) (source : string) (c : Channel) : bool :=
  (string_eqb (source_ns c) source && string_eqb (target_ns c) (ns_id n))
  || (bool_decide (direction c = ChannelDirection.Bidirectional)
      && string_eqb (target_ns c) source && string_eqb (source_ns c) (ns_id n)).

Definition has_channel_from (n : CognitiveNamespace) (source : string) : bool :=
  existsb (channel_carries n source) (channels n).

(** ** The registry *)

Definition register (n : CognitiveNamespace) (r : gmap string CognitiveNamespace) :
    gmap string CognitiveNamespace := <[ns_id n := n]> r.

Definition lookup_ns (r : gmap string CognitiveNamespace) (id : string) :
    option CognitiveNamespace := r !! id.

Definition is_some_and {A} (o : option A) (f : A → bool) : bool :=
  match o with Some a => f a | None => false end.

Definition check_read (r : gmap string CognitiveNamespace) (id agent : string) : bool :=
  is_some_and (lookup_ns r id) (λ n, ns_check_read n agent).
Definition check_write (r : gmap string CognitiveNamespace) (id agent : string) : bool :=
  is_some_and (lookup_ns r id) (λ n, ns_check_write n agent).
Definition check_cross_namespace (r : gmap string CognitiveNamespace) (source target : string) :
    bool :=
  is_some_and (lookup_ns r target) (λ n, has_channel_from n source).
Definition namespace_ids {HI : HashIter} (r : gmap string CognitiveNamespace) : list string :=
  hash_keys r.
End Namespaces.

(** ** Access *)

Lemma can_read_iff a agent :
  ACL.can_read a agent = true ↔ agent ∈ ACL.readers a ∨ agent ∈ ACL.admins a.
Proof. unfold ACL.can_read. by rewrite orb_true_iff, !bool_decide_eq_true. Qed.

Lemma can_write_iff a agent :
  ACL.can_write a agent = true ↔ agent ∈ ACL.writers a ∨ agent ∈ ACL.admins a.
Proof. unfold ACL.can_write. by rewrite orb_true_iff, !bool_decide_eq_true. Qed.

(** The grants, as the steps of an access list. *)
Inductive grant : NamespaceAcl → NamespaceAcl → Prop :=
  | GrantRead agent a : grant a (ACL.grant_read agent a)
  | GrantWrite agent a : grant a (ACL.grant_write agent a)
  | GrantAdmin agent a : grant a (ACL.grant_admin agent a).

(** Grants only add rights. *)
Lemma grants_monotone a b agent :
  rtc grant a b →
  (ACL.can_read a agent = true → ACL.can_read b agent = true)
  ∧ (ACL.can_write a agent = true → ACL.can_write b agent = true)
  ∧ (ACL.is_admin a agent = true → ACL.is_admin b agent = true).
Proof.
  induction 1 as [a|a b c Hab _ (IH1 & IH2 & IH3)]; [done|].
  assert ((ACL.can_read a agent = true → ACL.can_read b agent = true)
    ∧ (ACL.can_write a agent = true → ACL.can_write b agent = true)
    ∧ (ACL.is_admin a agent = true → ACL.is_admin b agent = true)) as (H1 & H2 & H3).
  { rewrite !can_read_iff, !can_write_iff. unfold ACL.is_admin. rewrite !bool_decide_eq_true.
    destruct Hab; cbn; set_solver. }
  auto.
Qed.

(** Reading does not imply writing: only an administrator has every right without being
    named for it. *)
Lemma grant_read_only agent a :
  ACL.can_write a agent = false → ACL.can_write (ACL.grant_read agent a) agent = false.
Proof. done. Qed.

Section facts.
Context `{J : Json}.
Implicit Types (r : gmap string CognitiveNamespace) (n : CognitiveNamespace).

Lemma has_channel_from_iff n source :
  has_channel_from n source = true ↔
  ∃ c, c ∈ channels n ∧
    (source_ns c = source ∧ target_ns c = ns_id n
     ∨ direction c = ChannelDirection.Bidirectional ∧ target_ns c = source ∧ source_ns c = ns_id n).
Proof.
  unfold has_channel_from. rewrite existsb_exists. setoid_rewrite <- list_elem_of_In.
  unfold channel_carries, string_eqb.
  setoid_rewrite orb_true_iff. setoid_rewrite andb_true_iff. setoid_rewrite andb_true_iff.
  setoid_rewrite bool_decide_eq_true. naive_solver.
Qed.

Lemma is_some_and_iff {A} (o : option A) f :
  is_some_and o f = true ↔ ∃ a, o = Some a ∧ f a = true.
Proof. destruct o; cbn; naive_solver. Qed.

(** Access is denied unless the namespace is registered and its list names the agent, or a
    channel of the target carries data from the source: a one-way channel never opens the
    way back, unless it is the target's own. *)
Theorem namespace_isolation r source target agent :
  (check_read r target agent = true ↔
     ∃ n, r !! target = Some n ∧ (agent ∈ ACL.readers (acl n) ∨ agent ∈ ACL.admins (acl n)))
  ∧ (check_write r target agent = true ↔
     ∃ n, r !! target = Some n ∧ (agent ∈ ACL.writers (acl n) ∨ agent ∈ ACL.admins (acl n)))
  ∧ (check_cross_namespace r source target = true ↔
     ∃ n c, r !! target = Some n ∧ c ∈ channels n ∧
       (source_ns c = source ∧ target_ns c = ns_id n
        ∨ direction c = ChannelDirection.Bidirectional
          ∧ target_ns c = source ∧ source_ns c = ns_id n)).
Proof.
  unfold check_read, check_write, check_cross_namespace, lookup_ns, ns_check_read, ns_check_write.
  rewrite !is_some_and_iff. setoid_rewrite can_read_iff. setoid_rewrite can_write_iff.
  setoid_rewrite has_channel_from_iff. repeat split; naive_solver.
Qed.

(** Registering a namespace says nothing of the others, and replaces the one of its name. *)
Lemma register_lookup n r id :
  lookup_ns (register n r) id = if decide (id = ns_id n) then Some n else lookup_ns r id.
Proof.
  unfold lookup_ns, register. destruct (decide (id = ns_id n)) as [->|Hne].
  - apply lookup_insert_eq.
  - by apply lookup_insert_ne.
Qed.

(** The owner of a new namespace has every right in it, and nobody else has any. *)
Lemma new_namespace_rights id owner agent :
  (ns_check_read (new_namespace id owner) agent = true ↔ agent = owner)
  ∧ (ns_check_write (new_namespace id owner) agent = true ↔ agent = owner)
  ∧ ∀ source, has_channel_from (new_namespace id owner) source = false.
Proof.
  unfold ns_check_read, ns_check_write. rewrite can_read_iff, can_write_iff. cbn.
  repeat split; set_solver.
Qed.

(** A channel declared at its source alone opens nothing: the check asks the target. *)
Lemma channel_at_target_only r c n m :
  r !! target_ns c = Some n → channels n = [] →
  check_cross_namespace (register (with_channel c m) r) (source_ns c) (target_ns c) = true →
  ns_id m = target_ns c.
Proof.
  intros Hn Hc. unfold check_cross_namespace. rewrite register_lookup.
  destruct (decide _) as [->|Hne]; [done|]. unfold lookup_ns. rewrite Hn. cbn.
  unfold has_channel_from. by rewrite Hc.
Qed.
End facts.
