(* ===== verification/Arbitration.v ===== *)
(** * Arbitration between subsystems (roko-core/src/arbitration.rs)

    Guidance of the three cross-cut subsystems, weighted by priority and confidence, and its
    resolution into one outcome per domain.  The domains are met in the arbitrary order of a
    [HashMap]. *)

From S2P Require Import Prelude.

#[local] Arguments F64.of_Z : simpl never.

Module Subsystem.
Inductive t : Type := Daimon | Neuro | Dreams.

#[global] Instance t_eq_dec : EqDecision t.
Proof. solve_decision. Defined.

Definition label (s : t) : string :=
  match s with Daimon => "daimon" | Neuro => "neuro" | Dreams => "dreams" end.
End Subsystem.
Abbreviation Subsystem := Subsystem.t.

Module ArbitrationConfig.
Record t : Type := mk {
  neuro_weight : F64.t;
  daimon_weight : F64.t;
  dreams_weight : F64.t;
  min_confidence : F64.t;
}.

Definition default : t := mk (F64.lit 1 2) (F64.lit 3 10) (F64.lit 2 10) (F64.lit 1 10).

Definition priority_weight (c : t) (s : Subsystem) : F64.t :=
  match s with
  | Subsystem.Daimon => daimon_weight c
  | Subsystem.Neuro => neuro_weight c
  | Subsystem.Dreams => dreams_weight c
  end.
End ArbitrationConfig.
Abbreviation ArbitrationConfig := ArbitrationConfig.t.

Module SubsystemGuidance.
Record t : Type := mk {
  source : Subsystem;
  domain : string;
  recommendation : string;
  confidence : F64.t;
  signal_value : option F64.t;
}.

Definition new (source : Subsystem) (domain recommendation : string) (confidence : F64.t) : t :=
  mk source domain recommendation (F64.clamp F64.zero (F64.of_Z 1) confidence) None.

Definition with_signal (value : F64.t) (g : t) : t :=
  mk (source g) (domain g) (recommendation g) (confidence g) (Some value).

Definition effective_weight (c : ArbitrationConfig) (g : t) : F64.t :=
  F64.mul (ArbitrationConfig.priority_weight c (source g)) (confidence g).
End SubsystemGuidance.
Abbreviation SubsystemGuidance := SubsystemGuidance.t.
Module SG := SubsystemGuidance.

Module ArbitrationOutcome.
Record t : Type := mk {
  domain : string;
  winner : SubsystemGuidance;
  had_conflict : bool;
  all_guidance : list SubsystemGuidance;
  winning_weight : F64.t;
}.
End ArbitrationOutcome.
Abbreviation ArbitrationOutcome := ArbitrationOutcome.t.
Module AO := ArbitrationOutcome.

Module Arbitrator.
Record t : Type := mk { config : ArbitrationConfig; pending : list SubsystemGuidance }.

Definition new (config : ArbitrationConfig) : t := mk config [].
Definition default : t := new ArbitrationConfig.default.

Definition submit (g : SubsystemGuidance) (a : t) : t :=
  if F64.ge (SG.confidence g) (ArbitrationConfig.min_confidence (config a)) then
    mk (config a) (pending a ++ [g])
  else a.

Definition submit_all (l : list SubsystemGuidance) (a : t) : t := foldl (λ a g, submit g a) a l.

(** [by_domain.entry(domain).or_default().push(entry)] over the pending guidance. *)
Definition group (l : list SubsystemGuidance) : gmap string (list SubsystemGuidance) :=
  foldl (λ m g, <[SG.domain g := stdpp.option.default [] (m !! SG.domain g) ++ [g]]> m) ∅ l.

(** [wb.partial_cmp(&wa).unwrap_or(Equal) != Greater] *)
Definition heavier (c : ArbitrationConfig) (a b : SubsystemGuidance) : bool :=
  negb (F64.lt (SG.effective_weight c a) (SG.effective_weight c b)).

(** Two recommendations or more, from two subsystems or more. *)
Definition conflict (l : list SubsystemGuidance) : bool :=
  (1 <? size (list_to_set (SG.recommendation <$> l) : gset string))%nat
  && (1 <? length (remove_dups (SG.source <$> l)))%nat.

(** [entries[0]] of a group that holds at least the entry that made it. *)
Definition outcome (c : ArbitrationConfig) (kv : string * list SubsystemGuidance) :
    option ArbitrationOutcome :=
  let entries := sort_by (heavier c) kv.2 in
  match entries with
  | [] => None
  | winner :: _ =>
      Some (AO.mk kv.1 winner (conflict entries) entries (SG.effective_weight c winner))
  end.

Definition resolve {HI : HashIter} (a : t) : t * list ArbitrationOutcome :=
  (mk (config a) [], omap (outcome (config a)) (hash_iter (group (pending a)))).

Definition clear (a : t) : t := mk (config a) [].
Definition pending_count (a : t) : nat := length (pending a).
End Arbitrator.
Abbreviation Arbitrator := Arbitrator.t.
Module AR := Arbitrator.

(** ** Grouping *)

(** The guidance on one domain, in the order of its submission. *)
Definition on_domain (d : string) (l : list SubsystemGuidance) : list SubsystemGuidance :=
  List.filter (λ g, string_eqb (SG.domain g) d) l.

Lemma group_lookup l d :
  AR.group l !! d = match on_domain d l with [] => None | k => Some k end.
Proof.
  unfold AR.group, on_domain.
  induction l as [|g l IH] using rev_ind; [apply lookup_empty|].
  rewrite foldl_app, List.filter_app. cbn [foldl List.filter]. unfold string_eqb in *.
  case_bool_decide as Hd.
  - subst d. rewrite lookup_insert_eq, IH. by destruct (List.filter _ l).
  - rewrite lookup_insert_ne, IH by done. by rewrite app_nil_r.
Qed.

Lemma heavier_iff c a b :
  AR.heavier c a b = true ↔ sf_le (SG.effective_weight c b) (SG.effective_weight c a).
Proof. unfold AR.heavier, sf_le, F64.lt. by rewrite negb_true_iff. Qed.

Lemma heavier_total c a b : AR.heavier c a b = true ∨ AR.heavier c b a = true.
Proof.
  rewrite !heavier_iff. unfold sf_le at 1.
  destruct (SpecFloat.SFltb (SG.effective_weight c a) (SG.effective_weight c b)) eqn:E;
    [right|by left].
  by apply sf_lt_le.
Qed.

(** *** Conflicts *)

Lemma two_distinct {A} `{EqDecision A} (l : list A) :
  (1 < length (remove_dups l))%nat ↔ ∃ x y, x ∈ l ∧ y ∈ l ∧ x ≠ y.
Proof.
  split.
  - intros H. pose proof (NoDup_remove_dups l) as Hn.
    assert (∀ z, z ∈ remove_dups l → z ∈ l) as Hin by (intros z; apply elem_of_remove_dups).
    destruct (remove_dups l) as [|x [|y k]]; cbn in H; [lia|lia|].
    exists x, y. apply NoDup_cons in Hn as [Hx _]. rewrite not_elem_of_cons in Hx.
    repeat split; [apply Hin, list_elem_of_here|apply Hin|tauto].
    apply list_elem_of_further, list_elem_of_here.
  - intros (x & y & Hx & Hy & Hne).
    apply elem_of_remove_dups in Hx, Hy.
    destruct (remove_dups l) as [|a [|b k]]; cbn; [by apply elem_of_nil in Hx| |lia].
    apply list_elem_of_singleton in Hx, Hy. congruence.
Qed.

Lemma two_distinct_set {A} `{Countable A} (l : list A) :
  (1 < size (list_to_set l : gset A))%nat ↔ ∃ x y, x ∈ l ∧ y ∈ l ∧ x ≠ y.
Proof.
  rewrite <- two_distinct.
  assert (list_to_set l = (list_to_set (remove_dups l) : gset A)) as ->.
  { apply set_eq. intros x. by rewrite !elem_of_list_to_set, elem_of_remove_dups. }
  rewrite size_list_to_set by apply NoDup_remove_dups. done.
Qed.

Lemma conflict_iff l :
  AR.conflict l = true ↔
  (∃ a b, a ∈ l ∧ b ∈ l ∧ SG.recommendation a ≠ SG.recommendation b)
  ∧ (∃ a b, a ∈ l ∧ b ∈ l ∧ SG.source a ≠ SG.source b).
Proof.
  unfold AR.conflict. rewrite andb_true_iff, !Nat.ltb_lt, two_distinct, two_distinct_set.
  assert (∀ {B} (f : SubsystemGuidance → B),
    (∃ x y, x ∈ f <$> l ∧ y ∈ f <$> l ∧ x ≠ y) ↔ ∃ a b, a ∈ l ∧ b ∈ l ∧ f a ≠ f b) as H.
  { intros B f. setoid_rewrite list_elem_of_fmap. split.
    - intros (? & ? & (a & -> & Ha) & (b & -> & Hb) & Hne). by exists a, b.
    - intros (a & b & Ha & Hb & Hne). exists (f a), (f b).
      split_and!; [by exists a|by exists b|done]. }
  by rewrite !H.
Qed.

(** ** Resolution *)

Section resolve.
Context {HI : HashIter}.
Implicit Types a : Arbitrator.

Definition weighed (c : ArbitrationConfig) (g : SubsystemGuidance) : Prop :=
  F64.is_nan (SG.effective_weight c g) = false.

Lemma elem_of_resolve a o :
  o ∈ (AR.resolve a).2 ↔
  ∃ d, on_domain d (AR.pending a) ≠ [] ∧
    AR.outcome (AR.config a) (d, on_domain d (AR.pending a)) = Some o.
Proof using Type.
  unfold AR.resolve. cbn [snd]. rewrite list_elem_of_omap. split.
  - intros ([d l] & Hin%elem_of_hash_iter & Ho). rewrite group_lookup in Hin.
    exists d. destruct (on_domain d (AR.pending a)); [done|]. by injection Hin as <-.
  - intros (d & Hne & Ho). exists (d, on_domain d (AR.pending a)). split; [|done].
    apply elem_of_hash_iter. rewrite group_lookup. by destruct (on_domain d (AR.pending a)).
Qed.

(** Resolving drains the buffer into exactly one outcome for each domain with guidance.  The
    outcome weighs all the guidance on its domain and nothing else; its winner is one of
    them and none weighs more; a conflict is reported exactly when two of them differ in
    what they recommend and two in who recommends it. *)
Theorem resolve_spec a :
  Forall (weighed (AR.config a)) (AR.pending a) →
  AR.pending (AR.resolve a).1 = []
  ∧ (∀ g, g ∈ AR.pending a → ∃ o, o ∈ (AR.resolve a).2 ∧ AO.domain o = SG.domain g)
  ∧ (∀ o, o ∈ (AR.resolve a).2 →
      let l := on_domain (AO.domain o) (AR.pending a) in
      AO.all_guidance o ≡ₚ l ∧ AO.winner o ∈ l
      ∧ (∀ g, g ∈ l → sf_le (SG.effective_weight (AR.config a) g) (AO.winning_weight o))
      ∧ AO.winning_weight o = SG.effective_weight (AR.config a) (AO.winner o)
      ∧ (AO.had_conflict o = true ↔
          (∃ x y, x ∈ l ∧ y ∈ l ∧ SG.recommendation x ≠ SG.recommendation y)
          ∧ ∃ x y, x ∈ l ∧ y ∈ l ∧ SG.source x ≠ SG.source y)).
Proof using Type.
  intros Hw. split; [done|]. split.
  - intros g Hg. set (l := on_domain (SG.domain g) (AR.pending a)).
    assert (g ∈ l) as Hl.
    { apply elem_of_list_filter_bool. split; [done|]. by apply bool_decide_eq_true. }
    destruct (sort_by (AR.heavier (AR.config a)) l) as [|w k] eqn:E.
    { apply (elem_of_sort_by (AR.heavier (AR.config a))) in Hl. rewrite E in Hl.
      by apply elem_of_nil in Hl. }
    eexists. split; [apply elem_of_resolve; exists (SG.domain g); split|].
    + fold l. intros Hnil. rewrite Hnil in Hl. by apply elem_of_nil in Hl.
    + unfold AR.outcome. cbn [snd]. fold l. by rewrite E.
    + done.
  - intros o (d & Hne & Ho)%elem_of_resolve. unfold AR.outcome in Ho. cbn [fst snd] in Ho.
    set (l := on_domain d (AR.pending a)) in *.
    assert (StronglySorted (λ x y, AR.heavier (AR.config a) x y = true)
      (sort_by (AR.heavier (AR.config a)) l)) as Hs.
    { apply (sort_by_sorted_on _ (weighed (AR.config a)) (heavier_total _)).
      - intros x y z _ Hy _. rewrite !heavier_iff. intros H1 H2. by eapply sf_le_trans.
      - rewrite Forall_forall in Hw |- *. intros g [Hg _]%elem_of_list_filter_bool. by apply Hw. }
    pose proof (sort_by_perm (AR.heavier (AR.config a)) l) as Hp.
    destruct (sort_by (AR.heavier (AR.config a)) l) as [|w k]; [done|].
    injection Ho as <-. cbn [AO.domain AO.all_guidance AO.winner AO.winning_weight AO.had_conflict].
    fold l. assert (w ∈ l) as Hwl by (rewrite <- Hp; apply list_elem_of_here).
    split; [done|]. split; [done|]. split; [|split; [done|]].
    + intros g Hg. rewrite <- Hp, elem_of_cons in Hg. destruct Hg as [->|Hg]; [apply sf_le_refl|].
      apply StronglySorted_inv in Hs as [_ Hs]. rewrite Forall_forall in Hs.
      by apply heavier_iff, Hs.
    + rewrite conflict_iff. setoid_rewrite Hp. done.
Qed.
End resolve.

(** Guidance without the least confidence, or whose confidence is no number, is not heard. *)
Lemma submit_nan s d r v a :
  AR.submit (SG.mk s d r SpecFloat.S754_nan v) a = a.
Proof.
  unfold AR.submit. cbn. unfold F64.ge.
  by destruct (ArbitrationConfig.min_confidence (AR.config a)) as [[]|[]| |[] m e].
Qed.

(** ** Examples *)

Definition heard : Arbitrator :=
  AR.submit_all
    [SG.new Subsystem.Daimon "retry" "wait" (F64.lit 9 10);
     SG.new Subsystem.Neuro "retry" "now" (F64.lit 6 10);
     SG.new Subsystem.Dreams "model" "small" (F64.lit 1 100)] AR.default.

Lemma resolve_spec_witness : AR.pending (AR.resolve heard).1 = [].
Proof.
  apply (resolve_spec heard). vm_compute. repeat constructor.
Defined.

(** The knowledge store prevails over a more confident mood. *)
Example resolve_heard :
  (λ o, (AO.domain o, SG.recommendation (AO.winner o), AO.had_conflict o)) <$> (AR.resolve heard).2
  = [("retry", "now", true)].
Proof. vm_compute. done. Qed.
