(* ===== verification/Watchers.v ===== *)
(** * The watchers of the conductor (crates/roko-conductor/src/watchers/)

    Ten detectors of anomalies over the stream of signals.  Each is its thresholds and a
    function [decide] of the stream; [None] is a panic.  What serde derives for the events
    the signals carry is a parameter; the clock is read when an intervention is built. *)

From Stdlib Require Import SpecFloat.
From S2P Require Import Prelude Bytes EventLog Taint Text Body Scoring Engram.

#[local] Arguments F64.of_Z : simpl never.

(** ** Events *)

Module GhostTurnEvent.
Record t : Type := mk {
  plan_id : string;
  task : string;
  role : string;
  model : string;
  cost_usd : F64.t;
  duration_ms : N;
  changed_files_before : list string;
  changed_files_after : list string;
  net_new_changes : nat;
  output_meaningful : bool;
  wasted_cost : bool;
}.
End GhostTurnEvent.
Abbreviation GhostTurnEvent := GhostTurnEvent.t.
Module GT := GhostTurnEvent.

Module SpecDriftEvent.
Record t : Type := mk {
  plan_id : option string;
  task_id : option string;
  write_files : list string;
  changed_files : list string;
  unexpected : list string;
  ratio : option F64.t;
}.

Definition backslash : string := String (Ascii.ascii_of_nat 92) EmptyString.

Definition path_is_allowed (path : string) (allowed_files : list string) : bool :=
  existsb (λ declared,
    string_eqb path declared
    || str_starts_with (declared +:+ "/") path
    || str_starts_with (declared +:+ backslash) path) allowed_files.

Definition unexpected_files (e : t) : list string :=
  match unexpected e with
  | [] => List.filter (λ path, negb (path_is_allowed path (write_files e))) (changed_files e)
  | l => l
  end.

Definition drift_ratio (e : t) : F64.t :=
  match ratio e with
  | Some r => r
  | None =>
      match length (changed_files e) with
      | O => F64.zero
      | changed =>
          F64.div (F64.of_N (N.of_nat (length (unexpected_files e)))) (F64.of_N (N.of_nat changed))
      end
  end.
End SpecDriftEvent.
Abbreviation SpecDriftEvent := SpecDriftEvent.t.
Module SD := SpecDriftEvent.

Module TaskTimingEvent.
Record t : Type := mk {
  plan_id : string;
  task : string;
  duration_ms : N;
  timeout_secs : N;
}.
End TaskTimingEvent.
Abbreviation TaskTimingEvent := TaskTimingEvent.t.
Module TT := TaskTimingEvent.

(** What a watcher reads of an efficiency event. *)
Module EfficiencyEvent.
Record t : Type := mk { model : string; total_prompt_tokens : N }.
End EfficiencyEvent.
Abbreviation EfficiencyEvent := EfficiencyEvent.t.

(** The decoders serde derives, and [as_object]. *)
Class WatcherSerde {J : Json} := {
  json_is_object : json → bool;
  to_ghost_turn : json → option GhostTurnEvent;
  to_spec_drift : json → option SpecDriftEvent;
  to_timing : json → option TaskTimingEvent;
  to_efficiency : json → option EfficiencyEvent;
}.

(** The execution context (roko-core/src/context.rs). *)
Module Context.
Record t : Type := mk {
  now_ms : Z;
  goal : option string;
  session : option string;
  attrs : gmap string string;
}.

Definition at_ms (now_ms : Z) : t := mk now_ms None None ∅.
End Context.
Abbreviation Context := Context.t.

(** [truncate(s, max_len)]: the slice panics inside a character. *)
Definition truncate (s : string) (max_len : nat) : option string :=
  if (String.length s <=? max_len)%nat then Some s
  else (λ t, t +:+ "...") <$> str_prefix max_len s.

Definition fmt_bool (b : bool) : string := if b then "true" else "false".

(** [{:?}] of a slice of bytes. *)
Definition fmt_bytes (b : bytes) : string :=
  "[" +:+ str_join ", " ((λ x, fmt_N (Byte.to_N x)) <$> b) +:+ "]".

Definition nat_f64 (n : nat) : F64.t := F64.of_N (N.of_nat n).

Definition TURN_SIGNAL_KIND : string := "conductor.ghost_turn".
Definition TASK_OUTPUT_KIND : string := "conductor.agent_output".

Section Watchers.
Context `{J : Json, EP : !EngramParts, BS : !BodySerde, B3 : !Blake3, EL : !ExpLib}.
Context {JT : JsonText} {WS : WatcherSerde}.

Definition intervention (now : Z) (text : string) (tags : list (string * string)) : Engram :=
  build now
    (foldl (λ b kv, with_tag kv.1 kv.2 b)
      (with_body (Body.text text) (builder (Kind.Custom "conductor.intervention"))) tags).

(** The interface [React]. *)
Record React : Type := mk_react {
  react_name : string;
  react_decide : Z → list Engram → Context → option (list Engram);
}.

(** [stream.iter().rev().find(..)] *)
Definition rfind (f : Engram → bool) (stream : list Engram) : option Engram :=
  List.find f (reverse stream).

Definition is_kind (k : Kind) (s : Engram) : bool := bool_decide (kind s = k).

(** *** Ghost turns *)

Definition MAX_GHOST_TURNS : nat := 3.
Definition GHOST_TURN : string := "ghost-turn".

Definition is_ghost_turn_signal (s : Engram) : bool := is_kind (Kind.Custom TURN_SIGNAL_KIND) s.

Definition extract_ghost_turn_event (s : Engram) : option GhostTurnEvent :=
  if negb (is_ghost_turn_signal s) then None
  else
    match Body.as_json to_ghost_turn (body s) with
    | Some event =>
        if GT.output_meaningful event || negb (GT.net_new_changes event =? 0)%nat then None
        else Some event
    | None => None
    end.

(** The events of the wasted turns at the end of the stream, the latest first. *)
Fixpoint ghost_streak (rev_stream : list Engram) : list GhostTurnEvent :=
  match rev_stream with
  | [] => []
  | s :: l =>
      match extract_ghost_turn_event s with
      | Some event => event :: ghost_streak l
      | None => []
      end
  end.

Definition ghost_reason (event : GhostTurnEvent) (consecutive : nat) : string :=
  "wasted cost: " +:+ fmt_nat consecutive
    +:+ " consecutive turns with no meaningful output and no net file changes (last=$"
    +:+ fmt_fixed 4 (GT.cost_usd event) +:+ ", " +:+ fmt_N (GT.duration_ms event) +:+ "ms, "
    +:+ GT.plan_id event +:+ "/" +:+ GT.task event +:+ "; role=" +:+ GT.role event
    +:+ ", model=" +:+ GT.model event
    +:+ ", before=" +:+ fmt_nat (length (GT.changed_files_before event))
    +:+ ", after=" +:+ fmt_nat (length (GT.changed_files_after event)) +:+ ")".

Definition ghost_turn_decide (max_ghost_turns : nat) (now : Z) (stream : list Engram) :
    option (list Engram) :=
  let events := ghost_streak (reverse stream) in
  let consecutive := length events in
  if (max_ghost_turns <=? consecutive)%nat then
    match events with
    | [] => None
    | event :: _ =>
        Some [intervention now (ghost_reason event consecutive)
          [("watcher", GHOST_TURN); ("severity", "warning");
           ("consecutive", fmt_nat consecutive); ("plan_id", GT.plan_id event);
           ("task_id", GT.task event); ("model", GT.model event); ("role", GT.role event);
           ("cost_usd", fmt_fixed 4 (GT.cost_usd event));
           ("duration_ms", fmt_N (GT.duration_ms event));
           ("file_changes_before", fmt_nat (length (GT.changed_files_before event)));
           ("file_changes_after", fmt_nat (length (GT.changed_files_after event)));
           ("wasted_cost", fmt_bool (GT.wasted_cost event))]]
    end
  else Some [].

Definition GhostTurnWatcher (max_ghost_turns : nat) : React :=
  mk_react GHOST_TURN (λ now stream _, ghost_turn_decide max_ghost_turns now stream).

(** *** Plans that go round *)

Definition signal_plan_id (s : Engram) : option string :=
  match get_tag s "plan_id" with
  | Some p => Some p
  | None =>
      if negb (is_kind Kind.PlanPhase s) then None
      else Body.as_json (λ v, json_get "plan_id" v ≫= json_as_str) (body s)
  end.

Definition latest_plan_id (stream : list Engram) : option string :=
  head (omap signal_plan_id (reverse stream)).

Definition plan_event (s : Engram) : option string :=
  if negb (is_kind Kind.PlanPhase s) then None
  else Body.as_json (λ v, json_get "event" v ≫= json_as_str) (body s).

(** The loop of both watchers over the stream: the count of [bad] events of the plan since
    the last event of [progress]; the count that reaches the limit ends the loop. *)
Fixpoint count_loop (bad : string) (progress : list string) (limit : nat) (plan_id : string)
    (count : nat) (stream : list Engram) : option nat :=
  match stream with
  | [] => None
  | s :: rest =>
      if negb (bool_decide (signal_plan_id s = Some plan_id)) then
        count_loop bad progress limit plan_id count rest
      else if negb (is_kind Kind.PlanPhase s) then
        count_loop bad progress limit plan_id count rest
      else
        match plan_event s with
        | Some event =>
            if string_eqb event bad then
              let count := S count in
              if (limit <=? count)%nat then Some count
              else count_loop bad progress limit plan_id count rest
            else if bool_decide (event ∈ progress) then
              count_loop bad progress limit plan_id 0 rest
            else count_loop bad progress limit plan_id count rest
        | None => count_loop bad progress limit plan_id count rest
        end
  end.

Definition MAX_IMPLEMENTER_ATTEMPTS : nat := 3.
Definition ITERATION_LOOP : string := "iteration-loop".
Definition iteration_progress : list string :=
  ["GatePassed"; "ImplementationDone"; "ReviewApproved"; "DocRevisionDone"; "MergeSucceeded";
   "VerifyPassed"].

Definition iteration_loop_decide (max_attempts : nat) (now : Z) (stream : list Engram) :
    list Engram :=
  match latest_plan_id stream with
  | None => []
  | Some plan_id =>
      match count_loop "GateFailed" iteration_progress max_attempts plan_id 0 stream with
      | Some gate_failures =>
          [intervention now
            ("plan " +:+ plan_id +:+ " repeated gate failures " +:+ fmt_nat gate_failures
               +:+ " times without progress")
            [("watcher", ITERATION_LOOP); ("severity", "critical"); ("plan_id", plan_id);
             ("attempts", fmt_nat gate_failures)]]
      | None => []
      end
  end.

Definition IterationLoopWatcher (max_attempts : nat) : React :=
  mk_react ITERATION_LOOP (λ now stream _, Some (iteration_loop_decide max_attempts now stream)).

Definition MAX_REVIEW_CYCLES : nat := 3.
Definition REVIEW_LOOP : string := "review-loop".
Definition review_progress : list string := ["ReviewApproved"; "DocRevisionDone"; "MergeSucceeded"].

Definition review_loop_decide (max_cycles : nat) (now : Z) (stream : list Engram) : list Engram :=
  match latest_plan_id stream with
  | None => []
  | Some plan_id =>
      match count_loop "ReviewRejected" review_progress max_cycles plan_id 0 stream with
      | Some review_rejects =>
          [intervention now
            ("plan " +:+ plan_id +:+ " repeated review rejects " +:+ fmt_nat review_rejects
               +:+ " times without progress")
            [("watcher", REVIEW_LOOP); ("severity", "warning"); ("plan_id", plan_id);
             ("count", fmt_nat review_rejects)]]
      | None => []
      end
  end.

Definition ReviewLoopWatcher (max_cycles : nat) : React :=
  mk_react REVIEW_LOOP (λ now stream _, Some (review_loop_decide max_cycles now stream)).

(** *** Compile failures *)

Definition MAX_IDENTICAL_COMPILE_FAILURES : nat := 3.
Definition COMPILE_FAIL_REPEAT : string := "compile-fail-repeat".

Definition diagnostic_key (s : Engram) : option string :=
  match body s with
  | Body.Text t => let t := utf8_trim t in if str_is_empty t then None else Some t
  | Body.Json v =>
      match json_get "message" v ≫= json_as_str with
      | Some m => Some (utf8_trim m)
      | None => Some (json_to_string v)
      end
  | _ => None
  end.

Definition compile_fail_decide (max_failures : nat) (now : Z) (stream : list Engram) :
    option (list Engram) :=
  let diagnostics := List.filter (is_kind Kind.CompileDiagnostic) stream in
  if (length diagnostics <? max_failures)%nat then Some []
  else
    match drop (length diagnostics - max_failures) diagnostics with
    | [] => None
    | first :: rest =>
        match diagnostic_key first with
        | None => Some []
        | Some first_key =>
            if forallb (λ s, bool_decide (diagnostic_key s = Some first_key)) rest then
              match truncate first_key 100 with
              | None => None
              | Some shown =>
                  Some [intervention now
                    (fmt_nat max_failures +:+ " consecutive identical compile failures: " +:+ shown)
                    [("watcher", COMPILE_FAIL_REPEAT); ("severity", "warning");
                     ("consecutive", fmt_nat max_failures)]]
              end
            else Some []
        end
    end.

Definition CompileFailRepeatWatcher (max_failures : nat) : React :=
  mk_react COMPILE_FAIL_REPEAT (λ now stream _, compile_fail_decide max_failures now stream).

(** *** Stuck agents *)

Definition MAX_IDENTICAL_ACTIONS : nat := 4.
Definition STUCK_PATTERN : string := "stuck-pattern".

Definition is_action (s : Engram) : bool :=
  is_kind Kind.AgentOutput s || is_kind Kind.AgentMessage s.

Definition body_fingerprint (s : Engram) : option string :=
  match body s with
  | Body.Text t => let t := utf8_trim t in if str_is_empty t then None else Some t
  | Body.Json v => Some (json_to_string v)
  | Body.Empty => None
  | Body.Bytes b =>
      match b with
      | [] => None
      | _ => Some ("bytes:" +:+ fmt_nat (length b) +:+ "/" +:+ fmt_bytes (take (length b `min` 16) b))
      end
  end.

(** The walk back: the fingerprint seen last and how often it was met. *)
Fixpoint stuck_walk (last : option string) (consecutive : nat) (rev_stream : list Engram) :
    option string * nat :=
  match rev_stream with
  | [] => (last, consecutive)
  | s :: rest =>
      if negb (is_action s) then stuck_walk last consecutive rest
      else
        match last, body_fingerprint s with
        | None, Some fp => stuck_walk (Some fp) 1 rest
        | Some prev, Some curr =>
            if decide (prev = curr) then stuck_walk last (S consecutive) rest
            else (last, consecutive)
        | _, None => stuck_walk last consecutive rest
        end
  end.

Definition stuck_pattern_decide (max_actions : nat) (now : Z) (stream : list Engram) :
    option (list Engram) :=
  let '(last_fingerprint, consecutive) := stuck_walk None 0 (reverse stream) in
  if (max_actions <=? consecutive)%nat then
    match truncate (default "" last_fingerprint) 80 with
    | None => None
    | Some shown =>
        Some [intervention now
          (fmt_nat consecutive +:+ " consecutive identical actions: " +:+ shown)
          [("watcher", STUCK_PATTERN); ("severity", "warning");
           ("consecutive", fmt_nat consecutive)]]
    end
  else Some [].

Definition StuckPatternWatcher (max_actions : nat) : React :=
  mk_react STUCK_PATTERN (λ now stream _, stuck_pattern_decide max_actions now stream).

(** *** Costs *)

Definition COST_OVERRUN : string := "cost-overrun".
Definition PLAN_COST_METRIC : string := "plan_cost".
Definition PLAN_BUDGET_METRIC : string := "plan_budget".
Definition DEFAULT_BUDGET : F64.t := F64.of_Z 10.

Definition is_metric (name : string) (s : Engram) : bool :=
  is_kind Kind.Metric s && bool_decide (get_tag s "name" = Some name).

Definition latest_metric (stream : list Engram) (name : string) : option F64.t :=
  rfind (is_metric name) stream ≫= λ s, get_tag s "value" ≫= parse_f64.

Definition cost_overrun_decide (default_budget : F64.t) (now : Z) (stream : list Engram) :
    list Engram :=
  match latest_metric stream PLAN_COST_METRIC with
  | None => []
  | Some cost =>
      let budget := default default_budget (latest_metric stream PLAN_BUDGET_METRIC) in
      if F64.le budget F64.zero then []
      else if F64.gt cost budget then
        [intervention now
          ("plan cost $" +:+ fmt_fixed 2 cost +:+ " exceeds budget $" +:+ fmt_fixed 2 budget)
          [("watcher", COST_OVERRUN); ("severity", "warning"); ("cost", fmt_fixed 2 cost);
           ("budget", fmt_fixed 2 budget)]]
      else []
  end.

Definition CostOverrunWatcher (default_budget : F64.t) : React :=
  mk_react COST_OVERRUN (λ now stream _, Some (cost_overrun_decide default_budget now stream)).

(** *** Context windows *)

Definition MAX_CONTEXT_USAGE_RATIO : F64.t := F64.lit 8 10.
Definition CONTEXT_WINDOW_PRESSURE : string := "context-window-pressure".
Definition SMALL_CONTEXT_WINDOW_TOKENS : N := 200000.
Definition OPUS_CONTEXT_WINDOW_TOKENS : N := 1000000.
Definition PRESSURE_LOOKBACK : nat := 3.

Definition context_window_tokens (configured_windows : gmap string N) (model : string) :
    option N :=
  let model_lower := str_to_ascii_lowercase model in
  match configured_windows !! model_lower with
  | Some ctx => Some ctx
  | None =>
      if str_contains "opus" model_lower then Some OPUS_CONTEXT_WINDOW_TOKENS
      else if str_contains "haiku" model_lower || str_contains "sonnet" model_lower then
        Some SMALL_CONTEXT_WINDOW_TOKENS
      else None
  end.

Definition usage_from_tags (configured_windows : gmap string N) (s : Engram) :
    option (F64.t * F64.t) :=
  match get_tag s "tokens_used" ≫= parse_f64 with
  | None => None
  | Some used =>
      match get_tag s "tokens_total" ≫= parse_f64 with
      | Some total => Some (used, total)
      | None =>
          match get_tag s "model" ≫= context_window_tokens configured_windows with
          | Some total => Some (used, F64.of_N total)
          | None => None
          end
      end
  end.

Definition extract_usage (configured_windows : gmap string N) (s : Engram) :
    option (F64.t * F64.t) :=
  match Body.as_json to_efficiency (body s) with
  | Some event =>
      match context_window_tokens configured_windows (EfficiencyEvent.model event) with
      | Some total =>
          Some (F64.of_N (EfficiencyEvent.total_prompt_tokens event), F64.of_N total)
      | None => usage_from_tags configured_windows s
      end
  | None => usage_from_tags configured_windows s
  end.

(** The loop: the greatest ratio so far, with its two terms. *)
Definition pressure_step (configured_windows : gmap string N) (acc : F64.t * (F64.t * F64.t))
    (s : Engram) : F64.t * (F64.t * F64.t) :=
  match extract_usage configured_windows s with
  | None => acc
  | Some (used, total) =>
      if F64.le total F64.zero then acc
      else
        let ratio := F64.div used total in
        if F64.gt ratio acc.1 then (ratio, (used, total)) else acc
  end.

Definition context_window_decide (max_ratio : F64.t) (configured_windows : gmap string N)
    (now : Z) (stream : list Engram) : list Engram :=
  match take PRESSURE_LOOKBACK (List.filter (is_kind Kind.TokenUsage) (reverse stream)) with
  | [] => []
  | recent =>
      let '(ratio, (used, total)) :=
        foldl (pressure_step configured_windows) (F64.zero, (F64.zero, F64.zero)) recent in
      if F64.le total F64.zero then []
      else if F64.gt ratio max_ratio then
        [intervention now
          ("context window " +:+ fmt_fixed 0 (F64.mul ratio (F64.of_Z 100)) +:+ "% full ("
             +:+ fmt_fixed 0 used +:+ "/" +:+ fmt_fixed 0 total +:+ " tokens)")
          [("watcher", CONTEXT_WINDOW_PRESSURE); ("severity", "warning");
           ("ratio", fmt_fixed 3 ratio)]]
      else []
  end.

Definition ContextWindowPressureWatcher (max_ratio : F64.t) (windows : gmap string N) : React :=
  mk_react CONTEXT_WINDOW_PRESSURE
    (λ now stream _, Some (context_window_decide max_ratio windows now stream)).

(** *** Drift *)

Definition MAX_SPEC_DRIFT_RATIO : F64.t := F64.lit 25 100.
Definition SPEC_DRIFT : string := "spec-drift".
Definition SPEC_DRIFT_METRIC : string := "spec_drift".

Definition signal_drift (s : Engram) : F64.t :=
  match SD.drift_ratio <$> Body.as_json to_spec_drift (body s) with
  | Some r => r
  | None => default F64.zero (get_tag s "value" ≫= parse_f64)
  end.

Definition spec_drift_decide (max_drift : F64.t) (now : Z) (stream : list Engram) : list Engram :=
  match rfind (is_metric SPEC_DRIFT_METRIC) stream with
  | None => []
  | Some s =>
      let drift := signal_drift s in
      if F64.gt drift max_drift then
        let details := Body.as_json to_spec_drift (body s) in
        let plan_id := default "unknown" (details ≫= SD.plan_id) in
        let task_id := default "unknown" (details ≫= SD.task_id) in
        let counted (f : SpecDriftEvent → list string) :=
          default 0%nat ((λ e, length (f e)) <$> details) in
        let unexpected_count := counted SD.unexpected_files in
        let changed_count := counted SD.changed_files in
        let write_count := counted SD.write_files in
        [intervention now
          ("spec drift " +:+ fmt_fixed 1 drift +:+ "% exceeds threshold "
             +:+ fmt_fixed 0 (F64.mul max_drift (F64.of_Z 100)) +:+ "% (plan=" +:+ plan_id
             +:+ ", task=" +:+ task_id +:+ ", changed=" +:+ fmt_nat changed_count
             +:+ ", write_files=" +:+ fmt_nat write_count +:+ ", unexpected="
             +:+ fmt_nat unexpected_count +:+ ")")
          [("watcher", SPEC_DRIFT); ("severity", "warning"); ("drift", fmt_fixed 3 drift);
           ("plan_id", plan_id); ("task_id", task_id); ("changed_files", fmt_nat changed_count);
           ("write_files", fmt_nat write_count); ("unexpected_files", fmt_nat unexpected_count)]]
      else []
  end.

Definition SpecDriftWatcher (max_drift : F64.t) : React :=
  mk_react SPEC_DRIFT (λ now stream _, Some (spec_drift_decide max_drift now stream)).

(** *** Test failures *)

Definition MIN_FAILURE_INCREASE : N := 1.
Definition TEST_FAILURE_BUDGET : string := "test-failure-budget".

(** The plan and the failures of a test gate's verdict; the count must fit a [u32]. *)
Definition test_failures (s : Engram) : option (string * N) :=
  if negb (is_kind Kind.GateVerdict s) then None
  else
    match body s with
    | Body.Json v =>
        match json_get "test_count" v with
        | Some test_count =>
            if negb (json_is_object test_count) then None
            else
              match json_get "plan_id" v ≫= json_as_str with
              | None => None
              | Some plan_id =>
                  match json_get "failed" test_count ≫= json_as_u64 with
                  | Some failed => if (failed <=? u32_MAX)%N then Some (plan_id, failed) else None
                  | None => None
                  end
              end
        | None => None
        end
    | _ => None
    end.

(** The first count of each plan, and the latest. *)
Definition record_failures (acc : gmap string N * gmap string N) (s : Engram) :
    gmap string N * gmap string N :=
  match test_failures s with
  | None => acc
  | Some (plan_id, failed) =>
      (match acc.1 !! plan_id with Some _ => acc.1 | None => <[plan_id := failed]> acc.1 end,
       <[plan_id := failed]> acc.2)
  end.

Definition failure_signal (min_failure_increase : N) (now : Z) (baselines : gmap string N)
    (kv : string * N) : option Engram :=
  let '(plan_id, current_failed) := kv in
  match baselines !! plan_id with
  | None => None
  | Some baseline_failed =>
      let delta := sat_sub current_failed baseline_failed in
      if (delta <? min_failure_increase)%N then None
      else
        Some (intervention now
          ("test failures increased for " +:+ plan_id +:+ ": " +:+ fmt_N baseline_failed +:+ " -> "
             +:+ fmt_N current_failed)
          [("watcher", TEST_FAILURE_BUDGET); ("severity", "warning"); ("plan_id", plan_id);
           ("baseline_failures", fmt_N baseline_failed);
           ("current_failures", fmt_N current_failed); ("failure_delta", fmt_N delta)])
  end.

Definition test_failure_decide {HI : HashIter} (min_failure_increase : N) (now : Z)
    (stream : list Engram) : list Engram :=
  let '(baselines, latest) := foldl record_failures (∅, ∅) stream in
  omap (failure_signal min_failure_increase now baselines) (hash_iter latest).

Definition TestFailureBudgetWatcher {HI : HashIter} (min_failure_increase : N) : React :=
  mk_react TEST_FAILURE_BUDGET
    (λ now stream _, Some (test_failure_decide min_failure_increase now stream)).

(** *** Time *)

Definition TIME_OVERRUN : string := "time-overrun".
Definition ALERT_THRESHOLD : F64.t := F64.lit 8 10.

Definition task_is_timing_event (s : Engram) : bool := is_kind (Kind.Custom TASK_OUTPUT_KIND) s.

Definition extract_timing_event (s : Engram) : option TaskTimingEvent :=
  if negb (task_is_timing_event s) then None else Body.as_json to_timing (body s).

Definition exceeds_threshold (duration_ms timeout_secs : N) (alert_threshold : F64.t) : bool :=
  if (timeout_secs =? 0)%N then false
  else
    let timeout_ms := sat_mul64 timeout_secs 1000 in
    F64.gt (F64.of_N duration_ms) (F64.mul (F64.of_N timeout_ms) alert_threshold).

Definition time_overrun_decide (alert_threshold : F64.t) (now : Z) (stream : list Engram) :
    list Engram :=
  match rfind task_is_timing_event stream with
  | None => []
  | Some s =>
      match extract_timing_event s with
      | None => []
      | Some event =>
          if negb (exceeds_threshold (TT.duration_ms event) (TT.timeout_secs event)
                     alert_threshold) then []
          else
            let timeout_ms := sat_mul64 (TT.timeout_secs event) 1000 in
            let ratio :=
              if (0 <? timeout_ms)%N then
                F64.div (F64.of_N (TT.duration_ms event)) (F64.of_N timeout_ms)
              else F64.zero in
            [intervention now
              ("task " +:+ TT.task event +:+ " exceeded 80% of timeout: "
                 +:+ fmt_N (TT.duration_ms event) +:+ "ms of " +:+ fmt_N timeout_ms +:+ "ms")
              [("watcher", TIME_OVERRUN); ("severity", "warning"); ("plan_id", TT.plan_id event);
               ("task_id", TT.task event); ("duration_ms", fmt_N (TT.duration_ms event));
               ("timeout_secs", fmt_N (TT.timeout_secs event));
               ("threshold", f64_to_string alert_threshold); ("ratio", fmt_fixed 3 ratio)]]
      end
  end.

Definition TimeOverrunWatcher (alert_threshold : F64.t) : React :=
  mk_react TIME_OVERRUN (λ now stream _, Some (time_overrun_decide alert_threshold now stream)).

Definition with_alert_threshold (alert_threshold : F64.t) : React :=
  TimeOverrunWatcher (F64.clamp F64.zero (F64.of_Z 1) alert_threshold).
End Watchers.

(** ** Interventions *)

Section facts.
Context `{J : Json, EP : !EngramParts, BS : !BodySerde, B3 : !Blake3, EL : !ExpLib}.
Context {JT : JsonText} {WS : WatcherSerde}.
Implicit Types (stream : list Engram) (now : Z).

Lemma foldl_with_tag l (b : EngramBuilder) :
  b_tags (foldl (λ b kv, with_tag kv.1 kv.2 b) b l) = foldl (λ m kv, <[kv.1 := kv.2]> m) (b_tags b) l
  ∧ b_kind (foldl (λ b kv, with_tag kv.1 kv.2 b) b l) = b_kind b
  ∧ b_body (foldl (λ b kv, with_tag kv.1 kv.2 b) b l) = b_body b.
Proof. revert b. induction l as [|kv l IH]; intros b; [done|]. cbn [foldl]. apply (IH (with_tag _ _ b)). Qed.

Lemma intervention_kind now text l :
  kind (intervention now text l) = Kind.Custom "conductor.intervention".
Proof.
  unfold intervention, build. cbn [kind]. by rewrite (proj1 (proj2 (foldl_with_tag _ _))).
Qed.

Lemma intervention_body now text l : body (intervention now text l) = Body.Text text.
Proof.
  unfold intervention, build. cbn [body]. by rewrite (proj2 (proj2 (foldl_with_tag _ _))).
Qed.

Lemma intervention_tags now text l :
  tags (intervention now text l) = foldl (λ m kv, <[kv.1 := kv.2]> m) ∅ l.
Proof.
  unfold intervention, build. cbn [tags]. by rewrite (proj1 (foldl_with_tag _ _)).
Qed.

Lemma foldl_insert_notin {V} (l : list (string * V)) (m : gmap string V) k :
  k ∉ l.*1 → foldl (λ m kv, <[kv.1 := kv.2]> m) m l !! k = m !! k.
Proof.
  revert m. induction l as [|[k' v] l IH]; intros m Hk; cbn [foldl fst snd]; [done|].
  rewrite fmap_cons, not_elem_of_cons in Hk. rewrite IH by tauto.
  by rewrite lookup_insert_ne by (cbn in Hk; naive_solver).
Qed.

(** Every intervention names its watcher and its severity first. *)
Lemma intervention_watcher now text w sev l :
  "watcher" ∉ l.*1 → "severity" ∉ l.*1 →
  let e := intervention now text (("watcher", w) :: ("severity", sev) :: l) in
  get_tag e "watcher" = Some w ∧ get_tag e "severity" = Some sev.
Proof.
  intros Hw Hs. cbv zeta. unfold get_tag. rewrite intervention_tags. cbn [foldl fst snd].
  rewrite !foldl_insert_notin by done. split.
  - by rewrite lookup_insert_ne, lookup_insert_eq by done.
  - by rewrite lookup_insert_eq.
Qed.

(** What a signal of a watcher looks like. *)
Definition watcher_signal (w sev : string) (e : Engram) : Prop :=
  kind e = Kind.Custom "conductor.intervention" ∧ get_tag e "watcher" = Some w
  ∧ get_tag e "severity" = Some sev ∧ ∃ text, body e = Body.Text text.

Lemma intervention_signal now text w sev l :
  forallb (λ k, negb (string_eqb k "watcher") && negb (string_eqb k "severity")) l.*1 = true →
  watcher_signal w sev (intervention now text (("watcher", w) :: ("severity", sev) :: l)).
Proof.
  intros H. rewrite forallb_forall in H.
  assert (∀ k, k ∈ l.*1 → k ≠ "watcher" ∧ k ≠ "severity") as Hk.
  { intros k Hin. rewrite list_elem_of_In in Hin. specialize (H k Hin). cbn beta in H.
    rewrite andb_true_iff, !negb_true_iff in H. unfold string_eqb in H.
    rewrite !bool_decide_eq_false in H. done. }
  destruct (intervention_watcher now text w sev l) as [Hw Hs].
  { intros Hin. by destruct (Hk _ Hin). } { intros Hin. by destruct (Hk _ Hin). }
  split; [apply intervention_kind|]. split; [done|]. split; [done|].
  eexists. apply intervention_body.
Qed.

(** ** Ghost turns *)

Definition wasted_turn (s : Engram) : Prop := is_Some (extract_ghost_turn_event s).

Lemma ghost_streak_length l n :
  (n ≤ length (ghost_streak l))%nat ↔ (n ≤ length l)%nat ∧ Forall wasted_turn (take n l).
Proof.
  revert n. induction l as [|s l IH]; intros [|n]; cbn [ghost_streak take length].
  - split; [intros _; split; [lia|constructor]|intros _; lia].
  - split; [lia|intros [H _]; lia].
  - split; [intros _; split; [lia|constructor]|intros _; lia].
  - rewrite Forall_cons. unfold wasted_turn at 1.
    destruct (extract_ghost_turn_event s) as [e|] eqn:E; cbn [length].
    + assert (S n ≤ S (length (ghost_streak l)) ↔ n ≤ length (ghost_streak l))%nat as -> by lia.
      assert (S n ≤ S (length l) ↔ n ≤ length l)%nat as -> by lia.
      rewrite IH. naive_solver.
    + split; [lia|]. intros (_ & [? [=]] & _).
Qed.

(** With a limit of at least one, the watcher never panics, and it fires exactly when that
    many signals at the end of the stream are wasted turns: a signal of any other kind
    starts the count again. *)
Theorem ghost_turn_fires max now stream :
  (1 ≤ max)%nat →
  ∃ out, ghost_turn_decide max now stream = Some out ∧
    (out ≠ [] ↔ (max ≤ length stream)%nat ∧ Forall wasted_turn (take max (reverse stream)))
    ∧ (∀ e, e ∈ out → watcher_signal GHOST_TURN "warning" e).
Proof.
  intros Hmax. unfold ghost_turn_decide.
  pose proof (ghost_streak_length (reverse stream) max) as Hlen. rewrite length_reverse in Hlen.
  destruct (Nat.leb_spec max (length (ghost_streak (reverse stream)))) as [Hle|Hgt].
  - destruct (ghost_streak (reverse stream)) as [|e l] eqn:E; [cbn in Hle; lia|].
    eexists. split; [reflexivity|]. split; [split; [intros _; by apply Hlen|done]|].
    intros x ->%list_elem_of_singleton. by apply intervention_signal.
  - exists []. split; [done|]. split.
    { split; [done|]. intros H%Hlen. lia. }
    intros e He. by apply elem_of_nil in He.
Qed.

(** A limit of zero panics on a stream that does not end in a wasted turn. *)
Lemma ghost_turn_zero now : ghost_turn_decide 0 now [] = None.
Proof. done. Qed.

(** ** Loops *)

(** The events of one plan, in order. *)
Definition plan_events (plan_id : string) (stream : list Engram) : list string :=
  omap (λ s, if bool_decide (signal_plan_id s = Some plan_id) then plan_event s else None) stream.

(** One step of the count, on the events of the plan. *)
Definition count_event (bad : string) (progress : list string) (count : nat) (event : string) : nat :=
  if string_eqb event bad then S count
  else if bool_decide (event ∈ progress) then 0 else count.

Definition since_progress (bad : string) (progress events : list string) : nat :=
  foldl (count_event bad progress) 0 events.

Lemma count_loop_events bad progress limit plan_id count stream :
  count_loop bad progress limit plan_id count stream =
  (fix go (count : nat) (events : list string) : option nat :=
     match events with
     | [] => None
     | event :: rest =>
         if string_eqb event bad then
           if (limit <=? S count)%nat then Some (S count) else go (S count) rest
         else go (count_event bad progress count event) rest
     end) count (plan_events plan_id stream).
Proof.
  revert count. induction stream as [|s stream IH]; intros count; [done|].
  cbn [count_loop]. unfold plan_events. cbn [omap list_omap].
  destruct (bool_decide (signal_plan_id s = Some plan_id)); cbn [negb]; [|apply IH].
  unfold plan_event at 2. destruct (is_kind Kind.PlanPhase s) eqn:Hk; cbn [negb]; [|apply IH].
  unfold plan_event. rewrite Hk. cbn [negb].
  destruct (Body.as_json _ (body s)) as [event|]; [|apply IH].
  unfold count_event. destruct (string_eqb event bad).
  - destruct (limit <=? S count)%nat; [done|apply IH].
  - destruct (bool_decide (event ∈ progress)); apply IH.
Qed.

(** The loop ends with a count exactly when some prefix of the plan's events has the limit
    of bad events since the last progress: the prefix need not be the whole. *)
Lemma count_loop_iff bad progress limit plan_id count stream n :
  (count < limit)%nat →
  count_loop bad progress limit plan_id count stream = Some n ↔
  n = limit ∧ ∃ p, p `prefix_of` plan_events plan_id stream
    ∧ foldl (count_event bad progress) count p = limit.
Proof.
  intros Hc. rewrite count_loop_events. generalize (plan_events plan_id stream). intros events.
  revert count Hc. induction events as [|event rest IH]; intros count Hc.
  - split; [done|]. intros (_ & p & Hp%prefix_nil_inv & H). subst p. cbn in H. lia.
  - assert (∀ c, (c < limit)%nat → c = count_event bad progress count event →
      (n = limit ∧ ∃ p, p `prefix_of` rest ∧ foldl (count_event bad progress) c p = limit) ↔
      n = limit ∧ ∃ p, p `prefix_of` event :: rest
        ∧ foldl (count_event bad progress) count p = limit) as Hgo.
    { intros c Hcl ->. split; intros (-> & p & Hp & Hf).
      - split; [done|]. exists (event :: p). split; [by apply prefix_cons|]. done.
      - split; [done|]. destruct p as [|x p]; [cbn in Hf; lia|].
        pose proof (prefix_cons_inv_1 _ _ _ _ Hp) as ->. apply prefix_cons_inv_2 in Hp.
        by exists p. }
    destruct (string_eqb event bad) eqn:Hb.
    + destruct (Nat.leb_spec limit (S count)) as [Hl|Hl].
      * assert (S count = limit) as <- by lia. split.
        { intros [= <-]. split; [done|]. exists [event]. split; [apply prefix_cons, prefix_nil|].
          cbn. unfold count_event. by rewrite Hb. }
        { by intros (-> & _). }
      * rewrite IH by lia. apply Hgo; [lia|]. unfold count_event. by rewrite Hb.
    + rewrite IH; [apply Hgo; [|done]|]; unfold count_event; rewrite Hb; case_bool_decide; lia.
Qed.

Lemma plan_events_app plan_id s1 s2 :
  plan_events plan_id (s1 ++ s2) = plan_events plan_id s1 ++ plan_events plan_id s2.
Proof. unfold plan_events. apply omap_app. Qed.

(** The watcher of iterations fires exactly when, at some point of the history of the plan the
    stream ends with, the limit of gate failures was reached without progress in between. *)
Theorem iteration_loop_fires max now stream :
  (1 ≤ max)%nat →
  (iteration_loop_decide max now stream ≠ [] ↔
     ∃ plan_id p, latest_plan_id stream = Some plan_id
       ∧ p `prefix_of` plan_events plan_id stream
       ∧ since_progress "GateFailed" iteration_progress p = max)
  ∧ (∀ e, e ∈ iteration_loop_decide max now stream → watcher_signal ITERATION_LOOP "critical" e).
Proof.
  intros Hmax. unfold iteration_loop_decide.
  destruct (latest_plan_id stream) as [plan_id|].
  2: { split; [split; [done|naive_solver]|]. intros e He. by apply elem_of_nil in He. }
  destruct (count_loop _ _ max plan_id 0 stream) as [n|] eqn:E.
  - apply count_loop_iff in E as (-> & p & Hp & Hf); [|lia]. split.
    + split; [|done]. intros _. by exists plan_id, p.
    + intros e ->%list_elem_of_singleton. by apply intervention_signal.
  - split; [|intros e He; by apply elem_of_nil in He]. split; [done|].
    intros (? & p & [= <-] & Hp & Hf) _.
    assert (count_loop "GateFailed" iteration_progress max plan_id 0 stream = Some max) as H.
    { apply count_loop_iff; [lia|]. split; [done|]. by exists p. }
    congruence.
Qed.

(** Once it has fired for a plan it fires for that plan whatever follows, progress included. *)
Theorem iteration_loop_forever max now now' stream more :
  (1 ≤ max)%nat → iteration_loop_decide max now stream ≠ [] →
  latest_plan_id (stream ++ more) = latest_plan_id stream →
  iteration_loop_decide max now' (stream ++ more) ≠ [].
Proof.
  intros Hmax H Hplan. unfold iteration_loop_decide in *. rewrite Hplan.
  destruct (latest_plan_id stream) as [plan_id|]; [|done].
  destruct (count_loop _ _ max plan_id 0 stream) as [n|] eqn:E; [|done].
  apply count_loop_iff in E as (_ & p & Hp & Hf); [|lia].
  assert (count_loop "GateFailed" iteration_progress max plan_id 0 (stream ++ more) = Some max) as ->;
    [|done].
  apply count_loop_iff; [lia|]. split; [done|]. exists p. split; [|done].
  rewrite plan_events_app. by apply prefix_app_r.
Qed.

Lemma review_loop_signal max now stream e :
  e ∈ review_loop_decide max now stream → watcher_signal REVIEW_LOOP "warning" e.
Proof.
  unfold review_loop_decide. repeat case_match; try (intros He; by apply elem_of_nil in He).
  intros ->%list_elem_of_singleton. by apply intervention_signal.
Qed.

(** ** Compile failures *)

Lemma truncate_ascii s n :
  Forall (λ b, b < 128)%N (codes s) → is_Some (truncate s n).
Proof.
  intros Ha. unfold truncate. destruct (Nat.leb_spec (String.length s) n) as [|Hn]; [by eexists|].
  rewrite str_prefix_ascii; [by eexists|lia|].
  intros b Hb. rewrite Forall_forall in Ha. apply Ha. by eapply list_elem_of_lookup_2.
Qed.

(** The compile watcher fires exactly when the last diagnostics, as many as its limit, have
    one and the same key; what it does then is tell, or panic on a key that a character
    straddling the hundredth byte keeps from being shortened. *)
Theorem compile_fail_fires max now stream :
  (1 ≤ max)%nat →
  let diagnostics := List.filter (is_kind Kind.CompileDiagnostic) stream in
  let last := drop (length diagnostics - max) diagnostics in
  match compile_fail_decide max now stream with
  | Some [] => ¬ ((max ≤ length diagnostics)%nat
                  ∧ ∃ key, Forall (λ s, diagnostic_key s = Some key) last)
  | Some out => (max ≤ length diagnostics)%nat
      ∧ (∃ key, Forall (λ s, diagnostic_key s = Some key) last ∧ is_Some (truncate key 100))
      ∧ ∃ e, out = [e] ∧ watcher_signal COMPILE_FAIL_REPEAT "warning" e
  | None => (max ≤ length diagnostics)%nat
      ∧ ∃ key, Forall (λ s, diagnostic_key s = Some key) last ∧ truncate key 100 = None
  end.
Proof.
  intros Hmax. cbv zeta. unfold compile_fail_decide.
  set (ds := List.filter (is_kind Kind.CompileDiagnostic) stream).
  destruct (Nat.ltb_spec (length ds) max) as [Hlt|Hle]; [intros [H _]; lia|].
  destruct (drop (length ds - max) ds) as [|first rest] eqn:E.
  { exfalso. apply (f_equal length) in E. rewrite length_drop in E. cbn in E. lia. }
  destruct (diagnostic_key first) as [key|] eqn:Hk.
  2: { intros (_ & key & Hall). apply Forall_cons in Hall as [Hf _]. congruence. }
  assert (forallb (λ s, bool_decide (diagnostic_key s = Some key)) rest = true ↔
    ∃ key', Forall (λ s, diagnostic_key s = Some key') (first :: rest)) as Hall.
  { rewrite forallb_forall. setoid_rewrite bool_decide_eq_true. split.
    - intros H. exists key. constructor; [done|]. apply Forall_forall. intros x Hx.
      by apply H, list_elem_of_In.
    - intros (key' & H) x Hx. apply Forall_cons in H as [Hf H]. rewrite Hk in Hf.
      injection Hf as <-. rewrite Forall_forall in H. by apply H, list_elem_of_In. }
  destruct (forallb _ rest) eqn:Hf.
  2: { intros [_ H%Hall]. done. }
  assert (Forall (λ s, diagnostic_key s = Some key) (first :: rest)) as Hkey.
  { destruct (proj1 Hall eq_refl) as (key' & H).
    assert (key' = key) as ->; [|done]. apply Forall_cons in H as [H _]. congruence. }
  destruct (truncate key 100) as [shown|] eqn:Ht.
  - split; [done|]. split; [by exists key|]. eexists. split; [reflexivity|].
    by apply intervention_signal.
  - split; [done|]. by exists key.
Qed.

(** ** Stuck agents *)

(** The fingerprints of the actions, the latest first; an action without one is passed over. *)
Definition fingerprints (rev_stream : list Engram) : list string :=
  omap (λ s, if is_action s then body_fingerprint s else None) rev_stream.

(** The length of the run of [fp] a list begins with. *)
Fixpoint run_length (fp : string) (l : list string) : nat :=
  match l with
  | [] => 0
  | x :: l' => if decide (x = fp) then S (run_length fp l') else 0
  end.

Lemma stuck_walk_some fp n l :
  stuck_walk (Some fp) n l = (Some fp, n + run_length fp (fingerprints l))%nat.
Proof.
  revert n. induction l as [|s l IH]; intros n; cbn [stuck_walk].
  - cbn. by rewrite Nat.add_0_r.
  - unfold fingerprints. cbn [omap list_omap]. destruct (is_action s); cbn [negb]; [|apply IH].
    destruct (body_fingerprint s) as [curr|]; [|apply IH].
    cbn [run_length]. destruct (decide (fp = curr)) as [->|Hne].
    + rewrite decide_True by done. rewrite IH. f_equal. cbn. fold (fingerprints l). lia.
    + rewrite decide_False by congruence. by rewrite Nat.add_0_r.
Qed.

Lemma stuck_walk_spec l :
  stuck_walk None 0 l =
    match fingerprints l with
    | [] => (None, 0)
    | fp :: rest => (Some fp, S (run_length fp rest))
    end%nat.
Proof.
  induction l as [|s l IH]; [done|]. cbn [stuck_walk]. unfold fingerprints. cbn [omap list_omap].
  destruct (is_action s); cbn [negb]; [|apply IH].
  destruct (body_fingerprint s) as [curr|]; [|apply IH]. apply stuck_walk_some.
Qed.

(** The stuck watcher fires, or panics on a fingerprint it cannot shorten, exactly when the
    latest fingerprint has been repeated up to the limit. *)
Lemma stuck_pattern_spec max now stream :
  (1 ≤ max)%nat →
  match fingerprints (reverse stream) with
  | [] => stuck_pattern_decide max now stream = Some []
  | fp :: rest =>
      if (max <=? S (run_length fp rest))%nat then
        match truncate fp 80 with
        | Some _ => ∃ e, stuck_pattern_decide max now stream = Some [e]
            ∧ watcher_signal STUCK_PATTERN "warning" e
        | None => stuck_pattern_decide max now stream = None
        end
      else stuck_pattern_decide max now stream = Some []
  end.
Proof.
  intros Hmax. unfold stuck_pattern_decide. rewrite stuck_walk_spec.
  destruct (fingerprints (reverse stream)) as [|fp rest].
  - destruct (Nat.leb_spec max 0); [lia|done].
  - destruct (max <=? S (run_length fp rest))%nat; [|done].
    change (default "" (Some fp)) with fp.
    destruct (truncate fp 80) as [shown|]; [|done].
    eexists. split; [reflexivity|]. by apply intervention_signal.
Qed.

(** ** Costs *)

(** It fires exactly when the latest cost is above the latest budget and that budget is not
    zero or less. *)
Lemma cost_overrun_fires budget now stream :
  (cost_overrun_decide budget now stream ≠ [] ↔
    ∃ cost, latest_metric stream PLAN_COST_METRIC = Some cost
      ∧ let b := default budget (latest_metric stream PLAN_BUDGET_METRIC) in
        F64.le b F64.zero = false ∧ F64.gt cost b = true)
  ∧ ∀ e, e ∈ cost_overrun_decide budget now stream → watcher_signal COST_OVERRUN "warning" e.
Proof.
  unfold cost_overrun_decide. destruct (latest_metric stream PLAN_COST_METRIC) as [cost|].
  2: { split; [split; [done|by intros (? & [=] & _)]|]. intros e He. by apply elem_of_nil in He. }
  cbv zeta. set (b := default budget _). destruct (F64.le b F64.zero) eqn:Hb.
  { split; [split; [done|by intros (? & _ & [=] & _)]|]. intros e He. by apply elem_of_nil in He. }
  destruct (F64.gt cost b) eqn:Hc.
  - split; [split; [intros _; by exists cost|done]|].
    intros e ->%list_elem_of_singleton. by apply intervention_signal.
  - split; [split; [done|intros (? & [= <-] & _ & H); congruence]|].
    intros e He. by apply elem_of_nil in He.
Qed.

(** ** Context windows *)

(** A usage whose window is not empty and whose ratio is [r]. *)
Definition usage_ratio (windows : gmap string N) (s : Engram) (r : F64.t) : Prop :=
  ∃ used total, extract_usage windows s = Some (used, total)
    ∧ F64.le total F64.zero = false ∧ F64.div used total = r.

Lemma lt_le_trans_sf a b c : SFltb a b = true → sf_le b c → F64.is_nan c = false → SFltb a c = true.
Proof.
  intros Hab Hbc Hc.
  destruct (F64.is_nan a) eqn:Ha; [by rewrite lt_nan_l in Hab|].
  destruct (F64.is_nan b) eqn:Hb; [by rewrite lt_nan_r in Hab|].
  apply lt_key in Hab; [|done..]. apply not_lt_key in Hbc; [|done..].
  apply lt_key; [done..|]. unfold key_lt in *. lia.
Qed.

Lemma lt_not_nan a b : SFltb a b = true → F64.is_nan b = false.
Proof. intros H. destruct (F64.is_nan b) eqn:E; [|done]. by rewrite lt_nan_r in H. Qed.

(** What the loop keeps is what it started with or the ratio of one of the usages, and no
    ratio is above it. *)
Lemma pressure_fold windows l acc :
  F64.is_nan acc.1 = false →
  let out := foldl (pressure_step windows) acc l in
  F64.is_nan out.1 = false ∧ sf_le acc.1 out.1
  ∧ (∀ s x, s ∈ l → usage_ratio windows s x → sf_le x out.1)
  ∧ (out = acc ∨ F64.le out.2.2 F64.zero = false ∧ ∃ s, s ∈ l ∧ usage_ratio windows s out.1).
Proof.
  cbv zeta. revert acc. induction l as [|s l IH]; intros acc Hn; cbn [foldl].
  { split; [done|]. split; [apply sf_le_refl|]. split; [|by left].
    intros s x Hs. by apply elem_of_nil in Hs. }
  assert (pressure_step windows acc s = acc ∧ (∀ x, usage_ratio windows s x → sf_le x acc.1)
    ∨ F64.is_nan (pressure_step windows acc s).1 = false
      ∧ SFltb acc.1 (pressure_step windows acc s).1 = true
      ∧ F64.le (pressure_step windows acc s).2.2 F64.zero = false
      ∧ ∀ x, usage_ratio windows s x ↔ x = (pressure_step windows acc s).1) as Hstep.
  { unfold pressure_step, usage_ratio.
    destruct (extract_usage windows s) as [[used total]|]; [|left; split; [done|]; by intros x (? & ? & [=] & _)].
    destruct (F64.le total F64.zero) eqn:Ht.
    { left. split; [done|]. intros x (? & ? & [= <- <-] & H & _). congruence. }
    destruct (F64.gt (F64.div used total) acc.1) eqn:Hg.
    - right. cbn [fst snd]. split; [by eapply lt_not_nan|]. split; [done|]. split; [done|].
      intros x. split; [by intros (? & ? & [= <- <-] & _ & <-)|]. intros ->. by exists used, total.
    - left. split; [done|]. by intros x (? & ? & [= <- <-] & _ & <-). }
  destruct Hstep as [[-> Hle]|(Hn' & Hlt & Ht & Hiff)].
  - destruct (IH acc Hn) as (H1 & H2 & H3 & H4). split; [done|]. split; [done|]. split.
    + intros x y [->|Hx]%elem_of_cons Hy; [|by eapply H3].
      eapply sf_le_trans; [exact Hn|by apply Hle|exact H2].
    + destruct H4 as [->|(H4 & x & Hx & Hr)]; [by left|]. right. split; [done|]. exists x.
      split; [by apply list_elem_of_further|done].
  - destruct (IH _ Hn') as (H1 & H2 & H3 & H4). split; [done|]. split.
    { eapply sf_le_trans; [exact Hn'|by apply sf_lt_le|exact H2]. }
    split.
    + intros x y [->|Hx]%elem_of_cons Hy; [|by eapply H3]. apply Hiff in Hy as ->. exact H2.
    + right. destruct H4 as [->|(H4 & x & Hx & Hr)].
      * split; [done|]. exists s. split; [apply list_elem_of_here|by apply Hiff].
      * split; [done|]. exists x. split; [by apply list_elem_of_further|done].
Qed.

Lemma context_window_signal max_ratio windows now stream e :
  e ∈ context_window_decide max_ratio windows now stream →
  watcher_signal CONTEXT_WINDOW_PRESSURE "warning" e.
Proof.
  unfold context_window_decide.
  destruct (take PRESSURE_LOOKBACK _) as [|s l]; [intros He; by apply elem_of_nil in He|].
  destruct (foldl _ _ _) as [r [used total]].
  destruct (F64.le total F64.zero); [intros He; by apply elem_of_nil in He|].
  destruct (F64.gt r max_ratio); [|intros He; by apply elem_of_nil in He].
  intros ->%list_elem_of_singleton. by apply intervention_signal.
Qed.

(** With a threshold that is not negative, the watcher of context windows fires exactly when
    one of the last three reports of token usage is above it. *)
Theorem context_window_fires max_ratio windows now stream :
  sf_le F64.zero max_ratio →
  context_window_decide max_ratio windows now stream ≠ [] ↔
    ∃ s r, s ∈ take PRESSURE_LOOKBACK (List.filter (is_kind Kind.TokenUsage) (reverse stream))
      ∧ usage_ratio windows s r ∧ F64.gt r max_ratio = true.
Proof.
  intros Hmax. unfold context_window_decide.
  set (recent := take PRESSURE_LOOKBACK _).
  assert ((∃ s r, s ∈ recent ∧ usage_ratio windows s r ∧ F64.gt r max_ratio = true) ↔
    F64.le (foldl (pressure_step windows) (F64.zero, (F64.zero, F64.zero)) recent).2.2 F64.zero = false
    ∧ F64.gt (foldl (pressure_step windows) (F64.zero, (F64.zero, F64.zero)) recent).1 max_ratio
      = true) as Hiff.
  { destruct (pressure_fold windows recent (F64.zero, (F64.zero, F64.zero)))
      as (Hn & H1 & H2 & H3); [done|].
    set (out := foldl _ _ recent) in *. split.
    - intros (s & r & Hs & Hr & Hg).
      assert (F64.gt out.1 max_ratio = true) as Ho by (eapply lt_le_trans_sf; [exact Hg|by eapply H2|done]).
      split; [|done]. destruct H3 as [Heq|[H3 _]]; [|done]. rewrite Heq in Ho. cbn [fst] in Ho.
      unfold sf_le in Hmax. unfold F64.gt in Ho. congruence.
    - intros [Ht Hg]. destruct H3 as [Heq|(_ & s & Hs & Hr)]; [|by exists s, out.1].
      by rewrite Heq in Ht. }
  rewrite Hiff. clear Hiff.
  destruct recent as [|s0 l0]; [split; [done|by intros [[=] _]]|].
  destruct (foldl _ _ (s0 :: l0)) as [r [used total]]. cbn [fst snd].
  destruct (F64.le total F64.zero); [split; [done|by intros [[=] _]]|].
  destruct (F64.gt r max_ratio); [done|]. split; [done|by intros [_ [=]]].
Qed.

(** ** Drift and time *)

Lemma spec_drift_fires max_drift now stream :
  (spec_drift_decide max_drift now stream ≠ [] ↔
    ∃ s, rfind (is_metric SPEC_DRIFT_METRIC) stream = Some s
      ∧ F64.gt (signal_drift s) max_drift = true)
  ∧ ∀ e, e ∈ spec_drift_decide max_drift now stream → watcher_signal SPEC_DRIFT "warning" e.
Proof.
  unfold spec_drift_decide. destruct (rfind _ stream) as [s|].
  2: { split; [split; [done|by intros (? & [=] & _)]|]. intros e He. by apply elem_of_nil in He. }
  cbv zeta. destruct (F64.gt (signal_drift s) max_drift) eqn:Hg.
  - split; [split; [intros _; by exists s|done]|].
    intros e ->%list_elem_of_singleton. by apply intervention_signal.
  - split; [split; [done|intros (? & [= <-] & H); congruence]|].
    intros e He. by apply elem_of_nil in He.
Qed.

Lemma time_overrun_fires threshold now stream :
  (time_overrun_decide threshold now stream ≠ [] ↔
    ∃ s event, rfind task_is_timing_event stream = Some s ∧ extract_timing_event s = Some event
      ∧ exceeds_threshold (TT.duration_ms event) (TT.timeout_secs event) threshold = true)
  ∧ ∀ e, e ∈ time_overrun_decide threshold now stream → watcher_signal TIME_OVERRUN "warning" e.
Proof.
  unfold time_overrun_decide. destruct (rfind _ stream) as [s|].
  2: { split; [split; [done|by intros (? & ? & [=] & _)]|]. intros e He. by apply elem_of_nil in He. }
  destruct (extract_timing_event s) as [event|] eqn:Ee.
  2: { split; [split; [done|intros (? & ? & [= <-] & H & _); congruence]|].
       intros e He. by apply elem_of_nil in He. }
  destruct (exceeds_threshold _ _ threshold) eqn:Hx; cbn [negb].
  - split; [split; [intros _; by exists s, event|done]|].
    intros e ->%list_elem_of_singleton. by apply intervention_signal.
  - split; [split; [done|]|intros e He; by apply elem_of_nil in He].
    intros (? & ? & [= <-] & H & H'). rewrite Ee in H. injection H as <-. congruence.
Qed.

(** ** Test failures *)

(** The counts of one plan, in order. *)
Definition plan_failures (plan_id : string) (stream : list Engram) : list N :=
  omap (λ s, match test_failures s with
             | Some (p, n) => if decide (p = plan_id) then Some n else None
             | None => None
             end) stream.

Lemma record_failures_spec stream plan_id :
  (foldl record_failures (∅, ∅) stream).1 !! plan_id = head (plan_failures plan_id stream)
  ∧ (foldl record_failures (∅, ∅) stream).2 !! plan_id = last (plan_failures plan_id stream).
Proof.
  induction stream as [|s stream [IH1 IH2]] using rev_ind; [split; apply lookup_empty|].
  rewrite foldl_app. cbn [foldl]. set (acc := foldl record_failures _ stream) in *.
  unfold plan_failures. rewrite omap_app. cbn [omap list_omap]. fold (plan_failures plan_id stream).
  unfold record_failures. destruct (test_failures s) as [[p n]|]; [|by rewrite app_nil_r].
  cbn [fst snd]. destruct (decide (p = plan_id)) as [->|Hne].
  - rewrite last_snoc, lookup_insert_eq. split; [|done]. rewrite IH1.
    destruct (plan_failures plan_id stream) as [|x l]; cbn [head app]; cbn in IH1.
    + apply lookup_insert_eq.
    + exact IH1.
  - rewrite app_nil_r. split.
    + destruct (acc.1 !! p); [done|]. by rewrite lookup_insert_ne.
    + by rewrite lookup_insert_ne.
Qed.

(** The budget watcher speaks of a plan exactly when the latest count of failures of the plan
    is above its first by the least increase: it compares the ends of the history, whatever
    happened between. *)
Theorem test_failure_fires {HI : HashIter} min_increase now stream e :
  e ∈ test_failure_decide min_increase now stream ↔
  ∃ plan_id first latest,
    head (plan_failures plan_id stream) = Some first
    ∧ last (plan_failures plan_id stream) = Some latest
    ∧ (min_increase ≤ latest - first)%N
    ∧ failure_signal min_increase now (foldl record_failures (∅, ∅) stream).1 (plan_id, latest)
      = Some e
    ∧ watcher_signal TEST_FAILURE_BUDGET "warning" e.
Proof.
  unfold test_failure_decide.
  destruct (foldl record_failures (∅, ∅) stream) as [baselines latest] eqn:E.
  rewrite list_elem_of_omap.
  assert (∀ plan_id, baselines !! plan_id = head (plan_failures plan_id stream)
    ∧ latest !! plan_id = last (plan_failures plan_id stream)) as Hspec.
  { intros p. pose proof (record_failures_spec stream p) as H. by rewrite E in H. }
  split.
  - intros ([p n] & Hin%elem_of_hash_iter & Hs). destruct (Hspec p) as [Hb Hl].
    pose proof Hs as Hs'. unfold failure_signal in Hs'.
    destruct (baselines !! p) as [b|] eqn:Eb; [|done].
    destruct (N.ltb_spec (sat_sub n b) min_increase) as [|Hge]; [done|]. injection Hs' as <-.
    exists p, b, n. split; [done|]. split; [congruence|]. split; [done|]. split; [done|].
    by apply intervention_signal.
  - intros (p & b & n & Hb & Hl & _ & Hs & _). exists (p, n). split; [|done].
    apply elem_of_hash_iter. by rewrite (proj2 (Hspec p)).
Qed.
End facts.

(** ** Examples *)

Definition sample_text : @JsonText simple_Json := @Build_JsonText simple_Json simple_print.

Definition sample_ghost (j : simple_json) : option GhostTurnEvent :=
  match j with
  | JObj l =>
      Some (GT.mk "plan" "task" "role" "model" F64.zero 5 [] [] 0
        (bool_decide (is_Some (assoc_get "meaningful" l))) true)
  | _ => None
  end.

Definition sample_efficiency (j : simple_json) : option EfficiencyEvent :=
  match j with JNum n => Some (EfficiencyEvent.mk "opus" n) | _ => None end.

Definition sample_serde : @WatcherSerde simple_Json :=
  @Build_WatcherSerde simple_Json (λ j : simple_json, match j with JObj _ => true | _ => false end)
    sample_ghost (λ _, None) (λ _, None) sample_efficiency.

Section examples.
#[local] Existing Instance simple_Json.
#[local] Existing Instance unit_parts.
#[local] Existing Instance text_serde.
#[local] Existing Instance poly_blake3.
#[local] Existing Instance flat_exp.
#[local] Existing Instance sample_text.
#[local] Existing Instance sample_serde.

Definition wasted : Engram :=
  build 1 (with_body (Body.Json (JObj [])) (builder (Kind.Custom TURN_SIGNAL_KIND))).
Definition phase_event (event : string) : Engram :=
  build 2 (with_body (Body.Json (JObj [("plan_id", JStr "p"); ("event", JStr event)]))
    (builder Kind.PlanPhase)).
Definition usage (n : N) : Engram :=
  build 3 (with_body (Body.Json (JNum n)) (builder Kind.TokenUsage)).
Definition diagnostic (text : string) : Engram :=
  build 4 (with_body (Body.Text text) (builder Kind.CompileDiagnostic)).

Lemma ghost_turn_fires_witness :
  ∃ out, ghost_turn_decide 2 9 [wasted; wasted] = Some out
    ∧ (out ≠ [] ↔ (2 ≤ 2)%nat ∧ Forall wasted_turn [wasted; wasted]).
Proof.
  destruct (ghost_turn_fires 2 9 [wasted; wasted]) as (out & H1 & H2 & _); [lia|].
  exists out. split; [exact H1|exact H2].
Defined.

Lemma iteration_loop_fires_witness :
  iteration_loop_decide 2 9 [phase_event "GateFailed"; phase_event "GateFailed"] ≠ [].
Proof.
  apply (iteration_loop_fires 2 9); [lia|].
  exists "p", ["GateFailed"; "GateFailed"]. split; [vm_compute; reflexivity|].
  split; [|vm_compute; reflexivity]. exists []. vm_compute. reflexivity.
Defined.

(** Progress after the second failure does not silence the watcher. *)
Lemma iteration_loop_forever_witness :
  iteration_loop_decide 2 9
    ([phase_event "GateFailed"; phase_event "GateFailed"] ++ [phase_event "MergeSucceeded"]) ≠ [].
Proof.
  apply (iteration_loop_forever 2 5 9); [lia|vm_compute; discriminate|vm_compute; reflexivity].
Defined.

Lemma context_window_fires_witness :
  context_window_decide MAX_CONTEXT_USAGE_RATIO ∅ 9 [usage 900000; usage 10] ≠ [].
Proof.
  apply (context_window_fires MAX_CONTEXT_USAGE_RATIO ∅ 9); [vm_compute; reflexivity|].
  exists (usage 900000), (F64.lit 9 10). split; [|split].
  - apply list_elem_of_further, list_elem_of_here.
  - exists (F64.of_Z 900000), (F64.of_Z 1000000). vm_compute. done.
  - vm_compute. reflexivity.
Defined.

(** A diagnostic of ninety-nine letters and an accented one panics the watcher. *)
Definition long_key : string := of_codes (replicate 99 97%N ++ [195; 169]%N).

Example compile_fail_panics : compile_fail_decide 1 9 [diagnostic long_key] = None.
Proof. vm_compute. reflexivity. Qed.

Lemma compile_fail_fires_witness :
  (1 ≤ 1)%nat ∧ ∃ key, Forall (λ s, diagnostic_key s = Some key) [diagnostic long_key]
    ∧ truncate key 100 = None.
Proof.
  pose proof (compile_fail_fires 1 9 [diagnostic long_key]) as H. specialize (H ltac:(lia)).
  vm_compute in H. exact H.
Defined.
End examples.
