(* ===== verification/Patterns.v ===== *)
(** * Interventions, compound patterns and learned thresholds
      (crates/roko-conductor/src/interventions.rs, pattern_detector.rs, threshold_learner.rs;
       roko-core/src/conductor.rs)

    The findings of the watchers with their severity, the policy that decides on them, the
    detector of patterns across watchers, and the thresholds learned from the outcomes of
    interventions.  Hash maps are iterated in an arbitrary order. *)

From Stdlib Require Import SpecFloat.
From S2P Require Import Prelude Floats Phase.

#[local] Arguments F64.of_Z : simpl never.

(** ** Decisions *)

Module CognitiveSignal.
Inductive t : Type :=
  | Pause
  | Resume
  | Reprioritize (reason : string)
  | InjectContext (context : string)
  | Escalate (to_tier : N)
  | Cooldown (factor : F64.t)
  | Explore (budget_multiplier : F64.t)
  | Shutdown (reason : string).

Definition label (s : t) : string :=
  match s with
  | Pause => "pause"
  | Resume => "resume"
  | Reprioritize _ => "reprioritize"
  | InjectContext _ => "inject_context"
  | Escalate _ => "escalate"
  | Cooldown _ => "cooldown"
  | Explore _ => "explore"
  | Shutdown _ => "shutdown"
  end.
End CognitiveSignal.
Abbreviation CognitiveSignal := CognitiveSignal.t.

Module ConductorDecision.
Inductive t : Type :=
  | Continue
  | Restart (watcher reason : string)
  | Fail (watcher : string) (reason : FailureKind).

Definition is_terminal (d : t) : bool := match d with Fail _ _ => true | _ => false end.
Definition is_continue (d : t) : bool := match d with Continue => true | _ => false end.
Definition label (d : t) : string :=
  match d with Continue => "continue" | Restart _ _ => "restart" | Fail _ _ => "fail" end.
End ConductorDecision.
Abbreviation ConductorDecision := ConductorDecision.t.
Module CD := ConductorDecision.

Module ConductorEvaluation.
Record t : Type := mk { decision : ConductorDecision; signals : list CognitiveSignal }.

Definition from_decision (d : ConductorDecision) : t := mk d [].
Definition is_terminal (e : t) : bool := CD.is_terminal (decision e).
Definition is_continue (e : t) : bool := CD.is_continue (decision e).
Definition has_signal (e : t) (label : string) : bool :=
  existsb (λ s, string_eqb (CognitiveSignal.label s) label) (signals e).
End ConductorEvaluation.
Abbreviation ConductorEvaluation := ConductorEvaluation.t.
Module CE := ConductorEvaluation.

(** ** Findings *)

Module Severity.
Inductive t : Type := Info | Warning | Critical.

#[global] Instance t_eq_dec : EqDecision t.
Proof. solve_decision. Defined.

Definition rank (s : t) : nat := match s with Info => 0 | Warning => 1 | Critical => 2 end.
Definition at_least (s bound : t) : bool := (rank bound <=? rank s)%nat.

Definition to_decision (s : t) (watcher reason : string) : ConductorDecision :=
  match s with
  | Info => CD.Continue
  | Warning => CD.Restart watcher reason
  | Critical => CD.Fail watcher (FailureKind.Other reason)
  end.
End Severity.
Abbreviation Severity := Severity.t.

Module WatcherOutput.
Record t : Type := mk {
  watcher : string;
  severity : Severity;
  description : string;
  metric : option F64.t;
}.

Definition new (watcher : string) (severity : Severity) (description : string) : t :=
  mk watcher severity description None.
Definition with_metric (v : F64.t) (o : t) : t :=
  mk (watcher o) (severity o) (description o) (Some v).
Definition to_decision (o : t) : ConductorDecision :=
  Severity.to_decision (severity o) (watcher o) (description o).

(** Fired at the level of a warning or above. *)
Definition fired (o : t) : bool := Severity.at_least (severity o) Severity.Warning.
End WatcherOutput.
Abbreviation WatcherOutput := WatcherOutput.t.
Module WO := WatcherOutput.

(** [iter().max_by_key(|o| o.severity)]: of equals, the last. *)
Definition worst_output (outputs : list WatcherOutput) : option WatcherOutput :=
  foldl (λ best o,
    match best with
    | Some b =>
        if (Severity.rank (WO.severity b) <=? Severity.rank (WO.severity o))%nat then Some o
        else Some b
    | None => Some o
    end) None outputs.

Definition worst_severity_evaluate (outputs : list WatcherOutput) : ConductorDecision :=
  match worst_output outputs with
  | Some o => WO.to_decision o
  | None => CD.Continue
  end.

(** ** Compound patterns *)

Module WatcherFamily.
Inductive t : Type := Resource | Quality | Progress.

#[global] Instance t_eq_dec : EqDecision t.
Proof. solve_decision. Defined.

Definition to_nat (f : t) : nat := match f with Resource => 0 | Quality => 1 | Progress => 2 end.
Definition of_nat (n : nat) : option t :=
  match n with 0 => Some Resource | 1 => Some Quality | 2 => Some Progress | _ => None end.

#[global] Instance t_countable : Countable t.
Proof. by refine (inj_countable to_nat of_nat _); intros []. Defined.
End WatcherFamily.
Abbreviation WatcherFamily := WatcherFamily.t.

Module CompoundPattern.
Record t : Type := mk {
  pattern_name : string;
  contributing_watchers : list string;
  escalated_severity : Severity;
}.
End CompoundPattern.
Abbreviation CompoundPattern := CompoundPattern.t.
Module CP := CompoundPattern.

Module PatternDetector.
Record t : Type := mk {
  history : list (list WatcherOutput);
  max_history : nat;
  hysteresis_window : nat;
  consecutive_fires : gmap string nat;
  family_map : gmap string WatcherFamily;
}.

Definition default_families : gmap string WatcherFamily :=
  list_to_map
    [("cost-overrun", WatcherFamily.Resource); ("time-overrun", WatcherFamily.Resource);
     ("context-window-pressure", WatcherFamily.Resource);
     ("compile-fail-repeat", WatcherFamily.Quality);
     ("test-failure-budget", WatcherFamily.Quality); ("spec-drift", WatcherFamily.Quality);
     ("ghost-turn", WatcherFamily.Progress); ("iteration-loop", WatcherFamily.Progress);
     ("stuck-pattern", WatcherFamily.Progress); ("review-loop", WatcherFamily.Progress)].

Definition default : t := mk [] 10 2 ∅ default_families.

Definition with_hysteresis (window : nat) (d : t) : t :=
  mk (history d) (max_history d) (window `max` 1)%nat (consecutive_fires d) (family_map d).

(** The watchers of the outputs of a warning or above. *)
Definition fired_watchers (outputs : list WatcherOutput) : gmap string WatcherOutput :=
  foldl (λ m o, <[WO.watcher o := o]> m) ∅ (List.filter WO.fired outputs).

Definition has_fired (fired : gmap string WatcherOutput) (w : string) : bool :=
  bool_decide (is_Some (fired !! w)).

(** One watcher's count: one more, or back to zero. *)
Definition update_count (fired : gmap string WatcherOutput) (m : gmap string nat) (w : string) :
    gmap string nat :=
  if has_fired fired w then <[w := S (stdpp.option.default 0%nat (m !! w))]> m
  else <[w := 0%nat]> m.

(** [push_back], then [pop_front] of a buffer that is too long. *)
Definition push_bounded {A} (max : nat) (x : A) (l : list A) : list A :=
  let l := l ++ [x] in if (max <? length l)%nat then tail l else l.

Definition family_name (f : WatcherFamily) : string :=
  match f with
  | WatcherFamily.Resource => "resource_exhaustion"
  | WatcherFamily.Quality => "quality_degradation"
  | WatcherFamily.Progress => "progress_stall"
  end.

Definition count_of (m : gmap string nat) (w : string) : nat :=
  stdpp.option.default 0%nat (m !! w).

Definition resource_watchers : list string :=
  ["cost-overrun"; "time-overrun"; "context-window-pressure"].
Definition degradation_watchers : list string := ["ghost-turn"; "iteration-loop"; "stuck-pattern"].

Section record.
Context {HI : HashIter}.

(** The watchers that fired, by family, in the order the map of them is met. *)
Definition family_fires (families : gmap string WatcherFamily) (fired : gmap string WatcherOutput) :
    gmap WatcherFamily (list string) :=
  foldl (λ m w,
    match families !! w with
    | Some f => <[f := stdpp.option.default [] (m !! f) ++ [w]]> m
    | None => m
    end) ∅ (hash_keys fired).

Definition family_pattern (kv : WatcherFamily * list string) : option CompoundPattern :=
  if (2 <=? length kv.2)%nat then
    Some (CP.mk (family_name kv.1) kv.2 Severity.Critical)
  else None.

Definition record (outputs : list WatcherOutput) (d : t) : t * list CompoundPattern :=
  let fired := fired_watchers outputs in
  let counts := foldl (update_count fired) (consecutive_fires d) (hash_keys (family_map d)) in
  let hist := push_bounded (max_history d) outputs (history d) in
  let family_patterns := omap family_pattern (hash_iter (family_fires (family_map d) fired)) in
  let total :=
    if forallb (has_fired fired) resource_watchers then
      [CP.mk "total_resource_exhaustion" resource_watchers Severity.Critical]
    else [] in
  let degradation :=
    if (3 <=? length hist)%nat
       && forallb (λ w, (0 <? count_of counts w)%nat) degradation_watchers then
      [CP.mk "progressive_degradation" degradation_watchers Severity.Critical]
    else [] in
  (mk hist (max_history d) (hysteresis_window d) counts (family_map d),
   family_patterns ++ total ++ degradation).
End record.

Definition passes_hysteresis (d : t) (watcher : string) (n : nat) : bool :=
  (n <=? count_of (consecutive_fires d) watcher)%nat.
Definition passes_default_hysteresis (d : t) (watcher : string) : bool :=
  passes_hysteresis d watcher (hysteresis_window d).
Definition consecutive_count (d : t) (watcher : string) : nat :=
  count_of (consecutive_fires d) watcher.
Definition reset (d : t) : t := mk [] (max_history d) (hysteresis_window d) ∅ (family_map d).
End PatternDetector.
Abbreviation PatternDetector := PatternDetector.t.
Module PD := PatternDetector.

(** ** Learned thresholds *)

Definition WARMUP_OBSERVATIONS : N := 10.
Definition MAX_HISTORY : nat := 100.

(** [+= 1] on a [u64]. *)
Definition incr64 (n : N) : N := ((n + 1) mod (u64_MAX + 1))%N.

Module AdaptiveThreshold.
Record t : Type := mk {
  ema : F64.t;
  observations : N;
  effective_count : N;
  ineffective_count : N;
}.

Definition new (default : F64.t) : t := mk default 0 0 0.

Definition target (effective : bool) (ema : F64.t) : F64.t :=
  if effective then F64.max (F64.sub ema (F64.lit 5 100)) (F64.lit 1 10)
  else F64.min (F64.add ema (F64.lit 5 100)) (F64.of_Z 1).

Definition update (alpha : F64.t) (effective : bool) (x : t) : t :=
  let observations := incr64 (observations x) in
  let target := target effective (ema x) in
  mk (if (observations =? 1)%N then target
      else mul_add alpha target (F64.mul (F64.sub (F64.of_Z 1) alpha) (ema x)))
    observations
    (if effective then incr64 (effective_count x) else effective_count x)
    (if effective then ineffective_count x else incr64 (ineffective_count x)).

Definition is_warmed_up (x : t) : bool := (WARMUP_OBSERVATIONS <=? observations x)%N.
End AdaptiveThreshold.
Abbreviation AdaptiveThreshold := AdaptiveThreshold.t.
Module AT := AdaptiveThreshold.

Module InterventionOutcome.
Record t : Type := mk {
  watcher_name : string;
  severity_at_fire : F64.t;
  decision_label : string;
  task_improved : bool;
  recorded_at_ms : Z;
}.
End InterventionOutcome.
Abbreviation InterventionOutcome := InterventionOutcome.t.
Module IO := InterventionOutcome.

Module ThresholdLearner.
Record t : Type := mk {
  watcher_thresholds : gmap string AdaptiveThreshold;
  intervention_history : list InterventionOutcome;
  alpha : F64.t;
  default_restart : F64.t;
  default_fail : F64.t;
}.

Definition new : t := mk ∅ [] (F64.lit 1 10) (F64.lit 7 10) (F64.lit 9 10).

Definition record_outcome (outcome : InterventionOutcome) (l : t) : t :=
  let watcher := IO.watcher_name outcome in
  let threshold := default (AT.new (default_restart l)) (watcher_thresholds l !! watcher) in
  mk (<[watcher := AT.update (alpha l) (IO.task_improved outcome) threshold]>
       (watcher_thresholds l))
    (PD.push_bounded MAX_HISTORY outcome (intervention_history l))
    (alpha l) (default_restart l) (default_fail l).

Definition restart_threshold (l : t) (watcher : string) : F64.t :=
  match watcher_thresholds l !! watcher with
  | Some x => if AT.is_warmed_up x then AT.ema x else default_restart l
  | None => default_restart l
  end.

Definition fail_threshold (l : t) (watcher : string) : F64.t :=
  let restart := restart_threshold l watcher in
  let gap := F64.sub (default_fail l) (default_restart l) in
  F64.min (F64.add restart gap) (F64.of_Z 1).

(** [values().map(|t| t.observations).sum()], wrapping. *)
Definition total_observations (l : t) : N :=
  (map_fold (λ _ x acc, AT.observations x + acc) 0 (watcher_thresholds l) mod (u64_MAX + 1))%N.

Definition effectiveness_rate (l : t) (watcher : string) : option F64.t :=
  (λ x, if (AT.observations x =? 0)%N then F64.zero
        else F64.div (F64.of_N (AT.effective_count x)) (F64.of_N (AT.observations x)))
    <$> watcher_thresholds l !! watcher.
End ThresholdLearner.
Abbreviation ThresholdLearner := ThresholdLearner.t.
Module TL := ThresholdLearner.

(** ** The worst severity wins *)

Lemma worst_output_snoc l o :
  worst_output (l ++ [o]) =
    match worst_output l with
    | Some b =>
        if (Severity.rank (WO.severity b) <=? Severity.rank (WO.severity o))%nat then Some o
        else Some b
    | None => Some o
    end.
Proof. unfold worst_output. by rewrite foldl_app. Qed.

(** The worst is the last of those no other output is worse than. *)
Lemma worst_output_spec l :
  match worst_output l with
  | None => l = []
  | Some b =>
      (∀ o, o ∈ l → (Severity.rank (WO.severity o) ≤ Severity.rank (WO.severity b))%nat)
      ∧ ∃ l1 l2, l = l1 ++ b :: l2
          ∧ ∀ o, o ∈ l2 → (Severity.rank (WO.severity o) < Severity.rank (WO.severity b))%nat
  end.
Proof.
  induction l as [|o l IH] using rev_ind; [done|]. rewrite worst_output_snoc.
  destruct (worst_output l) as [b|].
  - destruct IH as [Hle (l1 & l2 & -> & Hlt)].
    destruct (Nat.leb_spec (Severity.rank (WO.severity b)) (Severity.rank (WO.severity o)))
      as [H|H].
    + split.
      * intros x [Hx| ->%list_elem_of_singleton]%elem_of_app; [|done]. specialize (Hle x Hx). lia.
      * exists (l1 ++ b :: l2), []. split; [done|]. intros x Hx. by apply elem_of_nil in Hx.
    + split.
      * intros x [Hx| ->%list_elem_of_singleton]%elem_of_app; [by apply Hle|lia].
      * exists l1, (l2 ++ [o]). split; [by rewrite <- app_assoc|].
        intros x [Hx| ->%list_elem_of_singleton]%elem_of_app; [by apply Hlt|lia].
  - subst l. split.
    + by intros x ->%list_elem_of_singleton.
    + exists [], []. split; [done|]. intros x Hx. by apply elem_of_nil in Hx.
Qed.

(** The decision fails exactly on a critical finding, restarts exactly on a warning without a
    critical one, and otherwise lets the work continue; the watcher it blames is the last of
    the worst. *)
Theorem worst_severity_decision outputs :
  (CD.is_terminal (worst_severity_evaluate outputs) = true ↔
     ∃ o, o ∈ outputs ∧ WO.severity o = Severity.Critical)
  ∧ (CD.is_continue (worst_severity_evaluate outputs) = true ↔
     ∀ o, o ∈ outputs → WO.severity o = Severity.Info)
  ∧ ∀ w r, worst_severity_evaluate outputs = CD.Restart w r →
     ∃ o, o ∈ outputs ∧ WO.severity o = Severity.Warning ∧ WO.watcher o = w
       ∧ WO.description o = r.
Proof.
  unfold worst_severity_evaluate. pose proof (worst_output_spec outputs) as H.
  destruct (worst_output outputs) as [b|].
  2: { subst outputs. split; [|split; [|done]].
       - split; [done|]. intros (o & Ho & _). by apply elem_of_nil in Ho.
       - split; [|done]. intros _ o Ho. by apply elem_of_nil in Ho. }
  destruct H as [Hle (l1 & l2 & Hl & _)].
  assert (b ∈ outputs) as Hb by (rewrite Hl; apply elem_of_app; right; apply list_elem_of_here).
  unfold WO.to_decision. destruct (WO.severity b) eqn:Hs; cbn.
  - split; [|split; [|done]].
    + split; [done|]. intros (o & Ho & Hc). specialize (Hle o Ho). rewrite Hc in Hle. cbn in Hle. lia.
    + split; [|done]. intros _ o Ho. specialize (Hle o Ho).
      destruct (WO.severity o); cbn in Hle; [done|lia|lia].
  - split; [|split].
    + split; [done|]. intros (o & Ho & Hc). specialize (Hle o Ho). rewrite Hc in Hle. cbn in Hle. lia.
    + split; [done|]. intros H. rewrite (H b Hb) in Hs. done.
    + intros w r [= <- <-]. by exists b.
  - split; [|split; [|done]].
    + split; [|done]. intros _. by exists b.
    + split; [done|]. intros H. rewrite (H b Hb) in Hs. done.
Qed.

(** ** Counts of consecutive fires *)

Definition fires_in (w : string) (outputs : list WatcherOutput) : bool :=
  existsb (λ o, string_eqb (WO.watcher o) w && WO.fired o) outputs.

Lemma has_fired_iff outputs w :
  PD.has_fired (PD.fired_watchers outputs) w = fires_in w outputs.
Proof.
  unfold PD.has_fired, PD.fired_watchers, fires_in.
  induction outputs as [|o l IH] using rev_ind; [done|].
  rewrite List.filter_app, foldl_app, existsb_app. cbn [List.filter existsb foldl].
  rewrite orb_false_r. destruct (WO.fired o); cbn [foldl].
  - rewrite andb_true_r. change (string_eqb (WO.watcher o) w) with (bool_decide (WO.watcher o = w)).
    destruct (decide (WO.watcher o = w)) as [<-|Hw].
    + rewrite lookup_insert_eq, (bool_decide_eq_true_2 (WO.watcher o = _)), orb_true_r by done.
      by apply bool_decide_eq_true.
    + rewrite lookup_insert_ne, (bool_decide_eq_false_2 (WO.watcher o = _)), orb_false_r by done.
      exact IH.
  - rewrite andb_false_r, orb_false_r. exact IH.
Qed.

Lemma update_counts_notin fired l m w :
  w ∉ l → foldl (PD.update_count fired) m l !! w = m !! w.
Proof.
  revert m. induction l as [|x l IH]; intros m Hw; [done|]. cbn [foldl].
  rewrite not_elem_of_cons in Hw. rewrite IH by tauto. unfold PD.update_count.
  destruct (PD.has_fired fired x); rewrite lookup_insert_ne; try done; naive_solver.
Qed.

(** One round over the watchers updates each once. *)
Lemma update_counts_lookup fired l m w :
  NoDup l → w ∈ l →
  PD.count_of (foldl (PD.update_count fired) m l) w =
    if PD.has_fired fired w then S (PD.count_of m w) else 0%nat.
Proof.
  revert m. induction l as [|x l IH]; intros m Hn Hw; [by apply elem_of_nil in Hw|].
  apply NoDup_cons in Hn as [Hx Hn]. cbn [foldl]. destruct (decide (w = x)) as [->|Hne].
  - unfold PD.count_of at 1. rewrite update_counts_notin by done. unfold PD.update_count.
    by destruct (PD.has_fired fired x); rewrite lookup_insert_eq.
  - apply elem_of_cons in Hw as [->|Hw]; [done|]. rewrite IH by done.
    assert (PD.count_of (PD.update_count fired m x) w = PD.count_of m w) as ->; [|done].
    unfold PD.count_of, PD.update_count. by destruct (PD.has_fired fired x); rewrite lookup_insert_ne.
Qed.

Section patterns.
Context {HI : HashIter}.

Lemma record_count outputs d w :
  is_Some (PD.family_map d !! w) →
  PD.consecutive_count (PD.record outputs d).1 w =
    if fires_in w outputs then S (PD.consecutive_count d w) else 0%nat.
Proof using Type.
  intros Hw. unfold PD.consecutive_count, PD.record. cbn [fst PD.consecutive_fires].
  rewrite update_counts_lookup; [by rewrite has_fired_iff|apply NoDup_hash_keys|].
  by apply elem_of_hash_keys.
Qed.

(** How often a watcher fired without a break at the end of a history of cycles. *)
Definition trailing_fires (w : string) (cycles : list (list WatcherOutput)) : nat :=
  foldl (λ n outputs, if fires_in w outputs then S n else 0%nat) 0%nat cycles.

Definition run_cycles (cycles : list (list WatcherOutput)) (d : PatternDetector) :
    PatternDetector :=
  foldl (λ d outputs, (PD.record outputs d).1) d cycles.

Lemma run_cycles_config cycles d :
  PD.family_map (run_cycles cycles d) = PD.family_map d
  ∧ PD.max_history (run_cycles cycles d) = PD.max_history d.
Proof using Type.
  revert d. induction cycles as [|c l IH]; intros d; [done|]. cbn [run_cycles foldl].
  destruct (IH (PD.record c d).1) as [H1 H2]. unfold run_cycles in *. by rewrite H1, H2.
Qed.

(** The counts are those of the whole history, whatever the bound on what is remembered. *)
Theorem consecutive_counts cycles w :
  is_Some (PD.default_families !! w) →
  PD.consecutive_count (run_cycles cycles PD.default) w = trailing_fires w cycles.
Proof using Type.
  intros Hw. induction cycles as [|c l IH] using rev_ind; [done|].
  unfold run_cycles, trailing_fires. rewrite !foldl_app. cbn [foldl].
  fold (run_cycles l PD.default). fold (trailing_fires w l).
  rewrite record_count; [by rewrite IH|].
  by rewrite (proj1 (run_cycles_config l PD.default)).
Qed.

Lemma length_push_bounded {A} max (x : A) l :
  (1 ≤ max)%nat → (length l ≤ max)%nat → (length (PD.push_bounded max x l) ≤ max)%nat.
Proof using Type.
  intros Hm Hl. unfold PD.push_bounded. cbv zeta. rewrite length_app. cbn [length].
  destruct (Nat.ltb_spec max (length l + 1)) as [H|H].
  - destruct l as [|y l]; cbn [app tail length] in *; [lia|]. rewrite length_app. cbn [length]. lia.
  - rewrite length_app. cbn [length]. lia.
Qed.

(** ** The patterns *)

Lemma family_fires_lookup (families : gmap string WatcherFamily) l f :
  foldl (λ m w,
    match families !! w with
    | Some f => <[f := stdpp.option.default [] (m !! f) ++ [w]]> m
    | None => m
    end) (∅ : gmap WatcherFamily (list string)) l !! f
  = match List.filter (λ w, bool_decide (families !! w = Some f)) l with
    | [] => None
    | ws => Some ws
    end.
Proof using Type.
  induction l as [|w l IH] using rev_ind; [apply lookup_empty|].
  rewrite foldl_app, List.filter_app. cbn [foldl List.filter].
  destruct (families !! w) as [g|] eqn:Hw.
  - destruct (decide (g = f)) as [->|Hne].
    + rewrite lookup_insert_eq, IH, bool_decide_eq_true_2 by done.
      by destruct (List.filter _ l).
    + rewrite lookup_insert_ne, IH by done. rewrite bool_decide_eq_false_2 by congruence.
      by rewrite app_nil_r.
  - rewrite IH, bool_decide_eq_false_2 by congruence. by rewrite app_nil_r.
Qed.

(** The watchers of a family that fired in a cycle. *)
Definition family_watchers (d : PatternDetector) (outputs : list WatcherOutput)
    (f : WatcherFamily) : list string :=
  List.filter (λ w, bool_decide (PD.family_map d !! w = Some f))
    (hash_keys (PD.fired_watchers outputs)).

Lemma elem_of_family_watchers d outputs f w :
  w ∈ family_watchers d outputs f ↔ PD.family_map d !! w = Some f ∧ fires_in w outputs = true.
Proof using Type.
  unfold family_watchers. rewrite elem_of_list_filter_bool, elem_of_hash_keys, bool_decide_eq_true.
  rewrite <- has_fired_iff. unfold PD.has_fired. rewrite bool_decide_eq_true. tauto.
Qed.

(** The patterns of one cycle: a family with two watchers or more that fired in it, named
    with those watchers; the three resource watchers together; and the three watchers of
    degradation together, from the third cycle on.  All of them are critical. *)
Theorem record_patterns outputs d p :
  (∀ w, w ∈ PD.degradation_watchers → is_Some (PD.family_map d !! w)) →
  p ∈ (PD.record outputs d).2 ↔
    (∃ f, (2 ≤ length (family_watchers d outputs f))%nat
      ∧ p = CP.mk (PD.family_name f) (family_watchers d outputs f) Severity.Critical)
    ∨ (∀ w, w ∈ PD.resource_watchers → fires_in w outputs = true)
      ∧ p = CP.mk "total_resource_exhaustion" PD.resource_watchers Severity.Critical
    ∨ (3 ≤ length (PD.push_bounded (PD.max_history d) outputs (PD.history d)))%nat
      ∧ (∀ w, w ∈ PD.degradation_watchers → fires_in w outputs = true)
      ∧ p = CP.mk "progressive_degradation" PD.degradation_watchers Severity.Critical.
Proof using Type.
  intros Hd. unfold PD.record. cbn [snd]. rewrite !elem_of_app.
  apply Morphisms_Prop.or_iff_morphism; [|apply Morphisms_Prop.or_iff_morphism].
  - rewrite list_elem_of_omap. unfold PD.family_pattern, PD.family_fires. split.
    + intros ([f ws] & Hin%elem_of_hash_iter & Hp). rewrite family_fires_lookup in Hin.
      cbn [fst snd] in Hp. exists f. unfold family_watchers.
      destruct (List.filter _ _) as [|w l]; [done|]. injection Hin as <-.
      destruct (Nat.leb_spec 2 (length (w :: l))) as [Hl|]; [|done]. by injection Hp as <-.
    + intros (f & Hl & ->). exists (f, family_watchers d outputs f). split.
      * apply elem_of_hash_iter. rewrite family_fires_lookup. unfold family_watchers in *.
        destruct (List.filter _ _); [cbn in Hl; lia|done].
      * cbn [fst snd]. by rewrite (proj2 (Nat.leb_le _ _) Hl).
  - destruct (forallb _ PD.resource_watchers) eqn:Hf.
    + rewrite list_elem_of_singleton. rewrite forallb_forall in Hf.
      split; [|by intros [_ ->]]. intros ->. split; [|done]. intros w Hw.
      rewrite <- has_fired_iff. by apply Hf, list_elem_of_In.
    + split; [intros Hp; by apply elem_of_nil in Hp|]. intros [H _]. exfalso.
      apply not_true_iff_false in Hf. apply Hf, forallb_forall. intros w Hw.
      rewrite has_fired_iff. by apply H, list_elem_of_In.
  - assert (∀ w, w ∈ PD.degradation_watchers →
      (0 <? PD.count_of (foldl (PD.update_count (PD.fired_watchers outputs))
         (PD.consecutive_fires d) (hash_keys (PD.family_map d))) w)%nat = fires_in w outputs) as Hc.
    { intros w Hw. pose proof (record_count outputs d w (Hd w Hw)) as E.
      unfold PD.consecutive_count, PD.record in E. cbn [fst PD.consecutive_fires] in E. rewrite E.
      by destruct (fires_in w outputs). }
    destruct (Nat.leb_spec 3 (length (PD.push_bounded (PD.max_history d) outputs (PD.history d))))
      as [H3|H3]; cbn [andb].
    2: { split; [intros Hp; by apply elem_of_nil in Hp|]. intros [H _]. lia. }
    destruct (forallb _ PD.degradation_watchers) eqn:Hf.
    + rewrite list_elem_of_singleton. rewrite forallb_forall in Hf.
      split; [|by intros (_ & _ & ->)]. intros ->. split; [done|]. split; [|done]. intros w Hw.
      rewrite <- (Hc w Hw). by apply Hf, list_elem_of_In.
    + split; [intros Hp; by apply elem_of_nil in Hp|]. intros (_ & H & _). exfalso.
      apply not_true_iff_false in Hf. apply Hf, forallb_forall. intros w Hw%list_elem_of_In.
      rewrite (Hc w Hw). by apply H.
Qed.
End patterns.

(** ** The learner *)

Definition learn (outcomes : list InterventionOutcome) (l : ThresholdLearner) : ThresholdLearner :=
  foldl (λ l o, TL.record_outcome o l) l outcomes.

Definition about (w : string) (o : InterventionOutcome) : bool := string_eqb (IO.watcher_name o) w.

Definition count_outcomes (f : InterventionOutcome → bool) (l : list InterventionOutcome) : N :=
  N.of_nat (length (List.filter f l)).

Lemma count_outcomes_snoc f l o :
  count_outcomes f (l ++ [o]) = (count_outcomes f l + (if f o then 1 else 0))%N.
Proof.
  unfold count_outcomes. rewrite List.filter_app, length_app. cbn [List.filter].
  destruct (f o); cbn [length]; lia.
Qed.

Lemma incr64_small n : (n < u64_MAX)%N → incr64 n = (n + 1)%N.
Proof. intros H. unfold incr64. apply N.mod_small. lia. Qed.

Lemma count_outcomes_le f l : (count_outcomes f l ≤ N.of_nat (length l))%N.
Proof.
  unfold count_outcomes. induction l as [|x l IH]; [done|]. cbn [List.filter length].
  destruct (f x); cbn [length]; lia.
Qed.

Lemma tail_drop {A} k (l : list A) : tail (drop k l) = drop (S k) l.
Proof. revert l. induction k as [|k IH]; intros [|x l]; try done. exact (IH l). Qed.

(** What the learner holds of a watcher counts the outcomes recorded about it, the improved
    and the others, and the history is the last hundred outcomes. *)
Theorem learner_counts outcomes w :
  (N.of_nat (length outcomes) ≤ u64_MAX)%N →
  let l := learn outcomes TL.new in
  match TL.watcher_thresholds l !! w with
  | Some x =>
      AT.observations x = count_outcomes (about w) outcomes
      ∧ AT.effective_count x = count_outcomes (λ o, about w o && IO.task_improved o) outcomes
      ∧ AT.ineffective_count x
          = count_outcomes (λ o, about w o && negb (IO.task_improved o)) outcomes
  | None => count_outcomes (about w) outcomes = 0%N
      ∧ count_outcomes (λ o, about w o && IO.task_improved o) outcomes = 0%N
      ∧ count_outcomes (λ o, about w o && negb (IO.task_improved o)) outcomes = 0%N
  end
  ∧ TL.intervention_history l = drop (length outcomes - MAX_HISTORY) outcomes.
Proof.
  cbv zeta. induction outcomes as [|o outcomes IH] using rev_ind.
  { intros _. split; [|done]. unfold learn. cbn [foldl TL.new TL.watcher_thresholds].
    by rewrite lookup_empty. }
  rewrite length_app. cbn [length]. intros Hlen. destruct IH as [IHc IHh]; [lia|].
  unfold learn. rewrite foldl_app. cbn [foldl]. fold (learn outcomes TL.new).
  set (l := learn outcomes TL.new) in *. split.
  - rewrite !count_outcomes_snoc. unfold TL.record_outcome. cbn [TL.watcher_thresholds].
    change (about w o) with (bool_decide (IO.watcher_name o = w)).
    destruct (decide (IO.watcher_name o = w)) as [<-|Hne].
    + rewrite lookup_insert_eq, bool_decide_eq_true_2 by done. cbn [andb].
      pose proof (count_outcomes_le (about (IO.watcher_name o)) outcomes).
      pose proof (count_outcomes_le
        (λ x, about (IO.watcher_name o) x && IO.task_improved x) outcomes).
      pose proof (count_outcomes_le
        (λ x, about (IO.watcher_name o) x && negb (IO.task_improved x)) outcomes).
      destruct (TL.watcher_thresholds l !! IO.watcher_name o) as [x|];
        destruct IHc as (E1 & E2 & E3); unfold AT.update, AT.new;
        cbn [default from_option AT.observations AT.effective_count AT.ineffective_count];
        destruct (IO.task_improved o); cbn [negb AT.observations AT.effective_count AT.ineffective_count];
        unfold from_option, id; cbn [AT.observations AT.effective_count AT.ineffective_count];
        rewrite ?E1, ?E2, ?E3, ?incr64_small by lia; lia.
    + rewrite lookup_insert_ne, bool_decide_eq_false_2 by done. cbn [andb].
      by rewrite !N.add_0_r.
  - unfold TL.record_outcome. cbn [TL.intervention_history]. rewrite IHh. unfold PD.push_bounded.
    cbv zeta. rewrite length_app, length_drop. cbn [length]. unfold MAX_HISTORY in *.
    destruct (Nat.ltb_spec 100 (length outcomes - (length outcomes - 100) + 1)) as [H|H].
    + replace (length outcomes + 1 - 100)%nat with (S (length outcomes - 100)) by lia.
      rewrite <- drop_app_le by lia. apply tail_drop.
    + replace (length outcomes + 1 - 100)%nat with 0%nat by lia.
      by replace (length outcomes - 100)%nat with 0%nat by lia.
Qed.

Definition ineffective_outcome : InterventionOutcome :=
  IO.mk "spec-drift" F64.zero "restart" false 0.

Lemma learner_counts_witness :
  AT.observations <$> TL.watcher_thresholds (learn [ineffective_outcome; ineffective_outcome] TL.new)
    !! "spec-drift" = Some 2%N.
Proof.
  pose proof (learner_counts [ineffective_outcome; ineffective_outcome] "spec-drift") as H.
  assert (2 ≤ u64_MAX)%N as Hle by (vm_compute; discriminate). specialize (H Hle). cbv zeta in H.
  destruct H as [H _]. vm_compute in H |- *. destruct H as [H _]. exact (f_equal Some H).
Defined.

(** A watcher that has not warmed up has the default thresholds. *)
Lemma cold_thresholds l w :
  (∀ x, TL.watcher_thresholds l !! w = Some x → (AT.observations x < WARMUP_OBSERVATIONS)%N) →
  TL.restart_threshold l w = TL.default_restart l.
Proof.
  intros H. unfold TL.restart_threshold. destruct (TL.watcher_thresholds l !! w) as [x|]; [|done].
  specialize (H x eq_refl). unfold AT.is_warmed_up. by rewrite (proj2 (N.leb_gt _ _) H).
Qed.

(** After two hundred ineffective interventions the two thresholds are within a hundred-millionth:
    nothing keeps the gap between them. *)
Example fail_gap_vanishes :
  let l := learn (replicate 200 ineffective_outcome) TL.new in
  F64.lt (F64.sub (TL.fail_threshold l "spec-drift") (TL.restart_threshold l "spec-drift"))
    (F64.lit 1 100000000) = true.
Proof. vm_compute. reflexivity. Qed.

(** ** The learned policy *)

Module ConductorAction.
Inductive t : Type := Continue | InjectHint | SwitchModel | Restart | Abort.
End ConductorAction.
Abbreviation ConductorAction := ConductorAction.t.

Definition BANDIT_WARMUP_THRESHOLD : N := 50.
Definition BANDIT_BLEND_WEIGHT : F64.t := F64.lit 65 100.

(** [x.fract()] of a number: [x - x.trunc()]. *)
Definition trunc (x : F64.t) : F64.t :=
  match x with
  | S754_finite s m (Zneg e) =>
      let q := N.shiftr (Npos m) (Npos e) in
      match q with
      | N0 => S754_zero s
      | Npos q => F64.of_Z (if s then Zneg q else Zpos q)
      end
  | _ => x
  end.
Definition fract (x : F64.t) : F64.t := F64.sub x (trunc x).

Definition bandit_decision (a : ConductorAction) : ConductorDecision :=
  match a with
  | ConductorAction.Continue | ConductorAction.InjectHint | ConductorAction.SwitchModel =>
      CD.Continue
  | ConductorAction.Restart => CD.Restart "bandit-policy" "learned: restart recommended"
  | ConductorAction.Abort =>
      CD.Fail "bandit-policy" (FailureKind.Other "learned: abort recommended")
  end.

(** [BanditPolicy::evaluate]: the bandit's number of observations and the action it samples
    for the state are arguments. *)
Definition bandit_evaluate (total_observations : N) (bandit_action : ConductorAction)
    (now_ms : Z) (outputs : list WatcherOutput) : ConductorDecision :=
  let static_decision := worst_severity_evaluate outputs in
  if (total_observations <? BANDIT_WARMUP_THRESHOLD)%N then static_decision
  else
    let learned := bandit_decision bandit_action in
    if string_eqb (CD.label static_decision) (CD.label learned) then static_decision
    else
      let blend_value := fract (F64.mul (F64.of_Z now_ms) (F64.lit 1 1000)) in
      if F64.lt blend_value BANDIT_BLEND_WEIGHT then learned else static_decision.

(** The learned policy decides like the static one, or like the bandit; before the warmup and
    where they agree, like the static one. *)
Lemma bandit_evaluate_spec n a now outputs :
  (bandit_evaluate n a now outputs = worst_severity_evaluate outputs
   ∨ bandit_evaluate n a now outputs = bandit_decision a ∧ (BANDIT_WARMUP_THRESHOLD ≤ n)%N
     ∧ CD.label (worst_severity_evaluate outputs) ≠ CD.label (bandit_decision a)).
Proof.
  unfold bandit_evaluate. destruct (N.ltb_spec n BANDIT_WARMUP_THRESHOLD) as [|Hn]; [by left|].
  unfold string_eqb. case_bool_decide as Hl; [by left|].
  destruct (F64.lt _ BANDIT_BLEND_WEIGHT); [by right|by left].
Qed.

(** The blend is by the fraction of the second: before the epoch it is always the bandit's. *)
Example blend_by_clock :
  let critical := [WO.new "iteration-loop" Severity.Critical "stuck"] in
  bandit_evaluate 50 ConductorAction.Continue 1300 critical = CD.Continue
  ∧ bandit_evaluate 50 ConductorAction.Continue 1700 critical
    = CD.Fail "iteration-loop" (FailureKind.Other "stuck").
Proof. vm_compute. done. Qed.
