(* ===== verification/Conductor.v ===== *)
(** * The conductor (crates/roko-conductor/src/conductor.rs)

    Runs the watchers over the stream of signals, decides, derives the cognitive signals and
    the routing bias, and records failures in the circuit breaker of the plan.  [None] is the
    panic of a watcher.  The health of providers is an interface of the conductor: what its
    tracker answers for a provider. *)

From S2P Require Import Prelude Bytes EventLog Taint Text Body Scoring Engram Phase CircuitBreaker.
From S2P Require Import Patterns Watchers.

#[local] Arguments F64.of_Z : simpl never.

Module CS := CognitiveSignal.

(** ** Configuration (roko-core/src/config/schema.rs) *)

Module ContextWindowPressureConfig.
Record t : Type := mk { warn_threshold : F64.t; critical_threshold : F64.t }.
End ContextWindowPressureConfig.
Module CostOverrunConfig.
Record t : Type := mk { warn_usd : F64.t; critical_usd : F64.t }.
End CostOverrunConfig.
Module GhostTurnConfig.
Record t : Type := mk { min_output_tokens : N; max_consecutive : nat }.
End GhostTurnConfig.

Module WatcherThresholds.
Record t : Type := mk {
  compile_fail_repeat : option nat;
  context_window_pressure : option ContextWindowPressureConfig.t;
  cost_overrun : option CostOverrunConfig.t;
  ghost_turn : option GhostTurnConfig.t;
  iteration_loop : option nat;
  review_loop : option nat;
  spec_drift : option F64.t;
  stuck_pattern : option nat;
  test_failure_budget : option N;
  time_overrun : option F64.t;
}.

Definition default : t := mk None None None None None None None None None None.
End WatcherThresholds.
Abbreviation WatcherThresholds := WatcherThresholds.t.
Module WT := WatcherThresholds.

Module ConductorConfig.
Record t : Type := mk {
  max_agents : nat;
  max_parallel_plans : nat;
  parallel_enabled : bool;
  express_mode : bool;
  max_auto_fix_attempts : N;
  auto_fix_model : string;
  context_pressure_enabled : bool;
  watchers : WatcherThresholds;
}.

Definition default : t := mk 8 1 false false 3 "claude-haiku-4-5" false WT.default.
End ConductorConfig.
Abbreviation ConductorConfig := ConductorConfig.t.
Module CC := ConductorConfig.

(** ** Routing bias and signals *)

Module RoutingBias.
Record t : Type := mk { deprioritize : list string; prefer_cheaper : bool; reason : string }.

Definition default : t := mk [] false "".
End RoutingBias.
Abbreviation RoutingBias := RoutingBias.t.

(** Some output of one of the watchers, at a warning or above. *)
Definition any_fired (names : list string) (outputs : list WatcherOutput) : bool :=
  existsb (λ o, bool_decide (WO.watcher o ∈ names) && WO.fired o) outputs.

Definition derive_cognitive_signals (outputs : list WatcherOutput) : list CognitiveSignal :=
  let has_cost_pressure := any_fired ["cost-overrun"] outputs in
  let has_context_pressure := any_fired ["context-window-pressure"] outputs in
  let has_time_pressure := any_fired ["time-overrun"] outputs in
  let has_quality_issue :=
    any_fired ["compile-fail-repeat"; "test-failure-budget"; "spec-drift"] outputs in
  let has_stuck := any_fired ["ghost-turn"; "iteration-loop"; "stuck-pattern"] outputs in
  let resource_count :=
    length (List.filter Datatypes.id [has_cost_pressure; has_context_pressure; has_time_pressure]) in
  (if has_context_pressure then
     [CS.InjectContext "Context window pressure detected — consider trimming history."] else [])
  ++ (if has_cost_pressure || has_time_pressure then [CS.Cooldown (F64.lit 13 10)] else [])
  ++ (if has_quality_issue && negb has_stuck then [CS.Escalate 2] else [])
  ++ (if has_stuck then [CS.Explore (F64.lit 15 10)] else [])
  ++ (if (2 <=? resource_count)%nat then
        [CS.Reprioritize "Multiple resource watchers firing — consider reordering queue."]
      else []).

(** [retain(|value| seen.insert(value.clone()))] *)
Definition dedup_strings (values : list string) : list string :=
  foldl (λ kept v, if bool_decide (v ∈ kept) then kept else kept ++ [v]) [] values.

(** The signals a compound pattern adds. *)
Definition pattern_signals (p : CompoundPattern) : list CognitiveSignal :=
  let name := CP.pattern_name p in
  if string_eqb name "resource_exhaustion" || string_eqb name "total_resource_exhaustion" then
    [CS.Cooldown (F64.of_Z 2);
     CS.Reprioritize ("compound pattern: " +:+ name +:+ " ("
       +:+ str_join ", " (CP.contributing_watchers p) +:+ ")")]
  else if string_eqb name "quality_degradation" then [CS.Escalate 3]
  else if string_eqb name "progress_stall" || string_eqb name "progressive_degradation" then
    [CS.Explore (F64.of_Z 2)]
  else [].

Definition proactive_signals (s : option ProactiveTripSignal) : list CognitiveSignal :=
  match s with
  | Some (ProactiveTripSignal.Warning _ _) => [CS.Cooldown (F64.lit 15 10)]
  | Some (ProactiveTripSignal.ProactiveTrip _ forecast_h1) =>
      [CS.Shutdown ("proactive circuit break: forecast error rate " +:+ fmt_fixed 2 forecast_h1)]
  | None => []
  end.

(** What serde derives for the values the conductor emits. *)
Class ConductorSerde {J : Json} := {
  output_to_value : WatcherOutput → option json;
  decision_to_value : ConductorDecision → option json;
}.

Section Conductor.
Context `{J : Json, EP : !EngramParts, BS : !BodySerde, B3 : !Blake3, EL : !ExpLib}.
Context {JT : JsonText} {WS : WatcherSerde} {CJ : ConductorSerde} {HI : HashIter}.

Definition default_watchers : list React :=
  [GhostTurnWatcher MAX_GHOST_TURNS; ReviewLoopWatcher MAX_REVIEW_CYCLES;
   IterationLoopWatcher MAX_IMPLEMENTER_ATTEMPTS; TestFailureBudgetWatcher MIN_FAILURE_INCREASE;
   CompileFailRepeatWatcher MAX_IDENTICAL_COMPILE_FAILURES;
   ContextWindowPressureWatcher MAX_CONTEXT_USAGE_RATIO ∅; SpecDriftWatcher MAX_SPEC_DRIFT_RATIO;
   CostOverrunWatcher DEFAULT_BUDGET; TimeOverrunWatcher ALERT_THRESHOLD;
   StuckPatternWatcher MAX_IDENTICAL_ACTIONS].

(** The watcher of a threshold, or its default. *)
Definition configured {A B} (o : option A) (make : A → B) (d : B) : B :=
  match o with Some a => make a | None => d end.

Definition configured_watchers (config : ConductorConfig) : list React :=
  let t := CC.watchers config in
  [configured (WT.ghost_turn t)
     (λ c, GhostTurnWatcher (GhostTurnConfig.max_consecutive c `max` 1)%nat)
     (GhostTurnWatcher MAX_GHOST_TURNS);
   configured (WT.review_loop t) (λ n, ReviewLoopWatcher (n `max` 1)%nat)
     (ReviewLoopWatcher MAX_REVIEW_CYCLES);
   configured (WT.iteration_loop t) (λ n, IterationLoopWatcher (n `max` 1)%nat)
     (IterationLoopWatcher MAX_IMPLEMENTER_ATTEMPTS);
   configured (WT.test_failure_budget t) (λ n, TestFailureBudgetWatcher (N.max n 1))
     (TestFailureBudgetWatcher MIN_FAILURE_INCREASE);
   configured (WT.compile_fail_repeat t) (λ n, CompileFailRepeatWatcher (n `max` 1)%nat)
     (CompileFailRepeatWatcher MAX_IDENTICAL_COMPILE_FAILURES);
   configured (WT.spec_drift t) SpecDriftWatcher (SpecDriftWatcher MAX_SPEC_DRIFT_RATIO);
   configured (WT.cost_overrun t) (λ c, CostOverrunWatcher (CostOverrunConfig.critical_usd c))
     (CostOverrunWatcher DEFAULT_BUDGET);
   configured (WT.time_overrun t) with_alert_threshold (TimeOverrunWatcher ALERT_THRESHOLD);
   configured (WT.stuck_pattern t) (λ n, StuckPatternWatcher (n `max` 1)%nat)
     (StuckPatternWatcher MAX_IDENTICAL_ACTIONS)]
  ++ (if CC.context_pressure_enabled config then
        [configured (WT.context_window_pressure t)
           (λ c, ContextWindowPressureWatcher
                   (ContextWindowPressureConfig.critical_threshold c) ∅)
           (ContextWindowPressureWatcher MAX_CONTEXT_USAGE_RATIO ∅)]
      else []).

(** The interface [InterventionPolicy]. *)
Record InterventionPolicy : Type := mk_policy {
  policy_name : string;
  policy_evaluate : list WatcherOutput → Context → ConductorDecision;
}.

Definition WorstSeverityPolicy : InterventionPolicy :=
  mk_policy "worst-severity" (λ outputs _, worst_severity_evaluate outputs).

Record Conductor : Type := mk_conductor {
  watchers : list React;
  policy : InterventionPolicy;
  circuit_breaker : CircuitBreaker;
  routing_bias : RoutingBias;
  provider_health : option (string → bool);
  threshold_learner : ThresholdLearner;
  pattern_detector : PatternDetector;
  last_compound_patterns : list CompoundPattern;
}.

Definition with_watchers (ws : list React) : Conductor :=
  mk_conductor ws WorstSeverityPolicy CB.default RoutingBias.default None TL.new PD.default [].

Definition new : Conductor := with_watchers default_watchers.
Definition from_config (config : ConductorConfig) : Conductor :=
  with_watchers (configured_watchers config).

Definition with_policy (p : InterventionPolicy) (c : Conductor) : Conductor :=
  mk_conductor (watchers c) p (circuit_breaker c) (routing_bias c) (provider_health c)
    (threshold_learner c) (pattern_detector c) (last_compound_patterns c).
Definition with_circuit_breaker (b : CircuitBreaker) (c : Conductor) : Conductor :=
  mk_conductor (watchers c) (policy c) b (routing_bias c) (provider_health c)
    (threshold_learner c) (pattern_detector c) (last_compound_patterns c).
Definition from_circuit_breaker_state (s : CircuitBreakerState) : Conductor :=
  with_circuit_breaker (CB.from_state s) new.
Definition with_provider_health (h : string → bool) (c : Conductor) : Conductor :=
  mk_conductor (watchers c) (policy c) (circuit_breaker c) (routing_bias c) (Some h)
    (threshold_learner c) (pattern_detector c) (last_compound_patterns c).
Definition with_threshold_learner (l : ThresholdLearner) (c : Conductor) : Conductor :=
  mk_conductor (watchers c) (policy c) (circuit_breaker c) (routing_bias c) (provider_health c)
    l (pattern_detector c) (last_compound_patterns c).
Definition set_routing_bias (b : RoutingBias) (c : Conductor) : Conductor :=
  mk_conductor (watchers c) (policy c) (circuit_breaker c) b (provider_health c)
    (threshold_learner c) (pattern_detector c) (last_compound_patterns c).
Definition set_patterns (d : PatternDetector) (l : list CompoundPattern) (c : Conductor) :
    Conductor :=
  mk_conductor (watchers c) (policy c) (circuit_breaker c) (routing_bias c) (provider_health c)
    (threshold_learner c) d l.

Definition record_intervention_outcome (o : InterventionOutcome) (c : Conductor) : Conductor :=
  with_threshold_learner (TL.record_outcome o (threshold_learner c)) c.

(** [std::mem::take] of the patterns. *)
Definition take_compound_patterns (c : Conductor) : Conductor * list CompoundPattern :=
  (set_patterns (pattern_detector c) [] c, last_compound_patterns c).

(** *** Reading the stream *)

Definition extract_provider (stream : list Engram) : option string :=
  head (omap (λ s,
    match get_tag s "provider" with
    | Some p => Some p
    | None => Body.as_json (λ v, json_get "provider" v ≫= json_as_str) (body s)
    end) (reverse stream)).

Definition extract_plan_id (stream : list Engram) : option string :=
  rfind (is_kind Kind.PlanPhase) stream ≫= λ s, get_tag s "plan_id".

Definition extract_model_slug (s : Engram) : option string :=
  match get_tag s "model" with
  | Some m => Some m
  | None =>
      Body.as_json (λ v,
        match json_get "model" v with
        | Some m => json_as_str m
        | None => json_get "model_used" v ≫= json_as_str
        end) (body s)
  end.

Definition latest_model_from_stream (stream : list Engram) : option string :=
  head (omap extract_model_slug (reverse stream)).

Definition derive_routing_bias (stream : list Engram) (outputs : list WatcherOutput) :
    RoutingBias :=
  let load_pressure :=
    any_fired ["cost-overrun"; "context-window-pressure"; "time-overrun"] outputs in
  let failing :=
    any_fired ["ghost-turn"; "review-loop"; "iteration-loop"; "test-failure-budget";
               "compile-fail-repeat"; "stuck-pattern"; "spec-drift"] outputs in
  let model := latest_model_from_stream stream in
  let deprioritize :=
    if failing then match model with Some m => [m] | None => [] end else [] in
  let reasons :=
    (if load_pressure then ["load pressure"] else [])
    ++ (if failing then
          [match model with
           | Some m => "recent failure on " +:+ m
           | None => "recent failure"
           end]
        else []) in
  RoutingBias.mk (dedup_strings deprioritize) load_pressure (str_join "; " reasons).

(** *** Running the watchers *)

Definition signal_severity (s : Engram) : Severity :=
  match get_tag s "severity" with
  | Some sev =>
      if string_eqb sev "critical" then Severity.Critical
      else if string_eqb sev "warning" then Severity.Warning
      else Severity.Info
  | None => Severity.Info
  end.

Definition signal_output (w : React) (s : Engram) : WatcherOutput :=
  let name := default (react_name w) (get_tag s "watcher") in
  let description :=
    match body s with
    | Body.Text t => t
    | _ => "intervention from " +:+ name
    end in
  WO.new name (signal_severity s) description.

Fixpoint collect_watcher_outputs (ws : list React) (now : Z) (stream : list Engram)
    (ctx : Context) : option (list WatcherOutput) :=
  match ws with
  | [] => Some []
  | w :: rest =>
      match react_decide w now stream ctx with
      | None => None
      | Some signals =>
          (λ outputs, (signal_output w <$> signals) ++ outputs)
            <$> collect_watcher_outputs rest now stream ctx
      end
  end.

Definition severity_str (s : Severity) : string :=
  match s with
  | Severity.Info => "info" | Severity.Warning => "warning" | Severity.Critical => "critical"
  end.

Definition outputs_to_signals (now : Z) (outputs : list WatcherOutput) : list Engram :=
  omap (λ o,
    if decide (WO.severity o = Severity.Info) then None
    else
      (λ v, build now
        (with_tag "severity" (severity_str (WO.severity o))
          (with_tag "watcher" (WO.watcher o)
            (with_body (Body.Json v)
              (builder (Kind.Custom ("conductor:alert:" +:+ WO.watcher o)))))))
        <$> output_to_value o) outputs.

(** *** Evaluation *)

Definition update_routing_bias (stream : list Engram) (outputs : list WatcherOutput)
    (c : Conductor) : Conductor :=
  set_routing_bias (derive_routing_bias stream outputs) c.

Definition tripped_evaluation : ConductorEvaluation :=
  CE.mk (CD.Fail "circuit-breaker" FailureKind.MaxIterations)
    [CS.Shutdown "circuit breaker tripped"].

Definition provider_signals (c : Conductor) (stream : list Engram) : list CognitiveSignal :=
  match provider_health c with
  | Some is_healthy =>
      match extract_provider stream with
      | Some provider => if negb (is_healthy provider) then [CS.Escalate 2] else []
      | None => []
      end
  | None => []
  end.

(** The policy's decision, overridden to a restart where a pattern is critical and the policy
    would have let the work continue. *)
Definition final_decision (decision : ConductorDecision) (patterns : list CompoundPattern) :
    ConductorDecision :=
  if existsb (λ p, bool_decide (CP.escalated_severity p = Severity.Critical)) patterns
     && CD.is_continue decision
  then CD.Restart "pattern-detector" "compound pattern detected at critical severity"
  else decision.

Definition record_failure (plan_id : option string) (decision : ConductorDecision) (now_ms : Z)
    (c : Conductor) : Conductor :=
  match decision, plan_id with
  | CD.Fail watcher reason, Some pid =>
      with_circuit_breaker
        (CB.record_failure pid (watcher +:+ ": " +:+ FailureKind.display reason) now_ms
           (circuit_breaker c)).1 c
  | _, _ => c
  end.

(** The part of [evaluate_full] that runs the watchers. *)
Definition run_evaluation (plan_id : option string) (outputs : list WatcherOutput)
    (stream : list Engram) (ctx : Context) (c : Conductor) : Conductor * ConductorEvaluation :=
  let c := update_routing_bias stream outputs c in
  let '(detector, patterns) := PD.record outputs (pattern_detector c) in
  let c := set_patterns detector patterns c in
  let signals :=
    derive_cognitive_signals outputs
    ++ concat (pattern_signals <$> patterns)
    ++ proactive_signals (plan_id ≫= CB.check_proactive (circuit_breaker c))
    ++ provider_signals c stream in
  let decision := final_decision (policy_evaluate (policy c) outputs ctx) patterns in
  (record_failure plan_id decision (Context.now_ms ctx) c, CE.mk decision signals).

Definition plan_tripped (c : Conductor) (plan_id : option string) : bool :=
  match plan_id with
  | Some pid => CB.is_tripped (circuit_breaker c) pid
  | None => false
  end.

Definition evaluate_full (now : Z) (stream : list Engram) (ctx : Context) (c : Conductor) :
    option (Conductor * ConductorEvaluation) :=
  let plan_id := extract_plan_id stream in
  if plan_tripped c plan_id then Some (update_routing_bias stream [] c, tripped_evaluation)
  else
    (λ outputs, run_evaluation plan_id outputs stream ctx c)
      <$> collect_watcher_outputs (watchers c) now stream ctx.

Definition evaluate (now : Z) (stream : list Engram) (ctx : Context) (c : Conductor) :
    option (Conductor * ConductorDecision) :=
  (λ r, (r.1, CE.decision r.2)) <$> evaluate_full now stream ctx c.

(** [React for Conductor]. *)
Definition decide_signals (now : Z) (stream : list Engram) (ctx : Context) (c : Conductor) :
    option (Conductor * list Engram) :=
  (λ outputs,
     let decision := policy_evaluate (policy c) outputs ctx in
     (update_routing_bias stream outputs c,
      outputs_to_signals now outputs
      ++ (if CD.is_continue decision then []
          else
            match decision_to_value decision with
            | Some v =>
                [build now
                  (with_tag "decision" (CD.label decision)
                    (with_body (Body.Json v) (builder (Kind.Custom "conductor.decision"))))]
            | None => []
            end)))
    <$> collect_watcher_outputs (watchers c) now stream ctx.
End Conductor.

(** ** What the watchers contribute *)

Section facts.
Context `{J : Json, EP : !EngramParts, BS : !BodySerde, B3 : !Blake3, EL : !ExpLib}.
Context {JT : JsonText} {WS : WatcherSerde} {CJ : ConductorSerde} {HI : HashIter}.
Implicit Types (c : Conductor) (stream : list Engram).

Lemma elem_of_collect ws now stream ctx outputs o :
  collect_watcher_outputs ws now stream ctx = Some outputs →
  o ∈ outputs ↔ ∃ w signals s, w ∈ ws ∧ react_decide w now stream ctx = Some signals
    ∧ s ∈ signals ∧ o = signal_output w s.
Proof.
  revert outputs. induction ws as [|w ws IH]; intros outputs; cbn [collect_watcher_outputs].
  { intros [= <-]. split; [intros H; by apply elem_of_nil in H|].
    intros (? & ? & ? & H & _). by apply elem_of_nil in H. }
  destruct (react_decide w now stream ctx) as [signals|] eqn:Ew; [|done].
  destruct (collect_watcher_outputs ws now stream ctx) as [rest|]; [|done].
  intros [= <-]. rewrite elem_of_app, list_elem_of_fmap, (IH rest eq_refl). split.
  - intros [(s & -> & Hs)|(w' & sg & s & Hw & Hd & Hs & ->)].
    + exists w, signals, s. split; [apply list_elem_of_here|done].
    + exists w', sg, s. split; [by apply list_elem_of_further|done].
  - intros (w' & sg & s & Hw & Hd & Hs & ->). apply elem_of_cons in Hw as [->|Hw].
    + left. rewrite Ew in Hd. injection Hd as <-. by exists s.
    + right. by exists w', sg, s.
Qed.

Lemma signal_output_of w name sev s :
  watcher_signal name sev s →
  WO.watcher (signal_output w s) = name ∧ WO.severity (signal_output w s) = signal_severity s
  ∧ Body.Text (WO.description (signal_output w s)) = body s.
Proof.
  intros (_ & Hw & _ & text & Hb). unfold signal_output. rewrite Hw, Hb. done.
Qed.

Lemma severity_warning name s : watcher_signal name "warning" s → signal_severity s = Severity.Warning.
Proof. intros (_ & _ & Hs & _). unfold signal_severity. by rewrite Hs. Qed.

Lemma severity_critical name s : watcher_signal name "critical" s → signal_severity s = Severity.Critical.
Proof. intros (_ & _ & Hs & _). unfold signal_severity. by rewrite Hs. Qed.

(** What any of the default watchers signals: a warning under its own name, but for the
    watcher of iterations, whose signals are critical. *)
Lemma default_watcher_signal w now stream ctx signals s :
  w ∈ default_watchers → react_decide w now stream ctx = Some signals → s ∈ signals →
  react_name w = ITERATION_LOOP ∧ watcher_signal ITERATION_LOOP "critical" s
    ∧ signals = iteration_loop_decide MAX_IMPLEMENTER_ATTEMPTS now stream
  ∨ react_name w ≠ ITERATION_LOOP ∧ watcher_signal (react_name w) "warning" s.
Proof.
  unfold default_watchers. rewrite !elem_of_cons.
  intros [->|[->|[->|[->|[->|[->|[->|[->|[->|[->|Hw]]]]]]]]]] Hd Hs;
    [..|by apply elem_of_nil in Hw]; cbn [react_decide react_name] in *;
    try (injection Hd as <-).
  - right. split; [done|].
    destruct (ghost_turn_fires MAX_GHOST_TURNS now stream) as (out & E & _ & H);
      [unfold MAX_GHOST_TURNS; lia|].
    apply H. unfold GhostTurnWatcher in Hd. cbn in Hd. congruence.
  - right. split; [done|]. by eapply review_loop_signal.
  - left. split; [done|]. split; [|done].
    apply (proj2 (iteration_loop_fires MAX_IMPLEMENTER_ATTEMPTS now stream ltac:(unfold MAX_IMPLEMENTER_ATTEMPTS; lia))).
    done.
  - right. split; [done|]. apply test_failure_fires in Hs. destruct Hs as (_ & _ & _ & _ & _ & _ & _ & H).
    exact H.
  - right. split; [done|].
    pose proof (compile_fail_fires MAX_IDENTICAL_COMPILE_FAILURES now stream) as H. cbv zeta in H.
    unfold CompileFailRepeatWatcher in Hd. cbn in Hd. rewrite Hd in H.
    destruct signals as [|x l]; [by apply elem_of_nil in Hs|].
    destruct H as (_ & _ & e & [= -> ->] & He); [unfold MAX_IDENTICAL_COMPILE_FAILURES; lia|].
    by apply list_elem_of_singleton in Hs as ->.
  - right. split; [done|]. by eapply context_window_signal.
  - right. split; [done|]. by apply (proj2 (spec_drift_fires MAX_SPEC_DRIFT_RATIO now stream)).
  - right. split; [done|]. by apply (proj2 (cost_overrun_fires DEFAULT_BUDGET now stream)).
  - right. split; [done|]. by apply (proj2 (time_overrun_fires ALERT_THRESHOLD now stream)).
  - right. split; [done|].
    pose proof (stuck_pattern_spec MAX_IDENTICAL_ACTIONS now stream) as H.
    unfold StuckPatternWatcher in Hd. cbn in Hd.
    destruct (fingerprints (reverse stream)) as [|fp rest];
      [rewrite Hd in H; injection H as ->; [by apply elem_of_nil in Hs|unfold MAX_IDENTICAL_ACTIONS; lia]|].
    specialize (H ltac:(unfold MAX_IDENTICAL_ACTIONS; lia)). rewrite Hd in H.
    destruct (MAX_IDENTICAL_ACTIONS <=? _)%nat; [|injection H as ->; by apply elem_of_nil in Hs].
    destruct (truncate fp 80); [|done]. destruct H as (e & [= ->] & He).
    by apply list_elem_of_singleton in Hs as ->.
Qed.

(** ** Who can end a plan *)

Lemma default_outputs now stream ctx outputs o :
  collect_watcher_outputs default_watchers now stream ctx = Some outputs → o ∈ outputs →
  WO.severity o = Severity.Warning ∧ WO.watcher o ≠ ITERATION_LOOP
  ∨ WO.severity o = Severity.Critical ∧ WO.watcher o = ITERATION_LOOP
    ∧ ∃ s, s ∈ iteration_loop_decide MAX_IMPLEMENTER_ATTEMPTS now stream
        ∧ body s = Body.Text (WO.description o).
Proof.
  intros Hc Ho. apply (elem_of_collect _ _ _ _ _ _ Hc) in Ho as (w & sg & s & Hw & Hd & Hs & ->).
  destruct (default_watcher_signal w now stream ctx sg s Hw Hd Hs) as [(Hn & Hsig & ->)|(Hn & Hsig)].
  - right. destruct (signal_output_of w _ _ _ Hsig) as (E1 & E2 & E3).
    rewrite E2, E1. split; [by eapply severity_critical|]. split; [done|]. by exists s.
  - left. destruct (signal_output_of w _ _ _ Hsig) as (E1 & E2 & _).
    rewrite E2, E1. split; [by eapply severity_warning|done].
Qed.

Lemma iteration_output now stream ctx outputs :
  collect_watcher_outputs default_watchers now stream ctx = Some outputs →
  iteration_loop_decide MAX_IMPLEMENTER_ATTEMPTS now stream ≠ [] →
  ∃ o, o ∈ outputs ∧ WO.severity o = Severity.Critical.
Proof.
  intros Hc Hne.
  destruct (iteration_loop_decide MAX_IMPLEMENTER_ATTEMPTS now stream) as [|s l] eqn:E; [done|].
  exists (signal_output (IterationLoopWatcher MAX_IMPLEMENTER_ATTEMPTS) s).
  assert (s ∈ iteration_loop_decide MAX_IMPLEMENTER_ATTEMPTS now stream) as Hs
    by (rewrite E; apply list_elem_of_here).
  split.
  - apply (elem_of_collect _ _ _ _ _ _ Hc). exists (IterationLoopWatcher MAX_IMPLEMENTER_ATTEMPTS).
    eexists _, s. split; [|split; [reflexivity|done]].
    unfold default_watchers. do 2 apply list_elem_of_further. apply list_elem_of_here.
  - assert (watcher_signal ITERATION_LOOP "critical" s) as Hsig.
    { apply (proj2 (iteration_loop_fires MAX_IMPLEMENTER_ATTEMPTS now stream
        ltac:(unfold MAX_IMPLEMENTER_ATTEMPTS; lia)) s Hs). }
    rewrite (proj1 (proj2 (signal_output_of _ _ _ _ Hsig))). by eapply severity_critical.
Qed.

Lemma final_decision_terminal d patterns :
  CD.is_terminal (final_decision d patterns) = CD.is_terminal d.
Proof. unfold final_decision. by destruct d, (existsb _ patterns). Qed.

(** A conductor with the default watchers and policy, whose breaker has not tripped for the
    plan, fails the plan exactly when the watcher of iterations has fired. *)
Theorem default_conductor_fails c now stream ctx c' e :
  watchers c = default_watchers → policy c = WorstSeverityPolicy →
  plan_tripped c (extract_plan_id stream) = false →
  evaluate_full now stream ctx c = Some (c', e) →
  CE.is_terminal e = true ↔ iteration_loop_decide MAX_IMPLEMENTER_ATTEMPTS now stream ≠ [].
Proof.
  intros Hw Hp Ht. unfold evaluate_full. rewrite Ht, Hw.
  destruct (collect_watcher_outputs default_watchers now stream ctx) as [outputs|] eqn:Hc; [|done].
  cbn [fmap option_fmap option_map]. unfold run_evaluation.
  destruct (PD.record outputs _) as [detector patterns]. intros [= _ <-].
  unfold CE.is_terminal. cbn [CE.decision set_patterns update_routing_bias set_routing_bias policy].
  rewrite final_decision_terminal, Hp. cbn [policy_evaluate WorstSeverityPolicy].
  unfold worst_severity_evaluate. pose proof (worst_output_spec outputs) as H.
  destruct (worst_output outputs) as [b|].
  - destruct H as [Hle (l1 & l2 & Hl & _)].
    assert (b ∈ outputs) as Hb by (rewrite Hl; apply elem_of_app; right; apply list_elem_of_here).
    destruct (default_outputs _ _ _ _ _ Hc Hb) as [(Hs & Hn)|(Hs & Hn & s & Hin & _)].
    + unfold WO.to_decision. rewrite Hs. cbn. split; [done|]. intros Hne.
      destruct (iteration_output _ _ _ _ Hc Hne) as (o & Ho & Hcr).
      specialize (Hle o Ho). rewrite Hcr, Hs in Hle. cbn in Hle. lia.
    + unfold WO.to_decision. rewrite Hs. cbn. split; [|done]. intros _ E. rewrite E in Hin.
      by apply elem_of_nil in Hin.
  - subst outputs. cbn. split; [done|]. intros Hne.
    destruct (iteration_output _ _ _ _ Hc Hne) as (o & Ho & _). by apply elem_of_nil in Ho.
Qed.

(** ** Decisions and patterns *)

(** A critical pattern never lets the work continue. *)
Lemma critical_pattern_stops d patterns p :
  p ∈ patterns → CP.escalated_severity p = Severity.Critical →
  CD.is_continue (final_decision d patterns) = false.
Proof.
  intros Hp Hs. unfold final_decision.
  assert (existsb (λ p, bool_decide (CP.escalated_severity p = Severity.Critical)) patterns = true)
    as ->.
  { apply existsb_exists. exists p. split; [by apply list_elem_of_In|]. by apply bool_decide_eq_true. }
  cbn [andb]. destruct (CD.is_continue d) eqn:E; [done|exact E].
Qed.

(** ** The breaker *)

Lemma evaluate_full_tripped now stream ctx c :
  plan_tripped c (extract_plan_id stream) = true →
  evaluate_full now stream ctx c = Some (update_routing_bias stream [] c, tripped_evaluation).
Proof. intros H. unfold evaluate_full. by rewrite H. Qed.

(** An evaluation writes to the breaker exactly when it fails a known plan that was not
    tripped. *)
Lemma evaluate_full_breaker now stream ctx c c' e :
  evaluate_full now stream ctx c = Some (c', e) →
  watchers c' = watchers c ∧ policy c' = policy c ∧
  circuit_breaker c' =
    if plan_tripped c (extract_plan_id stream) then circuit_breaker c
    else
      match CE.decision e, extract_plan_id stream with
      | CD.Fail watcher reason, Some pid =>
          (CB.record_failure pid (watcher +:+ ": " +:+ FailureKind.display reason)
             (Context.now_ms ctx) (circuit_breaker c)).1
      | _, _ => circuit_breaker c
      end.
Proof.
  unfold evaluate_full. destruct (plan_tripped c (extract_plan_id stream)).
  { by intros [= <- <-]. }
  destruct (collect_watcher_outputs _ _ _ _) as [outputs|]; [|done].
  cbn [fmap option_fmap option_map]. unfold run_evaluation.
  destruct (PD.record outputs _) as [detector patterns]. intros [= <- <-]. cbn [CE.decision].
  unfold record_failure. by destruct (final_decision _ patterns), (extract_plan_id stream).
Qed.

(** A run of evaluations, each with its clock, stream and context: the final conductor, and of
    each evaluation the plan it was about, whether the breaker had tripped, and the result. *)
Fixpoint run_conductor (l : list (Z * list Engram * Context)) (c : Conductor) :
    option (Conductor * list (option string * bool * ConductorEvaluation)) :=
  match l with
  | [] => Some (c, [])
  | (now, stream, ctx) :: l' =>
      match evaluate_full now stream ctx c with
      | None => None
      | Some (c', e) =>
          let plan_id := extract_plan_id stream in
          (λ r, (r.1, (plan_id, plan_tripped c plan_id, e) :: r.2)) <$> run_conductor l' c'
      end
  end.

(** The evaluations that failed plan [p] by the watchers' verdict. *)
Definition failed_by_watchers (p : string) (x : option string * bool * ConductorEvaluation) : bool :=
  bool_decide (x.1.1 = Some p) && negb x.1.2 && CE.is_terminal x.2.

Lemma record_failure_count p q reason now b :
  CB.failure_count (CB.record_failure q reason now b).1 p =
    if decide (q = p) then add32 (CB.failure_count b p) 1 else CB.failure_count b p.
Proof.
  unfold CB.record_failure, CB.failure_count. cbn [fst].
  assert (∀ b', CB.records (if CB.predictive b' then CB.update_forecaster q (F64.of_Z 1) b' else b')
    = CB.records b') as Hu by (intros b'; by destruct (CB.predictive b')).
  rewrite Hu. cbn [CB.records CB.set_records].
  destruct (decide (q = p)) as [->|Hne].
  - rewrite lookup_insert_eq. cbn [FailureRecord.count]. by destruct (CB.records b !! p).
  - by rewrite lookup_insert_ne.
Qed.

Lemma record_failure_limit q reason now b :
  CB.max_failures (CB.record_failure q reason now b).1 = CB.max_failures b.
Proof. unfold CB.record_failure. cbn [fst]. by destruct (CB.predictive _). Qed.

(** A plan whose count is at its limit is tripped, but for a limit of zero, which trips after
    the first failure. *)
Lemma not_tripped_count c p :
  plan_tripped c (Some p) = false →
  (CB.failure_count (circuit_breaker c) p < N.max (CB.max_failures (circuit_breaker c)) 1)%N.
Proof.
  unfold plan_tripped, CB.is_tripped, CB.failure_count.
  destruct (CB.records (circuit_breaker c) !! p) as [r|]; [|lia].
  destruct (N.leb_spec (CB.max_failures (circuit_breaker c)) (FailureRecord.count r)); [done|lia].
Qed.

Lemma run_conductor_count l c c' trace p :
  (CB.max_failures (circuit_breaker c) ≤ u32_MAX)%N →
  (CB.failure_count (circuit_breaker c) p ≤ N.max (CB.max_failures (circuit_breaker c)) 1)%N →
  run_conductor l c = Some (c', trace) →
  CB.max_failures (circuit_breaker c') = CB.max_failures (circuit_breaker c)
  ∧ CB.failure_count (circuit_breaker c') p
    = (CB.failure_count (circuit_breaker c) p
       + N.of_nat (length (List.filter (failed_by_watchers p) trace)))%N
  ∧ (CB.failure_count (circuit_breaker c') p ≤ N.max (CB.max_failures (circuit_breaker c)) 1)%N.
Proof.
  intros Hmax. revert c trace Hmax. induction l as [|[[now stream] ctx] l IH]; intros c trace Hmax Hk.
  { intros [= <- <-]. split; [done|]. cbn. split; [lia|done]. }
  cbn [run_conductor]. destruct (evaluate_full now stream ctx c) as [[c1 e]|] eqn:E; [|done].
  destruct (run_conductor l c1) as [[c2 rest]|] eqn:Er; [|done].
  cbn [fmap option_fmap option_map fst snd]. intros [= <- <-].
  destruct (evaluate_full_breaker _ _ _ _ _ _ E) as (_ & _ & Hb).
  assert (CB.max_failures (circuit_breaker c1) = CB.max_failures (circuit_breaker c)
    ∧ CB.failure_count (circuit_breaker c1) p
      = (CB.failure_count (circuit_breaker c) p
         + if failed_by_watchers p (extract_plan_id stream, plan_tripped c (extract_plan_id stream), e)
           then 1 else 0)%N
    ∧ (CB.failure_count (circuit_breaker c1) p ≤ N.max (CB.max_failures (circuit_breaker c)) 1)%N)
    as (H1 & H2 & H3).
  { unfold failed_by_watchers, CE.is_terminal. cbn [fst snd]. rewrite Hb.
    destruct (plan_tripped c (extract_plan_id stream)) eqn:Ht; cbn [negb andb].
    { rewrite andb_false_r. cbn [andb]. split; [done|]. split; [lia|done]. }
    destruct (CE.decision e) as [|w r|w r]; cbn [CD.is_terminal]; rewrite ?andb_false_r, ?andb_true_r;
      try (split; [done|]; split; [lia|done]).
    destruct (extract_plan_id stream) as [q|];
      [|rewrite bool_decide_eq_false_2 by done; split; [done|]; split; [lia|done]].
    rewrite record_failure_limit, record_failure_count. split; [done|].
    destruct (decide (q = p)) as [->|Hne].
    - rewrite bool_decide_eq_true_2 by done. apply not_tripped_count in Ht.
      assert (u32_MAX = 4294967295)%N as Hu by done.
      rewrite add32_small by lia. split; lia.
    - rewrite bool_decide_eq_false_2 by congruence. split; [lia|done]. }
  destruct (IH c1 rest) as (H4 & H5 & H6); [by rewrite H1|by rewrite H1|done|].
  cbn [List.filter].
  set (f := failed_by_watchers p _) in *. destruct f; cbn [length]; rewrite H4, H1, H5, H2;
    (split; [done|]); rewrite H5, H2, H1 in H6; split; lia.
Qed.

(** Over any run of evaluations from a fresh conductor, the watchers fail a plan at most as
    often as the breaker's limit (once, for a limit of zero): after that the breaker answers
    for them. *)
Theorem conductor_failures_bounded c max_failures l c' trace p :
  circuit_breaker c = CB.new max_failures → (max_failures ≤ u32_MAX)%N →
  run_conductor l c = Some (c', trace) →
  (N.of_nat (length (List.filter (failed_by_watchers p) trace)) ≤ N.max max_failures 1)%N.
Proof.
  intros Hb Hmax Hr.
  assert (CB.failure_count (CB.new max_failures) p = 0)%N as H0
    by (unfold CB.failure_count; cbn [CB.records CB.new]; by rewrite lookup_empty).
  destruct (run_conductor_count l c c' trace p) as (_ & H2 & H3); rewrite ?Hb, ?H0; [done|lia|done|].
  rewrite Hb, H0 in H2. rewrite Hb in H3. cbn [CB.max_failures CB.new] in H3. lia.
Qed.
End facts.

(** ** Examples *)

Section examples.
#[local] Existing Instance simple_Json.
#[local] Existing Instance unit_parts.
#[local] Existing Instance text_serde.
#[local] Existing Instance poly_blake3.
#[local] Existing Instance flat_exp.
#[local] Existing Instance sample_text.
#[local] Existing Instance sample_serde.

(** A failed gate of plan [p]. *)
Definition gate_failed : Engram :=
  build 2 (with_tag "plan_id" "p"
    (with_body (Body.Json (JObj [("plan_id", JStr "p"); ("event", JStr "GateFailed")]))
      (builder Kind.PlanPhase))).
Definition failing_stream : list Engram := replicate MAX_IMPLEMENTER_ATTEMPTS gate_failed.
Definition at_7 : Context := Context.at_ms 7.

(** Two failures by the watchers, then the breaker's own answer. *)
Lemma conductor_failures_bounded_witness :
  ∃ c' trace,
    run_conductor (replicate 5 (9%Z, failing_stream, at_7)) new = Some (c', trace)
    ∧ length (List.filter (failed_by_watchers "p") trace) = 2%nat
    ∧ (2 ≤ N.max MAX_PLAN_FAILURES 1)%N.
Proof.
  destruct (run_conductor (replicate 5 (9%Z, failing_stream, at_7)) new) as [[c' trace]|] eqn:E.
  - assert (length (List.filter (failed_by_watchers "p") trace) = 2%nat) as Hl.
    { assert ((λ r, length (List.filter (failed_by_watchers "p") r.2))
        <$> run_conductor (replicate 5 (9%Z, failing_stream, at_7)) new = Some 2%nat) as H
        by (vm_compute; reflexivity).
      rewrite E in H. by injection H. }
    exists c', trace. split; [reflexivity|]. split; [exact Hl|].
    change 2%N with (N.of_nat 2). rewrite <- Hl.
    apply (conductor_failures_bounded new MAX_PLAN_FAILURES
      (replicate 5 (9%Z, failing_stream, at_7)) c' trace "p");
      [reflexivity|vm_compute; discriminate|exact E].
  - exfalso. apply (f_equal (fmap (λ _, tt))) in E. vm_compute in E. discriminate.
Defined.

Lemma default_conductor_fails_witness :
  ∃ c' e, evaluate_full 9 failing_stream at_7 new = Some (c', e) ∧ CE.is_terminal e = true.
Proof.
  destruct (evaluate_full 9 failing_stream at_7 new) as [[c' e]|] eqn:E.
  - exists c', e. split; [reflexivity|].
    apply (default_conductor_fails new 9 failing_stream at_7 c' e);
      [reflexivity|reflexivity|vm_compute; reflexivity|exact E|vm_compute; discriminate].
  - exfalso. apply (f_equal (fmap (λ _, tt))) in E. vm_compute in E. discriminate.
Defined.
End examples.
