(* ===== verification/Stuck.v ===== *)
(** * Stuck detection (crates/roko-conductor/src/stuck_detection.rs)

    Heuristics over the history of an agent's activity: a detector with its thresholds, the
    assessment made of what it finds, and the filter that keeps one kind of finding from
    firing too often.  [None] is a panic: an index out of bounds, or a slice of a string inside
    a character. *)

From Stdlib Require Import SpecFloat.
From S2P Require Import Prelude Bytes EventLog Taint Text Floats Body Scoring Engram.

#[local] Arguments F64.of_Z : simpl never.
#[local] Arguments F64.of_N : simpl never.

Module StuckKind.
Inductive t : Type :=
  | OutputLoop | NoProgress | GateLoop | CompileLoop | EmptyOutput | ExcessiveRetries
  | ReviewLoop | IterationLoop | SilenceTimeout | CompileFailThreshold | TaskStall
  | ContextPressure.

#[global] Instance t_eq_dec : EqDecision t.
Proof. solve_decision. Defined.

Definition to_nat (k : t) : nat :=
  match k with
  | OutputLoop => 0 | NoProgress => 1 | GateLoop => 2 | CompileLoop => 3 | EmptyOutput => 4
  | ExcessiveRetries => 5 | ReviewLoop => 6 | IterationLoop => 7 | SilenceTimeout => 8
  | CompileFailThreshold => 9 | TaskStall => 10 | ContextPressure => 11
  end.

Definition all : list t :=
  [OutputLoop; NoProgress; GateLoop; CompileLoop; EmptyOutput; ExcessiveRetries; ReviewLoop;
   IterationLoop; SilenceTimeout; CompileFailThreshold; TaskStall; ContextPressure].

#[global] Program Instance t_countable : Countable t :=
  inj_countable to_nat (λ n, all !! n) _.
Next Obligation. by intros []. Qed.

(** The derived [Debug]. *)
Definition debug (k : t) : string :=
  match k with
  | OutputLoop => "OutputLoop" | NoProgress => "NoProgress" | GateLoop => "GateLoop"
  | CompileLoop => "CompileLoop" | EmptyOutput => "EmptyOutput"
  | ExcessiveRetries => "ExcessiveRetries" | ReviewLoop => "ReviewLoop"
  | IterationLoop => "IterationLoop" | SilenceTimeout => "SilenceTimeout"
  | CompileFailThreshold => "CompileFailThreshold" | TaskStall => "TaskStall"
  | ContextPressure => "ContextPressure"
  end.
End StuckKind.
Abbreviation StuckKind := StuckKind.t.
Module SK := StuckKind.

Module StuckSignal.
Record t : Type := mk {
  kind : StuckKind;
  confidence : F64.t;
  duration_ms : option Z;
  description : string;
}.
End StuckSignal.
Abbreviation StuckSignal := StuckSignal.t.
Module SS := StuckSignal.

Module ActivityEntry.
Record t : Type := mk {
  timestamp_ms : Z;
  output_hash : string;
  files_changed : N;
  gate_result : option string;
  iteration : N;
  activity : string;
  phase : string;
  task_id : string;
  tokens_used : option N;
  context_window : option N;
}.

Definition new (timestamp_ms : Z) (output_hash : string) (files_changed : N)
    (gate_result : option string) (iteration : N) : t :=
  mk timestamp_ms output_hash files_changed gate_result iteration "" "" "" None None.

Definition with_activity (x : string) (e : t) : t :=
  mk (timestamp_ms e) (output_hash e) (files_changed e) (gate_result e) (iteration e) x (phase e)
    (task_id e) (tokens_used e) (context_window e).
Definition with_phase (x : string) (e : t) : t :=
  mk (timestamp_ms e) (output_hash e) (files_changed e) (gate_result e) (iteration e) (activity e)
    x (task_id e) (tokens_used e) (context_window e).
Definition with_task_id (x : string) (e : t) : t :=
  mk (timestamp_ms e) (output_hash e) (files_changed e) (gate_result e) (iteration e) (activity e)
    (phase e) x (tokens_used e) (context_window e).
Definition with_token_usage (used window : N) (e : t) : t :=
  mk (timestamp_ms e) (output_hash e) (files_changed e) (gate_result e) (iteration e) (activity e)
    (phase e) (task_id e) (Some used) (Some window).
End ActivityEntry.
Abbreviation ActivityEntry := ActivityEntry.t.
Module AE := ActivityEntry.

Module StuckThresholds.
Record t : Type := mk {
  output_loop_count : nat;
  no_progress_ms : Z;
  gate_loop_count : nat;
  compile_loop_count : nat;
  empty_output_count : nat;
  excessive_retry_count : N;
  review_loop_threshold : nat;
  iteration_loop_threshold : nat;
  silence_timeout_ms : N;
  compile_fail_threshold : nat;
  task_stall_ms : N;
  context_pressure_pct : F64.t;
}.

Definition default : t := mk 4 300000 3 3 3 6 3 6 180000 3 300000 (F64.lit 8 10).

Definition new (output_loop : nat) (no_progress_ms : Z)
    (gate_loop compile_loop empty_output : nat) (excessive_retry : N) : t :=
  mk output_loop no_progress_ms gate_loop compile_loop empty_output excessive_retry 3 6 180000 3
    300000 (F64.lit 8 10).
End StuckThresholds.
Abbreviation StuckThresholds := StuckThresholds.t.
Module ST := StuckThresholds.

(** [{:?}] of a slice of strings. *)
Class DebugText := { debug_strs : list string → string }.

(** ** Helpers *)

Fixpoint take_while {A} (f : A → bool) (l : list A) : list A :=
  match l with
  | x :: l' => if f x then x :: take_while f l' else []
  | [] => []
  end.

Definition count_consecutive_from_end (f : ActivityEntry → bool) (history : list ActivityEntry) :
    nat := length (take_while f (reverse history)).

Definition trailing_no_progress_iterations (history : list ActivityEntry) : nat :=
  count_consecutive_from_end (λ e, (AE.files_changed e =? 0)%N) history.

Definition trailing_output_repetition_count (history : list ActivityEntry) : nat :=
  match AE.output_hash <$> last history with
  | None => 0
  | Some last_hash =>
      if str_is_empty last_hash then 0
      else count_consecutive_from_end (λ e, string_eqb (AE.output_hash e) last_hash) history
  end.

(** The results of the gates, the latest first. *)
Definition gate_results (history : list ActivityEntry) : list string :=
  omap AE.gate_result (reverse history).

Definition trailing_gate_failure_count (history : list ActivityEntry) : nat :=
  match head (gate_results history) with
  | None => 0
  | Some last_result =>
      if negb (str_starts_with "fail" last_result) then 0
      else length (take_while (λ r, string_eqb r last_result) (gate_results history))
  end.

Definition confidence_from_count (count threshold : nat) : F64.t :=
  if (threshold =? 0)%nat then F64.of_Z 1
  else
    let ratio := F64.div (F64.of_N (N.of_nat count)) (F64.of_N (N.of_nat threshold)) in
    F64.min (mul_add (F64.lit 2 10) ratio (F64.lit 5 10)) (F64.of_Z 1).

Definition truncate_str (s : string) (max : nat) : option string :=
  if (String.length s <=? max)%nat then Some s
  else (λ t, t +:+ "...") <$> str_prefix max s.

(** The cast of an [i64] to [u64]. *)
Definition i64_as_u64 (z : Z) : N := Z.to_N (z mod 2 ^ 64).

Definition seconds (ms : Z) : string := fmt_fixed 0 (F64.div (F64.of_Z ms) (F64.of_Z 1000)).

(** ** The heuristics

    The outer option is the panic, the inner one the code's own. *)

Definition finding : Type := option (option StuckSignal).
Definition quiet : finding := Some None.
Definition fire (kind : StuckKind) (confidence : F64.t) (duration_ms : option Z)
    (description : string) : finding :=
  Some (Some (SS.mk kind confidence duration_ms description)).

(** The time since the first of the last [consecutive] entries, where there are two entries or
    more; the index panics when it is the length. *)
Definition streak_duration (history : list ActivityEntry) (consecutive : nat) :
    option (option Z) :=
  if (2 <=? length history)%nat then
    match last history, history !! (length history - consecutive)%nat with
    | Some l, Some first => Some (Some (sub_i64 (AE.timestamp_ms l) (AE.timestamp_ms first)))
    | _, _ => None
    end
  else Some None.

Definition capped_ratio (a b : F64.t) : F64.t := F64.min (F64.div a b) (F64.of_Z 1).

Section Detector.
Context {DT : DebugText} (thresholds : StuckThresholds).

Definition check_output_loop (history : list ActivityEntry) : finding :=
  let threshold := ST.output_loop_count thresholds in
  if (length history <? threshold)%nat then quiet
  else
    match last history with
    | None => quiet
    | Some l =>
        let last_hash := AE.output_hash l in
        if str_is_empty last_hash then quiet
        else
          let consecutive :=
            count_consecutive_from_end (λ e, string_eqb (AE.output_hash e) last_hash) history in
          if (threshold <=? consecutive)%nat then
            match streak_duration history consecutive, truncate_str last_hash 16 with
            | Some duration_ms, Some shown =>
                fire SK.OutputLoop (confidence_from_count consecutive threshold) duration_ms
                  (fmt_nat consecutive +:+ " consecutive identical outputs (hash: "
                     +:+ shown +:+ ")")
            | _, _ => None
            end
          else quiet
    end.

Definition check_no_progress (history : list ActivityEntry) : finding :=
  if (length history <? 2)%nat then quiet
  else
    match head history, last history with
    | Some first, Some l =>
        let first_ts :=
          match List.find (λ e, (0 <? AE.files_changed e)%N) (reverse history) with
          | Some entry => AE.timestamp_ms entry
          | None => AE.timestamp_ms first
          end in
        let elapsed := sub_i64 (AE.timestamp_ms l) first_ts in
        if (ST.no_progress_ms thresholds <=? elapsed)%Z then
          fire SK.NoProgress
            (capped_ratio (F64.of_Z elapsed) (F64.of_Z (ST.no_progress_ms thresholds)))
            (Some elapsed) ("no file changes for " +:+ seconds elapsed +:+ "s")
        else quiet
    | _, _ => quiet
    end.

Definition check_gate_loop (history : list ActivityEntry) : finding :=
  let threshold := ST.gate_loop_count thresholds in
  let gate_entries := gate_results history in
  if (length gate_entries <? threshold)%nat then quiet
  else
    match head gate_entries with
    | None => quiet
    | Some last_result =>
        if negb (str_starts_with "fail" last_result) then quiet
        else
          let consecutive := length (take_while (λ r, string_eqb r last_result) gate_entries) in
          if (threshold <=? consecutive)%nat then
            fire SK.GateLoop (confidence_from_count consecutive threshold) None
              (fmt_nat consecutive +:+ " consecutive identical gate failures: " +:+ last_result)
          else quiet
    end.

Definition check_compile_loop (history : list ActivityEntry) : finding :=
  let threshold := ST.compile_loop_count thresholds in
  let compile_failures := List.filter (str_starts_with "fail:compile") (gate_results history) in
  if (length compile_failures <? threshold)%nat then quiet
  else
    match head compile_failures with
    | None => quiet
    | Some last_result =>
        let consecutive := length (take_while (λ r, string_eqb r last_result) compile_failures) in
        if (threshold <=? consecutive)%nat then
          fire SK.CompileLoop (confidence_from_count consecutive threshold) None
            (fmt_nat consecutive +:+ " consecutive identical compile failures")
        else quiet
    end.

Definition empty_output (e : ActivityEntry) : bool :=
  str_is_empty (AE.output_hash e) && (AE.files_changed e =? 0)%N.

Definition check_empty_output (history : list ActivityEntry) : finding :=
  let threshold := ST.empty_output_count thresholds in
  if (length history <? threshold)%nat then quiet
  else
    let consecutive := count_consecutive_from_end empty_output history in
    if (threshold <=? consecutive)%nat then
      match streak_duration history consecutive with
      | None => None
      | Some duration_ms =>
          fire SK.EmptyOutput (confidence_from_count consecutive threshold) duration_ms
            (fmt_nat consecutive +:+ " consecutive empty outputs")
      end
    else quiet.

Definition max_iteration (history : list ActivityEntry) : N :=
  foldl (λ m e, N.max m (AE.iteration e)) 0%N history.

Definition check_excessive_retries (history : list ActivityEntry) : finding :=
  match head history, last history with
  | Some first, Some l =>
      let max_iter := max_iteration history in
      let limit := ST.excessive_retry_count thresholds in
      if (limit <=? max_iter)%N then
        let duration_ms :=
          if (2 <=? length history)%nat then
            Some (sub_i64 (AE.timestamp_ms l) (AE.timestamp_ms first))
          else None in
        fire SK.ExcessiveRetries (capped_ratio (F64.of_N max_iter) (F64.of_N limit)) duration_ms
          (fmt_N max_iter +:+ " iterations (threshold: " +:+ fmt_N limit +:+ ")")
      else quiet
  | _, _ => quiet
  end.

Definition revised (e : ActivityEntry) : bool :=
  let lower := str_to_ascii_lowercase (AE.activity e) in
  str_contains "revise" lower || str_contains "rejected" lower.

Definition check_review_loop (history : list ActivityEntry) : finding :=
  let threshold := ST.review_loop_threshold thresholds in
  if (length history <? threshold)%nat then quiet
  else
    let consecutive := count_consecutive_from_end revised history in
    if (threshold <=? consecutive)%nat then
      fire SK.ReviewLoop (confidence_from_count consecutive threshold) None
        (fmt_nat consecutive +:+ " consecutive REVISE verdicts")
    else quiet.

(** How often [pattern] leads [l]: the chunks of its length that equal it; the length of [l]
    is enough fuel. *)
Fixpoint repeats_in (fuel : nat) (pattern l : list string) : nat :=
  match fuel with
  | O => 0
  | S fuel' =>
      if bool_decide (take (length pattern) l = pattern) then
        S (repeats_in fuel' pattern (drop (length pattern) l))
      else 0
  end.
Definition leading_repeats (pattern l : list string) : nat := repeats_in (length l) pattern l.

(** The phases, the latest first; entries without one are skipped. *)
Definition phases (history : list ActivityEntry) : list string :=
  List.filter (λ p, negb (str_is_empty p)) (AE.phase <$> reverse history).

Definition check_iteration_loop (history : list ActivityEntry) : finding :=
  let threshold := ST.iteration_loop_threshold thresholds in
  if (length history <? threshold)%nat then quiet
  else
    let ps := phases history in
    if (length ps <? threshold)%nat then quiet
    else
      let cycles (n : nat) := (threshold <=? leading_repeats (take n ps) ps)%nat in
      match List.find cycles (seq 1 (length ps / 2)) with
      | Some n =>
          let repeats := leading_repeats (take n ps) ps in
          fire SK.IterationLoop (confidence_from_count repeats threshold) None
            (fmt_nat repeats +:+ " repetitions of phase cycle " +:+ debug_strs (reverse (take n ps)))
      | None => quiet
      end.

Definition check_silence_timeout (history : list ActivityEntry) : finding :=
  match reverse history with
  | l :: prev :: _ =>
      let gap := sat_i64 (AE.timestamp_ms l - AE.timestamp_ms prev) in
      if (gap <? 0)%Z then quiet
      else
        let gap_u64 := Z.to_N gap in
        if (ST.silence_timeout_ms thresholds <=? gap_u64)%N then
          fire SK.SilenceTimeout
            (capped_ratio (F64.of_N gap_u64) (F64.of_N (ST.silence_timeout_ms thresholds)))
            (Some gap) ("no output for " +:+ seconds gap +:+ "s")
        else quiet
  | _ => quiet
  end.

Definition compile_failed (e : ActivityEntry) : bool :=
  let gate (f : string → bool) :=
    match AE.gate_result e with Some r => f r | None => false end in
  str_contains "compile" (str_to_ascii_lowercase (AE.activity e)) && gate (str_starts_with "fail")
  || gate (λ r, str_starts_with "fail:compile" r || str_starts_with "fail:build" r).

Definition check_compile_fail_threshold (history : list ActivityEntry) : finding :=
  let threshold := ST.compile_fail_threshold thresholds in
  if (length history <? threshold)%nat then quiet
  else
    let consecutive := count_consecutive_from_end compile_failed history in
    if (threshold <=? consecutive)%nat then
      fire SK.CompileFailThreshold (confidence_from_count consecutive threshold) None
        (fmt_nat consecutive +:+ " consecutive compile failures")
    else quiet.

Definition check_task_stall (history : list ActivityEntry) : finding :=
  if (length history <? 2)%nat then quiet
  else
    match last history with
    | None => quiet
    | Some l =>
        if str_is_empty (AE.task_id l) then quiet
        else
          match List.find (λ e, string_eqb (AE.task_id e) (AE.task_id l)) history with
          | None => quiet
          | Some first_for_task =>
              let elapsed := sat_i64 (AE.timestamp_ms l - AE.timestamp_ms first_for_task) in
              let elapsed_u64 := i64_as_u64 elapsed in
              if (ST.task_stall_ms thresholds <=? elapsed_u64)%N then
                match truncate_str (AE.task_id l) 16 with
                | None => None
                | Some shown =>
                    fire SK.TaskStall
                      (capped_ratio (F64.of_N elapsed_u64) (F64.of_N (ST.task_stall_ms thresholds)))
                      (Some elapsed)
                      ("task " +:+ shown +:+ " stalled for " +:+ seconds elapsed +:+ "s")
                end
              else quiet
          end
    end.

Definition token_usage (e : ActivityEntry) : option (N * N) :=
  match AE.tokens_used e, AE.context_window e with
  | Some used, Some window => Some (used, window)
  | _, _ => None
  end.

Definition check_context_pressure (history : list ActivityEntry) : finding :=
  match head (omap token_usage (reverse history)) with
  | None => quiet
  | Some (tokens_used, context_window) =>
      let window := F64.of_N context_window in
      if F64.le window F64.zero then quiet
      else
        let ratio := F64.div (F64.of_N tokens_used) window in
        if F64.ge ratio (ST.context_pressure_pct thresholds) then
          fire SK.ContextPressure (F64.min ratio (F64.of_Z 1)) None
            ("context pressure at " +:+ fmt_fixed 0 (F64.mul ratio (F64.of_Z 100)) +:+ "% ("
               +:+ fmt_N tokens_used +:+ "/" +:+ fmt_N context_window +:+ " tokens)")
        else quiet
  end.

(** *** All of them *)

(** The checks in their order; the detector stops at the first that fires. *)
Definition primary_checks : list (list ActivityEntry → finding) :=
  [check_excessive_retries; check_output_loop; check_gate_loop; check_compile_loop;
   check_empty_output; check_no_progress].
Definition extended_checks : list (list ActivityEntry → finding) :=
  [check_review_loop; check_iteration_loop; check_silence_timeout; check_compile_fail_threshold;
   check_task_stall; check_context_pressure].

Fixpoint first_finding (checks : list (list ActivityEntry → finding))
    (history : list ActivityEntry) : finding :=
  match checks with
  | [] => quiet
  | check :: rest =>
      match check history with
      | Some None => first_finding rest history
      | r => r
      end
  end.

Fixpoint all_findings (checks : list (list ActivityEntry → finding))
    (history : list ActivityEntry) : option (list StuckSignal) :=
  match checks with
  | [] => Some []
  | check :: rest =>
      match check history with
      | None => None
      | Some r => (λ l, option_list r ++ l) <$> all_findings rest history
      end
  end.

Definition check_stuck (history : list ActivityEntry) : finding :=
  match history with [] => quiet | _ => first_finding primary_checks history end.

Definition check_all (history : list ActivityEntry) : option (list StuckSignal) :=
  match history with
  | [] => Some []
  | _ => all_findings (primary_checks ++ extended_checks) history
  end.
End Detector.

(** ** Reflection *)

Module OperatingFrequency.
Inductive t : Type := Gamma | Theta | Delta.
End OperatingFrequency.

Module MetaCognitionAction.
Inductive t : Type := Continue | AdjustStrategy | Escalate.

#[global] Instance t_eq_dec : EqDecision t.
Proof. solve_decision. Defined.

Definition label (a : t) : string :=
  match a with
  | Continue => "continue" | AdjustStrategy => "adjust_strategy" | Escalate => "escalate"
  end.
End MetaCognitionAction.
Abbreviation MetaCognitionAction := MetaCognitionAction.t.
Module MCA := MetaCognitionAction.

Module MetaCognitionAssessment.
Record t : Type := mk {
  frequency : OperatingFrequency.t;
  action : MetaCognitionAction;
  reason : string;
  stuck_kinds : list StuckKind;
  primary_signal : option StuckSignal;
  stuck_signals : list StuckSignal;
  iterations_without_progress : nat;
  repeated_output_count : nat;
  repeated_gate_failure_count : nat;
}.
End MetaCognitionAssessment.
Abbreviation MetaCognitionAssessment := MetaCognitionAssessment.t.
Module MC := MetaCognitionAssessment.

Definition kind_in (kinds : list StuckKind) (s : option StuckSignal) : bool :=
  match s with Some s => bool_decide (SS.kind s ∈ kinds) | None => false end.

Definition escalating_kinds : list StuckKind :=
  [SK.GateLoop; SK.CompileLoop; SK.ExcessiveRetries; SK.CompileFailThreshold; SK.ReviewLoop].
Definition adjusting_kinds : list StuckKind :=
  [SK.OutputLoop; SK.EmptyOutput; SK.NoProgress; SK.IterationLoop; SK.SilenceTimeout;
   SK.TaskStall; SK.ContextPressure].

Definition classify_meta_cognition_action (primary_signal : option StuckSignal)
    (iterations_without_progress repeated_output_count repeated_gate_failure_count : nat)
    (thresholds : StuckThresholds) : MetaCognitionAction :=
  if kind_in escalating_kinds primary_signal
     || (ST.gate_loop_count thresholds <=? repeated_gate_failure_count)%nat then MCA.Escalate
  else if (3 <=? iterations_without_progress)%nat
          || (ST.output_loop_count thresholds <=? repeated_output_count)%nat
          || kind_in adjusting_kinds primary_signal then MCA.AdjustStrategy
  else MCA.Continue.

Definition meta_cognition_reason (action : MetaCognitionAction)
    (primary_signal : option StuckSignal)
    (iterations_without_progress repeated_output_count repeated_gate_failure_count : nat) :
    string :=
  match action with
  | MCA.Continue => "no stuck pattern detected; continue current strategy"
  | MCA.AdjustStrategy =>
      if (0 <? repeated_output_count)%nat then
        fmt_nat repeated_output_count +:+ " consecutive identical outputs and "
          +:+ fmt_nat iterations_without_progress
          +:+ " iterations without progress; adjust strategy"
      else if (0 <? iterations_without_progress)%nat then
        fmt_nat iterations_without_progress
          +:+ " iterations without progress; adjust strategy"
      else
        match primary_signal with
        | Some s => SS.description s +:+ "; adjust strategy"
        | None => "progress has stalled; adjust strategy"
        end
  | MCA.Escalate =>
      if (0 <? repeated_gate_failure_count)%nat then
        fmt_nat repeated_gate_failure_count
          +:+ " repeated gate failures; escalate to a stronger model or broader context"
      else
        match primary_signal with
        | Some s =>
            SS.description s +:+ "; escalate to a stronger model or broader context"
        | None =>
            "gate failure pattern detected; escalate to a stronger model or broader context"
        end
  end.

Definition meta_cognition {DT : DebugText} (thresholds : StuckThresholds)
    (history : list ActivityEntry) : option MetaCognitionAssessment :=
  match check_all thresholds history, check_stuck thresholds history with
  | Some stuck_signals, Some primary_signal =>
      let iterations := trailing_no_progress_iterations history in
      let outputs := trailing_output_repetition_count history in
      let gates := trailing_gate_failure_count history in
      let action :=
        classify_meta_cognition_action primary_signal iterations outputs gates thresholds in
      Some (MC.mk OperatingFrequency.Theta action
        (meta_cognition_reason action primary_signal iterations outputs gates)
        (SS.kind <$> stuck_signals) primary_signal stuck_signals iterations outputs gates)
  | _, _ => None
  end.

Section signals.
Context `{J : Json, EP : !EngramParts, BS : !BodySerde, B3 : !Blake3, EL : !ExpLib}.
(** What serde derives for an assessment; the code expects it not to fail. *)
Context (assessment_to_value : MetaCognitionAssessment → option json).

Definition assessment_signal (kind : string) (now : Z) (a : MetaCognitionAssessment) :
    option Engram :=
  (λ v, build now
    (with_tag "reason" (MC.reason a)
      (with_tag "action" (MCA.label (MC.action a))
        (with_tag "frequency" "theta"
          (with_body (Body.Json v) (builder (Kind.Custom kind)))))))
    <$> assessment_to_value a.

(** The outer option is the panic of [expect]. *)
Definition to_signal (now : Z) (a : MetaCognitionAssessment) : option (option Engram) :=
  match MC.action a with
  | MCA.Continue => Some None
  | _ => Some <$> assessment_signal "roko.meta_cognition" now a
  end.

Definition to_engram (now : Z) (a : MetaCognitionAssessment) : option (option Engram) :=
  match to_signal now a with
  | None => None
  | Some None => Some None
  | Some (Some _) => Some <$> assessment_signal "conductor.meta_cognition" now a
  end.
End signals.

Module MetaCognitionHook.
Record t : Type := mk { detector : StuckThresholds; no_progress_iterations_threshold : nat }.

Definition default : t := mk ST.default 3.

(** Panics on a zero. *)
Definition with_no_progress_iterations_threshold (threshold : nat) (h : t) : option t :=
  if (0 <? threshold)%nat then Some (mk (detector h) threshold) else None.

Definition assess {DT : DebugText} (h : t) (history : list ActivityEntry) :
    option MetaCognitionAssessment := meta_cognition (detector h) history.
End MetaCognitionHook.
Abbreviation MetaCognitionHook := MetaCognitionHook.t.
Module MH := MetaCognitionHook.

(** ** The filter *)

Module CooldownFilter.
Record t : Type := mk { cooldown_ms : N; last_fire : gmap StuckKind Z }.

Definition default : t := mk 120000 ∅.
Definition with_cooldown_ms (cooldown_ms : N) : t := mk cooldown_ms ∅.

Definition should_fire (f : t) (kind : StuckKind) (now_ms : Z) : bool :=
  match last_fire f !! kind with
  | None => true
  | Some last =>
      let elapsed := sat_i64 (now_ms - last) in
      (cooldown_ms f <=? i64_as_u64 elapsed)%N
  end.

Definition record_fire (kind : StuckKind) (now_ms : Z) (f : t) : t :=
  mk (cooldown_ms f) (<[kind := now_ms]> (last_fire f)).

Definition try_fire (kind : StuckKind) (now_ms : Z) (f : t) : t * bool :=
  if should_fire f kind now_ms then (record_fire kind now_ms f, true) else (f, false).
End CooldownFilter.
Abbreviation CooldownFilter := CooldownFilter.t.
Module CF := CooldownFilter.

(** ** Streaks *)

Section streaks.
Context {A : Type} (f : A → bool).

Lemma take_while_ge n l :
  (n ≤ length (take_while f l))%nat ↔ (n ≤ length l)%nat ∧ Forall (λ x, f x = true) (take n l).
Proof.
  revert n. induction l as [|x l IH]; intros [|n]; cbn [take_while take length].
  - by split.
  - split; [lia|intros [? _]; lia].
  - split; [split; [lia|constructor]|lia].
  - destruct (f x) eqn:E; cbn [length]; rewrite Forall_cons.
    + rewrite <- !Nat.succ_le_mono, IH. tauto.
    + split; [lia|]. intros (_ & ? & _). congruence.
Qed.

Lemma take_while_length l : (length (take_while f l) ≤ length l)%nat.
Proof. by apply (take_while_ge (length (take_while f l)) l). Qed.

(** The last [n] elements of a list all pass. *)
Definition last_all (n : nat) (l : list A) : Prop :=
  ∃ before recent, l = before ++ recent ∧ length recent = n ∧ Forall (λ x, f x = true) recent.

Lemma last_all_reverse n l :
  last_all n l ↔ (n ≤ length l)%nat ∧ Forall (λ x, f x = true) (take n (reverse l)).
Proof.
  split.
  - intros (before & recent & -> & <- & H). rewrite length_app. split; [lia|].
    rewrite reverse_app, take_app_length' by (by rewrite length_reverse). by apply Forall_reverse.
  - intros [Hn H]. exists (take (length l - n) l), (drop (length l - n) l).
    split; [by rewrite take_drop|]. rewrite length_drop. split; [lia|].
    rewrite take_reverse in H. by apply Forall_reverse.
Qed.

Lemma streak_ge n l : (n ≤ length (take_while f (reverse l)))%nat ↔ last_all n l.
Proof. by rewrite take_while_ge, length_reverse, last_all_reverse. Qed.
End streaks.

Lemma last_all_ext {A} (f g : A → bool) n l :
  (∀ x, f x = true ↔ g x = true) → last_all f n l ↔ last_all g n l.
Proof.
  intros H. unfold last_all. setoid_rewrite Forall_forall. by setoid_rewrite H.
Qed.

(** ** When each heuristic fires

    A check is not quiet when it fires, or panics over the text of its finding. *)

Section checks.
Context {DT : DebugText} (th : StuckThresholds).
Implicit Types (h : list ActivityEntry).

(** The last entries all carry one output. *)
Lemma output_loop_fires h :
  (1 ≤ ST.output_loop_count th)%nat →
  check_output_loop th h ≠ quiet ↔
    ∃ hash, hash ≠ "" ∧
      last_all (λ e, string_eqb (AE.output_hash e) hash) (ST.output_loop_count th) h.
Proof.
  intros Hth. unfold check_output_loop, count_consecutive_from_end.
  destruct (Nat.ltb_spec (length h) (ST.output_loop_count th)) as [Hlt|Hge].
  { split; [done|]. intros (hash & _ & before & recent & -> & Hn & _).
    rewrite length_app in Hlt. lia. }
  destruct (last h) as [l|] eqn:El.
  2: { apply last_None in El as ->. cbn in Hge. lia. }
  apply last_Some in El as [h' ->].
  assert (∀ hash n, (1 ≤ n)%nat → last_all (λ e, string_eqb (AE.output_hash e) hash) n (h' ++ [l]) →
    hash = AE.output_hash l) as Hlast.
  { intros hash n Hn (before & recent & E & Hl & Hf).
    destruct recent as [|x r _] using rev_ind; [cbn in Hl; lia|].
    rewrite app_assoc in E. apply app_inj_tail in E as [_ <-].
    apply Forall_app in Hf as [_ Hf]. rewrite Forall_singleton in Hf.
    unfold string_eqb in Hf. by apply bool_decide_eq_true in Hf. }
  destruct (AE.output_hash l) as [|a s] eqn:Eh; cbn [str_is_empty].
  { split; [done|]. intros (hash & Hne & H). apply Hlast in H; [congruence|done]. }
  destruct (Nat.leb_spec (ST.output_loop_count th)
    (length (take_while (λ e, string_eqb (AE.output_hash e) (String a s)) (reverse (h' ++ [l]))))) as [Hle|Hlt].
  - split; [|intros _; repeat case_match; done].
    intros _. exists (String a s). split; [done|]. by apply streak_ge.
  - split; [done|]. intros (hash & _ & H). specialize (Hlast _ _ Hth H). subst hash.
    apply streak_ge in H. lia.
Qed.

Lemma output_loop_count_fires h :
  (1 ≤ ST.output_loop_count th)%nat →
  check_output_loop th h ≠ quiet ↔
    (ST.output_loop_count th ≤ trailing_output_repetition_count h)%nat.
Proof.
  intros Hth. unfold check_output_loop, trailing_output_repetition_count, count_consecutive_from_end.
  destruct (last h) as [l|] eqn:El; cbn [fmap option_fmap option_map].
  2: { destruct (_ <? _)%nat; split; try done; lia. }
  destruct (str_is_empty (AE.output_hash l)).
  { destruct (_ <? _)%nat; split; try done; lia. }
  set (f := λ e, string_eqb (AE.output_hash e) (AE.output_hash l)).
  pose proof (take_while_length f (reverse h)) as Hl. rewrite length_reverse in Hl.
  destruct (Nat.ltb_spec (length h) (ST.output_loop_count th)); [split; [done|lia]|].
  destruct (Nat.leb_spec (ST.output_loop_count th) (length (take_while f (reverse h)))).
  - split; [done|]. intros _. repeat case_match; done.
  - split; [done|lia].
Qed.

(** No change for the time, since the last entry that had one or since the first. *)
Lemma no_progress_fires h :
  check_no_progress th h ≠ quiet ↔
    (2 ≤ length h)%nat ∧ ∃ first l, head h = Some first ∧ last h = Some l ∧
      (ST.no_progress_ms th ≤ sub_i64 (AE.timestamp_ms l)
         (AE.timestamp_ms (default first (List.find (λ e, (0 <? AE.files_changed e)%N) (reverse h)))))%Z.
Proof.
  unfold check_no_progress. destruct (Nat.ltb_spec (length h) 2) as [Hlt|Hge].
  { split; [done|intros [? _]; lia]. }
  destruct h as [|first h]; [cbn in Hge; lia|]. cbn [head].
  destruct (last (first :: h)) as [l|] eqn:El; [|by apply last_None in El].
  set (found := List.find _ (reverse (first :: h))).
  assert (match found with Some e => AE.timestamp_ms e | None => AE.timestamp_ms first end
    = AE.timestamp_ms (default first found)) as -> by (by destruct found).
  destruct (Z.leb_spec (ST.no_progress_ms th)
    (sub_i64 (AE.timestamp_ms l) (AE.timestamp_ms (default first found)))) as [H|H].
  - split; [|done]. intros _. split; [done|]. by exists first, l.
  - split; [done|]. intros (_ & f & l' & [= <-] & [= <-] & H'). lia.
Qed.

(** The last results of the gates are one failure. *)
Lemma gate_loop_fires h :
  check_gate_loop th h ≠ quiet ↔
    (1 ≤ trailing_gate_failure_count h)%nat
    ∧ (ST.gate_loop_count th ≤ trailing_gate_failure_count h)%nat.
Proof.
  unfold check_gate_loop, trailing_gate_failure_count.
  set (l := gate_results h). destruct l as [|r l'] eqn:El; subst l; cbn [head].
  { destruct (_ <? _)%nat; split; try done; lia. }
  destruct (str_starts_with "fail" r); cbn [negb].
  2: { destruct (_ <? _)%nat; split; try done; lia. }
  assert (1 ≤ length (take_while (λ r0, string_eqb r0 r) (r :: l')))%nat as H1.
  { cbn. unfold string_eqb at 1. rewrite bool_decide_eq_true_2 by done. cbn. lia. }
  pose proof (take_while_length (λ r0, string_eqb r0 r) (r :: l')) as H2.
  destruct (Nat.ltb_spec (length (r :: l')) (ST.gate_loop_count th)) as [Hlt|Hge].
  { split; [done|]. intros [_ H]. lia. }
  destruct (Nat.leb_spec (ST.gate_loop_count th)
    (length (take_while (λ r0, string_eqb r0 r) (r :: l')))); split; try done; lia.
Qed.

(** The last compile failures are one failure; other results between them are skipped. *)
Lemma compile_loop_fires h :
  check_compile_loop th h ≠ quiet ↔
    ∃ r, head (List.filter (str_starts_with "fail:compile") (gate_results h)) = Some r
      ∧ (ST.compile_loop_count th ≤
           length (take_while (λ r', string_eqb r' r)
             (List.filter (str_starts_with "fail:compile") (gate_results h))))%nat.
Proof.
  unfold check_compile_loop. set (l := List.filter _ _).
  destruct (Nat.ltb_spec (length l) (ST.compile_loop_count th)) as [Hlt|Hge].
  { split; [done|]. intros (r & _ & H).
    pose proof (take_while_length (λ r', string_eqb r' r) l). lia. }
  destruct (head l) as [r|]; [|split; [done|intros (? & ? & _); done]].
  destruct (Nat.leb_spec (ST.compile_loop_count th) (length (take_while (λ r', string_eqb r' r) l))).
  - split; [intros _; by exists r|done].
  - split; [done|]. intros (r' & [= <-] & ?). lia.
Qed.

(** The checks that count a property of the last entries. *)
Lemma streak_check_fires (f : ActivityEntry → bool) n h (r : finding) :
  r ≠ quiet →
  (if (length h <? n)%nat then quiet
   else if (n <=? count_consecutive_from_end f h)%nat then r else quiet) ≠ quiet ↔ last_all f n h.
Proof.
  intros Hr. rewrite <- streak_ge. unfold count_consecutive_from_end.
  pose proof (take_while_length f (reverse h)) as Hl. rewrite length_reverse in Hl.
  destruct (Nat.ltb_spec (length h) n); [split; [done|lia]|].
  destruct (Nat.leb_spec n (length (take_while f (reverse h)))); split; try done; lia.
Qed.

Lemma empty_output_fires h :
  check_empty_output th h ≠ quiet ↔ last_all empty_output (ST.empty_output_count th) h.
Proof. apply streak_check_fires. by destruct (streak_duration _ _). Qed.

Lemma review_loop_fires h :
  check_review_loop th h ≠ quiet ↔ last_all revised (ST.review_loop_threshold th) h.
Proof. by apply streak_check_fires. Qed.

Lemma compile_fail_threshold_fires h :
  check_compile_fail_threshold th h ≠ quiet ↔
    last_all compile_failed (ST.compile_fail_threshold th) h.
Proof. by apply streak_check_fires. Qed.

Lemma max_iteration_ge m n h :
  (n ≤ foldl (λ m e, N.max m (AE.iteration e)) m h)%N ↔ (n ≤ m)%N ∨ ∃ e, e ∈ h ∧ (n ≤ AE.iteration e)%N.
Proof.
  revert m. induction h as [|e h IH]; intros m; cbn [foldl].
  - split; [by left|]. intros [?|(e & He & _)]; [done|]. by apply elem_of_nil in He.
  - rewrite IH. setoid_rewrite elem_of_cons. split.
    + intros [H|(e' & He' & H)]; [|right; exists e'; auto].
      destruct (N.max_spec m (AE.iteration e)) as [[_ E]|[_ E]]; rewrite E in H; [|by left].
      right. exists e. auto.
    + intros [H|(e' & [->|He'] & H)]; [left; lia|left; lia|]. right. by exists e'.
Qed.

(** Some iteration has reached the limit. *)
Lemma excessive_retries_fires h :
  (1 ≤ ST.excessive_retry_count th)%N →
  check_excessive_retries th h ≠ quiet ↔
    ∃ e, e ∈ h ∧ (ST.excessive_retry_count th ≤ AE.iteration e)%N.
Proof.
  intros Hth. unfold check_excessive_retries.
  destruct h as [|first h].
  { split; [done|]. intros (e & He & _). by apply elem_of_nil in He. }
  cbn [head]. destruct (last (first :: h)) as [l|] eqn:El; [|by apply last_None in El].
  pose proof (max_iteration_ge 0 (ST.excessive_retry_count th) (first :: h)) as H.
  unfold max_iteration.
  destruct (N.leb_spec (ST.excessive_retry_count th)
    (foldl (λ m e, N.max m (AE.iteration e)) 0%N (first :: h))) as [Hle|Hlt].
  - split; [|done]. intros _. destruct (proj1 H Hle) as [?|?]; [lia|done].
  - split; [done|]. intros He. assert (∀ a b : N, (a ≤ b)%N → (b < a)%N → False) as Hab by lia.
    exfalso. eapply Hab; [|exact Hlt]. apply H. by right.
Qed.

(** Nothing came for the time before the last entry. *)
Lemma silence_timeout_fires h :
  (1 ≤ ST.silence_timeout_ms th)%N →
  check_silence_timeout th h ≠ quiet ↔
    ∃ before prev l, h = before ++ [prev; l] ∧
      (Z.of_N (ST.silence_timeout_ms th) ≤ sat_i64 (AE.timestamp_ms l - AE.timestamp_ms prev))%Z.
Proof.
  intros Hth. unfold check_silence_timeout. split.
  - destruct (reverse h) as [|l [|prev rest]] eqn:E; try done.
    apply (f_equal reverse) in E. rewrite reverse_involutive, !reverse_cons, <- app_assoc in E.
    destruct (Z.ltb_spec (sat_i64 (AE.timestamp_ms l - AE.timestamp_ms prev)) 0); [done|].
    destruct (N.leb_spec (ST.silence_timeout_ms th)
      (Z.to_N (sat_i64 (AE.timestamp_ms l - AE.timestamp_ms prev)))); [|done].
    intros _. exists (reverse rest), prev, l. split; [done|]. lia.
  - intros (before & prev & l & -> & H). rewrite reverse_app. cbn [reverse rev_append app].
    change (reverse [prev; l]) with [l; prev]. cbn [app].
    destruct (Z.ltb_spec (sat_i64 (AE.timestamp_ms l - AE.timestamp_ms prev)) 0); [lia|].
    destruct (N.leb_spec (ST.silence_timeout_ms th)
      (Z.to_N (sat_i64 (AE.timestamp_ms l - AE.timestamp_ms prev)))); [done|lia].
Qed.

(** *** Cycles *)

Lemma repeats_ge fuel p l k :
  p ≠ [] → (length l ≤ fuel)%nat →
  (k ≤ repeats_in fuel p l)%nat ↔ ∃ rest, l = concat (replicate k p) ++ rest.
Proof.
  intros Hp. assert (1 ≤ length p)%nat as Hlp by (destruct p; [done|cbn; lia]).
  revert l k. induction fuel as [|fuel IH]; intros l k Hl; cbn [repeats_in].
  - destruct l as [|]; [|cbn in Hl; lia]. destruct k as [|k].
    + split; [|lia]. intros _. by exists [].
    + split; [lia|]. intros (rest & E). apply (f_equal length) in E. cbn in E.
      rewrite !length_app in E. lia.
  - destruct k as [|k]; [split; [intros _; by exists l|lia]|]. cbn [replicate concat].
    case_bool_decide as Ht.
    + rewrite <- Nat.succ_le_mono, IH by (rewrite length_drop; destruct l; cbn in *; lia).
      split; intros (rest & E); exists rest.
      * by rewrite <- (take_drop (length p) l), Ht, E, app_assoc.
      * by rewrite E, <- app_assoc, drop_app_length.
    + split; [lia|]. intros (rest & E). destruct Ht. rewrite E, <- app_assoc.
      by apply take_app_length'.
Qed.

Lemma leading_repeats_ge p l k :
  p ≠ [] → (k ≤ leading_repeats p l)%nat ↔ ∃ rest, l = concat (replicate k p) ++ rest.
Proof. intros Hp. by apply repeats_ge. Qed.

Lemma length_phases h : (length (phases h) ≤ length h)%nat.
Proof.
  unfold phases. etransitivity; [apply filter_length_le|]. by rewrite length_fmap, length_reverse.
Qed.

(** The phases, read backwards, begin with some cycle repeated as often as the threshold. *)
Lemma phase_loop_fires h :
  (2 ≤ ST.iteration_loop_threshold th)%nat →
  check_iteration_loop th h ≠ quiet ↔
    ∃ cycle rest, cycle ≠ [] ∧
      phases h = concat (replicate (ST.iteration_loop_threshold th) cycle) ++ rest.
Proof.
  intros Hth. unfold check_iteration_loop. set (n := ST.iteration_loop_threshold th) in *.
  pose proof (length_phases h) as Hph. set (ps := phases h) in *.
  assert (∀ cycle rest, cycle ≠ [] → ps = concat (replicate n cycle) ++ rest →
    (n ≤ length ps ∧ 2 * length cycle ≤ length ps)%nat) as Hlen.
  { intros cycle rest Hne E. apply (f_equal length) in E.
    rewrite length_app, length_concat, fmap_replicate, sum_list_replicate in E.
    destruct cycle; [done|]. cbn [length] in *. nia. }
  destruct (Nat.ltb_spec (length h) n) as [Hlt|_].
  { split; [done|]. intros (cycle & rest & Hne & E). destruct (Hlen _ _ Hne E). lia. }
  destruct (Nat.ltb_spec (length ps) n) as [Hlt|_].
  { split; [done|]. intros (cycle & rest & Hne & E). destruct (Hlen _ _ Hne E). lia. }
  assert (∀ k, (1 ≤ k)%nat → (k ≤ length ps / 2)%nat → take k ps ≠ []) as Hne.
  { intros k Hk Hk2. destruct ps; [cbn in Hk2; lia|]. destruct k; [lia|done]. }
  destruct (List.find _ _) as [k|] eqn:Ef.
  - split; [|done]. intros _. apply find_some in Ef as [Hin Hc]. apply in_seq in Hin.
    apply Nat.leb_le, leading_repeats_ge in Hc as [rest E]; [|apply Hne; lia].
    exists (take k ps), rest. split; [apply Hne; lia|done].
  - split; [done|]. intros (cycle & rest & Hc & E). exfalso.
    destruct (Hlen _ _ Hc E) as [_ H2].
    assert (take (length cycle) ps = cycle) as Ht.
    { rewrite E. destruct n; [lia|]. cbn. rewrite <- app_assoc. by apply take_app_length'. }
    pose proof (find_none _ _ Ef (length cycle)) as Hno. cbv beta in Hno.
    rewrite Ht in Hno. rewrite (proj2 (Nat.leb_le _ _)) in Hno.
    + discriminate Hno. apply in_seq. assert (1 ≤ length cycle)%nat by (destruct cycle; [done|cbn; lia]).
      pose proof (Nat.div_le_lower_bound (length ps) 2 (length cycle)). lia.
    + apply leading_repeats_ge; [done|]. by exists rest.
Qed.

(** The task of the last entry has run for the time; a first entry of the task with a later
    clock makes the cast wrap. *)
Lemma task_stall_fires h :
  check_task_stall th h ≠ quiet ↔
    (2 ≤ length h)%nat ∧ ∃ l first, last h = Some l ∧ AE.task_id l ≠ "" ∧
      List.find (λ e, string_eqb (AE.task_id e) (AE.task_id l)) h = Some first ∧
      (ST.task_stall_ms th ≤ i64_as_u64 (sat_i64 (AE.timestamp_ms l - AE.timestamp_ms first)))%N.
Proof.
  unfold check_task_stall. destruct (Nat.ltb_spec (length h) 2) as [Hlt|Hge].
  { split; [done|intros [? _]; lia]. }
  destruct (last h) as [l|]; [|split; [done|by intros (_ & ? & ? & ? & _)]].
  destruct (str_is_empty (AE.task_id l)) eqn:Ee.
  { split; [done|]. intros (_ & ? & ? & [= <-] & Hne & _). by destruct (AE.task_id l). }
  destruct (List.find (λ e, string_eqb (AE.task_id e) (AE.task_id l)) h) as [first|] eqn:Ef.
  2: { split; [done|]. intros (_ & ? & ? & [= <-] & _ & H & _). congruence. }
  destruct (N.leb_spec (ST.task_stall_ms th)
    (i64_as_u64 (sat_i64 (AE.timestamp_ms l - AE.timestamp_ms first)))) as [H|H].
  - split; [|by destruct (truncate_str _ _)]. intros _. split; [done|]. exists l, first.
    split; [done|]. split; [by destruct (AE.task_id l)|done].
  - split; [done|]. intros (_ & ? & ? & [= <-] & _ & E & H'). rewrite Ef in E. injection E as <-. lia.
Qed.
End checks.

(** ** The detector *)

Section detector.
Context {DT : DebugText} (th : StuckThresholds).
Implicit Types (h : list ActivityEntry) (s : StuckSignal).

Definition primary_kinds : list StuckKind :=
  [SK.ExcessiveRetries; SK.OutputLoop; SK.GateLoop; SK.CompileLoop; SK.EmptyOutput;
   SK.NoProgress].
Definition extended_kinds : list StuckKind :=
  [SK.ReviewLoop; SK.IterationLoop; SK.SilenceTimeout; SK.CompileFailThreshold; SK.TaskStall;
   SK.ContextPressure].

(** Each check reports its own kind. *)
Definition reports (check : list ActivityEntry → finding) (k : StuckKind) : Prop :=
  ∀ h s, check h = Some (Some s) → SS.kind s = k.

Ltac reports_own :=
  intros h s; cbv delta [check_excessive_retries check_output_loop check_gate_loop
    check_compile_loop check_empty_output check_no_progress check_review_loop
    check_iteration_loop check_silence_timeout check_compile_fail_threshold check_task_stall
    check_context_pressure quiet fire] beta zeta;
  intros H; repeat case_match; simplify_eq; reflexivity.

Lemma primary_reports : Forall2 reports (primary_checks th) primary_kinds.
Proof. repeat constructor; reports_own. Qed.

Lemma extended_reports : Forall2 reports (extended_checks th) extended_kinds.
Proof. repeat constructor; reports_own. Qed.

Lemma all_findings_kinds checks kinds h l :
  Forall2 reports checks kinds → all_findings checks h = Some l →
  sublist (SS.kind <$> l) kinds.
Proof.
  intros Hr. revert l. induction Hr as [|check k checks kinds Hk _ IH]; intros l; cbn [all_findings].
  { by intros [= <-]. }
  destruct (check h) as [r|] eqn:E; [|done].
  destruct (all_findings checks h) as [l'|]; [|done]. intros [= <-].
  destruct r as [s|]; [change (option_list (Some s) ++ l') with (s :: l')|by apply sublist_cons, IH].
  rewrite fmap_cons, (Hk _ _ E). by apply sublist_skip, IH.
Qed.

Lemma all_findings_app checks checks' h l :
  all_findings (checks ++ checks') h = Some l →
  ∃ l1 l2, all_findings checks h = Some l1 ∧ all_findings checks' h = Some l2 ∧ l = l1 ++ l2.
Proof.
  revert l. induction checks as [|check checks IH]; intros l; cbn [all_findings app].
  { intros H. by exists [], l. }
  destruct (check h) as [r|]; [|done].
  destruct (all_findings (checks ++ checks') h) as [l'|]; [|done]. intros [= <-].
  destruct (IH l' eq_refl) as (l1 & l2 & -> & H2 & ->).
  exists (option_list r ++ l1), l2. by rewrite app_assoc.
Qed.

Lemma first_of_all checks h l :
  all_findings checks h = Some l → first_finding checks h = Some (head l).
Proof.
  revert l. induction checks as [|check checks IH]; intros l; cbn [all_findings first_finding].
  { by intros [= <-]. }
  destruct (check h) as [[s|]|]; [..|done]; destruct (all_findings checks h) as [l'|]; try done;
    intros [= <-]; [done|]. by apply IH.
Qed.

Lemma Forall_sublist {A} (P : A → Prop) l l' : Forall P l → sublist l' l → Forall P l'.
Proof. rewrite !Forall_forall. intros H Hs x Hx. apply H. by eapply elem_of_sublist. Qed.

Lemma filter_kinds (kinds : list StuckKind) (b : bool) (l : list StuckSignal) :
  Forall (λ k, bool_decide (k ∈ kinds) = b) (SS.kind <$> l) →
  List.filter (λ s, bool_decide (SS.kind s ∈ kinds)) l = if b then l else [].
Proof.
  rewrite Forall_fmap. induction 1 as [|s l H _ IH]; cbn [List.filter]; [by destruct b|].
  cbn in H. rewrite H, IH. by destruct b.
Qed.

(** What the detector reports is the first of all findings, in the order of the checks, that
    is of one of the six primary kinds; no kind is found twice. *)
Theorem check_stuck_is_first h l :
  check_all th h = Some l →
  NoDup (SS.kind <$> l)
  ∧ check_stuck th h
    = Some (head (List.filter (λ s, bool_decide (SS.kind s ∈ primary_kinds)) l)).
Proof.
  unfold check_all, check_stuck. destruct h as [|e h].
  { intros [= <-]. split; [constructor|done]. }
  intros Hl. pose proof Hl as Hk. apply all_findings_app in Hl as (l1 & l2 & H1 & H2 & ->).
  pose proof (all_findings_kinds _ _ _ _ primary_reports H1) as K1.
  pose proof (all_findings_kinds _ _ _ _ extended_reports H2) as K2.
  split.
  - apply sublist_NoDup with (primary_kinds ++ extended_kinds).
    + apply (bool_decide_unpack _). vm_compute. exact I.
    + rewrite fmap_app. by apply sublist_app.
  - rewrite (first_of_all _ _ _ H1), List.filter_app.
    rewrite (filter_kinds primary_kinds true l1), (filter_kinds primary_kinds false l2).
    + by rewrite app_nil_r.
    + eapply Forall_sublist; [|exact K2]. repeat constructor.
    + eapply Forall_sublist; [|exact K1]. repeat constructor.
Qed.
End detector.

(** ** Reflection *)

Section reflection.
Context {DT : DebugText} (th : StuckThresholds).
Implicit Types (h : list ActivityEntry).

(** The signal found first is that of some check, of that check's kind, and the checks before
    it are quiet. *)
Lemma first_finding_index checks kinds h s :
  Forall2 reports checks kinds → first_finding checks h = Some (Some s) →
  ∃ i check, checks !! i = Some check ∧ kinds !! i = Some (SS.kind s)
    ∧ check h = Some (Some s) ∧ Forall (λ c, c h = quiet) (take i checks).
Proof.
  intros Hr. induction Hr as [|check k checks kinds Hk _ IH]; [done|].
  cbn [first_finding]. destruct (check h) as [[s'|]|] eqn:E; [|intros H|done].
  - intros [= ->]. exists 0%nat, check. rewrite (Hk h s E). repeat split; [done|constructor].
  - destruct (IH H) as (i & c & Hi & Hik & Hs & Hq). exists (S i), c. repeat split; try done.
    by constructor.
Qed.

Lemma first_finding_quiet checks h :
  first_finding checks h = quiet ↔ Forall (λ c, c h = quiet) checks.
Proof.
  induction checks as [|c checks IH]; [by split; [constructor|]|].
  rewrite Forall_cons. cbn [first_finding]. destruct (c h) as [[s|]|] eqn:E.
  - split; [done|]. by intros [? _].
  - rewrite IH. split; [done|by intros [_ ?]].
  - split; [done|]. by intros [? _].
Qed.

Lemma classify_spec p i o g :
  let action := classify_meta_cognition_action p i o g th in
  (action = MCA.Escalate ↔ kind_in escalating_kinds p = true ∨ (ST.gate_loop_count th ≤ g)%nat)
  ∧ (action = MCA.Continue ↔
       kind_in escalating_kinds p = false ∧ (g < ST.gate_loop_count th)%nat ∧ (i < 3)%nat
       ∧ (o < ST.output_loop_count th)%nat ∧ kind_in adjusting_kinds p = false).
Proof.
  cbv zeta. unfold classify_meta_cognition_action.
  destruct (kind_in escalating_kinds p), (kind_in adjusting_kinds p),
    (Nat.leb_spec (ST.gate_loop_count th) g), (Nat.leb_spec 3 i),
    (Nat.leb_spec (ST.output_loop_count th) o); cbn [orb];
    (split; [split; [try done; auto|try done; intros [?|?]; try done; lia]
            |split; [try done; auto with lia|try done; intros (? & ? & ? & ? & ?); try done; lia]]).
Qed.

(** An assessment of a history lets the agent continue exactly when the detector finds nothing
    and fewer than three iterations have passed without a change, and escalates exactly on too
    many iterations, a loop of gate failures, or a loop of compile failures that is not also a
    loop of outputs: the six extended heuristics decide nothing. *)
Theorem meta_cognition_spec h a :
  h ≠ [] → (1 ≤ ST.gate_loop_count th)%nat → (1 ≤ ST.output_loop_count th)%nat →
  meta_cognition th h = Some a →
  (MC.action a = MCA.Continue ↔
     check_stuck th h = quiet ∧ (trailing_no_progress_iterations h < 3)%nat)
  ∧ (MC.action a = MCA.Escalate ↔
     check_excessive_retries th h ≠ quiet ∨ check_gate_loop th h ≠ quiet
     ∨ check_output_loop th h = quiet ∧ check_compile_loop th h ≠ quiet).
Proof.
  intros Hne Hg Ho. unfold meta_cognition.
  destruct (check_all th h) as [l|]; [|done].
  destruct (check_stuck th h) as [p|] eqn:Ep; [|done]. intros [= <-]. cbn [MC.action].
  assert (check_stuck th h = first_finding (primary_checks th) h) as Hc by (by destruct h).
  rewrite Hc in Ep. pose proof (gate_loop_fires th h) as Hgate.
  pose proof (output_loop_count_fires th h Ho) as Hout.
  destruct (classify_spec p (trailing_no_progress_iterations h)
    (trailing_output_repetition_count h) (trailing_gate_failure_count h)) as [He Hcont].
  rewrite He, Hcont. clear He Hcont.
  destruct p as [s|].
  - destruct (first_finding_index _ _ _ _ (primary_reports th) Ep) as (i & check & Hi & Hk & Hs & Hq).
    assert (kind_in escalating_kinds (Some s) = match i with 0 | 2 | 3 => true | _ => false end%nat
      ∧ kind_in adjusting_kinds (Some s) = match i with 1 | 4 | 5 => true | _ => false end%nat) as [-> ->].
    { unfold kind_in. destruct i as [|[|[|[|[|[|i]]]]]]; try done; injection Hk as <-; done. }
    clear Ep Hk. unfold quiet in *.
    destruct i as [|[|[|[|[|[|i]]]]]]; try done; cbn in Hi; injection Hi as <-; cbn in Hq;
      rewrite ?Forall_cons in Hq; rewrite ?Hs in *; cbv match; intuition (try congruence; try lia).
  - apply first_finding_quiet in Ep. unfold primary_checks in Ep. rewrite !Forall_cons in Ep.
    destruct Ep as (E1 & E2 & E3 & E4 & _). rewrite E2 in Hout. rewrite E3 in Hgate.
    rewrite E1, E2, E3, E4. unfold quiet in *. cbn [kind_in].
    assert (trailing_gate_failure_count h < ST.gate_loop_count th)%nat as Hg'.
    { apply Nat.nle_gt. intros Hle. by apply (proj2 Hgate); [lia|]. }
    assert (trailing_output_repetition_count h < ST.output_loop_count th)%nat as Ho'.
    { apply Nat.nle_gt. intros Hle. by apply (proj2 Hout). }
    clear Hgate Hout. intuition (try congruence; try lia).
Qed.
End reflection.

(** ** The filter *)

(** A run of [try_fire]: each request with its answer. *)
Fixpoint run_fires (l : list (StuckKind * Z)) (f : CooldownFilter) : list (StuckKind * Z * bool) :=
  match l with
  | [] => []
  | (k, t) :: l' => let '(f', b) := CF.try_fire k t f in (k, t, b) :: run_fires l' f'
  end.

(** When the kind was last let through. *)
Definition last_allowed (k : StuckKind) (l : list (StuckKind * Z * bool)) : option Z :=
  last (omap (λ x : StuckKind * Z * bool, if decide (x.1.1 = k) then if x.2 then Some x.1.2 else None else None) l).

Lemma last_allowed_snoc k l x :
  last_allowed k (l ++ [x]) =
    if decide (x.1.1 = k) then if x.2 then Some x.1.2 else last_allowed k l else last_allowed k l.
Proof.
  destruct x as [[k0 t0] b0]. unfold last_allowed. rewrite omap_app. cbn [omap list_omap fst snd].
  destruct (decide (k0 = k)); [destruct b0|]; rewrite ?app_nil_r; try done. by rewrite last_snoc.
Qed.

Lemma try_fire_record done k t f :
  (∀ k', CF.last_fire f !! k' = last_allowed k' done) →
  ∀ k', CF.last_fire (CF.try_fire k t f).1 !! k'
    = last_allowed k' (done ++ [(k, t, (CF.try_fire k t f).2)]).
Proof.
  intros H k'. rewrite last_allowed_snoc. unfold CF.try_fire. cbn [fst snd].
  destruct (CF.should_fire f k t); cbn [fst snd CF.record_fire CF.last_fire].
  - destruct (decide (k = k')) as [->|Hne]; [by rewrite lookup_insert_eq|].
    by rewrite lookup_insert_ne.
  - by destruct (decide (k = k')).
Qed.

Lemma run_fires_spec l f done :
  (∀ k', CF.last_fire f !! k' = last_allowed k' done) →
  ∀ pre k t b post, run_fires l f = pre ++ (k, t, b) :: post →
  b = match last_allowed k (done ++ pre) with
      | None => true
      | Some t' => (CF.cooldown_ms f <=? i64_as_u64 (sat_i64 (t - t')))%N
      end.
Proof.
  revert f done. induction l as [|[k0 t0] l IH]; intros f done Hf pre k t b post; cbn [run_fires].
  { by destruct pre. }
  pose proof (try_fire_record done k0 t0 f Hf) as Hf'.
  assert (CF.cooldown_ms (CF.try_fire k0 t0 f).1 = CF.cooldown_ms f) as Hc
    by (unfold CF.try_fire; by destruct (CF.should_fire f k0 t0)).
  destruct (CF.try_fire k0 t0 f) as [f' b0] eqn:E. cbn [fst snd] in *.
  destruct pre as [|x pre]; cbn [app]; intros H; injection H.
  - intros _ <- <- <-. rewrite app_nil_r, <- Hf. unfold CF.try_fire in E.
    assert (b0 = CF.should_fire f k0 t0) as -> by (destruct (CF.should_fire f k0 t0); congruence).
    done.
  - intros Hrun <-. rewrite <- Hc, (IH f' _ Hf' _ _ _ _ _ Hrun), <- app_assoc. done.
Qed.

Lemma run_fires_requests l f : (run_fires l f).*1 = l.
Proof.
  revert f. induction l as [|[k t] l IH]; intros f; [done|]. cbn [run_fires].
  destruct (CF.try_fire k t f) as [f' b]. by rewrite fmap_cons, IH.
Qed.

Lemma last_allowed_elem k l t : last_allowed k l = Some t → (k, t) ∈ l.*1.
Proof.
  unfold last_allowed. intros H. apply last_Some_elem_of, list_elem_of_omap in H as ([[k' t'] b] & Hx & E).
  cbn in E. destruct (decide (k' = k)) as [->|]; [|done]. destruct b; [|done]. injection E as ->.
  apply list_elem_of_fmap. by exists (k, t, true).
Qed.

Lemma i64_as_u64_nonneg z : (0 ≤ z ≤ i64_MAX)%Z → i64_as_u64 z = Z.to_N z.
Proof. unfold i64_as_u64, i64_MAX. intros H. rewrite Z.mod_small by lia. done. Qed.

(** With a clock that does not go back, a request is let through exactly when its kind never was
    before, or was at least the cooldown ago. *)
Theorem cooldown_filter_spec cooldown l pre k t b post :
  StronglySorted Z.le l.*2 → Forall (λ x, (0 ≤ x.2 ≤ i64_MAX)%Z) l →
  run_fires l (CF.with_cooldown_ms cooldown) = pre ++ (k, t, b) :: post →
  b = true ↔ ∀ t', last_allowed k pre = Some t' → (Z.of_N cooldown ≤ t - t')%Z.
Proof.
  intros Hs Hr Hrun.
  assert (l = pre.*1 ++ (k, t) :: post.*1) as Hl.
  { by rewrite <- (run_fires_requests l (CF.with_cooldown_ms cooldown)), Hrun, fmap_app, fmap_cons. }
  assert (b = match last_allowed k pre with
    | None => true
    | Some t' => (cooldown <=? i64_as_u64 (sat_i64 (t - t')))%N end) as ->.
  { apply (run_fires_spec _ (CF.with_cooldown_ms cooldown) [] (λ k', lookup_empty k')
      pre k t b post Hrun). }
  destruct (last_allowed k pre) as [t'|] eqn:E; [|by split].
  apply last_allowed_elem in E. rewrite Forall_forall in Hr.
  assert ((k, t') ∈ l) as Hin' by (rewrite Hl; apply elem_of_app; by left).
  assert ((k, t) ∈ l) as Hin by (rewrite Hl; apply elem_of_app; right; apply list_elem_of_here).
  apply Hr in Hin', Hin. cbn in Hin', Hin.
  assert (t' ≤ t)%Z as Hle.
  { rewrite Hl, fmap_app, fmap_cons in Hs. apply StronglySorted_app in Hs as (H & _).
    apply (H t' t); [|apply list_elem_of_here]. apply list_elem_of_fmap. by exists (k, t'). }
  assert (sat_i64 (t - t') = t - t')%Z as -> by (unfold sat_i64, i64_MIN, i64_MAX in *; lia).
  rewrite i64_as_u64_nonneg by lia. split.
  - intros H t'' [= <-]. apply N.leb_le in H. lia.
  - intros H. specialize (H t' eq_refl). apply N.leb_le. lia.
Qed.

(** ** Examples *)

Definition plain_debug : DebugText := {| debug_strs := λ l, "[" +:+ str_join ", " l +:+ "]" |}.

Section examples.
#[local] Existing Instance plain_debug.

Definition turn (t : Z) (out : string) (files : N) (gate : option string) : ActivityEntry :=
  AE.new t out files gate 1.

Definition revise (t : Z) (out : string) : ActivityEntry :=
  AE.with_activity "REVISE" (turn t out 1 None).

Lemma check_stuck_is_first_witness :
  check_stuck ST.default [revise 0 "a"; revise 1 "b"; revise 2 "c"] = Some None.
Proof.
  destruct (check_all ST.default [revise 0 "a"; revise 1 "b"; revise 2 "c"]) as [l|] eqn:E.
  - destruct (check_stuck_is_first ST.default _ l E) as [_ ->].
    vm_compute in E. injection E as <-. reflexivity.
  - vm_compute in E. discriminate.
Defined.

(** Three verdicts that ask for a revision are found, and the agent continues. *)
Lemma meta_cognition_spec_witness :
  ∃ a, meta_cognition ST.default [revise 0 "a"; revise 1 "b"; revise 2 "c"] = Some a
    ∧ MC.stuck_kinds a = [SK.ReviewLoop] ∧ MC.action a = MCA.Continue.
Proof.
  destruct (meta_cognition ST.default [revise 0 "a"; revise 1 "b"; revise 2 "c"]) as [a|] eqn:E.
  - exists a. split; [reflexivity|]. split.
    + vm_compute in E. injection E as <-. reflexivity.
    + apply (meta_cognition_spec ST.default [revise 0 "a"; revise 1 "b"; revise 2 "c"] a);
        [discriminate|vm_compute; lia|vm_compute; lia|exact E|vm_compute; split; [reflexivity|lia]].
  - vm_compute in E. discriminate.
Defined.

(** Compilations that pass in between do not end a loop of compile failures. *)
Example compile_loop_skips_passes :
  let failed (t : Z) out := turn t out 1 (Some "fail:compile") in
  let passed (t : Z) out := turn t out 1 (Some "pass") in
  let h := [failed 0%Z "a"; passed 1%Z "b"; failed 2%Z "c"; passed 3%Z "d"; failed 4%Z "e"; passed 5%Z "f"] in
  SS.kind <$> (check_stuck ST.default h ≫= Datatypes.id) = Some SK.CompileLoop.
Proof. vm_compute. reflexivity. Qed.

(** A threshold of no empty outputs panics on the last entry that is not empty. *)
Example empty_output_threshold_panics :
  check_empty_output (ST.new 4 300000 3 3 0 6) [turn 0 "a" 1 None; turn 1 "b" 1 None] = None.
Proof. vm_compute. reflexivity. Qed.

(** An output key with a character across the sixteenth byte panics the detector. *)
Example output_loop_panics :
  let key := of_codes (replicate 15 97%N ++ [195; 169]%N) in
  check_stuck ST.default [turn 0 key 1 None; turn 1 key 1 None; turn 2 key 1 None; turn 3 key 1 None]
    = None.
Proof. vm_compute. reflexivity. Qed.

(** A clock set back stalls the task at once, and lets a kind fire within its cooldown. *)
Example clock_set_back :
  let at_ms (t : Z) := AE.with_task_id "t" (turn t "a" 1 None) in
  (SS.kind <$> (check_task_stall ST.default [at_ms 1000%Z; at_ms 999%Z] ≫= Datatypes.id))
    = Some SK.TaskStall
  ∧ (run_fires [(SK.TaskStall, 1000%Z); (SK.TaskStall, 1001%Z); (SK.TaskStall, 999%Z)]
      CF.default).*2 = [true; false; true].
Proof. vm_compute. done. Qed.

Lemma cooldown_filter_spec_witness :
  ∀ t', last_allowed SK.TaskStall [(SK.TaskStall, 0%Z, true)] = Some t' → (120000 ≤ 120000 - t')%Z.
Proof.
  apply (cooldown_filter_spec 120000 [(SK.TaskStall, 0%Z); (SK.TaskStall, 120000%Z)]
    [(SK.TaskStall, 0%Z, true)] SK.TaskStall 120000 true []);
    [vm_compute; repeat constructor; discriminate|repeat constructor; discriminate|vm_compute; reflexivity
    |reflexivity].
Defined.
End examples.
