(* ===== verification/Diagnosis.v ===== *)
(** * Diagnosis of errors (crates/roko-conductor/src/diagnosis.rs)

    Known patterns are searched in the output of a failed command; the matches are ranked by
    confidence.  [None] is a panic: the excerpt around a match is cut at byte offsets. *)

From Stdlib Require Import SpecFloat.
From S2P Require Import Prelude Text.

#[local] Arguments F64.of_Z : simpl never.
#[local] Arguments F64.of_N : simpl never.

Module ErrorCategory.
Inductive t : Type :=
  | CompileError | TestFailure | ClippyWarning | GitConflict | DependencyError | TypeMismatch
  | BorrowCheckerError | LifetimeError | ImportError | MissingFile | PermissionDenied
  | NetworkError | TimeoutError | OomError | DiskFull | LlmRateLimit | LlmContextOverflow
  | LlmRefusal | ProcessCrash | LoopDetected.
End ErrorCategory.
Abbreviation ErrorCategory := ErrorCategory.t.
Module EC := ErrorCategory.

Module SuggestedIntervention.
Inductive t : Type :=
  | RetryWithContext | AutoFix | RestartAgent | AbortPlan | BackoffRetry | MergeResolution
  | ReduceContext | SwitchModel | WarnAndContinue.
End SuggestedIntervention.
Abbreviation SuggestedIntervention := SuggestedIntervention.t.
Module SI := SuggestedIntervention.

Module ErrorPattern.
Record t : Type := mk {
  name : string;
  needle : string;
  category : ErrorCategory;
  suggested_action : SuggestedIntervention;
  case_insensitive : bool;
}.
End ErrorPattern.
Abbreviation ErrorPattern := ErrorPattern.t.
Module EP := ErrorPattern.

Module DiagnosisResult.
Record t : Type := mk {
  pattern_name : string;
  category : ErrorCategory;
  confidence : F64.t;
  suggested_intervention : SuggestedIntervention;
  matched_excerpt : string;
}.
End DiagnosisResult.
Abbreviation DiagnosisResult := DiagnosisResult.t.
Module DR := DiagnosisResult.

Definition is_ascii (s : string) : Prop := Forall (λ b, (b < 128)%N) (codes s).

(** [str::to_lowercase] follows the tables of Unicode; on ASCII it is the ASCII one. *)
Class Lowercase := {
  to_lowercase : string → string;
  to_lowercase_ascii s : is_ascii s → to_lowercase s = str_to_ascii_lowercase s;
}.

(** [s.find(pat)]: the offset of the first match. *)
Fixpoint str_find (pat s : string) : option nat :=
  if str_starts_with pat s then Some 0%nat
  else match s with EmptyString => None | String _ s' => S <$> str_find pat s' end.

(** Whether a string may be cut at an offset. *)
Definition is_char_boundary (l : list N) (n : nat) : bool :=
  match n with
  | O => true
  | _ =>
      match l !! n with
      | Some b => negb ((128 <=? b)%N && (b <? 192)%N)
      | None => (n =? length l)%nat
      end
  end.

(** [&s[a..b]] *)
Definition str_slice (a b : nat) (s : string) : option string :=
  let l := codes s in
  if (a <=? b)%nat && is_char_boundary l a && is_char_boundary l b then
    Some (of_codes (take (b - a) (drop a l)))
  else None.

Definition truncate_str (s : string) (max : nat) : option string :=
  if (String.length s <=? max)%nat then Some s
  else (λ t, t +:+ "...") <$> str_slice 0 max s.

Definition len_f64 (s : string) : F64.t := F64.of_N (N.of_nat (String.length s)).

Definition base_score (ratio : F64.t) : F64.t :=
  if F64.gt ratio (F64.lit 9 10) then F64.of_Z 1
  else if F64.gt ratio (F64.lit 5 10) then F64.lit 9 10
  else if F64.gt ratio (F64.lit 2 10) then F64.lit 8 10
  else if F64.gt ratio (F64.lit 5 100) then F64.lit 7 10
  else F64.lit 5 10.

Definition specificity_bonus (needle : string) : F64.t :=
  F64.min (F64.mul (len_f64 needle) (F64.lit 5 1000)) (F64.lit 15 100).

Definition exact_match_bonus (p : ErrorPattern) : F64.t :=
  if negb (EP.case_insensitive p) && str_contains "-" (EP.name p) then F64.lit 2 100
  else F64.zero.

Definition compute_confidence (p : ErrorPattern) (error_output needle : string) : F64.t :=
  if str_is_empty error_output then F64.lit 5 10
  else
    let ratio := F64.div (len_f64 needle) (len_f64 error_output) in
    F64.min (F64.add (F64.add (base_score ratio) (specificity_bonus needle)) (exact_match_bonus p))
      (F64.of_Z 1).

Section Engine.
Context {LC : Lowercase}.

(** What is searched, and for what. *)
Definition haystack_needle (p : ErrorPattern) (error_output : string) : string * string :=
  if EP.case_insensitive p then (to_lowercase error_output, to_lowercase (EP.needle p))
  else (error_output, EP.needle p).

Definition match_pattern (p : ErrorPattern) (error_output : string) :
    option (option DiagnosisResult) :=
  let '(haystack, needle) := haystack_needle p error_output in
  match str_find needle haystack with
  | None => Some None
  | Some pos =>
      let confidence := compute_confidence p error_output needle in
      let excerpt_start := (pos - 20)%nat in
      let excerpt_end := ((pos + String.length needle + 40) `min` String.length error_output)%nat in
      match str_slice excerpt_start excerpt_end error_output with
      | None => None
      | Some excerpt =>
          match truncate_str excerpt 100 with
          | None => None
          | Some shown =>
              Some (Some (DR.mk (EP.name p) (EP.category p) confidence (EP.suggested_action p)
                shown))
          end
      end
  end.

Fixpoint all_matches (patterns : list ErrorPattern) (error_output : string) :
    option (list DiagnosisResult) :=
  match patterns with
  | [] => Some []
  | p :: rest =>
      match match_pattern p error_output with
      | None => None
      | Some r => (λ l, option_list r ++ l) <$> all_matches rest error_output
      end
  end.

(** The comparison: by falling confidence, then by name. *)
Definition compare_results (a b : DiagnosisResult) : comparison :=
  match SFcompare (DR.confidence b) (DR.confidence a) with
  | Some Lt => Lt
  | Some Gt => Gt
  | _ => String.compare (DR.pattern_name a) (DR.pattern_name b)
  end.
Definition ranks_before (a b : DiagnosisResult) : bool :=
  match compare_results a b with Gt => false | _ => true end.

Definition diagnose (patterns : list ErrorPattern) (error_output : string) :
    option (list DiagnosisResult) := sort_by ranks_before <$> all_matches patterns error_output.

Definition diagnose_best (patterns : list ErrorPattern) (error_output : string) :
    option (option DiagnosisResult) := head <$> diagnose patterns error_output.
End Engine.

Definition built_in_patterns : list ErrorPattern := [
  EP.mk "rust-compile-error" "error[E" EC.CompileError SI.RetryWithContext false;
  EP.mk "rust-type-mismatch" "error[E0308]" EC.TypeMismatch SI.RetryWithContext false;
  EP.mk "rust-borrow-conflict" "error[E0502]" EC.BorrowCheckerError SI.RestartAgent false;
  EP.mk "rust-use-after-move" "error[E0382]" EC.BorrowCheckerError SI.RestartAgent false;
  EP.mk "rust-moved-value" "error[E0505]" EC.BorrowCheckerError SI.RestartAgent false;
  EP.mk "rust-lifetime-missing" "error[E0106]" EC.LifetimeError SI.RestartAgent false;
  EP.mk "rust-lifetime-mismatch" "error[E0621]" EC.LifetimeError SI.RestartAgent false;
  EP.mk "rust-unresolved-import" "error[E0432]" EC.ImportError SI.AutoFix false;
  EP.mk "rust-unresolved-path" "error[E0433]" EC.ImportError SI.AutoFix false;
  EP.mk "rust-missing-field" "error[E0063]" EC.CompileError SI.AutoFix false;
  EP.mk "rust-cannot-find" "cannot find" EC.ImportError SI.RetryWithContext false;
  EP.mk "rust-test-failure" "test result: FAILED" EC.TestFailure SI.RetryWithContext false;
  EP.mk "assertion-failed" "assertion failed" EC.TestFailure SI.RetryWithContext true;
  EP.mk "clippy-warning" "warning: " EC.ClippyWarning SI.WarnAndContinue false;
  EP.mk "clippy-lint" "clippy::" EC.ClippyWarning SI.WarnAndContinue false;
  EP.mk "git-conflict-markers" "<<<<<<<" EC.GitConflict SI.MergeResolution false;
  EP.mk "git-merge-conflict" "CONFLICT (content)" EC.GitConflict SI.MergeResolution false;
  EP.mk "cargo-dependency-missing" "no matching package named" EC.DependencyError SI.RetryWithContext false;
  EP.mk "cargo-version-mismatch" "failed to select a version for" EC.DependencyError SI.RetryWithContext false;
  EP.mk "file-not-found" "No such file or directory" EC.MissingFile SI.RetryWithContext false;
  EP.mk "permission-denied" "Permission denied" EC.PermissionDenied SI.AbortPlan false;
  EP.mk "connection-refused" "Connection refused" EC.NetworkError SI.BackoffRetry false;
  EP.mk "dns-failure" "could not resolve host" EC.NetworkError SI.BackoffRetry true;
  EP.mk "command-timeout" "timed out" EC.TimeoutError SI.BackoffRetry true;
  EP.mk "out-of-memory" "out of memory" EC.OomError SI.AbortPlan true;
  EP.mk "oom-killed" "SIGKILL" EC.OomError SI.AbortPlan false;
  EP.mk "disk-full" "No space left on device" EC.DiskFull SI.AbortPlan false;
  EP.mk "llm-rate-limit" "rate limit" EC.LlmRateLimit SI.BackoffRetry true;
  EP.mk "llm-429" "429 Too Many Requests" EC.LlmRateLimit SI.BackoffRetry false;
  EP.mk "llm-context-overflow" "context_length_exceeded" EC.LlmContextOverflow SI.ReduceContext false;
  EP.mk "llm-max-tokens" "maximum context length" EC.LlmContextOverflow SI.ReduceContext false;
  EP.mk "llm-content-filter" "content_filter" EC.LlmRefusal SI.SwitchModel false;
  EP.mk "llm-safety-refusal" "I cannot" EC.LlmRefusal SI.SwitchModel false;
  EP.mk "segfault" "Segmentation fault" EC.ProcessCrash SI.RestartAgent false;
  EP.mk "process-abort" "SIGABRT" EC.ProcessCrash SI.RestartAgent false;
  EP.mk "process-panic" "thread 'main' panicked" EC.ProcessCrash SI.RestartAgent false;
  EP.mk "loop-detected-marker" "LOOP DETECTED" EC.LoopDetected SI.RestartAgent true].

(** ** Substrings *)

Lemma str_find_None pat s : str_find pat s = None ↔ str_contains pat s = false.
Proof.
  induction s as [|a s IH]; cbn; destruct (str_starts_with pat _); cbn; try done.
  destruct (str_find pat s) as [n|]; cbn in *; [|by split; [intros _; apply IH|]].
  split; [done|]. intros H. apply IH in H. done.
Qed.

Lemma str_starts_with_length pat s :
  str_starts_with pat s = true → (String.length pat ≤ String.length s)%nat.
Proof.
  revert s. induction pat as [|a pat IH]; intros [|b s]; cbn; [lia..|done|].
  intros [_ H]%andb_prop. apply IH in H. lia.
Qed.

(** A match fits where it is found. *)
Lemma str_find_fits pat s n :
  str_find pat s = Some n → (n + String.length pat ≤ String.length s)%nat.
Proof.
  revert n. induction s as [|a s IH]; intros n; cbn [str_find];
    destruct (str_starts_with pat _) eqn:E; try done.
  - intros [= <-]. by apply str_starts_with_length in E.
  - intros [= <-]. by apply str_starts_with_length in E.
  - destruct (str_find pat s) as [m|]; [|done]. intros [= <-]. specialize (IH m eq_refl). cbn. lia.
Qed.

(** ** ASCII *)

Lemma lowercase_length s : String.length (str_to_ascii_lowercase s) = String.length s.
Proof. induction s as [|a s IH]; cbn; [done|by rewrite IH]. Qed.

Lemma ascii_boundary l n :
  Forall (λ b, (b < 128)%N) l → (n ≤ length l)%nat → is_char_boundary l n = true.
Proof.
  intros Hl Hn. destruct n as [|n]; [done|]. unfold is_char_boundary.
  destruct (l !! S n) as [b|] eqn:E.
  - rewrite Forall_lookup in Hl. apply Hl in E. destruct (N.leb_spec 128 b); [lia|done].
  - apply lookup_ge_None in E. apply Nat.eqb_eq. lia.
Qed.

Lemma ascii_codes_of_codes l : Forall (λ b, (b < 128)%N) l → codes (of_codes l) = l.
Proof. intros H. apply codes_of_codes. eapply Forall_impl; [exact H|]. intros b. cbn. lia. Qed.

(** Any cut of an ASCII string within its bounds succeeds, and is ASCII. *)
Lemma str_slice_ascii a b s :
  is_ascii s → (a ≤ b)%nat → (b ≤ String.length s)%nat →
  ∃ t, str_slice a b s = Some t ∧ is_ascii t ∧ String.length t = (b - a)%nat.
Proof.
  intros Hs Hab Hb. unfold str_slice. rewrite <- length_codes in Hb.
  rewrite !ascii_boundary by (try done; lia).
  destruct (Nat.leb_spec a b); [|lia]. cbn [andb]. eexists. split; [done|].
  assert (Forall (λ c, (c < 128)%N) (take (b - a) (drop a (codes s)))) as Hf
    by (apply Forall_take, Forall_drop, Hs).
  unfold is_ascii. rewrite <- length_codes, ascii_codes_of_codes by done. split; [done|].
  rewrite length_take, length_drop. lia.
Qed.

Lemma excerpt_ascii s max : is_ascii s → is_Some (truncate_str s max).
Proof.
  intros Hs. unfold truncate_str. destruct (Nat.leb_spec (String.length s) max) as [|Hlt]; [done|].
  destruct (str_slice_ascii 0 max s Hs) as (t & -> & _); [lia|lia|done].
Qed.

(** ** Confidence *)

Lemma confidence_number p out needle : F64.is_nan (compute_confidence p out needle) = false.
Proof.
  unfold compute_confidence. destruct (str_is_empty out); [by vm_compute|]. cbv zeta.
  generalize (F64.add (F64.add (base_score (F64.div (len_f64 needle) (len_f64 out)))
    (specificity_bonus needle)) (exact_match_bonus p)). intros x.
  unfold F64.min. destruct (F64.is_nan x) eqn:E; [by vm_compute|].
  destruct (F64.is_nan (F64.of_Z 1)); [done|]. by destruct (F64.lt _ _).
Qed.

Lemma min_one_le x : sf_le (F64.min x (F64.of_Z 1)) (F64.of_Z 1).
Proof.
  unfold F64.min. destruct (F64.is_nan x) eqn:E; [apply sf_le_refl|].
  assert (F64.is_nan (F64.of_Z 1) = false) as -> by (by vm_compute).
  unfold F64.lt. destruct (SFltb (F64.of_Z 1) x) eqn:El; [apply sf_le_refl|exact El].
Qed.

Lemma confidence_le_one p out needle : sf_le (compute_confidence p out needle) (F64.of_Z 1).
Proof.
  unfold compute_confidence. destruct (str_is_empty out); [by vm_compute|apply min_one_le].
Qed.

(** ** The ranking *)

Section ranking.
Context {LC : Lowercase}.

Definition number_result (r : DiagnosisResult) : Prop := F64.is_nan (DR.confidence r) = false.

Lemma ranks_before_total a b : ranks_before a b = true ∨ ranks_before b a = true.
Proof.
  unfold ranks_before, compare_results.
  rewrite (sf_compare_antisym (DR.confidence b)),
    (String.compare_antisym (DR.pattern_name b) (DR.pattern_name a)).
  destruct (SFcompare (DR.confidence b) (DR.confidence a)) as [[]|]; cbn; auto;
    destruct (String.compare (DR.pattern_name a) (DR.pattern_name b)); cbn; auto.
Qed.

(** Before in the ranking: more confident, or as confident and named before. *)
Lemma ranks_before_iff a b :
  number_result a → number_result b →
  ranks_before a b = true ↔
    SFltb (DR.confidence b) (DR.confidence a) = true
    ∨ SFltb (DR.confidence a) (DR.confidence b) = false
      ∧ SFltb (DR.confidence b) (DR.confidence a) = false
      ∧ String.leb (DR.pattern_name a) (DR.pattern_name b) = true.
Proof.
  intros Ha Hb. unfold ranks_before, compare_results, SFltb, String.leb.
  rewrite (sf_compare_antisym (DR.confidence b) (DR.confidence a)).
  destruct (SFcompare (DR.confidence b) (DR.confidence a)) as [[]|]; cbn;
    destruct (String.compare (DR.pattern_name a) (DR.pattern_name b)); intuition congruence.
Qed.

Lemma sf_lt_trans a b c :
  F64.is_nan a = false → F64.is_nan b = false → F64.is_nan c = false →
  SFltb a b = true → sf_le b c → SFltb a c = true.
Proof.
  intros Ha Hb Hc. rewrite !lt_key, not_lt_key by done. unfold key_lt. lia.
Qed.

Lemma sf_le_lt_trans a b c :
  F64.is_nan a = false → F64.is_nan b = false → F64.is_nan c = false →
  sf_le a b → SFltb b c = true → SFltb a c = true.
Proof.
  intros Ha Hb Hc. rewrite !lt_key, not_lt_key by done. unfold key_lt. lia.
Qed.

Lemma ranks_before_trans a b c :
  number_result a → number_result b → number_result c →
  ranks_before a b = true → ranks_before b c = true → ranks_before a c = true.
Proof.
  intros Ha Hb Hc. rewrite !ranks_before_iff by done. unfold number_result in *.
  intros [H1|(H1 & H1' & N1)] [H2|(H2 & H2' & N2)].
  - left. eapply sf_lt_trans; [..|exact H2|apply sf_lt_le, H1]; done.
  - left. by eapply sf_le_lt_trans; [..|exact H2|exact H1].
  - left. by eapply sf_lt_trans; [..|exact H2|exact H1].
  - right. split; [by eapply sf_le_trans; [|exact H2|exact H1]|].
    split; [by eapply sf_le_trans; [|exact H1'|exact H2']|]. by eapply string_leb_trans.
Qed.

(** What a match reports. *)
Lemma match_pattern_spec p out r :
  match_pattern p out = Some r →
  match r with
  | None => str_contains (haystack_needle p out).2 (haystack_needle p out).1 = false
  | Some d =>
      str_contains (haystack_needle p out).2 (haystack_needle p out).1 = true
      ∧ DR.pattern_name d = EP.name p ∧ DR.category d = EP.category p
      ∧ DR.suggested_intervention d = EP.suggested_action p
      ∧ DR.confidence d = compute_confidence p out (haystack_needle p out).2
  end.
Proof.
  unfold match_pattern. destruct (haystack_needle p out) as [h n]. cbn [fst snd].
  destruct (str_find n h) as [pos|] eqn:E.
  - destruct (str_slice _ _ out) as [x|]; [|done]. destruct (truncate_str x 100); [|done].
    intros [= <-]. cbn. repeat split; try done.
    destruct (str_contains n h) eqn:Ec; [done|]. apply str_find_None in Ec. congruence.
  - intros [= <-]. by apply str_find_None.
Qed.

Lemma all_matches_elem ps out l r :
  all_matches ps out = Some l →
  r ∈ l ↔ ∃ p, p ∈ ps ∧ match_pattern p out = Some (Some r).
Proof.
  revert l. induction ps as [|p ps IH]; intros l; cbn [all_matches].
  { intros [= <-]. split; [intros H; by apply elem_of_nil in H|].
    intros (p & H & _). by apply elem_of_nil in H. }
  destruct (match_pattern p out) as [o|] eqn:E; [|done].
  destruct (all_matches ps out) as [l'|]; [|done]. intros [= <-].
  rewrite elem_of_app, (IH l' eq_refl). setoid_rewrite elem_of_cons. split.
  - intros [H|(p' & Hp & Hm)]; [|by exists p'; auto]. exists p. split; [by left|].
    destruct o as [d|]; [|by apply elem_of_nil in H]. apply list_elem_of_singleton in H. by subst.
  - intros (p' & [->|Hp] & Hm); [|right; by exists p']. left. rewrite E in Hm. injection Hm as ->.
    apply list_elem_of_here.
Qed.

Lemma all_matches_numbers ps out l : all_matches ps out = Some l → Forall number_result l.
Proof.
  intros H. apply Forall_forall. intros r Hr. apply (all_matches_elem _ _ _ _ H) in Hr as (p & _ & Hp).
  apply match_pattern_spec in Hp as (_ & _ & _ & _ & E). unfold number_result. rewrite E.
  apply confidence_number.
Qed.

Lemma StronglySorted_impl_on {A} (R1 R2 : A → A → Prop) (P : A → Prop) l :
  (∀ a b, P a → P b → R1 a b → R2 a b) → Forall P l → StronglySorted R1 l → StronglySorted R2 l.
Proof.
  intros HR HP Hs. induction Hs as [|x l _ IH Hx]; [constructor|].
  apply Forall_cons in HP as [Hpx HP]. constructor; [by apply IH|].
  rewrite Forall_forall in Hx, HP |- *. auto.
Qed.

(** The diagnosis reports exactly the patterns that occur in the output, the most confident
    first, and as confident ones by name. *)
Theorem diagnose_spec ps out l :
  diagnose ps out = Some l →
  (∀ r, r ∈ l → ∃ p, p ∈ ps ∧ match_pattern p out = Some (Some r))
  ∧ (∀ p, p ∈ ps → (∃ r, r ∈ l ∧ match_pattern p out = Some (Some r)) ↔
       str_contains (haystack_needle p out).2 (haystack_needle p out).1 = true)
  ∧ StronglySorted (λ a b, sf_le (DR.confidence b) (DR.confidence a)) l
  ∧ ∀ r, r ∈ l → sf_le (DR.confidence r) (F64.of_Z 1).
Proof.
  unfold diagnose. destruct (all_matches ps out) as [m|] eqn:E; [|done]. intros [= <-].
  pose proof (all_matches_numbers _ _ _ E) as Hn.
  assert (∀ r, r ∈ sort_by ranks_before m ↔ ∃ p, p ∈ ps ∧ match_pattern p out = Some (Some r)) as Hin.
  { intros r. by rewrite elem_of_sort_by, (all_matches_elem _ _ _ _ E). }
  split; [|split; [|split]].
  - intros r. apply Hin.
  - intros p Hp. split.
    + intros (r & _ & Hm). by apply match_pattern_spec in Hm as [? _].
    + intros Hc. assert (is_Some (match_pattern p out)) as [o Ho].
      { clear Hn Hin Hc. revert m E. induction ps as [|q ps IH]; [by apply elem_of_nil in Hp|].
        intros m. cbn [all_matches]. destruct (match_pattern q out) eqn:Eq; [|done].
        destruct (all_matches ps out) as [m'|] eqn:E'; [|done]. intros _.
        apply elem_of_cons in Hp as [->|Hp]; [by eexists|by eapply IH]. }
      destruct o as [r|]; [|apply match_pattern_spec in Ho; congruence].
      exists r. split; [apply Hin; by exists p|done].
  - eapply (StronglySorted_impl_on (λ a b, ranks_before a b = true) _ number_result);
      [|by rewrite sort_by_perm|].
    + intros x y Hx Hy. rewrite ranks_before_iff by done.
      intros [H|(H & _ & _)]; [by apply sf_lt_le|exact H].
    + by apply (sort_by_sorted_on _ number_result ranks_before_total ranks_before_trans).
  - intros r Hr. apply Hin in Hr as (p & _ & Hm).
    apply match_pattern_spec in Hm as (_ & _ & _ & _ & ->). apply confidence_le_one.
Qed.

(** ** ASCII output *)

Lemma haystack_length p out :
  is_ascii out → String.length (haystack_needle p out).1 = String.length out.
Proof.
  intros Ho. unfold haystack_needle. destruct (EP.case_insensitive p); [|done]. cbn [fst].
  by rewrite to_lowercase_ascii, lowercase_length.
Qed.

Lemma match_pattern_ascii p out : is_ascii out → is_Some (match_pattern p out).
Proof.
  intros Ho. pose proof (haystack_length p out Ho) as Hl. unfold match_pattern.
  destruct (haystack_needle p out) as [h n]. cbn [fst] in Hl.
  destruct (str_find n h) as [pos|] eqn:E; [|by eexists]. apply str_find_fits in E.
  destruct (str_slice_ascii (pos - 20) ((pos + String.length n + 40) `min` String.length out) out Ho)
    as (t & -> & Ht & _); [lia..|].
  destruct (excerpt_ascii t 100 Ht) as [u ->]. by eexists.
Qed.

(** On ASCII output the diagnosis is there, whatever the patterns. *)
Theorem diagnose_ascii ps out : is_ascii out → is_Some (diagnose ps out).
Proof.
  intros Ho. unfold diagnose. rewrite fmap_is_Some.
  induction ps as [|p ps IH]; [by eexists|]. cbn [all_matches].
  destruct (match_pattern_ascii p out Ho) as [o ->]. by rewrite fmap_is_Some.
Qed.

(** ** The order of the patterns *)

Lemma all_matches_perm ps ps' out l :
  ps ≡ₚ ps' → all_matches ps out = Some l → ∃ l', all_matches ps' out = Some l' ∧ l ≡ₚ l'.
Proof.
  intros Hp. revert l. induction Hp as [|p ps ps' _ IH|p q ps|ps ps' ps'' _ IH1 _ IH2]; intros l.
  - intros H. by exists l.
  - cbn [all_matches]. destruct (match_pattern p out) as [o|]; [|done].
    destruct (all_matches ps out) as [m|]; [|done]. intros [= <-].
    destruct (IH m eq_refl) as (m' & -> & Hm). eexists. split; [done|]. by rewrite Hm.
  - cbn [all_matches]. destruct (match_pattern p out) as [o|], (match_pattern q out) as [o'|],
      (all_matches ps out) as [m|]; try done. intros [= <-]. eexists. split; [done|].
    by rewrite !app_assoc, (comm (++) (option_list o)).
  - intros H. destruct (IH1 l H) as (l' & H' & Hl). destruct (IH2 l' H') as (l'' & H'' & Hl').
    exists l''. split; [done|]. by etrans.
Qed.

Lemma all_matches_names ps out l :
  all_matches ps out = Some l → sublist (DR.pattern_name <$> l) (EP.name <$> ps).
Proof.
  revert l. induction ps as [|p ps IH]; intros l; cbn [all_matches]; [by intros [= <-]|].
  destruct (match_pattern p out) as [o|] eqn:E; [|done].
  destruct (all_matches ps out) as [m|]; [|done]. intros [= <-]. specialize (IH m eq_refl).
  destruct o as [d|]; cbn; [|by constructor].
  apply match_pattern_spec in E as (_ & -> & _). by constructor.
Qed.

Lemma NoDup_names_inj (l : list DiagnosisResult) x y :
  NoDup (DR.pattern_name <$> l) → x ∈ l → y ∈ l → DR.pattern_name x = DR.pattern_name y → x = y.
Proof.
  intros Hn [i Hi]%list_elem_of_lookup [j Hj]%list_elem_of_lookup E.
  assert (i = j) as ->; [|congruence].
  apply (NoDup_lookup _ i j (DR.pattern_name x) Hn); rewrite list_lookup_fmap.
  - by rewrite Hi.
  - by rewrite Hj, E.
Qed.

(** Patterns of distinct names: the order they are listed in does not matter. *)
Theorem diagnose_order_independent ps ps' out :
  NoDup (EP.name <$> ps) → ps ≡ₚ ps' → diagnose ps out = diagnose ps' out.
Proof.
  intros Hn Hp. unfold diagnose. destruct (all_matches ps out) as [l|] eqn:E.
  - destruct (all_matches_perm _ _ _ _ Hp E) as (l' & E' & Hl). rewrite E'. cbn. f_equal.
    pose proof (all_matches_numbers _ _ _ E) as Hf.
    pose proof (all_matches_numbers _ _ _ E') as Hf'.
    apply all_matches_names in E. pose proof (sublist_NoDup _ _ Hn E) as Hd.
    apply (StronglySorted_unique_strong (λ a b, ranks_before a b = true)).
    + intros x y Hx Hy. rewrite elem_of_sort_by in Hx, Hy. rewrite <- Hl in Hy.
      rewrite Forall_forall in Hf. intros H1 H2.
      apply (NoDup_names_inj l); [done..|].
      rewrite ranks_before_iff in H1, H2 by auto.
      destruct H1 as [H1|(H1 & H1' & N1)], H2 as [H2|(H2 & H2' & N2)]; try congruence.
      * apply sf_lt_le in H1. unfold sf_le in H1. congruence.
      * by apply string_leb_antisym.
    + by apply (sort_by_sorted_on _ number_result ranks_before_total ranks_before_trans).
    + by apply (sort_by_sorted_on _ number_result ranks_before_total ranks_before_trans).
    + by rewrite !sort_by_perm.
  - destruct (all_matches ps' out) as [l'|] eqn:E'; [|done]. symmetry in Hp.
    destruct (all_matches_perm _ _ _ _ Hp E') as (l & H & _). congruence.
Qed.
End ranking.

(** ** The built-in patterns *)

#[export] Instance ErrorCategory_eq_dec : EqDecision ErrorCategory.
Proof. solve_decision. Defined.

Lemma built_in_names : NoDup (EP.name <$> built_in_patterns).
Proof. apply (bool_decide_unpack _). by vm_compute. Qed.

(** Unicode's tables are only used outside ASCII. *)
#[local] Instance ascii_lowercase : Lowercase :=
  {| to_lowercase := str_to_ascii_lowercase; to_lowercase_ascii s _ := eq_refl |}.

Definition shown (out : string) : option (list (string * ErrorCategory)) :=
  option_map (map (λ r, (DR.pattern_name r, DR.category r))) (diagnose built_in_patterns out).

Example type_mismatch_is_first :
  shown "error[E0308]: mismatched types" =
    Some [("rust-type-mismatch", EC.TypeMismatch); ("rust-compile-error", EC.CompileError)].
Proof. by vm_compute. Qed.

Example nothing_known : shown "all good" = Some [].
Proof. by vm_compute. Qed.

(** The excerpt would start inside a character of two bytes: the slice panics. *)
Example excerpt_panics :
  shown (of_codes [195; 169]%N +:+ "1234567890123456789timed out") = None.
Proof. by vm_compute. Qed.

(** Upside down, the list gives the same diagnosis. *)
Example diagnose_order_independent_witness :
  diagnose built_in_patterns "error[E0308]: mismatched types" =
  diagnose (reverse built_in_patterns) "error[E0308]: mismatched types".
Proof.
  apply (diagnose_order_independent built_in_patterns (reverse built_in_patterns)).
  - exact built_in_names.
  - symmetry. apply reverse_Permutation.
Defined.

Example diagnose_ascii_witness : is_Some (diagnose built_in_patterns "timed out").
Proof. apply diagnose_ascii. repeat constructor. Defined.

(** Two patterns occur, and nothing else is reported. *)
Example diagnose_spec_witness :
  ∃ l, diagnose built_in_patterns "error[E0308]: mismatched types" = Some l ∧ length l = 2%nat
  ∧ StronglySorted (λ a b, sf_le (DR.confidence b) (DR.confidence a)) l.
Proof.
  destruct (diagnose built_in_patterns "error[E0308]: mismatched types") as [l|] eqn:E.
  - exists l. split; [done|]. split.
    + assert (length <$> Some l = Some 2%nat) as [=]; [|done]. rewrite <- E. by vm_compute.
    + apply (diagnose_spec built_in_patterns "error[E0308]: mismatched types" l E).
  - exfalso. vm_compute in E. discriminate.
Defined.
