(* ===== verification/Healing.v ===== *)
(** * Self-healing and health of the conductor (crates/roko-conductor/src/self_healing.rs, health.rs)

    Watchers that keep changing their mind are reset and left alone for a while, and failures
    in a row restart the conductor.  The association lists of the code refine a state per
    watcher. *)

From S2P Require Import Prelude Floats.

(** ** Vectors of pairs, searched from the front *)

Section Assoc.
Context {A : Type}.

(** [iter().find(|(name, _)| name == k)] *)
Fixpoint assoc_get (k : string) (l : list (string * A)) : option A :=
  match l with
  | [] => None
  | (k', v) :: l' => if string_eqb k' k then Some v else assoc_get k l'
  end.

(** The entry found is changed in place. *)
Fixpoint assoc_alter (f : A → A) (k : string) (l : list (string * A)) : list (string * A) :=
  match l with
  | [] => []
  | (k', v) :: l' => if string_eqb k' k then (k', f v) :: l' else (k', v) :: assoc_alter f k l'
  end.

(** Changed in place, or pushed. *)
Definition assoc_set (k : string) (v : A) (l : list (string * A)) : list (string * A) :=
  match assoc_get k l with
  | Some _ => assoc_alter (λ _, v) k l
  | None => l ++ [(k, v)]
  end.

Lemma assoc_get_alter f k k' l :
  assoc_get k' (assoc_alter f k l) =
    if string_eqb k k' then f <$> assoc_get k' l else assoc_get k' l.
Proof.
  unfold string_eqb. induction l as [|[x v] l IH]; cbn [assoc_get assoc_alter].
  { by case_bool_decide. }
  unfold string_eqb. destruct (bool_decide_reflect (x = k)) as [->|Hk]; cbn [assoc_get];
    unfold string_eqb.
  - by destruct (bool_decide (k = k')).
  - rewrite IH. destruct (bool_decide_reflect (x = k')) as [->|Hk']; [|done].
    by rewrite bool_decide_false.
Qed.

Lemma assoc_get_app k l l' :
  assoc_get k (l ++ l') = match assoc_get k l with Some v => Some v | None => assoc_get k l' end.
Proof.
  induction l as [|[x v] l IH]; cbn [app assoc_get]; [done|]. by destruct (string_eqb x k).
Qed.

Lemma assoc_get_set k k' v l :
  assoc_get k' (assoc_set k v l) = if string_eqb k k' then Some v else assoc_get k' l.
Proof.
  unfold assoc_set. destruct (assoc_get k l) as [o|] eqn:E.
  - rewrite assoc_get_alter. unfold string_eqb. case_bool_decide as Hk; [|done].
    subst. by rewrite E.
  - rewrite assoc_get_app. cbn [assoc_get]. unfold string_eqb. case_bool_decide as Hk.
    + subst. by rewrite E.
    + by destruct (assoc_get k' l).
Qed.

Lemma assoc_alter_keys f k l : (assoc_alter f k l).*1 = l.*1.
Proof.
  induction l as [|[x v] l IH]; cbn; [done|]. destruct (string_eqb x k); cbn; [done|by rewrite IH].
Qed.

Lemma assoc_get_None k l : assoc_get k l = None ↔ k ∉ l.*1.
Proof.
  induction l as [|[x v] l IH]; cbn; [split; [intros _ H; by apply elem_of_nil in H|done]|].
  unfold string_eqb. rewrite not_elem_of_cons. case_bool_decide; [split; [done|intros []; congruence]|].
  rewrite IH. naive_solver.
Qed.

Lemma assoc_set_nodup k v l : NoDup l.*1 → NoDup (assoc_set k v l).*1.
Proof.
  intros H. unfold assoc_set. destruct (assoc_get k l) eqn:E; [by rewrite assoc_alter_keys|].
  rewrite fmap_app. apply NoDup_app. split; [done|]. apply assoc_get_None in E. split.
  - intros x Hx Hx'. cbn in Hx'. apply list_elem_of_singleton in Hx'. by subst.
  - apply NoDup_singleton.
Qed.

(** Of distinct names, searching finds any entry. *)
Lemma assoc_get_elem k v l : NoDup l.*1 → (k, v) ∈ l ↔ assoc_get k l = Some v.
Proof.
  induction l as [|[x w] l IH]; cbn [fmap list_fmap fst assoc_get].
  { intros _. split; [intros H; by apply elem_of_nil in H|done]. }
  intros [Hx Hl]%NoDup_cons. rewrite elem_of_cons, IH by done. unfold string_eqb.
  case_bool_decide as Hk.
  - subst x. split.
    + intros [[= ->]|H]; [done|]. destruct Hx. apply list_elem_of_fmap. exists (k, v).
      split; [done|]. by apply IH.
    + intros [= ->]. by left.
  - split; [intros [[= -> ->]|H]; done|by right].
Qed.
End Assoc.

(** ** The state *)

Module SelfHealingPolicy.
Record t : Type := mk {
  max_oscillations : N;
  cooldown_ticks : N;
  auto_restart_threshold : N;
}.
Definition default : t := mk 5 10 3.
End SelfHealingPolicy.
Abbreviation SelfHealingPolicy := SelfHealingPolicy.t.
Module HP := SelfHealingPolicy.

Module HealingAction.
Inductive t : Type :=
  | ResetWatcher (watcher : string)
  | CooldownWatcher (watcher : string) (ticks : N)
  | AutoRestart
  | None.

#[global] Instance t_eq_dec : EqDecision t.
Proof. solve_decision. Defined.
End HealingAction.
Abbreviation HealingAction := HealingAction.t.
Module HA := HealingAction.

(** The arithmetic of [u64] wraps. *)
Definition wrap_add64 (a b : N) : N := (a + b) mod (u64_MAX + 1).

Module SelfHealingState.
Record t : Type := mk {
  watcher_states : list (string * bool);
  oscillation_counts : list (string * N);
  cooldowns : list (string * N);
  consecutive_failures : N;
  restarted : bool;
  total_interventions : N;
}.

Definition new : t := mk [] [] [] 0 false 0.

Definition is_in_cooldown (watcher : string) (s : t) : bool :=
  existsb (λ e, string_eqb e.1 watcher && (0 <? e.2)%N) (cooldowns s).

Definition increment_oscillation (watcher : string) (s : t) : t * N :=
  match assoc_get watcher (oscillation_counts s) with
  | Some n =>
      (mk (watcher_states s) (assoc_alter (λ n, add32 n 1) watcher (oscillation_counts s))
         (cooldowns s) (consecutive_failures s) (restarted s) (total_interventions s), add32 n 1)
  | None =>
      (mk (watcher_states s) (oscillation_counts s ++ [(watcher, 1%N)]) (cooldowns s)
         (consecutive_failures s) (restarted s) (total_interventions s), 1%N)
  end.

Definition decay_oscillation (watcher : string) (s : t) : t :=
  mk (watcher_states s) (assoc_alter (λ n, sat_sub n 1) watcher (oscillation_counts s))
    (cooldowns s) (consecutive_failures s) (restarted s) (total_interventions s).

Definition enter_cooldown (watcher : string) (ticks : N) (s : t) : t :=
  mk (watcher_states s) (assoc_alter (λ _, 0%N) watcher (oscillation_counts s))
    (assoc_set watcher ticks (cooldowns s)) (consecutive_failures s) (restarted s)
    (total_interventions s).

Definition intervened (s : t) : t :=
  mk (watcher_states s) (oscillation_counts s) (cooldowns s) (consecutive_failures s)
    (restarted s) (wrap_add64 (total_interventions s) 1).

Definition observe_watcher (watcher : string) (firing : bool) (policy : SelfHealingPolicy)
    (s : t) : t * HealingAction :=
  if is_in_cooldown watcher s then (s, HA.None)
  else
    let was_firing := assoc_get watcher (watcher_states s) in
    let s1 := mk (assoc_set watcher firing (watcher_states s)) (oscillation_counts s)
      (cooldowns s) (consecutive_failures s) (restarted s) (total_interventions s) in
    match was_firing with
    | Some was =>
        if negb (Bool.eqb was firing) then
          let '(s2, count) := increment_oscillation watcher s1 in
          if (HP.max_oscillations policy <=? count)%N then
            (enter_cooldown watcher (HP.cooldown_ticks policy) (intervened s2),
             HA.ResetWatcher watcher)
          else (s2, HA.None)
        else (decay_oscillation watcher s1, HA.None)
    | None => (s1, HA.None)
    end.

Definition record_failure (policy : SelfHealingPolicy) (s : t) : t * HealingAction :=
  let failures := add32 (consecutive_failures s) 1 in
  if (HP.auto_restart_threshold policy <=? failures)%N then
    (mk (watcher_states s) (oscillation_counts s) (cooldowns s) 0 true
       (wrap_add64 (total_interventions s) 1), HA.AutoRestart)
  else
    (mk (watcher_states s) (oscillation_counts s) (cooldowns s) failures (restarted s)
       (total_interventions s), HA.None).

Definition record_success (s : t) : t :=
  mk (watcher_states s) (oscillation_counts s) (cooldowns s) 0 (restarted s)
    (total_interventions s).

Definition tick_cooldowns (s : t) : t * list string :=
  let ticked := (λ e : string * N, (e.1, sat_sub e.2 1)) <$> cooldowns s in
  (mk (watcher_states s) (oscillation_counts s) (List.filter (λ e, (0 <? e.2)%N) ticked)
     (consecutive_failures s) (restarted s) (total_interventions s),
   (List.filter (λ e, (e.2 =? 0)%N) ticked).*1).
End SelfHealingState.
Abbreviation SelfHealingState := SelfHealingState.t.
Module HL := SelfHealingState.

(** ** What one watcher sees

    A watcher has a last state, a count of its recent changes and the rest of its cooldown. *)

Module Watch.
Record t : Type := mk { was : option bool; changes : N; remaining : N }.
End Watch.
Abbreviation Watch := Watch.t.

Definition view (s : SelfHealingState) (w : string) : Watch :=
  Watch.mk (assoc_get w (HL.watcher_states s))
    (stdpp.option.default 0%N (assoc_get w (HL.oscillation_counts s)))
    (stdpp.option.default 0%N (assoc_get w (HL.cooldowns s))).

Lemma Watch_eq v v' :
  Watch.was v = Watch.was v' → Watch.changes v = Watch.changes v' →
  Watch.remaining v = Watch.remaining v' → v = v'.
Proof. destruct v, v'. cbn. by intros -> -> ->. Qed.

(** An observation, and whether it resets the watcher. *)
Definition observed (policy : SelfHealingPolicy) (firing : bool) (v : Watch) : Watch * bool :=
  if (0 <? Watch.remaining v)%N then (v, false)
  else
    match Watch.was v with
    | None => (Watch.mk (Some firing) (Watch.changes v) (Watch.remaining v), false)
    | Some was =>
        if Bool.eqb was firing then
          (Watch.mk (Some firing) (Watch.changes v - 1) (Watch.remaining v), false)
        else if (HP.max_oscillations policy <=? Watch.changes v + 1)%N then
          (Watch.mk (Some firing) 0 (HP.cooldown_ticks policy), true)
        else (Watch.mk (Some firing) (Watch.changes v + 1) (Watch.remaining v), false)
    end.

Section refinement.
Context (policy : SelfHealingPolicy).
Context (Hmax : (HP.max_oscillations policy ≤ u32_MAX)%N).

(** A name is listed once, and a count stays below the policy's bound. *)
Definition well_formed (s : SelfHealingState) : Prop :=
  NoDup (HL.watcher_states s).*1 ∧ NoDup (HL.oscillation_counts s).*1
  ∧ NoDup (HL.cooldowns s).*1
  ∧ ∀ w, (Watch.changes (view s w) < N.max 1 (HP.max_oscillations policy))%N.

Lemma new_well_formed : well_formed HL.new.
Proof. repeat split; try apply NoDup_nil_2. intros w. cbn. lia. Qed.

Lemma in_cooldown_view s w :
  NoDup (HL.cooldowns s).*1 → HL.is_in_cooldown w s = (0 <? Watch.remaining (view s w))%N.
Proof.
  intros Hn. apply eq_true_iff_eq. unfold HL.is_in_cooldown, string_eqb.
  rewrite existsb_exists, N.ltb_lt. cbn [view Watch.remaining]. split.
  - intros ([k v] & Hin%list_elem_of_In & [Hk Hv]%andb_prop). cbn [fst snd] in *.
    apply bool_decide_eq_true in Hk as ->. apply N.ltb_lt in Hv.
    apply (assoc_get_elem _ _ _ Hn) in Hin. by rewrite Hin.
  - intros H. destruct (assoc_get w (HL.cooldowns s)) as [v|] eqn:E; [|cbn in H; lia].
    exists (w, v). split; [by apply list_elem_of_In, assoc_get_elem|]. cbn in *.
    rewrite bool_decide_true by done. by apply N.ltb_lt.
Qed.

Lemma increment_count s w w' :
  (Watch.changes (view s w) < u32_MAX)%N →
  (HL.increment_oscillation w s).2 = (Watch.changes (view s w) + 1)%N
  ∧ stdpp.option.default 0%N
      (assoc_get w' (HL.oscillation_counts (HL.increment_oscillation w s).1)) =
    if string_eqb w w' then (Watch.changes (view s w) + 1)%N else Watch.changes (view s w').
Proof.
  unfold HL.increment_oscillation. cbn [view Watch.changes].
  destruct (assoc_get w (HL.oscillation_counts s)) as [n|] eqn:E; cbn [stdpp.option.default fst snd];
    intros Hn.
  - assert (add32 n 1 = n + 1)%N as Ha by (apply add32_small; cbn in Hn; lia).
    cbn [HL.oscillation_counts]. rewrite assoc_get_alter. unfold string_eqb.
    case_bool_decide as Hw; [|done]. subst. rewrite E. cbn. by rewrite Ha.
  - cbn [HL.oscillation_counts]. rewrite assoc_get_app. cbn [assoc_get]. unfold string_eqb.
    case_bool_decide as Hw.
    + subst. by rewrite E.
    + by destruct (assoc_get w' (HL.oscillation_counts s)).
Qed.

Lemma increment_nodup s w :
  NoDup (HL.oscillation_counts s).*1 →
  NoDup (HL.oscillation_counts (HL.increment_oscillation w s).1).*1.
Proof.
  intros H. unfold HL.increment_oscillation.
  destruct (assoc_get w (HL.oscillation_counts s)) as [n|] eqn:E; cbn [fst HL.oscillation_counts].
  - by rewrite assoc_alter_keys.
  - pose proof (assoc_set_nodup w 1%N _ H) as Hs. unfold assoc_set in Hs. by rewrite E in Hs.
Qed.

Lemma increment_keeps s w :
  let s' := (HL.increment_oscillation w s).1 in
  HL.watcher_states s' = HL.watcher_states s ∧ HL.cooldowns s' = HL.cooldowns s
  ∧ HL.consecutive_failures s' = HL.consecutive_failures s ∧ HL.restarted s' = HL.restarted s
  ∧ HL.total_interventions s' = HL.total_interventions s.
Proof. unfold HL.increment_oscillation. by destruct (assoc_get w _). Qed.

(** What is not a watcher's. *)
Definition failures (s : SelfHealingState) : N * bool :=
  (HL.consecutive_failures s, HL.restarted s).

Lemma observe_nodup s w firing :
  well_formed s →
  let s' := (HL.observe_watcher w firing policy s).1 in
  NoDup (HL.watcher_states s').*1 ∧ NoDup (HL.oscillation_counts s').*1
  ∧ NoDup (HL.cooldowns s').*1.
Proof.
  intros (Hs & Ho & Hc & _). unfold HL.observe_watcher. cbv zeta.
  destruct (HL.is_in_cooldown w s); [done|].
  set (s1 := HL.mk (assoc_set w firing (HL.watcher_states s)) _ _ _ _ _).
  assert (NoDup (HL.watcher_states s1).*1) as Hs1 by (by apply assoc_set_nodup).
  pose proof (increment_nodup s1 w Ho) as Hi.
  pose proof (increment_keeps s1 w) as (Ew & Ec & _). cbv zeta in Ew, Ec.
  destruct (assoc_get w (HL.watcher_states s)) as [was|]; [|done].
  destruct (negb (Bool.eqb was firing)).
  - destruct (HL.increment_oscillation w s1) as [s2 count]. cbn [fst] in *.
    rewrite <- Ew in Hs1. destruct (HP.max_oscillations policy <=? count)%N.
    + split; [done|]. split; cbn [fst HL.enter_cooldown HL.intervened HL.oscillation_counts
        HL.cooldowns]; [by rewrite assoc_alter_keys|]. apply assoc_set_nodup. by rewrite Ec.
    + split; [done|]. split; [done|]. cbn [fst]. by rewrite Ec.
  - split; [done|]. split; [|done]. cbn. by rewrite assoc_alter_keys.
Qed.

Lemma observe_view s w firing w' :
  well_formed s →
  let r := HL.observe_watcher w firing policy s in
  let o := observed policy firing (view s w) in
  view r.1 w' = (if string_eqb w w' then o.1 else view s w')
  ∧ r.2 = (if o.2 then HA.ResetWatcher w else HA.None)
  ∧ failures r.1 = failures s
  ∧ HL.total_interventions r.1 =
      (if o.2 then wrap_add64 (HL.total_interventions s) 1 else HL.total_interventions s).
Proof.
  intros (Hs & Ho & Hc & Hb). unfold HL.observe_watcher, observed. cbv zeta.
  rewrite (in_cooldown_view s w Hc).
  destruct (N.ltb_spec 0 (Watch.remaining (view s w))) as [_|Hr].
  { repeat split. unfold string_eqb. case_bool_decide; by subst. }
  set (s1 := HL.mk (assoc_set w firing (HL.watcher_states s)) _ _ _ _ _).
  assert (Watch.changes (view s1 w) < u32_MAX)%N as Hlt.
  { specialize (Hb w). unfold u32_MAX in *. change (view s1 w) with
      (Watch.mk (assoc_get w (HL.watcher_states s1)) (Watch.changes (view s w))
        (Watch.remaining (view s w))). cbn [Watch.changes]. lia. }
  destruct (increment_count s1 w w' Hlt) as [Hcount Hosc].
  change (Watch.changes (view s1 w)) with (Watch.changes (view s w)) in Hcount, Hosc.
  change (Watch.changes (view s1 w')) with (Watch.changes (view s w')) in Hosc.
  pose proof (increment_keeps s1 w) as (Ew & Ec & Ef & Er & Et). cbv zeta in Ew, Ec, Ef, Er, Et.
  assert (assoc_get w' (HL.watcher_states s1) =
    if string_eqb w w' then Some firing else Watch.was (view s w')) as Hwas
    by apply assoc_get_set.
  change (assoc_get w (HL.watcher_states s)) with (Watch.was (view s w)).
  destruct (Watch.was (view s w)) as [was|] eqn:Ewas.
  2:{ repeat split. apply Watch_eq; cbn [fst view Watch.was Watch.changes Watch.remaining];
        rewrite ?Hwas; unfold string_eqb; case_bool_decide; by subst. }
  destruct (Bool.eqb was firing) eqn:Eb; cbn [negb].
  { repeat split. unfold string_eqb in *.
    apply Watch_eq; cbn [fst view HL.decay_oscillation HL.watcher_states HL.cooldowns
      HL.oscillation_counts Watch.was Watch.changes Watch.remaining].
    - rewrite Hwas. by case_bool_decide.
    - rewrite assoc_get_alter. unfold string_eqb, sat_sub. case_bool_decide; [|done]. subst w'.
      cbn. by destruct (assoc_get w (HL.oscillation_counts s)).
    - case_bool_decide; by subst. }
  destruct (HL.increment_oscillation w s1) as [s2 count]. cbn [fst snd] in *. subst count.
  destruct (HP.max_oscillations policy <=? Watch.changes (view s w) + 1)%N; cbn [fst snd].
  - unfold string_eqb in *. split; [|unfold failures; cbn; by rewrite Ef, Er, Et].
    apply Watch_eq; cbn [view HL.enter_cooldown HL.intervened HL.watcher_states HL.cooldowns
      HL.oscillation_counts Watch.was Watch.changes Watch.remaining].
    + rewrite Ew, Hwas. by case_bool_decide.
    + rewrite assoc_get_alter. unfold string_eqb. case_bool_decide; [|exact Hosc]. subst w'.
      by destruct (assoc_get w (HL.oscillation_counts s2)).
    + rewrite assoc_get_set, Ec. unfold string_eqb. by case_bool_decide.
  - unfold string_eqb in *. split; [|unfold failures; by rewrite Ef, Er, Et].
    apply Watch_eq; cbn [view Watch.was Watch.changes Watch.remaining].
    + rewrite Ew, Hwas. by case_bool_decide.
    + rewrite Hosc. by case_bool_decide.
    + rewrite Ec. case_bool_decide; by subst.
Qed.

Lemma observed_bound firing v :
  (Watch.changes v < N.max 1 (HP.max_oscillations policy))%N →
  (Watch.changes (observed policy firing v).1 < N.max 1 (HP.max_oscillations policy))%N.
Proof.
  intros H. unfold observed. destruct (0 <? Watch.remaining v)%N; [done|].
  destruct (Watch.was v) as [was|]; [|done]. destruct (Bool.eqb was firing); cbn; [lia|].
  destruct (N.leb_spec (HP.max_oscillations policy) (Watch.changes v + 1)); cbn; lia.
Qed.

(** Observing a watcher follows its own state, and touches no other watcher. *)
Theorem observe_refines s w firing :
  well_formed s →
  let r := HL.observe_watcher w firing policy s in
  let o := observed policy firing (view s w) in
  well_formed r.1
  ∧ view r.1 w = o.1
  ∧ r.2 = (if o.2 then HA.ResetWatcher w else HA.None)
  ∧ (∀ w', w' ≠ w → view r.1 w' = view s w')
  ∧ failures r.1 = failures s
  ∧ HL.total_interventions r.1 =
      (if o.2 then wrap_add64 (HL.total_interventions s) 1 else HL.total_interventions s).
Proof.
  intros Hw. cbv zeta. destruct (observe_view s w firing w Hw) as (Hv & Ha & Hf & Ht).
  unfold string_eqb in Hv. rewrite bool_decide_true in Hv by done.
  assert (∀ w', w' ≠ w → view (HL.observe_watcher w firing policy s).1 w' = view s w') as Hother.
  { intros w' Hne. destruct (observe_view s w firing w' Hw) as (-> & _). unfold string_eqb.
    by rewrite bool_decide_false. }
  split; [|done]. destruct (observe_nodup s w firing Hw) as (H1 & H2 & H3).
  split; [done|]. split; [done|]. split; [done|]. destruct Hw as (_ & _ & _ & Hb). intros w'.
  destruct (decide (w' = w)) as [->|Hne]; [rewrite Hv; by apply observed_bound|].
  by rewrite Hother.
Qed.
Lemma ticked_get w (l : list (string * N)) :
  NoDup l.*1 →
  stdpp.option.default 0%N
    (assoc_get w (List.filter (λ e, (0 <? e.2)%N) ((λ e : string * N, (e.1, sat_sub e.2 1)) <$> l)))
  = (stdpp.option.default 0 (assoc_get w l) - 1)%N.
Proof.
  induction l as [|[k n] l IH]; [done|]. rewrite !fmap_cons. cbn [fst snd List.filter assoc_get].
  intros [Hk Hl]%NoDup_cons. specialize (IH Hl). change (sat_sub n 1) with (n - 1)%N.
  destruct (N.ltb_spec 0 (n - 1)) as [Hn|Hn]; cbn [assoc_get]; unfold string_eqb;
    destruct (bool_decide_reflect (k = w)) as [->|Hne]; try done.
  apply assoc_get_None in Hk. rewrite IH, Hk. cbn. lia.
Qed.

Lemma ticked_nodup (l : list (string * N)) :
  NoDup l.*1 →
  NoDup (List.filter (λ e, (0 <? e.2)%N) ((λ e : string * N, (e.1, sat_sub e.2 1)) <$> l)).*1.
Proof.
  induction l as [|[k n] l IH]; [done|]. rewrite !fmap_cons. cbn [fst snd List.filter].
  intros [Hk Hl]%NoDup_cons. specialize (IH Hl). destruct (0 <? sat_sub n 1)%N; [|done].
  cbn. apply NoDup_cons. split; [|done]. intros ([k' m] & -> & Hin)%list_elem_of_fmap.
  apply list_elem_of_In, filter_In in Hin as [Hin _].
  apply list_elem_of_In, list_elem_of_fmap in Hin as ([k'' m'] & [= -> _] & Hin).
  apply Hk, list_elem_of_fmap. by exists (k'', m').
Qed.

(** A tick takes one from every cooldown; it names those that end. *)
Theorem tick_refines s :
  well_formed s →
  let r := HL.tick_cooldowns s in
  well_formed r.1
  ∧ (∀ w, view r.1 w =
       Watch.mk (Watch.was (view s w)) (Watch.changes (view s w)) (Watch.remaining (view s w) - 1))
  ∧ (∀ w, w ∈ r.2 ↔ ∃ n, assoc_get w (HL.cooldowns s) = Some n ∧ (n ≤ 1)%N)
  ∧ failures r.1 = failures s ∧ HL.total_interventions r.1 = HL.total_interventions s.
Proof.
  intros (Hs & Ho & Hc & Hb). cbv zeta.
  assert (∀ w, view (HL.tick_cooldowns s).1 w =
    Watch.mk (Watch.was (view s w)) (Watch.changes (view s w)) (Watch.remaining (view s w) - 1)) as Hv.
  { intros w. apply Watch_eq; [done..|].
    cbn [view HL.tick_cooldowns fst HL.cooldowns Watch.remaining]. by apply ticked_get. }
  split; [|split; [exact Hv|split; [|done]]].
  - split; [done|]. split; [done|]. split; [by apply ticked_nodup|]. intros w. rewrite Hv. apply Hb.
  - intros w. cbn [HL.tick_cooldowns snd]. rewrite list_elem_of_fmap. split.
    + intros ([k n] & -> & [Hin He]%list_elem_of_In%filter_In). cbn [fst snd] in *.
      apply list_elem_of_In, list_elem_of_fmap in Hin as ([k' m] & [= -> ->] & Hin).
      exists m. rewrite <- assoc_get_elem by done. split; [done|].
      unfold sat_sub in He. apply N.eqb_eq in He. lia.
    + intros (n & Hn & Hle). apply assoc_get_elem in Hn; [|done]. exists (w, 0%N). split; [done|].
      apply list_elem_of_In, filter_In. split; [|done]. apply list_elem_of_In, list_elem_of_fmap.
      exists (w, n). split; [|done]. unfold sat_sub. cbn. f_equal. lia.
Qed.

(** ** Histories *)

Inductive Event : Type :=
  | Observe (w : string) (firing : bool)
  | Failure
  | Success
  | Tick.

Definition respond (e : Event) (s : SelfHealingState) : SelfHealingState * HealingAction :=
  match e with
  | Observe w firing => HL.observe_watcher w firing policy s
  | Failure => HL.record_failure policy s
  | Success => (HL.record_success s, HA.None)
  | Tick => ((HL.tick_cooldowns s).1, HA.None)
  end.

Fixpoint history (es : list Event) (s : SelfHealingState) : SelfHealingState * list HealingAction :=
  match es with
  | [] => (s, [])
  | e :: es' =>
      let '(s1, a) := respond e s in
      let '(s2, acts) := history es' s1 in (s2, a :: acts)
  end.

Definition count {A} (f : A → bool) (l : list A) : N := N.of_nat (length (List.filter f l)).

Definition is_tick (e : Event) : bool := match e with Tick => true | _ => false end.
Definition observes (w : string) (e : Event) : bool :=
  match e with Observe w' _ => string_eqb w' w | _ => false end.
Definition resets (w : string) (a : HealingAction) : bool :=
  bool_decide (a = HA.ResetWatcher w).

Lemma history_count_cons {A} (f : A → bool) x l : count f (x :: l) = ((if f x then 1 else 0) + count f l)%N.
Proof. unfold count. cbn. destruct (f x); cbn [length]; lia. Qed.

(** One event, seen by one watcher. *)
Definition seen (w : string) (e : Event) (v : Watch) : Watch * bool :=
  match e with
  | Observe w' firing => if string_eqb w' w then observed policy firing v else (v, false)
  | Tick => (Watch.mk (Watch.was v) (Watch.changes v) (Watch.remaining v - 1), false)
  | _ => (v, false)
  end.

Lemma respond_seen e s w :
  well_formed s →
  let r := respond e s in
  well_formed r.1 ∧ view r.1 w = (seen w e (view s w)).1
  ∧ resets w r.2 = (seen w e (view s w)).2.
Proof.
  intros Hw. destruct e as [w' firing| | |]; cbn [respond seen].
  - destruct (observe_refines s w' firing Hw) as (H1 & H2 & H3 & H4 & _).
    unfold string_eqb, resets. split; [done|]. rewrite H3.
    destruct (bool_decide_reflect (w' = w)) as [->|Hne].
    + split; [done|]. destruct (observed policy firing (view s w)).2;
        [by apply bool_decide_true|by apply bool_decide_false].
    + split; [by apply H4|]. destruct (observed policy firing (view s w')).2; cbn;
        apply bool_decide_false; congruence.
  - unfold HL.record_failure. by destruct (_ <=? _)%N.
  - done.
  - destruct (tick_refines s Hw) as (H1 & H2 & _). cbn [fst snd]. split; [done|].
    split; [by rewrite H2|done].
Qed.

Lemma history_cons e es s :
  history (e :: es) s =
    ((history es (respond e s).1).1, (respond e s).2 :: (history es (respond e s).1).2).
Proof.
  cbn [history]. destruct (respond e s) as [s1 a]. cbn [fst snd]. by destruct (history es s1).
Qed.

Lemma history_well_formed es s : well_formed s → well_formed (history es s).1.
Proof.
  revert s. induction es as [|e es IH]; intros s Hs; [done|]. rewrite history_cons. cbn [fst].
  apply IH, (respond_seen e s "" Hs).
Qed.

(** A watcher in cooldown for [n] ticks stays in it, and is not reset, before the [n]-th. *)
Lemma cooldown_counts es s w :
  well_formed s → (count is_tick es < Watch.remaining (view s w))%N →
  Watch.remaining (view (history es s).1 w) = (Watch.remaining (view s w) - count is_tick es)%N
  ∧ count (resets w) (history es s).2 = 0%N.
Proof.
  revert s. induction es as [|e es IH]; intros s Hs Hlt.
  { unfold count. cbn. split; [lia|done]. }
  rewrite history_cons. cbn [fst snd]. rewrite !history_count_cons in *.
  destruct (respond_seen e s w Hs) as (Hs' & Hv & Hr). cbv zeta in *.
  assert (Watch.remaining (view (respond e s).1 w) =
    (Watch.remaining (view s w) - if is_tick e then 1 else 0)%N
    ∧ resets w (respond e s).2 = false) as [Hrem Hno].
  { rewrite Hv, Hr. unfold seen, observed.
    destruct (N.ltb_spec 0 (Watch.remaining (view s w))); [|lia].
    destruct e as [w' f| | |]; cbn; try (split; [lia|done]).
    destruct (string_eqb w' w); cbn; split; solve [lia|done]. }
  destruct (IH _ Hs') as [IH1 IH2]; [rewrite Hrem; revert Hlt; destruct (is_tick e); lia|].
  rewrite Hno, IH1, IH2, Hrem. split; [destruct (is_tick e); lia|done].
Qed.

(** A watcher is reset at most once per [max_oscillations] observations of it. *)
Lemma resets_counted es s w :
  well_formed s →
  (HP.max_oscillations policy * count (resets w) (history es s).2
     + Watch.changes (view (history es s).1 w)
   ≤ Watch.changes (view s w) + count (observes w) es)%N.
Proof.
  revert s. induction es as [|e es IH]; intros s Hs; [unfold count; cbn; lia|].
  rewrite history_cons. cbn [fst snd]. rewrite !history_count_cons.
  destruct (respond_seen e s w Hs) as (Hs' & Hv & Hr). cbv zeta in *.
  specialize (IH _ Hs'). rewrite Hv, Hr in *.
  enough (HP.max_oscillations policy * (if (seen w e (view s w)).2 then 1 else 0)
    + Watch.changes (seen w e (view s w)).1 ≤
    Watch.changes (view s w) + if observes w e then 1 else 0)%N by nia.
  destruct e as [w' f| | |]; cbn [seen observes fst snd Watch.changes]; try lia.
  destruct (string_eqb w' w); [|cbn [fst snd]; lia]. unfold observed.
  destruct (0 <? _)%N; [cbn [fst snd]; lia|].
  destruct (Watch.was (view s w)) as [b|]; [|cbn [fst snd Watch.changes]; lia].
  destruct (Bool.eqb b f); [cbn [fst snd Watch.changes]; lia|].
  destruct (N.leb_spec (HP.max_oscillations policy) (Watch.changes (view s w) + 1));
    cbn [fst snd Watch.changes]; lia.
Qed.

(** A watcher is reset only when it has changed [max_oscillations] times, and then it is left
    alone until the [cooldown_ticks]-th tick: whatever comes before, it is in cooldown and not
    reset; with that tick the cooldown ends. *)
Theorem reset_then_cooldown es w firing es' :
  let s := (history es HL.new).1 in
  let r := HL.observe_watcher w firing policy s in
  r.2 = HA.ResetWatcher w →
  let s' := (history es' r.1).1 in
  ((count is_tick es' < HP.cooldown_ticks policy)%N →
     HL.is_in_cooldown w s' = true ∧ HA.ResetWatcher w ∉ (history es' r.1).2)
  ∧ ((count is_tick es' + 1 = HP.cooldown_ticks policy)%N →
       HL.is_in_cooldown w (HL.tick_cooldowns s').1 = false).
Proof.
  cbv zeta. intros Hr. pose proof (history_well_formed es HL.new new_well_formed) as Hs.
  set (s := (history es HL.new).1) in *.
  destruct (observe_refines s w firing Hs) as (Hs1 & Hv & Ha & _). cbv zeta in *.
  assert (Watch.remaining (view (HL.observe_watcher w firing policy s).1 w) =
    HP.cooldown_ticks policy) as Hrem.
  { rewrite Hv. rewrite Ha in Hr. unfold observed in *.
    destruct (0 <? Watch.remaining (view s w))%N; [done|].
    destruct (Watch.was (view s w)) as [b|]; [|done].
    destruct (Bool.eqb b firing); [done|]. by destruct (_ <=? _)%N. }
  set (s1 := (HL.observe_watcher w firing policy s).1) in *.
  assert (count is_tick es' < HP.cooldown_ticks policy →
    Watch.remaining (view (history es' s1).1 w) = HP.cooldown_ticks policy - count is_tick es'
    ∧ count (resets w) (history es' s1).2 = 0)%N as Hc.
  { rewrite <- Hrem. by apply cooldown_counts. }
  pose proof (history_well_formed es' s1 Hs1) as Hs'. split.
  - intros Hlt. destruct (Hc Hlt) as [H1 H2]. split.
    + rewrite in_cooldown_view by apply Hs'. apply N.ltb_lt. lia.
    + intros Hin. unfold count in H2. apply list_elem_of_In in Hin.
      assert (HA.ResetWatcher w ∈ List.filter (resets w) (history es' s1).2) as Hf.
      { apply list_elem_of_In, filter_In. split; [done|]. by apply bool_decide_true. }
      destruct (List.filter _ _); [by apply elem_of_nil in Hf|cbn in H2; lia].
  - intros He. destruct Hc as [H1 _]; [lia|].
    destruct (tick_refines _ Hs') as (Ht & Htv & _).
    rewrite in_cooldown_view by apply Ht. rewrite Htv. cbn [Watch.remaining].
    apply N.ltb_ge. lia.
Qed.

(** From the start, [n] resets of a watcher take [n * max_oscillations] observations of it. *)
Theorem resets_bounded es w :
  (HP.max_oscillations policy * count (resets w) (history es HL.new).2
   ≤ count (observes w) es)%N.
Proof. pose proof (resets_counted es HL.new w new_well_formed) as H. cbn in H. lia. Qed.
End refinement.

(** ** Restarts *)

(** The failures since the last success. *)
Definition streak (es : list Event) : N :=
  foldl (λ n e, match e with Failure => n + 1 | Success => 0 | _ => n end)%N 0%N es.

Section restarts.
Context (policy : SelfHealingPolicy).
Context (Hthreshold : (HP.auto_restart_threshold policy ≤ u32_MAX)%N).

Let period : N := N.max 1 (HP.auto_restart_threshold policy).

Lemma mod_succ n :
  ((n + 1) mod period = if period <=? n mod period + 1 then 0 else n mod period + 1)%N.
Proof.
  assert (period ≠ 0)%N as Hp by (unfold period; lia). pose proof (N.mod_lt n period Hp).
  destruct (N.leb_spec period (n mod period + 1)).
  - rewrite <- N.Div0.add_mod_idemp_l. replace (n mod period + 1)%N with period by lia.
    by apply N.Div0.mod_same.
  - rewrite <- N.Div0.add_mod_idemp_l. by apply N.mod_small.
Qed.

Lemma failures_respond e s :
  failures (respond policy e s).1 =
    match e with
    | Failure => failures (HL.record_failure policy s).1
    | Success => (0%N, HL.restarted s)
    | _ => failures s
    end.
Proof.
  destruct e as [w' f| | |]; try done. cbn [respond]. unfold HL.observe_watcher.
  destruct (HL.is_in_cooldown w' s); [done|]. cbv zeta.
  destruct (assoc_get w' (HL.watcher_states s)) as [b|]; [|done].
  destruct (negb (Bool.eqb b f)); [|done].
  set (s1 := HL.mk _ _ _ _ _ _). pose proof (increment_keeps s1 w') as (_ & _ & Ef & Er & _).
  destruct (HL.increment_oscillation w' s1) as [s2 n]. cbv zeta in *. cbn [fst] in *.
  destruct (_ <=? n)%N; unfold failures; cbn; by rewrite Ef, Er.
Qed.

Lemma history_snoc es e s :
  (history policy (es ++ [e]) s).1 = (respond policy e (history policy es s).1).1.
Proof.
  revert s. induction es as [|x es IH]; intros s; cbn [app].
  - cbn. by destruct (respond policy e s).
  - rewrite !history_cons. cbn [fst]. apply IH.
Qed.

Lemma consecutive_is_streak es :
  HL.consecutive_failures (history policy es HL.new).1 = (streak es mod period)%N.
Proof.
  induction es as [|e es IH] using rev_ind; [done|]. rewrite history_snoc.
  pose proof (failures_respond e (history policy es HL.new).1) as Hf.
  apply (f_equal fst) in Hf. unfold failures in Hf at 1. cbn [fst] in Hf. rewrite Hf. clear Hf.
  unfold streak in *. rewrite foldl_app. cbn [foldl].
  set (n := foldl _ _ es) in *. assert (period ≠ 0)%N as Hp by (unfold period; lia).
  pose proof (N.mod_lt n period Hp) as Hlt.
  destruct e as [w' f| | |]; [exact IH| |by rewrite N.Div0.mod_0_l|exact IH].
  rewrite mod_succ. unfold HL.record_failure. rewrite IH. unfold period in *.
  rewrite add32_small by (unfold u32_MAX in *; lia). cbv zeta.
  destruct (N.leb_spec (HP.auto_restart_threshold policy) (n mod N.max 1 (HP.auto_restart_threshold policy) + 1)),
    (N.leb_spec (N.max 1 (HP.auto_restart_threshold policy)) (n mod N.max 1 (HP.auto_restart_threshold policy) + 1));
    cbn; lia.
Qed.

(** Of the failures since the last success every [auto_restart_threshold]-th restarts. *)
Theorem restart_spec es :
  (HL.record_failure policy (history policy es HL.new).1).2 = HA.AutoRestart ↔
    (N.max 1 (HP.auto_restart_threshold policy) | streak es + 1)%N.
Proof.
  assert (period ≠ 0)%N as Hp by (unfold period; lia).
  unfold HL.record_failure. rewrite consecutive_is_streak.
  pose proof (N.mod_lt (streak es) period Hp) as Hlt. rewrite <- N.Lcm0.mod_divide.
  fold period. rewrite mod_succ. unfold period in *.
  rewrite add32_small by (unfold u32_MAX in *; lia). cbv zeta.
  set (m := (streak es mod _)%N) in *.
  destruct (N.leb_spec (HP.auto_restart_threshold policy) (m + 1)),
    (N.leb_spec (N.max 1 (HP.auto_restart_threshold policy)) (m + 1)); cbn [snd];
    split; intros; solve [done|lia].
Qed.
End restarts.

(** ** Concrete histories *)

Definition policy3 : SelfHealingPolicy := HP.mk 3 5 10.
Definition flapping : list Event := Observe "ghost-turn" <$> [true; false; true].

Example reset_then_cooldown_witness :
  let s := (history policy3 flapping HL.new).1 in
  let r := HL.observe_watcher "ghost-turn" false policy3 s in
  r.2 = HA.ResetWatcher "ghost-turn"
  ∧ HL.is_in_cooldown "ghost-turn"
      (history policy3 [Tick; Tick; Observe "ghost-turn" true; Tick; Tick] r.1).1 = true
  ∧ HL.is_in_cooldown "ghost-turn"
      (HL.tick_cooldowns (history policy3 [Tick; Tick; Observe "ghost-turn" true; Tick; Tick] r.1).1).1
    = false.
Proof.
  cbv zeta. split; [by vm_compute|]. split.
  - eapply (reset_then_cooldown policy3 ltac:(done) flapping "ghost-turn" false
      [Tick; Tick; Observe "ghost-turn" true; Tick; Tick]); by vm_compute.
  - eapply (reset_then_cooldown policy3 ltac:(done) flapping "ghost-turn" false
      [Tick; Tick; Observe "ghost-turn" true; Tick; Tick]); by vm_compute.
Defined.

Example restart_spec_witness :
  (HL.record_failure HP.default
     (history HP.default [Failure; Success; Failure; Tick; Failure] HL.new).1).2 = HA.AutoRestart.
Proof. apply (restart_spec HP.default ltac:(done)). by exists 1%N. Defined.

(** No cooldown at all: the reset watcher is observed again at once, yet the next tick names
    it as leaving its cooldown. *)
Example cooldown_of_no_ticks :
  let policy := HP.mk 1 0 10 in
  let r := HL.observe_watcher "w" false policy (HL.observe_watcher "w" true policy HL.new).1 in
  r.2 = HA.ResetWatcher "w" ∧ HL.is_in_cooldown "w" r.1 = false
  ∧ (HL.tick_cooldowns r.1).2 = ["w"].
Proof. by vm_compute. Qed.

(** ** Health checks of the conductor (crates/roko-conductor/src/health.rs)

    The checks over a snapshot of the system, and the worst of them as the overall status. *)

From Stdlib Require Import SpecFloat.

#[local] Arguments F64.of_Z : simpl never.

Module HealthStatus.
Inductive t : Type := Healthy | Degraded | Critical.

#[global] Instance t_eq_dec : EqDecision t.
Proof. solve_decision. Defined.

(** The derived order. *)
Definition rank (s : t) : nat := match s with Healthy => 0 | Degraded => 1 | Critical => 2 end.
End HealthStatus.
Abbreviation HealthStatus := HealthStatus.t.
Module HS := HealthStatus.

Module HealthCheckResult.
Record t : Type := mk {
  name : string;
  status : HealthStatus;
  message : string;
  checked_at_ms : Z;
}.

Definition healthy (name message : string) (at_ms : Z) : t := mk name HS.Healthy message at_ms.
Definition degraded (name message : string) (at_ms : Z) : t := mk name HS.Degraded message at_ms.
Definition critical (name message : string) (at_ms : Z) : t := mk name HS.Critical message at_ms.
End HealthCheckResult.
Abbreviation HealthCheckResult := HealthCheckResult.t.
Module HC := HealthCheckResult.

Module SystemSnapshot.
Record t : Type := mk {
  active_agents : N;
  expected_agents : N;
  last_agent_heartbeat_ms : Z;
  chain_connected : bool;
  chain_expected : bool;
  spec_hash_at_start : string;
  spec_hash_current : string;
  coverage_history : list F64.t;
  now_ms : Z;
  heartbeat_timeout_ms : Z;
}.

Definition default : t := mk 0 0 0 false false "" "" [] 0 0.
End SystemSnapshot.
Abbreviation SystemSnapshot := SystemSnapshot.t.
Module SY := SystemSnapshot.

(** The arithmetic of [i64] wraps. *)
Definition wrap_i64 (z : Z) : Z := (z - i64_MIN) mod 18446744073709551616 + i64_MIN.

(** ** The checks *)

Definition heartbeat_timeout (s : SystemSnapshot) : Z :=
  if (0 <? SY.heartbeat_timeout_ms s)%Z then SY.heartbeat_timeout_ms s else 60000.

Definition check_terminal_liveness (s : SystemSnapshot) : HealthCheckResult :=
  let now := SY.now_ms s in
  if (SY.expected_agents s =? 0)%N then HC.healthy "terminal_liveness" "no agents expected" now
  else if (SY.last_agent_heartbeat_ms s <=? 0)%Z then
    HC.critical "terminal_liveness" "no heartbeat received while agents are expected" now
  else
    let staleness := wrap_i64 (now - SY.last_agent_heartbeat_ms s) in
    if (heartbeat_timeout s <? staleness)%Z then
      HC.degraded "terminal_liveness"
        ("agent heartbeat stale by "
           +:+ fmt_fixed 0 (F64.div (F64.of_Z staleness) (F64.of_Z 1000)) +:+ "s") now
    else HC.healthy "terminal_liveness" "heartbeat within threshold" now.

Definition check_agent_status (s : SystemSnapshot) : HealthCheckResult :=
  let now := SY.now_ms s in
  let counted := fmt_N (SY.active_agents s) +:+ "/" +:+ fmt_N (SY.expected_agents s)
    +:+ " expected agents active" in
  if (SY.expected_agents s =? 0)%N then HC.healthy "agent_status" "no agents expected" now
  else if (SY.active_agents s =? 0)%N then
    HC.critical "agent_status" ("0/" +:+ fmt_N (SY.expected_agents s) +:+ " expected agents active")
      now
  else if (SY.active_agents s <? SY.expected_agents s)%N then
    HC.degraded "agent_status" counted now
  else HC.healthy "agent_status" counted now.

Definition check_chain_status (s : SystemSnapshot) : HealthCheckResult :=
  let now := SY.now_ms s in
  if negb (SY.chain_expected s) then HC.healthy "chain_status" "chain not required" now
  else if SY.chain_connected s then HC.healthy "chain_status" "chain connected" now
  else HC.degraded "chain_status" "chain connection lost" now.

Definition check_spec_drift (s : SystemSnapshot) : HealthCheckResult :=
  let now := SY.now_ms s in
  if str_is_empty (SY.spec_hash_at_start s) || str_is_empty (SY.spec_hash_current s) then
    HC.healthy "spec_drift" "no spec tracking" now
  else if string_eqb (SY.spec_hash_at_start s) (SY.spec_hash_current s) then
    HC.healthy "spec_drift" "spec unchanged" now
  else
    HC.degraded "spec_drift"
      "spec changed since agents started; agents may be working on stale requirements" now.

(** [sum()] of floats starts from [-0.0]. *)
Definition average (l : list F64.t) : F64.t :=
  F64.div (foldl F64.add (S754_zero true) l) (F64.of_Z (Z.of_nat (length l))).

(** [{:+.1}] *)
Definition fmt_signed (d : nat) (f : F64.t) : string :=
  (if F64.is_nan f || sign_of f then "" else "+") +:+ fmt_fixed d f.

Definition earlier (s : SystemSnapshot) : list F64.t :=
  take (length (SY.coverage_history s) / 2) (SY.coverage_history s).
Definition recent (s : SystemSnapshot) : list F64.t :=
  drop (length (SY.coverage_history s) / 2) (SY.coverage_history s).
Definition coverage_delta (s : SystemSnapshot) : F64.t :=
  F64.sub (average (recent s)) (average (earlier s)).

Definition check_coverage_trend (s : SystemSnapshot) : HealthCheckResult :=
  let now := SY.now_ms s in
  if (length (SY.coverage_history s) <? 3)%nat then
    HC.healthy "coverage_trend" "insufficient data for trend analysis" now
  else
    let shown :=
      "earlier avg " +:+ fmt_fixed 1 (average (earlier s)) +:+ "% -> recent avg "
        +:+ fmt_fixed 1 (average (recent s)) +:+ "% (" +:+ fmt_signed 1 (coverage_delta s)
        +:+ "%)" in
    if F64.lt (coverage_delta s) (F64.of_Z (-2)) then
      HC.degraded "coverage_trend" ("coverage declining: " +:+ shown) now
    else HC.healthy "coverage_trend" ("coverage stable/improving: " +:+ shown) now.

(** ** The monitor *)

Definition checks : list (SystemSnapshot → HealthCheckResult) :=
  [check_terminal_liveness; check_agent_status; check_spec_drift; check_coverage_trend].

Definition check_all (s : SystemSnapshot) : list HealthCheckResult :=
  (λ (c : SystemSnapshot → HealthCheckResult), c s) <$> checks.

(** [iter().max()]: the last of the greatest. *)
Definition max_status (l : list HealthStatus) : option HealthStatus :=
  foldl (λ best x,
    match best with
    | Some b => if (HS.rank b <=? HS.rank x)%nat then Some x else Some b
    | None => Some x
    end) None l.

Definition overall_status (s : SystemSnapshot) : HealthStatus :=
  stdpp.option.default HS.Healthy (max_status (HC.status <$> check_all s)).

(** ** What the status means *)

(** Nothing is heard from the agents, or none runs. *)
Definition agents_gone (s : SystemSnapshot) : Prop :=
  (SY.expected_agents s ≠ 0)%N
  ∧ ((SY.last_agent_heartbeat_ms s ≤ 0)%Z ∨ SY.active_agents s = 0%N).

(** The last heartbeat is recent, and as many agents run as expected. *)
Definition agents_well (s : SystemSnapshot) : Prop :=
  SY.expected_agents s = 0%N
  ∨ (0 < SY.last_agent_heartbeat_ms s)%Z
    ∧ (SY.now_ms s - SY.last_agent_heartbeat_ms s ≤ heartbeat_timeout s)%Z
    ∧ (SY.expected_agents s ≤ SY.active_agents s)%N.

Definition spec_kept (s : SystemSnapshot) : Prop :=
  SY.spec_hash_at_start s = "" ∨ SY.spec_hash_current s = ""
  ∨ SY.spec_hash_at_start s = SY.spec_hash_current s.

Definition coverage_kept (s : SystemSnapshot) : Prop :=
  (length (SY.coverage_history s) < 3)%nat
  ∨ F64.lt (coverage_delta s) (F64.of_Z (-2)) = false.

(** Times of the era: their differences do not wrap. *)
Definition sane_clock (s : SystemSnapshot) : Prop := (0 ≤ SY.now_ms s ≤ i64_MAX)%Z
  ∧ (i64_MIN ≤ SY.last_agent_heartbeat_ms s ≤ i64_MAX)%Z.

Lemma wrap_i64_id z : is_i64 z → wrap_i64 z = z.
Proof. unfold is_i64, wrap_i64, i64_MIN, i64_MAX. intros H. rewrite Z.mod_small; lia. Qed.

Lemma liveness_status s :
  sane_clock s →
  HC.status (check_terminal_liveness s) =
    if (SY.expected_agents s =? 0)%N then HS.Healthy
    else if (SY.last_agent_heartbeat_ms s <=? 0)%Z then HS.Critical
    else if (heartbeat_timeout s <? SY.now_ms s - SY.last_agent_heartbeat_ms s)%Z then HS.Degraded
    else HS.Healthy.
Proof.
  intros [Hn Hh]. unfold check_terminal_liveness. cbv zeta.
  destruct (SY.expected_agents s =? 0)%N; [done|].
  destruct (Z.leb_spec (SY.last_agent_heartbeat_ms s) 0); [done|].
  rewrite wrap_i64_id by (unfold is_i64, i64_MIN, i64_MAX in *; lia).
  by destruct (heartbeat_timeout s <? _)%Z.
Qed.

Lemma spec_status s :
  HC.status (check_spec_drift s) = HS.Healthy ∧ spec_kept s
  ∨ HC.status (check_spec_drift s) = HS.Degraded ∧ ¬ spec_kept s.
Proof.
  unfold check_spec_drift, spec_kept, string_eqb. cbv zeta.
  destruct (SY.spec_hash_at_start s) as [|a x]; [by left; auto|].
  destruct (SY.spec_hash_current s) as [|b y]; [by left; auto|]. cbn [str_is_empty orb].
  case_bool_decide as H; [by left; auto|]. right. split; [done|]. intuition congruence.
Qed.

Lemma coverage_status s :
  HC.status (check_coverage_trend s) = HS.Healthy ∧ coverage_kept s
  ∨ HC.status (check_coverage_trend s) = HS.Degraded ∧ ¬ coverage_kept s.
Proof.
  unfold check_coverage_trend, coverage_kept. cbv zeta.
  destruct (Nat.ltb_spec (length (SY.coverage_history s)) 3); [by left; auto|].
  destruct (F64.lt (coverage_delta s) _); [right|by left; auto].
  split; [done|]. intros [?|?]; [lia|done].
Qed.

Lemma overall_of_four s :
  overall_status s =
    match foldr Nat.max 0%nat ((λ c, HS.rank (HC.status (c s))) <$> checks) with
    | 0%nat => HS.Healthy | 1%nat => HS.Degraded | _ => HS.Critical
    end.
Proof.
  unfold overall_status, check_all, checks. cbn [fmap list_fmap].
  destruct (HC.status (check_terminal_liveness s)), (HC.status (check_agent_status s)),
    (HC.status (check_spec_drift s)), (HC.status (check_coverage_trend s)); done.
Qed.

(** Critical exactly when agents are expected and none is heard or runs; otherwise healthy
    exactly when the agents are well and neither the spec nor the coverage has slipped.  The
    chain is not looked at. *)
Theorem overall_status_spec s :
  sane_clock s →
  (overall_status s = HS.Critical ↔ agents_gone s)
  ∧ (overall_status s = HS.Healthy ↔ agents_well s ∧ spec_kept s ∧ coverage_kept s).
Proof.
  intros Hc. rewrite overall_of_four. cbv [checks fmap list_fmap foldr]. rewrite (liveness_status s Hc).
  destruct Hc as [Hn Hh]. unfold agents_gone, agents_well, check_agent_status. cbv zeta.
  destruct (spec_status s) as [[-> Hs]|[-> Hs]], (coverage_status s) as [[-> Hv]|[-> Hv]];
    destruct (N.eqb_spec (SY.expected_agents s) 0);
    destruct (Z.leb_spec (SY.last_agent_heartbeat_ms s) 0);
    destruct (Z.ltb_spec (heartbeat_timeout s) (SY.now_ms s - SY.last_agent_heartbeat_ms s));
    destruct (N.eqb_spec (SY.active_agents s) 0);
    destruct (N.ltb_spec (SY.active_agents s) (SY.expected_agents s));
    cbn; intuition (try congruence; try lia).
Qed.

Definition plain : SystemSnapshot :=
  SY.mk 2 2 99000 true true "abc123" "abc123" [F64.of_Z 80; F64.of_Z 82] 100000 60000.

Example overall_status_spec_witness :
  overall_status plain = HS.Healthy
  ∧ overall_status (SY.mk 0 2 99000 true true "" "" [] 100000 60000) = HS.Critical.
Proof.
  split; apply overall_status_spec; unfold sane_clock, agents_well, agents_gone, i64_MAX, i64_MIN;
    cbn; unfold heartbeat_timeout, spec_kept, coverage_kept; cbn; intuition lia.
Defined.

Example chain_not_checked :
  let s := SY.mk 2 2 99000 false true "" "" [] 100000 60000 in
  overall_status s = HS.Healthy ∧ HC.status (check_chain_status s) = HS.Degraded.
Proof. by vm_compute. Qed.

Example coverage_falls :
  HC.message (check_coverage_trend
    (SY.mk 0 0 0 false false "" "" (F64.of_Z <$> [90; 88; 80; 78]%Z) 0 0)) =
  "coverage declining: earlier avg 89.0% -> recent avg 79.0% (-10.0%)".
Proof. by vm_compute. Qed.
