(* ===== verification/Federation.v ===== *)
(** * The hierarchy of conductors (crates/roko-conductor/src/federation.rs, yerkes_dodson.rs)

    The conductors of a turn, of a plan and of the fleet, and the curve of performance under
    pressure. *)

From Stdlib Require Import SpecFloat.
From S2P Require Import Prelude Floats Phase Patterns Stuck.

#[local] Arguments F64.of_Z : simpl never.
#[local] Arguments F64.lit : simpl never.

(** ** A turn *)

Module TurnConductor.
Record t : Type := mk {
  stuck_detector : StuckThresholds;
  meta_cognition : MetaCognitionHook;
  sensitivity : F64.t;
}.

Definition default : t := mk ST.default MH.default (F64.of_Z 1).

Definition threshold (c : t) : F64.t :=
  F64.div (F64.lit 6 10) (F64.max (sensitivity c) (F64.lit 1 10)).

(** The outer [None] is a panic of a check. *)
Definition evaluate_turn {DT : DebugText} (entries : list ActivityEntry) (c : t) :
    option (option ConductorDecision) :=
  match check_stuck (stuck_detector c) entries with
  | None => None
  | Some None => Some None
  | Some (Some signal) =>
      if F64.lt (SS.confidence signal) (threshold c) then Some None
      else
        Some (Some (CD.Restart "turn-conductor"
          ("stuck: " +:+ SK.debug (SS.kind signal) +:+ " (confidence "
             +:+ fmt_fixed 2 (SS.confidence signal) +:+ ")")))
  end.

Definition set_sensitivity (x : F64.t) (c : t) : t :=
  mk (stuck_detector c) (meta_cognition c) (F64.clamp (F64.lit 1 10) (F64.of_Z 10) x).
End TurnConductor.
Abbreviation TurnConductor := TurnConductor.t.
Module TC := TurnConductor.

(** ** A plan *)

Module TaskDecisionRecord.
Record t : Type := mk { task_id : string; decision_label : string; task_succeeded : bool }.
End TaskDecisionRecord.
Abbreviation TaskDecisionRecord := TaskDecisionRecord.t.
Module TD := TaskDecisionRecord.

Module PlanConductor.
Record t : Type := mk {
  task_decisions : list TaskDecisionRecord;
  plan_budget_remaining : F64.t;
  task_failure_count : nat;
  max_plan_failures : nat;
  l2_adjustments : gmap string F64.t;
}.

Definition default : t := mk [] (S754_infinity false) 0 2 ∅.
Definition new (budget_usd : F64.t) (max_failures : nat) : t := mk [] budget_usd 0 max_failures ∅.

Definition aggregate (task_id : string) (decision : ConductorDecision) (task_succeeded : bool)
    (c : t) : t * ConductorDecision :=
  let decisions := task_decisions c ++ [TD.mk task_id (CD.label decision) task_succeeded] in
  let failures := (if task_succeeded then task_failure_count c else S (task_failure_count c)) in
  if (max_plan_failures c <=? failures)%nat then
    (mk decisions (plan_budget_remaining c) failures (max_plan_failures c) (l2_adjustments c),
     CD.Fail "plan-conductor"
       (FailureKind.Other (fmt_nat failures +:+ " task failures exceed plan threshold of "
          +:+ fmt_nat (max_plan_failures c))))
  else
    let adjustments :=
      if F64.lt (plan_budget_remaining c) (F64.of_Z 1) && F64.gt (plan_budget_remaining c) F64.zero
      then <["cost-overrun" := F64.lit 5 10]> (l2_adjustments c) else l2_adjustments c in
    (mk decisions (plan_budget_remaining c) failures (max_plan_failures c) adjustments, CD.Continue).

(** [entry(key).or_insert(v)] *)
Definition or_insert (k : string) (v : F64.t) (m : gmap string F64.t) : gmap string F64.t :=
  match m !! k with Some _ => m | None => <[k := v]> m end.

Definition failure_rate (c : t) : F64.t :=
  F64.div (F64.of_Z (Z.of_nat (task_failure_count c)))
    (F64.of_Z (Z.of_nat (length (task_decisions c)))).

Definition adjust_l2_thresholds (c : t) : gmap string F64.t :=
  if (3 <=? length (task_decisions c))%nat && F64.gt (failure_rate c) (F64.lit 5 10) then
    or_insert "test-failure-budget" (F64.lit 7 10)
      (or_insert "compile-fail-repeat" (F64.lit 7 10) (l2_adjustments c))
  else l2_adjustments c.

Definition record_spend (amount_usd : F64.t) (c : t) : t :=
  mk (task_decisions c) (F64.sub (plan_budget_remaining c) amount_usd) (task_failure_count c)
    (max_plan_failures c) (l2_adjustments c).
End PlanConductor.
Abbreviation PlanConductor := PlanConductor.t.
Module PL := PlanConductor.

(** ** The fleet *)

Module FleetConductor.
Record t : Type := mk { active_agents : nat; fleet_budget_remaining : F64.t }.
Definition new (fleet_budget : F64.t) : t := mk 0 fleet_budget.
Definition evaluate (c : t) : ConductorDecision := CD.Continue.
End FleetConductor.

(** ** Performance under pressure *)

(** The exponential of the platform's mathematics library. *)
Class ExpFloat := {
  f64_exp : F64.t → F64.t;
  f64_exp_zero s : f64_exp (S754_zero s) = F64.of_Z 1;
}.

Module YerkesDodson.
Record t : Type := mk { pressure : F64.t; optimal : F64.t; width : F64.t }.

Definition default : t := mk (F64.lit 5 10) (F64.lit 5 10) (F64.lit 25 100).
Definition new (optimal width : F64.t) : t := mk F64.zero optimal (F64.max width (F64.lit 1 1000)).
Definition set_pressure (p : F64.t) (y : t) : t :=
  mk (F64.clamp F64.zero (F64.of_Z 1) p) (optimal y) (width y).

Definition exponent (y : t) : F64.t :=
  let diff := F64.sub (pressure y) (optimal y) in
  F64.div (SFopp (F64.mul diff diff)) (F64.mul (F64.mul (F64.of_Z 2) (width y)) (width y)).

Definition performance_multiplier {E : ExpFloat} (y : t) : F64.t := f64_exp (exponent y).
Definition intervention_aggressiveness {E : ExpFloat} (y : t) : F64.t :=
  F64.sub (F64.of_Z 1) (performance_multiplier y).
Definition pressure_delta (y : t) : F64.t := F64.sub (optimal y) (pressure y).
Definition is_danger_zone {E : ExpFloat} (y : t) : bool :=
  F64.lt (performance_multiplier y) (F64.lit 5 10).

Definition compute_pressure (cost_pressure time_pressure failure_rate stuck_signals : F64.t) :
    F64.t :=
  F64.clamp F64.zero (F64.of_Z 1)
    (F64.add
       (F64.add
          (F64.add (F64.mul cost_pressure (F64.lit 25 100)) (F64.mul time_pressure (F64.lit 25 100)))
          (F64.mul failure_rate (F64.lit 30 100)))
       (F64.mul stuck_signals (F64.lit 20 100))).
End YerkesDodson.
Abbreviation YerkesDodson := YerkesDodson.t.
Module YD := YerkesDodson.

(** ** Turns *)

Section turns.
Context {DT : DebugText}.

(** A confidence is a number of at most 1. *)
Definition capped (x : F64.t) : Prop := F64.is_nan x = false ∧ sf_le x (F64.of_Z 1).
Definition bounded (r : finding) : Prop := ∀ s, r = Some (Some s) → capped (SS.confidence s).

Lemma one_number : F64.is_nan (F64.of_Z 1) = false.
Proof. by vm_compute. Qed.

Lemma one_capped : capped (F64.of_Z 1).
Proof. split; [apply one_number|apply sf_le_refl]. Qed.

Lemma min_capped x : capped (F64.min x (F64.of_Z 1)).
Proof.
  unfold F64.min. rewrite one_number. destruct (F64.is_nan x) eqn:E; [apply one_capped|].
  unfold F64.lt. destruct (SFltb (F64.of_Z 1) x) eqn:El; [apply one_capped|by split].
Qed.

Lemma confidence_capped n m : capped (confidence_from_count n m).
Proof.
  unfold confidence_from_count. destruct (m =? 0)%nat; [apply one_capped|apply min_capped].
Qed.

Lemma bounded_fire k x d s : capped x → bounded (fire k x d s).
Proof. by intros H s' [= <-]. Qed.

Lemma primary_bounded th h : Forall (λ check, bounded (check h)) (primary_checks th).
Proof.
  unfold primary_checks. repeat apply Forall_cons_2; [..|apply Forall_nil_2];
    unfold check_output_loop, check_no_progress, check_gate_loop, check_compile_loop,
      check_empty_output, check_excessive_retries; cbv zeta;
    repeat case_match; try done; apply bounded_fire; try apply confidence_capped; apply min_capped.
Qed.

Lemma check_stuck_bounded th h : bounded (check_stuck th h).
Proof.
  unfold check_stuck. destruct h as [|e h]; [done|]. generalize (e :: h). intros l.
  pose proof (primary_bounded th l) as Hp. induction Hp as [|check checks Hc _ IH]; [done|].
  cbn [first_finding]. destruct (check l) as [[s|]|]; [exact Hc|exact IH|done].
Qed.

(** The conductor of a turn intervenes exactly when something is found with a confidence that
    is not under the threshold. *)
Theorem evaluate_turn_spec c h d :
  TC.evaluate_turn h c = Some (Some d) ↔
    ∃ s, check_stuck (TC.stuck_detector c) h = Some (Some s)
      ∧ sf_le (TC.threshold c) (SS.confidence s)
      ∧ d = CD.Restart "turn-conductor"
          ("stuck: " +:+ SK.debug (SS.kind s) +:+ " (confidence "
             +:+ fmt_fixed 2 (SS.confidence s) +:+ ")").
Proof.
  unfold TC.evaluate_turn. destruct (check_stuck (TC.stuck_detector c) h) as [[s|]|].
  - unfold sf_le, F64.lt. destruct (SFltb (SS.confidence s) (TC.threshold c)) eqn:E.
    + split; [done|]. intros (s' & [= <-] & H & _). congruence.
    + split; [intros [= <-]; by exists s|]. by intros (s' & [= <-] & _ & ->).
  - split; [done|]. by intros (s & ? & _).
  - split; [done|]. by intros (s & ? & _).
Qed.

(** With a sensitivity that puts the threshold above 1 no turn is ever interrupted. *)
Theorem insensitive c h d :
  SFltb (F64.of_Z 1) (TC.threshold c) = true → TC.evaluate_turn h c ≠ Some (Some d).
Proof.
  intros Hs. unfold TC.evaluate_turn.
  destruct (check_stuck (TC.stuck_detector c) h) as [[s|]|] eqn:E; try done.
  apply check_stuck_bounded in E as [Hn Hle]. unfold F64.lt.
  destruct (SFltb (SS.confidence s) (TC.threshold c)) eqn:El; [done|]. exfalso.
  assert (sf_le (TC.threshold c) (F64.of_Z 1)) as Ht by (by eapply sf_le_trans).
  unfold sf_le in Ht. congruence.
Qed.

Example sensitivity_of_half :
  let c := TC.set_sensitivity (F64.lit 5 10) TC.default in
  SFltb (F64.of_Z 1) (TC.threshold c) = true ∧ SFltb (F64.of_Z 1) (TC.threshold TC.default) = false.
Proof. by vm_compute. Qed.
End turns.

(** ** Plans *)

Inductive PlanEvent : Type :=
  | Task (task_id : string) (decision : ConductorDecision) (succeeded : bool)
  | Spend (amount_usd : F64.t).

Definition plan_step (c : PlanConductor) (e : PlanEvent) : PlanConductor :=
  match e with
  | Task id d ok => (PL.aggregate id d ok c).1
  | Spend x => PL.record_spend x c
  end.

Definition failed_task (e : PlanEvent) : bool :=
  match e with Task _ _ false => true | _ => false end.
Definition task_record (e : PlanEvent) : option TaskDecisionRecord :=
  match e with Task id d ok => Some (TD.mk id (CD.label d) ok) | Spend _ => None end.

(** The failures under way, the records and the limit, of any history. *)
Lemma plan_run es budget limit :
  let c := foldl plan_step (PL.new budget limit) es in
  PL.task_failure_count c = length (List.filter failed_task es)
  ∧ PL.task_decisions c = omap task_record es
  ∧ PL.max_plan_failures c = limit.
Proof.
  cbv zeta. induction es as [|e es (IHf & IHd & IHm)] using rev_ind; [done|].
  rewrite foldl_app, List.filter_app, omap_app, length_app. cbn [foldl].
  set (c := foldl plan_step _ es) in *. destruct e as [id d ok|x].
  - cbn [plan_step]. unfold PL.aggregate. rewrite IHm.
    destruct (limit <=? _)%nat; cbn; rewrite IHf, IHd; destruct ok; cbn; repeat split; lia.
  - cbn. rewrite IHf, IHd, app_nil_r. repeat split; [lia|done].
Qed.

(** Whatever the conductors of the tasks decided, a plan fails exactly when its failed tasks
    reach the limit. *)
Theorem plan_fails_iff es budget limit id d ok :
  let c := foldl plan_step (PL.new budget limit) es in
  let r := PL.aggregate id d ok c in
  (CD.is_terminal r.2 = true ↔
     (limit ≤ length (List.filter failed_task (es ++ [Task id d ok])))%nat)
  ∧ (CD.is_terminal r.2 = false → r.2 = CD.Continue)
  ∧ PL.task_decisions r.1 = omap task_record es ++ [TD.mk id (CD.label d) ok].
Proof.
  cbv zeta. destruct (plan_run es budget limit) as (Hf & Hd & Hm). cbv zeta in *.
  unfold PL.aggregate. rewrite Hm, Hf, Hd, List.filter_app, length_app.
  destruct (Nat.leb_spec limit
    (if ok then length (List.filter failed_task es) else S (length (List.filter failed_task es))));
    cbn [fst snd CD.is_terminal PL.task_decisions]; (split; [|done]); destruct ok; cbn in *;
    split; intros; solve [done|lia].
Qed.

(** The thresholds of the watchers of quality are lowered when more than half of three tasks or
    more have failed; what was adjusted before stays. *)
Theorem adjust_spec c :
  (∀ k v, PL.l2_adjustments c !! k = Some v → PL.adjust_l2_thresholds c !! k = Some v)
  ∧ (∀ k v, PL.adjust_l2_thresholds c !! k = Some v →
       PL.l2_adjustments c !! k = Some v
       ∨ (k = "compile-fail-repeat" ∨ k = "test-failure-budget") ∧ v = F64.lit 7 10
         ∧ (3 ≤ length (PL.task_decisions c))%nat
         ∧ SFltb (F64.lit 5 10) (PL.failure_rate c) = true).
Proof.
  unfold PL.adjust_l2_thresholds, PL.or_insert, F64.gt.
  destruct (Nat.leb_spec 3 (length (PL.task_decisions c))); cbn [andb]; [|by auto].
  destruct (SFltb _ _) eqn:E; [|by auto].
  destruct (PL.l2_adjustments c !! "compile-fail-repeat") as [x|] eqn:E1.
  - destruct (PL.l2_adjustments c !! "test-failure-budget") as [y|] eqn:E2; [by auto|].
    split; intros k v; rewrite lookup_insert_Some; [|naive_solver]. intros Hk.
    right. split; [congruence|done].
  - rewrite lookup_insert_ne by done.
    destruct (PL.l2_adjustments c !! "test-failure-budget") as [y|] eqn:E2;
      (split; intros k v; rewrite ?lookup_insert_Some; [|naive_solver]); intros Hk.
    + right. split; [congruence|done].
    + right. split; [congruence|]. right. split; [congruence|done].
Qed.

(** A budget already spent adjusts nothing: only one under a dollar and above zero does. *)
Example budget_pressure :
  let adjusted budget :=
    PL.l2_adjustments (PL.aggregate "t1" CD.Continue true (PL.new budget 5)).1 !! "cost-overrun" in
  adjusted (F64.lit 5 10) = Some (F64.lit 5 10) ∧ adjusted F64.zero = None
  ∧ adjusted (F64.of_Z (-3)) = None.
Proof. by vm_compute. Qed.

(** A limit of no failures ends the plan at its first task, though it succeeds. *)
Example no_failures_allowed :
  CD.is_terminal (PL.aggregate "t1" CD.Continue true (PL.new (F64.of_Z 1) 0)).2 = true.
Proof. done. Qed.

(** ** Pressure *)

Section pressure.
Context {E : ExpFloat}.

(** The number [x] is in the unit interval. *)
Definition in_unit (x : F64.t) : Prop :=
  F64.is_nan x = false ∧ sf_le F64.zero x ∧ sf_le x (F64.of_Z 1).

Lemma pressure_clamped x :
  F64.is_nan x = false → in_unit (F64.clamp F64.zero (F64.of_Z 1) x).
Proof.
  intros Hx. unfold in_unit, F64.clamp, F64.lt, F64.gt. destruct (SFltb x F64.zero) eqn:E1.
  { by vm_compute. }
  destruct (SFltb (F64.of_Z 1) x) eqn:E2; [by vm_compute|by split].
Qed.

(** The pressure set, and the pressure computed, are in the unit interval, numbers permitting. *)
Theorem pressure_in_unit y p c t f s :
  (F64.is_nan p = false → in_unit (YD.pressure (YD.set_pressure p y)))
  ∧ (F64.is_nan (YD.compute_pressure c t f s) = false → in_unit (YD.compute_pressure c t f s)).
Proof.
  split; [apply pressure_clamped|]. unfold YD.compute_pressure.
  match goal with |- context [F64.clamp _ _ ?x] => generalize x end. intros x Hx.
  apply pressure_clamped. destruct (F64.is_nan x) eqn:En; [|done].
  destruct x; try done.
Qed.

Definition is_number (x : F64.t) : bool :=
  match x with S754_nan | S754_infinity _ => false | _ => true end.

Lemma sub_self x : is_number x = true → F64.sub x x = F64.zero.
Proof.
  destruct x as [[]|[]| |sx m e]; try done. intros _. unfold F64.sub, SFsub. cbv zeta.
  by rewrite Z.sub_diag.
Qed.

(** At the optimum the performance is whole and nothing is to be done, for any width whose
    square is a number above zero. *)
Theorem peak_at_optimal y :
  is_number (YD.optimal y) = true → YD.pressure y = YD.optimal y →
  SFltb F64.zero (F64.mul (F64.mul (F64.of_Z 2) (YD.width y)) (YD.width y)) = true →
  YD.performance_multiplier y = F64.of_Z 1
  ∧ YD.intervention_aggressiveness y = F64.zero
  ∧ YD.pressure_delta y = F64.zero
  ∧ YD.is_danger_zone y = false.
Proof.
  intros Ho Hp Hw.
  assert (YD.performance_multiplier y = F64.of_Z 1) as Hm.
  { unfold YD.performance_multiplier, YD.exponent. rewrite Hp, sub_self by done. cbv zeta.
    destruct (F64.mul (F64.mul (F64.of_Z 2) (YD.width y)) (YD.width y)) as [[]|[]| |[] m e];
      try done; apply f64_exp_zero. }
  unfold YD.intervention_aggressiveness, YD.is_danger_zone, YD.pressure_delta. rewrite Hm.
  split; [done|]. split; [by vm_compute|]. split; [|by vm_compute]. rewrite Hp. by apply sub_self.
Qed.
End pressure.

(** Any exponential will do at the optimum. *)
Example peak_at_optimal_witness :
  let E := {| f64_exp _ := F64.of_Z 1; f64_exp_zero _ := eq_refl |} in
  @YD.performance_multiplier E YD.default = F64.of_Z 1.
Proof. cbv zeta. apply (peak_at_optimal YD.default); by vm_compute. Defined.
