(* ===== verification/Tool.v ===== *)
(** * What tools may be asked (crates/roko-core/src/tool/call.rs)

    The errors of a tool call, and the words of a command line as the guards of the agents
    read them. *)

From S2P Require Import Prelude Text.

Module ToolError.
Inductive t : Type :=
  | PermissionDenied (what : string)
  | SchemaInvalid (what : string)
  | HandlerPanic (what : string)
  | Timeout (after_ms : N)
  | PathOutsideWorktree (path : string)
  | CommandNotAllowed (what : string)
  | NetworkBlocked (what : string)
  | Cancelled
  | Other (what : string).

#[global] Instance t_eq_dec : EqDecision t.
Proof. solve_decision. Defined.
End ToolError.
Abbreviation ToolError := ToolError.t.
Module TE := ToolError.

(** ** Text *)

(** [s.strip_prefix(pat)] and [s.strip_suffix(pat)] *)
Fixpoint str_strip_prefix (pat s : string) : option string :=
  match pat, s with
  | EmptyString, _ => Some s
  | String a pat', String b s' => if Ascii.eqb a b then str_strip_prefix pat' s' else None
  | String _ _, EmptyString => None
  end.

Definition str_reverse (s : string) : string := of_codes (reverse (codes s)).
Definition str_ends_with (pat s : string) : bool :=
  str_starts_with (str_reverse pat) (str_reverse s).
Definition str_strip_suffix (pat s : string) : option string :=
  str_reverse <$> str_strip_prefix (str_reverse pat) (str_reverse s).

(** [s.trim_start()] *)
Definition str_trim_start (s : string) : string :=
  of_codes (strip ws_len (String.length s) (codes s)).

(** [s.chars().count()]: the bytes that do not continue a character. *)
Definition chars_count (s : string) : nat :=
  length (List.filter (λ b, (b <? 128)%N || (192 <=? b)%N) (codes s)).

(** ** Words *)

Definition flush (cur : list N) : list (list N) := match cur with [] => [] | _ => [reverse cur] end.

(** [cur] is the word under way, backwards; [skip] the bytes left of a white space. *)
Fixpoint words_from (skip : nat) (cur l : list N) : list (list N) :=
  match l with
  | [] => flush cur
  | b :: l' =>
      match skip with
      | S k => words_from k cur l'
      | O =>
          match ws_len l with
          | O => words_from 0 (b :: cur) l'
          | S k => flush cur ++ words_from k [] l'
          end
      end
  end.

(** [s.split_whitespace()] *)
Definition split_whitespace (s : string) : list string := of_codes <$> words_from 0 [] (codes s).

(** The first word of a text, and what follows it. *)
Fixpoint first_word (l : list N) : list N * list N :=
  match l with
  | [] => ([], [])
  | b :: l' =>
      match ws_len l with
      | O => let '(w, r) := first_word l' in (b :: w, r)
      | S _ => ([], l)
      end
  end.

Example split_whitespace_examples :
  split_whitespace "  git  push -f " = ["git"; "push"; "-f"] ∧ split_whitespace " " = [] ∧
  split_whitespace ("a" +:+ of_codes [226; 128; 175]%N +:+ "b") = ["a"; "b"].
Proof. by vm_compute. Qed.

Lemma codes_bounded s : Forall (λ b, (b < 256)%N) (codes s).
Proof. induction s; constructor; [apply Ascii.N_ascii_bounded|done]. Qed.

Lemma codes_nonempty s : s ≠ "" → codes s ≠ [].
Proof. by destruct s. Qed.

Lemma length_of_codes l : String.length (of_codes l) = length l.
Proof. induction l as [|b l IH]; cbn; [done|by rewrite IH]. Qed.

(** A byte of ASCII that is not white space. *)
Definition solid (b : N) : bool :=
  (b <? 128)%N && negb (((9 <=? b)%N && (b <=? 13)%N) || (b =? 32)%N).

(** A word: some solid bytes. *)
Definition is_word (w : string) : Prop := w ≠ "" ∧ Forall (λ b, solid b = true) (codes w).

Lemma solid_ws b l : solid b = true → ws_len (b :: l) = 0%nat.
Proof.
  unfold solid. intros [Hb%N.ltb_lt Hn%negb_true_iff]%andb_prop. unfold ws_len. rewrite Hn.
  destruct l as [|b2 l]; [done|]. destruct (N.eqb_spec b 194); [lia|]. cbn [andb].
  destruct l as [|b3 l]; [done|].
  destruct (N.eqb_spec b 225), (N.eqb_spec b 226), (N.eqb_spec b 227); try lia. done.
Qed.

Lemma words_solid w cur l :
  Forall (λ b, solid b = true) w → words_from 0 cur (w ++ l) = words_from 0 (reverse w ++ cur) l.
Proof.
  revert cur. induction w as [|b w IH]; intros cur Hw; [done|].
  apply Forall_cons in Hw as [Hb Hw]. cbn [app words_from]. rewrite (solid_ws b (w ++ l) Hb).
  rewrite IH by done. by rewrite reverse_cons, <- app_assoc.
Qed.

Lemma flush_word w : w ≠ [] → flush (reverse w) = [w].
Proof.
  intros Hw. unfold flush. destruct (reverse w) eqn:E; [|by rewrite <- E, reverse_involutive].
  apply (f_equal reverse) in E. rewrite reverse_involutive in E. done.
Qed.

(** Words joined by blanks are read back. *)
Lemma split_join ws : Forall is_word ws → split_whitespace (str_join " " ws) = ws.
Proof.
  intros Hw. unfold split_whitespace.
  assert (words_from 0 [] (codes (str_join " " ws)) = codes <$> ws) as ->.
  { induction Hw as [|w ws [Hne Hs] Hws IH]; [done|].
    apply codes_nonempty in Hne. destruct ws as [|w' ws].
    - cbn [str_join fmap list_fmap]. rewrite <- (app_nil_r (codes w)), words_solid by done.
      rewrite !app_nil_r. by apply flush_word.
    - change (str_join " " (w :: w' :: ws)) with (w +:+ " " +:+ str_join " " (w' :: ws)).
      rewrite codes_app, words_solid by done. rewrite app_nil_r, codes_app.
      change (codes " ") with [32%N]. cbn [app words_from].
      change (ws_len (32%N :: codes (str_join " " (w' :: ws)))) with 1%nat.
      by rewrite flush_word, IH. }
  rewrite <- list_fmap_compose. rewrite <- (list_fmap_id ws) at 2. apply list_fmap_ext.
  intros i w _. apply of_codes_codes.
Qed.
