(* ===== verification/GitGuard.v ===== *)
(** * The branch protection of agents (crates/roko-agent/src/safety/git.rs)

    Every command line an agent asks for is cut at the separators of the shell, and its git
    commands are checked against a policy of protected branches.  The cuts
    are at separators of ASCII, so that none of them falls inside a character. *)

From S2P Require Import Prelude Text Diagnosis Tool.

Module GitPolicy.
Record t : Type := mk {
  protected_branches : list string;
  allow_force_push_on : list string;
  block_force_push : bool;
  block_hard_reset_on_protected : bool;
  block_branch_delete_protected : bool;
}.
Definition default : t := mk ["main"; "master"] [] true true true.
End GitPolicy.
Abbreviation GitPolicy := GitPolicy.t.
Module GP := GitPolicy.

(** ** Segments *)

Definition single_separator (b : N) : bool := (b =? 59)%N || (b =? 124)%N || (b =? 38)%N.
Definition double_separator (a b : N) : bool :=
  ((a =? 38)%N && (b =? 38)%N) || ((a =? 124)%N && (b =? 124)%N).

Fixpoint segments_from (cur l : list N) : list (list N) :=
  match l with
  | [] => [reverse cur]
  | a :: (b :: l'') as l' =>
      if double_separator a b then reverse cur :: segments_from [] l''
      else if single_separator a then reverse cur :: segments_from [] l'
      else segments_from (a :: cur) l'
  | [a] =>
      if single_separator a then [reverse cur; []] else [reverse (a :: cur)]
  end.

Definition split_shell_segments (command : string) : list string :=
  of_codes <$> segments_from [] (codes command).

(** ** Prefixes *)

(** A round of the loop: what is left, if something was stripped. *)
Definition strip_prefix_step (s : string) : option string :=
  match str_strip_prefix "sudo " s with
  | Some rest => Some (str_trim_start rest)
  | None =>
      match str_strip_prefix "env " s with
      | Some rest => Some (str_trim_start rest)
      | None =>
          let '(first_token, rest) := first_word (codes s) in
          if existsb (N.eqb 61) first_token && negb (existsb (N.eqb 47) first_token) then
            Some (str_trim_start (of_codes rest))
          else if str_starts_with "cd " s then
            match str_find "&&" s with
            | Some p => Some (str_trim_start (of_codes (drop (p + 2) (codes s))))
            | None =>
                (λ p, str_trim_start (of_codes (drop (p + 1) (codes s)))) <$> str_find ";" s
            end
          else None
      end
  end.

Fixpoint strip_loop (fuel : nat) (s : string) : string :=
  match fuel with
  | O => s
  | S fuel' => match strip_prefix_step s with Some s' => strip_loop fuel' s' | None => s end
  end.

Definition strip_leading_prefixes (s : string) : string := strip_loop (S (String.length s)) s.

(** ** Rules *)

Definition is_protected (branch : string) (policy : GitPolicy) : bool :=
  existsb (λ b, string_eqb b branch) (GP.protected_branches policy).
Definition is_force_allowed (branch : string) (policy : GitPolicy) : bool :=
  existsb (λ b, string_eqb b branch) (GP.allow_force_push_on policy).
Definition segment_contains_branch (segment branch : string) : bool :=
  existsb (λ tok, string_eqb tok branch) (split_whitespace segment).

Definition blocked (rule segment reason : string) : ToolError :=
  TE.CommandNotAllowed
    ("[" +:+ rule +:+ "] " +:+ reason +:+ " — in segment: `" +:+ segment +:+ "`").

Definition is_flag (a : string) : bool := str_starts_with "-" a.
Definition force_flag (a : string) : bool :=
  string_eqb a "--force" || string_eqb a "--force-with-lease" || string_eqb a "-f".
Definition push_delete_flag (a : string) : bool := string_eqb a "--delete" || string_eqb a "-d".
Definition branch_delete_flag (a : string) : bool := string_eqb a "-D" || string_eqb a "-d".

Definition non_flags (args : list string) : list string := List.filter (λ a, negb (is_flag a)) args.

(** The branch of a colon-delete. *)
Definition colon_delete (policy : GitPolicy) (arg : string) : option string :=
  match str_strip_prefix ":" arg with
  | Some branch => if negb (str_is_empty branch) && is_protected branch policy then Some branch
                   else None
  | None => None
  end.

(** The argument after the first that satisfies [f]. *)
Fixpoint after_first (f : string → bool) (args : list string) : option string :=
  match args with
  | [] => None
  | a :: args' => if f a then head args' else after_first f args'
  end.

(** [s.split(':').next_back()] *)
Fixpoint last_part (c : Ascii.ascii) (cur s : string) : string :=
  match s with
  | EmptyString => cur
  | String a s' => if Ascii.eqb a c then last_part c "" s' else last_part c (cur +:+ String a "") s'
  end.
Definition destination (refspec : string) : string := last_part ":" "" refspec.

Definition first_some {A} (f : string → option A) (l : list string) : option A :=
  head (omap f l).

Definition check_push_delete (segment : string) (args : list string) (policy : GitPolicy) :
    option ToolError :=
  if GP.block_branch_delete_protected policy then
    match first_some (colon_delete policy) args with
    | Some branch =>
        Some (blocked "block_branch_delete_protected" segment
          ("colon-delete of protected branch `" +:+ branch +:+ "`"))
    | None =>
        match after_first push_delete_flag args with
        | Some branch =>
            if is_protected branch policy then
              Some (blocked "block_branch_delete_protected" segment
                ("--delete of protected branch `" +:+ branch +:+ "`"))
            else None
        | None => None
        end
    end
  else None.

Definition target_branch (args : list string) : option string :=
  if (2 <=? length (non_flags args))%nat then last (non_flags args) else None.

Definition check_push (segment : string) (args : list string) (policy : GitPolicy) :
    result unit ToolError :=
  match check_push_delete segment args policy with
  | Some e => Err e
  | None =>
      if negb (GP.block_force_push policy) || negb (existsb force_flag args) then Ok tt
      else
        match target_branch args with
        | Some branch =>
            let dst := destination branch in
            if is_protected dst policy && negb (is_force_allowed dst policy) then
              Err (blocked "block_force_push" segment
                ("force push to protected branch `" +:+ dst +:+ "`"))
            else Ok tt
        | None =>
            Err (blocked "block_force_push" segment
              "force push with no explicit branch (potentially targets a protected branch)")
        end
  end.

Definition check_reset (segment : string) (args : list string) (policy : GitPolicy) :
    result unit ToolError :=
  if negb (GP.block_hard_reset_on_protected policy) then Ok tt
  else if negb (existsb (λ a, string_eqb a "--hard") args) then Ok tt
  else
    let mentioned := List.find (segment_contains_branch segment) (GP.protected_branches policy) in
    let no_explicit_ref := match non_flags args with [] => true | _ => false end in
    if match mentioned with Some _ => true | None => no_explicit_ref end then
      Err (blocked "block_hard_reset_on_protected" segment
        (if no_explicit_ref then "bare `--hard` reset (HEAD may be a protected branch)"
         else "hard reset mentions protected branch `"
                +:+ stdpp.option.default "(protected)" mentioned +:+ "`"))
    else Ok tt.

Definition check_branch (segment : string) (args : list string) (policy : GitPolicy) :
    result unit ToolError :=
  if negb (GP.block_branch_delete_protected policy) then Ok tt
  else if negb (existsb branch_delete_flag args) then Ok tt
  else
    match List.find (λ b, is_protected b policy) (non_flags args) with
    | Some branch =>
        Err (blocked "block_branch_delete_protected" segment
          ("branch delete of protected branch `" +:+ branch +:+ "`"))
    | None => Ok tt
    end.

Definition check_segment (segment : string) (policy : GitPolicy) : result unit ToolError :=
  match split_whitespace segment with
  | git :: subcommand :: rest =>
      if negb (string_eqb git "git") then Ok tt
      else if string_eqb subcommand "push" then check_push segment rest policy
      else if string_eqb subcommand "reset" then check_reset segment rest policy
      else if string_eqb subcommand "branch" then check_branch segment rest policy
      else Ok tt
  | _ => Ok tt
  end.

Fixpoint check_segments (segments : list string) (policy : GitPolicy) : result unit ToolError :=
  match segments with
  | [] => Ok tt
  | segment :: rest =>
      match check_segment (strip_leading_prefixes (utf8_trim segment)) policy with
      | Ok _ => check_segments rest policy
      | Err e => Err e
      end
  end.

Definition check_git_command_with_policy (command : string) (policy : GitPolicy) :
    result unit ToolError := check_segments (split_shell_segments command) policy.

Definition check_git_command (command : string) : result unit ToolError :=
  check_git_command_with_policy command GP.default.

Definition admitted (command : string) : bool :=
  is_ok (check_git_command command).

Example guarded :
  admitted "git status" = true ∧ admitted "git push --force origin main" = false
  ∧ admitted "cd /repo && sudo A=b git push origin HEAD:main -f" = false
  ∧ admitted "git reset --hard" = false ∧ admitted "ls; git branch -D master" = false
  ∧ admitted "git push origin :main" = false ∧ admitted "git push -f origin dev" = true.
Proof. by vm_compute. Qed.

(** What gets past it: options before the subcommand, a refspec with a plus sign or a full
    name, the long flags, grouped short flags, a lease on a branch, a delete flag before the
    remote, a new line as separator, a subshell, an option of sudo, and a path to git. *)
Example unguarded :
  forallb admitted
    ["git -C /repo push --force origin main"; "git push origin +main";
     "git push --force origin refs/heads/main"; "git push --force-with-lease=main origin main";
     "git push -uf origin main"; "git push --delete origin main"; "git branch --delete main";
     "git push --force origin main dev"; "(git push --force origin main)";
     "/usr/bin/git push --force origin main"; "sudo -u dev git push --force origin main";
     "git reset --hard origin/main"] = true
  ∧ admitted ("true" +:+ of_codes [10]%N +:+ "git push --force origin main") = true.
Proof. by vm_compute. Qed.

(** ** The loop over the prefixes ends *)

Lemma trim_start_length s : (String.length (str_trim_start s) ≤ String.length s)%nat.
Proof.
  unfold str_trim_start. rewrite length_of_codes.
  destruct (strip_suffix ws_len (String.length s) (codes s)) as [p Hp].
  apply (f_equal length) in Hp. rewrite length_codes, length_app in Hp. lia.
Qed.

Lemma strip_prefix_length pat s t :
  str_strip_prefix pat s = Some t → String.length s = (String.length pat + String.length t)%nat.
Proof.
  revert s. induction pat as [|a pat IH]; intros s; cbn [str_strip_prefix].
  - by intros [= <-].
  - destruct s as [|b s]; [done|]. destruct (Ascii.eqb a b); [|done]. intros H. apply IH in H.
    cbn. lia.
Qed.

Lemma first_word_app l : l = (first_word l).1 ++ (first_word l).2.
Proof.
  induction l as [|b l IH]; [done|]. cbn [first_word]. destruct (ws_len (b :: l)); [|done].
  destruct (first_word l) as [w r]. cbn [fst snd] in *. cbn. by f_equal.
Qed.

Lemma strip_prefix_step_shrinks s s' :
  strip_prefix_step s = Some s' → (String.length s' < String.length s)%nat.
Proof.
  unfold strip_prefix_step. intros H.
  destruct (str_strip_prefix "sudo " s) as [t|] eqn:E1.
  { apply strip_prefix_length in E1. injection H as <-. pose proof (trim_start_length t).
    cbn in E1. lia. }
  destruct (str_strip_prefix "env " s) as [t|] eqn:E2.
  { apply strip_prefix_length in E2. injection H as <-. pose proof (trim_start_length t).
    cbn in E2. lia. }
  pose proof (first_word_app (codes s)) as Hw. apply (f_equal length) in Hw.
  rewrite length_app, length_codes in Hw.
  destruct (first_word (codes s)) as [w r]. cbn [fst snd] in Hw.
  destruct (existsb (N.eqb 61) w && negb (existsb (N.eqb 47) w)) eqn:Ew.
  { injection H as <-. pose proof (trim_start_length (of_codes r)) as Ht.
    rewrite length_of_codes in Ht. destruct w; [done|]. cbn in Hw. lia. }
  destruct (str_starts_with "cd " s); [|done].
  assert (∀ p n, (0 < n)%nat → (p + n ≤ String.length s)%nat →
    (String.length (str_trim_start (of_codes (drop (p + n) (codes s)))) < String.length s)%nat)
      as Hd.
  { intros p n Hn Hp. pose proof (trim_start_length (of_codes (drop (p + n) (codes s)))) as Ht.
    rewrite length_of_codes, length_drop, length_codes in Ht. lia. }
  destruct (str_find "&&" s) as [p|] eqn:E3.
  { injection H as <-. apply str_find_fits in E3. apply Hd; [lia|exact E3]. }
  destruct (str_find ";" s) as [p|] eqn:E4; [|done]. injection H as <-.
  apply str_find_fits in E4. apply Hd; [lia|exact E4].
Qed.

(** The fuel is enough: nothing is left to strip. *)
Theorem strip_leading_prefixes_done s : strip_prefix_step (strip_leading_prefixes s) = None.
Proof.
  unfold strip_leading_prefixes.
  assert (∀ fuel s, (String.length s < fuel)%nat → strip_prefix_step (strip_loop fuel s) = None)
    as H.
  { clear s. induction fuel as [|fuel IH]; intros s Hs; [lia|]. cbn [strip_loop].
    destruct (strip_prefix_step s) as [s'|] eqn:E; [|done].
    apply strip_prefix_step_shrinks in E. apply IH. lia. }
  apply H. lia.
Qed.

(** ** Commands as they are written *)

Definition separator_free (s : string) : Prop := Forall (λ b, single_separator b = false) (codes s).
Definition plain_word (w : string) : Prop := is_word w ∧ separator_free w.

Definition separators : list string := ["&&"; "||"; ";"; "|"; "&"].

(** A line of commands, joined by separators between blanks. *)
Fixpoint render_chain (first : list string) (rest : list (string * list string)) : string :=
  match rest with
  | [] => str_join " " first
  | (sep, next) :: rest' =>
      str_join " " first +:+ " " +:+ sep +:+ " " +:+ render_chain next rest'
  end.

Lemma segments_step cur a l :
  single_separator a = false → segments_from cur (a :: l) = segments_from (a :: cur) l.
Proof.
  intros Ha. destruct l as [|b l]; cbn [segments_from]; rewrite Ha; [done|].
  unfold double_separator, single_separator in *.
  destruct (N.eqb_spec a 38), (N.eqb_spec a 124); subst; done.
Qed.

Lemma segments_free cur w l :
  Forall (λ b, single_separator b = false) w →
  segments_from cur (w ++ l) = segments_from (reverse w ++ cur) l.
Proof.
  revert cur. induction w as [|a w IH]; intros cur Hw; [done|].
  apply Forall_cons in Hw as [Ha Hw]. cbn [app]. rewrite segments_step by done.
  rewrite IH by done. by rewrite reverse_cons, <- app_assoc.
Qed.

Lemma segments_double cur a b l :
  double_separator a b = true → segments_from cur (a :: b :: l) = reverse cur :: segments_from [] l.
Proof. intros H. cbn [segments_from]. by rewrite H. Qed.

Lemma segments_single cur a b l :
  double_separator a b = false → single_separator a = true →
  segments_from cur (a :: b :: l) = reverse cur :: segments_from [] (b :: l).
Proof. intros H H'. cbn [segments_from]. by rewrite H, H'. Qed.

(** A separator between blanks cuts there. *)
Lemma segments_separator sep cur l :
  sep ∈ separators →
  segments_from cur (codes sep ++ 32%N :: l) = reverse cur :: segments_from [32%N] l.
Proof.
  unfold separators. rewrite !elem_of_cons, elem_of_nil.
  rewrite <- (segments_step [] 32%N l) by done.
  intros [->|[->|[->|[->|[->|[]]]]]]; cbn [codes app];
    first [by apply segments_double|by apply segments_single].
Qed.

(** ** Blanks around a command *)

Lemma solid_ws_rev x l : solid x = true → ws_len_rev (x :: l) = 0%nat.
Proof.
  unfold solid. intros [Hx%N.ltb_lt Hn%negb_true_iff]%andb_prop.
  assert (ws_len [x] = 0%nat) as H1.
  { apply solid_ws. unfold solid. by rewrite Hn, (proj2 (N.ltb_lt x 128)). }
  assert (∀ y, ws_len [y; x] ≠ 2%nat) as H2.
  { intros y. unfold ws_len.
    destruct (N.eqb_spec x 133), (N.eqb_spec x 160); try lia. cbn [orb].
    rewrite andb_false_r. by case_match. }
  assert (∀ y z, ws_len [z; y; x] ≠ 3%nat) as H3.
  { intros y z. unfold ws_len.
    destruct (N.eqb_spec x 128), (N.leb_spec 128 x), (N.eqb_spec x 168), (N.eqb_spec x 169),
      (N.eqb_spec x 175), (N.eqb_spec x 159); try lia. cbn [andb orb].
    rewrite !andb_false_r. cbn [orb]. by repeat case_match. }
  unfold ws_len_rev. change (reverse (take 1 (x :: l))) with [x]. rewrite H1. cbn [Nat.eqb].
  rewrite andb_false_r. destruct l as [|y l]; [done|].
  change (reverse (take 2 (x :: y :: l))) with [y; x].
  destruct (Nat.eqb_spec (ws_len [y; x]) 2); [by destruct (H2 y)|]. rewrite andb_false_r.
  destruct l as [|z l]; [done|]. change (reverse (take 3 (x :: y :: z :: l))) with [z; y; x].
  destruct (Nat.eqb_spec (ws_len [z; y; x]) 3); [by destruct (H3 y z)|]. by rewrite andb_false_r.
Qed.

(** A text that starts and ends with something other than white space, or is empty. *)
Definition tight (l : list N) : Prop :=
  l = [] ∨ (∃ x m, l = x :: m ∧ solid x = true) ∧ ∃ m y, l = m ++ [y] ∧ solid y = true.

Definition blank (b : bool) : list N := if b then [32%N] else [].

Lemma strip_blank len b l :
  (∀ m, len (32%N :: m) = 1%nat) → len l = 0%nat →
  strip len (length (blank b ++ l)) (blank b ++ l) = l.
Proof.
  intros H1 H0. destruct b; cbn [blank app length]; [|by apply strip_fixed].
  cbn [strip]. rewrite H1. cbn [drop]. rewrite drop_0. by apply strip_fixed.
Qed.

Lemma blank_reverse b : reverse (blank b) = blank b.
Proof. by destruct b. Qed.

Lemma ws_rev_blank m : ws_len_rev (32%N :: m) = 1%nat.
Proof. by unfold ws_len_rev. Qed.

Lemma trim_tight a b l : tight l → trim_codes (blank a ++ l ++ blank b) = l.
Proof.
  unfold trim_codes. intros [->|[(x & m & Ex & Hx) (m' & y & Ey & Hy)]].
  - by destruct a, b.
  - rewrite (strip_blank ws_len a); [|done|by rewrite Ex; apply solid_ws].
    rewrite reverse_app, blank_reverse. rewrite <- (length_reverse (l ++ blank b)) at 1.
    rewrite reverse_app, blank_reverse, (strip_blank ws_len_rev b);
      [by rewrite reverse_involutive| |].
    + apply ws_rev_blank.
    + rewrite Ey, reverse_snoc. by apply solid_ws_rev.
Qed.

Lemma words_last w ws :
  is_word w → Forall is_word ws →
  ∃ m y, codes (str_join " " (w :: ws)) = m ++ [y] ∧ solid y = true.
Proof.
  intros Hw Hws. revert w Hw. induction Hws as [|w' ws Hw' _ IH]; intros w [Hne Hs].
  - apply codes_nonempty in Hne. destruct (exists_last Hne) as (m & y & E). cbn [str_join].
    exists m, y. split; [done|]. rewrite E in Hs. apply Forall_app in Hs as [_ Hy].
    by apply Forall_cons in Hy as [? _].
  - destruct (IH w' Hw') as (m & y & E & Hy).
    change (str_join " " (w :: w' :: ws)) with (w +:+ " " +:+ str_join " " (w' :: ws)).
    rewrite codes_app, codes_app, E. exists (codes w ++ codes " " ++ m), y.
    split; [|done]. by rewrite !app_assoc.
Qed.

Lemma words_tight ws : Forall is_word ws → tight (codes (str_join " " ws)).
Proof.
  intros Hw. destruct ws as [|w ws]; [by left|]. right. apply Forall_cons in Hw as [Hw Hws].
  split; [|by apply words_last]. destruct Hw as [Hne Hs]. apply codes_nonempty in Hne.
  destruct (codes w) as [|x m] eqn:E; [done|]. apply Forall_cons in Hs as [Hx _].
  destruct ws as [|w' ws]; cbn [str_join]; [by exists x, m|].
  rewrite codes_app, E. by eexists x, _.
Qed.

(** ** Prefixes of a command *)

Definition assignment (t : string) : bool := str_has "=" t && negb (str_has "/" t).

Fixpoint drop_prefixes (toks : list string) : list string :=
  match toks with
  | [] => []
  | t :: rest =>
      if (string_eqb t "sudo" || string_eqb t "env") && negb (bool_decide (rest = []))
         || assignment t
      then drop_prefixes rest else toks
  end.

Lemma has_existsb c s : str_has c s = existsb (N.eqb (Ascii.N_of_ascii c)) (codes s).
Proof.
  induction s as [|a s IH]; cbn; [done|]. rewrite IH. f_equal.
  destruct (Ascii.eqb_spec a c) as [->|Hne]; [by rewrite N.eqb_refl|].
  symmetry. apply N.eqb_neq. intros E. apply (f_equal Ascii.ascii_of_N) in E.
  rewrite !Ascii.ascii_N_embedding in E. by subst.
Qed.

Lemma word_no_blank w : is_word w → str_has " " w = false.
Proof.
  intros [_ Hs]. rewrite has_existsb. induction Hs as [|b l Hb _ IH]; [done|]. cbn [existsb].
  rewrite IH, orb_false_r. apply N.eqb_neq. intros <-. done.
Qed.

(** The text after a word: the rest of a line. *)
Definition after (rest : list string) : string :=
  match rest with [] => "" | _ => " " +:+ str_join " " rest end.

Lemma join_cons w rest : str_join " " (w :: rest) = w +:+ after rest.
Proof. destruct rest; [by rewrite str_app_nil|done]. Qed.

Lemma strip_keyword k w rest :
  str_has " " k = false → str_has " " w = false →
  str_strip_prefix (k +:+ " ") (w +:+ after rest) =
    if string_eqb w k && negb (bool_decide (rest = [])) then Some (str_join " " rest) else None.
Proof.
  unfold string_eqb. revert w. induction k as [|a k IH]; intros w Hk Hw.
  - destruct w as [|b w].
    + rewrite bool_decide_true by done. by destruct rest.
    + rewrite bool_decide_false by done. cbn [str_has] in Hw. apply orb_false_iff in Hw as [Hb _].
      change (str_strip_prefix _ _) with
        (if Ascii.eqb " " b then Some (w +:+ after rest) else None).
      by rewrite Ascii.eqb_sym, Hb.
  - cbn [str_has] in Hk. apply orb_false_iff in Hk as [Ha Hk].
    rewrite str_app_cons. destruct w as [|b w].
    + rewrite bool_decide_false by done. destruct rest as [|r rest]; [done|].
      change (str_strip_prefix _ _) with
        (if Ascii.eqb a " " then str_strip_prefix (k +:+ " ") (str_join " " (r :: rest)) else None).
      by rewrite Ha.
    + cbn [str_has] in Hw. apply orb_false_iff in Hw as [Hb Hw]. rewrite str_app_cons.
      cbn [str_strip_prefix]. destruct (Ascii.eqb_spec a b) as [<-|Hne].
      * rewrite IH by done. destruct (bool_decide_reflect (w = k)) as [->|Hn].
        -- by rewrite (bool_decide_true (String a k = String a k)).
        -- rewrite (bool_decide_false (String a w = String a k)); [done|]. congruence.
      * rewrite (bool_decide_false (String b w = String a k)); [done|]. congruence.
Qed.

Lemma first_word_join w rest :
  is_word w → first_word (codes (w +:+ after rest)) = (codes w, codes (after rest)).
Proof.
  intros [_ Hs]. rewrite codes_app. induction Hs as [|b l Hb _ IH]; cbn [app].
  - by destruct rest.
  - cbn [first_word]. rewrite (solid_ws b (l ++ codes (after rest)) Hb). by rewrite IH.
Qed.

Lemma tight_no_ws l : tight l → ws_len l = 0%nat.
Proof. intros [->|[(x & m & -> & Hx) _]]; [done|by apply solid_ws]. Qed.

Lemma trim_start_words b ws :
  Forall is_word ws →
  str_trim_start (of_codes (blank b ++ codes (str_join " " ws))) = str_join " " ws.
Proof.
  intros Hw. unfold str_trim_start. rewrite length_of_codes, codes_of_codes.
  - rewrite strip_blank; [by rewrite of_codes_codes|done|by apply tight_no_ws, words_tight].
  - apply Forall_app. split; [by destruct b; repeat constructor|]. apply codes_bounded.
Qed.

Lemma find_no_head c p s : str_has c s = false → str_find (String c p) s = None.
Proof.
  induction s as [|a s IH]; [done|]. cbn [str_has]. intros [Ha Hs]%orb_false_iff.
  cbn [str_find str_starts_with]. rewrite Ascii.eqb_sym, Ha. cbn [andb]. by rewrite IH.
Qed.

Lemma join_has c ws :
  Ascii.eqb " " c = false → Forall (λ w, str_has c w = false) ws →
  str_has c (str_join " " ws) = false.
Proof.
  intros Hc Hw. induction Hw as [|w ws H Hws IH]; [done|]. destruct ws as [|w' ws]; [done|].
  change (str_join " " (w :: w' :: ws)) with (w +:+ " " +:+ str_join " " (w' :: ws)).
  rewrite !str_has_app, H, IH. cbn [str_has orb]. by rewrite Hc.
Qed.

Lemma plain_has c w :
  single_separator (Ascii.N_of_ascii c) = true → plain_word w → str_has c w = false.
Proof.
  intros Hc [_ Hs]. rewrite has_existsb. unfold separator_free in Hs.
  induction Hs as [|b l Hb _ IH]; [done|]. cbn [existsb]. rewrite IH, orb_false_r.
  apply N.eqb_neq. intros <-. congruence.
Qed.

(** What a round of the loop does to a command. *)
Definition drops (t : string) (rest : list string) : bool :=
  (string_eqb t "sudo" || string_eqb t "env") && negb (bool_decide (rest = [])) || assignment t.

Lemma plain_words ws : Forall plain_word ws → Forall is_word ws.
Proof. intros H. eapply Forall_impl; [exact H|]. by intros w [? _]. Qed.

Lemma trim_start_join ws : Forall is_word ws → str_trim_start (str_join " " ws) = str_join " " ws.
Proof.
  intros H. rewrite <- (trim_start_words false ws H) at 2. cbn [blank app].
  by rewrite of_codes_codes.
Qed.

Lemma trim_start_after ws : Forall is_word ws → str_trim_start (after ws) = str_join " " ws.
Proof.
  intros H. destruct ws as [|w ws]; [done|]. rewrite <- (trim_start_words true _ H).
  f_equal. cbn [after blank app]. by rewrite <- (of_codes_codes (" " +:+ _)).
Qed.

Lemma step_join t rest :
  Forall plain_word (t :: rest) →
  strip_prefix_step (str_join " " (t :: rest)) =
    if drops t rest then Some (str_join " " rest) else None.
Proof.
  intros Hp. pose proof Hp as [Ht Hr]%Forall_cons. pose proof (plain_words _ Hr) as Hw.
  destruct Ht as [Ht _]. pose proof (word_no_blank t Ht) as Hb. rewrite join_cons.
  assert (existsb (N.eqb 61) (codes t) = str_has "=" t) as E1 by (symmetry; apply has_existsb).
  assert (existsb (N.eqb 47) (codes t) = str_has "/" t) as E2 by (symmetry; apply has_existsb).
  unfold strip_prefix_step. change "sudo " with ("sudo" +:+ " ").
  change "env " with ("env" +:+ " ").
  rewrite !strip_keyword by done. unfold drops.
  destruct (string_eqb t "sudo"), (string_eqb t "env"), (bool_decide (rest = []));
    cbn [andb orb negb]; rewrite ?trim_start_join by done; try done;
    rewrite first_word_join, E1, E2 by done;
    unfold assignment; rewrite of_codes_codes, trim_start_after by done;
    (destruct (str_has "=" t && negb (str_has "/" t)); [done|]);
    rewrite <- join_cons, !find_no_head; try (by case_match);
    apply join_has; try done; (eapply Forall_impl; [exact Hp|]); intros w; by apply plain_has.
Qed.

Lemma strip_loop_join fuel toks :
  (length toks < fuel)%nat → Forall plain_word toks →
  strip_loop fuel (str_join " " toks) = str_join " " (drop_prefixes toks).
Proof.
  revert toks. induction fuel as [|fuel IH]; intros toks Hl Hp; [lia|].
  destruct toks as [|t rest]; [done|]. cbn [strip_loop]. rewrite step_join by done.
  cbn [drop_prefixes]. fold (drops t rest). destruct (drops t rest); [|done].
  apply IH; [cbn in Hl; lia|]. by apply Forall_cons in Hp as [_ Hp].
Qed.

Lemma join_length toks :
  Forall is_word toks → (length toks ≤ String.length (str_join " " toks))%nat.
Proof.
  induction 1 as [|w toks [Hne _] _ IH]; [done|]. rewrite join_cons.
  assert (1 ≤ String.length w)%nat by (destruct w; [done|cbn; lia]).
  rewrite <- !length_codes, codes_app, length_app, !length_codes. unfold after. cbn [length].
  destruct toks as [|t toks]; [cbn; lia|].
  rewrite <- !length_codes, codes_app, length_app, !length_codes in *.
  change (String.length " ") with 1%nat. lia.
Qed.

Lemma strip_prefixes_join toks :
  Forall plain_word toks →
  strip_leading_prefixes (str_join " " toks) = str_join " " (drop_prefixes toks).
Proof.
  intros Hp. apply strip_loop_join; [|done].
  pose proof (join_length toks (plain_words _ Hp)). lia.
Qed.

Lemma drop_prefixes_plain toks : Forall plain_word toks → Forall plain_word (drop_prefixes toks).
Proof.
  induction 1 as [|t toks Ht Hp IH]; [constructor|]. cbn [drop_prefixes].
  destruct (_ || _); [done|]. by constructor.
Qed.

(** ** Lines of commands *)

Fixpoint pieces (b : bool) (first : list string) (rest : list (string * list string)) :
    list (list N) :=
  match rest with
  | [] => [blank b ++ codes (str_join " " first) ++ blank false]
  | (_, next) :: rest' =>
      (blank b ++ codes (str_join " " first) ++ blank true) :: pieces true next rest'
  end.

Lemma join_free ws : Forall plain_word ws → separator_free (str_join " " ws).
Proof.
  unfold separator_free. induction 1 as [|w ws [_ Hw] _ IH]; [constructor|].
  rewrite join_cons, codes_app. apply Forall_app. split; [done|].
  destruct ws as [|w' ws]; [constructor|]. cbn [after]. rewrite codes_app.
  apply Forall_app. split; [by repeat constructor|done].
Qed.

Lemma segments_chain b first rest :
  Forall plain_word first → Forall (λ x, x.1 ∈ separators ∧ Forall plain_word x.2) rest →
  segments_from (blank b) (codes (render_chain first rest)) = pieces b first rest.
Proof.
  intros Hf Hr. revert b first Hf.
  induction Hr as [|[sep next] rest [Hsep Hn] _ IH]; intros b first Hf; cbn [render_chain pieces].
  - rewrite <- (app_nil_r (codes _)) at 1. rewrite segments_free by (by apply join_free).
    cbn [segments_from]. change (blank false) with (@nil N).
    by rewrite reverse_app, reverse_involutive, blank_reverse, app_nil_r.
  - cbn [fst snd] in *. rewrite !codes_app, segments_free by (by apply join_free).
    change (codes " ") with [32%N]. cbn [app]. rewrite segments_step by done.
    rewrite segments_separator by done. change [32%N] with (blank true) at 1.
    rewrite IH by done. rewrite reverse_cons, reverse_app, reverse_involutive, blank_reverse.
    by rewrite <- app_assoc.
Qed.

Lemma trim_piece b b' ws :
  Forall is_word ws →
  utf8_trim (of_codes (blank b ++ codes (str_join " " ws) ++ blank b')) = str_join " " ws.
Proof.
  intros Hw. unfold utf8_trim. rewrite codes_of_codes.
  - rewrite trim_tight by (by apply words_tight). apply of_codes_codes.
  - apply Forall_app. split; [by destruct b; repeat constructor|]. apply Forall_app.
    split; [apply codes_bounded|by destruct b'; repeat constructor].
Qed.

(** The first error of the commands of a line. *)
Fixpoint check_commands (cmds : list (list string)) (policy : GitPolicy) : result unit ToolError :=
  match cmds with
  | [] => Ok tt
  | toks :: rest =>
      match check_segment (str_join " " (drop_prefixes toks)) policy with
      | Ok _ => check_commands rest policy
      | Err e => Err e
      end
  end.

Lemma check_chain first rest policy :
  Forall plain_word first → Forall (λ x, x.1 ∈ separators ∧ Forall plain_word x.2) rest →
  check_git_command_with_policy (render_chain first rest) policy =
    check_commands (first :: rest.*2) policy.
Proof.
  intros Hf Hr. unfold check_git_command_with_policy, split_shell_segments.
  change (segments_from []) with (segments_from (blank false)). rewrite segments_chain by done.
  generalize false. intros b. revert b first Hf.
  induction Hr as [|[sep next] rest [_ Hn] _ IH]; intros b first Hf;
    cbn [pieces fmap list_fmap check_segments check_commands snd];
    rewrite trim_piece, strip_prefixes_join by (try apply plain_words; done);
    (destruct (check_segment _ policy); [|done]); [done|]. by apply IH.
Qed.

(** ** What is permitted *)

Section permitted.
Context (policy : GitPolicy).

Definition protected (b : string) : Prop := b ∈ GP.protected_branches policy.

Definition push_permitted (args : list string) : Prop :=
  (GP.block_branch_delete_protected policy = true →
     (∀ b, b ≠ "" → (":" +:+ b) ∈ args → ¬ protected b)
     ∧ ∀ b, after_first push_delete_flag args = Some b → ¬ protected b)
  ∧ (GP.block_force_push policy = true →
       (∃ f, f ∈ args ∧ f ∈ ["--force"; "--force-with-lease"; "-f"]) →
       ∃ b, target_branch args = Some b
         ∧ (¬ protected (destination b) ∨ destination b ∈ GP.allow_force_push_on policy)).

Definition reset_permitted (args : list string) : Prop :=
  GP.block_hard_reset_on_protected policy = true → "--hard" ∈ args →
  non_flags args ≠ [] ∧ ∀ b, protected b → b ∉ "git" :: "reset" :: args.

Definition branch_permitted (args : list string) : Prop :=
  GP.block_branch_delete_protected policy = true → "-D" ∈ args ∨ "-d" ∈ args →
  ∀ b, b ∈ non_flags args → ¬ protected b.

Definition permitted (toks : list string) : Prop :=
  match drop_prefixes toks with
  | git :: subcommand :: args =>
      git = "git" →
      (subcommand = "push" → push_permitted args)
      ∧ (subcommand = "reset" → reset_permitted args)
      ∧ (subcommand = "branch" → branch_permitted args)
  | _ => True
  end.

Lemma existsb_eqb (b : string) l : existsb (λ x, string_eqb x b) l = true ↔ b ∈ l.
Proof.
  rewrite existsb_exists. unfold string_eqb. setoid_rewrite bool_decide_eq_true.
  setoid_rewrite <- list_elem_of_In. split; [by intros (x & Hx & ->)|by exists b].
Qed.

Lemma is_protected_iff b : is_protected b policy = true ↔ protected b.
Proof. apply existsb_eqb. Qed.

Lemma is_force_allowed_iff b :
  is_force_allowed b policy = true ↔ b ∈ GP.allow_force_push_on policy.
Proof. apply existsb_eqb. Qed.

Lemma force_flags args :
  existsb force_flag args = true ↔
    ∃ f, f ∈ args ∧ f ∈ ["--force"; "--force-with-lease"; "-f"].
Proof.
  rewrite existsb_exists. setoid_rewrite <- list_elem_of_In. unfold force_flag, string_eqb.
  apply exist_proper. intros f. rewrite !orb_true_iff, !bool_decide_eq_true.
  rewrite !elem_of_cons, elem_of_nil. tauto.
Qed.

Lemma strip_colon b s : str_strip_prefix ":" s = Some b ↔ s = ":" +:+ b.
Proof.
  split; [|by intros ->]. destruct s as [|a s]; [done|]. cbn [str_strip_prefix].
  destruct (Ascii.eqb_spec ":" a) as [<-|]; [|done]. by intros [= ->].
Qed.

Lemma first_some_None {A} (f : string → option A) l :
  first_some f l = None ↔ ∀ x, x ∈ l → f x = None.
Proof.
  unfold first_some. induction l as [|y l IH]; cbn.
  - split; [intros _ x H; by apply elem_of_nil in H|done].
  - setoid_rewrite elem_of_cons. destruct (f y) as [z|] eqn:E; cbn.
    + split; [done|]. intros H. specialize (H y). rewrite E in H. discriminate H. by left.
    + rewrite IH. split; [intros H x [->|Hx]; [done|by apply H]|auto].
Qed.

Lemma no_colon_delete args :
  first_some (colon_delete policy) args = None ↔
    ∀ b, b ≠ "" → (":" +:+ b) ∈ args → ¬ protected b.
Proof.
  rewrite first_some_None. unfold colon_delete. split.
  - intros H b Hb Hin Hp. specialize (H _ Hin). rewrite (proj2 (strip_colon b _) eq_refl) in H.
    apply is_protected_iff in Hp. rewrite Hp, andb_true_r in H. by destruct b.
  - intros H x Hx. destruct (str_strip_prefix ":" x) as [b|] eqn:E; [|done].
    apply strip_colon in E as ->. destruct b as [|a b]; [done|]. cbn [str_is_empty negb andb].
    destruct (is_protected _ policy) eqn:Ep; [|done]. apply is_protected_iff in Ep.
    by destruct (H (String a b)).
Qed.

Lemma check_push_ok segment args :
  is_ok (check_push segment args policy) = true ↔ push_permitted args.
Proof.
  unfold check_push, push_permitted. rewrite <- no_colon_delete, <- force_flags.
  assert (check_push_delete segment args policy = None ↔
    (GP.block_branch_delete_protected policy = true →
      first_some (colon_delete policy) args = None
      ∧ ∀ b, after_first push_delete_flag args = Some b → ¬ protected b)) as Hd.
  { unfold check_push_delete. destruct (GP.block_branch_delete_protected policy); [|naive_solver].
    destruct (first_some (colon_delete policy) args); [naive_solver|].
    destruct (after_first push_delete_flag args) as [b|]; [|naive_solver].
    pose proof (is_protected_iff b). destruct (is_protected b policy); naive_solver. }
  rewrite <- Hd. destruct (check_push_delete segment args policy); [naive_solver|].
  destruct (GP.block_force_push policy), (existsb force_flag args); cbn [negb orb];
    try naive_solver.
  destruct (target_branch args) as [b|]; [|naive_solver].
  pose proof (is_protected_iff (destination b)) as H1.
  pose proof (is_force_allowed_iff (destination b)) as H2.
  destruct (is_protected (destination b) policy), (is_force_allowed (destination b) policy);
    cbn [negb andb is_ok]; naive_solver.
Qed.

Lemma find_None {A} (f : A → bool) l : List.find f l = None ↔ ∀ x, x ∈ l → f x = false.
Proof.
  split.
  - intros H x Hx. apply (find_none _ _ H). by apply list_elem_of_In.
  - induction l as [|y l IH]; intros H; [done|]. cbn. rewrite (H y) by left. apply IH.
    intros x Hx. apply H. by right.
Qed.

Lemma check_reset_ok toks args :
  Forall is_word toks → toks = "git"%string :: "reset"%string :: args →
  is_ok (check_reset (str_join " " toks) args policy) = true ↔ reset_permitted args.
Proof.
  intros Hw ->. unfold check_reset, reset_permitted. rewrite <- existsb_eqb.
  destruct (GP.block_hard_reset_on_protected policy); [|cbn; naive_solver].
  destruct (existsb _ args); [|cbn; naive_solver]. cbn [negb].
  assert (List.find (segment_contains_branch (str_join " " ("git" :: "reset" :: args)))
    (GP.protected_branches policy) = None ↔ ∀ b, protected b → b ∉ "git" :: "reset" :: args) as Hf.
  { rewrite find_None. unfold segment_contains_branch. rewrite split_join by done.
    apply forall_proper. intros b. rewrite <- (existsb_eqb b ("git" :: "reset" :: args)%string).
    by rewrite not_true_iff_false. }
  rewrite <- Hf. destruct (List.find _ _), (non_flags args); cbn [is_ok]; naive_solver.
Qed.

Lemma check_branch_ok segment args :
  is_ok (check_branch segment args policy) = true ↔ branch_permitted args.
Proof.
  unfold check_branch, branch_permitted.
  destruct (GP.block_branch_delete_protected policy); [|cbn; naive_solver]. cbn [negb].
  assert (existsb branch_delete_flag args = true ↔ "-D" ∈ args ∨ "-d" ∈ args) as Hd.
  { rewrite existsb_exists. setoid_rewrite <- list_elem_of_In.
    unfold branch_delete_flag, string_eqb.
    setoid_rewrite orb_true_iff. setoid_rewrite bool_decide_eq_true. naive_solver. }
  rewrite <- Hd. destruct (existsb branch_delete_flag args); [|cbn; naive_solver]. cbn [negb].
  assert (List.find (λ b, is_protected b policy) (non_flags args) = None ↔
    ∀ b, b ∈ non_flags args → ¬ protected b) as Hf.
  { rewrite find_None. apply forall_proper. intros b.
    by rewrite <- is_protected_iff, not_true_iff_false. }
  rewrite <- Hf. destruct (List.find _ _); cbn [is_ok]; naive_solver.
Qed.

Lemma check_segment_ok toks :
  Forall plain_word toks →
  is_ok (check_segment (str_join " " (drop_prefixes toks)) policy) = true ↔ permitted toks.
Proof.
  intros Hp. pose proof (plain_words _ (drop_prefixes_plain _ Hp)) as Hw.
  unfold check_segment, permitted. rewrite split_join by done.
  destruct (drop_prefixes toks) as [|git [|sub args]]; [done|done|]. unfold string_eqb.
  destruct (bool_decide_reflect (git = "git")) as [->|]; cbn [negb]; [|naive_solver].
  destruct (bool_decide_reflect (sub = "push")) as [->|].
  { rewrite check_push_ok. naive_solver. }
  destruct (bool_decide_reflect (sub = "reset")) as [->|].
  { rewrite (check_reset_ok _ args) by done. naive_solver. }
  destruct (bool_decide_reflect (sub = "branch")) as [->|]; [|naive_solver].
  rewrite check_branch_ok. naive_solver.
Qed.
End permitted.

(** A line of plain words, whatever its separators and blanks, is let through exactly when
    each of its commands is permitted. *)
Theorem git_guard_spec policy first rest :
  Forall plain_word first → Forall (λ x, x.1 ∈ separators ∧ Forall plain_word x.2) rest →
  is_ok (check_git_command_with_policy (render_chain first rest) policy) = true ↔
    Forall (permitted policy) (first :: rest.*2).
Proof.
  intros Hf Hr. rewrite check_chain by done.
  assert (Forall (Forall plain_word) (first :: rest.*2)) as Hall.
  { constructor; [done|]. apply Forall_fmap. eapply Forall_impl; [exact Hr|]. by intros x [_ ?]. }
  induction Hall as [|toks cmds Ht _ IH]; [by split|]. cbn [check_commands].
  pose proof (check_segment_ok policy toks Ht) as Hs. rewrite Forall_cons, <- IH.
  destruct (check_segment _ policy); cbn [is_ok] in *; naive_solver.
Qed.

#[local] Ltac plain := repeat constructor; try discriminate.

(** Behind sudo, an assignment and another command, a forced push to main is refused. *)
Example git_guard_spec_witness :
  let line := render_chain ["cargo"; "test"]
    [("&&", ["sudo"; "A=b"; "git"; "push"; "-f"; "origin"; "HEAD:main"])] in
  line = "cargo test && sudo A=b git push -f origin HEAD:main"
  ∧ is_ok (check_git_command line) = false.
Proof.
  cbv zeta. split; [by vm_compute|]. apply not_true_iff_false. intros H.
  apply (git_guard_spec GP.default ["cargo"; "test"]
    [("&&", ["sudo"; "A=b"; "git"; "push"; "-f"; "origin"; "HEAD:main"])]) in H; [|by plain..].
  apply Forall_cons in H as [_ H]. apply Forall_cons in H as [H _].
  destruct (H eq_refl) as [Hp _]. destruct (Hp eq_refl) as [_ Hforce].
  destruct (Hforce eq_refl) as (b & Hb & Hor); [exists "-f"; split; set_solver|].
  vm_compute in Hb. injection Hb as <-. destruct Hor as [Hor|Hor].
  - apply Hor. vm_compute. set_solver.
  - by apply elem_of_nil in Hor.
Defined.
