(* ===== verification/BashGuard.v ===== *)
(** * The command and tool lists of agents (crates/roko-agent/src/safety/bash.rs, allowlist.rs)

    The layered check of a command line: its length, the prefixes that are let through, the
    patterns that are not, and the absolute paths it names; and the lists of tools.  Regular
    expressions are those of a library. *)

From S2P Require Import Prelude Text Tool.

(** [Regex::is_match] *)
Class RegexLib := { regex_is_match : string → string → bool }.

Module DenyPattern.
Inductive t : Type := Substring (s : string) | Regex (r : string).

Definition name (p : t) : string :=
  match p with
  | Substring s => "substring `" +:+ s +:+ "`"
  | Regex r => "regex `" +:+ r +:+ "`"
  end.

Definition matches {RX : RegexLib} (p : t) (command : string) : bool :=
  match p with
  | Substring s => str_contains s command
  | Regex r => regex_is_match r command
  end.
End DenyPattern.
Abbreviation DenyPattern := DenyPattern.t.
Module DP := DenyPattern.

Module BashPolicy.
Record t : Type := mk {
  deny_patterns : list DenyPattern;
  allow_prefixes : list string;
  max_command_len : nat;
  allowed_path_prefixes : list string;
}.

Definition with_defaults : t :=
  mk [DP.Substring "rm -rf /"; DP.Substring "rm -rf /*"; DP.Substring "rm -rf ~";
      DP.Substring "rm -rf ~/"; DP.Substring "sudo ";
      DP.Regex "(curl|wget)[^|]*\|\s*(sh|bash)"; DP.Substring ":(){:|:&};:";
      DP.Substring "mkfs."; DP.Substring "dd if=/dev/"; DP.Substring "chmod -R 777 /";
      DP.Regex ">\s*/dev/(sda|nvme|disk)"]
    [] (N.to_nat 8192) [].
End BashPolicy.
Abbreviation BashPolicy := BashPolicy.t.
Module BP := BashPolicy.

(** [split_ascii_whitespace]: blanks, tabs, line feeds, form feeds and carriage returns. *)
Definition ascii_ws (b : N) : bool :=
  (b =? 32)%N || (b =? 9)%N || (b =? 10)%N || (b =? 12)%N || (b =? 13)%N.

Fixpoint ascii_words_from (cur l : list N) : list (list N) :=
  match l with
  | [] => flush cur
  | b :: l' =>
      if ascii_ws b then flush cur ++ ascii_words_from [] l'
      else ascii_words_from (b :: cur) l'
  end.
Definition split_ascii_whitespace (s : string) : list string :=
  of_codes <$> ascii_words_from [] (codes s).

Definition metachar (s : string) : bool :=
  existsb (λ c, str_has c s) ["$"; "`"; "|"; ";"; "&"; "("; ")"]%char.

(** [token.trim_end_matches([':', ',', ')', ']'])] *)
Fixpoint drop_closers (l : list N) : list N :=
  match l with
  | b :: l' =>
      if (b =? 58)%N || (b =? 44)%N || (b =? 41)%N || (b =? 93)%N then drop_closers l' else l
  | [] => []
  end.
Definition trim_closers (s : string) : string :=
  of_codes (reverse (drop_closers (reverse (codes s)))).

(** The path a token names outside the prefixes. *)
Definition outside (prefixes : list string) (token : string) : option string :=
  if str_starts_with "/" token && negb (metachar token) then
    let path := trim_closers token in
    if existsb (λ p, str_starts_with p path) prefixes then None else Some path
  else None.

Definition check_path_confinement (command : string) (prefixes : list string) :
    result unit ToolError :=
  match prefixes with
  | [] => Ok tt
  | _ =>
      match omap (outside prefixes) (split_ascii_whitespace command) with
      | path :: _ =>
          Err (TE.CommandNotAllowed
            ("absolute path `" +:+ path +:+ "` is outside the allowed prefixes"))
      | [] => Ok tt
      end
  end.

Section check.
Context {RX : RegexLib}.

Definition check_command_with_policy (command : string) (policy : BashPolicy) :
    result unit ToolError :=
  if (BP.max_command_len policy <? chars_count command)%nat then
    Err (TE.CommandNotAllowed
      ("command exceeds max length (" +:+ fmt_nat (chars_count command) +:+ " > "
         +:+ fmt_nat (BP.max_command_len policy) +:+ ")"))
  else if existsb (λ p, str_starts_with p command) (BP.allow_prefixes policy) then Ok tt
  else
    match List.find (λ p, DP.matches p command) (BP.deny_patterns policy) with
    | Some pattern => Err (TE.CommandNotAllowed ("matches denylist: " +:+ DP.name pattern))
    | None => check_path_confinement command (BP.allowed_path_prefixes policy)
    end.

Definition check_command (command : string) : result unit ToolError :=
  check_command_with_policy command BP.with_defaults.
End check.

(** ** Tools *)

Module AllowlistGuard.
Record t : Type := mk { allowed : gset string; denied : gset string }.

Definition permissive : t := mk ∅ ∅.
Definition new (allowed denied : list string) : t := mk (list_to_set allowed) (list_to_set denied).
Definition allow_only (tools : list string) : t := mk (list_to_set tools) ∅.
Definition deny_only (tools : list string) : t := mk ∅ (list_to_set tools).

Definition is_permitted (tool_name : string) (g : t) : bool :=
  if bool_decide (tool_name ∈ denied g) then false
  else if bool_decide (allowed g = ∅) then true
  else bool_decide (tool_name ∈ allowed g).
End AllowlistGuard.
Abbreviation AllowlistGuard := AllowlistGuard.t.
Module AG := AllowlistGuard.

Module HookDecision.
Inductive t (V : Type) : Type := Allow | AllowModified (params : V) | Reject (reason : string).
Arguments Allow {V}.
Arguments AllowModified {V} _.
Arguments Reject {V} _.
End HookDecision.
Abbreviation HookDecision := HookDecision.t.
Module HD := HookDecision.

(** [SafetyHook::on_tool_call] of the lists. *)
Definition allowlist_on_tool_call {V} (g : AllowlistGuard) (tool_name : string) : HookDecision V :=
  if bool_decide (tool_name ∈ AG.denied g) then
    HD.Reject ("tool `" +:+ tool_name +:+ "` is on the denylist")
  else if negb (bool_decide (AG.allowed g = ∅)) && negb (bool_decide (tool_name ∈ AG.allowed g)) then
    HD.Reject ("tool `" +:+ tool_name +:+ "` is not on the allowlist")
  else HD.Allow.

(** ** What is let through *)

(** The absolute paths among the words of a line start with allowed prefixes. *)
Definition confined (prefixes words : list string) : Prop :=
  prefixes = [] ∨
  ∀ w, w ∈ words → str_starts_with "/" w = true → metachar w = false →
    ∃ p, p ∈ prefixes ∧ str_starts_with p (trim_closers w) = true.

Lemma omap_nil {A B} (f : A → option B) l : omap f l = [] ↔ ∀ x, x ∈ l → f x = None.
Proof.
  induction l as [|y l IH]; cbn; [split; [intros _ x H; by apply elem_of_nil in H|done]|].
  setoid_rewrite elem_of_cons. destruct (f y) as [z|] eqn:E.
  - split; [done|]. intros H. specialize (H y). rewrite E in H. discriminate H. by left.
  - rewrite IH. split; [intros H x [->|Hx]; [done|by apply H]|auto].
Qed.

Lemma existsb_elem {A} (f : A → bool) l : existsb f l = true ↔ ∃ x, x ∈ l ∧ f x = true.
Proof. rewrite existsb_exists. by setoid_rewrite <- list_elem_of_In. Qed.

Lemma path_confinement_ok command prefixes :
  is_ok (check_path_confinement command prefixes) = true ↔
    confined prefixes (split_ascii_whitespace command).
Proof.
  unfold check_path_confinement, confined. destruct prefixes as [|p ps]; [by split; [left|]|].
  set (ws := split_ascii_whitespace command).
  assert (omap (outside (p :: ps)) ws = [] ↔
    ∀ w, w ∈ ws → str_starts_with "/" w = true → metachar w = false →
      ∃ q, q ∈ p :: ps ∧ str_starts_with q (trim_closers w) = true) as H.
  { rewrite omap_nil. apply forall_proper. intros w. unfold outside. cbv zeta.
    rewrite <- (existsb_elem (λ q, str_starts_with q (trim_closers w)) (p :: ps)).
    destruct (str_starts_with "/" w), (metachar w); cbn [negb andb]; try (by split).
    destruct (existsb _ _); split; naive_solver. }
  destruct (omap _ ws) as [|x l]; cbn [is_ok].
  - split; [|done]. intros _. right. by apply H.
  - split; [done|]. intros [?|Hc]; [done|]. by apply H in Hc.
Qed.

Section theorems.
Context {RX : RegexLib}.

(** A line is let through exactly when it is short enough and either starts with an allowed
    prefix, or matches no pattern and names no path outside the prefixes. *)
Theorem bash_guard_spec command policy :
  is_ok (check_command_with_policy command policy) = true ↔
    (chars_count command ≤ BP.max_command_len policy)%nat
    ∧ ((∃ p, p ∈ BP.allow_prefixes policy ∧ str_starts_with p command = true)
       ∨ (∀ p, p ∈ BP.deny_patterns policy → DP.matches p command = false)
         ∧ confined (BP.allowed_path_prefixes policy) (split_ascii_whitespace command)).
Proof.
  unfold check_command_with_policy. rewrite <- path_confinement_ok, <- existsb_elem.
  destruct (Nat.ltb_spec (BP.max_command_len policy) (chars_count command)).
  { split; [done|]. intros [? _]. lia. }
  destruct (existsb _ _); [by split; auto|].
  assert (List.find (λ p, DP.matches p command) (BP.deny_patterns policy) = None ↔
    ∀ p, p ∈ BP.deny_patterns policy → DP.matches p command = false) as Hd.
  { split.
    - intros Hf p Hp. apply (find_none _ _ Hf). by apply list_elem_of_In.
    - intros Hf. destruct (List.find _ _) as [p|] eqn:E; [|done].
      apply find_some in E as [Hp%list_elem_of_In E]. rewrite (Hf p Hp) in E. done. }
  rewrite <- Hd. destruct (List.find _ _); cbn [is_ok]; naive_solver.
Qed.
End theorems.

Lemma ascii_words_solid w cur l :
  Forall (λ b, solid b = true) w →
  ascii_words_from cur (w ++ l) = ascii_words_from (reverse w ++ cur) l.
Proof.
  revert cur. induction w as [|b w IH]; intros cur Hw; [done|].
  apply Forall_cons in Hw as [Hb Hw]. cbn [app ascii_words_from].
  assert (ascii_ws b = false) as ->.
  { unfold solid, ascii_ws in *. apply andb_prop in Hb as [_ Hb%negb_true_iff].
    rewrite orb_false_iff, andb_false_iff, !N.leb_gt, N.eqb_neq in Hb.
    rewrite !orb_false_iff, !N.eqb_neq. lia. }
  rewrite IH by done. by rewrite reverse_cons, <- app_assoc.
Qed.

(** Words joined by blanks are read back here too. *)
Lemma ascii_split_join ws : Forall is_word ws → split_ascii_whitespace (str_join " " ws) = ws.
Proof.
  intros Hw. unfold split_ascii_whitespace.
  assert (ascii_words_from [] (codes (str_join " " ws)) = codes <$> ws) as ->.
  { induction Hw as [|w ws [Hne Hs] Hws IH]; [done|].
    apply codes_nonempty in Hne. destruct ws as [|w' ws].
    - cbn [str_join fmap list_fmap]. rewrite <- (app_nil_r (codes w)), ascii_words_solid by done.
      rewrite !app_nil_r. by apply flush_word.
    - change (str_join " " (w :: w' :: ws)) with (w +:+ " " +:+ str_join " " (w' :: ws)).
      rewrite codes_app, ascii_words_solid by done. rewrite app_nil_r, codes_app.
      change (codes " ") with [32%N]. cbn [app ascii_words_from ascii_ws N.eqb Pos.eqb orb].
      by rewrite flush_word, IH. }
  rewrite <- list_fmap_compose. rewrite <- (list_fmap_id ws) at 2. apply list_fmap_ext.
  intros i w _. apply of_codes_codes.
Qed.

(** On a line of words every absolute path without metacharacters is held to the prefixes. *)
Theorem bash_guard_line {RX : RegexLib} ws policy :
  Forall is_word ws →
  is_ok (check_command_with_policy (str_join " " ws) policy) = true →
  (∀ p, p ∈ BP.allow_prefixes policy → str_starts_with p (str_join " " ws) = false) →
  confined (BP.allowed_path_prefixes policy) ws
  ∧ ∀ p, p ∈ BP.deny_patterns policy → DP.matches p (str_join " " ws) = false.
Proof.
  intros Hw Hok Hno. apply bash_guard_spec in Hok as [_ [(p & Hp & Hs)|[Hd Hc]]].
  - rewrite Hno in Hs by done. done.
  - by rewrite ascii_split_join in Hc.
Qed.

(** The hook of the lists and their test agree; a denied tool is never permitted. *)
Theorem allowlist_hook_agrees {V} g tool :
  (allowlist_on_tool_call (V := V) g tool = HD.Allow ↔ AG.is_permitted tool g = true)
  ∧ (AG.is_permitted tool g = true ↔
       (tool ∉ AG.denied g) ∧ (AG.allowed g = ∅ ∨ tool ∈ AG.allowed g)).
Proof.
  unfold allowlist_on_tool_call, AG.is_permitted.
  repeat case_bool_decide; cbn [negb andb]; split; naive_solver.
Qed.

(** ** Examples *)

(** No regular expression matches. *)
#[local] Instance no_regex : RegexLib := {| regex_is_match _ _ := false |}.

Definition in_work : BashPolicy := BP.mk [] [] 100 ["/work"].

Example confinement :
  is_ok (check_command_with_policy "cat /work/a, /work/b" in_work) = true
  ∧ is_ok (check_command_with_policy "cat /etc/passwd" in_work) = false.
Proof. by vm_compute. Qed.

(** What the confinement lets through: a path that climbs out, a sibling of the prefix, a
    redirection, quotes, and any token with a metacharacter. *)
Example confinement_escapes :
  forallb (λ c, is_ok (check_command_with_policy c in_work))
    ["cat /work/../etc/passwd"; "cat /workspace/secret"; "cat</etc/passwd"; "cat '/etc/passwd'";
     "cat /etc/passwd;true"] = true.
Proof. by vm_compute. Qed.

(** What the literal patterns let through. *)
Example denylist_escapes :
  forallb (λ c, is_ok (check_command c))
    ["rm -fr /"; "rm  -rf /"; "rm -r -f /"; "rm -rf $HOME"; "chmod -R 0777 /"] = true
  ∧ is_ok (check_command ("sudo" +:+ of_codes [9]%N +:+ "su")) = true
  ∧ is_ok (check_command "rm -rf /tmp/build") = false.
Proof. by vm_compute. Qed.
