(* ===== verification/RateLimit.v ===== *)
(** * The rate limiter of tools (crates/roko-agent/src/safety/rate_limit.rs)

    A sliding window per role and tool: a call is admitted while fewer than so many were
    admitted in the window that ends now. *)

From S2P Require Import Prelude Tool.

Module RateLimitKey.
Record t : Type := mk { role : string; tool : string }.

#[global] Instance t_eq_dec : EqDecision t.
Proof. solve_decision. Defined.
#[global] Program Instance t_countable : Countable t :=
  inj_countable (λ k, (role k, tool k)) (λ p, Some (mk p.1 p.2)) _.
Next Obligation. by intros []. Qed.
End RateLimitKey.
Abbreviation RateLimitKey := RateLimitKey.t.
Module RK := RateLimitKey.

(** Times are nanoseconds. *)
Module RateLimitPolicy.
Record t : Type := mk { max_calls_per_window : nat; window_duration : Z }.
Definition default : t := mk 60 60000000000.
End RateLimitPolicy.
Abbreviation RateLimitPolicy := RateLimitPolicy.t.
Module RP := RateLimitPolicy.

Module RateLimiter.
Record t : Type := mk { policy : RateLimitPolicy; state : gmap RateLimitKey (list Z) }.

Definition new (policy : RateLimitPolicy) : t := mk policy ∅.
Definition with_defaults : t := new RP.default.

Section limiter.
(** The earliest instant the platform can represent. *)
Context (epoch : Z).

(** [now.checked_sub(window).unwrap_or(now)] *)
Definition window_start (now : Z) (l : t) : Z :=
  let start := (now - RP.window_duration (policy l))%Z in
  if (epoch <=? start)%Z then start else now.

Fixpoint prune (deque : list Z) (start : Z) : list Z :=
  match deque with
  | [] => []
  | t :: rest => if (t <=? start)%Z then prune rest start else deque
  end.

(** The live timestamps of a key. *)
Definition live (key : RateLimitKey) (now : Z) (l : t) : list Z :=
  prune (stdpp.option.default [] (state l !! key)) (window_start now l).

Definition rate_limit_error (key : RateLimitKey) (len : nat) (l : t) : ToolError :=
  TE.Other ("rate limit exceeded for role=" +:+ RK.role key +:+ " tool=" +:+ RK.tool key +:+ ": "
    +:+ fmt_nat len +:+ "/" +:+ fmt_nat (RP.max_calls_per_window (policy l)) +:+ " in "
    +:+ fmt_N (Z.to_N (RP.window_duration (policy l) / 1000000)) +:+ "ms window").

Definition store (key : RateLimitKey) (deque : list Z) (l : t) : t :=
  mk (policy l) (<[key := deque]> (state l)).

Definition check (key : RateLimitKey) (now : Z) (l : t) : t * result unit ToolError :=
  let deque := live key now l in
  (store key deque l,
   if (RP.max_calls_per_window (policy l) <=? length deque)%nat then
     Err (rate_limit_error key (length deque) l)
   else Ok tt).

Definition record (key : RateLimitKey) (now : Z) (l : t) : t :=
  store key (live key now l ++ [now]) l.

Definition check_and_record (key : RateLimitKey) (now : Z) (l : t) : t * result unit ToolError :=
  let deque := live key now l in
  if (length deque <? RP.max_calls_per_window (policy l))%nat then
    (store key (deque ++ [now]) l, Ok tt)
  else (store key deque l, Err (rate_limit_error key (length deque) l)).
End limiter.
End RateLimiter.
Abbreviation RateLimiter := RateLimiter.t.
Module RL := RateLimiter.

(** ** Histories *)

Inductive RateOp : Type := Check | Record | CheckAndRecord.

(** A call, and whether it was admitted. *)
Record Call : Type := call { op : RateOp; key : RateLimitKey; at_time : Z; admitted : bool }.

(** The call leaves a timestamp. *)
Definition recorded (c : Call) : bool :=
  match op c with Check => false | Record => true | CheckAndRecord => admitted c end.

Section histories.
Context (epoch : Z) (policy : RateLimitPolicy).
#[local] Abbreviation window := (RP.window_duration policy).
#[local] Abbreviation limit := (RP.max_calls_per_window policy).

Definition perform (o : RateOp) (k : RateLimitKey) (now : Z) (l : RateLimiter) :
    RateLimiter * bool :=
  match o with
  | Check => let '(l', r) := RL.check epoch k now l in (l', is_ok r)
  | Record => (RL.record epoch k now l, true)
  | CheckAndRecord => let '(l', r) := RL.check_and_record epoch k now l in (l', is_ok r)
  end.

Fixpoint calls (ops : list (RateOp * RateLimitKey * Z)) (l : RateLimiter) :
    RateLimiter * list Call :=
  match ops with
  | [] => (l, [])
  | (o, k, now) :: ops' =>
      let '(l1, b) := perform o k now l in
      let '(l2, log) := calls ops' l1 in (l2, call o k now b :: log)
  end.

(** The timestamps a history left for a key. *)
Definition times (k : RateLimitKey) (log : list Call) : list Z :=
  at_time <$> List.filter (λ c, recorded c && bool_decide (key c = k)) log.

Definition later (start : Z) (ts : list Z) : list Z := List.filter (λ t, (start <? t)%Z) ts.

(** The clock of a history does not go back, and a window before it can be represented. *)
Fixpoint clock_from (now : Z) (ops : list (RateOp * RateLimitKey * Z)) : Prop :=
  match ops with
  | [] => True
  | (_, _, t) :: ops' => (now ≤ t)%Z ∧ (epoch ≤ t - window)%Z ∧ clock_from t ops'
  end.

Lemma later_app s a b : later s (a ++ b) = later s a ++ later s b.
Proof. apply List.filter_app. Qed.

Lemma later_later s s' ts : (s ≤ s')%Z → later s' (later s ts) = later s' ts.
Proof.
  intros Hs. unfold later. induction ts as [|t ts IH]; [done|]. cbn [List.filter].
  destruct (Z.ltb_spec s t), (Z.ltb_spec s' t); cbn [List.filter]; try lia;
    rewrite ?IH; destruct (Z.ltb_spec s' t); try lia; done.
Qed.

Lemma times_app k a b : times k (a ++ b) = times k a ++ times k b.
Proof. unfold times. by rewrite List.filter_app, fmap_app. Qed.

Lemma prune_later ts start : StronglySorted Z.le ts → RL.prune ts start = later start ts.
Proof.
  induction 1 as [|t ts _ IH Ht]; [done|]. unfold later in *. cbn [RL.prune List.filter].
  destruct (Z.leb_spec t start), (Z.ltb_spec start t); try lia; [done|]. f_equal.
  symmetry. rewrite Forall_forall in Ht. clear IH. induction ts as [|t' ts IH]; [done|].
  cbn [List.filter]. specialize (Ht t') as Ht'. destruct (Z.ltb_spec start t').
  - f_equal. apply IH. intros x Hx. apply Ht. by right.
  - assert (t ≤ t')%Z by (apply Ht'; left). lia.
Qed.

Lemma later_sorted s ts : StronglySorted Z.le ts → StronglySorted Z.le (later s ts).
Proof.
  unfold later. induction 1 as [|t ts _ IH Ht]; [constructor|]. cbn [List.filter].
  destruct (s <? t)%Z; [|done]. constructor; [done|]. rewrite Forall_forall in *. intros x Hx.
  apply Ht. apply list_elem_of_In, filter_In in Hx as [Hx _]. by apply list_elem_of_In.
Qed.

Lemma sorted_snoc ts t :
  StronglySorted Z.le ts → Forall (λ x, x ≤ t)%Z ts → StronglySorted Z.le (ts ++ [t]).
Proof.
  induction 1 as [|x ts _ IH Hx]; intros Hf; [repeat constructor|].
  apply Forall_cons in Hf as [Hxt Hf].
  cbn. constructor; [by apply IH|]. apply Forall_app. split; [done|]. by repeat constructor.
Qed.

(** The deques hold what the history left in every window from now on. *)
Definition tracks (now : Z) (log : list Call) (l : RateLimiter) : Prop :=
  RL.policy l = policy ∧
  ∀ k, let d := stdpp.option.default [] (RL.state l !! k) in
    StronglySorted Z.le d ∧ Forall (λ t, t ≤ now)%Z d
    ∧ ∀ s, (now - window ≤ s)%Z → later s d = later s (times k log).

Lemma tracks_live now log l k t :
  tracks now log l → (now ≤ t)%Z → (epoch ≤ t - window)%Z →
  RL.live epoch k t l = later (t - window) (times k log).
Proof.
  intros [Hp Hk] Hn He. destruct (Hk k) as (Hs & _ & Hl). unfold RL.live, RL.window_start.
  rewrite Hp. destruct (Z.leb_spec epoch (t - window)); [|lia].
  rewrite prune_later by done. apply Hl. lia.
Qed.

(** Storing the live timestamps, with or without the new one. *)
Lemma tracks_store now log l k t (push : bool) c :
  tracks now log l → (now ≤ t)%Z → (epoch ≤ t - window)%Z →
  key c = k → at_time c = t → recorded c = push →
  tracks t (log ++ [c])
    (RL.store k (later (t - window) (times k log) ++ if push then [t] else []) l).
Proof.
  intros Htr Hn He Hk Ht Hrec. pose proof Htr as [Hp Hall]. split; [done|].
  intros k'. unfold RL.store. cbn [RL.state].
  assert (times k' (log ++ [c]) = times k' log ++ if push && bool_decide (k = k') then [t] else [])
    as Htimes.
  { rewrite times_app. f_equal. unfold times. cbn [List.filter]. rewrite Hrec, Hk.
    destruct (push && _); cbn; by rewrite ?Ht. }
  rewrite Htimes. destruct (decide (k = k')) as [<-|Hne].
  - rewrite lookup_insert_eq, bool_decide_true, andb_true_r by done. cbn [from_option]. unfold id.
    pose proof (tracks_live now log l k t Htr Hn He) as Hlive.
    destruct (Hall k) as (Hs & Hf & Hl). rewrite <- (Hl (t - window)%Z) by lia.
    set (d := stdpp.option.default [] (RL.state l !! k)) in *.
    assert (Forall (λ x, x ≤ t)%Z (later (t - window) d)) as Hle.
    { rewrite Forall_forall in *. intros x Hx. apply list_elem_of_In, filter_In in Hx as [Hx _].
      apply list_elem_of_In, Hf in Hx. lia. }
    split; [|split].
    + destruct push; [|rewrite app_nil_r; by apply later_sorted].
      apply sorted_snoc; [by apply later_sorted|done].
    + apply Forall_app. split; [done|]. destruct push; repeat constructor. lia.
    + intros s Hs'. rewrite !later_app, later_later by lia. f_equal. apply Hl. lia.
  - rewrite lookup_insert_ne by done. rewrite bool_decide_false, andb_false_r, app_nil_r by done.
    destruct (Hall k') as (Hs & Hf & Hl). split; [done|]. split.
    + eapply Forall_impl; [exact Hf|]. cbn. lia.
    + intros s Hs'. apply Hl. lia.
Qed.

(** Whether a call of this kind is admitted after a history. *)
Definition verdict (o : RateOp) (k : RateLimitKey) (t : Z) (log : list Call) : bool :=
  match o with
  | Record => true
  | _ => (length (later (t - window) (times k log)) <? limit)%nat
  end.

Lemma perform_tracks now log l o k t :
  tracks now log l → (now ≤ t)%Z → (epoch ≤ t - window)%Z →
  (perform o k t l).2 = verdict o k t log
  ∧ tracks t (log ++ [call o k t (verdict o k t log)]) (perform o k t l).1.
Proof.
  intros Htr Hn He. pose proof (tracks_live now log l k t Htr Hn He) as Hlive.
  pose proof Htr as [Hp _]. unfold perform, verdict.
  destruct o; unfold RL.check, RL.record, RL.check_and_record; rewrite Hlive, ?Hp.
  - rewrite Nat.ltb_antisym. destruct (limit <=? _)%nat eqn:El; cbn [fst snd is_ok negb];
      (split; [done|]); rewrite <- (app_nil_r (later _ _));
        by apply (tracks_store now log l k t false).
  - split; [done|]. by apply (tracks_store now log l k t true).
  - destruct (_ <? limit)%nat eqn:El; cbn [fst snd is_ok]; (split; [done|]).
    + by apply (tracks_store now log l k t true).
    + rewrite <- (app_nil_r (later _ _)). by apply (tracks_store now log l k t false).
Qed.

(** The verdicts of a history, from an earlier one. *)
Fixpoint verdicts (log : list Call) (ops : list (RateOp * RateLimitKey * Z)) : list Call :=
  match ops with
  | [] => []
  | (o, k, t) :: ops' =>
      let c := call o k t (verdict o k t log) in c :: verdicts (log ++ [c]) ops'
  end.

Lemma calls_tracks ops now log l :
  tracks now log l → clock_from now ops → (calls ops l).2 = verdicts log ops.
Proof.
  revert now log l. induction ops as [|[[o k] t] ops IH]; intros now log l Htr Hc; [done|].
  cbn [clock_from calls verdicts] in *. destruct Hc as (Hn & He & Hc).
  destruct (perform_tracks now log l o k t Htr Hn He) as [Hb Htr'].
  destruct (perform o k t l) as [l1 b]. cbn [fst snd] in *. subst b.
  specialize (IH t _ l1 Htr' Hc). destruct (calls ops l1) as [l2 log']. cbn [snd] in *.
  by rewrite IH.
Qed.

Lemma limiter_tracks_new now : tracks now [] (RL.new policy).
Proof.
  split; [done|]. intros k. cbn. rewrite lookup_empty. cbn. repeat constructor.
Qed.
End histories.

Section theorems.
Context (epoch : Z) (policy : RateLimitPolicy).

(** A call is admitted exactly when fewer than the limit were admitted or recorded for its key
    in the window that ends with it; only plain recordings are never refused. *)
Theorem admitted_by_history now ops :
  clock_from epoch policy now ops →
  (calls epoch ops (RL.new policy)).2 = verdicts policy [] ops.
Proof. intros H. by apply (calls_tracks epoch policy ops now), H; apply limiter_tracks_new. Qed.

(** The timestamps in the window that follows [s]. *)
Definition within (s : Z) (ts : list Z) : list Z :=
  List.filter (λ t, (s <? t)%Z && (t <=? s + RP.window_duration policy)%Z) ts.

Lemma within_app s a b : within s (a ++ b) = within s a ++ within s b.
Proof. apply List.filter_app. Qed.

Lemma within_later s t ts :
  (t <= s + RP.window_duration policy)%Z →
  (length (within s ts) ≤ length (later (t - RP.window_duration policy) ts))%nat.
Proof.
  intros Ht. unfold within, later. induction ts as [|x ts IH]; [done|]. cbn [List.filter].
  destruct (Z.ltb_spec s x), (Z.leb_spec x (s + RP.window_duration policy)),
    (Z.ltb_spec (t - RP.window_duration policy) x); cbn [andb length]; lia.
Qed.

(** One more call does not break a bound on every window. *)
Lemma within_step log o k' t k s :
  o ≠ Record →
  (length (within s (times k log)) ≤ RP.max_calls_per_window policy)%nat →
  (length (within s (times k (log ++ [call o k' t (verdict policy o k' t log)])))
    ≤ RP.max_calls_per_window policy)%nat.
Proof.
  intros Ho Hlog. set (c := call o k' t _). rewrite times_app, within_app, length_app.
  unfold times at 2. cbn [List.filter].
  destruct (recorded c && bool_decide (key c = k)) eqn:E; [|cbn; lia].
  apply andb_prop in E as [Hrec Hk%bool_decide_eq_true]. cbn [fmap list_fmap within List.filter].
  change (at_time c) with t. change (key c) with k' in Hk. subst k'.
  destruct ((s <? t)%Z && (t <=? s + RP.window_duration policy)%Z) eqn:Ew; [|cbn; lia].
  apply andb_prop in Ew as [_ Ew%Z.leb_le]. cbn [length].
  pose proof (within_later s t (times k log) Ew).
  assert (length (later (t - RP.window_duration policy) (times k log))
    < RP.max_calls_per_window policy)%nat; [|lia].
  destruct o; [done|done|]. by apply Nat.ltb_lt.
Qed.

Lemma within_bounded log ops k s :
  Forall (λ o, o.1.1 ≠ Record) ops →
  (length (within s (times k log)) ≤ RP.max_calls_per_window policy)%nat →
  (length (within s (times k (log ++ verdicts policy log ops)))
    ≤ RP.max_calls_per_window policy)%nat.
Proof.
  intros Hr. revert log. induction Hr as [|[[o k'] t] ops Ho _ IH]; intros log Hlog.
  { cbn [verdicts]. by rewrite app_nil_r. }
  cbn [verdicts]. set (c := call o k' t _). change (c :: ?l) with ([c] ++ l).
  rewrite app_assoc. apply IH. by apply within_step.
Qed.

(** In no window of the policy's length, wherever it starts, are more calls of a key admitted
    than the limit. *)
Theorem rate_limit_window now ops k s :
  clock_from epoch policy now ops → Forall (λ o, o.1.1 ≠ Record) ops →
  (length (within s (times k (calls epoch ops (RL.new policy)).2))
    ≤ RP.max_calls_per_window policy)%nat.
Proof.
  intros Hc Hr. rewrite (calls_tracks epoch policy ops now [] (RL.new policy));
    [|apply limiter_tracks_new|done].
  apply (within_bounded [] ops k s Hr). cbn. lia.
Qed.
End theorems.

Definition bash : RateLimitKey := RK.mk "implementer" "bash".
Definition two_per_ten : RateLimitPolicy := RP.mk 2 10.
Definition burst : list (RateOp * RateLimitKey * Z) :=
  [(CheckAndRecord, bash, 100); (CheckAndRecord, bash, 104); (CheckAndRecord, bash, 109);
   (CheckAndRecord, bash, 110); (Check, bash, 111); (CheckAndRecord, bash, 114)]%Z.

Example burst_admitted :
  admitted <$> (calls 0 burst (RL.new two_per_ten)).2 = [true; true; false; true; false; true].
Proof. by vm_compute. Qed.

Example rate_limit_window_witness :
  (length (within two_per_ten 103 (times bash (calls 0 burst (RL.new two_per_ten)).2)) ≤ 2)%nat.
Proof.
  apply (rate_limit_window 0 two_per_ten 0 burst bash 103).
  - cbn. lia.
  - repeat constructor; discriminate.
Defined.

Example admitted_by_history_witness :
  (calls 0 burst (RL.new two_per_ten)).2 = verdicts two_per_ten [] burst.
Proof. apply (admitted_by_history 0 two_per_ten 0 burst). cbn. lia. Defined.

(** Where the start of the window cannot be represented, the window is empty and nothing is
    ever refused. *)
Example young_clock :
  let ops := (λ t, (CheckAndRecord, bash, t)) <$> [1; 2; 3; 4; 5]%Z in
  admitted <$> (calls 0 ops (RL.new two_per_ten)).2 = [true; true; true; true; true].
Proof. by vm_compute. Qed.
