(* ===== verification/Temporal.v ===== *)
(** * The temporal monitor of agents (crates/roko-agent/src/safety/temporal.rs)

    Properties of the sequence of tool calls, checked as the calls come.  [None] is a panic:
    fewer states than properties. *)

From S2P Require Import Prelude Bytes EventLog Tool.

Module ToolCall.
Record t {J : Json} : Type := mk {
  id : string;
  name : string;
  arguments : json;
  request_ts_ms : Z;
}.
Arguments t {_}.
Arguments mk {_}.
End ToolCall.
Abbreviation ToolCall := ToolCall.t.
Module TL := ToolCall.

Module LtlProperty.
Inductive t : Type :=
  | Never (pattern description : string)
  | Always (predicate description : string)
  | Eventually (predicate : string) (deadline_turns : N) (description : string).
End LtlProperty.
Abbreviation LtlProperty := LtlProperty.t.
Module LP := LtlProperty.

Module MonitorState.
Inductive t : Type :=
  | Satisfied
  | Pending (since_turn : N)
  | Violated (turn : N) (detail : string).
End MonitorState.
Abbreviation MonitorState := MonitorState.t.
Module MS := MonitorState.

Module Violation.
Record t : Type := mk {
  property_index : nat;
  property : LtlProperty;
  turn : N;
  detail : string;
}.
End Violation.
Abbreviation Violation := Violation.t.

Section monitor.
Context {J : Json}.

Definition matches_pattern (call : ToolCall) (pattern : string) : bool :=
  string_eqb (TL.name call) pattern || str_contains pattern (TL.name call)
  || match json_get "command" (TL.arguments call) ≫= json_as_str with
     | Some command =>
         str_contains (str_to_ascii_lowercase pattern) (str_to_ascii_lowercase command)
     | None => false
     end.

Definition never_detail (pattern description : string) (call : ToolCall) : string :=
  if str_is_empty description then
    "Never property violated: pattern `" +:+ pattern +:+ "` matched tool call `"
      +:+ TL.name call +:+ "`"
  else "Never: " +:+ description +:+ " (pattern `" +:+ pattern +:+ "` matched `"
         +:+ TL.name call +:+ "`)".

Definition always_detail (predicate description : string) (call : ToolCall) : string :=
  if str_is_empty description then
    "Always property violated: predicate `" +:+ predicate +:+ "` not satisfied by `"
      +:+ TL.name call +:+ "`"
  else "Always: " +:+ description +:+ " (not satisfied by `" +:+ TL.name call +:+ "`)".

Definition eventually_detail (predicate : string) (deadline_turns : N) (description : string) :
    string :=
  if str_is_empty description then
    "Eventually property violated: predicate `" +:+ predicate +:+ "` not satisfied within "
      +:+ fmt_N deadline_turns +:+ " turns"
  else "Eventually: " +:+ description +:+ " (not satisfied within " +:+ fmt_N deadline_turns
         +:+ " turns)".

(** One property and its state: the new state, and what is reported. *)
Definition check_property (turn : N) (call : ToolCall) (p : LtlProperty) (s : MonitorState) :
    MonitorState * option string :=
  match s with
  | MS.Violated _ _ => (s, None)
  | _ =>
      match p with
      | LP.Never pattern description =>
          if matches_pattern call pattern then
            let detail := never_detail pattern description call in
            (MS.Violated turn detail, Some detail)
          else (s, None)
      | LP.Always predicate description =>
          if negb (matches_pattern call predicate) then
            let detail := always_detail predicate description call in
            (MS.Violated turn detail, Some detail)
          else (s, None)
      | LP.Eventually predicate deadline description =>
          if matches_pattern call predicate then (MS.Satisfied, None)
          else
            match s with
            | MS.Pending since =>
                if (deadline <=? turn - since)%N then
                  let detail := eventually_detail predicate deadline description in
                  (MS.Violated turn detail, Some detail)
                else (s, None)
            | _ => (s, None)
            end
      end
  end.

Fixpoint check_loop (turn : N) (call : ToolCall) (i : nat) (properties : list LtlProperty)
    (states : list MonitorState) : option (list MonitorState * list Violation) :=
  match properties, states with
  | [], _ => Some (states, [])
  | _ :: _, [] => None
  | p :: properties', s :: states' =>
      let '(s', report) := check_property turn call p s in
      match check_loop turn call (S i) properties' states' with
      | Some (rest, violations) =>
          Some (s' :: rest,
                match report with
                | Some detail => Violation.mk i p turn detail :: violations
                | None => violations
                end)
      | None => None
      end
  end.
End monitor.

(** The arithmetic of [u64] wraps. *)
Definition next_turn (turn : N) : N := (turn + 1) mod (u64_MAX + 1).

Module TemporalMonitor.
Record t : Type := mk {
  properties : list LtlProperty;
  states : list MonitorState;
  turn_count : N;
}.

Definition new : t := mk [] [] 0.

Definition first_state (turn : N) (p : LtlProperty) : MonitorState :=
  match p with
  | LP.Never _ _ | LP.Always _ _ => MS.Satisfied
  | LP.Eventually _ _ _ => MS.Pending turn
  end.

Definition with_properties (ps : list LtlProperty) : t := mk ps (first_state 0 <$> ps) 0.

Definition add_property (p : LtlProperty) (m : t) : t :=
  mk (properties m ++ [p]) (states m ++ [first_state (turn_count m) p]) (turn_count m).

Section check.
Context {J : Json}.

Definition check (call : ToolCall) (m : t) : option (t * list Violation) :=
  let turn := next_turn (turn_count m) in
  match check_loop turn call 0 (properties m) (states m) with
  | Some (states', violations) => Some (mk (properties m) states' turn, violations)
  | None => None
  end.

Definition check_as_tool_error (call : ToolCall) (m : t) : option (t * result unit ToolError) :=
  match check call m with
  | Some (m', []) => Some (m', Ok tt)
  | Some (m', violations) =>
      Some (m', Err (TE.PermissionDenied ("temporal property violation: "
        +:+ str_join "; " (Violation.detail <$> violations))))
  | None => None
  end.
End check.

Definition property_count (m : t) : nat := length (properties m).
Definition has_violations (m : t) : bool :=
  existsb (λ s, match s with MS.Violated _ _ => true | _ => false end) (states m).
End TemporalMonitor.
Abbreviation TemporalMonitor := TemporalMonitor.t.
Module TM := TemporalMonitor.

(** ** The meaning of a property

    A property speaks of the calls since it was registered, at turn [since]. *)

Section semantics.
Context {J : Json}.

(** The first call that satisfies [f], with its position. *)
Fixpoint first_match (f : ToolCall → bool) (trace : list ToolCall) : option (nat * ToolCall) :=
  match trace with
  | [] => None
  | c :: trace' =>
      if f c then Some (0%nat, c)
      else match first_match f trace' with Some (i, c') => Some (S i, c') | None => None end
  end.

(** The calls an [Eventually] waits for: at least one. *)
Definition patience (deadline : N) : nat := (1 `max` N.to_nat deadline)%nat.

Definition outcome (p : LtlProperty) (since : N) (trace : list ToolCall) : MonitorState :=
  match p with
  | LP.Never pattern description =>
      match first_match (λ c, matches_pattern c pattern) trace with
      | Some (i, c) => MS.Violated (since + N.of_nat (S i)) (never_detail pattern description c)
      | None => MS.Satisfied
      end
  | LP.Always predicate description =>
      match first_match (λ c, negb (matches_pattern c predicate)) trace with
      | Some (i, c) => MS.Violated (since + N.of_nat (S i)) (always_detail predicate description c)
      | None => MS.Satisfied
      end
  | LP.Eventually predicate deadline description =>
      let k := patience deadline in
      match first_match (λ c, matches_pattern c predicate) (take k trace) with
      | Some _ => MS.Satisfied
      | None =>
          if (k <=? length trace)%nat then
            MS.Violated (since + N.of_nat k) (eventually_detail predicate deadline description)
          else MS.Pending since
      end
  end.

(** The property holds of the calls so far. *)
Definition respected (p : LtlProperty) (trace : list ToolCall) : Prop :=
  match p with
  | LP.Never pattern _ => Forall (λ c, matches_pattern c pattern = false) trace
  | LP.Always predicate _ => Forall (λ c, matches_pattern c predicate = true) trace
  | LP.Eventually predicate deadline _ =>
      (length trace < patience deadline)%nat
      ∨ ∃ c, c ∈ take (patience deadline) trace ∧ matches_pattern c predicate = true
  end.

Definition is_violated (s : MonitorState) : bool :=
  match s with MS.Violated _ _ => true | _ => false end.

Lemma first_match_snoc f l c :
  first_match f (l ++ [c]) =
    match first_match f l with
    | Some r => Some r
    | None => if f c then Some (length l, c) else None
    end.
Proof.
  induction l as [|x l IH]; cbn; [by destruct (f c)|]. destruct (f x); [done|]. rewrite IH.
  destruct (first_match f l) as [[i y]|]; [done|]. by destruct (f c).
Qed.

Lemma first_match_None f l : first_match f l = None ↔ Forall (λ c, f c = false) l.
Proof.
  induction l as [|x l IH]; cbn; [done|]. rewrite Forall_cons, <- IH. destruct (f x).
  - split; [done|]. by intros [? _].
  - destruct (first_match f l) as [[i y]|]; naive_solver.
Qed.

Lemma outcome_respected p since trace :
  is_violated (outcome p since trace) = false ↔ respected p trace.
Proof.
  destruct p as [pattern d|predicate d|predicate deadline d]; cbn [outcome respected].
  - rewrite <- (first_match_None (λ c, matches_pattern c pattern)).
    destruct (first_match _ trace) as [[i c]|]; cbn; naive_solver.
  - assert (Forall (λ c, matches_pattern c predicate = true) trace ↔
      first_match (λ c, negb (matches_pattern c predicate)) trace = None) as ->.
    { rewrite first_match_None. by setoid_rewrite negb_false_iff. }
    destruct (first_match _ trace) as [[i c]|]; cbn; naive_solver.
  - set (k := patience deadline).
    assert ((∃ c, c ∈ take k trace ∧ matches_pattern c predicate = true) ↔
      first_match (λ c, matches_pattern c predicate) (take k trace) ≠ None) as ->.
    { rewrite first_match_None. split.
      - intros (c & Hc & Hm) Hf. rewrite Forall_forall in Hf. apply Hf in Hc. congruence.
      - intros Hn.
        destruct (Exists_dec (λ c, matches_pattern c predicate = true) (take k trace)) as [H|H].
        + by apply Exists_exists in H.
        + destruct Hn. apply Forall_forall. intros c Hc.
          destruct (matches_pattern c predicate) eqn:E; [|done]. destruct H.
          apply Exists_exists. by exists c. }
    destruct (first_match _ (take k trace)) as [r|]; [cbn; naive_solver|].
    destruct (Nat.leb_spec k (length trace)); cbn; split; try done; [intros [?|?];
      [lia|done]|by left].
Qed.

(** What a new state reports. *)
Definition reported (old new : MonitorState) : option string :=
  match old, new with
  | MS.Violated _ _, _ => None
  | _, MS.Violated _ detail => Some detail
  | _, _ => None
  end.

(** One call moves the state of a property along its meaning. *)
Lemma check_property_outcome p since trace c :
  check_property (since + N.of_nat (S (length trace))) c p (outcome p since trace) =
    (outcome p since (trace ++ [c]),
     reported (outcome p since trace) (outcome p since (trace ++ [c]))).
Proof.
  destruct p as [pattern d|predicate d|predicate deadline d]; cbn [outcome].
  - rewrite first_match_snoc. destruct (first_match _ trace) as [[i c']|]; [done|].
    cbn [check_property]. by destruct (matches_pattern c pattern).
  - rewrite first_match_snoc. destruct (first_match _ trace) as [[i c']|]; [done|].
    cbn [check_property]. by destruct (negb (matches_pattern c predicate)).
  - set (k := patience deadline). assert (1 ≤ k)%nat as Hk by (unfold k, patience; lia).
    assert (∀ n : nat, (deadline <=? since + N.of_nat (S n) - since)%N = (k <=? S n)%nat) as Hd.
    { intros n. unfold k, patience. apply eq_true_iff_eq. rewrite N.leb_le, Nat.leb_le. lia. }
    rewrite length_app. cbn [length]. destruct (Nat.leb_spec k (length trace)) as [Hle|Hlt].
    + rewrite take_app_le by done.
      destruct (first_match _ (take k trace)) as [r|]; cbn [check_property].
      * by destruct (matches_pattern c predicate).
      * by rewrite (proj2 (Nat.leb_le _ _)) by lia.
    + rewrite (take_ge trace) by lia. rewrite take_ge by (rewrite length_app; cbn; lia).
      rewrite first_match_snoc. destruct (first_match _ trace) as [r|]; cbn [check_property].
      * by destruct (matches_pattern c predicate).
      * destruct (matches_pattern c predicate); [done|]. rewrite Hd.
        replace (length trace + 1)%nat with (S (length trace)) by lia.
        destruct (Nat.leb_spec k (S (length trace))); [|done].
        by replace k with (S (length trace)) by lia.
Qed.

(** ** Histories *)

Inductive MonitorEvent : Type :=
  | Register (p : LtlProperty)
  | Called (c : ToolCall).

Definition monitor_step (m : TemporalMonitor) (e : MonitorEvent) : option TemporalMonitor :=
  match e with
  | Register p => Some (TM.add_property p m)
  | Called c => fst <$> TM.check c m
  end.

Definition run (es : list MonitorEvent) : option TemporalMonitor :=
  foldl (λ m e, m ≫= λ m, monitor_step m e) (Some TM.new) es.

(** The properties, the turns they were registered at, and the calls since. *)
Definition Tracked : Type := LtlProperty * N * list ToolCall.

Definition track (s : N * list Tracked) (e : MonitorEvent) : N * list Tracked :=
  match e with
  | Register p => (s.1, s.2 ++ [(p, s.1, [])])
  | Called c => ((s.1 + 1)%N, (λ x : Tracked, (x.1.1, x.1.2, x.2 ++ [c])) <$> s.2)
  end.
Definition tracked (es : list MonitorEvent) : N * list Tracked := foldl track (0%N, []) es.

Definition state_of (x : Tracked) : MonitorState := outcome x.1.1 x.1.2 x.2.

(** The monitor holds the meaning of what it tracks. *)
Definition follows (m : TemporalMonitor) (s : N * list Tracked) : Prop :=
  TM.turn_count m = s.1 ∧ TM.properties m = (λ x : Tracked, x.1.1) <$> s.2
  ∧ TM.states m = state_of <$> s.2
  ∧ Forall (λ x : Tracked, s.1 = (x.1.2 + N.of_nat (length x.2))%N) s.2.

(** What a call reports of what is tracked. *)
Definition reports (turn : N) (c : ToolCall) (i : nat) (xs : list Tracked) : list Violation :=
  concat (imap (λ j x,
    match reported (state_of x) (outcome x.1.1 x.1.2 (x.2 ++ [c])) with
    | Some detail => [Violation.mk (i + j) x.1.1 turn detail]
    | None => []
    end) xs).

Lemma reports_cons turn c i x xs :
  reports turn c i (x :: xs) =
    match reported (state_of x) (outcome x.1.1 x.1.2 (x.2 ++ [c])) with
    | Some detail => [Violation.mk (i + 0) x.1.1 turn detail]
    | None => []
    end ++ reports turn c (S i) xs.
Proof.
  unfold reports. cbn [imap concat]. f_equal. f_equal. apply imap_ext. intros j y _. cbn.
  by rewrite Nat.add_succ_r.
Qed.

Lemma check_loop_tracked turn c i xs :
  Forall (λ x : Tracked, turn = (x.1.2 + N.of_nat (S (length x.2)))%N) xs →
  check_loop turn c i ((λ x : Tracked, x.1.1) <$> xs) (state_of <$> xs) =
    Some (state_of <$> ((λ x : Tracked, (x.1.1, x.1.2, x.2 ++ [c])) <$> xs), reports turn c i xs).
Proof.
  intros Hx. revert i. induction Hx as [|[[p since] trace] xs Ht _ IH]; intros i; [done|].
  cbn [fst snd] in Ht. cbn [fmap list_fmap check_loop fst snd].
  change (state_of (p, since, trace)) with (outcome p since trace).
  rewrite Ht at 1. rewrite check_property_outcome. change (list_fmap _ _ ?f ?l) with (f <$> l).
  rewrite IH, reports_cons, Nat.add_0_r. cbn [fst snd]. fold (outcome p since trace).
  unfold state_of at 4. cbn [fst snd]. by destruct (reported _ _).
Qed.

Lemma check_follows m s c :
  follows m s → (s.1 < u64_MAX)%N →
  ∃ m', TM.check c m = Some (m', reports (s.1 + 1) c 0 s.2) ∧ follows m' (track s (Called c)).
Proof.
  intros (Ht & Hp & Hs & Hl) Hlt. unfold TM.check. rewrite Ht, Hp, Hs.
  assert (next_turn s.1 = (s.1 + 1)%N) as -> by (apply N.mod_small; lia).
  rewrite check_loop_tracked.
  - eexists. split; [done|]. split; [done|]. cbn [TM.properties TM.states track fst snd].
    split; [by rewrite <- list_fmap_compose|]. split; [done|]. apply Forall_fmap.
    eapply Forall_impl; [exact Hl|]. intros x Hx. unfold compose. cbn [fst snd].
    rewrite length_app. cbn [length]. cbv beta in Hx. unfold Tracked in *. lia.
  - eapply Forall_impl; [exact Hl|]. intros x Hx. cbv beta in *. unfold Tracked in *. lia.
Qed.

Lemma first_state_outcome turn p : TM.first_state turn p = outcome p turn [].
Proof.
  destruct p as [| |? deadline ?]; try done.
  cbn [TM.first_state outcome]. rewrite take_nil. cbn [first_match length].
  unfold patience. by destruct (Nat.leb_spec (1 `max` N.to_nat deadline) 0); [lia|].
Qed.

Lemma register_follows m s p : follows m s → follows (TM.add_property p m) (track s (Register p)).
Proof.
  intros (Ht & Hp & Hs & Hl). unfold follows, TM.add_property. cbn [track TM.turn_count
    TM.properties TM.states fst snd]. rewrite !fmap_app, Ht, Hp, Hs.
  split; [done|]. split; [done|]. split.
  - f_equal. cbn. f_equal. apply first_state_outcome.
  - apply Forall_app. split; [done|]. repeat constructor. cbn. lia.
Qed.

Lemma with_properties_follows ps :
  follows (TM.with_properties ps) (0%N, (λ p, (p, 0%N, [])) <$> ps).
Proof.
  unfold follows, TM.with_properties. cbn [TM.turn_count TM.properties TM.states fst snd].
  rewrite <- !list_fmap_compose. split_and!; [done| | |].
  - symmetry. apply list_fmap_id.
  - apply list_fmap_ext. intros i p _. apply first_state_outcome.
  - apply Forall_fmap, Forall_true. intros p. cbn. lia.
Qed.

Lemma tracked_turn es : ((tracked es).1 ≤ N.of_nat (length es))%N.
Proof.
  unfold tracked. induction es as [|e es IH] using rev_ind; [done|].
  rewrite foldl_app, length_app. cbn [foldl length]. destruct e; cbn [track fst]; lia.
Qed.

Lemma run_follows es :
  (N.of_nat (length es) ≤ u64_MAX)%N → ∃ m, run es = Some m ∧ follows m (tracked es).
Proof.
  induction es as [|e es IH] using rev_ind; intros Hl.
  { exists TM.new. split; [done|]. repeat split. constructor. }
  rewrite length_app in Hl. cbn [length] in Hl. destruct IH as (m & Hm & Hf); [lia|].
  unfold run, tracked in *. rewrite !foldl_app, Hm. cbn [foldl]. pose proof (tracked_turn es).
  unfold tracked in *. destruct e as [p|c]; cbn [monitor_step].
  - eexists. split; [done|]. by apply register_follows.
  - destruct (check_follows m _ c Hf) as (m' & Hc & Hf'); [lia|]. exists m'. split; [|done]. cbn.
    by rewrite Hc.
Qed.

(** The monitor never panics, and its state is the meaning of its properties: it has a violation
    exactly when some property does not hold of the calls since its registration. *)
Theorem monitor_spec es :
  (N.of_nat (length es) ≤ u64_MAX)%N →
  ∃ m, run es = Some m
    ∧ TM.states m = state_of <$> (tracked es).2
    ∧ (TM.has_violations m = true ↔ ∃ x, x ∈ (tracked es).2 ∧ ¬ respected x.1.1 x.2).
Proof.
  intros Hl. destruct (run_follows es Hl) as (m & Hm & Ht & Hp & Hs & _). exists m.
  split; [done|]. split; [done|]. unfold TM.has_violations. rewrite Hs, existsb_exists. split.
  - intros (s & (x & -> & Hx)%list_elem_of_In%list_elem_of_fmap & Hv). exists x. split; [done|].
    rewrite <- (outcome_respected x.1.1 x.1.2 x.2). fold (state_of x) in *. unfold is_violated.
    by rewrite Hv.
  - intros (x & Hx & Hr). exists (state_of x). split.
    + apply list_elem_of_In, list_elem_of_fmap. by exists x.
    + rewrite <- (outcome_respected x.1.1 x.1.2 x.2) in Hr. by apply not_false_iff_true in Hr.
Qed.

Lemma reports_nonempty turn c i xs :
  reports turn c i xs ≠ [] ↔
    ∃ x, x ∈ xs ∧ is_Some (reported (state_of x) (outcome x.1.1 x.1.2 (x.2 ++ [c]))).
Proof.
  revert i. induction xs as [|x xs IH]; intros i.
  { split; [done|]. intros (x & Hx & _). by apply elem_of_nil in Hx. }
  rewrite reports_cons. setoid_rewrite elem_of_cons. destruct (reported _ _) as [d|] eqn:E.
  - split; [|done]. intros _. exists x. split; [by left|]. rewrite E. by eexists.
  - cbn [app]. rewrite IH. split; [intros (y & Hy & H); exists y; auto|].
    intros (y & [->|Hy] & H); [rewrite E in H; by destruct H|by exists y].
Qed.

Lemma reported_respected old new :
  is_Some (reported old new) ↔ is_violated old = false ∧ ¬ is_violated new = false.
Proof. destruct old, new; cbn; split; intros H; try done; try (by destruct H); by eexists. Qed.

(** The call is the first to break some property. *)
Definition breaks (s : N * list Tracked) (c : ToolCall) : Prop :=
  ∃ x, x ∈ s.2 ∧ respected x.1.1 x.2 ∧ ¬ respected x.1.1 (x.2 ++ [c]).

Lemma check_refuses m s c :
  follows m s → (s.1 < u64_MAX)%N →
  ∃ m' r, TM.check_as_tool_error c m = Some (m', r) ∧ follows m' (track s (Called c))
    ∧ (is_ok r = false ↔ breaks s c).
Proof.
  intros Hf Hl. destruct (check_follows m s c Hf Hl) as (m' & Hc & Hf').
  exists m'. unfold TM.check_as_tool_error. rewrite Hc.
  assert (reports (s.1 + 1) c 0 s.2 ≠ [] ↔ breaks s c) as Hr.
  { rewrite reports_nonempty. split; intros (x & Hx & H); exists x; (split; [done|]).
    - apply reported_respected in H. unfold state_of in H. by rewrite !outcome_respected in H.
    - apply reported_respected. unfold state_of. by rewrite !outcome_respected. }
  destruct (reports _ c 0 _) as [|v vs]; eexists; (split; [done|]); (split; [done|]); cbn [is_ok].
  - rewrite <- Hr. split; [done|]. by intros [].
  - rewrite <- Hr. by split.
Qed.

(** A call is refused exactly when it is the first to break some property. *)
Theorem refused_spec es c :
  (N.of_nat (length es) < u64_MAX)%N →
  ∃ m m' r, run es = Some m ∧ TM.check_as_tool_error c m = Some (m', r)
    ∧ (is_ok r = false ↔
         ∃ x, x ∈ (tracked es).2 ∧ respected x.1.1 x.2 ∧ ¬ respected x.1.1 (x.2 ++ [c])).
Proof.
  intros Hl. destruct (run_follows es) as (m & Hm & Hf); [lia|].
  destruct (check_refuses m _ c Hf) as (m' & r & Hc & _ & Hr);
    [pose proof (tracked_turn es); lia|]. by exists m, m', r.
Qed.
End semantics.

(** ** At work *)

#[local] Existing Instance simple_Json.

Definition simple_call (command : string) : ToolCall :=
  TL.mk "call" "bash" (JObj [("command", JStr command)]) 0.

Definition no_deletion : LtlProperty := LP.Never "rm -rf" "".
Definition tests_soon : LtlProperty := LP.Eventually "cargo test" 2 "run the tests".

Lemma monitor_spec_witness :
  let es := [Register no_deletion; Called (simple_call "ls"); Called (simple_call "RM -rf /tmp")] in
  ∃ m, run es = Some m
    ∧ TM.states m = state_of <$> (tracked es).2
    ∧ (TM.has_violations m = true ↔ ∃ x, x ∈ (tracked es).2 ∧ ¬ respected x.1.1 x.2).
Proof. intros es. apply (monitor_spec es). by vm_compute. Defined.

Lemma refused_spec_witness :
  let es := [Register no_deletion; Called (simple_call "ls")] in
  ∃ m m' r, run es = Some m ∧ TM.check_as_tool_error (simple_call "rm -rf /") m = Some (m', r)
    ∧ (is_ok r = false ↔ ∃ x, x ∈ (tracked es).2 ∧ respected x.1.1 x.2
                              ∧ ¬ respected x.1.1 (x.2 ++ [simple_call "rm -rf /"])).
Proof. intros es. apply (refused_spec es). by vm_compute. Defined.

(** The calls of a session, and whether each one passes. *)
Fixpoint verdicts (m : TemporalMonitor) (cs : list ToolCall) : list bool :=
  match cs with
  | [] => []
  | c :: cs' =>
      match TM.check_as_tool_error c m with
      | Some (m', r) => is_ok r :: verdicts m' cs'
      | None => []
      end
  end.

(** A forbidden call is refused once: its property is violated from then on, and skipped. *)
Example never_only_once :
  verdicts (TM.with_properties [no_deletion]) (simple_call <$> ["ls"; "rm -rf /"; "rm -rf /"]) =
    [true; false; true].
Proof. reflexivity. Qed.

(** An [Eventually] that misses its deadline refuses an innocent call. *)
Example eventually_refuses :
  verdicts (TM.with_properties [tests_soon]) (simple_call <$> ["ls"; "pwd"; "ls"; "cargo test"]) =
    [true; false; true; true].
Proof. reflexivity. Qed.
