(* ===== verification/Network.v ===== *)
(** * The destinations of network tools (crates/roko-agent/src/safety/network.rs)

    Which addresses a network tool may be sent to.  The parser of URLs is a library; the parser
    of IP addresses is that of the standard library. *)

From S2P Require Import Prelude Text Tool.

(** ** Addresses *)

Module IpAddr.
Inductive t : Type :=
  | V4 (a b c d : N)
  | V6 (segments : list N).

#[global] Instance t_eq_dec : EqDecision t.
Proof. solve_decision. Defined.
End IpAddr.
Abbreviation IpAddr := IpAddr.t.

(** [char::to_digit] *)
Definition to_digit (radix b : N) : option N :=
  let v := if (48 <=? b)%N && (b <=? 57)%N then Some (b - 48)%N
           else if (97 <=? b)%N && (b <=? 122)%N then Some (b - 87)%N
           else if (65 <=? b)%N && (b <=? 90)%N then Some (b - 55)%N
           else None in
  v ≫= λ d, if (d <? radix)%N then Some d else None.

(** The digits of a number, at most [max] of them: their number, their value, and the rest. *)
Fixpoint read_digits (radix : N) (max count : nat) (acc : N) (l : list N) :
    option (nat * N * list N) :=
  match l with
  | [] => Some (count, acc, [])
  | b :: l' =>
      match to_digit radix b with
      | Some d =>
          if (max <? S count)%nat then None
          else read_digits radix max (S count) (acc * radix + d)%N l'
      | None => Some (count, acc, l)
      end
  end.

Definition read_number (radix : N) (max : nat) (zero_prefix : bool) (limit : N) (l : list N) :
    option (N * list N) :=
  match read_digits radix max 0 0 l with
  | Some (count, v, rest) =>
      if (count =? 0)%nat then None
      else if negb zero_prefix && bool_decide (head l = Some 48%N) && (1 <? count)%nat then None
      else if (v <=? limit)%N then Some (v, rest) else None
  | None => None
  end.

Definition read_separator {A} (sep : N) (i : nat) (inner : list N → option (A * list N))
    (l : list N) : option (A * list N) :=
  match i with
  | O => inner l
  | S _ => match l with b :: l' => if (b =? sep)%N then inner l' else None | [] => None end
  end.

Definition read_octet (i : nat) : list N → option (N * list N) :=
  read_separator 46 i (read_number 10 3 false 255).

Definition read_ipv4_addr (l : list N) : option ((N * N * N * N) * list N) :=
  match read_octet 0 l with
  | Some (a, l) =>
      match read_octet 1 l with
      | Some (b, l) =>
          match read_octet 2 l with
          | Some (c, l) =>
              match read_octet 3 l with Some (d, l) => Some ((a, b, c, d), l) | None => None end
          | None => None
          end
      | None => None
      end
  | None => None
  end.

(** Up to [k] groups from the [i]th on, and whether an IPv4 address ended them. *)
Fixpoint read_groups (k i : nat) (l : list N) : list N * bool * list N :=
  match k with
  | O => ([], false, l)
  | S k' =>
      match (if (1 <=? k')%nat then read_separator 58 i read_ipv4_addr l else None) with
      | Some ((a, b, c, d), l') => ([a * 256 + b; c * 256 + d]%N, true, l')
      | None =>
          match read_separator 58 i (read_number 16 4 true 65535) l with
          | Some (g, l') => let '(gs, v4, rest) := read_groups k' (S i) l' in (g :: gs, v4, rest)
          | None => ([], false, l)
          end
      end
  end.

Definition read_ipv6_addr (l : list N) : option (list N * list N) :=
  let '(front, front_ipv4, l1) := read_groups 8 0 l in
  if (length front =? 8)%nat then Some (front, l1)
  else if front_ipv4 then None
  else
    match l1 with
    | a :: b :: l2 =>
        if (a =? 58)%N && (b =? 58)%N then
          let '(back, _, l3) := read_groups (8 - S (length front)) 0 l2 in
          Some (front ++ replicate (8 - length front - length back) 0%N ++ back, l3)
        else None
    | _ => None
    end.

(** [s.parse::<IpAddr>()] *)
Definition parse_ip (s : string) : option IpAddr :=
  match read_ipv4_addr (codes s) with
  | Some ((a, b, c, d), []) => Some (IpAddr.V4 a b c d)
  | Some _ => None
  | None =>
      match read_ipv6_addr (codes s) with
      | Some (segments, []) => Some (IpAddr.V6 segments)
      | _ => None
      end
  end.

Definition is_private_ipv4 (a b c d : N) : bool :=
  (a =? 127)%N
  || ((a =? 10)%N || ((a =? 172)%N && (16 <=? b)%N && (b <=? 31)%N)
      || ((a =? 192)%N && (b =? 168)%N))
  || ((a =? 169)%N && (b =? 254)%N)
  || ((a =? 0)%N && (b =? 0)%N && (c =? 0)%N && (d =? 0)%N).

Definition is_private_ipv6 (segments : list N) : bool :=
  let seg0 := stdpp.option.default 0%N (head segments) in
  if bool_decide (segments = [0; 0; 0; 0; 0; 0; 0; 1]%N)
     || bool_decide (segments = replicate 8 0%N) then true
  else if (N.land seg0 65472 =? 65152)%N then true
  else if (N.land seg0 65024 =? 64512)%N then true
  else false.

Definition is_private_ip (ip : IpAddr) : bool :=
  match ip with
  | IpAddr.V4 a b c d => is_private_ipv4 a b c d
  | IpAddr.V6 segments => is_private_ipv6 segments
  end.

(** ** The policy *)

(** A parsed URL: its scheme, its host as text and its port, or the known port of its scheme. *)
Module Url.
Record t : Type := mk { scheme : string; host_str : option string; port : option N }.
End Url.
Abbreviation Url := Url.t.

Class UrlLib := { url_parse : string → option Url }.

Module NetworkPolicy.
Record t : Type := mk {
  allow_schemes : list string;
  allow_hosts : list string;
  deny_hosts : list string;
  block_private_networks : bool;
}.
Definition default : t := mk ["https"] [] [] true.
End NetworkPolicy.
Abbreviation NetworkPolicy := NetworkPolicy.t.
Module NP := NetworkPolicy.

Definition host_matches (host entry : string) : bool :=
  if str_is_empty entry then false
  else if str_starts_with "." entry then str_ends_with entry host
  else string_eqb host entry.

(** A host without the brackets of an IPv6 address. *)
Definition ip_candidate (host : string) : string :=
  stdpp.option.default host (str_strip_prefix "[" host ≫= str_strip_suffix "]").

Definition private_host (host : string) : bool :=
  match parse_ip (ip_candidate host) with Some ip => is_private_ip ip | None => false end.

Section check.
Context {UL : UrlLib}.

Definition check_host (host : string) (policy : NetworkPolicy) : result unit ToolError :=
  if NP.block_private_networks policy && private_host host then
    Err (TE.NetworkBlocked "private network address blocked")
  else
    match List.find (host_matches host) (NP.deny_hosts policy) with
    | Some entry =>
        Err (TE.NetworkBlocked ("host " +:+ host +:+ " matches deny rule " +:+ entry))
    | None =>
        if negb (bool_decide (NP.allow_hosts policy = []))
           && negb (existsb (host_matches host) (NP.allow_hosts policy)) then
          Err (TE.NetworkBlocked ("host " +:+ host +:+ " not in allowlist"))
        else Ok tt
    end.

Definition check_url_with_policy (url : string) (policy : NetworkPolicy) :
    result unit ToolError :=
  match url_parse url with
  | None => Err (TE.NetworkBlocked ("invalid url: " +:+ url))
  | Some parsed =>
      let scheme := Url.scheme parsed in
      if negb (bool_decide (NP.allow_schemes policy = []))
         && negb (existsb (λ s, string_eqb s scheme) (NP.allow_schemes policy)) then
        Err (TE.NetworkBlocked ("scheme " +:+ scheme +:+ " not allowed"))
      else
        match Url.host_str parsed with
        | None => Err (TE.NetworkBlocked "url has no host")
        | Some host => check_host host policy
        end
  end.

Definition check_url (url : string) : result unit ToolError :=
  check_url_with_policy url NP.default.
End check.

Example addresses :
  parse_ip "127.0.0.1" = Some (IpAddr.V4 127 0 0 1) ∧ parse_ip "127.0.0.01" = None
  ∧ parse_ip "::1" = Some (IpAddr.V6 [0; 0; 0; 0; 0; 0; 0; 1]%N)
  ∧ parse_ip "fe80::a:10.0.0.1" = Some (IpAddr.V6 [65152; 0; 0; 0; 0; 10; 2560; 1]%N)
  ∧ parse_ip "1:2:3:4:5:6:7::" = Some (IpAddr.V6 [1; 2; 3; 4; 5; 6; 7; 0]%N)
  ∧ parse_ip "1.2.3.4.5" = None ∧ parse_ip "256.0.0.1" = None ∧ parse_ip "localhost" = None.
Proof. by vm_compute. Qed.

Example private_hosts :
  (private_host <$> ["127.0.0.1"; "[::1]"; "10.1.2.3"; "172.31.0.1"; "192.168.1.1";
    "169.254.169.254"; "[fe80::1]"; "[fd00::1]"; "0.0.0.0"]) = replicate 9 true.
Proof. by vm_compute. Qed.

(** An IPv4 address written as IPv6 is not recognised as private; nor is a name, nor a denied
    name with the dot of its root. *)
Example private_hosts_missed :
  (private_host <$> ["[::ffff:7f00:1]"; "[::ffff:169.254.169.254]"; "localhost"; "0.0.0.1"]) =
    replicate 4 false
  ∧ host_matches "db.internal" ".internal" = true
  ∧ host_matches "db.internal." ".internal" = false ∧ host_matches "internal" ".internal" = false.
Proof. by vm_compute. Qed.

(** ** What passes *)

Lemma str_starts_with_spec p s : str_starts_with p s = true ↔ ∃ t, s = p +:+ t.
Proof.
  revert s. induction p as [|a p IH]; intros s; [split; [by exists s|done]|].
  destruct s as [|b s]; [split; [done|by intros [t Ht]]|]. cbn [str_starts_with].
  rewrite andb_true_iff, IH, Ascii.eqb_eq. split; [intros [-> [t ->]]; by exists t|].
  intros [t Ht]. injection Ht as -> ->. eauto.
Qed.

Lemma codes_inj s t : codes s = codes t → s = t.
Proof. intros H. by rewrite <- (of_codes_codes s), H, of_codes_codes. Qed.

Lemma codes_str_reverse s : codes (str_reverse s) = reverse (codes s).
Proof.
  unfold str_reverse. apply codes_of_codes. apply Forall_reverse, codes_bounded.
Qed.

Lemma str_ends_with_spec p s : str_ends_with p s = true ↔ ∃ t, s = t +:+ p.
Proof.
  unfold str_ends_with. rewrite str_starts_with_spec. split.
  - intros [t Ht]. exists (str_reverse t). apply codes_inj.
    rewrite codes_app, codes_str_reverse. apply (f_equal codes) in Ht.
    rewrite codes_app, !codes_str_reverse in Ht. apply (f_equal reverse) in Ht.
    by rewrite reverse_app, !reverse_involutive in Ht.
  - intros [t ->]. exists (str_reverse t). apply codes_inj.
    by rewrite codes_app, !codes_str_reverse, codes_app, reverse_app.
Qed.

(** [host] is the entry, or has it as its end when the entry starts with a dot. *)
Definition named_by (host entry : string) : Prop :=
  entry ≠ "" ∧ if str_starts_with "." entry then ∃ t, host = t +:+ entry else host = entry.

Lemma host_matches_spec host entry : host_matches host entry = true ↔ named_by host entry.
Proof.
  unfold host_matches, named_by. destruct entry as [|a e]; [naive_solver|].
  change (str_is_empty (String a e)) with false. cbv iota.
  destruct (str_starts_with "." (String a e)).
  - rewrite str_ends_with_spec. naive_solver.
  - unfold string_eqb. rewrite bool_decide_eq_true. naive_solver.
Qed.

Lemma check_host_ok host policy :
  is_ok (check_host host policy) = true ↔
    (NP.block_private_networks policy = true → private_host host = false)
    ∧ (∀ e, e ∈ NP.deny_hosts policy → ¬ named_by host e)
    ∧ (NP.allow_hosts policy = [] ∨ ∃ e, e ∈ NP.allow_hosts policy ∧ named_by host e).
Proof.
  unfold check_host.
  destruct (NP.block_private_networks policy), (private_host host); cbn [andb];
    try (split; [done|intros [H _]; by specialize (H eq_refl)]).
  all: destruct (List.find _ (NP.deny_hosts policy)) as [e|] eqn:E.
  all: try (apply find_some in E as [He%list_elem_of_In Hm%host_matches_spec];
    split; [done|intros (_ & H & _); by apply H in He]).
  all: assert (∀ e, e ∈ NP.deny_hosts policy → ¬ named_by host e) as Hd
    by (intros e He%list_elem_of_In Hn%host_matches_spec;
        by rewrite (find_none _ _ E e He) in Hn).
  all: destruct (bool_decide_reflect (NP.allow_hosts policy = [])); cbn [negb andb];
    [naive_solver|].
  all: destruct (existsb _ _) eqn:Ex; cbn [negb is_ok].
  all: try (apply existsb_exists in Ex as (e & He%list_elem_of_In & Hm%host_matches_spec);
    naive_solver).
  all: split; [done|]; intros (_ & _ & [?|(e & He & Hm)]); [done|].
  all: apply not_true_iff_false in Ex; destruct Ex; apply existsb_exists; exists e.
  all: by rewrite <- list_elem_of_In, host_matches_spec.
Qed.

(** ** Dotted addresses *)

Definition dotted (a b c d : N) : string :=
  fmt_N a +:+ "." +:+ fmt_N b +:+ "." +:+ fmt_N c +:+ "." +:+ fmt_N d.

Lemma read_digits_app radix max count acc l rest n v :
  read_digits radix max count acc l = Some (n, v, []) →
  match rest with b :: _ => to_digit radix b = None | [] => True end →
  read_digits radix max count acc (l ++ rest) = Some (n, v, rest).
Proof.
  revert count acc. induction l as [|b l IH]; intros count acc Hl Hr.
  - injection Hl as -> ->. destruct rest as [|b rest]; [done|]. cbn. by rewrite Hr.
  - cbn [read_digits app] in *. destruct (to_digit radix b); [|done].
    destruct (max <? S count)%nat; [done|]. by apply IH.
Qed.

Lemma octets :
  forallb (λ n, bool_decide (read_number 10 3 false 255 (codes (fmt_N n)) = Some (n, [])))
    (N.of_nat <$> seq 0 256) = true.
Proof. by vm_compute. Qed.

Lemma read_octet_fmt n rest :
  (n < 256)%N → match rest with b :: _ => to_digit 10 b = None | [] => True end →
  read_number 10 3 false 255 (codes (fmt_N n) ++ rest) = Some (n, rest).
Proof.
  intros Hn Hr. assert (read_number 10 3 false 255 (codes (fmt_N n)) = Some (n, [])) as H.
  { pose proof octets as H. rewrite forallb_forall in H. specialize (H n).
    rewrite bool_decide_eq_true in H. apply H. apply list_elem_of_In, list_elem_of_fmap.
    exists (N.to_nat n). split; [lia|]. apply elem_of_seq. lia. }
  unfold read_number in *.
  destruct (read_digits 10 3 0 0 (codes (fmt_N n))) as [[[count v] r]|] eqn:E; [|done].
  destruct (Nat.eqb_spec count 0) as [|Hc]; [done|].
  assert (r = []) as ->.
  { destruct (_ && _ && _); [done|]. destruct (_ <=? _)%N; [by simplify_eq|done]. }
  rewrite (read_digits_app _ _ _ _ _ rest _ _ E Hr).
  destruct (Nat.eqb_spec count 0); [done|].
  destruct (codes (fmt_N n)) as [|x l] eqn:El; [cbn in E; by simplify_eq|]. cbn [app head] in *.
  destruct (_ && _ && _); [done|]. destruct (_ <=? _)%N; [by simplify_eq|done].
Qed.

Lemma parse_dotted a b c d :
  (a < 256)%N → (b < 256)%N → (c < 256)%N → (d < 256)%N →
  parse_ip (dotted a b c d) = Some (IpAddr.V4 a b c d).
Proof.
  intros Ha Hb Hc Hd. unfold parse_ip, dotted. rewrite !codes_app.
  change (codes ".") with [46%N]. rewrite <- (app_nil_r (codes (fmt_N d))).
  unfold read_ipv4_addr, read_octet, read_separator. cbn [app].
  do 4 (rewrite read_octet_fmt by done; change (46 =? 46)%N with true; cbv beta iota). done.
Qed.

(** The address as a number, and a block of addresses by its base and the length of its prefix. *)
Definition value (a b c d : N) : N := (((a * 256 + b) * 256 + c) * 256 + d)%N.
Definition in_block (v : N) (block : N * N) : Prop :=
  (v / 2 ^ (32 - block.2) = block.1 / 2 ^ (32 - block.2))%N.

(** Loopback, private, link-local and unspecified addresses. *)
Definition blocks : list (N * N) :=
  [(value 127 0 0 0, 8); (value 10 0 0 0, 8); (value 172 16 0 0, 12); (value 192 168 0 0, 16);
   (value 169 254 0 0, 16); (0, 32)]%N.

Lemma is_private_ipv4_spec a b c d :
  (a < 256)%N → (b < 256)%N → (c < 256)%N → (d < 256)%N →
  is_private_ipv4 a b c d = true ↔ Exists (in_block (value a b c d)) blocks.
Proof.
  intros Ha Hb Hc Hd. unfold blocks, is_private_ipv4, in_block.
  rewrite !Exists_cons, Exists_nil. cbn [fst snd].
  rewrite !orb_true_iff, !andb_true_iff, !N.eqb_eq, !N.leb_le.
  change (2 ^ (32 - 8))%N with 16777216%N. change (2 ^ (32 - 12))%N with 1048576%N.
  change (2 ^ (32 - 16))%N with 65536%N. change (2 ^ (32 - 32))%N with 1%N.
  assert (value a b c d / 16777216 = a)%N as -> by (unfold value; lia).
  assert (value a b c d / 1048576 = a * 16 + b / 16)%N as -> by (unfold value; lia).
  assert (value a b c d / 65536 = a * 256 + b)%N as -> by (unfold value; lia).
  rewrite N.div_1_r. unfold value. lia.
Qed.

Lemma digits_open_no_bracket :
  forallb (λ n, match fmt_N n with String x _ => negb (Ascii.eqb "[" x) | "" => false end)
    (N.of_nat <$> seq 0 256) = true.
Proof. by vm_compute. Qed.

Lemma ip_candidate_dotted a b c d : (a < 256)%N → ip_candidate (dotted a b c d) = dotted a b c d.
Proof.
  intros Ha. unfold ip_candidate, dotted.
  assert (match fmt_N a with String x _ => negb (Ascii.eqb "[" x) | "" => false end = true) as H.
  { pose proof digits_open_no_bracket as H. rewrite forallb_forall in H. apply (H a).
    apply list_elem_of_In, list_elem_of_fmap. exists (N.to_nat a). split; [lia|].
    apply elem_of_seq. lia. }
  destruct (fmt_N a) as [|x s]; [done|]. apply negb_true_iff in H.
  change (String x s +:+ ?t) with (String x (s +:+ t)). cbn [str_strip_prefix]. by rewrite H.
Qed.

Lemma private_dotted a b c d :
  (a < 256)%N → (b < 256)%N → (c < 256)%N → (d < 256)%N →
  private_host (dotted a b c d) = true ↔ Exists (in_block (value a b c d)) blocks.
Proof.
  intros Ha Hb Hc Hd. unfold private_host. rewrite ip_candidate_dotted, parse_dotted by done.
  by apply is_private_ipv4_spec.
Qed.

Section passes.
Context {UL : UrlLib}.

Lemma check_url_ok url policy :
  is_ok (check_url_with_policy url policy) = true ↔
    ∃ u host, url_parse url = Some u ∧ Url.host_str u = Some host
      ∧ (NP.allow_schemes policy = [] ∨ Url.scheme u ∈ NP.allow_schemes policy)
      ∧ is_ok (check_host host policy) = true.
Proof.
  unfold check_url_with_policy. destruct (url_parse url) as [u|]; [|naive_solver].
  assert (negb (bool_decide (NP.allow_schemes policy = []))
    && negb (existsb (λ s, string_eqb s (Url.scheme u)) (NP.allow_schemes policy)) = false ↔
    NP.allow_schemes policy = [] ∨ Url.scheme u ∈ NP.allow_schemes policy) as Hs.
  { rewrite andb_false_iff, !negb_false_iff, bool_decide_eq_true, existsb_exists.
    unfold string_eqb. setoid_rewrite bool_decide_eq_true. setoid_rewrite <- list_elem_of_In.
    naive_solver. }
  destruct (negb _ && negb _); [naive_solver|]. pose proof (proj1 Hs eq_refl).
  destruct (Url.host_str u) as [host|] eqn:E; naive_solver.
Qed.

(** What the guard lets through: a URL that parses, with an allowed scheme and a host that is
    neither private nor denied, and allowed where a list says which are. *)
Theorem network_guard_spec url policy :
  is_ok (check_url_with_policy url policy) = true ↔
    ∃ u host, url_parse url = Some u ∧ Url.host_str u = Some host
      ∧ (NP.allow_schemes policy = [] ∨ Url.scheme u ∈ NP.allow_schemes policy)
      ∧ (NP.block_private_networks policy = true → private_host host = false)
      ∧ (∀ e, e ∈ NP.deny_hosts policy → ¬ named_by host e)
      ∧ (NP.allow_hosts policy = [] ∨ ∃ e, e ∈ NP.allow_hosts policy ∧ named_by host e).
Proof. rewrite check_url_ok. by setoid_rewrite check_host_ok. Qed.

(** By default a dotted address is reached over https only, and outside the blocks. *)
Theorem dotted_guard url scheme port a b c d :
  (a < 256)%N → (b < 256)%N → (c < 256)%N → (d < 256)%N →
  url_parse url = Some (Url.mk scheme (Some (dotted a b c d)) port) →
  is_ok (check_url url) = true ↔
    scheme = "https" ∧ ¬ Exists (in_block (value a b c d)) blocks.
Proof.
  intros Ha Hb Hc Hd Hu. unfold check_url. rewrite check_url_ok, Hu.
  rewrite <- private_dotted by done.
  setoid_rewrite check_host_ok. cbn [NP.default NP.block_private_networks NP.allow_schemes
    NP.deny_hosts NP.allow_hosts]. rewrite not_true_iff_false. split.
  - intros (u & host & [= <-] & [= <-] & [?|Hs%list_elem_of_singleton] & Hh & _); [done|].
    cbn in Hs. split; [done|by apply Hh].
  - intros [-> Hp]. do 2 eexists. split_and!; [done|done|right; cbn; set_solver|done| |by left].
    by intros e He%elem_of_nil.
Qed.
End passes.

(** A parser of URLs that knows one. *)
Definition metadata_url : UrlLib :=
  {| url_parse url := if string_eqb url "https://169.254.169.254/latest"
                      then Some (Url.mk "https" (Some "169.254.169.254") (Some 443%N)) else None |}.

Lemma dotted_guard_witness :
  is_ok (check_url (UL := metadata_url) "https://169.254.169.254/latest") = false.
Proof.
  apply not_true_iff_false. intros H.
  apply (dotted_guard (UL := metadata_url) _ "https" (Some 443%N) 169 254 169 254) in H;
    [|lia..|by vm_compute].
  destruct H as [_ H]. apply H. unfold blocks. do 4 apply Exists_cons_tl. apply Exists_cons_hd.
  reflexivity.
Defined.
