(* ===== verification/PathGuard.v ===== *)
(** * The worktree guard of agents (crates/roko-agent/src/safety/path.rs)

    Where a path argument leads, and whether that is inside the worktree.  A path is its Unix
    text; what exists and where symbolic links lead is a file system. *)

From S2P Require Import Prelude Permit Sandbox Tool.

(** [Path::canonicalize], when it succeeds, and whether [symlink_metadata] finds a link. *)
Class FileSystem := {
  fs_canonicalize : string → option string;
  fs_is_symlink : string → bool;
}.

(** [Path::parent]: nothing above the root and the empty path. *)
Definition path_parent (p : string) : option string :=
  match last (UnixPath.components p) with
  | None => None
  | Some x =>
      if decide (x = "/") then None
      else Some (PathBuf.render (removelast (UnixPath.components p)))
  end.

(** [Path::strip_prefix] *)
Definition path_strip_prefix (p base : string) : option string :=
  if PathBuf.starts_with p base then
    Some (PathBuf.render (drop (length (UnixPath.components base)) (UnixPath.components p)))
  else None.

Module CanonicalPath.
Record t : Type := mk { absolute : string; relative : string }.
End CanonicalPath.
Abbreviation CanonicalPath := CanonicalPath.t.

Module PathPolicy.
Record t : Type := mk { deny_symlinks : bool; prevent_escapes : bool }.
Definition default : t := mk false true.
End PathPolicy.
Abbreviation PathPolicy := PathPolicy.t.
Module PP := PathPolicy.

(** A round of [normalize]: [..] stays where there is nothing to pop. *)
Definition lexical_step (out comp : string) : string :=
  if decide (comp = "..") then
    match path_parent out with Some parent => parent | None => PathBuf.push out ".." end
  else if decide (comp = ".") then out
  else PathBuf.push out comp.

Definition lexical (path : string) : string :=
  foldl lexical_step "" (UnixPath.components path).

Section filesystem.
Context {FS : FileSystem}.

(** From [cursor] up to an ancestor that exists; [tail] is what was left behind. *)
Fixpoint existing_ancestor (fuel : nat) (cursor : string) (tail : list string) : option string :=
  match fs_canonicalize cursor with
  | Some p => Some (lexical (foldl PathBuf.push p tail))
  | None =>
      match fuel with
      | O => None
      | S fuel' =>
          match path_parent cursor, PathBuf.file_name cursor with
          | Some parent, Some name => existing_ancestor fuel' parent (name :: tail)
          | _, _ => None
          end
      end
  end.

Definition canonicalize_existing_or_parent (path : string) : string :=
  match fs_canonicalize path with
  | Some p => p
  | None =>
      match existing_ancestor (length (UnixPath.components path)) path [] with
      | Some p => p
      | None => lexical path
      end
  end.

(** The prefix walked so far, and the first link on it. *)
Fixpoint symlink_on (current : string) (comps : list string) : option string :=
  match comps with
  | [] => None
  | comp :: comps' =>
      if decide (comp = "..") then symlink_on (stdpp.option.default current (path_parent
        current)) comps'
      else if decide (comp = ".") then symlink_on current comps'
      else
        let next := PathBuf.push current comp in
        if negb (string_eqb comp "/") && fs_is_symlink next then Some next
        else symlink_on next comps'
  end.

Definition check_no_symlink_components (path : string) : result unit ToolError :=
  match symlink_on "" (UnixPath.components path) with
  | Some current => Err (TE.Other ("symlink component not allowed: " +:+ current))
  | None => Ok tt
  end.

Definition joined_path (worktree arg_path : string) : string :=
  if UnixPath.is_absolute arg_path then arg_path else PathBuf.push worktree arg_path.

Definition canonical_worktree (worktree : string) : string :=
  stdpp.option.default worktree (fs_canonicalize worktree).

Definition relative_form (canonical_joined root : string) : string :=
  stdpp.option.default canonical_joined (path_strip_prefix canonical_joined root).

Definition canonicalize_with_policy (worktree arg_path : string) (policy : PathPolicy) :
    result CanonicalPath ToolError :=
  let root := canonical_worktree worktree in
  let canonical_joined := canonicalize_existing_or_parent (joined_path worktree arg_path) in
  if PP.prevent_escapes policy && negb (PathBuf.starts_with canonical_joined root) then
    Err (TE.PathOutsideWorktree canonical_joined)
  else
    match (if PP.deny_symlinks policy then check_no_symlink_components canonical_joined
           else Ok tt) with
    | Err e => Err e
    | Ok _ =>
        Ok (CanonicalPath.mk canonical_joined (relative_form canonical_joined root))
    end.

Definition canonicalize_under (worktree arg_path : string) : result string ToolError :=
  match canonicalize_with_policy worktree arg_path PP.default with
  | Ok canonical => Ok (CanonicalPath.absolute canonical)
  | Err e => Err e
  end.

Definition is_within_worktree (worktree candidate : string) : bool :=
  let canonical_candidate :=
    match fs_canonicalize candidate with
    | Some p => p
    | None => canonicalize_existing_or_parent candidate
    end in
  PathBuf.starts_with canonical_candidate (canonical_worktree worktree).
End filesystem.

(** ** Examples

    A worktree with a link to another directory and a link to a file that does not exist. *)

Definition sample_fs : FileSystem := {|
  fs_canonicalize p :=
    if existsb (string_eqb p) ["/"; "/work"; "/work/a"; "/etc"; "/etc/passwd"] then Some p
    else if string_eqb p "/work/out" then Some "/etc"
    else if string_eqb p "/work/out/passwd" then Some "/etc/passwd" else None;
  fs_is_symlink p := string_eqb p "/work/out" || string_eqb p "/work/dangling";
|}.
#[local] Existing Instance sample_fs.

Example guarded_paths :
  canonicalize_under "/work" "a" = Ok "/work/a" ∧ canonicalize_under "/work" "new/x" = Ok
    "/work/new/x"
  ∧ canonicalize_under "/work" "out/passwd" = Err (TE.PathOutsideWorktree "/etc/passwd")
  ∧ canonicalize_under "/work" "out/new" = Err (TE.PathOutsideWorktree "/etc/new")
  ∧ canonicalize_under "/work" "/etc/x" = Err (TE.PathOutsideWorktree "/etc/x")
  ∧ canonicalize_under "/work" "b/../../etc" = Err (TE.PathOutsideWorktree "/etc").
Proof. by vm_compute. Qed.

(** Behind a directory that does not exist, [..] is resolved by text only, and links before it
    are not followed: the path the guard returns leads out.  So does a link whose target does
    not exist yet. *)
Example escapes :
  canonicalize_under "/work" "out/missing/../passwd" = Ok "/work/out/passwd"
  ∧ fs_canonicalize "/work/out/passwd" = Some "/etc/passwd"
  ∧ canonicalize_under "/work" "dangling" = Ok "/work/dangling" ∧ fs_is_symlink "/work/dangling"
    = true
  ∧ canonicalize_with_policy "/work" "out/missing/../passwd" (PP.mk true true)
      = Err (TE.Other "symlink component not allowed: /work/out").
Proof. by vm_compute. Qed.

(** Above the root, and above the start of a relative path, [..] is kept once and dropped twice. *)
Example lexical_parents :
  lexical "/../x" = "/../x" ∧ lexical "/../../x" = "/x" ∧ lexical "../../x" = "x".
Proof. by vm_compute. Qed.

(** Where links are denied, one that leads to a place in the worktree is not noticed: the walk is
    over the path after links were followed. *)
Definition linked_fs : FileSystem := {|
  fs_canonicalize p :=
    if existsb (string_eqb p) ["/"; "/work"; "/work/real"; "/work/real/x"] then Some p
    else if string_eqb p "/work/link" then Some "/work/real"
    else if string_eqb p "/work/link/x" then Some "/work/real/x" else None;
  fs_is_symlink p := string_eqb p "/work/link";
|}.

Example inner_link_passes :
  canonicalize_with_policy (FS := linked_fs) "/work" "link/x" (PP.mk true true)
    = Ok (CanonicalPath.mk "/work/real/x" "real/x").
Proof. by vm_compute. Qed.

(** ** Where a path leads *)

(** What [canonicalize] promises: absolute paths without [.] and [..]; and the root exists. *)
Class FileSystemLaws (FS : FileSystem) : Prop := {
  canonicalize_absolute p q :
    fs_canonicalize p = Some q → ∃ names, q = absolute names ∧ Forall is_name names;
  canonicalize_root : fs_canonicalize "/" = Some "/";
}.

Lemma is_name_part x : is_name x → is_part x.
Proof. by intros [? _]. Qed.
Lemma is_name_parts names : Forall is_name names → Forall is_part names.
Proof. intros H. eapply Forall_impl; [exact H|]. apply is_name_part. Qed.

Lemma push_names base names :
  Forall is_name base → Forall is_name names →
  foldl PathBuf.push (absolute base) names = absolute (base ++ names).
Proof.
  intros Hb Hn. revert base Hb. induction Hn as [|x names Hx Hn IH]; intros base Hb; cbn [foldl].
  { by rewrite app_nil_r. }
  rewrite push_absolute by (by apply is_name_parts || by apply is_name_part).
  rewrite IH; [by rewrite <- app_assoc|]. apply Forall_app. split; [done|by constructor].
Qed.

Lemma lexical_absolute names : Forall is_name names → lexical (absolute names) = absolute names.
Proof.
  intros Hn. unfold lexical. rewrite components_absolute by by apply is_name_parts.
  cbn [foldl]. change (lexical_step "" "/") with (absolute []).
  assert (∀ base, Forall is_name base → foldl lexical_step (absolute base) names =
    absolute (base ++ names)) as H; [|by apply (H [])].
  induction Hn as [|x names Hx Hn IH]; intros base Hb; cbn [foldl]; [by rewrite app_nil_r|].
  unfold lexical_step at 2. destruct Hx as [Hp Hd]. rewrite decide_False by done.
  rewrite decide_False by (intros ->; by destruct Hp).
  rewrite push_absolute by (done || by apply is_name_parts).
  rewrite IH; [by rewrite <- app_assoc|]. apply Forall_app.
  split; [done|by apply Forall_singleton].
Qed.

Lemma components_snoc names n :
  Forall is_name names → is_name n →
  UnixPath.components (absolute (names ++ [n])) = ("/"%string :: names) ++ [n].
Proof.
  intros Hn Hx. rewrite components_absolute; [done|]. apply is_name_parts, Forall_app.
  split; [done|by constructor].
Qed.

Lemma name_no_root n : is_name n → n ∉ ["/"; "."; ".."]%string.
Proof.
  intros [[Hk Hs] Hd]. rewrite !not_elem_of_cons. split_and!; [by intros ->|by intros ->|done|].
  apply not_elem_of_nil.
Qed.

Lemma parent_snoc names n :
  Forall is_name names → is_name n → path_parent (absolute (names ++ [n])) = Some (absolute names).
Proof.
  intros Hn Hx. unfold path_parent. rewrite components_snoc, last_snoc, removelast_last by done.
  rewrite decide_False; [done|]. intros ->. by apply name_no_root in Hx; apply Hx; left.
Qed.

Lemma file_name_snoc names n :
  Forall is_name names → is_name n → PathBuf.file_name (absolute (names ++ [n])) = Some n.
Proof.
  intros Hn Hx. unfold PathBuf.file_name. rewrite components_snoc, last_snoc by done.
  by rewrite decide_False by by apply name_no_root.
Qed.

Lemma join_app ws names :
  ws ≠ [] → names ≠ [] →
  str_join "/" (ws ++ names) = str_join "/" ws +:+ "/" +:+ str_join "/" names.
Proof.
  intros Hw Hn. induction ws as [|x ws IH]; [done|]. destruct ws as [|y ws].
  - destruct names as [|n names]; done.
  - change (str_join "/" ((x :: y :: ws) ++ names))
      with (x +:+ "/" +:+ str_join "/" ((y :: ws) ++ names)).
    rewrite IH by done.
    change (str_join "/" (x :: y :: ws)) with (x +:+ "/" +:+ str_join "/" (y :: ws)).
    by rewrite !str_app_assoc.
Qed.

Section locations.
Context {FS : FileSystem} {FL : FileSystemLaws FS}.

(** [base] is where the deepest existing ancestor of the path [names] really is, and [missing]
    what the path has below that ancestor. *)
Definition located (names base missing : list string) : Prop :=
  ∃ k, (k ≤ length names)%nat ∧ missing = drop k names
    ∧ fs_canonicalize (absolute (take k names)) = Some (absolute base) ∧ Forall is_name base
    ∧ ∀ j, (k < j ≤ length names)%nat → fs_canonicalize (absolute (take j names)) = None.

Lemma existing_ancestor_located fuel names tail :
  Forall is_name names → Forall is_name tail → (length names ≤ fuel)%nat →
  ∃ base missing, located names base missing
    ∧ existing_ancestor fuel (absolute names) tail = Some (absolute (base ++ missing ++ tail)).
Proof.
  revert fuel tail. induction names as [|n names IH] using rev_ind; intros fuel tail Hn Ht Hf.
  { exists [], []. split.
    - exists 0%nat. split_and!; [done|done|apply canonicalize_root|constructor|]. cbn. lia.
    - destruct fuel; cbn [existing_ancestor]; change (absolute []) with "/"%string.
      all: rewrite canonicalize_root; change "/"%string with (absolute []).
      all: rewrite push_names by (done || constructor); by rewrite lexical_absolute. }
  apply Forall_app in Hn as [Hn [Hx _]%Forall_cons]. rewrite length_app in Hf. cbn in Hf.
  destruct fuel as [|fuel]; [lia|]. cbn [existing_ancestor].
  destruct (fs_canonicalize (absolute (names ++ [n]))) as [q|] eqn:E.
  - destruct (canonicalize_absolute _ _ E) as (base & -> & Hb). exists base, [].
    split; [|by rewrite push_names, lexical_absolute by (done || by apply Forall_app)].
    exists (length (names ++ [n])). rewrite drop_all, take_ge by done.
    split_and!; [done|done|done|done|lia].
  - rewrite parent_snoc, file_name_snoc by done.
    destruct (IH fuel (n :: tail) Hn) as (base & missing & (k & Hk & -> & Hc & Hb & Hj) & ->);
      [by constructor|lia|].
    exists base, (drop k names ++ [n]). split; [|by rewrite <- app_assoc].
    exists k. rewrite length_app. cbn [length]. rewrite drop_app_le, take_app_le by done.
    split_and!; [lia|done|done|done|]. intros j Hjk.
    destruct (decide (j = S (length names))) as [->|Hne].
    + by rewrite take_ge by (rewrite length_app; cbn; lia).
    + rewrite take_app_le by lia. apply Hj. lia.
Qed.

Lemma canonicalize_located names :
  Forall is_name names →
  ∃ base missing, located names base missing
    ∧ canonicalize_existing_or_parent (absolute names) = absolute (base ++ missing).
Proof.
  intros Hn. unfold canonicalize_existing_or_parent.
  destruct (fs_canonicalize (absolute names)) as [q|] eqn:E.
  - destruct (canonicalize_absolute _ _ E) as (base & -> & Hb). exists base, [].
    rewrite app_nil_r. split; [|done]. exists (length names). rewrite drop_all, take_ge by done.
    split_and!; [done|done|done|done|lia].
  - destruct (existing_ancestor_located (length (UnixPath.components (absolute names))) names [])
      as (base & missing & Hl & ->); [done|constructor| |].
    + rewrite components_absolute by by apply is_name_parts. cbn. lia.
    + exists base, missing. by rewrite app_nil_r.
Qed.

Lemma located_names names base missing :
  Forall is_name names → located names base missing → Forall is_name (base ++ missing).
Proof.
  intros Hn (k & _ & -> & _ & Hb & _). apply Forall_app. split; [done|by apply Forall_drop].
Qed.

Lemma join_absolute ws names :
  Forall is_name ws → Forall is_name names → names ≠ [] →
  joined_path (absolute ws) (str_join "/" names) = absolute (ws ++ names).
Proof.
  intros Hw Hn Hne. unfold joined_path.
  destruct names as [|n names]; [done|]. clear Hne.
  assert (UnixPath.is_absolute (str_join "/" (n :: names)) = false) as Ha.
  { apply Forall_cons in Hn as [[[Hk Hs] _] _]. destruct n as [|a n]; [done|].
    cbn [str_has] in Hs. apply orb_false_iff in Hs as [Hs _]. unfold UnixPath.is_absolute.
    assert (∃ t, str_join "/" (String a n :: names) = String a t) as [t ->]
      by (destruct names; by eexists).
    change (Ascii.eqb "/" a && true = false). by rewrite Ascii.eqb_sym, Hs. }
  rewrite Ha. unfold PathBuf.push. rewrite Ha. destruct (decide (ws = [])) as [->|Hw0]; [done|].
  destruct (join_end ws (is_name_parts _ Hw) Hw0) as [He Hj].
  assert (PathBuf.ends_with_slash (absolute ws) = false) as ->.
  { unfold PathBuf.ends_with_slash, absolute, PathBuf.render. by rewrite last_ascii_app. }
  change (str_is_empty (absolute ws)) with false. cbn [orb].
  unfold absolute, PathBuf.render. by rewrite join_app, str_app_assoc.
Qed.
End locations.

Lemma starts_with_absolute p base :
  Forall is_name p → Forall is_name base →
  PathBuf.starts_with (absolute p) (absolute base) = bool_decide (base `prefix_of` p).
Proof.
  intros Hp Hb. unfold PathBuf.starts_with.
  rewrite !components_absolute by by apply is_name_parts. apply bool_decide_ext.
  split; [apply prefix_cons_inv_2|apply prefix_cons].
Qed.

Lemma strip_prefix_absolute p base :
  Forall is_name p → Forall is_name base → base `prefix_of` p →
  path_strip_prefix (absolute p) (absolute base) = Some (str_join "/" (drop (length base) p)).
Proof.
  intros Hp Hb H. unfold path_strip_prefix. rewrite starts_with_absolute by done.
  rewrite bool_decide_true by done. rewrite !components_absolute by by apply is_name_parts.
  cbn [length drop]. f_equal. destruct H as [rest ->]. rewrite drop_app_length.
  apply Forall_app in Hp as [_ Hr]. destruct rest as [|x rest]; [done|].
  apply Forall_cons in Hr as [Hx _]. apply name_no_root in Hx.
  unfold PathBuf.render. destruct x as [|[[] [] [] [] [] [] [] []] x]; try done.
  destruct x; [|done]. exfalso. apply Hx. by left.
Qed.

Section symlinks.
Context {FS : FileSystem}.

(** No link on the way from [pre] to [pre ++ names]. *)
Definition link_free (pre names : list string) : Prop :=
  ∀ k, (0 < k ≤ length names)%nat → fs_is_symlink (absolute (pre ++ take k names)) = false.

Lemma symlink_on_names pre names :
  Forall is_name pre → Forall is_name names →
  symlink_on (absolute pre) names = None ↔ link_free pre names.
Proof.
  intros Hp Hn. revert pre Hp. induction Hn as [|x names Hx Hn IH]; intros pre Hp.
  { split; [|done]. intros _ k Hk. cbn in Hk. lia. }
  pose proof (name_no_root x Hx) as Hd. rewrite !not_elem_of_cons in Hd.
  destruct Hd as (Hroot & Hdot & Hdots & _). cbn [symlink_on].
  rewrite !decide_False by done.
  rewrite push_absolute by (by apply is_name_parts || by apply is_name_part).
  unfold string_eqb. rewrite bool_decide_false by done. cbn [negb andb].
  assert (link_free pre (x :: names) ↔
    fs_is_symlink (absolute (pre ++ [x])) = false ∧ link_free (pre ++ [x]) names) as ->.
  { unfold link_free. split.
    - intros H. split; [apply (H 1%nat); cbn; lia|]. intros k Hk. rewrite <- app_assoc.
      apply (H (S k)). cbn. lia.
    - intros [H1 H] k Hk. destruct k as [|[|k]]; [lia|done|]. cbn [take].
      rewrite cons_middle, app_assoc. apply (H (S k)). cbn in Hk. lia. }
  destruct (fs_is_symlink _); [naive_solver|].
  rewrite IH by (apply Forall_app; split; [done|by apply Forall_singleton]). naive_solver.
Qed.

Lemma check_no_symlink_absolute names :
  Forall is_name names → is_ok (check_no_symlink_components (absolute names)) = true ↔
    link_free [] names.
Proof.
  intros Hn. rewrite <- symlink_on_names by (done || constructor).
  unfold check_no_symlink_components. rewrite components_absolute by by apply is_name_parts.
  change (symlink_on "" ("/" :: names)) with (symlink_on (absolute []) names).
  destruct (symlink_on _ names); naive_solver.
Qed.
End symlinks.

Section guard.
Context {FS : FileSystem} {FL : FileSystemLaws FS}.

(** A path of names, from the root or from the worktree: no empty components, no [.], no [..]. *)
Definition plain_path (ws : list string) (arg : string) (names : list string) : Prop :=
  (arg = absolute names ∧ Forall is_name names)
  ∨ ∃ rel, rel ≠ [] ∧ Forall is_name rel ∧ arg = str_join "/" rel ∧ names = ws ++ rel.

Lemma plain_joined ws arg names :
  Forall is_name ws → plain_path ws arg names →
  joined_path (absolute ws) arg = absolute names ∧ Forall is_name names.
Proof.
  intros Hw [[-> Hn]|(rel & Hne & Hr & -> & ->)].
  - by split.
  - split; [by apply join_absolute|by apply Forall_app].
Qed.

(** C23: In a worktree that exists, a plain path, relative or absolute, is let through exactly when
    what exists of it really is in the worktree, links followed, with what does not exist below
    it; the forms returned are those of that place.  Where links are denied, that place has none
    on the way to it; links of the path as it is written are not looked at. *)
Theorem worktree_guard_spec ws root arg names policy :
  Forall is_name ws → plain_path ws arg names →
  Forall is_name root → fs_canonicalize (absolute ws) = Some (absolute root) →
  PP.prevent_escapes policy = true →
  ∃ base missing, located names base missing
    ∧ ∀ c, canonicalize_with_policy (absolute ws) arg policy = Ok c ↔
        ∃ rest, base ++ missing = root ++ rest
          ∧ (PP.deny_symlinks policy = true → link_free [] (base ++ missing))
          ∧ c = CanonicalPath.mk (absolute (base ++ missing)) (str_join "/" rest).
Proof.
  intros Hw Hplain Hr Hroot Hpe. destruct (plain_joined _ _ _ Hw Hplain) as [Hj Hwn].
  destruct (canonicalize_located names Hwn) as (base & missing & Hl & Hc).
  exists base, missing. split; [done|]. intros c.
  pose proof (located_names _ _ _ Hwn Hl) as Hbm. unfold canonicalize_with_policy.
  rewrite Hj, Hc, Hpe. unfold canonical_worktree. rewrite Hroot.
  cbn [from_option].
  unfold id. rewrite starts_with_absolute by done. cbn [andb].
  destruct (bool_decide_reflect (root `prefix_of` base ++ missing)) as [Hp|Hp]; cbn [negb].
  - unfold relative_form. rewrite strip_prefix_absolute by done. cbn [from_option]. unfold id.
    pose proof (check_no_symlink_absolute (base ++ missing) Hbm) as Hs.
    destruct Hp as [rest Hp]. assert (drop (length root) (base ++ missing) = rest) as ->
      by by rewrite Hp, drop_app_length.
    destruct (PP.deny_symlinks policy).
    + destruct (check_no_symlink_components _) as [[]|e]; cbn [is_ok] in Hs.
      * split; [intros [= <-]; exists rest; naive_solver|].
        intros (rest' & Hp' & _ & ->). rewrite Hp in Hp'. by apply app_inv_head in Hp' as ->.
      * split; [done|]. intros (rest' & _ & Hf & _). by apply Hs in Hf.
    + split; [intros [= <-]; by exists rest|].
      intros (rest' & Hp' & _ & ->). rewrite Hp in Hp'. by apply app_inv_head in Hp' as ->.
  - split; [done|]. intros (rest & Hp' & _). destruct Hp. by exists rest.
Qed.

(** However a path is written, one that is let through is under the real worktree by its text. *)
Lemma admitted_under_root worktree arg policy c :
  PP.prevent_escapes policy = true →
  canonicalize_with_policy worktree arg policy = Ok c →
  PathBuf.starts_with (CanonicalPath.absolute c) (canonical_worktree worktree) = true.
Proof.
  intros Hp. unfold canonicalize_with_policy. rewrite Hp. cbn [andb].
  destruct (PathBuf.starts_with _ _) eqn:E; cbn [negb]; [|done].
  destruct (if PP.deny_symlinks policy then _ else _) as [[]|]; [|done]. by intros [= <-].
Qed.
End guard.

#[export] Instance sample_fs_laws : FileSystemLaws sample_fs.
Proof.
  assert (∀ q, q ∈ ["/"; "/work"; "/work/a"; "/etc"; "/etc/passwd"]%string →
    ∃ names, q = absolute names ∧ Forall is_name names) as H.
  { intros q Hq. exists (tail (UnixPath.components q)).
    repeat (apply elem_of_cons in Hq as [->|Hq];
      [split; [done|]; repeat constructor; discriminate|]). by apply elem_of_nil in Hq. }
  split; [|done]. intros p q. unfold fs_canonicalize, sample_fs.
  destruct (existsb _ _) eqn:E.
  - intros [= <-]. apply H. apply existsb_exists in E as (x & Hx & E).
    apply bool_decide_eq_true in E as ->. by apply list_elem_of_In.
  - destruct (string_eqb p "/work/out"); [intros [= <-]; apply H; set_solver|].
    destruct (string_eqb p "/work/out/passwd"); [intros [= <-]; apply H; set_solver|done].
Qed.

(** Through a link out of the worktree nothing passes. *)
Lemma worktree_guard_spec_witness :
  ¬ ∃ c, canonicalize_with_policy "/work" "out/new" PP.default = Ok c.
Proof.
  intros [c Hc]. destruct (worktree_guard_spec ["work"] ["work"] "out/new" ["work"; "out"; "new"]
    PP.default) as (base & missing & (k & Hk & -> & Hb & _ & Hj) & Hg);
    [by repeat constructor|right; exists ["out"; "new"]; by repeat constructor
    |by repeat constructor|done|done|].
  destruct (proj1 (Hg c) Hc) as (rest & Hp & _). cbn [length app] in *.
  destruct k as [|[|[|[|k]]]]; [by specialize (Hj 2%nat ltac:(lia))..| |done|lia].
  cbn in Hb. injection Hb as Hb. destruct base as [|x base]; [done|].
  cbn in Hp. injection Hp as -> _. by destruct base.
Defined.
