(* ===== verification/Warrant.v ===== *)
(** * Warrants of agents (crates/roko-agent/src/safety/capabilities.rs)

    The capabilities a tool call needs, the warrants that grant them, their delegation, and the
    trust tiers of plugins. *)

From S2P Require Import Prelude Text Permit Sandbox Tool Network.

Module Capability.
Inductive t : Type :=
  | Tool (name : string)
  | ReadPath (path : string)
  | WritePath (path : string)
  | Exec (command : string)
  | Network (host : string) (port : N).
End Capability.
Abbreviation Capability := Capability.t.
Module Cap := Capability.

Definition path_contains (granted required : string) : bool := PathBuf.starts_with required granted.

Definition capability_covers (granted required : Capability) : bool :=
  match granted, required with
  | Cap.Tool a, Cap.Tool b => string_eqb a b
  | Cap.Exec a, Cap.Exec b => string_eqb a b
  | Cap.Network ah ap, Cap.Network bh bp => string_eqb ah bh && (ap =? bp)%N
  | Cap.ReadPath g, Cap.ReadPath r => path_contains g r
  | Cap.WritePath g, Cap.WritePath r => path_contains g r
  | _, _ => false
  end.

(** ** Plugin tiers *)

Module PluginTier.
Inductive t : Type := Untrusted | Sandboxed | Standard | Trusted | Kernel.

#[global] Instance t_eq_dec : EqDecision t.
Proof. solve_decision. Defined.

Definition default : t := Sandboxed.
Definition discriminant (tier : t) : nat :=
  match tier with Untrusted => 1 | Sandboxed => 2 | Standard => 3 | Trusted => 4 | Kernel => 5 end.

Definition debug (tier : t) : string :=
  match tier with
  | Untrusted => "Untrusted" | Sandboxed => "Sandboxed" | Standard => "Standard"
  | Trusted => "Trusted" | Kernel => "Kernel"
  end.

Definition allowed_capabilities (tier : t) : list Capability :=
  match tier with
  | Untrusted => []
  | Sandboxed => [Cap.ReadPath "/"]
  | Standard => [Cap.ReadPath "/"; Cap.WritePath "/"; Cap.Exec "*"]
  | Trusted | Kernel => [Cap.ReadPath "/"; Cap.WritePath "/"; Cap.Exec "*"; Cap.Network "*" 0]
  end.

Definition allows_network (tier : t) : bool :=
  match tier with Standard | Trusted | Kernel => true | _ => false end.
Definition allows_secrets (tier : t) : bool :=
  match tier with Trusted | Kernel => true | _ => false end.
Definition allows_writes (tier : t) : bool :=
  match tier with Standard | Trusted | Kernel => true | _ => false end.
End PluginTier.
Abbreviation PluginTier := PluginTier.t.

Definition tier_denies (tier : PluginTier) (what : string) : string :=
  "plugin tier " +:+ PluginTier.debug tier +:+ " does not permit " +:+ what.

Definition check_plugin_tier (tier : PluginTier) (capability : Capability) : result unit string :=
  match capability with
  | Cap.Network _ _ =>
      if negb (PluginTier.allows_network tier) then Err (tier_denies tier "network access") else
        Ok tt
  | Cap.WritePath _ =>
      if negb (PluginTier.allows_writes tier) then Err (tier_denies tier "filesystem writes")
      else Ok tt
  | Cap.ReadPath _ =>
      match tier with
      | PluginTier.Untrusted => Err (tier_denies tier "filesystem reads")
      | _ => Ok tt
      end
  | Cap.Exec _ =>
      match tier with
      | PluginTier.Untrusted | PluginTier.Sandboxed => Err (tier_denies tier "subprocess execution")
      | _ => Ok tt
      end
  | Cap.Tool _ => Ok tt
  end.

(** ** Warrants *)

Module AgentWarrant.
Record t : Type := mk {
  id : list N;
  capabilities : list Capability;
  issuer : string;
  expires_at : option N;
  delegate_depth : N;
}.

(** The identifier is random. *)
Definition new (id : list N) (issuer : string) (capabilities : list Capability)
    (delegate_depth : N) : t := mk id capabilities issuer None delegate_depth.

Definition with_expiry (expires_at : option N) (w : t) : t :=
  mk (id w) (capabilities w) (issuer w) expires_at (delegate_depth w).
End AgentWarrant.
Abbreviation AgentWarrant := AgentWarrant.t.
Module AW := AgentWarrant.

Module CapabilityError.
Inductive t : Type := NotCovered | DepthExhausted.
End CapabilityError.
Abbreviation CapabilityError := CapabilityError.t.

Definition check_capability (warrant : AgentWarrant) (required : Capability) : bool :=
  existsb (λ granted, capability_covers granted required) (AW.capabilities warrant).

Definition delegate (id : list N) (warrant : AgentWarrant) (subset : list Capability) :
    result AgentWarrant CapabilityError :=
  if (AW.delegate_depth warrant =? 0)%N then Err CapabilityError.DepthExhausted
  else if existsb (λ required, negb (check_capability warrant required)) subset then
    Err CapabilityError.NotCovered
  else Ok (AW.mk id subset (AW.issuer warrant) (AW.expires_at warrant)
             (AW.delegate_depth warrant - 1)%N).

(** ** What a call needs *)

(** [trim_matches(|c| c == '[' || c == ']')] *)
Fixpoint drop_brackets (l : list N) : list N :=
  match l with b :: l' => if (b =? 91)%N || (b =? 93)%N then drop_brackets l' else l | [] => [] end.
Definition trim_brackets (s : string) : string :=
  of_codes (reverse (drop_brackets (reverse (drop_brackets (codes s))))).

Definition network_capability_from_url {UL : UrlLib} (url : string) : option Capability :=
  parsed ← url_parse url;
  host ← Url.host_str parsed;
  Some (Cap.Network (trim_brackets host) (stdpp.option.default 0%N (Url.port parsed))).

Definition exec_capability_from_command (command : string) : option Capability :=
  token ← head (split_whitespace command);
  if str_is_empty token then None else Some (Cap.Exec token).

(** ** Examples *)

(** The wildcards of the tiers cover nothing but themselves; a warrant is for the first word of a
    command line; and when it expires is never looked at. *)
Example wildcards :
  existsb (λ g, capability_covers g (Cap.Exec "ls")) (PluginTier.allowed_capabilities
    PluginTier.Kernel)
    = false
  ∧ check_plugin_tier PluginTier.Standard (Cap.Network "example.org" 443) = Ok tt
  ∧ Cap.Network "*" 0 ∉ PluginTier.allowed_capabilities PluginTier.Standard.
Proof. split_and!; [by vm_compute..|]. cbn. set_solver. Qed.

Example first_word_only :
  exec_capability_from_command "ls; rm -rf src" = Some (Cap.Exec "ls;")
  ∧ exec_capability_from_command "ls && rm -rf src" = Some (Cap.Exec "ls")
  ∧ exec_capability_from_command " " = None.
Proof. by vm_compute. Qed.

(** ** Attenuation *)

Lemma covers_transitive a b c :
  capability_covers a b = true → capability_covers b c = true → capability_covers a c = true.
Proof.
  destruct a, b; try done; destruct c; try done; cbn;
    rewrite ?andb_true_iff; unfold string_eqb, path_contains, PathBuf.starts_with;
    rewrite ?bool_decide_eq_true; rewrite ?N.eqb_eq.
  - naive_solver.
  - intros. by etrans.
  - intros. by etrans.
  - naive_solver.
  - naive_solver.
Qed.

Lemma check_capability_spec w c :
  check_capability w c = true ↔ ∃ g, g ∈ AW.capabilities w ∧ capability_covers g c = true.
Proof.
  unfold check_capability. rewrite existsb_exists. by setoid_rewrite <- list_elem_of_In.
Qed.

Lemma delegate_ok id w subset w' :
  delegate id w subset = Ok w' →
  w' = AW.mk id subset (AW.issuer w) (AW.expires_at w) (AW.delegate_depth w - 1)%N
  ∧ (1 ≤ AW.delegate_depth w)%N ∧ ∀ c, c ∈ subset → check_capability w c = true.
Proof.
  unfold delegate. destruct (N.eqb_spec (AW.delegate_depth w) 0); [done|].
  destruct (existsb _ subset) eqn:E; [done|]. intros [= <-]. split_and!; [done|lia|].
  intros c Hc%list_elem_of_In. destruct (check_capability w c) eqn:Ec; [done|].
  apply not_true_iff_false in E. destruct E. apply existsb_exists. exists c. by rewrite Ec.
Qed.

(** The holder of a warrant passes it on, again and again: identifiers and subsets. *)
Fixpoint delegations (w : AgentWarrant) (steps : list (list N * list Capability)) :
    result AgentWarrant CapabilityError :=
  match steps with
  | [] => Ok w
  | (id, subset) :: steps' =>
      match delegate id w subset with Ok w' => delegations w' steps' | Err e => Err e end
  end.

(** Delegation only takes away: along any chain of delegations the issuer and the expiry stay, the
    chain is as short as the first warrant says, and what the last covers the first covers. *)
Theorem delegation_attenuates w steps w' :
  delegations w steps = Ok w' →
  (N.of_nat (length steps) + AW.delegate_depth w' = AW.delegate_depth w)%N
  ∧ AW.issuer w' = AW.issuer w ∧ AW.expires_at w' = AW.expires_at w
  ∧ ∀ c, check_capability w' c = true → check_capability w c = true.
Proof.
  revert w. induction steps as [|[id subset] steps IH]; intros w; cbn [delegations length].
  { intros [= <-]. split_and!; done. }
  destruct (delegate id w subset) as [w1|] eqn:E; [|done]. intros H.
  apply delegate_ok in E as (-> & Hd & Hs). apply IH in H as (Hl & Hi & He & Hc).
  cbn [AW.delegate_depth AW.issuer AW.expires_at] in *. split_and!; [lia|done|done|].
  intros c Hw. apply Hc, check_capability_spec in Hw as (g & Hg & Hgc).
  apply Hs, check_capability_spec in Hg as (g' & Hg' & Hgg).
  apply check_capability_spec. exists g'. split; [done|]. by eapply covers_transitive.
Qed.

Lemma delegation_attenuates_witness :
  let w := AW.new [] "root" [Cap.ReadPath "/work"; Cap.Exec "ls"] 2 in
  ∃ w', delegations w [([1%N], [Cap.ReadPath "/work/src"]); ([2%N], [])] = Ok w'
    ∧ AW.delegate_depth w' = 0%N ∧ ∀ c, check_capability w' c = true → check_capability w c = true.
Proof.
  intros w. eexists. split; [by vm_compute|].
  destruct (delegation_attenuates w [([1%N], [Cap.ReadPath "/work/src"]); ([2%N], [])]
    (AW.mk [2%N] [] "root" None 0)) as (Hd & _ & _ & Hc); [by vm_compute|]. by split.
Defined.

(** A higher tier may do what a lower one may. *)
Lemma tiers_monotone t1 t2 c :
  (PluginTier.discriminant t1 ≤ PluginTier.discriminant t2)%nat →
  is_ok (check_plugin_tier t1 c) = true → is_ok (check_plugin_tier t2 c) = true.
Proof. destruct c, t1, t2; cbn; try done; lia. Qed.
