(* ===== verification/Risk.v ===== *)
(** * The risk budget of agents (crates/roko-agent/src/safety/risk.rs)

    Confidence in an agent, the limits it gives, and the budget that every action is charged to
    before it happens. *)

From S2P Require Import Prelude Text Bytes EventLog ChainTypes Federation Tool Temporal.
From Stdlib Require Import SpecFloat.

(** [Value::as_f64] *)
Class JsonNumber {J : Json} := { json_as_f64 : json → option F64.t }.

#[local] Abbreviation one := (F64.of_Z 1).

(** ** Confidence *)

Module BetaDistribution.
Record t : Type := mk { alpha : F64.t; beta : F64.t }.

Definition pessimistic_prior : t := mk one (F64.of_Z 3).
Definition mean (d : t) : F64.t := F64.div (alpha d) (F64.add (alpha d) (beta d)).
Definition variance (d : t) : F64.t :=
  let sum := F64.add (alpha d) (beta d) in
  F64.div (F64.mul (alpha d) (beta d)) (F64.mul (F64.mul sum sum) (F64.add sum one)).
Definition lower_95 (d : t) : F64.t :=
  F64.max (F64.sub (mean d) (F64.mul (F64.lit 196 100) (SFsqrt 53 1024 (variance d)))) F64.zero.
Definition record_success (d : t) : t := mk (F64.add (alpha d) one) (beta d).
Definition record_failure (weight : F64.t) (d : t) : t :=
  mk (alpha d) (F64.add (beta d) (F64.max weight F64.zero)).
End BetaDistribution.
Abbreviation BetaDistribution := BetaDistribution.t.
Module BD := BetaDistribution.

Module OperationalConfidenceTracker.
Record t : Type := mk { dimensions : gmap string BetaDistribution; failure_weight : F64.t }.

Definition new : t := mk ∅ (F64.lit 15 10).

Definition register_dimension (name : string) (c : t) : t :=
  match dimensions c !! name with
  | Some _ => c
  | None => mk (<[name := BD.pessimistic_prior]> (dimensions c)) (failure_weight c)
  end.

Definition record_success (dimension : string) (c : t) : t :=
  let c := register_dimension dimension c in
  mk (alter BD.record_success dimension (dimensions c)) (failure_weight c).

Definition record_failure (dimension : string) (c : t) : t :=
  let c := register_dimension dimension c in
  mk (alter (BD.record_failure (failure_weight c)) dimension (dimensions c)) (failure_weight c).

Definition composite_confidence {HI : HashIter} {PL : PowLib} (c : t) : F64.t :=
  match hash_values (dimensions c) with
  | [] => F64.zero
  | ds =>
      let product := foldl (λ p d, F64.mul p (F64.max (BD.lower_95 d) (F64.lit 1 1000))) one ds in
      f64_powf product (F64.div one (F64.of_Z (Z.of_nat (size (dimensions c)))))
  end.

Definition aggregate_mean {HI : HashIter} (c : t) : F64.t :=
  match hash_values (dimensions c) with
  | [] => F64.zero
  | ds => F64.div (foldl (λ s d, F64.add s (BD.mean d)) F64.zero ds)
            (F64.of_Z (Z.of_nat (size (dimensions c))))
  end.
End OperationalConfidenceTracker.
Abbreviation OperationalConfidenceTracker := OperationalConfidenceTracker.t.

Definition unit_clamp (f : F64.t) : F64.t := F64.clamp F64.zero one f.

Definition kelly_fraction (win_rate payoff_ratio : F64.t) : F64.t :=
  if F64.le payoff_ratio F64.zero then F64.zero
  else
    let p := unit_clamp win_rate in
    let q := F64.sub one p in
    unit_clamp (F64.div (F64.sub (F64.mul p payoff_ratio) q) payoff_ratio).

Definition confidence_multiplier {E : ExpFloat} (confidence : F64.t) : F64.t :=
  let clamped := unit_clamp confidence in
  let sigmoid := F64.div one
    (F64.add one (f64_exp (F64.mul (F64.of_Z (-10)) (F64.sub clamped (F64.lit 5 10))))) in
  let baseline := F64.add (F64.lit 1 10) (F64.mul (F64.lit 4 10) sigmoid) in
  F64.min baseline (F64.max (kelly_fraction clamped (F64.of_Z 2)) (F64.lit 1 10)).

(** [1.0 - (x.clamp(0.0, 1.0) * weight).min(cap)] *)
Definition shrink (x weight cap : F64.t) : F64.t :=
  F64.sub one (F64.min (F64.mul (unit_clamp x) weight) cap).

Definition effective_limit (hard_shield_limit confidence failure_rate task_complexity domain_risk
    : F64.t) : F64.t :=
  let clamped := unit_clamp confidence in
  let kelly := kelly_fraction clamped (F64.of_Z 2) in
  let base := F64.add (F64.lit 2 10)
    (F64.mul (F64.lit 8 10) (F64.max kelly (F64.mul clamped (F64.lit 5 10)))) in
  F64.mul (F64.mul (F64.mul (F64.mul hard_shield_limit base)
    (shrink failure_rate (F64.lit 5 10) (F64.lit 8 10)))
    (shrink task_complexity (F64.lit 3 10) (F64.lit 6 10)))
    (shrink domain_risk (F64.lit 4 10) (F64.lit 7 10)).

(** ** Budgets *)

Module SafetyBudget.
Record t : Type := mk {
  irreversibility_limit : F64.t;
  blast_radius_file_limit : nat;
  footprint_limit : nat;
  uncertainty_tokens : nat;
  cost_limit_usd : F64.t;
}.
Definition default : t := mk (F64.of_Z 10) 50 500 10 (F64.of_Z 50).
End SafetyBudget.
Abbreviation SafetyBudget := SafetyBudget.t.
Module SB := SafetyBudget.

Module SafetyBudgetUsage.
Record t : Type := mk {
  irreversibility_consumed : F64.t;
  files_touched : gset string;
  footprint_count : nat;
  uncertainty_tokens_used : nat;
  cost_consumed_usd : F64.t;
}.
Definition default : t := mk F64.zero ∅ 0 0 F64.zero.
End SafetyBudgetUsage.
Abbreviation SafetyBudgetUsage := SafetyBudgetUsage.t.
Module SU := SafetyBudgetUsage.

Module BudgetDimension.
Inductive t : Type := Irreversibility | BlastRadius | Footprint | Uncertainty | Cost.

Definition as_str (d : t) : string :=
  match d with
  | Irreversibility => "irreversibility"
  | BlastRadius => "blast_radius"
  | Footprint => "footprint"
  | Uncertainty => "uncertainty"
  | Cost => "cost"
  end.
End BudgetDimension.
Abbreviation BudgetDimension := BudgetDimension.t.

Module BudgetCheckResult.
Inductive t : Type := WithinBudget | Exceeded (dimension : BudgetDimension).
End BudgetCheckResult.
Abbreviation BudgetCheckResult := BudgetCheckResult.t.
Module BR := BudgetCheckResult.

Definition score_command_irreversibility (command : string) : F64.t :=
  let normalized := str_to_ascii_lowercase (utf8_trim command) in
  if str_starts_with "ls" normalized || str_starts_with "cat" normalized
     || str_starts_with "echo" normalized || str_starts_with "grep" normalized then F64.zero
  else if str_contains "rm " normalized || str_contains "rmdir" normalized then F64.lit 8 10
  else if str_starts_with "cargo build" normalized || str_starts_with "cargo test" normalized then
    F64.lit 1 10
  else if str_starts_with "cargo publish" normalized then F64.lit 9 10
  else if str_contains "git push" normalized then F64.lit 6 10
  else F64.lit 4 10.

Section calls.
Context {J : Json} {JN : JsonNumber}.

Definition score_bash_irreversibility (args : json) : F64.t :=
  score_command_irreversibility
    (stdpp.option.default "" (json_get "command" args ≫= json_as_str)).

Definition irreversibility_score (tool : string) (args : json) : F64.t :=
  if bool_decide (tool ∈ ["read_file"; "glob"; "grep"; "ls"]) then F64.zero
  else if string_eqb tool "write_file" then F64.lit 2 10
  else if bool_decide (tool ∈ ["edit_file"; "multi_edit"; "apply_patch"; "notebook_edit"]) then
    F64.lit 3 10
  else if bool_decide (tool ∈ ["bash"; "run_tests"]) then score_bash_irreversibility args
  else if string_eqb tool "git_commit" then F64.lit 3 10
  else if string_eqb tool "git_push" then F64.lit 6 10
  else if bool_decide (tool ∈ ["web_fetch"; "web_search"]) then F64.zero
  else F64.lit 5 10.

Definition modified_files (call : ToolCall) : list string :=
  omap (λ key, json_get key (TL.arguments call) ≫= json_as_str)
    ["file_path"; "path"; "target_file"]
  ++ match json_get "paths" (TL.arguments call) ≫= json_as_array with
     | Some paths => omap json_as_str paths
     | None => []
     end.
End calls.

Module ProposedAction.
Record t : Type := mk {
  irreversibility_score : F64.t;
  files_modified : list string;
  tool_calls : nat;
  confidence : F64.t;
  estimated_cost : F64.t;
}.
End ProposedAction.
Abbreviation ProposedAction := ProposedAction.t.
Module PA := ProposedAction.

Definition from_tool_call {J : Json} {JN : JsonNumber} (call : ToolCall) : ProposedAction :=
  PA.mk (irreversibility_score (TL.name call) (TL.arguments call)) (modified_files call) 1
    (stdpp.option.default one (json_get "confidence" (TL.arguments call) ≫= json_as_f64))
    (stdpp.option.default F64.zero
       (json_get "estimated_cost_usd" (TL.arguments call) ≫= json_as_f64)).

Definition from_exec_command (program : string) (args : list string) : ProposedAction :=
  let command := match args with
                 | [] => program
                 | _ => program +:+ " " +:+ str_join " " args
                 end in
  PA.mk (score_command_irreversibility command) [] 1 one F64.zero.

Module CompletedAction.
Record t : Type := mk {
  irreversibility_score : F64.t;
  files_modified : list string;
  tool_calls : nat;
  confidence : F64.t;
  actual_cost : F64.t;
}.
Definition from (a : ProposedAction) : t :=
  mk (PA.irreversibility_score a) (PA.files_modified a) (PA.tool_calls a) (PA.confidence a)
    (PA.estimated_cost a).
End CompletedAction.
Abbreviation CompletedAction := CompletedAction.t.
Module CA := CompletedAction.

Module SafetyBudgetTracker.
Record t : Type := mk {
  budget : SafetyBudget;
  usage : SafetyBudgetUsage;
  uncertainty_threshold : F64.t;
}.

Definition new (budget : SafetyBudget) : t := mk budget SU.default (F64.lit 5 10).

Definition check (action : ProposedAction) (k : t) : BudgetCheckResult :=
  let u := usage k in
  let b := budget k in
  if F64.gt (F64.add (SU.irreversibility_consumed u) (PA.irreversibility_score action))
       (SB.irreversibility_limit b) then BR.Exceeded BudgetDimension.Irreversibility
  else if (SB.blast_radius_file_limit b
             <? size (SU.files_touched u ∪ list_to_set (PA.files_modified action)))%nat then
    BR.Exceeded BudgetDimension.BlastRadius
  else if (SB.footprint_limit b <? SU.footprint_count u + PA.tool_calls action)%nat then
    BR.Exceeded BudgetDimension.Footprint
  else if F64.lt (PA.confidence action) (uncertainty_threshold k)
          && (SB.uncertainty_tokens b <=? SU.uncertainty_tokens_used u)%nat then
    BR.Exceeded BudgetDimension.Uncertainty
  else if F64.gt (F64.add (SU.cost_consumed_usd u) (PA.estimated_cost action))
            (SB.cost_limit_usd b) then BR.Exceeded BudgetDimension.Cost
  else BR.WithinBudget.

Definition consume (action : CompletedAction) (k : t) : t :=
  let u := usage k in
  mk (budget k)
    (SU.mk (F64.add (SU.irreversibility_consumed u) (CA.irreversibility_score action))
       (SU.files_touched u ∪ list_to_set (CA.files_modified action))
       (SU.footprint_count u + CA.tool_calls action)
       (if F64.lt (CA.confidence action) (uncertainty_threshold k)
        then S (SU.uncertainty_tokens_used u) else SU.uncertainty_tokens_used u)
       (F64.add (SU.cost_consumed_usd u) (CA.actual_cost action)))
    (uncertainty_threshold k).

Definition check_and_consume (action : ProposedAction) (k : t) : t * BudgetCheckResult :=
  match check action k with
  | BR.WithinBudget => (consume (CA.from action) k, BR.WithinBudget)
  | r => (k, r)
  end.

Definition is_exhausted (k : t) : bool :=
  let u := usage k in
  let b := budget k in
  F64.ge (SU.irreversibility_consumed u) (SB.irreversibility_limit b)
  || (SB.blast_radius_file_limit b <=? size (SU.files_touched u))%nat
  || (SB.footprint_limit b <=? SU.footprint_count u)%nat
  || F64.ge (SU.cost_consumed_usd u) (SB.cost_limit_usd b).
End SafetyBudgetTracker.
Abbreviation SafetyBudgetTracker := SafetyBudgetTracker.t.
Module BT := SafetyBudgetTracker.

(** ** What is charged *)

Section budget.
Context (b : SafetyBudget).

Definition low (a : ProposedAction) : bool := F64.lt (PA.confidence a) (F64.lit 5 10).

(** What a list of actions costs. *)
Definition charge (l : list ProposedAction) : SafetyBudgetUsage :=
  SU.mk (foldl F64.add F64.zero (PA.irreversibility_score <$> l))
    (list_to_set (concat (PA.files_modified <$> l)))
    (sum_list (PA.tool_calls <$> l))
    (length (List.filter low l))
    (foldl F64.add F64.zero (PA.estimated_cost <$> l)).

Definition within_budget (u : SafetyBudgetUsage) : Prop :=
  F64.gt (SU.irreversibility_consumed u) (SB.irreversibility_limit b) = false
  ∧ (size (SU.files_touched u) ≤ SB.blast_radius_file_limit b)%nat
  ∧ (SU.footprint_count u ≤ SB.footprint_limit b)%nat
  ∧ (SU.uncertainty_tokens_used u ≤ SB.uncertainty_tokens b)%nat
  ∧ F64.gt (SU.cost_consumed_usd u) (SB.cost_limit_usd b) = false.

(** Actions offered one after the other, and whether each was admitted. *)
Fixpoint spend (actions : list ProposedAction) (k : SafetyBudgetTracker) :
    SafetyBudgetTracker * list (ProposedAction * bool) :=
  match actions with
  | [] => (k, [])
  | a :: actions' =>
      let '(k1, r) := BT.check_and_consume a k in
      let '(k2, log) := spend actions' k1 in
      (k2, (a, match r with BR.WithinBudget => true | _ => false end) :: log)
  end.

Definition admitted_actions (log : list (ProposedAction * bool)) : list ProposedAction :=
  (List.filter snd log).*1.

Definition charged_by (l : list ProposedAction) (k : SafetyBudgetTracker) : Prop :=
  BT.budget k = b ∧ BT.uncertainty_threshold k = F64.lit 5 10 ∧ BT.usage k = charge l
  ∧ (length (List.filter low l) ≤ SB.uncertainty_tokens b)%nat.

Lemma sum_list_app l1 l2 : sum_list (l1 ++ l2) = (sum_list l1 + sum_list l2)%nat.
Proof. induction l1 as [|n l1 IH]; cbn; [done|]. rewrite IH. lia. Qed.

Lemma charge_snoc l a :
  charge (l ++ [a]) =
    SU.mk (F64.add (SU.irreversibility_consumed (charge l)) (PA.irreversibility_score a))
      (SU.files_touched (charge l) ∪ list_to_set (PA.files_modified a))
      (SU.footprint_count (charge l) + PA.tool_calls a)
      (if low a then S (SU.uncertainty_tokens_used (charge l))
       else SU.uncertainty_tokens_used (charge l))
      (F64.add (SU.cost_consumed_usd (charge l)) (PA.estimated_cost a)).
Proof.
  unfold charge. cbn [SU.irreversibility_consumed SU.files_touched SU.footprint_count
    SU.uncertainty_tokens_used SU.cost_consumed_usd].
  rewrite !fmap_app, !foldl_app, concat_app, List.filter_app, length_app, sum_list_app.
  cbn [fmap list_fmap foldl concat List.filter sum_list]. rewrite app_nil_r. f_equal.
  - by rewrite list_to_set_app_L.
  - cbn. lia.
  - destruct (low a); cbn; lia.
Qed.

Lemma consume_charge l a k :
  charged_by l k → BT.usage (BT.consume (CA.from a) k) = charge (l ++ [a]).
Proof. intros (_ & Hu & Hc & _). rewrite charge_snoc. unfold BT.consume. by rewrite Hu, Hc. Qed.

Lemma check_charge l a k :
  charged_by l k → BT.check a k = BR.WithinBudget ↔ within_budget (charge (l ++ [a])).
Proof.
  intros (Hb & Hu & Hc & Hl). unfold BT.check, within_budget. rewrite Hb, Hu, Hc, charge_snoc.
  cbn [SU.irreversibility_consumed SU.files_touched SU.footprint_count SU.uncertainty_tokens_used
    SU.cost_consumed_usd]. fold (low a).
  assert (SU.uncertainty_tokens_used (charge l) = length (List.filter low l)) as -> by done.
  destruct (F64.gt (F64.add (SU.irreversibility_consumed _) _) _); [naive_solver|].
  destruct (Nat.ltb_spec (SB.blast_radius_file_limit b)
    (size (SU.files_touched (charge l) ∪ list_to_set (PA.files_modified a)))); [naive_solver lia|].
  destruct (Nat.ltb_spec (SB.footprint_limit b) (SU.footprint_count (charge l) + PA.tool_calls a));
    [naive_solver lia|].
  destruct (low a); cbn [andb].
  - destruct (Nat.leb_spec (SB.uncertainty_tokens b) (length (List.filter low l)));
      [naive_solver lia|]. destruct (F64.gt _ _); naive_solver lia.
  - destruct (F64.gt _ _); naive_solver lia.
Qed.

Lemma check_and_consume_charge l a k k' r :
  charged_by l k → BT.check_and_consume a k = (k', r) →
  (r = BR.WithinBudget ↔ within_budget (charge (l ++ [a])))
  ∧ charged_by (l ++ match r with BR.WithinBudget => [a] | _ => [] end) k'.
Proof.
  intros Hk. unfold BT.check_and_consume. rewrite <- (check_charge l a k Hk).
  destruct (BT.check a k) as [|d] eqn:E; intros [= <- <-].
  - split; [done|]. apply (check_charge l a k Hk) in E as (_ & _ & _ & Ht & _).
    pose proof Hk as (Hb & Hu & _ & _). split_and!; [done|done|by apply consume_charge|].
    by rewrite charge_snoc in Ht; cbn in Ht; rewrite List.filter_app, length_app; cbn;
      destruct (low a); cbn; lia.
  - split; [done|]. by rewrite app_nil_r.
Qed.

Lemma spend_charge actions l k :
  charged_by l k →
  charged_by (l ++ admitted_actions (spend actions k).2) (spend actions k).1
  ∧ ∀ pre a ok post, (spend actions k).2 = pre ++ (a, ok) :: post →
      ok = true ↔ within_budget (charge (l ++ admitted_actions pre ++ [a])).
Proof.
  revert l k. induction actions as [|a actions IH]; intros l k Hk; cbn [spend].
  { split; [by rewrite app_nil_r|]. intros pre a ok post H. by destruct pre. }
  destruct (BT.check_and_consume a k) as [k1 r] eqn:E.
  destruct (check_and_consume_charge l a k k1 r Hk E) as [Hr Hk1].
  destruct (IH _ _ Hk1) as [Hk2 Hlog]. destruct (spend actions k1) as [k2 log]. cbn [fst snd] in *.
  set (m := match r with BR.WithinBudget => [a] | _ => [] end) in *.
  assert (∀ log', admitted_actions ((a, match r with BR.WithinBudget => true |
    _ => false end) :: log')
    = m ++ admitted_actions log') as Ha by (intros log'; by destruct r).
  split; [by rewrite Ha, app_assoc|].
  intros pre a' ok post H. destruct pre as [|x pre].
  - injection H as <- <- <-. cbn [app]. rewrite <- Hr. by destruct r.
  - injection H as <- H. rewrite Ha, <- app_assoc, app_assoc. by eapply Hlog.
Qed.

(** An action is admitted exactly when all that was admitted before it and itself stay within every
    limit, and the usage is what the admitted actions cost. *)
Theorem budget_spec actions :
  let '(k, log) := spend actions (BT.new b) in
  BT.usage k = charge (admitted_actions log)
  ∧ (∀ pre a ok post, log = pre ++ (a, ok) :: post →
      ok = true ↔ within_budget (charge (admitted_actions pre ++ [a])))
  ∧ (admitted_actions log = [] ∨ within_budget (BT.usage k)).
Proof.
  pose proof (spend_charge actions [] (BT.new b)) as H.
  assert (charged_by [] (BT.new b)) as Hn by (split_and!; [done..|cbn; lia]).
  specialize (H Hn) as [(_ & _ & Hu & _) Hlog]. destruct (spend actions (BT.new b)) as [k log].
  cbn [fst snd app] in *. split_and!; [done|done|]. rewrite Hu.
  assert (∀ log', (∀ pre a ok post, log' = pre ++ (a, ok) :: post →
      ok = true ↔ within_budget (charge (admitted_actions pre ++ [a]))) →
    admitted_actions log' = [] ∨ within_budget (charge (admitted_actions log'))) as Hlast;
    [|by apply Hlast]. clear.
  induction log' as [|[a ok] log IH] using rev_ind; intros Hlog; [by left|].
  assert (admitted_actions (log ++ [(a, ok)]) =
    admitted_actions log ++ if ok then [a] else []) as ->.
  { unfold admitted_actions. rewrite List.filter_app, fmap_app. by destruct ok. }
  destruct ok.
  - right. by apply (Hlog log a true []).
  - rewrite app_nil_r. apply IH. intros pre a' ok' post ->. eapply (Hlog pre a' ok' (post ++ [_])).
    by rewrite <- app_assoc.
Qed.
End budget.

(** What the guard believes: the cost an agent gives for its own call may be negative, and the
    first word of a command line says how bad it is. *)
#[local] Existing Instance simple_Json.

Example refund :
  let act cost := PA.mk F64.zero [] 1 one (F64.of_Z cost) in
  (spend (act <$> [40; 40; -1000; 900]%Z) (BT.new SB.default)).2.*2 = [true; false; true; true].
Proof. by vm_compute. Qed.

Example harmless_first_word :
  score_command_irreversibility "ls && rm -rf src" = F64.zero
  ∧ score_command_irreversibility "rm -rf src" = F64.lit 8 10.
Proof. by vm_compute. Qed.
