(* ===== verification/Contract.v ===== *)
(** * The contracts of agents (crates/roko-agent/src/safety/contract.rs)

    What a role may do: its tools, the invariants of its calls, the rules of a turn, and what
    follows a failure.  The record of what happened in the turn is that of the context. *)

From S2P Require Import Prelude Text Bytes EventLog Body Tool Temporal Risk.
From Stdlib Require Import SpecFloat.

(** ** The context of a call (roko-core/src/tool/handler.rs)

    The sinks and the cancel token of a context are effects the guards do not use. *)

Module ExternalAction.
Record t {J : Json} : Type := mk {
  service : string;
  action_type : string;
  resource_id : string;
  metadata : json;
  performed_at : Z;
}.
Arguments t {_}.
Arguments mk {_}.
End ExternalAction.
Abbreviation ExternalAction := ExternalAction.t.
Module EA := ExternalAction.

Module ToolPermission.
Record t : Type := mk { read : bool; write : bool; exec : bool; git : bool; network : bool }.
End ToolPermission.
Abbreviation ToolPermission := ToolPermission.t.
Module TPm := ToolPermission.

Module ToolContext.
Record t {J : Json} : Type := mk {
  worktree_path : string;
  timeout : N;
  capabilities : ToolPermission;
  allowed_tools : option (list string);
  denied_tools : option (list string);
  external_actions : list ExternalAction;
}.
Arguments t {_}.
Arguments mk {_}.

Definition record_external_action {J : Json} (action : ExternalAction) (ctx : t) : t :=
  mk (worktree_path ctx) (timeout ctx) (capabilities ctx) (allowed_tools ctx) (denied_tools ctx)
    (external_actions ctx ++ [action]).
End ToolContext.
Abbreviation ToolContext := ToolContext.t.
Module TC := ToolContext.

Module Artifact.
Record t {J : Json} : Type := mk { name : string; mime_type : string; body : Body.t }.
Arguments t {_}.
Arguments mk {_}.
End Artifact.
Abbreviation Artifact := Artifact.t.

Module ToolResult.
Inductive t {J : Json} : Type :=
  | Ok (content : string) (is_structured : bool) (artifacts : list Artifact)
  | Err (err : ToolError).
Arguments t {_}.

Definition text {J : Json} (content : string) : t := Ok content false [].
Definition structured {J : Json} (content : string) : t := Ok content true [].
Definition with_artifacts {J : Json} (content : string) (artifacts : list Artifact) : t :=
  Ok content false artifacts.
Definition is_ok {J : Json} (r : t) : bool := match r with Ok _ _ _ => true | Err _ => false end.
Definition is_err {J : Json} (r : t) : bool := match r with Ok _ _ _ => false | Err _ => true end.
End ToolResult.
Abbreviation ToolResult := ToolResult.t.
Module TR := ToolResult.

(** ** Data *)

Module Invariant.
Inductive t : Type :=
  | MaxTokensPerTurn (max : N)
  | RequireGateBeforeCommit
  | NoNetworkAccess.
End Invariant.
Abbreviation Invariant := Invariant.t.

Module GovernanceRule.
Inductive t : Type :=
  | MaxToolCallsPerTurn (max : N)
  | ForbiddenTools (tools : list string)
  | MaxCostPerTurn (max : F64.t)
  | MaxConsecutiveFailures (max : N)
  | RequireToolBeforeEdit (required_tool : string).
End GovernanceRule.
Abbreviation GovernanceRule := GovernanceRule.t.
Module GR := GovernanceRule.

Module RecoveryKind.
Inductive t : Type := Retry | Downgrade | Abort | Alert.

Definition debug (k : t) : string :=
  match k with
  | Retry => "Retry" | Downgrade => "Downgrade" | Abort => "Abort" | Alert => "Alert"
  end.
End RecoveryKind.
Abbreviation RecoveryKind := RecoveryKind.t.

Module RecoveryAction.
Record t : Type := mk { trigger : string; action : RecoveryKind }.

Definition matches (a : t) (err : ToolError) : bool :=
  if string_eqb (trigger a) "contract_violation" then
    match err with
    | TE.PermissionDenied message => str_contains "contract violation" message
    | _ => false
    end
  else if string_eqb (trigger a) "attempted_edit" then
    match err with
    | TE.PermissionDenied message =>
        str_contains "RequireToolBeforeEdit" message || str_contains "ForbiddenTools" message
    | _ => false
    end
  else if string_eqb (trigger a) "tool_budget_exhausted" then
    match err with
    | TE.Other message => str_contains "budget" (str_to_ascii_lowercase message)
    | _ => false
    end
  else false.

Definition into_tool_error (role : string) (a : t) : ToolError :=
  TE.PermissionDenied ("contract recovery for role `" +:+ role +:+ "` requested "
    +:+ RecoveryKind.debug (action a) +:+ " after trigger `" +:+ trigger a +:+ "`").
End RecoveryAction.
Abbreviation RecoveryAction := RecoveryAction.t.
Module RA := RecoveryAction.

Module ContractViolation.
Record t : Type := mk { role : string; rule : string; detail : string }.

Definition into_tool_error (v : t) : ToolError :=
  TE.PermissionDenied ("contract violation for role `" +:+ role v +:+ "` (" +:+ rule v +:+ "): "
    +:+ detail v).
End ContractViolation.
Abbreviation ContractViolation := ContractViolation.t.
Module CV := ContractViolation.

Module AgentContract.
Record t : Type := mk {
  role : string;
  invariants : list Invariant;
  governance : list GovernanceRule;
  recovery : list RecoveryAction;
  allowed_tools : option (list string);
}.

Definition permissive (role : string) : t := mk role [] [] [] None.

Definition restricted (role : string) : t :=
  mk role [Invariant.NoNetworkAccess; Invariant.MaxTokensPerTurn 4000]
    [GR.MaxToolCallsPerTurn 10; GR.MaxConsecutiveFailures 3; GR.MaxCostPerTurn (F64.lit 50 100)]
    [RA.mk "contract_violation" RecoveryKind.Abort] (Some []).

Definition with_allowed_tools (tools : option (list string)) (c : t) : t :=
  mk (role c) (invariants c) (governance c) (recovery c) tools.
Definition with_role (r : string) (c : t) : t :=
  mk r (invariants c) (governance c) (recovery c) (allowed_tools c).

Definition hardened_default (role : string) : t := with_allowed_tools None (restricted role).

Definition forbids (tool_name : string) (rule : GovernanceRule) : bool :=
  match rule with
  | GR.ForbiddenTools forbidden => existsb (λ name, string_eqb name tool_name) forbidden
  | _ => false
  end.

Definition permits_tool (tool_name : string) (c : t) : bool :=
  match allowed_tools c with
  | Some allowed =>
      if existsb (λ name, string_eqb name tool_name) allowed
      then negb (existsb (forbids tool_name) (governance c)) else false
  | None => negb (existsb (forbids tool_name) (governance c))
  end.

Definition applicable_recovery {J : Json} (result : ToolResult) (c : t) : option RecoveryAction :=
  match result with
  | TR.Ok _ _ _ => None
  | TR.Err err => List.find (λ action, RA.matches action err) (recovery c)
  end.
End AgentContract.
Abbreviation AgentContract := AgentContract.t.
Module AC := AgentContract.

(** ** What the rules look at *)

Definition NETWORK_TOOLS : list string := ["web_fetch"; "web_search"].
Definition EDIT_TOOLS : list string :=
  ["write_file"; "edit_file"; "multi_edit"; "apply_patch"; "notebook_edit"].

Section rules.
Context {J : Json} {JN : JsonNumber}.

Definition string_token_estimate (value : option json) : option N :=
  text ← value ≫= json_as_str;
  let estimate := N.of_nat ((chars_count text + 3) / 4) in
  if (estimate <=? u32_MAX)%N then Some estimate else None.

Definition or_else {A} (a b : option A) : option A := match a with Some _ => a | None => b end.

Definition estimated_tokens (call : ToolCall) : option N :=
  let estimate key := string_token_estimate (json_get key (TL.arguments call)) in
  or_else (or_else (or_else (estimate "content") (estimate "prompt")) (estimate "input"))
    (estimate "source").

Definition action_cost_usd (action : ExternalAction) : option F64.t :=
  let metadata := EA.metadata action in
  let usage key := json_get "usage" metadata ≫= json_get key in
  head (omap (λ v : option json, v ≫= json_as_f64)
    [json_get "actual_cost_usd" metadata; json_get "cost_usd" metadata;
     json_get "total_cost_usd" metadata; usage "cost_usd"; usage "total_cost_usd"]).

(** [cost.is_finite() && cost >= 0.0] *)
Definition counted_cost (cost : F64.t) : bool :=
  match cost with
  | S754_finite _ _ _ | S754_zero _ => F64.ge cost F64.zero
  | _ => false
  end.

Definition observed_cost_usd (ctx : ToolContext) : option F64.t :=
  let total := foldl F64.add F64.zero
    (List.filter counted_cost (omap action_cost_usd (TC.external_actions ctx))) in
  if F64.gt total F64.zero then Some total else None.

Definition command_of (call : ToolCall) : option string :=
  json_get "command" (TL.arguments call) ≫= json_as_str.

Definition is_commit_like_call (call : ToolCall) : bool :=
  if str_contains "commit" (TL.name call) then true
  else match command_of call with
       | Some command =>
           let lower := str_to_ascii_lowercase command in
           str_contains "git commit" lower || str_contains "git push" lower
       | None => false
       end.

Definition is_network_like_call (call : ToolCall) : bool :=
  if bool_decide (TL.name call ∈ NETWORK_TOOLS) then true
  else match command_of call with
       | Some command =>
           let lower := str_to_ascii_lowercase command in
           str_contains "curl " lower || str_contains "wget " lower
           || str_contains "http://" lower || str_contains "https://" lower
       | None => false
       end.

Definition is_gate_pass (action : ExternalAction) : bool :=
  string_eqb (EA.action_type action) "gate_passed"
  || (string_eqb (EA.action_type action) "run_gate"
      && stdpp.option.default false (json_get "passed" (EA.metadata action) ≫= json_as_bool)).

Definition has_gate_approval (ctx : ToolContext) : bool :=
  existsb is_gate_pass (TC.external_actions ctx).

Definition is_failure_action (action : ExternalAction) : bool :=
  if bool_decide ((json_get "success" (EA.metadata action) ≫= json_as_bool) = Some false) then true
  else if bool_decide ((json_get "error" (EA.metadata action) ≫= json_as_bool) = Some true) then
    true
  else
    let at_ := str_to_ascii_lowercase (EA.action_type action) in
    str_contains "error" at_ || str_contains "fail" at_.

Fixpoint leading_failures (actions : list ExternalAction) (count : N) : N :=
  match actions with
  | [] => count
  | action :: rest =>
      if is_failure_action action then leading_failures rest (sat_add32 count 1) else count
  end.
Definition count_trailing_failures (actions : list ExternalAction) : N :=
  leading_failures (reverse actions) 0.

Definition is_prior (required_tool : string) (action : ExternalAction) : bool :=
  string_eqb (EA.action_type action) required_tool
  || string_eqb (EA.service action) required_tool
  || bool_decide ((json_get "tool" (EA.metadata action) ≫= json_as_str) = Some required_tool).
Definition has_prior_tool (ctx : ToolContext) (required_tool : string) : bool :=
  existsb (is_prior required_tool) (TC.external_actions ctx).

(** ** Checks *)

Definition check_invariant (role : string) (call : ToolCall) (ctx : ToolContext)
    (invariant : Invariant) : result unit ContractViolation :=
  match invariant with
  | Invariant.MaxTokensPerTurn max =>
      match estimated_tokens call with
      | Some tokens =>
          if (max <? tokens)%N then
            Err (CV.mk role "MaxTokensPerTurn" (fmt_N tokens +:+ " > " +:+ fmt_N max))
          else Ok tt
      | None => Ok tt
      end
  | Invariant.RequireGateBeforeCommit =>
      if is_commit_like_call call && negb (has_gate_approval ctx) then
        Err (CV.mk role "RequireGateBeforeCommit"
          ("tool `" +:+ TL.name call +:+ "` attempted commit without a gate pass"))
      else Ok tt
  | Invariant.NoNetworkAccess =>
      if is_network_like_call call then
        Err (CV.mk role "NoNetworkAccess"
          ("tool `" +:+ TL.name call +:+ "` requires network access"))
      else Ok tt
  end.

(** [u32::try_from(len).unwrap_or(u32::MAX).saturating_add(1)] *)
Definition observed_calls (ctx : ToolContext) : N :=
  sat_add32 (N.min (N.of_nat (length (TC.external_actions ctx))) u32_MAX) 1.

Definition check_rule (role : string) (call : ToolCall) (ctx : ToolContext)
    (rule : GovernanceRule) : result unit ContractViolation :=
  match rule with
  | GR.MaxToolCallsPerTurn max =>
      if (max <? observed_calls ctx)%N then
        Err (CV.mk role "MaxToolCallsPerTurn" (fmt_N (observed_calls ctx) +:+ " > " +:+ fmt_N max))
      else Ok tt
  | GR.ForbiddenTools tools =>
      if existsb (λ tool, string_eqb tool (TL.name call)) tools then
        Err (CV.mk role "ForbiddenTools"
          ("tool `" +:+ TL.name call +:+ "` is forbidden for this contract"))
      else Ok tt
  | GR.MaxCostPerTurn max =>
      match observed_cost_usd ctx with
      | Some cost =>
          if F64.gt cost max then
            Err (CV.mk role "MaxCostPerTurn" (fmt_fixed 4 cost +:+ " > " +:+ fmt_fixed 4 max))
          else Ok tt
      | None => Ok tt
      end
  | GR.MaxConsecutiveFailures max =>
      let consecutive := count_trailing_failures (TC.external_actions ctx) in
      if (max <=? consecutive)%N then
        Err (CV.mk role "MaxConsecutiveFailures"
          (fmt_N consecutive +:+ " consecutive failures >= limit " +:+ fmt_N max))
      else Ok tt
  | GR.RequireToolBeforeEdit required_tool =>
      if bool_decide (TL.name call ∈ EDIT_TOOLS) && negb (has_prior_tool ctx required_tool) then
        Err (CV.mk role "RequireToolBeforeEdit"
          ("tool `" +:+ required_tool +:+ "` must run before `" +:+ TL.name call +:+ "`"))
      else Ok tt
  end.

(** The first error of a list of checks. *)
Fixpoint first_violation {A} (check : A → result unit ContractViolation) (l : list A) :
    result unit ContractViolation :=
  match l with
  | [] => Ok tt
  | a :: l' => match check a with Ok _ => first_violation check l' | Err v => Err v end
  end.

Definition check_contract_pre (call : ToolCall) (ctx : ToolContext) (c : AgentContract) :
    result unit ContractViolation :=
  if negb (AC.permits_tool (TL.name call) c) then
    Err (CV.mk (AC.role c) "AllowedTools"
      ("tool `" +:+ TL.name call +:+ "` is not in the role's allowed_tools list"))
  else
    match first_violation (check_invariant (AC.role c) call ctx) (AC.invariants c) with
    | Err v => Err v
    | Ok _ => first_violation (check_rule (AC.role c) call ctx) (AC.governance c)
    end.
End rules.

(** ** Loading

    The texts of the bundled contracts are part of the program; serde_json reads them. *)

Class ContractAssets := { parse_asset : string → result AgentContract string }.

Module ContractLoadMode.
Inductive t : Type := Strict | RestrictedFallback.
End ContractLoadMode.
Abbreviation ContractLoadMode := ContractLoadMode.t.

Module ContractLoadError.
Inductive t : Type :=
  | InvalidRole (role : string)
  | MissingAsset (role path : string)
  | ReadAsset (path source : string)
  | ParseAsset (path source : string)
  | RoleMismatch (expected found path : string).
End ContractLoadError.
Abbreviation ContractLoadError := ContractLoadError.t.
Module CE := ContractLoadError.

Definition CONTRACT_DIR : string := "src/safety/contracts".
Definition contract_asset_path (role : string) : string :=
  CONTRACT_DIR +:+ "/" +:+ role +:+ ".yaml".

Definition BUNDLED_CONTRACTS : list (string * string) :=
  [("architect", "src/safety/contracts/architect.yaml");
   ("auditor", "src/safety/contracts/auditor.yaml");
   ("auto-fixer", "src/safety/contracts/auto-fixer.yaml");
   ("implementer", "src/safety/contracts/implementer.yaml");
   ("researcher", "src/safety/contracts/researcher.yaml");
   ("reviewer", "src/safety/contracts/reviewer.yaml");
   ("scribe", "src/safety/contracts/scribe.yaml");
   ("strategist", "src/safety/contracts/strategist.yaml")].

Definition bundled_contract_asset (role : string) : option (string * string) :=
  List.find (λ asset : string * string, string_eqb asset.1 role) BUNDLED_CONTRACTS.

Definition role_char (b : N) : bool :=
  ((48 <=? b) && (b <=? 57))%N || ((65 <=? b) && (b <=? 90))%N || ((97 <=? b) && (b <=? 122))%N
  || (b =? 45)%N || (b =? 95)%N.

Definition validate_role (role : string) : result unit ContractLoadError :=
  if str_is_empty role || negb (forallb role_char (codes role)) then Err (CE.InvalidRole role)
  else Ok tt.

Section loading.
Context {CA : ContractAssets}.

(** A role that is not in the cache. *)
Definition load_asset (role : string) : result AgentContract ContractLoadError :=
  match bundled_contract_asset role with
  | None => Err (CE.MissingAsset role (contract_asset_path role))
  | Some (_, path) =>
      match parse_asset path with
      | Err source => Err (CE.ParseAsset path source)
      | Ok contract =>
          if negb (str_is_empty (AC.role contract)) && negb (string_eqb (AC.role contract) role)
          then Err (CE.RoleMismatch role (AC.role contract) path)
          else Ok (AC.with_role role contract)
      end
  end.

(** The cache is shared by the process. *)
Definition load_for_role (role : string) (cache : gmap string AgentContract) :
    gmap string AgentContract * result AgentContract ContractLoadError :=
  let role := utf8_trim role in
  match validate_role role with
  | Err e => (cache, Err e)
  | Ok _ =>
      match cache !! role with
      | Some cached => (cache, Ok cached)
      | None =>
          match load_asset role with
          | Ok contract => (<[role := contract]> cache, Ok contract)
          | Err e => (cache, Err e)
          end
      end
  end.

Definition load_for_role_with_mode (role : string) (mode : ContractLoadMode)
    (cache : gmap string AgentContract) :
    gmap string AgentContract * result AgentContract ContractLoadError :=
  match load_for_role role cache with
  | (cache, Ok contract) => (cache, Ok contract)
  | (cache, Err err) =>
      (cache, match mode with
              | ContractLoadMode.Strict => Err err
              | ContractLoadMode.RestrictedFallback => Ok (AC.restricted role)
              end)
  end.

(** What loading gives without a cache. *)
Definition load_fresh (role : string) : result AgentContract ContractLoadError :=
  match validate_role (utf8_trim role) with
  | Err e => Err e
  | Ok _ => load_asset (utf8_trim role)
  end.

Definition cache_faithful (cache : gmap string AgentContract) : Prop :=
  ∀ role contract, cache !! role = Some contract → load_asset role = Ok contract.

(** However often contracts are loaded, the cache does not show. *)
Theorem contract_cache_transparent roles :
  let step := λ s role, (load_for_role role (s : gmap string AgentContract)).1 in
  ∀ role, (load_for_role role (foldl step ∅ roles)).2 = load_fresh role.
Proof.
  intros step role.
  assert (∀ role cache, cache_faithful cache →
    (load_for_role role cache).2 = load_fresh role ∧ cache_faithful (load_for_role role cache).1)
    as Hstep.
  { clear. intros role cache Hc. unfold load_for_role, load_fresh.
    destruct (validate_role (utf8_trim role)) as [[]|e]; [|done].
    destruct (cache !! utf8_trim role) as [c|] eqn:E; [by rewrite (Hc _ _ E)|].
    destruct (load_asset (utf8_trim role)) as [c|e] eqn:El; [|done]. split; [done|].
    intros r c'. cbn [fst]. rewrite lookup_insert_Some. intros [[<- <-]|[_ H]];
      [done|by apply Hc]. }
  apply Hstep. clear role.
  assert (∀ cache, cache_faithful cache → cache_faithful (foldl step cache roles)) as H.
  { induction roles as [|role roles IH]; intros cache Hc; [done|]. cbn [foldl]. apply IH.
    by apply Hstep. }
  apply H. intros role contract Hl. by rewrite lookup_empty in Hl.
Qed.

(** A role without a contract of its own may call nothing. *)
Lemma unknown_role_denied role cache tool :
  is_ok (load_for_role role cache).2 = false →
  ∃ c, (load_for_role_with_mode role ContractLoadMode.RestrictedFallback cache).2 = Ok c
    ∧ AC.permits_tool tool c = false.
Proof.
  unfold load_for_role_with_mode. destruct (load_for_role role cache) as [cache' [c|e]]; [done|].
  intros _. by eexists.
Qed.
End loading.

(** ** What a contract promises *)

Section promises.
Context {J : Json} {JN : JsonNumber}.

Definition invariant_holds (call : ToolCall) (ctx : ToolContext) (i : Invariant) : Prop :=
  match i with
  | Invariant.MaxTokensPerTurn max => ∀ n, estimated_tokens call = Some n → (n ≤ max)%N
  | Invariant.RequireGateBeforeCommit =>
      is_commit_like_call call = true → ∃ a, a ∈ TC.external_actions ctx ∧ is_gate_pass a = true
  | Invariant.NoNetworkAccess => is_network_like_call call = false
  end.

(** [n] failures end the record. *)
Definition failures_end (actions : list ExternalAction) (n : nat) : Prop :=
  ∃ before last, actions = before ++ last ∧ length last = n
    ∧ Forall (λ a, is_failure_action a = true) last
    ∧ match list.last before with Some a => is_failure_action a = false | None => True end.

Definition rule_holds (call : ToolCall) (ctx : ToolContext) (r : GovernanceRule) : Prop :=
  match r with
  | GR.MaxToolCallsPerTurn max =>
      (N.of_nat (S (length (TC.external_actions ctx))) ≤ max)%N ∨ (u32_MAX ≤ max)%N
  | GR.ForbiddenTools tools => TL.name call ∉ tools
  | GR.MaxCostPerTurn max => ∀ cost, observed_cost_usd ctx = Some cost → F64.gt cost max = false
  | GR.MaxConsecutiveFailures max =>
      ∃ n, failures_end (TC.external_actions ctx) n ∧ (N.min (N.of_nat n) u32_MAX < max)%N
  | GR.RequireToolBeforeEdit tool =>
      TL.name call ∈ EDIT_TOOLS → ∃ a, a ∈ TC.external_actions ctx ∧ is_prior tool a = true
  end.

Lemma first_violation_ok {A} (check : A → result unit ContractViolation) l :
  is_ok (first_violation check l) = true ↔ ∀ a, a ∈ l → is_ok (check a) = true.
Proof.
  induction l as [|a l IH]; cbn [first_violation].
  { split; [|done]. by intros _ a Ha%elem_of_nil. }
  setoid_rewrite elem_of_cons. destruct (check a) as [[]|v] eqn:E.
  - rewrite IH. split; [|naive_solver]. intros H b [->|Hb]; [by rewrite E|by apply H].
  - split; [done|]. intros H. specialize (H a (or_introl eq_refl)). by rewrite E in H.
Qed.

Lemma existsb_action f (l : list ExternalAction) :
  existsb f l = true ↔ ∃ a, a ∈ l ∧ f a = true.
Proof. rewrite existsb_exists. by setoid_rewrite <- list_elem_of_In. Qed.

Lemma check_invariant_ok role call ctx i :
  is_ok (check_invariant role call ctx i) = true ↔ invariant_holds call ctx i.
Proof.
  destruct i as [max| |]; cbn [check_invariant invariant_holds].
  - destruct (estimated_tokens call) as [n|]; [|naive_solver].
    destruct (N.ltb_spec max n) as [Hlt|Hle]; cbn [is_ok].
    + split; [done|]. intros H. specialize (H n eq_refl). lia.
    + split; [|done]. by intros _ m [= <-].
  - rewrite <- existsb_action. fold (has_gate_approval ctx).
    destruct (is_commit_like_call call), (has_gate_approval ctx); cbn; naive_solver.
  - destruct (is_network_like_call call); cbn; naive_solver.
Qed.

Lemma leading_failures_spec l count :
  (count ≤ u32_MAX)%N →
  ∃ first rest, l = first ++ rest ∧ Forall (λ a, is_failure_action a = true) first
    ∧ match rest with a :: _ => is_failure_action a = false | [] => True end
    ∧ leading_failures l count = N.min (count + N.of_nat (length first)) u32_MAX.
Proof.
  revert count. induction l as [|a l IH]; intros count Hc; cbn [leading_failures].
  { exists [], []. split_and!; [done|constructor|done|]. cbn. lia. }
  destruct (is_failure_action a) eqn:E.
  - destruct (IH (sat_add32 count 1)) as (first & rest & -> & Hf & Hr & ->);
      [apply sat_add32_bound|].
    exists (a :: first), rest. split_and!; [done|by constructor|done|].
    unfold sat_add32. cbn [length]. lia.
  - exists [], (a :: l). split_and!; [done|constructor|done|]. cbn [length]. lia.
Qed.

Lemma trailing_failures_spec actions :
  ∃ n, failures_end actions n
    ∧ count_trailing_failures actions = N.min (N.of_nat n) u32_MAX.
Proof.
  destruct (leading_failures_spec (reverse actions) 0) as (first & rest & E & Hf & Hr & Hn); [lia|].
  exists (length first). split; [|unfold count_trailing_failures; rewrite Hn; f_equal; lia].
  exists (reverse rest), (reverse first). apply (f_equal reverse) in E.
  rewrite reverse_involutive, reverse_app in E. split_and!; [done|by rewrite length_reverse| |].
  - by apply Forall_reverse.
  - rewrite last_reverse. by destruct rest.
Qed.

Lemma failures_end_unique actions n m :
  failures_end actions n → failures_end actions m → n = m.
Proof.
  assert (∀ n m, failures_end actions n → failures_end actions m → ¬ (n < m)%nat) as H.
  { clear n m. intros n m (b1 & l1 & E1 & <- & Hf1 & Hb1) (b2 & l2 & E2 & <- & Hf2 & _) Hlt.
    rewrite E1 in E2. assert (length b2 < length b1)%nat as Hl.
    { apply (f_equal length) in E2. rewrite !length_app in E2. lia. }
    assert (b1 = b2 ++ take (length b1 - length b2) l2) as E.
    { apply (f_equal (take (length b1))) in E2. rewrite take_app_length in E2.
      by rewrite take_app_ge in E2 by lia. }
    rewrite E in Hb1. rewrite last_app in Hb1.
    destruct (list.last (take (length b1 - length b2) l2)) as [a|] eqn:Ea.
    - assert (a ∈ l2) as Ha.
      { apply last_Some_elem_of in Ea. eapply elem_of_take in Ea as (i & Hi & _).
        by eapply list_elem_of_lookup_2. }
      rewrite Forall_forall in Hf2. apply Hf2 in Ha. congruence.
    - apply last_None in Ea. apply (f_equal length) in Ea. rewrite length_take in Ea.
      apply (f_equal length) in E2. rewrite !length_app in E2. cbn in Ea. lia. }
  intros Hn Hm. pose proof (H n m Hn Hm). pose proof (H m n Hm Hn). lia.
Qed.

Lemma check_rule_ok role call ctx r :
  is_ok (check_rule role call ctx r) = true ↔ rule_holds call ctx r.
Proof.
  destruct r as [max|tools|max|max|tool]; cbn [check_rule rule_holds].
  - unfold observed_calls, sat_add32.
    destruct (N.ltb_spec max (N.min
      (N.min (N.of_nat (length (TC.external_actions ctx))) u32_MAX + 1) u32_MAX)) as [H|H];
      cbn [is_ok]; [|split; [|done]; intros _; lia].
    split; [done|]. intros [Hl|Hl]; lia.
  - destruct (existsb _ tools) eqn:E; cbn [is_ok].
    + apply existsb_exists in E as (x & Hx%list_elem_of_In & ->%bool_decide_eq_true). naive_solver.
    + split; [|done]. intros _ Hx. apply not_true_iff_false in E. destruct E.
      apply existsb_exists. exists (TL.name call). rewrite <- list_elem_of_In. split; [done|].
      by apply bool_decide_eq_true.
  - destruct (observed_cost_usd ctx) as [cost|]; [|naive_solver].
    destruct (F64.gt cost max) eqn:E; cbn [is_ok].
    + split; [done|]. intros H. by rewrite (H cost eq_refl) in E.
    + split; [|done]. by intros _ c [= <-].
  - destruct (trailing_failures_spec (TC.external_actions ctx)) as (n & Hn & ->).
    destruct (N.leb_spec max (N.min (N.of_nat n) u32_MAX)); cbn [is_ok]; split; try done.
    + intros (m & Hm & Hlt). rewrite (failures_end_unique _ _ _ Hm Hn) in Hlt. lia.
    + intros _. by exists n.
  - rewrite <- existsb_action. fold (has_prior_tool ctx tool).
    destruct (bool_decide_reflect (TL.name call ∈ EDIT_TOOLS)), (has_prior_tool ctx tool);
      cbn; naive_solver.
Qed.

(** The tools a contract leaves to its role. *)
Definition tool_granted (tool : string) (c : AgentContract) : Prop :=
  (∀ allowed, AC.allowed_tools c = Some allowed → tool ∈ allowed)
  ∧ ∀ tools, GR.ForbiddenTools tools ∈ AC.governance c → tool ∉ tools.

Lemma permits_tool_spec tool c : AC.permits_tool tool c = true ↔ tool_granted tool c.
Proof.
  assert (negb (existsb (AC.forbids tool) (AC.governance c)) = true ↔
    ∀ tools, GR.ForbiddenTools tools ∈ AC.governance c → tool ∉ tools) as Hf.
  { rewrite negb_true_iff. rewrite <- not_true_iff_false, existsb_exists. split.
    - intros H tools Hr Ht. apply H. exists (GR.ForbiddenTools tools).
      rewrite <- list_elem_of_In. split; [done|]. cbn. apply existsb_exists. exists tool.
      rewrite <- list_elem_of_In. split; [done|]. by apply bool_decide_eq_true.
    - intros H (r & Hr%list_elem_of_In & Hb). destruct r as [|tools| | |]; try done. cbn in Hb.
      apply existsb_exists in Hb as (x & Hx%list_elem_of_In & ->%bool_decide_eq_true).
      by eapply H. }
  unfold AC.permits_tool, tool_granted. destruct (AC.allowed_tools c) as [allowed|].
  - destruct (existsb (λ name, string_eqb name tool) allowed) eqn:E.
    + rewrite Hf. apply existsb_exists in E as (x & Hx%list_elem_of_In & ->%bool_decide_eq_true).
      naive_solver.
    + split; [done|]. intros [Ha _]. specialize (Ha allowed eq_refl).
      apply not_true_iff_false in E. destruct E. apply existsb_exists. exists tool.
      rewrite <- list_elem_of_In. split; [done|]. by apply bool_decide_eq_true.
  - rewrite Hf. naive_solver.
Qed.

(** A call passes a contract exactly when the role has the tool, the invariants hold of the call,
    and the rules of the turn. *)
Lemma contract_spec call ctx c :
  is_ok (check_contract_pre call ctx c) = true ↔
    tool_granted (TL.name call) c
    ∧ (∀ i, i ∈ AC.invariants c → invariant_holds call ctx i)
    ∧ (∀ r, r ∈ AC.governance c → rule_holds call ctx r).
Proof.
  unfold check_contract_pre. rewrite <- permits_tool_spec.
  destruct (AC.permits_tool (TL.name call) c); cbn [negb]; [|naive_solver].
  pose proof (first_violation_ok (check_invariant (AC.role c) call ctx) (AC.invariants c)) as Hi.
  setoid_rewrite check_invariant_ok in Hi. rewrite <- Hi.
  destruct (first_violation (check_invariant _ call ctx) _) as [[]|]; cbn [is_ok]; [|naive_solver].
  rewrite first_violation_ok. setoid_rewrite check_rule_ok. naive_solver.
Qed.

Lemma first_violation_err {A} (check : A → result unit ContractViolation) l v :
  first_violation check l = Err v → ∃ a, a ∈ l ∧ check a = Err v.
Proof.
  induction l as [|a l IH]; cbn [first_violation]; [done|]. destruct (check a) as [[]|v'] eqn:E.
  - intros H. destruct (IH H) as (b & Hb & Hc). exists b. split; [by right|done].
  - intros [= <-]. exists a. split; [by left|done].
Qed.

(** The rule of forbidden tools never speaks: the list of allowed tools does before it. *)
Theorem forbidden_tools_silent call ctx c v :
  check_contract_pre call ctx c = Err v → CV.rule v ≠ "ForbiddenTools".
Proof.
  unfold check_contract_pre. destruct (AC.permits_tool (TL.name call) c) eqn:E; cbn [negb];
    [|by intros [= <-]].
  destruct (first_violation (check_invariant _ call ctx) _) as [[]|v'] eqn:Ei.
  - intros (r & Hr & Hc)%first_violation_err.
    assert (∀ tools, r ≠ GR.ForbiddenTools tools) as Hn.
    { intros tools ->. apply permits_tool_spec in E as [_ Hf]. specialize (Hf tools Hr).
      pose proof (check_rule_ok (AC.role c) call ctx (GR.ForbiddenTools tools)) as H.
      rewrite Hc in H. by apply H in Hf. }
    destruct r as [max|tools|max|max|tool]; cbn [check_rule] in Hc.
    + destruct (_ <? _)%N; [by injection Hc as <-|done].
    + by destruct (Hn tools).
    + destruct (observed_cost_usd ctx); [|done]. destruct (F64.gt _ _);
      [by injection Hc as <-|done].
    + destruct (_ <=? _)%N; [by injection Hc as <-|done].
    + destruct (_ && _); [by injection Hc as <-|done].
  - intros [= ->]. apply first_violation_err in Ei as (i & _ & Hc).
    destruct i; cbn [check_invariant] in Hc.
    + destruct (estimated_tokens call); [|done]. destruct (_ <? _)%N; [by injection Hc as <-|done].
    + destruct (_ && _); [by injection Hc as <-|done].
    + destruct (is_network_like_call call); [by injection Hc as <-|done].
Qed.

(** Nothing in the program adds to the record of external actions; while it is empty no turn has
    too many calls, costs or failures, and what needs an earlier action is always refused. *)
Theorem empty_record call ctx r :
  TC.external_actions ctx = [] →
  match r with
  | GR.MaxToolCallsPerTurn max | GR.MaxConsecutiveFailures max => (1 ≤ max)%N →
    rule_holds call ctx r
  | GR.MaxCostPerTurn _ => rule_holds call ctx r
  | GR.RequireToolBeforeEdit _ => TL.name call ∈ EDIT_TOOLS → ¬ rule_holds call ctx r
  | GR.ForbiddenTools _ => True
  end.
Proof.
  intros He. destruct r; cbn [rule_holds]; rewrite ?He.
  - cbn. lia.
  - done.
  - unfold observed_cost_usd. rewrite He. by vm_compute.
  - intros Hm. exists 0%nat. split; [by exists [], []|]. cbn. lia.
  - intros Ht H. destruct (H Ht) as (a & Ha & _). by apply elem_of_nil in Ha.
Qed.
End promises.

(** ** The bundled contracts *)

#[local] Existing Instance simple_Json.
#[local] Instance no_numbers : JsonNumber := {| json_as_f64 _ := None |}.

Definition implementer : AgentContract :=
  AC.mk "implementer" [Invariant.MaxTokensPerTurn 12000; Invariant.RequireGateBeforeCommit]
    [GR.MaxToolCallsPerTurn 8; GR.ForbiddenTools ["web_fetch"; "web_search"];
     GR.RequireToolBeforeEdit "read_file"]
    [RA.mk "contract_violation" RecoveryKind.Abort] None.
Definition auditor : AgentContract :=
  AC.mk "auditor" [Invariant.NoNetworkAccess; Invariant.MaxTokensPerTurn 12000]
    [GR.MaxToolCallsPerTurn 8;
     GR.ForbiddenTools ["edit_file"; "write_file"; "multi_edit"; "apply_patch"; "notebook_edit"]]
    [RA.mk "attempted_edit" RecoveryKind.Abort] None.

Definition fresh_context : ToolContext :=
  TC.mk "/work" 60000 (TPm.mk true true true true true) None None [].
Definition simple_args (name : string) (args : list (string * simple_json)) : ToolCall :=
  TL.mk "call" name (JObj args) 0.

(** The implementer may not edit, nor commit, as long as nothing is recorded; the recovery of the
    auditor does not see its attempted edits. *)
Example contracts_at_work :
  let edit := simple_args "edit_file" [("file_path", JStr "a.rs")] in
  is_ok (check_contract_pre (simple_args "read_file" []) fresh_context implementer) = true
  ∧ is_ok (check_contract_pre edit fresh_context implementer) = false
  ∧ is_ok (check_contract_pre (simple_args "bash" [("command", JStr "git commit -m x")])
             fresh_context implementer) = false
  ∧ match check_contract_pre edit fresh_context auditor with
    | Err v => AC.applicable_recovery (TR.Err (CV.into_tool_error v)) auditor = None
    | Ok _ => False
    end.
Proof. by vm_compute. Qed.

(** Only the first of the texts of a call is counted, and none of an edit. *)
Example tokens_not_counted :
  let text := JStr (String.string_of_list_ascii (replicate 80 "x"%char)) in
  estimated_tokens (simple_args "write_file" [("content", text)]) = Some 20%N
  ∧ estimated_tokens (simple_args "ask" [("content", JStr "x"); ("prompt", text)]) = Some 1%N
  ∧ estimated_tokens (simple_args "edit_file" [("new_string", text)]) = None.
Proof. by vm_compute. Qed.

Lemma forbidden_tools_silent_witness :
  ∃ v, check_contract_pre (simple_args "edit_file" []) fresh_context auditor = Err v
    ∧ CV.rule v ≠ "ForbiddenTools".
Proof.
  eexists. split; [by vm_compute|].
  apply (forbidden_tools_silent (simple_args "edit_file" []) fresh_context auditor). by vm_compute.
Defined.

Lemma empty_record_witness :
  ¬ rule_holds (simple_args "edit_file" []) fresh_context (GR.RequireToolBeforeEdit "read_file").
Proof.
  apply (empty_record (simple_args "edit_file" []) fresh_context
    (GR.RequireToolBeforeEdit "read_file") eq_refl). cbn. unfold EDIT_TOOLS. set_solver.
Defined.
