(* ===== verification/SafetyLayer.v ===== *)
(** * The safety layer of agents (crates/roko-agent/src/safety/mod.rs, scrub.rs)

    What every tool call and subprocess passes before it runs: the guards, in the order of the
    code, with the state they share.  [None] is a panic of the temporal monitor. *)

From S2P Require Import Prelude Text Bytes EventLog Diagnosis Permit Sandbox Tool GitGuard.
From S2P Require Import BashGuard RateLimit Temporal Network PathGuard Warrant Risk Contract.
From Stdlib Require Import SpecFloat.

(** ** Secrets in tool output (crates/roko-agent/src/safety/scrub.rs)

    Every match of a list of patterns is replaced.  Regular expressions are those of a library,
    with the options they are built with. *)

Definition SCRUB_MARKER : string := "[REDACTED]".

Module Pattern.
Record t : Type := mk {
  re : string;
  multi_line : bool;
  dot_matches_new_line : bool;
  case_insensitive : bool;
  replace_group : option nat;
}.
Definition whole (re : string) : t := mk re false false false None.
End Pattern.
Abbreviation Pattern := Pattern.t.
Module Pat := Pattern.

(** Whether [Regex::new] accepts a text, [replace_all], and [captures_iter]: the spans of the
    matches and of a group of each. *)
Class ScrubRegex := {
  re_valid : string → bool;
  re_replace_all : Pattern → string → string → string;
  re_captures : Pattern → nat → string → list ((nat * nat) * option (nat * nat));
}.

Definition default_patterns : list Pattern :=
  [Pat.whole "\bsk-ant-api\d{2}-[A-Za-z0-9_-]{80,}\b";
   Pat.whole "\bsk-(?:proj-)?[A-Za-z0-9_-]{20,}\b";
   Pat.whole "\bAKIA[0-9A-Z]{16}\b";
   Pat.whole "\bASIA[0-9A-Z]{16}\b";
   Pat.whole "\bghp_[A-Za-z0-9]{36}\b";
   Pat.whole "\bghs_[A-Za-z0-9]{36}\b";
   Pat.whole "\bgho_[A-Za-z0-9]{36}\b";
   Pat.whole "\bghu_[A-Za-z0-9]{36}\b";
   Pat.whole "\bghr_[A-Za-z0-9]{36}\b";
   Pat.whole "\bglpat-[A-Za-z0-9_-]{20,}\b";
   Pat.whole "\bxox[abpsr]-[A-Za-z0-9-]{10,}\b";
   Pat.whole "\beyJ[A-Za-z0-9_-]+\.eyJ[A-Za-z0-9_-]+\.[A-Za-z0-9_-]+\b";
   Pat.mk ("-----BEGIN (?:RSA |EC |DSA |OPENSSH |PGP )?PRIVATE KEY-----[\s\S]*?-----END "
     +:+ "(?:RSA |EC |DSA |OPENSSH |PGP )?PRIVATE KEY-----") true true false None;
   Pat.mk ("^\s*(PASSWORD|SECRET|TOKEN|API_KEY|APIKEY|PRIVATE_KEY|DATABASE_URL)"
     +:+ "\s*=\s*(\S+)") true false true (Some 2%nat)].

Module ScrubPolicy.
Record t : Type := mk { extra_patterns : list string; disable_defaults : bool }.
Definition default : t := mk [] false.
End ScrubPolicy.
Abbreviation ScrubPolicy := ScrubPolicy.t.
Module SPo := ScrubPolicy.

(** The bytes from [a] up to [b]. *)
Definition bytes_between (a b : nat) (s : string) : list N := take (b - a) (drop a (codes s)).

Section scrub.
Context {SR : ScrubRegex}.

(** The text from [last] on, with the groups replaced. *)
Fixpoint replace_groups (text : string) (last : nat)
    (matches : list ((nat * nat) * option (nat * nat))) : list N :=
  match matches with
  | [] => drop last (codes text)
  | ((start, stop), group) :: rest =>
      bytes_between last start text
      ++ match group with
         | Some (a, b) => bytes_between start a text ++ codes SCRUB_MARKER ++ bytes_between b
           stop text
         | None => bytes_between start stop text
         end
      ++ replace_groups text stop rest
  end.

Definition apply_pattern (text : string) (pattern : Pattern) : string :=
  match Pat.replace_group pattern with
  | None => re_replace_all pattern text SCRUB_MARKER
  | Some group => of_codes (replace_groups text 0 (re_captures pattern group text))
  end.

Definition scrub_secrets (content : string) (policy : ScrubPolicy) : string :=
  let result :=
    if SPo.disable_defaults policy then content else foldl apply_pattern content default_patterns in
  foldl (λ result raw, if re_valid raw then apply_pattern result (Pat.whole raw) else result)
    result (SPo.extra_patterns policy).

(** The spans of the matches follow each other, and groups lie within them. *)
Fixpoint spans_from (last len : nat) (matches : list ((nat * nat) * option (nat * nat))) : Prop :=
  match matches with
  | [] => (last ≤ len)%nat
  | ((start, stop), group) :: rest =>
      (last ≤ start)%nat ∧ (start ≤ stop)%nat
      ∧ match group with Some (a, b) => (start ≤ a)%nat ∧ (a ≤ b)%nat ∧ (b ≤ stop)%nat |
        None => True end
      ∧ spans_from stop len rest
  end.

(** The spans of the groups, to cut out. *)
Definition group_spans (matches : list ((nat * nat) * option (nat * nat))) : list (nat * nat) :=
  omap snd matches.

(** A text with spans replaced by the marker. *)
Fixpoint redact (text : string) (last : nat) (spans : list (nat * nat)) : list N :=
  match spans with
  | [] => drop last (codes text)
  | (a, b) :: rest => bytes_between last a text ++ codes SCRUB_MARKER ++ redact text b rest
  end.

Lemma bytes_between_app a b c s :
  (a ≤ b)%nat → (b ≤ c)%nat → bytes_between a c s = bytes_between a b s ++ bytes_between b c s.
Proof.
  intros Hab Hbc. unfold bytes_between.
  replace (c - a)%nat with ((b - a) + (c - b))%nat by lia.
  rewrite <- take_take_drop, drop_drop. by replace (a + (b - a))%nat with b by lia.
Qed.

Lemma drop_between a b s : (a ≤ b)%nat → drop a (codes s) = bytes_between a b s ++ drop b (codes s).
Proof.
  intros Hab. unfold bytes_between. rewrite <- (take_drop (b - a) (drop a (codes s))) at 1.
  rewrite drop_drop. by replace (a + (b - a))%nat with b by lia.
Qed.

(** Of an assignment, exactly the value is replaced; all other text stays. *)
Lemma replace_groups_spec text last matches :
  spans_from last (length (codes text)) matches →
  replace_groups text last matches = redact text last (group_spans matches).
Proof.
  assert (∀ a b spans, (a ≤ b)%nat → match spans with (x, _) :: _ => (b ≤ x)%nat | [] => True end →
    redact text a spans = bytes_between a b text ++ redact text b spans) as Hskip.
  { intros a b [|[x y] spans] Hab Hx; cbn [redact]; [by apply drop_between|].
    by rewrite (bytes_between_app a b x), <- app_assoc by done. }
  assert (∀ last matches, spans_from last (length (codes text)) matches →
    match group_spans matches with (x, _) :: _ => (last ≤ x)%nat | [] => True end) as Hfirst.
  { clear. intros last matches. revert last.
    induction matches as [|[[start stop] group] rest IH]; intros last H; [done|].
    destruct H as (Hl & Hs & Hg & Hr). cbn. destruct group as [[a b]|]; [lia|].
    apply IH in Hr. unfold group_spans in Hr. destruct (omap snd rest) as [|[x y] l]; [done|lia]. }
  revert last. induction matches as [|[[start stop] group] rest IH]; intros last H; [done|].
  pose proof (Hfirst _ _ H) as Hf. destruct H as (Hl & Hs & Hg & Hr).
  cbn [replace_groups]. rewrite (IH stop Hr). pose proof (Hfirst _ _ Hr) as Hfr.
  destruct group as [[a b]|].
  - destruct Hg as (Ha & Hab & Hb). change (group_spans ((start, stop, Some (a, b)) :: rest))
      with ((a, b) :: group_spans rest). cbn [redact].
    rewrite (bytes_between_app last start a), (Hskip b stop) by done.
    by rewrite <- !app_assoc.
  - change (group_spans ((start, stop, None) :: rest)) with (group_spans rest) in *.
    rewrite (Hskip last start), (Hskip start stop) by (try done;
      destruct (group_spans rest) as [|[x y] ?]; (done || lia)).
    done.
Qed.
End scrub.

(** ** Configuration (roko-core/src/config/agent.rs)

    Of a role's section, the fields the layer reads. *)

Module AgentBudget.
Record t : Type := mk { max_tokens_per_turn : option N; max_cost_usd_cents_per_turn : option N }.
Definition default : t := mk None None.

Definition max_cost_usd_per_turn (b : t) : option F64.t :=
  (λ cents, F64.div (F64.of_N cents) (F64.of_Z 100)) <$> max_cost_usd_cents_per_turn b.
End AgentBudget.
Abbreviation AgentBudget := AgentBudget.t.
Module AB := AgentBudget.

(** [f64::round] of a number that is not negative, as an integer. *)
Definition round_nonneg (f : F64.t) : N :=
  match f with
  | S754_finite false m e =>
      match e with
      | Zneg e' =>
          let q := N.shiftr (Npos m) (Npos e') in
          let r := (Npos m - N.shiftl q (Npos e'))%N in
          if (N.shiftl 1 (Npos e') <=? 2 * r)%N then (q + 1)%N else q
      | e => N.shiftl (Npos m) (Z.to_N e)
      end
  | _ => 0
  end.

(** The value of a binary32 number in binary64. *)
Definition f64_from_f32 (f : F32.t) : F64.t :=
  match f with
  | S754_finite s m e => binary_normalize 53 1024 (if s then Zneg m else Zpos m) e false
  | f => f
  end.

Definition usd_to_cents_per_turn (usd : F32.t) : option N :=
  let usd := f64_from_f32 usd in
  match usd with
  | S754_zero false | S754_finite false _ _ =>
      let cents := round_nonneg (F64.mul usd (F64.of_Z 100)) in
      if (u32_MAX <? cents)%N then None else Some cents
  | _ => None
  end.

Module RoleOverride.
Record t : Type := mk {
  role : option string;
  tools : option (list string);
  budget : option AgentBudget;
  turn_budget_usd : option F32.t;
}.

Definition resolved_role_name (section_name : string) (o : t) : string :=
  match utf8_trim <$> role o with
  | Some r => if str_is_empty r then section_name else r
  | None => section_name
  end.

Definition effective_budget (o : t) : option AgentBudget :=
  let budget := stdpp.option.default AB.default (budget o) in
  let cents :=
    match AB.max_cost_usd_cents_per_turn budget with
    | Some c => Some c
    | None => turn_budget_usd o ≫= usd_to_cents_per_turn
    end in
  match AB.max_tokens_per_turn budget, cents with
  | None, None => None
  | tokens, cents => Some (AB.mk tokens cents)
  end.
End RoleOverride.
Abbreviation RoleOverride := RoleOverride.t.
Module RO := RoleOverride.

(** ** Whitelists *)

Definition regex_special (b : N) : bool :=
  existsb (N.eqb b) (codes ".+()[]{}^$|\").

Fixpoint glob_body (l : list N) : list N :=
  match l with
  | [] => []
  | b :: l' =>
      (if (b =? 42)%N then codes ".*" else if regex_special b then [92;
        b]%N else [b]) ++ glob_body l'
  end.
Definition glob_to_regex (pattern : string) : string :=
  "^" +:+ of_codes (glob_body (codes pattern)) +:+ "$".

Definition ToolWhitelist : Type := list string.
Definition from_patterns (patterns : list string) : ToolWhitelist := glob_to_regex <$> patterns.
Definition whitelist_matches {RX : RegexLib} (tool : string) (w : ToolWhitelist) : bool :=
  existsb (λ re, regex_is_match re tool) w.

Definition role_override_keys (section_name : string) (o : RoleOverride) : list string :=
  let resolved := RO.resolved_role_name section_name o in
  if string_eqb resolved section_name then [section_name] else [section_name; resolved].

Definition insert_all {V} (keys : list string) (v : V) (m : gmap string V) : gmap string V :=
  foldl (λ m k, <[k := v]> m) m keys.

Section config.
Context {HI : HashIter}.

Definition build_role_tools (roles : gmap string RoleOverride) : gmap string ToolWhitelist :=
  foldl (λ m (x : string * RoleOverride),
    match RO.tools x.2 with
    | Some tools => insert_all (role_override_keys x.1 x.2) (from_patterns tools) m
    | None => m
    end) ∅ (hash_iter roles).

Definition build_role_overrides_map (roles : gmap string RoleOverride) : gmap string RoleOverride :=
  foldl (λ m (x : string * RoleOverride), insert_all (role_override_keys x.1 x.2) x.2 m) ∅
    (hash_iter roles).
End config.

(** ** The layer *)

Module SafetyLayer.
Record t : Type := mk {
  bash_policy : BashPolicy;
  git_policy : GitPolicy;
  network_policy : NetworkPolicy;
  path_policy : PathPolicy;
  scrub_policy : ScrubPolicy;
  rate_limiter : option RateLimiter;
  safety_budget : option SafetyBudgetTracker;
  role : string;
  contract : AgentContract;
  warrant : option AgentWarrant;
  role_tools : gmap string ToolWhitelist;
  role_overrides : gmap string RoleOverride;
  temporal_monitor : option TemporalMonitor;
}.

Definition with_defaults : t :=
  mk BP.with_defaults GP.default NP.default PP.default SPo.default (Some RL.with_defaults) None
    "default" (AC.hardened_default "default") None ∅ ∅ None.

Definition set_rate_limiter (r : option RateLimiter) (l : t) : t :=
  mk (bash_policy l) (git_policy l) (network_policy l) (path_policy l) (scrub_policy l) r
    (safety_budget l) (role l) (contract l) (warrant l) (role_tools l) (role_overrides l)
    (temporal_monitor l).
Definition set_safety_budget (b : option SafetyBudgetTracker) (l : t) : t :=
  mk (bash_policy l) (git_policy l) (network_policy l) (path_policy l) (scrub_policy l)
    (rate_limiter l) b (role l) (contract l) (warrant l) (role_tools l) (role_overrides l)
    (temporal_monitor l).
Definition set_temporal_monitor (m : option TemporalMonitor) (l : t) : t :=
  mk (bash_policy l) (git_policy l) (network_policy l) (path_policy l) (scrub_policy l)
    (rate_limiter l) (safety_budget l) (role l) (contract l) (warrant l) (role_tools l)
    (role_overrides l) m.
Definition set_contract (r : string) (c : AgentContract) (l : t) : t :=
  mk (bash_policy l) (git_policy l) (network_policy l) (path_policy l) (scrub_policy l)
    (rate_limiter l) (safety_budget l) r c (warrant l) (role_tools l) (role_overrides l)
    (temporal_monitor l).
Definition set_roles (tools : gmap string ToolWhitelist) (overrides : gmap string RoleOverride)
    (l : t) : t :=
  mk (bash_policy l) (git_policy l) (network_policy l) (path_policy l) (scrub_policy l)
    (rate_limiter l) (safety_budget l) (role l) (contract l) (warrant l) tools overrides
    (temporal_monitor l).

Definition from_config {HI : HashIter} (roles : gmap string RoleOverride) : t :=
  set_roles (build_role_tools roles) (build_role_overrides_map roles) with_defaults.

Definition with_warrant (w : AgentWarrant) (l : t) : t :=
  mk (bash_policy l) (git_policy l) (network_policy l) (path_policy l) (scrub_policy l)
    (rate_limiter l) (safety_budget l) (role l) (contract l) (Some w) (role_tools l)
    (role_overrides l) (temporal_monitor l).
Definition with_safety_budget (b : SafetyBudgetTracker) (l : t) : t := set_safety_budget (Some b) l.
Definition with_temporal_monitor (m : TemporalMonitor) (l : t) : t :=
  set_temporal_monitor (Some m) l.
Definition with_contract (c : AgentContract) (l : t) : t := set_contract (AC.role c) c l.

(** The contract of a role, with what the configuration says of it; the cache of contracts is
    that of the process. *)
Definition contract_for_role {CA : ContractAssets} (r : string)
    (cache : gmap string AgentContract) (l : t) : gmap string AgentContract * AgentContract :=
  let '(cache, loaded) := load_for_role_with_mode r ContractLoadMode.RestrictedFallback cache in
  let contract := match loaded with Ok c => c | Err _ => AC.restricted r end in
  let contract :=
    if bool_decide (AC.allowed_tools contract = Some [])
       && (bool_decide (is_Some (role_tools l !! r)) || bool_decide (is_Some (role_overrides l !!
         r)))
    then AC.with_allowed_tools None contract else contract in
  match role_overrides l !! r ≫= RO.effective_budget with
  | Some budget =>
      (cache, AC.mk (AC.role contract)
        (AC.invariants contract
           ++ match AB.max_tokens_per_turn budget with
              | Some n => [Invariant.MaxTokensPerTurn n] | None => [] end)
        (AC.governance contract
           ++ match AB.max_cost_usd_per_turn budget with
              | Some c => [GR.MaxCostPerTurn c] | None => [] end)
        (AC.recovery contract) (AC.allowed_tools contract))
  | None => (cache, contract)
  end.

Definition with_role {CA : ContractAssets} (r : string) (cache : gmap string AgentContract) (l :
  t) :
    gmap string AgentContract * t :=
  let '(cache, c) := contract_for_role r cache l in (cache, set_contract r c l).
End SafetyLayer.
Abbreviation SafetyLayer := SafetyLayer.t.
Module SL := SafetyLayer.

(** ** Guards *)

Definition BASH_TOOLS : list string := ["bash"; "run_tests"].
Definition FILE_TOOLS : list string :=
  ["read_file"; "write_file"; "edit_file"; "multi_edit"; "apply_patch"; "notebook_edit"; "ls";
   "glob"; "grep"].

(** A guard reads and changes the layer, and admits or refuses; the next guard runs only after
    it admits. *)
Definition guard : Type := SafetyLayer → option (SafetyLayer * result unit ToolError).
Definition and_then (g1 g2 : guard) : guard := λ l,
  match g1 l with
  | Some (l', Ok _) => g2 l'
  | r => r
  end.
Notation "g1 ;; g2" := (and_then g1 g2) (at level 100, right associativity).

Definition pure_guard (f : SafetyLayer → result unit ToolError) : guard := λ l, Some (l, f l).

(** The debug text of a capability. *)
Class DebugCapability := { debug_capability : Capability → string }.

Section guards.
Context {J : Json} {JN : JsonNumber} {RX : RegexLib} {UL : UrlLib} {FS : FileSystem}.
Context {DC : DebugCapability}.
(** The earliest instant of the platform. *)
Context (epoch : Z).

Definition str_arg (key : string) (call : ToolCall) : option string :=
  json_get key (TL.arguments call) ≫= json_as_str.

(** The argument that names a path: the first of three that is present, if it is a text. *)
Definition path_arg (call : ToolCall) : option string :=
  or_else (or_else (json_get "file_path" (TL.arguments call)) (json_get "path" (TL.arguments call)))
    (json_get "pattern" (TL.arguments call)) ≫= json_as_str.

Definition option_list {A} (o : option A) : list A := match o with Some a => [a] | None => [] end.

Definition required_capabilities (call : ToolCall) (ctx : ToolContext) (policy : PathPolicy) :
    list Capability :=
  let name := TL.name call in
  [Cap.Tool name]
  ++ (if bool_decide (name ∈ BASH_TOOLS) then
        option_list (str_arg "command" call ≫= exec_capability_from_command) else [])
  ++ (if bool_decide (name ∈ NETWORK_TOOLS) then
        option_list (str_arg "url" call ≫= network_capability_from_url) else [])
  ++ (if bool_decide (name ∈ FILE_TOOLS) then
        match path_arg call with
        | Some arg =>
            match canonicalize_with_policy (TC.worktree_path ctx) arg policy with
            | Ok canonical =>
                [if bool_decide (name ∈ EDIT_TOOLS) then Cap.WritePath (CanonicalPath.absolute
                  canonical)
                 else Cap.ReadPath (CanonicalPath.absolute canonical)]
            | Err _ => []
            end
        | None => []
        end
      else []).

Definition check_whitelist (tool : string) : guard := pure_guard (λ l,
  match SL.role_tools l !! SL.role l with
  | Some whitelist =>
      if negb (whitelist_matches tool whitelist) then
        Err (TE.PermissionDenied ("tool `" +:+ tool +:+ "` is not allowed for role `"
          +:+ SL.role l +:+ "`"))
      else Ok tt
  | None => Ok tt
  end).

Definition check_rate (subject : string) (now : Z) : guard := λ l,
  match SL.rate_limiter l with
  | Some limiter =>
      let '(limiter, r) :=
        RL.check_and_record epoch (RK.mk (SL.role l) subject) now limiter in
      Some (SL.set_rate_limiter (Some limiter) l, r)
  | None => Some (l, Ok tt)
  end.

Definition check_warrant (call : ToolCall) (ctx : ToolContext) : guard := pure_guard (λ l,
  match SL.warrant l with
  | Some warrant =>
      match List.find (λ c, negb (check_capability warrant c))
              (required_capabilities call ctx (SL.path_policy l)) with
      | Some required =>
          Err (TE.PermissionDenied ("missing capability for tool `" +:+ TL.name call +:+ "`: "
            +:+ debug_capability required))
      | None => Ok tt
      end
  | None => Ok tt
  end).

Definition check_command_line (command : string) (l : SafetyLayer) : result unit ToolError :=
  match check_command_with_policy command (SL.bash_policy l) with
  | Ok _ => check_git_command_with_policy command (SL.git_policy l)
  | Err e => Err e
  end.

Definition check_shell (call : ToolCall) : guard := pure_guard (λ l,
  if bool_decide (TL.name call ∈ BASH_TOOLS) then
    match str_arg "command" call with
    | Some cmd => check_command_line cmd l
    | None => Ok tt
    end
  else Ok tt).

Definition check_network (call : ToolCall) : guard := pure_guard (λ l,
  if bool_decide (TL.name call ∈ NETWORK_TOOLS) then
    match str_arg "url" call with
    | Some url => check_url_with_policy url (SL.network_policy l)
    | None => Ok tt
    end
  else Ok tt).

Definition check_file (call : ToolCall) (ctx : ToolContext) : guard := pure_guard (λ l,
  if bool_decide (TL.name call ∈ FILE_TOOLS) then
    match path_arg call with
    | Some p =>
        match canonicalize_with_policy (TC.worktree_path ctx) p (SL.path_policy l) with
        | Ok _ => Ok tt
        | Err e => Err e
        end
    | None => Ok tt
    end
  else Ok tt).

Definition check_budget (action : ProposedAction) : guard := λ l,
  match SL.safety_budget l with
  | Some tracker =>
      let '(tracker, r) := BT.check_and_consume action tracker in
      Some (SL.set_safety_budget (Some tracker) l,
            match r with
            | BR.WithinBudget => Ok tt
            | BR.Exceeded dimension =>
                Err (TE.PermissionDenied ("safety budget exceeded: "
                  +:+ BudgetDimension.as_str dimension))
            end)
  | None => Some (l, Ok tt)
  end.

Definition check_temporal (call : ToolCall) : guard := λ l,
  match SL.temporal_monitor l with
  | Some monitor =>
      match TM.check_as_tool_error call monitor with
      | Some (monitor, r) => Some (SL.set_temporal_monitor (Some monitor) l, r)
      | None => None
      end
  | None => Some (l, Ok tt)
  end.

Definition check_contract (call : ToolCall) (ctx : ToolContext) (l : SafetyLayer) :
    result unit ToolError :=
  match check_contract_pre call ctx (SL.contract l) with
  | Ok _ => Ok tt
  | Err violation => Err (CV.into_tool_error violation)
  end.

Definition check_pre_execution (call : ToolCall) (ctx : ToolContext) (now : Z) : guard :=
  check_whitelist (TL.name call);;
  check_rate (TL.name call) now;;
  check_warrant call ctx;;
  check_shell call;;
  check_network call;;
  check_file call ctx;;
  check_budget (from_tool_call call);;
  check_temporal call;;
  pure_guard (check_contract call ctx).

(** ** Subprocesses *)

Definition is_shell_program (program : string) : bool :=
  match PathBuf.file_name program with
  | Some name => bool_decide (name ∈ ["sh"; "bash"; "zsh"; "dash"; "ksh"])
  | None => false
  end.

Definition is_shell_command_flag (flag : string) : bool :=
  str_starts_with "-" flag && str_contains "c" flag.

Fixpoint after_command_flag (args : list string) : option string :=
  match args with
  | flag :: (command :: _) as rest =>
      if is_shell_command_flag flag then Some command else after_command_flag rest
  | _ => None
  end.

Definition shell_command_arg (program : string) (args : list string) : option string :=
  if negb (is_shell_program program) then None else after_command_flag args.

Definition display_program_name (program : string) : string :=
  stdpp.option.default program (PathBuf.file_name program).

Definition render_exec_command (program : string) (args : list string) : string :=
  let display_program := display_program_name program in
  match args with
  | [] => display_program
  | _ => display_program +:+ " " +:+ str_join " " args
  end.

Definition exec_rate_limit_subject (program command : string) : string :=
  "exec:" +:+ match exec_capability_from_command command with
              | Some (Cap.Exec name) => name
              | _ => display_program_name program
              end.

Definition exec_command_line (program : string) (args : list string) : string :=
  stdpp.option.default (render_exec_command program args) (shell_command_arg program args).

Definition check_exec_warrant (program command : string) : guard := pure_guard (λ l,
  match SL.warrant l, exec_capability_from_command command with
  | Some warrant, Some required =>
      if negb (check_capability warrant required) then
        Err (TE.PermissionDenied ("missing capability for subprocess `" +:+ program +:+ "`: "
          +:+ debug_capability required))
      else Ok tt
  | _, _ => Ok tt
  end).

Definition check_exec_command (program : string) (args : list string) (now : Z) : guard :=
  let command := exec_command_line program args in
  check_rate (exec_rate_limit_subject program command) now;;
  check_exec_warrant program command;;
  pure_guard (check_command_line command);;
  check_budget (from_exec_command program args).
End guards.

(** ** Examples *)

Example globs :
  glob_to_regex "mcp__*" = "^mcp__.*$" ∧ glob_to_regex "a.b" = "^a\.b$"
  ∧ glob_to_regex "read_?" = "^read_?$".
Proof. by vm_compute. Qed.

Example role_budgets :
  usd_to_cents_per_turn (F32.lit 5 2) = Some 250%N ∧ usd_to_cents_per_turn (F32.lit 1 8) = Some 13%N
  ∧ usd_to_cents_per_turn (F32.lit (-1) 1) = None ∧ usd_to_cents_per_turn F32.infinity = None
  ∧ RO.effective_budget (RO.mk None None (Some (AB.mk (Some 4000%N) None)) (Some (F32.lit 1 2)))
      = Some (AB.mk (Some 4000%N) (Some 50%N)).
Proof. by vm_compute. Qed.

Example command_lines :
  exec_command_line "/bin/bash" ["-lc"; "ls | wc"] = "ls | wc"
  ∧ exec_command_line "/usr/bin/git" ["push"; "-f"] = "git push -f"
  ∧ exec_command_line "env" ["bash"; "-c"; "ls"] = "env bash -c ls"
  ∧ exec_rate_limit_subject "bash" "ls | wc" = "exec:ls".
Proof. by vm_compute. Qed.

(** A hash map that is read backwards. *)
Definition hash_iter_backwards : HashIter.
Proof.
  refine {| hash_iter _ _ _ _ m := reverse (map_to_list m); hash_set_iter _ _ _ X := elements X |}.
  - intros. apply reverse_Permutation.
  - intros. apply Permutation_refl.
Defined.

(** Two sections may speak of the same role, under its name and under an alias: which of them
    decides depends on the order in which the map is read. *)
Example role_tools_depend_on_order :
  let roles : gmap string RoleOverride :=
    {[ "implementer" := RO.mk None (Some ["read_file"]) None None;
       "fast" := RO.mk (Some "implementer") (Some ["*"]) None None ]} in
  (build_role_tools (HI := hash_iter_canonical) roles !! "implementer")
    ≠ (build_role_tools (HI := hash_iter_backwards) roles !! "implementer").
Proof. vm_compute. discriminate. Qed.

(** When a warrant expires is never looked at. *)
Lemma expiry_ignored w e c : check_capability (AW.with_expiry e w) c = check_capability w c.
Proof. done. Qed.
