(* ===== verification/SafetySession.v ===== *)
(** * Sessions under the safety layer

    What holds of the calls that pass all guards (SafetyLayer.v), whatever else is asked for:
    each is within the static policies, and together they are within the rate, the budget and
    the temporal properties. *)

From S2P Require Import Prelude Text Bytes EventLog Diagnosis Permit Sandbox Tool GitGuard.
From S2P Require Import BashGuard RateLimit Temporal Network PathGuard Warrant Risk Contract.
From S2P Require Import SafetyLayer.

Section session.
Context {J : Json} {JN : JsonNumber} {RX : RegexLib} {UL : UrlLib} {FS : FileSystem}.
Context {DC : DebugCapability}.
Context (epoch : Z).

(** A call with its context and its time. *)
Definition Asked : Type := ToolCall * ToolContext * Z.

Fixpoint session (asked : list Asked) (l : SafetyLayer) :
    option (SafetyLayer * list (Asked * bool)) :=
  match asked with
  | [] => Some (l, [])
  | x :: asked' =>
      match check_pre_execution epoch x.1.1 x.1.2 x.2 l with
      | Some (l1, r) =>
          match session asked' l1 with
          | Some (l2, log) => Some (l2, (x, is_ok r) :: log)
          | None => None
          end
      | None => None
      end
  end.

Lemma session_app xs ys l l' log :
  session (xs ++ ys) l = Some (l', log) →
  ∃ l1 log1 log2, session xs l = Some (l1, log1) ∧ session ys l1 = Some (l', log2)
    ∧ log = log1 ++ log2.
Proof.
  revert l log. induction xs as [|x xs IH]; intros l log H; [by exists l, [], log|].
  cbn [app session] in *. destruct (check_pre_execution _ _ _ _ _) as [[l1 r]|]; [|done].
  destruct (session (xs ++ ys) l1) as [[l2 log']|] eqn:E; [|done]. injection H as <- <-.
  destruct (IH _ _ E) as (l3 & log1 & log2 & -> & Hs & ->). by do 3 eexists.
Qed.

Definition passed (log : list (Asked * bool)) : list Asked := (List.filter snd log).*1.

(** The guards before the temporal monitor; the last of them charges the budget. *)
Definition before_monitor (call : ToolCall) (ctx : ToolContext) (now : Z) : guard :=
  check_whitelist (TL.name call);;
  check_rate epoch (TL.name call) now;;
  check_warrant call ctx;;
  check_shell call;;
  check_network call;;
  check_file call ctx;;
  check_budget (from_tool_call call).

Lemma check_pre_execution_split call ctx now l :
  check_pre_execution epoch call ctx now l
    = (before_monitor call ctx now;; check_temporal call;; pure_guard (check_contract call ctx)) l.
Proof.
  unfold check_pre_execution, before_monitor, and_then.
  repeat match goal with
  | |- match ?g with _ => _ end = match match ?g with _ => _ end with _ => _ end =>
      destruct g as [[? [[]|]]|]; [|done|done]
  end. done.
Qed.

Definition came (x : Asked) (l : SafetyLayer) : bool :=
  match before_monitor x.1.1 x.1.2 x.2 l with Some (_, Ok _) => true | _ => false end.

(** The calls of a session that the guards before the monitor admit: those that are charged and
    come to the monitor, whatever it and the contract say of them. *)
Fixpoint monitored (asked : list Asked) (l : SafetyLayer) : list Asked :=
  match asked with
  | [] => []
  | x :: asked' =>
      (if came x l then [x] else [])
      ++ match check_pre_execution epoch x.1.1 x.1.2 x.2 l with
         | Some (l1, _) => monitored asked' l1
         | None => []
         end
  end.

(** What the static policies say of a call. *)
Record permitted_by (l : SafetyLayer) (call : ToolCall) (ctx : ToolContext) : Prop := {
  in_whitelist w :
    SL.role_tools l !! SL.role l = Some w → whitelist_matches (TL.name call) w = true;
  warranted w c :
    SL.warrant l = Some w → c ∈ required_capabilities call ctx (SL.path_policy l) →
    check_capability w c = true;
  command_safe cmd :
    TL.name call ∈ BASH_TOOLS → str_arg "command" call = Some cmd →
    is_ok (check_command_with_policy cmd (SL.bash_policy l)) = true
    ∧ is_ok (check_git_command_with_policy cmd (SL.git_policy l)) = true;
  url_safe url :
    TL.name call ∈ NETWORK_TOOLS → str_arg "url" call = Some url →
    is_ok (check_url_with_policy url (SL.network_policy l)) = true;
  path_safe p :
    TL.name call ∈ FILE_TOOLS → path_arg call = Some p →
    is_ok (canonicalize_with_policy (TC.worktree_path ctx) p (SL.path_policy l)) = true;
  contract_kept :
    tool_granted (TL.name call) (SL.contract l)
    ∧ (∀ i, i ∈ AC.invariants (SL.contract l) → invariant_holds call ctx i)
    ∧ (∀ r, r ∈ AC.governance (SL.contract l) → rule_holds call ctx r);
}.

(** ** Each guard *)

Lemma check_whitelist_ok tool l :
  ∃ r, check_whitelist tool l = Some (l, r)
    ∧ (is_ok r = true ↔
         ∀ w, SL.role_tools l !! SL.role l = Some w → whitelist_matches tool w = true).
Proof.
  eexists. split; [done|]. cbv beta. destruct (SL.role_tools l !! SL.role l) as [w|];
    [|naive_solver].
  destruct (whitelist_matches tool w) eqn:E; cbn; naive_solver.
Qed.

Lemma check_warrant_ok call ctx l :
  ∃ r, check_warrant call ctx l = Some (l, r)
    ∧ (is_ok r = true ↔ ∀ w c, SL.warrant l = Some w →
         c ∈ required_capabilities call ctx (SL.path_policy l) → check_capability w c = true).
Proof.
  eexists. split; [done|]. cbv beta. destruct (SL.warrant l) as [w|]; [|naive_solver].
  destruct (List.find _ _) as [c|] eqn:E; cbn [is_ok].
  - apply find_some in E as [Hc%list_elem_of_In Hn%negb_true_iff]. split; [done|].
    intros H. by rewrite (H w c eq_refl Hc) in Hn.
  - split; [|done]. intros _ w' c [= <-] Hc%list_elem_of_In. apply (find_none _ _ E) in Hc.
    by apply negb_false_iff in Hc.
Qed.

Lemma check_shell_ok call l :
  ∃ r, check_shell call l = Some (l, r)
    ∧ (is_ok r = true ↔ ∀ cmd, TL.name call ∈ BASH_TOOLS → str_arg "command" call = Some cmd →
         is_ok (check_command_with_policy cmd (SL.bash_policy l)) = true
         ∧ is_ok (check_git_command_with_policy cmd (SL.git_policy l)) = true).
Proof.
  eexists. split; [done|]. cbv beta.
  destruct (bool_decide_reflect (TL.name call ∈ BASH_TOOLS)); [|naive_solver].
  destruct (str_arg "command" call) as [cmd|]; [|naive_solver]. unfold check_command_line.
  destruct (check_command_with_policy cmd _) as [u|err] eqn:E.
  - split; [|intros H; by apply H]. intros Hg cmd' _ [= <-]. by rewrite E.
  - split; [done|]. intros H. destruct (H cmd) as [H1 _]; [done|done|]. by rewrite E in H1.
Qed.

Lemma check_network_ok call l :
  ∃ r, check_network call l = Some (l, r)
    ∧ (is_ok r = true ↔ ∀ url, TL.name call ∈ NETWORK_TOOLS → str_arg "url" call = Some url →
         is_ok (check_url_with_policy url (SL.network_policy l)) = true).
Proof.
  eexists. split; [done|]. cbv beta.
  destruct (bool_decide_reflect (TL.name call ∈ NETWORK_TOOLS)); [|naive_solver].
  destruct (str_arg "url" call) as [url|]; naive_solver.
Qed.

Lemma check_file_ok call ctx l :
  ∃ r, check_file call ctx l = Some (l, r)
    ∧ (is_ok r = true ↔ ∀ p, TL.name call ∈ FILE_TOOLS → path_arg call = Some p →
         is_ok (canonicalize_with_policy (TC.worktree_path ctx) p (SL.path_policy l)) = true).
Proof.
  eexists. split; [done|]. cbv beta.
  destruct (bool_decide_reflect (TL.name call ∈ FILE_TOOLS)); [|naive_solver].
  destruct (path_arg call) as [p|]; [|naive_solver].
  destruct (canonicalize_with_policy _ p _) eqn:E; cbn [is_ok].
  - split; [|done]. intros _ q _ [= <-]. by rewrite E.
  - split; [done|]. intros H. specialize (H p ltac:(done) eq_refl). by rewrite E in H.
Qed.

Lemma check_contract_ok call ctx l :
  is_ok (check_contract call ctx l) = true ↔
    tool_granted (TL.name call) (SL.contract l)
    ∧ (∀ i, i ∈ AC.invariants (SL.contract l) → invariant_holds call ctx i)
    ∧ (∀ r, r ∈ AC.governance (SL.contract l) → rule_holds call ctx r).
Proof.
  rewrite <- contract_spec. unfold check_contract. by destruct (check_contract_pre _ _ _).
Qed.

(** The next guard runs exactly when the first admits. *)
Lemma and_then_step (g1 g2 : guard) l l1 r1 :
  g1 l = Some (l1, r1) → (g1;; g2) l = if is_ok r1 then g2 l1 else Some (l1, r1).
Proof. intros H. unfold and_then. rewrite H. by destruct r1 as [[]|]. Qed.

(** ** The state of the guards *)

Context (base : SafetyLayer) (policy : RateLimitPolicy) (budget : SafetyBudget).

(** [base] with the guards that have a state. *)
Definition dressed (r : RateLimiter) (t : SafetyBudgetTracker) (m : TemporalMonitor) :
  SafetyLayer :=
  SL.set_temporal_monitor (Some m)
    (SL.set_safety_budget (Some t) (SL.set_rate_limiter (Some r) base)).

(** What the guards have seen: the calls at the limiter, the actions charged, and the calls the
    properties are about. *)
Record History : Type := history {
  rated : list Call;
  charged : list ProposedAction;
  observed : N * list Tracked;
}.

Definition sound (now : Z) (h : History) (l : SafetyLayer) : Prop :=
  ∃ r t m, l = dressed r t m
    ∧ tracks policy now (rated h) r
    ∧ (∀ k s, (length (within policy s (times k (rated h))) ≤ RP.max_calls_per_window policy)%nat)
    ∧ charged_by budget (charged h) t
    ∧ (charged h = [] ∨ within_budget budget (charge (charged h)))
    ∧ follows m (observed h).

(** The history of a call that reached some of the guards, and of one that passed them all. *)
Definition subject (call : ToolCall) : RateLimitKey := RK.mk (SL.role base) (TL.name call).

Definition extends (call : ToolCall) (now : Z) (h h' : History) : Prop :=
  rated h' = rated h ∨ ∃ ok, rated h' = rated h ++ [RateLimit.call CheckAndRecord (subject call)
    now ok].

(** The rate limiter has admitted the call. *)
Definition counted (call : ToolCall) (now : Z) (h h' : History) : Prop :=
  rated h' = rated h ++ [RateLimit.call CheckAndRecord (subject call) now true].

Lemma check_rate_sound now h l call t :
  sound now h l → (now ≤ t)%Z → (epoch ≤ t - RP.window_duration policy)%Z →
  ∃ l' r, check_rate epoch (TL.name call) t l = Some (l', r)
    ∧ sound t (history (rated h ++ [RateLimit.call CheckAndRecord (subject call) t (is_ok r)])
                 (charged h) (observed h)) l'.
Proof.
  intros (r & k & m & -> & Htr & Hw & Hc & Hb & Hf) Hn He.
  pose proof (perform_tracks epoch policy now (rated h) r CheckAndRecord (subject call) t Htr Hn He)
    as [Hv Htr'].
  unfold check_rate. cbn [SL.rate_limiter dressed SL.set_temporal_monitor SL.set_safety_budget
    SL.set_rate_limiter SL.role]. fold (subject call).
  unfold perform in *. destruct (RL.check_and_record epoch (subject call) t r) as [r' res].
  cbn [fst snd] in *. do 2 eexists. split; [done|]. rewrite Hv.
  exists r', k, m. split_and!; [done|done| |done|done|done].
  intros k' s. by apply within_step.
Qed.

Lemma check_budget_sound now h l call :
  sound now h l →
  ∃ l' r, check_budget (from_tool_call call) l = Some (l', r)
    ∧ sound now (history (rated h) (charged h ++ if is_ok r then [from_tool_call call] else [])
                  (observed h)) l'.
Proof.
  intros (r & k & m & -> & Htr & Hw & Hc & Hb & Hf). unfold check_budget.
  cbn [SL.safety_budget dressed SL.set_temporal_monitor SL.set_safety_budget SL.set_rate_limiter].
  destruct (BT.check_and_consume (from_tool_call call) k) as [k' res] eqn:E.
  destruct (check_and_consume_charge budget (charged h) _ k k' res Hc E) as [Hr Hc'].
  do 2 eexists. split; [done|]. exists r, k', m.
  split_and!; [done|done|done|by destruct res| |done]. cbn [charged].
  destruct res; cbn [is_ok]; [right; by apply Hr|by rewrite app_nil_r].
Qed.

Lemma check_temporal_sound now h l call :
  sound now h l → ((observed h).1 < u64_MAX)%N →
  ∃ l' r, check_temporal call l = Some (l', r)
    ∧ sound now (history (rated h) (charged h) (track (observed h) (Called call))) l'
    ∧ (is_ok r = false ↔ breaks (observed h) call).
Proof.
  intros (r & k & m & -> & Htr & Hw & Hc & Hb & Hf) Hl. unfold check_temporal.
  cbn [SL.temporal_monitor dressed SL.set_temporal_monitor].
  destruct (check_refuses m (observed h) call Hf Hl) as (m' & res & -> & Hf' & Hr).
  do 2 eexists. split; [done|]. split; [|done]. by exists r, k, m'.
Qed.

(** The static policies of a layer in use are those of [base]. *)
Lemma sound_permitted now h l call ctx :
  sound now h l → permitted_by l call ctx ↔ permitted_by base call ctx.
Proof. intros (r & k & m & -> & _). split; intros []; by split. Qed.

Lemma sound_later now t h l : sound now h l → (now ≤ t)%Z → sound t h l.
Proof.
  intros (r & k & m & -> & [Hp Ht] & Hs) Hn. exists r, k, m. split; [done|].
  split; [|done]. split; [done|]. intros key. destruct (Ht key) as (H1 & H2 & H3).
  split_and!; [done| |intros s Hs'; apply H3; lia].
  eapply Forall_impl; [exact H2|]. cbn. lia.
Qed.

Ltac reach g H r :=
  let E := fresh "E" in
  destruct g as (r & E & H); rewrite (and_then_step _ _ _ _ _ E); clear E;
  destruct r as [[]|?]; cbn [is_ok] in *;
  [|do 3 eexists; split; [done|]; split; [done|]; split_and!; cbn; rewrite ?app_nil_r; first [done|by left|assumption]].

(** One call through the guards before the monitor. *)
Lemma before_monitor_sound now h l call ctx t :
  sound now h l → (now ≤ t)%Z → (epoch ≤ t - RP.window_duration policy)%Z →
  ∃ l' r h', before_monitor call ctx t l = Some (l', r)
    ∧ sound t h' l' ∧ extends call t h h'
    ∧ charged h' = charged h ++ (if is_ok r then [from_tool_call call] else [])
    ∧ observed h' = observed h
    ∧ (is_ok r = true → counted call t h h'
         ∧ (is_ok (check_contract call ctx l') = true → permitted_by base call ctx)).
Proof.
  intros Hs Hn He. unfold before_monitor.
  pose proof (sound_later _ _ _ _ Hs Hn) as Hs0.
  reach (check_whitelist_ok (TL.name call) l) Hwl r1.
  destruct (check_rate_sound now h l call t Hs Hn He) as (l1 & r2 & E2 & Hs1).
  rewrite (and_then_step _ _ _ _ _ E2). clear E2.
  set (h1 := history _ _ _) in Hs1.
  destruct r2 as [[]|e2]; cbn [is_ok] in *;
    [|do 3 eexists; split; [done|]; split; [exact Hs1|]; split_and!; cbn; rewrite ?app_nil_r;
      first [done|right; eauto]].
  assert (counted call t h h1) as Hh1 by done.
  assert (extends call t h h1) as He1 by (right; eauto).
  assert (charged h1 = charged h ∧ observed h1 = observed h) as [Hch Hob] by done.
  reach (check_warrant_ok call ctx l1) Hwa r3.
  reach (check_shell_ok call l1) Hsh r4.
  reach (check_network_ok call l1) Hnet r5.
  reach (check_file_ok call ctx l1) Hfi r6.
  destruct (check_budget_sound t h1 l1 call Hs1) as (l2 & r7 & E7 & Hs2).
  exists l2, r7. eexists. split; [exact E7|]. split; [exact Hs2|]. split; [done|].
  split; [done|]. split; [done|]. intros _. split; [done|]. intros Hok%check_contract_ok.
  destruct Hs as (? & ? & ? & -> & _), Hs1 as (? & ? & ? & -> & _), Hs2 as (? & ? & ? & -> & _).
  split; [by apply Hwl|by apply Hwa|by apply Hsh|by apply Hnet|by apply Hfi|done].
Qed.

(** One call through all guards. *)
Lemma check_pre_execution_sound now h l call ctx t :
  sound now h l → (now ≤ t)%Z → (epoch ≤ t - RP.window_duration policy)%Z →
  ((observed h).1 < u64_MAX)%N →
  ∃ l' r h', check_pre_execution epoch call ctx t l = Some (l', r)
    ∧ sound t h' l' ∧ extends call t h h'
    ∧ (let here := came (call, ctx, t) l in
       charged h' = charged h ++ (if here then [from_tool_call call] else [])
       ∧ observed h' = (if here then track (observed h) (Called call) else observed h)
       ∧ (is_ok r = true → here = true ∧ counted call t h h' ∧ permitted_by base call ctx
            ∧ ¬ breaks (observed h) call)).
Proof.
  intros Hs Hn He Ho. rewrite check_pre_execution_split. unfold came. cbn [fst snd].
  destruct (before_monitor_sound now h l call ctx t Hs Hn He)
    as (l1 & r & h1 & E & Hs1 & Hr & Hc & Hob & Hok).
  rewrite (and_then_step _ _ _ _ _ E), E. destruct r as [[]|e]; cbn [is_ok] in *.
  2: { by exists l1, (Err e), h1. }
  destruct (Hok eq_refl) as [Hcount Hperm].
  destruct (check_temporal_sound t h1 l1 call Hs1) as (l2 & r & E2 & Hs2 & Hbr);
    [by rewrite Hob|].
  rewrite (and_then_step _ _ _ _ _ E2). rewrite Hob in *.
  assert (check_contract call ctx l2 = check_contract call ctx l1) as Hcc.
  { destruct Hs1 as (? & ? & ? & -> & _), Hs2 as (? & ? & ? & -> & _). done. }
  destruct r as [[]|e]; cbn [is_ok] in *.
  - do 3 eexists. split; [done|]. split; [exact Hs2|]. split_and!; [done|done|done|].
    intros Hok2. rewrite Hcc in Hok2. split_and!; [done|done|by apply Hperm|].
    intros Hb. by apply Hbr in Hb.
  - by do 3 eexists.
Qed.

(** ** Sessions *)

(** The clock does not go back, and a window before it can be represented. *)
Fixpoint clock_of (now : Z) (asked : list Asked) : Prop :=
  match asked with
  | [] => True
  | x :: asked' =>
      (now ≤ x.2)%Z ∧ (epoch ≤ x.2 - RP.window_duration policy)%Z ∧ clock_of x.2 asked'
  end.

Definition timed (x : Asked) : RateLimitKey * Z := (subject x.1.1, x.2).
Definition action_of (x : Asked) : ProposedAction := from_tool_call x.1.1.
Definition stamp (c : Call) : RateLimitKey * Z := (key c, at_time c).

Definition calls_of (xs : list Asked) : list ToolCall := (λ x, x.1.1) <$> xs.

Lemma session_sound asked now h l :
  sound now h l → clock_of now asked →
  ((observed h).1 + N.of_nat (length asked) ≤ u64_MAX)%N →
  ∃ l' log h' dr t, session asked l = Some (l', log) ∧ sound t h' l'
    ∧ log.*1 = asked ∧ rated h' = rated h ++ dr
    ∧ charged h' = charged h ++ (action_of <$> monitored asked l)
    ∧ (timed <$> passed log) `sublist_of` (stamp <$> List.filter recorded dr)
    ∧ passed log `sublist_of` monitored asked l
    ∧ Forall (λ x, permitted_by base x.1.1 x.1.2) (passed log)
    ∧ ∀ pre x post, log = pre ++ (x, true) :: post →
        ¬ breaks (foldl track (observed h) (Called <$> calls_of (monitored pre.*1 l))) x.1.1.
Proof.
  revert now h l. induction asked as [|x asked IH]; intros now h l Hs Hc Ho;
    cbn [session monitored].
  { exists l, [], h, [], now. rewrite !app_nil_r.
    split_and!; try done; try constructor. by intros [|] ? ?. }
  destruct Hc as (Hn & He & Hc). cbn [length] in Ho.
  destruct (check_pre_execution_sound now h l x.1.1 x.1.2 x.2 Hs Hn He)
    as (l1 & r & h1 & Ec & Hs1 & Hr1 & (Hc1 & Ho1 & Hok)); [lia|].
  replace (x.1.1, x.1.2, x.2) with x in Hc1, Ho1, Hok by (by destruct x as [[]]).
  rewrite Ec. destruct (IH x.2 h1 l1 Hs1 Hc) as (l2 & log & h2 & dr & t & -> & Hs2 & Hlog & Hr2
    & Hc2 & Hsr & Hsc & Hperm & Hseen).
  { rewrite Ho1. destruct (came x l); cbn [track fst]; lia. }
  assert (∃ d, rated h1 = rated h ++ d
    ∧ (is_ok r = true → d = [RateLimit.call CheckAndRecord (subject x.1.1) x.2 true])) as (d & Hd
      & Hd').
  { destruct Hr1 as [E|[ok E]].
    - exists []. rewrite app_nil_r. split; [done|]. intros H. destruct (Hok H) as (_ & H1 & _).
      unfold counted in H1. rewrite E in H1. apply (f_equal length) in H1.
      rewrite length_app in H1. cbn in H1. lia.
    - eexists. split; [exact E|]. intros H. destruct (Hok H) as (_ & H1 & _).
      unfold counted in H1. rewrite E in H1. by apply app_inv_head in H1. }
  exists l2, ((x, is_ok r) :: log), h2, (d ++ dr), t.
  split_and!; [done|done|by cbn; rewrite Hlog|by rewrite Hr2, Hd, app_assoc
    | | | | |].
  - rewrite Hc2, Hc1, <- app_assoc, fmap_app. by destruct (came x l).
  - unfold passed. cbn [List.filter snd]. rewrite List.filter_app, fmap_app.
    destruct (is_ok r); [rewrite Hd' by done; by apply (sublist_app [_] [_])|].
    by apply sublist_inserts_l.
  - unfold passed. cbn [List.filter snd]. destruct (is_ok r).
    + destruct (Hok eq_refl) as [-> _]. by apply sublist_skip.
    + by apply sublist_inserts_l.
  - unfold passed. cbn [List.filter snd]. destruct (is_ok r); [|done].
    constructor; [by apply Hok|done].
  - intros pre y post E. destruct pre as [|z pre].
    + injection E as <- Hr _. by destruct (Hok Hr) as (_ & _ & _ & ?).
    + injection E as <- E. specialize (Hseen _ _ _ E).
      cbn [fmap list_fmap fst monitored]. rewrite Ec. unfold calls_of in *.
      rewrite !fmap_app, foldl_app. rewrite Ho1 in Hseen. by destruct (came x l).
Qed.

(** ** What the bounds come to *)

Lemma sublist_filter {A} (P : A → bool) l1 l2 :
  l1 `sublist_of` l2 → (length (List.filter P l1) ≤ length (List.filter P l2))%nat.
Proof.
  induction 1 as [|x l1 l2 _ IH|x l1 l2 _ IH]; cbn; [done|destruct (P x); cbn; lia|].
  destruct (P x); cbn; lia.
Qed.

(** The call is of this tool and in the window that follows [s]. *)
Definition in_window (tool : string) (s : Z) (x : Asked) : bool :=
  bool_decide (TL.name x.1.1 = tool) && ((s <? x.2)%Z && (x.2 <=? s + RP.window_duration policy)%Z).

Lemma window_count tool s log dr :
  (timed <$> passed log) `sublist_of` (stamp <$> List.filter recorded dr) →
  (length (List.filter (in_window tool s) (passed log))
    ≤ length (within policy s (times (RK.mk (SL.role base) tool) dr)))%nat.
Proof.
  intros Hsub.
  set (P := λ p : RateLimitKey * Z, bool_decide (p.1 = RK.mk (SL.role base) tool)
    && ((s <? p.2)%Z && (p.2 <=? s + RP.window_duration policy)%Z)).
  apply (sublist_filter P) in Hsub.
  assert (∀ l, length (List.filter (in_window tool s) l) = length (List.filter P (timed <$> l)))
    as ->.
  { induction l as [|x l IH]; [done|]. cbn [List.filter fmap list_fmap].
    assert (P (timed x) = in_window tool s x) as ->.
    { unfold P, timed, in_window, subject. cbn [fst snd]. f_equal. apply bool_decide_ext.
      split; [by intros [= ->]|by intros ->]. }
    destruct (in_window tool s x); cbn; by rewrite IH. }
  etrans; [exact Hsub|]. clear. unfold within, times.
  induction dr as [|c dr IH]; [done|]. cbn [List.filter]. destruct (recorded c); [|exact IH].
  cbn [fmap list_fmap List.filter]. unfold P at 1. unfold stamp at 1. cbn [fst snd andb].
  destruct (bool_decide (key c = _)); cbn [andb]; [|exact IH]. cbn [fmap list_fmap List.filter].
  unfold within in IH. change (at_time c) with (at_time c).
  destruct (_ && _); cbn [length]; [|exact IH]. apply le_n_S, IH.
Qed.

Lemma sublist_charge l1 l2 :
  l1 `sublist_of` l2 →
  (SU.footprint_count (charge l1) ≤ SU.footprint_count (charge l2))%nat
  ∧ SU.files_touched (charge l1) ⊆ SU.files_touched (charge l2).
Proof.
  intros H. unfold charge. cbn [SU.footprint_count SU.files_touched]. split.
  - induction H; cbn; lia.
  - induction H as [|x l1 l2 _ IH|x l1 l2 _ IH]; cbn [fmap list_fmap concat]; [done| |];
      rewrite ?list_to_set_app_L; set_solver.
Qed.

Lemma observed_from ps seen n :
  foldl track (n, (λ p, (p, 0%N, [])) <$> ps) (Called <$> seen)
    = ((n + N.of_nat (length seen))%N, (λ p, (p, 0%N, seen)) <$> ps).
Proof.
  induction seen as [|c seen IH] using rev_ind; [cbn; by rewrite N.add_0_r|].
  rewrite fmap_app, foldl_app, IH. cbn [fmap list_fmap foldl track fst snd].
  rewrite <- list_fmap_compose, length_app. f_equal. cbn. lia.
Qed.

(** Calls that are left out do not disturb the clock. *)
Lemma clock_of_sublist now asked asked' :
  asked' `sublist_of` asked → clock_of now asked → clock_of now asked'.
Proof.
  assert (∀ a t t', (t ≤ t')%Z → clock_of t' a → clock_of t a) as Hw.
  { intros [|x a] t t' Ht; [done|]. intros (H1 & H2 & H3). split_and!; [lia|done|done]. }
  intros Hs. revert now. induction Hs as [|x l1 l2 _ IH|x l1 l2 _ IH]; intros now Hc; [done| |].
  - destruct Hc as (H1 & H2 & H3). split_and!; [done|done|by apply IH].
  - destruct Hc as (H1 & H2 & H3). apply IH, (Hw _ _ x.2); [lia|done].
Qed.

(** The counts of the charged calls bound those of the calls that pass. *)
Lemma passed_within l1 l2 :
  l1 `sublist_of` l2 → l2 = [] ∨ within_budget budget (charge (action_of <$> l2)) →
  (length l1 ≤ SB.footprint_limit budget)%nat
  ∧ (size (list_to_set (concat ((λ x : Asked, modified_files x.1.1) <$> l1)) : gset string)
       ≤ SB.blast_radius_file_limit budget)%nat.
Proof.
  intros Hs [->|(_ & Hf & Hn & _)].
  { apply sublist_nil_r in Hs as ->. cbn. rewrite size_empty. lia. }
  assert ((action_of <$> l1) `sublist_of` (action_of <$> l2)) as [H1 H2]%sublist_charge
    by (clear -Hs; induction Hs; cbn; by constructor).
  assert (SU.footprint_count (charge (action_of <$> l1)) = length l1) as E1.
  { unfold charge. cbn [SU.footprint_count]. clear. induction l1 as [|x l IH]; [done|].
    cbn [fmap list_fmap sum_list]. cbn in IH. rewrite IH. done. }
  assert (SU.files_touched (charge (action_of <$> l1))
    = list_to_set (concat ((λ x, modified_files x.1.1) <$> l1))) as E2.
  { unfold charge. cbn [SU.files_touched]. by rewrite <- list_fmap_compose. }
  rewrite E1 in H1. rewrite E2 in H2. apply subseteq_size in H2.
  split; [by etrans|by etrans].
Qed.

Lemma session_bounds asked now props :
  clock_of now asked → (N.of_nat (length asked) ≤ u64_MAX)%N →
  let fresh := dressed (RL.new policy) (BT.new budget) (TM.with_properties props) in
  let spent := monitored asked fresh in
  ∃ l' log,
    session asked fresh = Some (l', log)
    ∧ log.*1 = asked
    ∧ Forall (λ x, permitted_by base x.1.1 x.1.2) (passed log)
    ∧ (∀ tool s, length (List.filter (in_window tool s) (passed log))
                   ≤ RP.max_calls_per_window policy)%nat
    ∧ passed log `sublist_of` spent
    ∧ (spent = [] ∨ within_budget budget (charge (action_of <$> spent)))
    ∧ (length (passed log) ≤ SB.footprint_limit budget)%nat
    ∧ (size (list_to_set (concat ((λ x, modified_files x.1.1) <$> passed log)) : gset string)
         ≤ SB.blast_radius_file_limit budget)%nat
    ∧ ∀ pre x post, log = pre ++ (x, true) :: post →
        ∀ p, p ∈ props →
          let seen := calls_of (monitored pre.*1 fresh) in
          respected p seen → respected p (seen ++ [x.1.1]).
Proof.
  intros Hc Hl fresh spent. set (h := history [] [] (0%N, (λ p, (p, 0%N, [])) <$> props)).
  destruct (session_sound asked now h fresh)
    as (l' & log & h' & dr & t & Hse & Hs & Hlog & Hr & Hch & Hsr & Hsc & Hperm & Hseen);
    [|done|cbn; lia|].
  { do 3 eexists. split; [done|]. split_and!; [apply limiter_tracks_new|cbn; lia| | |].
    - split_and!; [done..|cbn; lia].
    - by left.
    - apply with_properties_follows. }
  exists l', log. destruct Hs as (_ & _ & _ & _ & _ & Hw & _ & Hb & _).
  cbn [rated charged h app] in Hr, Hch. rewrite Hr in Hw. rewrite Hch in Hb.
  assert (spent = [] ∨ within_budget budget (charge (action_of <$> spent))) as Hbudget.
  { destruct Hb as [Hb|Hb]; [left|by right]. by apply fmap_nil_inv in Hb. }
  destruct (passed_within _ _ Hsc Hbudget) as [Hfoot Hfiles].
  split_and!; [done|done|done| |done|done|done|done|].
  - intros tool s. etrans; [by apply window_count|]. apply Hw.
  - intros pre x post E p Hp seen Hres. specialize (Hseen _ _ _ E). fold seen in Hseen.
    cbn [observed h] in Hseen. rewrite observed_from in Hseen.
    destruct (outcome_respected p 0 (seen ++ [x.1.1])) as [Hor _].
    destruct (is_violated (outcome p 0 (seen ++ [x.1.1]))) eqn:Ev; [|by apply Hor].
    exfalso. apply Hseen. exists (p, 0%N, seen). cbn [fst snd].
    split; [apply list_elem_of_fmap; by exists p|]. split; [done|].
    intros Hr'. apply (outcome_respected p 0) in Hr'. congruence.
Qed.

(** C5: A session under fresh guards, whatever calls are asked for, when the clock does not go back
    and is a window after its epoch: the monitor does not panic; every call that passes is within
    the static policies; of no tool do more pass than the limit in any window; the calls that are
    charged, those that pass among them, are within every limit of the budget; and none that
    passes is the first to break a property, of exactly the calls that came to the monitor
    before it. *)
Theorem session_safe asked now props :
  clock_of now asked → (N.of_nat (length asked) ≤ u64_MAX)%N →
  let fresh := dressed (RL.new policy) (BT.new budget) (TM.with_properties props) in
  let spent := monitored asked fresh in
  ∃ l' log,
    session asked fresh = Some (l', log)
    ∧ log.*1 = asked
    ∧ Forall (λ x, permitted_by base x.1.1 x.1.2) (passed log)
    ∧ (∀ tool s, length (List.filter (in_window tool s) (passed log))
                   ≤ RP.max_calls_per_window policy)%nat
    ∧ passed log `sublist_of` spent
    ∧ (spent = [] ∨ within_budget budget (charge (action_of <$> spent)))
    ∧ (length (passed log) ≤ SB.footprint_limit budget)%nat
    ∧ (size (list_to_set (concat ((λ x, modified_files x.1.1) <$> passed log)) : gset string)
         ≤ SB.blast_radius_file_limit budget)%nat
    ∧ ∀ pre x post, log = pre ++ (x, true) :: post →
        ∀ p, p ∈ props →
          let seen := calls_of (monitored pre.*1 fresh) in
          respected p seen → respected p (seen ++ [x.1.1]).
Proof. apply session_bounds. Qed.
End session.

(** ** At work *)

#[local] Existing Instance simple_Json.
#[local] Existing Instance metadata_url.
#[local] Existing Instance sample_fs.
#[local] Instance no_numbers : JsonNumber := {| json_as_f64 _ := None |}.
#[local] Instance no_regex : RegexLib := {| regex_is_match _ _ := false |}.
#[local] Instance no_debug : DebugCapability := {| debug_capability _ := "" |}.

Definition open_layer : SafetyLayer := SL.with_contract (AC.permissive "implementer")
  SL.with_defaults.
Definition three_per_minute : RateLimitPolicy := RP.mk 3 60000000000.
Definition small_budget : SafetyBudget := SB.mk (F64.of_Z 10) 2 6 10 (F64.of_Z 50).
Definition deny_later : list LtlProperty := [LP.Never "drop table" ""].

Definition ask (name key value : string) (seconds : Z) : Asked :=
  (simple_args name [(key, JStr value)], fresh_context, (seconds * 1000000000)%Z).

(** A dangerous command, a forced push, a fourth command in a minute, a path out of the worktree, a
    private address, a third file, a forbidden text and a seventh action do not pass. *)
Definition sample_session : list Asked :=
  [ask "bash" "command" "ls" 100; ask "bash" "command" "rm -rf /" 101;
   ask "bash" "command" "git push -f origin main" 102; ask "bash" "command" "ls" 103;
   ask "write_file" "path" "a" 104; ask "read_file" "path" "out/passwd" 105;
   ask "web_fetch" "url" "https://169.254.169.254/latest" 106;
   ask "web_search" "query" "x" 107; ask "edit_file" "path" "b" 108;
   ask "note" "text" "x" 109; ask "edit_file" "path" "c" 110;
   ask "bash" "command" "echo DROP TABLE users" 170; ask "bash" "command" "ls" 171].

Definition sample_verdicts : option (list bool) :=
  (λ r, r.2.*2) <$> session 0 sample_session
    (dressed open_layer (RL.new three_per_minute) (BT.new small_budget) (TM.with_properties
      deny_later)).

Example sample_session_runs :
  sample_verdicts =
    Some [true; false; false; false; true; false; false; true; true; true; false; false; false].
Proof. by vm_compute. Qed.

Lemma session_safe_witness :
  ∃ l' log,
    session 0 sample_session (dressed open_layer (RL.new three_per_minute) (BT.new small_budget)
      (TM.with_properties deny_later)) = Some (l', log)
    ∧ length (passed log) = 5%nat
    ∧ Forall (λ x : Asked, permitted_by open_layer x.1.1 x.1.2) (passed log).
Proof.
  destruct (session_safe 0 open_layer three_per_minute small_budget sample_session 0 deny_later)
    as (l' & log & E & _ & Hp & _).
  - repeat split; by vm_compute.
  - by vm_compute.
  - exists l', log. split; [exact E|]. split; [|exact Hp].
    pose proof sample_session_runs as H. unfold sample_verdicts in H. rewrite E in H.
    cbn [fmap option_fmap option_map snd] in H. injection H as H.
    clear -H. revert H. generalize (eq_refl : length (List.filter id [true; false; false; false;
      true;
      false; false; true; true; true; false; false; false]) = 5%nat). intros <- H. rewrite <- H.
    clear. unfold passed. rewrite length_fmap. induction log as [|[x []] log IH]; cbn;
      [done| |done].
    by f_equal.
Defined.

(** A call that the contract refuses has already used the rate and the budget. *)
Example refusals_are_charged :
  let l := dressed (SL.with_contract (AC.restricted "x") SL.with_defaults) (RL.new three_per_minute)
    (BT.new small_budget) TM.new in
  (λ r, (r.2.*2, SU.footprint_count ∘ BT.usage <$> SL.safety_budget r.1)) <$>
    session 0 [ask "bash" "command" "ls" 100; ask "bash" "command" "ls" 101] l
  = Some ([false; false], Some 2%nat).
Proof. by vm_compute. Qed.
