(* ===== verification/Authz.v ===== *)
(** * Decisions and the checks around a dispatch (crates/roko-agent/src/safety/authz.rs,
      provenance.rs and mod.rs)

    The safety layer's answer as a decision, what taint adds to it and who may confirm it; and
    the checks before an agent is started and after it has ended. *)

From S2P Require Import Prelude Bytes EventLog Tool Temporal PathGuard Risk Contract.
From S2P Require Import GitGuard BashGuard Network RateLimit Warrant Taint.
From S2P Require Import SafetyLayer SafetySession.

(** [err.to_string()] *)
Definition error_text (e : ToolError) : string :=
  match e with
  | TE.PermissionDenied what => "permission denied: " +:+ what
  | TE.SchemaInvalid what => "schema validation failed: " +:+ what
  | TE.HandlerPanic what => "handler panicked: " +:+ what
  | TE.Timeout after_ms => "timed out after " +:+ fmt_N after_ms +:+ " ms"
  | TE.PathOutsideWorktree path => "path outside worktree: " +:+ path
  | TE.CommandNotAllowed what => "command not allowed: " +:+ what
  | TE.NetworkBlocked what => "network destination blocked: " +:+ what
  | TE.Cancelled => "tool call cancelled"
  | TE.Other what => "tool failure: " +:+ what
  end.

(** ** Decisions *)

Module EscalationTarget.
Inductive t : Type := UserReview | Operator | SecurityPolicy.

Definition debug (x : t) : string :=
  match x with
  | UserReview => "UserReview" | Operator => "Operator" | SecurityPolicy => "SecurityPolicy"
  end.
End EscalationTarget.
Abbreviation EscalationTarget := EscalationTarget.t.

Module AuthorizationSource.
Inductive t : Type := RoleGrant | SessionApproval | OneShotApproval | Escalation.
End AuthorizationSource.
Abbreviation AuthorizationSource := AuthorizationSource.t.

Module AuthorizationEvidence.
Record t : Type := mk { source : AuthorizationSource; detail : string }.
Definition role_grant (detail : string) : t := mk AuthorizationSource.RoleGrant detail.
Definition session_approval (detail : string) : t :=
  mk AuthorizationSource.SessionApproval detail.
Definition one_shot_approval (detail : string) : t :=
  mk AuthorizationSource.OneShotApproval detail.
Definition escalation (detail : string) : t := mk AuthorizationSource.Escalation detail.
End AuthorizationEvidence.
Abbreviation AuthorizationEvidence := AuthorizationEvidence.t.
Module AE := AuthorizationEvidence.

Module ConfirmationSource.
Inductive t : Type := Interactive | FailClosed | PreAuthorized | Escalation.
End ConfirmationSource.
Abbreviation ConfirmationSource := ConfirmationSource.t.
Module CSo := ConfirmationSource.

Module ConfirmationOutcome.
Record t : Type := mk { prompt : string; approved : bool; source : ConfirmationSource }.
End ConfirmationOutcome.
Abbreviation ConfirmationOutcome := ConfirmationOutcome.t.
Module CO := ConfirmationOutcome.

(** A channel answers a prompt. *)
Definition ConfirmationChannel : Type := string → bool.
Definition DenyAllChannel : ConfirmationChannel := λ _, false.
Definition ApproveAllChannel : ConfirmationChannel := λ _, true.
Definition LogAndDenyChannel : ConfirmationChannel := λ _, false.

Module AuthzDecision.
Inductive t : Type :=
  | Allow (evidence : list AuthorizationEvidence)
  | AllowWithConfirm (prompt : string) (evidence : list AuthorizationEvidence)
  | AllowOnce (evidence : list AuthorizationEvidence)
  | Deny (reason : string)
  | Escalate (to : EscalationTarget) (reason : string).

Definition is_immediately_allowed (d : t) : bool :=
  match d with Allow _ | AllowOnce _ => true | _ => false end.

Definition into_tool_result (d : t) : result unit ToolError :=
  match d with
  | Allow _ | AllowOnce _ => Ok tt
  | AllowWithConfirm prompt _ => Err (TE.PermissionDenied ("confirmation required: " +:+ prompt))
  | Deny reason => Err (TE.PermissionDenied reason)
  | Escalate to reason =>
      Err (TE.PermissionDenied ("escalation to " +:+ EscalationTarget.debug to
        +:+ " required: " +:+ reason))
  end.

Definition resolve_with_channel (channel : ConfirmationChannel) (d : t) :
    result unit ToolError * option ConfirmationOutcome :=
  match d with
  | Allow _ | AllowOnce _ => (Ok tt, None)
  | AllowWithConfirm prompt _ =>
      let approved := channel prompt in
      (if approved then Ok tt
       else Err (TE.PermissionDenied ("confirmation denied: " +:+ prompt)),
       Some (CO.mk prompt approved (if approved then CSo.Interactive else CSo.FailClosed)))
  | Deny reason => (Err (TE.PermissionDenied reason), None)
  | Escalate to reason =>
      let '(approved, source) :=
        match to with
        | EscalationTarget.UserReview =>
            (channel ("escalation to user review: " +:+ reason +:+ ". Approve?"), CSo.Escalation)
        | _ => (false, CSo.FailClosed)
        end in
      (if approved then Ok tt
       else Err (TE.PermissionDenied ("escalation to " +:+ EscalationTarget.debug to
              +:+ " denied: " +:+ reason)),
       Some (CO.mk reason approved source))
  end.
End AuthzDecision.
Abbreviation AuthzDecision := AuthzDecision.t.
Module AD := AuthzDecision.

(** Without a channel, what is not allowed at once is refused; a channel that denies changes
    nothing of that. *)
Lemma fail_closed d :
  is_ok (AD.into_tool_result d) = AD.is_immediately_allowed d
  ∧ is_ok (AD.resolve_with_channel DenyAllChannel d).1 = AD.is_immediately_allowed d.
Proof. by destruct d as [| | | |[]]. Qed.

(** No channel lets a denial through, nor what an operator or the security policy must see. *)
Lemma never_resolved channel d :
  match d with
  | AD.Deny _ | AD.Escalate EscalationTarget.Operator _
  | AD.Escalate EscalationTarget.SecurityPolicy _ => True
  | _ => False
  end → is_ok (AD.resolve_with_channel channel d).1 = false.
Proof. by destruct d as [| | | |[]]. Qed.

(** ** Taint of a call (provenance.rs) *)

Module CustodyTaint.
Inductive t : Type :=
  | None
  | UserInput
  | ExternalFetch (url : string)
  | ThirdPartyPlugin (name : string)
  | LegacyImport.

Definition is_active (x : t) : bool := match x with None => false | _ => true end.

Definition to_signal_taint (x : t) : Taint :=
  match x with
  | None => Taint.Clean
  | UserInput => Taint.UserInput "custody: user input"
  | ExternalFetch url => Taint.UnverifiedSource ("custody: external fetch from " +:+ url)
  | ThirdPartyPlugin name => Taint.UnverifiedSource ("custody: third-party plugin " +:+ name)
  | LegacyImport => Taint.Custom "custody: legacy import"
  end.
End CustodyTaint.
Abbreviation CustodyTaint := CustodyTaint.t.
Module CTa := CustodyTaint.

Lemma signal_taint_active x : Taint.is_tainted (CTa.to_signal_taint x) = CTa.is_active x.
Proof. by destruct x. Qed.

Module AttestationLevel.
Inductive t : Type := LocalAgent | OrgRole | ChainWitness.
End AttestationLevel.
Abbreviation AttestationLevel := AttestationLevel.t.

Module Custody.
Record t : Type := mk {
  action : string;
  principal : string;
  when : Z;
  authorized : list AuthorizationEvidence;
  why_heuristics : list string;
  why_claims : list string;
  simulation : option string;
  gates_passed : list string;
  taint : option CustodyTaint;
  result : option string;
  witness : option string;
  attestation : option AttestationLevel;
}.

Definition new (action principal : string) (when : Z) (authorized : list AuthorizationEvidence) :
    t :=
  mk action principal when authorized [] [] None [] None None None None.

Definition with_taint (taint0 : CustodyTaint) (c : t) : t :=
  mk (action c) (principal c) (when c) (authorized c) (why_heuristics c) (why_claims c)
    (simulation c) (gates_passed c) (if CTa.is_active taint0 then Some taint0 else taint c)
    (result c) (witness c) (attestation c).
Definition with_result (r : string) (c : t) : t :=
  mk (action c) (principal c) (when c) (authorized c) (why_heuristics c) (why_claims c)
    (simulation c) (gates_passed c) (taint c) (Some r) (witness c) (attestation c).
Definition with_attestation (a : AttestationLevel) (c : t) : t :=
  mk (action c) (principal c) (when c) (authorized c) (why_heuristics c) (why_claims c)
    (simulation c) (gates_passed c) (taint c) (result c) (witness c) (Some a).
Definition with_gates_passed (gates : list string) (c : t) : t :=
  mk (action c) (principal c) (when c) (authorized c) (why_heuristics c) (why_claims c)
    (simulation c) gates (taint c) (result c) (witness c) (attestation c).
Definition with_heuristics (heuristics : list string) (c : t) : t :=
  mk (action c) (principal c) (when c) (authorized c) heuristics (why_claims c) (simulation c)
    (gates_passed c) (taint c) (result c) (witness c) (attestation c).
End Custody.
Abbreviation Custody := Custody.t.

(** A taint that is not active does not clear one that was attached before. *)
Lemma taint_not_cleared c x :
  Custody.taint (Custody.with_taint CTa.None (Custody.with_taint x c))
    = Custody.taint (Custody.with_taint x c).
Proof. done. Qed.

(** The debug text of a taint. *)
Class DebugTaint := { debug_taint : CustodyTaint → string }.

Section authorize.
Context {J : Json} {JN : JsonNumber} {RX : RegexLib} {UL : UrlLib} {FS : FileSystem}.
Context {DC : DebugCapability} {DT : DebugTaint}.
Context (epoch : Z).

Definition warrant_evidence (l : SafetyLayer) : list AuthorizationEvidence :=
  match SL.warrant l with
  | Some w =>
      [AE.session_approval ("warrant issued by `" +:+ AW.issuer w +:+ "` is attached")]
  | None => []
  end.

Definition confirm_prompt (name what : string) (t : CustodyTaint) : string :=
  "tool `" +:+ name +:+ "` attempts " +:+ what +:+ " under taint " +:+ debug_taint t
    +:+ ". Allow?".

(** What a tool does that a taint makes dangerous. *)
Definition dangerous (name : string) : option string :=
  if bool_decide (name ∈ NETWORK_TOOLS) then Some "network egress"
  else if bool_decide (name ∈ EDIT_TOOLS) then Some "file write"
  else if bool_decide (name ∈ BASH_TOOLS) then Some "shell execution"
  else None.

Definition taint_decision (call : ToolCall) (taint : option CustodyTaint)
    (evidence : list AuthorizationEvidence) : AuthzDecision :=
  match taint with
  | Some active_taint =>
      if CTa.is_active active_taint then
        match dangerous (TL.name call) with
        | Some what => AD.AllowWithConfirm (confirm_prompt (TL.name call) what active_taint)
          evidence
        | None => AD.Allow evidence
        end
      else AD.Allow evidence
  | None => AD.Allow evidence
  end.

Definition authorize_call_with_taint (call : ToolCall) (ctx : ToolContext)
    (taint : option CustodyTaint) (now : Z) (l : SafetyLayer) :
    option (SafetyLayer * AuthzDecision) :=
  let evidence :=
    AE.role_grant ("role `" +:+ SL.role l +:+ "` is active for tool `" +:+ TL.name call +:+ "`")
      :: warrant_evidence l in
  match check_pre_execution epoch call ctx now l with
  | Some (l, Err err) => Some (l, AD.Deny (error_text err))
  | Some (l, Ok _) =>
      match check_contract call ctx l with
      | Err err => Some (l, AD.Deny (error_text err))
      | Ok _ => Some (l, taint_decision call taint evidence)
      end
  | None => None
  end.

Definition authorize_call (call : ToolCall) (ctx : ToolContext) (now : Z) (l : SafetyLayer) :
    option (SafetyLayer * AuthzDecision) :=
  authorize_call_with_taint call ctx None now l.

Definition authorize_exec_command (program : string) (args : list string) (now : Z)
    (l : SafetyLayer) : option (SafetyLayer * AuthzDecision) :=
  let evidence :=
    AE.role_grant ("role `" +:+ SL.role l +:+ "` is active for subprocess `" +:+ program +:+ "`")
      :: warrant_evidence l in
  match check_exec_command epoch program args now l with
  | Some (l, Ok _) => Some (l, AD.Allow evidence)
  | Some (l, Err err) => Some (l, AD.Deny (error_text err))
  | None => None
  end.

(** ** When a call may run *)

Lemma and_then_ok (g1 g2 : guard) l l' u :
  and_then g1 g2 l = Some (l', Ok u) → ∃ l1 u1, g1 l = Some (l1, Ok u1) ∧ g2 l1 = Some (l', Ok u).
Proof. unfold and_then. destruct (g1 l) as [[l1 [u1|]]|]; naive_solver. Qed.

(** The contract that the decision asks again has just been asked. *)
Lemma contract_asked_twice call ctx now l l' u :
  check_pre_execution epoch call ctx now l = Some (l', Ok u) → check_contract call ctx l' = Ok u.
Proof.
  unfold check_pre_execution. intros H.
  do 8 apply and_then_ok in H as (? & ? & _ & H). by injection H as -> ->.
Qed.

Definition needs_confirmation (call : ToolCall) (taint : option CustodyTaint) : bool :=
  match taint with
  | Some t => CTa.is_active t && bool_decide (is_Some (dangerous (TL.name call)))
  | None => false
  end.

(** A call runs under a channel exactly when all guards admit it and, where its tool is dangerous
    under the taint of the context, the channel approves; without a channel such a call is
    refused.  The decision changes the layer as the guards do. *)
Theorem authorized_spec call ctx taint now channel l l' d :
  authorize_call_with_taint call ctx taint now l = Some (l', d) →
  ∃ r, check_pre_execution epoch call ctx now l = Some (l', r)
    ∧ (is_ok (AD.resolve_with_channel channel d).1 = true ↔
         is_ok r = true ∧ ∀ t what, taint = Some t → CTa.is_active t = true →
           dangerous (TL.name call) = Some what →
           channel (confirm_prompt (TL.name call) what t) = true)
    ∧ (is_ok (AD.into_tool_result d) = true ↔
         is_ok r = true ∧ needs_confirmation call taint = false).
Proof.
  unfold authorize_call_with_taint.
  destruct (check_pre_execution epoch call ctx now l) as [[l1 [u|e]]|] eqn:E; [| |done].
  - rewrite (contract_asked_twice _ _ _ _ _ _ E). intros [= <- <-]. exists (Ok u).
    split; [done|]. unfold taint_decision, needs_confirmation.
    destruct taint as [t|]; [|split; [|done]; split; [|done]; by intros _].
    destruct (CTa.is_active t) eqn:Ht;
      [|split; [|done]; split; [|done]; intros _; split; [done|]; intros t' what [= <-] Ht';
        congruence].
    destruct (dangerous (TL.name call)) as [what|];
      [|split; [|done]; split; [|done]; by intros _].
    cbn [AD.resolve_with_channel AD.into_tool_result fst is_ok andb].
    rewrite bool_decide_true by done. split; [|by split; [|intros [_ ?]]]. split.
    + destruct (channel _) eqn:Ech; [|done]. intros _. split; [done|].
      by intros t' what' [= <-] _ [= <-].
    + intros [_ H]. by rewrite (H t what eq_refl Ht eq_refl).
  - intros [= <- <-]. exists (Err e). split; [done|]. split; by split; [|intros [? _]].
Qed.
End authorize.

(** ** After a tool has run *)

Section results.
Context {J : Json} {SR : ScrubRegex}.

Definition scrub_output (result : ToolResult) (l : SafetyLayer) : ToolResult :=
  match result with
  | TR.Ok content is_structured artifacts =>
      TR.Ok (scrub_secrets content (SL.scrub_policy l)) is_structured artifacts
  | TR.Err err => TR.Err err
  end.

Definition check_recovery (result : ToolResult) (l : SafetyLayer) : Prelude.result unit ToolError :=
  match AC.applicable_recovery result (SL.contract l) with
  | Some recovery => Err (RA.into_tool_error (AC.role (SL.contract l)) recovery)
  | None => Ok tt
  end.

Definition scrub_text (content : string) (l : SafetyLayer) : string :=
  scrub_secrets content (SL.scrub_policy l).

(** A success is never recovered from. *)
Lemma recovery_of_errors result l :
  TR.is_ok result = true → check_recovery result l = Ok tt.
Proof. by destruct result. Qed.
End results.

(** ** Around a dispatch *)

Module ViolationType.
Inductive t : Type :=
  PathEscape | SecretLeak | ContractViolation | BudgetExhausted | ForbiddenTool.

Definition display (x : t) : string :=
  match x with
  | PathEscape => "path_escape"
  | SecretLeak => "secret_leak"
  | ContractViolation => "contract_violation"
  | BudgetExhausted => "budget_exhausted"
  | ForbiddenTool => "forbidden_tool"
  end.
End ViolationType.
Abbreviation ViolationType := ViolationType.t.
Module VTy := ViolationType.

Module ViolationSeverity.
Inductive t : Type := Block | Warn.
Definition debug (x : t) : string := match x with Block => "Block" | Warn => "Warn" end.
End ViolationSeverity.
Abbreviation ViolationSeverity := ViolationSeverity.t.
Module VSe := ViolationSeverity.

Module SafetyViolation.
Record t : Type := mk {
  plan_id : string;
  task_id : string;
  violation_type : ViolationType;
  message : string;
  severity : ViolationSeverity;
}.

Definition display (v : t) : string :=
  "[" +:+ VSe.debug (severity v) +:+ "] " +:+ plan_id v +:+ "/" +:+ task_id v +:+ ": "
    +:+ message v +:+ " (" +:+ VTy.display (violation_type v) +:+ ")".
End SafetyViolation.
Abbreviation SafetyViolation := SafetyViolation.t.
Module SV := SafetyViolation.

Definition zero_tokens (i : Invariant) : bool :=
  match i with Invariant.MaxTokensPerTurn max_tokens => (max_tokens =? 0)%N | _ => false end.

Definition pre_dispatch_check {FS : FileSystem} (plan_id task_id role exec_dir : string)
    (l : SafetyLayer) : result unit SafetyViolation :=
  let canonical := stdpp.option.default exec_dir (fs_canonicalize exec_dir) in
  if PP.prevent_escapes (SL.path_policy l) && str_contains ".." canonical then
    Err (SV.mk plan_id task_id VTy.PathEscape
      ("execution directory `" +:+ exec_dir +:+ "` contains path traversal") VSe.Block)
  else if existsb zero_tokens (AC.invariants (SL.contract l)) then
    Err (SV.mk plan_id task_id VTy.ContractViolation
      ("role `" +:+ role +:+ "` has zero token budget; dispatch blocked") VSe.Block)
  else
    match SL.safety_budget l with
    | Some tracker =>
        if BT.is_exhausted tracker then
          Err (SV.mk plan_id task_id VTy.BudgetExhausted
            ("safety budget exhausted for role `" +:+ role +:+ "`") VSe.Block)
        else Ok tt
    | None => Ok tt
    end.

Definition outside_worktree (file : string) : bool :=
  str_contains ".." file || str_starts_with "/" file.

(** A rule that forbids the tools that write. *)
Definition forbids_writes (rule : GovernanceRule) : bool :=
  match rule with
  | GR.ForbiddenTools tools =>
      bool_decide ("write_file" ∈ tools) || bool_decide ("edit_file" ∈ tools)
  | _ => false
  end.

Definition post_dispatch_check {SR : ScrubRegex} (plan_id task_id role agent_output : string)
    (changed_files : list string) (l : SafetyLayer) : list SafetyViolation :=
  let violation kind message := SV.mk plan_id task_id kind message VSe.Warn in
  (if negb (string_eqb (scrub_secrets agent_output (SL.scrub_policy l)) agent_output) then
     [violation VTy.SecretLeak "agent output contains secrets that were scrubbed"] else [])
  ++ (if PP.prevent_escapes (SL.path_policy l) then
        (λ file, violation VTy.PathEscape
          ("agent modified file outside worktree: " +:+ file))
          <$> List.filter outside_worktree changed_files
      else [])
  ++ ((λ _, violation VTy.ContractViolation
         ("role `" +:+ role +:+ "` forbids file writes but "
            +:+ fmt_N (N.of_nat (length changed_files)) +:+ " files were changed"))
        <$> List.filter (λ rule, forbids_writes rule && negb (bool_decide (changed_files = [])))
              (AC.governance (SL.contract l))).

Definition rule_anti_pattern (rule : GovernanceRule) : list string :=
  match rule with
  | GR.ForbiddenTools (_ :: _ as tools) =>
      ["Never use these forbidden tools: " +:+ str_join ", " tools +:+ "."]
  | GR.MaxToolCallsPerTurn max =>
      ["Limit tool calls to " +:+ fmt_N max +:+ " per turn to stay within governance bounds."]
  | GR.MaxConsecutiveFailures max =>
      ["After " +:+ fmt_N max +:+ " consecutive failures, stop and report rather than retrying."]
  | _ => []
  end.

Definition invariant_anti_pattern (i : Invariant) : list string :=
  match i with
  | Invariant.NoNetworkAccess =>
      ["This role has no network access; never call network tools."]
  | Invariant.RequireGateBeforeCommit =>
      ["Never commit without a passing gate verification first."]
  | _ => []
  end.

Definition constraints_as_anti_patterns (l : SafetyLayer) : list string :=
  (if bool_decide (BP.deny_patterns (SL.bash_policy l) = []) then []
   else ["Never run dangerous shell commands: rm -rf /, sudo, curl|sh pipes, fork bombs, mkfs, or raw-device I/O."])
  ++ (if bool_decide (GP.protected_branches (SL.git_policy l) = []) then []
      else ["Never force-push or delete protected branches: "
              +:+ str_join ", " (GP.protected_branches (SL.git_policy l)) +:+ "."])
  ++ (if bool_decide (NP.allow_hosts (SL.network_policy l) = []) then []
      else ["Network access is restricted to an allowlist of hosts; do not fetch from arbitrary URLs."])
  ++ (if bool_decide (NP.deny_hosts (SL.network_policy l) = []) then []
      else ["Certain network hosts are blocked by policy; avoid requests to internal or denied destinations."])
  ++ concat (rule_anti_pattern <$> AC.governance (SL.contract l))
  ++ concat (invariant_anti_pattern <$> AC.invariants (SL.contract l))
  ++ (if PP.prevent_escapes (SL.path_policy l) then
        ["Never read or write files outside the designated worktree root."] else []).

(** An agent is started exactly when its directory has no [..] in its name, its role may use
    tokens, and some budget is left; what stops it always blocks. *)
Theorem pre_dispatch_spec {FS : FileSystem} plan_id task_id role exec_dir l :
  match pre_dispatch_check plan_id task_id role exec_dir l with
  | Ok _ =>
      (PP.prevent_escapes (SL.path_policy l) = true →
         str_contains ".." (stdpp.option.default exec_dir (fs_canonicalize exec_dir)) = false)
      ∧ (Invariant.MaxTokensPerTurn 0 ∉ AC.invariants (SL.contract l))
      ∧ (∀ tracker, SL.safety_budget l = Some tracker → BT.is_exhausted tracker = false)
  | Err v => SV.severity v = VSe.Block
  end.
Proof.
  unfold pre_dispatch_check. set (canonical := stdpp.option.default _ _).
  destruct (PP.prevent_escapes _ && str_contains ".." canonical) eqn:E1; [done|].
  destruct (existsb zero_tokens _) eqn:E2; [done|].
  assert ((PP.prevent_escapes (SL.path_policy l) = true → str_contains ".." canonical = false)
    ∧ Invariant.MaxTokensPerTurn 0 ∉ AC.invariants (SL.contract l)) as [H1 H2].
  { split; [intros H; by rewrite H in E1|]. intros H. apply not_true_iff_false in E2. apply E2.
    apply existsb_exists. eexists. split; [by apply list_elem_of_In|done]. }
  destruct (SL.safety_budget l) as [tracker|]; [|naive_solver].
  destruct (BT.is_exhausted tracker) eqn:E3; [done|]. naive_solver.
Qed.

(** What the check after a dispatch reports. *)
Lemma post_dispatch_spec {SR : ScrubRegex} plan_id task_id role output files l :
  let vs := post_dispatch_check plan_id task_id role output files l in
  Forall (λ v, SV.severity v = VSe.Warn) vs
  ∧ (vs = [] ↔ scrub_text output l = output
       ∧ (PP.prevent_escapes (SL.path_policy l) = true →
            Forall (λ f, outside_worktree f = false) files)
       ∧ (files = [] ∨ Forall (λ r, forbids_writes r = false) (AC.governance (SL.contract l)))).
Proof.
  unfold post_dispatch_check, scrub_text. cbv zeta. split.
  - repeat apply Forall_app_2.
    + by destruct (negb _); repeat constructor.
    + destruct (PP.prevent_escapes _); [|constructor]. apply Forall_fmap, Forall_true. done.
    + apply Forall_fmap, Forall_true. done.
  - assert (∀ {A} (p : A → bool) xs, List.filter p xs = [] ↔ Forall (λ x, p x = false) xs) as Hf.
    { intros A p xs. induction xs as [|x xs IH]; cbn; [by split|]. rewrite Forall_cons.
      destruct (p x) eqn:Ep; [split; [done|intros [? _]; congruence]|]. naive_solver. }
    assert (∀ {A B} (f : A → B) xs, f <$> xs = [] ↔ xs = []) as Hm by (by intros ?? f []).
    rewrite !app_nil, Hm, Hf. f_equiv; [|f_equiv].
    + unfold string_eqb. destruct (bool_decide_reflect
        (scrub_secrets output (SL.scrub_policy l) = output)); by split.
    + destruct (PP.prevent_escapes _); [|naive_solver]. rewrite Hm, Hf. naive_solver.
    + destruct files as [|f files].
      * split; [by left|]. intros _. apply Forall_true. intros r. by rewrite andb_false_r.
      * rewrite bool_decide_false by done. setoid_rewrite andb_true_r. naive_solver.
Qed.

(** ** At work *)

#[local] Existing Instance simple_Json.
#[local] Existing Instance metadata_url.
#[local] Existing Instance sample_fs.
#[local] Existing Instance no_numbers.
#[local] Existing Instance no_regex.
#[local] Existing Instance no_debug.
#[local] Instance short_taint : DebugTaint := {| debug_taint _ := "ExternalFetch" |}.

Definition decide_on (name key value : string) (taint : option CustodyTaint) :
    option AuthzDecision :=
  snd <$> authorize_call_with_taint 0 (simple_args name [(key, JStr value)]) fresh_context taint
            100000000000 open_layer.

Example decisions :
  let fetched := Some (CTa.ExternalFetch "https://example.org") in
  (AD.is_immediately_allowed <$>
     omap (λ d, d) [decide_on "read_file" "path" "a" fetched;
       decide_on "write_file" "path" "a" None;
       decide_on "write_file" "path" "a" (Some CTa.None);
       decide_on "write_file" "path" "a" fetched; decide_on "bash" "command" "ls" fetched;
       decide_on "bash" "command" "rm -rf /" None]) = [true; true; true; false; false; false]
  ∧ (λ d, is_ok (AD.resolve_with_channel ApproveAllChannel d).1) <$>
      decide_on "bash" "command" "rm -rf /" fetched = Some false
  ∧ (λ d, is_ok (AD.resolve_with_channel ApproveAllChannel d).1) <$>
      decide_on "write_file" "path" "a" fetched = Some true.
Proof. by vm_compute. Qed.

Lemma authorized_spec_witness :
  ∃ l' d, authorize_call_with_taint 0 (simple_args "bash" [("command", JStr "ls")]) fresh_context
      (Some CTa.UserInput) 100000000000 open_layer = Some (l', d)
    ∧ is_ok (AD.into_tool_result d) = false.
Proof.
  destruct (authorize_call_with_taint 0 (simple_args "bash" [("command", JStr "ls")]) fresh_context
    (Some CTa.UserInput) 100000000000 open_layer) as [[l' d]|] eqn:E; [|vm_compute in E;
      discriminate].
  exists l', d. split; [done|]. apply not_true_iff_false. intros H.
  destruct (authorized_spec 0 (simple_args "bash" [("command", JStr "ls")]) fresh_context
    (Some CTa.UserInput) 100000000000 ApproveAllChannel open_layer l' d E) as (r & Hc & Hch & Hr).
  destruct (proj1 Hr H) as [Hok Hn]. vm_compute in Hn. discriminate.
Defined.

(** Two dots in a name are taken for a climb. *)
Example two_dots :
  is_ok (pre_dispatch_check "p" "t" "implementer" "/work/v1..v2" open_layer) = false
  ∧ outside_worktree "src/v1..v2.rs" = true.
Proof. by vm_compute. Qed.

(** Of the tools that write, two are looked for when files were changed. *)
Example other_writers :
  forbids_writes (GR.ForbiddenTools ["multi_edit"; "apply_patch"; "notebook_edit"]) = false.
Proof. by vm_compute. Qed.
