(* ===== verification/Translate.v ===== *)
(** * Responses of models and the OpenAI translator (crates/roko-agent/src/translate/mod.rs and
      openai.rs, roko-core/src/chat_types.rs and usage.rs)

    What is read out of a response, token usage, and how tool calls and results are written in
    the messages of a conversation. *)

From Stdlib Require Import SpecFloat.
From S2P Require Import Prelude Text Bytes EventLog Diagnosis Task Body Permit Sandbox Tool.
From S2P Require Import GitGuard BashGuard RateLimit Temporal Network PathGuard Warrant Risk.
From S2P Require Import Contract SafetyLayer Authz Dispatcher.

(** ** JSON values that are built *)

(** [json!] on strings, booleans, arrays and objects; [Map::insert] on an object, other values
    staying as they are; [serde_json::from_str]. *)
Class JsonBuild {J : Json} := {
  json_string : string → json;
  json_boolean : bool → json;
  json_array : list json → json;
  json_object : list (string * json) → json;
  json_insert : string → json → json → json;
  json_parse : string → option json;
}.

(** What building and reading have to do with each other. *)
Class JsonBuildLaws {J : Json} (B : JsonBuild) : Prop := {
  as_str_string s : json_as_str (json_string s) = Some s;
  as_bool_boolean b : json_as_bool (json_boolean b) = Some b;
  as_array_array l : json_as_array (json_array l) = Some l;
  get_object k l : NoDup l.*1 → json_get k (json_object l) = (list_to_map l : gmap string json)
    !! k;
  get_insert k k' v j :
    is_Some (json_get k j) → json_get k' (json_insert k v j) = if decide (k = k') then Some v
                                                               else json_get k' j;
}.

(** The number that digits write. *)
Definition digits_number (l : list N) : N := digits_val ((λ b, b - 48)%N <$> l).

(** [Value::pointer], of the names and indices between its slashes. *)
Definition parse_index (tok : string) : option nat :=
  match codes tok with
  | [] => None
  | b :: l =>
      if forallb is_digit (b :: l) && (negb (b =? 48)%N || bool_decide (l = [])) then
        Some (N.to_nat (digits_number (b :: l)))
      else None
  end.

Section pointer.
Context {J : Json}.

Definition pointer_step (v : json) (tok : string) : option json :=
  match json_as_array v with
  | Some l => parse_index tok ≫= λ i, l !! i
  | None => json_get tok v
  end.
Fixpoint pointer (toks : list string) (v : json) : option json :=
  match toks with
  | [] => Some v
  | tok :: toks' => pointer_step v tok ≫= pointer toks'
  end.

Definition str_at (toks : list string) (v : json) : option string := pointer toks v ≫= json_as_str.
Definition has_type (ty : string) (ev : json) : bool :=
  bool_decide ((json_get "type" ev ≫= json_as_str) = Some ty).
End pointer.

(** ** Finish reasons *)

Module FinishReason.
Inductive t : Type := Stop | Length | ToolCalls | ContentFilter | Error (what : string).
End FinishReason.
Abbreviation FinishReason := FinishReason.t.
Module FRe := FinishReason.

Definition normalize_finish_reason (raw : string) : FinishReason :=
  if decide (raw = "stop" ∨ raw = "end_turn") then FRe.Stop
  else if decide (raw = "length" ∨ raw = "max_tokens") then FRe.Length
  else if decide (raw = "tool_calls" ∨ raw = "tool_use") then FRe.ToolCalls
  else if decide (raw = "content_filter" ∨ raw = "sensitive") then FRe.ContentFilter
  else if decide (raw = "network_error") then FRe.Error "network_error"
  else if decide (raw = "model_context_window_exceeded") then FRe.Error "context_overflow"
  else FRe.Error raw.

(** ** Usage *)

(** A cast of an [f64] to [f32], rounded. *)
Definition f32_from_f64 (f : F64.t) : F32.t :=
  match f with
  | S754_finite s m e => binary_normalize 24 128 (if s then Zneg m else Zpos m) e s
  | f => f
  end.
Definition F32_EPSILON : F32.t := F32.lit 1 8388608.
Definition f32_abs (f : F32.t) : F32.t := SFabs f.

Module Usage.
Record t : Type := mk {
  input_tokens : N;
  output_tokens : N;
  cache_read_tokens : N;
  cache_create_tokens : N;
  cost_usd : F32.t;
  wall_ms : N;
}.

Definition zero : t := mk 0 0 0 0 F32.zero 0.
Definition total_tokens (u : t) : N :=
  add32 (add32 (input_tokens u) (output_tokens u)) (cache_create_tokens u).

(** [add]: token counts wrap, as in a release build. *)
Definition add (u other : t) : t :=
  mk (add32 (input_tokens u) (input_tokens other))
    (add32 (output_tokens u) (output_tokens other))
    (add32 (cache_read_tokens u) (cache_read_tokens other))
    (add32 (cache_create_tokens u) (cache_create_tokens other))
    (F32.add (cost_usd u) (cost_usd other))
    ((wall_ms u + wall_ms other) mod (u64_MAX + 1)).

Definition set_cost (cost : F32.t) (u : t) : t :=
  mk (input_tokens u) (output_tokens u) (cache_read_tokens u) (cache_create_tokens u) cost
    (wall_ms u).

Definition has_known_cost (u : t) : bool :=
  F32.lt F32_EPSILON (f32_abs (cost_usd u)) || (total_tokens u =? 0)%N.

Definition per_million (tokens : N) (price : F64.t) : F64.t :=
  F64.div (F64.mul (F64.of_N tokens) price) (F64.of_Z 1000000).

Definition fill_cost_from_pricing (input_per_m output_per_m cache_read_per_m : option F64.t)
    (u : t) : t :=
  if F32.lt F32_EPSILON (f32_abs (cost_usd u)) then u
  else
    match input_per_m, output_per_m with
    | Some inp, Some out =>
        let cache_r := stdpp.option.default (F64.mul inp (F64.lit 1 10)) cache_read_per_m in
        set_cost (f32_from_f64
          (F64.add (F64.add (per_million (input_tokens u) inp) (per_million (output_tokens u) out))
             (per_million (cache_read_tokens u) cache_r))) u
    | _, _ => u
    end.
End Usage.
Abbreviation Usage := Usage.t.

Module UsageSource.
Inductive t : Type := ProviderReported | Estimated | Unknown.
End UsageSource.
Abbreviation UsageSource := UsageSource.t.

Module UsageObservation.
Record t : Type := mk {
  input_tokens : option N;
  output_tokens : option N;
  cache_creation_tokens : option N;
  cache_read_tokens : option N;
  cost_usd : option F64.t;
  source : UsageSource;
  model : option string;
  wall_ms : N;
}.
Definition default : t := mk None None None None None UsageSource.Unknown None 0.

Definition from_usage (u : Usage) : t :=
  mk (Some (Usage.input_tokens u)) (Some (Usage.output_tokens u))
    (Some (Usage.cache_create_tokens u)) (Some (Usage.cache_read_tokens u))
    (Some (f64_from_f32 (Usage.cost_usd u))) UsageSource.Unknown None (Usage.wall_ms u).

Definition clamp_u32 (value : option N) : N :=
  match value with Some v => u32_try_or_max v | None => 0 end.
Definition into_usage (o : t) : Usage :=
  Usage.mk (clamp_u32 (input_tokens o)) (clamp_u32 (output_tokens o))
    (clamp_u32 (cache_read_tokens o)) (clamp_u32 (cache_creation_tokens o))
    (match cost_usd o with Some v => f32_from_f64 v | None => F32.zero end) (wall_ms o).
End UsageObservation.
Abbreviation UsageObservation := UsageObservation.t.
Module UO := UsageObservation.

(** ** Responses *)

Module BackendResponse.
Inductive t {J : Json} : Type := Json (v : json) | StreamJson (events : list json) |
  Text (s : string).
Arguments t {_}.
Arguments Json {_}.
Arguments StreamJson {_}.
Arguments Text {_}.
End BackendResponse.
Abbreviation BackendResponse := BackendResponse.t.
Module BR := BackendResponse.

Definition DEFAULT_TOOL_OUTPUT_TRUNCATE_AT : nat := N.to_nat 4096.

Definition nonempty (s : string) : option string := if str_is_empty s then None else Some s.
(** [if buf.is_empty() { None } else { Some(buf) }] of the pieces found. *)
Definition collected (pieces : list string) : option string := nonempty (str_join "" pieces).

Section responses.
Context {J : Json}.

Definition str_field (key : string) (v : json) : option string := json_get key v ≫= json_as_str.

Definition extract_gemini_text (v : json) : option string :=
  match pointer ["candidates"; "0"; "content"; "parts"] v ≫= json_as_array with
  | Some parts => head (omap (λ part, str_field "text" part ≫= nonempty) parts)
  | None => None
  end.

(** The output of a tool event, cut at a boundary of characters. *)
Definition cut_output (marker content : string) : option string :=
  if (DEFAULT_TOOL_OUTPUT_TRUNCATE_AT <? String.length content)%nat then
    Some (of_codes (take (boundary_below (codes content) DEFAULT_TOOL_OUTPUT_TRUNCATE_AT)
                      (codes content)) +:+ marker)
  else None.
Definition tool_content (ev : json) : option string :=
  or_else (str_field "content" ev) (str_field "output" ev) ≫= nonempty.
Definition newline : string := of_codes [10]%N.

Definition event_text (ev : json) : string :=
  if has_type "tool" ev then
    match tool_content ev with
    | Some content =>
        newline +:+ "[" +:+ stdpp.option.default "tool" (str_field "tool" ev) +:+ "]" +:+ newline
          +:+ stdpp.option.default (content +:+ newline)
                (cut_output ("...[truncated]" +:+ newline) content)
    | None => ""
    end
  else
    match str_at ["delta"; "text"] ev with
    | Some delta => delta
    | None =>
        match str_at ["content_block"; "text"] ev with
        | Some text => text
        | None =>
            match pointer ["message"; "content"] ev ≫= json_as_array with
            | Some blocks =>
                str_join "" (omap (λ block,
                  if has_type "text" block then str_field "text" block else None) blocks)
            | None => ""
            end
        end
    end.

Definition extract_text (r : BackendResponse) : string :=
  match r with
  | BR.Text s => s
  | BR.Json v =>
      stdpp.option.default ""
        (or_else (str_at ["message"; "content"] v)
           (or_else (str_at ["choices"; "0"; "message"; "content"] v) (extract_gemini_text v)))
  | BR.StreamJson events => str_join "" (event_text <$> events)
  end.

Definition extract_tool_outputs (r : BackendResponse) : list (option string * string) :=
  match r with
  | BR.StreamJson events =>
      omap (λ ev,
        if has_type "tool" ev then
          (λ content, (str_field "tool" ev,
                       stdpp.option.default content (cut_output "...[truncated]" content)))
            <$> tool_content ev
        else None) events
  | _ => []
  end.

Definition extract_session_id (r : BackendResponse) : option string :=
  match r with
  | BR.StreamJson events =>
      head (omap (λ ev, if has_type "result" ev then str_field "session_id" ev else None)
              (reverse events))
  | _ => None
  end.

Definition thinking_of (v : json) : option string :=
  or_else (str_field "thinking" v) (str_field "text" v).
Definition extract_reasoning_from_blocks (blocks : list json) : option string :=
  collected (omap (λ block, if has_type "thinking" block then thinking_of block else None) blocks).
Definition extract_reasoning_from_value (v : json) : option string :=
  or_else (str_field "reasoning_content" v)
    ((json_get "content" v ≫= json_as_array) ≫= extract_reasoning_from_blocks).
Definition typed_thinking (key ty : string) (ev : json) : option string :=
  block ← json_get key ev; if has_type ty block then thinking_of block else None.
Definition extract_reasoning_from_stream_event (ev : json) : option string :=
  or_else (str_at ["delta"; "reasoning_content"] ev)
    (or_else (str_at ["delta"; "thinking"] ev)
       (or_else (str_at ["content_block"; "reasoning_content"] ev)
          (or_else (typed_thinking "content_block" "thinking" ev)
             (typed_thinking "delta" "thinking_delta" ev)))).

Definition extract_reasoning (r : BackendResponse) : option string :=
  match r with
  | BR.Json v =>
      or_else (pointer ["choices"; "0"; "message"] v ≫= extract_reasoning_from_value)
        (or_else (pointer ["message"] v ≫= extract_reasoning_from_value)
           (extract_reasoning_from_value v))
  | BR.StreamJson events => collected (omap extract_reasoning_from_stream_event events)
  | BR.Text _ => None
  end.

Definition u64_field (key : string) (v : json) : option N := json_get key v ≫= json_as_u64.

Definition parse_usage_observation (response : json) : UsageObservation :=
  match json_get "usage" response with
  | None => UO.default
  | Some usage =>
      UO.mk (or_else (json_get "prompt_tokens" usage) (json_get "input_tokens" usage) ≫=
        json_as_u64)
        (or_else (json_get "completion_tokens" usage) (json_get "output_tokens" usage)
           ≫= json_as_u64)
        None
        (or_else (pointer ["prompt_tokens_details"; "cached_tokens"] usage)
           (json_get "cached_tokens" usage) ≫= json_as_u64)
        None UsageSource.ProviderReported None 0
  end.
Definition parse_usage (response : json) : Usage :=
  UO.into_usage (parse_usage_observation response).

Definition tokens_of (key : string) (usage : json) : N :=
  u32_try_or_max (stdpp.option.default 0%N (u64_field key usage)).
Definition claude_usage (usage : json) : Usage :=
  Usage.mk (tokens_of "input_tokens" usage) (tokens_of "output_tokens" usage)
    (tokens_of "cache_read_input_tokens" usage) (tokens_of "cache_creation_input_tokens" usage)
    F32.zero 0.

(** The last event of a type. *)
Definition last_of_type (ty : string) (events : list json) : option json :=
  List.find (has_type ty) (reverse events).
Definition assistant_usage (ev : json) : option json :=
  if has_type "assistant" ev then json_get "message" ev ≫= json_get "usage" else None.

Definition extract_usage (r : BackendResponse) : Usage :=
  match r with
  | BR.Json v => parse_usage v
  | BR.StreamJson events =>
      match last_of_type "result" events ≫= json_get "usage" with
      | Some usage => claude_usage usage
      | None =>
          match head (omap assistant_usage (reverse events)) with
          | Some usage => claude_usage usage
          | None => Usage.zero
          end
      end
  | BR.Text _ => Usage.zero
  end.

Definition is_tool_use (ev : json) : bool :=
  match
    (if has_type "content_block_start" ev then json_get "content_block" ev else None)
  with
  | Some block => has_type "tool_use" block
  | None =>
      has_type "assistant" ev
      && match pointer ["message"; "content"] ev ≫= json_as_array with
         | Some content => existsb (has_type "tool_use") content
         | None => false
         end
  end.

Definition extract_finish_reason_raw (r : BackendResponse) : option string :=
  match r with
  | BR.Json v => str_at ["choices"; "0"; "finish_reason"] v
  | BR.StreamJson events =>
      ev ← last_of_type "result" events;
      if bool_decide ((json_get "is_error" ev ≫= json_as_bool) = Some true) then Some "error"
      else
        Some (stdpp.option.default (if existsb is_tool_use events then "tool_use" else "end_turn")
                (str_field "stop_reason" ev ≫= nonempty))
  | BR.Text _ => None
  end.

Definition confidence_keys : list (list string) :=
  [["confidence"]; ["confidence_score"]; ["score"]; ["message"; "confidence"];
   ["choices"; "0"; "message"; "confidence"]].

(** [get_value]: a number is an index, which only an array has. *)
Definition parse_usize (tok : string) : option nat :=
  let l := match codes tok with 43%N :: l => l | l => l end in
  if negb (bool_decide (l = [])) && forallb is_digit l && (digits_number l <=? u64_MAX)%N then
    Some (N.to_nat (digits_number l))
  else None.
Definition get_value_step (v : json) (part : string) : option json :=
  match parse_usize part with
  | Some i => json_as_array v ≫= λ l, l !! i
  | None => json_get part v
  end.
Fixpoint get_value (parts : list string) (v : json) : option json :=
  match parts with
  | [] => Some v
  | part :: parts' => get_value_step v part ≫= get_value parts'
  end.

Definition extract_confidence {JN : JsonNumber} (r : BackendResponse) : option F32.t :=
  v ← match r with BR.Json v => Some v | BR.StreamJson events => last events |
    BR.Text _ => None end;
  f32_from_f64 <$> head (omap (λ parts, get_value parts v ≫= json_as_f64) confidence_keys).
End responses.

(** ** What the loop says to a model *)

Module RenderedTools.
Inductive t {J : Json} : Type :=
  | JsonArray (v : json) | CliFlag (s : string) | SystemPromptBlock (s : string).
Arguments t {_}.
End RenderedTools.
Abbreviation RenderedTools := RenderedTools.t.

Module RenderedResults.
Inductive t {J : Json} : Type :=
  | JsonMessages (v : json) | TextBlock (s : string) | HandledByBackend.
Arguments t {_}.
Arguments JsonMessages {_}.
Arguments TextBlock {_}.
Arguments HandledByBackend {_}.
End RenderedResults.
Abbreviation RenderedResults := RenderedResults.t.
Module RR := RenderedResults.

(** [TranslatorError], the other error of which no translator here has. *)
Module TranslatorError.
Inductive t : Type := Malformed (what : string).
Definition display (e : t) : string :=
  match e with Malformed what => "malformed response: " +:+ what end.
End TranslatorError.
Abbreviation TranslatorError := TranslatorError.t.

Section messages.
Context {J : Json} {JB : JsonBuild}.

Definition message (role content : string) : json :=
  json_object [("role", json_string role); ("content", json_string content)].

Definition initial_messages (system user : string) : list json :=
  [message "system" system; message "user" user].
Definition initial_messages_with_few_shot (system user : string) (few_shot : list json) :
    list json :=
  message "system" system :: few_shot ++ [message "user" user].

Definition append_results (messages : list json) (rendered : RenderedResults) : list json :=
  match rendered with
  | RR.JsonMessages arr =>
      match json_as_array arr with Some msgs => messages ++ msgs | None => messages ++ [arr] end
  | RR.TextBlock text => messages ++ [message "user" text]
  | RR.HandledByBackend => messages
  end.
End messages.

(** ** The OpenAI translator (openai.rs) *)

(** [str::replace] for a pattern that is not empty: the matches from the left that do not overlap;
    [skip] bytes of a match are still to be passed. *)
Fixpoint replace_codes (pat rep : list N) (skip : nat) (l : list N) : list N :=
  match l with
  | [] => []
  | b :: l' =>
      match skip with
      | S k => replace_codes pat rep k l'
      | O =>
          if bool_decide (take (length pat) l = pat) then
            rep ++ replace_codes pat rep (length pat - 1) l'
          else b :: replace_codes pat rep 0 l'
      end
  end.
Definition str_replace (pat rep s : string) : string :=
  of_codes (replace_codes (codes pat) (codes rep) 0 (codes s)).

Definition sanitize_tool_name (name : string) : string :=
  if str_contains "." name then str_replace "." "__DOT__" name else name.
Definition unsanitize_tool_name (name : string) : string :=
  if str_contains "__DOT__" name then str_replace "__DOT__" "." name else name.

Section openai.
Context {J : Json} {JB : JsonBuild}.

Definition build_partial_continuation (truncated_content : string) : json :=
  json_object [("role", json_string "assistant"); ("content", json_string truncated_content);
    ("partial", json_boolean true)].

Definition call_arguments (args_str : string) : json :=
  match json_parse args_str with
  | Some v => v
  | None => json_object [("__truncated", json_boolean true); ("raw", json_string args_str)]
  end.

(** [now] is the time [ToolCall::new] stamps the call with. *)
Definition parse_call (now : Z) (call : json) : result ToolCall TranslatorError :=
  let id := stdpp.option.default "" (str_field "id" call) in
  match str_at ["function"; "name"] call with
  | None => Err (TranslatorError.Malformed "missing function.name")
  | Some raw_name =>
      Ok (TL.mk id (unsanitize_tool_name raw_name)
            (call_arguments (stdpp.option.default "{}" (str_at ["function"; "arguments"] call)))
            now)
  end.
Fixpoint parse_all (now : Z) (calls : list json) : result (list ToolCall) TranslatorError :=
  match calls with
  | [] => Ok []
  | c :: calls' =>
      let? tool_call := parse_call now c in
      let? rest := parse_all now calls' in Ok (tool_call :: rest)
  end.
Definition parse_calls (now : Z) (response : BackendResponse) :
    result (list ToolCall) TranslatorError :=
  match response with
  | BR.Json v =>
      match pointer ["choices"; "0"; "message"; "tool_calls"] v ≫= json_as_array with
      | None => Ok []
      | Some arr => parse_all now arr
      end
  | _ => Err (TranslatorError.Malformed "expected json")
  end.

Definition render_result (cr : ToolCall * ToolResult) : json :=
  json_object [("role", json_string "tool"); ("tool_call_id", json_string (TL.id cr.1));
    ("content", json_string match cr.2 with
                            | TR.Ok content _ _ => content
                            | TR.Err e => "error: " +:+ error_text e
                            end)].
Definition render_results (results : list (ToolCall * ToolResult)) : RenderedResults :=
  RR.JsonMessages (json_array (render_result <$> results)).

Definition render_assistant_message (response : BackendResponse) : option json :=
  match response with
  | BR.Json v => pointer ["choices"; "0"; "message"] v
  | _ => None
  end.
End openai.

(** ** Names of tools on the wire *)

Definition DOT : list N := [95; 95; 68; 79; 84; 95; 95]%N.
Definition dotted (l : list N) : list N := concat ((λ b, if (b =? 46)%N then DOT else [b]) <$> l).

Lemma replace_dots l : replace_codes [46%N] DOT 0 l = dotted l.
Proof.
  induction l as [|b l IH]; [done|]. cbn [replace_codes length take]. unfold dotted in *.
  cbn [fmap list_fmap concat]. rewrite <- IH. destruct (N.eqb_spec b 46) as [->|Hb].
  - rewrite bool_decide_true by done. done.
  - rewrite bool_decide_false by congruence. done.
Qed.

Lemma replace_skip pat rep k l1 l :
  length l1 = k → replace_codes pat rep k (l1 ++ l) = replace_codes pat rep 0 l.
Proof. intros <-. induction l1 as [|b l1 IH]; [done|]. exact IH. Qed.

Lemma codes_cons_inv s b l :
  codes s = b :: l → ∃ s', s = String (Ascii.ascii_of_N b) s' ∧ codes s' = l.
Proof.
  destruct s as [|c s]; [done|]. cbn. intros [= <- <-]. exists s.
  by rewrite Ascii.ascii_N_embedding.
Qed.

(** What a written dot cannot be taken for. *)
Lemma dotted_head s b l :
  dotted (codes s) = b :: l → b ≠ 95%N →
  ∃ s', s = String (Ascii.ascii_of_N b) s' ∧ dotted (codes s') = l.
Proof.
  destruct s as [|c s]; [done|]. unfold dotted. cbn [codes fmap list_fmap concat].
  destruct (N.eqb_spec (Ascii.N_of_ascii c) 46) as [E|E]; intros [= <- <-]; [done|].
  intros _. exists s. by rewrite Ascii.ascii_N_embedding.
Qed.

Lemma dotted_underscore s b l :
  dotted (codes s) = 95%N :: b :: l → b ≠ 95%N →
  ∃ s', s = String "_" s' ∧ dotted (codes s') = b :: l.
Proof.
  destruct s as [|c s]; [done|]. unfold dotted. cbn [codes fmap list_fmap concat].
  destruct (N.eqb_spec (Ascii.N_of_ascii c) 46) as [E|E]; [by intros [= <- _]|].
  intros [= E' H] _. exists s. split; [|done].
  by rewrite <- (Ascii.ascii_N_embedding c), E'.
Qed.

Lemma no_false_dot c s :
  str_starts_with "__DOT" (String c s) = false → Ascii.N_of_ascii c ≠ 46%N →
  take 7 (Ascii.N_of_ascii c :: dotted (codes s)) ≠ DOT.
Proof.
  intros Hs Hc H. destruct (dotted (codes s)) as [|b1 [|b2 [|b3 [|b4 [|b5 [|b6 l]]]]]] eqn:E;
    try discriminate H. cbn [take] in H. injection H as Hc' -> -> -> -> -> ->.
  apply dotted_underscore in E as (s1 & -> & E); [|done].
  apply dotted_head in E as (s2 & -> & E); [|done]. apply dotted_head in E as (s3 & -> & E);
    [|done].
  apply dotted_head in E as (s4 & -> & E); [|done].
  rewrite <- (Ascii.ascii_N_embedding c), Hc' in Hs. done.
Qed.

Lemma undot name :
  str_contains "__DOT" name = false →
  replace_codes DOT [46%N] 0 (dotted (codes name)) = codes name.
Proof.
  induction name as [|c s IH]; [done|]. intros H. cbn [str_contains] in H.
  apply orb_false_iff in H as [Hs Hc]. specialize (IH Hc). cbn [codes].
  unfold dotted at 1. cbn [fmap list_fmap concat]. fold (dotted (codes s)).
  destruct (N.eqb_spec (Ascii.N_of_ascii c) 46) as [E|E].
  - rewrite E. change (DOT ++ dotted (codes s)) with (95%N :: drop 1 DOT ++ dotted (codes s)).
    cbn [replace_codes]. rewrite bool_decide_true by done.
    by rewrite (replace_skip _ _ (length DOT - 1) (drop 1 DOT)), IH.
  - cbn [app replace_codes]. rewrite bool_decide_false by by apply no_false_dot. by rewrite IH.
Qed.

Lemma replace_absent pat rep s :
  str_contains pat s = false → replace_codes (codes pat) rep 0 (codes s) = codes s.
Proof.
  induction s as [|c s IH]; [done|]. intros H. cbn [str_contains] in H.
  apply orb_false_iff in H as [Hs Hc]. cbn [codes replace_codes].
  rewrite bool_decide_false, IH; [done|done|]. intros Ht.
  apply not_true_iff_false in Hs. apply Hs. clear -Ht. revert c s Ht.
  induction pat as [|a pat IH]; intros c s Ht; [done|]. cbn in *. injection Ht as Ha Ht.
  assert (Ascii.eqb a c = true) as ->.
  { apply Ascii.eqb_eq. rewrite <- (Ascii.ascii_N_embedding a), <- Ha.
    apply Ascii.ascii_N_embedding. }
  destruct s as [|c' s]; [by destruct pat|]. by apply IH.
Qed.

Lemma dotted_bytes s : Forall (λ b, (b < 256)%N) (dotted (codes s)).
Proof.
  induction s as [|c s IH]; [constructor|]. unfold dotted in *. cbn [codes fmap list_fmap concat].
  apply Forall_app_2; [|done]. destruct (Ascii.N_of_ascii c =? 46)%N; [by repeat constructor|].
  repeat constructor. apply Ascii.N_ascii_bounded.
Qed.

(** A name without [__DOT] comes back from the wire as it was. *)
Theorem tool_names_roundtrip name :
  str_contains "__DOT" name = false → unsanitize_tool_name (sanitize_tool_name name) = name.
Proof.
  intros H. assert (str_replace "__DOT__" "." (sanitize_tool_name name) = name) as Hr.
  { unfold sanitize_tool_name, str_replace.
    assert (codes (if str_contains "." name then of_codes (replace_codes (codes ".")
      (codes "__DOT__") 0 (codes name)) else name) = dotted (codes name)) as ->.
    { destruct (str_contains "." name) eqn:E.
      - rewrite replace_dots, codes_of_codes; [done|apply dotted_bytes].
      - rewrite <- replace_dots. symmetry. by apply (replace_absent "."). }
    change (codes "__DOT__") with DOT. change (codes ".") with [46%N].
    by rewrite undot, of_codes_codes. }
  unfold unsanitize_tool_name. destruct (str_contains "__DOT__" (sanitize_tool_name name)) eqn:E;
    [done|]. revert Hr. unfold str_replace. by rewrite replace_absent, of_codes_codes.
Qed.

Lemma tool_names_roundtrip_witness :
  unsanitize_tool_name (sanitize_tool_name "chain.balance_of.v1") = "chain.balance_of.v1".
Proof. apply tool_names_roundtrip. by vm_compute. Defined.

(** With it, two tools share a name on the wire, and the first comes back as the second. *)
Example tool_names_collide :
  sanitize_tool_name "x__DOT." = sanitize_tool_name "x.DOT__"
  ∧ unsanitize_tool_name (sanitize_tool_name "x__DOT.") = "x.DOT__".
Proof. by vm_compute. Qed.

(** ** From a response to the dispatcher and back *)

Section translator.
Context {J : Json} {JB : JsonBuild} {JL : JsonBuildLaws JB}.

(** The calls that are read are those of the response, in order. *)
Lemma parse_all_spec now cs calls :
  parse_all now cs = Ok calls ↔ Forall2 (λ c call, parse_call now c = Ok call) cs calls.
Proof.
  revert calls. induction cs as [|c cs IH]; intros calls; cbn [parse_all].
  - split; [intros [= <-]; constructor|]. by intros ->%Forall2_nil_inv_l.
  - split.
    + destruct (parse_call now c) as [call|] eqn:Ec; [|done].
      destruct (parse_all now cs) as [rest|] eqn:Er; [|done]. intros [= <-].
      constructor; [done|by apply IH].
    + intros (call & rest & Hc & Hr & ->)%Forall2_cons_inv_l. apply IH in Hr.
      by rewrite Hc, Hr.
Qed.

Lemma get_field l k v : NoDup l.*1 → (k, v) ∈ l → json_get k (json_object l) = Some v.
Proof. intros Hl H. rewrite get_object by done. by apply elem_of_list_to_map. Qed.

(** Text that is no JSON becomes arguments that the dispatcher recognises. *)
Lemma salvaged args_str call :
  json_parse args_str = None → TL.arguments call = call_arguments args_str →
  truncated_arguments call = true.
Proof.
  intros Hp Ha. unfold truncated_arguments. rewrite Ha. unfold call_arguments. rewrite Hp.
  rewrite (get_field _ "__truncated" (json_boolean true)); [|repeat constructor;
    set_solver|by left].
  apply bool_decide_eq_true. apply as_bool_boolean.
Qed.

Lemma get_rendered cr key v :
  (key, v) ∈ [("role", json_string "tool"); ("tool_call_id", json_string (TL.id cr.1));
    ("content", json_string match cr.2 with
                            | TR.Ok content _ _ => content
                            | TR.Err e => "error: " +:+ error_text e
                            end)] →
  json_get key (render_result cr) = Some v.
Proof. apply get_field. repeat constructor; set_solver. Qed.

Definition result_text (r : ToolResult) : string :=
  match r with
  | TR.Ok content _ _ => content
  | TR.Err e => "error: " +:+ error_text e
  end.

(** The tool message of a call and its result. *)
Definition tells (cr : ToolCall * ToolResult) (m : json) : Prop :=
  str_field "role" m = Some "tool" ∧ str_field "tool_call_id" m = Some (TL.id cr.1)
  ∧ str_field "content" m = Some (result_text cr.2).

(** A message for each result, with the identifier the model gave to its call. *)
Lemma results_appended msgs results :
  ∃ rendered, append_results msgs (render_results results) = msgs ++ rendered
    ∧ Forall2 tells results rendered.
Proof.
  exists (render_result <$> results). cbn [render_results append_results].
  rewrite as_array_array. split; [done|]. apply Forall2_fmap_r, Forall_Forall2_diag, Forall_true.
  intros cr. unfold tells, str_field, compose. cbv beta.
  rewrite (get_rendered cr "role" (json_string "tool")) by by left.
  rewrite (get_rendered cr "tool_call_id" (json_string (TL.id cr.1))) by by right; left.
  rewrite (get_rendered cr "content" (json_string (result_text cr.2))) by by right; right; left.
  split_and!; apply as_str_string.
Qed.

(** A call as the model wrote it. *)
Definition written (c : json) (call : ToolCall) : Prop :=
  TL.id call = stdpp.option.default "" (str_field "id" c)
  ∧ unsanitize_tool_name <$> str_at ["function"; "name"] c = Some (TL.name call)
  ∧ TL.arguments call
      = call_arguments (stdpp.option.default "{}" (str_at ["function"; "arguments"] c)).

Lemma parse_call_written now c call : parse_call now c = Ok call → written c call.
Proof.
  unfold parse_call, written. destruct (str_at ["function"; "name"] c); [|done].
  by intros [= <-].
Qed.
End translator.

(** A call whose arguments the model did not finish is answered without touching guards or
    world. *)
Lemma salvaged_not_run {J : Json} {JB : JsonBuild} {JL : JsonBuildLaws JB} {JN : JsonNumber}
    {RX : RegexLib} {UL : UrlLib} {FS : FileSystem} {DC : DebugCapability} {SR : ScrubRegex}
    {PH : ParamsHash} {World : Type} epoch (D : ToolDispatcher (World := World)) args_str call
    ctx now ts race l w :
  json_parse args_str = None → TL.arguments call = call_arguments args_str →
  dispatch epoch D call ctx now ts race l w
    = Some (l, w, event call <$> [("args", "truncated"); ("completion", "failed")],
            TR.Err (truncated_error call)).
Proof.
  intros Hp Ha. unfold dispatch, admission, authorize_tool.
  by rewrite (salvaged _ _ Hp Ha).
Qed.

(** ** A small instance *)

Definition simple_insert (k : string) (v j : simple_json) : simple_json :=
  match j with
  | JObj l => JObj ((λ kv, if string_eqb kv.1 k then (kv.1, v) else kv) <$> l)
  | j => j
  end.

(** Only the empty object is read. *)
Definition simple_build : @JsonBuild simple_Json := {|
  json_string := (JStr : string → @json simple_Json);
  json_boolean := (JBool : bool → @json simple_Json);
  json_array := (JArr : list (@json simple_Json) → @json simple_Json);
  json_object := (JObj : list (string * @json simple_Json) → @json simple_Json);
  json_insert := (simple_insert : string → @json simple_Json → @json simple_Json →
    @json simple_Json);
  json_parse s := if string_eqb s "{}" then Some (JObj [] : @json simple_Json) else None;
|}.

Lemma assoc_get_map k l :
  NoDup l.*1 → assoc_get k l = (list_to_map l : gmap string simple_json) !! k.
Proof.
  induction l as [|[k' v] l IH]; intros H; [done|]. apply NoDup_cons in H as [_ H].
  rewrite list_to_map_cons. cbn [assoc_get]. destruct (decide (k = k')) as [->|Hk].
  - by rewrite lookup_insert, decide_True by done.
  - by rewrite lookup_insert_ne, IH by done.
Qed.

#[global] Instance simple_build_laws : @JsonBuildLaws simple_Json simple_build.
Proof.
  split; [done..|intros; by apply assoc_get_map|].
  intros k k' v j Hj. cbn in Hj |- *. destruct j as [| | | | |l]; try by destruct Hj as [? ?].
  cbn [simple_insert]. induction l as [|[k1 v1] l IH]; [by destruct Hj|].
  cbn [fmap list_fmap assoc_get] in *. cbn [fst]. unfold string_eqb in *.
  destruct (bool_decide_reflect (k1 = k)) as [->|Hk]; cbn [assoc_get].
  - destruct (decide (k' = k)) as [->|Hk'].
    + by rewrite decide_True by done.
    + rewrite (decide_False _ _ (P := k = k')) by congruence. clear -Hk'.
      induction l as [|[k2 v2] l IH]; [done|]. cbn [fmap list_fmap assoc_get fst].
      unfold string_eqb. destruct (bool_decide_reflect (k2 = k)) as [->|]; cbn [assoc_get].
      * by rewrite !decide_False by done.
      * by destruct (decide (k' = k2)).
  - rewrite (decide_False _ _ (P := k = k1)) in Hj by done.
    destruct (decide (k' = k1)) as [->|]; [by rewrite decide_False by congruence|]. by apply IH.
Qed.

#[local] Existing Instance simple_Json.
#[local] Existing Instance simple_build.

(** A response with two calls, the second cut by the limit of the model. *)
Definition two_calls : BackendResponse :=
  BR.Json (JObj [("choices", JArr [JObj [("finish_reason", JStr "length");
    ("message", JObj [("role", JStr "assistant"); ("content", JStr "looking");
      ("tool_calls", JArr [
        JObj [("id", JStr "functions.Read:0");
          ("function", JObj [("name", JStr "chain__DOT__balance"); ("arguments", JStr "{}")])];
        JObj [("id", JStr "c2");
          ("function", JObj [("name", JStr "write_file");
            ("arguments", JStr "{'path': 'a")])]])])]])]).

Example read_calls :
  parse_calls 7 two_calls
    = Ok [TL.mk "functions.Read:0" "chain.balance" (JObj []) 7;
          TL.mk "c2" "write_file"
            (JObj [("__truncated", JBool true); ("raw", JStr "{'path': 'a")]) 7]
  ∧ extract_text two_calls = "looking" ∧ extract_finish_reason_raw two_calls = Some "length".
Proof. by vm_compute. Qed.
