(* ===== verification/ToolLoop.v ===== *)
(** * The tool loop (crates/roko-agent/src/tool_loop, retry.rs, introspection.rs and the budget of
      lifecycle.rs)

    A conversation with a model: prompt, response, tool calls, results, until the model answers
    or a limit stops it.  The model, the clock, the file of the checkpoint and the cancel token
    are part of an abstract world. *)

From Stdlib Require Import SpecFloat.
From S2P Require Import Prelude Text Bytes EventLog Diagnosis Task Body Permit Sandbox Tool.
From S2P Require Import GitGuard BashGuard RateLimit Temporal Network PathGuard Warrant Risk.
From S2P Require Import Contract SafetyLayer Authz Dispatcher Translate.

(** ** The context of a conversation (prune.rs, compaction.rs) *)

Definition HEAD_KEEP : nat := 2.
Definition TAIL_KEEP : nat := 3.
Definition RECENT_TOOL_GROUPS_TO_KEEP : nat := 2.
Definition TOOL_RESULT_COMPACTION_THRESHOLD_CHARS : N := 500.
Definition TOOL_RESULT_PREVIEW_CHARS : nat := N.to_nat 200.

Module OverflowAction.
Inductive t : Type := Ok | CompactRecommended | CompactRequired.
End OverflowAction.

Section context.
Context {J : Json} {JT : JsonText} {JB : JsonBuild}.

Definition estimate_message_tokens (messages : list json) : nat :=
  sum_list ((λ m, String.length (json_to_string m)) <$> messages) / 4.

(** The loop of [prune_if_needed], over what follows the head. *)
Fixpoint prune_rest (head rest : list json) (token_limit : nat) : list json :=
  match rest with
  | [] => []
  | _ :: rest' =>
      if (token_limit <? estimate_message_tokens (head ++ rest))%nat
         && (HEAD_KEEP + TAIL_KEEP <? length (head ++ rest))%nat then
        prune_rest head rest' token_limit
      else rest
  end.
Definition prune_if_needed (messages : list json) (token_limit : nat) : list json :=
  if (length messages <=? HEAD_KEEP + TAIL_KEEP)%nat then messages
  else take HEAD_KEEP messages ++ prune_rest (take HEAD_KEEP messages) (drop HEAD_KEEP messages)
                                    token_limit.

Definition is_tool_message (message : json) : bool :=
  bool_decide (str_field "role" message = Some "tool").

(** The runs of tool messages, from index [idx] on; [start] is where the current one began. *)
Fixpoint groups_from (idx : nat) (start : option nat) (messages : list json) : list (nat * nat) :=
  match messages with
  | [] => match start with Some s => [(s, idx)] | None => [] end
  | m :: messages' =>
      if is_tool_message m then
        groups_from (S idx) (Some (stdpp.option.default idx start)) messages'
      else
        match start with
        | Some s => (s, idx) :: groups_from (S idx) None messages'
        | None => groups_from (S idx) None messages'
        end
  end.
Definition tool_result_groups (messages : list json) : list (nat * nat) :=
  groups_from 0 None messages.

Definition truncate_chars (content : string) (limit : nat) : string :=
  of_codes (first_chars limit (codes content)).

(** [content.chars().count()], a [usize]. *)
Definition usize_count (content : string) : N := N.of_nat (chars_count content) mod (u64_MAX + 1).

Definition compact_tool_message (message : json) : json :=
  match str_field "content" message with
  | None => message
  | Some content =>
      let total_chars := usize_count content in
      if (total_chars <=? TOOL_RESULT_COMPACTION_THRESHOLD_CHARS)%N then message
      else json_insert "content"
             (json_string (truncate_chars content TOOL_RESULT_PREVIEW_CHARS
                +:+ "... [truncated, " +:+ fmt_N total_chars +:+ " chars total]")) message
  end.

Definition compact_range (messages : list json) (range : nat * nat) : list json :=
  imap (λ i m, if (range.1 <=? i)%nat && (i <? range.2)%nat then compact_tool_message m else m)
    messages.
Definition compact_tool_results (messages : list json) : list json :=
  let groups := tool_result_groups messages in
  let compact_until := (length groups - RECENT_TOOL_GROUPS_TO_KEEP)%nat in
  foldl compact_range messages (take compact_until groups).

Definition model_context_limit (context_window : N) : nat :=
  if (0 <? context_window)%N then N.to_nat context_window else N.to_nat 128000.
Definition compaction_target (limit : nat) : nat :=
  N.to_nat (sat_mul64 (N.of_nat limit) 80 / 100).

Definition check_context_overflow (messages : list json) (context_window : N) : OverflowAction.t :=
  let estimated_tokens := estimate_message_tokens messages in
  let limit := model_context_limit context_window in
  if (limit <? estimated_tokens)%nat then OverflowAction.CompactRequired
  else if (compaction_target limit <? estimated_tokens)%nat then OverflowAction.CompactRecommended
  else OverflowAction.Ok.

(** [prune_context_if_needed], with the context window of the model profile if there is one. *)
Definition prune_context (context_window : option N) (context_token_limit : nat)
    (messages : list json) : list json :=
  match context_window with
  | Some window =>
      match check_context_overflow messages window with
      | OverflowAction.Ok => messages
      | _ => prune_if_needed (compact_tool_results messages)
               (compaction_target (model_context_limit window))
      end
  | None =>
      let messages :=
        if (context_token_limit <? estimate_message_tokens messages)%nat then
          compact_tool_results messages
        else messages in
      prune_if_needed messages context_token_limit
  end.
End context.

(** ** Errors of providers and their retries (provider/mod.rs, retry.rs) *)

Module ProviderError.
Inductive t : Type :=
  | RateLimit (retry_after_ms : option N)
  | AuthFailure
  | Timeout
  | ServerError (status : N)
  | ContentPolicy
  | ContextOverflow
  | ModelNotFound
  | Other (message : string).

Definition display (e : t) : string :=
  match e with
  | RateLimit (Some ms) => "rate limited; retry after " +:+ fmt_N ms +:+ " ms"
  | RateLimit None => "rate limited"
  | AuthFailure => "authentication failed"
  | Timeout => "request timed out"
  | ServerError status => "server error " +:+ fmt_N status
  | ContentPolicy => "content policy violation"
  | ContextOverflow => "context overflow"
  | ModelNotFound => "model not found"
  | Other message => message
  end.
Definition retry_after_ms (e : t) : option N := match e with RateLimit ms => ms | _ => None end.
End ProviderError.
Abbreviation ProviderError := ProviderError.t.
Module PE := ProviderError.

Module RetryAction.
Inductive t : Type :=
  | WaitAndRetry (delay_ms : N) | TryFallback | TryWithSmallerContext | Skip.
End RetryAction.

(** The free function [should_retry] of provider/mod.rs. *)
Definition provider_should_retry (error : ProviderError) : RetryAction.t :=
  match error with
  | PE.RateLimit ms => RetryAction.WaitAndRetry (stdpp.option.default 5000%N ms)
  | PE.AuthFailure => RetryAction.Skip
  | PE.Timeout => RetryAction.TryFallback
  | PE.ServerError _ => RetryAction.TryFallback
  | PE.ContentPolicy => RetryAction.Skip
  | PE.ContextOverflow => RetryAction.TryWithSmallerContext
  | _ => RetryAction.TryFallback
  end.

Module ErrorClass.
Inductive t : Type :=
  | RateLimit | AuthFailure | Timeout | ServerError | ContentPolicy | ContextOverflow
  | ModelNotFound | Unknown.

Definition from (error : ProviderError) : t :=
  match error with
  | PE.RateLimit _ => RateLimit
  | PE.AuthFailure => AuthFailure
  | PE.Timeout => Timeout
  | PE.ServerError _ => ServerError
  | PE.ContentPolicy => ContentPolicy
  | PE.ContextOverflow => ContextOverflow
  | PE.ModelNotFound => ModelNotFound
  | PE.Other _ => Unknown
  end.
End ErrorClass.
Abbreviation ErrorClass := ErrorClass.t.

Module RetryPolicy.
Record t : Type := mk {
  max_attempts : N;
  base_delay_ms : N;
  max_delay_ms : N;
  retryable_errors : list ErrorClass;
}.

Definition default : t :=
  mk 3 1000 60000 [ErrorClass.RateLimit; ErrorClass.Timeout; ErrorClass.ServerError].
Definition for_rate_limit : t := mk 3 2000 60000 [ErrorClass.RateLimit].

(** The delay that [gen_range] draws between its bounds. *)
Definition delay_for_attempt {World} (gen_range : N → N → World → World * N) (attempt : N)
    (p : t) (w : World) : World * N :=
  let exp_delay := sat_mul64 (base_delay_ms p) (N.shiftl 1 (N.min attempt 10)) in
  let capped := N.min exp_delay (max_delay_ms p) in
  let floor := (base_delay_ms p / 2)%N in
  if (capped <=? floor)%N then (w, capped) else gen_range floor capped w.

Definition should_retry (error : ProviderError) (attempt : N) (p : t) : bool :=
  if (max_attempts p <=? attempt)%N then false
  else
    match error with
    | PE.RateLimit _ => true
    | PE.AuthFailure => false
    | PE.ContentPolicy => false
    | PE.Timeout => true
    | PE.ServerError _ => true
    | PE.ContextOverflow => false
    | _ => (attempt <? 2)%N
    end.

Definition delay_with_retry_after {World} (gen_range : N → N → World → World * N) (attempt : N)
    (retry_after_ms : option N) (p : t) (w : World) : World * N :=
  match retry_after_ms with
  | Some ms => (w, ms)
  | None => delay_for_attempt gen_range attempt p w
  end.

Definition rate_limit_delay {World} (gen_range : N → N → World → World * N) (attempt : N)
    (retry_after_ms : option N) (p : t) (w : World) : World * N :=
  match retry_after_ms with
  | Some provider_hint => (w, N.max provider_hint (base_delay_ms p / 2))
  | None => delay_for_attempt gen_range attempt p w
  end.
End RetryPolicy.
Abbreviation RetryPolicy := RetryPolicy.t.
Module RPol := RetryPolicy.

Module LlmError.
Inductive t : Type :=
  | Backend (what : string)
  | Network (what : string)
  | Provider (e : ProviderError)
  | RetriesExhausted
  | Timeout (what : string).

Definition display (e : t) : string :=
  match e with
  | Backend what => "backend error: " +:+ what
  | Network what => "network error: " +:+ what
  | Provider e => "provider error: " +:+ PE.display e
  | RetriesExhausted => "retries exhausted"
  | Timeout what => "timeout: " +:+ what
  end.
End LlmError.
Abbreviation LlmError := LlmError.t.
Module LE := LlmError.

(** ** The cost budget (lifecycle.rs) *)

Module BudgetDegradationMode.
Inductive t : Type := Cascade | Pause | NotifyOnly.
End BudgetDegradationMode.
Abbreviation BudgetDegradationMode := BudgetDegradationMode.t.
Module BDM := BudgetDegradationMode.

Module BudgetConfig.
Record t : Type := mk {
  max_daily_inference_usd : F64.t;
  max_total_usd : option F64.t;
  max_tokens_per_turn : N;
  max_hourly_compute_usd : option F64.t;
  warning_at : F64.t;
  critical_at : F64.t;
  degradation : BudgetDegradationMode;
}.
Definition default : t :=
  mk (F64.of_Z 10) None 8192 None (F64.lit 7 10) (F64.lit 9 10) BDM.Cascade.
End BudgetConfig.
Abbreviation BudgetConfig := BudgetConfig.t.
Module BC := BudgetConfig.

Module CognitiveTier.
Inductive t : Type := Gamma | Theta | Delta.
End CognitiveTier.

Module TurnCostRecord.
Record t : Type := mk {
  turn_id : string;
  model : string;
  input_tokens : N;
  output_tokens : N;
  cache_read_tokens : N;
  estimated_cost_usd : F64.t;
  cognitive_tier : CognitiveTier.t;
  t0_suppressed : bool;
  timestamp : N;
}.
End TurnCostRecord.
Abbreviation TurnCostRecord := TurnCostRecord.t.
Module TCR := TurnCostRecord.

Module BudgetStatus.
Inductive t : Type := Ok | Warning | Critical | Exhausted.

#[global] Instance t_eq_dec : EqDecision t.
Proof. solve_decision. Defined.
End BudgetStatus.
Abbreviation BudgetStatus := BudgetStatus.t.
Module BSt := BudgetStatus.

Module BudgetTracker.
Record t : Type := mk {
  config : BudgetConfig;
  daily_cost_usd : F64.t;
  lifetime_cost_usd : F64.t;
  current_date : string;
  total_turns : N;
  t0_suppressed_turns : N;
}.

Definition new (config : BudgetConfig) (today : string) : t :=
  mk config F64.zero F64.zero today 0 0.

Definition record_turn (today : string) (cost : TurnCostRecord) (b : t) : t :=
  let daily := if string_eqb today (current_date b) then daily_cost_usd b else F64.zero in
  mk (config b) (F64.add daily (TCR.estimated_cost_usd cost))
    (F64.add (lifetime_cost_usd b) (TCR.estimated_cost_usd cost)) today (total_turns b + 1)
    (if TCR.t0_suppressed cost then t0_suppressed_turns b + 1 else t0_suppressed_turns b)%N.

Definition daily_utilization (b : t) : F64.t :=
  let limit := BC.max_daily_inference_usd (config b) in
  if F64.gt limit F64.zero then F64.div (daily_cost_usd b) limit else F64.zero.

Definition over_lifetime (b : t) : bool :=
  match BC.max_total_usd (config b) with
  | Some max_total => F64.gt max_total F64.zero && F64.ge (lifetime_cost_usd b) max_total
  | None => false
  end.

Definition check (b : t) : BudgetStatus :=
  let daily_fraction := daily_utilization b in
  if over_lifetime b then BSt.Exhausted
  else if F64.ge daily_fraction (F64.of_Z 1) then BSt.Exhausted
  else if F64.ge daily_fraction (BC.critical_at (config b)) then BSt.Critical
  else if F64.ge daily_fraction (BC.warning_at (config b)) then BSt.Warning
  else BSt.Ok.

Definition degradation_mode (b : t) : BudgetDegradationMode := BC.degradation (config b).
Definition remaining_daily_usd (b : t) : F64.t :=
  F64.max (F64.sub (BC.max_daily_inference_usd (config b)) (daily_cost_usd b)) F64.zero.
End BudgetTracker.
Abbreviation BudgetTracker := BudgetTracker.t.
Module BTr := BudgetTracker.

Module DegradationAction.
Inductive t : Type :=
  | DowngradeModel | ReduceContext | IncreaseT0Threshold | PauseNonEssential | NotifyOperator
  | HardStop.
End DegradationAction.
Abbreviation DegradationAction := DegradationAction.t.
Module DAc := DegradationAction.

Definition degradation_cascade (status : BudgetStatus) (mode : BudgetDegradationMode) :
    list DegradationAction :=
  match mode with
  | BDM.NotifyOnly => match status with BSt.Ok => [] | _ => [DAc.NotifyOperator] end
  | BDM.Pause =>
      match status with
      | BSt.Ok => []
      | BSt.Warning => [DAc.NotifyOperator]
      | BSt.Critical => [DAc.PauseNonEssential; DAc.NotifyOperator]
      | BSt.Exhausted => [DAc.HardStop; DAc.NotifyOperator]
      end
  | BDM.Cascade =>
      match status with
      | BSt.Ok => []
      | BSt.Warning => [DAc.DowngradeModel; DAc.ReduceContext]
      | BSt.Critical =>
          [DAc.DowngradeModel; DAc.ReduceContext; DAc.IncreaseT0Threshold; DAc.PauseNonEssential;
           DAc.NotifyOperator]
      | BSt.Exhausted => [DAc.HardStop; DAc.NotifyOperator]
      end
  end.

(** ** The metacognitive monitor (introspection.rs) *)

Module Turn.
Record t {J : Json} : Type := mk {
  index : nat;
  assistant_text : string;
  reasoning : option string;
  tool_calls : list ToolCall;
  confidence : option F32.t;
}.
Arguments t {_}.
Arguments mk {_}.

Section turn.
Context {J : Json} {JT : JsonText} {JN : JsonNumber}.

Definition from_response (index : nat) (response : BackendResponse) (tool_calls : list ToolCall) :
    t :=
  mk index (extract_text response) (extract_reasoning response) tool_calls
    (extract_confidence response).

Definition tool_fingerprints (x : t) : list string :=
  (λ call, TL.name call +:+ ":" +:+ json_to_string (TL.arguments call)) <$> tool_calls x.
End turn.
End Turn.
Abbreviation Turn := Turn.t.
Module Tu := Turn.

Module Intervention.
Inductive t : Type := EscalateModel | HumanHandoff | Abort | InjectReflection (message : string).
End Intervention.
Abbreviation Intervention := Intervention.t.
Module Iv := Intervention.

Module MetacognitiveMonitor.
Record t : Type := mk {
  repeat_threshold : nat;
  contradiction_window : nat;
  confidence_threshold : F32.t;
  human_handoff_threshold : F32.t;
}.
Definition default : t := mk 3 4 (F32.lit 35 100) (F32.lit 15 100).

Definition contains_positive_commitment (text : string) : bool :=
  existsb (λ needle, str_contains needle text)
    ["i can"; "we can"; "possible"; "works"; "feasible"; "confirmed"].
Definition contains_negative_commitment (text : string) : bool :=
  existsb (λ needle, str_contains needle text)
    ["i can't"; "cannot"; "not possible"; "won't work"; "fails"; "impossible"].

Section monitor.
Context {J : Json} {JT : JsonText} {LC : Lowercase}.

Fixpoint neighbours_equal (l : list string) : bool :=
  match l with
  | x :: (y :: _) as l' => string_eqb x y && neighbours_equal l'
  | _ => true
  end.

Definition repeated_tool_calls (turns : list Turn) (m : t) : bool :=
  let fingerprints :=
    take (repeat_threshold m) (concat (Turn.tool_fingerprints <$> reverse turns)) in
  if (length fingerprints <? repeat_threshold m)%nat || bool_decide (fingerprints = []) then false
  else neighbours_equal fingerprints.

Definition turn_text (x : Turn) : string :=
  to_lowercase (Turn.assistant_text x +:+ " " +:+ stdpp.option.default "" (Turn.reasoning x)).

Fixpoint contradiction_from (saw_positive saw_negative : bool) (recent : list Turn) : bool :=
  match recent with
  | [] => false
  | x :: recent' =>
      let saw_positive := saw_positive || contains_positive_commitment (turn_text x) in
      let saw_negative := saw_negative || contains_negative_commitment (turn_text x) in
      if saw_positive && saw_negative then true
      else contradiction_from saw_positive saw_negative recent'
  end.
Definition contradiction_detected (turns : list Turn) (m : t) : bool :=
  contradiction_from false false (take (contradiction_window m) (reverse turns)).

Definition check (turns : list Turn) (m : t) : option Intervention :=
  if bool_decide (length turns = 0%nat) then None
  else if repeated_tool_calls turns m then
    Some (Iv.InjectReflection
      "the same tool call is repeating; pause, inspect the result, and reconcile the plan")
  else if contradiction_detected turns m then
    Some (Iv.InjectReflection
      "the recent turns contradict each other; restate the current state before continuing")
  else
    match last turns ≫= Turn.confidence with
    | Some confidence =>
        if F32.lt confidence (human_handoff_threshold m) then Some Iv.HumanHandoff
        else if F32.lt confidence (confidence_threshold m) then Some Iv.EscalateModel
        else None
    | None => None
    end.
End monitor.
End MetacognitiveMonitor.
Abbreviation MetacognitiveMonitor := MetacognitiveMonitor.t.
Module MM := MetacognitiveMonitor.

(** ** The loop (checkpoint.rs, result_msg.rs, mod.rs) *)

Module SessionState.
Record t : Type := mk {
  session_id : option string;
  thread_id : option string;
  conversation_id : option string;
}.
Definition default : t := mk None None None.
End SessionState.
Abbreviation SessionState := SessionState.t.
Module SSt := SessionState.

Definition merge_session_state (current next : SessionState) : SessionState :=
  SSt.mk (or_else (SSt.session_id next) (SSt.session_id current))
    (or_else (SSt.thread_id next) (SSt.thread_id current))
    (or_else (SSt.conversation_id next) (SSt.conversation_id current)).

Module Checkpoint.
Record t {J : Json} : Type := mk {
  iterations : nat;
  tool_calls : list ToolCall;
  messages : list json;
  session : SessionState;
}.
Arguments t {_}.
Arguments mk {_}.
Definition new {J : Json} (iterations : nat) (tool_calls : list ToolCall) (messages : list json) :
    t := mk iterations tool_calls messages SSt.default.
Definition with_session {J : Json} (session : SessionState) (c : t) : t :=
  mk (iterations c) (tool_calls c) (messages c) session.
End Checkpoint.
Abbreviation Checkpoint := Checkpoint.t.
Module Ck := Checkpoint.

(** Why a checkpoint could not be read: [what] is its path and the error. *)
Module LoadError.
Inductive t : Type := NotFound | Failed (what : string).
End LoadError.

Module StopReason.
Inductive t : Type :=
  | Stop | MaxIterations | Cancelled | BackendError (what : string) | BudgetExhausted.

#[global] Instance t_eq_dec : EqDecision t.
Proof. solve_decision. Defined.
End StopReason.
Abbreviation StopReason := StopReason.t.
Module SRe := StopReason.

Module ToolLoopTurnTrace.
Record t {J : Json} : Type := mk {
  turn : N;
  tool_calls : list ToolCall;
  tool_results : list string;
  reasoning : option string;
  usage : Usage;
}.
Arguments t {_}.
Arguments mk {_}.
End ToolLoopTurnTrace.
Abbreviation ToolLoopTurnTrace := ToolLoopTurnTrace.t.
Module TTr := ToolLoopTurnTrace.

Module TurnProgress.
Record t {J : Json} : Type := mk {
  iteration : nat;
  tool_calls : list ToolCall;
  tool_results : list string;
  text_output : string;
  reasoning : option string;
  usage : Usage;
}.
Arguments t {_}.
Arguments mk {_}.
End TurnProgress.
Abbreviation TurnProgress := TurnProgress.t.

(** The errors of MCP servers that the output also carries are not modelled. *)
Module ToolLoopOutput.
Record t {J : Json} : Type := mk {
  final_text : string;
  iterations : nat;
  tool_calls : list ToolCall;
  total_usage : Usage;
  stop_reason : StopReason;
  checkpoint : option Checkpoint;
  turn_traces : list ToolLoopTurnTrace;
}.
Arguments t {_}.
Arguments mk {_}.
End ToolLoopOutput.
Abbreviation ToolLoopOutput := ToolLoopOutput.t.
Module TLO := ToolLoopOutput.

(** Of a model profile, the fields the loop reads. *)
Module ModelProfile.
Record t : Type := mk {
  slug : string;
  context_window : N;
  cost_input_per_m : option F64.t;
  cost_output_per_m : option F64.t;
  cost_cache_read_per_m : option F64.t;
}.
End ModelProfile.
Abbreviation ModelProfile := ModelProfile.t.
Module MP := ModelProfile.

Definition trace_turn (iterations : nat) : N := N.min (N.of_nat iterations + 1) u32_MAX.

Definition truncate_preview (text : string) (max_chars : nat) : string :=
  if (chars_count text <=? max_chars)%nat then text
  else truncate_chars text (max_chars - 3) +:+ "...".

Definition tool_result_previews {J : Json} (results : list (ToolCall * ToolResult)) : list string :=
  (λ cr : ToolCall * ToolResult,
     match cr.2 with
     | TR.Ok content _ _ => truncate_preview content 120
     | TR.Err err => truncate_preview ("error: " +:+ error_text err) 120
     end) <$> results.

Definition is_exhausted (iterations max : nat) : bool := (max <=? iterations)%nat.

Definition hit_length_limit (finish_reason : option string) : bool :=
  match finish_reason with
  | Some r => string_eqb r "length" || string_eqb r "max_tokens"
  | None => false
  end.

Section tool_loop.
Context {J : Json} {JT : JsonText} {JN : JsonNumber} {JB : JsonBuild} {LC : Lowercase}.
Context {World : Type}.

(** The trait [Translator], and what the loop does to the world outside. *)
Record Translator : Type := translator {
  tr_render_tools : list ToolDef → RenderedTools;
  tr_parse_calls : Z → BackendResponse → result (list ToolCall) TranslatorError;
  tr_render_results : list (ToolCall * ToolResult) → RenderedResults;
  tr_render_assistant_message : BackendResponse → option json;
}.

Definition openai_translator (render_tools : list ToolDef → RenderedTools) : Translator :=
  translator render_tools parse_calls render_results render_assistant_message.

Record Runtime : Type := runtime {
  send : list json → RenderedTools → SessionState → World → World * result BackendResponse LlmError;
  extract_session : BackendResponse → SessionState;
  dispatch_calls : list ToolCall → ToolContext → World → World * list (ToolCall * ToolResult);
  gen_range : N → N → World → World * N;
  sleep : N → World → World;
  is_cancelled : World → bool;
  now_ms : World → Z;
  now_secs : World → N;
  today_str : World → string;
  save_checkpoint : Checkpoint → World → World;
  clear_checkpoint : World → World;
  load_checkpoint : World → result Checkpoint LoadError.t;
}.

Record ToolLoop : Type := tool_loop {
  loop_translator : Translator;
  loop_runtime : Runtime;
  max_iterations : nat;
  context_token_limit : nat;
  has_checkpoint_path : bool;
  model_profile : option ModelProfile;
  retry_policy : RetryPolicy;
  monitor : option MetacognitiveMonitor;
  on_turn : option (TurnProgress → World → World);
  few_shot_messages : list json;
}.

Context (L : ToolLoop).
#[local] Abbreviation R := (loop_runtime L).

(** [send_turn_with_retry] and its streaming twin. *)
Fixpoint send_from (attempts : nat) (attempt : N) (messages : list json) (tools : RenderedTools)
    (session : SessionState) (w : World) : World * result BackendResponse LlmError :=
  match attempts with
  | O => (w, Err LE.RetriesExhausted)
  | S attempts' =>
      match send R messages tools session w with
      | (w, Ok response) => (w, Ok response)
      | (w, Err (LE.Provider error)) =>
          if RPol.should_retry error attempt (retry_policy L) then
            let '(w, delay) := RPol.delay_with_retry_after (gen_range R) attempt
                                 (PE.retry_after_ms error) (retry_policy L) w in
            send_from attempts' (attempt + 1) messages tools session (sleep R delay w)
          else (w, Err (LE.Provider error))
      | (w, Err error) => (w, Err error)
      end
  end.
Definition send_turn_with_retry (messages : list json) (tools : RenderedTools)
    (session : SessionState) (w : World) : World * result BackendResponse LlmError :=
  send_from (N.to_nat (RPol.max_attempts (retry_policy L))) 0 messages tools session w.

Definition prune_context_if_needed (messages : list json) : list json :=
  prune_context (MP.context_window <$> model_profile L) (context_token_limit L) messages.

Definition priced (usage : Usage) : Usage :=
  match model_profile L with
  | Some p => Usage.fill_cost_from_pricing (MP.cost_input_per_m p) (MP.cost_output_per_m p)
                (MP.cost_cache_read_per_m p) usage
  | None => usage
  end.

(** What the rounds change.  The budget is the value behind the lock of the shared tracker. *)
Record LoopState : Type := loop_state {
  messages : list json;
  iterations : nat;
  all_calls : list ToolCall;
  total_usage : Usage;
  session : SessionState;
  turn_history : list Turn;
  turn_traces : list ToolLoopTurnTrace;
  budget : option BudgetTracker;
}.

Definition cost_record (usage : Usage) (iterations : nat) (w : World) : TurnCostRecord :=
  TCR.mk ("turn-" +:+ fmt_nat iterations)
    (match model_profile L with Some p => MP.slug p | None => "" end)
    (Usage.input_tokens usage) (Usage.output_tokens usage) (Usage.cache_read_tokens usage)
    (f64_from_f32 (Usage.cost_usd usage)) CognitiveTier.Gamma false (now_secs R w).

(** The ways out: with a checkpoint, and with the answer. *)
Definition stopped (reason : StopReason) (s : LoopState) : ToolLoopOutput * option BudgetTracker :=
  (TLO.mk "" (iterations s) (all_calls s) (total_usage s) reason
     (Some (Ck.with_session (session s) (Ck.new (iterations s) (all_calls s) (messages s))))
     (turn_traces s), budget s).

Definition answered (response : BackendResponse) (s : LoopState) :
    ToolLoopOutput * option BudgetTracker :=
  (TLO.mk (extract_text response) (iterations s) (all_calls s) (total_usage s)
     (if hit_length_limit (extract_finish_reason_raw response) then
        SRe.BackendError "model hit output token limit (finish_reason=length)"
      else SRe.Stop) None (turn_traces s), budget s).

Definition set_messages (m : list json) (s : LoopState) : LoopState :=
  loop_state m (iterations s) (all_calls s) (total_usage s) (session s) (turn_history s)
    (turn_traces s) (budget s).

(** A response: its session, its usage and what it costs. *)
Definition received (response : BackendResponse) (w : World) (s : LoopState) : LoopState :=
  let usage := priced (extract_usage response) in
  loop_state (messages s) (iterations s) (all_calls s) (Usage.add (total_usage s) usage)
    (merge_session_state (session s) (extract_session R response)) (turn_history s) (turn_traces s)
    (BTr.record_turn (today_str R w) (cost_record usage (iterations s) w) <$> budget s).

Definition add_trace (calls : list ToolCall) (previews : list string) (response : BackendResponse)
    (s : LoopState) : LoopState :=
  loop_state (messages s) (iterations s) (all_calls s) (total_usage s) (session s) (turn_history s)
    (turn_traces s ++ [TTr.mk (trace_turn (iterations s)) calls previews
                         (extract_reasoning response) (priced (extract_usage response))])
    (budget s).

(** The calls of a response are dispatched and their results added to the conversation. *)
Definition dispatched (response : BackendResponse) (calls : list ToolCall) (ctx : ToolContext)
    (s : LoopState) (w : World) : LoopState * World :=
  let assistant := tr_render_assistant_message (loop_translator L) response in
  let msgs := messages s ++ option_list assistant in
  let '(w, results) := dispatch_calls R calls ctx w in
  let previews := tool_result_previews results in
  let s :=
    loop_state (append_results msgs (tr_render_results (loop_translator L) results)) (iterations s)
      (all_calls s ++ calls) (total_usage s) (session s) (turn_history s) (turn_traces s)
      (budget s) in
  let s := add_trace calls previews response s in
  let w :=
    match on_turn L with
    | Some cb => cb (TurnProgress.mk (iterations s) calls previews (extract_text response)
                       (extract_reasoning response) (priced (extract_usage response))) w
    | None => w
    end in
  (s, w).

Definition intervention_name (i : Intervention) : string :=
  match i with
  | Iv.EscalateModel => "EscalateModel"
  | Iv.HumanHandoff => "HumanHandoff"
  | Iv.Abort => "Abort"
  | Iv.InjectReflection _ => ""
  end.

(** The monitor looks at the turns so far. *)
Definition monitored (response : BackendResponse) (calls : list ToolCall) (s : LoopState) :
    LoopState + (ToolLoopOutput * option BudgetTracker) :=
  match monitor L with
  | None => inl s
  | Some m =>
      let history := turn_history s ++ [Turn.from_response (iterations s) response calls] in
      let s := loop_state (messages s) (iterations s) (all_calls s) (total_usage s) (session s)
                 history (turn_traces s) (budget s) in
      match MM.check history m with
      | None => inl s
      | Some (Iv.InjectReflection text) =>
          inl (set_messages (messages s ++ [message "system" text]) s)
      | Some i =>
          let reason := "metacognitive intervention: " +:+ intervention_name i in
          inr (stopped (SRe.BackendError reason) s)
      end
  end.

Definition snapshot (s : LoopState) (w : World) : World :=
  if has_checkpoint_path L then
    save_checkpoint R
      (Ck.with_session (session s) (Ck.new (iterations s) (all_calls s) (messages s))) w
  else w.

(** The end of a round. *)
Definition advanced (s : LoopState) (w : World) : LoopState * World :=
  let s := loop_state (prune_context_if_needed (messages s)) (iterations s + 1) (all_calls s)
             (total_usage s) (session s) (turn_history s) (turn_traces s) (budget s) in
  (s, snapshot s w).

Definition budget_spent (s : LoopState) : bool :=
  match budget s with Some b => bool_decide (BTr.check b = BSt.Exhausted) | None => false end.

(** From a response on. *)
Definition respond (response : BackendResponse) (ctx : ToolContext) (s : LoopState) (w : World) :
    World * (LoopState + (ToolLoopOutput * option BudgetTracker)) :=
  let s := received response w s in
  match tr_parse_calls (loop_translator L) (now_ms R w) response with
  | Err e => (w, inr (stopped (SRe.BackendError ("parse: " +:+ TranslatorError.display e)) s))
  | Ok [] =>
      let w := if has_checkpoint_path L then clear_checkpoint R w else w in
      (w, inr (answered response (add_trace [] [] response s)))
  | Ok calls =>
      let '(s, w) := dispatched response calls ctx s w in
      match monitored response calls s with
      | inr out => (w, inr out)
      | inl s => let '(s, w) := advanced s w in (w, inl s)
      end
  end.

(** A round of the loop, after the conversation has been pruned and the cap was looked at. *)
Definition round (tools : RenderedTools) (ctx : ToolContext) (s : LoopState) (w : World) :
    World * (LoopState + (ToolLoopOutput * option BudgetTracker)) :=
  if is_cancelled R w then (w, inr (stopped SRe.Cancelled s))
  else if budget_spent s then (w, inr (stopped SRe.BudgetExhausted s))
  else
    match send_turn_with_retry (messages s) tools (session s) w with
    | (w, Err e) => (w, inr (stopped (SRe.BackendError (LE.display e)) s))
    | (w, Ok response) => respond response ctx s w
    end.

(** [run_inner]; [None] is the end of the fuel. *)
Fixpoint run_inner (fuel : nat) (tools : RenderedTools) (ctx : ToolContext) (s : LoopState)
    (w : World) : option (World * (ToolLoopOutput * option BudgetTracker)) :=
  match fuel with
  | O => None
  | S fuel' =>
      let s := set_messages (prune_context_if_needed (messages s)) s in
      if is_exhausted (iterations s) (max_iterations L) then
        Some (w, stopped SRe.MaxIterations s)
      else
        match round tools ctx s w with
        | (w, inr out) => Some (w, out)
        | (w, inl s) => run_inner fuel' tools ctx s w
        end
  end.

(** One round more than the cap leaves is enough. *)
Definition loop_fuel (s : LoopState) : nat := S (max_iterations L - iterations s).

Definition start (messages : list json) (iterations : nat) (calls : list ToolCall)
    (session : SessionState) (b : option BudgetTracker) : LoopState :=
  loop_state messages iterations calls Usage.zero session [] [] b.

Definition go (tools : list ToolDef) (ctx : ToolContext) (s : LoopState) (w : World) :
    option (World * (ToolLoopOutput * option BudgetTracker)) :=
  run_inner (loop_fuel s) (tr_render_tools (loop_translator L) tools) ctx s w.

Definition resume (cp : Checkpoint) (tools : list ToolDef) (ctx : ToolContext)
    (b : option BudgetTracker) (w : World) :
    option (World * (ToolLoopOutput * option BudgetTracker)) :=
  go tools ctx (start (Ck.messages cp) (Ck.iterations cp) (Ck.tool_calls cp) (Ck.session cp) b) w.

Definition run_messages (messages : list json) (tools : list ToolDef) (ctx : ToolContext)
    (b : option BudgetTracker) (w : World) :
    option (World * (ToolLoopOutput * option BudgetTracker)) :=
  go tools ctx (start messages 0 [] SSt.default b) w.

Definition first_messages (system user : string) : list json :=
  match few_shot_messages L with
  | [] => initial_messages system user
  | few_shot => initial_messages_with_few_shot system user few_shot
  end.

Definition run (system user : string) (tools : list ToolDef) (ctx : ToolContext)
    (b : option BudgetTracker) (w : World) :
    option (World * (ToolLoopOutput * option BudgetTracker)) :=
  let fresh := run_messages (first_messages system user) tools ctx b w in
  if has_checkpoint_path L then
    match load_checkpoint R w with
    | Ok cp => resume cp tools ctx b w
    | Err LoadError.NotFound => fresh
    | Err (LoadError.Failed what) =>
        let reason := SRe.BackendError ("checkpoint load " +:+ what) in
        Some (w, (TLO.mk "" 0 [] Usage.zero reason None [], b))
    end
  else fresh.
End tool_loop.

(** ** What pruning keeps *)

Section pruning.
Context {J : Json} {JT : JsonText}.

Lemma prune_rest_spec head rest limit :
  (length head ≤ HEAD_KEEP + TAIL_KEEP)%nat →
  ∃ k, prune_rest head rest limit = drop k rest
    ∧ ((estimate_message_tokens (head ++ drop k rest) ≤ limit)%nat
       ∨ (length head + length (drop k rest) ≤ HEAD_KEEP + TAIL_KEEP)%nat)
    ∧ ∀ j, (j < k)%nat → (limit < estimate_message_tokens (head ++ drop j rest))%nat
        ∧ (HEAD_KEEP + TAIL_KEEP < length head + length (drop j rest))%nat.
Proof.
  intros Hh. induction rest as [|m rest IH]; cbn [prune_rest].
  { exists 0%nat. split_and!; [done|right; rewrite drop_nil; cbn [length]; lia|lia]. }
  rewrite length_app. destruct (Nat.ltb_spec limit (estimate_message_tokens (head ++ m :: rest)))
    as [H1|H1]; cbn [andb]; [|exists 0%nat; split_and!; [done|by left|lia]].
  destruct (Nat.ltb_spec (HEAD_KEEP + TAIL_KEEP) (length head + length (m :: rest))) as [H2|H2];
    [|exists 0%nat; split_and!; [done|by right|lia]].
  destruct IH as (k & Hk & Hf & Hj). exists (S k). split_and!; [done|done|].
  intros [|j] H; [done|]. apply Hj. lia.
Qed.

(** Dropped are the oldest messages after the head, as few as possible: while the conversation
    is too long and more than the head and the tail are left. *)
Lemma prune_spec messages limit :
  ∃ k, prune_if_needed messages limit = take HEAD_KEEP messages ++ drop (HEAD_KEEP + k) messages
    ∧ ((estimate_message_tokens (prune_if_needed messages limit) ≤ limit)%nat
       ∨ (length (prune_if_needed messages limit) ≤ HEAD_KEEP + TAIL_KEEP)%nat)
    ∧ ∀ j, (j < k)%nat →
        let longer := take HEAD_KEEP messages ++ drop (HEAD_KEEP + j) messages in
        (limit < estimate_message_tokens longer)%nat
        ∧ (HEAD_KEEP + TAIL_KEEP < length longer)%nat.
Proof.
  unfold prune_if_needed. destruct (Nat.leb_spec (length messages) (HEAD_KEEP + TAIL_KEEP)) as [H|H].
  - exists 0%nat. rewrite Nat.add_0_r, take_drop. split_and!; [done|by right|lia].
  - destruct (prune_rest_spec (take HEAD_KEEP messages) (drop HEAD_KEEP messages) limit)
      as (k & -> & Hf & Hj); [rewrite length_take; unfold HEAD_KEEP, TAIL_KEEP; lia|].
    exists k. setoid_rewrite drop_drop in Hj. rewrite drop_drop in Hf |- *.
    split_and!; [done|by rewrite length_app|]. intros j Hjk. rewrite length_app. by apply Hj.
Qed.

(** The last messages are kept. *)
Lemma prune_keeps_tail messages limit :
  (TAIL_KEEP ≤ length messages - HEAD_KEEP)%nat →
  ∃ front, prune_if_needed messages limit = front ++ drop (length messages - TAIL_KEEP) messages.
Proof.
  intros Hl. destruct (prune_spec messages limit) as (k & -> & _ & Hj).
  assert (HEAD_KEEP + k ≤ length messages - TAIL_KEEP)%nat as Hk.
  { destruct (decide (k = 0%nat)) as [->|Hk]; [unfold HEAD_KEEP, TAIL_KEEP in *; lia|].
    destruct (Hj (k - 1)%nat) as [_ H]; [lia|]. rewrite length_app, length_take, length_drop in H.
    unfold HEAD_KEEP, TAIL_KEEP in *. lia. }
  exists (take HEAD_KEEP messages
    ++ take (length messages - TAIL_KEEP - (HEAD_KEEP + k)) (drop (HEAD_KEEP + k) messages)).
  rewrite <- app_assoc. f_equal.
  set (rest := drop (HEAD_KEEP + k) messages).
  rewrite <- (take_drop (length messages - TAIL_KEEP - (HEAD_KEEP + k)) rest) at 1. unfold rest.
  f_equal. rewrite drop_drop. f_equal. lia.
Qed.

Lemma prune_idempotent messages limit :
  prune_if_needed (prune_if_needed messages limit) limit = prune_if_needed messages limit.
Proof.
  destruct (prune_spec messages limit) as (k & _ & Hf & _).
  set (l := prune_if_needed messages limit) in *. clearbody l.
  unfold prune_if_needed. destruct (Nat.leb_spec (length l) (HEAD_KEEP + TAIL_KEEP)) as [H|H];
    [done|].
  destruct Hf as [Hf|Hf]; [|lia].
  destruct (prune_rest_spec (take HEAD_KEEP l) (drop HEAD_KEEP l) limit) as (k' & -> & _ & Hj);
    [rewrite length_take; unfold HEAD_KEEP, TAIL_KEEP; lia|].
  destruct k' as [|k']; [by rewrite drop_0, take_drop|].
  destruct (Hj 0%nat) as [Hj' _]; [lia|]. rewrite drop_0, take_drop in Hj'. lia.
Qed.
End pruning.

(** ** What compaction changes *)

Section compaction.
Context {J : Json} {JB : JsonBuild}.

(** The groups of tool messages that begin in [rest]; [prev] is whether one goes on. *)
Fixpoint later_groups (prev : bool) (rest : list json) : nat :=
  match rest with
  | [] => 0
  | m :: rest' =>
      (if is_tool_message m && negb prev then 1 else 0) + later_groups (is_tool_message m) rest'
  end.

(** The reference: a tool message is compacted when two groups of them begin after it. *)
Definition compacted_one (m : json) (rest : list json) : json :=
  if is_tool_message m && (RECENT_TOOL_GROUPS_TO_KEEP <=? later_groups true rest)%nat then
    compact_tool_message m
  else m.
Fixpoint compacted (l : list json) : list json :=
  match l with [] => [] | m :: rest => compacted_one m rest :: compacted rest end.

Lemma compacted_lookup l i :
  compacted l !! i = (λ m, compacted_one m (drop (S i) l)) <$> l !! i.
Proof. revert i. induction l as [|m l IH]; intros [|i]; cbn; [done..|]. apply IH. Qed.

Definition in_range (i : nat) (r : nat * nat) : bool := (r.1 <=? i)%nat && (i <? r.2)%nat.
Definition hits (i : nat) (rs : list (nat * nat)) : nat := length (List.filter (in_range i) rs).

Lemma ranges_compacted rs msgs :
  foldl compact_range msgs rs = imap (λ i m, Nat.iter (hits i rs) compact_tool_message m) msgs.
Proof.
  revert msgs. induction rs as [|r rs IH]; intros msgs; cbn [foldl].
  - apply list_eq. intros i. rewrite list_lookup_imap. by destruct (msgs !! i).
  - rewrite IH. apply list_eq. intros i. unfold compact_range. rewrite !list_lookup_imap.
    destruct (msgs !! i) as [m|]; [|done]. cbn [fmap option_fmap option_map]. f_equal.
    change (Nat.iter (hits i rs) compact_tool_message
      (if in_range i r then compact_tool_message m else m)
      = Nat.iter (hits i (r :: rs)) compact_tool_message m).
    unfold hits at 2. cbn [List.filter]. destruct (in_range i r); [|done].
    symmetry. apply (Nat.iter_succ_r (length (List.filter (in_range i) rs))).
Qed.

Definition going (start : option nat) : bool := match start with Some _ => true | None => false end.

Lemma groups_length idx start l :
  length (groups_from idx start l)
    = (Nat.b2n (going start) + later_groups (going start) l)%nat.
Proof.
  revert idx start. induction l as [|m l IH]; intros idx start; cbn [groups_from later_groups].
  - by destruct start.
  - destruct (is_tool_message m).
    + rewrite (IH (S idx)). destruct start; cbn [going Nat.b2n negb andb]; lia.
    + destruct start; cbn [length]; rewrite (IH (S idx)); cbn [going Nat.b2n negb andb]; lia.
Qed.

(** The first group is the current one, the others begin later. *)
Lemma groups_shape idx start l :
  (∀ s, start = Some s → (s ≤ idx)%nat) →
  match start with
  | Some s => ∃ e gs, groups_from idx start l = (s, e) :: gs ∧ (idx ≤ e)%nat
                ∧ Forall (λ r, (idx < r.1)%nat) gs
  | None => Forall (λ r, (idx ≤ r.1)%nat) (groups_from idx None l)
  end.
Proof.
  revert idx start. induction l as [|m l IH]; intros idx start Hs; cbn [groups_from].
  - destruct start as [s|]; [|constructor]. exists idx, []. split_and!; [done|done|constructor].
  - destruct (is_tool_message m).
    + specialize (IH (S idx) (Some (stdpp.option.default idx start))).
      destruct IH as (e & gs & He & Hle & Hg).
      { intros s [= <-]. destruct start as [s|]; cbn; [specialize (Hs s eq_refl); lia|lia]. }
      destruct start as [s|]; cbn [stdpp.option.default from_option id] in *.
      * exists e, gs. split_and!; [done|lia|]. eapply Forall_impl; [exact Hg|]. cbn. lia.
      * rewrite He. constructor; [cbn; lia|]. eapply Forall_impl; [exact Hg|]. cbn. lia.
    + specialize (IH (S idx) None). assert (Forall (λ r, (S idx ≤ r.1)%nat) (groups_from (S idx) None l))
        as Hg by (apply IH; by intros).
      destruct start as [s|].
      * exists idx, (groups_from (S idx) None l). split_and!; [done|done|].
        eapply Forall_impl; [exact Hg|]. cbn. lia.
      * eapply Forall_impl; [exact Hg|]. cbn. lia.
Qed.

Lemma no_hits i rs : Forall (λ r, (i < r.1)%nat) rs → hits i rs = 0%nat.
Proof.
  unfold hits. induction 1 as [|r rs Hr _ IH]; [done|]. cbn [List.filter]. unfold in_range at 1.
  destruct (Nat.leb_spec r.1 i); [lia|]. exact IH.
Qed.

Lemma group_hits idx start l i m :
  (∀ s, start = Some s → (s ≤ idx)%nat) → l !! i = Some m →
  hits (idx + i) (take (length (groups_from idx start l) - RECENT_TOOL_GROUPS_TO_KEEP)
                    (groups_from idx start l))
    = if is_tool_message m && (RECENT_TOOL_GROUPS_TO_KEEP <=? later_groups true (drop (S i) l))%nat
      then 1%nat else 0%nat.
Proof.
  revert idx start i. induction l as [|m0 l IH]; intros idx start i Hs Hi; [done|].
  cbn [groups_from]. destruct (is_tool_message m0) eqn:Et.
  - set (s0 := stdpp.option.default idx start).
    assert (∀ s, Some s0 = Some s → (s ≤ S idx)%nat) as Hs0.
    { intros s [= <-]. unfold s0.
      destruct start as [s|]; cbn; [specialize (Hs s eq_refl); lia|lia]. }
    destruct i as [|i].
    + injection Hi as ->. rewrite Nat.add_0_r, Et. cbn [andb drop]. rewrite drop_0.
      pose proof (groups_shape (S idx) (Some s0) l Hs0) as (e & gs & He & Hle & Hg).
      pose proof (groups_length (S idx) (Some s0) l) as Hlen. rewrite He in Hlen |- *.
      cbn [length going Nat.b2n] in Hlen |- *.
      assert (s0 ≤ idx)%nat by (unfold s0; destruct start as [s|]; cbn; [by apply Hs|lia]).
      unfold RECENT_TOOL_GROUPS_TO_KEEP in *.
      destruct (Nat.leb_spec 2 (later_groups true l)) as [H2|H2].
      * destruct (S (length gs) - 2)%nat as [|n] eqn:En; [lia|]. cbn [take]. unfold hits.
        cbn [List.filter]. unfold in_range at 1. cbn [fst snd].
        destruct (Nat.leb_spec s0 idx); [|lia]. destruct (Nat.ltb_spec idx e); [|lia].
        cbn [andb length].
        f_equal. apply no_hits, Forall_take. eapply Forall_impl; [exact Hg|]. cbn. lia.
      * assert (S (length gs) - 2 = 0)%nat as -> by lia. done.
    + rewrite <- Nat.add_succ_comm. by apply (IH (S idx) (Some s0)).
  - destruct i as [|i].
    + injection Hi as ->. rewrite Nat.add_0_r, Et. cbn [andb].
      assert (Forall (λ r, (S idx ≤ r.1)%nat) (groups_from (S idx) None l)) as Hg
        by (apply (groups_shape (S idx) None); by intros).
      assert (Forall (λ r, (idx < r.1)%nat) (groups_from (S idx) None l)) as Hg'
        by (eapply Forall_impl; [exact Hg|]; cbn; lia).
      destruct start as [s|]; [|by apply no_hits, Forall_take].
      destruct (length ((s, idx) :: groups_from (S idx) None l) - RECENT_TOOL_GROUPS_TO_KEEP)%nat
        as [|n]; [done|]. cbn [take]. unfold hits. cbn [List.filter]. unfold in_range at 1.
      cbn [fst snd]. rewrite Nat.ltb_irrefl, andb_false_r. by apply no_hits, Forall_take.
    + rewrite <- Nat.add_succ_comm. cbn [drop] in *. rewrite <- (IH (S idx) None i);
      [|by intros|done].
      destruct start as [s|]; [|done]. unfold RECENT_TOOL_GROUPS_TO_KEEP. cbn [length].
      set (gs := groups_from (S idx) None l). destruct (length gs) as [|[|n]] eqn:El; [done|done|].
      replace (S (S (S n)) - 2)%nat with (S (S (S n) - 2)) by lia. cbn [take]. unfold hits.
      cbn [List.filter]. unfold in_range at 1. cbn [fst snd].
      destruct (Nat.ltb_spec (S idx + i) idx); [lia|]. by rewrite andb_false_r.
Qed.

(** Compaction is the reference. *)
Lemma compact_tool_results_spec l : compact_tool_results l = compacted l.
Proof.
  unfold compact_tool_results. rewrite ranges_compacted. apply list_eq. intros i.
  rewrite list_lookup_imap, compacted_lookup. destruct (l !! i) as [m|] eqn:E; [|done]. cbn.
  f_equal. unfold compacted_one, tool_result_groups.
  pose proof (group_hits 0 None l i m ltac:(by intros) E) as H. cbn [Nat.add] in H. rewrite H.
  by destruct (_ && _).
Qed.
End compaction.

(** ** A pruned conversation stays as it is *)

Definition begins (b : N) : bool := (b <? 128)%N || (192 <=? b)%N.

Lemma first_chars_count n l : (length (List.filter begins (first_chars n l)) ≤ n)%nat.
Proof.
  revert n. induction l as [|b l IH]; intros n; cbn [first_chars]; [cbn; lia|].
  destruct ((b <? 128)%N || (192 <=? b)%N) eqn:E.
  - destruct n as [|n]; [cbn; lia|]. cbn [List.filter]. unfold begins at 1. rewrite E. cbn [length].
    specialize (IH n). lia.
  - cbn [List.filter]. unfold begins at 1. rewrite E. apply IH.
Qed.

Lemma first_chars_bounded n l :
  Forall (λ b, (b < 256)%N) l → Forall (λ b, (b < 256)%N) (first_chars n l).
Proof.
  intros H. revert n. induction H as [|b l Hb _ IH]; intros n; cbn [first_chars]; [constructor|].
  destruct (_ || _); [|by constructor]. destruct n; [constructor|by constructor].
Qed.

Lemma truncated_count s n : (chars_count (truncate_chars s n) ≤ n)%nat.
Proof.
  unfold chars_count, truncate_chars. rewrite codes_of_codes.
  - apply first_chars_count.
  - apply first_chars_bounded, codes_bounded.
Qed.

Lemma chars_count_app s t : chars_count (s +:+ t) = (chars_count s + chars_count t)%nat.
Proof. unfold chars_count. by rewrite codes_app, List.filter_app, length_app. Qed.

Lemma chars_count_length s : (chars_count s ≤ String.length s)%nat.
Proof.
  unfold chars_count. induction s as [|c s IH]; [done|]. cbn [codes List.filter String.length].
  destruct (_ || _); cbn [length]; lia.
Qed.

Lemma pretty_go_length k n s :
  (n < 10 ^ N.of_nat k)%N → (String.length (pretty_N_go n s) ≤ k + String.length s)%nat.
Proof.
  revert n s. induction k as [|k IH]; intros n s Hn.
  - assert (n = 0)%N as -> by (cbn in Hn; lia). by rewrite pretty_N_go_0.
  - destruct (decide (n = 0)%N) as [->|H0]; [rewrite pretty_N_go_0; lia|].
    rewrite pretty_N_go_step by lia. etrans; [apply IH|cbn [String.length]; lia].
    apply N.Div0.div_lt_upper_bound. replace (N.of_nat (S k)) with (N.succ (N.of_nat k)) in Hn by lia.
    by rewrite N.pow_succ_r' in Hn.
Qed.

Lemma fmt_N_length n : (n ≤ u64_MAX)%N → (String.length (fmt_N n) ≤ 20)%nat.
Proof.
  intros H. unfold fmt_N, pretty, pretty_N. case_decide; [cbn; lia|].
  etrans; [apply (pretty_go_length 20)|done].
  eapply N.le_lt_trans; [exact H|]. by vm_compute.
Qed.

Section settled.
Context {J : Json} {JT : JsonText} {JB : JsonBuild} {JL : JsonBuildLaws JB}.

Lemma compact_other key m :
  key ≠ "content" → json_get key (compact_tool_message m) = json_get key m.
Proof.
  intros Hk. unfold compact_tool_message, str_field.
  destruct (json_get "content" m ≫= json_as_str) eqn:E; [|done]. destruct (_ <=? _)%N; [done|].
  rewrite get_insert, decide_False; [done..|]. by destruct (json_get "content" m).
Qed.

Lemma compact_role m : is_tool_message (compact_tool_message m) = is_tool_message m.
Proof. unfold is_tool_message, str_field. by rewrite compact_other. Qed.

Lemma compact_idempotent m :
  compact_tool_message (compact_tool_message m) = compact_tool_message m.
Proof.
  unfold compact_tool_message at 2 3.
  destruct (str_field "content" m) as [content|] eqn:E;
    [|unfold compact_tool_message; by rewrite E].
  destruct (N.leb_spec (usize_count content) TOOL_RESULT_COMPACTION_THRESHOLD_CHARS) as [H|H].
  { unfold compact_tool_message. rewrite E. by apply N.leb_le in H as ->. }
  unfold compact_tool_message at 1. unfold str_field.
  assert (is_Some (json_get "content" m)) as Hs.
  { unfold str_field in E. by destruct (json_get "content" m). }
  rewrite get_insert, decide_True by done. cbn [mbind option_bind]. rewrite as_str_string.
  set (short := truncate_chars content _ +:+ _).
  assert (chars_count short ≤ N.to_nat 500)%nat as Hshort.
  { unfold short. rewrite !chars_count_app.
    pose proof (truncated_count content TOOL_RESULT_PREVIEW_CHARS).
    assert (usize_count content ≤ u64_MAX)%N as Hm.
    { unfold usize_count. apply N.lt_succ_r. rewrite <- N.add_1_r. by apply N.mod_lt. }
    pose proof (fmt_N_length _ Hm). pose proof (chars_count_length (fmt_N (usize_count content))).
    assert (chars_count "... [truncated, " = 16%nat) as E1 by by vm_compute.
    assert (chars_count " chars total]" = 13%nat) as E2 by by vm_compute.
    assert (TOOL_RESULT_PREVIEW_CHARS = 200%nat) as E3 by by vm_compute. lia. }
  clearbody short. destruct (N.leb_spec (usize_count short) TOOL_RESULT_COMPACTION_THRESHOLD_CHARS)
    as [_|Hlong]; [done|exfalso]. unfold usize_count, TOOL_RESULT_COMPACTION_THRESHOLD_CHARS in Hlong.
  rewrite N.mod_small in Hlong by (unfold u64_MAX; lia). lia.
Qed.

Lemma later_groups_roles prev l l' :
  is_tool_message <$> l = is_tool_message <$> l' → later_groups prev l = later_groups prev l'.
Proof.
  revert prev l'. induction l as [|m l IH]; intros prev [|m' l'] H; try done.
  injection H as Hm H. cbn [later_groups]. by rewrite Hm, (IH _ _ H).
Qed.

Lemma compacted_roles l : is_tool_message <$> compacted l = is_tool_message <$> l.
Proof.
  induction l as [|m l IH]; [done|]. cbn. rewrite IH. f_equal. unfold compacted_one.
  destruct (_ && _); [apply compact_role|done].
Qed.

Lemma later_groups_drop prev k l : (later_groups prev (drop k l) ≤ later_groups prev l)%nat.
Proof.
  revert l. induction k as [|k IH]; intros l; [by rewrite drop_0|].
  destruct l as [|m l]; [done|]. cbn [drop]. etrans; [apply IH|]. cbn [later_groups].
  clear IH. destruct l as [|m' l]; cbn [later_groups]; [lia|].
  destruct (is_tool_message m), (is_tool_message m'), prev; cbn [andb negb]; lia.
Qed.

Lemma later_groups_app_drop prev h k l :
  (later_groups prev (h ++ drop k l) ≤ later_groups prev (h ++ l))%nat.
Proof.
  revert prev. induction h as [|m h IH]; intros prev; cbn [app later_groups].
  - apply later_groups_drop.
  - specialize (IH (is_tool_message m)). lia.
Qed.

Lemma lookup_cut (t r : list json) k i m :
  (t ++ drop k r) !! i = Some m →
  ∃ j, (t ++ r) !! j = Some m
    ∧ (later_groups true (drop (S i) (t ++ drop k r))
       ≤ later_groups true (drop (S j) (t ++ r)))%nat.
Proof.
  intros E. destruct (decide (i < length t)%nat) as [Hi|Hi].
  - exists i. rewrite lookup_app_l in E |- * by done. split; [done|].
    rewrite !drop_app_le by lia. apply later_groups_app_drop.
  - rewrite lookup_app_r, lookup_drop in E by lia.
    exists (length t + (k + (i - length t)))%nat.
    rewrite lookup_app_r by lia. split; [by rewrite Nat.add_comm, Nat.add_sub|].
    rewrite !drop_app_ge by lia. rewrite drop_drop. apply Nat.eq_le_incl. f_equal. f_equal. lia.
Qed.

(** What is left of a compacted conversation has nothing more to compact. *)
Lemma compacted_settled h k l :
  compacted (take h (compacted l) ++ drop (h + k) (compacted l))
    = take h (compacted l) ++ drop (h + k) (compacted l).
Proof.
  set (c := compacted l). apply list_eq. intros i. rewrite compacted_lookup.
  rewrite <- drop_drop.
  destruct ((take h c ++ drop k (drop h c)) !! i) as [m|] eqn:E; [|done].
  cbn [fmap option_fmap option_map]. f_equal. unfold compacted_one at 1.
  destruct (is_tool_message m) eqn:Et; [|done].
  destruct (Nat.leb_spec RECENT_TOOL_GROUPS_TO_KEEP
    (later_groups true (drop (S i) (take h c ++ drop k (drop h c))))) as [H|]; [|done].
  cbn [andb]. destruct (lookup_cut _ _ _ _ _ E) as (j & Hj & Hlater).
  rewrite take_drop in Hj, Hlater.
  unfold c in Hj. rewrite compacted_lookup in Hj. destruct (l !! j) as [m0|] eqn:E0; [|done].
  cbn in Hj. injection Hj as <-.
  rewrite (later_groups_roles true (drop (S j) c) (drop (S j) l)) in Hlater
    by (unfold c; by rewrite !fmap_drop, compacted_roles).
  unfold compacted_one in Et |- *.
  destruct (Nat.leb_spec RECENT_TOOL_GROUPS_TO_KEEP (later_groups true (drop (S j) l))); [|lia].
  rewrite andb_true_r in *. destruct (is_tool_message m0) eqn:E1; [apply compact_idempotent|].
  congruence.
Qed.

Lemma pruned_compacted_settled l limit :
  compact_tool_results (prune_if_needed (compact_tool_results l) limit)
    = prune_if_needed (compact_tool_results l) limit.
Proof.
  destruct (prune_spec (compact_tool_results l) limit) as (k & -> & _).
  rewrite !compact_tool_results_spec. apply compacted_settled.
Qed.

Lemma prune_short l limit :
  (estimate_message_tokens l ≤ limit)%nat → prune_if_needed l limit = l.
Proof.
  intros H. unfold prune_if_needed. destruct (_ <=? _)%nat; [done|].
  destruct (prune_rest_spec (take HEAD_KEEP l) (drop HEAD_KEEP l) limit) as (k & -> & _ & Hj);
    [rewrite length_take; unfold HEAD_KEEP, TAIL_KEEP; lia|].
  destruct k as [|k]; [by rewrite drop_0, take_drop|].
  destruct (Hj 0%nat) as [H' _]; [lia|]. rewrite drop_0, take_drop in H'. lia.
Qed.

(** Pruning twice is pruning once. *)
Lemma prune_context_settles window limit l :
  prune_context window limit (prune_context window limit l) = prune_context window limit l.
Proof.
  unfold prune_context. destruct window as [window|].
  - set (target := compaction_target (model_context_limit window)).
    set (cut := λ l, prune_if_needed (compact_tool_results l) target).
    assert (∀ l, match check_context_overflow l window with
                 | OverflowAction.Ok => l | _ => cut l end = l ∨
                 match check_context_overflow l window with
                 | OverflowAction.Ok => l | _ => cut l end = cut l) as Hc.
    { intros l'. destruct (check_context_overflow l' window); auto. }
    destruct (check_context_overflow l window) eqn:E; [by rewrite E|..];
      change (prune_if_needed (compact_tool_results l) target) with (cut l);
      change (prune_if_needed (compact_tool_results (cut l)) target) with (cut (cut l));
      (destruct (Hc (cut l)) as [->| ->]; [done|]);
      unfold cut; by rewrite pruned_compacted_settled, prune_idempotent.
  - destruct (Nat.ltb_spec limit (estimate_message_tokens l)) as [H|H].
    + rewrite pruned_compacted_settled. destruct (_ <? _)%nat; apply prune_idempotent.
    + rewrite (prune_short l) by done. destruct (Nat.ltb_spec limit (estimate_message_tokens l));
      [lia|].
      by apply prune_short.
Qed.
End settled.

(** ** The rounds of a run *)

Section rounds.
Context {J : Json} {JT : JsonText} {JN : JsonNumber} {JB : JsonBuild} {LC : Lowercase}.
Context {World : Type}.
Implicit Types (s : LoopState) (w : World).

(** The loop with another cap. *)
Definition with_max_iterations (m : nat) (L : ToolLoop (World := World)) : ToolLoop :=
  tool_loop (loop_translator L) (loop_runtime L) m (context_token_limit L) (has_checkpoint_path L)
    (model_profile L) (retry_policy L) (monitor L) (on_turn L) (few_shot_messages L).

Context (L : ToolLoop (World := World)) (tools : RenderedTools) (ctx : ToolContext).

(** A round begins by pruning. *)
Definition begun (s : LoopState) : LoopState :=
  set_messages (prune_context_if_needed L (messages s)) s.

(** [n] rounds that dispatched calls and went on. *)
Inductive rounds : nat → LoopState → World → LoopState → World → Prop :=
  | rounds_nil s w : rounds 0 s w s w
  | rounds_cons n s w s1 w1 s' w' :
      (iterations s < max_iterations L)%nat →
      round L tools ctx (begun s) w = (w1, inl s1) →
      rounds n s1 w1 s' w' →
      rounds (S n) s w s' w'.

(** What a round that goes on has done. *)
Lemma round_continues s w w' s' :
  round L tools ctx s w = (w', inl s') →
  ∃ w1 response now call calls,
    send_turn_with_retry L (messages s) tools (session s) w = (w1, Ok response)
    ∧ tr_parse_calls (loop_translator L) now response = Ok (call :: calls)
    ∧ iterations s' = S (iterations s)
    ∧ all_calls s' = all_calls s ++ call :: calls
    ∧ length (turn_traces s') = S (length (turn_traces s)).
Proof.
  unfold round. destruct (is_cancelled _ _); [done|]. destruct (budget_spent s); [done|].
  destruct (send_turn_with_retry _ _ _ _ _) as [w1 [response|e]]; [|done]. unfold respond.
  destruct (tr_parse_calls _ _ response) as [[|call calls]|e] eqn:Ep; [done| |done].
  unfold dispatched. destruct (dispatch_calls _ _ _ _) as [w2 results]. unfold monitored, advanced.
  intros H. exists w1, response. eexists _, call, calls. split; [done|]. split; [exact Ep|].
  destruct (monitor L) as [m|].
  - destruct (MM.check _ _) as [[]|]; try done; injection H as _ <-; cbn; rewrite length_app;
    cbn; auto with lia.
  - injection H as _ <-. cbn. rewrite length_app. cbn. auto with lia.
Qed.

Lemma rounds_count n s w s' w' :
  rounds n s w s' w' →
  iterations s' = (iterations s + n)%nat
  ∧ length (turn_traces s') = (length (turn_traces s) + n)%nat
  ∧ ((iterations s ≤ max_iterations L)%nat → (iterations s + n ≤ max_iterations L)%nat)
  ∧ ∃ calls, all_calls s' = all_calls s ++ calls ∧ (n ≤ length calls)%nat.
Proof.
  induction 1 as [|n s w s1 w1 s' w' Hi Hr _ (H1 & H2 & H3 & calls & H4 & H5)].
  { split_and!; [lia..|]. exists []. by rewrite app_nil_r. }
  destruct (round_continues _ _ _ _ Hr) as (? & ? & ? & call & cs & _ & _ & Ei & Ec & Et).
  cbn in Ei, Ec, Et. split_and!; [lia..|]. exists ((call :: cs) ++ calls).
  rewrite H4, Ec, app_assoc. split; [done|]. rewrite length_app. cbn. lia.
Qed.

(** The way out of a run: the cap, or a round that ended it. *)
Definition ends (s : LoopState) (w w' : World) (out : ToolLoopOutput * option BudgetTracker) :
  Prop :=
  ((max_iterations L ≤ iterations s)%nat ∧ w' = w ∧ out = stopped SRe.MaxIterations (begun s))
  ∨ ((iterations s < max_iterations L)%nat ∧ round L tools ctx (begun s) w = (w', inr out)).

Lemma run_inner_spec k s w :
  (max_iterations L - iterations s ≤ k)%nat →
  ∃ n s1 w1 w' out, run_inner L (S k) tools ctx s w = Some (w', out)
    ∧ rounds n s w s1 w1 ∧ ends s1 w1 w' out.
Proof.
  revert s w. induction k as [|k IH]; intros s w Hk; cbn [run_inner]; unfold is_exhausted.
  all: fold (begun s); change (iterations (begun s)) with (iterations s).
  all: destruct (Nat.leb_spec (max_iterations L) (iterations s)) as [Hm|Hm];
    [exists 0%nat, s, w, w, (stopped SRe.MaxIterations (begun s));
     split_and!; [done|constructor|by left]|].
  - lia.
  - destruct (round L tools ctx (begun s) w) as [w1 [s1|out]] eqn:Er.
    + destruct (round_continues _ _ _ _ Er) as (? & ? & ? & ? & ? & _ & _ & Ei & _). cbn in Ei.
      destruct (IH s1 w1) as (n & s2 & w2 & w' & out & E & Hr & He); [lia|].
      exists (S n), s2, w2, w', out. split_and!; [done|by econstructor|done].
    + exists 0%nat, s, w, w1, out. split_and!; [done|constructor|by right].
Qed.

(** What the output of a run says, of the state [s] in which its last round began. *)
Definition reports (s : LoopState) (out : ToolLoopOutput) : Prop :=
  TLO.iterations out = iterations s
  ∧ (∃ calls, TLO.tool_calls out = all_calls s ++ calls ∧ (monitor L = None → calls = []))
  ∧ match TLO.checkpoint out with
    | Some cp =>
        Ck.iterations cp = TLO.iterations out ∧ Ck.tool_calls cp = TLO.tool_calls out
        ∧ TLO.stop_reason out ≠ SRe.Stop ∧ TLO.final_text out = ""
    | None =>
        ∃ now response, tr_parse_calls (loop_translator L) now response = Ok []
          ∧ TLO.final_text out = extract_text response
          ∧ length (TLO.turn_traces out) = S (length (turn_traces s))
          ∧ (TLO.stop_reason out = SRe.Stop
             ↔ hit_length_limit (extract_finish_reason_raw response) = false)
    end.

Lemma stopped_reports reason s : reason ≠ SRe.Stop → reports s (stopped reason s).1.
Proof.
  intros Hr. split_and!; [done|exists []; by rewrite app_nil_r|]. by split_and!.
Qed.

Lemma round_out s w w' out :
  round L tools ctx s w = (w', inr out) →
  reports s out.1 ∧ TLO.stop_reason out.1 ≠ SRe.MaxIterations.
Proof.
  unfold round. destruct (is_cancelled _ _).
  { intros [= _ <-]. by split; [apply stopped_reports|]. }
  destruct (budget_spent s).
  { intros [= _ <-]. by split; [apply stopped_reports|]. }
  destruct (send_turn_with_retry _ _ _ _ _) as [w1 [response|e]].
  2: { intros [= _ <-]. by split; [apply stopped_reports|]. }
  unfold respond. destruct (tr_parse_calls _ _ response) as [[|call calls]|e] eqn:Ep.
  - intros [= _ <-]. cbn. split; [|by destruct (hit_length_limit _)].
    split_and!; [done|exists []; by rewrite app_nil_r|].
    eexists _, response. split; [exact Ep|]. split; [done|]. split; [cbn; rewrite length_app;
      cbn; lia|].
    by destruct (hit_length_limit _).
  - unfold dispatched. destruct (dispatch_calls _ _ _ _) as [w2 results].
    unfold monitored, advanced.
    destruct (monitor L) as [m|] eqn:Em; [|done].
    destruct (MM.check _ _) as [[]|]; try done; intros [= _ <-].
    all: split; [split_and!; [done|exists (call :: calls); by rewrite Em|by split_and!]|done].
  - intros [= _ <-]. split; [|done]. split_and!; [done|exists [];
    by rewrite app_nil_r|by split_and!].
Qed.

Lemma ends_reports s w w' out :
  ends s w w' out →
  reports s out.1
  ∧ (TLO.stop_reason out.1 = SRe.MaxIterations ↔ (max_iterations L ≤ iterations s)%nat).
Proof.
  intros [(Hm & _ & ->)|(Hm & Hr)].
  - split; [|done]. exact (stopped_reports SRe.MaxIterations (begun s) ltac:(done)).
  - destruct (round_out _ _ _ _ Hr) as [H1 H2]. split; [exact H1|]. split; [done|lia].
Qed.

(** The loop over a runtime that writes down the calls it is given to dispatch. *)
Definition logged (R : Runtime (World := World)) : Runtime (World := World * list ToolCall) := {|
  send msgs ts ses x := let '(w, r) := send R msgs ts ses x.1 in ((w, x.2), r);
  extract_session := extract_session R;
  dispatch_calls calls c x :=
    let '(w, rs) := dispatch_calls R calls c x.1 in ((w, x.2 ++ calls), rs);
  gen_range lo hi x := let '(w, d) := gen_range R lo hi x.1 in ((w, x.2), d);
  sleep ms x := (sleep R ms x.1, x.2);
  is_cancelled x := is_cancelled R x.1;
  now_ms x := now_ms R x.1;
  now_secs x := now_secs R x.1;
  today_str x := today_str R x.1;
  save_checkpoint cp x := (save_checkpoint R cp x.1, x.2);
  clear_checkpoint x := (clear_checkpoint R x.1, x.2);
  load_checkpoint x := load_checkpoint R x.1;
|}.
Definition logged_loop : ToolLoop (World := World * list ToolCall) :=
  tool_loop (loop_translator L) (logged (loop_runtime L)) (max_iterations L)
    (context_token_limit L) (has_checkpoint_path L) (model_profile L) (retry_policy L) (monitor L)
    ((λ cb p x, (cb p x.1, x.2)) <$> on_turn L) (few_shot_messages L).

Lemma send_logged k attempt msgs session w log :
  send_from logged_loop k attempt msgs tools session (w, log)
    = (let '(w1, r) := send_from L k attempt msgs tools session w in ((w1, log), r)).
Proof.
  revert attempt w. induction k as [|k IH]; intros attempt w; cbn [send_from]; [done|].
  cbn [loop_runtime logged_loop logged send fst snd retry_policy].
  destruct (send (loop_runtime L) msgs tools session w) as [w1 [response|[]]]; try done.
  destruct (RPol.should_retry _ _ _); [|done].
  destruct (PE.retry_after_ms e) as [ms|]; cbn [RPol.delay_with_retry_after sleep fst snd logged].
  - apply IH.
  - unfold RPol.delay_for_attempt. cbn [gen_range logged fst snd].
    destruct (_ <=? _)%N; cbn [sleep logged fst snd]; [apply IH|].
    destruct (gen_range _ _ _ w1) as [w2 d]. apply IH.
Qed.

(** A round under observation is the round, and reports what it dispatched. *)
Lemma round_logged s w log :
  ∃ w' x new, round L tools ctx s w = (w', x)
    ∧ round logged_loop tools ctx s (w, log) = ((w', log ++ new), x)
    ∧ match x with
      | inl s' => all_calls s' = all_calls s ++ new
      | inr out => TLO.tool_calls out.1 = all_calls s ++ new
      end.
Proof.
  assert (∀ w' (x : LoopState + (ToolLoopOutput * option BudgetTracker)), match x with
      | inl s' => all_calls s' = all_calls s
      | inr out => TLO.tool_calls out.1 = all_calls s
      end → ∃ w1 x1 new, (w', x) = (w1, x1) ∧ ((w', log), x) = ((w1, log ++ new), x1)
    ∧ match x1 with
      | inl s' => all_calls s' = all_calls s ++ new
      | inr out => TLO.tool_calls out.1 = all_calls s ++ new
      end) as Hnone.
  { intros w' x Hx. exists w', x, []. by rewrite !app_nil_r. }
  unfold round. cbn [loop_runtime logged_loop logged is_cancelled fst].
  destruct (is_cancelled _ w); [by apply Hnone|]. destruct (budget_spent s); [by apply Hnone|].
  unfold send_turn_with_retry. rewrite send_logged. cbn [retry_policy logged_loop].
  destruct (send_from L _ _ _ _ _ w) as [w1 [response|e]]; [|by apply Hnone].
  unfold respond. cbn [loop_translator loop_runtime logged_loop logged now_ms fst].
  change (received logged_loop response (w1, log) s) with (received L response w1 s).
  destruct (tr_parse_calls _ _ response) as [[|call calls]|e]; [|  |by apply Hnone].
  { cbn [has_checkpoint_path logged_loop]. by destruct (has_checkpoint_path L); apply Hnone. }
  unfold dispatched. cbn [loop_translator loop_runtime logged_loop logged dispatch_calls fst snd].
  destruct (dispatch_calls _ _ _ w1) as [w2 results]. unfold monitored, advanced, snapshot.
  cbn [monitor on_turn has_checkpoint_path logged_loop loop_runtime].
  destruct (on_turn L) as [cb|], (monitor L) as [m|]; cbn [fmap option_fmap option_map];
    try destruct (MM.check _ m) as [[]|]; destruct (has_checkpoint_path L);
    do 3 eexists; (split; [reflexivity|]; split; [reflexivity|]; reflexivity).
Qed.

Lemma run_inner_logged k s w log w' out :
  run_inner L k tools ctx s w = Some (w', out) →
  ∃ calls, run_inner logged_loop k tools ctx s (w, log) = Some ((w', log ++ calls), out)
    ∧ TLO.tool_calls out.1 = all_calls s ++ calls.
Proof.
  revert s w log. induction k as [|k IH]; intros s w log; cbn [run_inner]; [done|].
  change (max_iterations logged_loop) with (max_iterations L).
  change (prune_context_if_needed logged_loop) with (prune_context_if_needed L). fold (begun s).
  destruct (is_exhausted _ _).
  { intros [= <- <-]. exists []. by rewrite !app_nil_r. }
  destruct (round_logged (begun s) w log) as (w1 & [s1|out1] & new & -> & -> & Hc).
  - intros H. destruct (IH _ _ (log ++ new) H) as (calls & E & Hout). exists (new ++ calls).
    rewrite E, Hout, Hc, !app_assoc. done.
  - intros [= <- <-]. by exists new.
Qed.

(** C8: Whatever the model answers, a run returns: some rounds that dispatched calls, each counted
    once, then one of the ways out.  The rounds stay within the cap; the calls that are reported
    are exactly those that were given to the dispatcher, in order, those of a last round that the
    monitor stopped among them; and an output is either an answer without calls and without
    checkpoint, or has no text and a checkpoint that agrees with it. *)
Theorem runs_return s w :
  ∃ n s1 w1 w' out b,
    run_inner L (loop_fuel L s) tools ctx s w = Some (w', (out, b))
    ∧ rounds n s w s1 w1 ∧ ends s1 w1 w' (out, b)
    ∧ reports s1 out
    ∧ TLO.iterations out = (iterations s + n)%nat
    ∧ ((iterations s ≤ max_iterations L)%nat → (TLO.iterations out ≤ max_iterations L)%nat)
    ∧ (TLO.stop_reason out = SRe.MaxIterations ↔ (max_iterations L ≤ TLO.iterations out)%nat)
    ∧ ∃ calls, TLO.tool_calls out = all_calls s ++ calls ∧ (n ≤ length calls)%nat
        ∧ run_inner logged_loop (loop_fuel L s) tools ctx s (w, [])
            = Some ((w', calls), (out, b)).
Proof.
  destruct (run_inner_spec (max_iterations L - iterations s) s w ltac:(done))
    as (n & s1 & w1 & w' & [out b] & E & Hr & He).
  destruct (ends_reports _ _ _ _ He) as [Hrep Hmax].
  destruct (rounds_count _ _ _ _ _ Hr) as (H1 & _ & H3 & calls & H4 & H5).
  pose proof Hrep as (Hi & (extra & Hc & _) & _). cbn [fst] in *.
  destruct (run_inner_logged _ _ _ [] _ _ E) as (all & Elog & Hall). cbn [fst app] in *.
  exists n, s1, w1, w', out, b. rewrite Hi, <- H1 in *. split_and!; try done.
  exists all. split; [done|]. split; [|done].
  rewrite Hall, H4 in Hc. rewrite <- app_assoc in Hc. apply app_inv_head in Hc as ->.
  rewrite length_app. lia.
Qed.
End rounds.

(** ** Resuming a run *)

Section resuming.
Context {J : Json} {JT : JsonText} {JN : JsonNumber} {JB : JsonBuild} {JL : JsonBuildLaws JB}.
Context {LC : Lowercase} {World : Type}.
Context (L : ToolLoop (World := World)) (tools : RenderedTools) (ctx : ToolContext).
Implicit Types (s : LoopState) (w : World).

(** What of the state the rounds read, when there is no monitor. *)
Definition core (s : LoopState) :
    list json * nat * list ToolCall * SessionState * option BudgetTracker :=
  (messages s, iterations s, all_calls s, session s, budget s).

(** A result without the totals, which begin anew when a run is resumed. *)
Definition visible (r : World * (ToolLoopOutput * option BudgetTracker)) :
    World * string * nat * list ToolCall * StopReason * option Checkpoint * option BudgetTracker :=
  (r.1, TLO.final_text r.2.1, TLO.iterations r.2.1, TLO.tool_calls r.2.1, TLO.stop_reason r.2.1,
   TLO.checkpoint r.2.1, r.2.2).

Definition round_visible (r : World * (LoopState + (ToolLoopOutput * option BudgetTracker))) :=
  match r with
  | (w, inl s) => inl (w, core s)
  | (w, inr out) => inr (visible (w, out))
  end.

Lemma core_eq s s' : core s = core s' →
  messages s = messages s' ∧ iterations s = iterations s' ∧ all_calls s = all_calls s'
  ∧ session s = session s' ∧ budget s = budget s'.
Proof. unfold core. intros H. by simplify_eq. Qed.

Lemma stopped_core reason s s' w : core s = core s' →
  visible (w, stopped reason s) = visible (w, stopped reason s').
Proof. intros (H1 & H2 & H3 & H4 & H5)%core_eq. unfold visible, stopped. cbn. congruence. Qed.

Lemma respond_core response s s' w :
  monitor L = None → core s = core s' →
  round_visible (respond L response ctx s w) = round_visible (respond L response ctx s' w).
Proof.
  intros Hm (H1 & H2 & H3 & H4 & H5)%core_eq. destruct s as [m i c u se h t b], s' as [m' i' c' u' se' h' t' b'].
  cbn in H1, H2, H3, H4, H5. subst. unfold respond, monitored. rewrite Hm.
  destruct (tr_parse_calls _ _ response) as [[|call calls]|e]; [done| |done].
  unfold dispatched. cbn. by destruct (dispatch_calls _ _ _ _).
Qed.

Lemma round_core s s' w :
  monitor L = None → core s = core s' →
  round_visible (round L tools ctx s w) = round_visible (round L tools ctx s' w).
Proof.
  intros Hm Hc. pose proof Hc as (H1 & H2 & H3 & H4 & H5)%core_eq. unfold round, budget_spent.
  rewrite <- H1, <- H4, <- H5. destruct (is_cancelled _ _).
  { cbn. f_equal. by apply stopped_core. }
  destruct (match budget s with Some b => _ | None => _ end).
  { cbn. f_equal. by apply stopped_core. }
  destruct (send_turn_with_retry _ _ _ _ _) as [w1 [response|e]].
  - by apply respond_core.
  - cbn. f_equal. by apply stopped_core.
Qed.

Lemma begun_core s s' : core s = core s' → core (begun L s) = core (begun L s').
Proof. intros (H1 & H2 & H3 & H4 & H5)%core_eq. unfold core. cbn. congruence. Qed.

Lemma run_inner_core fuel s s' w :
  monitor L = None → core (begun L s) = core (begun L s') →
  visible <$> run_inner L fuel tools ctx s w = visible <$> run_inner L fuel tools ctx s' w.
Proof.
  intros Hm. revert s s' w. induction fuel as [|fuel IH]; intros s s' w Hc; [done|].
  cbn [run_inner]. fold (begun L s) (begun L s').
  pose proof Hc as (_ & -> & _)%core_eq. destruct (is_exhausted _ _).
  { cbn. f_equal. by apply stopped_core. }
  pose proof (round_core _ _ w Hm Hc) as Hr.
  destruct (round L tools ctx (begun L s) w) as [w1 [s1|o1]],
    (round L tools ctx (begun L s') w) as [w2 [s2|o2]];
    cbn in Hr; try discriminate Hr.
  - injection Hr as <- Hr'. apply IH, begun_core. unfold core. congruence.
  - cbn [fmap option_fmap option_map]. congruence.
Qed.

Lemma begun_twice s : begun L (begun L s) = begun L s.
Proof. unfold begun, prune_context_if_needed. cbn. by rewrite prune_context_settles. Qed.

(** The rounds are the same whatever the cap. *)
Lemma round_cap m : round (with_max_iterations m L) tools ctx = round L tools ctx.
Proof. reflexivity. Qed.

Lemma run_inner_rounds m n fuel s w s1 w1 :
  (max_iterations L ≤ m)%nat → rounds L tools ctx n s w s1 w1 →
  run_inner (with_max_iterations m L) (n + fuel) tools ctx s w
    = run_inner (with_max_iterations m L) fuel tools ctx s1 w1.
Proof.
  intros Hm. induction 1 as [|n s w s1 w1 s' w' Hi Hr _ IH]; [done|]. cbn [Nat.add run_inner].
  change (set_messages (prune_context_if_needed (with_max_iterations m L) (messages s)) s)
    with (begun L s).
  rewrite round_cap, Hr. unfold is_exhausted. cbn [max_iterations with_max_iterations].
  destruct (Nat.leb_spec m (iterations (begun L s))) as [H|_]; [cbn in H; lia|]. exact IH.
Qed.
End resuming.

Section resumed.
Context {J : Json} {JT : JsonText} {JN : JsonNumber} {JB : JsonBuild} {JL : JsonBuildLaws JB}.
Context {LC : Lowercase} {World : Type}.

(** C9: A run that stopped at its cap, resumed from its checkpoint with a higher cap, does and
    answers what a run with the higher cap would have done and answered from the start: the
    checkpoint holds all that the rounds read, and pruning once more changes nothing. *)
Theorem resumed_as_uninterrupted (L : ToolLoop (World := World)) m msgs tools ctx b w w1 out b1 :
  monitor L = None → (max_iterations L ≤ m)%nat →
  run_messages L msgs tools ctx b w = Some (w1, (out, b1)) →
  TLO.stop_reason out = SRe.MaxIterations →
  ∃ cp, TLO.checkpoint out = Some cp
    ∧ visible <$> resume (with_max_iterations m L) cp tools ctx b1 w1
      = visible <$> run_messages (with_max_iterations m L) msgs tools ctx b w.
Proof.
  intros Hmon Hm Hrun Hstop. unfold run_messages, resume, go in *.
  set (s := start msgs 0 [] SSt.default b) in *.
  destruct (run_inner_spec L (tr_render_tools (loop_translator L) tools) ctx
    (max_iterations L - iterations s) s w ltac:(done)) as (n & s1 & w2 & w' & o & E & Hr & He).
  unfold loop_fuel in Hrun. rewrite E in Hrun. injection Hrun as -> ->.
  destruct He as [(Hi & -> & Ho)|(_ & He)];
    [|by destruct (round_out _ _ _ _ _ _ _ He) as [_ []]].
  injection Ho as -> ->. eexists. split; [reflexivity|].
  destruct (rounds_count _ _ _ _ _ _ _ _ Hr) as (H1 & _ & H3 & _).
  specialize (H3 ltac:(cbn; lia)). cbn in H1, H3.
  change (tr_render_tools (loop_translator (with_max_iterations m L)) tools)
    with (tr_render_tools (loop_translator L) tools).
  replace (loop_fuel (with_max_iterations m L) s) with (n + S (m - n))%nat
    by (unfold loop_fuel; cbn; lia).
  rewrite (run_inner_rounds _ _ _ _ _ _ _ _ _ _ Hm Hr).
  replace (loop_fuel _ _) with (S (m - n)) by (unfold loop_fuel; cbn; lia).
  apply run_inner_core; [done|].
  change (begun (with_max_iterations m L)) with (begun L).
  transitivity (core (begun L (begun L s1))); [by apply begun_core|by rewrite begun_twice].
Qed.
End resumed.

(** ** Retries, the budget and the conversation *)

Section requests.
Context {J : Json} {JT : JsonText} {JN : JsonNumber} {JB : JsonBuild} {LC : Lowercase}.
Context {World : Type}.
Context (L : ToolLoop (World := World)) (tools : RenderedTools) (ctx : ToolContext).
Implicit Types (s : LoopState) (w : World).
#[local] Abbreviation R := (loop_runtime L).

(** The draw of a delay stays between its bounds. *)
Definition draws_within : Prop :=
  ∀ lo hi w, (lo ≤ hi)%N → (lo ≤ (gen_range R lo hi w).2 ≤ hi)%N.

(** A policy's own delay is at most its ceiling, and half the base unless the ceiling is lower. *)
Lemma delay_bounds p attempt w :
  draws_within →
  let delay := (RPol.delay_for_attempt (gen_range R) attempt p w).2 in
  (delay ≤ RPol.max_delay_ms p)%N
  ∧ (N.min (RPol.base_delay_ms p / 2) (N.min u64_MAX (RPol.max_delay_ms p)) ≤ delay)%N.
Proof.
  intros Hd. unfold RPol.delay_for_attempt. set (e := sat_mul64 _ _).
  assert (N.min (RPol.base_delay_ms p) u64_MAX ≤ e)%N as He.
  { unfold e, sat_mul64. rewrite N.shiftl_mul_pow2, N.mul_1_l.
    assert (1 ≤ 2 ^ N.min attempt 10)%N by (apply N.lt_pred_le, N.neq_0_lt_0, N.pow_nonzero; lia).
    nia. }
  pose proof (N.Div0.div_le_upper_bound (RPol.base_delay_ms p) 2 (RPol.base_delay_ms p) ltac:(lia)).
  destruct (N.leb_spec (N.min e (RPol.max_delay_ms p)) (RPol.base_delay_ms p / 2)) as [H1|H1];
    cbn [snd]; [lia|].
  destruct (Hd (RPol.base_delay_ms p / 2)%N (N.min e (RPol.max_delay_ms p)) w); lia.
Qed.

(** Attempts that failed and are tried again, from attempt [a] on, with the delays slept. *)
Inductive retried (msgs : list json) (session : SessionState) :
    N → World → list (ProviderError * N) → N → World → Prop :=
  | retried_nil a w : retried msgs session a w [] a w
  | retried_cons a w e w1 w2 delay slept a' w' :
      send R msgs tools session w = (w1, Err (LE.Provider e)) →
      RPol.should_retry e a (retry_policy L) = true →
      RPol.delay_with_retry_after (gen_range R) a (PE.retry_after_ms e) (retry_policy L) w1
        = (w2, delay) →
      retried msgs session (a + 1) (sleep R delay w2) slept a' w' →
      retried msgs session a w ((e, delay) :: slept) a' w'.

Lemma send_from_spec msgs session k a w :
  (a + N.of_nat k = RPol.max_attempts (retry_policy L))%N →
  ∃ slept a' w1, retried msgs session a w slept a' w1
    ∧ a' = (a + N.of_nat (length slept))%N ∧ (length slept ≤ k)%nat
    ∧ if decide (length slept = k) then
        send_from L k a msgs tools session w = (w1, Err LE.RetriesExhausted)
      else send_from L k a msgs tools session w = send R msgs tools session w1
           ∧ ∀ e, (send R msgs tools session w1).2 = Err (LE.Provider e) →
               RPol.should_retry e a' (retry_policy L) = false.
Proof.
  revert a w. induction k as [|k IH]; intros a w Hk; cbn [send_from].
  { exists [], a, w. split_and!; [constructor|cbn; lia|done|done]. }
  assert (∀ w' r, send R msgs tools session w = (w', r) →
    (∀ e, r = Err (LE.Provider e) → RPol.should_retry e a (retry_policy L) = false) →
    ∃ slept a' w1, retried msgs session a w slept a' w1
    ∧ a' = (a + N.of_nat (length slept))%N ∧ (length slept ≤ S k)%nat
    ∧ if decide (length slept = S k) then (w', r) = (w1, Err LE.RetriesExhausted)
      else (w', r) = send R msgs tools session w1
           ∧ ∀ e, (send R msgs tools session w1).2 = Err (LE.Provider e) →
               RPol.should_retry e a' (retry_policy L) = false) as Hlast.
  { intros w' r E Hr. exists [], a, w. rewrite E. split_and!; [constructor|cbn; lia|cbn;
    lia|done]. }
  destruct (send R msgs tools session w) as [w0 [response|[]]] eqn:Es; try by apply Hlast.
  destruct (RPol.should_retry e a (retry_policy L)) eqn:Er.
  - destruct (RPol.delay_with_retry_after _ _ _ _ _) as [w2 delay] eqn:Ed.
    destruct (IH (a + 1)%N (sleep R delay w2)) as (slept & a' & w1 & Hrt & Ha & Hle & Hif); [lia|].
    exists ((e, delay) :: slept), a', w1. cbn [length].
    split_and!; [by econstructor|lia|lia|].
    destruct (decide (length slept = k)), (decide (S (length slept) = S k)); try lia; done.
  - apply Hlast; [done|]. by intros e' [= <-].
Qed.

(** C24: A turn is sent at most [max_attempts] times; between the attempts it sleeps as long as the
    provider asked, or a drawn time within the policy's bounds.  The outcome is that of the last
    attempt, except that when the attempts are used up the error of the provider is replaced. *)
Theorem turn_is_retried msgs session w :
  draws_within →
  ∃ slept w1, retried msgs session 0 w slept (N.of_nat (length slept)) w1
    ∧ (N.of_nat (length slept) ≤ RPol.max_attempts (retry_policy L))%N
    ∧ Forall (λ x : ProviderError * N,
        PE.retry_after_ms x.1 = Some x.2
        ∨ PE.retry_after_ms x.1 = None ∧ (x.2 ≤ RPol.max_delay_ms (retry_policy L))%N) slept
    ∧ Forall (λ x : ProviderError * N, x.1 ∉ [PE.AuthFailure; PE.ContentPolicy; PE.ContextOverflow])
        slept
    ∧ if decide (N.of_nat (length slept) = RPol.max_attempts (retry_policy L)) then
        send_turn_with_retry L msgs tools session w = (w1, Err LE.RetriesExhausted)
      else
        send_turn_with_retry L msgs tools session w = send R msgs tools session w1
        ∧ ∀ e, (send R msgs tools session w1).2 = Err (LE.Provider e) →
            RPol.should_retry e (N.of_nat (length slept)) (retry_policy L) = false.
Proof.
  intros Hd. unfold send_turn_with_retry.
  destruct (send_from_spec msgs session (N.to_nat (RPol.max_attempts (retry_policy L))) 0 w)
    as (slept & a' & w1 & Hr & -> & Hle & Hif); [lia|].
  rewrite N.add_0_l in Hr, Hif. exists slept, w1. split_and!; [done|lia|..].
  - clear Hle Hif. revert Hr. generalize 0%N as a, (N.of_nat (length slept)) as a'. intros a a' Hr.
    induction Hr as [|a w e w2 w3 delay slept a' w' _ _ Hdl _ IH]; constructor; [|exact IH]. cbn.
    unfold RPol.delay_with_retry_after in Hdl. destruct (PE.retry_after_ms e) as [ms|].
    + injection Hdl as _ ->. by left.
    + right. split; [done|]. pose proof (delay_bounds (retry_policy L) a w2 Hd) as [Hb _].
      by rewrite Hdl in Hb.
  - clear Hle Hif. revert Hr. generalize 0%N as a, (N.of_nat (length slept)) as a'. intros a a' Hr.
    induction Hr as [|a w e w2 w3 delay slept a' w' _ Hsr _ _ IH]; constructor; [|exact IH]. cbn.
    unfold RPol.should_retry in Hsr. destruct (_ <=? _)%N; [done|]. destruct e; set_solver.
  - destruct (decide (length slept = _)), (decide (N.of_nat (length slept) = _)); try lia; done.
Qed.

(** The date is looked at only when a turn is recorded: once the budget is spent, every run stops
    before its first request, whatever the day, and leaves the tracker as it is. *)
Theorem spent_budget_stays_spent s w b :
  budget s = Some b → BTr.check b = BSt.Exhausted →
  is_cancelled R w = false → (iterations s < max_iterations L)%nat →
  run_inner L (loop_fuel L s) tools ctx s w = Some (w, stopped SRe.BudgetExhausted (begun L s))
  ∧ (stopped SRe.BudgetExhausted (begun L s)).2 = Some b.
Proof.
  intros Hb Hx Hc Hi. unfold loop_fuel. cbn [run_inner]. fold (begun L s). unfold is_exhausted.
  change (iterations (begun L s)) with (iterations s).
  destruct (Nat.leb_spec (max_iterations L) (iterations s)); [lia|].
  unfold round, budget_spent. change (budget (begun L s)) with (budget s).
  rewrite Hc, Hb, bool_decide_true by done. done.
Qed.
End requests.

(** ** The conversation *)

Section conversation.
Context {J : Json} {JT : JsonText} {JN : JsonNumber} {JB : JsonBuild} {JL : JsonBuildLaws JB}.
Context {LC : Lowercase} {World : Type}.
Context (L : ToolLoop (World := World)) (tools : RenderedTools) (ctx : ToolContext).

(** Every call gets one result, as [dispatch_batch] promises. *)
Definition answers_calls : Prop :=
  ∀ calls w, (dispatch_calls (loop_runtime L) calls ctx w).2.*1 ≡ₚ calls.

Definition answer_ids (msgs : list json) : list (option string * option string) :=
  (λ m, (str_field "role" m, str_field "tool_call_id" m)) <$> msgs.

Lemma pointer_app toks1 toks2 (v : json) : pointer (toks1 ++ toks2) v = pointer toks1 v ≫=
  pointer toks2.
Proof.
  revert v. induction toks1 as [|tok toks1 IH]; intros v; [done|]. cbn [app pointer].
  destruct (pointer_step v tok) as [v'|]; [apply IH|done].
Qed.

(** The calls that are read are all those of the response, each as the model wrote it. *)
Lemma parse_calls_written now response calls :
  parse_calls now response = Ok calls → calls ≠ [] →
  ∃ v arr assistant, response = BR.Json v
    ∧ pointer ["choices"; "0"; "message"] v = Some assistant
    ∧ pointer ["choices"; "0"; "message"; "tool_calls"] v ≫= json_as_array = Some arr
    ∧ Forall2 written arr calls.
Proof.
  destruct response as [v| |]; try done. cbn [parse_calls]. intros H Hn. exists v.
  destruct (pointer ["choices"; "0"; "message"; "tool_calls"] v ≫= json_as_array) as [arr|] eqn:Ea;
    [|by injection H as <-]. exists arr.
  change ["choices"; "0"; "message"; "tool_calls"]
    with (["choices"; "0"; "message"] ++ ["tool_calls"]) in Ea. rewrite pointer_app in Ea.
  destruct (pointer ["choices"; "0"; "message"] v) as [assistant|]; [|done].
  exists assistant. split_and!; [done|done|done|]. apply parse_all_spec in H.
  eapply Forall2_impl; [exact H|]. apply parse_call_written.
Qed.

(** C10: With the OpenAI translator, a round that goes on has added to the conversation the
    message of the response that was received in this round and then, whatever the dispatcher
    did, exactly one tool message for each of the calls in that message, under the identifier the
    model gave it, with what the dispatcher returned for it; the calls that were dispatched and
    are reported are those, with the names and the arguments the model wrote.  A reflection of the
    monitor may follow, and the whole is pruned. *)
Theorem every_call_is_answered render s w w' s' :
  loop_translator L = openai_translator render → answers_calls →
  round L tools ctx s w = (w', inl s') →
  ∃ w1 v assistant arr calls w2 results answers reflection,
    send_turn_with_retry L (messages s) tools (session s) w = (w1, Ok (BR.Json v))
    ∧ pointer ["choices"; "0"; "message"] v = Some assistant
    ∧ pointer ["choices"; "0"; "message"; "tool_calls"] v ≫= json_as_array = Some arr
    ∧ Forall2 written arr calls ∧ calls ≠ []
    ∧ all_calls s' = all_calls s ++ calls
    ∧ dispatch_calls (loop_runtime L) calls ctx w1 = (w2, results)
    ∧ results.*1 ≡ₚ calls ∧ Forall2 tells results answers
    ∧ answer_ids answers
        ≡ₚ (λ c, (Some "tool", Some (stdpp.option.default "" (str_field "id" c)))) <$> arr
    ∧ (reflection = [] ∨ ∃ text, reflection = [message "system" text])
    ∧ messages s' = prune_context_if_needed L
        (messages s ++ assistant :: answers ++ reflection).
Proof.
  intros Ht Hd. unfold round. destruct (is_cancelled _ _); [done|]. destruct (budget_spent s);
    [done|].
  destruct (send_turn_with_retry _ _ _ _ _) as [w1 [response|e]]; [|done]. unfold respond.
  rewrite Ht. cbn [tr_parse_calls openai_translator].
  destruct (parse_calls _ response) as [[|call calls]|e] eqn:Ep; [done| |done].
  destruct (parse_calls_written _ _ _ Ep ltac:(done)) as (v & arr & assistant & -> & Ha & Harr & Hw).
  unfold dispatched. pose proof (Hd (call :: calls) w1) as Hperm. rewrite Ht.
  cbn [tr_render_assistant_message tr_render_results openai_translator render_assistant_message].
  rewrite Ha. cbn [option_list].
  destruct (dispatch_calls _ _ _ w1) as [w2 results] eqn:Ed. cbn [snd] in Hperm.
  destruct (results_appended (messages s ++ [assistant]) results) as (answers & Happ & Hans).
  intros H.
  assert (∃ reflection, (reflection = [] ∨ ∃ text, reflection = [message "system" text])
    ∧ messages s' = prune_context_if_needed L
        (append_results (messages s ++ [assistant]) (render_results results) ++ reflection)
    ∧ all_calls s' = all_calls s ++ call :: calls) as (reflection & Hrefl & Hm & Hc).
  { revert H. unfold monitored, advanced. destruct (monitor L) as [m|].
    - destruct (MM.check _ _) as [[]|]; try done; intros [= _ <-];
        [eexists [_]; split; [right; by eexists|done]|exists []; split; [by left|]].
      by rewrite app_nil_r.
    - intros [= _ <-]. exists []. split; [by left|]. by rewrite app_nil_r. }
  exists w1, v, assistant, arr, (call :: calls), w2, results, answers, reflection.
  rewrite Happ, <- !app_assoc in Hm. split_and!; try done.
  trans ((λ c, (Some "tool", Some (TL.id c))) <$> call :: calls).
  - rewrite <- Hperm. clear -Hans.
    induction Hans as [|cr m results answers (H1 & H2 & _) _ IH]; [done|].
    cbn. unfold answer_ids in IH. rewrite IH, H1, H2. done.
  - clear -Hw. induction Hw as [|c k arr ks [H _] _ IH]; [done|].
    cbn. by rewrite IH, H.
Qed.
End conversation.

(** ** A loop on a scripted model *)

#[local] Existing Instance simple_Json.
#[local] Existing Instance simple_build.
#[local] Instance sample_text : @JsonText simple_Json := {| json_to_string := simple_print |}.
#[local] Instance no_numbers : @JsonNumber simple_Json := {| json_as_f64 _ := None |}.
#[local] Instance ascii_lowercase : Lowercase :=
  {| to_lowercase := str_to_ascii_lowercase; to_lowercase_ascii _ _ := eq_refl |}.

(** What the model will answer, what was sent, run and slept, and the day. *)
#[local] Abbreviation Scripted := (list (result BackendResponse LlmError) * list string *
  string)%type.

Definition note (what : string) (w : Scripted) : Scripted := (w.1.1, w.1.2 ++ [what], w.2).

(** The calls of a batch are run in reverse, so that their order is seen. *)
Definition scripted : Runtime (World := Scripted) := {|
  send msgs _ _ w :=
    match w.1.1 with
    | [] => (w, Err (LE.Network "closed"))
    | r :: script => ((script, w.1.2 ++ ["send " +:+ fmt_nat (length msgs)], w.2), r)
    end;
  extract_session _ := SSt.default;
  dispatch_calls calls _ w :=
    (note ("run " +:+ fmt_nat (length calls)) w,
     (λ c, (c, TR.Ok ("ran " +:+ TL.name c) false [])) <$> reverse calls);
  gen_range lo _ w := (w, lo);
  sleep ms w := note ("sleep " +:+ fmt_N ms) w;
  is_cancelled _ := false;
  now_ms _ := 7%Z;
  now_secs _ := 7%N;
  today_str w := w.2;
  save_checkpoint cp w := note ("save " +:+ fmt_nat (Ck.iterations cp)) w;
  clear_checkpoint w := note "clear" w;
  load_checkpoint _ := Err LoadError.NotFound;
|}.

Definition no_tools (tools : list ToolDef) : RenderedTools :=
  RenderedTools.JsonArray (json_array []).
Definition sample_loop (cap : nat) (few_shot : list json) : ToolLoop (World := Scripted) :=
  tool_loop (openai_translator no_tools) scripted cap (N.to_nat 100000) true None RPol.default None
    None few_shot.

Definition says (text finish : string) : BackendResponse :=
  BR.Json (JObj [("choices", JArr [JObj [("finish_reason", JStr finish);
    ("message", JObj [("role", JStr "assistant"); ("content", JStr text)])]])]).

(** The output without its totals, and what was done. *)
Definition seen (r : option (Scripted * (ToolLoopOutput * option BudgetTracker))) :=
  (λ x, (x.1.1.2, TLO.final_text x.2.1, TLO.iterations x.2.1, TLO.stop_reason x.2.1,
         TL.id <$> TLO.tool_calls x.2.1, Ck.iterations <$> TLO.checkpoint x.2.1)) <$> r.

Definition provider_down : result BackendResponse LlmError := Err (LE.Provider PE.Timeout).
Definition transcript (cap : nat) (script : list (result BackendResponse LlmError)) :=
  seen (run (sample_loop cap []) "be brief" "list the files" [] fresh_context None (script, [],
    "d1")).

(** Two calls, a retry, an answer. *)
Example conversation_at_work :
  transcript 5 [Ok two_calls; provider_down; Ok (says "done" "stop")]
    = Some (["send 2"; "run 2"; "save 1"; "send 5"; "sleep 500"; "send 5"; "clear"],
            "done", 1%nat, SRe.Stop, ["functions.Read:0"; "c2"], None).
Proof. by vm_compute. Qed.

(** An answer cut by the limit of the model is an error of the backend with its text and without
    a checkpoint. *)
Example cut_answer :
  transcript 5 [Ok (says "half" "length")]
    = Some (["send 2"; "clear"], "half", 0%nat,
            SRe.BackendError "model hit output token limit (finish_reason=length)", [], None).
Proof. by vm_compute. Qed.

(** The error of the last attempt is slept on and then replaced. *)
Example retries_run_out :
  transcript 5 [provider_down; provider_down; provider_down; Ok (says "back" "stop")]
    = Some (["send 2"; "sleep 500"; "send 2"; "sleep 500"; "send 2"; "sleep 500"], "", 0%nat,
            SRe.BackendError "retries exhausted", [], Some 0%nat).
Proof. by vm_compute. Qed.

(** With four examples and little room, the prompt of the user is pruned and an example stays. *)
Example few_shot_loses_prompt :
  let examples := [message "user" "q1"; message "assistant" "a1"; message "user" "q2";
                   message "assistant" "a2"] in
  let msgs := initial_messages_with_few_shot "sys" "the task" examples in
  let kept := prune_if_needed (msgs ++ [message "assistant" "x"; message "tool" "y";
                                       message "assistant" "z"]) 10 in
  str_field "content" <$> kept = Some <$> ["sys"; "q1"; "x"; "y"; "z"].
Proof. by vm_compute. Qed.

(** Pruning can drop the message whose calls a tool message answers. *)
Example answer_without_call :
  str_field "role" <$>
    prune_if_needed (initial_messages "s" "u"
      ++ [message "assistant" "calls"; message "tool" "a"; message "tool" "b";
        message "tool" "c"]) 0
    = Some <$> ["system"; "user"; "tool"; "tool"; "tool"].
Proof. by vm_compute. Qed.

(** One refusal counts as a promise and as its contradiction. *)
Example refusal_contradicts_itself :
  let turn := Tu.mk 0 "I cannot read that file" None [] None in
  MM.contradiction_detected [turn] MM.default = true.
Proof. by vm_compute. Qed.

Definition yesterday : BudgetTracker :=
  BTr.mk BC.default (F64.of_Z 10) (F64.of_Z 10) "d0" 3 0.

Lemma scripted_draws : draws_within (sample_loop 5 []).
Proof. intros lo hi w H. cbn. lia. Qed.

Lemma spent_budget_stays_spent_witness :
  BTr.check yesterday = BSt.Exhausted
  ∧ run_inner (sample_loop 5 []) (loop_fuel (sample_loop 5 [])
        (start [] 0 [] SSt.default (Some yesterday))) (no_tools []) fresh_context
      (start [] 0 [] SSt.default (Some yesterday)) ([], [], "d1")
    = Some (([], [], "d1"), stopped SRe.BudgetExhausted
        (begun (sample_loop 5 []) (start [] 0 [] SSt.default (Some yesterday)))).
Proof.
  assert (BTr.check yesterday = BSt.Exhausted) as Hx by by vm_compute. split; [done|].
  apply (spent_budget_stays_spent (sample_loop 5 []) (no_tools []) fresh_context
    (start [] 0 [] SSt.default (Some yesterday)) ([], [], "d1") yesterday); [done|done|done|].
  cbn. lia.
Defined.

Lemma turn_is_retried_witness :
  ∃ slept w1, retried (sample_loop 5 []) (no_tools []) [] SSt.default 0
      ([provider_down; Ok two_calls], [], "d1") slept (N.of_nat (length slept)) w1
    ∧ (N.of_nat (length slept) ≤ 3)%N.
Proof.
  destruct (turn_is_retried (sample_loop 5 []) (no_tools []) [] SSt.default
    ([provider_down; Ok two_calls], [], "d1")) as (slept & w1 & Hr & Hl & _).
  { intros lo hi w H. cbn. lia. }
  by exists slept, w1.
Defined.

Lemma resumed_as_uninterrupted_witness :
  ∃ cp, visible <$> resume (with_max_iterations 5 (sample_loop 1 [])) cp [] fresh_context None
      ([Ok (says "done" "stop")], ["send 0"; "run 2"; "save 1"], "d1")
    = visible <$> run_messages (with_max_iterations 5 (sample_loop 1 [])) [] [] fresh_context None
      ([Ok two_calls; Ok (says "done" "stop")], [], "d1").
Proof.
  destruct (run_messages (sample_loop 1 []) [] [] fresh_context None
    ([Ok two_calls; Ok (says "done" "stop")], [], "d1")) as [[w1 [out b1]]|] eqn:E;
    [|by vm_compute in E].
  pose proof E as E'. vm_compute in E'. injection E' as Hw Ho Hb.
  destruct (resumed_as_uninterrupted (sample_loop 1 []) 5 [] [] fresh_context None
    ([Ok two_calls; Ok (says "done" "stop")], [], "d1") w1 out b1) as (cp & _ & Hcp);
    [done|cbn; lia|done|by rewrite <- Ho|].
  exists cp. rewrite <- Hw, <- Hb in Hcp. exact Hcp.
Defined.

Lemma every_call_is_answered_witness :
  ∃ s', round (sample_loop 5 []) (no_tools []) fresh_context
      (start [] 0 [] SSt.default None) ([Ok two_calls], [], "d1")
      = (([], ["send 0"; "run 2"; "save 1"], "d1"), inl s')
    ∧ ∃ answers, answer_ids answers
        ≡ₚ [(Some "tool", Some "functions.Read:0"); (Some "tool", Some "c2")].
Proof.
  destruct (round (sample_loop 5 []) (no_tools []) fresh_context
      (start [] 0 [] SSt.default None) ([Ok two_calls], [], "d1")) as [w' [s'|o]] eqn:E;
    [|by vm_compute in E].
  destruct (every_call_is_answered (sample_loop 5 []) (no_tools []) fresh_context no_tools
    (start [] 0 [] SSt.default None) ([Ok two_calls], [], "d1") w' s')
    as (w1 & v & assistant & arr & calls & w2 & results & answers & reflection & Hs & _ & Harr & _
        & _ & _ & _ & _ & _ & Ha & _);
    [done|intros calls w; cbn; rewrite <- list_fmap_compose; cbn; rewrite list_fmap_id;
      apply reverse_Permutation|done|].
  vm_compute in E. injection E as <- <-. eexists. split; [reflexivity|]. exists answers.
  vm_compute in Hs. injection Hs as _ <-. vm_compute in Harr. injection Harr as <-. exact Ha.
Defined.
